(* ===== verification/_CoqProject ===== *)
-Q . S2P
Prelude.v
GoStrings.v
GoTime.v
GoTimeFacts.v
Entities.v
TokenProcessor.v
TokenProcessorFacts.v
Timeutil.v
TimeutilFacts.v
GoCrypto.v
Inbox.v
InboxFacts.v
UsageMessage.v
SyncProcess.v
SyncProcessFacts.v
ActivityGrain.v
ActivityFacts.v
ActivityRowsFacts.v
Uvarint.v
Sketch.v
SketchFacts.v
SampleSet.v
SampleHeapFacts.v
SampleQueryFacts.v
ControlMessage.v
ControlMessageFacts.v
Runner.v
IngestRunner.v
IngestFacts.v
ProcessRunner.v
ProcessFacts.v
ErrorRunner.v
Sql.v
GoFloat.v
Pricing.v
PricingFacts.v
Overview.v
LatencyRows.v
Aggregation.v
AggregationFacts.v
AggregationRuns.v
OverviewTotals.v
RecentEvents.v
RecentEventsFacts.v
RecentEventsRuns.v
IdentityStats.v
IdentitySync.v
IdentityFacts.v
AggregationRunner.v
AggregationTurns.v
AggregationRunnerFacts.v
AggregationLoop.v
AggregationFair.v
AggregationRest.v
AggregationPromises.v
LoginLimiter.v
Session.v
SessionFacts.v
Quota.v
DisplayName.v
HeaderPending.v
RefreshTasks.v
HeaderCache.v
Inspection.v
RefreshRuns.v
RefreshTaskFacts.v
RefreshOwners.v
RefreshEnds.v
HeaderFacts.v
AutoRefresh.v
HeaderCacheFacts.v
QuotaHistory.v
QuotaHistoryFacts.v
QuotaSampler.v
QuotaSamplerFacts.v
QuotaSamplerRuns.v
Resp.v
RespFacts.v
QuotaEfficiency.v
QuotaEfficiencyFacts.v
