(* ===== verification/Prelude.v ===== *)
(** CodexKeeper verification: prelude (header to be completed). *)
From stdpp Require Export base tactics decidable numbers list gmap strings fin_maps.
From Stdlib Require Export ZArith Lia Sorting.Sorted Sorting.Permutation.

#[global] Open Scope Z_scope.

(** ** Machine integers *)

Definition int64_min : Z := - 2 ^ 63.
Definition int64_max : Z := 2 ^ 63 - 1.
Definition uint64_max : Z := 2 ^ 64 - 1.

Definition in_int64 (z : Z) : Prop := int64_min <= z <= int64_max.
Definition in_uint64 (z : Z) : Prop := 0 <= z <= uint64_max.

Definition wrap64 (z : Z) : Z := (z + 2 ^ 63) mod 2 ^ 64 - 2 ^ 63.
Definition wrapu64 (z : Z) : Z := z mod 2 ^ 64.

Definition add64 (a b : Z) : Z := wrap64 (a + b).
Definition sub64 (a b : Z) : Z := wrap64 (a - b).
Definition mul64 (a b : Z) : Z := wrap64 (a * b).

(** ** Errors: a Go function returning [(T, error)] *)

Inductive result (E A : Type) : Type :=
| Ok (a : A)
| Err (e : E).
Arguments Ok {E A} a.
Arguments Err {E A} e.

Definition result_bind {E A B} (m : result E A) (f : A -> result E B) : result E B :=
  match m with Ok a => f a | Err e => Err e end.

Definition is_ok {E A} (m : result E A) : bool :=
  match m with Ok _ => true | Err _ => false end.

(** ** Scope and notations of the development *)

Declare Scope keeper_scope.
Delimit Scope keeper_scope with keeper.
Notation "'let?' x := m 'in' k" := (result_bind m (fun x => k))
  (at level 10, x pattern, m at level 100, k at level 200) : keeper_scope.
Notation "a =?s b" := (String.eqb a b) (at level 70) : keeper_scope.
#[global] Open Scope keeper_scope.

(** ** Automation *)

(** [unfold64] exposes the numeric bounds to [lia]. *)
Ltac unfold64 :=
  unfold in_int64, in_uint64, int64_min, int64_max, uint64_max in *.

(** [bool_split] turns the boolean tests of the code into propositions. *)
Ltac bool_split :=
  repeat match goal with
  | H : _ && _ = true |- _ => apply andb_true_iff in H as [? ?]
  | H : _ && _ = false |- _ => apply andb_false_iff in H as [?|?]
  | H : _ || _ = true |- _ => apply orb_true_iff in H as [?|?]
  | H : _ || _ = false |- _ => apply orb_false_iff in H as [? ?]
  | H : negb _ = true |- _ => apply negb_true_iff in H
  | H : negb _ = false |- _ => apply negb_false_iff in H
  | H : (_ <? _) = true |- _ => apply Z.ltb_lt in H
  | H : (_ <? _) = false |- _ => apply Z.ltb_ge in H
  | H : (_ <=? _) = true |- _ => apply Z.leb_le in H
  | H : (_ <=? _) = false |- _ => apply Z.leb_gt in H
  | H : (_ =? _) = true |- _ => apply Z.eqb_eq in H
  | H : (_ =? _) = false |- _ => apply Z.eqb_neq in H
  | H : (_ =?s _) = true |- _ => apply String.eqb_eq in H
  | H : (_ =?s _) = false |- _ => apply String.eqb_neq in H
  | H : bool_decide _ = true |- _ => apply bool_decide_eq_true in H
  | H : bool_decide _ = false |- _ => apply bool_decide_eq_false in H
  end.

(** [if_split] destructs the first test the goal branches on. *)
Ltac if_split :=
  match goal with
  | |- context [if ?b then _ else _] =>
      lazymatch b with
      | context [if _ then _ else _] => fail
      | _ => let E := fresh "E" in destruct b eqn:E
      end
  end.

Create HintDb keeper.
Create Rewrite HintDb keeper.

(** ** Lemmas *)

Lemma wrap64_id (z : Z) : in_int64 z -> wrap64 z = z.
Proof. unfold64. unfold wrap64. intros. rewrite Z.mod_small; lia. Qed.

Lemma wrap64_range (z : Z) : in_int64 (wrap64 z).
Proof.
  unfold64. unfold wrap64.
  pose proof (Z.mod_pos_bound (z + 2 ^ 63) (2 ^ 64)). lia.
Qed.

Lemma wrapu64_id (z : Z) : in_uint64 z -> wrapu64 z = z.
Proof. unfold64. unfold wrapu64. intros. rewrite Z.mod_small; lia. Qed.

Lemma wrapu64_range (z : Z) : in_uint64 (wrapu64 z).
Proof. unfold64. unfold wrapu64. pose proof (Z.mod_pos_bound z (2 ^ 64)). lia. Qed.

Lemma add64_id (a b : Z) : in_int64 (a + b) -> add64 a b = a + b.
Proof. apply wrap64_id. Qed.

Lemma sub64_id (a b : Z) : in_int64 (a - b) -> sub64 a b = a - b.
Proof. apply wrap64_id. Qed.

Lemma mul64_id (a b : Z) : in_int64 (a * b) -> mul64 a b = a * b.
Proof. apply wrap64_id. Qed.

#[export] Hint Resolve wrap64_range wrapu64_range : keeper.

(** Sum of a list of integers, the specification of the source's folds. *)
Definition sum_Z (l : list Z) : Z := foldr Z.add 0 l.

Lemma sum_Z_app (l k : list Z) : sum_Z (l ++ k) = sum_Z l + sum_Z k.
Proof. induction l; simpl; [done|]. unfold sum_Z in *. simpl. lia. Qed.

Lemma sum_Z_snoc (l : list Z) (a : Z) : sum_Z (l ++ [a]) = sum_Z l + a.
Proof. rewrite sum_Z_app. unfold sum_Z at 2. simpl. lia. Qed.

Lemma sum_Z_nonneg (l : list Z) : Forall (fun z => 0 <= z) l -> 0 <= sum_Z l.
Proof. induction 1; unfold sum_Z in *; simpl; lia. Qed.

Lemma sum_Z_cons (a : Z) (l : list Z) : sum_Z (a :: l) = a + sum_Z l.
Proof. reflexivity. Qed.

#[export] Instance sum_Z_Permutation : Proper (Permutation ==> eq) sum_Z.
Proof.
  intros l k H. induction H; rewrite ?sum_Z_cons; lia.
Qed.

(** Equality up to the wrap-around of 64-bit arithmetic. *)
Definition eqm64 (a b : Z) : Prop := exists k, a = b + k * 2 ^ 64.

#[export] Instance eqm64_equivalence : Equivalence eqm64.
Proof.
  split.
  - intros a. exists 0. lia.
  - intros a b [k ->]. exists (- k). lia.
  - intros a b c [k ->] [j ->]. exists (k + j). lia.
Qed.

#[export] Instance eqm64_add : Proper (eqm64 ==> eqm64 ==> eqm64) Z.add.
Proof. intros a b [k ->] c d [j ->]. exists (k + j). lia. Qed.

#[export] Instance eqm64_sub : Proper (eqm64 ==> eqm64 ==> eqm64) Z.sub.
Proof. intros a b [k ->] c d [j ->]. exists (k - j). lia. Qed.

Lemma wrap64_eqm (a : Z) : eqm64 (wrap64 a) a.
Proof.
  unfold wrap64. exists (- ((a + 2 ^ 63) / 2 ^ 64)).
  pose proof (Z.div_mod (a + 2 ^ 63) (2 ^ 64)). lia.
Qed.

Lemma add64_eqm (a b : Z) : eqm64 (add64 a b) (a + b).
Proof. apply wrap64_eqm. Qed.

Lemma eqm64_wrap (a b : Z) : eqm64 a b -> wrap64 a = wrap64 b.
Proof.
  intros [k ->]. unfold wrap64.
  replace (b + k * 2 ^ 64 + 2 ^ 63) with (b + 2 ^ 63 + k * 2 ^ 64) by lia.
  by rewrite Z.mod_add by lia.
Qed.

(** ** Sums over finite maps *)

Section SumMap.
Context {K : Type} `{Countable K} {V : Type} (f : K -> V -> Z).

Definition gmap_sum (m : gmap K V) : Z :=
  sum_Z (map (fun kv => f kv.1 kv.2) (map_to_list m)).

Lemma gmap_sum_empty : gmap_sum ∅ = 0.
Proof. unfold gmap_sum. by rewrite map_to_list_empty. Qed.

Lemma gmap_sum_insert_new (m : gmap K V) (k : K) (v : V) :
  m !! k = None -> gmap_sum (<[k := v]> m) = f k v + gmap_sum m.
Proof. intros E. unfold gmap_sum. by rewrite (map_to_list_insert m k v E). Qed.

Lemma gmap_sum_lookup (m : gmap K V) (k : K) :
  gmap_sum m = match m !! k with Some v => f k v | None => 0 end + gmap_sum (delete k m).
Proof.
  destruct (m !! k) as [v|] eqn:E.
  - rewrite <- (insert_delete_id m k v E) at 1.
    by rewrite gmap_sum_insert_new by apply lookup_delete_eq.
  - by rewrite delete_id.
Qed.

Lemma gmap_sum_insert (m : gmap K V) (k : K) (v : V) :
  gmap_sum (<[k := v]> m) =
  gmap_sum m + f k v - match m !! k with Some v => f k v | None => 0 end.
Proof.
  rewrite <- insert_delete_eq. rewrite gmap_sum_insert_new by apply lookup_delete_eq.
  rewrite (gmap_sum_lookup m k). lia.
Qed.
End SumMap.

Lemma Ok_inj {E A} (a b : A) : @Ok E A a = Ok b -> a = b.
Proof. by intros [= ->]. Qed.

Lemma filter_all {A} (P : A -> Prop) `{forall x, Decision (P x)} (l : list A) :
  (forall x, x ∈ l -> P x) -> filter P l = l.
Proof.
  induction l as [|a l IH]; intros HP; [done|]. rewrite filter_cons_True by (apply HP; left).
  f_equal. apply IH. intros x Hx. apply HP. by right.
Qed.

Lemma omap_cons {A B} (f : A -> option B) (x : A) (l : list A) :
  omap f (x :: l) = match f x with Some y => y :: omap f l | None => omap f l end.
Proof. reflexivity. Qed.

(** ** sort.SliceStable *)

Section StableSort.
Context {A : Type} (less : A -> A -> bool).

Fixpoint insertSorted (x : A) (l : list A) : list A :=
  match l with
  | [] => [x]
  | y :: l' => if less x y then x :: l else y :: insertSorted x l'
  end.

(** Each element goes behind those it is not less than. *)
Definition stableSort (l : list A) : list A := foldl (fun sorted x => insertSorted x sorted) [] l.

Lemma insertSorted_perm x l : insertSorted x l ≡ₚ x :: l.
Proof. induction l as [|y l IH]; cbn; [done|]. case_match; [done|]. rewrite IH. constructor. Qed.

Lemma stableSort_perm l : stableSort l ≡ₚ l.
Proof.
  unfold stableSort. rewrite <- (app_nil_l l) at 2. generalize (@nil A). induction l as [|x l IH]; intros s; cbn; [by rewrite app_nil_r|].
  rewrite IH, insertSorted_perm. by rewrite <- Permutation_middle.
Qed.

Lemma elem_of_stableSort x l : x ∈ stableSort l <-> x ∈ l.
Proof. by rewrite stableSort_perm. Qed.

(** Of two elements the one that comes first is not the greater one. *)
Hypothesis less_asymm : forall a b, less a b = true -> less b a = false.
Hypothesis less_cotrans : forall a b c, less b a = false -> less c b = false -> less c a = false.

Lemma insertSorted_sorted x l :
  StronglySorted (fun a b => less b a = false) l -> StronglySorted (fun a b => less b a = false) (insertSorted x l).
Proof.
  induction 1 as [|y l S IH All]; cbn; [by repeat constructor|]. destruct (less x y) eqn:L.
  - constructor; [by constructor|]. constructor; [by apply less_asymm|].
    eapply Forall_impl; [exact All|]. cbn. intros z. apply less_cotrans. by apply less_asymm.
  - constructor; [done|]. apply Forall_forall. intros z In. rewrite insertSorted_perm in In.
    apply elem_of_cons in In as [->|In]; [done|]. by eapply Forall_forall in All.
Qed.

Lemma stableSort_sorted l : StronglySorted (fun a b => less b a = false) (stableSort l).
Proof.
  unfold stableSort. assert (StronglySorted (fun a b => less b a = false) (@nil A)) as S by constructor.
  revert S. generalize (@nil A). induction l as [|x l IH]; intros s S; cbn; [done|]. by apply IH, insertSorted_sorted.
Qed.
End StableSort.
