(* ===== verification/GoStrings.v ===== *)
(** Strings of the Go standard library, as far as the program uses them.

    A Go string is a byte string, modelled by [string] (a list of 8-bit
    [ascii]).  [TrimSpace] follows [strings.TrimSpace]: it removes the runes of
    [unicode.IsSpace], ASCII or not, given by their UTF-8 encodings.
    [ToLower] follows [strings.ToLower] on ASCII letters and on the two other
    runes whose lower case is an ASCII letter (U+0130 and the Kelvin sign
    U+212A); any other rune is left as it is, which is enough because the
    program only compares the result with ASCII words. *)
From S2P Require Import Prelude.
From Stdlib Require Import Ascii.

Definition byte_code (a : ascii) : Z := Z.of_N (N_of_ascii a).

Definition mk_byte (z : Z) : ascii := ascii_of_N (Z.to_N z).

Definition mk_bytes (l : list Z) : string :=
  foldr (fun z s => String (mk_byte z) s) EmptyString l.

(** *** unicode.IsSpace, by encoding length *)

Definition is_space1 (a : ascii) : bool :=
  let c := byte_code a in (c =? 32) || ((9 <=? c) && (c <=? 13)).

Definition is_space2 (a b : ascii) : bool :=
  (byte_code a =? 194) && ((byte_code b =? 133) || (byte_code b =? 160)).

Definition is_space3 (a b c : ascii) : bool :=
  let x := byte_code a in let y := byte_code b in let z := byte_code c in
  ((x =? 225) && (y =? 154) && (z =? 128)) ||
  ((x =? 226) && (y =? 128) &&
     (((128 <=? z) && (z <=? 138)) || (z =? 168) || (z =? 169) || (z =? 175))) ||
  ((x =? 226) && (y =? 129) && (z =? 159)) ||
  ((x =? 227) && (y =? 128) && (z =? 128)).

(** Drop the space runes a byte string starts with; [sp2] and [sp3] read the
    bytes in the order of the list. *)
Fixpoint drop_spaces (sp2 : ascii -> ascii -> bool)
    (sp3 : ascii -> ascii -> ascii -> bool) (l : list ascii) : list ascii :=
  match l with
  | [] => []
  | a :: r1 =>
      if is_space1 a then drop_spaces sp2 sp3 r1 else
      match r1 with
      | [] => l
      | b :: r2 =>
          if sp2 a b then drop_spaces sp2 sp3 r2 else
          match r2 with
          | [] => l
          | c :: r3 => if sp3 a b c then drop_spaces sp2 sp3 r3 else l
          end
      end
  end.

Definition TrimLeftSpace (l : list ascii) : list ascii :=
  drop_spaces is_space2 is_space3 l.

Definition TrimRightSpace (l : list ascii) : list ascii :=
  rev (drop_spaces (fun b a => is_space2 a b) (fun c b a => is_space3 a b c) (rev l)).

Definition TrimSpace (s : string) : string :=
  String.string_of_list_ascii (TrimRightSpace (TrimLeftSpace (String.list_ascii_of_string s))).

(** *** strings.ToLower *)

Definition lower_byte (a : ascii) : ascii :=
  let c := byte_code a in if (65 <=? c) && (c <=? 90) then mk_byte (c + 32) else a.

Fixpoint lower_bytes (l : list ascii) : list ascii :=
  match l with
  | [] => []
  | a :: r1 =>
      match r1 with
      | b :: r2 =>
          if (byte_code a =? 196) && (byte_code b =? 176)
          then mk_byte 105 :: lower_bytes r2
          else match r2 with
               | c :: r3 =>
                   if (byte_code a =? 226) && (byte_code b =? 132) && (byte_code c =? 170)
                   then mk_byte 107 :: lower_bytes r3
                   else lower_byte a :: lower_bytes r1
               | [] => lower_byte a :: lower_bytes r1
               end
      | [] => lower_byte a :: lower_bytes r1
      end
  end.

Definition ToLower (s : string) : string :=
  String.string_of_list_ascii (lower_bytes (String.list_ascii_of_string s)).

(** The length of a Go string, in bytes. *)
Definition len (s : string) : Z := Z.of_nat (String.length s).

(** [HasPrefix] and [HasSuffix] of package strings. *)
Fixpoint list_prefix (p l : list ascii) : bool :=
  match p, l with
  | [], _ => true
  | a :: p', b :: l' => Ascii.eqb a b && list_prefix p' l'
  | _, _ => false
  end.

Definition HasPrefix (s p : string) : bool :=
  list_prefix (String.list_ascii_of_string p) (String.list_ascii_of_string s).

Definition HasSuffix (s p : string) : bool :=
  list_prefix (rev (String.list_ascii_of_string p)) (rev (String.list_ascii_of_string s)).

(** [strings.Contains]. *)
Fixpoint list_contains (p l : list ascii) : bool :=
  list_prefix p l ||
  match l with [] => false | _ :: l' => list_contains p l' end.

Definition Contains (s p : string) : bool :=
  list_contains (String.list_ascii_of_string p) (String.list_ascii_of_string s).

(** The order of Go's [<] on strings: bytewise lexicographic. *)
Definition string_lt (s t : string) : bool := String.ltb s t.

(** ** Lemmas *)

Lemma trim_space_ascii_example : TrimSpace "  Codex  "%string = "Codex"%string.
Proof. reflexivity. Qed.

Lemma to_lower_example : ToLower "CodexWebsocketsExecutor"%string = "codexwebsocketsexecutor"%string.
Proof. reflexivity. Qed.

Lemma drop_spaces_suffix sp2 sp3 l : exists p, l = p ++ drop_spaces sp2 sp3 l.
Proof.
  remember (length l) as n eqn:Hn.
  revert l Hn. induction (lt_wf n) as [n _ IH]; intros l ->.
  destruct l as [|a r1]; [by exists []|]. cbn [drop_spaces].
  destruct (is_space1 a).
  { destruct (IH (length r1) ltac:(simpl; lia) r1 eq_refl) as [p Hp].
    exists (a :: p). simpl. by rewrite <- Hp. }
  destruct r1 as [|b r2]; [by exists []|].
  destruct (sp2 a b).
  { destruct (IH (length r2) ltac:(simpl; lia) r2 eq_refl) as [p Hp].
    exists (a :: b :: p). simpl. by rewrite <- Hp. }
  destruct r2 as [|c r3]; [by exists []|].
  destruct (sp3 a b c); [|by exists []].
  destruct (IH (length r3) ltac:(simpl; lia) r3 eq_refl) as [p Hp].
  exists (a :: b :: c :: p). simpl. by rewrite <- Hp.
Qed.

(** ** The order of strings *)

Lemma string_lt_cons (a b : ascii) (s t : string) :
  string_lt (String a s) (String b t) =
  (byte_code a <? byte_code b) || (byte_code a =? byte_code b) && string_lt s t.
Proof.
  unfold string_lt, String.ltb, byte_code. simpl. unfold Ascii.compare.
  destruct (N.compare_spec (N_of_ascii a) (N_of_ascii b)) as [E|E|E].
  - rewrite E, Z.ltb_irrefl, Z.eqb_refl. done.
  - rewrite (proj2 (Z.ltb_lt _ _)) by lia. done.
  - rewrite (proj2 (Z.ltb_ge _ _)), (proj2 (Z.eqb_neq _ _)) by lia. done.
Qed.

Lemma string_lt_same (a : ascii) (s t : string) :
  string_lt (String a s) (String a t) = string_lt s t.
Proof. rewrite string_lt_cons, Z.ltb_irrefl, Z.eqb_refl. done. Qed.

Lemma string_lt_nil (s : string) : string_lt s EmptyString = false.
Proof. by destruct s. Qed.

Lemma string_lt_irrefl (s : string) : string_lt s s = false.
Proof. induction s as [|a s IH]; [done|]. by rewrite string_lt_same. Qed.

Lemma string_lt_trans (s t u : string) :
  string_lt s t = true -> string_lt t u = true -> string_lt s u = true.
Proof.
  revert t u. induction s as [|a s IH]; intros [|b t] [|c u]; try done.
  rewrite !string_lt_cons, !orb_true_iff, !andb_true_iff, !Z.ltb_lt, !Z.eqb_eq.
  intros [H1|[H1 H1']] [H2|[H2 H2']]; [left; lia..|]. right. split; [lia|]. by eapply IH.
Qed.

Lemma byte_code_inj (a b : ascii) : byte_code a = byte_code b -> a = b.
Proof.
  intros E. unfold byte_code in E.
  rewrite <- (ascii_N_embedding a), <- (ascii_N_embedding b). f_equal. lia.
Qed.

Lemma string_lt_total (s t : string) : string_lt s t = true \/ s = t \/ string_lt t s = true.
Proof.
  revert t. induction s as [|a s IH]; intros [|b t]; [by right; left|by left|by do 2 right|].
  rewrite !string_lt_cons, !orb_true_iff, !andb_true_iff, !Z.ltb_lt, !Z.eqb_eq.
  destruct (Z.lt_trichotomy (byte_code a) (byte_code b)) as [H|[H|H]]; [by left; left| |by do 2 right; left].
  apply byte_code_inj in H as ->.
  destruct (IH t) as [H|[->|H]]; [left; by right|right; by left|right; right; by right].
Qed.

(** strings.TrimSpace trims what is left to trim: a second time it changes nothing. *)
From Stdlib Require Import Ascii.

Local Open Scope string_scope.
Local Open Scope list_scope.

Section Drop.
Context (sp2 : ascii -> ascii -> bool) (sp3 : ascii -> ascii -> ascii -> bool).
Abbreviation drop_ := (drop_spaces sp2 sp3).

(** What [drop_spaces] leaves is a suffix that it leaves alone. *)
Lemma drop_spaces_spec n l : (length l <= n)%nat -> (exists k, l = k ++ drop_ l) /\ drop_ (drop_ l) = drop_ l.
Proof.
  revert l. induction n as [|n IH]; intros [|a r1] H; cbn [length] in H; try lia; [by split; [exists []|]|by split; [exists []|]|].
  cbn [drop_spaces]. destruct (is_space1 a) eqn:E1.
  { destruct (IH r1 ltac:(lia)) as [[k Hk] ?]. split; [|done]. exists (a :: k). cbn [app]. by rewrite <- Hk. }
  destruct r1 as [|b r2]; [by split; [exists []|cbn; rewrite E1]|]. destruct (sp2 a b) eqn:E2.
  { cbn [length] in H. destruct (IH r2 ltac:(lia)) as [[k Hk] ?]. split; [|done]. exists (a :: b :: k). cbn [app]. by rewrite <- Hk. }
  destruct r2 as [|c r3]; [by split; [exists []|cbn; rewrite E1, E2]|]. destruct (sp3 a b c) eqn:E3.
  { cbn [length] in H. destruct (IH r3 ltac:(lia)) as [[k Hk] ?]. split; [|done].
    exists (a :: b :: c :: k). cbn [app]. by rewrite <- Hk. }
  split; [by exists []|]. cbn. by rewrite E1, E2, E3.
Qed.

Lemma drop_spaces_length l : (length (drop_ l) <= length l)%nat.
Proof. destruct (drop_spaces_spec _ l (Nat.le_refl _)) as [[k Hk] _]. rewrite Hk at 2. rewrite length_app. lia. Qed.

(** A prefix of what is left alone is left alone. *)
Lemma drop_spaces_prefix l k : drop_ (l ++ k) = l ++ k -> drop_ l = l.
Proof.
  destruct l as [|a r1]; [done|]. cbn [app drop_spaces]. destruct (is_space1 a) eqn:E1.
  { intros H. pose proof (drop_spaces_length (r1 ++ k)) as L. rewrite H in L. cbn [length] in L. lia. }
  destruct r1 as [|b r2]; [done|]. cbn [app]. destruct (sp2 a b) eqn:E2.
  { intros H. pose proof (drop_spaces_length (r2 ++ k)) as L. rewrite H in L. cbn [length] in L. lia. }
  destruct r2 as [|c r3]; [done|]. cbn [app]. destruct (sp3 a b c) eqn:E3; [|done].
  intros H. pose proof (drop_spaces_length (r3 ++ k)) as L. rewrite H in L. cbn [length] in L. lia.
Qed.

End Drop.

Lemma TrimLeftSpace_twice l : TrimLeftSpace (TrimLeftSpace l) = TrimLeftSpace l.
Proof. unfold TrimLeftSpace. by apply (drop_spaces_spec _ _ _ _ (Nat.le_refl _)). Qed.

Lemma TrimRightSpace_twice l : TrimRightSpace (TrimRightSpace l) = TrimRightSpace l.
Proof.
  unfold TrimRightSpace. rewrite rev_involutive. f_equal. by apply (drop_spaces_spec _ _ _ _ (Nat.le_refl _)).
Qed.

Lemma TrimRightSpace_prefix l : exists k, l = TrimRightSpace l ++ k.
Proof.
  unfold TrimRightSpace.
  destruct (drop_spaces_spec (fun b a => is_space2 a b) (fun c b a => is_space3 a b c) _ (rev l) (Nat.le_refl _))
    as [[k Hk] _].
  exists (rev k). rewrite <- rev_app_distr, <- Hk. by rewrite rev_involutive.
Qed.

Lemma TrimSpace_twice s : TrimSpace (TrimSpace s) = TrimSpace s.
Proof.
  unfold TrimSpace. rewrite String.list_ascii_of_string_of_list_ascii. f_equal.
  set (l := TrimLeftSpace (String.list_ascii_of_string s)). assert (L : TrimLeftSpace l = l) by apply TrimLeftSpace_twice.
  destruct (TrimRightSpace_prefix l) as [k Hk].
  assert (P : TrimLeftSpace (TrimRightSpace l) = TrimRightSpace l).
  { apply (drop_spaces_prefix _ _ _ k). rewrite <- Hk. exact L. }
  rewrite P. apply TrimRightSpace_twice.
Qed.

(** Package unicode/utf8: [utf8.ValidString], on the bytes of a Go string. *)
From Stdlib Require Import Ascii.

Local Open Scope list_scope.
Local Open Scope Z_scope.

Definition in_range (lo hi : Z) (a : ascii) : bool :=
  (lo <=? byte_code a) && (byte_code a <=? hi).

(** A continuation byte. *)
Definition cont (a : ascii) : bool := in_range 128 191 a.

(** The bytes allowed after a three- or four-byte lead. *)
Definition second3 (a b : ascii) : bool :=
  if byte_code a =? 224 then in_range 160 191 b
  else if byte_code a =? 237 then in_range 128 159 b
  else cont b.

Definition second4 (a b : ascii) : bool :=
  if byte_code a =? 240 then in_range 144 191 b
  else if byte_code a =? 244 then in_range 128 143 b
  else cont b.

Fixpoint valid_bytes (l : list ascii) : bool :=
  match l with
  | [] => true
  | a :: r =>
      if byte_code a <? 128 then valid_bytes r
      else if in_range 194 223 a then
        match r with
        | b :: r' => cont b && valid_bytes r'
        | [] => false
        end
      else if in_range 224 239 a then
        match r with
        | b :: c :: r' => second3 a b && cont c && valid_bytes r'
        | _ => false
        end
      else if in_range 240 244 a then
        match r with
        | b :: c :: d :: r' => second4 a b && cont c && cont d && valid_bytes r'
        | _ => false
        end
      else false
  end.

Definition ValidString (s : string) : bool := valid_bytes (String.list_ascii_of_string s).

(** ** Lemmas *)

(** Induction over the runes of a valid string. *)
Lemma valid_ind (P : list ascii -> Prop) :
  P [] ->
  (forall u r, (1 <= length u <= 4)%nat -> valid_bytes u = true ->
     (forall k, valid_bytes (u ++ k) = valid_bytes k) -> valid_bytes r = true -> P r -> P (u ++ r)) ->
  forall l, valid_bytes l = true -> P l.
Proof.
  intros H0 Hs l. remember (length l) as n eqn:En. revert l En.
  induction (lt_wf n) as [n _ IH]. intros l -> V. destruct l as [|a r]; [done|].
  cbn [valid_bytes] in V.
  destruct (byte_code a <? 128) eqn:E1.
  { apply (Hs [a] r); [simpl; lia|cbn; by rewrite E1| |done|].
    - intros k. cbn [app valid_bytes]. by rewrite E1.
    - apply (IH (length r)); [simpl; lia|done|done]. }
  destruct (in_range 194 223 a) eqn:E2.
  { destruct r as [|b r]; [done|]. apply andb_true_iff in V as [Vb V].
    apply (Hs [a; b] r); [simpl; lia|cbn; by rewrite E1, E2, Vb| |done|].
    - intros k. cbn [app valid_bytes]. by rewrite E1, E2, Vb.
    - apply (IH (length r)); [simpl; lia|done|done]. }
  destruct (in_range 224 239 a) eqn:E3.
  { destruct r as [|b [|c r]]; [done|done|]. apply andb_true_iff in V as [Vb V].
    apply (Hs [a; b; c] r); [simpl; lia|cbn; by rewrite E1, E2, E3, Vb| |done|].
    - intros k. cbn [app valid_bytes]. by rewrite E1, E2, E3, Vb.
    - apply (IH (length r)); [simpl; lia|done|done]. }
  destruct (in_range 240 244 a) eqn:E4; [|done].
  destruct r as [|b [|c [|d r]]]; [done|done|done|]. apply andb_true_iff in V as [Vb V].
  apply (Hs [a; b; c; d] r); [simpl; lia|cbn; by rewrite E1, E2, E3, E4, Vb| |done|].
  - intros k. cbn [app valid_bytes]. by rewrite E1, E2, E3, E4, Vb.
  - apply (IH (length r)); [simpl; lia|done|done].
Qed.

(** A valid string has a valid prefix that ends at most three bytes before any
    given length. *)
Lemma valid_prefix (l : list ascii) (n : nat) : valid_bytes l = true -> (n <= length l)%nat ->
  exists m, (n <= m + 3)%nat /\ (m <= n)%nat /\ valid_bytes (take m l) = true.
Proof.
  intros V. revert n. pattern l. revert l V. apply valid_ind.
  - intros n Hn. exists 0%nat. simpl in *. split_and!; [lia|lia|done].
  - intros u r Lu Vu Hu Vr IH n Hn. rewrite length_app in Hn.
    destruct (Nat.lt_ge_cases n (length u)) as [L|L].
    + exists 0%nat. split_and!; [lia|lia|done].
    + destruct (IH (n - length u)%nat) as (m & H1 & H2 & H3); [lia|].
      exists (length u + m)%nat. split_and!; [lia|lia|].
      rewrite take_app_ge by lia. rewrite Hu.
      by replace (length u + m - length u)%nat with m by lia.
Qed.
