(* ===== verification/GoTime.v ===== *)
(** Package time of the Go standard library, as far as the program uses it.

    An instant ([Time]) is a number of nanoseconds since the Unix epoch; a
    [Location] is the table of a time zone: an offset before the first
    transition and the list of its transitions (Unix second, new offset in
    seconds), which is how [time.Location.lookup] reads it.  [Date] resolves a
    wall clock to an instant the way [time.Date] does, probing the zone of the
    wall clock read as UTC and once more when that guess falls outside of the
    zone; [AddDate] goes through [Date].  The formats are the layouts the
    program names: RFC3339Nano, the fixed-width UTC layout, and the parsers of
    [DateOnly] and [RFC3339]. *)
From S2P Require Import Prelude GoStrings.
From Stdlib Require Import Ascii.

Local Open Scope string_scope.
Local Open Scope list_scope.
Local Open Scope Z_scope.

Abbreviation Time := Z (only parsing).
Abbreviation Duration := Z (only parsing).

Definition Millisecond : Duration := 1000000.
Definition Second : Duration := 1000000000.
Definition Minute : Duration := 60 * Second.
Definition Hour : Duration := 60 * Minute.

(** [t.Unix()], [t.Nanosecond()] and [time.Unix(sec, 0)]. *)
Definition Unix (t : Time) : Z := t / Second.
Definition Nanosecond (t : Time) : Z := t mod Second.
Definition unix_time (sec : Z) : Time := sec * Second.

(** The zero [time.Time]: January 1, year 1, 00:00:00 UTC. *)
Definition zero_time : Time := unix_time (-62135596800).
Definition IsZero (t : Time) : bool := t =? zero_time.

(** ** Locations *)

Record Zone := mkZone { zoneOffset : Z; zoneStart : Z; zoneEnd : Z }.

Record Location := mkLocation {
  locFirst : Z;
  locTrans : list (Z * Z);
}.

Fixpoint lookup_from (start off : Z) (trans : list (Z * Z)) (sec : Z) : Zone :=
  match trans with
  | [] => mkZone off start int64_max
  | (at_, off') :: r =>
      if sec <? at_ then mkZone off start at_ else lookup_from at_ off' r sec
  end.

(** [Location.lookup]: the zone in use at a Unix second. *)
Definition lookup_zone (l : Location) (sec : Z) : Zone :=
  lookup_from int64_min (locFirst l) (locTrans l) sec.

Definition FixedZone (off : Z) : Location := mkLocation off [].
Definition UTC : Location := FixedZone 0.

(** ** The civil calendar (proleptic Gregorian) *)

(** A 400-year era starts on March 1; [year_start] is the day its year [yoe]
    starts on. *)
Definition year_start (yoe : Z) : Z := 365 * yoe + yoe / 4 - yoe / 100.

Definition days_from_civil (y m d : Z) : Z :=
  let y' := if m <=? 2 then y - 1 else y in
  let era := y' / 400 in
  let yoe := y' mod 400 in
  let doy := (153 * (if m <=? 2 then m + 9 else m - 3) + 2) / 5 + d - 1 in
  let doe := year_start yoe + doy in
  era * 146097 + doe - 719468.

(** The year of a day of the era. *)
Definition yoe_of (doe : Z) : Z :=
  (doe - doe / 1460 + doe / 36524 - doe / 146096) / 365.

(** Month and day of the [doy]-th day counted from March 1. *)
Definition month_day (doy : Z) : Z * Z :=
  let mp := (5 * doy + 2) / 153 in
  (if mp <? 10 then mp + 3 else mp - 9, doy - (153 * mp + 2) / 5 + 1).

Definition civil_of_doe (doe : Z) : Z * Z * Z :=
  let yoe := yoe_of doe in
  let '(m, d) := month_day (doe - year_start yoe) in
  (if m <=? 2 then yoe + 1 else yoe, m, d).

Definition civil_from_days (days : Z) : Z * Z * Z :=
  let z := days + 719468 in
  let '(y, m, d) := civil_of_doe (z mod 146097) in
  (y + 400 * (z / 146097), m, d).

Definition is_leap (y : Z) : bool :=
  (y mod 4 =? 0) && (negb (y mod 100 =? 0) || (y mod 400 =? 0)).

(** [daysIn]. *)
Definition days_in (m y : Z) : Z :=
  if m =? 2 then (if is_leap y then 29 else 28)
  else if (m =? 4) || (m =? 6) || (m =? 9) || (m =? 11) then 30 else 31.

(** ** Wall clocks *)

Definition local_sec (l : Location) (t : Time) : Z :=
  Unix t + zoneOffset (lookup_zone l (Unix t)).

(** [t.Date()] and [t.Clock()] of an instant in a location. *)
Definition date_of (l : Location) (t : Time) : Z * Z * Z :=
  civil_from_days (local_sec l t / 86400).
Definition hour_of (l : Location) (t : Time) : Z := local_sec l t mod 86400 / 3600.
Definition minute_of (l : Location) (t : Time) : Z := local_sec l t mod 3600 / 60.
Definition second_of (l : Location) (t : Time) : Z := local_sec l t mod 60.

(** The end of [time.Date]: from a wall clock in seconds to a Unix second. *)
Definition resolve_local (l : Location) (wall : Z) : Z :=
  let z := lookup_zone l wall in
  if zoneOffset z =? 0 then wall
  else
    let utc := wall - zoneOffset z in
    if (utc <? zoneStart z) || (zoneEnd z <=? utc)
    then wall - zoneOffset (lookup_zone l utc)
    else utc.

(** [time.Date]; months, days and clock fields outside of their range carry
    over. *)
Definition Date (y m d h mi s ns : Z) (l : Location) : Time :=
  let y' := y + (m - 1) / 12 in
  let m' := (m - 1) mod 12 + 1 in
  let s' := s + ns / Second in
  let wall := (days_from_civil y' m' 1 + d - 1) * 86400 + h * 3600 + mi * 60 + s' in
  resolve_local l wall * Second + ns mod Second.

(** [t.AddDate(years, months, days)] in the location of [t]. *)
Definition AddDate (l : Location) (t : Time) (years months days : Z) : Time :=
  let '(y, m, d) := date_of l t in
  Date (y + years) (m + months) (d + days)
    (hour_of l t) (minute_of l t) (second_of l t) (Nanosecond t) l.

(** Midnight of the local day of an instant, as the program writes it:
    [time.Date(t.Year(), t.Month(), t.Day(), 0, 0, 0, 0, loc)]. *)
Definition day_start (l : Location) (t : Time) : Time :=
  let '(y, m, d) := date_of l t in Date y m d 0 0 0 0 l.

(** ** Decimal text *)

Definition digit (z : Z) : ascii := mk_byte (48 + z).

(** The [n] low decimal digits, most significant first. *)
Fixpoint fixed (n : nat) (z : Z) : string :=
  match n with
  | O => EmptyString
  | S n' => String (digit (z / 10 ^ Z.of_nat n')) (fixed n' (z mod 10 ^ Z.of_nat n'))
  end.

(** The number of decimal digits of [z], at least 1. *)
Fixpoint num_digits (fuel : nat) (z : Z) : nat :=
  match fuel with
  | O => 1%nat
  | S f => if z <? 10 then 1%nat else S (num_digits f (z / 10))
  end.

(** [strconv.Itoa] on 64-bit integers. *)
Definition Itoa (z : Z) : string :=
  let a := Z.abs z in
  let s := fixed (num_digits 20 a) a in
  if z <? 0 then String.append "-" s else s.

(** [appendInt(x, width)] of package time. *)
Definition append_int (x : Z) (width : nat) : string :=
  let a := Z.abs x in
  let s := fixed (Nat.max width (num_digits 20 a)) a in
  if x <? 0 then String.append "-" s else s.

Definition is_digit (a : ascii) : bool :=
  (48 <=? byte_code a) && (byte_code a <=? 57).

(** Value of a run of digits, [None] when a byte is not one. *)
Fixpoint digits_value (acc : Z) (s : string) : option Z :=
  match s with
  | EmptyString => Some acc
  | String a r =>
      if is_digit a then digits_value (acc * 10 + (byte_code a - 48)) r else None
  end.

(** [strconv.Atoi]: an optional sign, digits, the range of [int]. *)
Definition Atoi (s : string) : option Z :=
  let body neg r :=
    match r with
    | EmptyString => None
    | _ =>
        match digits_value 0 r with
        | None => None
        | Some v =>
            let w := if (neg : bool) then - v else v in
            if (int64_min <=? w) && (w <=? int64_max) then Some w else None
        end
    end in
  match s with
  | String a r =>
      if byte_code a =? 45 then body true r
      else if byte_code a =? 43 then body false r
      else body false s
  | EmptyString => None
  end.

(** ** Layouts *)

(** Remove trailing zeros from a run of digits (layout [.999999999]). *)
Fixpoint trim_zeros (s : string) : string :=
  match s with
  | EmptyString => EmptyString
  | String a r =>
      match trim_zeros r with
      | EmptyString => if byte_code a =? 48 then EmptyString else String a EmptyString
      | r' => String a r'
      end
  end.

Definition frac_nano (ns : Z) : string :=
  match trim_zeros (fixed 9 ns) with
  | EmptyString => EmptyString
  | s => String.append "." s
  end.

(** The date and time up to the seconds: [2006-01-02T15:04:05]. *)
Definition format_seconds (l : Location) (t : Time) : string :=
  let '(y, m, d) := date_of l t in
  String.append (append_int y 4) (String.append "-" (String.append (fixed 2 m)
  (String.append "-" (String.append (fixed 2 d) (String.append "T"
  (String.append (fixed 2 (hour_of l t)) (String.append ":"
  (String.append (fixed 2 (minute_of l t)) (String.append ":"
  (fixed 2 (second_of l t))))))))))).

(** The zone suffix [Z07:00]. *)
Definition format_zone (off : Z) : string :=
  if off =? 0 then "Z"
  else
    let zone := Z.quot off 60 in
    let a := Z.abs zone in
    String.append (if zone <? 0 then "-" else "+")
      (String.append (fixed 2 (a / 60)) (String.append ":" (fixed 2 (a mod 60)))).

(** [t.Format(time.RFC3339Nano)] in a location. *)
Definition format_rfc3339nano (l : Location) (t : Time) : string :=
  String.append (format_seconds l t)
    (String.append (frac_nano (Nanosecond t))
       (format_zone (zoneOffset (lookup_zone l (Unix t))))).

(** ** Parsers *)

(** [getnum]: one or two digits; two are required when [two] is set. *)
Definition getnum (two : bool) (s : string) : option (Z * string) :=
  match s with
  | String a r =>
      if is_digit a then
        let one := Some (byte_code a - 48, r) in
        match r with
        | String b r' =>
            if is_digit b
            then Some ((byte_code a - 48) * 10 + (byte_code b - 48), r')
            else if two then None else one
        | EmptyString => if two then None else one
        end
      else None
  | EmptyString => None
  end.

(** A literal byte of a layout. *)
Definition skip_byte (c : Z) (s : string) : option string :=
  match s with
  | String a r => if byte_code a =? c then Some r else None
  | EmptyString => None
  end.

Definition take_year (s : string) : option (Z * string) :=
  match s with
  | String a (String b (String c (String e r))) =>
      v ← digits_value 0 (String a (String b (String c (String e EmptyString))));
      Some (v, r)
  | _ => None
  end.

(** The prefix [2006-01-02] and what follows it. *)
Definition parse_ymd (s : string) : option (Z * Z * Z * string) :=
  '(y, s) ← take_year s;
  s ← skip_byte 45 s;
  '(m, s) ← getnum true s;
  if (m <=? 0) || (12 <? m) then None else
  s ← skip_byte 45 s;
  '(d, s) ← getnum true s;
  Some (y, m, d, s).

Definition valid_day (y m d : Z) : bool := (1 <=? d) && (d <=? days_in m y).

(** [time.ParseInLocation(time.DateOnly, value, loc)]. *)
Definition parse_date_only (l : Location) (s : string) : option Time :=
  '(y, m, d, r) ← parse_ymd s;
  match r with
  | EmptyString => if valid_day y m d then Some (Date y m d 0 0 0 0 l) else None
  | _ => None
  end.

Fixpoint span_digits (s : string) : string * string :=
  match s with
  | String a r =>
      if is_digit a then let '(x, y) := span_digits r in (String a x, y)
      else (EmptyString, s)
  | EmptyString => (EmptyString, EmptyString)
  end.

(** Nanoseconds of a digit run after the point: the first nine digits count. *)
Definition parse_nanos (s : string) : Z :=
  let k := Nat.min 9 (String.length s) in
  match digits_value 0 (String.substring 0 k s) with
  | Some v => v * 10 ^ (9 - Z.of_nat k)
  | None => 0
  end.

(** The optional fraction accepted after a seconds field. *)
Definition parse_frac (s : string) : Z * string :=
  match s with
  | String p ((String d _) as r) =>
      if ((byte_code p =? 46) || (byte_code p =? 44)) && is_digit d
      then let '(ds, rest) := span_digits r in (parse_nanos ds, rest)
      else (0, s)
  | _ => (0, s)
  end.

(** How a layout ends: [Z07:00], [-07:00] or without a zone. *)
Inductive ZoneSyntax := ZoneZ | ZoneNum | ZoneNone.

Definition parse_num_zone (s : string) : option (Z * string) :=
  match s with
  | String sg r =>
      '(hr, r) ← getnum true r;
      r ← skip_byte 58 r;
      '(mm, r) ← getnum true r;
      if (24 <? hr) || (60 <? mm) then None else
      let off := (hr * 60 + mm) * 60 in
      if byte_code sg =? 43 then Some (off, r)
      else if byte_code sg =? 45 then Some (- off, r)
      else None
  | EmptyString => None
  end.

(** The offset a value carries ([None] inside when the layout has no zone). *)
Definition parse_zone (z : ZoneSyntax) (s : string) : option (option Z * string) :=
  match z with
  | ZoneNone => Some (None, s)
  | ZoneNum => '(o, r) ← parse_num_zone s; Some (Some o, r)
  | ZoneZ =>
      match skip_byte 90 s with
      | Some r => Some (Some 0, r)
      | None => '(o, r) ← parse_num_zone s; Some (Some o, r)
      end
  end.

(** [time.ParseInLocation] for the layouts
    [2006-01-02<sep>15:04:05[.999999999][<zone>]]; a fraction is accepted after
    the seconds whether the layout has one or not. *)
Definition parse_datetime (sep : Z) (z : ZoneSyntax) (l : Location) (s : string)
    : option Time :=
  '(y, m, d, s) ← parse_ymd s;
  s ← skip_byte sep s;
  '(h, s) ← getnum false s;
  if 24 <=? h then None else
  s ← skip_byte 58 s;
  '(mi, s) ← getnum true s;
  if 60 <=? mi then None else
  s ← skip_byte 58 s;
  '(sec, s) ← getnum true s;
  if 60 <=? sec then None else
  let '(ns, s) := parse_frac s in
  '(off, s) ← parse_zone z s;
  match s with
  | EmptyString =>
      if valid_day y m d
      then Some (match off with
                 | Some o => Date y m d h mi sec ns UTC - o * Second
                 | None => Date y m d h mi sec ns l
                 end)
      else None
  | _ => None
  end.

(** [time.Parse(time.RFC3339, value)]: the separator is the letter T. *)
Definition parse_rfc3339 (s : string) : option Time := parse_datetime 84 ZoneZ UTC s.

#[global] Arguments civil_from_days : simpl never.
#[global] Arguments days_from_civil : simpl never.
#[global] Arguments year_start : simpl never.
#[global] Arguments civil_of_doe : simpl never.
#[global] Arguments local_sec : simpl never.
#[global] Arguments Date : simpl never.
#[global] Arguments fixed : simpl never.
#[global] Arguments Second : simpl never.
