(* ===== verification/GoTimeFacts.v ===== *)
(** Facts of the calendar, the decimal text and the layouts of [GoTime]: the
    civil calendar is a strictly increasing bijection between days and valid
    dates (checked by evaluation over one 400-year era and lifted to all days),
    fixed-width decimals compare like numbers and read back as themselves. *)
From S2P Require Import Prelude GoStrings GoTime.
From Stdlib Require Import Ascii.

Local Open Scope string_scope.
Local Open Scope list_scope.
Local Open Scope Z_scope.

(** ** The calendar *)

(** Lexicographic comparison of dates, with what follows them. *)
Definition date_lex (p q : Z * Z * Z) (rest : bool) : bool :=
  let '(y, m, d) := p in
  let '(y', m', d') := q in
  (y <? y') || (y =? y') && ((m <? m') || (m =? m') && ((d <? d') || (d =? d') && rest)).

Lemma date_lex_spec (y m d y' m' d' : Z) :
  date_lex (y, m, d) (y', m', d') false = true <->
  y < y' \/ y = y' /\ (m < m' \/ m = m' /\ d < d').
Proof.
  unfold date_lex. rewrite andb_false_r, orb_false_r.
  rewrite !orb_true_iff, !andb_true_iff, !orb_true_iff, !andb_true_iff, !Z.ltb_lt, !Z.eqb_eq.
  done.
Qed.

(** One year of the era: its length, and [yoe_of] at its last days. *)
Definition yoe_ok (yoe : Z) : bool :=
  let s := year_start yoe in
  let e := if yoe =? 399 then 146097 else year_start (yoe + 1) in
  (e - s =? if is_leap (yoe + 1) then 366 else 365)
  && (yoe_of s =? yoe) && (yoe_of (e - 2) =? yoe) && (yoe_of (e - 1) =? yoe).

Definition doy_ok (doy : Z) : bool :=
  let '(m, d) := month_day doy in
  ((153 * (if m <=? 2 then m + 9 else m - 3) + 2) / 5 + d - 1 =? doy)
  && (1 <=? m) && (m <=? 12) && (1 <=? d)
  && (if m =? 2 then d =? doy - 336 else d <=? days_in m 1)
  && (negb (364 <=? doy) || (m =? 2))
  && ((doy =? 365) ||
        let '(m', d') := month_day (doy + 1) in
        date_lex (if m <=? 2 then 1 else 0, m, d) (if m' <=? 2 then 1 else 0, m', d') false).

Lemma all_yoe_ok : forallb yoe_ok (seqZ 0 400) = true.
Proof. vm_compute. reflexivity. Qed.

Lemma all_doy_ok : forallb doy_ok (seqZ 0 366) = true.
Proof. vm_compute. reflexivity. Qed.

Lemma forallb_seqZ (f : Z -> bool) (n z : Z) :
  forallb f (seqZ 0 n) = true -> 0 <= z < n -> f z = true.
Proof.
  intros H Hz. rewrite forallb_forall in H.
  apply H, list_elem_of_In, elem_of_seqZ. lia.
Qed.

Definition year_end (yoe : Z) : Z := if yoe =? 399 then 146097 else year_start (yoe + 1).

Lemma yoe_of_mono (a b : Z) : 0 <= a <= b -> b < 146096 -> yoe_of a <= yoe_of b.
Proof.
  intros. unfold yoe_of. apply Z.div_le_mono; [lia|].
  rewrite (Z.div_small a 146096), (Z.div_small b 146096) by lia.
  pose proof (Z.div_le_mono a b 36524 ltac:(lia) ltac:(lia)).
  assert (a - a / 1460 <= b - b / 1460); [|lia].
  pose proof (Z.div_mod a 1460 ltac:(lia)). pose proof (Z.mod_pos_bound a 1460 ltac:(lia)).
  pose proof (Z.div_mod b 1460 ltac:(lia)). pose proof (Z.mod_pos_bound b 1460 ltac:(lia)).
  lia.
Qed.

Lemma yoe_bracket (n : nat) (doe : Z) :
  (n <= 399)%nat -> 0 <= doe < year_start (Z.of_nat n) ->
  exists k, 0 <= k < Z.of_nat n /\ year_start k <= doe < year_start (k + 1).
Proof.
  induction n as [|n IH]; intros Hn H; [change (year_start (Z.of_nat 0)) with 0 in H; lia|].
  destruct (decide (doe < year_start (Z.of_nat n))).
  - destruct IH as (k & ? & ?); [lia|lia|]. exists k. lia.
  - exists (Z.of_nat n). rewrite Nat2Z.inj_succ in H. unfold Z.succ in H. lia.
Qed.

(** A day of the era lies in its year. *)
Lemma yoe_of_spec (doe : Z) : 0 <= doe < 146097 ->
  0 <= yoe_of doe < 400 /\ year_start (yoe_of doe) <= doe < year_end (yoe_of doe).
Proof.
  intros H.
  assert (exists k, 0 <= k < 400 /\ year_start k <= doe < year_end k) as (k & Hk & Hd).
  { destruct (decide (doe < year_start 399)) as [L|L].
    - pose proof (yoe_bracket 399 doe) as B. change (Z.of_nat 399) with 399 in B.
      destruct B as (k & ? & ?); [lia..|].
      exists k. unfold year_end. rewrite (proj2 (Z.eqb_neq k 399)) by lia. lia.
    - exists 399. unfold year_end. simpl. lia. }
  assert (yoe_of doe = k) as ->; [|done].
  pose proof (forallb_seqZ _ _ k all_yoe_ok Hk) as O. unfold yoe_ok in O.
  fold (year_end k) in O. bool_split.
  destruct (decide (doe = year_end k - 1)) as [->|]; [done|].
  assert (year_end k <= 146097).
  { destruct (decide (k = 399)) as [->|]; [vm_compute; congruence|].
    unfold year_end. rewrite (proj2 (Z.eqb_neq k 399)) by lia.
    unfold year_start. Z.to_euclidean_division_equations. lia. }
  assert (0 <= year_start k) by (unfold year_start; Z.to_euclidean_division_equations; lia).
  pose proof (yoe_of_mono (year_start k) doe). pose proof (yoe_of_mono doe (year_end k - 2)).
  lia.
Qed.

Lemma is_leap_mod_feb (y m d : Z) :
  1 <= d -> (m =? 2) = true -> d <= (if is_leap y then 29 else 28) -> valid_day y m d = true.
Proof.
  intros H ->%Z.eqb_eq L. unfold valid_day, days_in. simpl.
  rewrite (proj2 (Z.leb_le 1 d)) by lia. simpl. apply Z.leb_le. done.
Qed.

(** Every day of the era has a valid date, which gives the day back. *)
Lemma civil_of_doe_spec (doe y m d : Z) : 0 <= doe < 146097 ->
  civil_of_doe doe = (y, m, d) ->
  days_from_civil y m d + 719468 = doe /\ 1 <= m <= 12 /\ valid_day y m d = true.
Proof.
  intros H. destruct (yoe_of_spec doe H) as [Hy Hd]. unfold civil_of_doe.
  set (yoe := yoe_of doe) in *.
  pose proof (forallb_seqZ _ _ yoe all_yoe_ok Hy) as O. unfold yoe_ok in O.
  fold (year_end yoe) in O. clearbody yoe.
  set (doy := doe - year_start yoe).
  assert (Hdoy : 0 <= doy < if is_leap (yoe + 1) then 366 else 365).
  { bool_split. subst doy. destruct (is_leap (yoe + 1)); lia. }
  pose proof (forallb_seqZ _ _ doy all_doy_ok) as D. unfold doy_ok in D.
  destruct (month_day doy) as [m0 d0].
  assert (0 <= doy < 366) as Hd' by (destruct (is_leap (yoe + 1)); lia).
  specialize (D Hd').
  intros [= <- <- <-]. apply andb_true_iff in D as [D _].
  apply andb_true_iff in D as [D _]. bool_split.
  assert (E : (if m0 <=? 2 then (if m0 <=? 2 then yoe + 1 else yoe) - 1
               else (if m0 <=? 2 then yoe + 1 else yoe)) = yoe)
    by (destruct (m0 <=? 2); lia).
  unfold days_from_civil. rewrite E.
  rewrite Z.div_small, Z.mod_small by lia. cbn zeta.
  split_and!; [subst doy; lia|lia|lia|].
  destruct (m0 =? 2) eqn:E2.
  - apply is_leap_mod_feb; [lia|done|]. bool_split. subst m0. simpl.
    destruct (is_leap (yoe + 1)); lia.
  - bool_split. unfold valid_day, days_in in *.
    rewrite (proj2 (Z.eqb_neq m0 2)) in * by done.
    rewrite (proj2 (Z.leb_le 1 d0)) by lia. by apply Z.leb_le.
Qed.

Lemma days_from_civil_era (y m d k : Z) :
  days_from_civil (y + 400 * k) m d = days_from_civil y m d + 146097 * k.
Proof.
  unfold days_from_civil.
  replace (if m <=? 2 then y + 400 * k - 1 else y + 400 * k)
    with ((if m <=? 2 then y - 1 else y) + k * 400) by (destruct (m <=? 2); lia).
  rewrite Z.div_add, Z.mod_add by lia. cbn zeta. lia.
Qed.

Lemma is_leap_era (y k : Z) : is_leap (y + 400 * k) = is_leap y.
Proof.
  unfold is_leap.
  replace (y + 400 * k) with (y + (100 * k) * 4) at 1 by lia.
  replace (y + 400 * k) with (y + (4 * k) * 100) at 1 by lia.
  replace (y + 400 * k) with (y + k * 400) by lia.
  by rewrite !Z.mod_add by lia.
Qed.

Lemma valid_day_era (y m d k : Z) : valid_day (y + 400 * k) m d = valid_day y m d.
Proof. unfold valid_day, days_in. by rewrite is_leap_era. Qed.

(** The date of a day is a valid date, and the day of that date is the day. *)
Lemma civil_from_days_spec (days y m d : Z) :
  civil_from_days days = (y, m, d) ->
  days_from_civil y m d = days /\ 1 <= m <= 12 /\ valid_day y m d = true.
Proof.
  unfold civil_from_days. intros H.
  pose proof (Z.mod_pos_bound (days + 719468) 146097 ltac:(lia)) as B.
  destruct (civil_of_doe _) as [[y0 m0] d0] eqn:E. injection H as <- <- <-.
  destruct (civil_of_doe_spec _ _ _ _ B E) as (? & ? & ?).
  rewrite days_from_civil_era, valid_day_era. split_and!; [|lia|lia|done].
  pose proof (Z.div_mod (days + 719468) 146097). lia.
Qed.

Lemma valid_day_bounds (y m d : Z) : valid_day y m d = true -> 1 <= d <= 31.
Proof.
  unfold valid_day, days_in. intros H. bool_split.
  repeat case_match; lia.
Qed.

Lemma date_lex_era (y m d y' m' d' k : Z) r :
  date_lex (y + 400 * k, m, d) (y' + 400 * k, m', d') r = date_lex (y, m, d) (y', m', d') r.
Proof.
  unfold date_lex.
  replace (y + 400 * k <? y' + 400 * k) with (y <? y') by (apply eq_true_iff_eq; lia).
  by replace (y + 400 * k =? y' + 400 * k) with (y =? y') by (apply eq_true_iff_eq; lia).
Qed.

(** Dates grow within the era. *)
Lemma doe_succ_lex (doe : Z) : 0 <= doe < 146096 ->
  date_lex (civil_of_doe doe) (civil_of_doe (doe + 1)) false = true.
Proof.
  intros H. destruct (yoe_of_spec doe) as [Hy Hd]; [lia|].
  destruct (yoe_of_spec (doe + 1)) as [Hy' Hd']; [lia|].
  unfold civil_of_doe.
  set (yoe := yoe_of doe) in *. set (yoe' := yoe_of (doe + 1)) in *.
  clearbody yoe yoe'.
  pose proof (forallb_seqZ _ _ yoe all_yoe_ok Hy) as O. unfold yoe_ok in O.
  fold (year_end yoe) in O.
  pose proof (forallb_seqZ _ _ yoe' all_yoe_ok Hy') as O'. unfold yoe_ok in O'.
  fold (year_end yoe') in O'. bool_split.
  set (doy := doe - year_start yoe).
  assert (Hdoy : 0 <= doy < 366) by (destruct (is_leap (yoe + 1)); lia).
  pose proof (forallb_seqZ _ _ doy all_doy_ok Hdoy) as D. unfold doy_ok in D.
  assert (M : forall a b, 0 <= a -> a < b -> year_end a <= year_start b \/ a = 399).
  { intros a b Ha Hab. destruct (decide (a = 399)); [by right|left].
    unfold year_end. rewrite (proj2 (Z.eqb_neq a 399)) by lia.
    unfold year_start. Z.to_euclidean_division_equations. lia. }
  destruct (decide (yoe' = yoe)) as [->|Hne].
  - replace (doe + 1 - year_start yoe) with (doy + 1) by (subst doy; lia).
    destruct (month_day doy) as [m d], (month_day (doy + 1)) as [m' d'].
    rewrite (proj2 (Z.eqb_neq doy 365)), orb_false_l in D
      by (subst doy; destruct (is_leap (yoe + 1)); lia).
    apply andb_true_iff in D as [_ D]. revert D. rewrite !date_lex_spec.
    destruct (m <=? 2), (m' <=? 2); lia.
  - assert (yoe < yoe' /\ doe + 1 = year_end yoe /\ doe + 1 = year_start yoe') as (? & ? & Es).
    { destruct (Z.lt_trichotomy yoe yoe') as [L|[L|L]]; [|lia|].
      - destruct (M yoe yoe'); [lia..|]. lia.
      - destruct (M yoe' yoe); [lia..|]. lia. }
    rewrite Es, Z.sub_diag. change (month_day 0) with (3, 1).
    rewrite (proj2 (Z.leb_le 364 doy)) in D
      by (subst doy; destruct (is_leap (yoe + 1)); lia).
    destruct (month_day doy) as [m d]. apply andb_true_iff in D as [D _].
    apply andb_true_iff in D as [_ ->%Z.eqb_eq].
    apply date_lex_spec. simpl. lia.
Qed.

Lemma civil_succ_lex (days : Z) :
  date_lex (civil_from_days days) (civil_from_days (days + 1)) false = true.
Proof.
  unfold civil_from_days.
  set (z := days + 719468). replace (days + 1 + 719468) with (z + 1) by lia.
  pose proof (Z.mod_pos_bound z 146097 ltac:(lia)) as B.
  destruct (decide (z mod 146097 = 146096)) as [L|L].
  - assert ((z + 1) mod 146097 = 0 /\ (z + 1) / 146097 = z / 146097 + 1) as [-> ->].
    { pose proof (Z.div_mod z 146097). split.
      - symmetry. apply (Z.mod_unique_pos _ _ (z / 146097 + 1)); lia.
      - symmetry. apply (Z.div_unique_pos _ _ _ 0); lia. }
    rewrite L. change (civil_of_doe 0) with (0, 3, 1).
    change (civil_of_doe 146096) with (400, 2, 29). cbv beta iota.
    replace (0 + 400 * (z / 146097 + 1)) with (400 + 400 * (z / 146097)) by lia.
    by rewrite date_lex_era.
  - assert ((z + 1) mod 146097 = z mod 146097 + 1 /\ (z + 1) / 146097 = z / 146097)
      as [-> ->].
    { pose proof (Z.div_mod z 146097). split.
      - symmetry. apply (Z.mod_unique_pos _ _ (z / 146097)); lia.
      - symmetry. apply (Z.div_unique_pos _ _ _ (z mod 146097 + 1)); lia. }
    pose proof (doe_succ_lex (z mod 146097) ltac:(lia)) as D.
    destruct (civil_of_doe (z mod 146097)) as [[y m] d].
    destruct (civil_of_doe (z mod 146097 + 1)) as [[y' m'] d'].
    by rewrite date_lex_era.
Qed.

Lemma date_lex_trans p q r :
  date_lex p q false = true -> date_lex q r false = true -> date_lex p r false = true.
Proof.
  destruct p as [[y m] d], q as [[y' m'] d'], r as [[y'' m''] d''].
  rewrite !date_lex_spec. lia.
Qed.

Lemma civil_lt_lex (a b : Z) :
  a < b -> date_lex (civil_from_days a) (civil_from_days b) false = true.
Proof.
  intros H. replace b with (a + 1 + Z.of_nat (Z.to_nat (b - a - 1))) by lia.
  induction (Z.to_nat (b - a - 1)) as [|n IH].
  - rewrite Z.add_0_r. apply civil_succ_lex.
  - eapply date_lex_trans; [exact IH|].
    replace (a + 1 + Z.of_nat (S n)) with (a + 1 + Z.of_nat n + 1) by lia.
    apply civil_succ_lex.
Qed.

(** Dates compare like days. *)
Lemma civil_lex (a b : Z) (rest : bool) :
  date_lex (civil_from_days a) (civil_from_days b) rest = (a <? b) || (a =? b) && rest.
Proof.
  destruct (Z.lt_trichotomy a b) as [H|[->|H]].
  - pose proof (civil_lt_lex _ _ H) as L.
    rewrite (proj2 (Z.ltb_lt a b) H), orb_true_l.
    destruct (civil_from_days a) as [[y m] d], (civil_from_days b) as [[y' m'] d'].
    apply date_lex_spec in L. unfold date_lex. cbv beta iota.
    destruct L as [L|[-> [L|[-> L]]]];
      rewrite ?Z.ltb_irrefl, ?Z.eqb_refl, (proj2 (Z.ltb_lt _ _) L); simpl;
      rewrite ?orb_true_r; done.
  - destruct (civil_from_days b) as [[y m] d]. unfold date_lex.
    by rewrite !Z.ltb_irrefl, !Z.eqb_refl.
  - pose proof (civil_lt_lex _ _ H) as L.
    rewrite (proj2 (Z.ltb_ge a b)), (proj2 (Z.eqb_neq a b)), andb_false_l, orb_false_l by lia.
    destruct (civil_from_days a) as [[y m] d], (civil_from_days b) as [[y' m'] d'].
    apply date_lex_spec in L.
    apply not_true_iff_false. unfold date_lex.
    rewrite !orb_true_iff, !andb_true_iff, !orb_true_iff, !andb_true_iff, !orb_true_iff,
      !andb_true_iff, !Z.ltb_lt, !Z.eqb_eq. lia.
Qed.

(** The clock fields compare like the second of the day. *)
Lemma clock_lex (a b : Z) (rest : bool) :
  (a mod 86400 / 3600 <? b mod 86400 / 3600) || (a mod 86400 / 3600 =? b mod 86400 / 3600) &&
  ((a mod 3600 / 60 <? b mod 3600 / 60) || (a mod 3600 / 60 =? b mod 3600 / 60) &&
  ((a mod 60 <? b mod 60) || (a mod 60 =? b mod 60) && rest)) =
  (a mod 86400 <? b mod 86400) || (a mod 86400 =? b mod 86400) && rest.
Proof.
  apply eq_true_iff_eq.
  rewrite !orb_true_iff, !andb_true_iff, !orb_true_iff, !andb_true_iff, !orb_true_iff,
      !andb_true_iff, !Z.ltb_lt, !Z.eqb_eq.
  assert (D : forall z, z mod 86400 = z mod 86400 / 3600 * 3600 + z mod 3600 / 60 * 60 + z mod 60
    /\ 0 <= z mod 3600 / 60 < 60 /\ 0 <= z mod 60 < 60).
  { intros z. Z.to_euclidean_division_equations. lia. }
  destruct (D a) as (Ea & ? & ?), (D b) as (Eb & ? & ?).
  set (ha := a mod 86400 / 3600) in *. set (hb := b mod 86400 / 3600) in *.
  set (ma := a mod 3600 / 60) in *. set (mb := b mod 3600 / 60) in *.
  clearbody ha hb ma mb. rewrite Ea, Eb. clear D.
  destruct rest; split; lia.
Qed.

(** ** Decimal text *)

Lemma append_cons (a : ascii) (s t : string) :
  String.append (String a s) t = String a (String.append s t).
Proof. reflexivity. Qed.

Lemma append_nil_l (s : string) : String.append EmptyString s = s.
Proof. reflexivity. Qed.

Lemma append_nil_r (s : string) : String.append s EmptyString = s.
Proof. induction s as [|a s IH]; [done|]. by rewrite append_cons, IH. Qed.

Lemma append_assoc (s t u : string) :
  String.append (String.append s t) u = String.append s (String.append t u).
Proof. induction s as [|a s IH]; [done|]. by rewrite !append_cons, IH. Qed.

Lemma byte_code_mk (z : Z) : 0 <= z < 256 -> byte_code (mk_byte z) = z.
Proof.
  intros H. unfold byte_code, mk_byte. rewrite N_ascii_embedding by lia. lia.
Qed.

Lemma digit_code (z : Z) : 0 <= z < 10 -> byte_code (digit z) = 48 + z.
Proof. intros H. apply byte_code_mk. lia. Qed.

Lemma digit_is_digit (z : Z) : 0 <= z < 10 -> is_digit (digit z) = true.
Proof. intros H. unfold is_digit. rewrite digit_code by lia. lia. Qed.

Lemma fixed_S (n : nat) (z : Z) :
  fixed (S n) z = String (digit (z / 10 ^ Z.of_nat n)) (fixed n (z mod 10 ^ Z.of_nat n)).
Proof. reflexivity. Qed.

Lemma pow10_pos (n : nat) : 0 < 10 ^ Z.of_nat n.
Proof. apply Z.pow_pos_nonneg; lia. Qed.

Lemma pow10_S (n : nat) : 10 ^ Z.of_nat (S n) = 10 * 10 ^ Z.of_nat n.
Proof. rewrite Nat2Z.inj_succ, Z.pow_succ_r by lia. done. Qed.

(** The leading digit and the rest of an [S n]-digit number. *)
Lemma lead_digit (n : nat) (z : Z) : 0 <= z < 10 ^ Z.of_nat (S n) ->
  0 <= z / 10 ^ Z.of_nat n < 10 /\ 0 <= z mod 10 ^ Z.of_nat n < 10 ^ Z.of_nat n
  /\ z = z / 10 ^ Z.of_nat n * 10 ^ Z.of_nat n + z mod 10 ^ Z.of_nat n.
Proof.
  intros H. pose proof (pow10_pos n). rewrite pow10_S in H.
  split_and!.
  - apply Z.div_pos; lia.
  - apply Z.div_lt_upper_bound; lia.
  - apply Z.mod_pos_bound; lia.
  - apply Z.mod_pos_bound; lia.
  - pose proof (Z.div_mod z (10 ^ Z.of_nat n)). lia.
Qed.

(** Numbers written with the same width compare like numbers. *)
Lemma fixed_lex (n : nat) (a b : Z) (s t : string) :
  0 <= a < 10 ^ Z.of_nat n -> 0 <= b < 10 ^ Z.of_nat n ->
  string_lt (String.append (fixed n a) s) (String.append (fixed n b) t) =
  (a <? b) || (a =? b) && string_lt s t.
Proof.
  revert a b. induction n as [|n IH]; intros a b Ha Hb.
  - change (10 ^ Z.of_nat 0) with 1 in *. assert (a = 0) as -> by lia.
    assert (b = 0) as -> by lia. done.
  - rewrite !fixed_S, !append_cons.
    destruct (lead_digit n a Ha) as (Da & Ma & Ea), (lead_digit n b Hb) as (Db & Mb & Eb).
    rewrite string_lt_cons, IH, !digit_code by done.
    set (p := 10 ^ Z.of_nat n) in *.
    set (qa := a / p) in *. set (qb := b / p) in *.
    set (ra := a mod p) in *. set (rb := b mod p) in *. clearbody p qa qb ra rb.
    apply eq_true_iff_eq.
    rewrite !orb_true_iff, !andb_true_iff, !orb_true_iff, !andb_true_iff, !Z.ltb_lt, !Z.eqb_eq.
    subst a b. destruct (string_lt s t); split; nia.
Qed.

Lemma digits_value_fixed (n : nat) (acc a : Z) (s : string) :
  0 <= a < 10 ^ Z.of_nat n ->
  digits_value acc (String.append (fixed n a) s) =
  digits_value (acc * 10 ^ Z.of_nat n + a) s.
Proof.
  revert acc a. induction n as [|n IH]; intros acc a Ha.
  - change (10 ^ Z.of_nat 0) with 1 in *. assert (a = 0) as -> by lia.
    by replace (acc * 1 + 0) with acc by lia.
  - rewrite fixed_S, append_cons. cbn [digits_value].
    destruct (lead_digit n a Ha) as (Da & Ma & Ea).
    rewrite digit_is_digit, digit_code, IH by done.
    f_equal. rewrite pow10_S. set (p := 10 ^ Z.of_nat n) in *. clearbody p. nia.
Qed.

Lemma fixed_length (n : nat) (z : Z) : String.length (fixed n z) = n.
Proof. revert z. induction n as [|n IH]; intros z; [done|]. rewrite fixed_S. simpl. by rewrite IH. Qed.

Lemma fixed2 (z : Z) : fixed 2 z = String (digit (z / 10)) (String (digit (z mod 10)) EmptyString).
Proof.
  rewrite !fixed_S. change (10 ^ Z.of_nat 1) with 10. change (10 ^ Z.of_nat 0) with 1.
  by rewrite Z.div_1_r.
Qed.

Lemma getnum_fixed (two : bool) (z : Z) (s : string) : 0 <= z < 100 ->
  getnum two (String.append (fixed 2 z) s) = Some (z, s).
Proof.
  intros H. rewrite fixed2, !append_cons, append_nil_l. cbn [getnum].
  assert (0 <= z / 10 < 10 /\ 0 <= z mod 10 < 10 /\ z = 10 * (z / 10) + z mod 10) as (A & B & E)
    by (Z.to_euclidean_division_equations; lia).
  rewrite !digit_is_digit, !digit_code by done.
  do 2 f_equal. lia.
Qed.

Lemma take_year_fixed (z : Z) (s : string) : 0 <= z < 10000 ->
  take_year (String.append (fixed 4 z) s) = Some (z, s).
Proof.
  intros H. pose proof (digits_value_fixed 4 0 z EmptyString H) as D.
  revert D. rewrite !fixed_S. change (fixed 0 _) with EmptyString.
  rewrite !append_cons, !append_nil_l. intros D. unfold take_year. rewrite D.
  cbn [digits_value]. simpl. by rewrite Z.add_0_l.
Qed.

Lemma num_digits_le (n : nat) (z : Z) (fuel : nat) :
  (1 <= n)%nat -> 0 <= z < 10 ^ Z.of_nat n -> (num_digits fuel z <= n)%nat.
Proof.
  revert n z. induction fuel as [|f IH]; intros n z Hn Hz; simpl; [lia|].
  destruct (z <? 10) eqn:E; [lia|]. bool_split.
  destruct n as [|n]; [lia|]. destruct n as [|n].
  { change (10 ^ Z.of_nat 1) with 10 in Hz. lia. }
  apply le_n_S, IH; [lia|]. rewrite pow10_S in Hz.
  split; [apply Z.div_pos; lia|apply Z.div_lt_upper_bound; lia].
Qed.

(** Years of four digits are written with four digits. *)
Lemma append_int_fixed (n : nat) (z : Z) : (1 <= n)%nat -> 0 <= z < 10 ^ Z.of_nat n ->
  append_int z n = fixed n z.
Proof.
  intros Hn H. unfold append_int. rewrite Z.abs_eq by lia.
  rewrite (proj2 (Z.ltb_ge z 0)) by lia.
  pose proof (num_digits_le n z 20 Hn H). by rewrite Nat.max_l by lia.
Qed.

Lemma num_digits_pos (fuel : nat) (z : Z) : exists m, num_digits fuel z = S m.
Proof. destruct fuel; simpl; [by exists 0%nat|]. case_match; eauto. Qed.

Lemma num_digits_bound (fuel : nat) (z : Z) :
  0 <= z < 10 ^ Z.of_nat (S fuel) -> z < 10 ^ Z.of_nat (num_digits fuel z).
Proof.
  revert z. induction fuel as [|f IH]; intros z H; cbn [num_digits].
  - lia.
  - destruct (z <? 10) eqn:E; bool_split; [change (10 ^ Z.of_nat 1) with 10; lia|].
    rewrite pow10_S in H |- *.
    assert (z / 10 < 10 ^ Z.of_nat (num_digits f (z / 10))).
    { apply IH. split; [apply Z.div_pos; lia|apply Z.div_lt_upper_bound; lia]. }
    pose proof (Z.div_mod z 10). pose proof (Z.mod_pos_bound z 10). lia.
Qed.

(** [strconv.Atoi] reads back what [strconv.Itoa] writes. *)
Lemma Atoi_Itoa_nonneg (z : Z) : 0 <= z <= int64_max -> Atoi (Itoa z) = Some z.
Proof.
  unfold64. intros H. unfold Itoa. rewrite Z.abs_eq, (proj2 (Z.ltb_ge z 0)) by lia.
  assert (B : 0 <= z < 10 ^ Z.of_nat (num_digits 20 z)).
  { split; [lia|]. apply num_digits_bound. split; [lia|]. change (10 ^ Z.of_nat 21) with 1000000000000000000000. lia. }
  destruct (num_digits_pos 20 z) as [m Em]. rewrite Em in *.
  pose proof (digits_value_fixed (S m) 0 z EmptyString B) as D.
  rewrite append_nil_r, Z.mul_0_l, Z.add_0_l in D. cbn [digits_value] in D.
  destruct (lead_digit m z B) as (Dz & _).
  rewrite fixed_S in D |- *. unfold Atoi. rewrite digit_code by done.
  rewrite !(proj2 (Z.eqb_neq _ _)) by lia.
  rewrite D. unfold64. by rewrite !(proj2 (Z.leb_le _ _)) by lia.
Qed.

Lemma append_one (c : ascii) (s : string) :
  String.append (String c EmptyString) s = String c s.
Proof. reflexivity. Qed.

(** ** Layouts *)

(** The local year is written with four digits. *)
Definition year_in_range (l : Location) (t : Z) : Prop :=
  let '(y, _, _) := date_of l t in 0 <= y < 10000.

Lemma local_fields (l : Location) (t : Z) :
  0 <= hour_of l t < 24 /\ 0 <= minute_of l t < 60 /\ 0 <= second_of l t < 60 /\
  local_sec l t = local_sec l t / 86400 * 86400
                  + hour_of l t * 3600 + minute_of l t * 60 + second_of l t.
Proof.
  unfold hour_of, minute_of, second_of.
  generalize (local_sec l t). intros z. Z.to_euclidean_division_equations. lia.
Qed.

Lemma fixed2_lex (a b : Z) (s t : string) : 0 <= a < 100 -> 0 <= b < 100 ->
  string_lt (String.append (fixed 2 a) s) (String.append (fixed 2 b) t) =
  (a <? b) || (a =? b) && string_lt s t.
Proof. apply (fixed_lex 2). Qed.

Lemma fixed4_lex (a b : Z) (s t : string) : 0 <= a < 10000 -> 0 <= b < 10000 ->
  string_lt (String.append (fixed 4 a) s) (String.append (fixed 4 b) t) =
  (a <? b) || (a =? b) && string_lt s t.
Proof. apply (fixed_lex 4). Qed.

(** Up to the seconds, two texts compare like the local seconds. *)
Lemma format_seconds_lex (l : Location) (a b : Z) (s t : string) :
  year_in_range l a -> year_in_range l b ->
  string_lt (String.append (format_seconds l a) s) (String.append (format_seconds l b) t) =
  (local_sec l a <? local_sec l b)
  || (local_sec l a =? local_sec l b) && string_lt s t.
Proof.
  unfold year_in_range, format_seconds, date_of. intros Ya Yb.
  pose proof (civil_lex (local_sec l a / 86400) (local_sec l b / 86400)) as C.
  destruct (local_fields l a) as (Ha & Ma & Sa & _), (local_fields l b) as (Hb & Mb & Sb & _).
  destruct (civil_from_days (local_sec l a / 86400)) as [[y m] d] eqn:Ea.
  destruct (civil_from_days (local_sec l b / 86400)) as [[y' m'] d'] eqn:Eb.
  apply civil_from_days_spec in Ea as (_ & Rm & Rd%valid_day_bounds).
  apply civil_from_days_spec in Eb as (_ & Rm' & Rd'%valid_day_bounds).
  rewrite !append_int_fixed by (lia || done).
  rewrite !append_assoc, fixed4_lex by lia.
  do 5 (rewrite ?append_one, ?append_cons, string_lt_same, ?append_assoc, fixed2_lex by lia).
  unfold hour_of, minute_of, second_of.
  rewrite clock_lex. unfold date_lex in C. rewrite C.
  apply eq_true_iff_eq.
  rewrite !orb_true_iff, !andb_true_iff, !orb_true_iff, !andb_true_iff, !Z.ltb_lt, !Z.eqb_eq.
  pose proof (Z.div_mod (local_sec l a) 86400 ltac:(lia)).
  pose proof (Z.div_mod (local_sec l b) 86400 ltac:(lia)).
  pose proof (Z.mod_pos_bound (local_sec l a) 86400 ltac:(lia)).
  pose proof (Z.mod_pos_bound (local_sec l b) 86400 ltac:(lia)).
  destruct (string_lt s t); split; nia.
Qed.

(** ** Reading a formatted instant back *)

Lemma skip_byte_cons (a : ascii) (c : Z) (s : string) :
  byte_code a = c -> skip_byte c (String a s) = Some s.
Proof. intros <-. simpl. by rewrite Z.eqb_refl. Qed.

Lemma parse_ymd_format (y m d : Z) (s : string) :
  0 <= y < 10000 -> 1 <= m <= 12 -> 1 <= d <= 31 ->
  parse_ymd (String.append (fixed 4 y) (String "-" (String.append (fixed 2 m)
    (String "-" (String.append (fixed 2 d) s))))) = Some (y, m, d, s).
Proof.
  intros Hy Hm Hd. unfold parse_ymd.
  rewrite take_year_fixed by done. cbn [mbind option_bind].
  rewrite skip_byte_cons by done. cbn [mbind option_bind].
  rewrite getnum_fixed by lia. cbn [mbind option_bind].
  rewrite (proj2 (Z.leb_gt m 0)), (proj2 (Z.ltb_ge 12 m)) by lia. cbn [orb].
  rewrite skip_byte_cons by done. cbn [mbind option_bind].
  by rewrite getnum_fixed by lia.
Qed.

(** A string of digits. *)
Fixpoint all_digits (s : string) : bool :=
  match s with EmptyString => true | String a r => is_digit a && all_digits r end.

Definition starts_nondigit (s : string) : bool :=
  match s with
  | EmptyString => true
  | String a _ =>
      negb (is_digit a) && negb (byte_code a =? 46) && negb (byte_code a =? 44)
  end.

Lemma all_digits_fixed (n : nat) (z : Z) : 0 <= z < 10 ^ Z.of_nat n ->
  all_digits (fixed n z) = true.
Proof.
  revert z. induction n as [|n IH]; intros z Hz; [done|].
  destruct (lead_digit n z Hz) as (? & ? & _).
  rewrite fixed_S. cbn [all_digits]. by rewrite digit_is_digit, IH.
Qed.

Lemma span_digits_app (s t : string) : all_digits s = true -> starts_nondigit t = true ->
  span_digits (String.append s t) = (s, t).
Proof.
  intros Hs Ht. induction s as [|a s IH].
  - destruct t as [|b t]; [done|]. simpl in *. bool_split.
    by replace (is_digit b) with false.
  - simpl in Hs. bool_split. rewrite append_cons. simpl. rewrite H.
    by rewrite IH.
Qed.

Lemma digits_value_some (s : string) (acc : Z) : all_digits s = true ->
  exists v, digits_value acc s = Some v.
Proof.
  revert acc. induction s as [|a s IH]; intros acc H; simpl in *; [eauto|].
  bool_split. rewrite H. by apply IH.
Qed.

Lemma trim_zeros_value (s : string) (acc v : Z) : digits_value acc s = Some v ->
  all_digits (trim_zeros s) = true /\
  (String.length (trim_zeros s) <= String.length s)%nat /\
  exists w, digits_value acc (trim_zeros s) = Some w /\
  v = w * 10 ^ (Z.of_nat (String.length s) - Z.of_nat (String.length (trim_zeros s))).
Proof.
  revert acc. induction s as [|a s IH]; intros acc H; cbn [digits_value] in H.
  { injection H as <-. split_and!; [done..|]. exists acc. simpl. split; [done|lia]. }
  destruct (is_digit a) eqn:Da; [|done].
  destruct (IH _ H) as (AD & L & w & Hw & Ev). clear IH.
  cbn [trim_zeros]. destruct (trim_zeros s) as [|b r] eqn:Et.
  - cbn [digits_value] in Hw. injection Hw as <-.
    destruct (byte_code a =? 48) eqn:Z0; bool_split.
    + split_and!; [done|simpl; lia|]. exists acc. split; [done|].
      subst v. rewrite Z0. cbn [String.length] in *. rewrite Nat2Z.inj_succ.
      replace (Z.succ (Z.of_nat (String.length s)) - Z.of_nat 0)
        with (Z.succ (Z.of_nat (String.length s) - Z.of_nat 0)) by lia.
      rewrite Z.pow_succ_r by lia. nia.
    + split_and!; [cbn [all_digits]; by rewrite Da|simpl; lia|].
      exists (acc * 10 + (byte_code a - 48)). cbn [digits_value]. rewrite Da.
      split; [done|]. subst v. cbn [String.length]. f_equal. f_equal. lia.
  - split_and!; [cbn [all_digits]; rewrite Da; exact AD|cbn [String.length] in *; lia|].
    exists w. cbn [digits_value] in *. rewrite Da. split; [exact Hw|].
    subst v. cbn [String.length]. f_equal. f_equal. lia.
Qed.

Lemma trim_zeros_nil (s : string) : trim_zeros s = EmptyString ->
  forall v, digits_value 0 s = Some v -> v = 0.
Proof.
  intros H v Hv. destruct (trim_zeros_value _ _ _ Hv) as (_ & _ & w & Hw & ->).
  rewrite H in Hw. injection Hw as <-. lia.
Qed.

Lemma substring_all (s : string) (n : nat) : (String.length s <= n)%nat ->
  String.substring 0 n s = s.
Proof.
  revert n. induction s as [|a s IH]; intros [|n] H; simpl in *; try lia; try done.
  by rewrite IH by lia.
Qed.

(** The fraction is read back whatever zeros were trimmed. *)
Lemma parse_frac_nano (ns : Z) (z : string) :
  0 <= ns < 1000000000 -> starts_nondigit z = true ->
  parse_frac (String.append (frac_nano ns) z) = (ns, z).
Proof.
  intros H Hz. unfold frac_nano.
  pose proof (digits_value_fixed 9 0 ns EmptyString H) as V.
  rewrite append_nil_r in V. cbn [digits_value] in V. rewrite Z.mul_0_l, Z.add_0_l in V.
  destruct (trim_zeros_value _ _ _ V) as (AD & L & w & Hw & Ev).
  destruct (trim_zeros (fixed 9 ns)) as [|a r] eqn:Et.
  - rewrite (trim_zeros_nil _ Et _ V), append_nil_l.
    destruct z as [|p z]; [done|]. simpl in Hz |- *. bool_split.
    destruct z as [|q z]; [done|].
    rewrite (proj2 (Z.eqb_neq (byte_code p) 46)), (proj2 (Z.eqb_neq (byte_code p) 44)) by done.
    done.
  - rewrite append_one, append_cons. cbn [parse_frac].
    assert (is_digit a = true) as Ha by (simpl in AD; by bool_split).
    change ((byte_code "." =? 46) || (byte_code "." =? 44)) with true.
    rewrite (append_cons a r z), Ha. cbn [andb].
    rewrite <- append_cons, span_digits_app by done.
    rewrite fixed_length in *. unfold parse_nanos.
    rewrite Nat.min_r by lia. rewrite substring_all by done. rewrite Hw.
    by rewrite Ev.
Qed.

(** And with all its digits. *)
Lemma parse_frac_fixed (ns : Z) (z : string) :
  0 <= ns < 1000000000 -> starts_nondigit z = true ->
  parse_frac (String.append "." (String.append (fixed 9 ns) z)) = (ns, z).
Proof.
  intros H Hz. pose proof (digits_value_fixed 9 0 ns EmptyString H) as V.
  rewrite append_nil_r in V. cbn [digits_value] in V. rewrite Z.mul_0_l, Z.add_0_l in V.
  pose proof (all_digits_fixed 9 ns H) as AD. pose proof (fixed_length 9 ns) as L.
  destruct (fixed 9 ns) as [|a r] eqn:Ef; [done|]. rewrite append_one, append_cons. cbn [parse_frac].
  change ((byte_code "." =? 46) || (byte_code "." =? 44)) with true.
  assert (is_digit a = true) as Ha by (simpl in AD; by bool_split). rewrite Ha. cbn [andb].
  rewrite <- append_cons, span_digits_app by done. unfold parse_nanos.
  rewrite L. cbn [Nat.min]. rewrite substring_all by lia. rewrite V. f_equal. cbn. lia.
Qed.

(** Offsets the layout [Z07:00] can write: whole minutes, below a day. *)
Definition zone_writable (off : Z) : Prop := off mod 60 = 0 /\ -86400 < off < 86400.

Lemma format_zone_start (off : Z) : starts_nondigit (format_zone off) = true.
Proof. unfold format_zone. by repeat case_match. Qed.

Lemma parse_zone_format (off : Z) : zone_writable off ->
  parse_zone ZoneZ (format_zone off) = Some (Some off, EmptyString).
Proof.
  intros [M B]. unfold format_zone. destruct (off =? 0) eqn:E; bool_split; [by subst|].
  assert (exists q, off = q * 60) as [q ->].
  { exists (off / 60). pose proof (Z.div_mod off 60). lia. }
  rewrite Z.quot_mul by lia.
  assert (0 <= Z.abs q / 60 < 24 /\ 0 <= Z.abs q mod 60 < 60 /\
          Z.abs q = Z.abs q / 60 * 60 + Z.abs q mod 60) as (H1 & H2 & H3)
    by (Z.to_euclidean_division_equations; lia).
  unfold parse_zone, parse_num_zone.
  assert (forall sg : ascii, (byte_code sg =? 90) = false ->
    skip_byte 90 (String.append (String sg EmptyString) (String.append (fixed 2 (Z.abs q / 60))
      (String.append ":" (fixed 2 (Z.abs q mod 60))))) = None) as S.
  { intros sg Hs. rewrite append_one. simpl. by rewrite Hs. }
  destruct (q <? 0) eqn:Hq; bool_split.
  all: rewrite S by done; rewrite append_one, getnum_fixed by lia; cbn [mbind option_bind].
  all: rewrite append_one, skip_byte_cons by done; cbn [mbind option_bind].
  all: rewrite <- (append_nil_r (fixed 2 (Z.abs q mod 60))), getnum_fixed by lia;
    cbn [mbind option_bind].
  all: rewrite (proj2 (Z.ltb_ge 24 _)), (proj2 (Z.ltb_ge 60 _)) by lia; cbn [orb].
  - change (byte_code "-" =? 43) with false. change (byte_code "-" =? 45) with true.
    cbn [mbind option_bind]. do 3 f_equal. lia.
  - change (byte_code "+" =? 43) with true.
    cbn [mbind option_bind]. do 3 f_equal. lia.
Qed.

(** [time.Date] in UTC of a valid date and a clock. *)
Lemma Date_UTC (y m d h mi s ns : Z) : 1 <= m <= 12 -> 0 <= ns < Second ->
  Date y m d h mi s ns UTC =
  (days_from_civil y m d * 86400 + h * 3600 + mi * 60 + s) * Second + ns.
Proof.
  intros Hm Hn. unfold Date, resolve_local, UTC. simpl.
  rewrite (Z.div_small (m - 1)), (Z.mod_small (m - 1)) by lia.
  rewrite (Z.div_small ns), (Z.mod_small ns) by lia.
  replace (y + 0) with y by lia. replace (m - 1 + 1) with m by lia.
  f_equal. f_equal. rewrite Z.add_0_r. do 3 f_equal. unfold days_from_civil. lia.
Qed.

Lemma Nanosecond_range (t : Z) : 0 <= Nanosecond t < 1000000000.
Proof. unfold Nanosecond. apply (Z.mod_pos_bound t Second). reflexivity. Qed.

Lemma date_of_spec (l : Location) (t y m d : Z) : date_of l t = (y, m, d) ->
  days_from_civil y m d = local_sec l t / 86400 /\ 1 <= m <= 12 /\ valid_day y m d = true.
Proof. apply civil_from_days_spec. Qed.

(** Date and clock in UTC rebuild the local seconds. *)
Lemma Date_of_fields (l : Location) (t y m d : Z) : date_of l t = (y, m, d) ->
  Date y m d (hour_of l t) (minute_of l t) (second_of l t) (Nanosecond t) UTC =
  t + zoneOffset (lookup_zone l (Unix t)) * Second.
Proof.
  intros E. destruct (date_of_spec _ _ _ _ _ E) as (D & Hm & _).
  destruct (local_fields l t) as (_ & _ & _ & F).
  rewrite Date_UTC, D by (done || apply Nanosecond_range). rewrite <- F.
  unfold local_sec, Unix, Nanosecond.
  pose proof (Z.div_mod t Second ltac:(done)). lia.
Qed.

(** Whatever way the fraction is written. *)
Lemma parse_format_layout (l l' : Location) (t : Z) (frac : string) :
  year_in_range l t -> zone_writable (zoneOffset (lookup_zone l (Unix t))) ->
  (forall z, starts_nondigit z = true -> parse_frac (String.append frac z) = (Nanosecond t, z)) ->
  parse_datetime 84 ZoneZ l' (String.append (format_seconds l t)
    (String.append frac (format_zone (zoneOffset (lookup_zone l (Unix t)))))) = Some t.
Proof.
  unfold year_in_range, format_seconds. intros Y W F.
  destruct (date_of l t) as [[y m] d] eqn:E.
  destruct (date_of_spec _ _ _ _ _ E) as (_ & Hm & Hv).
  pose proof (valid_day_bounds _ _ _ Hv) as Hd.
  destruct (local_fields l t) as (Hh & Hmi & Hs & _).
  rewrite append_int_fixed by (lia || done).
  repeat (rewrite ?append_assoc, ?append_one).
  unfold parse_datetime. rewrite parse_ymd_format by done. cbn [mbind option_bind].
  rewrite skip_byte_cons by done. cbn [mbind option_bind].
  rewrite getnum_fixed by lia. cbn [mbind option_bind].
  rewrite (proj2 (Z.leb_gt 24 _)) by lia.
  rewrite skip_byte_cons by done. cbn [mbind option_bind].
  rewrite getnum_fixed by lia. cbn [mbind option_bind].
  rewrite (proj2 (Z.leb_gt 60 _)) by lia.
  rewrite skip_byte_cons by done. cbn [mbind option_bind].
  rewrite getnum_fixed by lia. cbn [mbind option_bind].
  rewrite (proj2 (Z.leb_gt 60 _)) by lia.
  rewrite F by apply format_zone_start.
  cbv iota beta. rewrite parse_zone_format by done. cbn [mbind option_bind].
  rewrite Hv. f_equal. rewrite (Date_of_fields _ _ _ _ _ E). lia.
Qed.

Lemma parse_format_rfc3339nano (l l' : Location) (t : Z) :
  year_in_range l t -> zone_writable (zoneOffset (lookup_zone l (Unix t))) ->
  parse_datetime 84 ZoneZ l' (format_rfc3339nano l t) = Some t.
Proof.
  intros Y W. apply parse_format_layout; [done|done|].
  intros z Hz. apply parse_frac_nano; [apply Nanosecond_range|done].
Qed.

(** ** Locations with one offset *)

Lemma lookup_fixed (off sec : Z) : lookup_zone (FixedZone off) sec = mkZone off int64_min int64_max.
Proof. reflexivity. Qed.

Lemma resolve_fixed (off wall : Z) : resolve_local (FixedZone off) wall = wall - off.
Proof.
  unfold resolve_local. rewrite !lookup_fixed. simpl.
  destruct (off =? 0) eqn:E; bool_split; [lia|]. by case_match.
Qed.

Lemma Date_fixed (off y m d h mi s ns : Z) : 1 <= m <= 12 -> 0 <= ns < Second ->
  Date y m d h mi s ns (FixedZone off) =
  (days_from_civil y m d * 86400 + h * 3600 + mi * 60 + s - off) * Second + ns.
Proof.
  intros Hm Hn. unfold Date. rewrite resolve_fixed.
  rewrite (Z.div_small (m - 1)), (Z.mod_small (m - 1)) by lia.
  rewrite (Z.div_small ns), (Z.mod_small ns) by lia.
  replace (y + 0) with y by lia. replace (m - 1 + 1) with m by lia.
  f_equal. f_equal. rewrite Z.add_0_r. do 4 f_equal. unfold days_from_civil. lia.
Qed.

(** Going [n] days on keeps the clock. *)
Lemma AddDate_fixed_days (off t n : Z) :
  AddDate (FixedZone off) t 0 0 n = t + n * (24 * Hour).
Proof.
  unfold AddDate. destruct (date_of (FixedZone off) t) as [[y m] d] eqn:E.
  destruct (date_of_spec _ _ _ _ _ E) as (D & Hm & _).
  destruct (local_fields (FixedZone off) t) as (_ & _ & _ & F).
  replace (y + 0) with y by lia. replace (m + 0) with m by lia.
  rewrite Date_fixed by (done || apply Nanosecond_range).
  replace (days_from_civil y m (d + n)) with (days_from_civil y m d + n)
    by (unfold days_from_civil; lia).
  rewrite D. unfold local_sec in *. rewrite lookup_fixed in *. cbn [zoneOffset] in *.
  unfold Hour, Minute. unfold Unix, Nanosecond in *.
  pose proof (Z.div_mod t Second ltac:(done)).
  set (q := t / Second) in *. set (r := t mod Second) in *. clearbody q r.
  unfold Second in *. lia.
Qed.

(** Midnight of the local day of [t]. *)
Lemma day_start_fixed (off t : Z) :
  day_start (FixedZone off) t = ((Unix t + off) / 86400 * 86400 - off) * Second.
Proof.
  unfold day_start. destruct (date_of (FixedZone off) t) as [[y m] d] eqn:E.
  destruct (date_of_spec _ _ _ _ _ E) as (D & Hm & _).
  rewrite Date_fixed, D by done. unfold local_sec. rewrite lookup_fixed. cbn [zoneOffset].
  f_equal. lia.
Qed.

(** An instant lies in the 24 hours that start at its midnight. *)
Lemma day_start_fixed_bounds (off t : Z) :
  day_start (FixedZone off) t <= t < day_start (FixedZone off) t + 24 * Hour.
Proof.
  rewrite day_start_fixed. unfold Hour, Minute, Unix, Second.
  Z.to_euclidean_division_equations. lia.
Qed.
