(* ===== verification/Entities.v ===== *)
(** Package entities: the rows the components of this development share. *)
From S2P Require Import Prelude GoStrings GoTime.

Local Open Scope string_scope.
Local Open Scope Z_scope.

(** entities/usage_event.go; pointers are options. *)
Record UsageEvent := mkUsageEvent {
  evID : Z;
  evEventKey : string;
  evAPIGroupKey : string;
  evProvider : string;
  evEndpoint : string;
  evAuthType : string;
  evRequestID : string;
  evSessionID : string;
  evParentSessionID : option string;
  evClientIP : option string;
  evXForwardedFor : option string;
  evUserAgent : option string;
  evModel : string;
  evModelAlias : option string;
  evResponseModel : string;
  evReasoningEffort : string;
  evServiceTier : string;
  evResponseServiceTier : string;
  evExecutorType : string;
  evTimestamp : Time;
  evSource : string;
  evAuthIndex : string;
  evFailed : bool;
  evStatusCode : option Z;
  evGenerate : option bool;
  evStream : option bool;
  evLatencyMS : Z;
  evTTFTMS : option Z;
  evInputTokens : Z;
  evOutputTokens : Z;
  evReasoningTokens : Z;
  evCachedTokens : Z;
  evCacheReadTokens : Z;
  evCacheReadPresent : bool;
  evCacheCreationTokens : Z;
  evTotalTokens : Z;
  evCreatedAt : Time;
}.

(** entities/usage_activity_stat.go. *)
Definition UsageActivityGrain := string.
Definition UsageActivityGrainShort : UsageActivityGrain := "short".
Definition UsageActivityGrainMedium : UsageActivityGrain := "medium".
Definition UsageActivityGrainLong : UsageActivityGrain := "long".
Definition UsageActivityGrainDaily : UsageActivityGrain := "daily".

Record UsageActivityStat := mkUsageActivityStat {
  asID : Z;
  asGrain : UsageActivityGrain;
  asBucketStart : Time;
  asBucketEnd : Time;
  asAPIGroupKey : string;
  asSuccessCount : Z;
  asFailureCount : Z;
  asInputTokens : Z;
  asOutputTokens : Z;
  asReasoningTokens : Z;
  asCacheReadTokens : Z;
  asCacheCreationTokens : Z;
  asTotalTokens : Z;
  asCreatedAt : Time;
  asUpdatedAt : Time;
}.

(** A blank event, for the examples. *)
Definition blankEvent : UsageEvent := {|
  evID := 0; evEventKey := EmptyString; evAPIGroupKey := EmptyString;
  evProvider := EmptyString; evEndpoint := EmptyString; evAuthType := EmptyString;
  evRequestID := EmptyString; evSessionID := EmptyString; evParentSessionID := None;
  evClientIP := None; evXForwardedFor := None; evUserAgent := None;
  evModel := EmptyString; evModelAlias := None; evResponseModel := EmptyString;
  evReasoningEffort := EmptyString; evServiceTier := EmptyString;
  evResponseServiceTier := EmptyString; evExecutorType := EmptyString;
  evTimestamp := 0; evSource := EmptyString; evAuthIndex := EmptyString;
  evFailed := false; evStatusCode := None; evGenerate := None; evStream := None;
  evLatencyMS := 0; evTTFTMS := None; evInputTokens := 0; evOutputTokens := 0;
  evReasoningTokens := 0; evCachedTokens := 0; evCacheReadTokens := 0;
  evCacheReadPresent := false; evCacheCreationTokens := 0; evTotalTokens := 0;
  evCreatedAt := 0 |}.

(** entities/usage_identity.go. *)
Definition UsageIdentityAuthTypeAuthFile : Z := 1.
Definition UsageIdentityAuthTypeAIProvider : Z := 2.

(** Package providers (providers.go): the native providers. *)

Local Open Scope string_scope.

Definition Normalize (provider : string) : string := ToLower (TrimSpace provider).

Definition Supported (provider : string) : bool :=
  let p := Normalize provider in (p =?s "codex") || (p =?s "claude").

Definition UsageProvider (provider executor : string) : string * bool :=
  let provider := Normalize provider in
  if negb (provider =?s EmptyString) then (provider, Supported provider)
  else
    let executor := Normalize executor in
    if (executor =?s "codexexecutor") || (executor =?s "codexwebsocketsexecutor")
       || (executor =?s "codexautoexecutor") then ("codex", true)
    else if executor =?s "claudeexecutor" then ("claude", true)
    else (EmptyString, false).
