(* ===== verification/TokenProcessor.v ===== *)
(** The token processor (src/internal/service/tokenprocessor).

    [Process] normalises the seven token counters of a usage event: it clamps
    negative counters, resolves the protocol handler from the executor and
    identity names ([ResolveExecutor], [ResolveIdentity]), lets the handler
    rewrite the counters ([claudeHandler], [responsesInclusiveHandler],
    [strictPassThroughHandler]) and lets [reconcileFinalTotal] decide the total
    within the authority the handler proved.  String-typed enumerations stay
    strings, so the defensive branches of the code are branches here too. *)
From S2P Require Import Prelude GoStrings.
Local Open Scope string_scope.
Local Open Scope list_scope.
Local Open Scope Z_scope.

(** ** types.go *)

Definition HandlerID := string.
Definition HandlerClaude : HandlerID := "claude".
Definition HandlerResponsesInclusive : HandlerID := "responses-inclusive".
Definition HandlerStrictPassThrough : HandlerID := "strict-pass-through".

Inductive EvidenceSource := EvidenceExecutor | EvidenceIdentity | EvidenceDefault.

Inductive EvidenceStrength :=
| EvidenceParserContract | EvidenceIdentityHint | EvidenceUnknown.

#[export] Instance EvidenceSource_eq_dec : EqDecision EvidenceSource.
Proof. solve_decision. Defined.
#[export] Instance EvidenceStrength_eq_dec : EqDecision EvidenceStrength.
Proof. solve_decision. Defined.

Record TokenValues := {
  InputTokens : Z;
  OutputTokens : Z;
  ReasoningTokens : Z;
  CachedTokens : Z;
  CacheReadTokens : Z;
  CacheReadPresent : bool;
  CacheCreationTokens : Z;
  TotalTokens : Z
}.

#[export] Instance TokenValues_eq_dec : EqDecision TokenValues.
Proof. solve_decision. Defined.

Definition set_input (x : Z) (t : TokenValues) : TokenValues :=
  {| InputTokens := x; OutputTokens := OutputTokens t;
     ReasoningTokens := ReasoningTokens t; CachedTokens := CachedTokens t;
     CacheReadTokens := CacheReadTokens t; CacheReadPresent := CacheReadPresent t;
     CacheCreationTokens := CacheCreationTokens t; TotalTokens := TotalTokens t |}.
Definition set_cached (x : Z) (t : TokenValues) : TokenValues :=
  {| InputTokens := InputTokens t; OutputTokens := OutputTokens t;
     ReasoningTokens := ReasoningTokens t; CachedTokens := x;
     CacheReadTokens := CacheReadTokens t; CacheReadPresent := CacheReadPresent t;
     CacheCreationTokens := CacheCreationTokens t; TotalTokens := TotalTokens t |}.
Definition set_read (x : Z) (t : TokenValues) : TokenValues :=
  {| InputTokens := InputTokens t; OutputTokens := OutputTokens t;
     ReasoningTokens := ReasoningTokens t; CachedTokens := CachedTokens t;
     CacheReadTokens := x; CacheReadPresent := CacheReadPresent t;
     CacheCreationTokens := CacheCreationTokens t; TotalTokens := TotalTokens t |}.
Definition set_total (x : Z) (t : TokenValues) : TokenValues :=
  {| InputTokens := InputTokens t; OutputTokens := OutputTokens t;
     ReasoningTokens := ReasoningTokens t; CachedTokens := CachedTokens t;
     CacheReadTokens := CacheReadTokens t; CacheReadPresent := CacheReadPresent t;
     CacheCreationTokens := CacheCreationTokens t; TotalTokens := x |}.

Definition TokenOutcome := string.
Definition TokenOutcomeValid : TokenOutcome := "valid".
Definition TokenOutcomeNormalized : TokenOutcome := "normalized".
Definition TokenOutcomeCompatibility : TokenOutcome := "compatibility".
Definition TokenOutcomeCorrected : TokenOutcome := "corrected".
Definition TokenOutcomeAmbiguous : TokenOutcome := "ambiguous".
Definition TokenOutcomeOverflow : TokenOutcome := "overflow".

Record Action := {
  Action_Code : string;
  Action_Field : string;
  Before : Z;
  After : Z;
  Action_EvidenceSource : EvidenceSource;
  Rule : string;
  outcome : TokenOutcome
}.

Record Violation := {
  Violation_Code : string;
  Fields : list string;
  Reason : string
}.

Record ProcessResult := {
  Tokens : TokenValues;
  Actions : list Action;
  Violations : list Violation;
  Outcome : TokenOutcome
}.

Definition ActionClampNegativeToken := "clamp_negative_token".
Definition ActionBackfillCacheReadAlias := "backfill_cache_read_alias".
Definition ActionNormalizeClaudeInput := "normalize_claude_input".
Definition ActionNormalizeClaudeCachedAlias := "normalize_claude_cached_alias".
Definition ActionBackfillZeroTotal := "backfill_zero_total".
Definition ActionCorrectNonzeroTotal := "correct_nonzero_total".

Definition ViolationTokenArithmeticOverflow := "token_arithmetic_overflow".
Definition ViolationAmbiguousTotalMismatch := "ambiguous_total_mismatch".
Definition ViolationCacheReadAliasConflict := "cache_read_alias_conflict".
Definition ViolationInputBelowCache := "input_below_cache_components".
Definition ViolationOutputBelowReasoning := "output_below_reasoning".

Record handlerResolution := {
  handlerID : HandlerID;
  evidenceSource : EvidenceSource;
  evidenceStrength : EvidenceStrength;
  executorType : string;
  identityType : string;
  needsIdentity : bool;
  unknownExecutor : bool
}.

(** ** arithmetic.go *)

Fixpoint safeAdd_loop (total : Z) (values : list Z) : Z * bool :=
  match values with
  | [] => (total, true)
  | value :: rest =>
      if (value >? 0) && (total >? sub64 int64_max value) then (0, false)
      else if (value <? 0) && (total <? sub64 int64_min value) then (0, false)
      else safeAdd_loop (add64 total value) rest
  end.

Definition safeAddTokenCounts (values : list Z) : Z * bool := safeAdd_loop 0 values.

(** ** handler.go *)

Definition totalAuthority := string.
Definition totalAuthorityCanonical : totalAuthority := "canonical_total".
Definition totalAuthorityZeroOnly : totalAuthority := "zero_only_compatibility".
Definition totalAuthorityPreserve : totalAuthority := "preserve_total".

Definition tokenFieldSet := gset string.

Definition has (fields : tokenFieldSet) (field : string) : bool :=
  bool_decide (field ∈ fields).

Definition hasAny (fields : tokenFieldSet) (names : list string) : bool :=
  existsb (has fields) names.

Record normalizationContext := {
  nonNegative : TokenValues;
  clamped : tokenFieldSet;
  resolution : handlerResolution
}.

Record handlerResult := {
  tokens : TokenValues;
  authority : totalAuthority;
  actions : list Action;
  violations : list Violation
}.

Record tokenHandler := {
  handler_ID : HandlerID;
  Normalize : normalizationContext -> handlerResult
}.

Definition normalizeNonClaudeCacheRead (context : normalizationContext)
  : TokenValues * list Action * list Violation :=
  let tokens := nonNegative context in
  if has (clamped context) "cache_read_tokens" then
    if CachedTokens tokens <=? 0 then (tokens, [], [])
    else (tokens, [],
      [{| Violation_Code := ViolationAmbiguousTotalMismatch;
          Fields := ["cached_tokens"; "cache_read_tokens"];
          Reason := "cache read alias depends on a clamped read field" |}])
  else if CacheReadPresent tokens &&
          bool_decide (evidenceStrength (resolution context) = EvidenceParserContract)
  then (tokens, [], [])
  else if negb (CacheReadTokens tokens =? 0) || (CachedTokens tokens <=? 0)
  then (tokens, [], [])
  else
    let before := CacheReadTokens tokens in
    let tokens := set_read (CachedTokens tokens) tokens in
    (tokens,
     [{| Action_Code := ActionBackfillCacheReadAlias;
         Action_Field := "cache_read_tokens";
         Before := before;
         After := CacheReadTokens tokens;
         Action_EvidenceSource := evidenceSource (resolution context);
         Rule := "non_claude_cached_to_read_alias";
         outcome := TokenOutcomeCompatibility |}], []).

(** ** strict.go *)

Definition strict_Normalize (context : normalizationContext) : handlerResult :=
  let '(tokens, actions, violations) := normalizeNonClaudeCacheRead context in
  {| tokens := tokens; authority := totalAuthorityZeroOnly;
     actions := actions; violations := violations |}.

Definition strictPassThroughHandler : tokenHandler :=
  {| handler_ID := HandlerStrictPassThrough; Normalize := strict_Normalize |}.

(** ** codex_executor.go *)

Definition normalizeRegistryAlias (value : string) : string := ToLower (TrimSpace value).

Definition matchesResponsesTotalOnlyShape (context : normalizationContext) : bool :=
  if negb (bool_decide (size (clamped context) = 0%nat)) then false
  else
    let tokens := nonNegative context in
    (TotalTokens tokens >? 0) && (InputTokens tokens =? 0) && (OutputTokens tokens =? 0) &&
    (ReasoningTokens tokens =? 0) && (CachedTokens tokens =? 0) &&
    (CacheReadTokens tokens =? 0) && (CacheCreationTokens tokens =? 0).

Definition matchesLegacyCodexCachedOnlyShape (context : normalizationContext) : bool :=
  if negb (bool_decide (evidenceStrength (resolution context) = EvidenceParserContract)) ||
     negb (normalizeRegistryAlias (executorType (resolution context)) =?s "codexexecutor")
  then false
  else if hasAny (clamped context)
            ["input_tokens"; "output_tokens"; "reasoning_tokens"; "cached_tokens";
             "cache_read_tokens"; "cache_creation_tokens"; "total_tokens"]
  then false
  else
    let tokens := nonNegative context in
    if negb (InputTokens tokens =? 0) || negb (OutputTokens tokens =? 0) ||
       negb (ReasoningTokens tokens =? 0)
    then false
    else if (CachedTokens tokens <=? 0) || negb (CacheReadTokens tokens =? 0) ||
            negb (CacheCreationTokens tokens =? 0)
    then false
    else TotalTokens tokens =? CachedTokens tokens.

Definition responses_Normalize (context : normalizationContext) : handlerResult :=
  let '(tokens, actions, violations) := normalizeNonClaudeCacheRead context in
  if matchesResponsesTotalOnlyShape context then
    {| tokens := tokens; authority := totalAuthorityPreserve;
       actions := actions; violations := violations |}
  else if matchesLegacyCodexCachedOnlyShape context then
    {| tokens := tokens; authority := totalAuthorityPreserve;
       actions := actions; violations := violations |}
  else
    let authority :=
      if (length violations =? 0)%nat &&
         bool_decide (evidenceStrength (resolution context) = EvidenceParserContract) &&
         negb (hasAny (clamped context)
                 ["input_tokens"; "output_tokens"; "reasoning_tokens";
                  "cache_read_tokens"; "cache_creation_tokens"])
      then totalAuthorityCanonical
      else totalAuthorityZeroOnly in
    {| tokens := tokens; authority := authority;
       actions := actions; violations := violations |}.

Definition responsesInclusiveHandler : tokenHandler :=
  {| handler_ID := HandlerResponsesInclusive; Normalize := responses_Normalize |}.

(** ** claude_executor.go *)

Definition claudeIdentityProvesLegacyMissingCache
    (context : normalizationContext) (canonicalInput : Z) : bool :=
  let nn := nonNegative context in
  if hasAny (clamped context)
       ["input_tokens"; "output_tokens"; "cache_read_tokens"; "cache_creation_tokens";
        "total_tokens"]
  then false
  else
    let '(cacheTotal, ok) := safeAddTokenCounts [CacheReadTokens nn; CacheCreationTokens nn] in
    if negb ok || (cacheTotal <=? 0) then false
    else
      let '(rawTotal, ok) := safeAddTokenCounts [InputTokens nn; OutputTokens nn] in
      if negb ok || negb (rawTotal =? TotalTokens nn) then false
      else
        let '(canonicalTotal, ok) := safeAddTokenCounts [canonicalInput; OutputTokens nn] in
        ok && negb (canonicalTotal =? TotalTokens nn).

(** The input fold of the Claude handler: tokens, actions, violations and the
    authority it proves (the first half of [claudeHandler.Normalize]). *)
Definition claude_fold_input (context : normalizationContext)
  : TokenValues * totalAuthority * list Action * list Violation :=
  let tokens := nonNegative context in
  let '(canonicalInput, ok) :=
    safeAddTokenCounts [InputTokens tokens; CacheReadTokens tokens; CacheCreationTokens tokens] in
  if hasAny (clamped context) ["input_tokens"; "cache_read_tokens"; "cache_creation_tokens"]
  then (tokens, totalAuthorityZeroOnly, [],
    [{| Violation_Code := ViolationAmbiguousTotalMismatch;
        Fields := ["input_tokens"; "cache_read_tokens"; "cache_creation_tokens"];
        Reason := "Claude input fold depends on clamped fields" |}])
  else if negb ok then (tokens, totalAuthorityPreserve, [],
    [{| Violation_Code := ViolationTokenArithmeticOverflow;
        Fields := ["input_tokens"; "cache_read_tokens"; "cache_creation_tokens"];
        Reason := "Claude canonical input exceeds int64" |}])
  else
    let acts :=
      if negb (canonicalInput =? InputTokens tokens) then
        [{| Action_Code := ActionNormalizeClaudeInput; Action_Field := "input_tokens";
            Before := InputTokens tokens; After := canonicalInput;
            Action_EvidenceSource := evidenceSource (resolution context);
            Rule := "claude_input_excludes_cache"; outcome := TokenOutcomeNormalized |}]
      else [] in
    let tokens := set_input canonicalInput tokens in
    let authority :=
      if bool_decide (evidenceStrength (resolution context) = EvidenceParserContract)
      then totalAuthorityCanonical
      else if claudeIdentityProvesLegacyMissingCache context canonicalInput
      then totalAuthorityCanonical
      else totalAuthorityZeroOnly in
    (tokens, authority, acts, []).

Definition claude_Normalize (context : normalizationContext) : handlerResult :=
  let '(tokens, authority, actions, violations) := claude_fold_input context in
  let violations :=
    if bool_decide (evidenceStrength (resolution context) = EvidenceParserContract) &&
       (CachedTokens tokens >? 0) && (CacheReadTokens tokens >? 0) &&
       negb (CachedTokens tokens =? CacheReadTokens tokens)
    then violations ++
      [{| Violation_Code := ViolationCacheReadAliasConflict;
          Fields := ["cached_tokens"; "cache_read_tokens"];
          Reason := "Claude cached/read aliases disagree under parser contract" |}]
    else violations in
  let actions :=
    if negb (CachedTokens tokens =? CacheReadTokens tokens)
    then actions ++
      [{| Action_Code := ActionNormalizeClaudeCachedAlias; Action_Field := "cached_tokens";
          Before := CachedTokens tokens; After := CacheReadTokens tokens;
          Action_EvidenceSource := evidenceSource (resolution context);
          Rule := "claude_cached_equals_explicit_read"; outcome := TokenOutcomeNormalized |}]
    else actions in
  let tokens := set_cached (CacheReadTokens tokens) tokens in
  {| tokens := tokens; authority := authority; actions := actions; violations := violations |}.

Definition claudeHandler : tokenHandler :=
  {| handler_ID := HandlerClaude; Normalize := claude_Normalize |}.

(** ** final_total.go *)

Definition overflow_violation (fields : list string) (reason : string) : Violation :=
  {| Violation_Code := ViolationTokenArithmeticOverflow; Fields := fields; Reason := reason |}.

Definition mismatch_violation (fields : list string) (reason : string) : Violation :=
  {| Violation_Code := ViolationAmbiguousTotalMismatch; Fields := fields; Reason := reason |}.

Definition backfill_action (resolution : handlerResolution) (before after : Z) (rule : string)
  : Action :=
  {| Action_Code := ActionBackfillZeroTotal; Action_Field := "total_tokens";
     Before := before; After := after; Action_EvidenceSource := evidenceSource resolution;
     Rule := rule; outcome := TokenOutcomeCompatibility |}.

Definition reconcileZeroOnlyTotal (tokens : TokenValues) (clamped : tokenFieldSet)
    (resolution : handlerResolution) : TokenValues * list Action * list Violation :=
  let iot := ["input_tokens"; "output_tokens"; "total_tokens"] in
  if negb (TotalTokens tokens =? 0) then
    if handlerID resolution =?s HandlerStrictPassThrough then (tokens, [], [])
    else
      let '(expectedTotal, ok) := safeAddTokenCounts [InputTokens tokens; OutputTokens tokens] in
      if negb ok then
        (tokens, [], [overflow_violation iot "zero-only comparison exceeds int64"])
      else if negb (expectedTotal =? TotalTokens tokens) then
        (tokens, [], [mismatch_violation iot
          "nonzero total differs from canonical fields without correction authority"])
      else (tokens, [], [])
  else if hasAny clamped iot then
    (tokens, [], [mismatch_violation iot "zero total fallback depends on clamped fields"])
  else
    let '(expectedTotal, ok) := safeAddTokenCounts [InputTokens tokens; OutputTokens tokens] in
    if negb ok then
      (tokens, [], [overflow_violation iot "zero-only input plus output exceeds int64"])
    else if expectedTotal >? 0 then
      let before := TotalTokens tokens in
      (set_total expectedTotal tokens,
       [backfill_action resolution before expectedTotal "existing_zero_total_input_output"], [])
    else if CacheReadTokens tokens >? 0 then
      let before := TotalTokens tokens in
      let tokens := set_total (CacheReadTokens tokens) tokens in
      (tokens,
       [backfill_action resolution before (TotalTokens tokens) "existing_zero_total_cache_read"],
       [])
    else (tokens, [], []).

Definition reconcileCanonicalConflictWithZeroFallback (tokens : TokenValues)
    (clamped : tokenFieldSet) (resolution : handlerResolution) (conflict : Violation)
  : TokenValues * list Action * list Violation :=
  if negb (TotalTokens tokens =? 0) then (tokens, [], [conflict])
  else
    let '(fallbackTokens, fallbackActions, fallbackViolations) :=
      reconcileZeroOnlyTotal tokens clamped resolution in
    (fallbackTokens, fallbackActions, [conflict] ++ fallbackViolations).

Definition reconcileCanonicalTotal (tokens : TokenValues) (clamped : tokenFieldSet)
    (resolution : handlerResolution) : TokenValues * list Action * list Violation :=
  let deps := ["input_tokens"; "output_tokens"; "reasoning_tokens"; "cache_read_tokens";
               "cache_creation_tokens"; "total_tokens"] in
  if hasAny clamped deps then
    (tokens, [], [mismatch_violation deps "canonical total depends on clamped token fields"])
  else
    let '(cacheComponents, ok) :=
      safeAddTokenCounts [CacheReadTokens tokens; CacheCreationTokens tokens] in
    if negb ok then
      reconcileCanonicalConflictWithZeroFallback tokens clamped resolution
        (overflow_violation ["cache_read_tokens"; "cache_creation_tokens"]
           "cache token components exceed int64")
    else if InputTokens tokens <? cacheComponents then
      reconcileCanonicalConflictWithZeroFallback tokens clamped resolution
        {| Violation_Code := ViolationInputBelowCache;
           Fields := ["input_tokens"; "cache_read_tokens"; "cache_creation_tokens"];
           Reason := "canonical input is smaller than cache read plus creation" |}
    else if OutputTokens tokens <? ReasoningTokens tokens then
      reconcileCanonicalConflictWithZeroFallback tokens clamped resolution
        {| Violation_Code := ViolationOutputBelowReasoning;
           Fields := ["output_tokens"; "reasoning_tokens"];
           Reason := "canonical output is smaller than reasoning" |}
    else
      let '(expectedTotal, ok) := safeAddTokenCounts [InputTokens tokens; OutputTokens tokens] in
      if negb ok then
        (tokens, [], [overflow_violation ["input_tokens"; "output_tokens"; "total_tokens"]
           "canonical input plus output exceeds int64"])
      else if TotalTokens tokens =? expectedTotal then (tokens, [], [])
      else
        let before := TotalTokens tokens in
        let tokens := set_total expectedTotal tokens in
        if before =? 0 then
          (tokens, [backfill_action resolution before expectedTotal "canonical_zero_total"], [])
        else
          (tokens,
           [{| Action_Code := ActionCorrectNonzeroTotal; Action_Field := "total_tokens";
               Before := before; After := expectedTotal;
               Action_EvidenceSource := evidenceSource resolution;
               Rule := "canonical_input_plus_output"; outcome := TokenOutcomeCorrected |}], []).

Definition reconcileFinalTotal (tokens : TokenValues) (authority : totalAuthority)
    (clamped : tokenFieldSet) (resolution : handlerResolution)
  : TokenValues * list Action * list Violation :=
  if authority =?s totalAuthorityCanonical then
    reconcileCanonicalTotal tokens clamped resolution
  else if authority =?s totalAuthorityZeroOnly then
    reconcileZeroOnlyTotal tokens clamped resolution
  else if authority =?s totalAuthorityPreserve then (tokens, [], [])
  else (tokens, [],
    [mismatch_violation ["total_tokens"] "token handler returned unknown total authority"]).

(** ** processor.go *)

(** The closure [clamp] of [clampTokenValues], applied to one field. *)
Definition clamp (field : string) (value : Z) (st : list Action * tokenFieldSet)
  : Z * (list Action * tokenFieldSet) :=
  let '(actions, clamped) := st in
  if value >=? 0 then (value, (actions, clamped))
  else
    (0, (actions ++
      [{| Action_Code := ActionClampNegativeToken; Action_Field := field;
          Before := value; After := 0; Action_EvidenceSource := EvidenceDefault;
          Rule := "non_negative_ingress"; outcome := TokenOutcomeCorrected |}],
      {[field]} ∪ clamped)).

Definition clampTokenValues (values : TokenValues)
  : TokenValues * list Action * tokenFieldSet :=
  let st := ([], ∅) in
  let '(input, st) := clamp "input_tokens" (InputTokens values) st in
  let '(output, st) := clamp "output_tokens" (OutputTokens values) st in
  let '(reasoning, st) := clamp "reasoning_tokens" (ReasoningTokens values) st in
  let '(cached, st) := clamp "cached_tokens" (CachedTokens values) st in
  let '(read, st) := clamp "cache_read_tokens" (CacheReadTokens values) st in
  let '(creation, st) := clamp "cache_creation_tokens" (CacheCreationTokens values) st in
  let '(total, st) := clamp "total_tokens" (TotalTokens values) st in
  ({| InputTokens := input; OutputTokens := output; ReasoningTokens := reasoning;
      CachedTokens := cached; CacheReadTokens := read;
      CacheReadPresent := CacheReadPresent values;
      CacheCreationTokens := creation; TotalTokens := total |}, fst st, snd st).

(** The loop over actions of [summarizeTokenOutcome]. *)
Fixpoint actions_outcome (actionOutcome : TokenOutcome) (actions : list Action) : TokenOutcome :=
  match actions with
  | [] => actionOutcome
  | action :: rest =>
      if outcome action =?s TokenOutcomeCorrected then
        actions_outcome TokenOutcomeCorrected rest
      else if (outcome action =?s TokenOutcomeCompatibility) &&
              negb (actionOutcome =?s TokenOutcomeCorrected) then
        actions_outcome TokenOutcomeCompatibility rest
      else if (outcome action =?s TokenOutcomeNormalized) &&
              (actionOutcome =?s TokenOutcomeValid) then
        actions_outcome TokenOutcomeNormalized rest
      else actions_outcome actionOutcome rest
  end.

Definition summarizeTokenOutcome (actions : list Action) (violations : list Violation)
  : TokenOutcome :=
  if existsb (fun v => Violation_Code v =?s ViolationTokenArithmeticOverflow) violations
  then TokenOutcomeOverflow
  else if (0 <? length violations)%nat then TokenOutcomeAmbiguous
  else
    let actionOutcome := actions_outcome TokenOutcomeValid actions in
    if negb (actionOutcome =?s TokenOutcomeValid) then actionOutcome
    else if (0 <? length actions)%nat then TokenOutcomeNormalized
    else TokenOutcomeValid.

(** ** registry.go *)

Record executorDefinition := { executor_alias : string; executor_handlerID : HandlerID }.
Record identityAliasDefinition := { identity_alias : string; identity_handlerID : HandlerID }.

Record registryIndexes := {
  executors : gmap string executorDefinition;
  identities : gmap string identityAliasDefinition
}.

Definition claudeExecutorDefinition :=
  {| executor_alias := "ClaudeExecutor"; executor_handlerID := HandlerClaude |}.
Definition codexExecutorDefinition :=
  {| executor_alias := "CodexExecutor"; executor_handlerID := HandlerResponsesInclusive |}.
Definition codexWebsocketsExecutorDefinition :=
  {| executor_alias := "CodexWebsocketsExecutor"; executor_handlerID := HandlerResponsesInclusive |}.
Definition codexAutoExecutorDefinition :=
  {| executor_alias := "CodexAutoExecutor"; executor_handlerID := HandlerResponsesInclusive |}.

Definition handlerDefinitions : list HandlerID :=
  [HandlerClaude; HandlerResponsesInclusive; HandlerStrictPassThrough].

Definition tokenHandlers : gmap HandlerID tokenHandler :=
  list_to_map [(HandlerClaude, claudeHandler);
               (HandlerResponsesInclusive, responsesInclusiveHandler);
               (HandlerStrictPassThrough, strictPassThroughHandler)].

Definition executorDefinitions : list executorDefinition :=
  [claudeExecutorDefinition; codexExecutorDefinition; codexWebsocketsExecutorDefinition;
   codexAutoExecutorDefinition].

Definition identityAliasDefinitions : list identityAliasDefinition :=
  [{| identity_alias := "claude"; identity_handlerID := HandlerClaude |};
   {| identity_alias := "codex"; identity_handlerID := HandlerResponsesInclusive |}].

Inductive registryError :=
| duplicate_handler (id : HandlerID)
| handler_registry_size (got want : nat)
| handler_not_declared (id : HandlerID)
| handler_mismatched_id (id : HandlerID)
| empty_alias
| unknown_handler (alias : string) (id : HandlerID)
| duplicate_alias (alias : string).

Fixpoint declare_handlers (acc : gset HandlerID) (ids : list HandlerID)
  : result registryError (gset HandlerID) :=
  match ids with
  | [] => Ok acc
  | id :: rest =>
      if bool_decide (id ∈ acc) then Err (duplicate_handler id)
      else declare_handlers ({[id]} ∪ acc) rest
  end.

Fixpoint check_handlers (handlers : gset HandlerID) (l : list (HandlerID * tokenHandler))
  : result registryError unit :=
  match l with
  | [] => Ok tt
  | (id, handler) :: rest =>
      if negb (bool_decide (id ∈ handlers)) then Err (handler_not_declared id)
      else if negb (handler_ID handler =?s id) then Err (handler_mismatched_id id)
      else check_handlers handlers rest
  end.

(** The two index loops of [buildRegistryIndexes], which differ in the type of
    definition only. *)
Fixpoint index_definitions {D : Type} (alias_of : D -> string) (handler_of : D -> HandlerID)
    (handlers : gset HandlerID) (acc : gmap string D) (definitions : list D)
  : result registryError (gmap string D) :=
  match definitions with
  | [] => Ok acc
  | definition :: rest =>
      let alias := normalizeRegistryAlias (alias_of definition) in
      if alias =?s EmptyString then Err empty_alias
      else if negb (bool_decide (handler_of definition ∈ handlers)) then
        Err (unknown_handler (alias_of definition) (handler_of definition))
      else if bool_decide (is_Some (acc !! alias)) then
        Err (duplicate_alias (alias_of definition))
      else index_definitions alias_of handler_of handlers (<[alias := definition]> acc) rest
  end.

Definition buildRegistryIndexes : result registryError registryIndexes :=
  let? handlers := declare_handlers ∅ handlerDefinitions in
  if negb (size tokenHandlers =? size handlers)%nat then
    Err (handler_registry_size (size tokenHandlers) (size handlers))
  else
    let? _ := check_handlers handlers (map_to_list tokenHandlers) in
    let? executors :=
      index_definitions executor_alias executor_handlerID handlers ∅ executorDefinitions in
    let? identities :=
      index_definitions identity_alias identity_handlerID handlers ∅ identityAliasDefinitions in
    Ok {| executors := executors; identities := identities |}.

(** ** resolver.go *)

Definition resolveExecutor (registry : registryIndexes) (executorType : string)
  : handlerResolution :=
  let normalizedExecutor := normalizeRegistryAlias executorType in
  match executors registry !! normalizedExecutor with
  | Some definition =>
      {| handlerID := executor_handlerID definition;
         evidenceSource := EvidenceExecutor;
         evidenceStrength := EvidenceParserContract;
         executorType := TrimSpace executorType;
         identityType := EmptyString;
         needsIdentity := false;
         unknownExecutor := false |}
  | None =>
      {| handlerID := HandlerStrictPassThrough;
         evidenceSource := EvidenceDefault;
         evidenceStrength := EvidenceUnknown;
         executorType := TrimSpace executorType;
         identityType := EmptyString;
         needsIdentity := true;
         unknownExecutor := negb (normalizedExecutor =?s EmptyString) &&
                            negb (normalizedExecutor =?s "unknown") |}
  end.

(** [defaultRegistry, defaultRegistryErr] of registry.go. *)
Definition defaultRegistry : result registryError registryIndexes := buildRegistryIndexes.

Definition ResolveExecutor (executorType : string) : result registryError handlerResolution :=
  let? registry := defaultRegistry in Ok (resolveExecutor registry executorType).

Definition with_identity (id : HandlerID) (src : EvidenceSource) (str : EvidenceStrength)
    (identityType : string) (needs : bool) (r : handlerResolution) : handlerResolution :=
  {| handlerID := id; evidenceSource := src; evidenceStrength := str;
     executorType := executorType r; identityType := identityType;
     needsIdentity := needs; unknownExecutor := unknownExecutor r |}.

Definition ResolveIdentity (executorType identityType : string)
  : result registryError handlerResolution :=
  let? registry := defaultRegistry in
  let resolution := resolveExecutor registry executorType in
  if negb (needsIdentity resolution) then
    Ok (with_identity (handlerID resolution) (evidenceSource resolution)
          (evidenceStrength resolution) (TrimSpace identityType)
          (needsIdentity resolution) resolution)
  else
    let normalizedIdentity := normalizeRegistryAlias identityType in
    match identities registry !! normalizedIdentity with
    | Some definition =>
        Ok (with_identity (identity_handlerID definition) EvidenceIdentity EvidenceIdentityHint
              (TrimSpace identityType) false resolution)
    | None =>
        Ok (with_identity HandlerStrictPassThrough EvidenceDefault EvidenceUnknown
              (TrimSpace identityType) false resolution)
    end.

(** ** processor.go: [Process] *)

Definition default_resolution (r : handlerResolution) : handlerResolution :=
  with_identity HandlerStrictPassThrough EvidenceDefault EvidenceUnknown
    (identityType r) (needsIdentity r) r.

Definition strict_default : handlerResolution :=
  {| handlerID := HandlerStrictPassThrough; evidenceSource := EvidenceDefault;
     evidenceStrength := EvidenceUnknown; executorType := EmptyString;
     identityType := EmptyString; needsIdentity := false; unknownExecutor := false |}.

(** The handler [Process] runs and the resolution it hands it. *)
Definition select_handler (resolved : handlerResolution) : tokenHandler * handlerResolution :=
  match tokenHandlers !! handlerID resolved with
  | Some handler => (handler, resolved)
  | None => (strictPassThroughHandler, default_resolution resolved)
  end.

(** [resolution = None] is the nil interface value. *)
Definition Process (values : TokenValues) (resolution : option handlerResolution)
  : ProcessResult :=
  let '(nonNegative, clampActions, clamped) := clampTokenValues values in
  let resolved := default strict_default resolution in
  let '(handler, resolved) := select_handler resolved in
  let handled := Normalize handler
    {| nonNegative := nonNegative; clamped := clamped; resolution := resolved |} in
  let '(tokens, totalActions, totalViolations) :=
    reconcileFinalTotal (tokens handled) (authority handled) clamped resolved in
  let actions := (clampActions ++ actions handled) ++ totalActions in
  let violations := violations handled ++ totalViolations in
  {| Tokens := tokens; Actions := actions; Violations := violations;
     Outcome := summarizeTokenOutcome actions violations |}.
