(* ===== verification/TokenProcessorFacts.v ===== *)
(** Theorems about the token processor of [TokenProcessor].

    Shared lemmas first: checked addition, clamping, the three handlers and
    the total reconciler; then the properties of [Process] and of the
    resolvers. *)
From S2P Require Import Prelude GoStrings TokenProcessor.
Local Open Scope string_scope.
Local Open Scope list_scope.
Local Open Scope Z_scope.

(** ** Specification vocabulary *)

Definition count_ok (z : Z) : Prop := 0 <= z <= int64_max.

Definition values_in_int64 (t : TokenValues) : Prop :=
  in_int64 (InputTokens t) /\ in_int64 (OutputTokens t) /\ in_int64 (ReasoningTokens t) /\
  in_int64 (CachedTokens t) /\ in_int64 (CacheReadTokens t) /\
  in_int64 (CacheCreationTokens t) /\ in_int64 (TotalTokens t).

Definition counts_ok (t : TokenValues) : Prop :=
  count_ok (InputTokens t) /\ count_ok (OutputTokens t) /\ count_ok (ReasoningTokens t) /\
  count_ok (CachedTokens t) /\ count_ok (CacheReadTokens t) /\
  count_ok (CacheCreationTokens t) /\ count_ok (TotalTokens t).

(** The canonical accounting: the total is input plus output, the input
    includes the cache components and the output includes the reasoning. *)
Definition canonical (t : TokenValues) : Prop :=
  TotalTokens t = InputTokens t + OutputTokens t /\
  CacheReadTokens t + CacheCreationTokens t <= InputTokens t /\
  ReasoningTokens t <= OutputTokens t.

(** The two upstream shapes whose total is kept although it is not the sum. *)
Definition total_only (t : TokenValues) : Prop :=
  InputTokens t = 0 /\ OutputTokens t = 0 /\ ReasoningTokens t = 0 /\
  CachedTokens t = 0 /\ CacheReadTokens t = 0 /\ CacheCreationTokens t = 0 /\
  0 < TotalTokens t.

Definition cached_only (t : TokenValues) : Prop :=
  InputTokens t = 0 /\ OutputTokens t = 0 /\ ReasoningTokens t = 0 /\
  0 < CachedTokens t /\ CacheReadTokens t = 0 /\ CacheCreationTokens t = 0 /\
  TotalTokens t = CachedTokens t.

Definition get_field (t : TokenValues) (field : string) : option Z :=
  if field =?s "input_tokens" then Some (InputTokens t)
  else if field =?s "output_tokens" then Some (OutputTokens t)
  else if field =?s "reasoning_tokens" then Some (ReasoningTokens t)
  else if field =?s "cached_tokens" then Some (CachedTokens t)
  else if field =?s "cache_read_tokens" then Some (CacheReadTokens t)
  else if field =?s "cache_creation_tokens" then Some (CacheCreationTokens t)
  else if field =?s "total_tokens" then Some (TotalTokens t)
  else None.

Definition set_field (field : string) (x : Z) (t : TokenValues) : TokenValues :=
  let put name old := if field =?s name then x else old in
  {| InputTokens := put "input_tokens" (InputTokens t);
     OutputTokens := put "output_tokens" (OutputTokens t);
     ReasoningTokens := put "reasoning_tokens" (ReasoningTokens t);
     CachedTokens := put "cached_tokens" (CachedTokens t);
     CacheReadTokens := put "cache_read_tokens" (CacheReadTokens t);
     CacheReadPresent := CacheReadPresent t;
     CacheCreationTokens := put "cache_creation_tokens" (CacheCreationTokens t);
     TotalTokens := put "total_tokens" (TotalTokens t) |}.

(** Re-run an action log: every action must name a counter and give its
    current value as [Before]. *)
Fixpoint replay (log : list Action) (t : TokenValues) : option TokenValues :=
  match log with
  | [] => Some t
  | a :: rest =>
      match get_field t (Action_Field a) with
      | Some b =>
          if b =? Before a then replay rest (set_field (Action_Field a) (After a) t) else None
      | None => None
      end
  end.

Definition clamp_values (t : TokenValues) : TokenValues :=
  {| InputTokens := Z.max 0 (InputTokens t);
     OutputTokens := Z.max 0 (OutputTokens t);
     ReasoningTokens := Z.max 0 (ReasoningTokens t);
     CachedTokens := Z.max 0 (CachedTokens t);
     CacheReadTokens := Z.max 0 (CacheReadTokens t);
     CacheReadPresent := CacheReadPresent t;
     CacheCreationTokens := Z.max 0 (CacheCreationTokens t);
     TotalTokens := Z.max 0 (TotalTokens t) |}.

Definition clamp_actions (field : string) (x : Z) : list Action :=
  if x <? 0 then
    [{| Action_Code := ActionClampNegativeToken; Action_Field := field;
        Before := x; After := 0; Action_EvidenceSource := EvidenceDefault;
        Rule := "non_negative_ingress"; outcome := TokenOutcomeCorrected |}]
  else [].

Definition clamp_set (field : string) (x : Z) : tokenFieldSet :=
  if x <? 0 then {[field]} else ∅.

(** ** Checked addition *)

Lemma safeAdd_loop_exact (l : list Z) (t s : Z) :
  in_int64 t -> Forall in_int64 l -> safeAdd_loop t l = (s, true) ->
  s = t + sum_Z l /\ in_int64 s.
Proof.
  revert t. induction l as [|x l IH]; simpl; intros t Ht Hl H.
  { inversion H; subst. unfold sum_Z; simpl. rewrite Z.add_0_r. auto. }
  inversion Hl as [|? ? Hx Hl']; subst.
  destruct (_ && _) eqn:E1; [discriminate|].
  destruct (_ && _) eqn:E2 in H; [discriminate|].
  assert (Hin : in_int64 (t + x)).
  { unfold sub64 in *.
    destruct (Z.lt_trichotomy x 0) as [?|[?|?]].
    - rewrite (wrap64_id (int64_min - x)) in E2 by (unfold64; lia). unfold64. lia.
    - subst. by rewrite Z.add_0_r.
    - rewrite (wrap64_id (int64_max - x)) in E1 by (unfold64; lia). unfold64. lia. }
  rewrite add64_id in H by done.
  destruct (IH _ Hin Hl' H) as [-> ?]. split; [|done].
  unfold sum_Z; simpl. lia.
Qed.

Lemma safeAdd_loop_nonneg (l : list Z) (t : Z) :
  count_ok t -> Forall count_ok l ->
  safeAdd_loop t l =
    if t + sum_Z l <=? int64_max then (t + sum_Z l, true) else (0, false).
Proof.
  unfold count_ok. revert t. induction l as [|x l IH]; intros t Ht Hl.
  { unfold sum_Z; simpl. rewrite Z.add_0_r. destruct (t <=? int64_max) eqn:E; [done|lia]. }
  inversion Hl as [|? ? Hx Hl']; subst. cbn [safeAdd_loop].
  assert (Hs : 0 <= sum_Z l).
  { apply sum_Z_nonneg. eapply Forall_impl; [exact Hl'|]. simpl. lia. }
  replace (sum_Z (x :: l)) with (x + sum_Z l) by reflexivity.
  unfold sub64. rewrite (wrap64_id (int64_max - x)) by (unfold64; lia).
  destruct ((x >? 0) && (t >? int64_max - x)) eqn:E1.
  { destruct (t + (x + sum_Z l) <=? int64_max) eqn:E; [lia|done]. }
  replace (x <? 0) with false by lia. cbn [andb].
  rewrite add64_id by (unfold64; lia).
  rewrite IH by (done || lia). rewrite Z.add_assoc. done.
Qed.

Lemma safeAdd_nonneg (l : list Z) :
  Forall count_ok l ->
  safeAddTokenCounts l = if sum_Z l <=? int64_max then (sum_Z l, true) else (0, false).
Proof.
  intros. unfold safeAddTokenCounts. rewrite safeAdd_loop_nonneg; [done| |done].
  unfold count_ok; unfold64; lia.
Qed.

Lemma safeAdd2 (a b : Z) :
  count_ok a -> count_ok b ->
  safeAddTokenCounts [a; b] = if a + b <=? int64_max then (a + b, true) else (0, false).
Proof.
  intros. rewrite safeAdd_nonneg by auto.
  unfold sum_Z; simpl. by rewrite Z.add_0_r.
Qed.

Lemma safeAdd3 (a b c : Z) :
  count_ok a -> count_ok b -> count_ok c ->
  safeAddTokenCounts [a; b; c] =
    if a + (b + c) <=? int64_max then (a + (b + c), true) else (0, false).
Proof.
  intros. rewrite safeAdd_nonneg by auto 6.
  unfold sum_Z; simpl. by rewrite Z.add_0_r.
Qed.

(** ** Clamping *)

Lemma clamp_eq field x st :
  clamp field x st = (Z.max 0 x, (fst st ++ clamp_actions field x, clamp_set field x ∪ snd st)).
Proof.
  destruct st as [a s]. unfold clamp, clamp_actions, clamp_set; simpl.
  destruct (x >=? 0) eqn:E1; destruct (x <? 0) eqn:E2; try lia.
  - rewrite app_nil_r, (left_id_L ∅ (∪)). by rewrite Z.max_r by lia.
  - by rewrite Z.max_l by lia.
Qed.

Lemma has_union (a b : tokenFieldSet) f : has (a ∪ b) f = has a f || has b f.
Proof.
  unfold has. rewrite <- bool_decide_or. apply bool_decide_ext, elem_of_union.
Qed.

Lemma has_clamp_set f g x : has (clamp_set g x) f = (f =?s g) && (x <? 0).
Proof.
  unfold has, clamp_set. destruct (x <? 0).
  - destruct (String.eqb_spec f g) as [->|Hne]; case_bool_decide as Hin; try done.
    + destruct Hin. by apply elem_of_singleton.
    + by apply elem_of_singleton in Hin.
  - rewrite andb_false_r. by case_bool_decide.
Qed.

Lemma has_empty f : has ∅ f = false.
Proof. unfold has. case_bool_decide; set_solver. Qed.

#[export] Hint Rewrite has_union has_clamp_set has_empty : keeper.

Definition all_clamp_actions (v : TokenValues) : list Action :=
  clamp_actions "input_tokens" (InputTokens v) ++
  clamp_actions "output_tokens" (OutputTokens v) ++
  clamp_actions "reasoning_tokens" (ReasoningTokens v) ++
  clamp_actions "cached_tokens" (CachedTokens v) ++
  clamp_actions "cache_read_tokens" (CacheReadTokens v) ++
  clamp_actions "cache_creation_tokens" (CacheCreationTokens v) ++
  clamp_actions "total_tokens" (TotalTokens v).

Definition all_clamp_set (v : TokenValues) : tokenFieldSet :=
  clamp_set "total_tokens" (TotalTokens v) ∪
  (clamp_set "cache_creation_tokens" (CacheCreationTokens v) ∪
  (clamp_set "cache_read_tokens" (CacheReadTokens v) ∪
  (clamp_set "cached_tokens" (CachedTokens v) ∪
  (clamp_set "reasoning_tokens" (ReasoningTokens v) ∪
  (clamp_set "output_tokens" (OutputTokens v) ∪
  (clamp_set "input_tokens" (InputTokens v) ∪ ∅)))))).

Lemma clampTokenValues_eq v :
  clampTokenValues v = (clamp_values v, all_clamp_actions v, all_clamp_set v).
Proof.
  unfold clampTokenValues. rewrite !clamp_eq. cbn [fst snd].
  unfold all_clamp_actions. rewrite !app_assoc. reflexivity.
Qed.

Lemma clamp_values_ok v : values_in_int64 v -> counts_ok (clamp_values v).
Proof.
  unfold values_in_int64, counts_ok, count_ok, clamp_values. unfold64. simpl. lia.
Qed.

Lemma clamp_values_id v : counts_ok v -> clamp_values v = v.
Proof.
  destruct v. unfold counts_ok, count_ok, clamp_values. simpl. intros.
  f_equal; lia.
Qed.

(** Reduce membership tests in the clamped set of [v] to sign tests on [v]. *)
Ltac clamped_simpl :=
  unfold hasAny, all_clamp_set in *; cbn [existsb] in *;
  autorewrite with keeper in *; cbn in *;
  repeat rewrite ?orb_false_r, ?andb_false_l in *.

Lemma has_clamped_false v f : counts_ok v -> has (all_clamp_set v) f = false.
Proof.
  unfold counts_ok, count_ok. intros. unfold all_clamp_set.
  autorewrite with keeper.
  repeat match goal with |- context [?x <? 0] => replace (x <? 0) with false by lia end.
  by rewrite !andb_false_r.
Qed.

Lemma hasAny_clamped_false v l : counts_ok v -> hasAny (all_clamp_set v) l = false.
Proof.
  intros Hv. induction l as [|f l IH]; [done|].
  unfold hasAny in *. simpl. by rewrite has_clamped_false, IH.
Qed.

Lemma clamped_empty v : counts_ok v -> all_clamp_set v = ∅.
Proof.
  intros Hv. apply set_eq. intros f. pose proof (has_clamped_false v f Hv) as H.
  unfold has in H. apply bool_decide_eq_false in H. set_solver.
Qed.

(** ** Case analysis of the code's tests *)

(** Destruct the tests of a computed term one after the other, keeping the
    equations, and turn them into arithmetic. *)
Ltac code_cases :=
  repeat (if_split; cbn [negb andb orb] in *; try discriminate).

Lemma clamp_values_fields v :
  InputTokens (clamp_values v) = Z.max 0 (InputTokens v) /\
  OutputTokens (clamp_values v) = Z.max 0 (OutputTokens v) /\
  ReasoningTokens (clamp_values v) = Z.max 0 (ReasoningTokens v) /\
  CachedTokens (clamp_values v) = Z.max 0 (CachedTokens v) /\
  CacheReadTokens (clamp_values v) = Z.max 0 (CacheReadTokens v) /\
  CacheCreationTokens (clamp_values v) = Z.max 0 (CacheCreationTokens v) /\
  TotalTokens (clamp_values v) = Z.max 0 (TotalTokens v).
Proof. done. Qed.

(** ** The handlers keep the counters valid *)

Lemma set_input_ok x t : counts_ok t -> count_ok x -> counts_ok (set_input x t).
Proof. unfold counts_ok; simpl; tauto. Qed.
Lemma set_cached_ok x t : counts_ok t -> count_ok x -> counts_ok (set_cached x t).
Proof. unfold counts_ok; simpl; tauto. Qed.
Lemma set_read_ok x t : counts_ok t -> count_ok x -> counts_ok (set_read x t).
Proof. unfold counts_ok; simpl; tauto. Qed.
Lemma set_total_ok x t : counts_ok t -> count_ok x -> counts_ok (set_total x t).
Proof. unfold counts_ok; simpl; tauto. Qed.

Lemma counts_ok_cached t : counts_ok t -> count_ok (CachedTokens t).
Proof. unfold counts_ok; tauto. Qed.
Lemma counts_ok_read t : counts_ok t -> count_ok (CacheReadTokens t).
Proof. unfold counts_ok; tauto. Qed.

#[export] Hint Resolve set_input_ok set_cached_ok set_read_ok set_total_ok
  counts_ok_cached counts_ok_read : keeper.

(** The cache-read alias step, as an equation between its possible results. *)
Lemma normalizeNonClaude_cases ctx t a vs :
  normalizeNonClaudeCacheRead ctx = (t, a, vs) ->
  (t = nonNegative ctx /\ a = []) \/
  (t = set_read (CachedTokens (nonNegative ctx)) (nonNegative ctx) /\
   CacheReadTokens (nonNegative ctx) = 0 /\ 0 < CachedTokens (nonNegative ctx) /\
   has (clamped ctx) "cache_read_tokens" = false /\
   vs = [] /\
   a = [{| Action_Code := ActionBackfillCacheReadAlias;
           Action_Field := "cache_read_tokens"; Before := 0;
           After := CachedTokens (nonNegative ctx);
           Action_EvidenceSource := evidenceSource (resolution ctx);
           Rule := "non_claude_cached_to_read_alias";
           outcome := TokenOutcomeCompatibility |}]).
Proof.
  unfold normalizeNonClaudeCacheRead. code_cases; intros [= <- <- <-]; eauto.
  right. clear E0. bool_split. replace (CacheReadTokens _) with 0 by done.
  split_and!; done.
Qed.

Lemma normalizeNonClaude_ok ctx t a vs :
  counts_ok (nonNegative ctx) -> normalizeNonClaudeCacheRead ctx = (t, a, vs) -> counts_ok t.
Proof.
  intros H E. destruct (normalizeNonClaude_cases _ _ _ _ E) as [[-> _]|[-> _]];
    auto with keeper.
Qed.

Lemma strict_tokens ctx :
  tokens (strict_Normalize ctx) = fst (fst (normalizeNonClaudeCacheRead ctx)).
Proof. unfold strict_Normalize. by destruct (normalizeNonClaudeCacheRead ctx) as [[? ?] ?]. Qed.

Lemma responses_tokens ctx :
  tokens (responses_Normalize ctx) = fst (fst (normalizeNonClaudeCacheRead ctx)).
Proof.
  unfold responses_Normalize. destruct (normalizeNonClaudeCacheRead ctx) as [[? ?] ?].
  by code_cases.
Qed.

Lemma claude_fold_cases ctx t auth a vs :
  counts_ok (nonNegative ctx) ->
  claude_fold_input ctx = (t, auth, a, vs) ->
  let nn := nonNegative ctx in
  let folded := InputTokens nn + (CacheReadTokens nn + CacheCreationTokens nn) in
  (t = nn /\ a = [] /\ vs <> [] /\ auth <> totalAuthorityCanonical) \/
  (t = set_input folded nn /\ folded <= int64_max /\ vs = [] /\
   hasAny (clamped ctx) ["input_tokens"; "cache_read_tokens"; "cache_creation_tokens"] = false /\
   (auth = totalAuthorityCanonical ->
      evidenceStrength (resolution ctx) = EvidenceParserContract \/
      claudeIdentityProvesLegacyMissingCache ctx folded = true) /\
   (evidenceStrength (resolution ctx) = EvidenceParserContract ->
      auth = totalAuthorityCanonical) /\
   a = if folded =? InputTokens nn then [] else
       [{| Action_Code := ActionNormalizeClaudeInput; Action_Field := "input_tokens";
           Before := InputTokens nn; After := folded;
           Action_EvidenceSource := evidenceSource (resolution ctx);
           Rule := "claude_input_excludes_cache"; outcome := TokenOutcomeNormalized |}]).
Proof.
  intros Hok. unfold claude_fold_input.
  destruct Hok as (Hi & _ & _ & _ & Hr & Hc & _).
  rewrite safeAdd3 by done. cbn zeta.
  set (folded := InputTokens _ + _).
  destruct (folded <=? int64_max) eqn:Ef; cbn [negb].
  - destruct (hasAny _ _) eqn:Ec; intros [= <- <- <- <-].
    { left. split_and!; done. }
    right. apply Z.leb_le in Ef. split_and!; auto.
    + intros Ha. destruct (bool_decide _) eqn:Eb; [left; by apply bool_decide_eq_true in Eb|].
      right. by destruct (claudeIdentityProvesLegacyMissingCache ctx folded).
    + intros Hp. by rewrite bool_decide_eq_true_2 by done.
    + by destruct (folded =? _).
  - destruct (hasAny _ _) eqn:Ec; intros [= <- <- <- <-]; left; split_and!; done.
Qed.

Lemma claude_ok ctx :
  counts_ok (nonNegative ctx) -> counts_ok (tokens (claude_Normalize ctx)).
Proof.
  intros H. unfold claude_Normalize.
  destruct (claude_fold_input ctx) as [[[t auth] a] vs] eqn:E. cbn [tokens].
  apply claude_fold_cases in E; [|done]. cbn zeta in E.
  assert (counts_ok t).
  { destruct E as [(-> & _)|(-> & Hle & _)]; [done|].
    apply set_input_ok; [done|]. unfold counts_ok, count_ok in *. lia. }
  auto with keeper.
Qed.

Lemma select_handler_cases r :
  select_handler r = (claudeHandler, r) /\ handlerID r = HandlerClaude \/
  select_handler r = (responsesInclusiveHandler, r) /\ handlerID r = HandlerResponsesInclusive \/
  exists r', select_handler r = (strictPassThroughHandler, r') /\
    handlerID r' = HandlerStrictPassThrough /\
    (r' = r \/ evidenceStrength r' = EvidenceUnknown).
Proof.
  unfold select_handler.
  destruct (decide (handlerID r = HandlerClaude)) as [E|N1]; [rewrite E; auto|].
  destruct (decide (handlerID r = HandlerResponsesInclusive)) as [E|N2]; [rewrite E; auto|].
  destruct (decide (handlerID r = HandlerStrictPassThrough)) as [E|N3].
  { rewrite E. right; right. exists r. auto. }
  right; right. exists (default_resolution r).
  replace (tokenHandlers !! handlerID r) with (@None tokenHandler); [by auto|].
  symmetry. unfold tokenHandlers. cbn [list_to_map foldr fst snd].
  by rewrite !lookup_insert_ne by congruence.
Qed.

Lemma handler_ok r ctx :
  counts_ok (nonNegative ctx) ->
  counts_ok (tokens (Normalize (fst (select_handler r)) ctx)).
Proof.
  intros H.
  destruct (normalizeNonClaudeCacheRead ctx) as [[t a] vs] eqn:E.
  destruct (select_handler_cases r) as [[-> _]|[[-> _]|(r' & -> & _)]]; cbn [fst Normalize claudeHandler responsesInclusiveHandler strictPassThroughHandler].
  - by apply claude_ok.
  - rewrite responses_tokens, E. eauto using normalizeNonClaude_ok.
  - rewrite strict_tokens, E. eauto using normalizeNonClaude_ok.
Qed.

(** ** The total reconciler *)

Definition total_deps : list string :=
  ["input_tokens"; "output_tokens"; "reasoning_tokens"; "cache_read_tokens";
   "cache_creation_tokens"; "total_tokens"].

(** What one reconciliation may do: keep the counters without an action, or
    set the total with exactly one action that records the change. *)
Definition total_step (t t' : TokenValues) (a : list Action) : Prop :=
  (t' = t /\ a = []) \/
  exists act, a = [act] /\ Action_Field act = "total_tokens" /\
    Before act = TotalTokens t /\ After act <> TotalTokens t /\
    t' = set_total (After act) t.

Lemma total_step_refl t : total_step t t [].
Proof. left; auto. Qed.

#[export] Hint Resolve total_step_refl : keeper.

(** Close a branch that returns the counters unchanged. *)
Ltac step_kept :=
  intros [= <- <- <-]; split_and!; auto with keeper; intros; first [by left | congruence].

(** Close the [total_step] of a branch that sets the total. *)
Ltac total_changed :=
  right; eexists; split_and!; [reflexivity|reflexivity|reflexivity|cbn; lia|reflexivity].

Lemma zero_only_step t cl r t' a vs :
  counts_ok t -> reconcileZeroOnlyTotal t cl r = (t', a, vs) ->
  counts_ok t' /\ total_step t t' a /\ (TotalTokens t <> 0 -> t' = t /\ a = []).
Proof.
  intros Hok. unfold reconcileZeroOnlyTotal. cbn zeta.
  pose proof Hok as (Hi & Ho & _ & _ & Hr & _ & Ht). unfold count_ok in *.
  rewrite safeAdd2 by done.
  destruct (TotalTokens t =? 0) eqn:E0; cbn [negb];
    [apply Z.eqb_eq in E0 | apply Z.eqb_neq in E0].
  - destruct (hasAny _ _); [intros [= <- <- <-]; auto with keeper|].
    destruct (_ <=? int64_max) eqn:Es; cbn [negb]; [|intros [= <- <- <-]; auto with keeper].
    code_cases; intros [= <- <- <-]; (split; [|split; [|by intros []]]); auto with keeper.
    + apply set_total_ok; [done|]. unfold count_ok. lia.
    + total_changed.
    + total_changed.
  - destruct (handlerID r =?s _); [intros [= <- <- <-]; auto with keeper|].
    destruct (_ <=? int64_max); cbn [negb];
      [destruct (_ =? TotalTokens t); cbn [negb]|]; intros [= <- <- <-]; auto with keeper.
Qed.

Lemma conflict_step t cl r c t' a vs :
  counts_ok t -> reconcileCanonicalConflictWithZeroFallback t cl r c = (t', a, vs) ->
  counts_ok t' /\ total_step t t' a /\ (TotalTokens t <> 0 -> t' = t /\ a = []) /\ vs <> [].
Proof.
  intros Hok. unfold reconcileCanonicalConflictWithZeroFallback.
  destruct (TotalTokens t =? 0) eqn:E0; cbn [negb].
  - destruct (reconcileZeroOnlyTotal t cl r) as [[t2 a2] v2] eqn:E.
    intros [= <- <- <-]. destruct (zero_only_step _ _ _ _ _ _ Hok E) as (? & ? & ?).
    auto.
  - intros [= <- <- <-]. auto with keeper.
Qed.

Lemma canonical_step t cl r t' a vs :
  counts_ok t -> reconcileCanonicalTotal t cl r = (t', a, vs) ->
  counts_ok t' /\ total_step t t' a /\
  (TotalTokens t <> 0 -> t' = t \/ (canonical t' /\ hasAny cl total_deps = false)) /\
  (vs = [] -> canonical t').
Proof.
  intros Hok. unfold reconcileCanonicalTotal. cbn zeta.
  pose proof Hok as (Hi & Ho & Hg & _ & Hr & Hc & Ht).
  rewrite !safeAdd2 by done. unfold count_ok in *.
  fold total_deps.
  destruct (hasAny cl total_deps) eqn:Eh; [step_kept|].
  assert (Hconf : forall c, reconcileCanonicalConflictWithZeroFallback t cl r c = (t', a, vs) ->
    counts_ok t' /\ total_step t t' a /\
    (TotalTokens t <> 0 -> t' = t \/ (canonical t' /\ false = false)) /\
    (vs = [] -> canonical t')).
  { intros c Hc'. destruct (conflict_step _ _ _ _ _ _ _ Hok Hc') as (? & ? & Hk & ?).
    split_and!; auto; [|done]. intros Hn. left. by apply Hk. }
  destruct (_ + CacheCreationTokens t <=? int64_max) eqn:E1; cbn [negb]; [|by apply Hconf].
  destruct (InputTokens t <? _) eqn:E2; [by apply Hconf|].
  destruct (OutputTokens t <? _) eqn:E3; [by apply Hconf|].
  destruct (_ + OutputTokens t <=? int64_max) eqn:E4; cbn [negb]; [|step_kept].
  destruct (TotalTokens t =? _) eqn:E5.
  { intros [= <- <- <-]. split_and!; auto with keeper. unfold canonical. lia. }
  assert (Hcan : canonical (set_total (InputTokens t + OutputTokens t) t))
    by (unfold canonical; simpl; lia).
  destruct (TotalTokens t =? 0); intros [= <- <- <-];
    (split; [apply set_total_ok; [done|unfold count_ok; lia]|]);
    (split; [total_changed|]); auto.
Qed.

Lemma final_step t auth cl r t' a vs :
  counts_ok t -> reconcileFinalTotal t auth cl r = (t', a, vs) ->
  counts_ok t' /\ total_step t t' a /\
  (TotalTokens t <> 0 -> t' <> t ->
     auth = totalAuthorityCanonical /\ canonical t' /\ hasAny cl total_deps = false) /\
  (auth = totalAuthorityCanonical -> vs = [] -> canonical t').
Proof.
  intros Hok. unfold reconcileFinalTotal.
  destruct (String.eqb_spec auth totalAuthorityCanonical) as [Ea|Na].
  { intros E. destruct (canonical_step _ _ _ _ _ _ Hok E) as (? & ? & Hk & ?).
    split_and!; [done|done| |auto]. intros Hn Hne. by destruct (Hk Hn) as [?|[? ?]]. }
  destruct (auth =?s _).
  { intros E. destruct (zero_only_step _ _ _ _ _ _ Hok E) as (? & ? & Hk).
    split_and!; [done|done| |done]. intros Hn Hne. by destruct (Hk Hn). }
  destruct (auth =?s _); intros [= <- <- <-]; split_and!; auto with keeper; done.
Qed.

Lemma select_handler_counts r h res ctx :
  select_handler r = (h, res) -> counts_ok (nonNegative ctx) ->
  counts_ok (tokens (Normalize h ctx)).
Proof. intros E. replace h with (fst (select_handler r)) by (by rewrite E). apply handler_ok. Qed.

(** ** The composition of [Process] *)

(** The context [Process] hands to the selected handler. *)
Definition process_context (v : TokenValues) (res : handlerResolution) : normalizationContext :=
  {| nonNegative := clamp_values v; clamped := all_clamp_set v; resolution := res |}.

(** [Process] unfolded: every run is a handler on the clamped counters
    followed by the reconciler. *)
Lemma Process_unfold v r p :
  values_in_int64 v -> Process v r = p ->
  exists h res a vs,
    select_handler (default strict_default r) = (h, res) /\
    let hr := Normalize h (process_context v res) in
    counts_ok (tokens hr) /\
    reconcileFinalTotal (tokens hr) (authority hr) (all_clamp_set v) res = (Tokens p, a, vs) /\
    Actions p = (all_clamp_actions v ++ actions hr) ++ a /\
    Violations p = violations hr ++ vs /\
    Outcome p = summarizeTokenOutcome (Actions p) (Violations p).
Proof.
  intros Hv <-. unfold Process. rewrite clampTokenValues_eq.
  destruct (select_handler (default strict_default r)) as [h res] eqn:Es.
  fold (process_context v res).
  destruct (reconcileFinalTotal _ _ _ _) as [[t' a] vs] eqn:Er.
  exists h, res, a, vs. split; [done|]. cbn zeta. rewrite Er.
  split; [|auto]. eapply select_handler_counts; [exact Es|]. by apply clamp_values_ok.
Qed.

(** Name the parts of the run [Process v r]; [Hv : values_in_int64 v]. *)
Ltac open_process v r Hv :=
  let p := fresh "p" in let Hp := fresh "Hp" in
  remember (Process v r) as p eqn:Hp; symmetry in Hp;
  destruct (Process_unfold _ _ _ Hv Hp)
    as (h & res & a & vs & Hsel & Hcnt & Hrec & Hact & Hvio & Hout);
  pose proof (final_step _ _ _ _ _ _ _ Hcnt Hrec) as (Hfin & Hstep & Hover & Hcanon);
  apply clamp_values_ok in Hv.

(** *** Replaying action logs *)

Lemma replay_app l k t :
  replay (l ++ k) t = match replay l t with Some t' => replay k t' | None => None end.
Proof.
  revert t. induction l as [|a l IH]; intros t; [done|]. simpl.
  destruct (get_field t (Action_Field a)) as [b|]; [|done].
  by destruct (b =? Before a).
Qed.

Lemma replay_one a t b :
  get_field t (Action_Field a) = Some b -> Before a = b ->
  replay [a] t = Some (set_field (Action_Field a) (After a) t).
Proof. intros E <-. simpl. by rewrite E, Z.eqb_refl. Qed.

Lemma set_field_id f x t : get_field t f = Some x -> set_field f x t = t.
Proof.
  unfold get_field, set_field. destruct t; cbn.
  repeat (destruct (f =?s _) eqn:E;
    [apply String.eqb_eq in E; subst f; intros [= ->]; reflexivity|clear E]).
  discriminate.
Qed.

Lemma replay_clamp f x t k :
  get_field t f = Some x ->
  replay (clamp_actions f x ++ k) t = replay k (set_field f (Z.max 0 x) t).
Proof.
  intros E. unfold clamp_actions. destruct (x <? 0) eqn:Ex; cbn [app].
  - cbn [replay Action_Field Before After]. rewrite E, Z.eqb_refl. by rewrite Z.max_l by lia.
  - by rewrite Z.max_r, set_field_id by (done || lia).
Qed.

Lemma replay_all_clamp v k : replay (all_clamp_actions v ++ k) v = replay k (clamp_values v).
Proof.
  unfold all_clamp_actions. rewrite <- !app_assoc.
  do 7 (rewrite replay_clamp by reflexivity). reflexivity.
Qed.

Lemma replay_total_step t t' a : total_step t t' a -> replay a t = Some t'.
Proof.
  intros [[-> ->]|(act & -> & Hf & Hb & _ & ->)]; [done|].
  simpl. rewrite Hf. cbn. rewrite Hb, Z.eqb_refl. by destruct t.
Qed.

Lemma replay_non_claude ctx t a vs :
  normalizeNonClaudeCacheRead ctx = (t, a, vs) -> replay a (nonNegative ctx) = Some t.
Proof.
  intros E. destruct (normalizeNonClaude_cases _ _ _ _ E) as [[-> ->]|(-> & H0 & _ & _ & _ & ->)];
    [done|].
  simpl. rewrite H0. cbn. by destruct (nonNegative ctx).
Qed.

Lemma replay_claude ctx :
  counts_ok (nonNegative ctx) ->
  replay (actions (claude_Normalize ctx)) (nonNegative ctx) = Some (tokens (claude_Normalize ctx)).
Proof.
  intros Hok. unfold claude_Normalize.
  destruct (claude_fold_input ctx) as [[[t auth] a] vs] eqn:E. cbn [tokens actions].
  apply claude_fold_cases in E; [|done]. cbn zeta in E.
  assert (Hfold : forall k, replay (a ++ k) (nonNegative ctx) = replay k t).
  { intros k. destruct E as [(-> & -> & _)|(-> & _ & _ & _ & _ & _ & ->)]; [done|].
    destruct (_ =? InputTokens _) eqn:Ei.
    - apply Z.eqb_eq in Ei. rewrite Ei. cbn [app]. f_equal. by destruct (nonNegative ctx).
    - cbn [app replay Action_Field Before After get_field String.eqb].
      cbn. rewrite Z.eqb_refl. f_equal. }
  destruct (CachedTokens t =? CacheReadTokens t) eqn:Ec; cbn [negb].
  - rewrite <- (app_nil_r a), Hfold. apply Z.eqb_eq in Ec. simpl. f_equal.
    destruct t; unfold set_cached; simpl in *. by rewrite Ec.
  - rewrite Hfold. cbn. rewrite Z.eqb_refl. f_equal.
Qed.

Lemma responses_actions ctx :
  actions (responses_Normalize ctx) = snd (fst (normalizeNonClaudeCacheRead ctx)) /\
  violations (responses_Normalize ctx) = snd (normalizeNonClaudeCacheRead ctx).
Proof.
  unfold responses_Normalize. destruct (normalizeNonClaudeCacheRead ctx) as [[? ?] ?].
  by code_cases.
Qed.

Lemma strict_actions ctx :
  actions (strict_Normalize ctx) = snd (fst (normalizeNonClaudeCacheRead ctx)).
Proof. unfold strict_Normalize. by destruct (normalizeNonClaudeCacheRead ctx) as [[? ?] ?]. Qed.

Lemma replay_handler r h res ctx :
  select_handler r = (h, res) -> counts_ok (nonNegative ctx) ->
  replay (actions (Normalize h ctx)) (nonNegative ctx) = Some (tokens (Normalize h ctx)).
Proof.
  intros E Hok. destruct (normalizeNonClaudeCacheRead ctx) as [[t a] vs] eqn:En.
  pose proof (replay_non_claude _ _ _ _ En) as Hr.
  destruct (select_handler_cases r) as [[Hs _]|[[Hs _]|(r' & Hs & _)]]; rewrite E in Hs;
    injection Hs as -> _; cbn [Normalize claudeHandler responsesInclusiveHandler
      strictPassThroughHandler].
  - by apply replay_claude.
  - by rewrite (proj1 (responses_actions ctx)), responses_tokens, En.
  - by rewrite strict_actions, strict_tokens, En.
Qed.

(** ** Lemmas for the total *)

Lemma handler_total r h res ctx :
  select_handler r = (h, res) -> counts_ok (nonNegative ctx) ->
  let t := tokens (Normalize h ctx) in let nn := nonNegative ctx in
  TotalTokens t = TotalTokens nn /\ OutputTokens t = OutputTokens nn /\
  ReasoningTokens t = ReasoningTokens nn /\ CacheCreationTokens t = CacheCreationTokens nn.
Proof.
  intros E Hok. cbn zeta. destruct (normalizeNonClaudeCacheRead ctx) as [[t a] vs] eqn:En.
  assert (Hn : TotalTokens t = TotalTokens (nonNegative ctx) /\
               OutputTokens t = OutputTokens (nonNegative ctx) /\
               ReasoningTokens t = ReasoningTokens (nonNegative ctx) /\
               CacheCreationTokens t = CacheCreationTokens (nonNegative ctx)).
  { by destruct (normalizeNonClaude_cases _ _ _ _ En) as [[-> _]|[-> _]]. }
  destruct (select_handler_cases r) as [[Hs _]|[[Hs _]|(r' & Hs & _)]]; rewrite E in Hs;
    injection Hs as -> _; cbn [Normalize claudeHandler responsesInclusiveHandler
      strictPassThroughHandler].
  - unfold claude_Normalize. destruct (claude_fold_input ctx) as [[[t' auth] a'] v'] eqn:Ec.
    apply claude_fold_cases in Ec; [|done].
    by destruct Ec as [(-> & _)|(-> & _)].
  - by rewrite responses_tokens, En.
  - by rewrite strict_tokens, En.
Qed.

Lemma claude_selected r : handlerID r = HandlerClaude -> select_handler r = (claudeHandler, r).
Proof. intros E. unfold select_handler. by rewrite E. Qed.

(** A Claude run without violations under the parser contract proves the total. *)
Lemma claude_clean ctx :
  counts_ok (nonNegative ctx) ->
  evidenceStrength (resolution ctx) = EvidenceParserContract ->
  violations (claude_Normalize ctx) = [] ->
  authority (claude_Normalize ctx) = totalAuthorityCanonical.
Proof.
  intros Hok Hst Hc. unfold claude_Normalize in *.
  destruct (claude_fold_input _) as [[[t' auth] a'] v'] eqn:Ec. cbn [authority violations] in *.
  apply claude_fold_cases in Ec; [|done]. cbn zeta in Ec.
  destruct Ec as [(_ & _ & Hvs & _)|(_ & _ & _ & _ & _ & Hau & _)]; [|by apply Hau].
  exfalso. apply Hvs. by destruct (_ && _) in Hc; [apply app_nil in Hc as [? _]|].
Qed.

(** What lets a handler claim the canonical authority. *)
Definition override_evidence (v : TokenValues) (r : option handlerResolution) : Prop :=
  exists r0, r = Some r0 /\
    ((handlerID r0 = HandlerClaude \/ handlerID r0 = HandlerResponsesInclusive) /\
     evidenceStrength r0 = EvidenceParserContract \/
     handlerID r0 = HandlerClaude /\ TotalTokens v = InputTokens v + OutputTokens v /\
     0 < CacheReadTokens v + CacheCreationTokens v).

Lemma unclamped_deps v :
  hasAny (all_clamp_set v) total_deps = false ->
  0 <= InputTokens v /\ 0 <= OutputTokens v /\ 0 <= ReasoningTokens v /\
  0 <= CacheReadTokens v /\ 0 <= CacheCreationTokens v /\ 0 <= TotalTokens v.
Proof. intros H. unfold total_deps in H. clamped_simpl. lia. Qed.

Lemma legacy_fingerprint ctx canonicalInput :
  counts_ok (nonNegative ctx) ->
  claudeIdentityProvesLegacyMissingCache ctx canonicalInput = true ->
  let nn := nonNegative ctx in
  TotalTokens nn = InputTokens nn + OutputTokens nn /\
  0 < CacheReadTokens nn + CacheCreationTokens nn.
Proof.
  intros (Hi & Ho & _ & _ & Hr & Hc & _). unfold claudeIdentityProvesLegacyMissingCache.
  cbn zeta. rewrite !safeAdd2 by done.
  destruct (hasAny _ _); [done|].
  destruct (_ + CacheCreationTokens _ <=? _); cbn [negb orb]; [|done].
  destruct (_ <=? 0) eqn:E0; [done|]. cbn [orb].
  destruct (_ + OutputTokens _ <=? _) eqn:E1; cbn [negb orb]; [|done].
  destruct (_ =? TotalTokens _) eqn:E2; cbn [negb]; [|done]. lia.
Qed.

Lemma canonical_authority r h res v :
  select_handler (default strict_default r) = (h, res) -> counts_ok (clamp_values v) ->
  authority (Normalize h (process_context v res)) = totalAuthorityCanonical ->
  hasAny (all_clamp_set v) total_deps = false ->
  override_evidence v r.
Proof.
  intros E Hok Ha Hdeps. apply unclamped_deps in Hdeps.
  assert (Hr : forall id, id <> HandlerStrictPassThrough ->
    handlerID (default strict_default r) = id -> exists r0, r = Some r0 /\ handlerID r0 = id).
  { intros id Hid <-. destruct r as [r0|]; [eauto|]. by destruct Hid. }
  destruct (select_handler_cases (default strict_default r))
    as [[Hs Hh]|[[Hs Hh]|(r' & Hs & _)]]; rewrite E in Hs; injection Hs as -> ->;
    cbn [Normalize claudeHandler responsesInclusiveHandler strictPassThroughHandler] in Ha.
  - destruct (Hr HandlerClaude ltac:(discriminate) Hh) as (r0 & -> & Hid). exists r0. split; [done|]. cbn in Hid.
    unfold claude_Normalize in Ha.
    destruct (claude_fold_input _) as [[[t' auth] a'] v'] eqn:Ec. cbn in Ha. subst auth.
    apply claude_fold_cases in Ec; [|done]. cbn zeta in Ec.
    destruct Ec as [(_ & _ & _ & ?)|(_ & _ & _ & _ & Hev & _)]; [done|].
    destruct (Hev eq_refl) as [Hp|Hl]; [by left; auto|]. right.
    apply legacy_fingerprint in Hl; [|done]. cbn in Hl. split; [done|]. lia.
  - destruct (Hr HandlerResponsesInclusive ltac:(discriminate) Hh) as (r0 & -> & Hid). exists r0. split; [done|]. left.
    split; [auto|]. cbn in *. unfold responses_Normalize in Ha.
    destruct (normalizeNonClaudeCacheRead _) as [[? ?] ?].
    destruct (matchesResponsesTotalOnlyShape _); [done|].
    destruct (matchesLegacyCodexCachedOnlyShape _); [done|]. cbn in Ha.
    case_bool_decide as Hp; [done|]. by rewrite andb_false_r in Ha.
  - unfold strict_Normalize in Ha. by destruct (normalizeNonClaudeCacheRead _) as [[? ?] ?].
Qed.

(** *** Idempotence of the reconciler *)

Definition final_tokens (t : TokenValues) (auth : totalAuthority) (cl : tokenFieldSet)
    (r : handlerResolution) : TokenValues := fst (fst (reconcileFinalTotal t auth cl r)).

Lemma final_tokens_step t auth cl r :
  counts_ok t ->
  counts_ok (final_tokens t auth cl r) /\
  (exists a, total_step t (final_tokens t auth cl r) a) /\
  (TotalTokens t <> 0 -> final_tokens t auth cl r <> t ->
   auth = totalAuthorityCanonical /\ canonical (final_tokens t auth cl r) /\
   hasAny cl total_deps = false).
Proof.
  intros Hok. unfold final_tokens. destruct (reconcileFinalTotal t auth cl r) as [[t' a] vs] eqn:E.
  destruct (final_step _ _ _ _ _ _ _ Hok E) as (? & ? & ? & _). cbn [fst]. eauto.
Qed.

Lemma canonical_contained t cl r :
  counts_ok t -> hasAny cl total_deps = false ->
  CacheReadTokens t + CacheCreationTokens t <= InputTokens t ->
  ReasoningTokens t <= OutputTokens t -> InputTokens t + OutputTokens t <= int64_max ->
  final_tokens t totalAuthorityCanonical cl r = set_total (InputTokens t + OutputTokens t) t.
Proof.
  intros (Hi & Ho & Hg & _ & Hr & Hc & Ht) Hcl H1 H2 H3. unfold count_ok in *.
  unfold final_tokens, reconcileFinalTotal. rewrite String.eqb_refl.
  unfold reconcileCanonicalTotal. cbn zeta. fold total_deps. rewrite Hcl.
  rewrite !safeAdd2 by done.
  replace (_ + CacheCreationTokens t <=? int64_max) with true by lia. cbn [negb].
  replace (InputTokens t <? _) with false by lia.
  replace (OutputTokens t <? _) with false by lia.
  replace (_ + OutputTokens t <=? int64_max) with true by lia. cbn [negb].
  destruct (TotalTokens t =? _) eqn:E; [|by destruct (TotalTokens t =? 0)].
  apply Z.eqb_eq in E. rewrite <- E. by destruct t.
Qed.

Lemma final_tokens_idem t auth cl r :
  counts_ok t ->
  final_tokens (final_tokens t auth cl r) auth cl r = final_tokens t auth cl r.
Proof.
  intros Hok. destruct (final_tokens_step t auth cl r Hok) as (Hok' & [a Hst] & Hch).
  set (t' := final_tokens t auth cl r) in *.
  pose proof (eq_refl : t' = final_tokens t auth cl r) as Hdef. clearbody t'.
  destruct (final_tokens_step t' auth cl r Hok') as (Hok'' & [a' Hst'] & Hch').
  destruct Hst as [[Heq _]|(act & _ & _ & _ & Hne & Ht')]; [by rewrite Heq, <- Hdef, Heq|].
  assert (Hdiff : t' <> t) by (rewrite Ht'; intros Heq; by apply (f_equal TotalTokens) in Heq).
  destruct (decide (final_tokens t' auth cl r = t')) as [|Hd]; [done|exfalso].
  assert (Hcan : auth = totalAuthorityCanonical /\ hasAny cl total_deps = false /\
                 (canonical t' \/ canonical (final_tokens t' auth cl r))).
  { destruct (decide (TotalTokens t' = 0)) as [H0|H0].
    - destruct (Hch ltac:(rewrite Ht' in H0; cbn in H0; congruence) Hdiff) as (? & ? & ?). auto.
    - destruct (Hch' H0 Hd) as (? & ? & ?). auto. }
  destruct Hcan as (-> & Hcl & Hcan).
  assert (Hcont : CacheReadTokens t + CacheCreationTokens t <= InputTokens t /\
                  ReasoningTokens t <= OutputTokens t /\
                  InputTokens t + OutputTokens t <= int64_max).
  { destruct Hcan as [Hc|Hc].
    - rewrite Ht' in Hc, Hok'. unfold canonical, counts_ok, count_ok in *. cbn in *. lia.
    - destruct Hst' as [[? _]|(act' & _ & _ & _ & _ & Ht'')]; [done|].
      rewrite Ht'' in Hc, Hok''. rewrite Ht' in Hc, Hok''.
      unfold canonical, counts_ok, count_ok in *. cbn in *. lia. }
  destruct Hcont as (? & ? & ?).
  assert (Et : t' = set_total (InputTokens t + OutputTokens t) t)
    by (rewrite Hdef; by apply canonical_contained).
  apply Hd. rewrite Et. rewrite canonical_contained; [done|by rewrite <- Et|done..].
Qed.

(** *** The non-Claude handlers on valid counters *)

(** Whether the cached counter is copied to the missing cache-read counter. *)
Definition alias_fires (st : EvidenceStrength) (t : TokenValues) : bool :=
  negb (CacheReadPresent t && bool_decide (st = EvidenceParserContract)) &&
  (CacheReadTokens t =? 0) && (0 <? CachedTokens t).

Definition aliased (st : EvidenceStrength) (t : TokenValues) : TokenValues :=
  if alias_fires st t then set_read (CachedTokens t) t else t.

Definition total_onlyb (t : TokenValues) : bool :=
  (TotalTokens t >? 0) && (InputTokens t =? 0) && (OutputTokens t =? 0) &&
  (ReasoningTokens t =? 0) && (CachedTokens t =? 0) &&
  (CacheReadTokens t =? 0) && (CacheCreationTokens t =? 0).

Definition cached_onlyb (t : TokenValues) : bool :=
  (InputTokens t =? 0) && (OutputTokens t =? 0) && (ReasoningTokens t =? 0) &&
  (CachedTokens t >? 0) && (CacheReadTokens t =? 0) && (CacheCreationTokens t =? 0) &&
  (TotalTokens t =? CachedTokens t).

Lemma total_onlyb_spec t : total_onlyb t = true <-> total_only t.
Proof. unfold total_onlyb, total_only. lia. Qed.

Lemma cached_onlyb_spec t : cached_onlyb t = true <-> cached_only t.
Proof. unfold cached_onlyb, cached_only. lia. Qed.

(** The authority the non-Claude handlers give valid counters. *)
Definition non_claude_authority (r : handlerResolution) (t : TokenValues) : totalAuthority :=
  if handlerID r =?s HandlerResponsesInclusive then
    if total_onlyb t then totalAuthorityPreserve
    else if bool_decide (evidenceStrength r = EvidenceParserContract) then
      if (normalizeRegistryAlias (executorType r) =?s "codexexecutor") && cached_onlyb t
      then totalAuthorityPreserve else totalAuthorityCanonical
    else totalAuthorityZeroOnly
  else totalAuthorityZeroOnly.

Lemma alias_eq ctx :
  clamped ctx = ∅ -> exists a,
  normalizeNonClaudeCacheRead ctx =
    (aliased (evidenceStrength (resolution ctx)) (nonNegative ctx), a, []).
Proof.
  intros Hcl. unfold normalizeNonClaudeCacheRead, aliased, alias_fires.
  rewrite Hcl, has_empty.
  destruct (CacheReadPresent _ && _); cbn [negb andb]; [eauto|].
  rewrite Z.leb_antisym.
  destruct (CacheReadTokens _ =? 0), (0 <? CachedTokens _); cbn; eauto.
Qed.

Lemma hasAny_empty l : hasAny ∅ l = false.
Proof. unfold hasAny. induction l; [done|]. cbn [existsb]. by rewrite has_empty. Qed.

Lemma cached_shape_eq ctx :
  clamped ctx = ∅ ->
  matchesLegacyCodexCachedOnlyShape ctx =
    bool_decide (evidenceStrength (resolution ctx) = EvidenceParserContract) &&
    (normalizeRegistryAlias (executorType (resolution ctx)) =?s "codexexecutor") &&
    cached_onlyb (nonNegative ctx).
Proof.
  intros Hcl. unfold matchesLegacyCodexCachedOnlyShape. rewrite Hcl, hasAny_empty.
  destruct (bool_decide _); [|done]. destruct (_ =?s _); [|done].
  cbn [negb orb andb]. unfold cached_onlyb.
  rewrite Z.leb_antisym, Z.gtb_ltb. set (t := nonNegative ctx).
  by destruct (0 <? CachedTokens t), (InputTokens t =? 0), (OutputTokens t =? 0),
    (ReasoningTokens t =? 0), (CacheReadTokens t =? 0), (CacheCreationTokens t =? 0).
Qed.

Lemma non_claude_handled ctx h :
  clamped ctx = ∅ -> handlerID (resolution ctx) <> HandlerClaude ->
  (h = responsesInclusiveHandler /\ handlerID (resolution ctx) = HandlerResponsesInclusive \/
   h = strictPassThroughHandler /\ handlerID (resolution ctx) = HandlerStrictPassThrough) ->
  tokens (Normalize h ctx) =
    aliased (evidenceStrength (resolution ctx)) (nonNegative ctx) /\
  authority (Normalize h ctx) = non_claude_authority (resolution ctx) (nonNegative ctx) /\
  violations (Normalize h ctx) = [].
Proof.
  intros Hcl Hnc Hh. destruct (alias_eq ctx Hcl) as [a Ha]. unfold non_claude_authority.
  destruct Hh as [[-> Hid]|[-> Hid]]; rewrite Hid;
    cbn [Normalize responsesInclusiveHandler strictPassThroughHandler].
  - rewrite String.eqb_refl. unfold responses_Normalize. rewrite Ha.
    unfold matchesResponsesTotalOnlyShape. rewrite cached_shape_eq by done.
    rewrite Hcl, size_empty, hasAny_empty. rewrite bool_decide_eq_true_2 by done.
    cbn [negb length Nat.eqb andb]. fold (total_onlyb (nonNegative ctx)).
    destruct (total_onlyb _); [done|].
    destruct (bool_decide _); cbn [andb]; [|done].
    by destruct (_ && cached_onlyb _).
  - unfold strict_Normalize. by rewrite Ha.
Qed.

(** On valid counters a non-Claude run is the alias step followed by the
    reconciler with that authority. *)
Lemma Process_non_claude v r :
  counts_ok v -> handlerID (default strict_default r) <> HandlerClaude ->
  exists res,
    (handlerID (default strict_default r) = HandlerResponsesInclusive ->
     res = default strict_default r) /\
    handlerID res <> HandlerClaude /\
    forall w, counts_ok w ->
      Tokens (Process w r) =
        final_tokens (aliased (evidenceStrength res) w) (non_claude_authority res w) ∅ res /\
      Violations (Process w r) =
        snd (reconcileFinalTotal (aliased (evidenceStrength res) w)
               (non_claude_authority res w) ∅ res).
Proof.
  intros _ Hnc. destruct (select_handler (default strict_default r)) as [h res] eqn:Hsel.
  exists res.
  assert (Hh : h = responsesInclusiveHandler /\ handlerID res = HandlerResponsesInclusive \/
    h = strictPassThroughHandler /\ handlerID res = HandlerStrictPassThrough).
  { destruct (select_handler_cases (default strict_default r))
      as [[Hs ?]|[[Hs ?]|(r' & Hs & ? & _)]]; rewrite Hsel in Hs; injection Hs as -> ->; try done; auto. }
  assert (Hres : (handlerID (default strict_default r) = HandlerResponsesInclusive ->
                  res = default strict_default r) /\ handlerID res <> HandlerClaude).
  { destruct (select_handler_cases (default strict_default r))
      as [[Hs Hc]|[[Hs Hc]|(r' & Hs & Hc & Hr')]]; rewrite Hsel in Hs; injection Hs as -> ->;
      [done|by rewrite Hc|]. rewrite Hc. split; [|done].
    destruct Hh as [[? _]|_]; [done|]. intros Hresp.
    unfold select_handler in Hsel. rewrite Hresp in Hsel. by injection Hsel as ? ?. }
  destruct Hres as [Hres Hne].
  split_and!; [done|done|]. intros w Hw.
  assert (Hv : values_in_int64 w).
  { unfold counts_ok, count_ok, values_in_int64 in *. unfold64. lia. }
  destruct (Process_unfold w r _ Hv eq_refl)
    as (h' & res' & a & vs & Hsel' & _ & Hrec & _ & Hvio & _).
  rewrite Hsel in Hsel'. injection Hsel' as <- <-.
  destruct (non_claude_handled (process_context w res) h) as (Ht & Hau & Hvs);
    [by apply clamped_empty|done|done|].
  rewrite Ht, Hau in Hrec. cbn [process_context resolution nonNegative] in Hrec.
  rewrite clamp_values_id, clamped_empty in Hrec by done.
  unfold final_tokens. rewrite Hvio, Hvs. by rewrite Hrec.
Qed.

Lemma aliased_ok st t : counts_ok t -> counts_ok (aliased st t).
Proof. unfold aliased. destruct (alias_fires st t); auto with keeper. Qed.

Lemma aliased_set_total st x t :
  aliased st (set_total x (aliased st t)) = set_total x (aliased st t).
Proof.
  unfold aliased at 2 3. destruct (alias_fires st t) eqn:E; unfold aliased.
  - replace (alias_fires st _) with false; [done|]. unfold alias_fires in *. cbn. symmetry.
    destruct (CachedTokens t =? 0) eqn:E0; [|by rewrite andb_false_r].
    apply Z.eqb_eq in E0. rewrite E0 in E |- *. by rewrite andb_false_r in E.
  - replace (alias_fires st (set_total x t)) with (alias_fires st t) by done. by rewrite E.
Qed.

Lemma final_tokens_shape t auth cl r :
  counts_ok t -> exists x, final_tokens t auth cl r = set_total x t.
Proof.
  intros Hok. destruct (final_tokens_step t auth cl r Hok) as (_ & [a [[-> _]|(act & H)]] & _).
  - exists (TotalTokens t). by destruct t.
  - exists (After act). tauto.
Qed.

(** When the upstream shape of the counters changes between two passes, the
    second pass has nothing to do. *)
Lemma shape_change_stable res v w :
  counts_ok v -> counts_ok w ->
  (exists x, w = set_total x (aliased (evidenceStrength res) v)) ->
  (non_claude_authority res v = totalAuthorityPreserve ->
     w = final_tokens (aliased (evidenceStrength res) v) totalAuthorityPreserve ∅ res) ->
  non_claude_authority res w <> non_claude_authority res v ->
  final_tokens w (non_claude_authority res w) ∅ res = w.
Proof.
  intros Hv Hw [x Hx] Hpre Hdiff.
  destruct (decide (non_claude_authority res w = totalAuthorityPreserve)) as [->|Hnp]; [done|].
  assert (Hp : non_claude_authority res v = totalAuthorityPreserve).
  { unfold non_claude_authority in *. destruct (_ =?s HandlerResponsesInclusive); [|done].
    destruct (total_onlyb v), (total_onlyb w); try done; case_bool_decide; try done.
    by destruct (_ && cached_onlyb v), (_ && cached_onlyb w). }
  specialize (Hpre Hp). change (w = aliased (evidenceStrength res) v) in Hpre.
  destruct (decide (final_tokens w (non_claude_authority res w) ∅ res = w)) as [|Hne]; [done|].
  exfalso. assert (Hwv : w <> v) by congruence.
  assert (Hfire : w = set_read (CachedTokens v) v /\ 0 < CachedTokens v).
  { unfold aliased in Hpre. destruct (alias_fires _ v) eqn:Ef; [|done].
    unfold alias_fires in Ef. split; [done|lia]. }
  destruct Hfire as [Hw' Hc].
  assert (Hco : cached_only v).
  { unfold non_claude_authority in Hp. destruct (_ =?s HandlerResponsesInclusive); [|done].
    destruct (total_onlyb v) eqn:E1; [apply total_onlyb_spec in E1; unfold total_only in E1; lia|].
    case_bool_decide; [|done].
    destruct (_ && cached_onlyb v) eqn:E2; [|done].
    apply cached_onlyb_spec. by apply andb_true_iff in E2 as [_ ->]. }
  unfold cached_only in Hco.
  destruct (final_tokens_step w (non_claude_authority res w) ∅ res Hw) as (_ & _ & Hov).
  destruct (final_tokens_shape w (non_claude_authority res w) ∅ res Hw) as [y Hy].
  destruct Hov as (_ & Hcan & _); [rewrite Hw'; cbn; lia|done|].
  rewrite Hy, Hw' in Hcan. unfold canonical in Hcan. cbn in Hcan. lia.
Qed.

(** ** Properties *)

(** C28: [Process] returns counters in the range 0 .. MaxInt64, whatever int64
    counters, executor and identity it is given: no negative value reaches the
    database and no sum wraps around. *)
Theorem process_counts_ok (v : TokenValues) (r : option handlerResolution)
    (Hv : values_in_int64 v) : counts_ok (Tokens (Process v r)).
Proof. open_process v r Hv. done. Qed.

Lemma process_counts_ok_witness :
  let v := {| InputTokens := int64_max; OutputTokens := -5; ReasoningTokens := 0;
              CachedTokens := 7; CacheReadTokens := int64_max; CacheReadPresent := true;
              CacheCreationTokens := 3; TotalTokens := int64_min |} in
  counts_ok (Tokens (Process v None)).
Proof.
  refine (process_counts_ok _ _ _).
  unfold values_in_int64, in_int64; vm_compute; split_and!; congruence.
Defined.

(** The action log of [Process] is exact: replaying the actions on the
    original counters, checking every recorded previous value, gives exactly
    the counters returned.  No counter changes without an action, and no action
    records a change that did not happen. *)
Theorem process_actions_replay (v : TokenValues) (r : option handlerResolution)
    (Hv : values_in_int64 v) :
  replay (Actions (Process v r)) v = Some (Tokens (Process v r)).
Proof.
  open_process v r Hv.
  rewrite Hact, <- app_assoc, replay_all_clamp, replay_app.
  change (clamp_values v) with (nonNegative (process_context v res)).
  rewrite (replay_handler _ _ _ _ Hsel) by done.
  by apply replay_total_step.
Qed.

Lemma process_actions_replay_witness :
  let v := {| InputTokens := 10; OutputTokens := -5; ReasoningTokens := 0; CachedTokens := 7;
              CacheReadTokens := 0; CacheReadPresent := false; CacheCreationTokens := 3;
              TotalTokens := 0 |} in
  length (Actions (Process v None)) = 2%nat /\
  replay (Actions (Process v None)) v = Some (Tokens (Process v None)).
Proof.
  split; [vm_compute; reflexivity|]. refine (process_actions_replay _ _ _).
  unfold values_in_int64, in_int64; vm_compute; split_and!; congruence.
Defined.

(** A non-zero reported total is replaced only with evidence.  If
    [Process] returns another total for an event whose reported total is
    positive, then either the resolution is a Claude or Responses handler
    chosen from a known executor (parser contract), or it is the Claude handler
    and the counters match the legacy shape exactly (total = input + output
    with cache tokens present); no counter the total depends on was negative,
    and the result satisfies the canonical accounting. *)
Theorem nonzero_total_override (v : TokenValues) (r : option handlerResolution)
    (Hv : values_in_int64 v) (Hpos : 0 < TotalTokens v)
    (Hne : TotalTokens (Tokens (Process v r)) <> TotalTokens v) :
  override_evidence v r /\ canonical (Tokens (Process v r)) /\
  hasAny (all_clamp_set v) total_deps = false.
Proof.
  open_process v r Hv.
  destruct (handler_total _ _ _ (process_context v res) Hsel ltac:(done)) as (Ht & _).
  cbn [nonNegative process_context clamp_values TotalTokens] in Ht. rewrite Z.max_r in Ht by lia.
  destruct Hover as (Hau & Hc & Hd); [lia|intros Heq; rewrite Heq in Hne; lia|].
  split_and!; [|done|done]. eapply canonical_authority; eauto.
Qed.

Lemma nonzero_total_override_witness :
  let v := {| InputTokens := 10; OutputTokens := 5; ReasoningTokens := 0; CachedTokens := 7;
              CacheReadTokens := 7; CacheReadPresent := true; CacheCreationTokens := 3;
              TotalTokens := 15 |} in
  let r := Some (with_identity HandlerClaude EvidenceIdentity EvidenceIdentityHint
                   "claude" false strict_default) in
  TotalTokens (Tokens (Process v r)) = 25 /\ override_evidence v r.
Proof.
  split; [vm_compute; reflexivity|].
  refine (proj1 (nonzero_total_override _ _ _ _ _)); vm_compute; try split_and!; congruence.
Defined.

(** *** Lookups in the static registry *)

Definition static_executors : gmap string executorDefinition :=
  <["codexautoexecutor" := codexAutoExecutorDefinition]>
  (<["codexwebsocketsexecutor" := codexWebsocketsExecutorDefinition]>
  (<["codexexecutor" := codexExecutorDefinition]>
  (<["claudeexecutor" := claudeExecutorDefinition]> ∅))).

Definition static_identities : gmap string identityAliasDefinition :=
  <["codex" := {| identity_alias := "codex"; identity_handlerID := HandlerResponsesInclusive |}]>
  (<["claude" := {| identity_alias := "claude"; identity_handlerID := HandlerClaude |}]> ∅).

Lemma registry_builds :
  buildRegistryIndexes = Ok {| executors := static_executors; identities := static_identities |}.
Proof. vm_compute. reflexivity. Qed.

(** The handler of a known executor alias. *)
Definition executor_table (a : string) : option HandlerID :=
  if a =?s "claudeexecutor" then Some HandlerClaude
  else if (a =?s "codexexecutor") || (a =?s "codexwebsocketsexecutor") ||
          (a =?s "codexautoexecutor") then Some HandlerResponsesInclusive
  else None.

Definition identity_table (a : string) : option HandlerID :=
  if a =?s "claude" then Some HandlerClaude
  else if a =?s "codex" then Some HandlerResponsesInclusive
  else None.

Lemma lookup_eqb {V} (m : gmap string V) k x a :
  <[k := x]> m !! a = if a =?s k then Some x else m !! a.
Proof.
  destruct (String.eqb_spec a k) as [->|Hne].
  - by rewrite lookup_insert_eq.
  - by rewrite lookup_insert_ne.
Qed.

Lemma executor_lookup a :
  executor_handlerID <$> static_executors !! a = executor_table a.
Proof.
  unfold static_executors, executor_table. rewrite !lookup_eqb, lookup_empty.
  destruct (String.eqb_spec a "claudeexecutor") as [->|]; [done|].
  by destruct (a =?s "codexexecutor"), (a =?s "codexwebsocketsexecutor"),
    (a =?s "codexautoexecutor").
Qed.

Lemma identity_lookup a :
  identity_handlerID <$> static_identities !! a = identity_table a.
Proof.
  unfold static_identities, identity_table. rewrite !lookup_eqb, lookup_empty.
  destruct (String.eqb_spec a "claude") as [->|]; [done|]. by destruct (a =?s "codex").
Qed.

Lemma ResolveExecutor_eq e :
  exists r, ResolveExecutor e = Ok r /\
    match executor_table (normalizeRegistryAlias e) with
    | Some id => handlerID r = id /\ evidenceStrength r = EvidenceParserContract /\
                 evidenceSource r = EvidenceExecutor /\ needsIdentity r = false
    | None => handlerID r = HandlerStrictPassThrough /\ evidenceStrength r = EvidenceUnknown /\
              evidenceSource r = EvidenceDefault /\ needsIdentity r = true
    end.
Proof.
  unfold ResolveExecutor, defaultRegistry. rewrite registry_builds. cbn [result_bind].
  eexists; split; [reflexivity|]. unfold resolveExecutor. cbn [executors].
  rewrite <- executor_lookup. by destruct (static_executors !! _).
Qed.

(** The resolver is total and its evidence is sound.  [ResolveIdentity]
    always succeeds, leaves no identity lookup pending, and gives the parser
    contract exactly to the registered executors, whatever the identity says;
    an unknown executor is routed by the identity alias with an identity hint,
    and everything else goes to the strict handler with no evidence. *)
Theorem resolve_identity_spec (executorType identityType : string) :
  exists r, ResolveIdentity executorType identityType = Ok r /\ needsIdentity r = false /\
    match executor_table (normalizeRegistryAlias executorType),
          identity_table (normalizeRegistryAlias identityType) with
    | Some id, _ => handlerID r = id /\ evidenceStrength r = EvidenceParserContract /\
                    evidenceSource r = EvidenceExecutor
    | None, Some id => handlerID r = id /\ evidenceStrength r = EvidenceIdentityHint /\
                       evidenceSource r = EvidenceIdentity
    | None, None => handlerID r = HandlerStrictPassThrough /\
                    evidenceStrength r = EvidenceUnknown /\ evidenceSource r = EvidenceDefault
    end.
Proof.
  unfold ResolveIdentity, defaultRegistry. rewrite registry_builds. cbn [result_bind].
  unfold resolveExecutor. cbn [executors identities].
  rewrite <- executor_lookup, <- identity_lookup.
  by destruct (static_executors !! _), (static_identities !! _);
    (eexists; split; [reflexivity|]).
Qed.

(** A known executor gives canonical accounting.  When the executor is
    registered and the counters are valid, a result without violations
    satisfies total = input + output, input >= cache read + creation and
    output >= reasoning; the only exceptions are the two upstream shapes that
    carry no breakdown, whose total is kept. *)
Theorem known_executor_canonical (e : string) (r : handlerResolution) (v : TokenValues)
    (Hr : ResolveExecutor e = Ok r) (Hknown : needsIdentity r = false) (Hv : counts_ok v)
    (Hclean : Violations (Process v (Some r)) = []) :
  canonical (Tokens (Process v (Some r))) \/ total_only v \/ cached_only v.
Proof.
  destruct (ResolveExecutor_eq e) as (r0 & Er & Hspec). rewrite Hr in Er. injection Er as <-.
  unfold executor_table in Hspec.
  destruct (_ =?s "claudeexecutor").
  - destruct Hspec as (Hid & Hst & _). left.
    assert (Hv' : values_in_int64 v).
    { unfold counts_ok, count_ok, values_in_int64 in *. unfold64. lia. }
    open_process v (Some r) Hv'. rewrite Hvio in Hclean. apply app_nil in Hclean as [Hc1 Hc2].
    apply Hcanon; [|done].
    rewrite claude_selected in Hsel by done. injection Hsel as <- <-.
    by apply claude_clean.
  - destruct (_ || _) in Hspec; [|by destruct Hspec as (_ & _ & _ & ?); congruence].
    destruct Hspec as (Hid & Hst & _).
    destruct (Process_non_claude v (Some r)) as (res & Hres & _ & Hrun);
      [done|cbn; rewrite Hid; discriminate|].
    rewrite (Hres Hid) in *. change (default strict_default (Some r)) with r in *.
    destruct (Hrun v Hv) as [Ht Hvs]. rewrite Ht. rewrite Hvs in Hclean.
    unfold non_claude_authority in *. rewrite Hid, Hst, String.eqb_refl in *.
    destruct (total_onlyb v) eqn:E1; [right; left; by apply total_onlyb_spec|].
    rewrite bool_decide_eq_true_2 in * by done.
    destruct (_ && cached_onlyb v) eqn:E2.
    { right; right. apply cached_onlyb_spec. by apply andb_true_iff in E2 as [_ ->]. }
    left. unfold final_tokens.
    destruct (reconcileFinalTotal _ _ _ _) as [[t' a] vs] eqn:E. cbn [fst snd] in *.
    eapply final_step in E; [|by apply aliased_ok]. by apply E.
Qed.

Lemma known_executor_canonical_witness :
  let v := {| InputTokens := 10; OutputTokens := 5; ReasoningTokens := 1; CachedTokens := 7;
              CacheReadTokens := 0; CacheReadPresent := false; CacheCreationTokens := 0;
              TotalTokens := 99 |} in
  exists r, ResolveExecutor " CodexExecutor " = Ok r /\
    (canonical (Tokens (Process v (Some r))) \/ total_only v \/ cached_only v).
Proof.
  eexists; split; [vm_compute; reflexivity|].
  eapply (known_executor_canonical " CodexExecutor "); [vm_compute; reflexivity|reflexivity| |
    vm_compute; reflexivity].
  unfold counts_ok, count_ok; vm_compute; split_and!; congruence.
Defined.

(** Processing is idempotent for every handler but Claude's: a second pass
    over valid, already processed counters changes nothing (reprocessing a
    retried message cannot drift). *)
Theorem process_idempotent (v : TokenValues) (r : option handlerResolution)
    (Hv : counts_ok v) (Hnc : handlerID (default strict_default r) <> HandlerClaude) :
  Tokens (Process (Tokens (Process v r)) r) = Tokens (Process v r).
Proof.
  destruct (Process_non_claude v r Hv Hnc) as (res & _ & _ & Hrun).
  set (st := evidenceStrength res) in *.
  assert (Hok : counts_ok (aliased st v)) by (by apply aliased_ok).
  destruct (Hrun v Hv) as [H1 _].
  destruct (final_tokens_shape (aliased st v) (non_claude_authority res v) ∅ res Hok) as [x Hx].
  destruct (final_tokens_step (aliased st v) (non_claude_authority res v) ∅ res Hok)
    as (Hok2 & _).
  rewrite <- H1 in Hok2. destruct (Hrun _ Hok2) as [-> _].
  assert (Hal : aliased st (Tokens (Process v r)) = Tokens (Process v r)).
  { rewrite H1, Hx. apply aliased_set_total. }
  fold st. rewrite Hal.
  destruct (decide (non_claude_authority res (Tokens (Process v r)) = non_claude_authority res v))
    as [Hsame|Hdiff].
  { rewrite Hsame, H1. by apply final_tokens_idem. }
  apply (shape_change_stable res v); auto; [by rewrite H1, Hx; eauto|].
  intros Hpre. by rewrite H1, Hpre.
Qed.

Lemma process_idempotent_witness :
  let v := {| InputTokens := 10; OutputTokens := 5; ReasoningTokens := 1; CachedTokens := 7;
              CacheReadTokens := 0; CacheReadPresent := false; CacheCreationTokens := 0;
              TotalTokens := 0 |} in
  Tokens (Process (Tokens (Process v None)) None) = Tokens (Process v None).
Proof.
  apply process_idempotent; [|discriminate].
  unfold counts_ok, count_ok; vm_compute; split_and!; congruence.
Defined.

(** The most severe outcome of an action list, by scanning for each level. *)
Definition has_outcome (o : TokenOutcome) (actions : list Action) : bool :=
  existsb (fun a => outcome a =?s o) actions.

Definition severity_outcome (actions : list Action) (violations : list Violation)
  : TokenOutcome :=
  if existsb (fun v => Violation_Code v =?s ViolationTokenArithmeticOverflow) violations
  then TokenOutcomeOverflow
  else match violations, actions with
  | _ :: _, _ => TokenOutcomeAmbiguous
  | [], [] => TokenOutcomeValid
  | [], _ =>
      if has_outcome TokenOutcomeCorrected actions then TokenOutcomeCorrected
      else if has_outcome TokenOutcomeCompatibility actions then TokenOutcomeCompatibility
      else TokenOutcomeNormalized
  end.

Lemma actions_outcome_corrected actions :
  actions_outcome TokenOutcomeCorrected actions = TokenOutcomeCorrected.
Proof.
  induction actions as [|a l IH]; [done|]. cbn [actions_outcome].
  destruct (outcome a =?s _); [done|]. by rewrite !andb_false_r.
Qed.

Lemma actions_outcome_compatibility actions :
  actions_outcome TokenOutcomeCompatibility actions =
    if has_outcome TokenOutcomeCorrected actions then TokenOutcomeCorrected
    else TokenOutcomeCompatibility.
Proof.
  induction actions as [|a l IH]; [done|]. cbn [actions_outcome has_outcome existsb].
  destruct (outcome a =?s TokenOutcomeCorrected); [apply actions_outcome_corrected|].
  rewrite !andb_false_r. by destruct (_ && _).
Qed.

Lemma actions_outcome_normalized actions :
  actions_outcome TokenOutcomeNormalized actions =
    if has_outcome TokenOutcomeCorrected actions then TokenOutcomeCorrected
    else if has_outcome TokenOutcomeCompatibility actions then TokenOutcomeCompatibility
    else TokenOutcomeNormalized.
Proof.
  induction actions as [|a l IH]; [done|]. cbn [actions_outcome has_outcome existsb].
  destruct (outcome a =?s TokenOutcomeCorrected); [apply actions_outcome_corrected|].
  destruct (outcome a =?s TokenOutcomeCompatibility);
    [apply actions_outcome_compatibility|].
  rewrite andb_false_r. exact IH.
Qed.

Lemma actions_outcome_valid actions :
  actions_outcome TokenOutcomeValid actions =
    if has_outcome TokenOutcomeCorrected actions then TokenOutcomeCorrected
    else if has_outcome TokenOutcomeCompatibility actions then TokenOutcomeCompatibility
    else if has_outcome TokenOutcomeNormalized actions then TokenOutcomeNormalized
    else TokenOutcomeValid.
Proof.
  induction actions as [|a l IH]; [done|]. cbn [actions_outcome has_outcome existsb].
  destruct (outcome a =?s TokenOutcomeCorrected); [apply actions_outcome_corrected|].
  destruct (outcome a =?s TokenOutcomeCompatibility);
    [apply actions_outcome_compatibility|].
  destruct (outcome a =?s TokenOutcomeNormalized); [apply actions_outcome_normalized|].
  exact IH.
Qed.

(** The outcome is the most severe level present: the one-pass loop of
    [summarizeTokenOutcome] agrees with the scan per level, for any actions and
    violations (an action with no mark counts as a normalisation). *)
Theorem summarize_is_severity (actions : list Action) (violations : list Violation) :
  summarizeTokenOutcome actions violations = severity_outcome actions violations.
Proof.
  unfold summarizeTokenOutcome, severity_outcome.
  destruct (existsb _ violations); [done|].
  destruct violations as [|x l]; [|done]. cbn [length Nat.ltb Nat.leb].
  rewrite actions_outcome_valid. destruct actions as [|a k]; [done|].
  cbn [length Nat.ltb Nat.leb].
  destruct (has_outcome TokenOutcomeCorrected _); [done|].
  destruct (has_outcome TokenOutcomeCompatibility _); [done|].
  by destruct (has_outcome TokenOutcomeNormalized _).
Qed.

(** the checked addition is exact.  It succeeds on valid counters exactly
    when the sum fits in an int64, and whenever it succeeds on any int64
    operands its result is the mathematical sum. *)
Theorem safe_add_exact (values : list Z) (Hv : Forall in_int64 values) :
  (snd (safeAddTokenCounts values) = true ->
     fst (safeAddTokenCounts values) = sum_Z values /\ in_int64 (sum_Z values)) /\
  (Forall count_ok values ->
     safeAddTokenCounts values =
       if sum_Z values <=? int64_max then (sum_Z values, true) else (0, false)).
Proof.
  split; [|apply safeAdd_nonneg].
  unfold safeAddTokenCounts. destruct (safeAdd_loop 0 values) as [s ok] eqn:E. cbn [fst snd].
  intros ->. apply safeAdd_loop_exact in E as [-> ?]; [|unfold64; lia|done].
  rewrite Z.add_0_l in *. done.
Qed.

Lemma safe_add_exact_witness :
  Forall in_int64 [int64_max; 1; -1] /\
  (snd (safeAddTokenCounts [int64_max; 1; -1]) = true ->
     fst (safeAddTokenCounts [int64_max; 1; -1]) = sum_Z [int64_max; 1; -1] /\
     in_int64 (sum_Z [int64_max; 1; -1])).
Proof.
  assert (H : Forall in_int64 [int64_max; 1; -1]).
  { repeat constructor; vm_compute; congruence. }
  split; [exact H|]. exact (proj1 (safe_add_exact _ H)).
Defined.
