(* ===== verification/Timeutil.v ===== *)
(** Package timeutil: the text form of stored times, the rolling ranges
    ([5h] to [24h], [1d] to [30d]) and the custom query ranges.

    [time.Local] is the argument [local] of each definition; [anchor] is the
    query's current time.  [NormalizeStorageTime] changes the location of a
    [time.Time] and not its instant, so it is the identity here and the
    location is read where a wall clock is needed. *)
From S2P Require Import Prelude GoStrings GoTime.
From Stdlib Require Import Ascii.

Local Open Scope string_scope.
Local Open Scope list_scope.
Local Open Scope Z_scope.

(** ** storage.go *)

Definition NormalizeStorageTime (t : Time) : Time := t.

Definition FormatStorageTime (local : Location) (t : Time) : string :=
  format_rfc3339nano local (NormalizeStorageTime t).

Definition FormatSortableStorageTime (t : Time) : string :=
  String.append (format_seconds UTC t)
    (String.append "." (String.append (fixed 9 (Nanosecond t)) "Z")).

(** The first layout that parses the value wins. *)
Fixpoint first_some {A} (l : list (option A)) : option A :=
  match l with
  | [] => None
  | Some a :: _ => Some a
  | None :: r => first_some r
  end.

Inductive StorageTimeError :=
| StorageTimeEmpty
| StorageTimeUnparsable (value : string).

Definition ParseStorageTime (local : Location) (value : string)
    : result StorageTimeError Time :=
  let trimmed := TrimSpace value in
  if trimmed =?s EmptyString then Err StorageTimeEmpty
  else
    match first_some
      [parse_datetime 84 ZoneZ UTC trimmed;
       parse_datetime 32 ZoneNum UTC trimmed;
       parse_datetime 32 ZoneNum UTC trimmed;
       parse_datetime 32 ZoneNone local trimmed;
       parse_datetime 84 ZoneNone local trimmed;
       parse_datetime 32 ZoneNone local trimmed;
       parse_datetime 84 ZoneNone local trimmed] with
    | Some t => Ok t
    | None => Err (StorageTimeUnparsable value)
    end.

(** ** usage_range.go *)

Inductive UsageRollingUnit := UsageRollingUnitHour | UsageRollingUnitDay.

#[export] Instance UsageRollingUnit_eq_dec : EqDecision UsageRollingUnit.
Proof. solve_decision. Defined.

Record UsageRollingRange := mkRolling {
  rollingValue : Z;
  rollingUnit : UsageRollingUnit;
}.

Definition Duration_ (r : UsageRollingRange) : Z :=
  match rollingUnit r with
  | UsageRollingUnitDay => mul64 (mul64 (rollingValue r) 24) Hour
  | UsageRollingUnitHour => mul64 (rollingValue r) Hour
  end.

(** The last byte of a string and what precedes it. *)
Fixpoint split_last (s : string) : option (string * ascii) :=
  match s with
  | EmptyString => None
  | String a EmptyString => Some (EmptyString, a)
  | String a r =>
      match split_last r with
      | Some (p, z) => Some (String a p, z)
      | None => None
      end
  end.

Definition rolling_unit_of (a : ascii) : option UsageRollingUnit :=
  if byte_code a =? 104 then Some UsageRollingUnitHour
  else if byte_code a =? 100 then Some UsageRollingUnitDay
  else None.

Definition ParseUsageRollingRange (value : string) : option UsageRollingRange :=
  if len value <? 2 then None
  else
    '(numberText, last) ← split_last value;
    unit ← rolling_unit_of last;
    number ← Atoi numberText;
    if negb (Itoa number =?s numberText) then None
    else
      let '(minimum, maximum) :=
        match unit with
        | UsageRollingUnitHour => (5, 24)
        | UsageRollingUnitDay => (1, 30)
        end in
      if (number <? minimum) || (maximum <? number) then None
      else Some (mkRolling number unit).

Definition IsUsageRollingHourRange (value : string) : bool :=
  match ParseUsageRollingRange value with
  | Some r => bool_decide (rollingUnit r = UsageRollingUnitHour)
  | None => false
  end.

Definition IsUsageRollingDayRange (value : string) : bool :=
  match ParseUsageRollingRange value with
  | Some r => bool_decide (rollingUnit r = UsageRollingUnitDay)
  | None => false
  end.

(** ** usage_query_range.go *)

Inductive UsageQueryUnit := UsageQueryUnitHour | UsageQueryUnitDay.

#[export] Instance UsageQueryUnit_eq_dec : EqDecision UsageQueryUnit.
Proof. solve_decision. Defined.

Record UsageQueryRange := mkUsageQueryRange {
  qRange : string;
  qUnit : UsageQueryUnit;
  qCount : Z;
  qStartTime : Time;
  qEndTime : Time;
  qEndExclusive : bool;
}.

(** [BoundsConflict] is [usageQueryRangeBoundsConflictError], the error class
    a caller may retry; every other error is a [BadRange]. *)
Inductive UsageQueryRangeError :=
| BadRange (message : string)
| BoundsConflict (message : string).

Definition IsUsageQueryRangeBoundsConflict (e : UsageQueryRangeError) : bool :=
  match e with BoundsConflict _ => true | BadRange _ => false end.

Record UsageQueryRangeOptions := { MaxCustomDayRangeDays : Z }.

Definition defaultCustomDayRangeMaxDays : Z := 30.
Definition LongCustomDayRangeMaxDays : Z := 365.

(** The counting loop of [parseCustomUsageDayRange]; every turn raises
    [count], so it ends after at most [maxDays - count + 1] turns ([fuel]). *)
Fixpoint count_days (fuel : nat) (local : Location) (day endDay : Time)
    (count maxDays : Z) : option Z :=
  if day <? endDay then
    match fuel with
    | O => None
    | S f =>
        let count' := count + 1 in
        if maxDays <? count' then None
        else count_days f local (AddDate local day 0 0 1) endDay count' maxDays
    end
  else Some count.

Definition parseCustomUsageDayRange (local : Location) (startValue endValue : string)
    (anchor : Time) (maxDays : Z) : result UsageQueryRangeError UsageQueryRange :=
  match parse_date_only local startValue with
  | None => Err (BadRange "invalid start")
  | Some startTime =>
  match parse_date_only local endValue with
  | None => Err (BadRange "invalid end")
  | Some endDay =>
  if endDay <? startTime then Err (BadRange "custom range start must be before end")
  else
  match count_days (Z.to_nat maxDays) local startTime endDay 1 maxDays with
  | None => Err (BadRange "custom day range cannot exceed max calendar days")
  | Some count =>
  let today := day_start local anchor in
  if startTime <? AddDate local today 0 0 (- (maxDays - 1))
  then Err (BoundsConflict "custom day range must stay within the most recent calendar days")
  else if today <? endDay
  then Err (BoundsConflict "custom day range cannot end in the future")
  else Ok (mkUsageQueryRange "custom" UsageQueryUnitDay count startTime
             (AddDate local endDay 0 0 1) true)
  end end end.

Definition parseUsageQueryHour (local : Location) (value : string)
    : result string Time :=
  match parse_rfc3339 value with
  | None => Err "parsing time"
  | Some parsed =>
      if negb (minute_of local parsed =? 0) || negb (second_of local parsed =? 0)
         || negb (Nanosecond parsed =? 0)
      then Err "hour must align to the start of an hour"
      else Ok parsed
  end.

(** [t.Sub(u)]: the difference of two instants, saturated to a [Duration]. *)
Definition time_sub (t u : Time) : Duration :=
  Z.max int64_min (Z.min int64_max (t - u)).

Definition current_hour (local : Location) (anchor : Time) : Time :=
  anchor - minute_of local anchor * Minute - second_of local anchor * Second
  - Nanosecond anchor.

Definition parseCustomUsageHourRange (local : Location) (startValue endValue : string)
    (anchor : Time) : result UsageQueryRangeError UsageQueryRange :=
  match parseUsageQueryHour local startValue with
  | Err e => Err (BadRange (String.append "invalid start: " e))
  | Ok startTime =>
  match parseUsageQueryHour local endValue with
  | Err e => Err (BadRange (String.append "invalid end: " e))
  | Ok endHour =>
  if endHour <? startTime then Err (BadRange "custom range start must be before end")
  else
  let selectedHours := Z.quot (time_sub endHour startTime) Hour + 1 in
  if negb (Z.rem (time_sub endHour startTime) Hour =? 0)
     || (selectedHours <? 5) || (24 <? selectedHours)
  then Err (BadRange "custom hour range must include between 5 and 24 hours")
  else
  let currentHour := current_hour local anchor in
  if startTime <? currentHour - 23 * Hour
  then Err (BoundsConflict "custom hour range cannot start more than 24 hours ago")
  else if currentHour <? endHour
  then Err (BoundsConflict "custom hour range cannot end in the future")
  else Ok (mkUsageQueryRange "custom" UsageQueryUnitHour selectedHours startTime
             (endHour + Hour) true)
  end end.

Definition resolveUsageQueryUnit (local : Location) (unitValue startValue endValue : string)
    : result UsageQueryRangeError UsageQueryUnit :=
  let unit := TrimSpace unitValue in
  if unit =?s EmptyString then
    match parse_date_only local startValue, parse_date_only local endValue with
    | Some _, Some _ => Ok UsageQueryUnitDay
    | _, _ => Ok UsageQueryUnitHour
    end
  else if unit =?s "hour" then Ok UsageQueryUnitHour
  else if unit =?s "day" then Ok UsageQueryUnitDay
  else Err (BadRange "unsupported custom range unit").

Definition parseCustomUsageQueryRange (local : Location)
    (unitValue startValue endValue : string) (anchor : Time)
    (options : UsageQueryRangeOptions) : result UsageQueryRangeError UsageQueryRange :=
  let startValue := TrimSpace startValue in
  let endValue := TrimSpace endValue in
  if (startValue =?s EmptyString) || (endValue =?s EmptyString)
  then Err (BadRange "custom range requires start and end")
  else
    let? unit := resolveUsageQueryUnit local unitValue startValue endValue in
    match unit with
    | UsageQueryUnitDay =>
        let maxDays := if MaxCustomDayRangeDays options <=? 0
                       then defaultCustomDayRangeMaxDays
                       else MaxCustomDayRangeDays options in
        parseCustomUsageDayRange local startValue endValue anchor maxDays
    | UsageQueryUnitHour => parseCustomUsageHourRange local startValue endValue anchor
    end.

Definition ParseUsageQueryRangeWithOptions (local : Location)
    (rangeValue unitValue startValue endValue : string) (anchor : Time)
    (options : UsageQueryRangeOptions) : result UsageQueryRangeError UsageQueryRange :=
  let rangeValue := TrimSpace rangeValue in
  if rangeValue =?s EmptyString then Err (BadRange "usage range is required")
  else if IsZero anchor then Err (BadRange "usage range anchor is required")
  else if (rangeValue =?s "today") || (rangeValue =?s "yesterday") then
    let localStart := day_start local anchor in
    let localStart := if rangeValue =?s "yesterday"
                      then AddDate local localStart 0 0 (-1) else localStart in
    Ok (mkUsageQueryRange rangeValue UsageQueryUnitDay 1 localStart
          (AddDate local localStart 0 0 1 - 1) false)
  else if rangeValue =?s "custom" then
    parseCustomUsageQueryRange local unitValue startValue endValue anchor options
  else
    match ParseUsageRollingRange rangeValue with
    | None => Err (BadRange "unsupported usage range")
    | Some rollingRange =>
        let unit := match rollingUnit rollingRange with
                    | UsageRollingUnitDay => UsageQueryUnitDay
                    | UsageRollingUnitHour => UsageQueryUnitHour
                    end in
        Ok (mkUsageQueryRange rangeValue unit (rollingValue rollingRange)
              (anchor - Duration_ rollingRange) anchor false)
    end.

Definition ParseUsageQueryRange (local : Location)
    (rangeValue unitValue startValue endValue : string) (anchor : Time)
    : result UsageQueryRangeError UsageQueryRange :=
  ParseUsageQueryRangeWithOptions local rangeValue unitValue startValue endValue anchor
    {| MaxCustomDayRangeDays := 0 |}.
