(* ===== verification/TimeutilFacts.v ===== *)
(** Properties of [Timeutil]: stored times read back as the same instant, the
    sortable text orders like the instants (and the local text does so only away
    from UTC), the rolling ranges accepted, and the bounds of a query range. *)
From S2P Require Import Prelude GoStrings GoTime GoTimeFacts Timeutil.
From Stdlib Require Import Ascii.

Local Open Scope string_scope.
Local Open Scope list_scope.
Local Open Scope Z_scope.

(** ** Plain text: no byte that [TrimSpace] could remove *)

Definition plain_byte (a : ascii) : bool :=
  (byte_code a <? 128) && negb (is_space1 a).

Fixpoint plain (s : string) : bool :=
  match s with EmptyString => true | String a r => plain_byte a && plain r end.

Lemma plain_append (s t : string) : plain (String.append s t) = plain s && plain t.
Proof.
  induction s as [|a s IH]; [done|]. rewrite append_cons. simpl. by rewrite IH, andb_assoc.
Qed.

Lemma plain_fixed (n : nat) (z : Z) : 0 <= z < 10 ^ Z.of_nat n -> plain (fixed n z) = true.
Proof.
  revert z. induction n as [|n IH]; intros z Hz; [done|].
  destruct (lead_digit n z Hz) as (? & ? & _). rewrite fixed_S. cbn [plain].
  rewrite IH by done. unfold plain_byte, is_space1. rewrite digit_code by done. lia.
Qed.

Lemma plain_list (s : string) :
  plain s = forallb plain_byte (String.list_ascii_of_string s).
Proof. induction s as [|a s IH]; [done|]. simpl. by rewrite IH. Qed.

Lemma drop_spaces_plain sp2 sp3 (l : list ascii) :
  (forall a b, plain_byte a = true -> sp2 a b = false) ->
  (forall a b c, plain_byte a = true -> sp3 a b c = false) ->
  forallb plain_byte l = true -> drop_spaces sp2 sp3 l = l.
Proof.
  intros H2 H3 H. destruct l as [|a r]; [done|].
  simpl in H. apply andb_true_iff in H as [Ha _].
  cbn [drop_spaces]. unfold plain_byte in Ha. bool_split. rewrite H0.
  assert (plain_byte a = true) as Pa by (unfold plain_byte; rewrite H0; simpl; lia).
  destruct r as [|b r]; [done|]. rewrite H2 by done.
  destruct r as [|c r]; [done|]. by rewrite H3.
Qed.

Lemma TrimSpace_plain (s : string) : plain s = true -> TrimSpace s = s.
Proof.
  rewrite plain_list. intros H. unfold TrimSpace, TrimLeftSpace, TrimRightSpace.
  rewrite (drop_spaces_plain is_space2 is_space3); [|..|done].
  - rewrite drop_spaces_plain.
    + by rewrite rev_involutive, String.string_of_list_ascii_of_string.
    + intros a b. unfold plain_byte, is_space2. lia.
    + intros a b c. unfold plain_byte, is_space3. lia.
    + rewrite forallb_forall in *. intros x Hx. apply H. by rewrite in_rev.
  - intros a b. unfold plain_byte, is_space2. lia.
  - intros a b c. unfold plain_byte, is_space3. lia.
Qed.

Lemma plain_trim_zeros (s : string) : plain s = true -> plain (trim_zeros s) = true.
Proof.
  induction s as [|a s IH]; intros H; [done|]. simpl in H. bool_split.
  specialize (IH H0). cbn [trim_zeros].
  destruct (trim_zeros s) as [|b r].
  - case_match; [done|]. simpl. by rewrite H.
  - cbn [plain] in *. by rewrite H, IH.
Qed.

Lemma plain_frac_nano (t : Z) : plain (frac_nano (Nanosecond t)) = true.
Proof.
  unfold frac_nano.
  pose proof (plain_trim_zeros _ (plain_fixed 9 _ (Nanosecond_range t))).
  destruct (trim_zeros _); [done|]. by rewrite plain_append, H.
Qed.

Lemma plain_format_zone (off : Z) : zone_writable off -> plain (format_zone off) = true.
Proof.
  intros [_ B]. unfold format_zone. destruct (off =? 0); [done|].
  rewrite !plain_append.
  rewrite !(plain_fixed 2) by (change (10 ^ Z.of_nat 2) with 100;
    Z.to_euclidean_division_equations; lia).
  by case_match.
Qed.

Lemma plain_format_seconds (l : Location) (t : Z) :
  year_in_range l t -> plain (format_seconds l t) = true.
Proof.
  unfold year_in_range, format_seconds. intros Y.
  destruct (date_of l t) as [[y m] d] eqn:E.
  destruct (date_of_spec _ _ _ _ _ E) as (_ & Hm & Hd%valid_day_bounds).
  destruct (local_fields l t) as (Hh & Hmi & Hs & _).
  rewrite append_int_fixed by (lia || done).
  rewrite !plain_append.
  rewrite (plain_fixed 4) by done.
  by rewrite !(plain_fixed 2) by (change (10 ^ Z.of_nat 2) with 100; lia).
Qed.

Lemma plain_storage (l : Location) (t : Z) :
  year_in_range l t -> zone_writable (zoneOffset (lookup_zone l (Unix t))) ->
  plain (FormatStorageTime l t) = true.
Proof.
  intros Y W. unfold FormatStorageTime, NormalizeStorageTime, format_rfc3339nano.
  by rewrite !plain_append, plain_format_seconds, plain_frac_nano, plain_format_zone.
Qed.

Lemma format_nonempty (l : Location) (t : Z) : year_in_range l t ->
  (FormatStorageTime l t =?s EmptyString) = false.
Proof.
  unfold year_in_range, FormatStorageTime, NormalizeStorageTime, format_rfc3339nano,
    format_seconds. intros Y.
  destruct (date_of l t) as [[y m] d]. rewrite append_int_fixed by (lia || done).
  rewrite fixed_S. by rewrite !append_cons.
Qed.

(** ** The fraction without its trailing zeros *)

Lemma trim_zeros_zero (n : nat) : trim_zeros (fixed n 0) = EmptyString.
Proof.
  induction n as [|n IH]; [done|]. rewrite fixed_S.
  rewrite Z.div_0_l, Z.mod_0_l by (pose proof (pow10_pos n); lia).
  cbn [trim_zeros]. by rewrite IH.
Qed.

Lemma trim_zeros_pos (n : nat) (a : Z) : 0 < a < 10 ^ Z.of_nat n ->
  exists c r, trim_zeros (fixed n a) = String c r /\ 48 <= byte_code c.
Proof.
  revert a. induction n as [|n IH]; intros a Ha.
  { change (10 ^ Z.of_nat 0) with 1 in Ha. lia. }
  destruct (lead_digit n a ltac:(lia)) as (D & M & E). rewrite fixed_S. cbn [trim_zeros].
  destruct (decide (a mod 10 ^ Z.of_nat n = 0)) as [Z0|Z0].
  - rewrite Z0, trim_zeros_zero, digit_code by done.
    rewrite (proj2 (Z.eqb_neq _ _)) by lia. eexists _, _. split; [done|].
    rewrite digit_code by done. lia.
  - destruct (IH (a mod 10 ^ Z.of_nat n)) as (c & r & -> & _); [lia|].
    eexists _, _. split; [done|]. rewrite digit_code by done. lia.
Qed.

(** Before a byte below the digits, trimmed fractions compare like numbers. *)
Lemma trim_zeros_lex (n : nat) (a b : Z) (c : ascii) (z : string) :
  byte_code c < 48 -> 0 <= a < 10 ^ Z.of_nat n -> 0 <= b < 10 ^ Z.of_nat n ->
  string_lt (String.append (trim_zeros (fixed n a)) (String c z))
            (String.append (trim_zeros (fixed n b)) (String c z)) = (a <? b).
Proof.
  intros Hc. revert a b. induction n as [|n IH]; intros a b Ha Hb.
  { change (10 ^ Z.of_nat 0) with 1 in *. assert (a = 0) as -> by lia.
    assert (b = 0) as -> by lia. apply string_lt_irrefl. }
  destruct (decide (a = 0)) as [->|Na], (decide (b = 0)) as [->|Nb].
  - by rewrite string_lt_irrefl.
  - destruct (trim_zeros_pos (S n) b) as (e & r & -> & He); [lia|].
    rewrite trim_zeros_zero, append_nil_l, append_cons, string_lt_cons.
    by rewrite !(proj2 (Z.ltb_lt _ _)) by lia.
  - destruct (trim_zeros_pos (S n) a) as (e & r & -> & He); [lia|].
    rewrite trim_zeros_zero, append_nil_l, append_cons, string_lt_cons.
    by rewrite !(proj2 (Z.ltb_ge _ _)), (proj2 (Z.eqb_neq _ _)) by lia.
  - assert (forall x, 0 < x < 10 ^ Z.of_nat (S n) ->
      String.append (trim_zeros (fixed (S n) x)) (String c z) =
      String (digit (x / 10 ^ Z.of_nat n))
        (String.append (trim_zeros (fixed n (x mod 10 ^ Z.of_nat n))) (String c z))) as T.
    { intros x Hx. destruct (lead_digit n x ltac:(lia)) as (D & M & E).
      rewrite fixed_S. cbn [trim_zeros].
      destruct (decide (x mod 10 ^ Z.of_nat n = 0)) as [Z0|Z0].
      - rewrite Z0, trim_zeros_zero, digit_code by done.
        by rewrite (proj2 (Z.eqb_neq _ _)) by lia.
      - destruct (trim_zeros_pos n (x mod 10 ^ Z.of_nat n)) as (e & r & -> & _); [lia|].
        by rewrite append_cons. }
    rewrite !T by lia.
    destruct (lead_digit n a Ha) as (Da & Ma & Ea), (lead_digit n b Hb) as (Db & Mb & Eb).
    rewrite string_lt_cons, IH, !digit_code by done.
    set (p := 10 ^ Z.of_nat n) in *.
    set (qa := a / p) in *. set (qb := b / p) in *.
    set (ra := a mod p) in *. set (rb := b mod p) in *. clearbody p qa qb ra rb.
    apply eq_true_iff_eq. rewrite orb_true_iff, andb_true_iff, !Z.ltb_lt, Z.eqb_eq.
    subst a b. clear T IH. split; nia.
Qed.

Lemma frac_nano_lex (a b : Z) (c : ascii) (z : string) :
  byte_code c < 46 -> 0 <= a < 1000000000 -> 0 <= b < 1000000000 ->
  string_lt (String.append (frac_nano a) (String c z))
            (String.append (frac_nano b) (String c z)) = (a <? b).
Proof.
  intros Hc Ha Hb. rewrite <- (trim_zeros_lex 9 a b c z) by (done || lia).
  unfold frac_nano.
  destruct (trim_zeros (fixed 9 a)) as [|x r] eqn:Ea,
    (trim_zeros (fixed 9 b)) as [|y s] eqn:Eb; [done|..].
  - assert (0 < b) as Pb.
    { destruct (decide (b = 0)) as [->|]; [|lia]. by rewrite trim_zeros_zero in Eb. }
    destruct (trim_zeros_pos 9 b) as (e & t & E & He); [split; [lia|exact (proj2 Hb)]|].
    rewrite E in Eb. injection Eb as <- <-.
    rewrite append_one, !append_nil_l, !append_cons, !string_lt_cons.
    rewrite !(proj2 (Z.ltb_lt _ _)); [done|lia|]. change (byte_code ".") with 46. lia.
  - assert (0 < a) as Pa.
    { destruct (decide (a = 0)) as [->|]; [|lia]. by rewrite trim_zeros_zero in Ea. }
    destruct (trim_zeros_pos 9 a) as (e & t & E & He); [split; [lia|exact (proj2 Ha)]|].
    rewrite E in Ea. injection Ea as <- <-.
    rewrite append_one, !append_nil_l, !append_cons, !string_lt_cons.
    change (byte_code ".") with 46.
    by rewrite !(proj2 (Z.ltb_ge _ _)), !(proj2 (Z.eqb_neq _ _)) by lia.
  - by rewrite !append_one, !append_cons, string_lt_same.
Qed.

(** An offset other than zero is written with a sign, below any digit or point. *)
Lemma format_zone_sign (off : Z) : off <> 0 ->
  exists c z, format_zone off = String c z /\ byte_code c < 46.
Proof.
  intros H. unfold format_zone. rewrite (proj2 (Z.eqb_neq off 0)) by done.
  case_match; eexists _, _; (split; [reflexivity|]); by vm_compute.
Qed.

Lemma instant_lex (a b : Z) (off : Z) :
  (Unix a + off <? Unix b + off)
  || (Unix a + off =? Unix b + off) && (Nanosecond a <? Nanosecond b) = (a <? b).
Proof.
  unfold Unix, Nanosecond, Second. apply eq_true_iff_eq.
  rewrite orb_true_iff, andb_true_iff, !Z.ltb_lt, Z.eqb_eq.
  Z.to_euclidean_division_equations. lia.
Qed.

Lemma year_in_range_dec (l : Location) (t : Z) :
  (let '(y, _, _) := date_of l t in (0 <=? y) && (y <? 10000)) = true -> year_in_range l t.
Proof. unfold year_in_range. destruct (date_of l t) as [[y m] d]. intros. lia. Qed.

(** ** Properties of storage.go *)

(** C35: the sortable text of storage.go orders like the instants: for instants
    of the years 0 to 9999 (UTC), the bytewise comparison SQLite makes on the
    TEXT column is the comparison of the instants, fractions included. *)
Theorem sortable_time_order (a b : Z) :
  year_in_range UTC a -> year_in_range UTC b ->
  string_lt (FormatSortableStorageTime a) (FormatSortableStorageTime b) = (a <? b).
Proof.
  intros Ya Yb. unfold FormatSortableStorageTime.
  rewrite format_seconds_lex by done.
  rewrite !append_one, string_lt_same.
  rewrite (fixed_lex 9) by apply Nanosecond_range.
  rewrite string_lt_irrefl, andb_false_r, orb_false_r.
  apply (instant_lex a b 0).
Qed.

Lemma sortable_time_order_witness :
  string_lt (FormatSortableStorageTime 500000000) (FormatSortableStorageTime 510000000)
  = (500000000 <? 510000000).
Proof.
  apply sortable_time_order; apply year_in_range_dec; vm_compute; reflexivity.
Defined.

(** Storage texts written with one and the same non-zero offset. *)
Lemma format_storage_lex (local : Location) (a b off : Z) :
  zoneOffset (lookup_zone local (Unix a)) = off ->
  zoneOffset (lookup_zone local (Unix b)) = off -> off <> 0 ->
  year_in_range local a -> year_in_range local b ->
  string_lt (FormatStorageTime local a) (FormatStorageTime local b) = (a <? b).
Proof.
  intros Oa Ob Hoff Ya Yb.
  unfold FormatStorageTime, NormalizeStorageTime, format_rfc3339nano.
  rewrite format_seconds_lex, Oa, Ob by done.
  destruct (format_zone_sign off Hoff) as (c & z & -> & Hc).
  rewrite frac_nano_lex by (done || apply Nanosecond_range).
  unfold local_sec. rewrite Oa, Ob. apply instant_lex.
Qed.

(** the local text of storage.go orders like the instants as long as both
    instants have the same offset and this offset is not zero: whatever zeros
    the RFC3339Nano layout trims from the fractions, the sign of the offset that
    follows is below the point and the digits. *)
Theorem storage_time_order (local : Location) (a b off : Z) :
  zoneOffset (lookup_zone local (Unix a)) = off ->
  zoneOffset (lookup_zone local (Unix b)) = off -> off <> 0 ->
  year_in_range local a -> year_in_range local b ->
  string_lt (FormatStorageTime local a) (FormatStorageTime local b) = (a <? b).
Proof. apply format_storage_lex. Qed.

Lemma storage_time_order_witness :
  string_lt (FormatStorageTime (FixedZone 28800) 500000000)
            (FormatStorageTime (FixedZone 28800) 510000000) = true.
Proof.
  rewrite (storage_time_order (FixedZone 28800) 500000000 510000000 28800);
    [reflexivity|reflexivity|reflexivity|discriminate|..];
    apply year_in_range_dec; vm_compute; reflexivity.
Defined.

(** In UTC the order breaks: the letter Z is above the digits, so half a second
    past midnight is written below midnight itself. *)
Lemma storage_time_order_fails_in_UTC :
  string_lt (FormatStorageTime UTC 0) (FormatStorageTime UTC 500000000) = false /\
  string_lt (FormatStorageTime UTC 500000000) (FormatStorageTime UTC 0) = true.
Proof. split; vm_compute; reflexivity. Qed.

Lemma parse_format_storage (local local' : Location) (t : Z) :
  year_in_range local t -> zone_writable (zoneOffset (lookup_zone local (Unix t))) ->
  ParseStorageTime local' (FormatStorageTime local t) = Ok t.
Proof.
  intros Y W. unfold ParseStorageTime.
  rewrite (TrimSpace_plain _ (plain_storage _ _ Y W)), format_nonempty by done.
  unfold FormatStorageTime, NormalizeStorageTime.
  by rewrite parse_format_rfc3339nano.
Qed.

(** The sortable text reads back as well. *)
Lemma parse_format_sortable (local : Location) (t : Z) : year_in_range UTC t ->
  ParseStorageTime local (FormatSortableStorageTime t) = Ok t.
Proof.
  intros Y. pose proof (Nanosecond_range t) as N. unfold ParseStorageTime, FormatSortableStorageTime.
  assert (P : plain (String.append (format_seconds UTC t)
    (String.append "." (String.append (fixed 9 (Nanosecond t)) "Z"))) = true).
  { by rewrite !plain_append, plain_format_seconds, plain_fixed. }
  rewrite (TrimSpace_plain _ P).
  assert (E : parse_datetime 84 ZoneZ UTC (String.append (format_seconds UTC t)
    (String.append "." (String.append (fixed 9 (Nanosecond t)) "Z"))) = Some t).
  { rewrite <- (append_assoc "." _ "Z").
    apply (parse_format_layout UTC UTC t (String.append "." (fixed 9 (Nanosecond t))) Y); [done|].
    intros z Hz. rewrite append_assoc. by apply parse_frac_fixed. }
  rewrite E. destruct (_ =?s _) eqn:Em; [|done]. bool_split. rewrite Em in E. done.
Qed.

(** A stored time reads back as the instant it was written from, in any
    location whose offset at this instant is a whole number of minutes below a
    day; the fraction survives the trimming of its zeros. *)
Theorem storage_time_round_trip (local local' : Location) (t : Z) :
  year_in_range local t -> zone_writable (zoneOffset (lookup_zone local (Unix t))) ->
  ParseStorageTime local' (FormatStorageTime local t) = Ok t.
Proof. apply parse_format_storage. Qed.

Lemma storage_time_round_trip_witness :
  ParseStorageTime UTC (FormatStorageTime (FixedZone (-12600)) 1709164800123450000)
  = Ok 1709164800123450000.
Proof.
  apply storage_time_round_trip.
  - apply year_in_range_dec. vm_compute. reflexivity.
  - split; [vm_compute; reflexivity|vm_compute; split; reflexivity].
Defined.

(** ** Properties of usage_range.go *)

Definition rolling_bounds (u : UsageRollingUnit) : Z * Z :=
  match u with UsageRollingUnitHour => (5, 24) | UsageRollingUnitDay => (1, 30) end.

Definition rolling_suffix (u : UsageRollingUnit) : ascii :=
  match u with UsageRollingUnitHour => "h"%char | UsageRollingUnitDay => "d"%char end.

Lemma split_last_spec (s p : string) (a : ascii) :
  split_last s = Some (p, a) <-> s = String.append p (String a EmptyString).
Proof.
  revert p. induction s as [|b r IH]; intros p.
  - split; [done|]. by destruct p.
  - destruct r as [|c r].
    + cbn [split_last]. split.
      * by intros [= <- <-].
      * destruct p as [|x p]; rewrite ?append_nil_l, ?append_cons.
        { by intros [= ->]. }
        by destruct p.
    + change (split_last (String b (String c r)))
        with (match split_last (String c r) with
              | Some (q, z) => Some (String b q, z) | None => None end).
      split.
      * destruct (split_last (String c r)) as [[q z]|] eqn:E; [|done].
        intros [= <- <-]. rewrite append_cons. f_equal. by apply IH.
      * intros H. destruct p as [|x p].
        { by destruct r. }
        rewrite append_cons in H. injection H as <- H. by rewrite (proj2 (IH p) H).
Qed.

Lemma string_length_append (s t : string) :
  String.length (String.append s t) = (String.length s + String.length t)%nat.
Proof. induction s as [|a s IH]; [done|]. rewrite append_cons. simpl. by rewrite IH. Qed.

Lemma Itoa_nonempty (z : Z) : 0 <= z -> (1 <= String.length (Itoa z))%nat.
Proof.
  intros H. unfold Itoa. rewrite (proj2 (Z.ltb_ge z 0)) by lia.
  rewrite fixed_length. destruct (num_digits_pos 20 (Z.abs z)) as [m ->]. lia.
Qed.

Lemma rolling_unit_of_spec (a : ascii) (u : UsageRollingUnit) :
  rolling_unit_of a = Some u <-> a = rolling_suffix u.
Proof.
  assert (I : forall x y : ascii, byte_code x = byte_code y -> x = y).
  { intros x y E. unfold byte_code in E.
    rewrite <- (ascii_N_embedding x), <- (ascii_N_embedding y). f_equal. lia. }
  unfold rolling_unit_of. split.
  - destruct (byte_code a =? 104) eqn:E1; bool_split.
    { intros [= <-]. by apply I. }
    destruct (byte_code a =? 100) eqn:E2; bool_split; [|done].
    intros [= <-]. by apply I.
  - intros ->. by destruct u.
Qed.

(** the rolling ranges accepted are exactly the canonical decimal of a
    number within the bounds of its unit (5 to 24 hours, 1 to 30 days) followed
    by the unit letter; leading zeros, signs and other units are refused. *)
Theorem rolling_range_spec (value : string) (n : Z) (u : UsageRollingUnit) :
  ParseUsageRollingRange value = Some (mkRolling n u) <->
  value = String.append (Itoa n) (String (rolling_suffix u) EmptyString) /\
  fst (rolling_bounds u) <= n <= snd (rolling_bounds u).
Proof.
  unfold ParseUsageRollingRange. split.
  - destruct (len value <? 2); [done|].
    destruct (split_last value) as [[p a]|] eqn:Es; [|done]. cbn [mbind option_bind].
    destruct (rolling_unit_of a) as [u0|] eqn:Eu; [|done]. cbn [mbind option_bind].
    destruct (Atoi p) as [k|]; [|done]. cbn [mbind option_bind].
    destruct (Itoa k =?s p) eqn:Ek; [|done]. cbn [negb]. apply String.eqb_eq in Ek.
    apply split_last_spec in Es. apply rolling_unit_of_spec in Eu.
    destruct u0; cbv beta iota; case_match eqn:B; intros [= <- <-];
      bool_split; subst; simpl; (split; [done|lia]).
  - intros [-> B].
    assert (0 <= n <= 30) as Bn by (destruct u; simpl in B; lia).
    unfold len. rewrite string_length_append.
    pose proof (Itoa_nonempty n ltac:(lia)).
    rewrite (proj2 (Z.ltb_ge _ 2)) by (simpl; lia).
    rewrite (proj2 (split_last_spec _ _ _) eq_refl). cbn [mbind option_bind].
    rewrite (proj2 (rolling_unit_of_spec _ u) eq_refl). cbn [mbind option_bind].
    rewrite Atoi_Itoa_nonneg by (unfold64; lia). cbn [mbind option_bind].
    rewrite String.eqb_refl. cbn [negb].
    destruct u; simpl in B |- *; by rewrite !(proj2 (Z.ltb_ge _ _)) by lia.
Qed.

Lemma Duration_exact (n : Z) (u : UsageRollingUnit) :
  fst (rolling_bounds u) <= n <= snd (rolling_bounds u) ->
  Duration_ (mkRolling n u) =
  n * match u with UsageRollingUnitHour => Hour | UsageRollingUnitDay => 24 * Hour end.
Proof.
  intros B. unfold Duration_, Hour, Minute, Second.
  destruct u; simpl in B |- *; rewrite !mul64_id by (rewrite ?mul64_id; unfold64; lia); lia.
Qed.

(** ** Properties of usage_query_range.go *)

Lemma parseUsageQueryHour_aligned (local : Location) (v : string) (t : Z) :
  parseUsageQueryHour local v = Ok t -> current_hour local t = t.
Proof.
  unfold parseUsageQueryHour. destruct (parse_rfc3339 v) as [p|]; [|done].
  case_match eqn:E; [done|]. intros [= <-]. bool_split.
  unfold current_hour. rewrite H, H0, H1. lia.
Qed.

Lemma selected_hours (s e : Z) : s <= e ->
  Z.rem (time_sub e s) Hour = 0 -> Z.quot (time_sub e s) Hour + 1 <= 24 ->
  e = s + Z.quot (time_sub e s) Hour * Hour.
Proof.
  intros L R Q. unfold time_sub in *.
  rewrite Z.max_r in * by (unfold64; lia).
  rewrite Z.rem_mod_nonneg in R by (unfold Hour, Minute, Second; unfold64; lia).
  rewrite Z.quot_div_nonneg in * by (unfold Hour, Minute, Second; unfold64; lia).
  destruct (decide (e - s <= int64_max)) as [M|M].
  - rewrite Z.min_r in * by lia.
    pose proof (Z.div_mod (e - s) Hour ltac:(done)). lia.
  - rewrite Z.min_l in * by lia. vm_compute in R. discriminate.
Qed.

(** The window of a custom hour query: both ends on a local hour, 5 to 24 hours
    selected, none before the 23rd hour back and none after the current one. *)
Definition hour_range_ok (local : Location) (anchor s e n : Z) : Prop :=
  5 <= n <= 24 /\ e = s + (n - 1) * Hour /\
  current_hour local anchor - 23 * Hour <= s /\ e <= current_hour local anchor.

(** A custom hour range is accepted exactly when both values are hours of
    the local clock, [n] hours apart with [n] between 5 and 24, inside of the
    last 24 hours; the range then covers [n] whole hours, its end excluded. *)
Theorem custom_hour_range_spec (local : Location) (sv ev : string) (anchor : Z) (r : UsageQueryRange) :
  parseCustomUsageHourRange local sv ev anchor = Ok r <->
  exists s e n, parseUsageQueryHour local sv = Ok s /\ parseUsageQueryHour local ev = Ok e /\
    hour_range_ok local anchor s e n /\
    r = mkUsageQueryRange "custom" UsageQueryUnitHour n s (s + n * Hour) true.
Proof.
  unfold parseCustomUsageHourRange, hour_range_ok. split.
  - destruct (parseUsageQueryHour local sv) as [s|]; [|done].
    destruct (parseUsageQueryHour local ev) as [e|]; [|done].
    destruct (e <? s) eqn:L; [done|]. cbv zeta.
    case_match eqn:G; [done|]. case_match eqn:S1; [done|]. case_match eqn:S2; [done|].
    intros [= <-]. bool_split.
    pose proof (selected_hours s e L H ltac:(lia)) as E.
    set (q := Z.quot (time_sub e s) Hour) in *. clearbody q.
    exists s, e, (q + 1). split_and!; try done; try lia.
    f_equal. lia.
  - intros (s & e & n & -> & -> & (Bn & E & W1 & W2) & ->).
    rewrite (proj2 (Z.ltb_ge e s)) by (unfold Hour, Minute, Second in *; lia). cbv zeta.
    assert (time_sub e s = (n - 1) * Hour) as T.
    { unfold time_sub, Hour, Minute, Second in *. unfold64. lia. }
    rewrite T, Z.quot_mul, Z.rem_mul by done.
    replace (n - 1 + 1) with n by lia.
    rewrite (proj2 (Z.ltb_ge n 5)), (proj2 (Z.ltb_ge 24 n)) by lia. cbn [negb orb Z.eqb].
    rewrite (proj2 (Z.ltb_ge s _)), (proj2 (Z.ltb_ge _ e)) by lia.
    do 2 f_equal. lia.
Qed.

(** A custom hour range refused with the retryable class of errors is one
    that only the clock invalidates: at another current time it is accepted. *)
Theorem hour_conflict_only_time (local : Location) (sv ev m : string) (anchor : Z) :
  parseCustomUsageHourRange local sv ev anchor = Err (BoundsConflict m) ->
  exists anchor' r, parseCustomUsageHourRange local sv ev anchor' = Ok r.
Proof.
  unfold parseCustomUsageHourRange.
  destruct (parseUsageQueryHour local sv) as [s|] eqn:Ps; [|done].
  destruct (parseUsageQueryHour local ev) as [e|] eqn:Pe; [|done].
  destruct (e <? s) eqn:L; [done|]. cbv zeta.
  case_match eqn:G; [done|]. bool_split. intros _.
  pose proof (selected_hours s e L H ltac:(lia)) as E.
  set (q := Z.quot (time_sub e s) Hour) in *. clearbody q.
  exists e. rewrite (parseUsageQueryHour_aligned _ _ _ Pe).
  rewrite (proj2 (Z.ltb_ge s _)), (proj2 (Z.ltb_ge e e))
    by (unfold Hour, Minute, Second in *; lia).
  by eexists.
Qed.

Lemma hour_conflict_only_time_witness :
  exists anchor' r, parseCustomUsageHourRange (FixedZone 19800)
    "2024-03-01T01:00:00+05:30" "2024-03-01T09:00:00+05:30" anchor' = Ok r.
Proof.
  apply (hour_conflict_only_time _ _ _ "custom hour range cannot end in the future"
           (1709200000 * Second)).
  vm_compute. reflexivity.
Defined.

(** Package timeutil, storage_serializer.go: the two GORM serializers of time
    columns.  [quote] is strconv.Quote. *)

Local Open Scope string_scope.
Local Open Scope list_scope.
Local Open Scope Z_scope.

(** What the driver hands to Scan; [DbOther] is a value of another Go type. *)
Inductive DbValue :=
| DbNull
| DbTime (t : Time)
| DbText (s : string)
| DbBytes (s : string)
| DbOther (type : string).

(** The value of a field that is written: an untyped nil, a time, a pointer to one,
    a driver.Valuer with its answer, or anything else. *)
Inductive FieldValue :=
| FieldNil
| FieldTime (t : Time)
| FieldTimePtr (t : option Time)
| FieldValuer (answer : result string DbValue)
| FieldOther (v : DbValue).

Section Serializer.
Context (local : Location) (quote : string -> string).

Definition storageTimeErrorText (e : StorageTimeError) : string :=
  match e with
  | StorageTimeEmpty => "storage time is empty"
  | StorageTimeUnparsable value => String.append "parse storage time " (quote value)
  end.

(** StorageTimeSerializer.Scan; [None] is the nil given to the field. *)
Definition StorageTimeSerializer_Scan (dbValue : DbValue) : result string (option Time) :=
  let scan_text raw :=
    match ParseStorageTime local raw with
    | Err e => Err (storageTimeErrorText e)
    | Ok parsed => Ok (Some (NormalizeStorageTime parsed))
    end in
  match dbValue with
  | DbNull => Ok None
  | DbTime value => Ok (Some (NormalizeStorageTime value))
  | DbText value => scan_text value
  | DbBytes value => scan_text value
  | DbOther type => Err (String.append "scan storage time from " type)
  end.

Definition serialized (format : Time -> string) (fieldValue : FieldValue) : result string DbValue :=
  match fieldValue with
  | FieldNil => Ok DbNull
  | FieldTime value => Ok (if IsZero value then DbNull else DbText (format value))
  | FieldTimePtr None => Ok DbNull
  | FieldTimePtr (Some value) => Ok (if IsZero value then DbNull else DbText (format value))
  | FieldValuer answer => answer
  | FieldOther value => Ok value
  end.

Definition StorageTimeSerializer_Value : FieldValue -> result string DbValue :=
  serialized (FormatStorageTime local).

Definition SortableTimeSerializer_Scan : DbValue -> result string (option Time) := StorageTimeSerializer_Scan.

Definition SortableTimeSerializer_Value : FieldValue -> result string DbValue :=
  serialized FormatSortableStorageTime.

End Serializer.

(** A text column: the text of a value, or NULL. *)
Definition db_text (v : result string DbValue) : option string :=
  match v with Ok (DbText s) => Some s | _ => None end.
Definition text_value (s : option string) : DbValue :=
  match s with Some s => DbText s | None => DbNull end.

(** What the serializer of storage times writes it reads back, zero times as none. *)
Lemma storage_serializer_round_trip local quote (t : Time) :
  year_in_range local t -> zone_writable (zoneOffset (lookup_zone local (Unix t))) ->
  StorageTimeSerializer_Scan local quote (text_value (db_text (StorageTimeSerializer_Value local (FieldTime t))))
    = Ok (if IsZero t then None else Some t).
Proof.
  intros Y Zw. cbn. destruct (IsZero t); [done|]. cbn. by rewrite parse_format_storage.
Qed.

Lemma sortable_serializer_round_trip local quote (t : Time) : year_in_range UTC t ->
  SortableTimeSerializer_Scan local quote (text_value (db_text (SortableTimeSerializer_Value (FieldTime t))))
    = Ok (if IsZero t then None else Some t).
Proof.
  intros Y. cbn. destruct (IsZero t); [done|]. cbn. by rewrite parse_format_sortable.
Qed.
