(* ===== verification/GoCrypto.v ===== *)
(** What the code uses of Go's [crypto/sha256] and [encoding/hex]: the digest of
    FIPS 180-4 on 32-bit words, and the lowercase hexadecimal text of bytes. *)
From S2P Require Import Prelude GoStrings.
From Stdlib Require Import Ascii.

Local Open Scope string_scope.
Local Open Scope list_scope.
Local Open Scope Z_scope.

(** ** SHA-256 *)

Module Sha256.

Definition word (z : Z) : Z := z mod 2 ^ 32.
Definition add (a b : Z) : Z := word (a + b).
Definition rotr (n x : Z) : Z := Z.lor (Z.shiftr x n) (word (Z.shiftl x (32 - n))).

Definition Ch (x y z : Z) : Z := Z.lxor (Z.land x y) (Z.land (word (Z.lnot x)) z).
Definition Maj (x y z : Z) : Z := Z.lxor (Z.lxor (Z.land x y) (Z.land x z)) (Z.land y z).
Definition Sigma0 (x : Z) : Z := Z.lxor (Z.lxor (rotr 2 x) (rotr 13 x)) (rotr 22 x).
Definition Sigma1 (x : Z) : Z := Z.lxor (Z.lxor (rotr 6 x) (rotr 11 x)) (rotr 25 x).
Definition sigma0 (x : Z) : Z := Z.lxor (Z.lxor (rotr 7 x) (rotr 18 x)) (Z.shiftr x 3).
Definition sigma1 (x : Z) : Z := Z.lxor (Z.lxor (rotr 17 x) (rotr 19 x)) (Z.shiftr x 10).

(** The constants of the standard: the first 32 bits of the fractions of the cube
    roots of the first 64 primes, and of the square roots of the first eight. *)
Definition is_prime (n : Z) : bool := forallb (fun d => negb (n mod d =? 0)) (seqZ 2 (Z.sqrt n - 1)).
Definition primes : list Z := filter (fun n => is_prime n = true) (seqZ 2 310).

(** The largest [r] with [r^3 <= n] among [acc] and its [bits] lower bits. *)
Fixpoint cube_root (bits : nat) (acc n : Z) : Z :=
  match bits with
  | O => acc
  | S bits =>
      let r := acc + 2 ^ Z.of_nat bits in
      cube_root bits (if r ^ 3 <=? n then r else acc) n
  end.

Definition K : list Z := Eval vm_compute in map (fun p => word (cube_root 36 0 (p * 2 ^ 96))) primes.
Definition H0 : list Z := Eval vm_compute in map (fun p => word (Z.sqrt (p * 2 ^ 64))) (take 8 primes).

(** The big-endian bytes of a number. *)
Fixpoint bytes_of (n : nat) (z : Z) : list Z :=
  match n with
  | O => []
  | S n => bytes_of n (z / 256) ++ [z mod 256]
  end.

(** The message, a one bit, zeros, and the length in bits as 64 bits. *)
Definition pad (message : list Z) : list Z :=
  let n := Z.of_nat (length message) in
  message ++ [128] ++ replicate (Z.to_nat ((55 - n) mod 64)) 0 ++ bytes_of 8 (8 * n).

Fixpoint words_of (l : list Z) : list Z :=
  match l with
  | a :: b :: c :: d :: r => (((a * 256 + b) * 256 + c) * 256 + d) :: words_of r
  | _ => []
  end.

(** The last sixteen words of the schedule, latest first, and [n] more. *)
Fixpoint schedule (n : nat) (latest : list Z) : list Z :=
  match n with
  | O => []
  | S n =>
      let at_ i := nth i latest 0 in
      let w := add (add (sigma1 (at_ 1%nat)) (at_ 6%nat)) (add (sigma0 (at_ 14%nat)) (at_ 15%nat)) in
      w :: schedule n (w :: latest)
  end.

Definition round (s : list Z) (kw : Z * Z) : list Z :=
  match s with
  | [a; b; c; d; e; f; g; h] =>
      let T1 := add (add (add h (Sigma1 e)) (add (Ch e f g) kw.1)) kw.2 in
      let T2 := add (Sigma0 a) (Maj a b c) in
      [add T1 T2; a; b; c; add d T1; e; f; g]
  | _ => s
  end.

Definition compress (s : list Z) (block : list Z) : list Z :=
  let w := block ++ schedule 48 (rev block) in
  zip_with add s (foldl round s (combine K w)).

Fixpoint blocks (fuel : nat) (w : list Z) : list (list Z) :=
  match fuel with
  | O => []
  | S fuel => match w with [] => [] | _ => take 16 w :: blocks fuel (drop 16 w) end
  end.

(** [sha256.Sum256]: there are at most as many blocks as words. *)
Definition Sum256 (data : string) : list Z :=
  let w := words_of (pad (map byte_code (String.list_ascii_of_string data))) in
  List.concat (map (bytes_of 4) (foldl compress H0 (blocks (length w) w))).

End Sha256.

(** ** [hex.EncodeToString] *)

Definition hex_digit (z : Z) : ascii := if z <? 10 then mk_byte (48 + z) else mk_byte (87 + z).

Definition EncodeToString (bytes : list Z) : string :=
  String.string_of_list_ascii (concat (map (fun b => [hex_digit (b / 16); hex_digit (b mod 16)]) bytes)).

(** The digests of the standard's examples. *)
Example sum_abc : EncodeToString (Sha256.Sum256 "abc")
  = "ba7816bf8f01cfea414140de5dae2223b00361a396177a9cb410ff61f20015ad".
Proof. vm_compute. reflexivity. Qed.

Example sum_two_blocks :
  EncodeToString (Sha256.Sum256 "abcdbcdecdefdefgefghfghighijhijkijkljklmklmnlmnomnopnopq")
  = "248d6a61d20638b8e5c026930c3e6039a33ce45964ff2167f6ecedd419db06c1".
Proof. vm_compute. reflexivity. Qed.
