(* ===== verification/Inbox.v ===== *)
(** The Redis usage inbox: repository/redis_usage_inbox.go, repository/batch.go
    and entities/redis_usage_inbox.go.

    The table is the set of its rows by primary key, with the next key to hand
    out; each statement of the code is one function on it.  A statement can fail
    in the database: [fault] is the error it returns, and then it changes
    nothing.  Stored times are the texts the serializer writes, which is what the
    statements compare.  [now] is GORM's NowFunc at the statement (created_at,
    updated_at); [local] is time.Local; the hash of a message is a parameter. *)
From S2P Require Import Prelude GoStrings GoTime Timeutil.
From Stdlib Require Import Ascii.

Local Open Scope string_scope.
Local Open Scope list_scope.
Local Open Scope Z_scope.

Inductive InboxStatus :=
| RedisUsageInboxStatusPending
| RedisUsageInboxStatusProcessed
| RedisUsageInboxStatusDecodeFailed
| RedisUsageInboxStatusProcessFailed
| RedisUsageInboxStatusDiscarded.

#[export] Instance InboxStatus_eq_dec : EqDecision InboxStatus.
Proof. solve_decision. Defined.

Definition RedisUsageInboxSourceUnknown : string := "unknown".
Definition redisUsageInboxMaxErrorLength : nat := 1024.
Definition redisUsageInboxMaxProcessAttempts : Z := 5.
Definition redisUsageInboxProcessedBatchSize : nat := 300.

Record RedisUsageInbox := mkRedisUsageInbox {
  inID : Z;
  inSource : string;
  inMessageHash : string;
  inRawMessage : string;
  inStatus : InboxStatus;
  inAttemptCount : Z;
  inLastError : string;
  inUsageEventKey : string;
  inPoppedAt : string;
  inProcessedAt : option string;
  inCreatedAt : string;
  inUpdatedAt : string;
}.

Record InboxTable := mkInboxTable {
  inboxRows : gmap Z RedisUsageInbox;
  inboxNextID : Z;
}.

(** An error of a statement, or of the NOT NULL constraint on popped_at. *)
Inductive InboxError :=
| StatementFailed (message : string)
| PoppedAtIsNull.

(** repository/dto/redis_inbox.go. *)
Record RedisInboxInsert := mkRedisInboxInsert {
  insSource : string;
  insRawMessage : string;
  insPoppedAt : Time;
}.

Record RedisUsageInboxProcessedUpdate := mkProcessedUpdate {
  updID : Z;
  updEventKey : string;
}.

Record RedisUsageInboxCleanupResult := mkCleanupResult {
  ProcessedDeleted : Z;
  FailedDeleted : Z;
}.

(** StorageTimeSerializer.Value: the zero time is written as NULL. *)
Definition storageTimeValue (local : Location) (t : Time) : option string :=
  if IsZero t then None else Some (FormatStorageTime local t).

Definition redisUsageInboxSource (value : string) : string :=
  let trimmed := TrimSpace value in
  if trimmed =?s EmptyString then RedisUsageInboxSourceUnknown else trimmed.

(** [for !utf8.ValidString(message) { message = message[:len(message)-1] }];
    the empty string is valid, so the length is enough fuel. *)
Fixpoint trim_to_valid (n : nat) (l : list ascii) : list ascii :=
  match n with
  | O => l
  | S n' => if valid_bytes l then l else trim_to_valid n' (take (length l - 1) l)
  end.

(** [None] is a nil error. *)
Definition boundedRedisUsageInboxError (err : option string) : string :=
  match err with
  | None => EmptyString
  | Some message =>
      let l := String.list_ascii_of_string message in
      if (length l <=? redisUsageInboxMaxErrorLength)%nat then message
      else
        let l := take redisUsageInboxMaxErrorLength l in
        String.string_of_list_ascii (trim_to_valid (length l) l)
  end.

(** batch.go: rows per INSERT for a model of [columnCount] columns. *)
Definition maxRepositoryInsertBatchSize : Z := 900.
Definition sqliteVariableLimit : Z := 999.

Definition insertBatchSize (columnCount : Z) : Z :=
  if columnCount <=? 0 then maxRepositoryInsertBatchSize
  else
    let batchSize := Z.quot sqliteVariableLimit columnCount in
    if batchSize <=? 0 then 1 else Z.min maxRepositoryInsertBatchSize batchSize.

Section Inbox.
Context (local : Location) (sha256hex : string -> string).

(** A statement: nothing happens when it fails. *)
Definition exec {A} (fault : option string) (t : InboxTable) (run : InboxTable * A)
    : InboxTable * result InboxError A :=
  match fault with
  | Some e => (t, Err (StatementFailed e))
  | None => (run.1, Ok run.2)
  end.

Definition newInboxRow (input : RedisInboxInsert) : RedisUsageInbox :=
  mkRedisUsageInbox 0 (redisUsageInboxSource (insSource input))
    (sha256hex (insRawMessage input)) (insRawMessage input)
    RedisUsageInboxStatusPending 0 EmptyString EmptyString
    (default EmptyString (storageTimeValue local (insPoppedAt input))) None
    EmptyString EmptyString.

(** One row of an INSERT: the key is handed out, the times are set. *)
Definition createRow (now : Time) (t : InboxTable) (r : RedisUsageInbox)
    : InboxTable * RedisUsageInbox :=
  let id := inboxNextID t in
  let stamp := FormatStorageTime local now in
  let r' := mkRedisUsageInbox id (inSource r) (inMessageHash r) (inRawMessage r)
              (inStatus r) (inAttemptCount r) (inLastError r) (inUsageEventKey r)
              (inPoppedAt r) (inProcessedAt r) stamp stamp in
  (mkInboxTable (<[id := r']> (inboxRows t)) (id + 1), r').

Fixpoint createRows (now : Time) (t : InboxTable) (rows : list RedisUsageInbox)
    : InboxTable * list RedisUsageInbox :=
  match rows with
  | [] => (t, [])
  | r :: rest =>
      let '(t, r') := createRow now t r in
      let '(t, rest') := createRows now t rest in
      (t, r' :: rest')
  end.

(** The transaction creates all rows or none. *)
Definition InsertRedisUsageInboxMessages (fault : option string) (now : Time)
    (t : InboxTable) (inputs : list RedisInboxInsert)
    : InboxTable * result InboxError (list RedisUsageInbox) :=
  match inputs with
  | [] => (t, Ok [])
  | _ =>
      if existsb (fun input => IsZero (insPoppedAt input)) inputs
      then (t, Err PoppedAtIsNull)
      else exec fault t (createRows now t (map newInboxRow inputs))
  end.

Definition InsertRedisUsageInboxRawMessages (fault : option string) (now : Time)
    (t : InboxTable) (source : string) (messages : list string) (poppedAt : Time)
    : InboxTable * result InboxError (list RedisUsageInbox) :=
  InsertRedisUsageInboxMessages fault now t
    (map (fun message => mkRedisInboxInsert source message poppedAt) messages).

(** UPDATE ... WHERE id IN ids. *)
Definition updateRows (ids : list Z) (f : RedisUsageInbox -> RedisUsageInbox)
    (t : InboxTable) : InboxTable :=
  mkInboxTable (map_imap (fun id r => Some (if bool_decide (id ∈ ids) then f r else r))
                  (inboxRows t)) (inboxNextID t).

Definition setProcessed (eventKey : string) (processedAt now : Time) (r : RedisUsageInbox)
    : RedisUsageInbox :=
  mkRedisUsageInbox (inID r) (inSource r) (inMessageHash r) (inRawMessage r)
    RedisUsageInboxStatusProcessed (inAttemptCount r) EmptyString eventKey
    (inPoppedAt r) (Some (FormatStorageTime local processedAt)) (inCreatedAt r)
    (FormatStorageTime local now).

Definition MarkRedisUsageInboxProcessed (fault : option string) (now : Time)
    (t : InboxTable) (id : Z) (eventKey : string) (processedAt : Time)
    : InboxTable * result InboxError unit :=
  exec fault t (updateRows [id] (setProcessed eventKey processedAt now) t, tt).

(** CASE id WHEN ? THEN ? ... ELSE usage_event_key END: the first match. *)
Fixpoint eventKeyCase (batch : list RedisUsageInboxProcessedUpdate) (id : Z)
    (default_ : string) : string :=
  match batch with
  | [] => default_
  | u :: r => if updID u =? id then updEventKey u else eventKeyCase r id default_
  end.

Definition markBatch (now processedAt : Time) (batch : list RedisUsageInboxProcessedUpdate)
    (t : InboxTable) : InboxTable :=
  updateRows (map updID batch)
    (fun r => setProcessed (eventKeyCase batch (inID r) (inUsageEventKey r)) processedAt now r) t.

(** The loop over batches of 300; [faults] gives the outcome of each statement.
    Batches marked before a failure stay marked.  The number of updates is
    enough fuel. *)
Fixpoint markBatches (fuel : nat) (faults : nat -> option string) (index : nat)
    (now processedAt : Time) (t : InboxTable) (updates : list RedisUsageInboxProcessedUpdate)
    : InboxTable * result InboxError unit :=
  match updates with
  | [] => (t, Ok tt)
  | _ =>
      match fuel with
      | O => (t, Ok tt)
      | S fuel' =>
          let batch := take redisUsageInboxProcessedBatchSize updates in
          match exec (faults index) t (markBatch now processedAt batch t, tt) with
          | (t, Err e) => (t, Err e)
          | (t, Ok _) =>
              markBatches fuel' faults (S index) now processedAt t
                (drop redisUsageInboxProcessedBatchSize updates)
          end
      end
  end.

Definition MarkRedisUsageInboxProcessedBatch (faults : nat -> option string) (now : Time)
    (t : InboxTable) (updates : list RedisUsageInboxProcessedUpdate) (processedAt : Time)
    : InboxTable * result InboxError unit :=
  markBatches (length updates) faults 0 now processedAt t updates.

Definition setFailed (status : RedisUsageInbox -> InboxStatus) (err : option string)
    (now : Time) (r : RedisUsageInbox) : RedisUsageInbox :=
  mkRedisUsageInbox (inID r) (inSource r) (inMessageHash r) (inRawMessage r)
    (status r) (inAttemptCount r + 1) (boundedRedisUsageInboxError err)
    (inUsageEventKey r) (inPoppedAt r) (inProcessedAt r) (inCreatedAt r)
    (FormatStorageTime local now).

Definition markRedisUsageInboxFailed (fault : option string) (now : Time)
    (t : InboxTable) (id : Z) (status : InboxStatus) (err : option string)
    : InboxTable * result InboxError unit :=
  exec fault t (updateRows [id] (setFailed (fun _ => status) err now) t, tt).

Definition MarkRedisUsageInboxDecodeFailed (fault : option string) (now : Time)
    (t : InboxTable) (id : Z) (decodeErr : option string)
    : InboxTable * result InboxError unit :=
  markRedisUsageInboxFailed fault now t id RedisUsageInboxStatusDecodeFailed decodeErr.

(** CASE WHEN attempt_count + 1 >= 5 THEN discarded ELSE process_failed END. *)
Definition failedStatus (r : RedisUsageInbox) : InboxStatus :=
  if redisUsageInboxMaxProcessAttempts <=? inAttemptCount r + 1
  then RedisUsageInboxStatusDiscarded else RedisUsageInboxStatusProcessFailed.

Definition MarkRedisUsageInboxProcessFailed (fault : option string) (now : Time)
    (t : InboxTable) (id : Z) (processErr : option string)
    : InboxTable * result InboxError unit :=
  exec fault t (updateRows [id] (setFailed failedStatus processErr now) t, tt).

(** redisUsageInboxProcessingColumns: the other fields keep their zero value. *)
Definition processingColumns (r : RedisUsageInbox) : RedisUsageInbox :=
  mkRedisUsageInbox (inID r) (inSource r) EmptyString (inRawMessage r) (inStatus r)
    (inAttemptCount r) EmptyString (inUsageEventKey r) (inPoppedAt r) None
    EmptyString EmptyString.

(** SELECT ... WHERE p ORDER BY id [LIMIT limit]. *)
Definition selectRows (p : RedisUsageInbox -> bool) (limit : Z) (t : InboxTable)
    : list RedisUsageInbox :=
  let rows := filter (fun r => p r = true)
    (omap (fun id => inboxRows t !! id) (seqZ 0 (inboxNextID t))) in
  if 0 <? limit then take (Z.to_nat limit) rows else rows.

Definition processable (r : RedisUsageInbox) : bool :=
  bool_decide (inStatus r = RedisUsageInboxStatusPending)
  || bool_decide (inStatus r = RedisUsageInboxStatusProcessFailed).

Definition pending (r : RedisUsageInbox) : bool :=
  bool_decide (inStatus r = RedisUsageInboxStatusPending).

Definition query {A} (fault : option string) (a : A) : result InboxError A :=
  match fault with Some e => Err (StatementFailed e) | None => Ok a end.

Definition ListProcessableRedisUsageInbox (fault : option string) (t : InboxTable) (limit : Z)
    : result InboxError (list RedisUsageInbox) :=
  query fault (map processingColumns (selectRows processable limit t)).

Definition ListPendingRedisUsageInbox (fault : option string) (t : InboxTable) (limit : Z)
    : result InboxError (list RedisUsageInbox) :=
  query fault (map processingColumns (selectRows pending limit t)).

Definition HasProcessableRedisUsageInbox (fault : option string) (t : InboxTable)
    : result InboxError bool :=
  query fault (match selectRows processable 1 t with [] => false | _ => true end).

(** DELETE ... WHERE p: the rows left and the number deleted. *)
Definition deleteRows (p : RedisUsageInbox -> bool) (t : InboxTable) : InboxTable * Z :=
  let kept := filter (fun kv : Z * RedisUsageInbox => p kv.2 = false) (inboxRows t) in
  (mkInboxTable kept (inboxNextID t),
   Z.of_nat (size (inboxRows t)) - Z.of_nat (size kept)).

Definition processedBefore (cutoff : string) (r : RedisUsageInbox) : bool :=
  bool_decide (inStatus r = RedisUsageInboxStatusProcessed)
  && match inProcessedAt r with Some at_ => string_lt at_ cutoff | None => false end.

Definition failedBefore (cutoff : string) (r : RedisUsageInbox) : bool :=
  (bool_decide (inStatus r = RedisUsageInboxStatusDecodeFailed)
   || bool_decide (inStatus r = RedisUsageInboxStatusProcessFailed)
   || bool_decide (inStatus r = RedisUsageInboxStatusDiscarded))
  && string_lt (inUpdatedAt r) cutoff.

(** The two deletes are separate statements: a failure of the second one keeps
    what the first deleted, and its count, in the result. *)
Definition CleanupRedisUsageInbox (fault1 fault2 : option string) (t : InboxTable) (now : Time)
    : InboxTable * RedisUsageInboxCleanupResult * option InboxError :=
  let localDayStart := day_start local now in
  let processedCutoff := FormatStorageTime local localDayStart in
  let failedCutoff := FormatStorageTime local (AddDate local now 0 0 (-7)) in
  match exec fault1 t (deleteRows (processedBefore processedCutoff) t) with
  | (t, Err e) => (t, mkCleanupResult 0 0, Some e)
  | (t, Ok n) =>
      match exec fault2 t (deleteRows (failedBefore failedCutoff) t) with
      | (t, Err e) => (t, mkCleanupResult n 0, Some e)
      | (t, Ok m) => (t, mkCleanupResult n m, None)
      end
  end.
End Inbox.
