(* ===== verification/InboxFacts.v ===== *)
(** The Redis usage inbox: the life of a row, batch marking, the listings, the
    cleanup, and the stored error text. *)
From S2P Require Import Prelude GoStrings GoTime GoTimeFacts Timeutil TimeutilFacts Inbox.
From Stdlib Require Import Ascii Relations.

Local Open Scope list_scope.
Local Open Scope Z_scope.

(** ** The stored error *)

Lemma string_bytes_roundtrip (l : list ascii) :
  String.list_ascii_of_string (String.string_of_list_ascii l) = l.
Proof. induction l; simpl; congruence. Qed.

Lemma trim_to_valid_take (n : nat) (l : list ascii) : length l = n ->
  exists m, (m <= n)%nat /\ trim_to_valid n l = take m l /\
    valid_bytes (take m l) = true /\
    forall k, (m < k <= n)%nat -> valid_bytes (take k l) = false.
Proof.
  revert l. induction n as [|n IH]; intros l Hl.
  { destruct l; [|done]. exists 0%nat. split_and!; [lia|done|done|lia]. }
  cbn [trim_to_valid]. destruct (valid_bytes l) eqn:V.
  { exists (S n). rewrite take_ge by lia. split_and!; [lia|done|done|lia]. }
  rewrite Hl. replace (S n - 1)%nat with n by lia.
  destruct (IH (take n l)) as (m & H1 & H2 & H3 & H4); [rewrite length_take; lia|].
  rewrite take_take in H2, H3. replace (m `min` n)%nat with m in * by lia.
  exists m. split_and!; [lia|done|done|].
  intros k Hk. destruct (decide (k = S n)) as [->|].
  { by rewrite take_ge by lia. }
  specialize (H4 k ltac:(lia)). by rewrite take_take, Nat.min_l in H4 by lia.
Qed.

(** [m] bytes of a message: the longest valid prefix within the bound. *)
Definition longest_valid (bound m : nat) (l : list ascii) : Prop :=
  (m <= bound)%nat /\ valid_bytes (take m l) = true /\
  forall k, (m < k <= bound)%nat -> valid_bytes (take k l) = false.

(** A stored error is the message itself when it fits in 1024 bytes and
    otherwise its longest prefix within 1024 bytes that is valid UTF-8; of a
    valid message no more than three bytes below the bound are lost. *)
Theorem bounded_error_spec (message : string) :
  let l := String.list_ascii_of_string message in
  let b := String.list_ascii_of_string (boundedRedisUsageInboxError (Some message)) in
  if (length l <=? 1024)%nat then b = l
  else exists m, longest_valid 1024 m l /\ b = take m l /\
         (ValidString message = true -> (1021 <= length b)%nat).
Proof.
  cbv zeta. unfold boundedRedisUsageInboxError, redisUsageInboxMaxErrorLength.
  set (l := String.list_ascii_of_string message).
  destruct (length l <=? 1024)%nat eqn:E; [done|]. apply Nat.leb_gt in E.
  rewrite string_bytes_roundtrip.
  assert (L : length (take 1024 l) = 1024%nat) by (rewrite length_take; lia).
  rewrite L.
  destruct (trim_to_valid_take 1024 (take 1024 l) L) as (m & H1 & H2 & H3 & H4).
  rewrite take_take, Nat.min_l in H2, H3 by lia.
  exists m. rewrite H2. split_and!; [|done|].
  - split_and!; [done|done|]. intros k Hk. specialize (H4 k Hk).
    by rewrite take_take, Nat.min_l in H4 by lia.
  - intros V. destruct (valid_prefix l 1024 V ltac:(lia)) as (p & P1 & P2 & P3).
    rewrite length_take. destruct (Nat.le_gt_cases 1021 m) as [|Lt]; [lia|].
    assert (valid_bytes (take p (take 1024 l)) = false) as F by (apply H4; lia).
    rewrite take_take, Nat.min_l in F by lia. congruence.
Qed.

Lemma bounded_error_length (err : option string) :
  (String.length (boundedRedisUsageInboxError err) <= 1024)%nat.
Proof.
  assert (Len : forall s, String.length s = length (String.list_ascii_of_string s)).
  { intros s. induction s; simpl; congruence. }
  unfold boundedRedisUsageInboxError, redisUsageInboxMaxErrorLength.
  destruct err as [m|]; [|simpl; lia]. rewrite Len.
  destruct (_ <=? _)%nat eqn:E; [by apply Nat.leb_le in E|]. apply Nat.leb_gt in E.
  rewrite string_bytes_roundtrip, length_take, Nat.min_l by lia.
  destruct (trim_to_valid_take 1024 (take 1024 (String.list_ascii_of_string m)))
    as (k & H1 & -> & _); [rewrite length_take; lia|].
  rewrite length_take. lia.
Qed.

(** The variables of one INSERT stay within the limit of SQLite. *)
Lemma insert_batch_size_bound (columns : Z) : 0 < columns <= sqliteVariableLimit ->
  1 <= insertBatchSize columns /\ insertBatchSize columns * columns <= sqliteVariableLimit.
Proof.
  unfold insertBatchSize, sqliteVariableLimit, maxRepositoryInsertBatchSize. intros H.
  destruct (columns <=? 0) eqn:E; [bool_split; lia|].
  rewrite Z.quot_div_nonneg by lia.
  destruct (999 / columns <=? 0) eqn:E'; bool_split;
    pose proof (Z.mul_div_le 999 columns); nia.
Qed.

(** ** Statements on the table *)

Lemma updateRows_lookup (ids : list Z) (f : RedisUsageInbox -> RedisUsageInbox)
    (t : InboxTable) (id : Z) :
  inboxRows (updateRows ids f t) !! id =
  (fun r => if decide (id ∈ ids) then f r else r) <$> inboxRows t !! id.
Proof.
  unfold updateRows. cbn [inboxRows]. rewrite map_lookup_imap.
  destruct (inboxRows t !! id); [|done]. simpl. by case_bool_decide; case_decide.
Qed.

Lemma InboxTable_ext (t t' : InboxTable) :
  inboxNextID t = inboxNextID t' ->
  (forall id, inboxRows t !! id = inboxRows t' !! id) -> t = t'.
Proof.
  destruct t as [m n], t' as [m' n']. cbn [inboxRows inboxNextID]. intros -> H.
  f_equal. by apply map_eq.
Qed.

Lemma deleteRows_lookup (p : RedisUsageInbox -> bool) (t : InboxTable) (id : Z) :
  inboxRows (deleteRows p t).1 !! id =
  match inboxRows t !! id with
  | Some r => if p r then None else Some r
  | None => None
  end.
Proof.
  unfold deleteRows. cbn [fst inboxRows]. destruct (inboxRows t !! id) as [r|] eqn:E.
  - destruct (p r) eqn:P.
    + apply map_lookup_filter_None. right. intros r' H. simpl. congruence.
    + apply map_lookup_filter_Some. done.
  - apply map_lookup_filter_None. by left.
Qed.

(** The count a DELETE reports is the number of rows that match. *)
Lemma deleteRows_count (p : RedisUsageInbox -> bool) (t : InboxTable) :
  (deleteRows p t).2 =
  Z.of_nat (size (filter (fun kv : Z * RedisUsageInbox => p kv.2 = true) (inboxRows t))).
Proof.
  unfold deleteRows. cbn [snd].
  set (F := filter (fun kv : Z * RedisUsageInbox => p kv.2 = false) (inboxRows t)).
  set (T := filter (fun kv : Z * RedisUsageInbox => p kv.2 = true) (inboxRows t)).
  assert (D : F ##ₘ T).
  { apply map_disjoint_spec. intros k x y Hx Hy.
    apply map_lookup_filter_Some in Hx as [Hx Px].
    apply map_lookup_filter_Some in Hy as [Hy Py]. simpl in *. congruence. }
  assert (U : inboxRows t = F ∪ T).
  { apply map_eq. intros id. symmetry. destruct (inboxRows t !! id) as [r|] eqn:E.
    - apply lookup_union_Some; [done|]. destruct (p r) eqn:P; [right|left];
        by apply map_lookup_filter_Some.
    - apply lookup_union_None. split; apply map_lookup_filter_None; by left. }
  rewrite U at 1. rewrite map_size_disj_union by done. lia.
Qed.

Definition terminal (r : RedisUsageInbox) : bool := negb (processable r).

Section InboxFacts.
Context (local : Location) (sha256hex : string -> string).

(** A row agrees with its status: how often it failed, whether it was finished,
    and with which key. *)
Definition row_ok (r : RedisUsageInbox) : Prop :=
  (String.length (inLastError r) <= 1024)%nat /\
  match inStatus r with
  | RedisUsageInboxStatusPending =>
      inAttemptCount r = 0 /\ inLastError r = EmptyString /\ inProcessedAt r = None /\
      inUsageEventKey r = EmptyString
  | RedisUsageInboxStatusProcessed =>
      0 <= inAttemptCount r < redisUsageInboxMaxProcessAttempts /\
      inLastError r = EmptyString /\ inProcessedAt r <> None
  | RedisUsageInboxStatusDecodeFailed =>
      1 <= inAttemptCount r <= redisUsageInboxMaxProcessAttempts /\ inProcessedAt r = None
  | RedisUsageInboxStatusProcessFailed =>
      1 <= inAttemptCount r < redisUsageInboxMaxProcessAttempts /\ inProcessedAt r = None
  | RedisUsageInboxStatusDiscarded =>
      inAttemptCount r = redisUsageInboxMaxProcessAttempts /\ inProcessedAt r = None
  end.

Definition table_ok (t : InboxTable) : Prop :=
  1 <= inboxNextID t /\
  forall id r, inboxRows t !! id = Some r -> inID r = id /\ 1 <= id < inboxNextID t /\ row_ok r.

Definition empty_inbox : InboxTable := mkInboxTable ∅ 1.

(** A statement that marks the rows [ids] is issued for rows that a listing of
    processable rows returned. *)
Definition marks (t : InboxTable) (ids : list Z) : Prop :=
  forall id r, id ∈ ids -> inboxRows t !! id = Some r -> processable r = true.

Inductive inbox_step (t : InboxTable) : InboxTable -> Prop :=
| step_insert fault now inputs :
    inbox_step t (InsertRedisUsageInboxMessages local sha256hex fault now t inputs).1
| step_processed fault now id key at_ :
    marks t [id] ->
    inbox_step t (MarkRedisUsageInboxProcessed local fault now t id key at_).1
| step_batch faults now updates at_ :
    marks t (map updID updates) ->
    inbox_step t (MarkRedisUsageInboxProcessedBatch local faults now t updates at_).1
| step_decode_failed fault now id err :
    marks t [id] ->
    inbox_step t (MarkRedisUsageInboxDecodeFailed local fault now t id err).1
| step_process_failed fault now id err :
    marks t [id] ->
    inbox_step t (MarkRedisUsageInboxProcessFailed local fault now t id err).1
| step_cleanup fault1 fault2 now :
    inbox_step t (CleanupRedisUsageInbox local fault1 fault2 t now).1.1.

Definition inbox_reaches : InboxTable -> InboxTable -> Prop := clos_refl_trans_1n _ inbox_step.

(** What any step can do to the rows: terminal rows stay as they are or go, and
    the keys of new rows are new. *)
Definition evolves (t t' : InboxTable) : Prop :=
  inboxNextID t <= inboxNextID t' /\
  forall id, match inboxRows t !! id with
    | Some r =>
        inboxRows t' !! id = None \/
        exists r', inboxRows t' !! id = Some r' /\ inID r' = inID r /\
          (terminal r = true -> r' = r) /\ (row_ok r -> row_ok r')
    | None =>
        inboxRows t' !! id = None \/
        exists r', inboxRows t' !! id = Some r' /\ inID r' = id /\ row_ok r' /\
          inboxNextID t <= id < inboxNextID t'
    end.

Lemma evolves_refl (t : InboxTable) : evolves t t.
Proof.
  split; [lia|]. intros id. destruct (inboxRows t !! id) eqn:E; [right; eauto 10|by left].
Qed.

Lemma evolves_update (ids : list Z) (f : RedisUsageInbox -> RedisUsageInbox) (t : InboxTable) :
  marks t ids ->
  (forall r, inID (f r) = inID r) ->
  (forall r, processable r = true -> row_ok r -> row_ok (f r)) ->
  evolves t (updateRows ids f t).
Proof.
  intros M I R. split; [done|]. intros id. rewrite updateRows_lookup.
  destruct (inboxRows t !! id) as [r|] eqn:E; [|by left]. right. simpl.
  eexists. split; [done|]. case_decide as D; [|done].
  pose proof (M _ _ D E) as P. split_and!; [done| |auto].
  unfold terminal. rewrite P. done.
Qed.

Lemma evolves_delete (p : RedisUsageInbox -> bool) (t : InboxTable) :
  evolves t (deleteRows p t).1.
Proof.
  split; [done|]. intros id. rewrite deleteRows_lookup.
  destruct (inboxRows t !! id) as [r|] eqn:E; [|by left].
  destruct (p r); [by left|]. right. eauto 10.
Qed.

Lemma processable_cases (r : RedisUsageInbox) : processable r = true ->
  inStatus r = RedisUsageInboxStatusPending \/ inStatus r = RedisUsageInboxStatusProcessFailed.
Proof. unfold processable. intros H. bool_split; auto. Qed.

Lemma setProcessed_ok (key : string) (at_ now : Time) (r : RedisUsageInbox) :
  processable r = true -> row_ok r -> row_ok (setProcessed local key at_ now r).
Proof.
  intros P [_ H]. split; [simpl; lia|]. unfold redisUsageInboxMaxProcessAttempts in *.
  destruct (processable_cases r P) as [E|E]; rewrite E in H; simpl;
    split_and!; done || lia.
Qed.

Lemma setFailed_ok (status : RedisUsageInbox -> InboxStatus) (err : option string) (now : Time)
    (r : RedisUsageInbox) :
  (status = fun _ => RedisUsageInboxStatusDecodeFailed) \/ status = failedStatus ->
  processable r = true -> row_ok r -> row_ok (setFailed local status err now r).
Proof.
  intros S P [_ H]. split; [apply bounded_error_length|].
  cbn [setFailed inStatus inAttemptCount inProcessedAt inLastError inUsageEventKey].
  unfold redisUsageInboxMaxProcessAttempts in *.
  destruct S as [-> | ->]; [|unfold failedStatus, redisUsageInboxMaxProcessAttempts;
    destruct (5 <=? _) eqn:E5; bool_split];
  destruct (processable_cases r P) as [E|E]; rewrite E in H; destruct H as (? & ?);
    split_and!; try done; try lia; tauto.
Qed.

Lemma setProcessed_twice (k1 k2 : string) (at_ now : Time) (r : RedisUsageInbox) :
  setProcessed local k2 at_ now (setProcessed local k1 at_ now r) = setProcessed local k2 at_ now r.
Proof. reflexivity. Qed.

Lemma markBatches_next fuel faults index now at_ t updates :
  inboxNextID (markBatches local fuel faults index now at_ t updates).1 = inboxNextID t.
Proof.
  revert index t updates. induction fuel as [|fuel IH]; intros index t [|u us]; try done.
  cbn [markBatches]. destruct (faults index) eqn:F; cbn [exec]; [done|].
  cbn [fst snd]. by rewrite IH.
Qed.

Lemma markBatches_lookup fuel faults index now at_ t updates id :
  match inboxRows t !! id with
  | None => inboxRows (markBatches local fuel faults index now at_ t updates).1 !! id = None
  | Some r => exists r',
      inboxRows (markBatches local fuel faults index now at_ t updates).1 !! id = Some r' /\
      (r' = r \/ id ∈ map updID updates /\ exists key, r' = setProcessed local key at_ now r)
  end.
Proof.
  revert index t updates. induction fuel as [|fuel IH]; intros index t [|u us];
    try solve [cbn [markBatches fst]; destruct (inboxRows t !! id); eauto].
  cbn [markBatches]. destruct (faults index) eqn:F; cbn [exec fst snd].
  { destruct (inboxRows t !! id); eauto. }
  set (batch := take _ (u :: us)). set (rest := drop _ (u :: us)).
  specialize (IH (S index) (markBatch local now at_ batch t) rest).
  unfold markBatch in IH at 1. rewrite updateRows_lookup in IH.
  destruct (inboxRows t !! id) as [r|] eqn:E; [|done]. simpl in IH.
  destruct IH as (r' & L & IH). exists r'. split; [exact L|].
  assert (Sub : forall l, l = batch \/ l = rest -> id ∈ map updID l -> id ∈ map updID (u :: us)).
  { intros l Hl Hin. rewrite <- (take_drop redisUsageInboxProcessedBatchSize (u :: us)), map_app.
    apply elem_of_app. destruct Hl as [-> | ->]; auto. }
  case_decide as D; destruct IH as [-> | (Hin & key & ->)]; eauto 6.
Qed.

(** One row as an INSERT writes it. *)
Definition created (now : Time) (id : Z) (r : RedisUsageInbox) : RedisUsageInbox :=
  (createRow local now (mkInboxTable ∅ id) r).2.

Lemma createRows_spec (now : Time) (rows : list RedisUsageInbox) (t : InboxTable) :
  let '(t', rs) := createRows local now t rows in
  inboxNextID t' = inboxNextID t + Z.of_nat (length rows) /\
  rs = imap (fun i r => created now (inboxNextID t + Z.of_nat i) r) rows /\
  forall id, inboxRows t' !! id =
    if decide (inboxNextID t <= id < inboxNextID t + Z.of_nat (length rows))
    then rs !! Z.to_nat (id - inboxNextID t) else inboxRows t !! id.
Proof.
  revert t. induction rows as [|r rows IH]; intros t.
  { simpl. split_and!; [lia|done|]. intros id. case_decide; [lia|done]. }
  cbn [createRows]. unfold createRow at 1. cbv zeta.
  set (t1 := mkInboxTable _ _). specialize (IH t1).
  destruct (createRows local now t1 rows) as [t' rs]. destruct IH as (H1 & H2 & H3).
  cbn [inboxNextID t1] in H1, H2, H3. split_and!.
  - rewrite H1. cbn [length]. lia.
  - rewrite imap_cons. f_equal; [unfold created, createRow; cbn [inboxNextID snd];
      by rewrite Z.add_0_r|].
    rewrite H2. apply imap_ext. intros i x _. cbn. f_equal. lia.
  - intros id. rewrite H3. cbn [length].
    destruct (decide (id = inboxNextID t)) as [->|Ne].
    + rewrite decide_False by lia. rewrite decide_True by lia.
      replace (inboxNextID t - inboxNextID t) with 0 by lia. simpl. by rewrite lookup_insert_eq.
    + destruct (decide (inboxNextID t + 1 <= id < inboxNextID t + 1 + Z.of_nat (length rows))).
      * rewrite decide_True by lia.
        replace (Z.to_nat (id - inboxNextID t)) with (S (Z.to_nat (id - (inboxNextID t + 1)))) by lia.
        done.
      * rewrite decide_False by lia. cbn [inboxRows t1]. by rewrite lookup_insert_ne by done.
Qed.

Lemma created_new_ok (now : Time) (id : Z) (input : RedisInboxInsert) :
  row_ok (created now id (newInboxRow local sha256hex input)).
Proof. split; simpl; [lia|done]. Qed.

Lemma insert_cases fault now t inputs :
  let '(t', res) := InsertRedisUsageInboxMessages local sha256hex fault now t inputs in
  (t' = t /\ (is_ok res = true -> inputs = [])) \/
  (fault = None /\ existsb (fun input => IsZero (insPoppedAt input)) inputs = false /\
   createRows local now t (map (newInboxRow local sha256hex) inputs) = (t', default [] (match res with Ok l => Some l | Err _ => None end)) /\
   is_ok res = true).
Proof.
  unfold InsertRedisUsageInboxMessages. destruct inputs as [|i rest]; [by left|].
  destruct (existsb _ _) eqn:X; [by left|]. unfold exec. destruct fault; [by left|].
  right. split_and!; try done. simpl. by destruct (createRows _ _ _ _).
Qed.

Lemma insert_evolves fault now t inputs : table_ok t ->
  evolves t (InsertRedisUsageInboxMessages local sha256hex fault now t inputs).1.
Proof.
  intros [N T]. pose proof (insert_cases fault now t inputs) as C.
  destruct (InsertRedisUsageInboxMessages _ _ _ _ _ _) as [t' res]. cbn [fst].
  destruct C as [[-> _]|(_ & _ & C & _)]; [apply evolves_refl|].
  pose proof (createRows_spec now (map (newInboxRow local sha256hex) inputs) t) as S.
  rewrite C in S. destruct S as (S1 & S2 & S3). split; [lia|]. intros id. rewrite S3.
  destruct (inboxRows t !! id) as [r|] eqn:E.
  { destruct (T _ _ E) as (_ & B & _). rewrite decide_False by lia. right. eauto 10. }
  case_decide as D; [right|by left]. rewrite S2, list_lookup_imap, list_lookup_fmap.
  destruct (inputs !! Z.to_nat (id - inboxNextID t)) as [input|] eqn:L.
  2: { apply lookup_ge_None in L. rewrite length_map in D. lia. }
  simpl. eexists. split_and!; [done| |apply created_new_ok|lia|lia].
  cbn. lia.
Qed.

Lemma step_evolves t t' : table_ok t -> inbox_step t t' -> evolves t t'.
Proof.
  intros T S. destruct S as [fault now inputs|fault now id key at_ M|faults now updates at_ M
    |fault now id err M|fault now id err M|fault1 fault2 now].
  - by apply insert_evolves.
  - unfold MarkRedisUsageInboxProcessed, exec. destruct fault; [apply evolves_refl|].
    apply evolves_update; [done|done|]. intros. by apply setProcessed_ok.
  - unfold MarkRedisUsageInboxProcessedBatch. split; [by rewrite markBatches_next|].
    intros id. pose proof (markBatches_lookup (length updates) faults 0 now at_ t updates id) as L.
    destruct (inboxRows t !! id) as [r|] eqn:E; [|by left]. right.
    destruct L as (r' & L & C). exists r'. split; [done|].
    destruct C as [->|(Hin & key & ->)]; [done|]. pose proof (M _ _ Hin E) as P.
    split_and!; [done| |intros; by apply setProcessed_ok]. unfold terminal. by rewrite P.
  - unfold MarkRedisUsageInboxDecodeFailed, markRedisUsageInboxFailed, exec.
    destruct fault; [apply evolves_refl|]. apply evolves_update; [done|done|].
    intros. apply setFailed_ok; auto.
  - unfold MarkRedisUsageInboxProcessFailed, exec.
    destruct fault; [apply evolves_refl|]. apply evolves_update; [done|done|].
    intros. apply setFailed_ok; auto.
  - unfold CleanupRedisUsageInbox, exec.
    destruct fault1; [apply evolves_refl|]. cbn [fst snd].
    destruct fault2; [apply evolves_delete|]. cbn [fst snd].
    split; [done|]. intros id. rewrite !deleteRows_lookup.
    destruct (inboxRows t !! id) as [r|]; [|by left].
    destruct (processedBefore _ r); [by left|].
    destruct (failedBefore _ r); [by left|]. right. eauto 10.
Qed.

Lemma evolves_ok t t' : table_ok t -> evolves t t' -> table_ok t'.
Proof.
  intros [N T] [N' Ev]. split; [lia|]. intros id r' L. specialize (Ev id).
  destruct (inboxRows t !! id) as [r|] eqn:E.
  - destruct (T _ _ E) as (H1 & H2 & H3).
    destruct Ev as [Ev|(r2 & Ev & I & _ & R)]; [congruence|].
    assert (r2 = r') as <- by congruence. split_and!; [congruence|lia|lia|auto].
  - destruct Ev as [Ev|(r2 & Ev & I & R & B)]; [congruence|].
    assert (r2 = r') as <- by congruence. split_and!; [done|lia|lia|done].
Qed.

Lemma reaches_ok t t' : table_ok t -> inbox_reaches t t' -> table_ok t'.
Proof.
  intros T H. induction H as [|t u v S _ IH]; [done|]. apply IH.
  eapply evolves_ok; [done|]. by apply step_evolves.
Qed.

Lemma empty_inbox_ok : table_ok empty_inbox.
Proof. split; [done|]. intros id r. simpl. by rewrite lookup_empty. Qed.

(** C27: whatever the statements, failures of the database and cleanups, every
    row agrees with its status: a pending row never failed, a row to retry
    failed one to four times, a discarded row exactly five times, a processed
    row has its time and no error; keys are unique and below the next one. *)
Theorem inbox_rows_ok (t : InboxTable) : inbox_reaches empty_inbox t -> table_ok t.
Proof. apply reaches_ok, empty_inbox_ok. Qed.

(** A row that is processed, discarded or undecodable never changes again
    and its key is never given to another row: as long as it is there, it is the
    same row. *)
Theorem terminal_row_final (t t' : InboxTable) (id : Z) (r r' : RedisUsageInbox) :
  inbox_reaches empty_inbox t -> inboxRows t !! id = Some r -> terminal r = true ->
  inbox_reaches t t' -> inboxRows t' !! id = Some r' -> r' = r.
Proof.
  intros R0 L T R. pose proof (reaches_ok _ _ empty_inbox_ok R0) as Tok. clear R0.
  assert (G : inboxRows t !! id = Some r \/ inboxRows t !! id = None /\ id < inboxNextID t).
  { by left. } clear L. revert r' G.
  induction R as [|t u v S _ IH]; intros r' G L'.
  { destruct G as [G|[G _]]; congruence. }
  pose proof (step_evolves _ _ Tok S) as Ev. apply (IH (evolves_ok _ _ Tok Ev)); [|done].
  destruct Ev as [N Ev]. specialize (Ev id). destruct Tok as [_ Tok].
  destruct G as [G|[G B]]; rewrite G in Ev.
  - destruct (Tok _ _ G) as (_ & B & _).
    destruct Ev as [Ev|(r2 & Ev & _ & F & _)]; [right; split; [done|lia]|].
    left. rewrite Ev. by rewrite F.
  - right. destruct Ev as [Ev|(r2 & _ & _ & _ & B2)]; [split; [done|lia]|lia].
Qed.

(** ** Listings *)

Lemma seqZ_filter_lookup (t : InboxTable) (p : RedisUsageInbox -> bool) (r : RedisUsageInbox) :
  r ∈ selectRows p 0 t <->
  p r = true /\ exists id, 0 <= id < inboxNextID t /\ inboxRows t !! id = Some r.
Proof.
  unfold selectRows. cbn [Z.ltb Z.compare]. rewrite list_elem_of_filter, list_elem_of_omap.
  split; intros [P (id & H & L)]; split; try done; exists id; split; try done;
    by apply elem_of_seqZ in H || (apply elem_of_seqZ; lia).
Qed.

Lemma select_sorted_aux (t : InboxTable) (p : RedisUsageInbox -> bool) (n : nat) (a : Z) :
  (forall id r, inboxRows t !! id = Some r -> inID r = id) ->
  StronglySorted (fun r s => inID r < inID s)
    (filter (fun r => p r = true) (omap (fun id => inboxRows t !! id) (seqZ a (Z.of_nat n)))) /\
  Forall (fun r => a <= inID r)
    (filter (fun r => p r = true) (omap (fun id => inboxRows t !! id) (seqZ a (Z.of_nat n)))).
Proof.
  intros K. revert a. induction n as [|n IH]; intros a; [by split; constructor|].
  rewrite seqZ_cons by lia. replace (Z.pred (Z.of_nat (S n))) with (Z.of_nat n) by lia.
  destruct (IH (Z.succ a)) as [S F]. cbn [omap list_omap].
  assert (F' : Forall (fun r => a <= inID r)
    (filter (fun r => p r = true) (omap (fun id => inboxRows t !! id) (seqZ (Z.succ a) (Z.of_nat n))))).
  { eapply Forall_impl; [exact F|]. simpl. lia. }
  destruct (inboxRows t !! a) as [r|] eqn:L; [|done].
  rewrite filter_cons. case_decide; [|done]. apply K in L. split.
  - constructor; [done|]. eapply Forall_impl; [exact F|]. simpl. lia.
  - constructor; [lia|done].
Qed.

Lemma StronglySorted_take {A} (R : A -> A -> Prop) (n : nat) (l : list A) :
  StronglySorted R l -> StronglySorted R (take n l).
Proof.
  intros H. revert n. induction H as [|a l _ IH F]; intros [|n]; try constructor; [apply IH|].
  by apply Forall_take.
Qed.

Lemma selectRows_take (p : RedisUsageInbox -> bool) (limit : Z) (t : InboxTable) :
  selectRows p limit t =
  if 0 <? limit then take (Z.to_nat limit) (selectRows p 0 t) else selectRows p 0 t.
Proof. reflexivity. Qed.

(** A listing returns the oldest rows that can be processed, in the order
    they were inserted, each once, without any that is finished; it returns all
    of them without a limit, and it is empty exactly when the check for
    processable rows answers no. *)
Theorem list_processable_spec (t : InboxTable) (limit : Z) (rows : list RedisUsageInbox) :
  inbox_reaches empty_inbox t ->
  ListProcessableRedisUsageInbox None t limit = Ok rows ->
  exists all, rows = (if 0 <? limit then take (Z.to_nat limit) all else all) /\
    StronglySorted (fun r s => inID r < inID s) all /\
    (forall r, r ∈ all <-> exists id row, inboxRows t !! id = Some row /\
       processable row = true /\ r = processingColumns row) /\
    HasProcessableRedisUsageInbox None t = Ok (negb (length rows =? 0)%nat).
Proof.
  intros R. destruct (reaches_ok _ _ empty_inbox_ok R) as [N T].
  unfold ListProcessableRedisUsageInbox, HasProcessableRedisUsageInbox, query.
  intros H. apply Ok_inj in H. rewrite selectRows_take in H.
  exists (map processingColumns (selectRows processable 0 t)).
  split_and!.
  - rewrite <- H. destruct (0 <? limit); [|done]. by rewrite <- firstn_map.
  - destruct (select_sorted_aux t processable (Z.to_nat (inboxNextID t)) 0) as [S _].
    { intros id r L. by apply T in L as [? _]. }
    rewrite Z2Nat.id in S by lia. unfold selectRows. cbn [Z.ltb Z.compare].
    induction S as [|r l _ IH F]; [constructor|]. cbn [map]. constructor; [done|].
    by apply Forall_map.
  - intros r. rewrite list_elem_of_fmap. split.
    + intros (row & -> & (P & id & _ & L)%seqZ_filter_lookup). eauto.
    + intros (id & row & L & P & ->). exists row. split; [done|].
      apply seqZ_filter_lookup. split; [done|]. exists id. split; [|done].
      apply T in L. lia.
  - rewrite <- H. f_equal. rewrite length_map, selectRows_take.
    change (0 <? 1) with true. cbv iota. change (Z.to_nat 1) with 1%nat.
    destruct (selectRows processable 0 t) as [|r l]; [destruct (0 <? limit); by rewrite ?take_nil|].
    destruct (0 <? limit) eqn:E; [|done]. bool_split.
    by destruct (Z.to_nat limit) eqn:E'; [lia|].
Qed.

Lemma omap_seqZ_lookup {A} (f : Z -> option A) (l : list A) (a : Z) :
  (forall i x, l !! i = Some x -> f (a + Z.of_nat i) = Some x) ->
  omap f (seqZ a (Z.of_nat (length l))) = l.
Proof.
  revert a. induction l as [|x l IH]; intros a H; [done|].
  cbn [length]. rewrite seqZ_cons by lia.
  replace (Z.pred (Z.of_nat (S (length l)))) with (Z.of_nat (length l)) by lia.
  cbn [omap list_omap]. pose proof (H 0%nat x eq_refl) as H0.
  rewrite Z.add_0_r in H0. rewrite H0. f_equal. apply IH.
  intros i y L. rewrite <- (H (S i) y L). f_equal. lia.
Qed.

(** An insert that succeeds hands out the next keys in the order of the
    messages, appends them as pending rows behind the rows that were waiting,
    and one that fails leaves the table as it was. *)
Theorem insert_appends (t : InboxTable) fault now inputs :
  inbox_reaches empty_inbox t ->
  let '(t', res) := InsertRedisUsageInboxMessages local sha256hex fault now t inputs in
  match res with
  | Err _ => t' = t
  | Ok rows =>
      rows = imap (fun i input => created now (inboxNextID t + Z.of_nat i)
                                    (newInboxRow local sha256hex input)) inputs /\
      selectRows processable 0 t' = selectRows processable 0 t ++ rows
  end.
Proof.
  intros R. destruct (reaches_ok _ _ empty_inbox_ok R) as [N T]. clear R.
  pose proof (insert_cases fault now t inputs) as C.
  destruct (InsertRedisUsageInboxMessages local sha256hex fault now t inputs) as [t' res] eqn:I.
  destruct C as [[-> C]|(_ & _ & C & Hok)].
  { destruct res; [|done]. rewrite (C eq_refl) in *. injection I as <-. split; [done|].
    by rewrite app_nil_r. }
  destruct res as [rows|]; [|done]. cbn [default id] in C. clear I Hok.
  pose proof (createRows_spec now (map (newInboxRow local sha256hex) inputs) t) as S.
  rewrite C in S. destruct S as (S1 & S2 & S3). rewrite length_map in *.
  rewrite imap_fmap in S2. split; [exact S2|].
  assert (Len : length rows = length inputs) by (rewrite S2; apply length_imap).
  unfold selectRows. cbn [Z.ltb Z.compare]. rewrite S1.
  rewrite seqZ_app, omap_app, filter_app by lia. f_equal.
  - f_equal. apply list_omap_ext. apply Forall2_same_length_lookup. split; [done|].
    intros i x y Hx Hy. assert (x = y) as <- by congruence.
    apply lookup_seqZ in Hx as [-> Hi]. rewrite S3, decide_False by lia. done.
  - rewrite Z.add_0_l, <- Len. rewrite omap_seqZ_lookup with (l := rows).
    + apply filter_all. intros r Hr.
      rewrite S2 in Hr. apply elem_of_lookup_imap in Hr as (i & input & -> & _). done.
    + intros i r L. rewrite S3, decide_True.
      * rewrite <- L. f_equal. lia.
      * apply lookup_lt_Some in L. lia.
Qed.

(** ** Batches *)

Definition markOne (now at_ : Time) (t : InboxTable) (u : RedisUsageInboxProcessedUpdate)
    : InboxTable :=
  (MarkRedisUsageInboxProcessed local None now t (updID u) (updEventKey u) at_).1.

Definition keys_ok (t : InboxTable) : Prop :=
  forall id r, inboxRows t !! id = Some r -> inID r = id.

Lemma markOne_lookup now at_ t u id :
  inboxRows (markOne now at_ t u) !! id =
  (fun r => if decide (id = updID u) then setProcessed local (updEventKey u) at_ now r else r)
    <$> inboxRows t !! id.
Proof.
  unfold markOne, MarkRedisUsageInboxProcessed, exec. cbn [fst].
  rewrite updateRows_lookup. destruct (inboxRows t !! id); [|done]. simpl. f_equal.
  destruct (decide (id = updID u)) as [->|Ne].
  - rewrite decide_True by (by apply list_elem_of_singleton). done.
  - rewrite decide_False by (intros ?%list_elem_of_singleton; done). done.
Qed.

Lemma markOne_keys_ok now at_ u t : keys_ok t -> keys_ok (markOne now at_ t u).
Proof.
  intros K i r L. rewrite markOne_lookup in L.
  destruct (inboxRows t !! i) as [r0|] eqn:E; [|done]. apply K in E.
  apply fmap_Some in L as (r1 & [= <-] & ->). by case_decide.
Qed.

Lemma marked_lookup now at_ (us : list RedisUsageInboxProcessedUpdate) t id :
  NoDup (map updID us) -> keys_ok t ->
  inboxRows (foldl (markOne now at_) t us) !! id =
  (fun r => if decide (id ∈ map updID us)
            then setProcessed local (eventKeyCase us id (inUsageEventKey r)) at_ now r else r)
    <$> inboxRows t !! id.
Proof.
  revert t. induction us as [|u us IH]; intros t ND K.
  { simpl. by destruct (inboxRows t !! id). }
  apply NoDup_cons in ND as [Nin ND].
  cbn [foldl map eventKeyCase]. rewrite IH; [|done|].
  2: by apply markOne_keys_ok.
  rewrite markOne_lookup. destruct (inboxRows t !! id) as [r|] eqn:E; [|done]. simpl. f_equal.
  destruct (decide (id = updID u)) as [->|Ne].
  - rewrite decide_False by done. rewrite decide_True by left.
    by rewrite Z.eqb_refl.
  - destruct (updID u =? id) eqn:Eq; [bool_split; congruence|].
    destruct (decide (id ∈ map updID us)).
    + by rewrite decide_True by (by right).
    + rewrite decide_False; [done|]. by intros [?|?]%elem_of_cons.
Qed.

Lemma markBatch_fold now at_ (us : list RedisUsageInboxProcessedUpdate) t :
  NoDup (map updID us) -> keys_ok t ->
  markBatch local now at_ us t = foldl (markOne now at_) t us.
Proof.
  intros ND K. apply InboxTable_ext.
  - clear K ND. revert t. induction us as [|u us IH]; intros t; [done|].
    cbn [foldl]. rewrite <- IH. done.
  - intros id. rewrite marked_lookup by done. unfold markBatch. rewrite updateRows_lookup.
    destruct (inboxRows t !! id) as [r|] eqn:E; [|done]. simpl. by rewrite (K _ _ E).
Qed.

Lemma markOne_keys now at_ (us : list RedisUsageInboxProcessedUpdate) t :
  keys_ok t -> keys_ok (foldl (markOne now at_) t us).
Proof.
  revert t. induction us as [|u us IH]; intros t K; [done|]. by apply IH, markOne_keys_ok.
Qed.

(** The outcome of the statements: the number of batches that succeed, and the
    error that stops the loop, if any. *)
Fixpoint batches_done (faults : nat -> option string) (index batches : nat) : nat * option string :=
  match batches with
  | O => (0%nat, None)
  | S n => match faults index with
           | Some e => (0%nat, Some e)
           | None => let '(k, e) := batches_done faults (S index) n in (S k, e)
           end
  end.

Definition batch_count (n : nat) : nat :=
  ((n + redisUsageInboxProcessedBatchSize - 1) / redisUsageInboxProcessedBatchSize)%nat.

Lemma batch_count_step (n : nat) : (0 < n)%nat ->
  batch_count n = S (batch_count (n - redisUsageInboxProcessedBatchSize)).
Proof.
  unfold batch_count, redisUsageInboxProcessedBatchSize. intros H.
  destruct (Nat.le_gt_cases n 300) as [L|L].
  - replace (n - 300)%nat with 0%nat by lia.
    change ((0 + 300 - 1) / 300)%nat with 0%nat. symmetry.
    apply (Nat.div_unique _ _ 1 (n - 1)); lia.
  - replace (n + 300 - 1)%nat with ((n - 300 + 300 - 1) + 1 * 300)%nat by lia.
    rewrite Nat.div_add by lia. lia.
Qed.

Lemma batches_done_all faults index n k :
  batches_done faults index n = (k, None) -> k = n.
Proof.
  revert index k. induction n as [|n IH]; intros index k; [by intros [= <-]|].
  cbn [batches_done]. destruct (faults index); [done|].
  destruct (batches_done faults (S index) n) as [j e] eqn:E. intros [= <- ->].
  f_equal. by eapply IH.
Qed.

Lemma batch_count_covers (n : nat) : (n <= batch_count n * redisUsageInboxProcessedBatchSize)%nat.
Proof.
  unfold batch_count, redisUsageInboxProcessedBatchSize.
  pose proof (Nat.div_mod (n + 300 - 1) 300 ltac:(done)).
  pose proof (Nat.mod_upper_bound (n + 300 - 1) 300 ltac:(done)). lia.
Qed.

Lemma markBatches_spec fuel faults index now at_ t us :
  (length us <= fuel)%nat -> NoDup (map updID us) -> keys_ok t ->
  markBatches local fuel faults index now at_ t us =
  (let '(k, e) := batches_done faults index (batch_count (length us)) in
   (foldl (markOne now at_) t (take (k * redisUsageInboxProcessedBatchSize) us),
    match e with Some m => Err (StatementFailed m) | None => Ok tt end)).
Proof.
  revert index t us. induction fuel as [|fuel IH]; intros index t us Hf ND K.
  { destruct us; [done|simpl in Hf; lia]. }
  destruct us as [|u us]; [done|].
  rewrite batch_count_step by (cbn [length]; lia). cbn [batches_done markBatches].
  destruct (faults index) as [e|] eqn:F; cbn [exec fst snd]; [done|].
  set (l := u :: us) in *.
  assert (ND' := ND). rewrite <- (take_drop redisUsageInboxProcessedBatchSize l), map_app in ND'.
  apply NoDup_app in ND' as (ND1 & _ & ND2).
  rewrite markBatch_fold by done. rewrite IH.
  - rewrite length_drop. destruct (batches_done _ _ _) as [k e]. f_equal.
    rewrite <- foldl_app. f_equal.
    replace (S k * redisUsageInboxProcessedBatchSize)%nat
      with (redisUsageInboxProcessedBatchSize + k * redisUsageInboxProcessedBatchSize)%nat
      by (rewrite Nat.mul_succ_l; lia).
    by rewrite <- take_take_drop.
  - rewrite length_drop. unfold l, redisUsageInboxProcessedBatchSize in *. cbn [length] in *. lia.
  - done.
  - by apply markOne_keys.
Qed.

(** Marking a batch of different rows is marking them one by one with
    their own keys, whatever the split in statements of 300 rows: when a
    statement fails, the rows of the statements before it are marked, the others
    are as they were, and the error is returned. *)
Theorem mark_batch_is_marking_each (t : InboxTable) faults now at_ updates :
  inbox_reaches empty_inbox t -> NoDup (map updID updates) ->
  MarkRedisUsageInboxProcessedBatch local faults now t updates at_ =
  (let '(k, e) := batches_done faults 0 (batch_count (length updates)) in
   (foldl (markOne now at_) t (take (k * redisUsageInboxProcessedBatchSize) updates),
    match e with Some m => Err (StatementFailed m) | None => Ok tt end)).
Proof.
  intros R ND. apply markBatches_spec; [done|done|].
  intros id r L. by apply (reaches_ok _ _ empty_inbox_ok R) in L as [? _].
Qed.

(** ** Retries *)

Definition failOnce (id : Z) (t : InboxTable) (e : Time * option string) : InboxTable :=
  (MarkRedisUsageInboxProcessFailed local None e.1 t id e.2).1.

Definition status_after (n : nat) : InboxStatus :=
  match n with
  | 0%nat => RedisUsageInboxStatusPending
  | 1%nat | 2%nat | 3%nat | 4%nat => RedisUsageInboxStatusProcessFailed
  | _ => RedisUsageInboxStatusDiscarded
  end.

Lemma failOnce_lookup id t e r : inboxRows t !! id = Some r ->
  inboxRows (failOnce id t e) !! id = Some (setFailed local failedStatus e.2 e.1 r).
Proof.
  intros L. unfold failOnce, MarkRedisUsageInboxProcessFailed, exec. cbn [fst].
  rewrite updateRows_lookup, L. cbn. by rewrite decide_True by (by apply list_elem_of_singleton).
Qed.

(** C33: a waiting message whose processing keeps failing is offered again
    until its fifth failure, which discards it; the row counts the failures,
    keeps the message and the last error. *)
Theorem discarded_after_five_failures (t : InboxTable) (id : Z) (r : RedisUsageInbox)
    (errs : list (Time * option string)) :
  inbox_reaches empty_inbox t -> inboxRows t !! id = Some r ->
  inStatus r = RedisUsageInboxStatusPending ->
  exists r', inboxRows (foldl (failOnce id) t errs) !! id = Some r' /\
    inRawMessage r' = inRawMessage r /\
    inAttemptCount r' = Z.of_nat (length errs) /\
    inStatus r' = status_after (length errs) /\
    (processable r' = true <-> (length errs < 5)%nat) /\
    inLastError r' = match last errs with
                     | Some e => boundedRedisUsageInboxError e.2
                     | None => EmptyString end.
Proof.
  intros R L P. apply (reaches_ok _ _ empty_inbox_ok R) in L as G.
  destruct G as (_ & _ & _ & G). rewrite P in G. destruct G as (A & E & _).
  assert (Q : forall n r', inStatus r' = status_after n ->
    (processable r' = true <-> (n < 5)%nat)).
  { intros n r' S. unfold processable. rewrite S.
    do 5 (destruct n as [|n]; [split; [lia|done]|]). split; [done|lia]. }
  enough (exists r', inboxRows (foldl (failOnce id) t errs) !! id = Some r' /\
    inRawMessage r' = inRawMessage r /\
    inAttemptCount r' = Z.of_nat (length errs) /\ inStatus r' = status_after (length errs) /\
    inLastError r' = match last errs with
                     | Some e => boundedRedisUsageInboxError e.2 | None => EmptyString end)
    as (r' & ? & ? & ? & ? & ?) by (exists r'; split_and!; auto; by apply Q).
  induction errs as [|e errs IH] using rev_ind; [eauto 10|].
  destruct IH as (r' & L' & M' & A' & S' & _).
  rewrite foldl_snoc, last_snoc, length_app. eexists. split; [by apply failOnce_lookup|].
  cbn [setFailed inRawMessage inAttemptCount inStatus inLastError length].
  split_and!; [done|lia| |done].
  unfold failedStatus, redisUsageInboxMaxProcessAttempts. rewrite A'.
  rewrite Nat.add_1_r. destruct (length errs) as [|[|[|[|n]]]]; try done.
  destruct (5 <=? _) eqn:C; [done|]. bool_split. lia.
Qed.
End InboxFacts.

(** ** Cleanup *)

(** The times a row was last written with. *)
Definition written (local : Location) (r : RedisUsageInbox) (processed : option Time) (updated : Time)
    : Prop :=
  inProcessedAt r = FormatStorageTime local <$> processed /\
  inUpdatedAt r = FormatStorageTime local updated /\
  year_in_range local updated /\
  match processed with Some p => year_in_range local p | None => True end.

(** The rows the cleanup is for, by instants; [all] is whether the second
    statement ran as well. *)
Definition expires (local : Location) (all : bool) (now : Time) (status : InboxStatus)
    (processed : option Time) (updated : Time) : bool :=
  match status with
  | RedisUsageInboxStatusPending => false
  | RedisUsageInboxStatusProcessed =>
      match processed with Some p => p <? day_start local now | None => false end
  | _ => all && (updated <? now - 7 * (24 * Hour))
  end.

Lemma format_fixed_lex (off a b : Z) : off <> 0 ->
  year_in_range (FixedZone off) a -> year_in_range (FixedZone off) b ->
  string_lt (FormatStorageTime (FixedZone off) a) (FormatStorageTime (FixedZone off) b) = (a <? b).
Proof. intros. by apply (format_storage_lex _ a b off). Qed.

Lemma processedBefore_spec (off now : Z) r p u : off <> 0 ->
  year_in_range (FixedZone off) (day_start (FixedZone off) now) ->
  written (FixedZone off) r p u ->
  processedBefore (FormatStorageTime (FixedZone off) (day_start (FixedZone off) now)) r
  = expires (FixedZone off) false now (inStatus r) p u.
Proof.
  intros O Y (P & _ & _ & Yp). unfold processedBefore, expires. rewrite P.
  destruct (inStatus r); try done. destruct p as [p|]; [|done]. simpl.
  by apply format_fixed_lex.
Qed.

Lemma failedBefore_spec (off now : Z) r p u : off <> 0 ->
  year_in_range (FixedZone off) (now - 7 * (24 * Hour)) ->
  written (FixedZone off) r p u ->
  failedBefore (FormatStorageTime (FixedZone off) (now - 7 * (24 * Hour))) r
  || expires (FixedZone off) false now (inStatus r) p u
  = expires (FixedZone off) true now (inStatus r) p u.
Proof.
  intros O Y (_ & U & Yu & _). unfold failedBefore, expires. rewrite U.
  destruct (inStatus r); try done; cbn [bool_decide decide_rel orb andb];
    by rewrite format_fixed_lex, ?orb_false_r by done.
Qed.

(** In a zone with one offset (not UTC), the cleanup deletes the rows
    processed before the local midnight and the failed rows not touched for
    seven days, and no other; in particular no pending row. The counts it
    reports are the rows that went; a statement that fails deletes nothing,
    is reported, and does not undo the one before it. *)
Theorem cleanup_spec (off now : Z) (fault1 fault2 : option string) (t : InboxTable) :
  let local := FixedZone off in
  off <> 0 ->
  year_in_range local (day_start local now) -> year_in_range local (now - 7 * (24 * Hour)) ->
  let '(t', res, err) := CleanupRedisUsageInbox local fault1 fault2 t now in
  err = match fault1, fault2 with
        | Some e, _ | None, Some e => Some (StatementFailed e)
        | None, None => None end /\
  ProcessedDeleted res + FailedDeleted res
    = Z.of_nat (size (inboxRows t)) - Z.of_nat (size (inboxRows t')) /\
  forall id, match inboxRows t !! id with
    | None => inboxRows t' !! id = None
    | Some r => forall p u, written local r p u ->
        inboxRows t' !! id =
          if bool_decide (fault1 = None)
             && expires local (bool_decide (fault2 = None)) now (inStatus r) p u
          then None else Some r
    end.
Proof.
  intros local O Y1 Y2. subst local. unfold CleanupRedisUsageInbox, exec.
  rewrite AddDate_fixed_days. replace (now + -7 * (24 * Hour)) with (now - 7 * (24 * Hour)) by lia.
  destruct fault1 as [e1|]; [|destruct fault2 as [e2|]]; cbn [fst snd ProcessedDeleted FailedDeleted].
  - split_and!; [done|lia|]. intros id. by destruct (inboxRows t !! id).
  - split_and!; [done|cbn; lia|]. intros id. rewrite deleteRows_lookup.
    destruct (inboxRows t !! id) as [r|]; [|done]. intros p u W.
    by rewrite (processedBefore_spec off now r p u).
  - split_and!; [done|cbn; lia|]. intros id. rewrite !deleteRows_lookup.
    destruct (inboxRows t !! id) as [r|]; [|done]. intros p u W.
    rewrite (processedBefore_spec off now r p u) by done.
    pose proof (failedBefore_spec off now r p u O Y2 W) as F. rewrite !bool_decide_true by done.
    cbn [andb]. rewrite <- F.
    destruct (expires _ false _ _ _ _); [by rewrite orb_true_r|]. rewrite orb_false_r.
    by destruct (failedBefore _ r).
Qed.

(** ** Witnesses: two messages, the first one then processed *)

Definition demo_local : Location := FixedZone 28800.
Definition demo_hash (message : string) : string := message.
Definition demo_now : Time := unix_time 1700000000.
Definition demo_inputs : list RedisInboxInsert :=
  [mkRedisInboxInsert " pull "%string "a"%string demo_now;
   mkRedisInboxInsert EmptyString "b"%string demo_now].
Definition demo_inbox : InboxTable :=
  (InsertRedisUsageInboxMessages demo_local demo_hash None demo_now empty_inbox demo_inputs).1.
Definition demo_row (id : Z) (source message : string) : RedisUsageInbox :=
  created demo_local demo_now id
    (newInboxRow demo_local demo_hash (mkRedisInboxInsert source message demo_now)).
Definition demo_processed : InboxTable :=
  (MarkRedisUsageInboxProcessed demo_local None demo_now demo_inbox 1 "key"%string demo_now).1.

Lemma demo_reaches : inbox_reaches demo_local demo_hash empty_inbox demo_inbox.
Proof. eapply Relation_Operators.rt1n_trans; [apply step_insert|apply rt1n_refl]. Qed.

Lemma demo_step : inbox_step demo_local demo_hash demo_inbox demo_processed.
Proof.
  apply step_processed. intros id r ->%list_elem_of_singleton L.
  vm_compute in L. by injection L as <-.
Qed.

Lemma inbox_rows_ok_witness : table_ok demo_inbox.
Proof. apply (inbox_rows_ok demo_local demo_hash), demo_reaches. Defined.

Lemma terminal_row_final_witness :
  inboxRows demo_processed !! 1 =
  Some (setProcessed demo_local "key"%string demo_now demo_now (demo_row 1 "pull"%string "a"%string)).
Proof.
  destruct (inboxRows demo_processed !! 1) as [r'|] eqn:L; [f_equal|by vm_compute in L].
  eapply (terminal_row_final demo_local demo_hash demo_processed demo_processed 1).
  - eapply clos_rt_rt1n, rt_trans; [apply clos_rt1n_rt, demo_reaches|apply rt_step, demo_step].
  - vm_compute. reflexivity.
  - reflexivity.
  - apply rt1n_refl.
  - exact L.
Defined.

Lemma list_processable_spec_witness :
  exists all, [processingColumns (demo_row 1 "pull"%string "a"%string)] = take 1 all /\
    HasProcessableRedisUsageInbox None demo_inbox = Ok true.
Proof.
  destruct (list_processable_spec demo_local demo_hash demo_inbox 1
    [processingColumns (demo_row 1 "pull"%string "a"%string)] demo_reaches)
    as (all & H & _ & _ & E); [vm_compute; reflexivity|].
  exists all. split; [exact H|exact E].
Defined.

Lemma insert_appends_witness :
  let '(t', res) := InsertRedisUsageInboxMessages demo_local demo_hash None demo_now
                      demo_inbox [mkRedisInboxInsert "s"%string "c"%string demo_now] in
  res = Ok [demo_row 3 "s"%string "c"%string] /\ selectRows processable 0 t' =
    selectRows processable 0 demo_inbox ++ [demo_row 3 "s"%string "c"%string].
Proof.
  pose proof (insert_appends demo_local demo_hash demo_inbox None demo_now
    [mkRedisInboxInsert "s"%string "c"%string demo_now] demo_reaches) as H.
  destruct (InsertRedisUsageInboxMessages _ _ _ _ demo_inbox _) as [t' res] eqn:E.
  vm_compute in E. injection E as <- <-. destruct H as [_ H]. split; [reflexivity|exact H].
Defined.

Lemma mark_batch_is_marking_each_witness :
  MarkRedisUsageInboxProcessedBatch demo_local (fun _ => None) demo_now demo_inbox
    [mkProcessedUpdate 2 "k2"%string; mkProcessedUpdate 1 "k1"%string] demo_now
  = (markOne demo_local demo_now demo_now
       (markOne demo_local demo_now demo_now demo_inbox (mkProcessedUpdate 2 "k2"%string))
       (mkProcessedUpdate 1 "k1"%string), Ok tt).
Proof.
  rewrite (mark_batch_is_marking_each demo_local demo_hash demo_inbox _ _ _ _ demo_reaches).
  - reflexivity.
  - vm_compute map. apply NoDup_cons. split; [by intros H%list_elem_of_singleton|].
    apply NoDup_singleton.
Defined.

Lemma discarded_after_five_failures_witness :
  exists r', inboxRows (foldl (failOnce demo_local 2) demo_inbox
    (repeat (demo_now, Some "x"%string) 5)) !! 2 = Some r' /\
    inStatus r' = RedisUsageInboxStatusDiscarded.
Proof.
  destruct (discarded_after_five_failures demo_local demo_hash demo_inbox 2
    (demo_row 2 EmptyString "b"%string) (repeat (demo_now, Some "x"%string) 5) demo_reaches)
    as (r' & L & _ & _ & S & _); [vm_compute; reflexivity|reflexivity|].
  exists r'. split; [exact L|exact S].
Defined.

Lemma cleanup_spec_witness :
  let '(_, res, err) := CleanupRedisUsageInbox demo_local None None demo_processed
                          (demo_now + 24 * Hour) in
  err = None /\ ProcessedDeleted res + FailedDeleted res = 1.
Proof.
  pose proof (cleanup_spec 28800 (demo_now + 24 * Hour) None None demo_processed) as H.
  fold demo_local in H. cbv zeta in H.
  destruct (CleanupRedisUsageInbox _ _ _ _ _) as [[t' res] err] eqn:E.
  vm_compute in E. injection E as <- <- <-.
  destruct H as (H1 & H2 & _); [discriminate|by vm_compute|by vm_compute|].
  split; [exact H1|exact H2].
Defined.
