(* ===== verification/UsageMessage.v ===== *)
(** service/redis_usage.go: from a raw usage message to the event to store.

    encoding/json and net.ParseIP are parameters, and so are the parts of package
    quota that read response headers: [unmarshal] gives the payload or the text
    of the error, [headerSnapshot] the snapshot that the headers of the payload
    describe for an OAuth identity, if any. *)
From S2P Require Import Prelude GoStrings GoTime Entities Timeutil.

Local Open Scope string_scope.
Local Open Scope list_scope.
Local Open Scope Z_scope.

(** repository/dto/usage_snapshot.go. *)
Record TokenStats := mkTokenStats {
  tsInputTokens : Z;
  tsOutputTokens : Z;
  tsReasoningTokens : Z;
  tsCachedTokens : Z;
  tsCacheReadTokens : Z;
  tsCacheReadPresent : bool;
  tsCacheCreationTokens : Z;
  tsTotalTokens : Z;
}.

Record queuedUsageDetail := mkQueuedUsageDetail {
  quTimestamp : Time;
  quLatencyMS : Z;
  quTTFTMS : option Z;
  quSource : string;
  quAuthIndex : string;
  quClientIP : option string;
  quResolvedClientIP : option string;
  quXForwardedFor : option string;
  quUserAgent : option string;
  quTokens : TokenStats;
  quFailed : bool;
  quGenerate : option bool;
  quProvider : string;
  quModel : string;
  quAlias : option string;
  quResponseModel : string;
  quReasoningEffort : string;
  quServiceTier : string;
  quResponseServiceTier : string;
  quExecutorType : string;
  quEndpoint : string;
  quAuthType : string;
  quAPIKey : string;
  quRequestID : string;
  quSessionID : string;
  quParentSessionID : string;
  quStream : option bool;
  quFailStatusCode : option Z;
  quFailBody : string;
  quResponseHeaders : string;
}.

Definition normalizeRedisAuthType (value : string) : string :=
  let trimmed := ToLower (TrimSpace value) in
  if trimmed =?s "api_key" then "apikey" else trimmed.

Definition trimRedisOptionalString (value : option string) : option string :=
  match value with
  | None => None
  | Some value =>
      let trimmed := TrimSpace value in
      if trimmed =?s EmptyString then None else Some trimmed
  end.

(** sync.go. *)
Fixpoint firstNonEmpty (values : list string) : string :=
  match values with
  | [] => EmptyString
  | value :: r =>
      let trimmed := TrimSpace value in
      if negb (trimmed =?s EmptyString) then trimmed else firstNonEmpty r
  end.

Definition redisTokenStatsAllZero (t : TokenStats) : bool :=
  (tsInputTokens t =? 0) && (tsOutputTokens t =? 0) && (tsReasoningTokens t =? 0)
  && (tsCachedTokens t =? 0) && (tsCacheReadTokens t =? 0)
  && (tsCacheCreationTokens t =? 0) && (tsTotalTokens t =? 0).

Definition normalizeRedisGenerate (value : option bool) (failed : bool)
    (executorType : string) (tokens : TokenStats) : option bool :=
  match value with
  | Some _ => value
  | None =>
      Some (negb (negb failed && (TrimSpace executorType =?s "CodexWebsocketsExecutor")
                  && redisTokenStatsAllZero tokens))
  end.

Section Message.
Context {Snapshot : Type}
  (unmarshal : string -> result string queuedUsageDetail)
  (parseIP : string -> bool)
  (headerSnapshot : string -> UsageEvent -> string -> option Snapshot).

Definition clientIP (d : queuedUsageDetail) : option string :=
  match trimRedisOptionalString (quResolvedClientIP d) with
  | Some resolved => if parseIP resolved then Some resolved else quClientIP d
  | None => quClientIP d
  end.

Definition toUsageEvent (fetchedAt : Time) (d : queuedUsageDetail) : UsageEvent := {|
  evID := 0;
  evEventKey := TrimSpace (quRequestID d);
  evAPIGroupKey := firstNonEmpty [quAPIKey d; quProvider d; quEndpoint d; "unknown"];
  evProvider := TrimSpace (quProvider d);
  evEndpoint := TrimSpace (quEndpoint d);
  evAuthType := normalizeRedisAuthType (quAuthType d);
  evRequestID := TrimSpace (quRequestID d);
  evSessionID := TrimSpace (quSessionID d);
  evParentSessionID := trimRedisOptionalString (Some (quParentSessionID d));
  evClientIP := clientIP d;
  evXForwardedFor := quXForwardedFor d;
  evUserAgent := quUserAgent d;
  evModel := firstNonEmpty [quModel d; "unknown"];
  evModelAlias := trimRedisOptionalString (quAlias d);
  evResponseModel := TrimSpace (quResponseModel d);
  evReasoningEffort := TrimSpace (quReasoningEffort d);
  evServiceTier := TrimSpace (quServiceTier d);
  evResponseServiceTier := TrimSpace (quResponseServiceTier d);
  evExecutorType := TrimSpace (quExecutorType d);
  evTimestamp := (let timestamp := NormalizeStorageTime (quTimestamp d) in
                  if IsZero timestamp then NormalizeStorageTime fetchedAt else timestamp);
  evSource := TrimSpace (quSource d);
  evAuthIndex := TrimSpace (quAuthIndex d);
  evFailed := quFailed d;
  evStatusCode := quFailStatusCode d;
  evGenerate := normalizeRedisGenerate (quGenerate d) (quFailed d) (quExecutorType d) (quTokens d);
  evStream := quStream d;
  evLatencyMS := Z.max (quLatencyMS d) 0;
  evTTFTMS := quTTFTMS d;
  evInputTokens := tsInputTokens (quTokens d);
  evOutputTokens := tsOutputTokens (quTokens d);
  evReasoningTokens := tsReasoningTokens (quTokens d);
  evCachedTokens := tsCachedTokens (quTokens d);
  evCacheReadTokens := tsCacheReadTokens (quTokens d);
  evCacheReadPresent := tsCacheReadPresent (quTokens d);
  evCacheCreationTokens := tsCacheCreationTokens (quTokens d);
  evTotalTokens := tsTotalTokens (quTokens d);
  evCreatedAt := zero_time |}.

Definition toUsageHeaderSnapshot (d : queuedUsageDetail) (event : UsageEvent) : option Snapshot :=
  if negb (evAuthType event =?s "oauth") || (evAuthIndex event =?s EmptyString) then None
  else
    let '(provider, supported) := UsageProvider (evProvider event) (evExecutorType event) in
    if negb supported then None else headerSnapshot provider event (quResponseHeaders d).

Definition DecodeRedisUsageMessageWithHeaders (message : string) (fetchedAt : Time)
    : result string (UsageEvent * option Snapshot) :=
  match unmarshal message with
  | Err e => Err (String.append "decode redis usage message: " e)
  | Ok payload =>
      if TrimSpace (quRequestID payload) =?s EmptyString
      then Err "decode redis usage message: request_id is required"
      else
        let event := toUsageEvent fetchedAt payload in
        Ok (event, toUsageHeaderSnapshot payload event)
  end.

Definition DecodeRedisUsageMessage (message : string) (fetchedAt : Time)
    : result string UsageEvent :=
  let? decoded := DecodeRedisUsageMessageWithHeaders message fetchedAt in Ok decoded.1.
End Message.
