(* ===== verification/SyncProcess.v ===== *)
(** service/sync.go: processing of the usage inbox.

    The code talks to one database through statements that can fail, some of them
    inside a transaction, and hands committed events on to receivers.  [World]
    holds the tables it touches, the number of statements run so far and what was
    handed on; [fault] is the error of each statement, [nowAt] GORM's clock.  A
    step of the code is a function [World -> World * A].  Errors are their texts.

    Derived statistics (package repository's aggregations) are behind the record
    [Aggregations]; the order in which Go walks a map is the parameter
    [iteration]. *)
From S2P Require Import Prelude GoStrings GoTime Entities TokenProcessor Timeutil Inbox UsageMessage.

Local Open Scope string_scope.
Local Open Scope list_scope.
Local Open Scope Z_scope.

(** entities/usage_identity.go: the columns the resolver selects. *)
Record IdentityRow := mkIdentityRow {
  idAuthType : Z;
  idIdentity : string;
  idType : string;
  idIsDeleted : bool;
}.


Definition redisInboxProcessLimit : Z := 1000.
Definition redisUsageIdentityTypeLookupBatchSize : nat := 500.

(** Columns of an INSERT into usage_events: all fields of the entity but the
    automatic key and the field that is not stored. *)
Definition usageEventColumns : Z := 35.

(** What is handed to the receivers after a commit. *)
Inductive Notice (Snapshot : Type) :=
| RecentUsage (events : list UsageEvent)
| UsageEventsCommitted (events : list UsageEvent)
| HeaderSnapshots (snapshots : list Snapshot).
Arguments RecentUsage {Snapshot} events.
Arguments UsageEventsCommitted {Snapshot} events.
Arguments HeaderSnapshots {Snapshot} snapshots.

Record World (Snapshot : Type) := mkWorld {
  wInbox : InboxTable;
  wEvents : list UsageEvent;
  wNextEventID : Z;
  wIdentities : list IdentityRow;
  wClock : nat;
  wNotices : list (Notice Snapshot);
}.
Arguments mkWorld {Snapshot}.
Arguments wInbox {Snapshot}.
Arguments wEvents {Snapshot}.
Arguments wNextEventID {Snapshot}.
Arguments wIdentities {Snapshot}.
Arguments wClock {Snapshot}.
Arguments wNotices {Snapshot}.

(** Which receivers the service was built with. *)
Record SyncService := mkSyncService {
  hasRecentUsage : bool;
  hasUsageAggregation : bool;
  hasUsageHeaderQuota : bool;
}.

(** service/dto/sync.go. *)
Record SyncResult := mkSyncResult {
  srStatus : string;
  srInsertedEvents : Z;
  srDedupedEvents : Z;
}.

Record RedisBatchSyncResult := mkRedisBatchSyncResult {
  rbEmpty : bool;
  rbStatus : string;
  rbInsertedEvents : Z;
  rbDedupedEvents : Z;
  rbProcessedRows : Z;
  rbBatchFull : bool;
  rbRetryPending : bool;
  rbDiscardedRows : Z;
}.

(** An error is its text; [None] is nil. *)
Abbreviation error := (option string).
Abbreviation ProcessOutcome := (option RedisBatchSyncResult * error)%type.

Definition setEmpty (r : RedisBatchSyncResult) : RedisBatchSyncResult :=
  mkRedisBatchSyncResult true (rbStatus r) (rbInsertedEvents r) (rbDedupedEvents r)
    (rbProcessedRows r) (rbBatchFull r) (rbRetryPending r) (rbDiscardedRows r).

(** The fields a failure result gets from the counts of its batch. *)
Definition setFailures (retryPending : bool) (discarded : Z) (r : RedisBatchSyncResult)
    : RedisBatchSyncResult :=
  mkRedisBatchSyncResult (rbEmpty r) (rbStatus r) (rbInsertedEvents r) (rbDedupedEvents r)
    (rbProcessedRows r) (rbBatchFull r) retryPending discarded.

Definition newRedisBatchSyncResult (status : string) (processedRows : Z) : RedisBatchSyncResult :=
  let processedRows := if processedRows <? 0 then 0 else processedRows in
  mkRedisBatchSyncResult false status 0 0 processedRows
    (redisInboxProcessLimit <=? processedRows) false 0.

Definition error_text (e : InboxError) : string :=
  match e with
  | StatementFailed message => message
  | PoppedAtIsNull => "NOT NULL constraint failed: redis_usage_inboxes.popped_at"
  end.

Definition wrapped {A} (prefix : string) (r : result InboxError A) : result string A :=
  match r with
  | Ok a => Ok a
  | Err e => Err (String.append prefix (error_text e))
  end.

(** joinErrors: the non-nil errors, trimmed, separated by semicolons. *)
Definition joinErrors (errs : list error) : error :=
  match omap (fun e => e) errs with
  | [] => None
  | messages => Some (String.concat "; " (map TrimSpace messages))
  end.

Definition errorMessage (err : error) : string :=
  match err with None => EmptyString | Some e => TrimSpace e end.

Record redisInboxFailureCounts := mkFailureCounts {
  processFailed : Z;
  discarded : Z;
  statusUncertain : bool;
}.

Definition noFailures : redisInboxFailureCounts := mkFailureCounts 0 0 false.

Definition add_counts (c d : redisInboxFailureCounts) : redisInboxFailureCounts :=
  mkFailureCounts (processFailed c + processFailed d) (discarded c + discarded d)
    (statusUncertain c || statusUncertain d).

Definition requiresRetryWait (c : redisInboxFailureCounts) : bool :=
  (0 <? processFailed c) || statusUncertain c.

(** ** Tokens of an event *)

Record normalizedUsageEvent := mkNormalized {
  neEvent : UsageEvent;
  neResolution : option handlerResolution;
  neResult : option ProcessResult;
  neReady : bool;
}.

Definition tokenValuesFromUsageEvent (event : UsageEvent) : TokenValues := {|
  InputTokens := evInputTokens event;
  OutputTokens := evOutputTokens event;
  ReasoningTokens := evReasoningTokens event;
  CachedTokens := evCachedTokens event;
  CacheReadTokens := evCacheReadTokens event;
  CacheReadPresent := evCacheReadPresent event;
  CacheCreationTokens := evCacheCreationTokens event;
  TotalTokens := evTotalTokens event |}.

(** A copy of an event with other tokens. *)
Definition withTokens (e : UsageEvent) (t : TokenValues) : UsageEvent :=
  mkUsageEvent (evID e) (evEventKey e) (evAPIGroupKey e) (evProvider e) (evEndpoint e)
    (evAuthType e) (evRequestID e) (evSessionID e) (evParentSessionID e) (evClientIP e)
    (evXForwardedFor e) (evUserAgent e) (evModel e) (evModelAlias e) (evResponseModel e)
    (evReasoningEffort e) (evServiceTier e) (evResponseServiceTier e) (evExecutorType e)
    (evTimestamp e) (evSource e) (evAuthIndex e) (evFailed e) (evStatusCode e)
    (evGenerate e) (evStream e) (evLatencyMS e) (evTTFTMS e)
    (InputTokens t) (OutputTokens t) (ReasoningTokens t) (CachedTokens t)
    (CacheReadTokens t) (evCacheReadPresent e) (CacheCreationTokens t) (TotalTokens t)
    (evCreatedAt e).

Definition applyTokenProcessResult (event : UsageEvent) (result : ProcessResult) : UsageEvent :=
  withTokens event (Tokens result).

Definition processResolvedUsageEvent (event : UsageEvent) (resolution : handlerResolution)
    : normalizedUsageEvent :=
  let result := Process (tokenValuesFromUsageEvent event) (Some resolution) in
  mkNormalized (applyTokenProcessResult event result) (Some resolution) (Some result) true.

Definition withProvider (provider : string) (e : UsageEvent) : UsageEvent :=
  mkUsageEvent (evID e) (evEventKey e) (evAPIGroupKey e) provider (evEndpoint e)
    (evAuthType e) (evRequestID e) (evSessionID e) (evParentSessionID e) (evClientIP e)
    (evXForwardedFor e) (evUserAgent e) (evModel e) (evModelAlias e) (evResponseModel e)
    (evReasoningEffort e) (evServiceTier e) (evResponseServiceTier e) (evExecutorType e)
    (evTimestamp e) (evSource e) (evAuthIndex e) (evFailed e) (evStatusCode e)
    (evGenerate e) (evStream e) (evLatencyMS e) (evTTFTMS e) (evInputTokens e)
    (evOutputTokens e) (evReasoningTokens e) (evCachedTokens e) (evCacheReadTokens e)
    (evCacheReadPresent e) (evCacheCreationTokens e) (evTotalTokens e) (evCreatedAt e).

(** ** Types of identities *)

Definition usageEventIdentityKey : Type := Z * string.
Abbreviation usageEventTypeResolver := (gmap (Z * string) string).

Definition redisUsageIdentityAuthType (authType : string) : option Z :=
  let t := normalizeRedisAuthType authType in
  if t =?s "oauth" then Some UsageIdentityAuthTypeAuthFile
  else if t =?s "apikey" then Some UsageIdentityAuthTypeAIProvider
  else None.

Definition identityKey (event : UsageEvent) : option usageEventIdentityKey :=
  let authIndex := TrimSpace (evAuthIndex event) in
  if authIndex =?s EmptyString then None
  else match redisUsageIdentityAuthType (evAuthType event) with
       | None => None
       | Some authType => Some (authType, authIndex)
       end.

(** The loop appends a key the first time it is seen. *)
Definition redisUsageIdentityKeys (events : list UsageEvent) : list usageEventIdentityKey :=
  foldl (fun (keys : list usageEventIdentityKey) event =>
    match identityKey event with
    | None => keys
    | Some key => if bool_decide (key ∈ keys) then keys else keys ++ [key]
    end) [] events.

(** The entries of the map, by auth type in the order of their first key. *)
Definition groupRedisUsageIdentityKeysByAuthType (keys : list usageEventIdentityKey)
    : list (Z * list string) :=
  foldl (fun (grouped : list (Z * list string)) (key : usageEventIdentityKey) =>
    if existsb (fun g => g.1 =? key.1) grouped
    then map (fun g => if g.1 =? key.1 then (g.1, g.2 ++ [key.2]) else g) grouped
    else grouped ++ [(key.1, [key.2])]) [] keys.

Definition addRedisUsageIdentityTypes (byIdentity : usageEventTypeResolver)
    (rows : list IdentityRow) : usageEventTypeResolver :=
  foldl (fun (byIdentity : usageEventTypeResolver) row =>
    let identity := TrimSpace (idIdentity row) in
    let usageType := TrimSpace (idType row) in
    if negb (identity =?s EmptyString) && negb (usageType =?s EmptyString)
    then <[(idAuthType row, identity) := usageType]> byIdentity else byIdentity)
    byIdentity rows.

Definition missingRedisUsageIdentityKeys (keys : list usageEventIdentityKey)
    (byIdentity : usageEventTypeResolver) : list usageEventIdentityKey :=
  filter (fun key => byIdentity !! key = None) keys.

Definition resolveUsageEventType (event : UsageEvent) (resolver : usageEventTypeResolver)
    : string :=
  let lookup (key : Z * string) := TrimSpace (default EmptyString (resolver !! key)) in
  let t := normalizeRedisAuthType (evAuthType event) in
  let authIndex := TrimSpace (evAuthIndex event) in
  if t =?s "oauth" then
    let usageType := if authIndex =?s EmptyString then EmptyString
                     else lookup (UsageIdentityAuthTypeAuthFile, authIndex) in
    if negb (usageType =?s EmptyString) then usageType else TrimSpace (evProvider event)
  else if t =?s "apikey" then lookup (UsageIdentityAuthTypeAIProvider, authIndex)
  else "default".

(** The repository functions behind derived statistics, as far as this file uses
    them: the newest event to aggregate, the three cursors, whether identities
    are behind, and the run of all aggregations with its joined error. *)
Record Aggregations (Snapshot : Type) := mkAggregations {
  LoadUsageAggregationTargetEventID : World Snapshot -> result string Z;
  LoadUsageAggregationCheckpointSnapshot : World Snapshot -> result string (Z * Z * Z);
  HasPendingUsageIdentityAggregation : World Snapshot -> result string bool;
  aggregateUsageEventStatsFallback : World Snapshot -> Time -> error;
}.
Arguments LoadUsageAggregationTargetEventID {Snapshot}.
Arguments LoadUsageAggregationCheckpointSnapshot {Snapshot}.
Arguments HasPendingUsageIdentityAggregation {Snapshot}.
Arguments aggregateUsageEventStatsFallback {Snapshot}.

Section Sync.
Context {Snapshot : Type} (local : Location) (sha256hex : string -> string)
  (unmarshal : string -> result string queuedUsageDetail)
  (parseIP : string -> bool)
  (headerSnapshot : string -> UsageEvent -> string -> option Snapshot)
  (iteration : list (Z * list string) -> list (Z * list string))
  (aggregations : Aggregations Snapshot)
  (fault : nat -> option string) (nowAt : nat -> Time)
  (service : SyncService).

Abbreviation W := (World Snapshot).

Definition M (A : Type) : Type := W -> W * A.

Definition ret {A} (a : A) : M A := fun w => (w, a).
Definition bind {A B} (m : M A) (f : A -> M B) : M B := fun w => let '(w, a) := m w in f a w.
Notation "'let!' x := m 'in' k" := (bind m (fun x => k))
  (at level 10, x pattern, m at level 100, k at level 200).

Definition setInbox (t : InboxTable) (w : W) : W :=
  mkWorld t (wEvents w) (wNextEventID w) (wIdentities w) (wClock w) (wNotices w).

(** [n] more statements have run. *)
Definition tick (n : nat) (w : W) : W :=
  mkWorld (wInbox w) (wEvents w) (wNextEventID w) (wIdentities w) (wClock w + n) (wNotices w).

Definition notify (n : Notice Snapshot) : M unit := fun w =>
  (mkWorld (wInbox w) (wEvents w) (wNextEventID w) (wIdentities w) (wClock w) (wNotices w ++ [n]), tt).

(** A statement of package repository on the inbox. *)
Definition onInbox {A} (f : option string -> Time -> InboxTable -> InboxTable * A) : M A := fun w =>
  let '(t, a) := f (fault (wClock w)) (nowAt (wClock w)) (wInbox w) in
  (tick 1 (setInbox t w), a).

(** A query, or a statement that only fails or succeeds. *)
Definition onWorld {A} (f : W -> A) : M (result string A) := fun w =>
  (tick 1 w, match fault (wClock w) with Some e => Err e | None => Ok (f w) end).

(** db.Transaction: BEGIN and COMMIT are statements too; when one of them or the
    body fails, the tables are as they were. *)
Definition rollback (w0 w : W) : W :=
  mkWorld (wInbox w0) (wEvents w0) (wNextEventID w0) (wIdentities w0) (wClock w) (wNotices w).

Definition transaction {A} (body : M (result string A)) : M (result string A) := fun w0 =>
  match fault (wClock w0) with
  | Some e => (tick 1 w0, Err e)
  | None =>
      let '(w, r) := body (tick 1 w0) in
      match r with
      | Err e => (tick 1 (rollback w0 w), Err e)
      | Ok a =>
          match fault (wClock w) with
          | Some e => (tick 1 (rollback w0 w), Err e)
          | None => (tick 1 w, Ok a)
          end
      end
  end.

(** ** usage_events *)

(** One row of the INSERT: the key, the creation time; the field that is not
    stored reads back as false. *)
Definition createdEvent (now : Time) (id : Z) (e : UsageEvent) : UsageEvent :=
  mkUsageEvent id (evEventKey e) (evAPIGroupKey e) (evProvider e) (evEndpoint e)
    (evAuthType e) (evRequestID e) (evSessionID e) (evParentSessionID e) (evClientIP e)
    (evXForwardedFor e) (evUserAgent e) (evModel e) (evModelAlias e) (evResponseModel e)
    (evReasoningEffort e) (evServiceTier e) (evResponseServiceTier e) (evExecutorType e)
    (NormalizeStorageTime (evTimestamp e)) (evSource e) (evAuthIndex e) (evFailed e)
    (evStatusCode e) (evGenerate e) (evStream e) (evLatencyMS e) (evTTFTMS e)
    (evInputTokens e) (evOutputTokens e) (evReasoningTokens e) (evCachedTokens e)
    (evCacheReadTokens e) (evCacheReadPresent e) (evCacheCreationTokens e) (evTotalTokens e)
    (if IsZero (evCreatedAt e) then now else evCreatedAt e).

Definition storedEvent (e : UsageEvent) : UsageEvent :=
  mkUsageEvent (evID e) (evEventKey e) (evAPIGroupKey e) (evProvider e) (evEndpoint e)
    (evAuthType e) (evRequestID e) (evSessionID e) (evParentSessionID e) (evClientIP e)
    (evXForwardedFor e) (evUserAgent e) (evModel e) (evModelAlias e) (evResponseModel e)
    (evReasoningEffort e) (evServiceTier e) (evResponseServiceTier e) (evExecutorType e)
    (evTimestamp e) (evSource e) (evAuthIndex e) (evFailed e)
    (evStatusCode e) (evGenerate e) (evStream e) (evLatencyMS e) (evTTFTMS e)
    (evInputTokens e) (evOutputTokens e) (evReasoningTokens e) (evCachedTokens e)
    (evCacheReadTokens e) false (evCacheCreationTokens e) (evTotalTokens e) (evCreatedAt e).

(** tx.Create(&batch): the keys are written back into the slice. *)
Definition createEvents (batch : list UsageEvent) : M (result string (list UsageEvent)) := fun w =>
  match fault (wClock w) with
  | Some e => (tick 1 w, Err e)
  | None =>
      let now := nowAt (wClock w) in
      let rows := imap (fun i e => createdEvent now (wNextEventID w + Z.of_nat i) e) batch in
      (tick 1 (mkWorld (wInbox w) (wEvents w ++ map storedEvent rows)
                 (wNextEventID w + Z.of_nat (length batch)) (wIdentities w) (wClock w) (wNotices w)),
       Ok rows)
  end.

(** The loop over batches; the number of events is enough fuel. *)
Fixpoint insertBatches (fuel : nat) (inserted : list UsageEvent) (events : list UsageEvent)
    : M (result string (list UsageEvent)) :=
  match events with
  | [] => ret (Ok inserted)
  | _ =>
      match fuel with
      | O => ret (Ok inserted)
      | S fuel' =>
          let size := Z.to_nat (insertBatchSize usageEventColumns) in
          let! r := createEvents (take size events) in
          match r with
          | Err e => ret (Err (String.append "insert usage events: " e))
          | Ok rows => insertBatches fuel' (inserted ++ rows) (drop size events)
          end
      end
  end.

(** repository.InsertUsageEvents: the events with their keys; their number is
    what it returns as inserted, and nothing is deduplicated. *)
Definition InsertUsageEvents (events : list UsageEvent) : M (result string (list UsageEvent)) :=
  match events with
  | [] => ret (Ok [])
  | _ => transaction (insertBatches (length events) [] events)
  end.

Definition persistRedisUsageEvents (events : list UsageEvent)
    : M (result string (list UsageEvent * SyncResult)) :=
  let! r := InsertUsageEvents events in
  match r with
  | Err e => ret (Err (String.append "insert usage events: " e))
  | Ok stored => ret (Ok (stored, mkSyncResult "completed" (Z.of_nat (length stored)) 0))
  end.

(** ** Reading identity types *)

Fixpoint loadBatches (fuel : nat) (authType : Z) (isDeleted : bool) (identities : list string)
    (rows : list IdentityRow) : M (result string (list IdentityRow)) :=
  match identities with
  | [] => ret (Ok rows)
  | _ =>
      match fuel with
      | O => ret (Ok rows)
      | S fuel' =>
          let batch := take redisUsageIdentityTypeLookupBatchSize identities in
          let! r := onWorld (fun w => filter (fun row =>
                      idAuthType row = authType /\ idIdentity row ∈ batch /\
                      idIsDeleted row = isDeleted) (wIdentities w)) in
          match r with
          | Err e => ret (Err e)
          | Ok batchRows =>
              loadBatches fuel' authType isDeleted
                (drop redisUsageIdentityTypeLookupBatchSize identities) (rows ++ batchRows)
          end
      end
  end.

Fixpoint loadGroups (isDeleted : bool) (groups : list (Z * list string))
    (rows : list IdentityRow) : M (result string (list IdentityRow)) :=
  match groups with
  | [] => ret (Ok rows)
  | (authType, identities) :: rest =>
      let! r := loadBatches (length identities) authType isDeleted identities rows in
      match r with
      | Err e => ret (Err e)
      | Ok rows => loadGroups isDeleted rest rows
      end
  end.

Definition loadRedisUsageIdentityTypeRows (keys : list usageEventIdentityKey) (isDeleted : bool)
    : M (result string (list IdentityRow)) :=
  loadGroups isDeleted (iteration (groupRedisUsageIdentityKeysByAuthType keys)) [].

Definition buildUsageEventTypeResolver (events : list UsageEvent)
    : M (result string usageEventTypeResolver) :=
  let keys := redisUsageIdentityKeys events in
  match keys with
  | [] => ret (Ok ∅)
  | _ =>
      let! active := loadRedisUsageIdentityTypeRows keys false in
      match active with
      | Err e => ret (Err (String.append "load active usage identity types for redis usage: " e))
      | Ok activeRows =>
          let byIdentity := addRedisUsageIdentityTypes ∅ activeRows in
          let missing := missingRedisUsageIdentityKeys keys byIdentity in
          match missing with
          | [] => ret (Ok byIdentity)
          | _ =>
              let! deleted := loadRedisUsageIdentityTypeRows missing true in
              match deleted with
              | Err e => ret (Err (String.append "load deleted usage identity types for redis usage: " e))
              | Ok deletedRows => ret (Ok (addRedisUsageIdentityTypes byIdentity deletedRows))
              end
          end
      end
  end.

(** ** Normalising the events of a batch *)

Definition unresolved (event : UsageEvent) (resolution : handlerResolution)
    : normalizedUsageEvent := mkNormalized event (Some resolution) None false.

Definition blankItem (event : UsageEvent) : normalizedUsageEvent :=
  mkNormalized event None None false.

(** The first loop: the items, the unresolved indexes, or the error of the
    registry with the items so far (the others are zero values, which are not
    ready). *)
Fixpoint resolveExecutors (index : nat) (events : list UsageEvent)
    : list normalizedUsageEvent * result registryError (list nat) :=
  match events with
  | [] => ([], Ok [])
  | event :: rest =>
      match ResolveExecutor (evExecutorType event) with
      | Err e => (map blankItem events, Err e)
      | Ok resolution =>
          let '(items, r) := resolveExecutors (S index) rest in
          if needsIdentity resolution
          then (unresolved event resolution :: items,
                match r with Ok l => Ok (index :: l) | Err e => Err e end)
          else (processResolvedUsageEvent event resolution :: items, r)
      end
  end.

Definition registryErrorText (e : registryError) : string := "token processor registry is invalid".

(** The second loop, over the unresolved indexes. *)
Fixpoint resolveIdentities (resolver : usageEventTypeResolver) (events : list UsageEvent)
    (indexes : list nat) (items : list normalizedUsageEvent)
    : list normalizedUsageEvent * error :=
  match indexes with
  | [] => (items, None)
  | index :: rest =>
      match events !! index with
      | None => (items, None)
      | Some event =>
          match ResolveIdentity (evExecutorType event) (resolveUsageEventType event resolver) with
          | Err e => (items, Some (registryErrorText e))
          | Ok resolution =>
              resolveIdentities resolver events rest
                (<[index := processResolvedUsageEvent event resolution]> items)
          end
      end
  end.

Definition normalizeRedisUsageEventsDetailed (events : list UsageEvent)
    : M (list normalizedUsageEvent * list nat * error) :=
  let '(items, r) := resolveExecutors 0 events in
  match r with
  | Err e => ret (items, seq 0 (length events), Some (registryErrorText e))
  | Ok [] => ret (items, [], None)
  | Ok unresolvedIndexes =>
      let unresolvedEvents := omap (fun i => events !! i) unresolvedIndexes in
      let! resolver := buildUsageEventTypeResolver unresolvedEvents in
      match resolver with
      | Err e => ret (items, unresolvedIndexes, Some e)
      | Ok resolver =>
          match resolveIdentities resolver events unresolvedIndexes items with
          | (items, Some e) => ret (items, unresolvedIndexes, Some e)
          | (items, None) => ret (items, [], None)
          end
      end
  end.

(** ** Failures *)

(** Marking one row and reading it back. *)
Definition markRowProcessFailed (err : string) (id : Z) : M redisInboxFailureCounts :=
  let! marked := onInbox (fun f now t =>
    MarkRedisUsageInboxProcessFailed local f now t id (Some err)) in
  match marked with
  | Err _ => ret (mkFailureCounts 0 0 true)
  | Ok _ =>
      let! stored := onWorld (fun w => inboxRows (wInbox w) !! id) in
      match stored with
      | Err _ | Ok None => ret (mkFailureCounts 0 0 true)
      | Ok (Some row) =>
          if bool_decide (inStatus row = RedisUsageInboxStatusDiscarded)
          then ret (mkFailureCounts 0 1 false)
          else if bool_decide (inStatus row = RedisUsageInboxStatusProcessFailed)
          then ret (mkFailureCounts 1 0 false)
          else ret noFailures
      end
  end.

Fixpoint markRows (err : string) (ids : list Z) (counts : redisInboxFailureCounts)
    : M redisInboxFailureCounts :=
  match ids with
  | [] => ret counts
  | id :: rest =>
      let! c := markRowProcessFailed err id in markRows err rest (add_counts counts c)
  end.

Definition markRedisInboxRowsProcessFailed (rows : list RedisUsageInbox) (err : error)
    : M redisInboxFailureCounts :=
  match err with
  | None => ret noFailures
  | Some e => markRows e (map inID rows) noFailures
  end.

(** ** Decoding a batch *)

Abbreviation decodedRow := (RedisUsageInbox * UsageEvent * option Snapshot)%type.

(** The loop over the rows: the rows with an event and the decode errors, or the
    return of the function when a row cannot be marked. *)
Fixpoint decodeRows (fetchedAt : Time) (processedRows : Z) (rows : list RedisUsageInbox)
    (valid : list decodedRow) (decodeErrs : list error)
    : M (ProcessOutcome + list decodedRow * list error) :=
  match rows with
  | [] => ret (inr (valid, decodeErrs))
  | row :: rest =>
      match DecodeRedisUsageMessageWithHeaders unmarshal parseIP headerSnapshot
              (inRawMessage row) fetchedAt with
      | Err decodeErr =>
          let! marked := onInbox (fun f now t =>
            MarkRedisUsageInboxDecodeFailed local f now t (inID row) (Some decodeErr)) in
          match wrapped "mark redis usage inbox decode failed: " marked with
          | Err e => ret (inl (Some (newRedisBatchSyncResult "failed" processedRows), Some e))
          | Ok _ => decodeRows fetchedAt processedRows rest valid (decodeErrs ++ [Some decodeErr])
          end
      | Ok (event, snapshot) =>
          let '(provider, supported) := UsageProvider (evProvider event) (evExecutorType event) in
          if negb supported then
            let! marked := onInbox (fun f now t =>
              MarkRedisUsageInboxProcessed local f now t (inID row) EmptyString fetchedAt) in
            match wrapped "discard unsupported usage provider: " marked with
            | Err e => ret (inl (None, Some e))
            | Ok _ => decodeRows fetchedAt processedRows rest valid decodeErrs
            end
          else decodeRows fetchedAt processedRows rest
                 (valid ++ [(row, withProvider provider event, snapshot)]) decodeErrs
      end
  end.

(** ** The batch *)

Definition failureResult (processedRows : Z) (counts : redisInboxFailureCounts)
    : option RedisBatchSyncResult :=
  Some (setFailures (requiresRetryWait counts) (discarded counts)
          (newRedisBatchSyncResult "failed" processedRows)).

(** The transaction: the events and the marks of their rows, or neither. *)
Definition persistBatch (fetchedAt : Time) (rows : list RedisUsageInbox) (events : list UsageEvent)
    : M (result string (list UsageEvent * SyncResult)) :=
  transaction (
    let! persisted := persistRedisUsageEvents events in
    match persisted with
    | Err e => ret (Err e)
    | Ok (stored, result) =>
        let updates := zip_with (fun row e => mkProcessedUpdate (inID row) (evEventKey e)) rows stored in
        let! marked := (fun w =>
          let '(t, r) := MarkRedisUsageInboxProcessedBatch local
            (fun i => fault (wClock w + i)) (nowAt (wClock w)) (wInbox w) updates fetchedAt in
          (tick (length updates) (setInbox t w), r)) in
        match wrapped "mark redis usage inbox processed: " marked with
        | Err e => ret (Err e)
        | Ok _ => ret (Ok (stored, result))
        end
    end).

(** After the commit: the receivers, or the aggregations when there is no
    background runner. *)
Definition notifyCommitted (finishedAt : Time) (events : list UsageEvent)
    (headerSnapshots : list Snapshot) : M error :=
  let! _ := (if hasRecentUsage service then notify (RecentUsage events) else ret tt) in
  let! aggregateErr := (if hasUsageAggregation service
    then (let! _ := notify (UsageEventsCommitted events) in ret None)
    else (fun w => (tick 1 w, aggregateUsageEventStatsFallback aggregations w finishedAt))) in
  match aggregateErr with
  | Some e => ret (Some e)
  | None =>
      let! _ := (if hasUsageHeaderQuota service && negb (bool_decide (headerSnapshots = []))
                 then notify (HeaderSnapshots headerSnapshots) else ret tt) in
      ret None
  end.

Definition finishBatch (fetchedAt finishedAt : Time) (processedRows : Z) (decodeErr typeErr : error)
    (counts : redisInboxFailureCounts) (ready : list (RedisUsageInbox * UsageEvent * option Snapshot))
    : M ProcessOutcome :=
  let rows := map (fun x => x.1.1) ready in
  let headerSnapshots := omap (fun x => x.2) ready in
  let! persisted := persistBatch fetchedAt rows (map (fun x => x.1.2) ready) in
  match persisted with
  | Err e =>
      let! readyFailures := markRedisInboxRowsProcessFailed rows (Some e) in
      let counts := add_counts counts readyFailures in
      ret (failureResult processedRows counts, Some e)
  | Ok (events, result) =>
      let! aggregateErr := (if 0 <? srInsertedEvents result
                            then notifyCommitted finishedAt events headerSnapshots else ret None) in
      match aggregateErr with
      | Some e => ret (failureResult processedRows counts, Some e)
      | None =>
          let warned := negb (bool_decide (decodeErr = None)) || negb (bool_decide (typeErr = None)) in
          let status := if warned then "completed_with_warnings" else srStatus result in
          let returnErr := if warned then joinErrors [None; decodeErr; typeErr] else None in
          ret (Some (mkRedisBatchSyncResult false status (srInsertedEvents result)
                 (srDedupedEvents result) processedRows (redisInboxProcessLimit <=? processedRows)
                 (requiresRetryWait counts) (discarded counts)), returnErr)
      end
  end.

(** The items that are ready with their rows and snapshots. *)
Definition readyItems (items : list normalizedUsageEvent) (valid : list decodedRow)
    : list (RedisUsageInbox * UsageEvent * option Snapshot) :=
  omap (fun p : normalizedUsageEvent * decodedRow =>
    if neReady p.1 then Some (p.2.1.1, neEvent p.1, p.2.2) else None) (zip items valid).

Definition processRedisInboxRows (fetchedAt finishedAt : Time) (rows : list RedisUsageInbox)
    : M ProcessOutcome :=
  let processedRows := Z.of_nat (length rows) in
  let! decoded := decodeRows fetchedAt processedRows rows [] [] in
  match decoded with
  | inl outcome => ret outcome
  | inr (valid, decodeErrs) =>
      let decodeErr := joinErrors decodeErrs in
      match valid with
      | [] =>
          match decodeErr with
          | Some _ => ret (Some (newRedisBatchSyncResult "completed_with_warnings" processedRows), decodeErr)
          | None => ret (Some (newRedisBatchSyncResult "empty" processedRows), None)
          end
      | _ =>
          let! normalized := normalizeRedisUsageEventsDetailed (map (fun x => x.1.2) valid) in
          let '(items, unresolvedIndexes, typeErr) := normalized in
          let ready := readyItems items valid in
          let! counts := (match typeErr with
            | None => ret noFailures
            | Some _ => markRedisInboxRowsProcessFailed
                (omap (fun i => (fun x => x.1.1) <$> valid !! i) unresolvedIndexes) typeErr
            end) in
          if negb (bool_decide (typeErr = None)) && bool_decide (ready = [])
          then ret (failureResult processedRows counts, joinErrors [decodeErr; typeErr])
          else finishBatch fetchedAt finishedAt processedRows decodeErr typeErr counts ready
      end
  end.

(** An empty listing: without a background runner, catch up on aggregations. *)
Definition emptyFailed (e : string) : ProcessOutcome :=
  (Some (setEmpty (newRedisBatchSyncResult "failed" 0)), Some e).

Definition emptyDone : ProcessOutcome :=
  (Some (setEmpty (newRedisBatchSyncResult "empty" 0)), None).

Definition catchUp (fetchedAt : Time) : M ProcessOutcome := fun w =>
  let w' := tick 1 w in
  match LoadUsageAggregationTargetEventID aggregations w with
  | Err e => (w', emptyFailed e)
  | Ok targetEventID =>
      match LoadUsageAggregationCheckpointSnapshot aggregations w with
      | Err e => (w', emptyFailed e)
      | Ok (overview, activity, latency) =>
          match HasPendingUsageIdentityAggregation aggregations w with
          | Err e => (w', emptyFailed e)
          | Ok pendingIdentity =>
              let pendingRollup := (overview <? targetEventID) || (activity <? targetEventID)
                                   || (latency <? targetEventID) in
              if pendingRollup || pendingIdentity then
                match aggregateUsageEventStatsFallback aggregations w fetchedAt with
                | Some e => (w', emptyFailed e)
                | None => (w', emptyDone)
                end
              else (w', emptyDone)
          end
      end
  end.

(** [startedAt] and [finishedAt] are what [s.now()] returns before the listing
    and after the commit. *)
Definition ProcessRedisUsageInbox (startedAt finishedAt : Time) : M ProcessOutcome :=
  let fetchedAt := NormalizeStorageTime startedAt in
  let! listed := onInbox (fun f _ t => (t, ListProcessableRedisUsageInbox f t redisInboxProcessLimit)) in
  match wrapped "list processable redis usage inbox: " listed with
  | Err e => ret (Some (newRedisBatchSyncResult "failed" 0), Some e)
  | Ok [] => if negb (hasUsageAggregation service) then catchUp fetchedAt else ret emptyDone
  | Ok rows => processRedisInboxRows fetchedAt finishedAt rows
  end.

(** insertRedisInboxMessages, the writer side. *)
Definition insertRedisInboxMessages (source : string) (messages : list string) (poppedAt : Time)
    : M (result InboxError (list RedisUsageInbox)) :=
  onInbox (fun f now t => InsertRedisUsageInboxRawMessages local sha256hex f now t source messages poppedAt).
End Sync.
