(* ===== verification/SyncProcessFacts.v ===== *)
(** Processing of the usage inbox: exactly-once storage of events under any
    failures of the database, what is notified, partial success, and the full
    effect of a run without failures. *)
From S2P Require Import Prelude GoStrings GoTime Entities TokenProcessor TokenProcessorFacts Timeutil Inbox InboxFacts UsageMessage SyncProcess.
From Stdlib Require Import Relations.

Local Open Scope list_scope.
Local Open Scope Z_scope.

(** ** Effects on the inbox *)

(** The key of the event a row was finished with. *)
Definition keyOf (r : RedisUsageInbox) : option string :=
  if bool_decide (inStatus r = RedisUsageInboxStatusProcessed)
     && negb (inUsageEventKey r =?s EmptyString)
  then Some (inUsageEventKey r) else None.

Lemma processable_unkeyed (r : RedisUsageInbox) : processable r = true -> keyOf r = None.
Proof. intros P. unfold keyOf. by destruct (processable_cases r P) as [-> | ->]. Qed.

(** The statements between two worlds only marked rows of [ids], as failed or as
    processed without an event. *)
Definition touches {S} (ids : list Z) (w w' : World S) : Prop :=
  wEvents w' = wEvents w /\ wNextEventID w' = wNextEventID w /\
  wIdentities w' = wIdentities w /\ wNotices w' = wNotices w /\
  inboxNextID (wInbox w') = inboxNextID (wInbox w) /\
  forall id, match inboxRows (wInbox w) !! id with
    | None => inboxRows (wInbox w') !! id = None
    | Some r => exists r', inboxRows (wInbox w') !! id = Some r' /\
        inID r' = inID r /\ (id ∉ ids -> r' = r) /\
        (id ∈ ids -> keyOf r' = None) /\
        (processable r = true -> row_ok r -> row_ok r')
    end.

Lemma touches_same {S} (w w' : World S) :
  wEvents w' = wEvents w -> wNextEventID w' = wNextEventID w ->
  wIdentities w' = wIdentities w -> wNotices w' = wNotices w -> wInbox w' = wInbox w ->
  touches [] w w'.
Proof.
  intros H1 H2 H3 H4 H5. split_and!; try done; [by rewrite H5|].
  intros id. rewrite H5. destruct (_ !! id) as [r|]; [|done].
  exists r. split_and!; try done. by intros ?%elem_of_nil.
Qed.

Lemma touches_refl {S} (w : World S) : touches [] w w.
Proof. by apply touches_same. Qed.

Lemma touches_trans {S} (l k : list Z) (u v w : World S) :
  (forall id, id ∈ l -> id ∉ k) -> touches l u v -> touches k v w -> touches (l ++ k) u w.
Proof.
  intros D (A1 & A2 & A3 & A4 & A5 & A) (B1 & B2 & B3 & B4 & B5 & B).
  split_and!; try congruence. intros id. specialize (A id). specialize (B id).
  destruct (inboxRows (wInbox u) !! id) as [r|]; [|by rewrite A in B].
  destruct A as (r1 & L1 & I1 & N1 & K1 & O1). rewrite L1 in B.
  destruct B as (r2 & L2 & I2 & N2 & K2 & O2). exists r2. split_and!; [done|congruence| | |].
  - rewrite not_elem_of_app. intros [X Y]. by rewrite N2, N1.
  - intros [X|X]%elem_of_app; [|auto]. rewrite N2 by auto. auto.
  - intros P O. destruct (decide (id ∈ k)) as [X|X].
    + assert (id ∉ l) as Y by (intros ?; by apply (D id)). rewrite N1 in O2 by done. auto.
    + rewrite N2 by done. auto.
Qed.

Lemma touches_mono {S} (l k : list Z) (w w' : World S) :
  (forall id, id ∈ l -> id ∈ k) ->
  (forall id r, id ∈ k -> inboxRows (wInbox w) !! id = Some r -> keyOf r = None) ->
  touches l w w' -> touches k w w'.
Proof.
  intros Sub K (A1 & A2 & A3 & A4 & A5 & A). split_and!; try done.
  intros id. specialize (A id). destruct (inboxRows (wInbox w) !! id) as [r|] eqn:E; [|done].
  destruct A as (r1 & L1 & I1 & N1 & K1 & O1). exists r1. split_and!; auto.
  intros X. destruct (decide (id ∈ l)); [auto|]. rewrite N1 by done. by apply (K id).
Qed.

Lemma touches_tick {S} (n : nat) (w : World S) : touches [] w (tick n w).
Proof. by apply touches_same. Qed.

Lemma touches_nil_trans {S} (l : list Z) (u v w : World S) :
  touches [] u v -> touches l v w -> touches l u w.
Proof. intros A B. apply (touches_trans [] l u v w); [by intros ? ?%elem_of_nil|done|done]. Qed.

Lemma touches_trans_nil {S} (l : list Z) (u v w : World S) :
  touches l u v -> touches [] v w -> touches l u w.
Proof.
  intros A B. rewrite <- (app_nil_r l). apply (touches_trans l [] u v w); [|done|done].
  intros ? _ ?%elem_of_nil. done.
Qed.

Lemma touches_update {S} (id : Z) (f : RedisUsageInbox -> RedisUsageInbox) (w : World S) :
  (forall r, inID (f r) = inID r) -> (forall r, keyOf (f r) = None) ->
  (forall r, processable r = true -> row_ok r -> row_ok (f r)) ->
  touches [id] w (setInbox (updateRows [id] f (wInbox w)) w).
Proof.
  intros I K O. split_and!; try done. intros i. cbn [setInbox wInbox]. rewrite updateRows_lookup.
  destruct (inboxRows (wInbox w) !! i) as [r|] eqn:E; [|done].
  eexists. split; [done|]. case_decide as D; split_and!; auto; try done.
Qed.

(** ** The monad *)

Section SyncFacts.
Context {Snapshot : Type} (local : Location) (sha256hex : string -> string)
  (unmarshal : string -> result string queuedUsageDetail)
  (parseIP : string -> bool)
  (headerSnapshot : string -> UsageEvent -> string -> option Snapshot)
  (iteration : list (Z * list string) -> list (Z * list string))
  (aggregations : Aggregations Snapshot)
  (fault : nat -> option string) (nowAt : nat -> Time)
  (service : SyncService).

Abbreviation W := (World Snapshot).

Lemma bind_inv {A B} (m : M A) (f : A -> M B) (w w' : W) (b : B) :
  bind m f w = (w', b) -> exists w1 a, m w = (w1, a) /\ f a w1 = (w', b).
Proof. unfold bind. destruct (m w) as [w1 a] eqn:E. eauto. Qed.

Lemma onWorld_touches {A} (f : W -> A) w w' r :
  onWorld fault f w = (w', r) -> touches [] w w'.
Proof. unfold onWorld. intros [= <- _]. apply touches_tick. Qed.

Lemma loadBatches_touches fuel authType deleted identities rows w w' r :
  loadBatches fault fuel authType deleted identities rows w = (w', r) -> touches [] (S := Snapshot) w w'.
Proof.
  revert identities rows w. induction fuel as [|fuel IH]; intros [|i is_] rows w H;
    try (injection H as <- _; apply touches_refl).
  cbn [loadBatches] in H. apply bind_inv in H as (w1 & a & H1 & H).
  apply onWorld_touches in H1. eapply touches_nil_trans; [exact H1|].
  destruct a as [b|e]; [by eapply IH|]. injection H as <- _. apply touches_refl.
Qed.

Lemma loadGroups_touches deleted groups rows w w' r :
  loadGroups fault deleted groups rows w = (w', r) -> touches [] (S := Snapshot) w w'.
Proof.
  revert rows w. induction groups as [|[authType ids] rest IH]; intros rows w H.
  { injection H as <- _. apply touches_refl. }
  cbn [loadGroups] in H. apply bind_inv in H as (w1 & a & H1 & H).
  apply loadBatches_touches in H1. eapply touches_nil_trans; [exact H1|].
  destruct a as [b|e]; [by eapply IH|]. injection H as <- _. apply touches_refl.
Qed.

Lemma resolver_touches events w w' r :
  buildUsageEventTypeResolver iteration fault events w = (w', r) -> touches [] (S := Snapshot) w w'.
Proof.
  unfold buildUsageEventTypeResolver. destruct (redisUsageIdentityKeys events) as [|k ks].
  { intros [= <- _]. apply touches_refl. }
  intros H. apply bind_inv in H as (w1 & a & H1 & H). apply loadGroups_touches in H1.
  eapply touches_nil_trans; [exact H1|]. destruct a as [rows|e].
  2: { injection H as <- _. apply touches_refl. }
  destruct (missingRedisUsageIdentityKeys _ _) as [|m ms].
  { injection H as <- _. apply touches_refl. }
  apply bind_inv in H as (w2 & b & H2 & H). apply loadGroups_touches in H2.
  eapply touches_nil_trans; [exact H2|].
  destruct b; injection H as <- _; apply touches_refl.
Qed.

Lemma normalize_touches events w w' r :
  normalizeRedisUsageEventsDetailed iteration fault events w = (w', r) ->
  touches [] (S := Snapshot) w w'.
Proof.
  unfold normalizeRedisUsageEventsDetailed. destruct (resolveExecutors 0 events) as [items rr].
  destruct rr as [[|i l]|e]; [intros [= <- _]; apply touches_refl| |intros [= <- _]; apply touches_refl].
  intros H. apply bind_inv in H as (w1 & a & H1 & H). apply resolver_touches in H1.
  eapply touches_nil_trans; [exact H1|]. destruct a as [resolver|e].
  - destruct (resolveIdentities _ _ _ _) as [items' [e|]]; injection H as <- _; apply touches_refl.
  - injection H as <- _. apply touches_refl.
Qed.

Lemma setFailed_unkeyed status err now r :
  (forall r, status r <> RedisUsageInboxStatusProcessed) ->
  keyOf (setFailed local status err now r) = None.
Proof.
  intros H. unfold keyOf. cbn [setFailed inStatus]. by rewrite bool_decide_false.
Qed.

Lemma failedStatus_cases r :
  failedStatus r = RedisUsageInboxStatusDiscarded \/ failedStatus r = RedisUsageInboxStatusProcessFailed.
Proof. unfold failedStatus. destruct (_ <=? _); auto. Qed.

Lemma markRow_touches err id w w' c :
  markRowProcessFailed local fault nowAt err id w = (w', c) -> touches [id] (S := Snapshot) w w' \/ touches [] (S := Snapshot) w w'.
Proof.
  unfold markRowProcessFailed. intros H. apply bind_inv in H as (w1 & a & H1 & H).
  unfold onInbox, MarkRedisUsageInboxProcessFailed, exec in H1.
  destruct (fault (wClock w)) as [e|]; injection H1 as <- <-.
  { right. injection H as <- _. by apply touches_same. }
  apply bind_inv in H as (w2 & b & H2 & H). apply onWorld_touches in H2.
  assert (w' = w2) as -> by (destruct b as [[row|]|]; repeat case_match; by injection H).
  left. eapply touches_trans_nil; [|exact H2].
  eapply touches_trans_nil; [|apply touches_tick].
  apply touches_update; [done| |].
  - intros r. apply setFailed_unkeyed. intros r'. by destruct (failedStatus_cases r') as [-> | ->].
  - intros r. apply setFailed_ok. auto.
Qed.

(** Rows of the batch that can be processed, or that a statement of this batch
    marked before. *)
Definition unkeyed (w : W) (ids : list Z) : Prop :=
  forall id r, id ∈ ids -> inboxRows (wInbox w) !! id = Some r -> keyOf r = None.

Lemma unkeyed_sub w ids ids' : (forall id, id ∈ ids' -> id ∈ ids) -> unkeyed w ids -> unkeyed w ids'.
Proof. intros S U id r H. by apply U, S. Qed.

Lemma unkeyed_touches l ids w w' :
  touches l w w' -> unkeyed w ids -> unkeyed w' ids.
Proof.
  intros (_ & _ & _ & _ & _ & T) U id r' Hid L. specialize (T id).
  destruct (inboxRows (wInbox w) !! id) as [r|] eqn:E; [|congruence].
  destruct T as (r1 & L1 & _ & N & K & _). rewrite L in L1. injection L1 as <-.
  destruct (decide (id ∈ l)); [auto|]. rewrite N by done. by apply (U id).
Qed.

Lemma markRows_touches err ids counts w w' c :
  NoDup ids -> unkeyed w ids ->
  markRows local fault nowAt err ids counts w = (w', c) -> touches ids (S := Snapshot) w w'.
Proof.
  revert counts w. induction ids as [|id ids IH]; intros counts w ND U H.
  { injection H as <- _. apply touches_refl. }
  apply NoDup_cons in ND as [Nin ND]. cbn [markRows] in H.
  apply bind_inv in H as (w1 & a & H1 & H).
  assert (T1 : touches [id] w w1).
  { apply markRow_touches in H1 as [T|T]; [done|].
    eapply touches_mono; [| |exact T]; [by intros ? ?%elem_of_nil|].
    intros i r ->%list_elem_of_singleton. apply U. by left. }
  change (id :: ids) with ([id] ++ ids). eapply touches_trans; [|exact T1|].
  - by intros i ->%list_elem_of_singleton.
  - eapply IH; [done| |exact H]. eapply unkeyed_touches; [exact T1|].
    eapply unkeyed_sub; [|exact U]. by right.
Qed.

Lemma markFailed_touches rows err w w' c :
  NoDup (map inID rows) -> unkeyed w (map inID rows) ->
  markRedisInboxRowsProcessFailed local fault nowAt rows err w = (w', c) ->
  exists ids, (forall id, id ∈ ids -> id ∈ map inID rows) /\ touches ids (S := Snapshot) w w'.
Proof.
  intros ND U H. destruct err as [e|].
  - exists (map inID rows). split; [done|]. by eapply markRows_touches.
  - injection H as <- _. exists []. split; [by intros ? ?%elem_of_nil|apply touches_refl].
Qed.

(** None of these rows is offered again. *)
Definition finished (ids : list Z) (w : W) : Prop :=
  forall id r, id ∈ ids -> inboxRows (wInbox w) !! id = Some r -> processable r = false.

(** A row that was marked and does not have to wait was discarded. *)
Lemma markRow_finished err id (w w' : W) c :
  markRowProcessFailed local fault nowAt err id w = (w', c) ->
  0 <= processFailed c /\ (requiresRetryWait c = false -> finished [id] w').
Proof.
  unfold markRowProcessFailed. intros H. apply bind_inv in H as (w1 & a & H1 & H).
  unfold onInbox, MarkRedisUsageInboxProcessFailed, exec in H1.
  destruct (fault (wClock w)) as [e|]; injection H1 as <- <-.
  { injection H as <- <-. split; [reflexivity|discriminate]. }
  cbn [fst snd] in H. apply bind_inv in H as (w2 & b & H2 & H).
  unfold onWorld in H2. injection H2 as <- <-.
  match type of H with context [fault ?k] => destruct (fault k) as [e|] end.
  { injection H as <- <-. split; [reflexivity|discriminate]. }
  match type of H with context [?m !! id] => destruct (m !! id) as [row|] eqn:L end.
  2: { injection H as <- <-. split; [reflexivity|discriminate]. }
  repeat case_bool_decide; injection H as <- <-; (split; [cbn; lia|]); intros R; try discriminate R.
  - intros i r ->%list_elem_of_singleton Lr.
    assert (Some r = Some row) as [= ->] by (rewrite <- Lr; exact L). unfold processable.
    match goal with X : inStatus row = _ |- _ => rewrite X end. reflexivity.
  - exfalso.
    assert (L' : inboxRows (updateRows [id] (setFailed local failedStatus (Some err)
      (nowAt (wClock w))) (wInbox w)) !! id = Some row) by exact L.
    clear L. rename L' into L. rewrite updateRows_lookup in L.
    destruct (inboxRows (wInbox w) !! id) as [r|]; [|discriminate L].
    cbn [fmap option_fmap option_map] in L. rewrite decide_True in L by (by apply list_elem_of_singleton).
    injection L as <-. cbn [setFailed inStatus] in *. destruct (failedStatus_cases r); auto.
Qed.

Lemma add_counts_wait c d : 0 <= processFailed c -> 0 <= processFailed d ->
  requiresRetryWait (add_counts c d) = false ->
  requiresRetryWait c = false /\ requiresRetryWait d = false.
Proof.
  destruct c as [p x u], d as [q y v]. unfold requiresRetryWait, add_counts.
  cbn [processFailed statusUncertain]. intros P Q [H [-> ->]%orb_false_iff]%orb_false_iff.
  apply Z.ltb_ge in H. rewrite !orb_false_iff, !Z.ltb_ge. split_and!; [lia|done|lia|done].
Qed.

(** ** Decoding *)

Lemma decoded_key message fetchedAt event snapshot :
  DecodeRedisUsageMessageWithHeaders unmarshal parseIP headerSnapshot message fetchedAt
    = Ok (event, snapshot) -> evEventKey event <> EmptyString.
Proof.
  unfold DecodeRedisUsageMessageWithHeaders. destruct (unmarshal message) as [d|]; [|done].
  destruct (_ =?s _) eqn:E; [done|]. intros [= <- _]. cbn [toUsageEvent evEventKey].
  by bool_split.
Qed.

Abbreviation Ready := (RedisUsageInbox * UsageEvent * option Snapshot)%type.

Definition rowIDs (l : list Ready) : list Z := map (fun x => inID x.1.1) l.

Lemma finished_nil w : finished [] w.
Proof. by intros id r ?%elem_of_nil. Qed.

Lemma finished_cons id ids w : finished [id] w -> finished ids w -> finished (id :: ids) w.
Proof.
  intros A B i r [->|Hi]%elem_of_cons L; [|by apply (B i)]. apply (A id); [by left|done].
Qed.

Lemma finished_touches k ids (w w' : W) :
  touches k w w' -> (forall id, id ∈ ids -> id ∉ k) -> finished ids w -> finished ids w'.
Proof.
  intros (_ & _ & _ & _ & _ & T) D F id r' Hid L. specialize (T id).
  destruct (inboxRows (wInbox w) !! id) as [r|] eqn:E; [|congruence].
  destruct T as (r1 & L1 & _ & N & _). rewrite L in L1. injection L1 as <-.
  rewrite N by auto. by apply (F id).
Qed.

Lemma finished_update id f n (w : W) : (forall r, processable (f r) = false) ->
  finished [id] (tick n (setInbox (updateRows [id] f (wInbox w)) w)).
Proof.
  intros P i r ->%list_elem_of_singleton L. cbn [tick setInbox wInbox] in L.
  rewrite updateRows_lookup in L. destruct (inboxRows (wInbox w) !! id); [|done].
  cbn in L. rewrite decide_True in L by (by apply list_elem_of_singleton). injection L as <-. apply P.
Qed.

Lemma markRows_finished err ids counts (w w' : W) c :
  NoDup ids -> unkeyed w ids -> 0 <= processFailed counts ->
  markRows local fault nowAt err ids counts w = (w', c) ->
  0 <= processFailed c /\
  (requiresRetryWait c = false -> requiresRetryWait counts = false /\ finished ids w').
Proof.
  revert counts w. induction ids as [|id ids IH]; intros counts w ND U C H.
  { injection H as <- <-. split; [exact C|]. intros R. split; [exact R|apply finished_nil]. }
  apply NoDup_cons in ND as [Nin ND]. cbn [markRows] in H.
  apply bind_inv in H as (w1 & a & H1 & H).
  pose proof (markRow_finished _ _ _ _ _ H1) as [Ca Fa].
  assert (T1 : touches [id] w w1).
  { apply markRow_touches in H1 as [T|T]; [done|].
    eapply touches_mono; [| |exact T]; [by intros ? ?%elem_of_nil|].
    intros i r ->%list_elem_of_singleton. apply U. by left. }
  assert (U1 : unkeyed w1 ids).
  { eapply unkeyed_touches; [exact T1|]. eapply unkeyed_sub; [|exact U]. by right. }
  pose proof (markRows_touches _ _ _ _ _ _ ND U1 H) as T2.
  apply IH in H as [Cc Fc]; [|done|done|cbn; lia].
  split; [exact Cc|]. intros R. destruct (Fc R) as [Ra Fi].
  apply add_counts_wait in Ra as [Rc Ra]; [|done|done]. split; [done|].
  apply finished_cons; [|exact Fi]. eapply finished_touches; [exact T2| |exact (Fa Ra)].
  by intros i ->%list_elem_of_singleton.
Qed.

Lemma markFailed_finished rows err (w w' : W) c :
  NoDup (map inID rows) -> unkeyed w (map inID rows) ->
  markRedisInboxRowsProcessFailed local fault nowAt rows (Some err) w = (w', c) ->
  requiresRetryWait c = false -> finished (map inID rows) w'.
Proof. intros ND U H. by apply markRows_finished in H as [_ F]; [apply F| | |]. Qed.

(** The outcomes that leave nothing of a batch to be retried: no error, or
    warnings only and no row reported as pending. *)
Definition settles (o : ProcessOutcome) : Prop :=
  o.2 = None \/
  exists r, o.1 = Some r /\ rbStatus r <> "failed"%string /\ rbRetryPending r = false.

Lemma failed_unsettled (r : RedisBatchSyncResult) (e : string) :
  rbStatus r = "failed"%string -> ~ settles (Some r, Some e).
Proof. intros F [H|(r' & [= <-] & N & _)]; [discriminate H|done]. Qed.

(** The rows that stay for the transaction and the rows already marked. *)
Lemma decodeRows_spec fetchedAt n rows valid errs w w' out :
  NoDup (map inID rows) -> unkeyed w (map inID rows) ->
  decodeRows local unmarshal parseIP headerSnapshot fault nowAt fetchedAt n rows valid errs w
    = (w', out) ->
  exists marked kept, touches marked w w' /\ NoDup marked /\
    (forall id, id ∈ marked -> id ∈ map inID rows) /\ finished marked w' /\
    match out with
    | inl outcome => ~ settles outcome
    | inr (valid', errs') =>
        valid' = valid ++ kept /\
        NoDup (rowIDs kept) /\
        (forall id, id ∈ map inID rows <-> id ∈ marked \/ id ∈ rowIDs kept) /\
        (forall id, id ∈ marked -> id ∉ rowIDs kept) /\
        Forall (fun x => evEventKey x.1.2 <> EmptyString) kept
    end.
Proof.
  revert valid errs w. induction rows as [|row rows IH]; intros valid errs w ND U H.
  { injection H as <- <-. exists [], []. split_and!;
      try (apply touches_refl || constructor || apply finished_nil); try set_solver.
    by rewrite app_nil_r. }
  cbn [map] in ND, U. apply NoDup_cons in ND as [Nin ND]. cbn [decodeRows] in H.
  assert (Mark : forall w1, touches [inID row] w w1 -> finished [inID row] w1 -> forall valid errs,
    decodeRows local unmarshal parseIP headerSnapshot fault nowAt fetchedAt n rows valid errs w1
      = (w', out) ->
    exists marked kept, touches marked w w' /\ NoDup marked /\
      (forall id, id ∈ marked -> id ∈ inID row :: map inID rows) /\ finished marked w' /\
      match out with
      | inl outcome => ~ settles outcome
      | inr (valid', errs') =>
          valid' = valid ++ kept /\ NoDup (rowIDs kept) /\
          (forall id, id ∈ inID row :: map inID rows <-> id ∈ marked \/ id ∈ rowIDs kept) /\
          (forall id, id ∈ marked -> id ∉ rowIDs kept) /\
          Forall (fun x => evEventKey x.1.2 <> EmptyString) kept
      end).
  { intros w1 T Fin v er H1. apply IH in H1 as (marked & kept & T' & NDm & Sub & Fin' & Out).
    - exists (inID row :: marked), kept. split_and!.
      + change (inID row :: marked) with ([inID row] ++ marked). eapply touches_trans; [|done|done].
        intros id ->%list_elem_of_singleton X. by apply Sub in X.
      + constructor; [|done]. intros X. by apply Sub in X.
      + intros id [->|X]%elem_of_cons; [by left|right; by apply Sub].
      + apply finished_cons; [|exact Fin']. eapply finished_touches; [exact T'| |exact Fin].
        intros id ->%list_elem_of_singleton X. by apply Sub in X.
      + destruct out as [?|[valid' errs']]; [done|]. destruct Out as (-> & ND2 & P & D & K).
        split_and!; try done.
        * intros id. rewrite !elem_of_cons, P. tauto.
        * intros id [->|X]%elem_of_cons; [|by apply D]. intros X. apply Nin, P. by right.
    - done.
    - eapply unkeyed_touches; [exact T|]. eapply unkeyed_sub; [|exact U]. by right. }
  destruct (DecodeRedisUsageMessageWithHeaders _ _ _ _ _) as [[event snapshot]|decodeErr] eqn:D.
  - destruct (UsageProvider _ _) as [provider supported]. destruct supported; cbn [negb] in H.
    + apply IH in H as (marked & kept & T & NDm & Sub & Fin & Out).
      2: done. 2: { eapply unkeyed_sub; [|exact U]. by right. }
      exists marked, ((row, withProvider provider event, snapshot) :: kept).
      split_and!; [done|done|by right; apply Sub|done|].
      destruct out as [?|[valid' errs']]; [done|]. destruct Out as (-> & ND2 & P & D2 & K).
      unfold rowIDs in *. cbn [map fst]. split_and!.
      * by rewrite <- app_assoc.
      * constructor; [|done]. intros X. apply Nin, P. by right.
      * intros id. rewrite !elem_of_cons, P. tauto.
      * intros id X [->|Y]%elem_of_cons; [by apply Nin, P; left|by apply (D2 id)].
      * constructor; [|done]. cbn. by eapply decoded_key.
    + apply bind_inv in H as (w1 & a & H1 & H).
      unfold onInbox, MarkRedisUsageInboxProcessed, exec in H1.
      destruct (fault (wClock w)) as [e|]; injection H1 as <- <-; cbn [wrapped] in H.
      { injection H as <- <-. exists [], []. split_and!; [by apply touches_same|constructor| |apply finished_nil|].
        - by intros ? ?%elem_of_nil.
        - intros [X|(r & X & _)]; discriminate X. }
      eapply Mark; [| |exact H].
      * eapply touches_trans_nil; [|apply touches_tick]. apply touches_update; [done|done|].
        intros. by apply setProcessed_ok.
      * by apply finished_update.
  - apply bind_inv in H as (w1 & a & H1 & H).
    unfold onInbox, MarkRedisUsageInboxDecodeFailed, markRedisUsageInboxFailed, exec in H1.
    destruct (fault (wClock w)) as [e|]; injection H1 as <- <-; cbn [wrapped] in H.
    { injection H as <- <-. exists [], []. split_and!; [by apply touches_same|constructor| |apply finished_nil|by apply failed_unsettled].
      by intros ? ?%elem_of_nil. }
    eapply Mark; [| |exact H].
    + eapply touches_trans_nil; [|apply touches_tick]. apply touches_update; [done| |].
      * intros r. by apply setFailed_unkeyed.
      * intros r. apply setFailed_ok. auto.
    + by apply finished_update.
Qed.

(** ** Normalising *)

Definition known_executor (e : UsageEvent) : bool :=
  match ResolveExecutor (evExecutorType e) with
  | Ok r => negb (needsIdentity r)
  | Err _ => false
  end.

(** The resolution of an event whose identity has type [t]. *)
Definition resolution_of (e : UsageEvent) (t : string) : option handlerResolution :=
  match (if known_executor e then ResolveExecutor (evExecutorType e)
         else ResolveIdentity (evExecutorType e) t) with
  | Ok r => Some r
  | Err _ => None
  end.

Definition resolved_item (e : UsageEvent) (t : string) : normalizedUsageEvent :=
  match resolution_of e t with
  | Some r => processResolvedUsageEvent e r
  | None => blankItem e
  end.

Lemma ResolveIdentity_Ok a b : exists r, ResolveIdentity a b = Ok r.
Proof.
  unfold ResolveIdentity, defaultRegistry. rewrite registry_builds. cbn [result_bind].
  destruct (negb _); [eauto|]. destruct (identities _ !! _); eauto.
Qed.

Lemma known_executor_eq e : known_executor e =
  match ResolveExecutor (evExecutorType e) with Ok r => negb (needsIdentity r) | Err _ => false end.
Proof. reflexivity. Qed.

#[local] Opaque ResolveExecutor ResolveIdentity Process known_executor.

Definition first_item (e : UsageEvent) : normalizedUsageEvent :=
  match ResolveExecutor (evExecutorType e) with
  | Ok r => if needsIdentity r then unresolved e r else processResolvedUsageEvent e r
  | Err _ => blankItem e
  end.

Fixpoint unknown_indexes (k : nat) (events : list UsageEvent) : list nat :=
  match events with
  | [] => []
  | e :: rest => if known_executor e then unknown_indexes (S k) rest
                 else k :: unknown_indexes (S k) rest
  end.

Lemma resolveExecutors_eq k events :
  resolveExecutors k events = (map first_item events, Ok (unknown_indexes k events)).
Proof.
  revert k. induction events as [|e events IH]; intros k; [done|].
  cbn [resolveExecutors map unknown_indexes]. unfold first_item at 1. rewrite known_executor_eq.
  destruct (ResolveExecutor_eq (evExecutorType e)) as (r & -> & _). rewrite IH.
  by destruct (needsIdentity r).
Qed.

Lemma elem_of_unknown k events i :
  i ∈ unknown_indexes k events <->
  exists j e, i = (k + j)%nat /\ events !! j = Some e /\ known_executor e = false.
Proof.
  revert k. induction events as [|e events IH]; intros k.
  { split; [by intros ?%elem_of_nil|]. by intros (j & e & _ & L & _). }
  assert (Tail : i ∈ unknown_indexes (S k) events <->
    exists j e', i = (k + S j)%nat /\ events !! j = Some e' /\ known_executor e' = false).
  { rewrite IH. split; intros (j & e' & -> & L & K); exists j, e';
      (split; [lia|split; [exact L|exact K]]). }
  cbn [unknown_indexes]. destruct (known_executor e) eqn:K.
  - rewrite Tail. split.
    + intros (j & e' & E & L & K'). exists (S j), e'. exact (conj E (conj L K')).
    + intros ([|j] & e' & E & L & K').
      * injection L as <-. rewrite K in K'. discriminate.
      * exists j, e'. exact (conj E (conj L K')).
  - rewrite elem_of_cons, Tail. split.
    + intros [->|(j & e' & E & L & K')].
      * exists 0%nat, e. split; [lia|split; [reflexivity|exact K]].
      * exists (S j), e'. exact (conj E (conj L K')).
    + intros ([|j] & e' & E & L & K'); [left; lia|right].
      exists j, e'. exact (conj E (conj L K')).
Qed.

Lemma unknown_NoDup k events : NoDup (unknown_indexes k events).
Proof.
  revert k. induction events as [|e events IH]; intros k; [constructor|].
  cbn [unknown_indexes]. destruct (known_executor e); [done|]. constructor; [|done].
  intros (j & e' & E & _)%elem_of_unknown. lia.
Qed.

Lemma resolveIdentities_spec resolver events indexes items :
  (forall i, i ∈ indexes -> exists e, events !! i = Some e /\ known_executor e = false) ->
  length items = length events ->
  exists items', resolveIdentities resolver events indexes items = (items', None) /\
    length items' = length events /\
    forall i e, events !! i = Some e ->
      items' !! i = if bool_decide (i ∈ indexes)
                    then Some (resolved_item e (resolveUsageEventType e resolver))
                    else items !! i.
Proof.
  revert items. induction indexes as [|i indexes IH]; intros items H Len.
  { exists items. split_and!; done. }
  destruct (H i) as (e & L & K); [by left|]. cbn [resolveIdentities]. rewrite L.
  destruct (ResolveIdentity_Ok (evExecutorType e) (resolveUsageEventType e resolver)) as [r R].
  rewrite R. destruct (IH (<[i := processResolvedUsageEvent e r]> items)) as (items' & E & Len' & S).
  { intros j Hj. apply H. by right. }
  { by rewrite length_insert. }
  exists items'. split_and!; [done|done|]. intros j e' L'. rewrite (S _ _ L').
  destruct (decide (j ∈ indexes)) as [D|D].
  { rewrite !bool_decide_true; [done|by right|done]. }
  rewrite (bool_decide_false (j ∈ indexes)) by done. destruct (decide (j = i)) as [->|Ne].
  - assert (e' = e) as -> by congruence. rewrite bool_decide_true by left.
    rewrite list_lookup_insert_eq.
    + unfold resolved_item, resolution_of. by rewrite K, R.
    + rewrite Len. by eapply lookup_lt_Some.
  - clear R. rewrite bool_decide_false.
    + apply list_lookup_insert_ne. auto.
    + intros [X|X]%elem_of_cons; [exact (Ne X)|exact (D X)].
Qed.

Lemma first_item_known e : known_executor e = true -> forall t, first_item e = resolved_item e t.
Proof.
  intros K t. unfold first_item, resolved_item, resolution_of. rewrite K.
  rewrite known_executor_eq in K. destruct (ResolveExecutor (evExecutorType e)); [|discriminate K].
  destruct (needsIdentity a); [discriminate K|reflexivity].
Qed.

Lemma first_item_unknown e : known_executor e = false ->
  neReady (first_item e) = false /\ neEvent (first_item e) = e.
Proof.
  rewrite known_executor_eq. unfold first_item. destruct (ResolveExecutor (evExecutorType e)); [|split; reflexivity].
  destruct (needsIdentity a); [split; reflexivity|discriminate].
Qed.

Lemma resolved_item_ready e t : neReady (resolved_item e t) = true.
Proof.
  unfold resolved_item, resolution_of. destruct (known_executor e) eqn:K.
  - rewrite known_executor_eq in K.
    destruct (ResolveExecutor (evExecutorType e)); [reflexivity|discriminate K].
  - destruct (ResolveIdentity_Ok (evExecutorType e) t) as [r ->]. reflexivity.
Qed.

(** Known executors do not depend on the identities: their items are the same
    whether the query succeeds or not. *)
Lemma normalize_spec events (w w' : W) items unresolvedIndexes err :
  normalizeRedisUsageEventsDetailed iteration fault events w
    = (w', (items, unresolvedIndexes, err)) ->
  length items = length events /\ NoDup unresolvedIndexes /\
  (err = None -> unresolvedIndexes = []) /\
  exists resolver : usageEventTypeResolver,
    forall i e, events !! i = Some e ->
      (i ∈ unresolvedIndexes <-> err <> None /\ known_executor e = false) /\
      exists item, items !! i = Some item /\
        (i ∈ unresolvedIndexes -> neReady item = false) /\
        (i ∉ unresolvedIndexes ->
           item = resolved_item e (resolveUsageEventType e resolver)).
Proof.
  unfold normalizeRedisUsageEventsDetailed. rewrite resolveExecutors_eq.
  assert (First : forall i e, events !! i = Some e -> map first_item events !! i = Some (first_item e)).
  { intros i e L. rewrite list_lookup_fmap, L. reflexivity. }
  assert (Unk : forall i e, events !! i = Some e ->
    i ∈ unknown_indexes 0 events <-> known_executor e = false).
  { intros i e L. rewrite elem_of_unknown. split.
    - intros (j & e' & -> & L' & K). simpl in L. rewrite L in L'. injection L' as <-. exact K.
    - intros K. exists i, e. exact (conj eq_refl (conj L K)). }
  assert (Known : forall i e, events !! i = Some e -> i ∉ unknown_indexes 0 events ->
    forall t, first_item e = resolved_item e t).
  { intros i e L N. apply first_item_known. destruct (known_executor e) eqn:K; [reflexivity|].
    destruct N. by apply (Unk i e L). }
  assert (Len : length (map first_item events) = length events) by apply length_map.
  assert (NoIdx : forall i e, i ∈ @nil nat <-> (@None string) <> None /\ known_executor e = false).
  { intros i e. split; [intros X; by apply elem_of_nil in X|intros [X _]; by destruct X]. }
  assert (ND : NoDup (unknown_indexes 0 events)) by apply unknown_NoDup.
  destruct (unknown_indexes 0 events) as [|u us] eqn:E.
  - intros H. injection H as _ <- <- <-. split_and!; [exact Len|constructor|reflexivity|].
    exists ∅. intros i e L. split; [apply NoIdx|].
    exists (first_item e). split; [by apply First|]. split; [intros X; by apply elem_of_nil in X|].
    intros N. by apply (Known i e L).
  - intros H. apply bind_inv in H as (w1 & a & H1 & H). destruct a as [resolver|e0].
    + destruct (resolveIdentities_spec resolver events (u :: us) (map first_item events))
        as (items' & R & Len' & S); [|exact Len|].
      { intros i Hi. rewrite <- E in Hi. apply elem_of_unknown in Hi as (j & e & -> & L & K).
        exists e. exact (conj L K). }
      rewrite R in H. injection H as _ <- <- <-.
      split_and!; [exact Len'|constructor|reflexivity|]. exists resolver. intros i e L.
      split; [apply NoIdx|].
      exists (resolved_item e (resolveUsageEventType e resolver)).
      split; [|split; [intros X; by apply elem_of_nil in X|reflexivity]].
      rewrite (S _ _ L). case_bool_decide as D; [reflexivity|]. rewrite (First _ _ L). f_equal.
      by apply (Known i e L).
    + injection H as _ <- <- <-. split; [exact Len|]. split; [exact ND|]. split; [intros X; discriminate X|].
      exists ∅. intros i e L. split.
      { rewrite (Unk i e L). split; [intros K; split; [intros X; discriminate X|exact K]|apply proj2]. }
      exists (first_item e). split; [by apply First|]. split.
      * intros D. apply (Unk _ _ L) in D. by apply first_item_unknown.
      * intros D. by apply (Known i e L).
Qed.

(** ** The transaction *)

Definition stored_as (e s : UsageEvent) : Prop := exists now id, s = createdEvent now id e.

(** The tables but usage_events are as they were. *)
Definition only_events (w w' : W) : Prop :=
  wInbox w' = wInbox w /\ wIdentities w' = wIdentities w /\ wNotices w' = wNotices w.

Lemma createdEvent_id now id e : evID (createdEvent now id e) = id.
Proof. reflexivity. Qed.

Lemma createEvents_Ok batch (w w' : W) rows :
  createEvents fault nowAt batch w = (w', Ok rows) ->
  only_events w w' /\ wEvents w' = wEvents w ++ map storedEvent rows /\
  wNextEventID w' = wNextEventID w + Z.of_nat (length batch) /\
  Forall2 stored_as batch rows /\
  map evID rows = seqZ (wNextEventID w) (Z.of_nat (length batch)).
Proof.
  unfold createEvents. destruct (fault (wClock w)) as [e|]; [intros H; discriminate|].
  intros H. injection H as <- <-. unfold only_events. split_and!; try reflexivity.
  - apply Forall2_same_length_lookup. rewrite length_imap. split; [reflexivity|].
    intros i e s He Hs. rewrite list_lookup_imap, He in Hs. injection Hs as <-.
    unfold stored_as. eauto.
  - apply list_eq. intros i. rewrite list_lookup_fmap, list_lookup_imap.
    destruct (batch !! i) as [e|] eqn:L; cbn.
    + symmetry. apply lookup_seqZ. apply lookup_lt_Some in L. lia.
    + symmetry. apply lookup_seqZ_ge. apply lookup_ge_None in L. lia.
Qed.

Lemma insertBatches_Ok fuel inserted events (w w' : W) stored :
  (length events <= fuel)%nat ->
  insertBatches fault nowAt fuel inserted events w = (w', Ok stored) ->
  exists new, stored = inserted ++ new /\ only_events w w' /\
    wEvents w' = wEvents w ++ map storedEvent new /\
    wNextEventID w' = wNextEventID w + Z.of_nat (length events) /\
    Forall2 stored_as events new /\
    map evID new = seqZ (wNextEventID w) (Z.of_nat (length events)).
Proof.
  revert inserted events w. induction fuel as [|fuel IH]; intros inserted [|e es] w Hf H;
    try (cbn [length] in Hf; lia);
    try (injection H as <- <-; exists []; rewrite !app_nil_r; unfold only_events;
         split_and!; try reflexivity; [cbn; lia|constructor]).
  cbn [insertBatches] in H. set (events := e :: es) in *.
  set (size := Z.to_nat (insertBatchSize usageEventColumns)) in *.
  assert (Hsize : (0 < size)%nat) by (unfold size; vm_compute; lia).
  apply bind_inv in H as (w1 & a & H1 & H). destruct a as [rows|err]; [|discriminate].
  apply createEvents_Ok in H1 as ((O1 & O2 & O3) & E1 & N1 & F1 & I1).
  apply IH in H as (new & -> & (O4 & O5 & O6) & E2 & N2 & F2 & I2).
  2: { rewrite length_drop. unfold events in *. cbn [length] in *. lia. }
  assert (Len : length events = (length (take size events) + length (drop size events))%nat).
  { rewrite <- length_app, take_drop. reflexivity. }
  exists (rows ++ new). split_and!.
  - by rewrite app_assoc.
  - unfold only_events. split_and!; congruence.
  - rewrite E2, E1, map_app, app_assoc. reflexivity.
  - rewrite N2, N1, Len. lia.
  - rewrite <- (take_drop size events). by apply Forall2_app.
  - rewrite map_app, I1, I2, N1, Len, Nat2Z.inj_add, seqZ_app by lia. reflexivity.
Qed.

Lemma transaction_inv {A} (m : M (result string A)) (w w' : W) r :
  transaction fault m w = (w', r) ->
  match r with
  | Err _ => forall w1 r1, m (tick 1 w) = (w1, r1) ->
      wNotices w1 = wNotices w -> touches [] w w'
  | Ok a => exists w1, m (tick 1 w) = (w1, Ok a) /\ w' = tick 1 w1
  end.
Proof.
  unfold transaction. destruct (fault (wClock w)) as [e|].
  { intros H. injection H as <- <-. intros. apply touches_tick. }
  destruct (m (tick 1 w)) as [w1 r1] eqn:E. destruct r1 as [a|e].
  - destruct (fault (wClock w1)) as [e|]; intros H; injection H as <- <-.
    + intros w2 r2 H N. injection H as <- _. by apply touches_same.
    + exists w1. split; reflexivity.
  - intros H. injection H as <- <-. intros w2 r2 H N. injection H as <- _. by apply touches_same.
Qed.

Lemma createEvents_notices batch (w w' : W) r :
  createEvents fault nowAt batch w = (w', r) -> wNotices w' = wNotices w.
Proof.
  unfold createEvents. destruct (fault (wClock w)); intros H; injection H as <- _; reflexivity.
Qed.

Lemma insertBatches_notices fuel inserted events (w w' : W) r :
  insertBatches fault nowAt fuel inserted events w = (w', r) -> wNotices w' = wNotices w.
Proof.
  revert inserted events w. induction fuel as [|fuel IH]; intros inserted [|e es] w H;
    try (injection H as <- _; reflexivity).
  cbn [insertBatches] in H. apply bind_inv in H as (w1 & a & H1 & H).
  apply createEvents_notices in H1. rewrite <- H1. destruct a as [rows|err].
  - by apply IH in H.
  - by injection H as <- _.
Qed.

Lemma InsertUsageEvents_notices events (w w' : W) r :
  InsertUsageEvents fault nowAt events w = (w', r) -> wNotices w' = wNotices w.
Proof.
  destruct events as [|e es]; [by intros [= <- _]|]. unfold InsertUsageEvents, transaction.
  destruct (fault (wClock w)); [by intros [= <- _]|].
  destruct (insertBatches _ _ _ _ _ _) as [w1 r1] eqn:E. apply insertBatches_notices in E.
  destruct r1; [destruct (fault (wClock w1))|]; intros [= <- _]; exact E.
Qed.

Lemma InsertUsageEvents_Ok events (w w' : W) stored :
  InsertUsageEvents fault nowAt events w = (w', Ok stored) ->
  only_events w w' /\ wEvents w' = wEvents w ++ map storedEvent stored /\
  wNextEventID w' = wNextEventID w + Z.of_nat (length events) /\
  Forall2 stored_as events stored /\
  map evID stored = seqZ (wNextEventID w) (Z.of_nat (length events)).
Proof.
  intros H. destruct events as [|e es].
  { injection H as <- <-. unfold only_events. split_and!; try reflexivity; [by rewrite app_nil_r|cbn; lia|constructor]. }
  unfold InsertUsageEvents in H. apply transaction_inv in H as (w1 & H & ->).
  apply insertBatches_Ok in H as (new & -> & O & E & N & F & I); [|lia].
  split_and!; done.
Qed.

Definition eventUpdates (rows : list RedisUsageInbox) (stored : list UsageEvent)
    : list RedisUsageInboxProcessedUpdate :=
  zip_with (fun row e => mkProcessedUpdate (inID row) (evEventKey e)) rows stored.

Lemma eventUpdates_ids rows stored : length rows = length stored ->
  map updID (eventUpdates rows stored) = map inID rows.
Proof.
  revert stored. induction rows as [|r rows IH]; intros [|s stored] H; try done.
  cbn. f_equal. apply IH. by injection H.
Qed.

Lemma eventUpdates_keys rows stored : length rows = length stored ->
  map updEventKey (eventUpdates rows stored) = map evEventKey stored.
Proof.
  revert stored. induction rows as [|r rows IH]; intros [|s stored] H; try done.
  cbn. f_equal. apply IH. by injection H.
Qed.

(** What the transaction does: everything or nothing. *)
Definition committed (fetchedAt : Time) (rows : list RedisUsageInbox) (events stored : list UsageEvent)
    (w w' : W) : Prop :=
  Forall2 stored_as events stored /\
  map evID stored = seqZ (wNextEventID w) (Z.of_nat (length stored)) /\
  wEvents w' = wEvents w ++ map storedEvent stored /\
  wNextEventID w' = wNextEventID w + Z.of_nat (length stored) /\
  wIdentities w' = wIdentities w /\ wNotices w' = wNotices w /\
  exists now, wInbox w' = foldl (markOne local now fetchedAt) (wInbox w) (eventUpdates rows stored).

Lemma persistBatch_spec fetchedAt rows events (w w' : W) r :
  persistBatch local fault nowAt fetchedAt rows events w = (w', r) ->
  match r with
  | Err _ => touches [] w w'
  | Ok (stored, result) =>
      NoDup (map inID rows) -> length rows = length events -> keys_ok (wInbox w) ->
      committed fetchedAt rows events stored w w' /\
      result = mkSyncResult "completed" (Z.of_nat (length stored)) 0
  end.
Proof.
  unfold persistBatch. intros H. apply transaction_inv in H. destruct r as [[stored result]|e].
  - destruct H as (w1 & H & ->). intros ND Len K.
    apply bind_inv in H as (w2 & a & H1 & H). destruct a as [[st res]|e]; [|discriminate].
    unfold persistRedisUsageEvents in H1. apply bind_inv in H1 as (w3 & b & H1 & H2).
    destruct b as [st'|e]; [|discriminate]. injection H2 as <- <- <-.
    apply InsertUsageEvents_Ok in H1 as ((O1 & O2 & O3) & E & N & F & I).
    pose proof (Forall2_length _ _ _ F) as LF.
    apply bind_inv in H as (w4 & b & H1 & H).
    fold (eventUpdates rows st') in H1. unfold MarkRedisUsageInboxProcessedBatch in H1.
    rewrite markBatches_spec in H1.
    2: lia.
    2: { by rewrite eventUpdates_ids by lia. }
    2: { rewrite O1. exact K. }
    destruct (batches_done _ _ _) as [k e] eqn:B. injection H1 as <- <-.
    destruct e as [e|]; [discriminate|]. injection H as <- <- <-.
    apply batches_done_all in B as ->.
    rewrite take_ge by (apply batch_count_covers).
    split; [|reflexivity]. unfold committed. cbn.
    split_and!; try done; try congruence.
    + by rewrite <- LF.
    + rewrite N, LF. reflexivity.
    + eexists. by rewrite O1.
  - destruct (bind _ _ (tick 1 w)) as [w1 r1] eqn:B. apply (H _ _ eq_refl).
    apply bind_inv in B as (w2 & a & H1 & B).
    assert (N2 : wNotices w2 = wNotices w).
    { unfold persistRedisUsageEvents in H1. apply bind_inv in H1 as (w3 & b & H1 & H2).
      apply InsertUsageEvents_notices in H1.
      destruct b; injection H2 as <- _; exact H1. }
    destruct a as [[st res]|e2]; [|injection B as <- _; exact N2].
    apply bind_inv in B as (w4 & b & H2 & B).
    destruct (MarkRedisUsageInboxProcessedBatch _ _ _ _ _ _) as [t mr]. injection H2 as <- <-.
    destruct (wrapped _ mr); injection B as <- _; exact N2.
Qed.

(** ** One batch *)

Lemma readyItems_cons item (items : list normalizedUsageEvent) x valid :
  readyItems (Snapshot := Snapshot) (item :: items) (x :: valid) =
  (if neReady item then [(x.1.1, neEvent item, x.2)] else []) ++ readyItems items valid.
Proof. unfold readyItems. cbn. by destruct (neReady item). Qed.

Lemma ready_sublist items (valid : list Ready) :
  sublist (map (fun x : Ready => inID x.1.1) (readyItems items valid)) (rowIDs valid).
Proof.
  revert valid. induction items as [|item items IH]; intros valid; [apply sublist_nil_l|].
  destruct valid as [|x valid]; [apply sublist_nil_l|].
  rewrite readyItems_cons. unfold rowIDs. cbn [map]. destruct (neReady item).
  - cbn. by apply sublist_skip.
  - cbn. by apply sublist_cons.
Qed.

Lemma elem_of_ready items (valid : list Ready) (x : Ready) : x ∈ readyItems items valid <->
  exists i item v, items !! i = Some item /\ valid !! i = Some v /\
    neReady item = true /\ x = (v.1.1, neEvent item, v.2).
Proof.
  unfold readyItems. rewrite list_elem_of_omap. split.
  - intros ([item v] & Hin & E). apply list_elem_of_lookup in Hin as [i L].
    apply lookup_zip_Some in L as [L1 L2]. cbn in E. destruct (neReady item) eqn:R; [|discriminate].
    injection E as <-. exists i, item, v. exact (conj L1 (conj L2 (conj R eq_refl))).
  - intros (i & item & v & L1 & L2 & R & ->). exists (item, v). split.
    + apply list_elem_of_lookup. exists i. by apply lookup_zip_Some.
    + cbn. by rewrite R.
Qed.

Definition unresolvedRows (valid : list Ready) (indexes : list nat)
    : list RedisUsageInbox := omap (fun i => (fun x => x.1.1) <$> valid !! i) indexes.

Lemma unresolved_ids valid indexes :
  map inID (unresolvedRows valid indexes) = omap (fun i => rowIDs valid !! i) indexes.
Proof.
  unfold unresolvedRows, rowIDs.
  induction indexes as [|i l IH]; [reflexivity|].
  rewrite !omap_cons, list_lookup_fmap.
  destruct (valid !! i); cbn [fmap option_fmap option_map map]; [by f_equal|exact IH].
Qed.

Lemma NoDup_omap_lookup {A} (l : list A) (ks : list nat) :
  NoDup l -> NoDup ks -> NoDup (omap (fun i => l !! i) ks).
Proof.
  intros Hl. induction 1 as [|k ks Hk _ IH]; [constructor|]. rewrite omap_cons.
  destruct (l !! k) as [x|] eqn:L; [|done]. constructor; [|done].
  intros (j & Hj & Lj)%list_elem_of_omap. by rewrite (NoDup_lookup l k j x Hl L Lj) in Hk.
Qed.

Lemma resolved_item_key e t : evEventKey (neEvent (resolved_item e t)) = evEventKey e.
Proof.
  unfold resolved_item. destruct (resolution_of e t); reflexivity.
Qed.

(** The two parts of the valid rows. *)
Lemma normalized_parts (valid : list Ready) (w w' : W) items indexes err :
  NoDup (rowIDs valid) ->
  Forall (fun x => evEventKey x.1.2 <> EmptyString) valid ->
  normalizeRedisUsageEventsDetailed iteration fault (map (fun x => x.1.2) valid) w
    = (w', (items, indexes, err)) ->
  let ready := readyItems items valid in
  let ready_ids := map (fun x : Ready => inID x.1.1) ready in
  let failed_ids := map inID (unresolvedRows valid indexes) in
  NoDup ready_ids /\ NoDup failed_ids /\
  (err = None -> indexes = []) /\
  (forall id, id ∈ rowIDs valid <-> id ∈ ready_ids \/ id ∈ failed_ids) /\
  (forall id, id ∈ ready_ids -> id ∉ failed_ids) /\
  Forall (fun x : Ready => evEventKey x.1.2 <> EmptyString) ready.
Proof.
  intros ND K H. apply normalize_spec in H as (Len & NDi & E & resolver & S).
  rewrite length_map in Len. cbv zeta. rewrite unresolved_ids.
  assert (Item : forall i v, valid !! i = Some v -> exists item, items !! i = Some item /\
    (i ∈ indexes -> neReady item = false) /\
    (i ∉ indexes -> item = resolved_item v.1.2 (resolveUsageEventType v.1.2 resolver))).
  { intros i v L. destruct (S i v.1.2) as (_ & item & ?); [by rewrite list_lookup_fmap, L|]. by exists item. }
  split_and!.
  - eapply sublist_NoDup; [exact ND|apply ready_sublist].
  - by apply NoDup_omap_lookup.
  - exact E.
  - intros id. split.
    + intros Hid. apply list_elem_of_lookup in Hid as [i L]. unfold rowIDs in L.
      rewrite list_lookup_fmap in L. destruct (valid !! i) as [v|] eqn:Lv; [|discriminate].
      injection L as <-. destruct (Item i v Lv) as (item & Li & R1 & R2).
      destruct (decide (i ∈ indexes)) as [D|D].
      * right. apply list_elem_of_omap. exists i. split; [done|].
        unfold rowIDs. by rewrite list_lookup_fmap, Lv.
      * left. apply list_elem_of_fmap. exists (v.1.1, neEvent item, v.2). split; [reflexivity|].
        apply elem_of_ready. exists i, item, v. split; [exact Li|]. split; [exact Lv|].
        split; [rewrite (R2 D); apply resolved_item_ready|reflexivity].
    + intros [Hid|Hid].
      * eapply sublist_subseteq; [apply ready_sublist|exact Hid].
      * apply list_elem_of_omap in Hid as (i & _ & L). by eapply list_elem_of_lookup_2.
  - intros id (x & -> & Hx)%list_elem_of_fmap (j & Hj & Lj)%list_elem_of_omap.
    apply elem_of_ready in Hx as (i & item & v & Li & Lv & R & ->). cbn [fst] in Lj.
    assert (Lr : rowIDs valid !! i = Some (inID v.1.1)).
    { unfold rowIDs. rewrite list_lookup_fmap, Lv. reflexivity. }
    assert (i = j) as <- by exact (NoDup_lookup (rowIDs valid) i j (inID v.1.1) ND Lr Lj).
    destruct (Item i v Lv) as (item' & Li' & R1 & _). rewrite Li in Li'. injection Li' as <-.
    rewrite (R1 Hj) in R. discriminate R.
  - apply list.Forall_forall. intros x Hx.
    apply elem_of_ready in Hx as (i & item & v & Li & Lv & R & ->). cbn [fst snd].
    destruct (Item i v Lv) as (item' & Li' & R1 & R2). rewrite Li in Li'. injection Li' as <-.
    rewrite R2; [|intros D; rewrite (R1 D) in R; discriminate R]. rewrite resolved_item_key.
    rewrite list.Forall_forall in K. apply K. eapply list_elem_of_lookup_2. exact Lv.
Qed.

Definition readyRows (ready : list Ready) : list RedisUsageInbox := map (fun x => x.1.1) ready.
Definition readyEvents (ready : list Ready) : list UsageEvent := map (fun x => x.1.2) ready.

(** What receivers may be told about the events of a commit. *)
Definition tells (ready : list Ready) (stored : list UsageEvent) (n : Notice Snapshot) : Prop :=
  n = RecentUsage stored \/ n = UsageEventsCommitted stored \/
  n = HeaderSnapshots (omap (fun x => x.2) ready).

(** The two worlds differ only in the clock and in what was handed on. *)
Definition only_notices (w w' : W) (ns : list (Notice Snapshot)) : Prop :=
  wInbox w' = wInbox w /\ wEvents w' = wEvents w /\ wNextEventID w' = wNextEventID w /\
  wIdentities w' = wIdentities w /\ wNotices w' = wNotices w ++ ns.

Lemma only_notices_nil w w' :
  wInbox w' = wInbox w -> wEvents w' = wEvents w -> wNextEventID w' = wNextEventID w ->
  wIdentities w' = wIdentities w -> wNotices w' = wNotices w -> only_notices w w' [].
Proof. unfold only_notices. rewrite app_nil_r. auto. Qed.

Lemma only_notices_trans u v w a b :
  only_notices u v a -> only_notices v w b -> only_notices u w (a ++ b).
Proof.
  intros (A1 & A2 & A3 & A4 & A5) (B1 & B2 & B3 & B4 & B5). unfold only_notices.
  rewrite B5, A5, app_assoc. split_and!; congruence.
Qed.

(** A conditional notice. *)
Lemma notify_if (P : Notice Snapshot -> Prop) (b : bool) n (w w' : W) u :
  P n -> (if b then notify n else ret tt) w = (w', u) ->
  exists ns, only_notices w w' ns /\ Forall P ns.
Proof.
  intros Pn. destruct b; intros H; injection H as <- _.
  - exists [n]. split; [unfold only_notices; auto|]. constructor; [exact Pn|constructor].
  - exists []. split; [by apply only_notices_nil|constructor].
Qed.

Lemma notifyCommitted_spec finishedAt ready stored (w w' : W) err :
  notifyCommitted aggregations service finishedAt stored (omap (fun x => x.2) ready) w = (w', err) ->
  exists ns, only_notices w w' ns /\ Forall (tells ready stored) ns.
Proof.
  unfold notifyCommitted. intros H. apply bind_inv in H as (w1 & u1 & H1 & H).
  apply (notify_if (tells ready stored)) in H1 as (ns1 & O1 & F1); [|left; reflexivity].
  apply bind_inv in H as (w2 & a & H2 & H).
  assert (exists ns, only_notices w1 w2 ns /\ Forall (tells ready stored) ns) as (ns2 & O2 & F2).
  { destruct (hasUsageAggregation service).
    - apply bind_inv in H2 as (w3 & u3 & H2 & H3). injection H3 as <- _.
      apply (notify_if (tells ready stored) true) in H2; [exact H2|right; left; reflexivity].
    - injection H2 as <- _. exists []. split; [by apply only_notices_nil|constructor]. }
  destruct a as [e|].
  - injection H as <- _. exists (ns1 ++ ns2).
    split; [by eapply only_notices_trans|by apply Forall_app].
  - apply bind_inv in H as (w3 & u3 & H3 & H). injection H as <- _.
    apply (notify_if (tells ready stored)) in H3 as (ns3 & O3 & F3); [|right; right; reflexivity].
    exists ((ns1 ++ ns2) ++ ns3).
    split; [eapply only_notices_trans; [by eapply only_notices_trans|exact O3]|].
    apply Forall_app. split; [apply Forall_app; split; assumption|assumption].
Qed.

(** A batch either stores nothing and only marks rows of its own, or it stores
    the events of the rows that are ready in one commit, after marking some of
    the others; then it may tell the receivers, about these events only. *)
Definition batch_effect (fetchedAt : Time) (ids : list Z) (w w' : W) (outcome : ProcessOutcome)
    : Prop :=
  (exists l, (forall id, id ∈ l -> id ∈ ids) /\ touches l w w' /\
     (settles outcome -> finished ids w')) \/
  (exists l w1 w2 ready stored ns,
     (forall id, id ∈ l -> id ∈ ids) /\ touches l w w1 /\
     NoDup (map inID (readyRows ready)) /\
     (forall id, id ∈ map inID (readyRows ready) -> id ∈ ids /\ id ∉ l) /\
     Forall (fun x : Ready => evEventKey x.1.2 <> EmptyString) ready /\
     committed fetchedAt (readyRows ready) (readyEvents ready) stored w1 w2 /\
     only_notices w2 w' ns /\ Forall (tells ready stored) ns /\
     (stored = [] -> ns = []) /\
     (settles outcome -> forall id, id ∈ ids ->
        id ∈ map inID (readyRows ready) \/ finished [id] w1)).

Lemma joinErrors_None errs : joinErrors errs = None -> forall e, e ∈ errs -> e = None.
Proof.
  unfold joinErrors. induction errs as [|[m|] errs IH]; intros H e.
  - by intros ?%elem_of_nil.
  - discriminate.
  - intros [->|X]%elem_of_cons; [reflexivity|]. by apply IH.
Qed.

Lemma ready_ids_eq (ready : list Ready) : map inID (readyRows ready) = map (fun x => inID x.1.1) ready.
Proof. unfold readyRows. by rewrite map_map. Qed.

Lemma finishBatch_spec fetchedAt finishedAt n decodeErr typeErr counts ready (w w' : W) outcome :
  NoDup (map inID (readyRows ready)) -> keys_ok (wInbox w) ->
  unkeyed w (map inID (readyRows ready)) ->
  finishBatch local aggregations fault nowAt service fetchedAt finishedAt n decodeErr typeErr
    counts ready w = (w', outcome) ->
  (exists l, (forall id, id ∈ l -> id ∈ map inID (readyRows ready)) /\ touches l w w' /\
     ~ settles outcome) \/
  (exists w2 stored ns, committed fetchedAt (readyRows ready) (readyEvents ready) stored w w2 /\
     only_notices w2 w' ns /\ Forall (tells ready stored) ns /\
     (stored = [] -> ns = []) /\
     (settles outcome -> typeErr = None \/ requiresRetryWait counts = false)).
Proof.
  intros ND K U H. unfold finishBatch in H. apply bind_inv in H as (w1 & a & H1 & H).
  apply persistBatch_spec in H1. destruct a as [[stored result]|e].
  - right. destruct H1 as [C ->]; [done| |done|].
    { unfold readyRows, readyEvents. by rewrite !length_map. }
    apply bind_inv in H as (w2 & b & H1 & H). exists w1, stored.
    assert (exists ns, only_notices w1 w2 ns /\ Forall (tells ready stored) ns /\
      (stored = [] -> ns = [])) as (ns & O & F & Z0).
    { destruct (0 <? _) eqn:Pos.
      - apply notifyCommitted_spec in H1 as (ns & O & F). exists ns. split_and!; [done|done|].
        intros ->. discriminate Pos.
      - injection H1 as <- _. exists []. split_and!; [by apply only_notices_nil|constructor|done]. }
    exists ns. destruct b as [e|]; injection H as <- <-; split_and!; try done.
    { intros X. by apply failed_unsettled in X. }
    intros [E|(r & [= <-] & _ & X)]; [left|right; exact X]. cbn [snd] in E.
    destruct decodeErr as [d|], typeErr as [t|]; try done;
      cbn in E; by apply joinErrors_None with (e := Some _) in E; [|set_solver].
  - left. apply bind_inv in H as (w2 & c & H2 & H). injection H as <- <-.
    apply markFailed_touches in H2 as (l & Sub & T); [|done|by eapply unkeyed_touches].
    exists l. split_and!; [done| |by apply failed_unsettled]. by eapply touches_nil_trans.
Qed.

Lemma keys_ok_touches l (w w' : W) : touches l w w' -> keys_ok (wInbox w) -> keys_ok (wInbox w').
Proof.
  intros (_ & _ & _ & _ & _ & T) K id r' L. specialize (T id).
  destruct (inboxRows (wInbox w) !! id) as [r|] eqn:E; [|congruence].
  destruct T as (r1 & L1 & I & _). rewrite L in L1. injection L1 as <-. rewrite I. by apply K.
Qed.

Lemma finished_none (ids : list Z) (w : W) (P : Prop) :
  (P -> finished ids w) -> forall id, id ∈ ids -> P -> finished [id] w.
Proof. intros F id Hid HP i r ->%list_elem_of_singleton L. by apply (F HP id). Qed.

Lemma processRows_spec fetchedAt finishedAt rows (w w' : W) outcome :
  NoDup (map inID rows) -> unkeyed w (map inID rows) -> keys_ok (wInbox w) ->
  processRedisInboxRows local unmarshal parseIP headerSnapshot iteration aggregations fault nowAt
    service fetchedAt finishedAt rows w = (w', outcome) ->
  batch_effect fetchedAt (map inID rows) w w' outcome.
Proof.
  intros ND U K H. unfold processRedisInboxRows in H. apply bind_inv in H as (w1 & a & H1 & H).
  apply decodeRows_spec in H1 as (marked & valid & T1 & NDm & Sub & Fin & Out); [|done|done].
  destruct a as [[res err]|[valid' errs]].
  { injection H as <- <-. left. exists marked. split_and!; [done|done|].
    intros X. by destruct Out. }
  destruct Out as (-> & NDv & P & D & Keys). cbn [app] in *.
  destruct valid as [|v0 vs] eqn:Ev.
  { assert (Fin' : finished (map inID rows) w1).
    { intros id r Hid. apply Fin. apply P in Hid as [?|Hid]; [done|]. by apply elem_of_nil in Hid. }
    destruct (joinErrors errs); injection H as <- <-; left; exists marked; split_and!; done. }
  rewrite <- Ev in *. clear Ev v0 vs.
  apply bind_inv in H as (w2 & nrm & H2 & H). destruct nrm as [[items indexes] typeErr].
  pose proof (normalize_touches _ _ _ _ H2) as T2.
  apply normalized_parts in H2 as (NDr & NDf & Eidx & Parts & Disj & Kr); [|done|done].
  set (ready := readyItems items valid) in *. rewrite <- (ready_ids_eq ready) in NDr, Disj.
  setoid_rewrite <- (ready_ids_eq ready) in Parts.
  set (failed := unresolvedRows valid indexes) in *.
  assert (T12 : touches marked w w2) by (by eapply touches_trans_nil).
  assert (Vsub : forall id, id ∈ rowIDs valid -> id ∈ map inID rows) by (intros id ?; apply P; by right).
  assert (Vnot : forall id, id ∈ rowIDs valid -> id ∉ marked) by (intros id X Y; by apply (D id)).
  assert (U2 : unkeyed w2 (map inID rows)) by (by eapply unkeyed_touches).
  apply bind_inv in H as (w3 & counts & H3 & H).
  assert (Uf : unkeyed w2 (map inID failed)).
  { eapply unkeyed_sub; [|exact U2]. intros id X. apply Vsub, Parts. by right. }
  assert (exists l3, (forall id, id ∈ l3 -> id ∈ map inID failed) /\ touches l3 w2 w3 /\
    (typeErr = None \/ requiresRetryWait counts = false -> finished (map inID failed) w3))
    as (l3 & Sub3 & T3 & E3).
  { destruct typeErr as [te|].
    - pose proof (markFailed_finished _ _ _ _ _ NDf Uf H3) as Ff.
      apply markFailed_touches in H3 as (l3 & ? & ?); [|done|done].
      exists l3. split_and!; [done|done|]. intros [X|X]; [discriminate X|by apply Ff].
    - injection H3 as <- _. exists []. split_and!; [by intros ? ?%elem_of_nil|apply touches_refl|].
      intros _. unfold failed. rewrite Eidx by done. apply finished_nil. }
  assert (T13 : touches (marked ++ l3) w w3).
  { eapply touches_trans; [|done|done]. intros id X Y. apply (Vnot id); [|done].
    apply Parts. right. by apply Sub3. }
  assert (Sub13 : forall id, id ∈ marked ++ l3 -> id ∈ map inID rows).
  { intros id [X|X]%elem_of_app; [by apply Sub|]. apply Vsub, Parts. right. by apply Sub3. }
  destruct (negb (bool_decide (typeErr = None)) && bool_decide (ready = [])) eqn:Edge.
  { injection H as <- <-. left. exists (marked ++ l3). split_and!; [done|done|].
    intros X. exfalso. destruct typeErr as [te|]; [|discriminate Edge].
    destruct (joinErrors [joinErrors errs; Some te]) as [e|] eqn:J.
    - by apply failed_unsettled in X.
    - apply joinErrors_None with (e := Some te) in J; [discriminate J|by right; left]. }
  assert (Rsub : forall id, id ∈ map inID (readyRows ready) -> id ∈ rowIDs valid).
  { intros id X. apply Parts. by left. }
  apply finishBatch_spec in H as [(l & Subl & T & E)|(w4 & stored & ns & C & O & F & Z0 & E)];
    [| |done|by eapply keys_ok_touches|].
  - left. exists ((marked ++ l3) ++ l). split_and!.
    + intros id [X|X]%elem_of_app; [by apply Sub13|by apply Vsub, Rsub, Subl].
    + eapply touches_trans; [|done|done]. intros id [X|X]%elem_of_app Y.
      * apply (Vnot id); [by apply Rsub, Subl|done].
      * apply (Disj id); [by apply Subl|by apply Sub3].
    + intros X. by destruct E.
  - right. exists (marked ++ l3), w3, w4, ready, stored, ns. split_and!; try done.
    + intros id X. split; [by apply Vsub, Rsub|]. intros [Y|Y]%elem_of_app.
      * by apply (Vnot id); [apply Rsub|].
      * by apply (Disj id); [|apply Sub3].
    + intros X id Hid. apply E in X. apply P in Hid as [Hid|Hid].
      * right. eapply finished_touches; [exact T3| |].
        { intros i ->%list_elem_of_singleton Y. apply (Vnot id); [|done].
          apply Parts. right. by apply Sub3. }
        eapply finished_touches; [exact T2|by intros ? _ ?%elem_of_nil|].
        intros i r ->%list_elem_of_singleton L. by apply (Fin id).
      * apply Parts in Hid as [Hid|Hid]; [by left|right].
        intros i r ->%list_elem_of_singleton L. by apply (E3 X id).
  - eapply unkeyed_sub; [|eapply unkeyed_touches; [exact T3|exact U2]].
    intros id X. by apply Vsub, Rsub.
Qed.

(** ** The ledger *)

(** [origin] remembers which inbox row every stored event came from: the event
    keys are those of [origin], and a row is finished with a key exactly when
    [origin] has it.  Rows that the cleanup deleted stay in [origin]. *)
Definition ledger (w : W) (origin : gmap Z string) : Prop :=
  table_ok (wInbox w) /\
  map snd (map_to_list origin) ≡ₚ map evEventKey (wEvents w) /\
  map evID (wEvents w) = seqZ 1 (Z.of_nat (length (wEvents w))) /\
  wNextEventID w = 1 + Z.of_nat (length (wEvents w)) /\
  (forall id k, origin !! id = Some k -> id < inboxNextID (wInbox w)) /\
  (forall id r, inboxRows (wInbox w) !! id = Some r -> keyOf r = origin !! id).

Lemma ledger_touches l (w w' : W) origin :
  (forall id r, id ∈ l -> inboxRows (wInbox w) !! id = Some r -> processable r = true) ->
  touches l w w' -> ledger w origin -> ledger w' origin.
Proof.
  intros Pr (E1 & E2 & _ & _ & E5 & T) ([N Tok] & P & I & Nx & B & K).
  unfold ledger. rewrite E1, E2, E5. split_and!; try done.
  - split; [lia|]. intros id r' L. specialize (T id). rewrite E5.
    destruct (inboxRows (wInbox w) !! id) as [r|] eqn:E; [|congruence].
    destruct T as (r1 & L1 & Ii & Ns & _ & O). rewrite L in L1. injection L1 as <-.
    destruct (Tok _ _ E) as (H1 & H2 & H3). split_and!; [congruence|lia|lia|].
    destruct (decide (id ∈ l)); [eauto|]. by rewrite Ns.
  - intros id r' L. specialize (T id).
    destruct (inboxRows (wInbox w) !! id) as [r|] eqn:E; [|congruence].
    destruct T as (r1 & L1 & _ & Ns & Kn & _). rewrite L in L1. injection L1 as <-.
    rewrite <- (K _ _ E). destruct (decide (id ∈ l)); [|by rewrite Ns].
    rewrite Kn by done. symmetry. by eapply processable_unkeyed, Pr.
Qed.

Lemma ledger_notices (w w' : W) ns origin : only_notices w w' ns -> ledger w origin -> ledger w' origin.
Proof. intros (E1 & E2 & E3 & E4 & _). unfold ledger. by rewrite E1, E2, E3. Qed.

Lemma stored_keys events stored : Forall2 stored_as events stored ->
  map evEventKey stored = map evEventKey events.
Proof.
  induction 1 as [|e s es ss (now & id & ->) _ IH]; [reflexivity|]. cbn [map]. by rewrite IH.
Qed.

Lemma map_evEventKey_stored stored : map evEventKey (map storedEvent stored) = map evEventKey stored.
Proof. rewrite map_map. by apply map_ext. Qed.

Lemma map_evID_stored stored : map evID (map storedEvent stored) = map evID stored.
Proof. rewrite map_map. by apply map_ext. Qed.

(** Keys of a table as the ledger has them, while a commit marks row after row. *)
Definition mirrors (t : InboxTable) (origin : gmap Z string) : Prop :=
  table_ok t /\ (forall id k, origin !! id = Some k -> id < inboxNextID t) /\
  (forall id r, inboxRows t !! id = Some r -> keyOf r = origin !! id).

Definition add_update (origin : gmap Z string) (u : RedisUsageInboxProcessedUpdate) : gmap Z string :=
  <[updID u := updEventKey u]> origin.

Lemma setProcessed_keyOf key at_ now r : key <> EmptyString ->
  keyOf (setProcessed local key at_ now r) = Some key.
Proof.
  intros H. unfold keyOf. cbn [setProcessed inStatus inUsageEventKey].
  rewrite bool_decide_true by reflexivity. cbn [andb].
  destruct (key =?s EmptyString) eqn:E; [|reflexivity]. by apply String.eqb_eq in E.
Qed.

Lemma markOne_mirrors now at_ t u r origin :
  inboxRows t !! updID u = Some r -> processable r = true -> updEventKey u <> EmptyString ->
  mirrors t origin -> mirrors (markOne local now at_ t u) (add_update origin u).
Proof.
  intros L P Hk (T & B & K). unfold add_update. split_and!.
  - eapply evolves_ok; [exact T|]. unfold markOne, MarkRedisUsageInboxProcessed, exec. cbn [fst].
    apply evolves_update.
    + intros id r' ->%list_elem_of_singleton L'. congruence.
    + reflexivity.
    + intros r' P' O'. by apply setProcessed_ok.
  - change (inboxNextID (markOne local now at_ t u)) with (inboxNextID t). intros id k.
    destruct (decide (id = updID u)) as [->|Ne].
    + intros _. apply T in L as (_ & [_ L] & _). exact L.
    + rewrite lookup_insert_ne by congruence. apply B.
  - intros id r'. rewrite markOne_lookup. destruct (decide (id = updID u)) as [->|Ne].
    + rewrite L. intros (r1 & _ & ->)%fmap_Some. rewrite lookup_insert_eq.
      by apply setProcessed_keyOf.
    + rewrite lookup_insert_ne by congruence.
      intros (r1 & L1 & ->)%fmap_Some. rewrite ?decide_False by done. by apply K.
Qed.

Lemma marks_mirror now at_ (us : list RedisUsageInboxProcessedUpdate) t origin :
  NoDup (map updID us) ->
  (forall u, u ∈ us -> updEventKey u <> EmptyString /\
     exists r, inboxRows t !! updID u = Some r /\ processable r = true) ->
  mirrors t origin ->
  mirrors (foldl (markOne local now at_) t us) (foldl add_update origin us) /\
  map snd (map_to_list (foldl add_update origin us))
    ≡ₚ map updEventKey us ++ map snd (map_to_list origin).
Proof.
  revert t origin. induction us as [|u us IH]; intros t origin ND H M; [done|].
  cbn [map] in ND. apply NoDup_cons in ND as [Nin ND].
  destruct (H u) as (Hk & r & L & P); [by left|]. cbn [foldl].
  destruct (IH (markOne local now at_ t u) (add_update origin u)) as [M' Perm]; [done| | |].
  - intros v Hv. destruct (H v) as (Hk' & r' & L' & P'); [by right|]. split; [done|].
    exists r'. split; [|done]. rewrite markOne_lookup, L'. cbn.
    rewrite decide_False; [done|]. intros E. apply Nin. rewrite <- E.
    by apply list_elem_of_fmap_2.
  - by eapply markOne_mirrors.
  - split; [done|]. rewrite Perm. unfold add_update at 1.
    assert (N : origin !! updID u = None).
    { destruct M as (_ & _ & K). rewrite <- (K _ _ L). by apply processable_unkeyed. }
    rewrite (map_to_list_insert origin _ _ N). cbn [map snd]. apply Permutation_sym, Permutation_middle.
Qed.

Lemma ledger_committed fetchedAt rows events stored (w w' : W) origin :
  NoDup (map inID rows) -> length rows = length events ->
  Forall (fun e => evEventKey e <> EmptyString) events ->
  (forall row, row ∈ rows -> exists r, inboxRows (wInbox w) !! inID row = Some r /\ processable r = true) ->
  committed fetchedAt rows events stored w w' -> ledger w origin ->
  exists origin', ledger w' origin' /\ origin ⊆ origin'.
Proof.
  intros ND Len Kn Pr (F & I & Ev & Nx & _ & _ & now & Inb) (T & P & Ids & Nx0 & B & K).
  pose proof (Forall2_length _ _ _ F) as LF. pose proof (stored_keys _ _ F) as SK.
  destruct (marks_mirror now fetchedAt (eventUpdates rows stored) (wInbox w) origin) as [(T' & B' & K') Perm].
  { by rewrite eventUpdates_ids by lia. }
  { intros u Hu. assert (KU : updEventKey u ∈ map evEventKey stored).
    { rewrite <- (eventUpdates_keys rows stored) by lia. by apply list_elem_of_fmap_2. }
    assert (IU : updID u ∈ map inID rows).
    { rewrite <- (eventUpdates_ids rows stored) by lia. by apply list_elem_of_fmap_2. }
    split.
    - rewrite SK in KU. apply list_elem_of_fmap in KU as (e & -> & He).
      rewrite list.Forall_forall in Kn. by apply Kn.
    - apply list_elem_of_fmap in IU as (row & -> & Hr). by apply Pr. }
  { done. }
  exists (foldl add_update origin (eventUpdates rows stored)). split.
  - unfold ledger. rewrite Inb, Ev, Nx. split_and!; try done.
    + rewrite Perm, map_app, map_evEventKey_stored, eventUpdates_keys, P by lia.
      apply Permutation_app_comm.
    + rewrite map_app, map_evID_stored, length_app, length_map, I, Ids, Nx0.
      rewrite Nat2Z.inj_add, seqZ_app by lia. reflexivity.
    + rewrite length_app, length_map, Nx0. lia.
  - clear -ND Len LF Pr K. apply map_subseteq_spec. intros id k Hd.
    assert (N : id ∉ map inID rows).
    { intros (row & -> & Hr)%list_elem_of_fmap. destruct (Pr _ Hr) as (r & L & Pp).
      rewrite <- (K _ _ L), processable_unkeyed in Hd by done. discriminate. }
    rewrite <- (eventUpdates_ids rows stored) in N by lia. clear ND Len LF Pr K.
    revert origin Hd N. induction (eventUpdates rows stored) as [|u us IH]; intros origin Hd N; [done|].
    cbn [map] in N. apply not_elem_of_cons in N as [N1 N2]. cbn [foldl]. apply IH; [|done].
    unfold add_update. by rewrite lookup_insert_ne.
Qed.

(** ** A whole run *)

Lemma StronglySorted_lt_NoDup {A} (f : A -> Z) (l : list A) :
  StronglySorted (fun r s => f r < f s) l -> NoDup (map f l).
Proof.
  induction 1 as [|a l _ IH F]; [constructor|]. cbn [map]. constructor; [|done].
  intros (b & E & Hb)%list_elem_of_fmap. rewrite list.Forall_forall in F.
  specialize (F _ Hb). lia.
Qed.

Lemma listed_spec f t limit rows : table_ok t ->
  ListProcessableRedisUsageInbox f t limit = Ok rows ->
  NoDup (map inID rows) /\
  forall row, row ∈ rows -> exists r, inboxRows t !! inID row = Some r /\ processable r = true /\
    row = processingColumns r.
Proof.
  intros [N T]. unfold ListProcessableRedisUsageInbox, query. destruct f; [discriminate|].
  intros H. apply Ok_inj in H. rewrite selectRows_take in H.
  assert (Sorted : StronglySorted (fun r s => inID r < inID s) (selectRows processable 0 t)).
  { destruct (select_sorted_aux t processable (Z.to_nat (inboxNextID t)) 0) as [S _].
    - intros id r L. by apply T in L as [? _].
    - rewrite Z2Nat.id in S by lia. exact S. }
  assert (Same : map inID rows = map inID (if 0 <? limit
    then take (Z.to_nat limit) (selectRows processable 0 t) else selectRows processable 0 t)).
  { rewrite <- H, map_map. by apply map_ext. }
  split.
  - rewrite Same. apply StronglySorted_lt_NoDup.
    destruct (0 <? limit); [by apply StronglySorted_take|done].
  - intros row Hrow. rewrite <- H in Hrow. apply list_elem_of_fmap in Hrow as (r & -> & Hr).
    assert (Hr' : r ∈ selectRows processable 0 t).
    { destruct (0 <? limit); [|done]. by eapply subseteq_take. }
    apply seqZ_filter_lookup in Hr' as (P & id & _ & L). exists r. cbn [processingColumns inID].
    destruct (T _ _ L) as (-> & _). auto.
Qed.

Definition run (startedAt finishedAt : Time) : M ProcessOutcome :=
  ProcessRedisUsageInbox local unmarshal parseIP headerSnapshot iteration aggregations fault nowAt
    service startedAt finishedAt.

(** A run either does nothing to the tables or is one batch on the listed rows. *)
Lemma run_spec startedAt finishedAt (w w' : W) outcome :
  table_ok (wInbox w) -> run startedAt finishedAt w = (w', outcome) ->
  (touches [] w w' /\
     (settles outcome -> selectRows processable 0 (wInbox w) = []) /\
     (forall r, outcome.1 = Some r -> rbBatchFull r = false)) \/
  exists rows, ListProcessableRedisUsageInbox None (wInbox w) redisInboxProcessLimit = Ok rows /\
    rows <> [] /\ batch_effect (NormalizeStorageTime startedAt) (map inID rows) (tick 1 w) w' outcome.
Proof.
  intros T H. unfold run, ProcessRedisUsageInbox in H. apply bind_inv in H as (w1 & a & H1 & H).
  unfold onInbox in H1. injection H1 as <- <-.
  assert (Same : touches [] w (tick 1 (setInbox (wInbox w) w))) by (by apply touches_same).
  destruct (fault (wClock w)) as [e|] eqn:F; cbn [ListProcessableRedisUsageInbox query wrapped] in H.
  { injection H as <- <-. left. split; [done|]. split.
    - intros X. by apply failed_unsettled in X.
    - by intros r [= <-]. }
  cbn [wrapped] in H.
  destruct (map processingColumns (selectRows processable redisInboxProcessLimit (wInbox w)))
    as [|row rows] eqn:L.
  - left. assert (Em : selectRows processable 0 (wInbox w) = []).
    { apply map_eq_nil in L. rewrite selectRows_take in L.
      by destruct (selectRows processable 0 (wInbox w)). }
    destruct (negb (hasUsageAggregation service)).
    + unfold catchUp in H. split; [|split; [done|]].
      2: { intros r X. repeat case_match; injection H as <- <-; by injection X as <-. }
      assert (w' = tick 1 (tick 1 (setInbox (wInbox w) w))) as ->.
      { repeat case_match; by injection H. }
      by apply touches_same.
    + injection H as <- <-. split; [done|]. split; [done|]. by intros r [= <-].
  - right. exists (row :: rows). split; [by unfold ListProcessableRedisUsageInbox, query; rewrite L|].
    split; [done|].
    destruct (listed_spec None (wInbox w) redisInboxProcessLimit (row :: rows) T) as [ND Pr].
    { unfold ListProcessableRedisUsageInbox, query. by rewrite L. }
    replace (tick 1 (setInbox (wInbox w) w)) with (tick 1 w) in H by (by destruct w).
    apply processRows_spec in H; [done|done| |].
    + intros id r Hid Lr. apply list_elem_of_fmap in Hid as (row' & -> & Hr).
      destruct (Pr _ Hr) as (r' & L' & P' & _). cbn in Lr. rewrite L' in Lr. injection Lr as <-.
      by apply processable_unkeyed.
    + intros id r Lr. by apply T in Lr as [? _].
Qed.

Lemma ledger_ok (w : W) origin : ledger w origin -> table_ok (wInbox w).
Proof. by intros [T _]. Qed.

Lemma run_ledger startedAt finishedAt (w w' : W) outcome origin :
  run startedAt finishedAt w = (w', outcome) -> ledger w origin ->
  exists origin', ledger w' origin' /\ origin ⊆ origin'.
Proof.
  intros H Lg. pose proof (ledger_ok _ _ Lg) as T.
  apply run_spec in H as [[Tch _]|(rows & L & _ & Eff)]; [| |done].
  { exists origin. split; [|done]. eapply ledger_touches; [|exact Tch|done]. by intros id r ?%elem_of_nil. }
  destruct (listed_spec _ _ _ _ T L) as [_ Pr].
  assert (Pr' : forall id r, id ∈ map inID rows -> inboxRows (wInbox w) !! id = Some r ->
    processable r = true).
  { intros id r (row & -> & Hr)%list_elem_of_fmap Lr. destruct (Pr _ Hr) as (r' & L' & P' & _).
    rewrite L' in Lr. by injection Lr as <-. }
  assert (Lg1 : ledger (tick 1 w) origin) by done.
  destruct Eff as [(l & Sub & Tch & _)|(l & w1 & w2 & ready & stored & ns & Sub & Tch & ND & Sub2 & Kn & C & O & _)].
  - exists origin. split; [|done]. eapply ledger_touches; [|exact Tch|done].
    intros id r Hid. apply Pr'. by apply Sub.
  - assert (Lg2 : ledger w1 origin).
    { eapply ledger_touches; [|exact Tch|done]. intros id r Hid. apply Pr'. by apply Sub. }
    eapply ledger_committed in C as (origin' & Lg' & Inc); [| | | | |exact Lg2].
    + exists origin'. split; [by eapply ledger_notices|done].
    + done.
    + unfold readyRows, readyEvents. by rewrite !length_map.
    + unfold readyEvents. by apply Forall_map.
    + intros row Hr. destruct (Sub2 (inID row)) as [Hid Hl]; [by apply list_elem_of_fmap_2|].
      apply list_elem_of_fmap in Hid as (row0 & Eid & Hr0).
      destruct (Pr _ Hr0) as (r & Lr & P & _). rewrite <- Eid in Lr.
      destruct Tch as (_ & _ & _ & _ & _ & Tch). specialize (Tch (inID row)).
      change (wInbox (tick 1 w)) with (wInbox w) in Tch. rewrite Lr in Tch.
      destruct Tch as (r1 & L1 & _ & N1 & _). exists r1. split; [done|]. by rewrite N1.
Qed.

(** The service at work: messages arrive, identities are synchronised, the inbox
    is processed and cleaned up, in any order and with any failures. *)
Inductive sync_step (w : W) : W -> Prop :=
| sync_insert source messages poppedAt :
    sync_step w (insertRedisInboxMessages local sha256hex fault nowAt source messages poppedAt w).1
| sync_identities rows :
    sync_step w (mkWorld (wInbox w) (wEvents w) (wNextEventID w) rows (wClock w) (wNotices w))
| sync_process startedAt finishedAt : sync_step w (run startedAt finishedAt w).1
| sync_cleanup fault1 fault2 now :
    sync_step w (setInbox (CleanupRedisUsageInbox local fault1 fault2 (wInbox w) now).1.1 w).

Definition sync_reaches : W -> W -> Prop := clos_refl_trans_1n _ sync_step.

Definition empty_world : W := mkWorld empty_inbox [] 1 [] 0 [].

(** New rows are pending, so they have no key, and their keys are new. *)
Lemma ledger_evolves (w : W) t origin :
  evolves (wInbox w) t ->
  (forall id r r', inboxRows (wInbox w) !! id = Some r -> inboxRows t !! id = Some r' -> r' = r) ->
  (forall id r', inboxRows (wInbox w) !! id = None -> inboxRows t !! id = Some r' -> keyOf r' = None) ->
  ledger w origin -> ledger (setInbox t w) origin.
Proof.
  intros Ev Old New (T & P & I & Nx & B & K).
  split_and!; try done; [by eapply evolves_ok| |]; destruct Ev as [N Ev]; cbn [setInbox wInbox].
  - intros id k Hk. apply B in Hk. lia.
  - intros id r' L. specialize (Ev id). destruct (inboxRows (wInbox w) !! id) as [r|] eqn:E.
    + rewrite (Old _ _ _ E L). by apply K.
    + rewrite (New _ _ E L). destruct Ev as [Ev|(r2 & _ & _ & _ & Bd)]; [congruence|].
      symmetry. destruct (origin !! id) as [k|] eqn:Ho; [|done]. apply B in Ho. lia.
Qed.

Lemma insert_pending fault0 now t inputs id r' :
  inboxRows t !! id = None ->
  inboxRows (InsertRedisUsageInboxMessages local sha256hex fault0 now t inputs).1 !! id = Some r' ->
  processable r' = true.
Proof.
  intros N L. pose proof (insert_cases local sha256hex fault0 now t inputs) as C.
  destruct (InsertRedisUsageInboxMessages _ _ _ _ _ _) as [t' res]. cbn [fst] in L.
  destruct C as [[-> _]|(_ & _ & C & _)]; [congruence|].
  pose proof (createRows_spec local now (map (newInboxRow local sha256hex) inputs) t) as S.
  rewrite C in S. destruct S as (_ & S2 & S3). rewrite S3 in L.
  case_decide; [|congruence]. rewrite S2, list_lookup_imap, list_lookup_fmap in L.
  destruct (inputs !! _); [|done]. cbn in L. by injection L as <-.
Qed.

Lemma insert_old fault0 now t inputs id r r' : table_ok t ->
  inboxRows t !! id = Some r ->
  inboxRows (InsertRedisUsageInboxMessages local sha256hex fault0 now t inputs).1 !! id = Some r' ->
  r' = r.
Proof.
  intros [_ T] N L. pose proof (insert_cases local sha256hex fault0 now t inputs) as C.
  destruct (InsertRedisUsageInboxMessages _ _ _ _ _ _) as [t' res]. cbn [fst] in L.
  destruct C as [[-> _]|(_ & _ & C & _)]; [congruence|].
  pose proof (createRows_spec local now (map (newInboxRow local sha256hex) inputs) t) as S.
  rewrite C in S. destruct S as (_ & _ & S3). rewrite S3 in L.
  destruct (T _ _ N) as (_ & B & _). rewrite decide_False in L by lia. congruence.
Qed.

Lemma cleanup_sub fault1 fault2 t now id r :
  inboxRows (CleanupRedisUsageInbox local fault1 fault2 t now).1.1 !! id = Some r ->
  inboxRows t !! id = Some r.
Proof.
  unfold CleanupRedisUsageInbox, exec. destruct fault1; [done|]. cbn [fst snd].
  assert (D : forall p t r, inboxRows (deleteRows p t).1 !! id = Some r -> inboxRows t !! id = Some r).
  { intros p t0 r0. rewrite deleteRows_lookup. destruct (inboxRows t0 !! id) as [x|]; [|done].
    by destruct (p x). }
  destruct fault2; cbn [fst]; intros L; [by eapply D|]. eapply D. by eapply D.
Qed.

Lemma step_ledger (w w' : W) origin : sync_step w w' -> ledger w origin ->
  exists origin', ledger w' origin' /\ origin ⊆ origin'.
Proof.
  intros S Lg. pose proof (ledger_ok _ _ Lg) as T. destruct S as [source messages poppedAt|rows|started finished|fault1 fault2 now].
  - exists origin. split; [|done]. unfold insertRedisInboxMessages, onInbox, InsertRedisUsageInboxRawMessages.
    set (inputs := map _ messages).
    destruct (InsertRedisUsageInboxMessages _ _ _ _ _ inputs) as [t res] eqn:E. cbn [fst].
    replace t with (InsertRedisUsageInboxMessages local sha256hex (fault (wClock w)) (nowAt (wClock w)) (wInbox w) inputs).1 by (by rewrite E).
    eapply (ledger_notices (setInbox _ w) _ []); [by apply only_notices_nil|].
    apply ledger_evolves; [by apply insert_evolves| | |done].
    + intros id r r' L L'. by eapply insert_old.
    + intros id r' L L'. eapply processable_unkeyed, insert_pending; [exact L|exact L'].
  - by exists origin.
  - destruct (run started finished w) as [w' outcome] eqn:E. by eapply run_ledger.
  - exists origin. split; [|done]. apply ledger_evolves; [| | |done].
    + apply (step_evolves local sha256hex _ _ T). apply step_cleanup.
    + intros id r r' L L'. apply cleanup_sub in L'. congruence.
    + intros id r' L L'. apply cleanup_sub in L'. congruence.
Qed.

(** C1: exactly once.  Whatever statements fail and however arrivals, runs,
    identity changes and cleanups interleave, every stored event comes from its
    own inbox row, which is finished with the key of the event, and every row
    finished with a key has its event; the events are numbered one by one. *)
Theorem process_exactly_once (w : W) :
  sync_reaches empty_world w -> exists origin, ledger w origin.
Proof.
  intros R. assert (L0 : ledger empty_world ∅).
  { split; [apply empty_inbox_ok|]. split_and!; done. }
  revert L0. generalize (∅ : gmap Z string). unfold sync_reaches in R.
  induction R as [w|u v w S _ IH]; intros origin Lg; [by exists origin|].
  apply (step_ledger _ _ _ S) in Lg as (origin' & Lg & _). by apply (IH origin').
Qed.

(** After a commit the rows of the batch are processed with the keys of their
    events, and no other row changed. *)
Lemma committed_rows fetchedAt rows events stored (w w' : W) id :
  NoDup (map inID rows) -> length rows = length events -> keys_ok (wInbox w) ->
  committed fetchedAt rows events stored w w' ->
  exists now, inboxRows (wInbox w') !! id =
    (fun r => if decide (id ∈ map inID rows)
              then setProcessed local (eventKeyCase (eventUpdates rows stored) id (inUsageEventKey r))
                     fetchedAt now r else r) <$> inboxRows (wInbox w) !! id.
Proof.
  intros ND Len K (F & _ & _ & _ & _ & _ & now & Inb). pose proof (Forall2_length _ _ _ F).
  exists now. rewrite Inb, marked_lookup.
  - by rewrite eventUpdates_ids by lia.
  - by rewrite eventUpdates_ids by lia.
  - done.
Qed.

(** A settling run leaves none of the rows it took to be processed again. *)
Lemma settles_batch startedAt finishedAt (w w' : W) outcome rows :
  table_ok (wInbox w) -> run startedAt finishedAt w = (w', outcome) -> settles outcome ->
  ListProcessableRedisUsageInbox None (wInbox w) redisInboxProcessLimit = Ok rows ->
  forall row r, row ∈ rows -> inboxRows (wInbox w') !! inID row = Some r -> processable r = false.
Proof.
  intros T H St L. apply run_spec in H as [(_ & Em & _)|(rows' & L' & _ & Eff)]; [| |done].
  { intros row r Hr. unfold ListProcessableRedisUsageInbox, query in L. apply Ok_inj in L.
    rewrite selectRows_take, (Em St) in L.
    destruct (0 <? _); rewrite ?take_nil in L; rewrite <- L in Hr; by apply elem_of_nil in Hr. }
  rewrite L in L'. apply Ok_inj in L' as <-.
  intros row r Hrow Lr. assert (Hid : inID row ∈ map inID rows) by (by apply list_elem_of_fmap_2).
  destruct Eff as [(l & _ & _ & Fin)|(l & w1 & w2 & ready & stored & ns & _ & Tch & ND & _ & _ & C & (O & _) & _ & _ & Fin)].
  - by apply (Fin St (inID row)).
  - rewrite O in Lr. assert (K1 : keys_ok (wInbox w1)).
    { eapply keys_ok_touches; [exact Tch|]. intros i x Li. by apply T in Li as [? _]. }
    assert (Len : length (readyRows ready) = length (readyEvents ready)).
    { unfold readyRows, readyEvents. by rewrite !length_map. }
    destruct (committed_rows _ _ _ _ _ _ (inID row) ND Len K1 C) as [now E].
    rewrite E in Lr. apply fmap_Some in Lr as (r1 & L1 & ->).
    destruct (decide (inID row ∈ map inID (readyRows ready))) as [D|D]; [done|].
    destruct (Fin St _ Hid) as [?|Fn]; [done|]. apply (Fn (inID row)); [by left|done].
Qed.

(** The keys of the rows that wait. *)
Definition waiting (t : InboxTable) : gset Z :=
  dom (filter (fun p : Z * RedisUsageInbox => processable p.2 = true) (inboxRows t)).

Lemma elem_of_waiting (t : InboxTable) id :
  id ∈ waiting t <-> exists r, inboxRows t !! id = Some r /\ processable r = true.
Proof.
  unfold waiting. rewrite elem_of_dom. unfold is_Some. by setoid_rewrite map_lookup_filter_Some.
Qed.

(** A batch leaves the rows of others as they are. *)
Lemma batch_effect_others fetchedAt ids (w w' : W) outcome id :
  table_ok (wInbox w) -> batch_effect fetchedAt ids w w' outcome -> id ∉ ids ->
  inboxRows (wInbox w') !! id = inboxRows (wInbox w) !! id.
Proof.
  intros T Eff Nin.
  assert (Same : forall l w1, (forall id, id ∈ l -> id ∈ ids) -> touches l w w1 ->
    inboxRows (wInbox w1) !! id = inboxRows (wInbox w) !! id).
  { intros l w1 Sub (_ & _ & _ & _ & _ & X). specialize (X id).
    destruct (inboxRows (wInbox w) !! id) as [r|]; [|done].
    destruct X as (r' & -> & _ & N & _). by rewrite N by auto. }
  destruct Eff as [(l & Sub & Tch & _)|(l & w1 & w2 & ready & stored & ns & Sub & Tch & ND & Rsub & _ & C & (O & _) & _)].
  - by apply (Same l).
  - assert (K1 : keys_ok (wInbox w1)).
    { eapply keys_ok_touches; [exact Tch|]. intros i x Li. by apply T in Li as [? _]. }
    assert (Len : length (readyRows ready) = length (readyEvents ready)).
    { unfold readyRows, readyEvents. by rewrite !length_map. }
    destruct (committed_rows _ _ _ _ _ _ id ND Len K1 C) as [now E].
    rewrite O, E, (Same l w1 Sub Tch).
    destruct (inboxRows (wInbox w) !! id) as [r|]; [|done]. cbn [fmap option_fmap option_map].
    rewrite decide_False; [done|]. intros X. by apply Nin, Rsub.
Qed.

(** A settling run with a full batch takes all rows of the batch from the
    backlog and adds none. *)
Lemma settled_backlog startedAt finishedAt (w w' : W) outcome r :
  table_ok (wInbox w) -> run startedAt finishedAt w = (w', outcome) -> settles outcome ->
  outcome.1 = Some r -> rbBatchFull r = true ->
  exists rows, ListProcessableRedisUsageInbox None (wInbox w) redisInboxProcessLimit = Ok rows /\
    rows <> [] /\ waiting (wInbox w') = waiting (wInbox w) ∖ list_to_set (map inID rows) /\
    (size (waiting (wInbox w')) + length rows = size (waiting (wInbox w)))%nat.
Proof.
  intros T H St O1 Full. pose proof H as H0.
  apply run_spec in H as [(_ & _ & N)|(rows & L & Ne & Eff)]; [by rewrite (N r O1) in Full| |done].
  exists rows. split; [done|]. split; [done|].
  destruct (listed_spec _ _ _ _ T L) as [ND Pr].
  pose proof (settles_batch _ _ _ _ _ _ T H0 St L) as Fin.
  assert (Eq : waiting (wInbox w') = waiting (wInbox w) ∖ list_to_set (map inID rows)).
  { apply set_eq. intros id. rewrite elem_of_difference, !elem_of_waiting, elem_of_list_to_set.
    destruct (decide (id ∈ map inID rows)) as [D|D].
    - split; [|tauto]. intros (x & Lx & Px). apply list_elem_of_fmap in D as (row & -> & D).
      by rewrite (Fin _ _ D Lx) in Px.
    - rewrite (batch_effect_others _ _ _ _ _ id T Eff D). tauto. }
  split; [exact Eq|]. rewrite Eq, size_difference.
  - rewrite size_list_to_set, length_map by done.
    assert (Sz : (size (list_to_set (C := gset Z) (map inID rows)) <= size (waiting (wInbox w)))%nat).
    { apply subseteq_size. intros id (row & -> & Hr)%elem_of_list_to_set%list_elem_of_fmap.
      apply elem_of_waiting. destruct (Pr _ Hr) as (x & ? & ? & _). eauto. }
    rewrite size_list_to_set, length_map in Sz by done. lia.
  - intros id (row & -> & Hr)%elem_of_list_to_set%list_elem_of_fmap.
    apply elem_of_waiting. destruct (Pr _ Hr) as (x & ? & ? & _). eauto.
Qed.

(** A run that returns no error has settled every row it took: none of them
    is offered again.  So a row that stays to be retried always shows as an
    error of the run that took it. *)
Theorem no_error_settles_batch startedAt finishedAt (w w' : W) res rows :
  table_ok (wInbox w) -> run startedAt finishedAt w = (w', (res, None)) ->
  ListProcessableRedisUsageInbox None (wInbox w) redisInboxProcessLimit = Ok rows ->
  forall row r, row ∈ rows -> inboxRows (wInbox w') !! inID row = Some r -> processable r = false.
Proof. intros T H. apply (settles_batch _ _ _ _ _ _ T H). by left. Qed.

(** C29: the receivers only hear of committed events: what a run hands on are
    exactly the events it stored, with their keys, and a run that stores
    nothing hands nothing on. *)
Theorem notified_after_commit startedAt finishedAt (w w' : W) outcome :
  table_ok (wInbox w) -> run startedAt finishedAt w = (w', outcome) ->
  exists stored ns,
    wEvents w' = wEvents w ++ map storedEvent stored /\
    wNotices w' = wNotices w ++ ns /\ (stored = [] -> ns = []) /\
    forall n, n ∈ ns ->
      n = RecentUsage stored \/ n = UsageEventsCommitted stored \/
      exists snapshots, n = HeaderSnapshots snapshots.
Proof.
  intros T H.
  assert (Quiet : forall l u, touches l u w' -> wEvents u = wEvents w -> wNotices u = wNotices w ->
    exists stored ns, wEvents w' = wEvents w ++ map storedEvent stored /\
      wNotices w' = wNotices w ++ ns /\ (stored = [] -> ns = []) /\
      forall n, n ∈ ns -> n = RecentUsage stored \/ n = UsageEventsCommitted stored \/
        exists snapshots, n = HeaderSnapshots snapshots).
  { intros l u (E1 & _ & _ & E4 & _) U1 U4. exists [], []. rewrite !app_nil_r.
    split_and!; [congruence|congruence|done|]. by intros n ?%elem_of_nil. }
  apply run_spec in H as [[Tch _]|(rows' & _ & _ & Eff)]; [| |done]; [by eapply Quiet|].
  destruct Eff as [(l & _ & Tch & _)|(l & w1 & w2 & ready & stored & ns & _ & Tch & _ & _ & _ & C & O & F & Z0 & _)].
  { by eapply (Quiet l (tick 1 w)). }
  exists stored, ns. destruct Tch as (E1 & _ & _ & E4 & _).
  destruct C as (_ & _ & Ev & _ & _ & Nt & _). destruct O as (_ & O2 & _ & _ & O5).
  split_and!.
  - rewrite O2, Ev, E1. reflexivity.
  - rewrite O5, Nt, E4. reflexivity.
  - exact Z0.
  - intros n Hn. rewrite list.Forall_forall in F. destruct (F _ Hn) as [?|[?|?]]; eauto.
Qed.

(** Partial success.  Events of known executors are processed under their
    parser whether or not the identity query works; when it works every event
    is processed; when it fails, exactly the events of unknown executors are
    held back, and reported by their positions. *)
Theorem normalize_partial_success events (w w' : W) items indexes err :
  normalizeRedisUsageEventsDetailed iteration fault events w = (w', (items, indexes, err)) ->
  length items = length events /\
  forall i e, events !! i = Some e ->
    exists item, items !! i = Some item /\
      (known_executor e = true ->
         exists r, ResolveExecutor (evExecutorType e) = Ok r /\
           item = processResolvedUsageEvent e r) /\
      (known_executor e = false -> err = None ->
         exists t r, ResolveIdentity (evExecutorType e) t = Ok r /\
           item = processResolvedUsageEvent e r) /\
      (neReady item = false <-> i ∈ indexes) /\
      (i ∈ indexes <-> err <> None /\ known_executor e = false).
Proof.
  intros H. apply normalize_spec in H as (Len & _ & _ & resolver & S). split; [exact Len|].
  intros i e L. destruct (S i e L) as (X & item & Li & R1 & R2). exists item. split; [exact Li|].
  split.
  { intros K. destruct (ResolveExecutor_eq (evExecutorType e)) as (r & Er & _). exists r.
    split; [exact Er|]. rewrite R2.
    - unfold resolved_item, resolution_of. rewrite K, Er. reflexivity.
    - rewrite X, K. intros [_ Y]. discriminate Y. }
  split.
  { intros K En. exists (resolveUsageEventType e resolver).
    destruct (ResolveIdentity_Ok (evExecutorType e) (resolveUsageEventType e resolver)) as [r Er].
    exists r. split; [exact Er|]. rewrite R2.
    - unfold resolved_item, resolution_of. rewrite K, Er. reflexivity.
    - rewrite X. intros [Y _]. by apply Y. }
  split; [|exact X]. split; [|exact R1]. intros N. destruct (decide (i ∈ indexes)) as [D|D]; [exact D|].
  rewrite (R2 D), resolved_item_ready in N. discriminate N.
Qed.
End SyncFacts.

(** ** Witnesses: a message of a known executor and one that does not decode *)

Definition demo_unmarshal (message : string) : result string queuedUsageDetail :=
  if message =?s "bad"%string then Err "invalid character"%string
  else Ok (mkQueuedUsageDetail 0 5 None EmptyString EmptyString None None None None
    (mkTokenStats 10 4 0 0 0 false 0 14) false None "codex"%string "gpt"%string None
    EmptyString EmptyString EmptyString EmptyString "CodexExecutor"%string EmptyString
    EmptyString EmptyString message EmptyString EmptyString None None EmptyString EmptyString).

Definition demo_aggregations : Aggregations unit :=
  mkAggregations unit (fun _ => Ok 0) (fun _ => Ok (0, 0, 0)) (fun _ => Ok false) (fun _ _ => None).

Definition demo_service : SyncService := mkSyncService true true true.
Definition demo_clock (n : nat) : Time := demo_now + Z.of_nat n.
Definition no_fault (n : nat) : option string := None.

Definition demo_run : M (Snapshot := unit) ProcessOutcome :=
  run demo_local demo_unmarshal (fun _ => true) (fun _ _ _ => None) (fun l => l)
    demo_aggregations no_fault demo_clock demo_service demo_now demo_now.

Definition demo_world (messages : list string) : World unit :=
  (insertRedisInboxMessages demo_local demo_hash no_fault demo_clock "pull"%string messages demo_now
     empty_world).1.

Definition demo_world' : World unit := (demo_run (demo_world ["r1"; "bad"; "r2"]%string)).1.

Lemma demo_sync_reaches :
  sync_reaches demo_local demo_hash demo_unmarshal (fun _ => true) (fun _ _ _ => None) (fun l => l)
    demo_aggregations no_fault demo_clock demo_service empty_world demo_world'.
Proof.
  eapply Relation_Operators.rt1n_trans; [apply (sync_insert _ _ _ _ _ _ _ _ _ _ _ "pull"%string ["r1"; "bad"; "r2"]%string demo_now)|].
  eapply Relation_Operators.rt1n_trans; [apply (sync_process _ _ _ _ _ _ _ _ _ _ _ demo_now demo_now)|].
  apply rt1n_refl.
Qed.

Lemma process_exactly_once_witness :
  (exists origin, ledger demo_world' origin) /\
  map evEventKey (wEvents demo_world') = ["r1"; "r2"]%string.
Proof.
  split; [|vm_compute; reflexivity].
  exact (process_exactly_once _ _ _ _ _ _ _ _ _ _ _ demo_sync_reaches).
Defined.

Lemma demo_table_ok messages : table_ok (wInbox (demo_world messages)).
Proof.
  unfold demo_world, insertRedisInboxMessages, onInbox, InsertRedisUsageInboxRawMessages.
  set (inputs := map _ messages).
  pose proof (insert_evolves demo_local demo_hash None (demo_clock 0) empty_inbox inputs empty_inbox_ok) as E.
  cbn [wInbox empty_world wClock no_fault]. destruct (InsertRedisUsageInboxMessages _ _ _ _ _ _) as [t r].
  by apply (evolves_ok empty_inbox).
Qed.

Lemma no_error_settles_batch_witness :
  (demo_run (demo_world ["r1"]%string)).2.2 = None /\
  forall row r, row ∈ [processingColumns (demo_row 1 "pull" "r1")]%string ->
    inboxRows (wInbox (demo_run (demo_world ["r1"]%string)).1) !! inID row = Some r ->
    processable r = false.
Proof.
  split; [vm_compute; reflexivity|].
  eapply (no_error_settles_batch demo_local demo_hash demo_unmarshal (fun _ => true) (fun _ _ _ => None)
    (fun l => l) demo_aggregations no_fault demo_clock demo_service demo_now demo_now
    (demo_world ["r1"]%string)).
  - apply demo_table_ok.
  - vm_compute. reflexivity.
  - vm_compute. reflexivity.
Defined.

Lemma notified_after_commit_witness :
  exists stored ns, wEvents demo_world' = map storedEvent stored /\ wNotices demo_world' = ns /\
    map evEventKey stored = ["r1"; "r2"]%string /\ length ns = 2%nat.
Proof.
  destruct (notified_after_commit demo_local demo_hash demo_unmarshal (fun _ => true) (fun _ _ _ => None)
    (fun l => l) demo_aggregations no_fault demo_clock demo_service demo_now demo_now
    (demo_world ["r1"; "bad"; "r2"]%string) demo_world'
    (demo_run (demo_world ["r1"; "bad"; "r2"]%string)).2 (demo_table_ok _))
    as (stored & ns & E1 & E2 & _ & _).
  - unfold demo_world', demo_run. by destruct (run _ _ _ _ _ _ _ _ _ _ _ _).
  - change (wEvents demo_world' = map storedEvent stored) in E1.
    change (wNotices demo_world' = ns) in E2.
    exists stored, ns. split_and!; [exact E1|exact E2| |].
    + rewrite <- (map_evEventKey_stored stored), <- E1. vm_compute. reflexivity.
    + assert (E3 : length (wNotices demo_world') = 2%nat) by (vm_compute; reflexivity).
      rewrite E2 in E3. exact E3.
Defined.

Definition demo_event : UsageEvent :=
  match DecodeRedisUsageMessage (Snapshot := unit) demo_unmarshal (fun _ => true)
          (fun _ _ _ => None) "r1" demo_now with
  | Ok event => event
  | Err _ => blankEvent
  end.

Definition demo_normalized : World unit * (list normalizedUsageEvent * list nat * option string) :=
  normalizeRedisUsageEventsDetailed (fun l => l) no_fault [demo_event] empty_world.

Lemma normalize_partial_success_witness :
  exists item, demo_normalized.2.1.1 !! 0%nat = Some item /\ neReady item <> false.
Proof.
  assert (X : demo_normalized.2.2 = None) by (vm_compute; reflexivity).
  destruct demo_normalized as [w' [[items indexes] err]] eqn:E. cbn [fst snd] in *. subst err.
  destruct (normalize_partial_success (fun l => l) no_fault _ _ _ _ _ _ E) as [_ H].
  destruct (H 0%nat demo_event eq_refl) as (item & L & _ & _ & R & I). exists item.
  split; [exact L|]. intros N. apply R, I in N as [N _]. by apply N.
Defined.
