(* ===== verification/ActivityGrain.v ===== *)
(** Package activity: the buckets of the Activity heatmap (grain.go) and the
    aggregation of usage events into sparse rows (aggregate.go).

    [local] is [time.Local].  The two correction loops of [fixedBucketIndex] and
    [shortBucketForTimestamp] take a fuel; running out of it is the error
    [LoopFuel], which no input of the program reaches. *)
From S2P Require Import Prelude GoStrings GoTime Timeutil Entities.
From stdpp Require Import sorting.

Local Open Scope string_scope.
Local Open Scope list_scope.
Local Open Scope Z_scope.

Definition NormalizeAPIGroupKey (value : string) : string :=
  let trimmed := TrimSpace value in
  if trimmed =?s EmptyString then "unknown" else trimmed.

Definition HeatmapBlocks : Z := 364.
Definition mediumWindowSeconds : Z := 7 * 24 * 60 * 60.
Definition longWindowSeconds : Z := 30 * 24 * 60 * 60.

Record Bucket := mkBucket { Start : Time; End_ : Time }.

#[export] Instance Bucket_eq_dec : EqDecision Bucket.
Proof. solve_decision. Defined.

Inductive ActivityError :=
| UnsupportedGrain (grain : UsageActivityGrain)
| LoopFuel.

(** Go's division truncates; a negative remainder moves the quotient down. *)
Definition floorDiv (value divisor : Z) : Z :=
  let quotient := Z.quot value divisor in
  let remainder := Z.rem value divisor in
  if remainder <? 0 then quotient - 1 else quotient.

(** ** Fixed windows *)

Definition fixedBoundary (windowSeconds index : Z) : Time :=
  let seconds := floorDiv (mul64 index windowSeconds) HeatmapBlocks in
  unix_time seconds.

Definition fixedBucket (windowSeconds index : Z) : Bucket :=
  mkBucket (fixedBoundary windowSeconds index) (fixedBoundary windowSeconds (index + 1)).

(** The turns each correction loop may take; [fixedBucketIndex_spec] and
    [short_index_spec] show that two are enough. *)
Definition correctionFuel : nat := 3%nat.

(** [for !timestamp.Before(fixedBoundary(windowSeconds, index+1)) { index++ }] *)
Fixpoint fixed_raise (fuel : nat) (t windowSeconds index : Z) : option Z :=
  match fuel with
  | O => None
  | S f =>
      if negb (t <? fixedBoundary windowSeconds (index + 1))
      then fixed_raise f t windowSeconds (index + 1)
      else Some index
  end.

(** [for timestamp.Before(fixedBoundary(windowSeconds, index)) { index-- }] *)
Fixpoint fixed_lower (fuel : nat) (t windowSeconds index : Z) : option Z :=
  match fuel with
  | O => None
  | S f =>
      if t <? fixedBoundary windowSeconds index
      then fixed_lower f t windowSeconds (index - 1)
      else Some index
  end.

Definition fixedBucketIndex (t windowSeconds : Z) : option Z :=
  let index := floorDiv (mul64 (Unix t) HeatmapBlocks) windowSeconds in
  index ← fixed_raise correctionFuel t windowSeconds index;
  fixed_lower correctionFuel t windowSeconds index.

Definition fixedWindowSeconds (grain : UsageActivityGrain) : result ActivityError Z :=
  if grain =?s UsageActivityGrainMedium then Ok mediumWindowSeconds
  else if grain =?s UsageActivityGrainLong then Ok longWindowSeconds
  else Err (UnsupportedGrain grain).

(** ** Short buckets: 364 slots of the local day *)

Definition calendarBoundary (dayStart windowSeconds index : Z) : Time :=
  let seconds := floorDiv (mul64 index windowSeconds) HeatmapBlocks in
  unix_time (Unix dayStart + seconds).

Definition calendarBucket (dayStart windowSeconds index : Z) : Bucket :=
  mkBucket (calendarBoundary dayStart windowSeconds index)
           (calendarBoundary dayStart windowSeconds (index + 1)).

Fixpoint short_raise (fuel : nat) (t dayStart windowSeconds index : Z) : option Z :=
  match fuel with
  | O => None
  | S f =>
      if (index + 1 <? HeatmapBlocks)
         && negb (t <? calendarBoundary dayStart windowSeconds (index + 1))
      then short_raise f t dayStart windowSeconds (index + 1)
      else Some index
  end.

Fixpoint short_lower (fuel : nat) (t dayStart windowSeconds index : Z) : option Z :=
  match fuel with
  | O => None
  | S f =>
      if (0 <? index) && (t <? calendarBoundary dayStart windowSeconds index)
      then short_lower f t dayStart windowSeconds (index - 1)
      else Some index
  end.

(** The slot of an instant in the day [dayStart, dayStart + windowSeconds). *)
Definition short_index (t dayStart windowSeconds : Z) : option Z :=
  let index := floorDiv (mul64 (Unix t - Unix dayStart) HeatmapBlocks) windowSeconds in
  index ← short_raise correctionFuel t dayStart windowSeconds index;
  short_lower correctionFuel t dayStart windowSeconds index.

Definition shortBucketForTimestamp (local : Location) (t : Time) : result ActivityError Bucket :=
  let normalized := NormalizeStorageTime t in
  let dayStart := day_start local normalized in
  let dayEnd := AddDate local dayStart 0 0 1 in
  let windowSeconds := Unix dayEnd - Unix dayStart in
  match short_index normalized dayStart windowSeconds with
  | Some index => Ok (calendarBucket dayStart windowSeconds index)
  | None => Err LoopFuel
  end.

(** ** Buckets and windows of a grain *)

Definition BucketForTimestamp (local : Location) (grain : UsageActivityGrain) (t : Time)
    : result ActivityError Bucket :=
  if grain =?s UsageActivityGrainShort then shortBucketForTimestamp local t
  else if grain =?s UsageActivityGrainDaily then
    let normalized := NormalizeStorageTime t in
    let start := day_start local normalized in
    Ok (mkBucket start (AddDate local start 0 0 1))
  else
    let? windowSeconds := fixedWindowSeconds grain in
    match fixedBucketIndex t windowSeconds with
    | Some index => Ok (fixedBucket windowSeconds index)
    | None => Err LoopFuel
    end.

(** The loop of [shortWindowEndingAt], from the last slot down. *)
Fixpoint short_walk (local : Location) (n : nat) (cursor : Time) (acc : list Bucket)
    : result ActivityError (list Bucket) :=
  match n with
  | O => Ok acc
  | S n' =>
      let? bucket := shortBucketForTimestamp local (cursor - 1) in
      short_walk local n' (Start bucket) (bucket :: acc)
  end.

Definition shortWindowEndingAt (local : Location) (referenceEnd : Time)
    : result ActivityError (list Bucket) :=
  let? containing := shortBucketForTimestamp local referenceEnd in
  let cursor := if negb (referenceEnd =? Start containing)
                then End_ containing else Start containing in
  short_walk local (Z.to_nat HeatmapBlocks) cursor [].

Definition WindowEndingAt (local : Location) (grain : UsageActivityGrain) (referenceEnd : Time)
    : result ActivityError (list Bucket) :=
  if grain =?s UsageActivityGrainShort then shortWindowEndingAt local referenceEnd
  else if grain =?s UsageActivityGrainDaily then
    let normalized := NormalizeStorageTime referenceEnd in
    let midnight := day_start local normalized in
    let end_ := if negb (normalized =? midnight)
                then AddDate local midnight 0 0 1 else midnight in
    let start := AddDate local end_ 0 0 (- HeatmapBlocks) in
    Ok (map (fun index =>
               let bucketStart := AddDate local start 0 0 index in
               mkBucket bucketStart (AddDate local bucketStart 0 0 1))
            (seqZ 0 HeatmapBlocks))
  else
    let? windowSeconds := fixedWindowSeconds grain in
    match fixedBucketIndex referenceEnd windowSeconds with
    | None => Err LoopFuel
    | Some containingIndex =>
        let containing := fixedBucket windowSeconds containingIndex in
        let endIndex := if negb (referenceEnd =? Start containing)
                        then containingIndex + 1 else containingIndex in
        let startIndex := endIndex - HeatmapBlocks in
        Ok (map (fun offset => fixedBucket windowSeconds (startIndex + offset))
                (seqZ 0 HeatmapBlocks))
    end.

(** ** aggregate.go *)

Definition day : Duration := 24 * Hour.

Definition grainRetentions : gmap UsageActivityGrain Duration :=
  {[ UsageActivityGrainShort := 3 * day;
     UsageActivityGrainMedium := 8 * day;
     UsageActivityGrainLong := 31 * day ]}.

Definition allGrains : list UsageActivityGrain :=
  [UsageActivityGrainShort; UsageActivityGrainMedium; UsageActivityGrainLong;
   UsageActivityGrainDaily].

(** The grain, the bucket start and the API group. *)
Definition aggregateKey : Type := UsageActivityGrain * Time * string.

(** [None] is [limited = false]. *)
Definition Retention (grain : UsageActivityGrain) : option Duration :=
  grainRetentions !! grain.

Definition newActivityRow (grain : UsageActivityGrain) (bucket : Bucket) (apiGroupKey : string)
    : UsageActivityStat :=
  mkUsageActivityStat 0 grain (Start bucket) (End_ bucket) apiGroupKey 0 0 0 0 0 0 0 0
    zero_time zero_time.

(** The body of the loop once the row is found: the counters of one event. *)
Definition addEventToRow (event : UsageEvent) (row : UsageActivityStat) : UsageActivityStat :=
  mkUsageActivityStat (asID row) (asGrain row) (asBucketStart row) (asBucketEnd row)
    (asAPIGroupKey row)
    (if evFailed event then asSuccessCount row else add64 (asSuccessCount row) 1)
    (if evFailed event then add64 (asFailureCount row) 1 else asFailureCount row)
    (add64 (asInputTokens row) (evInputTokens event))
    (add64 (asOutputTokens row) (evOutputTokens event))
    (add64 (asReasoningTokens row) (evReasoningTokens event))
    (add64 (asCacheReadTokens row) (evCacheReadTokens event))
    (add64 (asCacheCreationTokens row) (evCacheCreationTokens event))
    (add64 (asTotalTokens row) (evTotalTokens event))
    (asCreatedAt row) (asUpdatedAt row).

Abbreviation ActivityRows := (gmap aggregateKey UsageActivityStat).

(** The cutoff test of the loop: late events skip the limited grains. *)
Definition retained (grain : UsageActivityGrain) (now timestamp : Time) : bool :=
  match Retention grain with
  | Some retention => negb (timestamp <? now - retention)
  | None => true
  end.

Definition addEventToGrain (local : Location) (now : Time) (event : UsageEvent)
    (rows : ActivityRows) (grain : UsageActivityGrain) : result ActivityError ActivityRows :=
  let timestamp := NormalizeStorageTime (evTimestamp event) in
  let apiGroupKey := NormalizeAPIGroupKey (evAPIGroupKey event) in
  if negb (retained grain now timestamp) then Ok rows
  else
    let? bucket := BucketForTimestamp local grain timestamp in
    let key : aggregateKey := (grain, Start bucket, apiGroupKey) in
    let row := match rows !! key with
               | Some row => row
               | None => newActivityRow grain bucket apiGroupKey
               end in
    Ok (<[key := addEventToRow event row]> rows).

Fixpoint fold_result {E A B} (f : B -> A -> result E B) (acc : B) (l : list A) : result E B :=
  match l with
  | [] => Ok acc
  | a :: r => let? acc' := f acc a in fold_result f acc' r
  end.

Definition addEvent (local : Location) (now : Time) (rows : ActivityRows) (event : UsageEvent)
    : result ActivityError ActivityRows :=
  fold_result (addEventToGrain local now event) rows allGrains.

(** The order of [sort.Slice]: grain, bucket start, API group. *)
Definition rowBefore (l r : UsageActivityStat) : Prop :=
  (if negb (asGrain l =?s asGrain r) then string_lt (asGrain l) (asGrain r)
   else if negb (asBucketStart l =? asBucketStart r)
   then asBucketStart l <? asBucketStart r
   else string_lt (asAPIGroupKey l) (asAPIGroupKey r)) = true.

#[export] Instance rowBefore_dec l r : Decision (rowBefore l r).
Proof. unfold rowBefore. apply _. Defined.

(** A sort whose result is ordered by [not (r < l)], as [sort.Slice] promises. *)
Definition rowNotAfter (l r : UsageActivityStat) : Prop := ~ rowBefore r l.

#[export] Instance rowNotAfter_dec l r : Decision (rowNotAfter l r).
Proof. unfold rowNotAfter. apply _. Defined.

Definition BuildRows (local : Location) (events : list UsageEvent) (now : Time)
    : result ActivityError (list UsageActivityStat) :=
  let normalizedNow := NormalizeStorageTime now in
  let? rowsByKey := fold_result (addEvent local normalizedNow) ∅ events in
  Ok (merge_sort rowNotAfter (map snd (map_to_list rowsByKey))).
