(* ===== verification/ActivityFacts.v ===== *)
(** Properties of [ActivityGrain]: the buckets of a grain partition time, a
    window is 364 contiguous buckets, the correction loops end, and the
    aggregation keeps every event. *)
From S2P Require Import Prelude GoStrings GoTime GoTimeFacts Timeutil Entities ActivityGrain.
From stdpp Require Import sorting.

Local Open Scope string_scope.
Local Open Scope list_scope.
Local Open Scope Z_scope.

Lemma floorDiv_div (v d : Z) : 0 < d -> floorDiv v d = v / d.
Proof.
  intros H. unfold floorDiv.
  pose proof (Z.quot_rem' v d). pose proof (Z.rem_bound_abs v d).
  destruct (Z.rem v d <? 0) eqn:E; bool_split.
  - apply (Z.div_unique _ _ _ (Z.rem v d + d)); lia.
  - apply (Z.div_unique _ _ _ (Z.rem v d)); lia.
Qed.

(** ** Strictly increasing boundaries *)

Section Boundaries.
Context (B : Z -> Z) (lo hi : Z).
Hypothesis B_step : forall i, lo <= i < hi -> B i < B (i + 1).

Lemma boundary_lt (i j : Z) : lo <= i -> j <= hi -> i < j -> B i < B j.
Proof.
  intros Hi Hj H. replace j with (i + 1 + Z.of_nat (Z.to_nat (j - i - 1))) in * by lia.
  set (n := Z.to_nat (j - i - 1)) in *. clearbody n. induction n as [|n IH].
  - rewrite Z.add_0_r in *. apply B_step. lia.
  - specialize (IH ltac:(lia) ltac:(lia)).
    pose proof (B_step (i + 1 + Z.of_nat n) ltac:(lia)).
    replace (i + 1 + Z.of_nat (S n)) with (i + 1 + Z.of_nat n + 1) in * by lia. lia.
Qed.

(** An instant lies between one pair of neighbours only. *)
Lemma boundary_unique (t i j : Z) :
  lo <= i < hi -> lo <= j < hi ->
  B i <= t < B (i + 1) -> B j <= t < B (j + 1) -> i = j.
Proof.
  intros Hi Hj Ti Tj. destruct (Z.lt_trichotomy i j) as [L|[E|L]]; [|done|].
  - destruct (decide (i + 1 = j)) as [<-|N]; [lia|].
    pose proof (boundary_lt (i + 1) j ltac:(lia) ltac:(lia) ltac:(lia)). lia.
  - destruct (decide (j + 1 = i)) as [<-|N]; [lia|].
    pose proof (boundary_lt (j + 1) i ltac:(lia) ltac:(lia) ltac:(lia)). lia.
Qed.
End Boundaries.

(** The whole seconds that bound slot [i] of a window of [W] seconds. *)
Definition slot_sec (W i : Z) : Z := i * W / 364.

Lemma slot_sec_step (W i : Z) : 364 <= W -> slot_sec W i < slot_sec W (i + 1).
Proof.
  intros H. unfold slot_sec.
  pose proof (Z.div_mod (i * W) 364 ltac:(lia)). pose proof (Z.mod_pos_bound (i * W) 364 ltac:(lia)).
  pose proof (Z.div_mod ((i + 1) * W) 364 ltac:(lia)).
  pose proof (Z.mod_pos_bound ((i + 1) * W) 364 ltac:(lia)). nia.
Qed.

(** 364 slots on, the boundary is exactly one window later. *)
Lemma slot_sec_period (W i : Z) : slot_sec W (i + 364) = slot_sec W i + W.
Proof.
  unfold slot_sec. replace ((i + 364) * W) with (i * W + W * 364) by ring.
  rewrite Z.div_add by lia. lia.
Qed.

(** The inverse proportion the code starts from is the slot or the one before. *)
Lemma slot_guess (W u : Z) : 364 <= W ->
  let g := u * 364 / W in
  slot_sec W g <= u /\ u < slot_sec W (g + 2).
Proof.
  intros H. cbv zeta. unfold slot_sec.
  pose proof (Z.div_mod (u * 364) W ltac:(lia)) as E.
  pose proof (Z.mod_pos_bound (u * 364) W ltac:(lia)) as R.
  set (g := u * 364 / W) in *. set (r := (u * 364) mod W) in *. clearbody g r.
  split.
  - apply Z.div_le_upper_bound; [lia|]. nia.
  - enough (u + 1 <= (g + 2) * W / 364) by lia.
    apply Z.div_le_lower_bound; [lia|]. nia.
Qed.

(** The instants the theorems speak of: 31,000 years around the epoch. *)
Definition sane_instant (t : Z) : Prop := Z.abs (Unix t) <= 1000000000000.

Definition sane_window (W : Z) : Prop := 364 <= W <= 2592000.

(** Side conditions: a window known to be sane, else arithmetic. *)
Ltac side :=
  lazymatch goal with
  | |- sane_window _ => assumption
  | |- sane_instant _ => assumption
  | |- _ => lia
  end.

Lemma guess_bound (W u : Z) : sane_window W -> Z.abs u <= 1000000000000 ->
  Z.abs (u * 364 / W) <= 1000000000000.
Proof.
  intros [W1 W2] H.
  pose proof (Z.div_mod (u * 364) W ltac:(lia)) as E.
  pose proof (Z.mod_pos_bound (u * 364) W ltac:(lia)) as R.
  set (g := u * 364 / W) in *. set (r := (u * 364) mod W) in *. clearbody g r. nia.
Qed.

Lemma fixedBoundary_slot (W i : Z) : sane_window W -> Z.abs i <= 1000000002000 ->
  fixedBoundary W i = slot_sec W i * Second.
Proof.
  intros [W1 W2] H. unfold fixedBoundary, unix_time, HeatmapBlocks, slot_sec.
  rewrite mul64_id by (unfold64; nia). by rewrite floorDiv_div by lia.
Qed.

Lemma before_sec (t s : Z) : (t <? s * Second) = (Unix t <? s).
Proof.
  unfold Unix, Second. apply eq_true_iff_eq. rewrite !Z.ltb_lt.
  Z.to_euclidean_division_equations. lia.
Qed.

Lemma fixedBoundary_step (W i : Z) : sane_window W -> Z.abs i <= 1000000001500 ->
  fixedBoundary W i < fixedBoundary W (i + 1).
Proof.
  intros HW H. rewrite !fixedBoundary_slot by side.
  pose proof (slot_sec_step W i). destruct HW. unfold Second. lia.
Qed.

(** The loops of [fixedBucketIndex] end, on the slot of the instant. *)
Lemma fixedBucketIndex_spec (W t : Z) : sane_window W -> sane_instant t ->
  exists i, fixedBucketIndex t W = Some i /\ Z.abs i <= 1000000000001 /\
  fixedBoundary W i <= t < fixedBoundary W (i + 1).
Proof.
  intros HW Ht. unfold sane_instant in Ht.
  pose proof (guess_bound W (Unix t) HW Ht) as G.
  destruct (slot_guess W (Unix t)) as [L U]; [destruct HW; lia|].
  unfold fixedBucketIndex, HeatmapBlocks.
  rewrite mul64_id by (unfold64; lia). rewrite floorDiv_div by (destruct HW; lia).
  set (g := Unix t * 364 / W) in *. clearbody g.
  assert (forall i, slot_sec W i <= Unix t < slot_sec W (i + 1) -> Z.abs i <= 1000000000001 ->
    fixed_lower correctionFuel t W i = Some i /\ fixedBoundary W i <= t < fixedBoundary W (i + 1))
    as Lo.
  { intros i Hi Bi. cbn [fixed_lower correctionFuel].
    rewrite !fixedBoundary_slot by side.
    rewrite before_sec. rewrite (proj2 (Z.ltb_ge _ _)) by lia. split; [done|].
    pose proof (before_sec t (slot_sec W i)). pose proof (before_sec t (slot_sec W (i + 1))).
    lia. }
  destruct (Z.lt_ge_cases (Unix t) (slot_sec W (g + 1))) as [C|C].
  - exists g. destruct (Lo g) as [E B]; [lia|lia|]. split_and!; [|lia|lia..].
    cbn [fixed_raise correctionFuel]. rewrite fixedBoundary_slot by side.
    rewrite before_sec, (proj2 (Z.ltb_lt _ _)) by lia. cbn [negb mbind option_bind].
    exact E.
  - exists (g + 1). destruct (Lo (g + 1)) as [E B].
    { replace (g + 1 + 1) with (g + 2) by lia. lia. }
    { lia. }
    split_and!; [|lia|lia..]. cbn [fixed_raise correctionFuel].
    rewrite !fixedBoundary_slot by side.
    rewrite !before_sec, (proj2 (Z.ltb_ge _ _)) by lia. cbn [negb].
    replace (g + 1 + 1) with (g + 2) by lia.
    rewrite (proj2 (Z.ltb_lt _ _)) by lia. cbn [negb mbind option_bind].
    exact E.
Qed.

Lemma fixedBucketIndex_unique (W t i : Z) : sane_window W -> sane_instant t ->
  Z.abs i <= 1000000001000 ->
  fixedBoundary W i <= t < fixedBoundary W (i + 1) -> fixedBucketIndex t W = Some i.
Proof.
  intros HW Ht Hi Bi. destruct (fixedBucketIndex_spec W t HW Ht) as (j & -> & Hj & Bj).
  f_equal. apply (boundary_unique (fixedBoundary W) (-1000000001000) 1000000001200) with t;
    try lia; try done.
  intros k Hk. apply fixedBoundary_step; [done|lia].
Qed.

Lemma fixedWindowSeconds_Ok (grain : string) (W : Z) :
  fixedWindowSeconds grain = Ok W ->
  sane_window W /\ (grain =?s UsageActivityGrainShort) = false /\
  (grain =?s UsageActivityGrainDaily) = false.
Proof.
  unfold fixedWindowSeconds, sane_window, mediumWindowSeconds, longWindowSeconds.
  intros H. destruct (grain =?s UsageActivityGrainMedium) eqn:E1.
  { apply String.eqb_eq in E1. subst. injection H as <-. split_and!; [lia..|done|done]. }
  destruct (grain =?s UsageActivityGrainLong) eqn:E2; [|done].
  apply String.eqb_eq in E2. subst. injection H as <-. split_and!; [lia..|done|done].
Qed.

Lemma Bucket_fixed (local : Location) (grain : string) (W t : Z) :
  fixedWindowSeconds grain = Ok W ->
  BucketForTimestamp local grain t =
  match fixedBucketIndex t W with
  | Some index => Ok (fixedBucket W index)
  | None => Err LoopFuel
  end.
Proof.
  intros H. destruct (fixedWindowSeconds_Ok _ _ H) as (_ & E1 & E2).
  unfold BucketForTimestamp. by rewrite E1, E2, H.
Qed.

(** Medium and long buckets partition time: each instant has a bucket, the
    bucket contains it, and every other instant of the bucket gets the same one.
    In particular the correction loops end. *)
Theorem fixed_bucket_partition (local : Location) (grain : string) (W t : Z) :
  fixedWindowSeconds grain = Ok W -> sane_instant t ->
  exists b, BucketForTimestamp local grain t = Ok b /\ Start b <= t < End_ b /\
  forall t', sane_instant t' -> Start b <= t' < End_ b ->
    BucketForTimestamp local grain t' = Ok b.
Proof.
  intros HW Ht. destruct (fixedWindowSeconds_Ok _ _ HW) as (SW & _).
  destruct (fixedBucketIndex_spec W t SW Ht) as (i & Ei & Bi & Ci).
  exists (fixedBucket W i). split_and!; try (simpl; lia).
  - by rewrite (Bucket_fixed _ _ _ _ HW), Ei.
  - intros t' Ht' Ct'. rewrite (Bucket_fixed _ _ _ _ HW).
    by rewrite (fixedBucketIndex_unique W t' i SW Ht') by (lia || exact Ct').
Qed.

Lemma sane_dec (t : Z) : (Z.abs (Unix t) <=? 1000000000000) = true -> sane_instant t.
Proof. unfold sane_instant. lia. Qed.

Lemma fixed_bucket_partition_witness :
  exists b, BucketForTimestamp UTC "long" (-1) = Ok b /\ Start b <= -1 < End_ b /\
  forall t', sane_instant t' -> Start b <= t' < End_ b ->
    BucketForTimestamp UTC "long" t' = Ok b.
Proof.
  apply (fixed_bucket_partition UTC "long" longWindowSeconds (-1)); [reflexivity|].
  apply sane_dec. reflexivity.
Defined.

(** Neighbours share their boundary. *)
Definition contiguous (l : list Bucket) : Prop :=
  forall i b b', l !! i = Some b -> l !! S i = Some b' -> End_ b = Start b'.

Lemma window_lookup (f : Z -> Bucket) (i : nat) (b : Bucket) :
  map f (seqZ 0 HeatmapBlocks) !! i = Some b <-> (i < 364)%nat /\ b = f (Z.of_nat i).
Proof.
  rewrite list_lookup_fmap. unfold HeatmapBlocks.
  destruct (decide (i < 364)%nat) as [L|L].
  - rewrite lookup_seqZ_lt by lia. simpl. split; [intros [= <-]|intros [_ ->]]; done.
  - rewrite lookup_seqZ_ge by lia. simpl. split; [done|lia].
Qed.

Lemma window_length (f : Z -> Bucket) : length (map f (seqZ 0 HeatmapBlocks)) = 364%nat.
Proof. by rewrite length_fmap, length_seqZ. Qed.

(** A medium or long window is 364 contiguous buckets that span exactly the
    window (7 or 30 days to the second), whose last bucket holds the reference
    instant or ends at it, and each of them is the bucket that storage assigns
    to every instant inside of it. *)
Theorem fixed_window_spec (local : Location) (grain : string) (W ref : Z) :
  fixedWindowSeconds grain = Ok W -> sane_instant ref ->
  exists bs first last, WindowEndingAt local grain ref = Ok bs /\ length bs = 364%nat /\
    contiguous bs /\ bs !! 0%nat = Some first /\ bs !! 363%nat = Some last /\
    End_ last - Start first = W * Second /\ Start last < ref <= End_ last /\
    forall b t, b ∈ bs -> sane_instant t -> Start b <= t < End_ b ->
      BucketForTimestamp local grain t = Ok b.
Proof.
  intros HW Ht. destruct (fixedWindowSeconds_Ok _ _ HW) as (SW & E1 & E2).
  destruct (fixedBucketIndex_spec W ref SW Ht) as (i & Ei & Bi & Ci).
  unfold WindowEndingAt. rewrite E1, E2, HW. cbn [result_bind]. rewrite Ei.
  cbv zeta. cbn [Start fixedBucket].
  set (e := if negb (ref =? fixedBoundary W i) then i + 1 else i).
  assert (i <= e <= i + 1 /\ fixedBoundary W (e - 1) < ref <= fixedBoundary W e) as [He Hr].
  { subst e. destruct (ref =? fixedBoundary W i) eqn:E; bool_split; cbn [negb].
    - pose proof (fixedBoundary_step W (i - 1) SW ltac:(lia)).
      replace (i - 1 + 1) with i in * by lia. lia.
    - replace (i + 1 - 1) with i by lia. lia. }
  clearbody e. unfold HeatmapBlocks at 1.
  eexists _, (fixedBucket W (e - 364 + 0)), (fixedBucket W (e - 364 + 363)).
  split; [reflexivity|]. split_and!.
  - apply window_length.
  - intros k b b' [_ ->]%window_lookup [_ ->]%window_lookup. cbn [Start End_ fixedBucket].
    f_equal. lia.
  - apply window_lookup. split; [lia|done].
  - apply window_lookup. split; [lia|done].
  - cbn [Start End_ fixedBucket].
    replace (e - 364 + 363 + 1) with (e - 364 + 0 + 364) by lia.
    rewrite !fixedBoundary_slot by side. rewrite slot_sec_period. lia.
  - cbn [Start fixedBucket]. replace (e - 364 + 363) with (e - 1) by lia. lia.
  - cbn [End_ fixedBucket]. replace (e - 364 + 363 + 1) with e by lia. lia.
  - intros b t (k & [Hk ->]%window_lookup)%list_elem_of_lookup St Ct.
    rewrite (Bucket_fixed _ _ _ _ HW).
    by rewrite (fixedBucketIndex_unique W t (e - 364 + Z.of_nat k) SW St) by (lia || exact Ct).
Qed.

Lemma fixed_window_spec_witness :
  exists bs first last, WindowEndingAt UTC "medium" (1709164800 * Second) = Ok bs /\
    length bs = 364%nat /\ contiguous bs /\ bs !! 0%nat = Some first /\
    bs !! 363%nat = Some last /\ End_ last - Start first = mediumWindowSeconds * Second /\
    Start last < 1709164800 * Second <= End_ last /\
    forall b t, b ∈ bs -> sane_instant t -> Start b <= t < End_ b ->
      BucketForTimestamp UTC "medium" t = Ok b.
Proof.
  apply (fixed_window_spec UTC "medium" mediumWindowSeconds); [reflexivity|].
  apply sane_dec. reflexivity.
Defined.

(** ** Short buckets *)

Lemma Date_whole (y m d : Z) (l : Location) :
  Date y m d 0 0 0 0 l = unix_time (Unix (Date y m d 0 0 0 0 l)).
Proof.
  unfold Date, unix_time, Unix. rewrite Z.mod_0_l, Z.add_0_r by done.
  by rewrite Z.div_mul.
Qed.

Lemma day_start_whole (l : Location) (t : Z) :
  day_start l t = unix_time (Unix (day_start l t)).
Proof. unfold day_start. destruct (date_of l t) as [[y m] d]. apply Date_whole. Qed.

Lemma Nanosecond_unix_time (s : Z) : Nanosecond (unix_time s) = 0.
Proof. apply Z.mod_mul. done. Qed.

Lemma Unix_unix_time (s : Z) : Unix (unix_time s) = s.
Proof. apply Z.div_mul. done. Qed.

Lemma AddDate_whole (l : Location) (s ys ms ds : Z) :
  AddDate l (unix_time s) ys ms ds = unix_time (Unix (AddDate l (unix_time s) ys ms ds)).
Proof.
  unfold AddDate. destruct (date_of l (unix_time s)) as [[y m] d].
  rewrite Nanosecond_unix_time. unfold Date, unix_time, Unix.
  rewrite Z.mod_0_l, Z.add_0_r by done. by rewrite Z.div_mul.
Qed.

Lemma calendarBoundary_slot (D W i : Z) : 364 <= W <= 2592000 -> 0 <= i <= 364 ->
  calendarBoundary D W i = (Unix D + slot_sec W i) * Second.
Proof.
  intros HW Hi. unfold calendarBoundary, unix_time, HeatmapBlocks, slot_sec.
  rewrite mul64_id by (unfold64; nia). by rewrite floorDiv_div by lia.
Qed.

Lemma slot_sec_0 (W : Z) : slot_sec W 0 = 0.
Proof. reflexivity. Qed.

Lemma slot_sec_364 (W : Z) : slot_sec W 364 = W.
Proof. exact (slot_sec_period W 0). Qed.

(** The loops of [shortBucketForTimestamp] end, on the slot of the instant. *)
Lemma short_index_spec (D W t : Z) : 364 <= W <= 2592000 -> 
  0 <= Unix t - Unix D < W ->
  exists i, short_index t D W = Some i /\ 0 <= i < 364 /\
  calendarBoundary D W i <= t < calendarBoundary D W (i + 1).
Proof.
  intros HW Hu. set (u := Unix t - Unix D) in *.
  destruct (slot_guess W u ltac:(lia)) as [L U].
  assert (0 <= u * 364 / W < 364) as G.
  { split; [apply Z.div_pos; lia|apply Z.div_lt_upper_bound; lia]. }
  unfold short_index, HeatmapBlocks. fold u.
  rewrite mul64_id by (unfold64; lia). rewrite floorDiv_div by lia.
  set (g := u * 364 / W) in *. clearbody g.
  assert (forall i, 0 <= i < 364 -> slot_sec W i <= u < slot_sec W (i + 1) ->
    short_lower correctionFuel t D W i = Some i /\
    calendarBoundary D W i <= t < calendarBoundary D W (i + 1)) as Lo.
  { intros i Bi Hi. cbn [short_lower correctionFuel].
    rewrite (calendarBoundary_slot D W i), (calendarBoundary_slot D W (i + 1)) by lia.
    pose proof (before_sec t (Unix D + slot_sec W i)) as B1.
    pose proof (before_sec t (Unix D + slot_sec W (i + 1))) as B2.
    rewrite B1, (proj2 (Z.ltb_ge (Unix t) _)), andb_false_r by (subst u; lia).
    split; [done|]. subst u. lia. }
  assert (forall i, 0 <= i < 364 -> u < slot_sec W (i + 1) ->
    short_raise 2 t D W i = Some i) as Hi.
  { intros i Bi Hi. cbn [short_raise].
    destruct (i + 1 <? HeatmapBlocks) eqn:E; [|done].
    rewrite calendarBoundary_slot by lia.
    rewrite before_sec, (proj2 (Z.ltb_lt _ _)) by (subst u; lia). done. }
  destruct (Z.lt_ge_cases u (slot_sec W (g + 1))) as [C|C].
  - exists g. destruct (Lo g) as [E B]; [lia|lia|]. split_and!; [|lia..].
    cbn [short_raise correctionFuel].
    rewrite calendarBoundary_slot by lia.
    rewrite before_sec, (proj2 (Z.ltb_lt (Unix t) _)), andb_false_r by (subst u; lia).
    exact E.
  - assert (g + 1 < 364) as G1.
    { destruct (decide (g = 363)) as [->|]; [|lia].
      change (363 + 1) with 364 in C. rewrite slot_sec_364 in C. lia. }
    exists (g + 1). destruct (Lo (g + 1)) as [E B].
    { lia. }
    { replace (g + 1 + 1) with (g + 2) by lia. lia. }
    split_and!; [|lia..]. unfold correctionFuel. 
    change (short_raise 3 t D W g) with
      (if (g + 1 <? HeatmapBlocks) && negb (t <? calendarBoundary D W (g + 1))
       then short_raise 2 t D W (g + 1) else Some g).
    rewrite calendarBoundary_slot by lia.
    rewrite before_sec, (proj2 (Z.ltb_ge (Unix t) _)) by (subst u; lia).
    unfold HeatmapBlocks at 1. rewrite (proj2 (Z.ltb_lt (g + 1) 364)) by lia. cbn [andb negb].
    rewrite Hi by (lia || (replace (g + 1 + 1) with (g + 2) by lia; lia)).
    exact E.
Qed.

Lemma slot_sec_mono (W i j : Z) : 0 <= W -> i <= j -> slot_sec W i <= slot_sec W j.
Proof. intros HW H. unfold slot_sec. apply Z.div_le_mono; [lia|]. nia. Qed.

Lemma calendar_unique (D W t i j : Z) : 364 <= W <= 2592000 ->
  0 <= i < 364 -> 0 <= j < 364 ->
  calendarBoundary D W i <= t < calendarBoundary D W (i + 1) ->
  calendarBoundary D W j <= t < calendarBoundary D W (j + 1) -> i = j.
Proof.
  intros HW Hi Hj. apply (boundary_unique (calendarBoundary D W) 0 364); [|lia..].
  intros k Hk. rewrite !calendarBoundary_slot by lia.
  pose proof (slot_sec_step W k). unfold Second. lia.
Qed.

Lemma short_index_unique (D W t i : Z) : 364 <= W <= 2592000 ->
  0 <= Unix t - Unix D < W -> 0 <= i < 364 ->
  calendarBoundary D W i <= t < calendarBoundary D W (i + 1) -> short_index t D W = Some i.
Proof.
  intros HW Hu Hi Ci. destruct (short_index_spec D W t HW Hu) as (j & -> & Hj & Cj).
  f_equal. by apply (calendar_unique D W t).
Qed.

Lemma Unix_whole_bounds (s e t : Z) : unix_time s <= t < unix_time e <-> s <= Unix t < e.
Proof.
  unfold unix_time. pose proof (before_sec t s). pose proof (before_sec t e). lia.
Qed.

(** The two local midnights around an instant enclose it. *)
Definition enclosed (local : Location) (t : Z) : Prop :=
  let D := day_start local t in
  let D' := AddDate local D 0 0 1 in
  D <= t < D' /\ 364 <= Unix D' - Unix D <= 2592000.

Lemma midnights_whole (local : Location) (t : Z) :
  let D := day_start local t in
  D = unix_time (Unix D) /\ AddDate local D 0 0 1 = unix_time (Unix (AddDate local D 0 0 1)).
Proof.
  intros D. assert (D = unix_time (Unix D)) as ED by apply day_start_whole.
  split; [done|]. rewrite ED. apply AddDate_whole.
Qed.

Lemma enclosed_offset (local : Location) (t : Z) : enclosed local t ->
  0 <= Unix t - Unix (day_start local t) <
  Unix (AddDate local (day_start local t) 0 0 1) - Unix (day_start local t).
Proof.
  intros [Ht _]. destruct (midnights_whole local t) as [ED ED'].
  assert (Unix (day_start local t) <= Unix t <
          Unix (AddDate local (day_start local t) 0 0 1)) as B
    by (apply Unix_whole_bounds; rewrite <- ED, <- ED'; exact Ht).
  lia.
Qed.

Lemma short_bucket_total (local : Location) (t : Z) : enclosed local t ->
  exists b, BucketForTimestamp local UsageActivityGrainShort t = Ok b.
Proof.
  intros E. pose proof (enclosed_offset _ _ E) as Hu. destruct E as [_ HW].
  destruct (short_index_spec _ _ _ HW Hu) as (i & Ei & _).
  unfold BucketForTimestamp, shortBucketForTimestamp, NormalizeStorageTime.
  replace (UsageActivityGrainShort =?s UsageActivityGrainShort) with true by done.
  rewrite Ei. eauto.
Qed.

(** A short bucket divides the local day of an instant, whatever its length
    (23, 24 or 25 hours): when the two local midnights enclose the instant, the
    bucket exists, contains the instant, stays inside of the day, and is the
    bucket of every instant of this day that it contains. *)
Theorem short_bucket_partition (local : Location) (t : Z) : enclosed local t ->
  let D := day_start local t in
  let D' := AddDate local D 0 0 1 in
  exists b, BucketForTimestamp local UsageActivityGrainShort t = Ok b /\
    Start b <= t < End_ b /\ D <= Start b /\ End_ b <= D' /\
    forall t', day_start local t' = D -> Start b <= t' < End_ b ->
      BucketForTimestamp local UsageActivityGrainShort t' = Ok b.
Proof.
  intros E D D'. pose proof (enclosed_offset _ _ E) as Hu. destruct E as [Ht HW].
  destruct (midnights_whole local t) as [ED ED'].
  fold D in Hu, Ht, HW, ED, ED'. fold D' in Hu, Ht, HW, ED'.
  set (W := Unix D' - Unix D) in *.
  destruct (short_index_spec D W t HW Hu) as (i & Ei & Hi & Ci).
  assert (H0 : D <= calendarBoundary D W i).
  { rewrite calendarBoundary_slot by lia. rewrite ED at 1. unfold unix_time.
    pose proof (slot_sec_mono W 0 i). rewrite slot_sec_0 in *. unfold Second. lia. }
  assert (H1 : calendarBoundary D W (i + 1) <= D').
  { rewrite calendarBoundary_slot by lia. rewrite ED'. unfold unix_time.
    pose proof (slot_sec_mono W (i + 1) 364). rewrite slot_sec_364 in *.
    subst W. unfold Second. lia. }
  exists (calendarBucket D W i). unfold BucketForTimestamp, shortBucketForTimestamp,
    NormalizeStorageTime. cbn [String.eqb].
  replace (UsageActivityGrainShort =?s UsageActivityGrainShort) with true by done.
  fold D. fold D'. fold W. rewrite Ei.
  split_and!; [done|simpl; lia..|].
  intros t' Et' Ct'. rewrite Et'. fold D'. fold W.
  rewrite (short_index_unique D W t' i); [done|lia| |lia|exact Ct'].
  simpl in Ct'. assert (D <= t' < D') as B by lia.
  rewrite ED, ED', Unix_whole_bounds in B. subst W. lia.
Qed.

(** Two transitions of a zone with daylight saving time (New York, 2024). *)
Definition NewYork2024 : Location :=
  mkLocation (-18000) [(1710054000, -14400); (1730613600, -18000)].

(** The 23-hour day of March 10, 2024. *)
Lemma short_bucket_partition_witness :
  let D := day_start NewYork2024 (1710060000 * Second) in
  let D' := AddDate NewYork2024 D 0 0 1 in
  D' - D = 23 * Hour /\
  exists b, BucketForTimestamp NewYork2024 UsageActivityGrainShort (1710060000 * Second) = Ok b /\
    Start b <= 1710060000 * Second < End_ b /\ D <= Start b /\ End_ b <= D' /\
    forall t', day_start NewYork2024 t' = D -> Start b <= t' < End_ b ->
      BucketForTimestamp NewYork2024 UsageActivityGrainShort t' = Ok b.
Proof.
  split; [vm_compute; reflexivity|].
  apply (short_bucket_partition NewYork2024 (1710060000 * Second)).
  split; vm_compute; split; congruence.
Defined.

(** ** Short and daily windows away from transitions *)

(** The [j]-th short slot since the epoch of a location with one offset. *)
Definition shortBoundary (off j : Z) : Z := (slot_sec 86400 j - off) * Second.
Definition shortSlot (off j : Z) : Bucket :=
  mkBucket (shortBoundary off j) (shortBoundary off (j + 1)).

Lemma shortBoundary_lt (off i j : Z) : i < j -> shortBoundary off i < shortBoundary off j.
Proof.
  intros H. apply (boundary_lt (shortBoundary off) i j); [|lia..].
  intros k _. unfold shortBoundary. pose proof (slot_sec_step 86400 k). unfold Second. lia.
Qed.

Lemma slot_sec_day (n i : Z) : slot_sec 86400 (364 * n + i) = 86400 * n + slot_sec 86400 i.
Proof.
  unfold slot_sec. replace ((364 * n + i) * 86400) with (i * 86400 + (86400 * n) * 364) by ring.
  rewrite Z.div_add by lia. lia.
Qed.

(** In such a location the short buckets of all days are one sequence. *)
Lemma shortBucket_fixed (off t : Z) :
  exists j, shortBucketForTimestamp (FixedZone off) t = Ok (shortSlot off j) /\
  shortBoundary off j <= t < shortBoundary off (j + 1).
Proof.
  unfold shortBucketForTimestamp, NormalizeStorageTime.
  pose proof (day_start_fixed off t) as ED.
  pose proof (AddDate_fixed_days off (day_start (FixedZone off) t) 1) as ED'.
  pose proof (day_start_fixed_bounds off t) as B.
  set (D := day_start (FixedZone off) t) in *.
  set (D' := AddDate (FixedZone off) D 0 0 1) in *.
  set (n := (Unix t + off) / 86400) in *.
  assert (Unix D = n * 86400 - off) as UD by (rewrite ED; apply Z.div_mul; done).
  assert (Unix D' = Unix D + 86400) as UD'.
  { rewrite ED', UD, ED. change (1 * (24 * Hour)) with (86400 * Second).
    rewrite <- Z.mul_add_distr_r. apply Z.div_mul. done. }
  rewrite UD'. replace (Unix D + 86400 - Unix D) with 86400 by lia.
  assert (Hu : 0 <= Unix t - Unix D < 86400).
  { subst n. rewrite UD. Z.to_euclidean_division_equations. lia. }
  destruct (short_index_spec D 86400 t ltac:(lia) Hu) as (i & -> & Hi & Ci).
  exists (364 * n + i). unfold shortSlot, shortBoundary, calendarBucket.
  replace (364 * n + i + 1) with (364 * n + (i + 1)) by lia.
  rewrite !slot_sec_day. rewrite !calendarBoundary_slot, UD in * by lia.
  replace (86400 * n + slot_sec 86400 i - off) with (n * 86400 - off + slot_sec 86400 i) by lia.
  replace (86400 * n + slot_sec 86400 (i + 1) - off)
    with (n * 86400 - off + slot_sec 86400 (i + 1)) by lia.
  split; [done|lia].
Qed.

Lemma shortBucket_fixed_at (off t j : Z) :
  shortBoundary off j <= t < shortBoundary off (j + 1) ->
  shortBucketForTimestamp (FixedZone off) t = Ok (shortSlot off j).
Proof.
  intros C. destruct (shortBucket_fixed off t) as (k & -> & Ck).
  do 2 f_equal. apply (boundary_unique (shortBoundary off) (Z.min j k) (Z.max j k + 2)) with t;
    try lia.
  intros i _. apply shortBoundary_lt. lia.
Qed.

Lemma short_walk_fixed (off e : Z) (n : nat) (acc : list Bucket) :
  short_walk (FixedZone off) n (shortBoundary off e) acc =
  Ok (map (fun k => shortSlot off (e - Z.of_nat n + k)) (seqZ 0 (Z.of_nat n)) ++ acc).
Proof.
  revert e acc. induction n as [|n IH]; intros e acc; [done|].
  cbn [short_walk]. rewrite (shortBucket_fixed_at off _ (e - 1)).
  2:{ replace (e - 1 + 1) with e by lia.
      pose proof (shortBoundary_lt off (e - 1) e ltac:(lia)). lia. }
  cbn [result_bind Start shortSlot]. rewrite IH. f_equal.
  rewrite seqZ_S, map_app, <- app_assoc. cbn [map app].
  f_equal.
  - apply map_ext. intros k. f_equal. lia.
  - do 2 f_equal. lia.
Qed.

Lemma shortBoundary_period (off j : Z) :
  shortBoundary off (j + 364) = shortBoundary off j + day.
Proof.
  unfold shortBoundary. rewrite slot_sec_period.
  unfold day, Hour, Minute, Second. lia.
Qed.

(** A window of 364 slots that one increasing sequence of boundaries bounds. *)
Definition window_of (B : Z -> Z) (e : Z) : list Bucket :=
  map (fun k => mkBucket (B (e - 364 + k)) (B (e - 364 + k + 1))) (seqZ 0 HeatmapBlocks).

Lemma window_of_spec (B : Z -> Z) (e ref : Z) : B (e - 1) < ref <= B e ->
  exists first last, length (window_of B e) = 364%nat /\ contiguous (window_of B e) /\
    window_of B e !! 0%nat = Some first /\ window_of B e !! 363%nat = Some last /\
    Start first = B (e - 364) /\ End_ last = B e /\ Start last < ref <= End_ last.
Proof.
  intros H. unfold window_of.
  eexists (mkBucket _ _), (mkBucket _ _). split_and!.
  - apply window_length.
  - intros k b b' [_ ->]%window_lookup [_ ->]%window_lookup. cbn [Start End_]. f_equal. lia.
  - apply window_lookup. split; [lia|reflexivity].
  - apply window_lookup. split; [lia|reflexivity].
  - cbn [Start]. f_equal. lia.
  - cbn [End_]. f_equal. lia.
  - cbn [Start End_]. change (Z.of_nat 363) with 363.
    replace (e - 364 + 363) with (e - 1) by lia. lia.
  - cbn [Start End_]. change (Z.of_nat 363) with 363.
    replace (e - 364 + 363 + 1) with e by lia. lia.
Qed.

Lemma daily_bucket_fixed (off t : Z) :
  BucketForTimestamp (FixedZone off) UsageActivityGrainDaily t =
  Ok (mkBucket (day_start (FixedZone off) t) (day_start (FixedZone off) t + day)).
Proof.
  unfold BucketForTimestamp, NormalizeStorageTime.
  replace (UsageActivityGrainDaily =?s UsageActivityGrainShort) with false by done.
  replace (UsageActivityGrainDaily =?s UsageActivityGrainDaily) with true by done.
  by rewrite AddDate_fixed_days.
Qed.

Lemma day_start_fixed_at (off m t : Z) :
  (m * 86400 - off) * Second <= t < ((m + 1) * 86400 - off) * Second ->
  day_start (FixedZone off) t = (m * 86400 - off) * Second.
Proof.
  intros H. rewrite day_start_fixed.
  assert ((Unix t + off) / 86400 = m) as ->; [|done].
  fold (unix_time (m * 86400 - off)) (unix_time ((m + 1) * 86400 - off)) in H.
  rewrite Unix_whole_bounds in H.
  symmetry. apply (Z.div_unique_pos _ _ _ (Unix t + off - m * 86400)); lia.
Qed.

(** What [WindowEndingAt] owes its callers, for buckets read back by storage. *)
Definition window_ok (local : Location) (grain : string) (ref span : Z) : Prop :=
  exists bs first last, WindowEndingAt local grain ref = Ok bs /\
    length bs = 364%nat /\ contiguous bs /\ bs !! 0%nat = Some first /\
    bs !! 363%nat = Some last /\ End_ last - Start first = span /\
    Start last < ref <= End_ last /\
    forall b t, b ∈ bs -> Start b <= t < End_ b -> BucketForTimestamp local grain t = Ok b.

Lemma short_window_fixed (off ref : Z) :
  window_ok (FixedZone off) UsageActivityGrainShort ref day.
Proof.
  destruct (shortBucket_fixed off ref) as (j & Ej & Cj).
  set (e := if negb (ref =? shortBoundary off j) then j + 1 else j).
  assert (WindowEndingAt (FixedZone off) UsageActivityGrainShort ref =
          Ok (window_of (shortBoundary off) e)) as EW.
  { unfold WindowEndingAt.
    replace (UsageActivityGrainShort =?s UsageActivityGrainShort) with true by done.
    unfold shortWindowEndingAt. rewrite Ej. cbn [result_bind Start End_ shortSlot].
    assert ((if negb (ref =? shortBoundary off j) then shortBoundary off (j + 1)
             else shortBoundary off j) = shortBoundary off e) as ->
      by (subst e; by case_match).
    rewrite short_walk_fixed, app_nil_r. reflexivity. }
  assert (shortBoundary off (e - 1) < ref <= shortBoundary off e) as Hr.
  { subst e. destruct (ref =? shortBoundary off j) eqn:E; bool_split; cbn [negb].
    - pose proof (shortBoundary_lt off (j - 1) j ltac:(lia)). lia.
    - replace (j + 1 - 1) with j by lia. lia. }
  destruct (window_of_spec _ e ref Hr) as (f & l & Hl & Hc & H0 & H1 & Sf & El & Hb).
  eexists _, f, l. split; [exact EW|]. split_and!; try done.
  + rewrite Sf, El. replace e with (e - 364 + 364) at 1 by lia.
    rewrite shortBoundary_period. lia.
  + lia.
  + lia.
  + intros b t (k & [Hk ->]%window_lookup)%list_elem_of_lookup Ct.
    exact (shortBucket_fixed_at off t _ Ct).
Qed.

Lemma daily_window_fixed (off ref : Z) :
  window_ok (FixedZone off) UsageActivityGrainDaily ref (364 * day).
Proof.
  set (D := day_start (FixedZone off) ref).
  set (E := if negb (ref =? D) then D + day else D).
  assert (WindowEndingAt (FixedZone off) UsageActivityGrainDaily ref =
          Ok (window_of (fun k => E + k * day) 0)) as EW.
  { unfold WindowEndingAt, NormalizeStorageTime.
    replace (UsageActivityGrainDaily =?s UsageActivityGrainShort) with false by done.
    replace (UsageActivityGrainDaily =?s UsageActivityGrainDaily) with true by done.
    rewrite !AddDate_fixed_days. fold D. f_equal. unfold window_of.
    apply map_ext. intros k. rewrite !AddDate_fixed_days.
    unfold E, HeatmapBlocks, day. case_match; f_equal; lia. }
  assert (E + (0 - 1) * day < ref <= E + 0 * day) as Hr.
  { pose proof (day_start_fixed_bounds off ref) as B. fold D in B. fold day in B.
    subst E. destruct (ref =? D) eqn:Q; bool_split; cbn [negb]; [|lia].
    unfold day, Hour, Minute, Second. lia. }
  destruct (window_of_spec (fun k => E + k * day) 0 ref Hr)
    as (f & l & Hl & Hc & H0 & H1 & Sf & El & Hb).
  eexists _, f, l. split; [exact EW|]. split_and!; try done.
  + rewrite Sf, El. lia.
  + lia.
  + lia.
  + intros b t (k & [Hk ->]%window_lookup)%list_elem_of_lookup Ct.
    cbn [Start End_] in Ct. rewrite daily_bucket_fixed.
    assert (exists q, E = (q * 86400 - off) * Second) as [q Eq].
    { subst E D. rewrite day_start_fixed. clear.
      match goal with |- context [if ?c then _ else _] => destruct c end.
      - eexists ((Unix ref + off) / 86400 + 1). unfold day, Hour, Minute, Second. lia.
      - by eexists. }
    assert (day_start (FixedZone off) t = E + (0 - 364 + Z.of_nat k) * day) as ->.
    { rewrite (day_start_fixed_at off (q - 364 + Z.of_nat k)); rewrite Eq in *;
        unfold day, Hour, Minute, Second in *; lia. }
    do 2 f_equal. lia.
Qed.

(** Where the local clock has one offset, a short window spans the 24 hours
    and a daily window the 364 days that end with the bucket of the reference
    instant: 364 contiguous buckets, and storage assigns each instant of a
    bucket of the window to this bucket. *)
Theorem local_window_spec (off ref : Z) (grain : string) (span : Z) :
  (grain, span) ∈ [(UsageActivityGrainShort, day); (UsageActivityGrainDaily, 364 * day)] ->
  window_ok (FixedZone off) grain ref span.
Proof.
  intros [[= -> ->]|[[= -> ->]|H%elem_of_nil]%elem_of_cons]%elem_of_cons;
    [apply short_window_fixed|apply daily_window_fixed|done].
Qed.

Lemma local_window_spec_witness :
  window_ok (FixedZone 20700) UsageActivityGrainShort (1709164800 * Second) day.
Proof.
  apply (local_window_spec 20700 (1709164800 * Second) UsageActivityGrainShort day).
  apply elem_of_cons. left. reflexivity.
Defined.
