(* ===== verification/ActivityRowsFacts.v ===== *)
(** Properties of [BuildRows]: every retained event is counted once in each
    grain, rows have distinct keys in the order of the sort, and the bounds of
    a row are those of a bucket that holds one of its events. *)
From S2P Require Import Prelude GoStrings GoTime GoTimeFacts Timeutil Entities ActivityGrain ActivityFacts.
From stdpp Require Import sorting.

Local Open Scope string_scope.
Local Open Scope list_scope.
Local Open Scope Z_scope.

Definition rowKey (r : UsageActivityStat) : aggregateKey :=
  (asGrain r, asBucketStart r, asAPIGroupKey r).

Lemma rowKey_add (e : UsageEvent) (r : UsageActivityStat) :
  rowKey (addEventToRow e r) = rowKey r.
Proof. reflexivity. Qed.

Lemma fold_result_app {E A B} (f : B -> A -> result E B) (acc : B) (l k : list A) :
  fold_result f acc (l ++ k) = result_bind (fold_result f acc l) (fun b => fold_result f b k).
Proof.
  revert acc. induction l as [|a l IH]; intros acc; [done|]. simpl.
  destruct (f acc a); [|done]. simpl. apply IH.
Qed.

(** An invariant of the accumulator is kept by the whole fold. *)
Lemma fold_result_inv {E A B} (f : B -> A -> result E B) (P : list A -> B -> Prop)
    (l : list A) (acc b : B) :
  P [] acc ->
  (forall done_ a x y, P done_ x -> f x a = Ok y -> P (done_ ++ [a]) y) ->
  fold_result f acc l = Ok b -> P l b.
Proof.
  intros H0 Hs. revert b. induction l as [|a l IH] using rev_ind; intros b.
  - by intros [= <-].
  - rewrite fold_result_app. destruct (fold_result f acc l) as [x|]; [|done]. simpl.
    destruct (f x a) as [y|] eqn:Ey; [|done]. intros [= <-]. eauto.
Qed.

Lemma addEventToGrain_Ok (local : Location) (now : Z) (e : UsageEvent) (m m' : ActivityRows) (g : string) :
  addEventToGrain local now e m g = Ok m' ->
  (retained g now (evTimestamp e) = false /\ m' = m) \/
  (retained g now (evTimestamp e) = true /\
   exists b, BucketForTimestamp local g (evTimestamp e) = Ok b /\
   let key : aggregateKey := (g, Start b, NormalizeAPIGroupKey (evAPIGroupKey e)) in
   m' = <[key := addEventToRow e
           (default (newActivityRow g b (NormalizeAPIGroupKey (evAPIGroupKey e))) (m !! key))]> m).
Proof.
  unfold addEventToGrain, NormalizeStorageTime. intros H.
  destruct (retained g now (evTimestamp e)); [right|left].
  - split; [done|]. cbn [negb] in H.
    destruct (BucketForTimestamp local g (evTimestamp e)) as [b|]; [|done].
    exists b. split; [done|]. cbn [result_bind] in H. cbv zeta in *.
    injection H as <-. by destruct (m !! _).
  - split; [done|]. by injection H as <-.
Qed.

(** ** Counters *)

(** The counter columns of a row with what one event adds to them. *)
Definition counters : list ((UsageActivityStat -> Z) * (UsageEvent -> Z)) :=
  [(asSuccessCount, fun e => if evFailed e then 0 else 1);
   (asFailureCount, fun e => if evFailed e then 1 else 0);
   (asInputTokens, evInputTokens); (asOutputTokens, evOutputTokens);
   (asReasoningTokens, evReasoningTokens); (asCacheReadTokens, evCacheReadTokens);
   (asCacheCreationTokens, evCacheCreationTokens); (asTotalTokens, evTotalTokens)].

Section Counter.
Context (local : Location) (now : Z) (grain key : string).
Context (col : UsageActivityStat -> Z) (amount : UsageEvent -> Z).
Hypothesis col_in : (col, amount) ∈ counters.

Lemma col_new (b : Bucket) (k : string) : col (newActivityRow grain b k) = 0.
Proof.
  assert (Forall (fun p => p.1 (newActivityRow grain b k) = 0) counters) as F
    by (repeat constructor).
  exact (proj1 (Forall_forall _ _) F _ col_in).
Qed.

Lemma col_add (e : UsageEvent) (r : UsageActivityStat) :
  eqm64 (col (addEventToRow e r)) (col r + amount e).
Proof.
  assert (Forall (fun p => eqm64 (p.1 (addEventToRow e r)) (p.1 r + p.2 e)) counters) as F.
  { repeat constructor; simpl; try apply add64_eqm;
      destruct (evFailed e); rewrite ?Z.add_0_r; (apply add64_eqm || reflexivity). }
  exact (proj1 (Forall_forall _ _) F _ col_in).
Qed.

(** What an event adds to the rows of [grain] and [key]. *)
Definition contribution (e : UsageEvent) : Z :=
  if retained grain now (evTimestamp e) && (NormalizeAPIGroupKey (evAPIGroupKey e) =?s key)
  then amount e else 0.

Definition in_group (k : aggregateKey) : bool := (k.1.1 =?s grain) && (k.2 =?s key).

Definition group_total (m : ActivityRows) : Z :=
  gmap_sum (fun k r => if in_group k then col r else 0) m.

Lemma group_total_step (e : UsageEvent) (m m' : ActivityRows) (g : string) :
  addEventToGrain local now e m g = Ok m' ->
  eqm64 (group_total m') (group_total m + if g =?s grain then contribution e else 0).
Proof.
  intros [[R ->]|(R & b & _ & ->)]%addEventToGrain_Ok; unfold contribution.
  - destruct (g =?s grain) eqn:Eg; rewrite ?Z.add_0_r; [|done].
    apply String.eqb_eq in Eg. subst g. by rewrite R, Z.add_0_r.
  - unfold group_total. rewrite gmap_sum_insert. cbv beta.
    assert (in_group (g, Start b, NormalizeAPIGroupKey (evAPIGroupKey e)) =
            (g =?s grain) && (NormalizeAPIGroupKey (evAPIGroupKey e) =?s key)) as -> by done.
    destruct (g =?s grain) eqn:Eg; cbn [andb].
    + apply String.eqb_eq in Eg. subst g. rewrite R. cbn [andb].
      set (k := (grain, Start b, NormalizeAPIGroupKey (evAPIGroupKey e)) : aggregateKey).
      destruct (NormalizeAPIGroupKey (evAPIGroupKey e) =?s key).
      * rewrite col_add. destruct (m !! k) as [r|]; simpl; [|rewrite col_new];
          match goal with |- eqm64 ?a ?b => replace a with b by lia end; reflexivity.
      * match goal with |- eqm64 ?a ?b => replace a with b; [reflexivity|] end.
        destruct (m !! k); cbv iota; lia.
    + match goal with |- eqm64 ?a ?b => replace a with b; [reflexivity|] end.
      destruct (m !! _); cbv iota; lia.
Qed.

Lemma group_total_event (e : UsageEvent) (m m' : ActivityRows) :
  grain ∈ allGrains -> addEvent local now m e = Ok m' ->
  eqm64 (group_total m') (group_total m + contribution e).
Proof.
  intros Hg H. unfold addEvent in H.
  assert (contribution e =
    sum_Z (map (fun g => if g =?s grain then contribution e else 0) allGrains)) as ->.
  { revert Hg. unfold allGrains. generalize (contribution e). intros c.
    rewrite !elem_of_cons, elem_of_nil.
    intros [->|[->|[->|[->|[]]]]]; vm_compute; by destruct c. }
  revert H. apply (fold_result_inv _ (fun l x => eqm64 (group_total x)
    (group_total m + sum_Z (map (fun g => if g =?s grain then contribution e else 0) l)))).
  - by rewrite Z.add_0_r.
  - intros l g x y IH S. rewrite (group_total_step _ _ _ _ S), IH.
    rewrite map_app. cbn [map]. rewrite sum_Z_snoc.
    match goal with |- eqm64 ?a ?b => replace a with b by lia end. reflexivity.
Qed.

Lemma group_total_events (events : list UsageEvent) (m : ActivityRows) :
  grain ∈ allGrains -> fold_result (addEvent local now) ∅ events = Ok m ->
  eqm64 (group_total m) (sum_Z (map contribution events)).
Proof.
  intros Hg. apply (fold_result_inv _ (fun l x => eqm64 (group_total x)
    (sum_Z (map contribution l)))).
  - unfold group_total. by rewrite gmap_sum_empty.
  - intros l e x y IH S. rewrite (group_total_event _ _ _ Hg S), IH.
    rewrite map_app. cbn [map]. rewrite sum_Z_snoc.
    match goal with |- eqm64 ?a ?b => replace a with b by lia end. reflexivity.
Qed.
End Counter.

(** ** Keys and bounds *)

(** A row sits under its own key and has the bounds of a bucket that holds one
    of the events. *)
Definition row_ok (local : Location) (events : list UsageEvent) (k : aggregateKey)
    (r : UsageActivityStat) : Prop :=
  k = rowKey r /\
  exists e, e ∈ events /\ BucketForTimestamp local (asGrain r) (evTimestamp e) =
    Ok (mkBucket (asBucketStart r) (asBucketEnd r)) /\
    asAPIGroupKey r = NormalizeAPIGroupKey (evAPIGroupKey e).

Lemma row_ok_app (local : Location) (l l' : list UsageEvent) k r :
  row_ok local l k r -> row_ok local (l ++ l') k r.
Proof.
  intros (E & e & He & B & N). split; [done|]. exists e. rewrite elem_of_app. eauto.
Qed.

(** The end of a bucket is determined by its grain and start. *)
Lemma grain_step_rows (local : Location) (now : Z) (e : UsageEvent) (l : list UsageEvent)
    (m m' : ActivityRows) (g : string) :
  e ∈ l -> (forall k r, m !! k = Some r -> row_ok local l k r) ->
  addEventToGrain local now e m g = Ok m' ->
  forall k r, m' !! k = Some r -> row_ok local l k r.
Proof.
  intros He IH [[_ ->]|(_ & b & Eb & ->)]%addEventToGrain_Ok; [done|].
  intros k r. set (key := (g, Start b, NormalizeAPIGroupKey (evAPIGroupKey e)) : aggregateKey).
  destruct (decide (key = k)) as [<-|N].
  - rewrite lookup_insert_eq. intros [= <-].
    destruct (m !! key) as [r|] eqn:Er; simpl.
    + destruct (IH _ _ Er) as (E & x & Hx & B & Nx). split; [done|]. by exists x.
    + split; [done|]. exists e. simpl. split_and!; [done| |done].
      rewrite Eb. by destruct b.
  - rewrite lookup_insert_ne by done. apply IH.
Qed.

Lemma rows_ok (local : Location) (now : Z) (events : list UsageEvent) (m : ActivityRows) :
  fold_result (addEvent local now) ∅ events = Ok m ->
  forall k r, m !! k = Some r -> row_ok local events k r.
Proof.
  apply (fold_result_inv _ (fun l x => forall k r, x !! k = Some r -> row_ok local l k r)).
  - intros k r. by rewrite lookup_empty.
  - intros l e x y IH S. unfold addEvent in S. revert S.
    apply (fold_result_inv _ (fun _ z => forall k r, z !! k = Some r -> row_ok local (l ++ [e]) k r)).
    + intros k r Hk. by apply row_ok_app, IH.
    + intros gs g z z' IHz Sz. eapply grain_step_rows; [|exact IHz|exact Sz].
      rewrite elem_of_app. right. by apply list_elem_of_singleton.
Qed.

(** The sort compares keys; distinct keys are strictly ordered. *)
Definition keyBefore (p q : aggregateKey) : Prop :=
  let '(g, s, k) := p in
  let '(g', s', k') := q in
  string_lt g g' = true \/ g = g' /\ (s < s' \/ s = s' /\ string_lt k k' = true).

Lemma rowBefore_key (l r : UsageActivityStat) : rowBefore l r <-> keyBefore (rowKey l) (rowKey r).
Proof.
  unfold rowBefore, keyBefore, rowKey.
  destruct (asGrain l =?s asGrain r) eqn:E1; bool_split; cbn [negb].
  - rewrite E1. destruct (asBucketStart l =? asBucketStart r) eqn:E2; bool_split; cbn [negb].
    + rewrite E2, string_lt_irrefl. naive_solver lia.
    + rewrite Z.ltb_lt, string_lt_irrefl. naive_solver lia.
  - naive_solver.
Qed.

Lemma keyBefore_trans p q r : keyBefore p q -> keyBefore q r -> keyBefore p r.
Proof.
  destruct p as [[g s] k], q as [[g' s'] k'], r as [[g'' s''] k'']. unfold keyBefore.
  intros [H1|[-> [H1|[-> H1]]]] [H2|[<- [H2|[<- H2]]]];
    first [left; by (assumption || eapply string_lt_trans)
          |right; split; [done|]; left; lia
          |right; split; [done|]; right; split; [done|]; by eapply string_lt_trans].
Qed.

Lemma keyBefore_irrefl p : ~ keyBefore p p.
Proof.
  destruct p as [[g s] k]. unfold keyBefore. rewrite !string_lt_irrefl.
  intros [?|[_ [?|[_ ?]]]]; (done || lia).
Qed.

Lemma keyBefore_total p q : keyBefore p q \/ p = q \/ keyBefore q p.
Proof.
  destruct p as [[g s] k], q as [[g' s'] k']. unfold keyBefore.
  destruct (string_lt_total g g') as [H|[->|H]]; [by left; left| |by do 2 right; left].
  destruct (Z.lt_trichotomy s s') as [H|[->|H]]; [left; right; auto| |do 2 right; right; auto].
  destruct (string_lt_total k k') as [H|[->|H]]; [left; right; auto|by right; left|do 2 right; right; auto].
Qed.

#[export] Instance rowNotAfter_total : Total rowNotAfter.
Proof.
  intros l r. unfold rowNotAfter. rewrite !rowBefore_key.
  destruct (keyBefore_total (rowKey l) (rowKey r)) as [H|[E|H]].
  - left. intros H'. by apply (keyBefore_irrefl (rowKey l)), (keyBefore_trans _ (rowKey r)).
  - left. rewrite E. apply keyBefore_irrefl.
  - right. intros H'. by apply (keyBefore_irrefl (rowKey l)), (keyBefore_trans _ (rowKey r)).
Qed.

#[export] Instance rowNotAfter_trans : Transitive rowNotAfter.
Proof.
  intros a b c. unfold rowNotAfter. rewrite !rowBefore_key. intros H1 H2 H3.
  destruct (keyBefore_total (rowKey b) (rowKey c)) as [H|[E|H]].
  - apply H1. by eapply keyBefore_trans.
  - apply H1. by rewrite E.
  - by apply H2.
Qed.

Lemma rows_strictly_sorted (rows : list UsageActivityStat) :
  NoDup (map rowKey rows) -> StronglySorted rowNotAfter rows -> StronglySorted rowBefore rows.
Proof.
  intros ND SS. induction SS as [|r l SS IH F]; [constructor|].
  cbn [map] in ND. apply NoDup_cons in ND as [NI ND]. constructor; [by apply IH|].
  rewrite Forall_forall in *. intros x Hx. specialize (F x Hx). unfold rowNotAfter in F.
  rewrite rowBefore_key in *.
  destruct (keyBefore_total (rowKey r) (rowKey x)) as [H|[E|H]]; [done| |done].
  destruct NI. rewrite E. by apply list_elem_of_fmap_2.
Qed.

Lemma BuildRows_Ok (local : Location) (events : list UsageEvent) (now : Z) (rows : list UsageActivityStat) :
  BuildRows local events now = Ok rows ->
  exists m, fold_result (addEvent local now) ∅ events = Ok m /\
  rows ≡ₚ map snd (map_to_list m) /\ StronglySorted rowNotAfter rows.
Proof.
  unfold BuildRows, NormalizeStorageTime. intros H.
  destruct (fold_result (addEvent local now) ∅ events) as [m|] eqn:E; [|done].
  cbn [result_bind] in H. injection H as <-. exists m. split_and!; [done|..].
  - apply merge_sort_Permutation.
  - apply (StronglySorted_merge_sort _).
Qed.

Lemma map_rows_keys (m : ActivityRows) :
  (forall k r, m !! k = Some r -> k = rowKey r) ->
  map rowKey (map snd (map_to_list m)) = map fst (map_to_list m).
Proof.
  intros H. rewrite map_map. apply map_ext_in. intros [k r] Hkr.
  apply list_elem_of_In, elem_of_map_to_list in Hkr. simpl. symmetry. by apply H.
Qed.

(** The aggregation loses nothing and counts nothing twice: for each grain
    and API group, each counter column of the rows sums to what the retained
    events of this group amount to (up to the wrap-around of int64), whatever
    buckets the events fall into. *)
Theorem build_rows_conserves (local : Location) (events : list UsageEvent) (now : Z)
    (rows : list UsageActivityStat) (grain key : string)
    (col : UsageActivityStat -> Z) (amount : UsageEvent -> Z) :
  BuildRows local events now = Ok rows -> grain ∈ allGrains -> (col, amount) ∈ counters ->
  eqm64 (sum_Z (map (fun r => if (asGrain r =?s grain) && (asAPIGroupKey r =?s key)
                              then col r else 0) rows))
        (sum_Z (map (fun e => if retained grain now (evTimestamp e)
                                 && (NormalizeAPIGroupKey (evAPIGroupKey e) =?s key)
                              then amount e else 0) events)).
Proof.
  intros (m & Em & P & _)%BuildRows_Ok Hg Hc.
  rewrite <- (group_total_events local now grain key col amount Hc events m Hg Em).
  rewrite P. rewrite map_map. unfold group_total, gmap_sum.
  match goal with |- eqm64 (sum_Z ?a) (sum_Z ?b) => replace a with b; [reflexivity|] end.
  apply map_ext_in. intros [k r] Hkr.
  apply list_elem_of_In, elem_of_map_to_list in Hkr.
  destruct (rows_ok _ _ _ _ Em _ _ Hkr) as [-> _]. reflexivity.
Qed.

(** The rows come out in the strict order of grain, bucket start and API
    group, so no key has two rows, and the bounds and group of each row are
    those of the bucket of one of the events. *)
Theorem build_rows_sorted_unique (local : Location) (events : list UsageEvent) (now : Z)
    (rows : list UsageActivityStat) :
  BuildRows local events now = Ok rows ->
  StronglySorted rowBefore rows /\
  forall r, r ∈ rows -> exists e, e ∈ events /\
    BucketForTimestamp local (asGrain r) (evTimestamp e) =
      Ok (mkBucket (asBucketStart r) (asBucketEnd r)) /\
    asAPIGroupKey r = NormalizeAPIGroupKey (evAPIGroupKey e).
Proof.
  intros (m & Em & P & SS)%BuildRows_Ok. split.
  - apply rows_strictly_sorted; [|done]. rewrite P.
    rewrite map_rows_keys.
    + apply NoDup_fst_map_to_list.
    + intros k r Hkr. exact (proj1 (rows_ok _ _ _ _ Em _ _ Hkr)).
  - intros r. rewrite P. intros ([k r'] & -> & Hkr)%list_elem_of_fmap_1.
    apply elem_of_map_to_list in Hkr. exact (proj2 (rows_ok _ _ _ _ Em _ _ Hkr)).
Qed.

Definition demoEvents : list UsageEvent :=
  let e t k f n :=
    mkUsageEvent 0 EmptyString k EmptyString EmptyString EmptyString EmptyString EmptyString
      None None None None EmptyString None EmptyString EmptyString EmptyString EmptyString
      EmptyString t EmptyString EmptyString f None None None 0 None n n n n n false n n 0 in
  [e (1709164800 * Second) " key "%string false 7; e (1709164801 * Second) "key"%string true 5;
   e (1708000000 * Second) EmptyString false 3].

Definition demoNow : Z := 1709168400 * Second.

Lemma build_rows_conserves_witness :
  exists rows, BuildRows UTC demoEvents demoNow = Ok rows /\
  eqm64 (sum_Z (map (fun r => if (asGrain r =?s "medium") && (asAPIGroupKey r =?s "key")
                              then asTotalTokens r else 0) rows)) 12.
Proof.
  eexists. split; [vm_compute; reflexivity|].
  eapply (build_rows_conserves UTC demoEvents demoNow _ "medium" "key" asTotalTokens evTotalTokens);
    [vm_compute; reflexivity|..].
  - by right; left.
  - by repeat (left + right).
Defined.

Lemma build_rows_sorted_unique_witness :
  exists rows, BuildRows UTC demoEvents demoNow = Ok rows /\ length rows = 6%nat /\
  StronglySorted rowBefore rows.
Proof.
  eexists. split; [vm_compute; reflexivity|]. split; [reflexivity|].
  eapply (build_rows_sorted_unique UTC demoEvents demoNow). vm_compute. reflexivity.
Defined.

(** ** Totality *)

Lemma fold_result_total {E A B} (f : B -> A -> result E B) (l : list A) (acc : B) :
  (forall b a, a ∈ l -> exists b', f b a = Ok b') -> exists b, fold_result f acc l = Ok b.
Proof.
  revert acc. induction l as [|a l IH]; intros acc H; [by exists acc|].
  cbn [fold_result]. destruct (H acc a) as [b ->]; [left|]. cbn [result_bind].
  apply IH. intros c x Hx. apply H. by right.
Qed.

(** The aggregation returns: for events of sane times whose local midnights
    enclose them, no grain runs out of the turns its correction loops have, and
    [BuildRows] gives its rows. *)
Theorem build_rows_total (local : Location) (events : list UsageEvent) (now : Z) :
  Forall (fun e => sane_instant (evTimestamp e) /\ enclosed local (evTimestamp e)) events ->
  exists rows, BuildRows local events now = Ok rows.
Proof.
  intros F. unfold BuildRows, NormalizeStorageTime.
  destruct (fold_result_total (addEvent local now) events ∅) as [m ->].
  { intros m e He. rewrite Forall_forall in F. destruct (F e He) as [Se Ee].
    apply fold_result_total. intros m' g Hg.
    assert (exists b, BucketForTimestamp local g (evTimestamp e) = Ok b) as [b Eb].
    { unfold allGrains in Hg. rewrite !elem_of_cons, elem_of_nil in Hg.
      destruct Hg as [->|[->|[->|[->|[]]]]].
      - by apply short_bucket_total.
      - rewrite (Bucket_fixed local UsageActivityGrainMedium mediumWindowSeconds) by done.
        destruct (fixedBucketIndex_spec mediumWindowSeconds (evTimestamp e)) as (i & -> & _);
          [done|done|eauto].
      - rewrite (Bucket_fixed local UsageActivityGrainLong longWindowSeconds) by done.
        destruct (fixedBucketIndex_spec longWindowSeconds (evTimestamp e)) as (i & -> & _);
          [done|done|eauto].
      - by eexists. }
    unfold addEventToGrain, NormalizeStorageTime.
    destruct (negb _); [eauto|]. rewrite Eb. cbn [result_bind]. eauto. }
  cbn [result_bind]. eauto.
Qed.

Lemma build_rows_total_witness : exists rows, BuildRows NewYork2024 demoEvents demoNow = Ok rows.
Proof.
  apply build_rows_total.
  repeat constructor; vm_compute; congruence.
Defined.
