(* ===== verification/Uvarint.v ===== *)
(** Package encoding/binary's unsigned varints and the two readers of package
    latency (sketch.go, sample.go).

    A byte is a [Z] between 0 and 255 and an encoding a list of them.  A reader
    returns the bytes it has not consumed in place of the offset the code
    advances: [offset == len(encoded)] reads as [rest = []]. *)
From S2P Require Import Prelude.

Local Open Scope list_scope.
Local Open Scope Z_scope.

Definition byte_ok (b : Z) : Prop := 0 <= b < 256.

(** [binary.AppendUvarint(nil, x)]: ten bytes are enough for a uint64. *)
Fixpoint put_uvarint (fuel : nat) (x : Z) : list Z :=
  match fuel with
  | O => [x mod 256]
  | S f =>
      if 128 <=? x
      then Z.lor (x mod 256) 128 :: put_uvarint f (Z.shiftr x 7)
      else [x mod 256]
  end.

Definition AppendUvarint (buf : list Z) (x : Z) : list Z := buf ++ put_uvarint 9 x.

(** [binary.Uvarint]: a value with the bytes after it, [size == 0] or
    [size < 0]. *)
Inductive UvarintResult :=
| UvarintValue (value : Z) (rest : list Z)
| UvarintShort
| UvarintOverflow.

Fixpoint uvarint_loop (buf : list Z) (i x s : Z) : UvarintResult :=
  match buf with
  | [] => UvarintShort
  | b :: r =>
      if i =? 10 then UvarintOverflow
      else if b <? 128 then
        if (i =? 9) && (1 <? b) then UvarintOverflow
        else UvarintValue (Z.lor x (wrapu64 (Z.shiftl b s))) r
      else uvarint_loop r (i + 1) (Z.lor x (wrapu64 (Z.shiftl (Z.land b 127) s))) (s + 7)
  end.

Definition Uvarint (buf : list Z) : UvarintResult := uvarint_loop buf 0 0 0.

(** Errors of the two walkers. *)
Inductive WalkError :=
| DataEmpty
| UnsupportedVersion (version : Z)
| Truncated (field : string)
| Overflows (field : string)
| KeysNotIncreasing
| InvalidBinCount (count : Z)
| NotPositiveInt64 (field : string)
| SampleCountExceeds (count : Z)
| PriorityMismatch (event : Z)
| PointsNotOrdered
| TrailingBytes
| WalkFuel.

Definition readUvarint (encoded : list Z) (field : string) : result WalkError (Z * list Z) :=
  match encoded with
  | [] => Err (Truncated field)
  | _ =>
      match Uvarint encoded with
      | UvarintValue value rest => Ok (value, rest)
      | UvarintShort => Err (Truncated field)
      | UvarintOverflow => Err (Overflows field)
      end
  end.

Definition readPositiveInt64 (encoded : list Z) (field : string)
    : result WalkError (Z * list Z) :=
  let? (value, rest) := readUvarint encoded field in
  if (value =? 0) || (int64_max <? value) then Err (NotPositiveInt64 field)
  else Ok (value, rest).

(** [uint64(value<<1) ^ uint64(value>>63)] and its inverse. *)
Definition zigzagEncode (value : Z) : Z :=
  Z.lxor (wrapu64 (Z.shiftl value 1)) (wrapu64 (Z.shiftr value 63)).

Definition zigzagDecode (value : Z) : Z :=
  Z.lxor (wrap64 (Z.shiftr value 1)) (- wrap64 (Z.land value 1)).

(** ** Lemmas *)

Lemma lor_disjoint (a b s : Z) : 0 <= s -> 0 <= a < 2 ^ s ->
  Z.lor a (Z.shiftl b s) = a + b * 2 ^ s.
Proof.
  intros Hs Ha.
  assert (Z.land a (Z.shiftl b s) = 0) as D.
  { apply Z.bits_inj'. intros n Hn. rewrite Z.land_spec, Z.bits_0.
    destruct (Z.lt_ge_cases n s) as [L|L].
    - rewrite Z.shiftl_spec_low by done. apply andb_false_r.
    - rewrite (Z.testbit_eqb a) by done.
      rewrite (Z.div_small a) by (split; [lia|]; apply Z.lt_le_trans with (2 ^ s); [lia|];
        apply Z.pow_le_mono_r; lia). done. }
  rewrite <- Z.lxor_lor, <- Z.add_nocarry_lxor by done. by rewrite Z.shiftl_mul_pow2.
Qed.

Lemma cont_byte (x : Z) : 0 <= x ->
  Z.lor (x mod 256) 128 = x mod 128 + 128.
Proof.
  intros H.
  assert (x mod 256 = x mod 128 \/ x mod 256 = x mod 128 + 128) as E
    by (Z.to_euclidean_division_equations; lia).
  pose proof (Z.mod_pos_bound x 128 ltac:(lia)) as B.
  assert (forall a, 0 <= a < 128 -> Z.lor a 128 = a + 128) as L.
  { intros a Ha. change 128 with (Z.shiftl 1 7) at 1.
    rewrite lor_disjoint by (change (2 ^ 7) with 128; lia). lia. }
  destruct E as [->| ->]; [by apply L|].
  rewrite <- L by done. by rewrite <- Z.lor_assoc, Z.lor_diag.
Qed.

Lemma land_127 (x : Z) : Z.land x 127 = x mod 128.
Proof. change 127 with (Z.ones 7). by rewrite Z.land_ones by lia. Qed.

Lemma uvarint_loop_put (fuel : nat) (x0 x i s : Z) (r : list Z) :
  i = 9 - Z.of_nat fuel -> s = 7 * i -> 0 <= i -> 0 <= x0 < 2 ^ s -> 0 <= x < 2 ^ (64 - s) ->
  uvarint_loop (put_uvarint fuel x ++ r) i x0 s = UvarintValue (x0 + x * 2 ^ s) r.
Proof.
  revert x0 x i s. induction fuel as [|f IH]; intros x0 x i s Hi -> Hp Hx0 Hx.
  - replace i with 9 in * by lia. change (2 ^ (64 - 7 * 9)) with 2 in Hx.
    cbn [put_uvarint app uvarint_loop].
    rewrite (Z.mod_small x) by lia. rewrite (proj2 (Z.ltb_lt x 128)) by lia.
    rewrite (proj2 (Z.ltb_ge 1 x)) by lia. cbn [Z.eqb Pos.eqb andb].
    rewrite wrapu64_id, lor_disjoint; [done|lia|done|].
    rewrite Z.shiftl_mul_pow2 by lia. unfold64. lia.
  - assert (2 ^ 64 = 2 ^ (64 - 7 * i) * 2 ^ (7 * i)) as P64
      by (rewrite <- Z.pow_add_r by lia; f_equal; lia).
    pose proof (Z.pow_pos_nonneg 2 (7 * i)) as Pi.
    cbn [put_uvarint]. destruct (128 <=? x) eqn:E; bool_split.
    + cbn [app uvarint_loop]. rewrite cont_byte by lia.
      pose proof (Z.mod_pos_bound x 128 ltac:(lia)) as B.
      rewrite (proj2 (Z.eqb_neq i 10)), (proj2 (Z.ltb_ge _ 128)) by lia.
      rewrite land_127. replace ((x mod 128 + 128) mod 128) with (x mod 128)
        by (Z.to_euclidean_division_equations; lia).
      rewrite wrapu64_id.
      2:{ rewrite Z.shiftl_mul_pow2 by lia. unfold64. nia. }
      rewrite lor_disjoint by lia. rewrite IH.
      * f_equal. rewrite Z.shiftr_div_pow2 by lia.
        replace (7 * i + 7) with (7 + 7 * i) by lia. rewrite Z.pow_add_r by lia.
        change (2 ^ 7) with 128. pose proof (Z.div_mod x 128). nia.
      * lia.
      * lia.
      * lia.
      * replace (7 * i + 7) with (7 + 7 * i) by lia. rewrite Z.pow_add_r by lia.
        change (2 ^ 7) with 128. nia.
      * rewrite Z.shiftr_div_pow2 by lia. split; [apply Z.div_pos; lia|].
        apply Z.div_lt_upper_bound; [lia|]. rewrite <- Z.pow_add_r by lia.
        replace (7 + (64 - (7 * i + 7))) with (64 - 7 * i) by lia. lia.
    + cbn [app uvarint_loop]. rewrite (Z.mod_small x) by lia.
      rewrite (proj2 (Z.eqb_neq i 10)), (proj2 (Z.eqb_neq i 9)), (proj2 (Z.ltb_lt x 128)) by lia.
      cbn [andb]. rewrite wrapu64_id, lor_disjoint; [done|lia|lia|].
      rewrite Z.shiftl_mul_pow2 by lia. unfold64. nia.
Qed.

(** A varint is read back, whatever follows it. *)
Lemma Uvarint_put (x : Z) (r : list Z) : in_uint64 x ->
  Uvarint (put_uvarint 9 x ++ r) = UvarintValue x r.
Proof.
  unfold64. intros H. unfold Uvarint. rewrite uvarint_loop_put by (simpl; lia).
  f_equal. change (2 ^ 0) with 1. lia.
Qed.

Lemma put_uvarint_nonempty (fuel : nat) (x : Z) (r : list Z) :
  exists b l, put_uvarint fuel x ++ r = b :: l.
Proof. destruct fuel; simpl; [eauto|]. case_match; simpl; eauto. Qed.

Lemma readUvarint_put (x : Z) (r : list Z) (field : string) : in_uint64 x ->
  readUvarint (put_uvarint 9 x ++ r) field = Ok (x, r).
Proof.
  intros H. unfold readUvarint.
  destruct (put_uvarint_nonempty 9 x r) as (b & l & E).
  rewrite E, <- E, Uvarint_put by done. done.
Qed.

Lemma readPositiveInt64_put (x : Z) (r : list Z) (field : string) : 0 < x <= int64_max ->
  readPositiveInt64 (put_uvarint 9 x ++ r) field = Ok (x, r).
Proof.
  intros H. unfold readPositiveInt64. rewrite readUvarint_put by (unfold64; lia).
  cbn [result_bind]. rewrite (proj2 (Z.eqb_neq x 0)), (proj2 (Z.ltb_ge _ x)) by lia. done.
Qed.

Lemma lor_uint64 (a b : Z) : in_uint64 a -> in_uint64 b -> in_uint64 (Z.lor a b).
Proof.
  unfold64. intros Ha Hb.
  assert (forall z, 0 <= z <= 2 ^ 64 - 1 <-> Z.land z (Z.ones 64) = z) as L.
  { intros z. rewrite Z.land_ones by lia. split.
    - intros. apply Z.mod_small. lia.
    - intros <-. pose proof (Z.mod_pos_bound z (2 ^ 64)). lia. }
  apply L. apply L in Ha, Hb. rewrite Z.land_lor_distr_l. by rewrite Ha, Hb.
Qed.

Lemma uvarint_loop_range (buf : list Z) (i x s v : Z) (rest : list Z) : in_uint64 x ->
  uvarint_loop buf i x s = UvarintValue v rest ->
  in_uint64 v /\ (length rest < length buf)%nat.
Proof.
  revert i x s. induction buf as [|b r IH]; intros i x s Hx; [done|].
  cbn [uvarint_loop]. destruct (i =? 10); [done|].
  assert (forall z, in_uint64 (Z.lor x (wrapu64 z))) as R
    by (intros z; apply lor_uint64; [done|apply wrapu64_range]).
  destruct (b <? 128).
  - destruct (_ && _); [done|]. intros [= <- <-]. split; [apply R|simpl; lia].
  - intros H. apply IH in H as [? ?]; [|apply R]. split; [done|simpl; lia].
Qed.

(** What a reader returns fits and it consumes at least one byte. *)
Lemma readUvarint_Ok (enc : list Z) (field : string) (v : Z) (rest : list Z) :
  readUvarint enc field = Ok (v, rest) -> in_uint64 v /\ (length rest < length enc)%nat.
Proof.
  unfold readUvarint, Uvarint. destruct enc as [|b r]; [done|].
  destruct (uvarint_loop _ _ _ _) as [v' rest'| |] eqn:E; [|done|done].
  intros [= <- <-]. apply uvarint_loop_range in E; [done|]. by unfold64.
Qed.

Lemma lxor_ones64 (a : Z) : 0 <= a < 2 ^ 64 -> Z.lxor a (Z.ones 64) = 2 ^ 64 - 1 - a.
Proof.
  intros H.
  assert (Z.land a (Z.lxor a (Z.ones 64)) = 0) as D.
  { apply Z.bits_inj'. intros n Hn. rewrite Z.land_spec, Z.lxor_spec, Z.bits_0.
    destruct (Z.lt_ge_cases n 64) as [L|L].
    - rewrite Z.ones_spec_low by lia. by destruct (Z.testbit a n).
    - rewrite Z.testbit_eqb by done.
      rewrite (Z.div_small a) by (split; [lia|]; apply Z.lt_le_trans with (2 ^ 64); [lia|];
        apply Z.pow_le_mono_r; lia). done. }
  pose proof (Z.add_nocarry_lxor _ _ D) as A.
  rewrite <- Z.lxor_assoc, Z.lxor_nilpotent, Z.lxor_0_l in A.
  change (Z.ones 64) with (2 ^ 64 - 1) in *. lia.
Qed.

Lemma zigzagEncode_spec (v : Z) : in_int64 v ->
  zigzagEncode v = if v <? 0 then - 2 * v - 1 else 2 * v.
Proof.
  unfold64. intros H. unfold zigzagEncode.
  rewrite Z.shiftl_mul_pow2, Z.shiftr_div_pow2 by lia. change (2 ^ 1) with 2.
  destruct (v <? 0) eqn:E; bool_split.
  - replace (v / 2 ^ 63) with (-1) by (apply (Z.div_unique _ _ _ (v + 2 ^ 63)); lia).
    change (wrapu64 (-1)) with (Z.ones 64). unfold wrapu64.
    rewrite <- (Z.mod_add (v * 2) 1) by lia. rewrite Z.mul_1_l, Z.mod_small by lia.
    rewrite lxor_ones64 by lia. lia.
  - rewrite Z.div_small by lia. change (wrapu64 0) with 0. rewrite Z.lxor_0_r.
    rewrite wrapu64_id by (unfold64; lia). lia.
Qed.

Lemma zigzag_range (v : Z) : in_int64 v -> in_uint64 (zigzagEncode v).
Proof. intros H. rewrite zigzagEncode_spec by done. unfold64. case_match; bool_split; lia. Qed.

Lemma zigzagDecode_eq (u : Z) :
  zigzagDecode u = Z.lxor (wrap64 (u / 2)) (- wrap64 (u mod 2)).
Proof.
  unfold zigzagDecode. rewrite Z.shiftr_div_pow2 by lia.
  change (Z.land u 1) with (Z.land u (Z.ones 1)). by rewrite Z.land_ones by lia.
Qed.

(** Zigzag numbers read back. *)
Lemma zigzag_round_trip (v : Z) : in_int64 v -> zigzagDecode (zigzagEncode v) = v.
Proof.
  intros H. rewrite zigzagEncode_spec by done. unfold64. rewrite zigzagDecode_eq.
  destruct (v <? 0) eqn:E; bool_split.
  - replace ((-2 * v - 1) / 2) with (- v - 1) by (apply (Z.div_unique_pos _ _ _ 1); lia).
    replace ((-2 * v - 1) mod 2) with 1 by (apply (Z.mod_unique_pos _ _ (- v - 1)); lia).
    change (- wrap64 1) with (-1). rewrite wrap64_id by (unfold64; lia).
    rewrite Z.lxor_m1_r. unfold Z.lnot. lia.
  - replace (2 * v / 2) with v by (apply (Z.div_unique_pos _ _ _ 0); lia).
    replace ((2 * v) mod 2) with 0 by (apply (Z.mod_unique_pos _ _ v); lia).
    change (- wrap64 0) with 0. rewrite wrap64_id by (unfold64; lia). apply Z.lxor_0_r.
Qed.

Lemma lxor_m1_range (a : Z) : in_int64 a -> in_int64 (Z.lxor a (-1)).
Proof. unfold64. rewrite Z.lxor_m1_r. unfold Z.lnot. lia. Qed.

Lemma zigzagDecode_range (u : Z) : in_uint64 u -> in_int64 (zigzagDecode u).
Proof.
  intros H. rewrite zigzagDecode_eq.
  assert (u mod 2 = 0 \/ u mod 2 = 1) as [-> | ->] by (pose proof (Z.mod_pos_bound u 2); lia).
  - change (- wrap64 0) with 0. rewrite Z.lxor_0_r. apply wrap64_range.
  - change (- wrap64 1) with (-1). apply lxor_m1_range, wrap64_range.
Qed.
