(* ===== verification/Sketch.v ===== *)
(** Package latency: the logarithmic sketch (sketch.go) and the query merger
    (query_sketch.go).

    The bin of a value, [int64(math.Ceil(math.Log(float64(value)) /
    sketchLogGamma))], and the value that represents a bin are floating-point
    computations of package math: they are the parameters [sketchKey] and
    [sketchRepresentativeValue].  The code iterates a Go map in [Merge]; the
    model takes the order of this iteration as an argument, a list of the bins of
    the other sketch.  The visits a failed walk has made are not kept: both
    callers of [walkSketch] drop them. *)
From S2P Require Import Prelude Uvarint.
From stdpp Require Import sorting.

Local Open Scope string_scope.
Local Open Scope list_scope.
Local Open Scope Z_scope.

Definition FormatVersion : Z := 1.

Record Sketch := mkSketch { bins : gmap Z Z; skCount : Z }.

Inductive SketchError :=
| ValueNotPositive (value : Z)
| CountOverflow
| BinOverflow (key : Z)
| ZeroBin (key : Z)
| BadEncoding (e : WalkError)
| MergerClosed.

Definition NewSketch : Sketch := mkSketch ∅ 0.

(** Reading a Go map: zero for an absent key. *)
Definition bin (m : gmap Z Z) (key : Z) : Z := default 0 (m !! key).

Definition sortedKeys (s : Sketch) : list Z := merge_sort Z.le (map fst (map_to_list (bins s))).

Section Sketch_ops.
Context (sketchKey sketchRepresentativeValue : Z -> Z).

Definition Add (s : Sketch) (value : Z) : result SketchError Sketch :=
  if value <=? 0 then Err (ValueNotPositive value)
  else
    let key := sketchKey value in
    if (bin (bins s) key =? uint64_max) || (skCount s =? uint64_max)
    then Err CountOverflow
    else Ok (mkSketch (<[key := wrapu64 (bin (bins s) key + 1)]> (bins s))
                      (wrapu64 (skCount s + 1))).

(** The rank loop of [P95]. *)
Fixpoint rank_loop (m : gmap Z Z) (keys : list Z) (cumulative rank : Z) : option Z :=
  match keys with
  | [] => None
  | key :: r =>
      let cumulative' := wrapu64 (cumulative + bin m key) in
      if rank <=? cumulative' then Some (sketchRepresentativeValue key)
      else rank_loop m r cumulative' rank
  end.

(** [None] is the panic of indexing an empty slice of keys. *)
Definition P95 (s : Sketch) : option Z :=
  if skCount s =? 0 then Some 0
  else
    let rank := wrapu64 (wrapu64 (skCount s * 95) + 99) / 100 in
    let keys := sortedKeys s in
    match rank_loop (bins s) keys 0 rank with
    | Some v => Some v
    | None => option_map sketchRepresentativeValue (last keys)
    end.
End Sketch_ops.

(** The loop of [Merge] over the other sketch's bins, in the order given. *)
Fixpoint merge_bins (m : gmap Z Z) (other : list (Z * Z)) : result SketchError (gmap Z Z) :=
  match other with
  | [] => Ok m
  | (key, count) :: r =>
      if uint64_max - count <? bin m key then Err (BinOverflow key)
      else merge_bins (<[key := wrapu64 (bin m key + count)]> m) r
  end.

Definition Merge (order : list (Z * Z)) (s other : Sketch) : result SketchError Sketch :=
  if uint64_max - skCount other <? skCount s then Err CountOverflow
  else
    let? m := merge_bins (bins s) order in
    Ok (mkSketch m (wrapu64 (skCount s + skCount other))).

Definition Clone (s : Sketch) : Sketch :=
  mkSketch (foldr (fun kv m => <[kv.1 := kv.2]> m) ∅ (map_to_list (bins s))) (skCount s).

Definition Count (s : Sketch) : Z := skCount s.

Fixpoint encode_bins (m : gmap Z Z) (keys : list Z) : result SketchError (list Z) :=
  match keys with
  | [] => Ok []
  | key :: r =>
      let count := bin m key in
      if count =? 0 then Err (ZeroBin key)
      else
        let? tail := encode_bins m r in
        Ok (put_uvarint 9 (zigzagEncode key) ++ put_uvarint 9 count ++ tail)
  end.

Definition MarshalBinary (s : Sketch) : result SketchError (list Z) :=
  let keys := sortedKeys s in
  let? body := encode_bins (bins s) keys in
  Ok (AppendUvarint [FormatVersion] (Z.of_nat (length keys)) ++ body).

(** The loop of [walkSketch]; each turn consumes two bytes at least, so the
    length of the encoding is enough fuel. *)
Fixpoint walk_bins (fuel : nat) (n : Z) (prev : option Z) (total : Z) (rest : list Z)
    : result WalkError (list (Z * Z) * Z * list Z) :=
  if n =? 0 then Ok ([], total, rest)
  else
    match fuel with
    | O => Err WalkFuel
    | S f =>
        let? (encodedKey, rest) := readUvarint rest "sketch bin key" in
        let key := zigzagDecode encodedKey in
        if match prev with Some p => key <=? p | None => false end
        then Err KeysNotIncreasing
        else
          let? (count, rest) := readUvarint rest "sketch bin count" in
          if (count =? 0) || (uint64_max - count <? total)
          then Err (InvalidBinCount count)
          else
            let? (visited, total, rest) :=
              walk_bins f (n - 1) (Some key) (wrapu64 (total + count)) rest in
            Ok ((key, count) :: visited, total, rest)
    end.

(** The bins visited, in order, and their total. *)
Definition walkSketch (encoded : list Z) : result WalkError (list (Z * Z) * Z) :=
  match encoded with
  | [] => Err DataEmpty
  | version :: rest =>
      if negb (version =? FormatVersion) then Err (UnsupportedVersion version)
      else
        let? (binCount, rest) := readUvarint rest "sketch bin count" in
        let? (visited, total, rest) := walk_bins (length rest) binCount None 0 rest in
        match rest with
        | [] => Ok (visited, total)
        | _ => Err TrailingBytes
        end
  end.

Definition UnmarshalSketch (encoded : list Z) : result WalkError Sketch :=
  let? (visited, total) := walkSketch encoded in
  Ok (mkSketch (foldl (fun m kv => <[kv.1 := kv.2]> m) ∅ visited) total).

(** ** The query merger: [None] is a closed merger (nil sketch). *)

Definition QuerySketchMerger := option Sketch.

Definition NewQuerySketchMerger : QuerySketchMerger := Some NewSketch.

(** The visitor of [MergeBinary]: the first overflowing key stops the updates. *)
Definition merge_visit (st : gmap Z Z * option Z) (kv : Z * Z) : gmap Z Z * option Z :=
  let '(m, overflow) := st in
  match overflow with
  | Some _ => st
  | None =>
      if uint64_max - kv.2 <? bin m kv.1 then (m, Some kv.1)
      else (<[kv.1 := wrapu64 (bin m kv.1 + kv.2)]> m, None)
  end.

Definition MergeBinary (merger : QuerySketchMerger) (encoded : list Z)
    : QuerySketchMerger * result SketchError Z :=
  match merger with
  | None => (None, Err MergerClosed)
  | Some s =>
      match walkSketch encoded with
      | Err e => (None, Err (BadEncoding e))
      | Ok (visited, rowCount) =>
          match foldl merge_visit (bins s, None) visited with
          | (_, Some key) => (None, Err (BinOverflow key))
          | (m, None) =>
              if uint64_max - rowCount <? skCount s then (None, Err CountOverflow)
              else (Some (mkSketch m (wrapu64 (skCount s + rowCount))), Ok rowCount)
          end
      end
  end.

Definition TakeSketch (merger : QuerySketchMerger) : QuerySketchMerger * option Sketch :=
  (None, merger).
