(* ===== verification/SketchFacts.v ===== *)
(** Properties of [Sketch]: the counter is the sum of the bins under every
    operation, merging is the pointwise sum in any order of iteration, the
    encoding reads back and the strict reader only yields consistent sketches,
    the query merger agrees with decoding then merging, P95 is the nearest rank. *)
From stdpp Require Import sorting.
From S2P Require Import Prelude Uvarint Sketch.

Local Open Scope string_scope.
Local Open Scope list_scope.
Local Open Scope Z_scope.

Definition bins_total (m : gmap Z Z) : Z := gmap_sum (fun _ c => c) m.

(** The invariant of a sketch. *)
Record sketch_ok (s : Sketch) : Prop := {
  ok_pos : forall k c, bins s !! k = Some c -> 0 < c;
  ok_keys : forall k c, bins s !! k = Some c -> in_int64 k;
  ok_total : bins_total (bins s) = skCount s;
  ok_count : skCount s <= uint64_max;
}.

Definition bins_pos (m : gmap Z Z) : Prop := forall k c, m !! k = Some c -> 0 < c.

Lemma bins_total_nonneg (m : gmap Z Z) : bins_pos m -> 0 <= bins_total m.
Proof.
  intros H. unfold bins_total, gmap_sum. apply sum_Z_nonneg, Forall_forall.
  intros z ([k c] & -> & Hk)%list_elem_of_fmap_1. apply elem_of_map_to_list in Hk.
  specialize (H _ _ Hk). simpl. lia.
Qed.

Lemma bins_pos_delete (m : gmap Z Z) (k : Z) : bins_pos m -> bins_pos (delete k m).
Proof. intros H j c [_ Hj]%lookup_delete_Some. by apply (H j). Qed.

Lemma bin_bounds (m : gmap Z Z) (k : Z) : bins_pos m -> 0 <= bin m k <= bins_total m.
Proof.
  intros H. unfold bins_total. rewrite (gmap_sum_lookup _ m k).
  pose proof (bins_total_nonneg _ (bins_pos_delete m k H)) as N. unfold bins_total in N.
  unfold bin. destruct (m !! k) as [c|] eqn:E; simpl; [specialize (H _ _ E)|]; lia.
Qed.

Lemma bins_total_insert (m : gmap Z Z) (k v : Z) :
  bins_total (<[k := v]> m) = bins_total m + v - bin m k.
Proof. unfold bins_total, bin. rewrite gmap_sum_insert. by destruct (m !! k). Qed.

Lemma sketch_count_nonneg (s : Sketch) : sketch_ok s -> 0 <= skCount s.
Proof. intros [P _ T _]. rewrite <- T. by apply bins_total_nonneg. Qed.

Lemma NewSketch_ok : sketch_ok NewSketch.
Proof. split; simpl; [done|done|apply gmap_sum_empty|by unfold64]. Qed.

(** ** Merge *)

Definition merged (s o : Sketch) : Sketch :=
  mkSketch (union_with (fun a b => Some (a + b)) (bins s) (bins o)) (skCount s + skCount o).

Definition bin_sum (l : list (Z * Z)) : Z := sum_Z (map snd l).

Lemma merge_bins_spec (l : list (Z * Z)) (m : gmap Z Z) :
  NoDup (map fst l) -> (forall k c, (k, c) ∈ l -> 0 < c) -> bins_pos m ->
  bins_total m + bin_sum l <= uint64_max ->
  merge_bins m l = Ok (union_with (fun a b => Some (a + b)) m (list_to_map l)).
Proof.
  revert m. induction l as [|[k c] l IH]; intros m ND P PM B.
  - simpl. f_equal. by rewrite right_id_L by apply _.
  - cbn [merge_bins map fst] in *. apply NoDup_cons in ND as [NI ND].
    unfold bin_sum in *. cbn [map snd] in B. rewrite sum_Z_cons in B.
    pose proof (P k c ltac:(left)) as Pc.
    pose proof (bin_bounds m k PM) as Bk.
    assert (0 <= sum_Z (map snd l)) as Sl.
    { apply sum_Z_nonneg, Forall_forall. intros z ([k' c'] & -> & H)%list_elem_of_fmap_1.
      specialize (P k' c' ltac:(by right)). simpl. lia. }
    rewrite (proj2 (Z.ltb_ge _ _)) by lia.
    rewrite wrapu64_id by (unfold64; lia).
    rewrite IH.
    + f_equal. apply map_eq. intros j. rewrite !lookup_union_with. cbn [list_to_map foldr].
      destruct (decide (j = k)) as [->|N].
      * rewrite !lookup_insert_eq. rewrite (not_elem_of_list_to_map_1 l k) by done.
        unfold bin. destruct (m !! k); done.
      * by rewrite !lookup_insert_ne by done.
    + done.
    + intros k' c' H. apply (P k' c'). by right.
    + intros j d. destruct (decide (j = k)) as [->|N].
      * rewrite lookup_insert_eq. intros [= <-]. lia.
      * rewrite lookup_insert_ne by done. apply PM.
    + rewrite bins_total_insert. lia.
Qed.

Lemma bin_sum_perm (l : list (Z * Z)) (m : gmap Z Z) :
  l ≡ₚ map_to_list m -> bin_sum l = bins_total m.
Proof. intros H. unfold bin_sum, bins_total, gmap_sum. by rewrite H. Qed.

Lemma order_list_to_map (l : list (Z * Z)) (m : gmap Z Z) :
  l ≡ₚ map_to_list m -> list_to_map l = m /\ NoDup (map fst l).
Proof.
  intros H. assert (NoDup (map fst l)) as ND.
  { rewrite H. apply NoDup_fst_map_to_list. }
  split; [|done]. rewrite <- (list_to_map_to_list m). by apply list_to_map_proper.
Qed.

Lemma merged_bins_pos (s o : Sketch) : sketch_ok s -> sketch_ok o -> bins_pos (bins (merged s o)).
Proof.
  intros [Ps _ _ _] [Po _ _ _] k c. simpl. rewrite lookup_union_with.
  destruct (bins s !! k) as [a|] eqn:Ea, (bins o !! k) as [b|] eqn:Eb; simpl;
    intros [= <-]; try (specialize (Ps _ _ Ea)); try (specialize (Po _ _ Eb)); lia.
Qed.

Lemma bins_total_union (m1 m2 : gmap Z Z) :
  bins_total (union_with (fun a b => Some (a + b)) m1 m2) = bins_total m1 + bins_total m2.
Proof.
  revert m1. induction m2 as [|k c m2 E IH] using map_ind; intros m1.
  - rewrite right_id_L by apply _. unfold bins_total at 3. rewrite gmap_sum_empty. lia.
  - assert (union_with (fun a b => Some (a + b)) m1 (<[k := c]> m2) =
            union_with (fun a b => Some (a + b)) (<[k := bin m1 k + c]> m1) m2) as ->.
    { apply map_eq. intros j. rewrite !lookup_union_with.
      destruct (decide (j = k)) as [->|N].
      - rewrite !lookup_insert_eq, E. unfold bin. by destruct (m1 !! k).
      - by rewrite !lookup_insert_ne by done. }
    rewrite IH, !bins_total_insert. unfold bin at 3. rewrite E. simpl. lia.
Qed.

Lemma merged_ok (s o : Sketch) : sketch_ok s -> sketch_ok o ->
  skCount s + skCount o <= uint64_max -> sketch_ok (merged s o).
Proof.
  intros Hs Ho B. split.
  - by apply merged_bins_pos.
  - intros k c. simpl. rewrite lookup_union_with.
    destruct (bins s !! k) as [a|] eqn:Ea, (bins o !! k) as [b|] eqn:Eb; simpl; try done;
      intros _; [by eapply (ok_keys s)|by eapply (ok_keys s)|by eapply (ok_keys o)].
  - simpl. rewrite bins_total_union. by rewrite (ok_total _ Hs), (ok_total _ Ho).
  - done.
Qed.

Lemma Merge_eq (order : list (Z * Z)) (s o : Sketch) :
  sketch_ok s -> sketch_ok o -> order ≡ₚ map_to_list (bins o) ->
  Merge order s o =
  if skCount s + skCount o <=? uint64_max then Ok (merged s o) else Err CountOverflow.
Proof.
  intros Hs Ho P. unfold Merge.
  pose proof (sketch_count_nonneg _ Hs). pose proof (sketch_count_nonneg _ Ho).
  destruct (skCount s + skCount o <=? uint64_max) eqn:E; bool_split.
  - rewrite (proj2 (Z.ltb_ge _ _)) by lia.
    destruct (order_list_to_map _ _ P) as [L ND].
    rewrite merge_bins_spec.
    + cbn [result_bind]. rewrite L, wrapu64_id by (unfold64; lia). done.
    + done.
    + intros k c H1. rewrite P in H1. apply elem_of_map_to_list in H1. by apply (ok_pos _ Ho k).
    + exact (ok_pos _ Hs).
    + rewrite (bin_sum_perm _ _ P), (ok_total _ Hs), (ok_total _ Ho). lia.
  - by rewrite (proj2 (Z.ltb_lt _ _)) by lia.
Qed.

Lemma merged_comm (a b : Sketch) : merged a b = merged b a.
Proof.
  unfold merged. f_equal; [|lia]. apply map_eq. intros k. rewrite !lookup_union_with.
  destruct (bins a !! k), (bins b !! k); simpl; try done. f_equal. lia.
Qed.

Lemma merged_assoc (a b c : Sketch) : merged (merged a b) c = merged a (merged b c).
Proof.
  unfold merged. simpl. f_equal; [|lia]. apply map_eq. intros k. rewrite !lookup_union_with.
  destruct (bins a !! k), (bins b !! k), (bins c !! k); simpl; try done. f_equal. lia.
Qed.

(** Merging sketches that satisfy the invariant adds the bins pointwise and
    keeps the invariant, whatever the order in which the map is iterated; it
    fails exactly when the total count does not fit in a uint64, and never on a
    single bin. *)
Theorem merge_pointwise (order : list (Z * Z)) (s o : Sketch) :
  sketch_ok s -> sketch_ok o -> order ≡ₚ map_to_list (bins o) ->
  match Merge order s o with
  | Ok r => skCount s + skCount o <= uint64_max /\ sketch_ok r /\
            skCount r = skCount s + skCount o /\
            forall k, bin (bins r) k = bin (bins s) k + bin (bins o) k
  | Err e => e = CountOverflow /\ uint64_max < skCount s + skCount o
  end.
Proof.
  intros Hs Ho P. rewrite Merge_eq by done. destruct (_ <=? uint64_max) eqn:E; bool_split; [|split; [done|lia]].
  split_and!; [done|by apply merged_ok|done|].
  intros k. unfold bin. simpl. rewrite lookup_union_with.
  destruct (bins s !! k), (bins o !! k); simpl; lia.
Qed.

Definition demoSketch (l : list (Z * Z)) : Sketch :=
  mkSketch (list_to_map l) (bin_sum l).

Lemma demoSketch_ok (l : list (Z * Z)) :
  NoDup (map fst l) -> Forall (fun kc => 0 < kc.2 /\ in_int64 kc.1) l ->
  bin_sum l <= uint64_max -> sketch_ok (demoSketch l).
Proof.
  intros ND F B. rewrite Forall_forall in F. split; simpl.
  - intros k c H%elem_of_list_to_map_2. by apply (F _ H).
  - intros k c H%elem_of_list_to_map_2. by apply (F _ H).
  - symmetry. apply bin_sum_perm. by rewrite map_to_list_to_map.
  - done.
Qed.

Lemma merge_pointwise_witness :
  match Merge [(3, 1); (-1, 2)] (demoSketch [(3, 5)]) (demoSketch [(-1, 2); (3, 1)]) with
  | Ok r => skCount r = 8 /\ bin (bins r) 3 = 6
  | Err _ => False
  end.
Proof.
  pose proof (merge_pointwise [(3, 1); (-1, 2)] (demoSketch [(3, 5)])
    (demoSketch [(-1, 2); (3, 1)])) as H.
  destruct (Merge _ _ _) as [r|e].
  - destruct H as (_ & _ & C & E).
    + apply demoSketch_ok; repeat constructor; try set_solver; done.
    + apply demoSketch_ok; repeat constructor; try set_solver; done.
    + vm_compute (map_to_list _). apply Permutation_swap || reflexivity.
    + split; [exact C|]. rewrite E. reflexivity.
  - destruct H as [_ H].
    + apply demoSketch_ok; repeat constructor; try set_solver; done.
    + apply demoSketch_ok; repeat constructor; try set_solver; done.
    + vm_compute (map_to_list _). apply Permutation_swap || reflexivity.
    + vm_compute in H. discriminate.
Defined.

(** merging is commutative and associative on sketches that satisfy the
    invariant, results and failures alike: the rows of a page may be merged in
    any order and grouping. *)
Theorem merge_comm_assoc (a b c : Sketch) (oa ob oc obc : list (Z * Z)) :
  sketch_ok a -> sketch_ok b -> sketch_ok c ->
  oa ≡ₚ map_to_list (bins a) -> ob ≡ₚ map_to_list (bins b) -> oc ≡ₚ map_to_list (bins c) ->
  obc ≡ₚ map_to_list (bins (merged b c)) ->
  Merge ob a b = Merge oa b a /\
  result_bind (Merge ob a b) (fun ab => Merge oc ab c) =
  result_bind (Merge oc b c) (fun bc => Merge obc a bc).
Proof.
  intros Ha Hb Hc Pa Pb Pc Pbc.
  pose proof (sketch_count_nonneg _ Ha). pose proof (sketch_count_nonneg _ Hb).
  pose proof (sketch_count_nonneg _ Hc).
  split.
  - rewrite !Merge_eq by done. rewrite (Z.add_comm (skCount b)). by rewrite merged_comm.
  - rewrite !Merge_eq by done.
    destruct (skCount a + skCount b <=? uint64_max) eqn:E1, (skCount b + skCount c <=? uint64_max) eqn:E2;
      bool_split; cbn [result_bind].
    + rewrite !Merge_eq by (done || apply merged_ok; done || lia).
      cbn [merged skCount]. rewrite merged_assoc.
      by replace (skCount a + (skCount b + skCount c)) with (skCount a + skCount b + skCount c) by lia.
    + rewrite Merge_eq by (done || apply merged_ok; done || lia). cbn [merged skCount].
      by rewrite (proj2 (Z.leb_gt _ _)) by lia.
    + rewrite Merge_eq by (done || apply merged_ok; done || lia). cbn [merged skCount].
      by rewrite (proj2 (Z.leb_gt _ _)) by lia.
    + done.
Qed.

Lemma merge_comm_assoc_witness :
  Merge [(4, 2)] (demoSketch [(3, 1)]) (demoSketch [(4, 2)]) =
  Merge [(3, 1)] (demoSketch [(4, 2)]) (demoSketch [(3, 1)]).
Proof.
  eapply (merge_comm_assoc (demoSketch [(3, 1)]) (demoSketch [(4, 2)]) NewSketch
    [(3, 1)] [(4, 2)] [] (map_to_list _)).
  - apply demoSketch_ok; repeat constructor; try set_solver; done.
  - apply demoSketch_ok; repeat constructor; try set_solver; done.
  - apply NewSketch_ok.
  - reflexivity.
  - reflexivity.
  - reflexivity.
  - reflexivity.
Defined.

(** ** Adding a value *)

Lemma add_ok (key : Z -> Z) (s s' : Sketch) (v : Z) :
  (forall z, in_int64 (key z)) -> sketch_ok s -> Add key s v = Ok s' ->
  sketch_ok s' /\ skCount s' = skCount s + 1.
Proof.
  intros HK Hs. pose proof Hs as [P K T C]. unfold Add.
  destruct (v <=? 0); [done|]. destruct ((_ =? _) || _) eqn:E; [done|]. bool_split.
  pose proof (bin_bounds (bins s) (key v) P) as B. rewrite T in B.
  intros [= <-]. rewrite !wrapu64_id by (unfold64; lia). split; [|done]. split; simpl.
  - intros k c. destruct (decide (k = key v)) as [->|N].
    + rewrite lookup_insert_eq. intros [= <-]. lia.
    + rewrite lookup_insert_ne by done. apply P.
  - intros k c. destruct (decide (k = key v)) as [->|N]; [intros; apply HK|].
    rewrite lookup_insert_ne by done. apply K.
  - rewrite bins_total_insert. lia.
  - unfold64. lia.
Qed.

(** ** Sorted keys *)

Lemma sortedKeys_perm (s : Sketch) : sortedKeys s ≡ₚ map fst (map_to_list (bins s)).
Proof. apply merge_sort_Permutation. Qed.

Lemma elem_of_sortedKeys (s : Sketch) (k : Z) : k ∈ sortedKeys s <-> is_Some (bins s !! k).
Proof.
  rewrite sortedKeys_perm. split.
  - intros ([k' c] & -> & H)%list_elem_of_fmap_1. apply elem_of_map_to_list in H. by exists c.
  - intros [c H]. apply elem_of_map_to_list in H.
    change k with ((k, c).1). by apply list_elem_of_fmap_2.
Qed.

Lemma sortedKeys_sorted (s : Sketch) : StronglySorted Z.lt (sortedKeys s).
Proof.
  assert (StronglySorted Z.le (sortedKeys s)) as SS by apply (StronglySorted_merge_sort _).
  assert (NoDup (sortedKeys s)) as ND.
  { rewrite sortedKeys_perm. apply NoDup_fst_map_to_list. }
  induction SS as [|k l SS IH F]; [constructor|]. apply NoDup_cons in ND as [NI ND].
  constructor; [by apply IH|]. rewrite Forall_forall in *. intros x Hx.
  specialize (F x Hx). assert (x <> k) by congruence. lia.
Qed.

(** A sum over the bins, along the sorted keys. *)
Lemma gmap_sum_keys (f : Z -> Z -> Z) (s : Sketch) :
  gmap_sum f (bins s) = sum_Z (map (fun k => f k (bin (bins s) k)) (sortedKeys s)).
Proof.
  rewrite sortedKeys_perm, map_map. unfold gmap_sum.
  f_equal. apply map_ext_in. intros [k c] H. apply list_elem_of_In, elem_of_map_to_list in H.
  simpl. unfold bin. by rewrite H.
Qed.

(** The bins along the sorted keys rebuild the map. *)
Definition entries (s : Sketch) : list (Z * Z) :=
  map (fun k => (k, bin (bins s) k)) (sortedKeys s).

Lemma entries_perm (s : Sketch) : entries s ≡ₚ map_to_list (bins s).
Proof.
  unfold entries. rewrite sortedKeys_perm, map_map.
  rewrite (map_ext_in _ id); [by rewrite map_id|].
  intros [k c] H. apply list_elem_of_In, elem_of_map_to_list in H. simpl. unfold bin. by rewrite H.
Qed.

Lemma foldl_insert (l : list (Z * Z)) (m : gmap Z Z) : NoDup (map fst l) ->
  foldl (fun m kv => <[kv.1 := kv.2]> m) m l = list_to_map l ∪ m.
Proof.
  revert m. induction l as [|[k c] l IH]; intros m ND;
    [change (m = ∅ ∪ m); by rewrite (left_id_L ∅ (∪))|].
  cbn [foldl map fst] in *. apply NoDup_cons in ND as [NI ND]. rewrite IH by done.
  cbn [list_to_map foldr]. rewrite <- insert_union_l, insert_union_r; [done|].
  by apply not_elem_of_list_to_map_1.
Qed.

(** ** Encoding *)

Lemma walk_encode (m : gmap Z Z) (keys : list Z) (body : list Z) (fuel : nat)
    (prev : option Z) (total : Z) :
  encode_bins m keys = Ok body -> StronglySorted Z.lt keys ->
  (forall k, k ∈ keys -> in_int64 k /\ 0 < bin m k) ->
  match prev with Some p => forall k, k ∈ keys -> p < k | None => True end ->
  0 <= total -> total + sum_Z (map (bin m) keys) <= uint64_max -> (length keys <= fuel)%nat ->
  walk_bins fuel (Z.of_nat (length keys)) prev total body =
  Ok (map (fun k => (k, bin m k)) keys, total + sum_Z (map (bin m) keys), []).
Proof.
  revert body fuel prev total. induction keys as [|k keys IH];
    intros body fuel prev total E SS HK HP Ht HB HF.
  - injection E as <-. destruct fuel; cbn [walk_bins length map]; simpl; repeat f_equal; lia.
  - cbn [encode_bins] in E. destruct (HK k ltac:(left)) as [Kk Pk].
    rewrite (proj2 (Z.eqb_neq _ 0)) in E by lia.
    destruct (encode_bins m keys) as [tail|] eqn:Et; [|done]. apply Ok_inj in E as <-.
    cbn [map] in HB |- *. rewrite sum_Z_cons in *.
    apply StronglySorted_inv in SS as [SS F]. rewrite Forall_forall in F.
    assert (0 <= sum_Z (map (bin m) keys)) as Sn.
    { apply sum_Z_nonneg, Forall_forall. intros z (j & -> & Hj)%list_elem_of_fmap_1.
      destruct (HK j ltac:(by right)). lia. }
    destruct fuel as [|fuel]; [simpl in HF; lia|].
    cbn [walk_bins length]. rewrite (proj2 (Z.eqb_neq _ 0)) by lia.
    rewrite readUvarint_put by (by apply zigzag_range). cbn [result_bind].
    rewrite zigzag_round_trip by done.
    assert (match prev with Some p => k <=? p | None => false end = false) as ->.
    { destruct prev as [p|]; [|done]. specialize (HP k ltac:(left)). lia. }
    rewrite readUvarint_put by (unfold64; lia). cbn [result_bind].
    rewrite (proj2 (Z.eqb_neq _ 0)), (proj2 (Z.ltb_ge _ _)) by lia. cbn [orb].
    rewrite wrapu64_id by (unfold64; lia).
    replace (Z.of_nat (S (length keys)) - 1) with (Z.of_nat (length keys)) by lia.
    rewrite (IH tail); [|done|done| | |lia|lia|simpl in HF; lia].
    + cbn [result_bind]. do 3 f_equal. lia.
    + intros j Hj. apply HK. by right.
    + intros j Hj. by apply F.
Qed.

Lemma encode_bins_Ok (m : gmap Z Z) (keys : list Z) :
  (forall k, k ∈ keys -> 0 < bin m k) ->
  exists body, encode_bins m keys = Ok body /\ (2 * length keys <= length body)%nat.
Proof.
  induction keys as [|k keys IH]; intros H; [by exists []|].
  destruct IH as (b & Eb & L); [intros j Hj; apply H; by right|].
  cbn [encode_bins]. specialize (H k ltac:(left)).
  rewrite (proj2 (Z.eqb_neq _ 0)) by lia. rewrite Eb. eexists. split; [done|].
  destruct (put_uvarint_nonempty 9 (zigzagEncode k) []) as (x & l & E1).
  destruct (put_uvarint_nonempty 9 (bin m k) []) as (y & l' & E2).
  rewrite app_nil_r in E1, E2. rewrite E1, E2, !length_app. simpl. lia.
Qed.

Lemma sketch_keys_ok (s : Sketch) (k : Z) : sketch_ok s -> k ∈ sortedKeys s ->
  in_int64 k /\ 0 < bin (bins s) k.
Proof.
  intros [P K _ _] [c H]%elem_of_sortedKeys. split; [by eapply K|].
  unfold bin. rewrite H. simpl. by eapply P.
Qed.

Lemma sum_sorted_bins (s : Sketch) : sum_Z (map (bin (bins s)) (sortedKeys s)) = bins_total (bins s).
Proof. unfold bins_total. by rewrite gmap_sum_keys. Qed.

(** The number of bins fits, since each holds one sample at least. *)
Lemma bins_length (s : Sketch) : sketch_ok s ->
  Z.of_nat (length (sortedKeys s)) <= uint64_max.
Proof.
  intros Hs. pose proof (sum_sorted_bins s) as T. rewrite (ok_total _ Hs) in T.
  pose proof (ok_count _ Hs).
  enough (Z.of_nat (length (sortedKeys s)) <= sum_Z (map (bin (bins s)) (sortedKeys s))) by lia.
  assert (forall k, k ∈ sortedKeys s -> 0 < bin (bins s) k) as Pk
    by (intros k Hk; by apply sketch_keys_ok).
  clear -Pk. induction (sortedKeys s) as [|k l IH]; [simpl; unfold sum_Z; simpl; lia|].
  cbn [map length]. rewrite sum_Z_cons.
  specialize (Pk k ltac:(left)) as P1. specialize (IH ltac:(intros j Hj; apply Pk; by right)). lia.
Qed.

(** A sketch survives its encoding: encoding one that satisfies the
    invariant succeeds and the strict decoder gives the same sketch back. *)
Theorem sketch_round_trip (s : Sketch) : sketch_ok s ->
  exists encoded, MarshalBinary s = Ok encoded /\ UnmarshalSketch encoded = Ok s.
Proof.
  intros Hs. unfold MarshalBinary.
  destruct (encode_bins_Ok (bins s) (sortedKeys s)) as (body & Eb & L).
  { intros k Hk. by apply sketch_keys_ok. }
  rewrite Eb. eexists. split; [reflexivity|].
  unfold UnmarshalSketch, walkSketch, AppendUvarint. cbn [app].
  replace (negb (FormatVersion =? FormatVersion)) with false by done.
  rewrite readUvarint_put.
  2:{ pose proof (bins_length s Hs). unfold64. lia. }
  cbn [result_bind].
  rewrite (walk_encode (bins s) (sortedKeys s)); [|done|apply sortedKeys_sorted| |done|lia| |lia].
  - cbn [result_bind]. rewrite Z.add_0_l, sum_sorted_bins, (ok_total _ Hs).
    fold (entries s). destruct (order_list_to_map _ _ (entries_perm s)) as [EL ND].
    rewrite foldl_insert, EL, (right_id_L ∅ (∪)) by done. by destruct s.
  - intros k Hk. by apply sketch_keys_ok.
  - rewrite sum_sorted_bins, (ok_total _ Hs). exact (ok_count _ Hs).
Qed.

Lemma sketch_round_trip_witness :
  exists encoded, MarshalBinary (demoSketch [(300, 7); (-2, 200)]) = Ok encoded /\
  UnmarshalSketch encoded = Ok (demoSketch [(300, 7); (-2, 200)]).
Proof.
  apply sketch_round_trip. apply demoSketch_ok; repeat constructor; try set_solver; done.
Defined.

(** ** Strictness *)

Definition walked_ok (prev : option Z) (total : Z) (visited : list (Z * Z)) (total' : Z) : Prop :=
  StronglySorted Z.lt (map fst visited) /\
  (forall k c, (k, c) ∈ visited -> in_int64 k /\ 0 < c /\ match prev with Some p => p < k | None => True end) /\
  total' = total + bin_sum visited /\ total' <= uint64_max.

Lemma walk_bins_ok (fuel : nat) (n : Z) (prev : option Z) (total : Z) (rest rest' : list Z)
    (visited : list (Z * Z)) (total' : Z) :
  0 <= total <= uint64_max ->
  walk_bins fuel n prev total rest = Ok (visited, total', rest') ->
  walked_ok prev total visited total'.
Proof.
  revert n prev total rest visited total' rest'.
  induction fuel as [|fuel IH]; intros n prev total rest visited total' rest' Ht H;
    cbn [walk_bins] in H; destruct (n =? 0).
  1,3: injection H as <- <- <-; unfold walked_ok, bin_sum; simpl;
    split_and!; [constructor|by intros k c ?%elem_of_nil|unfold sum_Z; simpl; lia|lia].
  { done. }
  destruct (readUvarint rest "sketch bin key") as [[ek r1]|] eqn:E1; [|done].
  cbn [result_bind] in H. cbv zeta in H.
  destruct (match prev with Some p => _ | None => false end) eqn:EP; [done|].
  destruct (readUvarint r1 "sketch bin count") as [[c r2]|] eqn:E2; [|done].
  cbn [result_bind] in H. destruct (_ || _) eqn:EC; [done|]. bool_split.
  apply readUvarint_Ok in E1 as [R1 _]. apply readUvarint_Ok in E2 as [R2 _].
  assert (0 < c) as Pc by (unfold64; lia).
  rewrite wrapu64_id in H by (unfold64; lia).
  destruct (walk_bins fuel (n - 1) _ _ r2) as [[[v t] r3]|] eqn:EW; [|done].
  cbn [result_bind] in H. injection H as <- <- <-.
  apply IH in EW as (SS & HV & -> & B); [|lia].
  unfold walked_ok, bin_sum. cbn [map fst snd]. rewrite sum_Z_cons. split_and!.
  - constructor; [done|]. apply Forall_forall. intros k ([k' c'] & -> & Hk)%list_elem_of_fmap_1.
    by apply (HV k' c').
  - intros k c'. rewrite elem_of_cons. intros [[= -> ->]|Hk].
    + split_and!; [by apply zigzagDecode_range|done|]. destruct prev; [lia|done].
    + destruct (HV k c' Hk) as (? & ? & L). split_and!; [done|done|].
      destruct prev as [p|]; [|done]. bool_split. lia.
  - unfold bin_sum. lia.
  - unfold bin_sum in *. lia.
Qed.

Lemma walkSketch_ok (encoded : list Z) (visited : list (Z * Z)) (total : Z) :
  walkSketch encoded = Ok (visited, total) -> walked_ok None 0 visited total.
Proof.
  unfold walkSketch. destruct encoded as [|v rest]; [done|]. destruct (negb _); [done|].
  destruct (readUvarint rest _) as [[n r]|]; [|done]. cbn [result_bind].
  destruct (walk_bins _ _ _ _ _) as [[[vs t] r']|] eqn:E; [|done]. cbn [result_bind].
  destruct r'; [|done]. intros [= <- <-]. eapply walk_bins_ok; [|exact E]. by unfold64.
Qed.

Lemma sorted_lt_NoDup (l : list Z) : StronglySorted Z.lt l -> NoDup l.
Proof.
  induction 1 as [|k l SS IH F]; constructor; [|done].
  intros H. rewrite Forall_forall in F. specialize (F k H). lia.
Qed.

(** The map a walk leaves behind. *)
Lemma visited_map (visited : list (Z * Z)) (total : Z) : walked_ok None 0 visited total ->
  let m := foldl (fun m kv => <[kv.1 := kv.2]> m) ∅ visited in
  m = list_to_map visited /\ visited ≡ₚ map_to_list m /\ sketch_ok (mkSketch m total).
Proof.
  intros (SS & HV & -> & B) m. pose proof (sorted_lt_NoDup _ SS) as ND.
  assert (m = list_to_map visited) as Em.
  { subst m. rewrite foldl_insert by done. apply (right_id_L ∅ (∪)). }
  assert (visited ≡ₚ map_to_list m) as P by (rewrite Em; by rewrite map_to_list_to_map).
  split_and!; [done|done|]. split; cbn [bins skCount].
  - intros k c H. rewrite Em in H. apply elem_of_list_to_map_2 in H. by apply (HV k c).
  - intros k c H. rewrite Em in H. apply elem_of_list_to_map_2 in H. by apply (HV k c).
  - rewrite <- (bin_sum_perm _ _ P). lia.
  - lia.
Qed.

(** The decoder is strict: whatever the bytes are, a sketch it returns
    satisfies the invariant (no empty bin, a counter that is the sum of the bins
    and did not overflow). *)
Theorem unmarshal_consistent (encoded : list Z) (s : Sketch) :
  UnmarshalSketch encoded = Ok s -> sketch_ok s.
Proof.
  unfold UnmarshalSketch. destruct (walkSketch encoded) as [[vs t]|] eqn:E; [|done].
  intros [= <-]. by apply (visited_map vs t), walkSketch_ok with encoded.
Qed.

Lemma unmarshal_consistent_witness :
  exists s, UnmarshalSketch [1; 2; 9; 5; 2; 200; 1] = Ok s /\ sketch_ok s /\ skCount s = 205.
Proof.
  eexists. split; [reflexivity|]. split; [|reflexivity].
  apply (unmarshal_consistent [1; 2; 9; 5; 2; 200; 1]). reflexivity.
Defined.

(** ** The query merger *)

Lemma merge_visit_bins (l : list (Z * Z)) (m : gmap Z Z) :
  match foldl merge_visit (m, None) l with
  | (m', None) => merge_bins m l = Ok m'
  | (_, Some k) => merge_bins m l = Err (BinOverflow k)
  end.
Proof.
  revert m. induction l as [|[k c] l IH]; intros m; [done|].
  cbn [foldl merge_bins merge_visit fst snd].
  destruct (uint64_max - c <? bin m k).
  - assert (forall l' (m' : gmap Z Z), foldl merge_visit (m', Some k) l' = (m', Some k)) as S.
    { induction l' as [|x l' IHl]; [done|]. intros m'. cbn [foldl merge_visit]. apply IHl. }
    by rewrite S.
  - apply IH.
Qed.

(** The query merger, which adds the bins while it validates them, agrees
    with the plain path of decoding the row and merging it: same sketch and row
    count on success, failure on the same rows; a failure of either kind closes
    the merger and drops what was added. *)
Theorem query_merger_agrees (s : Sketch) (encoded : list Z) : sketch_ok s ->
  match UnmarshalSketch encoded with
  | Err e => MergeBinary (Some s) encoded = (None, Err (BadEncoding e))
  | Ok o =>
      match Merge (map_to_list (bins o)) s o with
      | Ok s' => MergeBinary (Some s) encoded = (Some s', Ok (Count o))
      | Err _ => exists e, MergeBinary (Some s) encoded = (None, Err e) /\
                 (e = CountOverflow \/ exists k, e = BinOverflow k)
      end
  end.
Proof.
  intros Hs. unfold MergeBinary, UnmarshalSketch, Count.
  destruct (walkSketch encoded) as [[vs t]|e] eqn:E; [|done]. cbn [result_bind].
  apply walkSketch_ok in E. destruct (visited_map vs t E) as (_ & P & Ho).
  set (o := mkSketch _ t) in *. change (skCount o) with t.
  assert (Merge (map_to_list (bins o)) s o = Merge vs s o) as -> by (by rewrite !Merge_eq).
  pose proof (Merge_eq vs s o Hs Ho P) as M. unfold Merge in *.
  change (skCount o) with t in *.
  pose proof (merge_visit_bins vs (bins s)) as V.
  destruct (foldl merge_visit (bins s, None) vs) as [m [k|]]; rewrite V in *; cbn [result_bind] in *.
  - destruct (uint64_max - t <? skCount s); [|by destruct (_ <=? _)]. eauto.
  - destruct (uint64_max - t <? skCount s); [|done]. eauto.
Qed.

Lemma query_merger_agrees_witness :
  MergeBinary (Some (demoSketch [(1, 3)])) [1; 2; 9; 5; 2; 200; 1] =
  (Some (merged (demoSketch [(1, 3)]) (demoSketch [(1, 200); (-5, 5)])), Ok 205).
Proof.
  refine (query_merger_agrees (demoSketch [(1, 3)]) [1; 2; 9; 5; 2; 200; 1] _).
  apply demoSketch_ok; repeat constructor; try set_solver; done.
Defined.

(** ** P95 *)

(** Samples in the bins up to a key, and strictly below it. *)
Definition samples_upto (s : Sketch) (k : Z) : Z :=
  gmap_sum (fun j c => if j <=? k then c else 0) (bins s).
Definition samples_below (s : Sketch) (k : Z) : Z :=
  gmap_sum (fun j c => if j <? k then c else 0) (bins s).

Lemma rank_loop_spec (rep : Z -> Z) (m : gmap Z Z) (keys : list Z) (c rank : Z) :
  (forall k, k ∈ keys -> 0 <= bin m k) -> 0 <= c < rank ->
  rank <= c + sum_Z (map (bin m) keys) <= uint64_max ->
  exists l1 k l2, keys = l1 ++ k :: l2 /\ rank_loop rep m keys c rank = Some (rep k) /\
    c + sum_Z (map (bin m) l1) < rank <= c + sum_Z (map (bin m) l1) + bin m k.
Proof.
  revert c. induction keys as [|k keys IH]; intros c HP Hc HR.
  - unfold sum_Z in HR. simpl in HR. lia.
  - cbn [map] in HR. rewrite sum_Z_cons in HR. cbn [rank_loop].
    pose proof (HP k ltac:(left)) as Pk.
    assert (0 <= sum_Z (map (bin m) keys)) as Sn.
    { apply sum_Z_nonneg, Forall_forall. intros z (j & -> & Hj)%list_elem_of_fmap_1.
      apply HP. by right. }
    rewrite wrapu64_id by (unfold64; lia). cbv zeta.
    destruct (rank <=? c + bin m k) eqn:E; bool_split.
    + exists [], k, keys. split_and!; [done|done| |]; unfold sum_Z; simpl; lia.
    + destruct (IH (c + bin m k)) as (l1 & j & l2 & -> & -> & B); [|lia|lia|].
      { intros j Hj. apply HP. by right. }
      exists (k :: l1), j, l2. cbn [map]. rewrite sum_Z_cons. split_and!; [done|done|lia|lia].
Qed.

Lemma sum_map_zero {A} (f : A -> Z) (l : list A) : (forall x, x ∈ l -> f x = 0) ->
  sum_Z (map f l) = 0.
Proof.
  intros H. induction l as [|a l IH]; [done|]. cbn [map]. rewrite sum_Z_cons.
  rewrite (H a ltac:(left)), IH; [done|]. intros x Hx. apply H. by right.
Qed.

Lemma sum_map_ext {A} (f g : A -> Z) (l : list A) : (forall x, x ∈ l -> f x = g x) ->
  sum_Z (map f l) = sum_Z (map g l).
Proof. intros H. f_equal. apply map_ext_in. intros x Hx%list_elem_of_In. by apply H. Qed.

Lemma split_sums (s : Sketch) (l1 l2 : list Z) (k : Z) : sortedKeys s = l1 ++ k :: l2 ->
  samples_below s k = sum_Z (map (bin (bins s)) l1) /\
  samples_upto s k = sum_Z (map (bin (bins s)) l1) + bin (bins s) k.
Proof.
  intros E. pose proof (sortedKeys_sorted s) as SS. rewrite E in SS.
  assert ((forall x, x ∈ l1 -> x < k) /\ forall x, x ∈ l2 -> k < x) as [H1 H2].
  { split.
    - intros x Hx. eapply (StronglySorted_app_1_elem_of Z.lt); [exact SS|done|by left].
    - apply StronglySorted_app_1_r in SS || apply StronglySorted_app in SS as (_ & _ & SS).
      apply StronglySorted_inv in SS as [_ F]. by rewrite Forall_forall in F. }
  unfold samples_below, samples_upto. rewrite !gmap_sum_keys, E, !map_app, !sum_Z_app.
  cbn [map]. rewrite !sum_Z_cons, Z.ltb_irrefl, Z.leb_refl.
  rewrite (sum_map_zero (fun j => if j <? k then _ else 0) l2).
  2:{ intros x Hx. by rewrite (proj2 (Z.ltb_ge x k)) by (specialize (H2 x Hx); lia). }
  rewrite (sum_map_zero (fun j => if j <=? k then _ else 0) l2).
  2:{ intros x Hx. by rewrite (proj2 (Z.leb_gt x k)) by (specialize (H2 x Hx); lia). }
  rewrite (sum_map_ext (fun j => if j <? k then _ else 0) (bin (bins s)) l1).
  2:{ intros x Hx. by rewrite (proj2 (Z.ltb_lt x k)) by (specialize (H1 x Hx); lia). }
  rewrite (sum_map_ext (fun j => if j <=? k then _ else 0) (bin (bins s)) l1).
  2:{ intros x Hx. by rewrite (proj2 (Z.leb_le x k)) by (specialize (H1 x Hx); lia). }
  lia.
Qed.

(** P95 is the nearest rank: with at least one sample, and few enough for
    [count*95 + 99] to fit in a uint64, it is the value that represents the first
    bin at which at least 95%% of the samples are reached. *)
Theorem p95_nearest_rank (rep : Z -> Z) (s : Sketch) :
  sketch_ok s -> 0 < skCount s -> skCount s * 95 + 99 <= uint64_max ->
  exists k, is_Some (bins s !! k) /\ P95 rep s = Some (rep k) /\
    100 * samples_below s k < 95 * skCount s <= 100 * samples_upto s k.
Proof.
  intros Hs Hp Hb. unfold P95. rewrite (proj2 (Z.eqb_neq _ 0)) by lia.
  rewrite !wrapu64_id by (rewrite ?wrapu64_id; unfold64; lia). cbv zeta.
  set (rank := (skCount s * 95 + 99) / 100).
  assert (95 * skCount s <= 100 * rank < 95 * skCount s + 100) as R.
  { subst rank. pose proof (Z.div_mod (skCount s * 95 + 99) 100).
    pose proof (Z.mod_pos_bound (skCount s * 95 + 99) 100). lia. }
  destruct (rank_loop_spec rep (bins s) (sortedKeys s) 0 rank) as (l1 & k & l2 & E & -> & B).
  - intros k Hk. pose proof (sketch_keys_ok _ _ Hs Hk). lia.
  - lia.
  - rewrite sum_sorted_bins, (ok_total _ Hs). unfold64. lia.
  - exists k. split_and!; [|done|..].
    + apply elem_of_sortedKeys. rewrite E. apply elem_of_app. right. left.
    + rewrite (proj1 (split_sums _ _ _ _ E)). lia.
    + rewrite (proj2 (split_sums _ _ _ _ E)). lia.
Qed.

Lemma p95_nearest_rank_witness :
  exists k, is_Some (bins (demoSketch [(10, 95); (20, 5)]) !! k) /\
    P95 id (demoSketch [(10, 95); (20, 5)]) = Some (id k) /\
    100 * samples_below (demoSketch [(10, 95); (20, 5)]) k < 95 * 100
      <= 100 * samples_upto (demoSketch [(10, 95); (20, 5)]) k.
Proof.
  apply (p95_nearest_rank id (demoSketch [(10, 95); (20, 5)]));
    [apply demoSketch_ok; repeat constructor; try set_solver; done|reflexivity|].
  vm_compute. discriminate.
Defined.

(** Beyond that bound the product wraps around: with one sample in the lower bin
    and 2^64/95 in the upper one, the rank is 1 and P95 is the lower bin. *)
Lemma p95_wraps_for_large_counts :
  let s := demoSketch [(10, 1); (20, 194176253407468964)] in
  sketch_ok s /\ P95 id s = Some 10 /\
  100 * samples_upto s 10 < 95 * skCount s.
Proof.
  split_and!.
  - apply demoSketch_ok; repeat constructor; try set_solver; done.
  - vm_compute. reflexivity.
  - vm_compute. reflexivity.
Qed.
