(* ===== verification/SampleSet.v ===== *)
(** Package latency: the bounded sample set (sample.go).

    A set is the Go map from event ID to point.  The code iterates it in an
    unspecified order: [iter], the order of the iterations, is a parameter of the
    operations that do.  The worst-first heap is a list with the code's in-place
    swaps; the loop of [siftDownWorst] takes the heap's length as fuel. *)
From stdpp Require Import sorting.
From S2P Require Import Prelude Uvarint Sketch.

Local Open Scope string_scope.
Local Open Scope list_scope.
Local Open Scope Z_scope.

Definition MaxSamplePoints : nat := 1000.
Definition MaxEncodedSamplePoints : Z := 2500.

Record SamplePoint := mkSamplePoint {
  EventID : Z;
  Priority : Z;
  TTFTMS : Z;
  LatencyMS : Z;
}.

#[export] Instance SamplePoint_eq_dec : EqDecision SamplePoint.
Proof. solve_decision. Defined.

Abbreviation SampleSet := (gmap Z SamplePoint).

Inductive SampleError :=
| ValuesNotPositive (event ttft latency : Z)
| ConflictingSample (event : Z)
| EncodingTooLong (count : Z)
| SamplesBadEncoding (e : WalkError)
| SampleMergerClosed.

Definition NewSampleSet : SampleSet := ∅.

Definition splitMix64 (value : Z) : Z :=
  let value := wrapu64 (value + 0x9e3779b97f4a7c15) in
  let value := wrapu64 (Z.lxor value (Z.shiftr value 30) * 0xbf58476d1ce4e5b9) in
  let value := wrapu64 (Z.lxor value (Z.shiftr value 27) * 0x94d049bb133111eb) in
  Z.lxor value (Z.shiftr value 31).

Definition samplePointLess (left right : SamplePoint) : bool :=
  if negb (Priority left =? Priority right)
  then Priority left <? Priority right
  else EventID left <? EventID right.

(** ** The heap: the worst point on top *)

Fixpoint siftDownWorst (fuel : nat) (heap : list SamplePoint) (parent : nat)
    : list SamplePoint :=
  match fuel with
  | O => heap
  | S f =>
      let child := (parent * 2 + 1)%nat in
      match heap !! child, heap !! parent with
      | Some c, Some p =>
          let '(child, c) :=
            match heap !! (child + 1)%nat with
            | Some r => if samplePointLess c r then ((child + 1)%nat, r) else (child, c)
            | None => (child, c)
            end in
          if negb (samplePointLess p c) then heap
          else siftDownWorst f (<[parent := c]> (<[child := p]> heap)) child
      | _, _ => heap
      end
  end.

(** [for index := len(heap)/2 - 1; index >= 0; index--]: [n] is [index + 1]. *)
Fixpoint heapify (n : nat) (heap : list SamplePoint) : list SamplePoint :=
  match n with
  | O => heap
  | S index => heapify index (siftDownWorst (length heap) heap index)
  end.

(** One point of the second loop of [trim]. *)
Definition trim_step (st : SampleSet * list SamplePoint) (point : SamplePoint)
    : SampleSet * list SamplePoint :=
  let '(points, heap) := st in
  match heap !! 0%nat with
  | Some worst =>
      if samplePointLess point worst
      then (delete (EventID worst) points,
            siftDownWorst (length heap) (<[0%nat := point]> heap) 0)
      else (delete (EventID point) points, heap)
  | None => st
  end.

Section Samples.
Context (iter : SampleSet -> list SamplePoint).

Definition trim (samples : SampleSet) : SampleSet :=
  if (size samples <=? MaxSamplePoints)%nat then samples
  else
    let points := iter samples in
    let heap := take MaxSamplePoints points in
    let heap := heapify (length heap / 2) heap in
    (foldl trim_step (samples, heap) (drop MaxSamplePoints points)).1.

Definition addPoint (samples : SampleSet) (point : SamplePoint)
    : result SampleError SampleSet :=
  match samples !! EventID point with
  | Some existing =>
      if negb (bool_decide (existing = point)) then Err (ConflictingSample (EventID point))
      else Ok samples
  | None => Ok (<[EventID point := point]> samples)
  end.

Definition SampleAdd (samples : SampleSet) (eventID ttftMS latencyMS : Z)
    : result SampleError SampleSet :=
  if (eventID <=? 0) || (ttftMS <=? 0) || (latencyMS <=? 0)
  then Err (ValuesNotPositive eventID ttftMS latencyMS)
  else
    let point := mkSamplePoint eventID (splitMix64 (wrapu64 eventID)) ttftMS latencyMS in
    let? samples := addPoint samples point in
    Ok (trim samples).

Fixpoint addPoints (samples : SampleSet) (points : list SamplePoint)
    : result SampleError SampleSet :=
  match points with
  | [] => Ok samples
  | point :: r => let? samples := addPoint samples point in addPoints samples r
  end.

Definition SampleMerge (samples other : SampleSet) : result SampleError SampleSet :=
  let? samples := addPoints samples (iter other) in
  Ok (trim samples).

(** A sort whose result is ordered by [not (r < l)]. *)
Definition pointNotAfter (l r : SamplePoint) : Prop := samplePointLess r l = false.

#[export] Instance pointNotAfter_dec l r : Decision (pointNotAfter l r).
Proof. unfold pointNotAfter. apply _. Defined.

Definition Points (samples : SampleSet) : list SamplePoint :=
  merge_sort pointNotAfter (iter samples).

Definition encode_point (point : SamplePoint) : list Z :=
  put_uvarint 9 (wrapu64 (EventID point)) ++ put_uvarint 9 (Priority point)
  ++ put_uvarint 9 (wrapu64 (TTFTMS point)) ++ put_uvarint 9 (wrapu64 (LatencyMS point)).

Definition SampleMarshalBinary (samples : SampleSet) : result SampleError (list Z) :=
  let points := Points samples in
  if (MaxSamplePoints <? length points)%nat
  then Err (EncodingTooLong (Z.of_nat (length points)))
  else Ok (AppendUvarint [FormatVersion] (Z.of_nat (length points))
           ++ concat (map encode_point points)).
End Samples.

Definition SampleCount (samples : SampleSet) : nat := size samples.

(** ** Decoding *)

Definition read_point (rest : list Z) : result WalkError (SamplePoint * list Z) :=
  let? (eventID, rest) := readPositiveInt64 rest "sample event ID" in
  let? (priority, rest) := readUvarint rest "sample priority" in
  let? (ttftMS, rest) := readPositiveInt64 rest "sample TTFT" in
  let? (latencyMS, rest) := readPositiveInt64 rest "sample latency" in
  let point := mkSamplePoint eventID priority ttftMS latencyMS in
  if negb (priority =? splitMix64 (wrapu64 eventID)) then Err (PriorityMismatch eventID)
  else Ok (point, rest).

(** The loop of [walkSampleSet]; the count is at most 2500. *)
Fixpoint walk_points (n : nat) (previous : option SamplePoint) (rest : list Z)
    : result WalkError (list SamplePoint * list Z) :=
  match n with
  | O => Ok ([], rest)
  | S n' =>
      let? (point, rest) := read_point rest in
      if match previous with Some p => negb (samplePointLess p point) | None => false end
      then Err PointsNotOrdered
      else
        let? (visited, rest) := walk_points n' (Some point) rest in
        Ok (point :: visited, rest)
  end.

(** The points visited, in order. *)
Definition walkSampleSet (encoded : list Z) : result WalkError (list SamplePoint) :=
  match encoded with
  | [] => Err DataEmpty
  | version :: rest =>
      if negb (version =? FormatVersion) then Err (UnsupportedVersion version)
      else
        let? (count, rest) := readUvarint rest "sample count" in
        if MaxEncodedSamplePoints <? count then Err (SampleCountExceeds count)
        else
          let? (visited, rest) := walk_points (Z.to_nat count) None rest in
          match rest with
          | [] => Ok visited
          | _ => Err TrailingBytes
          end
  end.

Definition insert_points (samples : SampleSet) (points : list SamplePoint) : SampleSet :=
  foldl (fun m p => <[EventID p := p]> m) samples points.

Definition UnmarshalSampleSet (encoded : list Z) : result WalkError SampleSet :=
  let? visited := walkSampleSet encoded in
  Ok (insert_points NewSampleSet visited).

(** ** The query merger: the retained set with its heap; [None] is closed *)

Record QuerySampleState := mkQuerySample {
  qsSamples : SampleSet;
  qsHeap : list SamplePoint;
}.

Definition QuerySampleMerger := option QuerySampleState.

Definition NewQuerySampleMerger : QuerySampleMerger := Some (mkQuerySample NewSampleSet []).

(** The visitor: candidates in visit order and the first conflicting event. *)
Definition query_visit (st : QuerySampleState) (acc : list SamplePoint * option Z)
    (point : SamplePoint) : list SamplePoint * option Z :=
  let '(candidates, conflict) := acc in
  let full := (length (qsHeap st) =? MaxSamplePoints)%nat in
  let worst := qsHeap st !! 0%nat in
  if full && match worst with Some w => samplePointLess w point | None => false end
  then acc
  else
    match qsSamples st !! EventID point with
    | Some previous =>
        if negb (bool_decide (previous = point)) && bool_decide (conflict = None)
        then (candidates, Some (EventID point))
        else acc
    | None =>
        if (length (qsHeap st) <? MaxSamplePoints)%nat
           || match worst with Some w => samplePointLess point w | None => false end
        then (candidates ++ [point], conflict)
        else acc
    end.

(** The sift-up loop that follows an append, from [child] towards the root. *)
Fixpoint siftUpWorst (fuel : nat) (heap : list SamplePoint) (child : nat) : list SamplePoint :=
  match fuel with
  | O => heap
  | S f =>
      if (child =? 0)%nat then heap
      else
        let parent := ((child - 1) / 2)%nat in
        match heap !! parent, heap !! child with
        | Some p, Some c =>
            if negb (samplePointLess p c) then heap
            else siftUpWorst f (<[parent := c]> (<[child := p]> heap)) parent
        | _, _ => heap
        end
  end.

Definition insert_candidate (st : QuerySampleState) (point : SamplePoint) : QuerySampleState :=
  let heap := qsHeap st in
  if (length heap <? MaxSamplePoints)%nat then
    mkQuerySample (<[EventID point := point]> (qsSamples st))
      (siftUpWorst (S (length heap)) (heap ++ [point]) (length heap))
  else
    match heap !! 0%nat with
    | Some worst =>
        if samplePointLess point worst then
          mkQuerySample (<[EventID point := point]> (delete (EventID worst) (qsSamples st)))
            (siftDownWorst (length heap) (<[0%nat := point]> heap) 0)
        else st
    | None => st
    end.

Definition QueryMergeBinary (merger : QuerySampleMerger) (encoded : list Z)
    : QuerySampleMerger * result SampleError Z :=
  match merger with
  | None => (None, Err SampleMergerClosed)
  | Some st =>
      match walkSampleSet encoded with
      | Err e => (merger, Err (SamplesBadEncoding e))
      | Ok visited =>
          match foldl (query_visit st) ([], None) visited with
          | (_, Some event) => (merger, Err (ConflictingSample event))
          | (candidates, None) =>
              (Some (foldl insert_candidate st candidates), Ok (Z.of_nat (length visited)))
          end
      end
  end.

Definition TakeSamples (merger : QuerySampleMerger) : QuerySampleMerger * option SampleSet :=
  (None, option_map qsSamples merger).
