(* ===== verification/SampleHeapFacts.v ===== *)
(** The worst-first heap of the sample set: sifting keeps the elements and
    restores the heap, so the top of a heap is its worst point. *)
From stdpp Require Import sorting.
From S2P Require Import Prelude Uvarint Sketch SampleSet.

Local Open Scope list_scope.
Local Open Scope Z_scope.

Lemma max_pos : (0 < MaxSamplePoints)%nat.
Proof. unfold MaxSamplePoints. lia. Qed.

Lemma max_encoded : (MaxSamplePoints <= Z.to_nat MaxEncodedSamplePoints)%nat.
Proof. apply Nat.leb_le. vm_compute. reflexivity. Qed.

#[global] Opaque MaxSamplePoints.

(** ** The order of points *)

Abbreviation less := samplePointLess.

Lemma less_spec (p q : SamplePoint) :
  less p q = true <->
  Priority p < Priority q \/ Priority p = Priority q /\ EventID p < EventID q.
Proof.
  unfold samplePointLess. destruct (Priority p =? Priority q) eqn:E; bool_split;
    cbn [negb]; rewrite Z.ltb_lt; lia.
Qed.

Lemma less_false (p q : SamplePoint) :
  less p q = false <->
  Priority q < Priority p \/ Priority q = Priority p /\ EventID q <= EventID p.
Proof.
  pose proof (less_spec p q) as H. destruct (less p q); split; try done.
  - intros D. assert (true = true) as T by done. apply H in T. lia.
  - intros _. destruct (decide (Priority q < Priority p \/ Priority q = Priority p /\ EventID q <= EventID p));
      [done|]. assert (false = true) by (apply H; lia). done.
Qed.

Lemma less_irrefl (p : SamplePoint) : less p p = false.
Proof. apply less_false. lia. Qed.

Lemma less_asym (p q : SamplePoint) : less p q = true -> less q p = false.
Proof. rewrite less_spec, less_false. lia. Qed.

Lemma less_trans (p q r : SamplePoint) : less p q = true -> less q r = true -> less p r = true.
Proof. rewrite !less_spec. lia. Qed.

Lemma not_less_trans (p q r : SamplePoint) : less p q = false -> less q r = false -> less p r = false.
Proof. rewrite !less_false. lia. Qed.

Lemma less_total (p q : SamplePoint) : EventID p <> EventID q -> less p q = false -> less q p = true.
Proof. rewrite less_spec, less_false. lia. Qed.

(** ** Heaps *)

(** [c] is a child of [j] in the array layout. *)
Definition child_of (j c : nat) : Prop := c = (2 * j + 1)%nat \/ c = (2 * j + 2)%nat.

(** The parent at [j] is not before (not better than) the child at [c]. *)
Definition ordered (h : list SamplePoint) (j c : nat) : Prop :=
  forall p q, h !! j = Some p -> h !! c = Some q -> less p q = false.

(** All edges from node [i] on are ordered. *)
Definition heap_from (i : nat) (h : list SamplePoint) : Prop :=
  forall j c, (i <= j)%nat -> child_of j c -> ordered h j c.

(** The same but for the edges below [k]; the parent of [k] is already ordered
    against the children of [k]. *)
Definition heap_but (i k : nat) (h : list SamplePoint) : Prop :=
  (forall j c, (i <= j)%nat -> j <> k -> child_of j c -> ordered h j c) /\
  (forall j c, (i <= j)%nat -> child_of j k -> child_of k c -> ordered h j c).

Definition swap (h : list SamplePoint) (a b : nat) (pa pb : SamplePoint) : list SamplePoint :=
  <[a := pb]> (<[b := pa]> h).

Lemma swap_length (h : list SamplePoint) a b pa pb : length (swap h a b pa pb) = length h.
Proof. unfold swap. by rewrite !length_insert. Qed.

Lemma swap_perm (h : list SamplePoint) (a b : nat) (pa pb : SamplePoint) :
  h !! a = Some pa -> h !! b = Some pb -> swap h a b pa pb ≡ₚ h.
Proof. intros Ha Hb. by apply Permutation_insert_swap. Qed.

Lemma swap_lookup (h : list SamplePoint) (a b j : nat) (pa pb : SamplePoint) :
  a <> b -> h !! a = Some pa -> h !! b = Some pb ->
  swap h a b pa pb !! j =
  if decide (j = a) then Some pb else if decide (j = b) then Some pa else h !! j.
Proof.
  intros N Ha Hb. unfold swap.
  pose proof (lookup_lt_Some _ _ _ Ha). pose proof (lookup_lt_Some _ _ _ Hb).
  destruct (decide (j = a)) as [->|Na].
  - rewrite list_lookup_insert_eq by (rewrite length_insert; lia). done.
  - rewrite list_lookup_insert_ne by done. destruct (decide (j = b)) as [->|Nb].
    + by rewrite list_lookup_insert_eq by lia.
    + by rewrite list_lookup_insert_ne.
Qed.

(** One turn of the loop of [siftDownWorst]: either the heap is in order at [k],
    or the worse child goes up. *)
Lemma sift_step (f : nat) (h : list SamplePoint) (k : nat) (p : SamplePoint) :
  h !! k = Some p ->
  (siftDownWorst (S f) h k = h /\ forall c, child_of k c -> ordered h k c) \/
  exists b q, child_of k b /\ h !! b = Some q /\ less p q = true /\
    (forall c, child_of k c -> forall r, h !! c = Some r -> less q r = false) /\
    siftDownWorst (S f) h k = siftDownWorst f (swap h k b p q) b.
Proof.
  intros Hp. cbn [siftDownWorst]. rewrite Hp.
  destruct (h !! (k * 2 + 1)%nat) as [l|] eqn:El.
  2:{ left. split; [done|]. intros c Hc x y _ Hy.
      apply lookup_ge_None in El. apply lookup_lt_Some in Hy. destruct Hc; lia. }
  assert (exists b q, child_of k b /\ h !! b = Some q /\
    (forall c, child_of k c -> forall r, h !! c = Some r -> less q r = false) /\
    match h !! (k * 2 + 1 + 1)%nat with
    | Some r => if less l r then ((k * 2 + 1 + 1)%nat, r) else ((k * 2 + 1)%nat, l)
    | None => ((k * 2 + 1)%nat, l) end = (b, q)) as (b & q & Hb & Hq & HM & ->).
  { destruct (h !! (k * 2 + 1 + 1)%nat) as [r|] eqn:Er; [destruct (less l r) eqn:E|].
    - exists (k * 2 + 1 + 1)%nat, r. split_and!; [right; lia|done| |done].
      intros c [->| ->] x Hx.
      + replace (2 * k + 1)%nat with (k * 2 + 1)%nat in Hx by lia.
        rewrite El in Hx. injection Hx as <-. by apply less_asym.
      + replace (2 * k + 2)%nat with (k * 2 + 1 + 1)%nat in Hx by lia.
        rewrite Er in Hx. injection Hx as <-. apply less_irrefl.
    - exists (k * 2 + 1)%nat, l. split_and!; [left; lia|done| |done].
      intros c [->| ->] x Hx.
      + replace (2 * k + 1)%nat with (k * 2 + 1)%nat in Hx by lia.
        rewrite El in Hx. injection Hx as <-. apply less_irrefl.
      + replace (2 * k + 2)%nat with (k * 2 + 1 + 1)%nat in Hx by lia.
        rewrite Er in Hx. by injection Hx as <-.
    - exists (k * 2 + 1)%nat, l. split_and!; [left; lia|done| |done].
      intros c [->| ->] x Hx.
      + replace (2 * k + 1)%nat with (k * 2 + 1)%nat in Hx by lia.
        rewrite El in Hx. injection Hx as <-. apply less_irrefl.
      + replace (2 * k + 2)%nat with (k * 2 + 1 + 1)%nat in Hx by lia. congruence. }
  destruct (less p q) eqn:E; cbn [negb].
  - right. exists b, q. by split_and!.
  - left. split; [done|]. intros c Hc x y Hx Hy. rewrite Hp in Hx. injection Hx as <-.
    apply (not_less_trans _ q); [done|]. by eapply HM.
Qed.

Lemma swap_heap_but (i k b : nat) (h : list SamplePoint) (p q : SamplePoint) :
  (i <= k)%nat -> heap_but i k h -> child_of k b -> h !! k = Some p -> h !! b = Some q ->
  less p q = true ->
  (forall c, child_of k c -> forall r, h !! c = Some r -> less q r = false) ->
  heap_but i b (swap h k b p q).
Proof.
  intros Hik [H1 H2] Hb Hp Hq L HM.
  assert (k <> b) as N by (destruct Hb; lia).
  pose proof (swap_lookup h k b) as SL.
  split.
  - intros j c Hij Njb Hc x y. rewrite !SL by done.
    destruct (decide (j = k)) as [->|Njk].
    + intros [= <-]. destruct (decide (c = k)) as [->|Nck]; [destruct Hc; lia|].
      destruct (decide (c = b)) as [->|Ncb].
      * intros [= <-]. by apply less_asym.
      * intros Hy. by apply (HM c).
    + destruct (decide (j = b)) as [->|_]; [done|]. intros Hx.
      destruct (decide (c = k)) as [->|Nck].
      * intros [= <-]. by apply (H2 j b).
      * destruct (decide (c = b)) as [->|Ncb].
        { destruct Hc, Hb; lia. }
        intros Hy. by apply (H1 j c).
  - intros j c Hij Hjb Hc x y. rewrite !SL by done.
    assert (j = k) as -> by (destruct Hjb, Hb; lia).
    destruct (decide (k = k)) as [_|]; [|done]. intros [= <-].
    destruct (decide (c = k)) as [->|Nck]; [destruct Hc, Hb; lia|].
    destruct (decide (c = b)) as [->|Ncb]; [destruct Hc; lia|].
    intros Hy. apply (H1 b c); try done. destruct Hb; lia.
Qed.

Lemma heap_but_from (i k : nat) (h : list SamplePoint) :
  heap_but i k h -> (forall c, child_of k c -> ordered h k c) -> heap_from i h.
Proof.
  intros [H1 _] H j c Hij Hc. destruct (decide (j = k)) as [->|N]; [by apply H|by apply H1].
Qed.

(** Sifting restores the heap and keeps the points. *)
Lemma sift_ok (f : nat) (i k : nat) (h : list SamplePoint) :
  (i <= k)%nat -> (length h <= f + k)%nat -> heap_but i k h ->
  heap_from i (siftDownWorst f h k) /\ siftDownWorst f h k ≡ₚ h.
Proof.
  revert k h. induction f as [|f IH]; intros k h Hik Hf HB.
  - cbn [siftDownWorst]. split; [|done]. apply heap_but_from with k; [done|]. intros c Hc x y Hx Hy.
    apply lookup_lt_Some in Hx. simpl in Hf. lia.
  - destruct (h !! k) as [p|] eqn:Hp.
    + destruct (sift_step f h k p Hp) as [[-> Ho]|(b & q & Hb & Hq & L & HM & ->)].
      * split; [|done]. by apply heap_but_from with k.
      * destruct (IH b (swap h k b p q)) as [Hh P].
        { destruct Hb; lia. }
        { rewrite swap_length. destruct Hb; lia. }
        { by apply swap_heap_but. }
        split; [done|]. rewrite P. by apply swap_perm.
    + assert (siftDownWorst (S f) h k = h) as ->.
      { cbn [siftDownWorst]. rewrite Hp. by destruct (h !! (k * 2 + 1)%nat). }
      split; [|done]. apply heap_but_from with k; [done|]. intros c Hc x y Hx. congruence.
Qed.

(** The top of a heap is its worst point. *)
Lemma heap_top_worst (h : list SamplePoint) (w x : SamplePoint) :
  heap_from 0 h -> h !! 0%nat = Some w -> x ∈ h -> less w x = false.
Proof.
  intros H Hw [j Hx]%list_elem_of_lookup. revert x Hx.
  induction (lt_wf j) as [j _ IH]; intros x Hx.
  destruct (decide (j = 0%nat)) as [->|N].
  - rewrite Hw in Hx. injection Hx as <-. apply less_irrefl.
  - set (i := ((j - 1) / 2)%nat).
    assert (child_of i j /\ (i < j)%nat) as [Hc Hl].
    { subst i. unfold child_of. pose proof (Nat.div_mod (j - 1) 2).
      pose proof (Nat.mod_upper_bound (j - 1) 2). lia. }
    destruct (lookup_lt_is_Some_2 h i) as [y Hy]; [apply lookup_lt_Some in Hx; lia|].
    apply (not_less_trans _ y); [by apply (IH i)|].
    apply (H i j); [lia|done..].
Qed.

(** Building the heap bottom up. *)
Lemma heapify_ok (n : nat) (h : list SamplePoint) :
  heap_from n h -> heap_from 0 (heapify n h) /\ heapify n h ≡ₚ h.
Proof.
  revert h. induction n as [|n IH]; intros h H; [done|]. cbn [heapify].
  destruct (sift_ok (length h) n n h) as [H1 P]; [lia|lia| |].
  - split.
    + intros j c Hj N Hc. apply H; [lia|done].
    + intros j c Hj Hjn Hc. destruct Hjn; lia.
  - destruct (IH _ H1) as [H2 P2]. split; [done|]. by rewrite P2.
Qed.

Lemma heap_from_half (h : list SamplePoint) : heap_from (length h / 2) h.
Proof.
  intros j c Hj Hc x y Hx Hy. apply lookup_lt_Some in Hy. exfalso.
  pose proof (Nat.div_mod (length h) 2). pose proof (Nat.mod_upper_bound (length h) 2).
  destruct Hc; lia.
Qed.

(** Putting a point in place of the top. *)
Lemma replace_top_ok (h : list SamplePoint) (w p : SamplePoint) :
  heap_from 0 h -> h !! 0%nat = Some w ->
  let h' := siftDownWorst (length h) (<[0%nat := p]> h) 0 in
  heap_from 0 h' /\ w :: h' ≡ₚ p :: h.
Proof.
  intros H Hw. destruct h as [|w' t]; [done|]. injection Hw as ->.
  cbv zeta. change (<[0%nat := p]> (w :: t)) with (p :: t).
  destruct (sift_ok (length (w :: t)) 0 0 (p :: t)) as [H1 P]; [lia|simpl; lia| |].
  - split.
    + intros j c _ N Hc x y Hx Hy. destruct j as [|j]; [done|].
      destruct c as [|c]; [destruct Hc; lia|]. by apply (H (S j) (S c) ltac:(lia) Hc).
    + intros j c _ Hj. destruct Hj; lia.
  - split; [done|]. rewrite P. apply Permutation_swap.
Qed.

(** Properties of [SampleSet]: the bounded set is the set of the points of
    smallest priority, however it was iterated, merged and trimmed; encodings
    read back; the query merger agrees with decoding and merging. *)
From stdpp Require Import sorting.

Local Open Scope list_scope.
Local Open Scope Z_scope.

(** ** The reference definition *)

Definition values (m : SampleSet) : list SamplePoint := map snd (map_to_list m).

(** Every point sits under its event ID. *)
Definition key_ok (m : SampleSet) : Prop := forall k p, m !! k = Some p -> EventID p = k.

(** How many points of the set are better than [p]. *)
Definition rank (m : SampleSet) (p : SamplePoint) : nat :=
  length (filter (fun q => samplePointLess q p = true) (values m)).

(** The points that fewer than 1000 others beat. *)
Definition keep (m : SampleSet) : SampleSet :=
  filter (fun kv => (rank m kv.2 < MaxSamplePoints)%nat) m.

Lemma elem_of_values (m : SampleSet) (p : SamplePoint) :
  p ∈ values m <-> exists k, m !! k = Some p.
Proof.
  unfold values. split.
  - intros ([k q] & -> & H)%list_elem_of_fmap_1. apply elem_of_map_to_list in H. by exists k.
  - intros [k H]. change p with (k, p).2. by apply list_elem_of_fmap_2, elem_of_map_to_list.
Qed.

Lemma elem_of_values_key (m : SampleSet) (p : SamplePoint) : key_ok m ->
  p ∈ values m <-> m !! EventID p = Some p.
Proof.
  intros K. rewrite elem_of_values. split; [|by eexists].
  intros [k H]. by rewrite (K _ _ H).
Qed.

Lemma values_NoDup_ids (m : SampleSet) : key_ok m -> NoDup (map EventID (values m)).
Proof.
  intros K. unfold values. rewrite map_map.
  rewrite (map_ext_in _ fst); [apply NoDup_fst_map_to_list|].
  intros [k p] H. apply list_elem_of_In, elem_of_map_to_list in H. by apply K.
Qed.

Lemma values_NoDup (m : SampleSet) : key_ok m -> NoDup (values m).
Proof. intros K. eapply NoDup_fmap_1. by apply (values_NoDup_ids m). Qed.

Lemma values_distinct (m : SampleSet) (p q : SamplePoint) : key_ok m ->
  p ∈ values m -> q ∈ values m -> p <> q -> EventID p <> EventID q.
Proof. intros K Hp Hq N E. apply elem_of_values_key in Hp, Hq; [|done..]. rewrite E in Hp. congruence. Qed.

Lemma values_length (m : SampleSet) : length (values m) = size m.
Proof. unfold values. by rewrite length_fmap, length_map_to_list. Qed.

Lemma values_insert (m : SampleSet) (k : Z) (p : SamplePoint) : m !! k = None ->
  values (<[k := p]> m) ≡ₚ p :: values m.
Proof. intros H. unfold values. by rewrite map_to_list_insert. Qed.

Lemma rank_insert (m : SampleSet) (k : Z) (p q : SamplePoint) : m !! k = None ->
  rank (<[k := p]> m) q = ((if samplePointLess p q then 1 else 0) + rank m q)%nat.
Proof.
  intros H. unfold rank. rewrite values_insert by done. rewrite filter_cons.
  destruct (samplePointLess p q) eqn:E; destruct (decide _); done.
Qed.

Lemma filter_none {A} (P : A -> Prop) `{forall x, Decision (P x)} (l : list A) :
  (forall x, x ∈ l -> ~ P x) -> filter P l = [].
Proof.
  induction l as [|a l IH]; intros HP; [done|]. rewrite filter_cons_False by (apply HP; left).
  apply IH. intros x Hx. apply HP. by right.
Qed.

Lemma filter_strict {A} (P : A -> Prop) `{forall x, Decision (P x)} (l : list A) (a : A) :
  a ∈ l -> ~ P a -> (length (filter P l) < length l)%nat.
Proof.
  intros (l1 & l2 & ->)%list_elem_of_split N. rewrite filter_app, filter_cons_False by done.
  rewrite !length_app. pose proof (length_filter P l1). pose proof (length_filter P l2).
  simpl. lia.
Qed.

(** A split of the points into a full part and the points it beats. *)
Definition split_at_max (m : SampleSet) (h d : list SamplePoint) : Prop :=
  h ++ d ≡ₚ values m /\ length h = MaxSamplePoints /\
  forall x y, x ∈ h -> y ∈ d -> samplePointLess x y = true.

Lemma split_rank (m : SampleSet) (h d : list SamplePoint) (p : SamplePoint) :
  split_at_max m h d -> (p ∈ h -> (rank m p < MaxSamplePoints)%nat) /\
  (p ∈ d -> (MaxSamplePoints <= rank m p)%nat).
Proof.
  intros (P & L & HD). unfold rank. rewrite <- P, filter_app, length_app. split; intros Hp.
  - rewrite (filter_none _ d).
    2:{ intros x Hx. rewrite (less_asym p x); [done|]. by apply HD. }
    rewrite <- L. rewrite Nat.add_0_r. apply (filter_strict _ h p); [done|].
    by rewrite less_irrefl.
  - rewrite (filter_all _ h); [lia|]. intros x Hx. by apply HD.
Qed.

Lemma split_keep (m : SampleSet) (h d : list SamplePoint) (p : SamplePoint) :
  key_ok m -> split_at_max m h d ->
  keep m !! EventID p = Some p <-> p ∈ h.
Proof.
  intros K S. pose proof S as (P & _ & _). unfold keep. rewrite map_lookup_filter_Some. simpl.
  rewrite <- elem_of_values_key, <- P, elem_of_app by done.
  destruct (split_rank m h d p S) as [H1 H2]. split.
  - intros [[Hp|Hp] R]; [done|]. specialize (H2 Hp). lia.
  - intros Hp. split; [by left|]. by apply H1.
Qed.

Lemma keep_small (m : SampleSet) : (size m <= MaxSamplePoints)%nat -> keep m = m.
Proof.
  intros H. unfold keep. apply map_filter_id. intros k p Hk. simpl.
  unfold rank. rewrite <- values_length in H.
  assert (p ∈ values m) as Hp by (apply elem_of_values; by exists k).
  pose proof (filter_strict (fun q => samplePointLess q p = true) (values m) p Hp) as F.
  cbv beta in F. rewrite less_irrefl in F. specialize (F ltac:(done)). lia.
Qed.

Lemma keep_key_ok (m : SampleSet) : key_ok m -> key_ok (keep m).
Proof. intros K k p [H _]%map_lookup_filter_Some. by apply K. Qed.

(** ** The heap implementation *)

Definition without (m : SampleSet) (d : list SamplePoint) : SampleSet :=
  filter (fun kv => kv.2 ∉ d) m.

Lemma without_nil (m : SampleSet) : without m [] = m.
Proof. apply map_filter_id. intros k p _. apply not_elem_of_nil. Qed.

Lemma without_cons (m : SampleSet) (d : list SamplePoint) (w : SamplePoint) :
  key_ok m -> w ∈ values m -> delete (EventID w) (without m d) = without m (w :: d).
Proof.
  intros K Hw. apply elem_of_values_key in Hw; [|done]. apply map_eq. intros k.
  apply option_eq. intros p. unfold without.
  rewrite lookup_delete_Some, !map_lookup_filter_Some. simpl. rewrite not_elem_of_cons.
  split.
  - intros (N & H & D). split_and!; [done| |done]. intros ->. by apply N, K.
  - intros (H & Nw & D). split_and!; [|done..]. intros <-. rewrite Hw in H. congruence.
Qed.

Lemma split_without (m : SampleSet) (h d : list SamplePoint) : key_ok m ->
  split_at_max m h d -> without m d = keep m.
Proof.
  intros K SP. unfold without, keep. apply map_filter_ext. intros k p Hk. simpl.
  destruct (split_rank m h d p SP) as [H1 H2]. destruct SP as (P & _ & _).
  assert (Vp : p ∈ h ++ d) by (rewrite P; apply elem_of_values; by exists k).
  apply elem_of_app in Vp.
  assert (ND : NoDup (h ++ d)) by (rewrite P; by apply values_NoDup).
  apply NoDup_app in ND as (_ & N & _). split.
  - intros Nd. destruct Vp as [Hp|Hp]; [by apply H1|done].
  - intros R Hd. specialize (H2 Hd). lia.
Qed.

(** What the loop of [trim] maintains, [d] being the points dropped so far. *)
Definition trim_inv (m : SampleSet) (post d : list SamplePoint)
    (st : SampleSet * list SamplePoint) : Prop :=
  st.1 = without m d /\ heap_from 0 st.2 /\ length st.2 = MaxSamplePoints /\
  st.2 ++ d ++ post ≡ₚ values m /\
  forall x y, x ∈ st.2 -> y ∈ d -> samplePointLess x y = true.

Lemma trim_step_inv (m : SampleSet) (x : SamplePoint) (post d : list SamplePoint)
    (st : SampleSet * list SamplePoint) :
  key_ok m -> trim_inv m (x :: post) d st -> exists d', trim_inv m post d' (trim_step st x).
Proof.
  intros K (E & H & L & P & HD). destruct st as [m' h]. cbn [fst snd] in *.
  assert (ND : NoDup (h ++ d ++ x :: post)) by (rewrite P; by apply values_NoDup).
  assert (V : forall y, y ∈ h ++ d ++ x :: post -> y ∈ values m) by (intros y; by rewrite P).
  assert (Vx : x ∈ values m) by (apply V; rewrite !elem_of_app; right; right; left).
  destruct (h !! 0%nat) as [w|] eqn:Hw.
  2:{ apply lookup_ge_None in Hw. pose proof max_pos. lia. }
  assert (Ww : w ∈ h) by (by eapply list_elem_of_lookup_2).
  assert (Vw : w ∈ values m) by (apply V; rewrite elem_of_app; by left).
  assert (Nxh : x ∉ h).
  { apply NoDup_app in ND as (_ & N & _). intros Hx. apply (N x Hx).
    rewrite elem_of_app. right. left. }
  unfold trim_step. rewrite Hw. destruct (samplePointLess x w) eqn:Lx.
  - destruct (replace_top_ok h w x H Hw) as [H' P'].
    set (h' := siftDownWorst _ _ _) in *. exists (w :: d). unfold trim_inv. cbn [fst snd].
    assert (ND' : NoDup (w :: h')).
    { rewrite P'. apply NoDup_cons. split; [done|]. by apply NoDup_app in ND as (? & _). }
    assert (Hin : forall y, y ∈ h' -> y = x \/ y ∈ h).
    { intros y Hy. assert (y ∈ w :: h') as Q by (by right). rewrite P' in Q.
      by apply elem_of_cons in Q. }
    split_and!; [by rewrite E, without_cons|done| | |].
    + apply Permutation_length in P'. simpl in P'. lia.
    + rewrite <- P. transitivity ((w :: h') ++ d ++ post).
      { symmetry. apply Permutation_middle. }
      rewrite P', (app_assoc h d (x :: post)), <- (Permutation_middle (h ++ d) post x).
      cbn [app]. by rewrite app_assoc.
    + intros y z Hy [->|Hz]%elem_of_cons.
      * destruct (Hin y Hy) as [->|Hyh]; [done|]. apply less_total.
        { apply (values_distinct m); [done|done|apply V; rewrite elem_of_app; by left|].
          intros <-. by apply NoDup_cons in ND' as [[] _]. }
        by apply (heap_top_worst h).
      * destruct (Hin y Hy) as [->|Hyh]; [|by apply HD].
        apply (less_trans _ w); [done|by apply HD].
  - exists (x :: d). unfold trim_inv. cbn [fst snd].
    split_and!; [by rewrite E, without_cons|done|done| |].
    + rewrite <- P. cbn [app]. by rewrite (Permutation_middle d post x).
    + intros y z Hy [->|Hz]%elem_of_cons; [|by apply HD].
      assert (N : y <> x) by congruence.
      assert (Vy : y ∈ values m) by (apply V; rewrite elem_of_app; by left).
      destruct (samplePointLess y x) eqn:Ey; [done|].
      pose proof (heap_top_worst h w y H Hw Hy) as Hwy.
      pose proof (not_less_trans w y x Hwy Ey) as C.
      rewrite (less_total x w) in C; [done| |].
      * apply (values_distinct m); [done..|congruence].
      * done.
Qed.

Lemma trim_fold_inv (m : SampleSet) (post d : list SamplePoint)
    (st : SampleSet * list SamplePoint) :
  key_ok m -> trim_inv m post d st -> exists d', trim_inv m [] d' (foldl trim_step st post).
Proof.
  intros K. revert d st. induction post as [|x post IH]; intros d st I; [by exists d|].
  destruct (trim_step_inv m x post d st K I) as [d' I']. by apply (IH d').
Qed.

Section Trim.
Context (iter : SampleSet -> list SamplePoint).
Hypothesis iter_perm : forall m, iter m ≡ₚ values m.

Lemma trim_partition (m : SampleSet) : key_ok m -> (MaxSamplePoints < size m)%nat ->
  exists h d, split_at_max m h d /\ trim iter m = without m d.
Proof.
  intros K S. unfold trim. rewrite (proj2 (Nat.leb_gt _ _)) by done.
  assert (length (iter m) = size m) as Li by (by rewrite iter_perm, values_length).
  set (l := iter m) in *.
  set (h0 := take MaxSamplePoints l).
  assert (length h0 = MaxSamplePoints) as L0 by (subst h0; rewrite length_take; lia).
  destruct (heapify_ok (length h0 / 2) h0 (heap_from_half h0)) as [Hh Ph].
  destruct (trim_fold_inv m (drop MaxSamplePoints l) []
    (m, heapify (length h0 / 2) h0) K) as [d (E & _ & L & P & HD)].
  - unfold trim_inv. cbn [fst snd]. split_and!.
    + by rewrite without_nil.
    + done.
    + by rewrite (Permutation_length Ph).
    + cbn [app]. rewrite Ph. subst h0. rewrite take_drop. apply iter_perm.
    + by intros x y _ ?%elem_of_nil.
  - exists (foldl trim_step (m, heapify (length h0 / 2) h0) (drop MaxSamplePoints l)).2, d.
    rewrite app_nil_r in P. done.
Qed.

(** The heap-based trim is the reference definition. *)
Lemma trim_keep (m : SampleSet) : key_ok m -> trim iter m = keep m.
Proof.
  intros K. destruct (decide (size m <= MaxSamplePoints)%nat) as [S|S].
  - unfold trim. rewrite (proj2 (Nat.leb_le _ _)) by done. by rewrite keep_small.
  - destruct (trim_partition m K) as (h & d & SP & ->); [lia|].
    exact (split_without m h d K SP).
Qed.
End Trim.

(** Any set larger than the bound splits; the code's own trim shows how. *)
Lemma split_exists (m : SampleSet) : key_ok m -> (MaxSamplePoints < size m)%nat ->
  exists h d, split_at_max m h d.
Proof.
  intros K S. destruct (trim_partition values (fun m => Permutation_refl (values m)) m K S) as (h & d & H & _).
  by exists h, d.
Qed.

Lemma keep_values (m : SampleSet) (h d : list SamplePoint) : key_ok m -> split_at_max m h d ->
  values (keep m) ≡ₚ h.
Proof.
  intros K S. pose proof (keep_key_ok m K) as Kk. apply list.NoDup_Permutation.
  - by apply values_NoDup.
  - destruct S as (P & _ & _). assert (NoDup (h ++ d)) as ND by (rewrite P; by apply values_NoDup).
    by apply NoDup_app in ND as (? & _).
  - intros p. rewrite elem_of_values_key by done. by apply split_keep with d.
Qed.

Lemma keep_size (m : SampleSet) : key_ok m -> size (keep m) = Nat.min MaxSamplePoints (size m).
Proof.
  intros K. destruct (decide (size m <= MaxSamplePoints)%nat).
  - rewrite keep_small by done. lia.
  - destruct (split_exists m K) as (h & d & S); [lia|].
    rewrite <- values_length, (keep_values m h d K S). destruct S as (_ & -> & _). lia.
Qed.

(** ** Merging *)

(** No event has two different points. *)
Definition agree (a b : SampleSet) : Prop :=
  forall k p q, a !! k = Some p -> b !! k = Some q -> p = q.

Lemma agree_union_l (a b c : SampleSet) : agree a c -> agree b c -> agree (a ∪ b) c.
Proof.
  intros H1 H2 k p q [H|[_ H]]%lookup_union_Some_raw Hc; [by eapply H1|by eapply H2].
Qed.

Lemma agree_sym (a b : SampleSet) : agree a b -> agree b a.
Proof. intros H k p q Hp Hq. symmetry. by eapply H. Qed.

Lemma agree_comm (a b : SampleSet) : agree a b -> a ∪ b = b ∪ a.
Proof.
  intros H. apply map_eq. intros k. rewrite !lookup_union.
  destruct (a !! k) as [p|] eqn:Ea, (b !! k) as [q|] eqn:Eb; simpl; try done.
  by rewrite (H _ _ _ Ea Eb).
Qed.

Lemma key_ok_union (a b : SampleSet) : key_ok a -> key_ok b -> key_ok (a ∪ b).
Proof. intros Ka Kb k p [H|[_ H]]%lookup_union_Some_raw; auto. Qed.

Lemma keep_subseteq (m : SampleSet) : keep m ⊆ m.
Proof. apply map_filter_subseteq. Qed.

Lemma agree_keep (a b : SampleSet) : agree a b -> agree (keep a) b.
Proof. intros H k p q [Hp _]%map_lookup_filter_Some. by eapply H. Qed.

Lemma addPoint_spec (m : SampleSet) (p : SamplePoint) :
  match m !! EventID p with
  | Some q => if decide (q = p) then addPoint m p = Ok m
              else addPoint m p = Err (ConflictingSample (EventID p))
  | None => addPoint m p = Ok (<[EventID p := p]> m)
  end.
Proof.
  unfold addPoint. destruct (m !! EventID p) as [q|]; [|done].
  destruct (decide (q = p)) as [->|N].
  - by rewrite bool_decide_true.
  - by rewrite bool_decide_false.
Qed.

(** Adding the points of a list that is one point per event. *)
Lemma addPoints_spec (l : list SamplePoint) (m : SampleSet) :
  NoDup (map EventID l) ->
  ((forall p q, p ∈ l -> m !! EventID p = Some q -> q = p) ->
   addPoints m l = Ok (m ∪ list_to_map (map (fun p => (EventID p, p)) l))) /\
  ((exists p q, p ∈ l /\ m !! EventID p = Some q /\ q <> p) ->
   exists e, addPoints m l = Err (ConflictingSample e)).
Proof.
  revert m. induction l as [|p l IH]; intros m ND.
  - split; [intros _; simpl; by rewrite (right_id_L ∅ (∪))|].
    by intros (p & q & ?%elem_of_nil & _).
  - cbn [map] in ND. apply NoDup_cons in ND as [NI ND]. cbn [addPoints].
    assert (forall q, q ∈ l -> EventID q <> EventID p) as Ne.
    { intros q Hq E. apply NI. rewrite <- E. by apply list_elem_of_fmap_2. }
    pose proof (addPoint_spec m p) as A. split.
    + intros HA.
      assert (exists m', addPoint m p = Ok m' /\ (forall k, k <> EventID p -> m' !! k = m !! k) /\
        m' !! EventID p = Some p) as (m' & -> & Lo & Lp).
      { destruct (m !! EventID p) as [q|] eqn:Em.
        - assert (q = p) as -> by (apply (HA p q); [left|done]).
          rewrite decide_True in A by done. exists m. by split_and!.
        - exists (<[EventID p := p]> m). split_and!; [done| |by rewrite lookup_insert_eq].
          intros k N. by rewrite lookup_insert_ne. }
      cbn [result_bind]. destruct (IH m' ND) as [-> _].
      * f_equal. apply map_eq. intros k. rewrite !lookup_union. cbn [map list_to_map foldr].
        cbn [fst snd]. destruct (decide (k = EventID p)) as [->|N].
        { rewrite lookup_insert_eq, Lp.
          assert (m !! EventID p = Some p \/ m !! EventID p = None) as [-> | ->].
          { destruct (m !! EventID p) as [q|] eqn:Em; [left|by right].
            f_equal. apply (HA p q); [left|done]. }
          - by destruct (list_to_map _ !! _).
          - by destruct (list_to_map _ !! _). }
        by rewrite lookup_insert_ne, Lo by done.
      * intros x q Hx. rewrite Lo by (by apply Ne). apply HA. by right.
    + intros (x & q & [->|Hx]%elem_of_cons & Hq & Nq).
      * rewrite Hq in A. rewrite decide_False in A by done. rewrite A. by eexists.
      * assert (A' : (exists e, addPoint m p = Err (ConflictingSample e)) \/
          exists m', addPoint m p = Ok m' /\ m' !! EventID x = Some q).
        { destruct (m !! EventID p) as [y|] eqn:Em.
          - destruct (decide (y = p)) as [->|]; [right; by exists m|left; by eexists].
          - right. exists (<[EventID p := p]> m). split; [done|].
            by rewrite lookup_insert_ne by (intros E; by apply (Ne x Hx)). }
        destruct A' as [[e ->]|(m' & -> & Hq')]; [by eexists|]. cbn [result_bind].
        apply (IH m' ND). by exists x, q.
Qed.

Lemma points_to_map (m : SampleSet) (l : list SamplePoint) : key_ok m -> l ≡ₚ values m ->
  list_to_map (map (fun p => (EventID p, p)) l) = m.
Proof.
  intros K P. transitivity (list_to_map (map_to_list m) : SampleSet); [|apply list_to_map_to_list].
  apply list_to_map_proper.
  - rewrite map_map. cbn [fst]. rewrite P. by apply values_NoDup_ids.
  - rewrite P. unfold values. rewrite map_map. rewrite (map_ext_in _ id); [by rewrite map_id|].
    intros [k p] H. apply list_elem_of_In, elem_of_map_to_list in H. cbn. by rewrite (K _ _ H).
Qed.

Section Merging.
Context (iter : SampleSet -> list SamplePoint).
Hypothesis iter_perm : forall m, iter m ≡ₚ values m.

Lemma merge_agree (a b : SampleSet) : key_ok a -> key_ok b -> agree a b ->
  SampleMerge iter a b = Ok (keep (a ∪ b)).
Proof.
  intros Ka Kb A. unfold SampleMerge.
  destruct (addPoints_spec (iter b) a) as [H _].
  { rewrite iter_perm. by apply values_NoDup_ids. }
  rewrite H.
  - cbn [result_bind]. rewrite (points_to_map b) by (done || apply iter_perm).
    f_equal. apply trim_keep; [exact iter_perm|by apply key_ok_union].
  - intros p q Hp Hq. rewrite iter_perm in Hp. apply elem_of_values_key in Hp; [|done].
    by apply (A (EventID p)).
Qed.

Lemma merge_conflict (a b : SampleSet) : key_ok b -> ~ agree a b ->
  exists e, SampleMerge iter a b = Err (ConflictingSample e).
Proof.
  intros Kb NA. unfold SampleMerge.
  destruct (addPoints_spec (iter b) a) as [H1 H2].
  { rewrite iter_perm. by apply values_NoDup_ids. }
  destruct (decide (Exists (fun p => a !! EventID p <> None /\ a !! EventID p <> Some p) (iter b)))
    as [E|E].
  - destruct H2 as [e ->]; [|by exists e].
    apply Exists_exists in E as (p & Hp & N1 & N2). destruct (a !! EventID p) as [q|] eqn:Eq; [|done].
    exists p, q. split_and!; [done|done|congruence].
  - destruct NA. intros k p q Hp Hq. pose proof (Kb _ _ Hq) as <-.
    destruct (decide (p = q)) as [|N]; [done|]. destruct E. apply Exists_exists. exists q.
    split; [|split; congruence]. by rewrite iter_perm, elem_of_values_key.
Qed.
End Merging.

(** ** Trimming early loses nothing *)

Lemma rank_mono (a b : SampleSet) (p : SamplePoint) : key_ok a -> a ⊆ b ->
  (rank a p <= rank b p)%nat.
Proof.
  intros K S. unfold rank. apply submseteq_length, NoDup_submseteq.
  - by apply NoDup_filter, values_NoDup.
  - intros q. rewrite !list_elem_of_filter. intros [L (k & Hk)%elem_of_values].
    split; [done|]. apply elem_of_values. exists k. by eapply lookup_weaken.
Qed.

(** A point outside of [keep a] is beaten by the whole of a full [keep a]. *)
Lemma dropped_beaten (a : SampleSet) (q : SamplePoint) : key_ok a -> q ∈ values a ->
  keep a !! EventID q = None ->
  (MaxSamplePoints <= rank (keep a) q)%nat /\
  forall p, samplePointLess q p = true -> (MaxSamplePoints <= rank (keep a) p)%nat.
Proof.
  intros K Hq Hn.
  assert (MaxSamplePoints < size a)%nat as S.
  { destruct (decide (size a <= MaxSamplePoints)%nat); [|lia].
    rewrite keep_small in Hn by done. apply elem_of_values_key in Hq; [|done]. congruence. }
  destruct (split_exists a K S) as (h & d & SP). pose proof SP as (P & L & HD).
  pose proof (keep_values a h d K SP) as KV.
  assert (q ∈ d) as Hd.
  { rewrite <- P in Hq. apply elem_of_app in Hq as [Hh|Hd]; [|done].
    apply (split_keep a h d q K SP) in Hh. congruence. }
  assert (forall p, (forall x, x ∈ h -> samplePointLess x p = true) ->
    (MaxSamplePoints <= rank (keep a) p)%nat) as R.
  { intros p Hp. unfold rank. rewrite KV, filter_all by done. lia. }
  split.
  - apply R. intros x Hx. by apply HD.
  - intros p Hp. apply R. intros x Hx. apply (less_trans _ q); [by apply HD|done].
Qed.

(** Trimming a part first does not change what the whole keeps. *)
Lemma keep_keep_union (a b : SampleSet) : key_ok a -> key_ok b -> agree a b ->
  keep (keep a ∪ b) = keep (a ∪ b).
Proof.
  intros Ka Kb A.
  assert (keep a ∪ b ⊆ a ∪ b) as Sub.
  { apply map_subseteq_spec. intros k p.
    rewrite !lookup_union_Some_raw. intros [H|[_ H]].
    - left. by apply (lookup_weaken _ _ _ _ H (keep_subseteq a)).
    - destruct (a !! k) as [q|] eqn:E; [left|by right].
      by rewrite (A _ _ _ E H). }
  assert (Ku : key_ok (a ∪ b)) by (by apply key_ok_union).
  assert (Kku : key_ok (keep a ∪ b)) by (by apply key_ok_union; [apply keep_key_ok|]).
  apply map_eq. intros k. apply option_eq. intros p. unfold keep at 1 3.
  rewrite !map_lookup_filter_Some. simpl. split.
  - intros [Hp R]. split; [by eapply lookup_weaken|].
    destruct (decide (rank (a ∪ b) p < MaxSamplePoints)%nat) as [|NR]; [done|exfalso].
    assert (exists q, q ∈ values (a ∪ b) /\ samplePointLess q p = true /\
      q ∉ values (keep a ∪ b)) as (q & Vq & Lq & Nq).
    { destruct (decide (Exists (fun q => samplePointLess q p = true /\ q ∉ values (keep a ∪ b))
        (values (a ∪ b)))) as [E|E].
      - apply Exists_exists in E as (q & ? & ? & ?). by exists q.
      - exfalso. apply NR. eapply Nat.le_lt_trans; [|exact R].
        unfold rank. apply submseteq_length, NoDup_submseteq.
        { by apply NoDup_filter, values_NoDup. }
        intros q. rewrite !list_elem_of_filter. intros [L V]. split; [done|].
        rewrite <- Forall_Exists_neg in E. rewrite Forall_forall in E.
        specialize (E q V). cbv beta in E.
        destruct (decide (q ∈ values (keep a ∪ b))); [done|]. destruct E. by split. }
    rewrite elem_of_values_key in Vq, Nq by done.
    apply lookup_union_Some_raw in Vq as [Vq|[_ Vq]].
    + assert (keep a !! EventID q = None) as Hn.
      { destruct (keep a !! EventID q) as [q'|] eqn:E; [|done]. destruct Nq.
        apply lookup_union_Some_raw. left. rewrite E.
        pose proof (lookup_weaken _ _ _ _ E (keep_subseteq a)). congruence. }
      assert (q ∈ values a) as Va by (by apply elem_of_values_key).
      destruct (dropped_beaten a q Ka Va Hn) as [_ D]. specialize (D p Lq).
      pose proof (rank_mono (keep a) (keep a ∪ b) p (keep_key_ok a Ka) (map_union_subseteq_l _ _)).
      lia.
    + destruct Nq. apply lookup_union_Some_raw.
      destruct (keep a !! EventID q) as [q'|] eqn:E; [left|by right].
      f_equal. eapply A; [|exact Vq]. by apply (lookup_weaken _ _ _ _ E (keep_subseteq a)).
  - intros [Hp R].
    assert (rank (keep a ∪ b) p < MaxSamplePoints)%nat as R'.
    { eapply Nat.le_lt_trans; [by apply (rank_mono (keep a ∪ b) (a ∪ b))|done]. }
    split; [|done]. apply lookup_union_Some_raw in Hp as [Hp|[Hn Hp]].
    + destruct (keep a !! k) as [q|] eqn:E.
      * apply lookup_union_Some_raw. left.
        pose proof (lookup_weaken _ _ _ _ E (keep_subseteq a)). congruence.
      * exfalso. pose proof (Ka _ _ Hp) as <-.
        assert (p ∈ values a) as Va by (by apply elem_of_values_key).
        destruct (dropped_beaten a p Ka Va E) as [D _].
        pose proof (rank_mono (keep a) (keep a ∪ b) p (keep_key_ok a Ka) (map_union_subseteq_l _ _)).
        lia.
    + apply lookup_union_Some_raw. right. split; [|done].
      destruct (keep a !! k) as [q|] eqn:E; [|done].
      pose proof (lookup_weaken _ _ _ _ E (keep_subseteq a)). congruence.
Qed.

(** Points beaten by the whole bound can be left out beforehand. *)
Lemma keep_drop (X Y : SampleSet) : key_ok X -> key_ok Y -> X ⊆ Y ->
  (forall k p, Y !! k = Some p -> X !! k = None -> (MaxSamplePoints <= rank X p)%nat) ->
  keep Y = keep X.
Proof.
  intros KX KY S HD. apply map_eq. intros k. apply option_eq. intros p. unfold keep.
  rewrite !map_lookup_filter_Some. simpl. split.
  - intros [Hp R]. pose proof (rank_mono X Y p KX S).
    destruct (X !! k) as [q|] eqn:E.
    + pose proof (lookup_weaken _ _ _ _ E S). split; [congruence|lia].
    + specialize (HD _ _ Hp E). lia.
  - intros [Hp R]. split; [by eapply lookup_weaken|].
    eapply Nat.le_lt_trans; [|exact R]. unfold rank at 1.
    apply submseteq_length, NoDup_submseteq.
    { by apply NoDup_filter, values_NoDup. }
    intros q. rewrite !list_elem_of_filter. intros [L (j & Hj)%elem_of_values].
    split; [done|]. apply elem_of_values. exists j.
    destruct (X !! j) as [q'|] eqn:E.
    + pose proof (lookup_weaken _ _ _ _ E S). congruence.
    + exfalso. specialize (HD _ _ Hj E).
      assert (rank X q <= rank X p)%nat; [|lia].
      unfold rank. apply submseteq_length, NoDup_submseteq.
      { by apply NoDup_filter, values_NoDup. }
      intros x. rewrite !list_elem_of_filter. intros [Lx ?]. split; [|done].
      by apply (less_trans _ q).
Qed.

(** ** Properties of merging *)

(** Adding the points of another set and trimming with the heap gives
    exactly the 1000 best points of the union (fewer when there are fewer),
    whatever the order in which the maps are iterated; sets that hold different
    points for one event are refused. *)
Theorem sample_merge_keeps_best (iter : SampleSet -> list SamplePoint) (a b : SampleSet) :
  (forall m, iter m ≡ₚ values m) -> key_ok a -> key_ok b ->
  (agree a b -> SampleMerge iter a b = Ok (keep (a ∪ b)) /\
     size (keep (a ∪ b)) = Nat.min MaxSamplePoints (size (a ∪ b))) /\
  (~ agree a b -> exists e, SampleMerge iter a b = Err (ConflictingSample e)).
Proof.
  intros I Ka Kb. split.
  - intros A. split; [by apply merge_agree|]. by apply keep_size, key_ok_union.
  - intros A. by apply merge_conflict.
Qed.

Definition demoPoint (e t l : Z) : SamplePoint := mkSamplePoint e (splitMix64 (wrapu64 e)) t l.
Definition demoSet (l : list SamplePoint) : SampleSet := insert_points ∅ l.

Lemma key_ok_insert (m : SampleSet) (p : SamplePoint) : key_ok m -> key_ok (<[EventID p := p]> m).
Proof.
  intros K k q. destruct (decide (k = EventID p)) as [->|N].
  - rewrite lookup_insert_eq. by intros [= ->].
  - rewrite lookup_insert_ne by done. apply K.
Qed.

Lemma demoSet_ok (l : list SamplePoint) : key_ok (demoSet l).
Proof.
  unfold demoSet, insert_points. assert (key_ok ∅) as K by (intros k p; by rewrite lookup_empty).
  revert K. generalize (∅ : SampleSet). induction l as [|p l IH]; intros m K; [done|].
  apply IH. by apply key_ok_insert.
Qed.

Lemma sample_merge_keeps_best_witness :
  (forall m, values m ≡ₚ values m) /\
  exists e, SampleMerge values (demoSet [demoPoint 1 5 9]) (demoSet [demoPoint 1 6 9]) =
    Err (ConflictingSample e).
Proof.
  split; [done|].
  apply (sample_merge_keeps_best values (demoSet [demoPoint 1 5 9]) (demoSet [demoPoint 1 6 9])).
  - done.
  - apply demoSet_ok.
  - apply demoSet_ok.
  - intros A. specialize (A 1 (demoPoint 1 5 9) (demoPoint 1 6 9) eq_refl eq_refl).
    assert (5 = 6) by exact (f_equal TTFTMS A). lia.
Defined.

(** The bounded set does not depend on how the rows were grouped: merging
    [a] with [b] and the trimmed result with [c] gives the best points of all
    three, as does merging [b] with [c] first, although each step forgets the
    points it drops. *)
Theorem sample_merge_assoc (iter : SampleSet -> list SamplePoint) (a b c : SampleSet) :
  (forall m, iter m ≡ₚ values m) -> key_ok a -> key_ok b -> key_ok c ->
  agree a b -> agree b c -> agree a c ->
  result_bind (SampleMerge iter a b) (fun ab => SampleMerge iter ab c) = Ok (keep (a ∪ b ∪ c)) /\
  result_bind (SampleMerge iter b c) (fun bc => SampleMerge iter a bc) = Ok (keep (a ∪ b ∪ c)).
Proof.
  intros I Ka Kb Kc Aab Abc Aac.
  rewrite !merge_agree by done. cbn [result_bind]. split.
  - rewrite merge_agree; [|done|by apply keep_key_ok, key_ok_union|done|].
    + rewrite keep_keep_union; [done|by apply key_ok_union|done|by apply agree_union_l].
    + apply agree_keep. by apply agree_union_l.
  - assert (agree (b ∪ c) a) as A by (apply agree_union_l; by apply agree_sym).
    rewrite merge_agree; [|done|done|by apply keep_key_ok, key_ok_union|].
    + rewrite agree_comm by (apply agree_sym, agree_keep; done).
      rewrite keep_keep_union; [|by apply key_ok_union|done|done].
      rewrite <- (agree_comm a) by (by apply agree_sym). by rewrite (assoc_L (∪)).
    + apply agree_sym. by apply agree_keep.
Qed.

Lemma sample_merge_assoc_witness :
  result_bind (SampleMerge values (demoSet [demoPoint 1 5 9]) (demoSet [demoPoint 2 5 9]))
    (fun ab => SampleMerge values ab (demoSet [demoPoint 3 5 9])) =
  Ok (keep (demoSet [demoPoint 1 5 9] ∪ demoSet [demoPoint 2 5 9] ∪ demoSet [demoPoint 3 5 9])).
Proof.
  assert (forall x y p q, x <> y -> EventID p = x -> EventID q = y ->
    agree (demoSet [p]) (demoSet [q])) as A.
  { intros x y p q N <- <- k u v. unfold demoSet, insert_points. cbn [foldl].
    rewrite !lookup_insert_Some, !lookup_empty.
    intros [[<- _]|[_ ?]] [[E _]|[_ ?]]; congruence. }
  apply (sample_merge_assoc values (demoSet [demoPoint 1 5 9]) (demoSet [demoPoint 2 5 9])
    (demoSet [demoPoint 3 5 9])); try apply demoSet_ok; [done|..].
  - by apply (A 1 2).
  - by apply (A 2 3).
  - by apply (A 1 3).
Defined.
