(* ===== verification/SampleQueryFacts.v ===== *)
(** The encoding of the sample set and the query merger: encodings read back,
    the strict reader yields ordered valid points, and the streaming merger with
    its persistent heap agrees with decoding a row and merging it. *)
From stdpp Require Import sorting.
From S2P Require Import Prelude Uvarint Sketch SampleSet SampleHeapFacts.

Local Open Scope list_scope.
Local Open Scope Z_scope.

(** ** Valid points *)

Record point_ok (p : SamplePoint) : Prop := {
  pt_id : 0 < EventID p <= int64_max;
  pt_priority : Priority p = splitMix64 (wrapu64 (EventID p));
  pt_ttft : 0 < TTFTMS p <= int64_max;
  pt_latency : 0 < LatencyMS p <= int64_max;
}.

Definition samples_ok (m : SampleSet) : Prop :=
  key_ok m /\ forall k p, m !! k = Some p -> point_ok p.

#[local] Opaque splitMix64.

Lemma lxor_uint64 (a b : Z) : in_uint64 a -> in_uint64 b -> in_uint64 (Z.lxor a b).
Proof.
  unfold64. intros Ha Hb.
  assert (forall z, 0 <= z <= 2 ^ 64 - 1 <-> Z.land z (Z.ones 64) = z) as L.
  { intros z. rewrite Z.land_ones by lia. split.
    - intros. apply Z.mod_small. lia.
    - intros <-. pose proof (Z.mod_pos_bound z (2 ^ 64)). lia. }
  apply L. apply L in Ha, Hb. rewrite <- Ha, <- Hb.
  apply Z.bits_inj'. intros n Hn. rewrite !Z.land_spec, !Z.lxor_spec, !Z.land_spec.
  destruct (Z.testbit a n), (Z.testbit b n), (Z.testbit (Z.ones 64) n); done.
Qed.

Lemma shiftr_uint64 (a n : Z) : 0 <= n -> in_uint64 a -> in_uint64 (Z.shiftr a n).
Proof.
  unfold64. intros Hn H. rewrite Z.shiftr_div_pow2 by done.
  pose proof (Z.pow_pos_nonneg 2 n ltac:(lia) Hn).
  split; [apply Z.div_pos; lia|]. apply Z.div_le_upper_bound; [lia|]. nia.
Qed.

Transparent splitMix64.

Lemma splitMix64_range (v : Z) : in_uint64 (splitMix64 v).
Proof.
  unfold splitMix64. apply lxor_uint64; [apply wrapu64_range|].
  apply shiftr_uint64; [done|apply wrapu64_range].
Qed.

#[local] Opaque splitMix64.

(** ** Round trip *)

Lemma read_point_encode (p : SamplePoint) (r : list Z) : point_ok p ->
  read_point (encode_point p ++ r) = Ok (p, r).
Proof.
  intros [I P T L]. unfold read_point, encode_point. rewrite <- !app_assoc.
  rewrite !(wrapu64_id (TTFTMS p)), !(wrapu64_id (LatencyMS p)) by (unfold64; lia).
  rewrite (wrapu64_id (EventID p)) by (unfold64; lia).
  rewrite readPositiveInt64_put by done. cbn [result_bind].
  rewrite readUvarint_put by (rewrite P; apply splitMix64_range). cbn [result_bind].
  rewrite readPositiveInt64_put by done. cbn [result_bind].
  rewrite readPositiveInt64_put by done. cbn [result_bind].
  rewrite P, Z.eqb_refl. cbn [negb]. rewrite <- P. by destruct p.
Qed.

Definition strictly (l : list SamplePoint) : Prop :=
  StronglySorted (fun p q => samplePointLess p q = true) l.

Lemma walk_points_encode (l : list SamplePoint) (prev : option SamplePoint) :
  Forall point_ok l -> strictly l ->
  match prev with Some p => forall q, q ∈ l -> samplePointLess p q = true | None => True end ->
  walk_points (length l) prev (concat (map encode_point l)) = Ok (l, []).
Proof.
  revert prev. induction l as [|p l IH]; intros prev F SS HP; [done|].
  apply Forall_cons in F as [Fp F]. apply StronglySorted_inv in SS as [SS Fs].
  rewrite Forall_forall in Fs.
  cbn [length walk_points map concat]. rewrite read_point_encode by done. cbn [result_bind].
  assert (match prev with Some q => negb (samplePointLess q p) | None => false end = false) as ->.
  { destruct prev as [q|]; [|done]. by rewrite (HP p ltac:(left)). }
  rewrite (IH (Some p)); [done|done|done|]. intros q Hq. by apply Fs.
Qed.

Lemma strictly_ids (l : list SamplePoint) : Forall point_ok l -> strictly l -> NoDup (map EventID l).
Proof.
  intros F SS. induction SS as [|p l SS IH Fs]; [constructor|].
  apply Forall_cons in F as [Fp F]. cbn [map]. constructor; [|by apply IH].
  intros (q & E & Hq)%list_elem_of_fmap_1. rewrite Forall_forall in Fs, F.
  specialize (Fs q Hq). specialize (F q Hq). cbv beta in Fs. apply less_spec in Fs.
  rewrite (pt_priority _ Fp), (pt_priority _ F), E in Fs. lia.
Qed.

Lemma insert_points_map (l : list SamplePoint) (m : SampleSet) : NoDup (map EventID l) ->
  insert_points m l = list_to_map (map (fun p => (EventID p, p)) l) ∪ m.
Proof.
  revert m. induction l as [|p l IH]; intros m ND;
    [change (m = ∅ ∪ m); by rewrite (left_id_L ∅ (∪))|].
  cbn [map] in ND. apply NoDup_cons in ND as [NI ND].
  unfold insert_points in *. cbn [foldl]. rewrite IH by done.
  cbn [map list_to_map foldr fst snd]. rewrite <- insert_union_l, insert_union_r; [done|].
  apply not_elem_of_list_to_map_1. rewrite <- list_fmap_compose. exact NI.
Qed.

#[export] Instance pointNotAfter_total : Total pointNotAfter.
Proof.
  intros p q. unfold pointNotAfter. destruct (samplePointLess q p) eqn:E; [right|by left].
  by apply less_asym.
Qed.

#[export] Instance pointNotAfter_trans : Transitive pointNotAfter.
Proof. intros p q r H1 H2. unfold pointNotAfter in *. by apply (not_less_trans r q p). Qed.

Section Codec.
Context (iter : SampleSet -> list SamplePoint).
Hypothesis iter_perm : forall m, iter m ≡ₚ values m.

Lemma Points_perm (m : SampleSet) : Points iter m ≡ₚ values m.
Proof. unfold Points. rewrite merge_sort_Permutation. apply iter_perm. Qed.

Lemma Points_strictly (m : SampleSet) : key_ok m -> strictly (Points iter m).
Proof.
  intros K.
  assert (NoDup (map EventID (Points iter m))) as ND.
  { rewrite Points_perm. by apply values_NoDup_ids. }
  assert (StronglySorted pointNotAfter (Points iter m)) as SS by apply (StronglySorted_merge_sort _).
  unfold strictly. induction SS as [|p l SS IH F]; [constructor|].
  cbn [map] in ND. apply NoDup_cons in ND as [NI ND]. constructor; [by apply IH|].
  rewrite Forall_forall in *. intros q Hq. specialize (F q Hq). unfold pointNotAfter in F.
  apply (less_total q p); [|done]. intros E. apply NI. rewrite <- E. by apply list_elem_of_fmap_2.
Qed.

Lemma samples_round_trip (m : SampleSet) : samples_ok m -> (size m <= MaxSamplePoints)%nat ->
  exists encoded, SampleMarshalBinary iter m = Ok encoded /\ UnmarshalSampleSet encoded = Ok m.
Proof.
  intros [K V] S. unfold SampleMarshalBinary.
  pose proof (Points_perm m) as P.
  assert (length (Points iter m) = size m) as L by (by rewrite P, values_length).
  rewrite L, (proj2 (Nat.ltb_ge _ _)) by done. eexists. split; [reflexivity|].
  unfold UnmarshalSampleSet, walkSampleSet, AppendUvarint. cbn [app].
  replace (negb (FormatVersion =? FormatVersion)) with false by done.
  pose proof max_encoded as ME. unfold MaxEncodedSamplePoints in *.
  rewrite readUvarint_put by (unfold64; lia). cbn [result_bind].
  rewrite (proj2 (Z.ltb_ge _ _)) by lia. rewrite Nat2Z.id, <- L.
  rewrite walk_points_encode; [|..|done].
  - cbn [result_bind]. unfold NewSampleSet. f_equal.
    rewrite insert_points_map.
    + rewrite (points_to_map m) by done. apply (right_id_L ∅ (∪)).
    + rewrite P. by apply values_NoDup_ids.
  - rewrite Forall_forall. intros p. rewrite P. intros [k H]%elem_of_values. by apply (V k).
  - by apply Points_strictly.
Qed.
End Codec.

(** A bounded sample set survives its encoding, whatever order its map was
    iterated in: encoding succeeds and the strict decoder gives the set back. *)
Theorem sample_set_round_trip (iter : SampleSet -> list SamplePoint) (m : SampleSet) :
  (forall m, iter m ≡ₚ values m) -> samples_ok m -> (size m <= MaxSamplePoints)%nat ->
  exists encoded, SampleMarshalBinary iter m = Ok encoded /\ UnmarshalSampleSet encoded = Ok m.
Proof. intros I. by apply samples_round_trip. Qed.

Lemma demo_samples_ok (e t l : Z) :
  0 < e <= int64_max -> 0 < t <= int64_max -> 0 < l <= int64_max ->
  samples_ok (demoSet [demoPoint e t l]).
Proof.
  intros He Ht Hl. split; [apply demoSet_ok|].
  intros k p. unfold demoSet, insert_points. cbn [foldl].
  rewrite lookup_insert_Some, lookup_empty. intros [[_ <-]|[_ ?]]; [|done]. by split.
Qed.

Lemma sample_set_round_trip_witness :
  exists encoded, SampleMarshalBinary values (demoSet [demoPoint 7 120 3000]) = Ok encoded /\
  UnmarshalSampleSet encoded = Ok (demoSet [demoPoint 7 120 3000]).
Proof.
  apply sample_set_round_trip.
  - done.
  - apply demo_samples_ok; unfold64; lia.
  - unfold demoSet, insert_points. cbn [foldl]. rewrite map_size_insert_None, map_size_empty by done.
    apply max_pos.
Defined.

(** ** Strictness of the reader *)

Lemma readPositive_Ok (enc : list Z) (field : string) (v : Z) (rest : list Z) :
  readPositiveInt64 enc field = Ok (v, rest) -> 0 < v <= int64_max.
Proof.
  unfold readPositiveInt64. destruct (readUvarint enc field) as [[x r]|] eqn:E; [|done].
  cbn [result_bind]. destruct (_ || _) eqn:C; [done|]. intros [= <- <-].
  apply readUvarint_Ok in E as [R _]. bool_split. unfold64. lia.
Qed.

Lemma read_point_Ok (enc rest : list Z) (p : SamplePoint) :
  read_point enc = Ok (p, rest) -> point_ok p.
Proof.
  unfold read_point.
  destruct (readPositiveInt64 enc _) as [[e r1]|] eqn:E1; [|done]. cbn [result_bind].
  destruct (readUvarint r1 _) as [[pr r2]|] eqn:E2; [|done]. cbn [result_bind].
  destruct (readPositiveInt64 r2 _) as [[t r3]|] eqn:E3; [|done]. cbn [result_bind].
  destruct (readPositiveInt64 r3 _) as [[l r4]|] eqn:E4; [|done]. cbn [result_bind].
  destruct (negb _) eqn:C; [done|]. intros [= <- <-]. bool_split.
  split; simpl; [by eapply readPositive_Ok|done|by eapply readPositive_Ok|by eapply readPositive_Ok].
Qed.

Lemma walk_points_Ok (n : nat) (prev : option SamplePoint) (enc rest : list Z) (l : list SamplePoint) :
  walk_points n prev enc = Ok (l, rest) ->
  length l = n /\ Forall point_ok l /\ strictly l /\
  match prev with Some p => forall q, q ∈ l -> samplePointLess p q = true | None => True end.
Proof.
  revert prev enc l. induction n as [|n IH]; intros prev enc l; cbn [walk_points].
  - intros [= <- <-]. split_and!; [done|done|constructor|].
    destruct prev; [|done]. by intros q ?%elem_of_nil.
  - destruct (read_point enc) as [[p r]|] eqn:E; [|done]. cbn [result_bind].
    destruct (match prev with Some q => _ | None => false end) eqn:C; [done|].
    destruct (walk_points n (Some p) r) as [[l' r']|] eqn:W; [|done]. cbn [result_bind].
    intros [= <- <-]. apply IH in W as (L & F & SS & H). apply read_point_Ok in E.
    split_and!; [simpl; by rewrite L|by constructor| |].
    + constructor; [done|]. by apply Forall_forall.
    + destruct prev as [q|]; [|done]. bool_split. intros x [->|Hx]%elem_of_cons; [done|].
      apply (less_trans _ p); [done|by apply H].
Qed.

Lemma walkSampleSet_Ok (enc : list Z) (l : list SamplePoint) :
  walkSampleSet enc = Ok l -> Forall point_ok l /\ strictly l.
Proof.
  unfold walkSampleSet. destruct enc as [|v rest]; [done|]. destruct (negb _); [done|].
  destruct (readUvarint rest _) as [[n r]|]; [|done]. cbn [result_bind].
  destruct (MaxEncodedSamplePoints <? n); [done|].
  destruct (walk_points _ None r) as [[l' r']|] eqn:E; [|done]. cbn [result_bind].
  destruct r'; [|done]. intros [= <-]. by apply walk_points_Ok in E as (_ & ? & ? & _).
Qed.

Lemma decoded_ok (l : list SamplePoint) : Forall point_ok l -> strictly l ->
  let o := insert_points ∅ l in
  samples_ok o /\ (forall p, o !! EventID p = Some p <-> p ∈ l) /\ values o ≡ₚ l.
Proof.
  intros F SS o. pose proof (strictly_ids l F SS) as ND.
  assert (o = list_to_map (map (fun p => (EventID p, p)) l)) as Eo.
  { subst o. rewrite insert_points_map by done. apply (right_id_L ∅ (∪)). }
  assert (NoDup (map fst (map (fun p => (EventID p, p)) l))) as ND' by (by rewrite map_map).
  assert (E : forall k p, o !! k = Some p <-> k = EventID p /\ p ∈ l).
  { intros k p. rewrite Eo, <- elem_of_list_to_map by done. split.
    - by intros (q & [= -> ->] & Hq)%list_elem_of_fmap_1.
    - intros [-> Hp]. by apply (list_elem_of_fmap_2 (fun p => (EventID p, p))). }
  assert (K : key_ok o) by (intros k p [-> _]%E; done).
  rewrite Forall_forall in F. split_and!.
  - split; [done|]. intros k p [_ Hp]%E. by apply F.
  - intros p. rewrite E. naive_solver.
  - apply list.NoDup_Permutation; [by apply values_NoDup|by eapply NoDup_fmap_1|].
    intros p. rewrite elem_of_values_key, E by done. naive_solver.
Qed.

(** ** The persistent heap *)

Record query_ok (st : QuerySampleState) : Prop := {
  q_samples : samples_ok (qsSamples st);
  q_heap : heap_from 0 (qsHeap st);
  q_points : qsHeap st ≡ₚ values (qsSamples st);
  q_bound : (length (qsHeap st) <= MaxSamplePoints)%nat;
}.

(** Every edge is ordered but the one above [k]; the parent of [k] is already
    ordered against the children of [k]. *)
Definition heap_above (k : nat) (h : list SamplePoint) : Prop :=
  (forall j c, c <> k -> child_of j c -> ordered h j c) /\
  (forall j c, child_of j k -> child_of k c -> ordered h j c).

Lemma sift_up_ok (f k : nat) (h : list SamplePoint) : (k < f)%nat -> (k < length h)%nat ->
  heap_above k h -> heap_from 0 (siftUpWorst f h k) /\ siftUpWorst f h k ≡ₚ h.
Proof.
  revert k h. induction f as [|f IH]; intros k h Hf Hk [H1 H2]; [lia|]. cbn [siftUpWorst].
  destruct (Nat.eqb_spec k 0) as [->|N].
  { split; [|done]. intros j c _ Hc. apply H1; [destruct Hc; lia|done]. }
  set (j := ((k - 1) / 2)%nat).
  assert (child_of j k /\ (j < k)%nat) as [Hjk Hlt].
  { subst j. unfold child_of. pose proof (Nat.div_mod (k - 1) 2).
    pose proof (Nat.mod_upper_bound (k - 1) 2). lia. }
  destruct (lookup_lt_is_Some_2 h j) as [p Hp]; [lia|].
  destruct (lookup_lt_is_Some_2 h k Hk) as [c Hc]. rewrite Hp, Hc.
  destruct (samplePointLess p c) eqn:L; cbn [negb].
  - fold (swap h j k p c).
    assert (heap_above j (swap h j k p c)) as HA.
    { pose proof (swap_lookup h j k) as SL. split.
      - intros a b Nb Hab x y. rewrite !SL by (done || lia).
        destruct (decide (b = j)) as [|_]; [done|].
        destruct (decide (a = j)) as [->|Naj].
        + intros [= <-]. destruct (decide (b = k)) as [->|Nbk].
          * intros [= <-]. by apply less_asym.
          * intros Hy. apply (not_less_trans _ p); [by apply less_asym|].
            by apply (H1 j b Nbk Hab p y).
        + destruct (decide (b = k)) as [->|Nbk]; [destruct Hab, Hjk; lia|].
          destruct (decide (a = k)) as [->|Nak].
          * intros [= <-] Hy. by apply (H2 j b Hjk Hab p y).
          * intros Hx Hy. by apply (H1 a b Nbk Hab x y).
      - intros a b Haj Hjb x y. rewrite !SL by (done || lia).
        destruct (decide (a = j)) as [->|_]; [destruct Haj; lia|].
        destruct (decide (a = k)) as [->|_]; [destruct Haj, Hjk; lia|].
        destruct (decide (b = j)) as [->|_]; [destruct Hjb; lia|]. intros Hx.
        assert (Nj : j <> k) by lia.
        pose proof (H1 a j Nj Haj x p Hx Hp) as Lxp.
        destruct (decide (b = k)) as [->|Nbk].
        + by intros [= <-].
        + intros Hy. apply (not_less_trans _ p); [done|]. by apply (H1 j b Nbk Hjb p y). }
    destruct (IH j (swap h j k p c)) as [Hh P]; [lia|rewrite swap_length; lia|done|].
    split; [done|]. rewrite P. by apply swap_perm.
  - split; [|done]. intros a b _ Hab x y Hx Hy. destruct (decide (b = k)) as [->|Nb].
    + assert (a = j) as -> by (destruct Hab, Hjk; lia). congruence.
    + by apply (H1 a b Nb Hab x y).
Qed.

Lemma append_heap_above (h : list SamplePoint) (p : SamplePoint) :
  heap_from 0 h -> heap_above (length h) (h ++ [p]).
Proof.
  intros H. split.
  - intros j c N Hc x y Hx Hy. pose proof (lookup_lt_Some _ _ _ Hy) as B.
    rewrite length_app in B. simpl in B.
    rewrite lookup_app_l in Hy by lia. rewrite lookup_app_l in Hx by (destruct Hc; lia).
    by apply (H j c ltac:(lia) Hc).
  - intros j c _ Hc x y _ Hy. apply lookup_lt_Some in Hy. rewrite length_app in Hy.
    simpl in Hy. destruct Hc; lia.
Qed.

Lemma samples_ok_insert (m : SampleSet) (p : SamplePoint) : samples_ok m -> point_ok p ->
  samples_ok (<[EventID p := p]> m).
Proof.
  intros [K V] Hp. split; [by apply key_ok_insert|]. intros k q.
  rewrite lookup_insert_Some. intros [[_ <-]|[_ H]]; [done|by eapply V].
Qed.

Lemma samples_ok_sub (m m' : SampleSet) : samples_ok m -> m' ⊆ m -> samples_ok m'.
Proof.
  intros [K V] S. split; intros k p H; pose proof (lookup_weaken _ _ _ _ H S); [by apply K|by eapply V].
Qed.

(** Inserting a fresh candidate keeps the best points with it, heap included. *)
Lemma insert_candidate_ok (st : QuerySampleState) (p : SamplePoint) :
  query_ok st -> point_ok p -> qsSamples st !! EventID p = None ->
  query_ok (insert_candidate st p) /\
  qsSamples (insert_candidate st p) = keep (<[EventID p := p]> (qsSamples st)).
Proof.
  intros Q Vp Hn. pose proof Q as [S H P B]. destruct st as [m h]. cbn [qsSamples qsHeap] in *.
  assert (S' : samples_ok (<[EventID p := p]> m)) by (by apply samples_ok_insert).
  pose proof (values_insert m _ p Hn) as PV.
  assert (L : length h = size m) by (by rewrite P, values_length).
  unfold insert_candidate. cbn [qsSamples qsHeap].
  destruct (length h <? MaxSamplePoints)%nat eqn:F.
  - apply Nat.ltb_lt in F.
    destruct (sift_up_ok (Datatypes.S (length h)) (length h) (h ++ [p])) as [H' P'].
    { lia. } { rewrite length_app. simpl. lia. } { by apply append_heap_above. }
    cbn [qsSamples qsHeap]. split; [|symmetry; apply keep_small; rewrite map_size_insert_None by done; lia].
    split; cbn [qsSamples qsHeap]; [done|done| |].
    + rewrite P', PV, Permutation_app_comm. cbn. by rewrite P.
    + rewrite P', length_app. simpl. lia.
  - apply Nat.ltb_ge in F.
    destruct (h !! 0%nat) as [w|] eqn:Hw.
    2:{ apply lookup_ge_None in Hw. pose proof max_pos. lia. }
    assert (Ww : w ∈ h) by (by eapply list_elem_of_lookup_2).
    assert (Vw : m !! EventID w = Some w).
    { apply elem_of_values_key; [apply S|]. by rewrite <- P. }
    assert (Ne : EventID p <> EventID w) by congruence.
    assert (Kp : p ∉ h).
    { rewrite P. rewrite elem_of_values_key by apply S. congruence. }
    destruct (samplePointLess p w) eqn:Lp; cbn [qsSamples qsHeap].
    + destruct (replace_top_ok h w p H Hw) as [H' P'].
      set (h' := siftDownWorst _ _ _) in *.
      assert (SP : split_at_max (<[EventID p := p]> m) h' [w]).
      { split_and!.
        - rewrite PV, Permutation_app_comm. cbn [app]. by rewrite P', P.
        - apply Permutation_length in P'. simpl in P'. lia.
        - intros x y Hx ->%list_elem_of_singleton.
          assert (x ∈ p :: h) as [->|Hxh]%elem_of_cons; [|done|].
          { rewrite <- P'. by right. }
          apply less_total; [|by apply (heap_top_worst h)]. intros E.
          assert (x = w) as ->.
          { rewrite P in Hxh. apply elem_of_values_key in Hxh; [|apply S]. rewrite <- E in Hxh. congruence. }
          assert (NoDup (w :: h')) as ND.
          { rewrite P'. apply NoDup_cons. split; [done|]. rewrite P. apply values_NoDup, S. }
          apply NoDup_cons in ND as [[] _]. done. }
      assert (E : <[EventID p := p]> (delete (EventID w) m) = keep (<[EventID p := p]> m)).
      { rewrite <- (split_without _ h' [w]); [|apply S'|done].
        rewrite <- without_cons, without_nil; [|apply S'|].
        - by rewrite delete_insert_ne.
        - apply elem_of_values_key; [apply S'|]. by rewrite lookup_insert_ne. }
      split; [|done]. split; cbn [qsSamples qsHeap].
      * rewrite E. apply (samples_ok_sub _ _ S'), keep_subseteq.
      * done.
      * rewrite E. symmetry. apply (keep_values _ h' [w]); [apply S'|done].
      * destruct SP as (_ & -> & _). lia.
    + split; [by split|]. cbn [qsSamples].
      assert (SP : split_at_max (<[EventID p := p]> m) h [p]).
      { split_and!.
        - rewrite PV, Permutation_app_comm. cbn [app]. by rewrite P.
        - lia.
        - intros x y Hx ->%list_elem_of_singleton.
          destruct (samplePointLess x p) eqn:Ex; [done|].
          pose proof (not_less_trans w x p (heap_top_worst h w x H Hw Hx) Ex) as C.
          rewrite (less_total p w Ne Lp) in C. done. }
      rewrite <- (split_without _ h [p]); [|apply S'|done].
      rewrite <- without_cons, without_nil; [|apply S'|].
      * by rewrite delete_insert_id.
      * apply elem_of_values_key; [apply S'|]. by rewrite lookup_insert_eq.
Qed.

(** ** A whole row *)

Definition by_id (l : list SamplePoint) : SampleSet :=
  list_to_map (map (fun p => (EventID p, p)) l).

Lemma by_id_None (l : list SamplePoint) (k : Z) : k ∉ map EventID l -> by_id l !! k = None.
Proof.
  intros H. apply not_elem_of_list_to_map_1. by rewrite <- list_fmap_compose.
Qed.

Lemma by_id_Some (l : list SamplePoint) (k : Z) (p : SamplePoint) :
  by_id l !! k = Some p -> EventID p = k /\ p ∈ l.
Proof.
  intros H. apply elem_of_list_to_map_2 in H.
  by apply list_elem_of_fmap_1 in H as (q & [= -> ->] & Hq).
Qed.

Lemma query_size (st : QuerySampleState) : query_ok st -> length (qsHeap st) = size (qsSamples st).
Proof. intros Q. by rewrite (q_points _ Q), values_length. Qed.

Lemma insert_candidates_ok (l : list SamplePoint) (st : QuerySampleState) :
  query_ok st -> Forall point_ok l -> NoDup (map EventID l) ->
  (forall p, p ∈ l -> qsSamples st !! EventID p = None) ->
  query_ok (foldl insert_candidate st l) /\
  qsSamples (foldl insert_candidate st l) = keep (qsSamples st ∪ by_id l).
Proof.
  revert st. induction l as [|p l IH]; intros st Q F ND HN.
  - split; [done|]. cbn. rewrite (right_id_L ∅ (∪)). symmetry. apply keep_small.
    rewrite <- query_size by done. apply Q.
  - apply Forall_cons in F as [Fp F]. cbn [map] in ND. apply NoDup_cons in ND as [NI ND].
    destruct (insert_candidate_ok st p Q Fp (HN p ltac:(left))) as [Q' E].
    cbn [foldl]. destruct (IH (insert_candidate st p) Q' F ND) as [Q'' E'].
    { intros x Hx. rewrite E. destruct (keep _ !! EventID x) as [y|] eqn:Ey; [|done].
      pose proof (lookup_weaken _ _ _ _ Ey (keep_subseteq _)) as Ey'.
      clear Ey. rename Ey' into Ey.
      rewrite lookup_insert_ne in Ey.
      - rewrite HN in Ey by (by right). done.
      - intros Ei. apply NI. rewrite Ei. by apply list_elem_of_fmap_2. }
    split; [done|]. rewrite E', E. rewrite keep_keep_union.
    + unfold by_id. cbn [map list_to_map foldr fst snd].
      rewrite <- insert_union_l, insert_union_r; [done|]. apply HN. left.
    + apply key_ok_insert, Q.
    + intros k x Hx. by apply by_id_Some in Hx as [? _].
    + intros k x y Hx Hy. apply by_id_Some in Hy as [<- Hy].
      rewrite lookup_insert_ne in Hx.
      * rewrite HN in Hx by (by right). done.
      * intros Ei. apply NI. rewrite Ei. by apply list_elem_of_fmap_2.
Qed.

(** A point that the row start admits: room left, or better than the worst. *)
Definition admitted (st : QuerySampleState) (p : SamplePoint) : bool :=
  (length (qsHeap st) <? MaxSamplePoints)%nat
  || match qsHeap st !! 0%nat with Some w => samplePointLess p w | None => false end.

Definition candidate (st : QuerySampleState) (p : SamplePoint) : Prop :=
  qsSamples st !! EventID p = None /\ admitted st p = true.

#[export] Instance candidate_dec st p : Decision (candidate st p).
Proof. unfold candidate. apply _. Defined.

(** Points behind a full heap can neither enter nor conflict. *)
Lemma skipped_fresh (st : QuerySampleState) (p w : SamplePoint) : query_ok st -> point_ok p ->
  qsHeap st !! 0%nat = Some w -> samplePointLess w p = true -> qsSamples st !! EventID p = None.
Proof.
  intros Q Vp Hw L. destruct (qsSamples st !! EventID p) as [q|] eqn:E; [exfalso|done].
  destruct (q_samples _ Q) as [K V]. pose proof (K _ _ E) as Eq. pose proof (V _ _ E) as Vq.
  assert (q ∈ qsHeap st) as Hq by (rewrite (q_points _ Q); apply elem_of_values; by exists (EventID p)).
  pose proof (heap_top_worst _ w q (q_heap _ Q) Hw Hq) as T.
  apply less_spec in L. apply less_false in T.
  rewrite (pt_priority _ Vp), (pt_priority _ Vq) in *. rewrite Eq in T. lia.
Qed.

Lemma query_visit_eq (st : QuerySampleState) (c : list SamplePoint) (e : option Z) (p : SamplePoint) :
  query_ok st -> point_ok p ->
  query_visit st (c, e) p =
  match qsSamples st !! EventID p with
  | Some q => if bool_decide (q = p) then (c, e)
              else (c, Some (match e with Some x => x | None => EventID p end))
  | None => if admitted st p then (c ++ [p], e) else (c, e)
  end.
Proof.
  intros Q Vp. unfold query_visit.
  destruct ((length (qsHeap st) =? MaxSamplePoints)%nat && _) eqn:S.
  - apply andb_true_iff in S as [F W]. apply Nat.eqb_eq in F.
    destruct (qsHeap st !! 0%nat) as [w|] eqn:Hw; [|done].
    rewrite (skipped_fresh st p w Q Vp Hw W). unfold admitted.
    rewrite (proj2 (Nat.ltb_ge _ _)), Hw by lia. cbn [orb]. by rewrite (less_asym w p).
  - unfold admitted. destruct (qsSamples st !! EventID p) as [q|]; [|done].
    destruct (bool_decide (q = p)); cbn [negb andb]; [done|].
    destruct e as [x|]; [by rewrite bool_decide_false|by rewrite bool_decide_true].
Qed.

Lemma query_visits_eq (st : QuerySampleState) (l c : list SamplePoint) (e : option Z) :
  query_ok st -> Forall point_ok l ->
  foldl (query_visit st) (c, e) l =
  (c ++ filter (candidate st) l,
   match e with
   | Some x => Some x
   | None => option_map EventID (head (filter (fun p =>
       qsSamples st !! EventID p <> None /\ qsSamples st !! EventID p <> Some p) l))
   end).
Proof.
  intros Q. revert c e. induction l as [|p l IH]; intros c e F.
  - cbn. rewrite app_nil_r. by destruct e.
  - apply Forall_cons in F as [Fp F]. cbn [foldl]. rewrite query_visit_eq by done.
    destruct (qsSamples st !! EventID p) as [q|] eqn:Eq.
    + rewrite (filter_cons_False (candidate st)) by (intros [? _]; congruence).
      case_bool_decide as D.
      * subst q. rewrite IH by done. f_equal. destruct e; [done|].
        rewrite filter_cons_False; [done|]. rewrite Eq. by intros [_ []].
      * rewrite IH by done. f_equal. destruct e; [done|].
        rewrite filter_cons_True; [done|]. rewrite Eq. split; congruence.
    + rewrite (filter_cons_False (fun p => _ /\ _)) by (rewrite Eq; by intros [[] _]).
      destruct (admitted st p) eqn:Ap; rewrite IH by done.
      * rewrite filter_cons_True by done. by rewrite <- app_assoc.
      * rewrite (filter_cons_False (candidate st)); [done|]. intros [_ ?]. congruence.
Qed.

(** The points a row visits without making them candidates change nothing. *)
Lemma row_keep (st : QuerySampleState) (l : list SamplePoint) :
  query_ok st -> Forall point_ok l -> strictly l -> agree (qsSamples st) (insert_points ∅ l) ->
  keep (qsSamples st ∪ insert_points ∅ l) =
  keep (qsSamples st ∪ by_id (filter (candidate st) l)).
Proof.
  intros Q F SS A. destruct (decoded_ok l F SS) as (So & Eo & _).
  set (o := insert_points ∅ l) in *.
  assert (KX : key_ok (qsSamples st ∪ by_id (filter (candidate st) l))).
  { apply key_ok_union; [apply (q_samples _ Q)|]. intros k x Hx. by apply by_id_Some in Hx as [? _]. }
  apply keep_drop.
  - done.
  - apply key_ok_union; [apply (q_samples _ Q)|apply So].
  - apply map_subseteq_spec. intros k p. rewrite !lookup_union_Some_raw.
    intros [H|[Hn H]]; [by left|right]. split; [done|].
    apply by_id_Some in H as [<- [_ Hp]%list_elem_of_filter]. by apply Eo.
  - intros k p [H|[Hn Hp]]%lookup_union_Some_raw HX.
    { apply lookup_union_None in HX as [HX _]. congruence. }
    pose proof (proj1 So _ _ Hp) as <-. apply Eo in Hp.
    rewrite Forall_forall in F. pose proof (F p Hp) as Vp.
    apply lookup_union_None in HX as [_ HX].
    assert (admitted st p = false) as Ad.
    { destruct (admitted st p) eqn:Ad; [exfalso|done].
      assert (by_id (filter (candidate st) l) !! EventID p = Some p) as C; [|congruence].
      apply elem_of_list_to_map.
      - rewrite <- list_fmap_compose.
        eapply (sublist_NoDup _ (map EventID l));
          [apply strictly_ids; [by apply Forall_forall|done]|apply (fmap_sublist EventID), sublist_filter].
      - apply (list_elem_of_fmap_2 (fun p => (EventID p, p))).
        by apply list_elem_of_filter. }
    unfold admitted in Ad. apply orb_false_iff in Ad as [Full Lw]. apply Nat.ltb_ge in Full.
    destruct (qsHeap st !! 0%nat) as [w|] eqn:Hw.
    2:{ apply lookup_ge_None in Hw. pose proof max_pos. lia. }
    etransitivity; [|apply (rank_mono (qsSamples st)); [apply (q_samples _ Q)|apply map_union_subseteq_l]].
    unfold rank. rewrite <- (q_points _ Q), filter_all; [done|].
    intros x Hx. destruct (samplePointLess x p) eqn:Ex; [done|exfalso].
    pose proof (not_less_trans w x p (heap_top_worst _ w x (q_heap _ Q) Hw Hx) Ex) as C.
    rewrite (less_total p w) in C; [done| |done].
    intros E. assert (w ∈ qsHeap st) as Hin by (by eapply list_elem_of_lookup_2).
    rewrite (q_points _ Q) in Hin.
    apply elem_of_values_key in Hin; [|apply (q_samples _ Q)]. rewrite <- E in Hin. congruence.
Qed.

(** The streaming query merger agrees with the plain path: on a merger in a
    consistent state, a row either fails as its decoding does, or conflicts
    exactly when merging the decoded set into the retained one would, leaving the
    merger as it was, or moves the merger to the very set that merging gives,
    its heap still on top of exactly this set. *)
Theorem query_samples_agree (iter : SampleSet -> list SamplePoint) (st : QuerySampleState)
    (encoded : list Z) :
  (forall m, iter m ≡ₚ values m) -> query_ok st ->
  match UnmarshalSampleSet encoded with
  | Err e => QueryMergeBinary (Some st) encoded = (Some st, Err (SamplesBadEncoding e))
  | Ok o =>
      match SampleMerge iter (qsSamples st) o with
      | Ok r => exists st', QueryMergeBinary (Some st) encoded =
                  (Some st', Ok (Z.of_nat (size o))) /\ qsSamples st' = r /\ query_ok st'
      | Err _ => exists e, QueryMergeBinary (Some st) encoded = (Some st, Err (ConflictingSample e))
      end
  end.
Proof.
  intros I Q. unfold UnmarshalSampleSet, QueryMergeBinary.
  destruct (walkSampleSet encoded) as [l|e] eqn:W; [|done]. cbn [result_bind].
  apply walkSampleSet_Ok in W as [F SS].
  destruct (decoded_ok l F SS) as (So & Eo & Po). unfold NewSampleSet.
  set (o := insert_points ∅ l) in *.
  pose proof (query_visits_eq st l [] None Q F) as V. rewrite V. cbn [app].
  destruct (filter (fun p => _ /\ _) l) as [|p cs] eqn:EC; cbn [head option_map].
  - assert (A : agree (qsSamples st) o).
    { intros k x y Hx Hy. pose proof (proj1 So _ _ Hy) as <-.
      destruct (decide (x = y)) as [|N]; [done|exfalso].
      assert (y ∈ filter (fun p => qsSamples st !! EventID p <> None /\
        qsSamples st !! EventID p <> Some p) l) as H; [|rewrite EC in H; by apply elem_of_nil in H].
      apply list_elem_of_filter. split; [rewrite Hx; split; congruence|]. by apply Eo. }
    rewrite (merge_agree iter I) by (done || apply So || apply (q_samples _ Q)).
    destruct (insert_candidates_ok (filter (candidate st) l) st Q) as [Q' E'].
    { rewrite Forall_forall in *. intros p [_ Hp]%list_elem_of_filter. by apply F. }
    { eapply (sublist_NoDup _ (map EventID l));
        [by apply strictly_ids|apply (fmap_sublist EventID), sublist_filter]. }
    { intros p Hp. by apply list_elem_of_filter in Hp as [[? _] _]. }
    exists (foldl insert_candidate st (filter (candidate st) l)).
    assert (Z.of_nat (length l) = Z.of_nat (size o)) as -> by (by rewrite <- values_length, Po).
    split_and!; [done| |done]. rewrite E'. symmetry. by apply row_keep.
  - assert (p ∈ filter (fun p => qsSamples st !! EventID p <> None /\
      qsSamples st !! EventID p <> Some p) l) as [[N1 N2] Hp]%list_elem_of_filter
      by (rewrite EC; left).
    destruct (merge_conflict iter I (qsSamples st) o) as [e ->]; [apply So| |by eexists].
    intros A. apply Eo in Hp. destruct (qsSamples st !! EventID p) as [q|] eqn:E; [|done].
    apply N2. f_equal. by apply (A (EventID p)).
Qed.

Lemma new_query_ok : query_ok (mkQuerySample NewSampleSet []).
Proof.
  split; cbn [qsSamples qsHeap].
  - split; intros k p; unfold NewSampleSet; by rewrite lookup_empty.
  - intros j c _ _ p q Hp. by rewrite lookup_nil in Hp.
  - done.
  - simpl. lia.
Qed.

Lemma query_samples_agree_witness :
  exists encoded st', SampleMarshalBinary values (demoSet [demoPoint 7 120 3000]) = Ok encoded /\
  QueryMergeBinary (Some (mkQuerySample NewSampleSet [])) encoded = (Some st', Ok 1) /\
  query_ok st'.
Proof.
  pose proof (query_samples_agree values (mkQuerySample NewSampleSet [])) as H.
  assert (S : samples_ok (demoSet [demoPoint 7 120 3000])) by (apply demo_samples_ok; unfold64; lia).
  destruct (samples_round_trip values (fun m => Permutation_refl _) _ S) as (enc & E & U).
  { unfold demoSet, insert_points. cbn [foldl]. rewrite map_size_insert_None, map_size_empty by done.
    apply max_pos. }
  specialize (H enc (fun m => Permutation_refl _) new_query_ok). rewrite U in H.
  rewrite (merge_agree values (fun m => Permutation_refl _)) in H;
    [|apply new_query_ok|apply S|by intros k p q; unfold qsSamples, NewSampleSet; rewrite lookup_empty].
  destruct H as (st' & E' & _ & Q). exists enc, st'. split_and!; [done| |done].
  rewrite E'. reflexivity.
Defined.
