(* ===== verification/ControlMessage.v ===== *)
(** poller/control_message.go and poller/redis_inbox_writer.go.

    The classifier walks the bytes of a message with an index; a Go string is the
    list of its bytes here, [raw[i]] is the list lookup and [raw[a:b]] the slice.
    The writers are behind one interface, [RedisInboxWriter], over the state [S]
    they change; the calls an observer receives are a list in the order they are
    made. *)
From S2P Require Import Prelude GoStrings GoTime Entities Inbox.
From Stdlib Require Import Ascii.

Local Open Scope string_scope.
Local Open Scope list_scope.
Local Open Scope Z_scope.

(** *** Control messages *)

Inductive ControlField := redisControlNone | redisControlSupportRefresh | redisControlRefresh.

#[export] Instance ControlField_eq_dec : EqDecision ControlField.
Proof. solve_decision. Defined.

Record RedisControlMessage := mkControl {
  IsControl : bool;
  SupportRefresh : bool;
  Refresh : bool;
}.

Definition bytes_of (s : string) : list ascii := String.list_ascii_of_string s.

Definition slice (raw : list ascii) (a b : nat) : list ascii := take (b - a) (drop a raw).

(** [i < len(raw) && raw[i] == c]. *)
Definition byteAt (raw : list ascii) (i : nat) (c : ascii) : bool :=
  match raw !! i with Some b => Ascii.eqb b c | None => false end.

Definition is_json_space (c : ascii) : bool :=
  let n := byte_code c in (n =? 32) || (n =? 10) || (n =? 13) || (n =? 9).

Fixpoint skip_from (fuel : nat) (raw : list ascii) (i : nat) : nat :=
  match fuel with
  | O => i
  | S fuel =>
      match raw !! i with
      | Some c => if is_json_space c then skip_from fuel raw (S i) else i
      | None => i
      end
  end.

(** Every turn of the loop moves one byte on, so the rest of the message is
    enough fuel. *)
Definition skipJSONWhitespace (raw : list ascii) (i : nat) : nat :=
  skip_from (length raw - i) raw i.

Definition quote : ascii := mk_byte 34.

Definition matchJSONStringLiteral (raw : list ascii) (i : nat) (value : list ascii) : nat * bool :=
  if negb (byteAt raw i quote) then (i, false)
  else
    let start := S i in
    let end_ := (start + length value)%nat in
    if (length raw <=? end_)%nat then (i, false)
    else if negb (bool_decide (slice raw start end_ = value)) then (i, false)
    else if negb (byteAt raw end_ quote) then (i, false)
    else (S end_, true).

Definition hasLiteralAt (raw : list ascii) (i : nat) (literal : list ascii) : bool :=
  if (length raw <? i + length literal)%nat then false
  else bool_decide (slice raw i (i + length literal) = literal).

Definition matchControlField (raw : list ascii) (i : nat) : ControlField * nat :=
  let '(next, ok) := matchJSONStringLiteral raw i (bytes_of "support_refresh") in
  if ok then (redisControlSupportRefresh, next)
  else
    let '(next, ok) := matchJSONStringLiteral raw i (bytes_of "refresh") in
    if ok then (redisControlRefresh, next) else (redisControlNone, i).

Definition parseSingleTrueControlField (raw : list ascii) : ControlField :=
  let i := skipJSONWhitespace raw 0 in
  if negb (byteAt raw i "{"%char) then redisControlNone
  else
    let i := skipJSONWhitespace raw (S i) in
    let '(field, next) := matchControlField raw i in
    if bool_decide (field = redisControlNone) then redisControlNone
    else
      let i := skipJSONWhitespace raw next in
      if negb (byteAt raw i ":"%char) then redisControlNone
      else
        let i := skipJSONWhitespace raw (S i) in
        if negb (hasLiteralAt raw i (bytes_of "true")) then redisControlNone
        else
          let i := skipJSONWhitespace raw (i + length (bytes_of "true")) in
          if negb (byteAt raw i "}"%char) then redisControlNone
          else
            let i := skipJSONWhitespace raw (S i) in
            if negb (i =? length raw)%nat then redisControlNone else field.

(** The text ["request_id"] with its quotes. *)
Definition request_id_key : list ascii := quote :: bytes_of "request_id" ++ [quote].

Definition ClassifyRedisControlMessage (raw : list ascii) : RedisControlMessage :=
  if list_contains request_id_key raw then mkControl false false false
  else
    match parseSingleTrueControlField raw with
    | redisControlSupportRefresh => mkControl true true false
    | redisControlRefresh => mkControl true true true
    | redisControlNone => mkControl false false false
    end.

Definition isIgnorableRawPayload (raw : list ascii) : bool :=
  let i := skipJSONWhitespace raw 0 in
  if (i =? length raw)%nat then true
  else if negb (hasLiteralAt raw i (bytes_of "null")) then false
  else (skipJSONWhitespace raw (i + length (bytes_of "null")) =? length raw)%nat.

(** *** Writers *)

(** What a writer reports besides the errors of the repository. *)
Inductive WriterError :=
| DelegateIsNil
| DatabaseIsNil
| ContextDone (message : string)
| InsertFailed (err : InboxError).

(** [Insert] returns the number of rows it stored. *)
Record RedisInboxWriter (S : Type) := mkWriter {
  writerInsert : S -> string -> list string -> Time -> S * result WriterError Z;
}.
Arguments mkWriter {S}.
Arguments writerInsert {S}.

(** The calls of RedisControlMessageObserver. *)
Inductive ObserverCall :=
| NotifyIngestConnected
| MarkRefreshSupported
| RequestMetadataRefresh
| MarkRefreshPollingRequired (reason : string).

Section RepositoryWriter.
Context (local : Location) (sha256hex : string -> string).

(** encoding/json: the members provider and executor_type of a message, or
    [None] when it does not decode. *)
Context (envelope : string -> option (string * string)).

Definition supportedMessage (message : string) : bool :=
  match envelope message with
  | Some (provider, executor) => (UsageProvider provider executor).2
  | None => true
  end.

(** [db] tells whether the writer has a database, [ctxErr] whether the caller
    has given up, [fault] the error of the statement. *)
Definition RepositoryInsert (db : bool) (ctxErr fault : option string) (now : Time)
    (t : InboxTable) (source : string) (messages : list string) (receivedAt : Time)
    : InboxTable * result WriterError Z :=
  match messages with
  | [] => (t, Ok 0)
  | _ =>
      if negb db then (t, Err DatabaseIsNil)
      else
        match ctxErr with
        | Some e => (t, Err (ContextDone e))
        | None =>
            let supported := filter (fun message => supportedMessage message = true) messages in
            match InsertRedisUsageInboxRawMessages local sha256hex fault now t source
                    supported receivedAt with
            | (t, Ok rows) => (t, Ok (Z.of_nat (length rows)))
            | (t, Err e) => (t, Err (InsertFailed e))
            end
        end
  end.

Definition RepositoryRedisInboxWriter (db : bool) (ctxErr fault : option string) (now : Time)
    : RedisInboxWriter InboxTable :=
  mkWriter (RepositoryInsert db ctxErr fault now).

End RepositoryWriter.

Definition cloneUsagePrefix (messages : list string) (end_ : nat) : list string :=
  take end_ messages.

(** The observer's part of one message. *)
Definition observe (observer : bool) (control : RedisControlMessage) : list ObserverCall :=
  (if observer && SupportRefresh control then [MarkRefreshSupported] else []) ++
  (if observer && Refresh control then [RequestMetadataRefresh] else []).

(** [for i, message := range messages] with its variables [usageMessages] and
    [filtered]; [rest] are the messages from [i] on. *)
Fixpoint filterMessages (observer : bool) (messages : list string) (i : nat)
    (rest usageMessages : list string) (filtered : bool) (calls : list ObserverCall)
    : list string * bool * list ObserverCall :=
  match rest with
  | [] => (usageMessages, filtered, calls)
  | message :: rest =>
      if isIgnorableRawPayload (bytes_of message) then
        let usageMessages := if filtered then usageMessages else cloneUsagePrefix messages i in
        filterMessages observer messages (S i) rest usageMessages true calls
      else
        let control := ClassifyRedisControlMessage (bytes_of message) in
        if negb (IsControl control) then
          let usageMessages := if filtered then usageMessages ++ [message] else usageMessages in
          filterMessages observer messages (S i) rest usageMessages filtered calls
        else
          let usageMessages := if filtered then usageMessages else cloneUsagePrefix messages i in
          filterMessages observer messages (S i) rest usageMessages true
            (calls ++ observe observer control)
  end.

Definition ControlAwareInsert {S} (delegate : option (RedisInboxWriter S)) (observer : bool)
    (s : S) (source : string) (messages : list string) (receivedAt : Time)
    : S * result WriterError Z * list ObserverCall :=
  match delegate with
  | None => (s, Err DelegateIsNil, [])
  | Some w =>
      match messages with
      | [] => (s, Ok 0, [])
      | _ =>
          let '(usageMessages, filtered, calls) :=
            filterMessages observer messages 0 messages [] false [] in
          if negb filtered then (writerInsert w s source messages receivedAt, calls)
          else
            match usageMessages with
            | [] => (s, Ok 0, calls)
            | _ => (writerInsert w s source usageMessages receivedAt, calls)
            end
      end
  end.
