(* ===== verification/ControlMessageFacts.v ===== *)
(** The classifier accepts exactly the two control messages, and the writers
    hand exactly the other messages on. *)
From S2P Require Import Prelude GoStrings GoTime Entities Inbox InboxFacts ControlMessage.
From Stdlib Require Import Ascii.

Local Open Scope string_scope.
Local Open Scope list_scope.
Local Open Scope Z_scope.

(** *** Reading with a cursor *)

Definition spaces (l : list ascii) : Prop := Forall (fun c => is_json_space c = true) l.

Definition head_space (l : list ascii) : bool :=
  match l with c :: _ => is_json_space c | [] => false end.

(** [i] is a position of [raw], with [rest] to come. *)
Definition cursor (raw : list ascii) (i : nat) (rest : list ascii) : Prop :=
  exists before, raw = before ++ rest /\ i = length before.

Lemma cursor_start (raw : list ascii) : cursor raw 0 raw.
Proof. by exists []. Qed.

Lemma cursor_lookup raw i rest : cursor raw i rest -> raw !! i = head rest.
Proof.
  intros (before & -> & ->). rewrite lookup_app_r, Nat.sub_diag by lia. by destruct rest.
Qed.

Lemma cursor_advance raw i p rest : cursor raw i (p ++ rest) -> cursor raw (i + length p) rest.
Proof.
  intros (before & -> & ->). exists (before ++ p). rewrite length_app, <- app_assoc. done.
Qed.

Lemma cursor_next raw i c rest : cursor raw i (c :: rest) -> cursor raw (S i) rest.
Proof. intros H. rewrite <- Nat.add_1_r. by apply (cursor_advance _ _ [c]). Qed.

Lemma cursor_length raw i rest : cursor raw i rest -> (i + length rest = length raw)%nat.
Proof. intros (before & -> & ->). rewrite length_app. lia. Qed.

Lemma cursor_end raw i rest : cursor raw i rest -> (i =? length raw)%nat = true <-> rest = [].
Proof.
  intros H%cursor_length. rewrite Nat.eqb_eq, <- length_zero_iff_nil. lia.
Qed.

Lemma cursor_slice raw i rest n : cursor raw i rest -> slice raw i (i + n) = take n rest.
Proof.
  intros (before & -> & ->). unfold slice. rewrite drop_app_length. f_equal. lia.
Qed.

Lemma byteAt_true raw i rest c : cursor raw i rest ->
  byteAt raw i c = true <-> exists rest', rest = c :: rest'.
Proof.
  intros H. unfold byteAt. rewrite (cursor_lookup _ _ _ H).
  destruct rest as [|b rest]; cbn [head]; [naive_solver|].
  rewrite Ascii.eqb_eq. naive_solver.
Qed.

Lemma skip_from_cursor fuel raw i ws rest : cursor raw i (ws ++ rest) -> spaces ws ->
  head_space rest = false -> (length ws <= fuel)%nat ->
  skip_from fuel raw i = (i + length ws)%nat.
Proof.
  revert i ws. induction fuel as [|fuel IH]; intros i ws C W H L.
  { destruct ws; [cbn; lia|cbn in L; lia]. }
  cbn [skip_from]. rewrite (cursor_lookup _ _ _ C). destruct ws as [|c ws].
  - cbn [app length]. destruct rest as [|b rest]; cbn [head]; [lia|].
    cbn in H. rewrite H. lia.
  - inversion W as [|? ? Hc W']; subst. cbn [app head length]. rewrite Hc.
    rewrite (IH (S i) ws); [lia| |done|done|cbn in L; lia].
    by apply (cursor_next _ _ c).
Qed.

Lemma skip_cursor raw i ws rest : cursor raw i (ws ++ rest) -> spaces ws ->
  head_space rest = false -> skipJSONWhitespace raw i = (i + length ws)%nat.
Proof.
  intros C W H. apply skip_from_cursor with rest; [done..|].
  apply cursor_length in C. rewrite length_app in C. lia.
Qed.

Lemma split_spaces (l : list ascii) :
  exists ws rest, l = ws ++ rest /\ spaces ws /\ head_space rest = false.
Proof.
  induction l as [|c l (ws & rest & -> & W & H)]; [exists [], []; split_and!; [done|constructor|done]|].
  destruct (is_json_space c) eqn:E.
  - exists (c :: ws), rest. split_and!; [done|by constructor|done].
  - exists [], (c :: ws ++ rest). split_and!; [done|constructor|done].
Qed.

(** Skipping ends behind all spaces. *)
Lemma skip_splits raw i rest : cursor raw i rest -> exists ws rest',
  rest = ws ++ rest' /\ spaces ws /\ cursor raw (skipJSONWhitespace raw i) rest'.
Proof.
  intros C. destruct (split_spaces rest) as (ws & rest' & -> & W & H).
  exists ws, rest'. split_and!; [done|done|].
  rewrite (skip_cursor _ _ _ _ C W H). by apply cursor_advance.
Qed.

Lemma hasLiteralAt_true raw i rest literal : cursor raw i rest ->
  hasLiteralAt raw i literal = true <-> exists rest', rest = literal ++ rest'.
Proof.
  intros C. unfold hasLiteralAt. pose proof (cursor_length _ _ _ C) as L.
  destruct (Nat.ltb_spec (length raw) (i + length literal)) as [H|H].
  - split; [done|]. intros [r ->]. rewrite length_app in L. lia.
  - rewrite (cursor_slice _ _ _ _ C), bool_decide_eq_true. split.
    + intros E. exists (drop (length literal) rest). by rewrite <- E at 1; rewrite take_drop.
    + intros [r ->]. apply take_app_length.
Qed.

Definition quoted (value : list ascii) : list ascii := quote :: value ++ [quote].

Lemma match_literal raw i rest value : cursor raw i rest ->
  (exists rest', rest = quoted value ++ rest' /\
     matchJSONStringLiteral raw i value = ((i + length (quoted value))%nat, true)) \/
  ((forall rest', rest <> quoted value ++ rest') /\
     matchJSONStringLiteral raw i value = (i, false)).
Proof.
  intros C. unfold matchJSONStringLiteral.
  destruct (byteAt raw i quote) eqn:B; cbn [negb].
  2: { right. split; [|done]. intros r ->.
       assert (byteAt raw i quote = true) by (apply (byteAt_true _ _ _ _ C); by eexists).
       congruence. }
  apply (byteAt_true _ _ _ _ C) in B as [r ->]. apply cursor_next in C.
  pose proof (cursor_length _ _ _ C) as L.
  destruct (Nat.leb_spec (length raw) (S i + length value)) as [H|H].
  { right. split; [|done]. unfold quoted. intros r' [= ->].
    rewrite !length_app in L. cbn [length] in L. lia. }
  rewrite (cursor_slice _ _ _ _ C). case_bool_decide as E; cbn [negb].
  2: { right. split; [|done]. unfold quoted. intros r' [= ->]. apply E.
       rewrite <- app_assoc. apply take_app_length. }
  rewrite <- (take_drop (length value) r), E in C |- *. apply cursor_advance in C.
  destruct (byteAt raw (S i + length value) quote) eqn:B; cbn [negb].
  - left. apply (byteAt_true _ _ _ _ C) in B as [r' ->]. exists r'. unfold quoted.
    cbn [app length]. rewrite <- app_assoc, length_app. split; [done|]. f_equal. cbn. lia.
  - right. split; [|done]. unfold quoted. intros r' [= H'].
    rewrite <- app_assoc in H'. apply app_inv_head in H'.
    assert (byteAt raw (S i + length value) quote = true); [|congruence].
    apply (byteAt_true _ _ _ _ C). rewrite H'. by eexists.
Qed.

(** *** The reference grammar *)

Definition field_key (f : ControlField) : list ascii :=
  match f with
  | redisControlNone => []
  | redisControlSupportRefresh => bytes_of "support_refresh"
  | redisControlRefresh => bytes_of "refresh"
  end.

(** An object whose only member is [key] with the value [true]. *)
Definition single_true (key raw : list ascii) : Prop :=
  exists w1 w2 w3 w4 w5 w6, Forall spaces [w1; w2; w3; w4; w5; w6] /\
    raw = w1 ++ ("{"%char :: w2 ++ (quoted key ++ (w3 ++ (":"%char :: w4 ++ (bytes_of "true" ++
            (w5 ++ ("}"%char :: w6))))))).

Lemma match_field raw i rest : cursor raw i rest ->
  (exists f rest', f <> redisControlNone /\ rest = quoted (field_key f) ++ rest' /\
     matchControlField raw i = (f, (i + length (quoted (field_key f)))%nat)) \/
  matchControlField raw i = (redisControlNone, i).
Proof.
  intros C. unfold matchControlField.
  destruct (match_literal _ _ _ (bytes_of "support_refresh") C) as [(r & E & ->)|[_ ->]].
  { left. by exists redisControlSupportRefresh, r. }
  destruct (match_literal _ _ _ (bytes_of "refresh") C) as [(r & E & ->)|[_ ->]]; [|by right].
  left. by exists redisControlRefresh, r.
Qed.

Lemma match_field_hit raw i f rest : f <> redisControlNone ->
  cursor raw i (quoted (field_key f) ++ rest) ->
  matchControlField raw i = (f, (i + length (quoted (field_key f)))%nat).
Proof.
  intros N C. unfold matchControlField.
  destruct (match_literal _ _ _ (bytes_of "support_refresh") C) as [(r & E & ->)|[N1 ->]].
  { destruct f; [done|done|]. exfalso. revert E. cbn. intros [=]. }
  destruct (match_literal _ _ _ (bytes_of "refresh") C) as [(r & E & ->)|[N2 ->]].
  { destruct f; [done| |done]. exfalso. revert E. cbn. intros [=]. }
  exfalso. destruct f; [done|by apply (N1 rest)|by apply (N2 rest)].
Qed.

(** Whatever the scanner accepts has the shape. *)
Lemma parse_sound (raw : list ascii) (f : ControlField) : f <> redisControlNone ->
  parseSingleTrueControlField raw = f -> single_true (field_key f) raw.
Proof.
  intros N. unfold parseSingleTrueControlField.
  destruct (skip_splits _ _ _ (cursor_start raw)) as (w1 & r1 & E1 & W1 & C1).
  destruct (byteAt raw _ "{"%char) eqn:B1; cbn [negb]; [|by intros <-].
  apply (byteAt_true _ _ _ _ C1) in B1 as [r1' ->]. apply cursor_next in C1.
  destruct (skip_splits _ _ _ C1) as (w2 & r2 & -> & W2 & C2).
  destruct (match_field _ _ _ C2) as [(g & r3 & Ng & -> & ->)| ->]; [|by intros <-].
  apply cursor_advance in C2. rewrite bool_decide_eq_false_2 by done.
  destruct (skip_splits _ _ _ C2) as (w3 & r4 & -> & W3 & C3).
  destruct (byteAt raw _ ":"%char) eqn:B2; cbn [negb]; [|by intros <-].
  apply (byteAt_true _ _ _ _ C3) in B2 as [r4' ->]. apply cursor_next in C3.
  destruct (skip_splits _ _ _ C3) as (w4 & r5 & -> & W4 & C4).
  destruct (hasLiteralAt raw _ _) eqn:B3; cbn [negb]; [|by intros <-].
  apply (hasLiteralAt_true _ _ _ _ C4) in B3 as [r5' ->]. apply cursor_advance in C4.
  destruct (skip_splits _ _ _ C4) as (w5 & r6 & -> & W5 & C5).
  destruct (byteAt raw _ "}"%char) eqn:B4; cbn [negb]; [|by intros <-].
  apply (byteAt_true _ _ _ _ C5) in B4 as [r6' ->]. apply cursor_next in C5.
  destruct (skip_splits _ _ _ C5) as (w6 & r7 & -> & W6 & C6).
  destruct (Nat.eqb _ _) eqn:B5; cbn [negb]; [|by intros <-].
  apply (cursor_end _ _ _ C6) in B5 as ->. rewrite app_nil_r in *.
  intros <-. exists w1, w2, w3, w4, w5, w6. split; [|exact E1].
  repeat (constructor; [assumption|]). constructor.
Qed.

Lemma byteAt_hit raw i c rest : cursor raw i (c :: rest) -> byteAt raw i c = true.
Proof. intros C. apply (byteAt_true _ _ _ _ C). by exists rest. Qed.

Lemma hasLiteralAt_hit raw i l rest : cursor raw i (l ++ rest) -> hasLiteralAt raw i l = true.
Proof. intros C. apply (hasLiteralAt_true _ _ _ _ C). by exists rest. Qed.

(** One skip of the scanner, with the cursor behind the spaces. *)
Lemma skip_to raw i ws rest : cursor raw i (ws ++ rest) -> spaces ws ->
  head_space rest = false -> cursor raw (skipJSONWhitespace raw i) rest.
Proof. intros C W H. rewrite (skip_cursor _ _ _ _ C W H). by apply cursor_advance. Qed.

Lemma parse_complete (raw : list ascii) (f : ControlField) : f <> redisControlNone ->
  single_true (field_key f) raw -> parseSingleTrueControlField raw = f.
Proof.
  intros N (w1 & w2 & w3 & w4 & w5 & w6 & W & E).
  apply Forall_cons in W as [W1 W]. apply Forall_cons in W as [W2 W].
  apply Forall_cons in W as [W3 W]. apply Forall_cons in W as [W4 W].
  apply Forall_cons in W as [W5 W]. apply Forall_cons in W as [W6 _].
  pose proof (cursor_start raw) as C. rewrite E in C at 2. clear E.
  unfold parseSingleTrueControlField.
  apply skip_to in C; [|done..]. rewrite (byteAt_hit _ _ _ _ C). cbn [negb].
  apply cursor_next, skip_to in C; [|done..].
  rewrite (match_field_hit _ _ _ _ N C), bool_decide_eq_false_2 by done.
  apply cursor_advance, skip_to in C; [|done..]. rewrite (byteAt_hit _ _ _ _ C). cbn [negb].
  apply cursor_next, skip_to in C; [|done..]. rewrite (hasLiteralAt_hit _ _ _ _ C). cbn [negb].
  apply cursor_advance, skip_to in C; [|done..]. rewrite (byteAt_hit _ _ _ _ C). cbn [negb].
  apply cursor_next in C. rewrite <- (app_nil_r w6) in C. apply skip_to in C; [|done..].
  by rewrite (proj2 (cursor_end _ _ _ C) eq_refl).
Qed.

(** *** The fast path *)

Lemma list_prefix_app (p l : list ascii) : list_prefix p l = true -> exists r, l = p ++ r.
Proof.
  revert l. induction p as [|a p IH]; intros l H; [by exists l|].
  destruct l as [|b l]; [done|]. cbn in H.
  apply andb_true_iff in H as [->%Ascii.eqb_eq [r ->]%IH]. by exists r.
Qed.

Lemma list_contains_member (p l : list ascii) (c : ascii) :
  list_contains p l = true -> c ∈ p -> c ∈ l.
Proof.
  intros H Hc. induction l as [|a l IH]; cbn [list_contains] in H;
    apply orb_true_iff in H as [[r E]%list_prefix_app|H].
  - rewrite E. set_solver.
  - done.
  - rewrite E. set_solver.
  - apply elem_of_cons. right. by apply IH.
Qed.

(** No byte of a control message is a [q]. *)
Lemma single_true_no_q (f : ControlField) (raw : list ascii) :
  single_true (field_key f) raw -> list_contains request_id_key raw = false.
Proof.
  intros (w1 & w2 & w3 & w4 & w5 & w6 & W & ->).
  destruct (list_contains _ _) eqn:H; [exfalso|done].
  assert (K : "q"%char ∈ request_id_key) by (vm_compute; set_solver).
  pose proof (list_contains_member _ _ _ H K) as Q. clear H K.
  assert (S : forall w, spaces w -> "q"%char ∉ w).
  { intros w Hw Hq. unfold spaces in Hw. rewrite Forall_forall in Hw. by specialize (Hw _ Hq). }
  rewrite !Forall_cons in W. destruct W as (W1 & W2 & W3 & W4 & W5 & W6 & _).
  apply S in W1, W2, W3, W4, W5, W6.
  assert (Kq : "q"%char ∉ quoted (field_key f)) by (destruct f; vm_compute; set_solver).
  assert (Kt : "q"%char ∉ bytes_of "true") by (vm_compute; set_solver).
  rewrite !elem_of_app, !elem_of_cons, !elem_of_app, !elem_of_cons, !elem_of_app,
    !elem_of_cons in Q.
  naive_solver.
Qed.

(** C30: a message is taken for a control message exactly when it is an object
    whose only member is ["support_refresh"] or ["refresh"] with the value
    [true], with JSON white space anywhere between the tokens; the look for
    ["request_id"] in front of the scanner changes no answer. *)
Theorem control_messages_exact (raw : list ascii) :
  let c := ClassifyRedisControlMessage raw in
  (IsControl c = true <-> single_true (bytes_of "support_refresh") raw \/
                          single_true (bytes_of "refresh") raw) /\
  (Refresh c = true <-> single_true (bytes_of "refresh") raw) /\
  SupportRefresh c = IsControl c.
Proof.
  assert (K : forall f, f <> redisControlNone ->
    single_true (field_key f) raw <-> ClassifyRedisControlMessage raw =
      mkControl true true (bool_decide (f = redisControlRefresh))).
  { intros f N. unfold ClassifyRedisControlMessage. split.
    - intros T. rewrite (single_true_no_q _ _ T), (parse_complete _ _ N T). by destruct f.
    - destruct (list_contains _ _); [done|].
      destruct (parseSingleTrueControlField raw) eqn:P; intros [=];
        apply (parse_sound _ _ N); rewrite P; by destruct f. }
  pose proof (K redisControlSupportRefresh ltac:(done)) as K1.
  pose proof (K redisControlRefresh ltac:(done)) as K2. clear K.
  cbn [field_key] in *. rewrite K1, K2. clear K1 K2. cbn zeta.
  unfold ClassifyRedisControlMessage.
  destruct (list_contains _ _); [naive_solver|].
  destruct (parseSingleTrueControlField raw); naive_solver.
Qed.

Lemma ignorable_spec (raw : list ascii) : isIgnorableRawPayload raw = true <->
  exists w1 w2, spaces w1 /\ spaces w2 /\
    (raw = w1 \/ raw = w1 ++ bytes_of "null" ++ w2).
Proof.
  unfold isIgnorableRawPayload. destruct (split_spaces raw) as (w & rest & E & W & H).
  assert (C : cursor raw 0 (w ++ rest)) by (rewrite <- E; apply cursor_start).
  pose proof (skip_to _ _ _ _ C W H) as C1. split.
  - destruct (Nat.eqb _ _) eqn:Q.
    { apply (cursor_end _ _ _ C1) in Q as ->. rewrite app_nil_r in E. intros _.
      exists w, []. split_and!; [done|constructor|by left]. }
    destruct (hasLiteralAt raw _ _) eqn:L; cbn [negb]; [|done].
    apply (hasLiteralAt_true _ _ _ _ C1) in L as [r ->]. apply cursor_advance in C1.
    destruct (skip_splits _ _ _ C1) as (w2 & r2 & -> & W2 & C2).
    intros Q2. apply (cursor_end _ _ _ C2) in Q2 as ->. rewrite app_nil_r in E.
    exists w, w2. by split_and!; [| |right].
  - clear w rest E W H C C1. intros (w1 & w2 & W1 & W2 & [E|E]).
    + assert (C : cursor raw 0 (w1 ++ [])) by (rewrite app_nil_r, <- E; apply cursor_start).
      apply skip_to in C; [|done..]. by rewrite (proj2 (cursor_end _ _ _ C) eq_refl).
    + assert (C : cursor raw 0 (w1 ++ bytes_of "null" ++ w2)) by (rewrite <- E; apply cursor_start).
      apply skip_to in C; [|done..].
      destruct (Nat.eqb _ _); [done|]. rewrite (hasLiteralAt_hit _ _ _ _ C). cbn [negb].
      apply cursor_advance in C. rewrite <- (app_nil_r w2) in C. apply skip_to in C; [|done..].
      by apply (cursor_end _ _ _ C).
Qed.

(** *** The writer in front *)

(** The messages handed on, and what a message tells the observer. *)
Definition passes (message : string) : bool :=
  negb (isIgnorableRawPayload (bytes_of message)) &&
  negb (IsControl (ClassifyRedisControlMessage (bytes_of message))).

Definition kept (messages : list string) : list string :=
  filter (fun message => passes message = true) messages.

Definition announced (observer : bool) (message : string) : list ObserverCall :=
  if isIgnorableRawPayload (bytes_of message) then []
  else observe observer (ClassifyRedisControlMessage (bytes_of message)).

Definition filtering (before usageMessages : list string) (filtered : bool) : Prop :=
  if filtered then usageMessages = kept before
  else usageMessages = [] /\ kept before = before.

Lemma kept_snoc (before : list string) (m : string) :
  kept (before ++ [m]) = kept before ++ if passes m then [m] else [].
Proof. unfold kept. rewrite filter_app, filter_cons, filter_nil. by destruct (passes m). Qed.

Lemma observe_passes (observer : bool) (m : string) :
  IsControl (ClassifyRedisControlMessage (bytes_of m)) = false ->
  observe observer (ClassifyRedisControlMessage (bytes_of m)) = [].
Proof.
  unfold ClassifyRedisControlMessage, observe.
  destruct (list_contains _ _); [|destruct (parseSingleTrueControlField _)]; cbn; try done;
    by rewrite andb_false_r.
Qed.

Lemma filterMessages_spec (observer : bool) (rest before usageMessages : list string)
    (filtered : bool) (calls : list ObserverCall) :
  filtering before usageMessages filtered ->
  exists u f, filterMessages observer (before ++ rest) (length before) rest usageMessages
      filtered calls = (u, f, calls ++ mjoin (map (announced observer) rest)) /\
    filtering (before ++ rest) u f.
Proof.
  revert before usageMessages filtered calls.
  induction rest as [|m rest IH]; intros before us fl calls F.
  { exists us, fl. cbn. by rewrite !app_nil_r. }
  assert (P : (if fl then us else cloneUsagePrefix (before ++ m :: rest) (length before))
              = kept before).
  { unfold cloneUsagePrefix. destruct fl; [exact F|].
    rewrite take_app_length. symmetry. apply F. }
  cbn [filterMessages map mjoin list_join]. rewrite P. clear P.
  rewrite (cons_middle m before rest), app_assoc.
  replace (S (length before)) with (length (before ++ [m])) by (rewrite length_app; cbn; lia).
  pose proof (kept_snoc before m) as K. unfold passes in K.
  unfold announced at 1.
  destruct (isIgnorableRawPayload (bytes_of m)); cbn [negb andb app] in *.
  { rewrite app_nil_r in K. by apply IH. }
  destruct (IsControl _) eqn:C; cbn [negb] in *.
  - rewrite app_nil_r in K. rewrite (app_assoc calls). by apply IH.
  - rewrite (observe_passes _ _ C). cbn [app]. apply IH.
    destruct fl; cbn [filtering] in *; [by rewrite K, F|]. destruct F as [-> F].
    by rewrite K, F.
Qed.

(** The writer in front hands the messages that are neither empty nor
    control messages to its delegate, in one call, in order and unchanged, calls
    nobody when none is left, and tells the observer about each control message
    in order. *)
Lemma control_writer_eq {S} (w : RedisInboxWriter S) (observer : bool) (s : S)
    (source : string) (messages : list string) (receivedAt : Time) :
  ControlAwareInsert (Some w) observer s source messages receivedAt =
  (match kept messages with
   | [] => (s, Ok 0)
   | usage => writerInsert w s source usage receivedAt
   end, mjoin (map (announced observer) messages)).
Proof.
  unfold ControlAwareInsert. destruct messages as [|m messages]; [done|].
  destruct (filterMessages_spec observer (m :: messages) [] [] false []) as (u & f & E & F);
    [done|].
  cbn [app length] in E, F. rewrite E. clear E. destruct f; cbn [negb filtering] in *.
  - subst u. by destruct (kept (m :: messages)).
  - destruct F as [-> ->]. done.
Qed.


(** *** With the repository behind *)

Section Intake.
Context (local : Location) (sha256hex : string -> string).
Context (envelope : string -> option (string * string)).

(** The rows an intake of [messages] creates. *)
Definition intake_rows (now : Time) (t : InboxTable) (source : string)
    (messages : list string) (receivedAt : Time) : list RedisUsageInbox :=
  imap (fun i message => created local now (inboxNextID t + Z.of_nat i)
          (newInboxRow local sha256hex (mkRedisInboxInsert source message receivedAt)))
    (filter (fun m => supportedMessage envelope m = true) (kept messages)).

(** The two writers together append one pending row for each message that is
    not empty, not a control message and not of a foreign provider, in order,
    behind the rows that were waiting; when they fail the inbox is unchanged.  The
    observer is told about exactly the control messages, in order. *)
Theorem intake_appends (t : InboxTable) (observer db : bool) (ctxErr fault : option string)
    (now : Time) (source : string) (messages : list string) (receivedAt : Time) :
  inbox_reaches local sha256hex empty_inbox t ->
  let w := RepositoryRedisInboxWriter local sha256hex envelope db ctxErr fault now in
  let '(t', res, calls) := ControlAwareInsert (Some w) observer t source messages receivedAt in
  calls = mjoin (map (announced observer) messages) /\
  match res with
  | Err _ => t' = t
  | Ok n =>
      let rows := intake_rows now t source messages receivedAt in
      n = Z.of_nat (length rows) /\
      selectRows processable 0 t' = selectRows processable 0 t ++ rows
  end.
Proof.
  intros R. cbn zeta. rewrite control_writer_eq. unfold intake_rows.
  destruct (kept messages) as [|m rest]; [by rewrite app_nil_r|].
  set (all := m :: rest). cbn [writerInsert RepositoryRedisInboxWriter].
  unfold RepositoryInsert. unfold all at 1. destruct db; cbn [negb]; [|by split].
  destruct ctxErr; [by split|]. set (supported := filter _ all).
  unfold InsertRedisUsageInboxRawMessages.
  pose proof (insert_appends local sha256hex t fault now
    (map (fun message => mkRedisInboxInsert source message receivedAt) supported) R) as H.
  destruct (InsertRedisUsageInboxMessages _ _ _ _ _ _) as [t' [rows|e]]; [|by split].
  destruct H as [-> H]. rewrite imap_fmap in H |- *. split; [done|]. split; [done|exact H].
Qed.

End Intake.

(** *** Witnesses *)

Definition demo_refresh : string :=
  String.string_of_list_ascii (bytes_of " {" ++ quoted (bytes_of "refresh") ++ bytes_of ": true}").

Definition demo_messages : list string := ["a"; " null "; demo_refresh; "b"; ""].

Definition demo_envelope (message : string) : option (string * string) :=
  if message =?s "b" then Some ("Gemini", "") else None.

Example classify_demo :
  ClassifyRedisControlMessage (bytes_of demo_refresh) = mkControl true true true.
Proof. vm_compute. reflexivity. Qed.

Lemma intake_appends_witness :
  (ControlAwareInsert (Some (RepositoryRedisInboxWriter demo_local demo_hash demo_envelope
      true None None demo_now)) true empty_inbox "pull" demo_messages demo_now).2
    = [MarkRefreshSupported; RequestMetadataRefresh] /\
  intake_rows demo_local demo_hash demo_envelope demo_now empty_inbox "pull" demo_messages
    demo_now = [demo_row 1 "pull" "a"].
Proof.
  assert (R : inbox_reaches demo_local demo_hash empty_inbox empty_inbox) by constructor.
  pose proof (intake_appends demo_local demo_hash demo_envelope empty_inbox true true None None
    demo_now "pull" demo_messages demo_now R) as H. cbn zeta in H.
  destruct (ControlAwareInsert _ _ _ _ _ _) as [[t' res] calls]. destruct H as [H _].
  split; [rewrite H; vm_compute; reflexivity|vm_compute; reflexivity].
Defined.
