(* ===== verification/Runner.v ===== *)
(** Background runners: what they share, and poller/redis_ingest_backoff.go and
    poller/poller.go.

    A runner talks to the outside through calls whose answers it does not choose.
    [Machine E C S] holds the environment that answers ([E]), whether the runner's
    context is known to be cancelled, the calls made so far with their answers
    ([C], oldest first) and the runner's own state [S].  A loop that may go on for
    ever takes fuel; a program that runs out of it stops with [None], and the
    calls made up to there are a prefix of what the code does. *)
From S2P Require Import Prelude GoTime.

Local Open Scope string_scope.
Local Open Scope list_scope.
Local Open Scope Z_scope.

Record Machine (E C S : Type) := mkMachine {
  maEnv : E;
  maCancelled : bool;
  maTrace : list C;
  maState : S;
}.
Arguments mkMachine {E C S}.
Arguments maEnv {E C S}.
Arguments maCancelled {E C S}.
Arguments maTrace {E C S}.
Arguments maState {E C S}.

Section Programs.
Context {E C S : Type}.

Definition Prog (A : Type) : Type := Machine E C S -> Machine E C S * option A.

Definition done_with {A} (a : A) : Prog A := fun m => (m, Some a).

Definition out_of_fuel {A} : Prog A := fun m => (m, None).

Definition and_then {A B} (p : Prog A) (f : A -> Prog B) : Prog B := fun m =>
  match p m with
  | (m, Some a) => f a m
  | (m, None) => (m, None)
  end.

(** A call: the environment answers, the trace notes call and answer. *)
Definition call {A} (answer : E -> E * A) (note : A -> C) : Prog A := fun m =>
  let '(e, a) := answer (maEnv m) in
  (mkMachine e (maCancelled m) (maTrace m ++ [note a]) (maState m), Some a).

(** An answer that is not worth a note, like the clock's. *)
Definition ask {A} (answer : E -> E * A) : Prog A := fun m =>
  let '(e, a) := answer (maEnv m) in
  (mkMachine e (maCancelled m) (maTrace m) (maState m), Some a).

(** [ctx.Err() != nil]: a cancelled context stays cancelled. *)
Definition ctx_err (cancelled : E -> E * bool) (note : bool -> C) : Prog bool := fun m =>
  if maCancelled m
  then (mkMachine (maEnv m) true (maTrace m ++ [note true]) (maState m), Some true)
  else
    let '(e, b) := cancelled (maEnv m) in
    (mkMachine e b (maTrace m ++ [note b]) (maState m), Some b).

(** sleepContext: [false] only when the context is done; when it is, and the
    timer has run down too, either answer is possible. *)
Definition sleep_ctx (sleeps : E -> E * bool) (note : bool -> C) : Prog bool := fun m =>
  let '(e, b) := sleeps (maEnv m) in
  (mkMachine e (maCancelled m || negb b) (maTrace m ++ [note b]) (maState m), Some b).

Definition update (f : S -> S) : Prog unit := fun m =>
  (mkMachine (maEnv m) (maCancelled m) (maTrace m) (f (maState m)), Some tt).

Definition state_of {A} (f : S -> A) : Prog A := fun m => (m, Some (f (maState m))).

End Programs.

Arguments Prog : clear implicits.

Declare Scope prog_scope.
Delimit Scope prog_scope with prog.
Notation "'let+' x := p 'in' k" := (and_then p (fun x => k))
  (at level 200, x binder, p at level 100, k at level 200) : prog_scope.
Notation "p ;; k" := (and_then p (fun _ => k))
  (at level 100, k at level 200, right associativity) : prog_scope.

(** *** poller.go *)

Record Status := mkStatus {
  Running : bool;
  LastRunAt : Time;
  LastError : string;
  LastWarning : string;
  LastStatus : string;
  SyncRunning : bool;
}.

Definition emptyStatus : Status := mkStatus false zero_time "" "" "" false.

(** Errors of a sync, as [errors.Is] tells them apart. *)
Inductive SyncError :=
| ErrSyncAlreadyRunning
| ErrSyncCompletedWithWarnings (cause : string)
| Canceled (message : string)
| OtherError (message : string).

Definition shouldLogSyncError (err : option SyncError) : bool :=
  match err with
  | Some (OtherError _) => true
  | _ => false
  end.

(** *** redis_ingest_backoff.go; durations are 64-bit nanoseconds *)

Record RedisIngestBackoff := mkBackoff {
  boInitial : Duration;
  boMax : Duration;
  boNext : Duration;
}.

Definition NewRedisIngestBackoff (initial max : Duration) : RedisIngestBackoff :=
  mkBackoff initial max initial.

Definition NextDelay (b : RedisIngestBackoff) : Duration * RedisIngestBackoff :=
  let delay := boNext b in
  let delay := if delay <=? 0 then boInitial b else delay in
  let delay := if delay <=? 0 then Second else delay in
  let next := mul64 delay 2 in
  let next := if (0 <? boMax b) && (boMax b <? next) then boMax b else next in
  (delay, mkBackoff (boInitial b) (boMax b) next).

(** [b == nil] is [None]. *)
Definition NextDelayOrDefault (b : option RedisIngestBackoff)
    : Duration * option RedisIngestBackoff :=
  match b with
  | None => (Second, None)
  | Some b => let '(delay, b) := NextDelay b in (delay, Some b)
  end.

Definition Reset_ (b : RedisIngestBackoff) : RedisIngestBackoff :=
  mkBackoff (boInitial b) (boMax b) (boInitial b).

(** *** Reasoning about programs *)

Section Hoare.
Context {E C S H : Type}.

(** A monitor reads the calls one by one; it refuses with [None]. *)
Context (monitor : H -> C -> option H) (start : H).

Definition watch (calls : list C) : option H :=
  foldl (fun h c => h ≫= fun h => monitor h c) (Some start) calls.

Lemma watch_snoc (calls : list C) (c : C) : watch (calls ++ [c]) = watch calls ≫= fun h => monitor h c.
Proof. unfold watch. by rewrite foldl_app. Qed.

(** States of the monitor that only a cancelled context explains. *)
Context (dead : H -> bool).

Definition linked (h : H) (m : Machine E C S) : Prop := dead h = true -> maCancelled m = true.

(** [p], started where the monitor is in a state of [P], makes only calls the
    monitor accepts, and when it ends with [a] the monitor is in a state of
    [Q a]. *)
Definition hoare {A} (P : H -> Prop) (p : Prog E C S A) (Q : A -> H -> Prop) : Prop :=
  forall m h, watch (maTrace m) = Some h -> linked h m -> P h ->
    exists h', watch (maTrace (p m).1) = Some h' /\ linked h' (p m).1 /\
      match (p m).2 with Some a => Q a h' | None => True end.

Lemma hoare_ret {A} (a : A) (P : A -> H -> Prop) : hoare (P a) (done_with a) P.
Proof. intros m h W L HP. by exists h. Qed.

Lemma hoare_stuck {A} P (Q : A -> H -> Prop) : hoare P out_of_fuel Q.
Proof. intros m h W L HP. by exists h. Qed.

Lemma hoare_bind {A B} P (p : Prog E C S A) Q (f : A -> Prog E C S B) R :
  hoare P p Q -> (forall a, hoare (Q a) (f a) R) -> hoare P (and_then p f) R.
Proof.
  intros Hp Hf m h W L HP. destruct (Hp m h W L HP) as (h' & W' & L' & HQ).
  unfold and_then. destruct (p m) as [m' [a|]]; cbn [fst snd] in *; [|by exists h'].
  by apply (Hf a m' h').
Qed.

Lemma hoare_weaken {A} (P P' : H -> Prop) (p : Prog E C S A) (Q Q' : A -> H -> Prop) :
  hoare P p Q -> (forall h, P' h -> P h) -> (forall a h, Q a h -> Q' a h) -> hoare P' p Q'.
Proof.
  intros Hp HP HQ m h W L H'. destruct (Hp m h W L (HP _ H')) as (h' & W' & L' & R).
  exists h'. split; [done|]. split; [done|]. destruct (p m) as [m' [a|]]; cbn in *; auto.
Qed.

Lemma hoare_pre {A} (P : H -> Prop) (p : Prog E C S A) (Q : A -> H -> Prop) :
  (forall h, P h -> hoare (eq h) p Q) -> hoare P p Q.
Proof. intros Hp m h W L HP. by apply (Hp h HP m h W). Qed.

Lemma hoare_ask P {A} (answer : E -> E * A) : hoare P (ask answer) (fun _ => P).
Proof. intros m h W L HP. unfold ask. destruct (answer (maEnv m)) as [e a]. by exists h. Qed.

Lemma hoare_update P (f : S -> S) : hoare P (update f) (fun _ => P).
Proof. intros m h W L HP. by exists h. Qed.

Lemma hoare_state_of P {A} (f : S -> A) : hoare P (state_of f) (fun _ => P).
Proof. intros m h W L HP. by exists h. Qed.

(** A call the monitor accepts whatever the answer, without dying of it. *)
Definition accepts {A} (P : H -> Prop) (note : A -> C) (Q : A -> H -> Prop) : Prop :=
  forall a h, P h -> exists h', monitor h (note a) = Some h' /\
    (dead h' = true -> dead h = true) /\ Q a h'.

(** Asking the context: only a cancelled one may find the monitor dead. *)
Definition accepts_ctx (P : H -> Prop) (note : bool -> C) (Q : bool -> H -> Prop) : Prop :=
  forall (a : bool) h, P h -> (a = false -> dead h = false) ->
    exists h', monitor h (note a) = Some h' /\ (a = false -> dead h' = false) /\ Q a h'.

Lemma watch_note (calls : list C) (c : C) h : watch calls = Some h ->
  watch (calls ++ [c]) = monitor h c.
Proof. intros W. by rewrite watch_snoc, W. Qed.

Lemma hoare_call {A} P (answer : E -> E * A) (note : A -> C) Q :
  accepts P note Q -> hoare P (call answer note) Q.
Proof.
  intros Ac m h W L HP. unfold call. destruct (answer (maEnv m)) as [e a].
  destruct (Ac a h HP) as (h' & Mo & D & HQ). exists h'. cbn [maTrace fst snd].
  rewrite (watch_note _ _ _ W). split; [done|]. split; [intros Dh; apply L, D, Dh|done].
Qed.

Lemma hoare_sleep P (sleeps : E -> E * bool) (note : bool -> C) Q :
  accepts P note Q -> hoare P (sleep_ctx sleeps note) Q.
Proof.
  intros Ac m h W L HP. unfold sleep_ctx. destruct (sleeps (maEnv m)) as [e b].
  destruct (Ac b h HP) as (h' & Mo & D & HQ). exists h'. cbn [maTrace fst snd].
  rewrite (watch_note _ _ _ W). split; [done|]. split; [|done].
  intros Dh. cbn. by rewrite (L (D Dh)).
Qed.

Lemma hoare_ctx_err P (cancelled : E -> E * bool) (note : bool -> C) Q :
  accepts_ctx P note Q -> hoare P (ctx_err cancelled note) Q.
Proof.
  intros Ac m h W L HP. unfold ctx_err. destruct (maCancelled m) eqn:K.
  - destruct (Ac true h HP) as (h' & Mo & D & HQ); [done|].
    exists h'. cbn [maTrace fst snd]. by rewrite (watch_note _ _ _ W).
  - assert (Al : dead h = false).
    { destruct (dead h) eqn:Dh; [|done]. specialize (L Dh). congruence. }
    destruct (cancelled (maEnv m)) as [e b]. destruct (Ac b h HP) as (h' & Mo & D & HQ); [done|].
    exists h'. cbn [maTrace fst snd]. rewrite (watch_note _ _ _ W). split; [done|].
    split; [|done]. intros Dh. destruct b; [done|]. rewrite (D eq_refl) in Dh. done.
Qed.

(** The same rules from one state of the monitor. *)
Definition after {A} (h : H) (note : A -> C) : A -> H -> Prop :=
  fun a h' => monitor h (note a) = Some h'.

Lemma hoare_ret_eq {A} (h : H) (a : A) (Q : A -> H -> Prop) : Q a h -> hoare (eq h) (done_with a) Q.
Proof. intros HQ m _ W L <-. by exists h. Qed.

Lemma hoare_call_eq {A} (h : H) (answer : E -> E * A) (note : A -> C) :
  (forall a, exists h', monitor h (note a) = Some h' /\ (dead h' = true -> dead h = true)) ->
  hoare (eq h) (call answer note) (after h note).
Proof. intros K. apply hoare_call. intros a _ <-. destruct (K a) as (h' & ? & ?). by exists h'. Qed.

Lemma hoare_sleep_eq (h : H) (sleeps : E -> E * bool) (note : bool -> C) :
  (forall a, exists h', monitor h (note a) = Some h' /\ (dead h' = true -> dead h = true)) ->
  hoare (eq h) (sleep_ctx sleeps note) (after h note).
Proof. intros K. apply hoare_sleep. intros a _ <-. destruct (K a) as (h' & ? & ?). by exists h'. Qed.

Lemma hoare_ctx_err_eq (h : H) (cancelled : E -> E * bool) (note : bool -> C) :
  (forall a : bool, (a = false -> dead h = false) ->
     exists h', monitor h (note a) = Some h' /\ (a = false -> dead h' = false)) ->
  hoare (eq h) (ctx_err cancelled note)
    (fun a h' => after h note a h' /\ (a = false -> dead h = false)).
Proof.
  intros K. apply hoare_ctx_err. intros a _ <- D. destruct (K a D) as (h' & ? & ?).
  by exists h'.
Qed.

End Hoare.

(** One step of a program: a call the monitor accepts in every case, or a step
    it does not see.  [step_as a] names the answer. *)
Ltac accepted := eexists; split; [reflexivity|by cbn; auto].

Ltac step_as a :=
  eapply hoare_bind;
  [ first
      [ apply hoare_ask | apply hoare_update | apply hoare_state_of
      | first [apply hoare_call_eq | apply hoare_ctx_err_eq | apply hoare_sleep_eq];
        intros a; first [accepted | destruct a; accepted
                        | destruct a; intros D; first [accepted | by specialize (D eq_refl)]] ]
  | intros a; apply hoare_pre; intros ? ?; unfold after in *; destruct_and?;
    cbn in *; simplify_eq ].
