(* ===== verification/IngestRunner.v ===== *)
(** poller/redis_ingest_runner.go: from the remote queue and subscription to the
    inbox writer.

    The sources, the writer, the observer, the clock and the context are the
    environment; what the runner asks of it and what it is told is the trace. *)
From S2P Require Import Prelude GoTime Timeutil ControlMessage Runner.

Local Open Scope string_scope.
Local Open Scope list_scope.
Local Open Scope Z_scope.

(** redis_ingest_state.go, with the key and the channel of package cpa. *)
Definition RedisIngestSourceSubscribe : string := "redis_subscribe:usage".
Definition RedisIngestSourceRedisPull : string := "redis_pull:usage".

Record RedisIngestRunnerConfig := mkIngestConfig {
  BatchSize : Z;
  RetryInterval : Duration;
}.

(** The defaults of NewRedisIngestRunner. *)
Definition NewRedisIngestRunner (cfg : RedisIngestRunnerConfig) : RedisIngestRunnerConfig :=
  mkIngestConfig (if BatchSize cfg <=? 0 then 10000 else BatchSize cfg)
    (if RetryInterval cfg <=? 0 then Second else RetryInterval cfg).

Inductive ReceiveError :=
| DeadlineExceeded
| ReceiveFailed (message : string).

Definition receive_text (e : ReceiveError) : string :=
  match e with DeadlineExceeded => "context deadline exceeded" | ReceiveFailed message => message end.

(** An error is its text, [None] is nil. *)
Abbreviation error := (option string).

Inductive IngestCall :=
| CtxErr (cancelled : bool)
| Subscribed (answer : result string bool)
| Closed
| Pulled (answer : result string (list string))
| Received (answer : result ReceiveError string)
| Inserted (detached : bool) (source : string) (messages : list string) (answer : error)
| Slept (delay : Duration) (answer : bool)
| Observed (observer : ObserverCall).

(** What the runner is given.  [Subscribe] says whether the subscription it
    returns is not nil; [Insert] is told whether its context is detached from
    the runner's. *)
Record IngestEnv (E : Type) := mkIngestEnv {
  envCancelled : E -> E * bool;
  envNow : E -> E * Time;
  envSubscribe : E -> E * result string bool;
  envPull : E -> E * result string (list string);
  envReceive : bool -> E -> E * result ReceiveError string;
  envInsert : bool -> string -> list string -> Time -> E -> E * error;
  envSleep : Duration -> E -> E * bool;
  envObserver : bool;
}.
Arguments envCancelled {E}.
Arguments envNow {E}.
Arguments envSubscribe {E}.
Arguments envPull {E}.
Arguments envReceive {E}.
Arguments envInsert {E}.
Arguments envSleep {E}.
Arguments envObserver {E}.

Section Ingest.
Context {E : Type} (env : IngestEnv E) (config : RedisIngestRunnerConfig).

Abbreviation M := (Prog E IngestCall Status).

Local Open Scope prog_scope.

Definition ctxErr : M bool := ctx_err (envCancelled env) CtxErr.
Definition now : M Time := ask (envNow env).
Definition Subscribe : M (result string bool) := call (envSubscribe env) Subscribed.
Definition Close : M unit := call (fun e => (e, tt)) (fun _ => Closed).
Definition Pull : M (result string (list string)) := call (envPull env) Pulled.
Definition Receive (window : bool) : M (result ReceiveError string) :=
  call (envReceive env window) Received.
Definition Insert (detached : bool) (source : string) (messages : list string)
    (receivedAt : Time) : M error :=
  call (envInsert env detached source messages receivedAt) (Inserted detached source messages).
Definition sleep (delay : Duration) : M bool := sleep_ctx (envSleep env delay) (Slept delay).
Definition observer (o : ObserverCall) : M unit :=
  if envObserver env then call (fun e => (e, tt)) (fun _ => Observed o) else done_with tt.

Definition record (state : string) (err : error) (available : bool) : M unit :=
  let+ at_ := now in
  update (fun s => mkStatus (Running s) at_ (default "" err) (LastWarning s) state available).

Definition newBackoff : RedisIngestBackoff :=
  NewRedisIngestBackoff (RetryInterval config) (30 * Second).

(** The loop of [persist]. *)
Fixpoint persist_loop (fuel : nat) (source : string) (messages : list string)
    (receivedAt : Time) (backoff : RedisIngestBackoff) : M error :=
  match fuel with
  | O => out_of_fuel
  | S fuel =>
      let+ detached := ctxErr in
      let+ err := Insert detached source messages receivedAt in
      match err with
      | None => done_with None
      | Some e =>
          record "inbox_write_failed" (Some e) false ;;
          let+ cancelled := ctxErr in
          if cancelled : bool then done_with (Some (String.append "flush usage inbox: " e))
          else
            let '(delay, backoff) := NextDelay backoff in
            let+ _ := sleep delay in
            persist_loop fuel source messages receivedAt backoff
      end
  end.

Definition persist (fuel : nat) (source : string) (messages : list string) : M error :=
  match messages with
  | [] => done_with None
  | _ =>
      let+ at_ := now in
      persist_loop fuel source messages (NormalizeStorageTime at_) newBackoff
  end.

(** [len(messages) < BatchSize]. *)
Definition short (messages : list string) : bool := Z.of_nat (length messages) <? BatchSize config.

(** The loop that empties the backlog; [Some] is an error to return. *)
Fixpoint backfill (fuel : nat) (tries : nat) : M error :=
  match tries with
  | O => out_of_fuel
  | S tries =>
      let+ cancelled := ctxErr in
      if cancelled : bool then done_with None
      else
        let+ answer := Pull in
        match answer with
        | Err e => done_with (Some (String.append "read usage backlog: " e))
        | Ok messages =>
            let+ err := persist fuel RedisIngestSourceRedisPull messages in
            match err with
            | Some e => done_with (Some e)
            | None => if short messages then done_with None else backfill fuel tries
            end
        end
  end.

(** Gathering a batch for one second: the batch and the error that ended it. *)
Fixpoint gather (tries : nat) (batch : list string) : M (list string * option ReceiveError) :=
  match tries with
  | O => out_of_fuel
  | S tries =>
      if short batch then
        let+ answer := Receive true in
        match answer with
        | Err e => done_with (batch, Some e)
        | Ok message => gather tries (batch ++ [message])
        end
      else done_with (batch, None)
  end.

Fixpoint subscribing (fuel : nat) (tries : nat) : M error :=
  match tries with
  | O => out_of_fuel
  | S tries =>
      let+ cancelled := ctxErr in
      if cancelled : bool then done_with (Some "context canceled")
      else
        record "subscribing" None true ;;
        let+ answer := Receive false in
        match answer with
        | Err e => done_with (Some (receive_text e))
        | Ok first =>
            let+ gathered := gather fuel [first] in
            let '(batch, receiveErr) := gathered in
            let+ err := persist fuel RedisIngestSourceSubscribe batch in
            match err with
            | Some e => done_with (Some e)
            | None =>
                match receiveErr with
                | Some (ReceiveFailed message) => done_with (Some message)
                | _ => subscribing fuel tries
                end
            end
        end
  end.

Definition consume (fuel : nat) : M error :=
  record "subscribe_backfill" None true ;;
  let+ err := backfill fuel fuel in
  match err with
  | Some e => done_with (Some e)
  | None => subscribing fuel fuel
  end.

Definition setRunning (running : bool) : M unit :=
  update (fun s => mkStatus running (LastRunAt s) (LastError s) (LastWarning s) (LastStatus s)
                     (if running then SyncRunning s else false)).

(** The loop of [Run]. *)
Fixpoint reconnecting (fuel : nat) (tries : nat) (backoff : RedisIngestBackoff) : M unit :=
  match tries with
  | O => out_of_fuel
  | S tries =>
      let+ cancelled := ctxErr in
      if cancelled : bool then done_with tt
      else
        record "connecting" None false ;;
        let+ answer := Subscribe in
        let+ outcome :=
          match answer with
          | Err e => done_with (Some e, backoff)
          | Ok false => done_with (Some "usage subscription is nil", backoff)
          | Ok true =>
              observer NotifyIngestConnected ;;
              let+ err := consume fuel in
              Close ;;
              done_with (err, Reset_ backoff)
          end in
        let '(err, backoff) := outcome in
        let+ cancelled := ctxErr in
        if cancelled : bool then done_with tt
        else
          record "reconnecting" err false ;;
          observer (MarkRefreshPollingRequired "usage subscription disconnected") ;;
          let '(delay, backoff) := NextDelay backoff in
          let+ slept := sleep delay in
          if slept : bool then reconnecting fuel tries backoff else done_with tt
  end.

(** [wired] says that the sources and the writer are there. *)
Definition Run (wired : bool) (fuel : nat) : M (result SyncError unit) :=
  if negb wired
  then done_with (Err (OtherError
    "usage subscription, backlog source, and inbox writer are required"))
  else
    let+ running := state_of Running in
    if running : bool then done_with (Err ErrSyncAlreadyRunning)
    else
      setRunning true ;;
      reconnecting fuel fuel newBackoff ;;
      setRunning false ;;
      done_with (Ok tt).

End Ingest.
