(* ===== verification/IngestFacts.v ===== *)
(** The ingest runner as a reliable forwarder of one batch at a time, and the
    delays of its backoff. *)
From S2P Require Import Prelude GoTime Timeutil ControlMessage Runner IngestRunner.

Local Open Scope string_scope.
Local Open Scope list_scope.
Local Open Scope Z_scope.

(** *** The specification: what is in the runner's hands *)

Inductive Hand :=
(** Nothing that was taken from the remote side. *)
| Free
(** Messages of the subscription, still being gathered. *)
| Gathering (batch : list string)
(** A batch on its way to the inbox. *)
| Writing (source : string) (batch : list string)
(** The inbox has just refused it. *)
| Refused (source : string) (batch : list string)
(** The inbox refused it and the context is done. *)
| Lost (batch : list string).

Definition batch_in (h : Hand) : list string :=
  match h with
  | Free => []
  | Gathering b | Writing _ b | Refused _ b | Lost b => b
  end.

Section Forwarder.
Context (batchSize : Z).

(** [None] is a call the specification forbids: taking anything while a batch
    waits for the inbox, writing something else than the batch in hand, giving
    a batch up while the context is alive. *)
Definition forward (h : Hand) (c : IngestCall) : option Hand :=
  match c, h with
  | CtxErr true, Refused _ b => Some (Lost b)
  | CtxErr _, Gathering b =>
      if batchSize <=? Z.of_nat (length b)
      then Some (Writing RedisIngestSourceSubscribe b) else None
  | CtxErr _, _ => Some h
  | Subscribed _, Free => Some Free
  | Observed _, Free => Some Free
  | Closed, (Free | Lost _) => Some h
  | Pulled (Ok []), Free => Some Free
  | Pulled (Ok b), Free => Some (Writing RedisIngestSourceRedisPull b)
  | Pulled (Err _), Free => Some Free
  | Received (Ok m), Free => Some (Gathering [m])
  | Received (Err _), Free => Some Free
  | Received (Ok m), Gathering b =>
      if Z.of_nat (length b) <? batchSize then Some (Gathering (b ++ [m])) else None
  | Received (Err _), Gathering b => Some (Writing RedisIngestSourceSubscribe b)
  | Inserted _ source messages answer, Writing source' b =>
      if bool_decide (source = source' /\ messages = b)
      then Some (match answer with None => Free | Some _ => Refused source b end) else None
  | Slept _ _, Free => Some Free
  | Slept _ _, Refused source b => Some (Writing source b)
  | _, _ => None
  end.

End Forwarder.

(** *** The runner is such a forwarder *)

Section Facts.
Context {E : Type} (env : IngestEnv E) (config : RedisIngestRunnerConfig).

(** Only a cancelled context makes the runner give a batch up. *)
Definition gone (h : Hand) : bool := match h with Lost _ => true | _ => false end.

Abbreviation spec := (hoare (E := E) (S := Status) (forward (BatchSize config)) Free gone).

(** A batch ready to be written; a full one is still being gathered. *)
Definition ready (source : string) (b : list string) (h : Hand) : Prop :=
  h = Writing source b \/
  (h = Gathering b /\ source = RedisIngestSourceSubscribe /\
     BatchSize config <= Z.of_nat (length b)).

Definition written (b : list string) (err : error) (h : Hand) : Prop :=
  h = match err with None => Free | Some _ => Lost b end.

Lemma record_spec h state err available :
  spec (eq h) (record env state err available) (fun _ => eq h).
Proof. unfold record, now. step_as at_. apply hoare_update. Qed.

Lemma persist_loop_spec fuel source b at_ backoff :
  spec (ready source b) (persist_loop env fuel source b at_ backoff) (written b).
Proof.
  revert backoff. induction fuel as [|fuel IH]; intros backoff; [apply hoare_stuck|].
  cbn [persist_loop]. unfold ctxErr.
  eapply hoare_bind with (Q := fun _ => eq (Writing source b)).
  { apply hoare_ctx_err. intros a h [-> | (-> & -> & L)]; [by destruct a; eexists|].
    apply Z.leb_le in L. cbn. rewrite L. destruct a; by eexists. }
  intros detached. unfold Insert.
  eapply hoare_bind with (Q := fun err h =>
    h = match err with None => Free | Some _ => Refused source b end).
  { apply hoare_call. intros err h <-. cbn. rewrite bool_decide_eq_true_2 by done. by destruct err; eexists. }
  intros err. apply hoare_pre. intros h ->. destruct err as [e|]; [|by apply hoare_ret_eq].
  eapply hoare_bind; [apply record_spec|]. intros ?.
  step_as cancelled. destruct cancelled; simplify_eq; [by apply hoare_ret_eq|].
  destruct (NextDelay backoff) as [delay backoff']. unfold sleep. step_as slept.
  eapply hoare_weaken; [apply IH| |done]. intros h <-. by left.
Qed.

Lemma persist_spec fuel source b :
  spec (fun h => if b is [] then h = Free else ready source b h) (persist env config fuel source b)
       (written b).
Proof.
  unfold persist. destruct b as [|m b].
  - apply hoare_pre. intros h ->. by apply hoare_ret_eq.
  - eapply hoare_bind; [apply hoare_ask|]. intros at_. apply persist_loop_spec.
Qed.

(** What the loops leave behind: nothing, or a batch lost to a cancelled context. *)
Definition settled (err : error) (h : Hand) : Prop :=
  h = Free \/ (err <> None /\ exists b, h = Lost b).

Lemma written_settled b err h : written b err h -> settled err h.
Proof. intros ->. destruct err; [right|by left]. split; [done|by eexists]. Qed.

Lemma backfill_spec fuel tries : spec (eq Free) (backfill env config fuel tries) settled.
Proof.
  induction tries as [|tries IH]; [apply hoare_stuck|]. cbn [backfill]. unfold ctxErr, Pull.
  step_as cancelled. destruct cancelled; simplify_eq; [apply hoare_ret_eq; by left|].
  eapply hoare_bind.
  { apply hoare_call_eq. intros [[|]|]; cbn; eauto. }
  intros answer. apply hoare_pre. intros h A. unfold after in A.
  destruct answer as [messages|e]; [|injection A as <-; apply hoare_ret_eq; by left].
  eapply hoare_bind.
  { eapply hoare_weaken; [apply (persist_spec fuel RedisIngestSourceRedisPull messages)| |].
    - intros ? <-. cbn in A. destruct messages; [by injection A as <-|injection A as <-; by left].
    - intros err h' R. exact R. }
  intros [e|]; apply hoare_pre; intros h' R; rewrite R.
  - apply hoare_ret_eq. right. split; [done|by eexists].
  - destruct (short config messages); [apply hoare_ret_eq; by left|apply IH].
Qed.

Lemma gather_spec tries b : b <> [] ->
  spec (eq (Gathering b)) (gather env config tries b)
       (fun r h => r.1 <> [] /\ ready RedisIngestSourceSubscribe r.1 h).
Proof.
  revert b. induction tries as [|tries IH]; intros b N; [apply hoare_stuck|]. cbn [gather].
  unfold short. destruct (Z.ltb_spec (Z.of_nat (length b)) (BatchSize config)) as [L|L].
  2: { apply hoare_ret_eq. split; [done|]. right. by split_and!. }
  apply Z.ltb_lt in L. unfold Receive. eapply hoare_bind.
  { apply hoare_call_eq. intros [m|e]; cbn; rewrite ?L; by eexists. }
  intros [m|e]; apply hoare_pre; intros h R; unfold after in R; cbn in R; rewrite ?L in R;
    injection R as <-.
  - apply IH. by destruct b.
  - apply hoare_ret_eq. split; [done|by left].
Qed.

Lemma subscribing_spec fuel tries : spec (eq Free) (subscribing env config fuel tries) settled.
Proof.
  induction tries as [|tries IH]; [apply hoare_stuck|]. cbn [subscribing]. unfold ctxErr.
  step_as cancelled. destruct cancelled; simplify_eq; [apply hoare_ret_eq; by left|].
  eapply hoare_bind; [apply record_spec|]. intros ?. unfold Receive.
  step_as answer. destruct answer as [first|e]; simplify_eq; [|apply hoare_ret_eq; by left].
  eapply hoare_bind; [by apply gather_spec|]. intros [batch receiveErr]. cbn [fst].
  eapply hoare_bind.
  { eapply hoare_weaken; [apply (persist_spec fuel RedisIngestSourceSubscribe batch)| |].
    - intros h [N R]. by destruct batch.
    - intros err h R. exact R. }
  intros [e|]; apply hoare_pre; intros h R; rewrite R.
  - apply hoare_ret_eq. right. split; [done|by eexists].
  - destruct receiveErr as [[|]|]; try apply IH. apply hoare_ret_eq. by left.
Qed.

Lemma consume_spec fuel : spec (eq Free) (consume env config fuel) settled.
Proof.
  unfold consume. eapply hoare_bind; [apply record_spec|]. intros ?.
  eapply hoare_bind; [apply backfill_spec|]. intros [e|]; apply hoare_pre; intros h [-> | [N L]].
  - apply hoare_ret_eq. by left.
  - apply hoare_ret_eq. by right.
  - apply subscribing_spec.
  - done.
Qed.

Lemma observer_spec o : spec (eq Free) (observer env o) (fun _ => eq Free).
Proof.
  unfold observer. destruct (envObserver env); [|by apply hoare_ret_eq].
  apply hoare_call. intros ? h <-. by exists Free.
Qed.

Lemma reconnecting_spec fuel tries backoff :
  spec (eq Free) (reconnecting env config fuel tries backoff)
       (fun _ h => h = Free \/ exists b, h = Lost b).
Proof.
  revert backoff. induction tries as [|tries IH]; intros backoff; [apply hoare_stuck|].
  cbn [reconnecting]. unfold ctxErr, Subscribe.
  step_as cancelled. destruct cancelled; simplify_eq; [apply hoare_ret_eq; by left|].
  eapply hoare_bind; [apply record_spec|]. intros ?.
  step_as answer.
  eapply hoare_bind with (Q := fun _ h => h = Free \/ exists b, h = Lost b).
  { destruct answer as [[|]|e]; [|apply hoare_ret_eq; by left..].
    eapply hoare_bind; [apply observer_spec|]. intros ?.
    eapply hoare_bind; [apply consume_spec|]. intros err. unfold Close.
    eapply hoare_bind with (Q := fun _ h => h = Free \/ exists b, h = Lost b).
    - apply hoare_call. intros ? h [-> |[_ [b ->]]]; eexists; (split; [reflexivity|]);
        (split; [done|]); [by left|right; by eexists].
    - intros ?. apply hoare_pre. intros h R. by apply hoare_ret_eq. }
  intros [err backoff']. apply hoare_pre. intros h R.
  destruct R as [-> |[b ->]].
  - step_as cancelled. destruct cancelled; simplify_eq; [apply hoare_ret_eq; by left|].
    eapply hoare_bind; [apply record_spec|]. intros ?.
    eapply hoare_bind; [apply observer_spec|]. intros ?.
    destruct (NextDelay backoff') as [delay backoff'']. unfold sleep.
    step_as slept. destruct slept; [apply IH|apply hoare_ret_eq; by left].
  - step_as cancelled. destruct cancelled; simplify_eq; [apply hoare_ret_eq; by eauto|].
    naive_solver.
Qed.

Lemma run_forward wired fuel :
  spec (eq Free) (Run env config wired fuel) (fun _ h => h = Free \/ exists b, h = Lost b).
Proof.
  unfold Run. destruct wired; cbn [negb]; [|apply hoare_ret_eq; by left].
  step_as running. destruct running; [apply hoare_ret_eq; by left|]. unfold setRunning.
  step_as u. eapply hoare_bind; [apply reconnecting_spec|]. intros ?.
  eapply hoare_bind; [apply hoare_update|]. intros ?.
  apply hoare_pre. intros h R. by apply hoare_ret_eq.
Qed.

End Facts.

(** *** Nothing is lost, nothing is written twice *)

Definition taken (c : IngestCall) : list string :=
  match c with
  | Pulled (Ok messages) => messages
  | Received (Ok message) => [message]
  | _ => []
  end.

Definition stored (c : IngestCall) : list string :=
  match c with Inserted _ _ messages None => messages | _ => [] end.

Lemma forward_accounts (n : Z) (calls : list IngestCall) (h : Hand) :
  watch (forward n) Free calls = Some h ->
  mjoin (map taken calls) = mjoin (map stored calls) ++ batch_in h.
Proof.
  revert h. induction calls as [|c calls IH] using rev_ind; intros h W; [by injection W as <-|].
  rewrite watch_snoc in W. destruct (watch (forward n) Free calls) as [g|] eqn:G; [|done].
  cbn [mbind option_bind] in W. rewrite !map_app, !join_app, (IH g eq_refl), <- !app_assoc.
  f_equal. cbn [map mjoin list_join]. rewrite !app_nil_r.
  destruct c as [[]|[]| |[[|]|]|[]|? ? ? []|? ?|?], g; cbn in W |- *; repeat case_match;
    simplify_eq; cbn; rewrite ?app_nil_r; try done.
  by apply bool_decide_eq_true in H as [_ ->].
Qed.

(** *** The delays *)

Fixpoint delays (n : nat) (b : RedisIngestBackoff) : list Duration :=
  match n with
  | O => []
  | S n => let '(delay, b) := NextDelay b in delay :: delays n b
  end.

Definition backoff_delay (initial max : Duration) (i : Z) : Duration := Z.min max (initial * 2 ^ i).

Lemma NextDelay_double (initial max k : Z) : 0 < initial <= max -> max < 2 ^ 62 -> 0 <= k ->
  NextDelay (mkBackoff initial max (backoff_delay initial max k)) =
  (backoff_delay initial max k, mkBackoff initial max (backoff_delay initial max (k + 1))).
Proof.
  intros I M K. unfold NextDelay, backoff_delay. cbn [boInitial boMax boNext].
  assert (P : 1 <= 2 ^ k) by (apply (Z.pow_le_mono_r 2 0 k); lia).
  assert (Q : initial <= initial * 2 ^ k) by nia.
  assert (D : 0 < Z.min max (initial * 2 ^ k)) by lia.
  rewrite !(proj2 (Z.leb_gt (Z.min max (initial * 2 ^ k)) 0)) by exact D.
  rewrite mul64_id by (unfold in_int64, int64_min, int64_max; lia).
  rewrite (proj2 (Z.ltb_lt 0 max)) by lia. cbn [andb]. rewrite Z.pow_add_r, Z.pow_1_r by lia.
  do 2 f_equal. destruct (Z.ltb_spec max (Z.min max (initial * 2 ^ k) * 2)); lia.
Qed.

Lemma delays_from (initial max k : Z) (n : nat) : 0 < initial <= max -> max < 2 ^ 62 -> 0 <= k ->
  delays n (mkBackoff initial max (backoff_delay initial max k)) =
  map (backoff_delay initial max) (seqZ k (Z.of_nat n)).
Proof.
  intros I M. revert k. induction n as [|n IH]; intros k K; [done|].
  cbn [delays]. rewrite NextDelay_double, IH by lia.
  rewrite (seqZ_cons k (Z.of_nat (S n))) by lia. cbn [map]. f_equal. f_equal. f_equal; lia.
Qed.

(** Failures in a row wait the initial delay, twice as long after each
    failure, and the maximum once it is reached; a reset starts over. *)
Theorem backoff_doubles (initial max : Duration) (n : nat) :
  0 < initial <= max -> max < 2 ^ 62 ->
  delays n (NewRedisIngestBackoff initial max) =
    map (fun i => Z.min max (initial * 2 ^ i)) (seqZ 0 (Z.of_nat n)) /\
  forall b, boInitial b = initial -> boMax b = max ->
    Reset_ b = NewRedisIngestBackoff initial max.
Proof.
  intros I M. split.
  - transitivity (delays n (mkBackoff initial max (backoff_delay initial max 0))).
    + unfold NewRedisIngestBackoff, backoff_delay. do 2 f_equal. lia.
    + apply (delays_from initial max 0 n); lia.
  - intros [bi bm bn] <- <-. done.
Qed.

Section Promise.
Context {E : Type} (env : IngestEnv E) (config : RedisIngestRunnerConfig).

(** C7: whatever the remote side, the inbox, the clock and the context do, and
    wherever the runner is in its work, the messages it has taken are, in order,
    the messages the inbox has accepted and the one batch in its hands; it takes
    nothing while that batch waits; it stops only with free hands, or with a
    batch the inbox refused under a cancelled context. *)
Theorem ingest_forwards (wired : bool) (fuel : nat) (m : Machine E IngestCall Status) :
  maTrace m = [] ->
  let '(m', res) := Run env config wired fuel m in
  exists h, watch (forward (BatchSize config)) Free (maTrace m') = Some h /\
    mjoin (map taken (maTrace m')) = mjoin (map stored (maTrace m')) ++ batch_in h /\
    (gone h = true -> maCancelled m' = true) /\
    (is_Some res -> batch_in h <> [] -> gone h = true).
Proof.
  intros T. pose proof (run_forward env config wired fuel m Free) as R. rewrite T in R.
  destruct (Run env config wired fuel m) as [m' res].
  destruct R as (h & W & L & Q); [done|done|done|]. exists h. split_and!; [exact W| |exact L|].
  - exact (forward_accounts _ _ _ W).
  - intros [r ->] N. destruct Q as [-> |[b ->]]; [done|done].
Qed.

(** The writer's answers to [n] refusals and one success, [e] being the
    environment of the first write. *)
Fixpoint accepts_after (n : nat) (source : string) (batch : list string) (at_ : Time) (e : E) : Prop :=
  let '(e', answer) := envInsert env false source batch at_ e in
  match n with
  | O => answer = None
  | S n => answer <> None /\ accepts_after n source batch at_ e'
  end.

Definition written_at_last (source : string) (batch : list string) (calls : list IngestCall) : Prop :=
  exists before, calls = before ++ [Inserted false source batch None].

Definition slept (calls : list IngestCall) : list Duration :=
  omap (fun c => match c with Slept d _ => Some d | _ => None end) calls.

(** Neither context nor clock nor timer touches what the writer depends on. *)
Definition calm : Prop :=
  (forall e, envCancelled env e = (e, false)) /\
  (forall e, (envNow env e).1 = e) /\
  (forall d e, envSleep env d e = (e, true)).

Lemma persist_loop_reaches (n fuel : nat) source batch at_ backoff (m : Machine E IngestCall Status) :
  calm -> maCancelled m = false -> accepts_after n source batch at_ (maEnv m) -> (n < fuel)%nat ->
  exists m' calls, persist_loop env fuel source batch at_ backoff m = (m', Some None) /\
    maTrace m' = maTrace m ++ calls /\ written_at_last source batch calls /\
    slept calls = delays n backoff.
Proof.
  intros (Cc & Cn & Cs). revert n backoff m.
  induction fuel as [|fuel IH]; intros n backoff m Al A Lt; [lia|].
  cbn [persist_loop]. unfold and_then at 1, ctxErr, ctx_err. rewrite Al, Cc.
  unfold and_then at 1, Insert, call. cbn [maEnv maCancelled maTrace maState].
  destruct n as [|n]; cbn [accepts_after] in A;
    destruct (envInsert env false source batch at_ (maEnv m)) as [e answer].
  { subst answer. eexists _, [_; _]. split; [reflexivity|]. cbn [maTrace].
    split; [by rewrite <- app_assoc|]. split; [by exists [CtxErr false]|done]. }
  destruct A as [N A]. destruct answer as [err|]; [|done].
  unfold and_then at 1, record, now, and_then at 1, ask. cbn [maEnv maCancelled maTrace maState].
  pose proof (Cn e) as Cne. destruct (envNow env e) as [e2 tm]. cbn [fst] in Cne. subst e2.
  unfold update. cbn [maEnv maCancelled maTrace maState].
  unfold and_then at 1. rewrite Cc.
  destruct (NextDelay backoff) as [delay backoff'] eqn:Nd.
  unfold and_then at 1, sleep, sleep_ctx. cbn [maEnv maCancelled maTrace maState]. rewrite Cs.
  cbn [negb orb]. edestruct (IH n backoff') as (m' & calls & -> & T & Wr & Sl); cycle 3.
  - exists m', (CtxErr false :: Inserted false source batch (Some err) :: CtxErr false ::
                Slept delay true :: calls).
    split; [reflexivity|]. rewrite T. cbn [maTrace]. rewrite <- !app_assoc. split; [done|].
    split.
    + destruct Wr as [before ->]. by exists (CtxErr false ::
        Inserted false source batch (Some err) :: CtxErr false :: Slept delay true :: before).
    + cbn [slept omap list_omap delays]. rewrite Nd. by f_equal.
  - done.
  - exact A.
  - lia.
Qed.

(** While the context lives, a batch the inbox keeps refusing is offered
    again, after delays that double up to 30 seconds, until it is accepted; it is
    written by the last call and by no other. *)
Theorem persist_until_accepted (n fuel : nat) source batch (m : Machine E IngestCall Status) :
  calm -> maCancelled m = false -> batch <> [] ->
  accepts_after n source batch (NormalizeStorageTime (envNow env (maEnv m)).2) (maEnv m) ->
  (n < fuel)%nat -> 0 < RetryInterval config <= 30 * Second ->
  exists m' calls, persist env config fuel source batch m = (m', Some None) /\
    maTrace m' = maTrace m ++ calls /\ written_at_last source batch calls /\
    slept calls = map (fun i => Z.min (30 * Second) (RetryInterval config * 2 ^ i))
                    (seqZ 0 (Z.of_nat n)).
Proof.
  intros Ca Al N A L R. unfold persist. destruct batch as [|x batch]; [done|].
  unfold and_then at 1, now, ask. destruct Ca as (Cc & Cn & Cs).
  pose proof (Cn (maEnv m)) as Cm. destruct (envNow env (maEnv m)) as [e t]. cbn [fst snd] in *.
  subst e.
  destruct (persist_loop_reaches n fuel source (x :: batch) (NormalizeStorageTime t)
    (newBackoff config) (mkMachine (maEnv m) (maCancelled m) (maTrace m) (maState m)))
    as (m' & calls & P & T & W & S); [done|done|done|done|].
  exists m', calls. split_and!; [exact P|exact T|exact W|]. rewrite S.
  unfold newBackoff, NewRedisIngestBackoff.
  transitivity (delays n (mkBackoff (RetryInterval config) (30 * Second)
                            (backoff_delay (RetryInterval config) (30 * Second) 0))).
  - unfold backoff_delay. do 2 f_equal. lia.
  - apply delays_from; unfold Second in *; lia.
Qed.

End Promise.

(** *** Witnesses, and a batch that is lost *)

Definition start_machine {E} (e : E) : Machine E IngestCall Status :=
  mkMachine e false [] emptyStatus.

Definition demo_config : RedisIngestRunnerConfig := NewRedisIngestRunner (mkIngestConfig 2 0).

(** Two messages wait, then three arrive; the inbox refuses every other write;
    the context is cancelled after the sixth write. *)
Definition demo_env : IngestEnv nat :=
  mkIngestEnv nat (fun e => (e, (6 <=? e)%nat)) (fun e => (e, unix_time 1700000000))
    (fun e => (e, Ok true))
    (fun e => (e, Ok (if (e <? 2)%nat then ["a"; "b"] else [])))
    (fun window e => (e, if window then Err DeadlineExceeded else Ok "c"))
    (fun _ _ _ _ e => (S e, if Nat.even e then Some "database is locked" else None))
    (fun _ e => (e, true)) true.

Lemma backoff_doubles_witness :
  delays 7 (NewRedisIngestBackoff Second (30 * Second)) =
    map (fun s => s * Second) [1; 2; 4; 8; 16; 30; 30].
Proof.
  rewrite (proj1 (backoff_doubles Second (30 * Second) 7 ltac:(unfold Second; lia)
    ltac:(unfold Second; lia))).
  vm_compute. reflexivity.
Defined.

Lemma ingest_forwards_witness :
  mjoin (map stored (maTrace (Run demo_env demo_config true 50 (start_machine 0%nat)).1)) =
    ["a"; "b"; "c"; "c"] /\
  exists h, watch (forward 2) Free
    (maTrace (Run demo_env demo_config true 50 (start_machine 0%nat)).1) = Some h.
Proof.
  split; [vm_compute; reflexivity|].
  pose proof (ingest_forwards demo_env demo_config true 50 (start_machine 0%nat) eq_refl) as H.
  destruct (Run demo_env demo_config true 50 (start_machine 0%nat)) as [m' res].
  destruct H as (h & W & _). exists h. exact W.
Defined.

(** A writer that refuses three times. *)
Definition busy_env : IngestEnv nat :=
  mkIngestEnv nat (fun e => (e, false)) (fun e => (e, unix_time 1700000000))
    (fun e => (e, Ok true)) (fun e => (e, Ok [])) (fun _ e => (e, Err DeadlineExceeded))
    (fun _ _ _ _ e => (S e, if (e <? 3)%nat then Some "database is locked" else None))
    (fun _ e => (e, true)) false.

Lemma persist_until_accepted_witness :
  exists m' calls, persist busy_env demo_config 4 "s" ["a"] (start_machine 0%nat) = (m', Some None)
    /\ slept calls = [Second; 2 * Second; 4 * Second].
Proof.
  destruct (persist_until_accepted busy_env demo_config 3 4 "s" ["a"] (start_machine 0%nat))
    as (m' & calls & P & _ & _ & S).
  - by split_and!.
  - reflexivity.
  - done.
  - cbn. by split_and!.
  - lia.
  - vm_compute. by split.
  - exists m', calls. split; [exact P|]. rewrite S. vm_compute. reflexivity.
Defined.

(** The context is cancelled while the first write runs, which fails for it; a
    write with a detached context would be accepted. *)
Definition cancel_env : IngestEnv nat :=
  mkIngestEnv nat (fun e => (e, (0 <? e)%nat)) (fun e => (e, unix_time 1700000000))
    (fun e => (e, Ok true)) (fun e => (e, Ok ["a"])) (fun _ e => (e, Err DeadlineExceeded))
    (fun detached _ _ _ e => (S e, if detached : bool then None else Some "context canceled"))
    (fun _ e => (e, false)) false.

(** The runner then ends without the detached write that its comment promises,
    and the batch it has popped from the backlog is gone. *)
Example cancel_during_write_loses_batch :
  let '(m', res) := Run cancel_env demo_config true 50 (start_machine 0%nat) in
  res = Some (Ok tt) /\ mjoin (map taken (maTrace m')) = ["a"] /\
  mjoin (map stored (maTrace m')) = [] /\
  (forall source messages at_ e, (envInsert cancel_env true source messages at_ e).2 = None) /\
  maTrace m' = [CtxErr false; Subscribed (Ok true); CtxErr false; Pulled (Ok ["a"]); CtxErr false;
    Inserted false RedisIngestSourceRedisPull ["a"] (Some "context canceled"); CtxErr true;
    Closed; CtxErr true].
Proof. vm_compute. by split_and!. Qed.
