(* ===== verification/ProcessRunner.v ===== *)
(** poller/redis_process_runner.go: the loop from the inbox to the usage events,
    and the status the two runners show together. *)
From S2P Require Import Prelude GoTime Timeutil SyncProcess Runner.

Local Open Scope string_scope.
Local Open Scope list_scope.
Local Open Scope Z_scope.

Definition redisInboxProcessInterval : Duration := Second.

(** The runner's fields. *)
Record RedisProcessRunner := mkProcessRunner {
  prRunning : bool;
  prProcessRunning : bool;
  prLastRunAt : Time;
  prLastError : string;
  prLastWarning : string;
  prLastStatus : string;
}.

Definition NewRedisProcessRunner : RedisProcessRunner :=
  mkProcessRunner false false zero_time "" "" "".

#[export] Instance RedisBatchSyncResult_eq_dec : EqDecision RedisBatchSyncResult.
Proof. solve_decision. Defined.
#[export] Instance SyncError_eq_dec : EqDecision SyncError.
Proof. solve_decision. Defined.

Abbreviation Outcome := (option RedisBatchSyncResult * option SyncError)%type.

Inductive ProcessCall :=
| AskedContext (cancelled : bool)
| Processed (answer : Outcome)
| LoggedFailure (answer : Outcome)
| Paused (delay : Duration) (answer : bool).

Definition error_message (e : SyncError) : string :=
  match e with
  | ErrSyncAlreadyRunning => "sync already running"
  | ErrSyncCompletedWithWarnings cause => String.append "sync completed with warnings: " cause
  | Canceled message | OtherError message => message
  end.

(** [errors.Is(err, ErrSyncCompletedWithWarnings)]. *)
Definition isWarnings (e : SyncError) : bool :=
  match e with ErrSyncCompletedWithWarnings _ => true | _ => false end.

(** [err != nil && !errors.Is(err, ErrSyncCompletedWithWarnings)]. *)
Definition realFailure (err : option SyncError) : bool :=
  match err with Some e => negb (isWarnings e) | None => false end.

Definition shouldLogRedisProcessBatchFailure (o : Outcome) : bool :=
  if negb (shouldLogSyncError o.2) then false
  else
    match o.1 with
    | None => true
    | Some result =>
        if rbRetryPending result then false
        else if 0 <? rbDiscardedRows result then false
        else true
    end.

Definition shouldContinueRedisProcessImmediately (o : Outcome) : bool :=
  match o.1 with
  | None => false
  | Some result =>
      if negb (rbBatchFull result) then false
      else if rbRetryPending result then false
      else if realFailure o.2 then false
      else true
  end.

(** [result != nil && result.Status != "" && result.Status != "failed"]. *)
Definition partlyDone (result : option RedisBatchSyncResult) : bool :=
  match result with
  | Some result => negb (rbStatus result =?s "") && negb (rbStatus result =?s "failed")
  | None => false
  end.

Definition recordProcessResult (now : Time) (result : option RedisBatchSyncResult)
    (err : option SyncError) (r : RedisProcessRunner) : RedisProcessRunner :=
  let status := match result with Some result => rbStatus result | None => "" end in
  let status := if (status =?s "") && bool_decide (err = None) then "completed" else status in
  let message := match err with Some e => error_message e | None => "" end in
  mkProcessRunner (prRunning r) (prProcessRunning r) (NormalizeStorageTime now)
    (if partlyDone result then "" else message)
    (if partlyDone result then message else "") status.

(** What ProcessOnce returns for what the syncer returned. *)
Definition returned (o : Outcome) : Outcome :=
  match o with
  | (result, Some e) =>
      (result, Some (if partlyDone result then ErrSyncCompletedWithWarnings (error_message e) else e))
  | (result, None) => (result, None)
  end.

(** What the runner is given; the syncer may be missing. *)
Record ProcessEnv (E : Type) := mkProcessEnv {
  peCancelled : E -> E * bool;
  peNow : E -> E * Time;
  peSyncer : option (E -> E * Outcome);
  peSleep : Duration -> E -> E * bool;
}.
Arguments peCancelled {E}.
Arguments peNow {E}.
Arguments peSyncer {E}.
Arguments peSleep {E}.

Section Process.
Context {E : Type} (env : ProcessEnv E).

Abbreviation M := (Prog E ProcessCall RedisProcessRunner).

Local Open Scope prog_scope.

Definition setRunning (running : bool) : M unit :=
  update (fun r => mkProcessRunner running (prProcessRunning r) (prLastRunAt r) (prLastError r)
                     (prLastWarning r) (prLastStatus r)).

Definition setProcessRunning (running : bool) : M unit :=
  update (fun r => mkProcessRunner (prRunning r) running (prLastRunAt r) (prLastError r)
                     (prLastWarning r) (prLastStatus r)).

Definition syncerIsNil : SyncError := OtherError "redis process syncer is nil".

Definition ProcessOnce : M Outcome :=
  match peSyncer env with
  | None => done_with (None, Some syncerIsNil)
  | Some syncer =>
      let+ running := state_of prProcessRunning in
      if running : bool then done_with (None, Some ErrSyncAlreadyRunning)
      else
        setProcessRunning true ;;
        let+ answer := call syncer Processed in
        let+ now := ask (peNow env) in
        update (recordProcessResult now answer.1 answer.2) ;;
        setProcessRunning false ;;
        done_with (returned answer)
  end.

(** The loop of [Run]. *)
Fixpoint processing (fuel : nat) : M unit :=
  match fuel with
  | O => out_of_fuel
  | S fuel =>
      let+ cancelled := ctx_err (peCancelled env) AskedContext in
      if cancelled : bool then done_with tt
      else
        let+ o := ProcessOnce in
        (if realFailure o.2 && shouldLogRedisProcessBatchFailure o
         then call (fun e => (e, tt)) (fun _ => LoggedFailure o) else done_with tt) ;;
        if shouldContinueRedisProcessImmediately o then processing fuel
        else
          let+ slept := sleep_ctx (peSleep env redisInboxProcessInterval)
                          (Paused redisInboxProcessInterval) in
          if slept : bool then processing fuel else done_with tt
  end.

Definition Run (fuel : nat) : M (option SyncError) :=
  match peSyncer env with
  | None => done_with (Some syncerIsNil)
  | Some _ =>
      setRunning true ;;
      processing fuel ;;
      setRunning false ;;
      done_with None
  end.

End Process.

Definition RedisProcessRunner_Status (r : RedisProcessRunner) : Status :=
  mkStatus (prRunning r) (prLastRunAt r) (prLastError r) (prLastWarning r) (prLastStatus r)
    (prProcessRunning r).

(** RedisPoller.Status; an absent runner has the empty status. *)
Definition RedisPoller_Status (ingest : option Status) (process : option RedisProcessRunner)
    : Status :=
  let ingestStatus := default emptyStatus ingest in
  let processStatus := match process with
                       | Some r => RedisProcessRunner_Status r
                       | None => emptyStatus
                       end in
  let later := LastRunAt ingestStatus <? LastRunAt processStatus in
  mkStatus (Running ingestStatus || Running processStatus)
    (if later then LastRunAt processStatus else LastRunAt ingestStatus)
    (if negb (LastError ingestStatus =?s "") && negb (LastError processStatus =?s "")
     then String.append (LastError ingestStatus) (String.append "; " (LastError processStatus))
     else if negb (LastError processStatus =?s "") then LastError processStatus
     else LastError ingestStatus)
    (if negb (LastWarning processStatus =?s "") then LastWarning processStatus
     else LastWarning ingestStatus)
    (if later then LastStatus processStatus else LastStatus ingestStatus)
    (SyncRunning ingestStatus || SyncRunning processStatus).
