(* ===== verification/ProcessFacts.v ===== *)
(** The pace of the process runner, and what it leaves behind when it goes on
    without a pause. *)
From S2P Require Import Prelude GoTime Entities UsageMessage Inbox InboxFacts SyncProcess SyncProcessFacts Runner ProcessRunner.

Local Open Scope string_scope.
Local Open Scope list_scope.
Local Open Scope Z_scope.

(** *** Pace *)

(** Between two rounds: a pause, or an answer that asks for no pause. *)
Inductive Pace :=
| Rested
| Ran (answer : Outcome).

Definition pace (h : Pace) (c : ProcessCall) : option Pace :=
  match c, h with
  | AskedContext _, Rested => Some Rested
  | AskedContext _, Ran o =>
      if shouldContinueRedisProcessImmediately (returned o) then Some Rested else None
  | Processed o, Rested => Some (Ran o)
  | LoggedFailure o, Ran o' =>
      if bool_decide (o = returned o') && realFailure o.2 && shouldLogRedisProcessBatchFailure o
      then Some h else None
  | Paused d _, Ran o =>
      if bool_decide (d = redisInboxProcessInterval) &&
         negb (shouldContinueRedisProcessImmediately (returned o)) then Some Rested else None
  | Paused d _, Rested => Some Rested
  | _, _ => None
  end.

Section Facts.
Context {E : Type} (env : ProcessEnv E).

Abbreviation spec :=
  (hoare (E := E) (S := RedisProcessRunner) pace Rested (fun _ => false)).

(** The answer of a round: what the syncer said, or that a round is running. *)
Definition round (o : Outcome) (h : Pace) : Prop :=
  (exists answer, h = Ran answer /\ o = returned answer) \/
  (h = Rested /\ o = (None, Some ErrSyncAlreadyRunning)).

Lemma ProcessOnce_spec syncer : peSyncer env = Some syncer ->
  spec (eq Rested) (ProcessOnce env) round.
Proof.
  intros Sy. unfold ProcessOnce. rewrite Sy. step_as running.
  destruct running; [apply hoare_ret_eq; by right|]. unfold setProcessRunning.
  step_as u. step_as answer. step_as now. step_as u1. step_as u2.
  apply hoare_ret_eq. left. by exists answer.
Qed.

Lemma processing_spec syncer fuel : peSyncer env = Some syncer ->
  spec (fun h => h = Rested \/ exists o, h = Ran o /\
          shouldContinueRedisProcessImmediately (returned o) = true)
       (processing env fuel) (fun _ _ => True).
Proof.
  intros Sy. induction fuel as [|fuel IH]; [apply hoare_stuck|]. cbn [processing].
  eapply hoare_bind with (Q := fun _ => eq Rested).
  { apply hoare_ctx_err. intros a h [-> |(o & -> & C)] _; cbn; rewrite ?C; by eexists. }
  intros cancelled. destruct cancelled; [by apply hoare_ret_eq|].
  eapply hoare_bind; [by eapply ProcessOnce_spec|]. intros o.
  eapply hoare_bind with (Q := fun _ => round o).
  { destruct (realFailure o.2 && shouldLogRedisProcessBatchFailure o) eqn:Lg.
    - apply andb_true_iff in Lg as [Lg1 Lg2].
      apply hoare_call. intros ? h [(answer & -> & R)|[-> R]].
      + exists (Ran answer). cbn. rewrite bool_decide_eq_true_2, Lg1, Lg2 by done.
        split; [done|]. split; [done|]. left. by exists answer.
      + rewrite R in Lg2. done.
    - eapply hoare_weaken; [apply (hoare_ret _ _ _ tt (fun _ => round o))|done|done]. }
  intros ?. destruct (shouldContinueRedisProcessImmediately o) eqn:C.
  - eapply hoare_weaken; [exact IH| |done]. intros h [(answer & -> & ->)|[-> ->]].
    + right. by exists answer.
    + by left.
  - eapply hoare_bind with (Q := fun _ => eq Rested).
    + apply hoare_sleep. intros b h [(answer & -> & ->)|[-> ->]]; cbn; rewrite ?C; by eexists.
    + intros [|]; [|by apply hoare_ret_eq].
      eapply hoare_weaken; [exact IH| |done]. intros h <-. by left.
Qed.

(** The runner starts a round only after a pause of one second, or right
    after a round whose answer asks for no pause; it reports a failure only where
    the rows of the batch do not report it themselves. *)
Theorem process_paced (fuel : nat) (m : Machine E ProcessCall RedisProcessRunner) :
  maTrace m = [] -> is_Some (watch pace Rested (maTrace (Run env fuel m).1)).
Proof.
  intros T. assert (R : spec (eq Rested) (Run env fuel) (fun _ _ => True)).
  { unfold Run. destruct (peSyncer env) as [syncer|] eqn:Sy; [|by apply hoare_ret_eq].
    unfold setRunning. step_as u.
    eapply hoare_bind.
    { eapply hoare_weaken; [by eapply (processing_spec _ fuel)| |].
      - intros h <-. by left.
      - intros a h H. exact H. }
    intros ?. eapply hoare_bind; [apply hoare_update|]. intros ?.
    eapply hoare_weaken; [apply (hoare_ret _ _ _ None (fun _ _ => True))|done|done]. }
  destruct (R m Rested) as (h & W & _); [by rewrite T|done|done|]. by exists h.
Qed.

End Facts.

(** *** With the service behind *)

Section Service.
Context {Snapshot : Type} (local : Location) (sha256hex : string -> string)
  (unmarshal : string -> result string queuedUsageDetail) (parseIP : string -> bool)
  (headerSnapshot : string -> UsageEvent -> string -> option Snapshot)
  (iteration : list (Z * list string) -> list (Z * list string))
  (aggregations : Aggregations Snapshot) (fault : nat -> option string) (nowAt : nat -> Time)
  (service : SyncService) (canceled : string -> bool).

(** The kind of an error of the service, for [errors.Is]. *)
Definition syncError (e : string) : SyncError :=
  if canceled e then Canceled e else OtherError e.

Definition serviceRun (startedAt finishedAt : Time) (w : World Snapshot)
    : World Snapshot * Outcome :=
  let '(w, (res, err)) := ProcessRedisUsageInbox local unmarshal parseIP headerSnapshot iteration
    aggregations fault nowAt service startedAt finishedAt w in
  (w, (res, syncError <$> err)).

Lemma continue_settles res err :
  shouldContinueRedisProcessImmediately (returned (res, syncError <$> err)) = true ->
  settles (res, err) /\ exists r, res = Some r /\ rbBatchFull r = true.
Proof.
  unfold shouldContinueRedisProcessImmediately, settles. destruct res as [r|].
  2: { destruct err; cbn [fmap option_fmap option_map returned fst]; discriminate. }
  assert (R1 : (returned (Some r, syncError <$> err)).1 = Some r) by (by destruct err).
  rewrite R1. destruct (rbBatchFull r) eqn:Full; cbn [negb]; [|discriminate].
  destruct (rbRetryPending r) eqn:Pending; [discriminate|]. intros H. split; [|by exists r].
  destruct err as [e|]; [right|by left]. exists r. split_and!; [done| |done].
  intros Failed. cbn [fmap option_fmap option_map returned snd] in H.
  unfold partlyDone in H. rewrite Failed in H. cbn in H.
  unfold syncError in H. destruct (canceled e); discriminate H.
Qed.

(** When the runner goes on without a pause, the round before took a batch
    from the backlog and settled all of it: no row of it is offered again, no
    other row was touched, and the backlog is shorter by the batch.  So a row
    that has to be retried always waits for a pause, and the rounds between two
    pauses are bounded by the backlog. *)
Theorem no_pause_means_progress startedAt finishedAt (w w' : World Snapshot) o :
  table_ok (wInbox w) -> serviceRun startedAt finishedAt w = (w', o) ->
  shouldContinueRedisProcessImmediately (returned o) = true ->
  exists rows, ListProcessableRedisUsageInbox None (wInbox w) redisInboxProcessLimit = Ok rows /\
    rows <> [] /\
    waiting (wInbox w') = waiting (wInbox w) ∖ list_to_set (map inID rows) /\
    (size (waiting (wInbox w')) + length rows = size (waiting (wInbox w)))%nat.
Proof.
  intros T H C. unfold serviceRun in H.
  destruct (ProcessRedisUsageInbox _ _ _ _ _ _ _ _ _ _ _ w) as [w1 [res err]] eqn:R.
  injection H as <- <-. apply continue_settles in C as (St & r & -> & Full).
  by eapply settled_backlog.
Qed.

End Service.

(** The status of the poller: running when either runner is, the later of the
    two states, and no error of either lost. *)
Lemma poller_status_merges (ingest : Status) (process : RedisProcessRunner) :
  let s := RedisPoller_Status (Some ingest) (Some process) in
  LastRunAt s = Z.max (LastRunAt ingest) (prLastRunAt process) /\
  (LastError s = "" <-> LastError ingest = "" /\ prLastError process = "") /\
  (Running s = true <-> Running ingest = true \/ prRunning process = true).
Proof.
  cbn. split_and!.
  - destruct (Z.ltb_spec (LastRunAt ingest) (prLastRunAt process)); lia.
  - destruct (LastError ingest) as [|a s], (prLastError process) as [|b t]; cbn; naive_solver.
  - apply orb_true_iff.
Qed.

(** *** Witnesses *)

Definition demo_process_env : ProcessEnv nat :=
  mkProcessEnv nat (fun e => (e, (3 <=? e)%nat)) (fun e => (e, unix_time 1700000000))
    (Some (fun e => (S e, (Some (newRedisBatchSyncResult "completed" (if (e =? 0)%nat then 1000 else 1)), None))))
    (fun _ e => (e, true)).

Lemma process_paced_witness :
  is_Some (watch pace Rested (maTrace
    (Run demo_process_env 20 (mkMachine 0%nat false [] NewRedisProcessRunner)).1)) /\
  map (fun c => match c with Processed _ => 1 | Paused _ _ => 2 | _ => 0 end)
    (maTrace (Run demo_process_env 20 (mkMachine 0%nat false [] NewRedisProcessRunner)).1)
  = [0; 1; 0; 1; 2; 0; 1; 2; 0].
Proof.
  split; [|vm_compute; reflexivity].
  apply (process_paced demo_process_env 20 (mkMachine 0%nat false [] NewRedisProcessRunner)).
  reflexivity.
Defined.

(** A full batch of messages. *)
Definition full_world : World unit := demo_world (repeat "r1" 1000).

Definition full_run : World unit * Outcome :=
  serviceRun demo_local demo_unmarshal (fun _ => true) (fun _ _ _ => None) (fun l => l)
    demo_aggregations no_fault demo_clock demo_service (fun _ => false) demo_now demo_now full_world.

Lemma no_pause_means_progress_witness :
  exists rows, ListProcessableRedisUsageInbox None (wInbox full_world) redisInboxProcessLimit = Ok rows /\
    waiting (wInbox full_run.1) = waiting (wInbox full_world) ∖ list_to_set (map inID rows).
Proof.
  destruct (no_pause_means_progress demo_local demo_hash demo_unmarshal (fun _ => true)
    (fun _ _ _ => None) (fun l => l) demo_aggregations no_fault demo_clock demo_service
    (fun _ => false) demo_now demo_now full_world full_run.1 full_run.2)
    as (rows & L & _ & W & _).
  - apply demo_table_ok.
  - unfold full_run. apply surjective_pairing.
  - vm_compute. reflexivity.
  - exists rows. split; [exact L|exact W].
Defined.
