(* ===== verification/ErrorRunner.v ===== *)
(** poller/redis_error_ingest_runner.go: the subscription of error events, an
    optional source that is given up after a bounded number of failures. *)
From S2P Require Import Prelude GoTime Timeutil Runner.

Local Open Scope string_scope.
Local Open Scope list_scope.
Local Open Scope Z_scope.

Definition Minute_ : Duration := 60 * Second.
Definition redisErrorEventLogInterval : Duration := Minute_.

Definition redisErrorDefaultRetryDelays : list Duration :=
  [10 * Second; 30 * Second; Minute_; 3 * Minute_; 10 * Minute_].

(** [options.RetryDelays]: [None] is nil. *)
Definition retryDelaysOf (options : option (list Duration)) : list Duration :=
  default redisErrorDefaultRetryDelays options.

(** An error of the subscription; the first kind is
    ErrRedisErrorSubscribeUnsupported or cpa.ErrRedisQueueAuth. *)
Inductive SubscribeError :=
| PermanentFailure (message : string)
| TransientFailure (message : string).

Definition redisErrorPermanentSubscribeFailure (err : SubscribeError) : bool :=
  match err with PermanentFailure _ => true | TransientFailure _ => false end.

Inductive ErrorCall :=
| ECtxErr (cancelled : bool)
| ESubscribed (answer : result SubscribeError bool)
| EReceived (answer : result SubscribeError string)
| EStored (payload : string) (receivedAt : Time) (answer : option string)
| ELogged (at_ : Time)
| EClosed
| ESlept (delay : Duration) (answer : bool).

Record ErrorEnv (E : Type) := mkErrorEnv {
  eeCancelled : E -> E * bool;
  eeNow : E -> E * Time;
  eeSubscribe : E -> E * result SubscribeError bool;
  eeReceive : E -> E * result SubscribeError string;
  eeStore : string -> Time -> E -> E * option string;
  eeSleep : Duration -> E -> E * bool;
}.
Arguments eeCancelled {E}.
Arguments eeNow {E}.
Arguments eeSubscribe {E}.
Arguments eeReceive {E}.
Arguments eeStore {E}.
Arguments eeSleep {E}.

(** [time.Time.Sub] saturates. *)
Definition Sub (t u : Time) : Duration := Z.max int64_min (Z.min int64_max (t - u)).

Section Errors.
Context {E : Type} (env : ErrorEnv E) (retryDelays : list Duration).

(** The state is [lastEventErrorLogAt]. *)
Abbreviation M := (Prog E ErrorCall Time).

Local Open Scope prog_scope.

Definition logEventFailure : M unit :=
  let+ now := ask (eeNow env) in
  let+ last := state_of id in
  if negb (IsZero last) && (Sub now last <? redisErrorEventLogInterval) then done_with tt
  else
    update (fun _ => now) ;;
    call (fun e => (e, tt)) (fun _ => ELogged now).

(** The loop of [receive]: it ends with the error of the subscription. *)
Fixpoint receive (fuel : nat) : M SubscribeError :=
  match fuel with
  | O => out_of_fuel
  | S fuel =>
      let+ answer := call (eeReceive env) EReceived in
      match answer with
      | Err e => done_with e
      | Ok payload =>
          let+ now := ask (eeNow env) in
          let receivedAt := NormalizeStorageTime now in
          let+ err := call (eeStore env payload receivedAt) (EStored payload receivedAt) in
          (match err with Some _ => logEventFailure | None => done_with tt end) ;;
          receive fuel
      end
  end.

(** The loop of [Run]. *)
Fixpoint subscribeErrors (fuel : nat) (tries : nat) (retryIndex : nat) : M unit :=
  match tries with
  | O => out_of_fuel
  | S tries =>
      let+ answer := call (eeSubscribe env) ESubscribed in
      let+ outcome :=
        match answer with
        | Err e => done_with (e, retryIndex)
        | Ok false => done_with (TransientFailure "CPA errors subscription is nil", retryIndex)
        | Ok true =>
            let+ e := receive fuel in
            call (fun x => (x, tt)) (fun _ => EClosed) ;;
            done_with (e, 0%nat)
        end in
      let '(err, retryIndex) := outcome in
      let+ cancelled := ctx_err (eeCancelled env) ECtxErr in
      if cancelled : bool then done_with tt
      else if redisErrorPermanentSubscribeFailure err then done_with tt
      else
        match retryDelays !! retryIndex with
        | None => done_with tt
        | Some delay =>
            let+ slept := sleep_ctx (eeSleep env delay) (ESlept delay) in
            if slept : bool then subscribeErrors fuel tries (S retryIndex) else done_with tt
        end
  end.

(** [wired] says that the source and the sink are there. *)
Definition Run (wired : bool) (fuel : nat) : M unit :=
  if negb wired then done_with tt else subscribeErrors fuel fuel 0.

End Errors.

(** The retries of the error subscription, and its events. *)

Local Open Scope string_scope.
Local Open Scope list_scope.
Local Open Scope Z_scope.

(** *** The specification *)

Inductive ErrorPhase :=
(** About to subscribe, [failures] attempts having failed since the last success. *)
| Attempt (failures : nat)
(** Reading events. *)
| Listening
(** An event that has to be handed to the sink. *)
| Holding (payload : string)
(** The sink may have refused an event; the log may be told. *)
| Handed (refused : bool)
(** The subscription has ended or could not be made. *)
| Down (failures : nat) (permanent : bool).

Section Policy.
Context (retryDelays : list Duration).

Definition policy (h : ErrorPhase) (c : ErrorCall) : option ErrorPhase :=
  match c, h with
  | ESubscribed (Ok true), Attempt _ => Some Listening
  | ESubscribed (Ok false), Attempt n => Some (Down n false)
  | ESubscribed (Err e), Attempt n => Some (Down n (redisErrorPermanentSubscribeFailure e))
  | EReceived (Ok payload), (Listening | Handed _) => Some (Holding payload)
  | EReceived (Err e), (Listening | Handed _) =>
      Some (Down 0 (redisErrorPermanentSubscribeFailure e))
  | EStored payload _ answer, Holding payload' =>
      if payload =?s payload' then Some (Handed (bool_decide (answer <> None))) else None
  | ELogged _, Handed true => Some (Handed false)
  | EClosed, Down _ _ => Some h
  | ECtxErr _, Down _ _ => Some h
  | ESlept d _, Down n false =>
      if bool_decide (retryDelays !! n = Some d) then Some (Attempt (S n)) else None
  | _, _ => None
  end.

End Policy.

Section Facts.
Context {E : Type} (env : ErrorEnv E) (retryDelays : list Duration).

Abbreviation spec := (hoare (E := E) (S := Time) (policy retryDelays) (Attempt 0) (fun _ => false)).

Definition reading (h : ErrorPhase) : Prop := h = Listening \/ exists b, h = Handed b.

Lemma logEventFailure_spec : spec (eq (Handed true)) (logEventFailure env) (fun _ => reading).
Proof.
  unfold logEventFailure. step_as now. step_as prev.
  destruct (_ && _); [apply hoare_ret_eq; right; by eexists|]. step_as u.
  apply hoare_call. intros ? h <-. exists (Handed false). split_and!; [done|done|right; by eexists].
Qed.

Lemma receive_spec fuel :
  spec reading (receive env fuel)
    (fun e h => h = Down 0 (redisErrorPermanentSubscribeFailure e)).
Proof.
  induction fuel as [|fuel IH]; [apply hoare_stuck|]. cbn [receive].
  eapply hoare_bind with (Q := fun answer h =>
    h = match answer with Ok payload => Holding payload
        | Err e => Down 0 (redisErrorPermanentSubscribeFailure e) end).
  { apply hoare_call. intros [payload|e] h [-> |[b ->]]; eexists; by split_and!. }
  intros [payload|e]; apply hoare_pre; intros h ->; [|by apply hoare_ret_eq].
  step_as now.
  eapply hoare_bind with (Q := fun err h => h = Handed (bool_decide (err <> None))).
  { apply hoare_call. intros err h <-. cbn. rewrite String.eqb_refl. eexists. by split_and!. }
  intros err. apply hoare_pre. intros h ->.
  eapply hoare_bind with (Q := fun _ => reading); [|intros ?; apply IH].
  destruct err as [e|].
  - rewrite bool_decide_eq_true_2 by done. apply logEventFailure_spec.
  - apply hoare_ret_eq. right. by eexists.
Qed.

Lemma subscribeErrors_spec fuel tries n :
  spec (eq (Attempt n)) (subscribeErrors env retryDelays fuel tries n) (fun _ _ => True).
Proof.
  revert n. induction tries as [|tries IH]; intros n; [apply hoare_stuck|].
  cbn [subscribeErrors].
  eapply hoare_bind.
  { apply hoare_call_eq. intros [[|]|e]; cbn; eexists; by split. }
  intros answer. apply hoare_pre. intros h A. unfold after in A.
  eapply hoare_bind with (Q := fun o h =>
    h = Down o.2 (redisErrorPermanentSubscribeFailure o.1)).
  { destruct answer as [[|]|e]; cbn in A; injection A as <-; [|by apply hoare_ret_eq..].
    eapply hoare_bind.
    { eapply hoare_weaken; [apply receive_spec| |].
      - intros h' <-. by left.
      - intros e h' R. exact R. }
    intros e. apply hoare_pre. intros h' ->. step_as u. by apply hoare_ret_eq. }
  intros [err k]. cbn [fst snd]. apply hoare_pre. intros h' ->.
  step_as cancelled. destruct cancelled; [by apply hoare_ret_eq|].
  destruct (redisErrorPermanentSubscribeFailure err) eqn:P; [by apply hoare_ret_eq|].
  destruct (retryDelays !! k) as [delay|] eqn:D; [|by apply hoare_ret_eq].
  eapply hoare_bind with (Q := fun _ => eq (Attempt (S k))).
  { apply hoare_sleep. intros b g <-. cbn. rewrite bool_decide_eq_true_2 by done.
    eexists. by split_and!. }
  intros [|]; [apply IH|by apply hoare_ret_eq].
Qed.

(** Whatever the remote side and the sink do, the runner waits the delays of
    the policy one after the other, and starts over after each success; every
    event it reads is handed to the sink once, before anything else is read, and
    a refused event neither ends the subscription nor is reported twice. *)
Theorem error_runner_policy (wired : bool) (fuel : nat) (m : Machine E ErrorCall Time) :
  maTrace m = [] ->
  is_Some (watch (policy retryDelays) (Attempt 0) (maTrace (Run env retryDelays wired fuel m).1)).
Proof.
  intros T. assert (R : spec (eq (Attempt 0)) (Run env retryDelays wired fuel) (fun _ _ => True)).
  { unfold Run. destruct wired; [apply subscribeErrors_spec|by apply hoare_ret_eq]. }
  destruct (R m (Attempt 0)) as (h & W & _); [by rewrite T|done|done|]. by exists h.
Qed.

(** The remote side never lets the runner in, and nothing cancels it. *)
Definition unreachable : Prop :=
  (forall e, exists message, (eeSubscribe env e).2 = Err (TransientFailure message)) /\
  (forall e, (eeCancelled env e).2 = false) /\
  (forall d e, (eeSleep env d e).2 = true).

Definition attempts (calls : list ErrorCall) : nat :=
  length (omap (fun c => match c with ESubscribed r => Some r | _ => None end) calls).

Definition waits (calls : list ErrorCall) : list Duration :=
  omap (fun c => match c with ESlept d _ => Some d | _ => None end) calls.

Lemma subscribeErrors_gives_up fuel tries n (m : Machine E ErrorCall Time) :
  unreachable -> maCancelled m = false -> (length retryDelays - n < tries)%nat ->
  exists m' calls, subscribeErrors env retryDelays fuel tries n m = (m', Some tt) /\
    maTrace m' = maTrace m ++ calls /\
    waits calls = drop n retryDelays /\ attempts calls = S (length retryDelays - n).
Proof.
  intros (Us & Uc & Usl). revert n m. induction tries as [|tries IH]; intros n m Al L; [lia|].
  cbn [subscribeErrors]. unfold and_then at 1, call. destruct (Us (maEnv m)) as [message Sm].
  destruct (eeSubscribe env (maEnv m)) as [e answer]. cbn [snd] in Sm. subst answer.
  unfold and_then at 1, done_with at 1. unfold and_then at 1, ctx_err.
  cbn [maEnv maCancelled maTrace maState]. rewrite Al. pose proof (Uc e) as Ce.
  destruct (eeCancelled env e) as [e2 b]. cbn [snd] in Ce. subst b.
  cbn [redisErrorPermanentSubscribeFailure].
  destruct (retryDelays !! n) as [delay|] eqn:D.
  - unfold and_then at 1, sleep_ctx. cbn [maEnv maCancelled maTrace maState].
    pose proof (Usl delay e2) as Se. destruct (eeSleep env delay e2) as [e3 b]. cbn [snd] in Se.
    subst b. apply lookup_lt_Some in D as Lt.
    edestruct (IH (S n)) as (m' & calls & -> & T & W & A); cycle 2.
    + eexists m', (ESubscribed (Err (TransientFailure message)) :: ECtxErr false ::
                   ESlept delay true :: calls).
      split; [reflexivity|]. rewrite T. cbn [maTrace]. rewrite <- !app_assoc.
      split; [done|]. rewrite (drop_S _ _ _ D). split.
      * unfold waits in *. cbn [omap list_omap]. by f_equal.
      * unfold attempts in *. cbn [omap list_omap length]. rewrite A. lia.
    + done.
    + lia.
  - apply lookup_ge_None in D. eexists _, [_; _]. split; [reflexivity|]. cbn [maTrace].
    split; [by rewrite <- app_assoc|]. rewrite drop_ge by lia. split; [done|].
    cbn. lia.
Qed.

(** A runner that is never let in gives up by itself: after one attempt more
    than there are delays, having waited each of them once, in order. *)
Theorem error_runner_gives_up (fuel : nat) (m : Machine E ErrorCall Time) :
  unreachable -> maCancelled m = false -> (length retryDelays < fuel)%nat ->
  exists m' calls, Run env retryDelays true fuel m = (m', Some tt) /\
    maTrace m' = maTrace m ++ calls /\
    waits calls = retryDelays /\ attempts calls = S (length retryDelays).
Proof.
  intros U Al L. unfold Run. cbn [negb].
  destruct (subscribeErrors_gives_up fuel fuel 0 m U Al) as (m' & calls & R & T & W & A); [lia|].
  exists m', calls. rewrite R, W, A, Nat.sub_0_r. done.
Qed.

End Facts.

(** *** Witnesses *)

(** The subscription works once and delivers two events; the sink refuses them. *)
Definition demo_error_env : ErrorEnv nat :=
  mkErrorEnv nat (fun e => (e, false)) (fun e => (e, unix_time 1700000000))
    (fun e => (S e, if (e =? 1)%nat then Ok true else Err (TransientFailure "refused")))
    (fun e => (S e, if (e <? 4)%nat then Ok "event" else Err (TransientFailure "closed")))
    (fun _ _ e => (e, Some "disk full")) (fun _ e => (e, true)).

Lemma error_runner_policy_witness :
  is_Some (watch (policy redisErrorDefaultRetryDelays) (Attempt 0)
    (maTrace (Run demo_error_env redisErrorDefaultRetryDelays true 20
                (mkMachine 0%nat false [] zero_time)).1)) /\
  waits (maTrace (Run demo_error_env redisErrorDefaultRetryDelays true 20
                (mkMachine 0%nat false [] zero_time)).1)
  = 10 * Second :: redisErrorDefaultRetryDelays.
Proof.
  split; [|vm_compute; reflexivity].
  exact (error_runner_policy demo_error_env redisErrorDefaultRetryDelays true 20
           (mkMachine 0%nat false [] zero_time) eq_refl).
Defined.

Definition down_env : ErrorEnv nat :=
  mkErrorEnv nat (fun e => (e, false)) (fun e => (e, unix_time 1700000000))
    (fun e => (e, Err (TransientFailure "refused"))) (fun e => (e, Ok ""))
    (fun _ _ e => (e, None)) (fun _ e => (e, true)).

Lemma error_runner_gives_up_witness :
  exists m' calls, Run down_env redisErrorDefaultRetryDelays true 6
      (mkMachine 0%nat false [] zero_time) = (m', Some tt) /\ attempts calls = 6%nat.
Proof.
  destruct (error_runner_gives_up down_env redisErrorDefaultRetryDelays 6
    (mkMachine 0%nat false [] zero_time)) as (m' & calls & R & _ & _ & A).
  - split_and!; [intros e; by exists "refused"|done|done].
  - reflexivity.
  - cbn. lia.
  - exists m', calls. split; [exact R|exact A].
Defined.
