(* ===== verification/Sql.v ===== *)
(** A database behind statements that can fail.

    [Db T] is the tables [T] and the number of statements run so far; [fault] is
    the error of each statement.  BEGIN and COMMIT are statements; a transaction
    that fails leaves the tables as they were. *)
From S2P Require Import Prelude.

Local Open Scope string_scope.
Local Open Scope list_scope.

Record Db (T : Type) := mkDb {
  dbTables : T;
  dbClock : nat;
}.
Arguments mkDb {T}.
Arguments dbTables {T}.
Arguments dbClock {T}.

Section Sql.
Context {T : Type} (fault : nat -> option string).

Definition Sql (A : Type) : Type := Db T -> Db T * A.

Definition sql_ret {A} (a : A) : Sql A := fun d => (d, a).

Definition sql_bind {A B} (m : Sql A) (f : A -> Sql B) : Sql B := fun d =>
  let '(d, a) := m d in f a d.

(** Go on with the value, or return the error. *)
Definition sql_try {A B} (m : Sql (result string A)) (f : A -> Sql (result string B))
    : Sql (result string B) := fun d =>
  match m d with
  | (d, Ok a) => f a d
  | (d, Err e) => (d, Err e)
  end.

Definition statement {A} (run : T -> T * A) : Sql (result string A) := fun d =>
  match fault (dbClock d) with
  | Some e => (mkDb (dbTables d) (S (dbClock d)), Err e)
  | None => let '(t, a) := run (dbTables d) in (mkDb t (S (dbClock d)), Ok a)
  end.

Definition query {A} (run : T -> A) : Sql (result string A) := statement (fun t => (t, run t)).

(** [fmt.Errorf("prefix: %w", err)]. *)
Definition wrap {A} (prefix : string) (m : Sql (result string A)) : Sql (result string A) := fun d =>
  match m d with
  | (d, Ok a) => (d, Ok a)
  | (d, Err e) => (d, Err (String.append prefix e))
  end.

Definition transaction {A} (body : Sql (result string A)) : Sql (result string A) := fun d0 =>
  match fault (dbClock d0) with
  | Some e => (mkDb (dbTables d0) (S (dbClock d0)), Err e)
  | None =>
      match body (mkDb (dbTables d0) (S (dbClock d0))) with
      | (d, Err e) => (mkDb (dbTables d0) (S (dbClock d)), Err e)
      | (d, Ok a) =>
          match fault (dbClock d) with
          | Some e => (mkDb (dbTables d0) (S (dbClock d)), Err e)
          | None => (mkDb (dbTables d) (S (dbClock d)), Ok a)
          end
      end
  end.

(** The statements of a loop, up to the first error. *)
Fixpoint for_each {A} (f : A -> Sql (result string unit)) (l : list A) : Sql (result string unit) :=
  match l with
  | [] => sql_ret (Ok tt)
  | a :: r => sql_try (f a) (fun _ => for_each f r)
  end.

(** The read-modify-write of the memory of one goroutine: no statement, no failure. *)
Definition locked {A} (f : T -> T * A) : Sql A := fun d =>
  let '(t, a) := f (dbTables d) in (mkDb t (dbClock d), a).

(** *** What programs do to the tables *)

(** [p] leaves the tables in a state related to the one before, whatever fails. *)
Definition preserves {A} (p : Sql A) (R : T -> A -> T -> Prop) : Prop :=
  forall d, R (dbTables d) (p d).2 (dbTables (p d).1).

(** A program that only reads. *)
Definition reads {A} (p : Sql A) (Q : T -> A -> Prop) : Prop :=
  preserves p (fun t a t' => t' = t /\ Q t a).

Lemma preserves_weaken {A} (p : Sql A) (R R' : T -> A -> T -> Prop) :
  preserves p R -> (forall t a t', R t a t' -> R' t a t') -> preserves p R'.
Proof. intros H W d. apply W, H. Qed.

Lemma preserves_ret {A} (a : A) : preserves (sql_ret a) (fun t b t' => t' = t /\ b = a).
Proof. intros d. done. Qed.

Lemma preserves_try {A B} (m : Sql (result string A)) (f : A -> Sql (result string B))
    (R : T -> result string A -> T -> Prop) (Q : A -> T -> result string B -> T -> Prop)
    (S : T -> result string B -> T -> Prop) :
  preserves m R -> (forall a, preserves (f a) (Q a)) ->
  (forall t e t', R t (Err e) t' -> S t (Err e) t') ->
  (forall t a t' b t'', R t (Ok a) t' -> Q a t' b t'' -> S t b t'') ->
  preserves (sql_try m f) S.
Proof.
  intros Hm Hf HE HO d. unfold sql_try. pose proof (Hm d) as H.
  destruct (m d) as [d1 [a|e]]; cbn [fst snd] in *; [|by apply HE].
  eapply HO; [exact H|apply Hf].
Qed.

Lemma preserves_bind {A B} (m : Sql A) (f : A -> Sql B)
    (R : T -> A -> T -> Prop) (Q : A -> T -> B -> T -> Prop) (S : T -> B -> T -> Prop) :
  preserves m R -> (forall a, preserves (f a) (Q a)) ->
  (forall t a t' b t'', R t a t' -> Q a t' b t'' -> S t b t'') -> preserves (sql_bind m f) S.
Proof.
  intros Hm Hf HO d. unfold sql_bind. pose proof (Hm d) as H.
  destruct (m d) as [d1 a]; cbn [fst snd] in *. eapply HO; [exact H|apply Hf].
Qed.

Lemma preserves_statement {A} (run : T -> T * A) :
  preserves (statement run) (fun t r t' =>
    match r with Ok a => (t', a) = run t | Err _ => t' = t end).
Proof.
  intros d. unfold statement. destruct (fault (dbClock d)); [done|].
  by destruct (run (dbTables d)).
Qed.

Lemma preserves_query {A} (run : T -> A) :
  preserves (query run) (fun t r t' =>
    t' = t /\ match r with Ok a => a = run t | Err _ => True end).
Proof.
  intros d. pose proof (preserves_statement (fun t => (t, run t)) d) as H. unfold query.
  destruct (statement _ d).2; [by injection H as -> ->|done].
Qed.

Lemma preserves_wrap {A} prefix (m : Sql (result string A)) (R : T -> result string A -> T -> Prop) :
  preserves m R -> (forall t e e' t', R t (Err e) t' -> R t (Err e') t') ->
  preserves (wrap prefix m) R.
Proof.
  intros Hm HE d. unfold wrap. pose proof (Hm d) as H. destruct (m d) as [d1 [a|e]]; [done|].
  by eapply HE.
Qed.

(** All or nothing. *)
Lemma preserves_transaction {A} (body : Sql (result string A)) (R : T -> result string A -> T -> Prop) :
  preserves body R ->
  preserves (transaction body) (fun t r t' =>
    match r with Ok a => R t (Ok a) t' | Err _ => t' = t end).
Proof.
  intros Hb d. unfold transaction. destruct (fault (dbClock d)); [done|].
  pose proof (Hb (mkDb (dbTables d) (S (dbClock d)))) as H.
  destruct (body _) as [d1 [a|e]]; [|done]. by destruct (fault (dbClock d1)).
Qed.

(** A loop whose body applies [step] when it succeeds. *)
Lemma preserves_for_each {A} (f : A -> Sql (result string unit)) (step : T -> A -> T) (l : list A) :
  (forall a, preserves (f a) (fun t r t' => match r with Ok _ => t' = step t a | Err _ => True end)) ->
  preserves (for_each f l) (fun t r t' =>
    match r with Ok _ => t' = foldl step t l | Err _ => True end).
Proof.
  intros Hf. induction l as [|a l IH]; [by intros d|]. cbn [for_each].
  eapply preserves_try; [apply Hf|intros ?; apply IH|done|].
  intros t u t' [] t''; [|done]. intros -> ->. done.
Qed.

(** A loop whose body keeps to a preorder, whatever fails. *)
Lemma preserves_each {A} (f : A -> Sql (result string unit)) (R : T -> T -> Prop) (l : list A) :
  PreOrder R -> (forall a, preserves (f a) (fun t _ t' => R t t')) ->
  preserves (for_each f l) (fun t _ t' => R t t').
Proof.
  intros P Hf. induction l as [|a l IH]; [by intros d|]. cbn [for_each].
  eapply preserves_try; [apply Hf|intros ?; apply IH|done|].
  intros t u t' r t'' H1 H2. by transitivity t'.
Qed.

Lemma preserves_locked {A} (f : T -> T * A) : preserves (locked f) (fun t a t' => (t', a) = f t).
Proof. intros d. unfold locked. by destruct (f (dbTables d)). Qed.

End Sql.

Arguments Sql : clear implicits.

(** A program on a part of the tables. *)
Section Zoom.
Context {T U : Type} (get : T -> U) (set : U -> T -> T).

Definition zoom {A} (p : Sql U A) : Sql T A := fun d =>
  let '(d', a) := p (mkDb (get (dbTables d)) (dbClock d)) in
  (mkDb (set (dbTables d') (dbTables d)) (dbClock d'), a).

Lemma preserves_zoom {A} (p : Sql U A) (R : U -> A -> U -> Prop) :
  preserves p R -> preserves (zoom p) (fun t a t' => exists u, R (get t) a u /\ t' = set u t).
Proof.
  intros H d. unfold zoom. pose proof (H (mkDb (get (dbTables d)) (dbClock d))) as Hp.
  destruct (p _) as [d' a]. by exists (dbTables d').
Qed.
End Zoom.

Declare Scope sql_scope.
Delimit Scope sql_scope with sql.
Notation "'let$' x := m 'in' k" := (sql_bind m (fun x => k))
  (at level 200, x binder, m at level 100, k at level 200) : sql_scope.
Notation "'try$' x := m 'in' k" := (sql_try m (fun x => k))
  (at level 200, x binder, m at level 100, k at level 200) : sql_scope.

(** *** Assertions about states

    [triple P p Q]: started in a state of [P], [p] ends in one of [Q] for its
    answer.  Facts that other goroutines leave alone compose through it. *)
Section Triple.
Context {T : Type}.

Definition triple {A} (P : T -> Prop) (p : Sql T A) (Q : A -> T -> Prop) : Prop :=
  forall d, P (dbTables d) -> Q (p d).2 (dbTables (p d).1).

Lemma triple_ret {A} (a : A) (P : A -> T -> Prop) : triple (P a) (sql_ret a) P.
Proof. by intros d. Qed.

Lemma triple_bind {A B} P (m : Sql T A) Q (f : A -> Sql T B) R :
  triple P m Q -> (forall a, triple (Q a) (f a) R) -> triple P (sql_bind m f) R.
Proof.
  intros Hm Hf d HP. unfold sql_bind. pose proof (Hm d HP) as HQ. destruct (m d) as [d1 a]. by apply Hf.
Qed.

Lemma triple_try {A B} P (m : Sql T (result string A)) Q (f : A -> Sql T (result string B)) R :
  triple P m Q -> (forall a, triple (Q (Ok a)) (f a) R) -> (forall e t, Q (Err e) t -> R (Err e) t) ->
  triple P (sql_try m f) R.
Proof.
  intros Hm Hf He d HP. unfold sql_try. pose proof (Hm d HP) as HQ.
  destruct (m d) as [d1 [a|e]]; [by apply Hf|by apply He].
Qed.

Lemma triple_weaken {A} (P P' : T -> Prop) (p : Sql T A) (Q Q' : A -> T -> Prop) :
  triple P p Q -> (forall t, P' t -> P t) -> (forall a t, Q a t -> Q' a t) -> triple P' p Q'.
Proof. intros H HP HQ d Hd. apply HQ, H, HP, Hd. Qed.

Lemma triple_pre {A} (P P' : T -> Prop) (p : Sql T A) (Q : A -> T -> Prop) :
  triple P p Q -> (forall t, P' t -> P t) -> triple P' p Q.
Proof. intros H HP. by eapply triple_weaken. Qed.

Lemma triple_of_preserves {A} (p : Sql T A) (R : T -> A -> T -> Prop) (P : T -> Prop) (Q : A -> T -> Prop) :
  preserves p R -> (forall t a t', P t -> R t a t' -> Q a t') -> triple P p Q.
Proof. intros H W d HP. eapply W; [exact HP|apply H]. Qed.

Lemma triple_locked {A} (f : T -> T * A) (P : T -> Prop) (Q : A -> T -> Prop) :
  (forall t, P t -> Q (f t).2 (f t).1) -> triple P (locked f) Q.
Proof. intros H d HP. unfold locked. pose proof (H _ HP). by destruct (f (dbTables d)). Qed.

(** A fact that holds anyway. *)
Lemma triple_fact {A} (F : Prop) (P : T -> Prop) (p : Sql T A) Q :
  (forall t, P t -> F) -> (F -> triple P p Q) -> triple P p Q.
Proof. intros H K d HP. by apply K; [eapply H|]. Qed.
End Triple.
