(* ===== verification/GoFloat.v ===== *)
(** float64 as IEEE 754 binary64 of Stdlib's SpecFloat: no primitive floats and no
    axioms, every operation computes. *)
From S2P Require Import Prelude.
From Stdlib Require Export SpecFloat.

Local Open Scope Z_scope.

Definition float64 : Type := spec_float.

Definition f64_add : float64 -> float64 -> float64 := SFadd 53 1024.
Definition f64_sub : float64 -> float64 -> float64 := SFsub 53 1024.
Definition f64_mul : float64 -> float64 -> float64 := SFmul 53 1024.
Definition f64_div : float64 -> float64 -> float64 := SFdiv 53 1024.
Definition f64_lt (a b : float64) : bool := SFltb a b.
Definition f64_le (a b : float64) : bool := SFleb a b.
Definition f64_eq (a b : float64) : bool := SFeqb a b.

(** float64(z) of an int64, rounded to even. *)
Definition f64_of_int (z : Z) : float64 := binary_normalize 53 1024 z 0 false.

Definition f64_zero : float64 := S754_zero false.
Definition f64_one : float64 := f64_of_int 1.
Definition MaxFloat64 : float64 := S754_finite false (2 ^ 53 - 1) 971.

Definition IsNaN (a : float64) : bool := match a with S754_nan => true | _ => false end.
Definition IsInf (a : float64) : bool := match a with S754_infinity _ => true | _ => false end.

Example one_third : f64_div f64_one (f64_of_int 3) = S754_finite false 6004799503160661 (-54).
Proof. vm_compute. reflexivity. Qed.

Example max_int_rounds_up : f64_of_int int64_max = S754_finite false (2 ^ 52) 11.
Proof. vm_compute. reflexivity. Qed.
