(* ===== verification/Pricing.v ===== *)
(** Packages pricing and helper/usage_cost.go: the compiled price catalogue and what a
    number of tokens costs.

    Snapshots, configurations and rules are values, so what the code clones is the
    value itself.  [quote] is strconv.Quote, and [quoteLower] that of strings.ToLower (our
    ToLower is exact on the ASCII words it is compared with); [walk] is the order in which
    a map of four names is walked.  Each operation on floats is rounded, as on amd64 (a
    compiler may fuse a product and a sum on other machines). *)
From S2P Require Import Prelude GoStrings GoTime Entities GoFloat.
From stdpp Require Import sorting.

Local Open Scope string_scope.
Local Open Scope list_scope.
Local Open Scope Z_scope.

(** ** entities.ModelPriceSetting *)

Record ModelPriceSetting := mkPrice {
  mpID : Z;
  mpModel : string;
  mpPricingStyle : string;
  mpPromptPricePer1M : float64;
  mpCompletionPricePer1M : float64;
  mpCacheReadPricePer1M : float64;
  mpCacheWritePricePer1M : float64;
  mpPriceMultiplier : option float64;
  mpCreatedAt : Time;
  mpUpdatedAt : Time;
}.

Definition withModel (model : string) (p : ModelPriceSetting) : ModelPriceSetting :=
  mkPrice (mpID p) model (mpPricingStyle p) (mpPromptPricePer1M p) (mpCompletionPricePer1M p)
    (mpCacheReadPricePer1M p) (mpCacheWritePricePer1M p) (mpPriceMultiplier p) (mpCreatedAt p) (mpUpdatedAt p).

(** ** helper/usage_cost.go *)

Record UsageTokenCostInput := mkTokens {
  tcInputTokens : Z;
  tcOutputTokens : Z;
  tcCacheReadTokens : Z;
  tcCacheCreationTokens : Z;
}.

Record UsageTokenCostBreakdown := mkBreakdown {
  cbUncachedInputCostUSD : float64;
  cbCacheReadCostUSD : float64;
  cbCacheWriteCostUSD : float64;
  cbOutputCostUSD : float64;
  cbTotalCostUSD : float64;
}.

Definition zeroBreakdown : UsageTokenCostBreakdown := mkBreakdown f64_zero f64_zero f64_zero f64_zero f64_zero.

Definition UsageTokenInputRequiresPricing (input : UsageTokenCostInput) : bool :=
  (0 <? tcInputTokens input) || (0 <? tcOutputTokens input) || (0 <? tcCacheReadTokens input)
  || (0 <? tcCacheCreationTokens input).

Definition maxInt64 (value floor : Z) : Z := if value <? floor then floor else value.

Definition clampUsageTokenCostInput (input : UsageTokenCostInput) : UsageTokenCostInput :=
  mkTokens (maxInt64 (tcInputTokens input) 0) (maxInt64 (tcOutputTokens input) 0)
    (maxInt64 (tcCacheReadTokens input) 0) (maxInt64 (tcCacheCreationTokens input) 0).

Definition modelPriceMultiplier (pricing : ModelPriceSetting) : float64 :=
  match mpPriceMultiplier pricing with None => f64_one | Some multiplier => multiplier end.

(** [(float64(tokens) / 1_000_000.0) * price] *)
Definition segmentCost (tokens : Z) (price : float64) : float64 :=
  f64_mul (f64_div (f64_of_int tokens) (f64_of_int 1000000)) price.

Definition calculateUsageTokenCostBreakdown (input : UsageTokenCostInput) (pricing : ModelPriceSetting)
    : UsageTokenCostBreakdown :=
  let normalInputTokens :=
    sub64 (sub64 (tcInputTokens input) (tcCacheReadTokens input)) (tcCacheCreationTokens input) in
  let normalInputTokens := if normalInputTokens <? 0 then 0 else normalInputTokens in
  let uncached := segmentCost normalInputTokens (mpPromptPricePer1M pricing) in
  let read := segmentCost (tcCacheReadTokens input) (mpCacheReadPricePer1M pricing) in
  let write := segmentCost (tcCacheCreationTokens input) (mpCacheWritePricePer1M pricing) in
  let output := segmentCost (tcOutputTokens input) (mpCompletionPricePer1M pricing) in
  mkBreakdown uncached read write output (f64_add (f64_add (f64_add uncached read) write) output).

Definition ScaleUsageTokenCostBreakdown (b : UsageTokenCostBreakdown) (multiplier : float64)
    : UsageTokenCostBreakdown :=
  mkBreakdown (f64_mul (cbUncachedInputCostUSD b) multiplier) (f64_mul (cbCacheReadCostUSD b) multiplier)
    (f64_mul (cbCacheWriteCostUSD b) multiplier) (f64_mul (cbOutputCostUSD b) multiplier)
    (f64_mul (cbTotalCostUSD b) multiplier).

Definition CalculateUsageTokenCostBreakdown (input : UsageTokenCostInput) (pricing : ModelPriceSetting)
    : UsageTokenCostBreakdown :=
  let input := clampUsageTokenCostInput input in
  let multiplier := modelPriceMultiplier pricing in
  if f64_eq multiplier f64_zero then zeroBreakdown
  else ScaleUsageTokenCostBreakdown (calculateUsageTokenCostBreakdown input pricing) multiplier.

(** ** fields.go *)

Inductive RuleField :=
| RuleFieldInvalid
| RuleFieldAPIGroupKey
| RuleFieldModel
| RuleFieldAuthIndex
| RuleFieldModelAlias
| RuleFieldServiceTier
| RuleFieldResponseServiceTier
| RuleFieldReasoningEffort
| RuleFieldEndpoint
| RuleFieldExecutorType.

#[export] Instance RuleField_eq_dec : EqDecision RuleField.
Proof. solve_decision. Defined.

(** The constant of the code. *)
Definition ruleFieldCode (f : RuleField) : Z :=
  match f with
  | RuleFieldInvalid => 0
  | RuleFieldAPIGroupKey => 1
  | RuleFieldModel => 2
  | RuleFieldAuthIndex => 3
  | RuleFieldModelAlias => 4
  | RuleFieldServiceTier => 5
  | RuleFieldResponseServiceTier => 6
  | RuleFieldReasoningEffort => 7
  | RuleFieldEndpoint => 8
  | RuleFieldExecutorType => 9
  end.

(** From RuleFieldAPIGroupKey up to ruleFieldCount. *)
Definition ruleFields : list RuleField :=
  [RuleFieldAPIGroupKey; RuleFieldModel; RuleFieldAuthIndex; RuleFieldModelAlias; RuleFieldServiceTier;
   RuleFieldResponseServiceTier; RuleFieldReasoningEffort; RuleFieldEndpoint; RuleFieldExecutorType].

Definition RuleField_String (f : RuleField) : string :=
  match f with
  | RuleFieldInvalid => EmptyString
  | RuleFieldAPIGroupKey => "api_group_key"
  | RuleFieldModel => "model"
  | RuleFieldAuthIndex => "auth_index"
  | RuleFieldModelAlias => "model_alias"
  | RuleFieldServiceTier => "service_tier"
  | RuleFieldResponseServiceTier => "response_service_tier"
  | RuleFieldReasoningEffort => "reasoning_effort"
  | RuleFieldEndpoint => "endpoint"
  | RuleFieldExecutorType => "executor_type"
  end.

(** ActiveFields is a uint16. *)
Abbreviation ActiveFields := Z (only parsing).

Definition fieldBit (field : RuleField) : Z := Z.shiftl 1 (ruleFieldCode field - 1).

Definition Has (f : ActiveFields) (field : RuleField) : bool :=
  match field with
  | RuleFieldInvalid => false
  | _ => negb (Z.land f (fieldBit field) =? 0)
  end.

Definition Len (f : ActiveFields) : Z := Z.of_nat (length (filter (fun field => Has f field = true) ruleFields)).

Definition with_ (f : ActiveFields) (field : RuleField) : ActiveFields :=
  match field with
  | RuleFieldInvalid => f
  | _ => Z.lor f (fieldBit field)
  end.

Record UsageDimensions := mkDimensions {
  udAPIGroupKey : string;
  udModel : string;
  udAuthIndex : string;
  udModelAlias : string;
  udServiceTier : string;
  udResponseServiceTier : string;
  udReasoningEffort : string;
  udEndpoint : string;
  udExecutorType : string;
}.

Definition Value (field : RuleField) (d : UsageDimensions) : string :=
  match field with
  | RuleFieldAPIGroupKey => udAPIGroupKey d
  | RuleFieldModel => udModel d
  | RuleFieldAuthIndex => udAuthIndex d
  | RuleFieldModelAlias => udModelAlias d
  | RuleFieldServiceTier => udServiceTier d
  | RuleFieldResponseServiceTier => udResponseServiceTier d
  | RuleFieldReasoningEffort => udReasoningEffort d
  | RuleFieldEndpoint => udEndpoint d
  | RuleFieldExecutorType => udExecutorType d
  | RuleFieldInvalid => EmptyString
  end.

Definition canonicalRequiredDimension (value : string) : string :=
  let value := TrimSpace value in if value =?s EmptyString then "unknown" else value.

Definition canonicalizeUsageDimensions (d : UsageDimensions) : UsageDimensions :=
  mkDimensions (canonicalRequiredDimension (udAPIGroupKey d)) (canonicalRequiredDimension (udModel d))
    (TrimSpace (udAuthIndex d)) (TrimSpace (udModelAlias d)) (TrimSpace (udServiceTier d))
    (TrimSpace (udResponseServiceTier d)) (TrimSpace (udReasoningEffort d)) (TrimSpace (udEndpoint d))
    (TrimSpace (udExecutorType d)).

(** ** snapshot.go *)

Record RuleConfig := mkRule { rcKey : string; rcValue : string; rcMultiplier : float64 }.
Record ModelConfig := mkConfig { mcPricing : ModelPriceSetting; mcRules : list RuleConfig }.
Record compiledRule := mkCompiledRule { crField : RuleField; crValue : string; crMultiplier : float64 }.
Record compiledModel := mkCompiledModel { cmPricing : ModelPriceSetting; cmRules : list compiledRule }.

Record Snapshot := mkSnapshot {
  snModelsByName : gmap string compiledModel;
  snModelConfigs : list ModelConfig;
  snActiveFields : ActiveFields;
}.

Definition isNonNegativeFinite (value : float64) : bool :=
  f64_le f64_zero value && negb (IsNaN value) && negb (IsInf value).

Definition safeMultiply (left_ right_ : float64) : float64 * bool :=
  if f64_eq left_ f64_zero || f64_eq right_ f64_zero then (f64_zero, true)
  else if f64_lt (f64_div MaxFloat64 right_) left_ then (f64_zero, false)
  else let result := f64_mul left_ right_ in (result, negb (IsNaN result) && negb (IsInf result)).

(** cloneModelPriceSetting: a missing multiplier becomes 1. *)
Definition cloneModelPriceSetting (p : ModelPriceSetting) : ModelPriceSetting :=
  mkPrice (mpID p) (mpModel p) (mpPricingStyle p) (mpPromptPricePer1M p) (mpCompletionPricePer1M p)
    (mpCacheReadPricePer1M p) (mpCacheWritePricePer1M p) (Some (modelPriceMultiplier p))
    (mpCreatedAt p) (mpUpdatedAt p).

Definition duplicates (key value : string) (r : RuleConfig) : bool := (rcKey r =?s key) && (rcValue r =?s value).

Section Compile.
Context (quote quoteLower : string -> string)
  (walk : list (string * float64) -> list (string * float64)).

Definition ParseRuleField (value : string) : result string RuleField :=
  let normalized := ToLower (TrimSpace value) in
  match List.find (fun field => RuleField_String field =?s normalized) ruleFields with
  | Some field => Ok field
  | None => Err (String.append "unknown pricing rule field " (quoteLower (TrimSpace value)))
  end.

Definition compileRule (input : RuleConfig) : result string (RuleConfig * compiledRule) :=
  let? field := ParseRuleField (rcKey input) in
  let value := TrimSpace (rcValue input) in
  if value =?s EmptyString then Err "rule value is required"
  else if negb (isNonNegativeFinite (rcMultiplier input))
  then Err "rule multiplier must be a finite non-negative number"
  else Ok (mkRule (RuleField_String field) value (rcMultiplier input),
           mkCompiledRule field value (rcMultiplier input)).

Fixpoint validateNamed (named : list (string * float64)) : result string unit :=
  match named with
  | [] => Ok tt
  | (name, value) :: named =>
      if negb (isNonNegativeFinite value)
      then Err (String.append name " must be a finite non-negative number")
      else validateNamed named
  end.

Definition validatePricingNumbers (pricing : ModelPriceSetting) : result string unit :=
  let? _ := validateNamed (walk
    [("prompt price", mpPromptPricePer1M pricing); ("completion price", mpCompletionPricePer1M pricing);
     ("cache read price", mpCacheReadPricePer1M pricing); ("cache write price", mpCacheWritePricePer1M pricing)]) in
  if negb (isNonNegativeFinite (modelPriceMultiplier pricing))
  then Err "model price multiplier must be a finite non-negative number"
  else Ok tt.

(** maxByField: the largest multiplier of a field, at least 1. *)
Definition maxByField (rules : list compiledRule) (field : RuleField) : float64 :=
  foldl (fun m rule =>
    if bool_decide (crField rule = field) && f64_lt m (crMultiplier rule) then crMultiplier rule else m)
    f64_one rules.

Fixpoint maxRuleMultiplier (rules : list compiledRule) (fields : list RuleField) (m : float64)
    : result string float64 :=
  match fields with
  | [] => Ok m
  | field :: fields =>
      let '(m, ok) := safeMultiply m (maxByField rules field) in
      if negb ok then Err "combined pricing rule multiplier is not finite" else maxRuleMultiplier rules fields m
  end.

Definition maxTokensPerMillion : float64 := f64_div (f64_of_int int64_max) (f64_of_int 1000000).

Fixpoint worstCaseSegments (prices : list float64) (totalMultiplier unscaledTotal scaledTotal : float64)
    : result string unit :=
  match prices with
  | [] => Ok tt
  | price :: prices =>
      let '(segment, segmentOK) := safeMultiply price maxTokensPerMillion in
      if negb segmentOK || f64_lt (f64_sub MaxFloat64 segment) unscaledTotal
      then Err "unscaled worst-case token cost is not finite"
      else
        let unscaledTotal := f64_add unscaledTotal segment in
        let '(segment, segmentOK) := safeMultiply segment totalMultiplier in
        if negb segmentOK || f64_lt (f64_sub MaxFloat64 segment) scaledTotal
        then Err "worst-case token cost is not finite"
        else worstCaseSegments prices totalMultiplier unscaledTotal (f64_add scaledTotal segment)
  end.

Definition validateWorstCaseCost (pricing : ModelPriceSetting) (rules : list compiledRule) : result string unit :=
  let modelMultiplier := modelPriceMultiplier pricing in
  if f64_eq modelMultiplier f64_zero then Ok tt
  else
    let? ruleMultiplier := maxRuleMultiplier rules ruleFields f64_one in
    let '(totalMultiplier, ok) := safeMultiply modelMultiplier ruleMultiplier in
    if negb ok then Err "combined model and rule multiplier is not finite"
    else worstCaseSegments
           [mpPromptPricePer1M pricing; mpCompletionPricePer1M pricing; mpCacheReadPricePer1M pricing;
            mpCacheWritePricePer1M pricing] totalMultiplier f64_zero f64_zero.

(** The loop over the rules: [seen] are those normalized so far, in order. *)
Fixpoint compileRules (index : Z) (rules : list RuleConfig) (seen : list RuleConfig)
    (compiled : list compiledRule) (activeFields : ActiveFields)
    : result string (list RuleConfig * list compiledRule * ActiveFields) :=
  match rules with
  | [] => Ok (seen, compiled, activeFields)
  | input :: rules =>
      match compileRule input with
      | Err e => Err (String.append "rule at index " (String.append (Itoa index) (String.append ": " e)))
      | Ok (rule, compiledRuleValue) =>
          if existsb (duplicates (rcKey rule) (rcValue rule)) seen
          then Err (String.append "duplicate rule " (String.append (rcKey rule)
                     (String.append "=" (quote (rcValue rule)))))
          else if f64_eq (rcMultiplier rule) f64_one
          then compileRules (index + 1) rules (seen ++ [rule]) compiled activeFields
          else compileRules (index + 1) rules (seen ++ [rule]) (compiled ++ [compiledRuleValue])
                 (with_ activeFields (crField compiledRuleValue))
      end
  end.

Definition compileModelConfig (config : ModelConfig)
    : result string (compiledModel * ModelConfig * ActiveFields) :=
  let pricing := cloneModelPriceSetting (mcPricing config) in
  let pricing := withModel (TrimSpace (mpModel pricing)) pricing in
  if mpModel pricing =?s EmptyString then Err "model is required"
  else
    let? _ := validatePricingNumbers pricing in
    let? (normalizedRules, compiledRules, activeFields) := compileRules 0 (mcRules config) [] [] 0 in
    let? _ := validateWorstCaseCost pricing compiledRules in
    Ok (mkCompiledModel pricing compiledRules, mkConfig (cloneModelPriceSetting pricing) normalizedRules,
        activeFields).

(** The loop over the configurations. *)
Fixpoint compileConfigs (index : Z) (configs : list ModelConfig) (s : Snapshot) : result string Snapshot :=
  match configs with
  | [] => Ok s
  | config :: configs =>
      match compileModelConfig config with
      | Err e =>
          Err (String.append "compile model price at index " (String.append (Itoa index) (String.append ": " e)))
      | Ok (compiled, normalized, activeFields) =>
          let model := mpModel (mcPricing normalized) in
          match snModelsByName s !! model with
          | Some _ => Err (String.append "duplicate model price " (quote model))
          | None =>
              compileConfigs (index + 1) configs
                (mkSnapshot (<[model := compiled]> (snModelsByName s)) (snModelConfigs s ++ [normalized])
                   (Z.lor (snActiveFields s) activeFields))
          end
      end
  end.

(** The models are distinct, so there is one sorted order. *)
Definition configOrder (a b : ModelConfig) : Prop :=
  string_lt (mpModel (mcPricing b)) (mpModel (mcPricing a)) = false.
#[export] Instance configOrder_dec : RelDecision configOrder :=
  fun a b => decide (string_lt (mpModel (mcPricing b)) (mpModel (mcPricing a)) = false).

Definition CompileSnapshot (configs : list ModelConfig) : result string Snapshot :=
  let? snapshot := compileConfigs 0 configs (mkSnapshot ∅ [] 0) in
  Ok (mkSnapshot (snModelsByName snapshot) (merge_sort configOrder (snModelConfigs snapshot))
        (snActiveFields snapshot)).

End Compile.

Definition ModelConfigs (s : option Snapshot) : list ModelConfig :=
  match s with
  | None => []
  | Some s => map (fun c => mkConfig (cloneModelPriceSetting (mcPricing c)) (mcRules c)) (snModelConfigs s)
  end.

(** Method ModelConfig of a snapshot. *)
Definition ModelConfigOf (s : option Snapshot) (model : string) : option ModelConfig :=
  match s with
  | None => None
  | Some s =>
      match snModelsByName s !! TrimSpace model with
      | None => None
      | Some compiled =>
          match List.find (fun c => mpModel (mcPricing c) =?s mpModel (cmPricing compiled)) (snModelConfigs s) with
          | Some c => Some (mkConfig (cloneModelPriceSetting (mcPricing c)) (mcRules c))
          | None => None
          end
      end
  end.

(** ** resolver.go *)

Record CostSubject := mkSubject { csDimensions : UsageDimensions; csTokens : UsageTokenCostInput }.

Definition NewCostSubject (dimensions : UsageDimensions) (tokens : UsageTokenCostInput) : CostSubject :=
  mkSubject (canonicalizeUsageDimensions dimensions) tokens.

Record CostResult := mkCost {
  coCost : UsageTokenCostBreakdown;
  coAvailable : bool;
  coPricingStyle : string;
  coMatchedModel : string;
  coMatchedBy : string;
  coRuleMultiplier : float64;
}.

Definition matchModel (s : option Snapshot) (d : UsageDimensions) : option (compiledModel * string * string) :=
  match s with
  | None => None
  | Some s =>
      match snModelsByName s !! udModel d with
      | Some model => Some (model, udModel d, "model")
      | None =>
          match snModelsByName s !! udModelAlias d with
          | Some model => Some (model, udModelAlias d, "model_alias")
          | None => None
          end
      end
  end.

(** The loop, with the product so far. *)
Fixpoint multiplyRules (rules : list compiledRule) (d : UsageDimensions) (multiplier : float64) : float64 :=
  match rules with
  | [] => multiplier
  | rule :: rules =>
      if negb (Value (crField rule) d =?s crValue rule) then multiplyRules rules d multiplier
      else if f64_eq (crMultiplier rule) f64_zero then f64_zero
      else multiplyRules rules d (f64_mul multiplier (crMultiplier rule))
  end.
Definition matchingRuleMultiplier (rules : list compiledRule) (d : UsageDimensions) : float64 :=
  multiplyRules rules d f64_one.

Definition Calculate (s : option Snapshot) (subject : CostSubject) : CostResult :=
  match matchModel s (csDimensions subject) with
  | None =>
      mkCost zeroBreakdown (negb (UsageTokenInputRequiresPricing (csTokens subject))) EmptyString EmptyString
        EmptyString f64_one
  | Some (model, matchedModel, matchedBy) =>
      let breakdown := CalculateUsageTokenCostBreakdown (csTokens subject) (cmPricing model) in
      let '(ruleMultiplier, breakdown) :=
        if match mpPriceMultiplier (cmPricing model) with
           | None => true
           | Some m => negb (f64_eq m f64_zero)
           end
        then let m := matchingRuleMultiplier (cmRules model) (csDimensions subject) in
             (m, ScaleUsageTokenCostBreakdown breakdown m)
        else (f64_one, breakdown) in
      mkCost breakdown true (mpPricingStyle (cmPricing model)) matchedModel matchedBy ruleMultiplier
  end.

(** ActiveFields of a resolver or of a snapshot. *)
Definition ActiveFieldsOf (s : option Snapshot) : ActiveFields :=
  match s with None => 0 | Some s => snActiveFields s end.

(** ** catalog.go *)

Definition sharedEmptySnapshot : Snapshot := mkSnapshot ∅ [] 0.

(** A catalogue holds a snapshot or nil. *)
Definition Catalog : Type := option Snapshot.

Definition Replace (snapshot : option Snapshot) (c : Catalog) : Catalog :=
  Some (default sharedEmptySnapshot snapshot).
Definition NewCatalog (snapshot : option Snapshot) : Catalog := Replace snapshot None.
Definition Catalog_Snapshot (c : option Catalog) : Snapshot :=
  match c with
  | Some (Some snapshot) => snapshot
  | _ => sharedEmptySnapshot
  end.
Definition NewResolver (c : option Catalog) : option Snapshot := Some (Catalog_Snapshot c).
