(* ===== verification/PricingFacts.v ===== *)
(** The compiled catalogue prices a subject as its configurations say; the active
    fields are enough to price by; and a catalogue compiled again is itself. *)
From S2P Require Import Prelude GoStrings GoTime Entities GoFloat Pricing.
From stdpp Require Import sorting.

Local Open Scope string_scope.
Local Open Scope list_scope.
Local Open Scope Z_scope.

(** What a configuration compiles to. *)
Abbreviation Triple := (compiledModel * ModelConfig * Z)%type.

(** ** Active fields *)

Lemma Has_lor a b f : Has (Z.lor a b) f = Has a f || Has b f.
Proof.
  destruct f; [done|..]; unfold Has; rewrite <- negb_andb; f_equal; rewrite Z.land_lor_distr_l;
    apply Bool.eq_iff_eq_true; rewrite andb_true_iff, !Z.eqb_eq, Z.lor_eq_0_iff; done.
Qed.

Lemma Has_with a f g : f <> RuleFieldInvalid -> Has (with_ a f) g = Has a g || bool_decide (f = g).
Proof.
  intros Ne. replace (with_ a f) with (Z.lor a (fieldBit f)) by (by destruct f). rewrite Has_lor. f_equal.
  destruct f, g; try done; by vm_compute.
Qed.

Section Compiled.
Context (quote quoteLower : string -> string) (walk : list (string * float64) -> list (string * float64)).

Lemma ParseRuleField_valid v f : ParseRuleField quoteLower v = Ok f -> f <> RuleFieldInvalid.
Proof.
  unfold ParseRuleField. destruct (List.find _ ruleFields) eqn:E; [|done]. intros [= <-].
  apply List.find_some in E as [E _]. by destruct r; [repeat (destruct E as [E|E]; [done|])|..].
Qed.

Lemma ParseRuleField_String f : f <> RuleFieldInvalid -> ParseRuleField quoteLower (RuleField_String f) = Ok f.
Proof. destruct f; [done|..]; intros _; reflexivity. Qed.

(** What a rule compiles to. *)
Lemma compileRule_ok input rule cr : compileRule quoteLower input = Ok (rule, cr) ->
  exists f, ParseRuleField quoteLower (rcKey input) = Ok f /\ f <> RuleFieldInvalid /\
    TrimSpace (rcValue input) <> EmptyString /\ isNonNegativeFinite (rcMultiplier input) = true /\
    rule = mkRule (RuleField_String f) (TrimSpace (rcValue input)) (rcMultiplier input) /\
    cr = mkCompiledRule f (TrimSpace (rcValue input)) (rcMultiplier input).
Proof.
  unfold compileRule. destruct (ParseRuleField quoteLower (rcKey input)) as [f|] eqn:Ef; [|done]. cbn [result_bind].
  destruct (_ =?s _) eqn:Ev; [done|]. destruct (isNonNegativeFinite _) eqn:Em; [|done]. cbn [negb]. intros [= <- <-].
  bool_split. exists f. split_and!; try done. by eapply ParseRuleField_valid.
Qed.

(** The compiled rules are those of the effective normalized rules. *)
Definition effective (r : RuleConfig) : bool := negb (f64_eq (rcMultiplier r) f64_one).
Definition asCompiled (r : RuleConfig) : option compiledRule :=
  match ParseRuleField quoteLower (rcKey r) with
  | Ok f => if effective r then Some (mkCompiledRule f (TrimSpace (rcValue r)) (rcMultiplier r)) else None
  | Err _ => None
  end.

Definition fieldsOf (rules : list compiledRule) (a : Z) : Z := foldl (fun a r => with_ a (crField r)) a rules.

Lemma compileRules_ok i rules seen compiled a out : compileRules quote quoteLower i rules seen compiled a = Ok out ->
  exists normalized,
    Forall2 (fun input rule => exists cr, compileRule quoteLower input = Ok (rule, cr)) rules normalized /\
    out = (seen ++ normalized, compiled ++ omap asCompiled rules, fieldsOf (omap asCompiled rules) a) /\
    (forall l l1 r l2, l = seen ++ normalized -> l = l1 ++ r :: l2 -> (length seen <= length l1)%nat ->
       existsb (duplicates (rcKey r) (rcValue r)) l1 = false).
Proof.
  revert i seen compiled a. induction rules as [|input rules IH]; intros i seen compiled a; cbn [compileRules].
  { intros [= <-]. exists []. rewrite !app_nil_r. split_and!; [constructor|done|].
    intros l l1 r l2 -> E L. rewrite E, length_app in L. cbn in L. lia. }
  destruct (compileRule quoteLower input) as [[rule cr]|] eqn:Er; [|done]. destruct (existsb _ seen) eqn:Ed; [done|].
  assert (Er' := Er). apply compileRule_ok in Er' as (f & Ef & _ & _ & _ & -> & ->).
  intros Run.
  assert (G : exists compiled' a', compileRules quote quoteLower (i + 1) rules (seen ++ [mkRule (RuleField_String f) (TrimSpace (rcValue input)) (rcMultiplier input)]) compiled' a' = Ok out /\
    compiled' ++ omap asCompiled rules = compiled ++ omap asCompiled (input :: rules) /\
    fieldsOf (omap asCompiled rules) a' = fieldsOf (omap asCompiled (input :: rules)) a).
  { cbn [rcMultiplier] in Run.
    assert (As : asCompiled input = if negb (f64_eq (rcMultiplier input) f64_one)
      then Some (mkCompiledRule f (TrimSpace (rcValue input)) (rcMultiplier input)) else None)
      by (unfold asCompiled; by rewrite Ef).
    destruct (f64_eq _ f64_one) eqn:E1; cbn [negb] in As; eexists _, _; (split; [exact Run|]).
    - rewrite !omap_cons, As. done.
    - rewrite !omap_cons, As. by rewrite <- app_assoc. }
  destruct G as (compiled' & a' & G & Ec & Ea). apply IH in G as (normalized & F & -> & D).
  eexists (_ :: normalized). split; [constructor; [by eexists|exact F]|]. split.
  - rewrite Ec, Ea. by rewrite <- app_assoc.
  - intros l l1 r l2 Hl E L. destruct (decide (length seen = length l1)%nat) as [Eq|Neq].
    + subst l. apply app_inj_1 in E as [<- E]; [|done]. injection E as <- <-. exact Ed.
    + eapply D; [|exact E|rewrite length_app; cbn; lia]. by rewrite Hl, <- app_assoc.
Qed.

(** ** One configuration *)

Definition trimmed (c : ModelConfig) : ModelPriceSetting :=
  withModel (TrimSpace (mpModel (mcPricing c))) (cloneModelPriceSetting (mcPricing c)).

Definition distinct_rules (l : list RuleConfig) : Prop :=
  forall l1 r l2, l = l1 ++ r :: l2 -> existsb (duplicates (rcKey r) (rcValue r)) l1 = false.

Record config_ok (c : ModelConfig) (t : compiledModel * ModelConfig * Z) : Prop := {
  co_named : TrimSpace (mpModel (mcPricing c)) <> EmptyString;
  co_numbers : validatePricingNumbers walk (trimmed c) = Ok tt;
  co_rules : Forall2 (fun input rule => exists cr, compileRule quoteLower input = Ok (rule, cr)) (mcRules c)
               (mcRules t.1.2);
  co_distinct : distinct_rules (mcRules t.1.2);
  co_worst : validateWorstCaseCost (trimmed c) (omap asCompiled (mcRules c)) = Ok tt;
  co_compiled : t.1.1 = mkCompiledModel (trimmed c) (omap asCompiled (mcRules c));
  co_pricing : mcPricing t.1.2 = trimmed c;
  co_fields : t.2 = fieldsOf (omap asCompiled (mcRules c)) 0;
}.

Lemma compileModelConfig_ok c t : compileModelConfig quote quoteLower walk c = Ok t -> config_ok c t.
Proof.
  unfold compileModelConfig. fold (trimmed c). change (withModel _ (cloneModelPriceSetting (mcPricing c))) with (trimmed c).
  destruct (mpModel (trimmed c) =?s EmptyString) eqn:Em; [done|].
  destruct (validatePricingNumbers walk (trimmed c)) as [[]|] eqn:Ev; [|done]. cbn [result_bind].
  destruct (compileRules _ _ _ _ _ _ _) as [out|] eqn:Er; [|done].
  apply compileRules_ok in Er as (normalized & F & -> & D). cbn [result_bind app].
  destruct (validateWorstCaseCost _ _) as [[]|] eqn:Ew; [|done]. cbn [result_bind]. intros [= <-]. bool_split.
  split; try done. intros l1 r l2 E. apply (D normalized l1 r l2); [done|exact E|cbn; lia].
Qed.

(** What a rule was normalized to compiles to itself and counts as it does. *)
Lemma normalized_rule input rule cr : compileRule quoteLower input = Ok (rule, cr) ->
  compileRule quoteLower rule = Ok (rule, cr) /\ asCompiled rule = asCompiled input.
Proof.
  intros H. apply compileRule_ok in H as (f & Ef & Nf & Nv & Fm & -> & ->).
  unfold compileRule, asCompiled. cbn [rcKey rcValue rcMultiplier].
  rewrite ParseRuleField_String by done. rewrite Ef. cbn [result_bind]. rewrite TrimSpace_twice, Fm.
  rewrite (proj2 (String.eqb_neq _ _) Nv). done.
Qed.

Lemma normalized_rules rules normalized i seen compiled a :
  Forall2 (fun input rule => exists cr, compileRule quoteLower input = Ok (rule, cr)) rules normalized ->
  distinct_rules (seen ++ normalized) ->
  compileRules quote quoteLower i normalized seen compiled a
    = Ok (seen ++ normalized, compiled ++ omap asCompiled rules, fieldsOf (omap asCompiled rules) a).
Proof.
  intros F. revert i seen compiled a. induction F as [|input rule rules normalized [cr Hc] F IH];
    intros i seen compiled a D; cbn [compileRules]; [by rewrite !app_nil_r|].
  assert (As := normalized_rule _ _ _ Hc). destruct As as [Hn _]. rewrite Hn.
  rewrite (D seen rule normalized eq_refl).
  assert (D' : distinct_rules ((seen ++ [rule]) ++ normalized)) by (by rewrite <- app_assoc).
  apply compileRule_ok in Hc as (f & Ef & Nf & Nv & Fm & Er & Ec).
  assert (As : asCompiled input = if negb (f64_eq (rcMultiplier rule) f64_one) then Some cr else None).
  { unfold asCompiled. rewrite Ef, Er, Ec. done. }
  rewrite omap_cons, As.
  destruct (f64_eq _ _); cbn [negb]; rewrite IH by done; rewrite <- !app_assoc; done.
Qed.

Lemma normalized_config c t : config_ok c t -> compileModelConfig quote quoteLower walk t.1.2 = Ok t.
Proof.
  intros [Nm Nu Ru Di Wo Co Pr Fi]. destruct t as [[cm n] a]. cbn [fst snd] in *. subst cm a.
  unfold compileModelConfig. rewrite Pr.
  assert (T : withModel (TrimSpace (mpModel (cloneModelPriceSetting (trimmed c)))) (cloneModelPriceSetting (trimmed c)) = trimmed c).
  { unfold trimmed, withModel, cloneModelPriceSetting, modelPriceMultiplier. cbn -[TrimSpace]. by rewrite TrimSpace_twice. }
  rewrite T, Nu. replace (mpModel (trimmed c)) with (TrimSpace (mpModel (mcPricing c))) by done.
  rewrite (proj2 (String.eqb_neq _ _) Nm). cbn [result_bind].
  rewrite (normalized_rules _ _ 0 [] [] 0 Ru Di). cbn [result_bind app]. rewrite Wo. cbn [result_bind].
  do 3 f_equal. destruct n as [p rules]. cbn in Pr |- *. by rewrite Pr.
Qed.

(** ** All configurations *)

Definition tripleModel (t : Triple) : string := mpModel (mcPricing t.1.2).
Definition addTriple (s : Snapshot) (t : Triple) : Snapshot :=
  mkSnapshot (<[tripleModel t := t.1.1]> (snModelsByName s)) (snModelConfigs s ++ [t.1.2])
    (Z.lor (snActiveFields s) t.2).

Lemma compileConfigs_iff i configs s s' : compileConfigs quote quoteLower walk i configs s = Ok s' <->
  exists ts, Forall2 (fun c t => compileModelConfig quote quoteLower walk c = Ok t) configs ts /\
    NoDup (map tripleModel ts) /\ Forall (fun t => snModelsByName s !! tripleModel t = None) ts /\
    s' = foldl addTriple s ts.
Proof.
  revert i s. induction configs as [|c configs IH]; intros i s; cbn [compileConfigs].
  { split; [intros [= <-]; exists []; split_and!; by constructor|]. intros (ts & F & _ & _ & ->). by inversion F. }
  split.
  - destruct (compileModelConfig quote quoteLower walk c) as [[[cm n] a]|] eqn:Ec; [|done].
    destruct (snModelsByName s !! mpModel (mcPricing n)) eqn:El; [done|].
    intros Run. apply IH in Run as (ts & F & N & Fr & ->). exists ((cm, n, a) :: ts).
    assert (NotIn : Forall (fun t => tripleModel t <> mpModel (mcPricing n) /\ snModelsByName s !! tripleModel t = None) ts).
    { eapply Forall_impl; [exact Fr|]. intros t. cbv beta. cbn [snModelsByName]. rewrite lookup_insert_None. naive_solver. }
    split_and!.
    + by constructor.
    + cbn [map]. constructor; [|done]. intros I. apply list_elem_of_fmap in I as (t & E & It).
      rewrite Forall_forall in NotIn. destruct (NotIn t It) as [Ne _]. by apply Ne.
    + constructor; [done|]. eapply Forall_impl; [exact NotIn|]. by intros t [].
    + done.
  - intros (ts & F & N & Fr & ->). inversion F as [|c' [[cm n] a] configs' ts' Ec F']; subst. rewrite Ec.
    inversion N as [|m ms Nin N']; subst. inversion Fr as [|t' ts'' El Fr']; subst.
    unfold tripleModel at 1 in El. cbn [fst snd] in El. rewrite El. apply IH. exists ts'. split_and!; try done.
    apply Forall_forall. intros t It. cbn [snModelsByName]. apply lookup_insert_None. rewrite Forall_forall in Fr'.
    split; [by apply Fr'|]. intros E. apply Nin. change (tripleModel (cm, n, a)) with (mpModel (mcPricing n)). rewrite E.
    by apply list_elem_of_fmap_2.
Qed.

Definition byName (ts : list Triple) : gmap string compiledModel :=
  list_to_map (map (fun t => (tripleModel t, t.1.1)) ts).
Definition allFields (ts : list Triple) : Z := foldr Z.lor 0 (map snd ts).

Lemma addTriples ts s : NoDup (map tripleModel ts) -> Forall (fun t => snModelsByName s !! tripleModel t = None) ts ->
  foldl addTriple s ts = mkSnapshot (byName ts ∪ snModelsByName s) (snModelConfigs s ++ map (fun t => t.1.2) ts)
    (Z.lor (snActiveFields s) (allFields ts)).
Proof.
  revert s. induction ts as [|t ts IH]; intros s N Fr.
  { cbn. rewrite app_nil_r, Z.lor_0_r. unfold byName. cbn. rewrite (left_id_L ∅ (∪)). by destruct s. }
  cbn [foldl map]. inversion N as [|m ms Nin N']; subst. inversion Fr as [|t' ts' El Fr']; subst.
  rewrite IH; [|done|].
  - cbn [addTriple snModelsByName snModelConfigs snActiveFields]. unfold byName, allFields. cbn [map list_to_map foldr].
    f_equal; [|by rewrite <- app_assoc|by rewrite Z.lor_assoc].
    rewrite <- insert_union_r; [by rewrite insert_union_l|]. apply not_elem_of_list_to_map.
    intros I. apply Nin. apply list_elem_of_fmap in I as ([k v] & -> & I). apply list_elem_of_fmap in I as (t' & E & I).
    injection E as -> ->. cbn [fst]. by apply (list_elem_of_fmap_2 tripleModel).
  - apply Forall_forall. intros t' It. cbn [addTriple snModelsByName]. apply lookup_insert_None. rewrite Forall_forall in Fr'.
    split; [by apply Fr'|]. intros E. apply Nin. rewrite E. by apply list_elem_of_fmap_2.
Qed.

(** A snapshot, from what its configurations compile to. *)
Definition snapshotOf (ts : list Triple) : Snapshot :=
  mkSnapshot (byName ts) (merge_sort configOrder (map (fun t => t.1.2) ts)) (allFields ts).

Lemma CompileSnapshot_iff configs s : CompileSnapshot quote quoteLower walk configs = Ok s <->
  exists ts, Forall2 (fun c t => compileModelConfig quote quoteLower walk c = Ok t) configs ts /\
    NoDup (map tripleModel ts) /\ s = snapshotOf ts.
Proof.
  unfold CompileSnapshot. set (s0 := mkSnapshot ∅ [] 0).
  assert (Fr : forall ts, Forall (fun t => snModelsByName s0 !! tripleModel t = None) ts) by (intros ts; by apply Forall_true).
  assert (E : forall ts, NoDup (map tripleModel ts) ->
    let s := foldl addTriple s0 ts in mkSnapshot (snModelsByName s) (merge_sort configOrder (snModelConfigs s)) (snActiveFields s) = snapshotOf ts).
  { intros ts N. cbv zeta. rewrite addTriples by done. unfold snapshotOf. cbn. by rewrite (right_id_L ∅ (∪)). }
  split.
  - destruct (compileConfigs quote quoteLower walk 0 configs s0) as [s1|] eqn:Er; [|done]. cbn [result_bind].
    intros [= <-]. apply compileConfigs_iff in Er as (ts & F & N & _ & ->). exists ts. split; [done|]. split; [done|]. by apply E.
  - intros (ts & F & N & ->).
    assert (Run : compileConfigs quote quoteLower walk 0 configs s0 = Ok (foldl addTriple s0 ts)).
    { apply compileConfigs_iff. exists ts. by split_and!. }
    rewrite Run. cbn [result_bind]. f_equal. by apply E.
Qed.

End Compiled.

(** ** The order of the configurations *)

#[export] Instance configOrder_trans : Transitive configOrder.
Proof.
  intros a b c H1 H2. unfold configOrder in *. set (x := mpModel (mcPricing a)) in *.
  set (y := mpModel (mcPricing b)) in *. set (z := mpModel (mcPricing c)) in *.
  destruct (string_lt z x) eqn:E; [|done]. destruct (string_lt_total x y) as [L|[->|L]]; [|congruence..].
  by rewrite (string_lt_trans _ _ _ E L) in H2.
Qed.

#[export] Instance configOrder_total : Total configOrder.
Proof.
  intros a b. unfold configOrder. destruct (string_lt (mpModel (mcPricing b)) (mpModel (mcPricing a))) eqn:E; [|by left].
  right. destruct (string_lt (mpModel (mcPricing a)) (mpModel (mcPricing b))) eqn:E2; [|done]. pose proof (string_lt_trans _ _ _ E E2) as L.
  by rewrite string_lt_irrefl in L.
Qed.

Lemma configOrder_same a b : configOrder a b -> configOrder b a -> mpModel (mcPricing a) = mpModel (mcPricing b).
Proof.
  unfold configOrder. intros H1 H2.
  destruct (string_lt_total (mpModel (mcPricing a)) (mpModel (mcPricing b))) as [L|[E|L]]; congruence.
Qed.

Lemma same_image {A B} (f : A -> B) l a b : NoDup (map f l) -> a ∈ l -> b ∈ l -> f a = f b -> a = b.
Proof.
  intros N Ia Ib E. apply list_elem_of_lookup in Ia as [i Hi], Ib as [j Hj].
  assert (i = j); [|congruence]. eapply (NoDup_lookup (map f l) i j (f a)); [done|..].
  - by rewrite list_lookup_fmap, Hi.
  - by rewrite list_lookup_fmap, Hj, E.
Qed.

(** Sorting configurations of distinct models does not depend on their order. *)
Lemma sort_configs l k : NoDup (map (fun c => mpModel (mcPricing c)) l) -> l ≡ₚ k ->
  merge_sort configOrder l = merge_sort configOrder k.
Proof.
  intros N P. apply (StronglySorted_unique_strong configOrder).
  - intros a b Ia Ib Hab Hba. rewrite merge_sort_Permutation in Ia, Ib. rewrite <- P in Ib.
    apply (same_image _ l a b N); [done|done|by apply configOrder_same].
  - apply StronglySorted_merge_sort; apply _.
  - apply StronglySorted_merge_sort; apply _.
  - by rewrite !merge_sort_Permutation.
Qed.

Lemma allFields_Permutation ts ts' : ts ≡ₚ ts' -> allFields ts = allFields ts'.
Proof.
  unfold allFields. induction 1; cbn [map foldr]; [done|by f_equal| |congruence].
  by rewrite !Z.lor_assoc, (Z.lor_comm y.2).
Qed.

Lemma snapshotOf_Permutation ts ts' : NoDup (map tripleModel ts) -> ts ≡ₚ ts' -> snapshotOf ts = snapshotOf ts'.
Proof.
  intros N P. unfold snapshotOf. f_equal.
  - unfold byName. apply list_to_map_proper; [|by apply Permutation_map].
    change (NoDup ((fun p : string * compiledModel => p.1) <$> map (fun t => (tripleModel t, t.1.1)) ts)).
    rewrite <- list_fmap_compose. exact N.
  - apply sort_configs; [|by apply Permutation_map]. by rewrite map_map.
  - by apply allFields_Permutation.
Qed.

(** ** Recompiling *)

Section Claims.
Context (quote quoteLower : string -> string) (walk : list (string * float64) -> list (string * float64)).

Lemma clone_trimmed c : cloneModelPriceSetting (trimmed c) = trimmed c.
Proof. done. Qed.

(** What a snapshot hands out is its normalized configurations. *)
Lemma configs_of_snapshot configs ts :
  Forall2 (fun c t => compileModelConfig quote quoteLower walk c = Ok t) configs ts ->
  ModelConfigs (Some (snapshotOf ts)) = snModelConfigs (snapshotOf ts).
Proof.
  intros F. cbn [ModelConfigs]. rewrite <- (map_id (snModelConfigs (snapshotOf ts))) at 2. apply map_ext_in.
  intros n In_. apply list_elem_of_In in In_. cbn [snModelConfigs snapshotOf] in In_. rewrite merge_sort_Permutation in In_.
  apply list_elem_of_fmap in In_ as (t & -> & It). apply list_elem_of_lookup in It as [i Hi].
  destruct (Forall2_lookup_r _ _ _ _ _ F Hi) as (c & _ & Hc). apply compileModelConfig_ok in Hc.
  destruct t as [[cm [p rules]] a]. pose proof (co_pricing _ _ _ _ Hc) as E. cbn in E |- *. by rewrite E, clone_trimmed.
Qed.

(** A compiled catalogue is a fixed point: the configurations it hands out (texts
    trimmed, multipliers written out, sorted by model) compile, and to the same
    snapshot, whatever the order of the configurations it was compiled from. *)
Theorem compile_again (configs : list ModelConfig) (s : Snapshot)
    (Compiled : CompileSnapshot quote quoteLower walk configs = Ok s) :
  CompileSnapshot quote quoteLower walk (ModelConfigs (Some s)) = Ok s.
Proof.
  apply CompileSnapshot_iff in Compiled as (ts & F & N & ->). rewrite (configs_of_snapshot _ _ F).
  cbn [snModelConfigs snapshotOf].
  pose proof (merge_sort_Permutation configOrder (map (fun t : Triple => t.1.2) ts)) as P.
  destruct (Permutation_map_inv _ _ P) as (ts' & E & P'). rewrite E.
  apply CompileSnapshot_iff. exists ts'. split_and!.
  - apply Forall2_fmap_l, Forall_Forall2_diag, Forall_forall. intros t It. rewrite <- P' in It. apply list_elem_of_lookup in It as [i Hi].
    destruct (Forall2_lookup_r _ _ _ _ _ F Hi) as (c & _ & Hc). apply compileModelConfig_ok in Hc.
    by eapply normalized_config.
  - by rewrite <- P'.
  - by apply snapshotOf_Permutation.
Qed.

(** ** The active fields *)

Lemma Has_fieldsOf rules a f :
  Has (fieldsOf rules a) f = Has a f || existsb (fun r => bool_decide (crField r = f)) rules
  \/ Exists (fun r => crField r = RuleFieldInvalid) rules.
Proof.
  revert a. induction rules as [|r rules IH]; intros a; [left; by rewrite orb_false_r|].
  destruct (decide (crField r = RuleFieldInvalid)) as [|Ne]; [right; by constructor|].
  destruct (IH (with_ a (crField r))) as [E|E]; [left|right; by constructor].
  unfold fieldsOf in *. cbn [foldl existsb]. rewrite E, Has_with by done. by rewrite orb_assoc.
Qed.

Lemma asCompiled_fields rules : Forall (fun r => crField r <> RuleFieldInvalid) (omap (asCompiled quoteLower) rules).
Proof.
  induction rules as [|r rules IH]; [constructor|]. rewrite omap_cons.
  destruct (asCompiled quoteLower r) as [cr|] eqn:E; [|done]. constructor; [|done]. unfold asCompiled in E.
  destruct (ParseRuleField quoteLower (rcKey r)) as [f|] eqn:Ef; [|done]. destruct (effective r); [|done].
  injection E as <-. by eapply ParseRuleField_valid.
Qed.

Lemma Has_allFields ts t f : t ∈ ts -> Has t.2 f = true -> Has (allFields ts) f = true.
Proof.
  unfold allFields. induction 1 as [|t' ts' t0 _ IH]; intros Hf; cbn [map foldr]; rewrite Has_lor, orb_true_iff; auto.
Qed.

(** The field of each compiled rule is active. *)
Lemma rules_active configs ts name cm :
  Forall2 (fun c t => compileModelConfig quote quoteLower walk c = Ok t) configs ts ->
  byName ts !! name = Some cm ->
  Forall (fun r => Has (allFields ts) (crField r) = true) (cmRules cm).
Proof.
  intros F L. unfold byName in L. apply elem_of_list_to_map_2 in L.
  apply list_elem_of_fmap in L as (t & E & It). injection E as _ ->.
  assert (It' := It). apply list_elem_of_lookup in It as [i Hi].
  destruct (Forall2_lookup_r _ _ _ _ _ F Hi) as (c & _ & Hc). apply compileModelConfig_ok in Hc.
  rewrite (co_compiled _ _ _ _ Hc). cbn [cmRules]. pose proof (asCompiled_fields (mcRules c)) as V.
  apply Forall_forall. intros r Ir. apply (Has_allFields _ t); [done|]. rewrite (co_fields _ _ _ _ Hc).
  destruct (Has_fieldsOf (omap (asCompiled quoteLower) (mcRules c)) 0 (crField r)) as [->|Ex].
  - apply orb_true_iff. right. apply existsb_exists. exists r. split; [by apply list_elem_of_In|]. by apply bool_decide_eq_true.
  - apply Exists_exists in Ex as (r' & Ir' & E'). rewrite Forall_forall in V. by destruct (V r' Ir').
Qed.

(** Rows grouped by the active fields can be priced as one: two subjects with the
    same tokens, model and alias that agree on every active field of the catalogue cost
    the same, with the same multiplier, whatever their other dimensions are. *)
Theorem active_fields_suffice (configs : list ModelConfig) (s : Snapshot) (d1 d2 : UsageDimensions)
    (tokens : UsageTokenCostInput)
    (Compiled : CompileSnapshot quote quoteLower walk configs = Ok s)
    (Model_ : udModel d1 = udModel d2) (Alias : udModelAlias d1 = udModelAlias d2)
    (Active : forall f, Has (ActiveFieldsOf (Some s)) f = true -> Value f d1 = Value f d2) :
  Calculate (Some s) (mkSubject d1 tokens) = Calculate (Some s) (mkSubject d2 tokens).
Proof.
  apply CompileSnapshot_iff in Compiled as (ts & F & N & ->). cbn [ActiveFieldsOf snActiveFields snapshotOf] in Active.
  assert (Same : forall name cm, byName ts !! name = Some cm ->
    matchingRuleMultiplier (cmRules cm) d1 = matchingRuleMultiplier (cmRules cm) d2).
  { intros name cm L. pose proof (rules_active _ _ _ _ F L) as A. unfold matchingRuleMultiplier. generalize f64_one as m.
    induction A as [|r rules Hr A IH]; intros m; [done|]. cbn [multiplyRules]. rewrite (Active _ Hr).
    destruct (negb _); [apply IH|]. destruct (f64_eq _ _); [done|apply IH]. }
  unfold Calculate. cbn [csDimensions csTokens].
  assert (M : matchModel (Some (snapshotOf ts)) d1 = matchModel (Some (snapshotOf ts)) d2)
    by (unfold matchModel; by rewrite Model_, Alias).
  rewrite M. destruct (matchModel (Some (snapshotOf ts)) d2) as [[[cm name] by_]|] eqn:Em; [|done].
  assert (L : exists name, byName ts !! name = Some cm).
  { unfold matchModel in Em. cbn [snModelsByName snapshotOf] in Em.
    destruct (byName ts !! udModel d2) eqn:E1; [injection Em as <- <- <-; eauto|].
    destruct (byName ts !! udModelAlias d2) eqn:E2; [injection Em as <- <- <-; eauto|done]. }
  destruct L as [name' L]. by rewrite (Same _ _ L).
Qed.

(** ** Pricing from the configurations *)

Definition configFor (configs : list ModelConfig) (name : string) : option ModelConfig :=
  List.find (fun c => TrimSpace (mpModel (mcPricing c)) =?s name) configs.

(** A rule counts when the value of its field is the one it names and its multiplier
    is not 1. *)
Definition counts (d : UsageDimensions) (r : RuleConfig) : bool :=
  match ParseRuleField quoteLower (rcKey r) with
  | Ok f => effective r && (Value f d =?s TrimSpace (rcValue r))
  | Err _ => false
  end.

(** The product of the multipliers that count, 0 as soon as one of them is. *)
Definition rulesFactor (d : UsageDimensions) (rules : list RuleConfig) (start : float64) : float64 :=
  let ms := map rcMultiplier (filter (fun r => counts d r = true) rules) in
  if existsb (fun m => f64_eq m f64_zero) ms then f64_zero else foldl f64_mul start ms.

Definition priced (c : ModelConfig) (name matchedBy : string) (d : UsageDimensions) (tokens : UsageTokenCostInput)
    : CostResult :=
  let p := mcPricing c in
  let multiplier := default f64_one (mpPriceMultiplier p) in
  if f64_eq multiplier f64_zero
  then mkCost zeroBreakdown true (mpPricingStyle p) name matchedBy f64_one
  else
    let factor := rulesFactor d (mcRules c) f64_one in
    let plain := calculateUsageTokenCostBreakdown (clampUsageTokenCostInput tokens) p in
    mkCost (ScaleUsageTokenCostBreakdown (ScaleUsageTokenCostBreakdown plain multiplier) factor)
      true (mpPricingStyle p) name matchedBy factor.

Definition priceReference (configs : list ModelConfig) (d : UsageDimensions) (tokens : UsageTokenCostInput)
    : CostResult :=
  match configFor configs (udModel d), configFor configs (udModelAlias d) with
  | Some c, _ => priced c (udModel d) "model" d tokens
  | None, Some c => priced c (udModelAlias d) "model_alias" d tokens
  | None, None =>
      mkCost zeroBreakdown (negb (UsageTokenInputRequiresPricing tokens)) EmptyString EmptyString EmptyString f64_one
  end.

Lemma counts_compiled d r :
  match asCompiled quoteLower r with
  | Some cr => counts d r = (Value (crField cr) d =?s crValue cr) /\ crMultiplier cr = rcMultiplier r
  | None => counts d r = false
  end.
Proof.
  unfold counts, asCompiled. destruct (ParseRuleField quoteLower (rcKey r)); [|done]. by destruct (effective r).
Qed.

Lemma rulesFactor_multiply d rules start :
  multiplyRules (omap (asCompiled quoteLower) rules) d start = rulesFactor d rules start.
Proof.
  unfold rulesFactor. revert start. induction rules as [|r rules IH]; intros start; [done|].
  rewrite omap_cons, filter_cons.
  pose proof (counts_compiled d r) as C. destruct (asCompiled quoteLower r) as [cr|].
  - destruct C as [C M]. cbn [multiplyRules]. destruct (Value (crField cr) d =?s crValue cr); cbn [negb].
    + rewrite decide_True by done. cbn [map existsb foldl]. rewrite M. destruct (f64_eq (rcMultiplier r) f64_zero); [done|].
      cbn [orb]. apply IH.
    + rewrite decide_False by congruence. apply IH.
  - rewrite decide_False by congruence. apply IH.
Qed.

Lemma byName_config configs ts name :
  Forall2 (fun c t => compileModelConfig quote quoteLower walk c = Ok t) configs ts ->
  byName ts !! name = (fun c => mkCompiledModel (trimmed c) (omap (asCompiled quoteLower) (mcRules c))) <$> configFor configs name.
Proof.
  unfold configFor, byName. induction 1 as [|c t configs ts Hc F IH]; [done|]. cbn [map list_to_map List.find foldr].
  apply compileModelConfig_ok in Hc. unfold tripleModel at 1. rewrite (co_pricing _ _ _ _ Hc), (co_compiled _ _ _ _ Hc).
  change (mpModel (trimmed c)) with (TrimSpace (mpModel (mcPricing c))).
  destruct (String.eqb_spec (TrimSpace (mpModel (mcPricing c))) name) as [->|Ne]; cbn [fst snd].
  - by rewrite lookup_insert_eq.
  - rewrite lookup_insert_ne by done. exact IH.
Qed.

(** C36. The price of a subject is what the configurations say: that of the model, or
    else that of the alias; four segments at their prices, scaled by the multiplier of
    the model and by the product of the multipliers of the rules that match, 0 when one
    of them is 0; and without a price a cost is available only for no tokens. *)
Theorem prices_exact (configs : list ModelConfig) (s : Snapshot) (d : UsageDimensions)
    (tokens : UsageTokenCostInput)
    (Compiled : CompileSnapshot quote quoteLower walk configs = Ok s) :
  Calculate (Some s) (NewCostSubject d tokens) = priceReference configs (canonicalizeUsageDimensions d) tokens.
Proof.
  apply CompileSnapshot_iff in Compiled as (ts & F & N & ->). unfold NewCostSubject.
  generalize (canonicalizeUsageDimensions d) as e. intros e. unfold Calculate, matchModel, priceReference.
  cbn [csDimensions csTokens snModelsByName snapshotOf].
  assert (P : forall c name by_, configFor configs name = Some c ->
    (let model := mkCompiledModel (trimmed c) (omap (asCompiled quoteLower) (mcRules c)) in
     let breakdown := CalculateUsageTokenCostBreakdown tokens (cmPricing model) in
     let '(ruleMultiplier, breakdown) :=
       if match mpPriceMultiplier (cmPricing model) with None => true | Some m => negb (f64_eq m f64_zero) end
       then let m := matchingRuleMultiplier (cmRules model) e in (m, ScaleUsageTokenCostBreakdown breakdown m)
       else (f64_one, breakdown) in
     mkCost breakdown true (mpPricingStyle (cmPricing model)) name by_ ruleMultiplier) = priced c name by_ e tokens).
  { intros c name by_ _. cbv zeta. cbn [cmPricing cmRules].
    change (mpPriceMultiplier (trimmed c)) with (Some (modelPriceMultiplier (mcPricing c))). unfold priced.
    change (default f64_one (mpPriceMultiplier (mcPricing c))) with (modelPriceMultiplier (mcPricing c)).
    unfold CalculateUsageTokenCostBreakdown, matchingRuleMultiplier.
    change (modelPriceMultiplier (trimmed c)) with (modelPriceMultiplier (mcPricing c)).
    rewrite rulesFactor_multiply. destruct (f64_eq (modelPriceMultiplier (mcPricing c)) f64_zero); done. }
  rewrite !(byName_config _ _ _ F).
  destruct (configFor configs (udModel e)) as [c|] eqn:E1; cbn [fmap option_fmap option_map]; [by apply P|].
  destruct (configFor configs (udModelAlias e)) as [c|] eqn:E2; cbn [fmap option_fmap option_map]; [by apply P|done].
Qed.

End Claims.

(** ** A catalogue of two models *)

Definition same_text (s : string) : string := s.
Definition same_walk (l : list (string * float64)) : list (string * float64) := l.
Definition a_price (model : string) (prompt completion : Z) (multiplier : option float64) : ModelPriceSetting :=
  mkPrice 1 model "openai" (f64_of_int prompt) (f64_of_int completion) f64_one f64_one multiplier 0 0.
Definition two_models : list ModelConfig :=
  [mkConfig (a_price " gpt-5 " 2 8 None)
     [mkRule " Service_Tier " "priority " (f64_of_int 2); mkRule "endpoint" "/v1" f64_one];
   mkConfig (a_price "claude" 3 15 (Some (f64_of_int 2))) [mkRule "auth_index" "a" f64_zero]].
Abbreviation two_models_snapshot :=
  (match CompileSnapshot same_text same_text same_walk two_models with
   | Ok s => s | Err _ => sharedEmptySnapshot end).
Definition a_use (model alias tier endpoint : string) : UsageDimensions :=
  mkDimensions "key" model "b" alias tier EmptyString EmptyString endpoint EmptyString.
Definition a_million : UsageTokenCostInput := mkTokens 1000000 0 0 0.

Lemma two_models_compile : CompileSnapshot same_text same_text same_walk two_models = Ok two_models_snapshot.
Proof. vm_compute. reflexivity. Qed.

Lemma compile_again_witness :
  CompileSnapshot same_text same_text same_walk (ModelConfigs (Some two_models_snapshot)) = Ok two_models_snapshot.
Proof. exact (compile_again same_text same_text same_walk two_models two_models_snapshot two_models_compile). Defined.

Lemma active_fields_suffice_witness :
  Calculate (Some two_models_snapshot) (mkSubject (a_use "gpt-5" "x" "priority" "/v1") a_million)
    = Calculate (Some two_models_snapshot) (mkSubject (a_use "gpt-5" "x" "priority" "/v2") a_million).
Proof.
  refine (active_fields_suffice same_text same_text same_walk two_models two_models_snapshot
    (a_use "gpt-5" "x" "priority" "/v1") (a_use "gpt-5" "x" "priority" "/v2") a_million two_models_compile _ _ _).
  - reflexivity.
  - reflexivity.
  - intros f. destruct f; intros A; try reflexivity. vm_compute in A. discriminate A.
Defined.

Lemma prices_exact_witness :
  Calculate (Some two_models_snapshot) (NewCostSubject (a_use "gpt-6" "claude" "priority" "/v1") a_million)
    = priceReference same_text two_models (canonicalizeUsageDimensions (a_use "gpt-6" "claude" "priority" "/v1")) a_million.
Proof.
  exact (prices_exact same_text same_text same_walk two_models two_models_snapshot
    (a_use "gpt-6" "claude" "priority" "/v1") a_million two_models_compile).
Defined.

(** A million tokens of gpt-5 at 2 dollars, twice that for the priority tier; those of an
    unknown model with the alias claude at 3, twice that by the model. *)
Example two_prices :
  let total d := cbTotalCostUSD (coCost (Calculate (Some two_models_snapshot) (NewCostSubject d a_million))) in
  total (a_use "gpt-5" EmptyString "priority" EmptyString) = f64_of_int 4 /\
  total (a_use "gpt-6" "claude" "priority" EmptyString) = f64_of_int 6.
Proof. by vm_compute. Qed.
