(* ===== verification/Overview.v ===== *)
(** Package overview (aggregate.go) and package repository/overviewstore: the
    hourly and daily totals of usage events per set of dimensions.

    The hourly and the daily row are two Go structs with the same fields; one
    record stands for both.  In the store a row is found by the text of its bucket
    start and its dimensions, which is the unique index of the table. *)
From S2P Require Import Prelude GoStrings GoTime Timeutil Entities.
From stdpp Require Import sorting.

Local Open Scope string_scope.
Local Open Scope list_scope.
Local Open Scope Z_scope.

(** The string members of [aggregateKey], in its order. *)
Record Dimensions := mkDimensions {
  dmAPIGroupKey : string;
  dmModel : string;
  dmAuthIndex : string;
  dmModelAlias : string;
  dmServiceTier : string;
  dmResponseServiceTier : string;
  dmReasoningEffort : string;
  dmEndpoint : string;
  dmExecutorType : string;
}.

(** [leftValues] and [rightValues] of [dimensionsLess]. *)
Definition dimension_values (d : Dimensions) : list string :=
  [dmAPIGroupKey d; dmModel d; dmAuthIndex d; dmModelAlias d; dmServiceTier d;
   dmResponseServiceTier d; dmReasoningEffort d; dmEndpoint d; dmExecutorType d].

Definition dimensions_of_values (l : list string) : Dimensions :=
  match l with
  | [a; b; c; d; e; f; g; h; i] => mkDimensions a b c d e f g h i
  | _ => mkDimensions "" "" "" "" "" "" "" "" ""
  end.

#[export] Instance Dimensions_eq_dec : EqDecision Dimensions.
Proof. solve_decision. Defined.
#[export] Instance Dimensions_countable : Countable Dimensions.
Proof. apply (inj_countable' dimension_values dimensions_of_values). by intros []. Defined.

Record OverviewStat := mkOverviewStat {
  osBucketStart : Time;
  osDimensions : Dimensions;
  osRequestCount : Z;
  osSuccessCount : Z;
  osFailureCount : Z;
  osInputTokens : Z;
  osOutputTokens : Z;
  osReasoningTokens : Z;
  osCachedTokens : Z;
  osCacheReadTokens : Z;
  osCacheCreationTokens : Z;
  osTotalTokens : Z;
  osCreatedAt : Time;
  osUpdatedAt : Time;
}.

Abbreviation overviewKey := (Time * Dimensions)%type.
Abbreviation OverviewRows := (gmap (Time * Dimensions) OverviewStat).

Definition normalizeRequiredDimension (value : string) : string :=
  let trimmed := TrimSpace value in
  if trimmed =?s "" then "unknown" else trimmed.

Definition normalizeOptionalDimension (value : string) : string := TrimSpace value.

Definition event_dimensions (event : UsageEvent) : Dimensions :=
  mkDimensions (normalizeRequiredDimension (evAPIGroupKey event))
    (normalizeRequiredDimension (evModel event))
    (normalizeOptionalDimension (evAuthIndex event))
    (match evModelAlias event with
     | Some alias => normalizeOptionalDimension alias
     | None => ""
     end)
    (normalizeOptionalDimension (evServiceTier event))
    (normalizeOptionalDimension (evResponseServiceTier event))
    (normalizeOptionalDimension (evReasoningEffort event))
    (normalizeOptionalDimension (evEndpoint event))
    (normalizeOptionalDimension (evExecutorType event)).

(** [time.Time.Truncate] rounds down to a multiple of [d] since the zero time,
    whatever the location. *)
Definition Truncate (t : Time) (d : Duration) : Time := t - (t - zero_time) mod d.

Definition hourKey (event : UsageEvent) : overviewKey :=
  let timestamp := NormalizeStorageTime (evTimestamp event) in
  (Truncate timestamp Hour, event_dimensions event).

Definition dayKey (local : Location) (event : UsageEvent) : overviewKey :=
  let timestamp := NormalizeStorageTime (evTimestamp event) in
  (day_start local timestamp, event_dimensions event).

Definition newOverviewRow (key : overviewKey) : OverviewStat :=
  mkOverviewStat key.1 key.2 0 0 0 0 0 0 0 0 0 0 zero_time zero_time.

Definition addEventToHourlyRow (row : OverviewStat) (event : UsageEvent) : OverviewStat :=
  mkOverviewStat (osBucketStart row) (osDimensions row)
    (add64 (osRequestCount row) 1)
    (if evFailed event then osSuccessCount row else add64 (osSuccessCount row) 1)
    (if evFailed event then add64 (osFailureCount row) 1 else osFailureCount row)
    (add64 (osInputTokens row) (evInputTokens event))
    (add64 (osOutputTokens row) (evOutputTokens event))
    (add64 (osReasoningTokens row) (evReasoningTokens event))
    (add64 (osCachedTokens row) (evCachedTokens event))
    (add64 (osCacheReadTokens row) (evCacheReadTokens event))
    (add64 (osCacheCreationTokens row) (evCacheCreationTokens event))
    (add64 (osTotalTokens row) (evTotalTokens event))
    (osCreatedAt row) (osUpdatedAt row).

(** The body is the same for the daily row. *)
Definition addEventToDailyRow : OverviewStat -> UsageEvent -> OverviewStat := addEventToHourlyRow.

(** One event in one of the two maps. *)
Definition addToRows (add : OverviewStat -> UsageEvent -> OverviewStat) (key : overviewKey)
    (rows : OverviewRows) (event : UsageEvent) : OverviewRows :=
  let row := match rows !! key with Some row => row | None => newOverviewRow key end in
  <[key := add row event]> rows.

(** The loop: the two maps and [maxEventID]. *)
Definition buildStep (local : Location) (st : OverviewRows * OverviewRows * Z) (event : UsageEvent)
    : OverviewRows * OverviewRows * Z :=
  let '(hourly, daily, maxEventID) := st in
  (addToRows addEventToHourlyRow (hourKey event) hourly event,
   addToRows addEventToDailyRow (dayKey local event) daily event,
   if maxEventID <? evID event then evID event else maxEventID).

(** The loop of [dimensionsLess] over the values. *)
Fixpoint valuesLess (ls rs : list string) : bool :=
  match ls, rs with
  | l :: ls, r :: rs => if negb (l =?s r) then string_lt l r else valuesLess ls rs
  | _, _ => false
  end.

Definition dimensionsLess (l r : overviewKey) : bool :=
  if negb (l.1 =? r.1) then l.1 <? r.1
  else valuesLess (dimension_values l.2) (dimension_values r.2).

Definition overview_key (row : OverviewStat) : overviewKey := (osBucketStart row, osDimensions row).

Definition hourlyRowLess (l r : OverviewStat) : bool :=
  dimensionsLess (overview_key l) (overview_key r).
Definition dailyRowLess : OverviewStat -> OverviewStat -> bool := hourlyRowLess.

(** A sort whose result is ordered by [not (r < l)], as [sort.Slice] promises. *)
Definition overviewNotAfter (l r : OverviewStat) : Prop := hourlyRowLess r l = false.

#[export] Instance overviewNotAfter_dec l r : Decision (overviewNotAfter l r).
Proof. unfold overviewNotAfter. apply _. Defined.

Definition sorted_rows (rows : OverviewRows) : list OverviewStat :=
  merge_sort overviewNotAfter (map snd (map_to_list rows)).

Definition OverviewBuildRows (local : Location) (events : list UsageEvent)
    : list OverviewStat * list OverviewStat * Z :=
  let '(hourly, daily, maxEventID) := foldl (buildStep local) (∅, ∅, 0) events in
  (sorted_rows hourly, sorted_rows daily, maxEventID).

(** ** overviewstore *)

(** A table, by the columns of its unique index. *)
Abbreviation OverviewTable := (gmap (string * Dimensions) OverviewStat).

(** hourlyDimensionArgs and dailyDimensionArgs. *)
Definition dimensionArgs (local : Location) (row : OverviewStat) : string * Dimensions :=
  (FormatStorageTime local (osBucketStart row), osDimensions row).

(** [column + ?] of an UPDATE; SQLite adds 64-bit integers exactly here, sums
    outside of their range (which it would turn into REAL) are not modelled. *)
Definition tokenStatUpdates (row : OverviewStat) (now : Time) (stored : OverviewStat) : OverviewStat :=
  mkOverviewStat (osBucketStart stored) (osDimensions stored)
    (osRequestCount stored + osRequestCount row)
    (osSuccessCount stored + osSuccessCount row)
    (osFailureCount stored + osFailureCount row)
    (osInputTokens stored + osInputTokens row)
    (osOutputTokens stored + osOutputTokens row)
    (osReasoningTokens stored + osReasoningTokens row)
    (osCachedTokens stored + osCachedTokens row)
    (osCacheReadTokens stored + osCacheReadTokens row)
    (osCacheCreationTokens stored + osCacheCreationTokens row)
    (osTotalTokens stored + osTotalTokens row)
    (osCreatedAt stored) now.

Definition createdOverviewRow (row : OverviewStat) (now : Time) : OverviewStat :=
  mkOverviewStat (osBucketStart row) (osDimensions row) (osRequestCount row) (osSuccessCount row)
    (osFailureCount row) (osInputTokens row) (osOutputTokens row) (osReasoningTokens row)
    (osCachedTokens row) (osCacheReadTokens row) (osCacheCreationTokens row) (osTotalTokens row)
    (NormalizeStorageTime now) (NormalizeStorageTime now).
