(* ===== verification/LatencyRows.v ===== *)
(** latency/aggregate.go and repository/latencystore: hourly and daily rows of
    latency sketches and samples, built from a page of events and merged into the
    stored rows.

    [sketchKey] is the bin of a value (floating point, a parameter as in the file
    Sketch), [iter] the order in which Go walks a sample set.  Errors are their
    texts, without the keys and numbers printed into them; the texts of the errors
    of sketches and samples are parameters.  A nil database is not modelled. *)
From S2P Require Import Prelude GoStrings GoTime Timeutil Entities ActivityGrain Uvarint Sketch SampleSet Sql.
From stdpp Require Import sorting.

Local Open Scope string_scope.
Local Open Scope list_scope.
Local Open Scope Z_scope.

Definition UsageLatencyBucketType : Type := string.
Definition UsageLatencyBucketHour : UsageLatencyBucketType := "hour".
Definition UsageLatencyBucketDay : UsageLatencyBucketType := "day".

(** entities/usage_latency_stat.go; the blobs are lists of bytes. *)
Record UsageLatencyStat := mkUsageLatencyStat {
  lsID : Z;
  lsBucketType : UsageLatencyBucketType;
  lsBucketStart : Time;
  lsAPIGroupKey : string;
  lsSampleCount : Z;
  lsMaxTTFTMS : Z;
  lsMaxLatencyMS : Z;
  lsFormatVersion : Z;
  lsTTFTSketch : list Z;
  lsLatencySketch : list Z;
  lsSamplePoints : list Z;
  lsCreatedAt : Time;
  lsUpdatedAt : Time;
}.

Definition HourRetentionDays : Z := 3.
Definition DayRetentionDays : Z := 365.

Definition localHourStart (local : Location) (timestamp : Time) : Time :=
  timestamp - minute_of local timestamp * Minute - second_of local timestamp * Second
  - Nanosecond timestamp.

Definition RetentionBucketStartCutoff (local : Location) (bucketType : UsageLatencyBucketType)
    (now : Time) : result string Time :=
  if IsZero now then Err "latency retention time is zero"
  else
    let normalizedNow := NormalizeStorageTime now in
    if bucketType =?s UsageLatencyBucketHour
    then Ok (localHourStart local (normalizedNow - HourRetentionDays * 24 * Hour))
    else if bucketType =?s UsageLatencyBucketDay
    then Ok (AddDate local (day_start local normalizedNow) 0 0 (- (DayRetentionDays - 1)))
    else Err (String.append "unsupported latency bucket type " bucketType).

(** aggregateKey of the package. *)
Abbreviation latencyKey := (string * Time * string)%type.

Record aggregateRowBuilder := mkBuilder {
  lbSampleCount : Z;
  lbMaxTTFTMS : Z;
  lbMaxLatencyMS : Z;
  lbTTFTSketch : Sketch;
  lbLatencySketch : Sketch;
  lbSamplePoints : SampleSet;
}.

Definition newBuilder : aggregateRowBuilder := mkBuilder 0 0 0 NewSketch NewSketch NewSampleSet.

Section Latency.
Context (local : Location) (sketchKey : Z -> Z) (iter : SampleSet -> list SamplePoint).
Context (sketchText : SketchError -> string) (sampleText : SampleError -> string)
  (walkText : WalkError -> string).

Definition textual {E A} (text : E -> string) (r : result E A) : result string A :=
  match r with Ok a => Ok a | Err e => Err (text e) end.

Definition wrapText {A} (prefix : string) (r : result string A) : result string A :=
  match r with Ok a => Ok a | Err e => Err (String.append prefix e) end.

Definition builder_add (b : aggregateRowBuilder) (eventID ttftMS latencyMS : Z)
    : result string aggregateRowBuilder :=
  let? ttft := textual sketchText (Sketch.Add sketchKey (lbTTFTSketch b) ttftMS) in
  let? latency := textual sketchText (Sketch.Add sketchKey (lbLatencySketch b) latencyMS) in
  let? points := textual sampleText (SampleAdd iter (lbSamplePoints b) eventID ttftMS latencyMS) in
  Ok (mkBuilder (add64 (lbSampleCount b) 1)
        (if lbMaxTTFTMS b <? ttftMS then ttftMS else lbMaxTTFTMS b)
        (if lbMaxLatencyMS b <? latencyMS then latencyMS else lbMaxLatencyMS b)
        ttft latency points).

(** The sample of an event: its TTFT and latency, or [None] when it has none. *)
Definition latency_sample (event : UsageEvent) : option (Z * Z) :=
  match evGenerate event, evTTFTMS event with
  | Some true, Some ttft =>
      if evFailed event || (ttft <=? 0) || (evLatencyMS event <=? 0) then None
      else Some (ttft, evLatencyMS event)
  | _, _ => None
  end.

Definition latency_keys (event : UsageEvent) : list latencyKey :=
  let timestamp := NormalizeStorageTime (evTimestamp event) in
  let apiGroupKey := NormalizeAPIGroupKey (evAPIGroupKey event) in
  [(UsageLatencyBucketHour, localHourStart local timestamp, apiGroupKey);
   (UsageLatencyBucketDay, day_start local timestamp, apiGroupKey)].

Abbreviation Builders := (gmap (string * Time * string) aggregateRowBuilder).

(** The inner loop over the two keys of an event. *)
Definition addSample (hourCutoff dayCutoff : Time) (event : UsageEvent) (sample : Z * Z)
    (builders : Builders) (key : latencyKey) : result string Builders :=
  let '(bucketType, bucketStart, _) := key in
  if (bucketType =?s UsageLatencyBucketHour) && (bucketStart <? hourCutoff) then Ok builders
  else if (bucketType =?s UsageLatencyBucketDay) && (bucketStart <? dayCutoff) then Ok builders
  else
    let builder := default newBuilder (builders !! key) in
    let? builder := wrapText "build latency row for event: "
                      (builder_add builder (evID event) sample.1 sample.2) in
    Ok (<[key := builder]> builders).

Definition addLatencyEvent (hourCutoff dayCutoff : Time) (builders : Builders) (event : UsageEvent)
    : result string Builders :=
  match latency_sample event with
  | None => Ok builders
  | Some sample => fold_result (addSample hourCutoff dayCutoff event sample) builders (latency_keys event)
  end.

(** The encoding of a builder. *)
Definition builtRow (key : latencyKey) (b : aggregateRowBuilder) : result string UsageLatencyStat :=
  let? ttft := wrapText "encode TTFT sketch: " (textual sketchText (MarshalBinary (lbTTFTSketch b))) in
  let? latency := wrapText "encode latency sketch: "
                    (textual sketchText (MarshalBinary (lbLatencySketch b))) in
  let? points := wrapText "encode latency sample points: "
                   (textual sampleText (SampleMarshalBinary iter (lbSamplePoints b))) in
  let '(bucketType, bucketStart, apiGroupKey) := key in
  Ok (mkUsageLatencyStat 0 bucketType bucketStart apiGroupKey (lbSampleCount b) (lbMaxTTFTMS b)
        (lbMaxLatencyMS b) FormatVersion ttft latency points zero_time zero_time).

Fixpoint builtRows (builders : list (latencyKey * aggregateRowBuilder))
    : result string (list UsageLatencyStat) :=
  match builders with
  | [] => Ok []
  | (key, b) :: rest =>
      let? row := builtRow key b in
      let? rows := builtRows rest in
      Ok (row :: rows)
  end.

Definition latencyRowLess (l r : UsageLatencyStat) : bool :=
  if negb (lsBucketType l =?s lsBucketType r) then string_lt (lsBucketType l) (lsBucketType r)
  else if negb (lsBucketStart l =? lsBucketStart r) then lsBucketStart l <? lsBucketStart r
  else string_lt (lsAPIGroupKey l) (lsAPIGroupKey r).

Definition latencyNotAfter (l r : UsageLatencyStat) : Prop := latencyRowLess r l = false.

#[export] Instance latencyNotAfter_dec l r : Decision (latencyNotAfter l r).
Proof. unfold latencyNotAfter. apply _. Defined.

Definition LatencyBuildRows (events : list UsageEvent) (now : Time)
    : result string (list UsageLatencyStat) :=
  let? hourCutoff := RetentionBucketStartCutoff local UsageLatencyBucketHour now in
  let? dayCutoff := RetentionBucketStartCutoff local UsageLatencyBucketDay now in
  let? builders := fold_result (addLatencyEvent hourCutoff dayCutoff) ∅ events in
  let? rows := builtRows (map_to_list builders) in
  Ok (merge_sort latencyNotAfter rows).

(** ** latencystore *)

(** rowKey: the columns of the unique index. *)
Abbreviation rowKey := (string * string * string)%type.

Definition latencyRowKey (row : UsageLatencyStat) : rowKey :=
  (lsBucketType row, FormatStorageTime local (lsBucketStart row), lsAPIGroupKey row).

Record decodedRow := mkDecodedRow {
  drTTFTSketch : Sketch;
  drLatencySketch : Sketch;
  drSamplePoints : SampleSet;
}.

Definition decodeLatencyRow (row : UsageLatencyStat) : result string decodedRow :=
  if negb (lsFormatVersion row =? FormatVersion) then Err "unsupported format version"
  else if (lsSampleCount row <? 0) || (lsMaxTTFTMS row <=? 0) || (lsMaxLatencyMS row <=? 0)
  then Err "invalid latency counters"
  else
    let? ttft := wrapText "decode TTFT sketch: " (textual walkText (UnmarshalSketch (lsTTFTSketch row))) in
    let? latency := wrapText "decode latency sketch: "
                      (textual walkText (UnmarshalSketch (lsLatencySketch row))) in
    let? points := wrapText "decode sample points: "
                     (textual walkText (UnmarshalSampleSet (lsSamplePoints row))) in
    if negb (Count ttft =? wrapu64 (lsSampleCount row))
       || negb (Count latency =? wrapu64 (lsSampleCount row))
       || (lsSampleCount row <? Z.of_nat (SampleCount points))
    then Err "latency payload counts do not match sample_count"
    else Ok (mkDecodedRow ttft latency points).

Definition sketch_order (s : Sketch) : list (Z * Z) := map_to_list (bins s).

Definition stamped (created updated : Time) (row : UsageLatencyStat) : UsageLatencyStat :=
  mkUsageLatencyStat (lsID row) (lsBucketType row) (lsBucketStart row) (lsAPIGroupKey row)
    (lsSampleCount row) (lsMaxTTFTMS row) (lsMaxLatencyMS row) (lsFormatVersion row)
    (lsTTFTSketch row) (lsLatencySketch row) (lsSamplePoints row) created updated.

Definition mergeLatencyRows (existing : option UsageLatencyStat) (incoming : UsageLatencyStat)
    (now : Time) : result string UsageLatencyStat :=
  let? incomingDecoded := decodeLatencyRow incoming in
  match existing with
  | None => Ok (stamped now now incoming)
  | Some existing =>
      let? existingDecoded := decodeLatencyRow existing in
      if int64_max - lsSampleCount incoming <? lsSampleCount existing
      then Err "sample count overflow"
      else
        let? ttft := textual sketchText (Sketch.Merge (sketch_order (drTTFTSketch incomingDecoded))
                       (drTTFTSketch existingDecoded) (drTTFTSketch incomingDecoded)) in
        let? latency := textual sketchText (Sketch.Merge (sketch_order (drLatencySketch incomingDecoded))
                          (drLatencySketch existingDecoded) (drLatencySketch incomingDecoded)) in
        let? points := textual sampleText (SampleMerge iter (drSamplePoints existingDecoded)
                         (drSamplePoints incomingDecoded)) in
        let? ttftBytes := textual sketchText (MarshalBinary ttft) in
        let? latencyBytes := textual sketchText (MarshalBinary latency) in
        let? pointBytes := textual sampleText (SampleMarshalBinary iter points) in
        Ok (mkUsageLatencyStat (lsID existing) (lsBucketType existing) (lsBucketStart existing)
              (lsAPIGroupKey existing) (lsSampleCount existing + lsSampleCount incoming)
              (Z.max (lsMaxTTFTMS existing) (lsMaxTTFTMS incoming))
              (Z.max (lsMaxLatencyMS existing) (lsMaxLatencyMS incoming)) FormatVersion
              ttftBytes latencyBytes pointBytes (lsCreatedAt existing) now)
  end.

(** A table by its unique index, with the next automatic key. *)
Record LatencyTable := mkLatencyTable {
  ltRows : gmap (string * string * string) UsageLatencyStat;
  ltNextID : Z;
}.

Definition loadKeyBatchSize : nat := 200.

(** The checks of the first loop of PrepareRows. *)
Fixpoint checkIncoming (seen : list rowKey) (rows : list UsageLatencyStat) : result string unit :=
  match rows with
  | [] => Ok tt
  | row :: rest =>
      let key := latencyRowKey row in
      if bool_decide (key ∈ seen) then Err "duplicate latency row key"
      else
        match decodeLatencyRow row with
        | Err e => Err (String.append "decode incoming latency row: " e)
        | Ok _ => checkIncoming (seen ++ [key]) rest
        end
  end.

Fixpoint mergeChunk (existing : gmap (string * string * string) UsageLatencyStat) (now : Time)
    (rows : list UsageLatencyStat) : result string (list UsageLatencyStat) :=
  match rows with
  | [] => Ok []
  | incoming :: rest =>
      let? merged := wrapText "merge latency row: "
                       (mergeLatencyRows (existing !! latencyRowKey incoming) incoming now) in
      let? others := mergeChunk existing now rest in
      Ok (merged :: others)
  end.

Section Store.
Context {T : Type} (get : T -> LatencyTable) (set : LatencyTable -> T -> T)
  (fault : nat -> option string).

Local Open Scope sql_scope.

(** The loop over chunks of 200 keys; every turn takes rows, so the number of
    rows is enough fuel. *)
Fixpoint prepareChunks (fuel : nat) (now : Time) (rows : list UsageLatencyStat)
    : Sql T (result string (list UsageLatencyStat)) :=
  match fuel, rows with
  | _, [] => sql_ret (Ok [])
  | O, _ => sql_ret (Ok [])
  | S fuel, _ =>
      let chunk := take loadKeyBatchSize rows in
      try$ existing := wrap "load latency rows: "
        (query fault (fun t => filter (fun p : rowKey * UsageLatencyStat =>
           p.1 ∈ map latencyRowKey chunk) (ltRows (get t)))) in
      try$ merged := sql_ret (mergeChunk existing now chunk) in
      try$ others := prepareChunks fuel now (drop loadKeyBatchSize rows) in
      sql_ret (Ok (merged ++ others))
  end.

Definition PrepareRows (rows : list UsageLatencyStat) (now : Time)
    : Sql T (result string (list UsageLatencyStat)) :=
  try$ _ := sql_ret (checkIncoming [] rows) in
  prepareChunks (length rows) (NormalizeStorageTime now) rows.

(** UPDATE ... WHERE id = ?: the columns that change, and how many rows. *)
Definition updateLatencyRow (row : UsageLatencyStat) (t : T) : T * nat :=
  let hit := filter (fun p : rowKey * UsageLatencyStat => lsID p.2 = lsID row) (ltRows (get t)) in
  let change (stored : UsageLatencyStat) :=
    mkUsageLatencyStat (lsID stored) (lsBucketType stored) (lsBucketStart stored)
      (lsAPIGroupKey stored) (lsSampleCount row) (lsMaxTTFTMS row) (lsMaxLatencyMS row)
      (lsFormatVersion row) (lsTTFTSketch row) (lsLatencySketch row) (lsSamplePoints row)
      (lsCreatedAt stored) (lsUpdatedAt row) in
  (set (mkLatencyTable ((change <$> hit) ∪ ltRows (get t)) (ltNextID (get t))) t, size hit).

(** INSERT: [false] is the violation of the unique index. *)
Definition insertLatencyRow (row : UsageLatencyStat) (t : T) : T * bool :=
  let tbl := get t in
  match ltRows tbl !! latencyRowKey row with
  | Some _ => (t, false)
  | None =>
      let stored := mkUsageLatencyStat (ltNextID tbl) (lsBucketType row) (lsBucketStart row)
        (lsAPIGroupKey row) (lsSampleCount row) (lsMaxTTFTMS row) (lsMaxLatencyMS row)
        (lsFormatVersion row) (lsTTFTSketch row) (lsLatencySketch row) (lsSamplePoints row)
        (lsCreatedAt row) (lsUpdatedAt row) in
      (set (mkLatencyTable (<[latencyRowKey row := stored]> (ltRows tbl)) (ltNextID tbl + 1)) t, true)
  end.

Fixpoint writeRows (seen : list rowKey) (rows : list UsageLatencyStat) : Sql T (result string unit) :=
  match rows with
  | [] => sql_ret (Ok tt)
  | row :: rest =>
      let key := latencyRowKey row in
      if bool_decide (key ∈ seen) then sql_ret (Err "duplicate latency row key")
      else
        match decodeLatencyRow row with
        | Err e => sql_ret (Err (String.append "decode prepared latency row: " e))
        | Ok decoded =>
            if (MaxSamplePoints <? SampleCount (drSamplePoints decoded))%nat
            then sql_ret (Err "prepared latency row has sample points above write limit")
            else if 0 <? lsID row then
              try$ affected := wrap "update latency row: " (statement fault (updateLatencyRow row)) in
              if negb (affected =? 1)%nat then sql_ret (Err "update latency row affected rows")
              else writeRows (seen ++ [key]) rest
            else
              try$ inserted := wrap "insert latency row: " (statement fault (insertLatencyRow row)) in
              if inserted : bool then writeRows (seen ++ [key]) rest
              else sql_ret (Err "insert latency row: UNIQUE constraint failed")
        end
  end.

Definition WritePreparedRows (rows : list UsageLatencyStat) : Sql T (result string unit) :=
  writeRows [] rows.

(** ApplyRows: both in one transaction of the caller. *)
Definition LatencyApplyRows (rows : list UsageLatencyStat) (now : Time) : Sql T (result string unit) :=
  try$ prepared := PrepareRows rows now in
  WritePreparedRows prepared.

End Store.

(** ** Diagnostics *)

Record DiagnosticsAggregate := mkDiagnostics {
  daSampleCount : Z;
  daMaxTTFTMS : Z;
  daMaxLatencyMS : Z;
  daTTFTSketch : Sketch;
  daLatencySketch : Sketch;
  daSamplePoints : SampleSet;
}.

(** The three mergers of a query. *)
Record QueryMergers := mkMergers {
  qmTTFT : QuerySketchMerger;
  qmLatency : QuerySketchMerger;
  qmSamples : QuerySampleMerger;
}.

Definition decodeQueryLatencyRow (row : UsageLatencyStat) (q : QueryMergers)
    : QueryMergers * result string unit :=
  if negb (lsFormatVersion row =? FormatVersion) then (q, Err "unsupported format version")
  else if (lsSampleCount row <? 0) || (lsMaxTTFTMS row <=? 0) || (lsMaxLatencyMS row <=? 0)
  then (q, Err "invalid latency counters")
  else
    let '(ttft, ttftCount) := MergeBinary (qmTTFT q) (lsTTFTSketch row) in
    let q := mkMergers ttft (qmLatency q) (qmSamples q) in
    match ttftCount with
    | Err e => (q, Err (String.append "decode TTFT sketch: " (sketchText e)))
    | Ok ttftCount =>
        let '(latency, latencyCount) := MergeBinary (qmLatency q) (lsLatencySketch row) in
        let q := mkMergers (qmTTFT q) latency (qmSamples q) in
        match latencyCount with
        | Err e => (q, Err (String.append "decode latency sketch: " (sketchText e)))
        | Ok latencyCount =>
            let '(samples, count) := QueryMergeBinary (qmSamples q) (lsSamplePoints row) in
            let q := mkMergers (qmTTFT q) (qmLatency q) samples in
            match count with
            | Err e => (q, Err (String.append "decode sample points: " (sampleText e)))
            | Ok count =>
                if negb (ttftCount =? wrapu64 (lsSampleCount row))
                   || negb (latencyCount =? wrapu64 (lsSampleCount row))
                   || (lsSampleCount row <? count)
                then (q, Err "latency payload counts do not match sample_count")
                else (q, Ok tt)
            end
        end
    end.

(** The loop of MergeDiagnosticsRows: the counters and the mergers. *)
Fixpoint mergeDiagnostics (rows : list UsageLatencyStat) (count maxTTFT maxLatency : Z)
    (q : QueryMergers) : result string (Z * Z * Z * QueryMergers) :=
  match rows with
  | [] => Ok (count, maxTTFT, maxLatency, q)
  | row :: rest =>
      match decodeQueryLatencyRow row q with
      | (_, Err e) => Err (String.append "decode latency diagnostics row: " e)
      | (q, Ok _) =>
          if int64_max - lsSampleCount row <? count then Err "sample count overflow"
          else mergeDiagnostics rest (count + lsSampleCount row)
                 (Z.max maxTTFT (lsMaxTTFTMS row)) (Z.max maxLatency (lsMaxLatencyMS row)) q
      end
  end.

Definition MergeDiagnosticsRows (rows : list UsageLatencyStat) : result string DiagnosticsAggregate :=
  let? (count, maxTTFT, maxLatency, q) :=
    mergeDiagnostics rows 0 0 0
      (mkMergers NewQuerySketchMerger NewQuerySketchMerger NewQuerySampleMerger) in
  match (TakeSketch (qmTTFT q)).2, (TakeSketch (qmLatency q)).2, (TakeSamples (qmSamples q)).2 with
  | Some ttft, Some latency, Some points =>
      if negb (Count ttft =? wrapu64 count) || negb (Count latency =? wrapu64 count)
      then Err "merged latency payload counts do not match sample_count"
      else Ok (mkDiagnostics count maxTTFT maxLatency ttft latency points)
  | _, _, _ => Err "latency merger is closed"
  end.

End Latency.
