(* ===== verification/Aggregation.v ===== *)
(** The incremental aggregation of usage events into the three rollups.

    repository/usage_aggregation_page.go, usage_aggregation_checkpoint.go,
    usage_overview_stats.go, usage_activity_stats.go, usage_latency_stats.go,
    activitystore and the statements of overviewstore.  A page of events behind a
    checkpoint is turned into rows, and one transaction writes the rows and moves
    the checkpoint, provided that it is still where the page began.  The texts of
    errors leave out the keys and numbers printed into them; contexts are part of
    the faults. *)
From S2P Require Import Prelude GoStrings GoTime Timeutil Entities ActivityGrain Uvarint Sketch SampleSet Sql Overview LatencyRows.

Local Open Scope string_scope.
Local Open Scope list_scope.
Local Open Scope Z_scope.

(** UsageAggregationCheckpointName; other names are refused by the code. *)
Inductive CheckpointName := OverviewCheckpoint | ActivityCheckpoint | LatencyCheckpoint.

#[export] Instance CheckpointName_eq_dec : EqDecision CheckpointName.
Proof. solve_decision. Defined.

Record UsageAggregationCheckpoint := mkCheckpoint {
  cpCursor : Z;
  cpStatsUpdatedAt : option Time;
  cpCreatedAt : Time;
  cpUpdatedAt : Time;
}.

(** Activity rows by the columns of their unique index. *)
Abbreviation ActivityTable := (gmap (string * string * string) UsageActivityStat).

Record AggTables := mkAggTables {
  agEvents : list UsageEvent;
  agCheckpoints : CheckpointName -> option UsageAggregationCheckpoint;
  agHourly : OverviewTable;
  agDaily : OverviewTable;
  agActivity : ActivityTable;
  agLatency : LatencyTable;
}.

Definition setCheckpoint (name : CheckpointName) (c : UsageAggregationCheckpoint) (t : AggTables)
    : AggTables :=
  mkAggTables (agEvents t) (fun n => if decide (n = name) then Some c else agCheckpoints t n)
    (agHourly t) (agDaily t) (agActivity t) (agLatency t).
Definition setHourly (tbl : OverviewTable) (t : AggTables) : AggTables :=
  mkAggTables (agEvents t) (agCheckpoints t) tbl (agDaily t) (agActivity t) (agLatency t).
Definition setDaily (tbl : OverviewTable) (t : AggTables) : AggTables :=
  mkAggTables (agEvents t) (agCheckpoints t) (agHourly t) tbl (agActivity t) (agLatency t).
Definition setActivity (tbl : ActivityTable) (t : AggTables) : AggTables :=
  mkAggTables (agEvents t) (agCheckpoints t) (agHourly t) (agDaily t) tbl (agLatency t).
Definition setLatency (tbl : LatencyTable) (t : AggTables) : AggTables :=
  mkAggTables (agEvents t) (agCheckpoints t) (agHourly t) (agDaily t) (agActivity t) tbl.

Definition usageAggregationEventPageLimit : Z := 1000.
Definition usageOverviewAggregationBatchSize : Z := 1000.
Definition usageActivityAggregationBatchSize : Z := 1000.
Definition usageLatencyAggregationBatchSize : Z := 1000.

(** UsageAggregationEventProjectionColumns: the other fields of a loaded event
    have their zero values. *)
Definition projected (e : UsageEvent) : UsageEvent :=
  mkUsageEvent (evID e) "" (evAPIGroupKey e) "" (evEndpoint e) "" "" "" None None None None
    (evModel e) (evModelAlias e) "" (evReasoningEffort e) (evServiceTier e)
    (evResponseServiceTier e) (evExecutorType e) (evTimestamp e) "" (evAuthIndex e) (evFailed e)
    None (evGenerate e) None (evLatencyMS e) (evTTFTMS e) (evInputTokens e) (evOutputTokens e)
    (evReasoningTokens e) (evCachedTokens e) (evCacheReadTokens e) false
    (evCacheCreationTokens e) (evTotalTokens e) zero_time.

(** One rollup as the rest of the code sees it: rows are built from a page and
    written in the transaction of the caller, after some reading before it. *)
Record UsageAggregationCheckpointSnapshot := mkSnapshot {
  OverviewCursor : Z;
  ActivityCursor : Z;
  LatencyCursor : Z;
}.

Definition snapshot_Equal (s : UsageAggregationCheckpointSnapshot) : bool :=
  (OverviewCursor s =? ActivityCursor s) && (ActivityCursor s =? LatencyCursor s).

Section Aggregation.
Context (local : Location) (sketchKey : Z -> Z) (iter : SampleSet -> list SamplePoint).
Context (sketchText : SketchError -> string) (sampleText : SampleError -> string)
  (walkText : WalkError -> string) (activityText : ActivityError -> string).
Context (fault : nat -> option string).

Abbreviation M A := (Sql AggTables A).
Abbreviation Failing A := (Sql AggTables (result string A)).

Local Open Scope sql_scope.

(** ** Pages *)

Definition LoadUsageAggregationTargetEventID : Failing Z :=
  wrap "load usage aggregation target event id: "
    (query fault (fun t => foldr Z.max 0 (map evID (agEvents t)))).

(** The events are kept in the order of their keys. *)
Definition LoadUsageAggregationEventPage (afterID targetID limit : Z) : Failing (list UsageEvent) :=
  if targetID <=? afterID then sql_ret (Ok [])
  else if (afterID <? 0) || (targetID <? 0)
  then sql_ret (Err "usage aggregation event bounds must be non-negative")
  else if limit <=? 0 then sql_ret (Err "usage aggregation event page limit must be positive")
  else
    let limit := if usageAggregationEventPageLimit <? limit then usageAggregationEventPageLimit
                 else limit in
    wrap "load usage aggregation event page: "
      (query fault (fun t => take (Z.to_nat limit) (map projected
         (filter (fun e => afterID < evID e <= targetID) (agEvents t))))).

(** ** Checkpoints *)

Definition cursor_of (t : AggTables) (name : CheckpointName) : Z :=
  match agCheckpoints t name with Some c => cpCursor c | None => 0 end.

Definition LoadUsageAggregationCheckpointSnapshot : Failing UsageAggregationCheckpointSnapshot :=
  wrap "load usage aggregation checkpoints: "
    (query fault (fun t => mkSnapshot (cursor_of t OverviewCheckpoint)
       (cursor_of t ActivityCheckpoint) (cursor_of t LatencyCheckpoint))).

(** INSERT ... ON CONFLICT DO NOTHING. *)
Definition ensureCheckpoint (name : CheckpointName) (now : Time) (t : AggTables) : AggTables * unit :=
  match agCheckpoints t name with
  | Some _ => (t, tt)
  | None => (setCheckpoint name (mkCheckpoint 0 None now now) t, tt)
  end.

(** UPDATE ... WHERE name = ? AND last_aggregated_usage_event_id = ?; the rows it
    affects. *)
Definition moveCheckpoint (name : CheckpointName) (expectedCursor nextCursor : Z) (now : Time)
    (t : AggTables) : AggTables * nat :=
  match agCheckpoints t name with
  | Some c =>
      if cpCursor c =? expectedCursor
      then (setCheckpoint name (mkCheckpoint nextCursor (Some now) (cpCreatedAt c) now) t, 1%nat)
      else (t, 0%nat)
  | None => (t, 0%nat)
  end.

Definition AdvanceUsageAggregationCheckpoint (name : CheckpointName)
    (expectedCursor nextCursor : Z) (now : Time) : Failing unit :=
  if (expectedCursor <? 0) || (nextCursor <=? expectedCursor)
  then sql_ret (Err "invalid usage aggregation checkpoint advance")
  else
    let normalizedNow := NormalizeStorageTime now in
    try$ _ := wrap "ensure usage aggregation checkpoint: "
                (statement fault (ensureCheckpoint name normalizedNow)) in
    try$ affected := wrap "advance usage aggregation checkpoint: "
                       (statement fault (moveCheckpoint name expectedCursor nextCursor normalizedNow)) in
    if negb (affected =? 1)%nat then sql_ret (Err "usage aggregation checkpoint conflict")
    else sql_ret (Ok tt).

(** ** overviewstore *)

(** The UPDATE by the dimensions; whether it affected a row. *)
Definition updateOverview (get : AggTables -> OverviewTable) (set : OverviewTable -> AggTables -> AggTables)
    (row : OverviewStat) (now : Time) (t : AggTables) : AggTables * bool :=
  match get t !! dimensionArgs local row with
  | Some stored => (set (<[dimensionArgs local row := tokenStatUpdates row now stored]> (get t)) t, true)
  | None => (t, false)
  end.

(** The INSERT; [false] is the violation of the unique index. *)
Definition insertOverview (get : AggTables -> OverviewTable) (set : OverviewTable -> AggTables -> AggTables)
    (row : OverviewStat) (now : Time) (t : AggTables) : AggTables * bool :=
  match get t !! dimensionArgs local row with
  | Some _ => (t, false)
  | None => (set (<[dimensionArgs local row := createdOverviewRow row now]> (get t)) t, true)
  end.

(** applyHourlyRow and applyDailyRow: update first, then insert, then update once
    more. *)
Definition applyOverviewRow (get : AggTables -> OverviewTable)
    (set : OverviewTable -> AggTables -> AggTables) (now : Time) (row : OverviewStat) : Failing unit :=
  try$ updated := wrap "update usage overview stat: " (statement fault (updateOverview get set row now)) in
  if updated : bool then sql_ret (Ok tt)
  else
    let$ inserted := statement fault (insertOverview get set row now) in
    match inserted with
    | Ok true => sql_ret (Ok tt)
    | _ =>
        try$ retried := wrap "insert usage overview stat; retry update: "
                          (statement fault (updateOverview get set row now)) in
        if retried : bool then sql_ret (Ok tt)
        else sql_ret (Err "insert usage overview stat; retry update matched no existing row")
    end.

Definition applyHourlyRow : Time -> OverviewStat -> Failing unit :=
  applyOverviewRow agHourly setHourly.
Definition applyDailyRow : Time -> OverviewStat -> Failing unit :=
  applyOverviewRow agDaily setDaily.

Definition overviewApplyRows (hourly daily : list OverviewStat) (now : Time) : Failing unit :=
  try$ _ := for_each (applyHourlyRow now) hourly in
  for_each (applyDailyRow now) daily.

(** ** activitystore *)

Definition activityArgs (row : UsageActivityStat) : string * string * string :=
  (asGrain row, FormatSortableStorageTime (asBucketStart row), asAPIGroupKey row).

Definition activityUpdates (row : UsageActivityStat) (now : Time) (stored : UsageActivityStat)
    : UsageActivityStat :=
  mkUsageActivityStat (asID stored) (asGrain stored) (asBucketStart stored) (asBucketEnd row)
    (asAPIGroupKey stored) (asSuccessCount stored + asSuccessCount row)
    (asFailureCount stored + asFailureCount row) (asInputTokens stored + asInputTokens row)
    (asOutputTokens stored + asOutputTokens row) (asReasoningTokens stored + asReasoningTokens row)
    (asCacheReadTokens stored + asCacheReadTokens row)
    (asCacheCreationTokens stored + asCacheCreationTokens row)
    (asTotalTokens stored + asTotalTokens row) (asCreatedAt stored) now.

Definition createdActivityRow (row : UsageActivityStat) (now : Time) : UsageActivityStat :=
  mkUsageActivityStat (asID row) (asGrain row) (asBucketStart row) (asBucketEnd row)
    (asAPIGroupKey row) (asSuccessCount row) (asFailureCount row) (asInputTokens row)
    (asOutputTokens row) (asReasoningTokens row) (asCacheReadTokens row)
    (asCacheCreationTokens row) (asTotalTokens row) (NormalizeStorageTime now)
    (NormalizeStorageTime now).

Definition updateActivity (row : UsageActivityStat) (now : Time) (t : AggTables) : AggTables * bool :=
  match agActivity t !! activityArgs row with
  | Some stored =>
      (setActivity (<[activityArgs row := activityUpdates row now stored]> (agActivity t)) t, true)
  | None => (t, false)
  end.

Definition insertActivity (row : UsageActivityStat) (now : Time) (t : AggTables) : AggTables * bool :=
  match agActivity t !! activityArgs row with
  | Some _ => (t, false)
  | None => (setActivity (<[activityArgs row := createdActivityRow row now]> (agActivity t)) t, true)
  end.

Definition applyRow (now : Time) (row : UsageActivityStat) : Failing unit :=
  try$ updated := wrap "update usage activity row: " (statement fault (updateActivity row now)) in
  if updated : bool then sql_ret (Ok tt)
  else
    try$ inserted := wrap "insert usage activity row: " (statement fault (insertActivity row now)) in
    if inserted : bool then sql_ret (Ok tt)
    else sql_ret (Err "insert usage activity row: UNIQUE constraint failed").

Definition activityApplyRows (rows : list UsageActivityStat) (now : Time) : Failing unit :=
  for_each (applyRow now) rows.

(** ** One page of one rollup *)

Definition ApplyUsageOverviewAggregationPage (expectedCursor nextCursor : Z)
    (hourly daily : list OverviewStat) (now : Time) : Failing unit :=
  let normalizedNow := NormalizeStorageTime now in
  transaction fault (
    try$ _ := overviewApplyRows hourly daily normalizedNow in
    AdvanceUsageAggregationCheckpoint OverviewCheckpoint expectedCursor nextCursor normalizedNow).

Definition ApplyUsageActivityAggregationPage (expectedCursor nextCursor : Z)
    (rows : list UsageActivityStat) (now : Time) : Failing unit :=
  let normalizedNow := NormalizeStorageTime now in
  transaction fault (
    try$ _ := activityApplyRows rows normalizedNow in
    AdvanceUsageAggregationCheckpoint ActivityCheckpoint expectedCursor nextCursor normalizedNow).

(** The transaction of a latency page. *)
Definition writeLatencyPage (expectedCursor nextCursor : Z) (preparedRows : list UsageLatencyStat)
    (normalizedNow : Time) : Failing unit :=
  transaction fault (
    try$ _ := WritePreparedRows local walkText agLatency setLatency fault preparedRows in
    AdvanceUsageAggregationCheckpoint LatencyCheckpoint expectedCursor nextCursor normalizedNow).

(** The stored rows are read and merged before the transaction. *)
Definition ApplyUsageLatencyAggregationPage (expectedCursor nextCursor : Z)
    (rows : list UsageLatencyStat) (now : Time) : Failing unit :=
  let normalizedNow := NormalizeStorageTime now in
  try$ preparedRows := PrepareRows local iter sketchText sampleText walkText agLatency fault
                         rows normalizedNow in
  writeLatencyPage expectedCursor nextCursor preparedRows normalizedNow.

Definition last_id (events : list UsageEvent) : Z :=
  match last events with Some e => evID e | None => 0 end.

Definition buildActivity (events : list UsageEvent) (now : Time) : result string (list UsageActivityStat) :=
  textual activityText (BuildRows local events now).

Definition buildLatency (events : list UsageEvent) (now : Time) : result string (list UsageLatencyStat) :=
  LatencyBuildRows local sketchKey iter sketchText sampleText events now.

(** aggregateUsageOverviewStatsBatch: the number of events of the page. *)
Definition aggregateUsageOverviewStatsBatch (now : Time) (limit : Z) : Failing Z :=
  try$ targetEventID := LoadUsageAggregationTargetEventID in
  try$ snapshot := LoadUsageAggregationCheckpointSnapshot in
  try$ events := LoadUsageAggregationEventPage (OverviewCursor snapshot) targetEventID limit in
  match events with
  | [] => sql_ret (Ok 0)
  | _ =>
      let '(hourly, daily, maxEventID) := OverviewBuildRows local events in
      try$ _ := ApplyUsageOverviewAggregationPage (OverviewCursor snapshot) maxEventID hourly daily now in
      sql_ret (Ok (Z.of_nat (length events)))
  end.

Definition AggregateUsageOverviewStatsBatch (now : Time) : Failing Z :=
  aggregateUsageOverviewStatsBatch (NormalizeStorageTime now) usageOverviewAggregationBatchSize.

Definition AggregateUsageActivityStatsBatch (now : Time) : Failing Z :=
  let normalizedNow := NormalizeStorageTime now in
  try$ targetEventID := LoadUsageAggregationTargetEventID in
  try$ snapshot := LoadUsageAggregationCheckpointSnapshot in
  try$ events := LoadUsageAggregationEventPage (ActivityCursor snapshot) targetEventID
                   usageActivityAggregationBatchSize in
  match events with
  | [] => sql_ret (Ok 0)
  | _ =>
      try$ rows := sql_ret (buildActivity events normalizedNow) in
      try$ _ := ApplyUsageActivityAggregationPage (ActivityCursor snapshot) (last_id events) rows
                  normalizedNow in
      sql_ret (Ok (Z.of_nat (length events)))
  end.

Definition AggregateUsageLatencyStatsBatch (now : Time) : Failing Z :=
  try$ targetEventID := LoadUsageAggregationTargetEventID in
  try$ snapshot := LoadUsageAggregationCheckpointSnapshot in
  try$ events := LoadUsageAggregationEventPage (LatencyCursor snapshot) targetEventID
                   usageLatencyAggregationBatchSize in
  match events with
  | [] => sql_ret (Ok 0)
  | _ =>
      try$ rows := sql_ret (buildLatency events now) in
      try$ _ := ApplyUsageLatencyAggregationPage (LatencyCursor snapshot) (last_id events) rows now in
      sql_ret (Ok (Z.of_nat (length events)))
  end.

(** The loops of the three AggregateUsage*Stats. *)
Fixpoint catchUpWith (fuel : nat) (batch : Failing Z) (size : Z) : Sql AggTables (option (result string unit)) :=
  match fuel with
  | O => sql_ret None
  | S fuel =>
      let$ processed := batch in
      match processed with
      | Err e => sql_ret (Some (Err e))
      | Ok processed => if processed <? size then sql_ret (Some (Ok tt)) else catchUpWith fuel batch size
      end
  end.

Definition AggregateUsageOverviewStats (fuel : nat) (now : Time) :=
  catchUpWith fuel (AggregateUsageOverviewStatsBatch (NormalizeStorageTime now))
    usageOverviewAggregationBatchSize.
Definition AggregateUsageActivityStats (fuel : nat) (now : Time) :=
  catchUpWith fuel (AggregateUsageActivityStatsBatch (NormalizeStorageTime now))
    usageActivityAggregationBatchSize.
Definition AggregateUsageLatencyStats (fuel : nat) (now : Time) :=
  catchUpWith fuel (AggregateUsageLatencyStatsBatch (NormalizeStorageTime now))
    usageLatencyAggregationBatchSize.

(** HasPendingUsageOverviewAggregation and HasPendingUsageActivityAggregation. *)
Definition hasPending (cursor : UsageAggregationCheckpointSnapshot -> Z) : Failing bool :=
  try$ targetEventID := LoadUsageAggregationTargetEventID in
  if targetEventID =? 0 then sql_ret (Ok false)
  else
    try$ snapshot := LoadUsageAggregationCheckpointSnapshot in
    sql_ret (Ok (cursor snapshot <? targetEventID)).

(** ** Cleanup *)

(** One DELETE per limited grain, in order, up to the first failure. *)
Definition cleanupActivityGrain (now : Time) (grain : UsageActivityGrain) : Failing unit :=
  match Retention grain with
  | None => sql_ret (Ok tt)
  | Some retention =>
      let cutoff := FormatSortableStorageTime (NormalizeStorageTime now - retention) in
      wrap "cleanup usage activity stats: " (statement fault (fun t =>
        (setActivity (filter (fun p : (string * string * string) * UsageActivityStat =>
           ~ (asGrain p.2 = grain /\
              string_lt (FormatSortableStorageTime (asBucketEnd p.2)) cutoff = true))
           (agActivity t)) t, tt)))
  end.

Definition CleanupUsageActivityStats (now : Time) : Failing unit :=
  for_each (cleanupActivityGrain now)
    [UsageActivityGrainShort; UsageActivityGrainMedium; UsageActivityGrainLong].

Definition cleanupLatencyType (now : Time) (bucketType : UsageLatencyBucketType) : Failing unit :=
  try$ cutoff := sql_ret (RetentionBucketStartCutoff local bucketType now) in
  wrap "cleanup usage latency stats: " (statement fault (fun t =>
    (setLatency (mkLatencyTable
       (filter (fun p : (string * string * string) * UsageLatencyStat =>
          ~ (lsBucketType p.2 = bucketType /\
             string_lt (FormatStorageTime local (lsBucketStart p.2)) (FormatStorageTime local cutoff) = true))
          (ltRows (agLatency t))) (ltNextID (agLatency t))) t, tt))).

Definition CleanupUsageLatencyStats (now : Time) : Failing unit :=
  for_each (cleanupLatencyType now) [UsageLatencyBucketHour; UsageLatencyBucketDay].

End Aggregation.
