(* ===== verification/AggregationFacts.v ===== *)
(** Every stored event goes into each rollup exactly once. *)
From S2P Require Import Prelude GoStrings GoTime Timeutil Entities ActivityGrain Uvarint Sketch SampleSet Sql Overview LatencyRows Aggregation.
From stdpp Require Import sorting.

Local Open Scope string_scope.
Local Open Scope list_scope.
Local Open Scope Z_scope.

(** *** Pages of a sorted table *)

Definition by_id (e f : UsageEvent) : Prop := evID e < evID f.

(** The events of the table: positive keys in increasing order. *)
Definition events_ok (events : list UsageEvent) : Prop :=
  StronglySorted by_id events /\ Forall (fun e => 0 < evID e) events.

Definition between (a b : Z) (events : list UsageEvent) : list UsageEvent :=
  filter (fun e => a < evID e <= b) events.

Lemma StronglySorted_filter {A} (R : A -> A -> Prop) (P : A -> Prop) `{forall x, Decision (P x)}
    (l : list A) : StronglySorted R l -> StronglySorted R (filter P l).
Proof.
  induction 1 as [|a l _ IH F]; [constructor|]. rewrite filter_cons. case_decide; [|done].
  constructor; [done|]. rewrite Forall_forall in F |- *. intros x Hx%list_elem_of_filter. naive_solver.
Qed.

Lemma filter_rejects {A} (P : A -> Prop) `{forall x, Decision (P x)} (l : list A) :
  Forall (fun x => ~ P x) l -> filter P l = [].
Proof. induction 1 as [|x l Hx _ IH]; [done|]. by rewrite filter_cons, decide_False. Qed.

(** Cutting a sorted list at the key of its last taken element. *)
Lemma take_is_filter (k : nat) (l : list UsageEvent) (e : UsageEvent) :
  StronglySorted by_id l -> last (take k l) = Some e ->
  take k l = filter (fun x => evID x <= evID e) l.
Proof.
  intros S. revert k. induction S as [|a l Sl IH F]; intros [|k] L; try done.
  cbn [take] in L |- *. destruct (take k l) as [|b r] eqn:T.
  - injection L as <-. rewrite filter_cons, decide_True by lia. f_equal. symmetry.
    apply filter_rejects. eapply Forall_impl; [exact F|]. unfold by_id. simpl. lia.
  - assert (L' : last (take k l) = Some e) by (rewrite T; exact L).
    specialize (IH k L'). rewrite T in IH. rewrite filter_cons, IH.
    rewrite decide_True; [done|]. assert (He : e ∈ l).
    { apply last_Some_elem_of in L'. by apply elem_of_take in L' as (i & ? & _); eapply list_elem_of_lookup_2. }
    rewrite Forall_forall in F. specialize (F e He). unfold by_id in F. lia.
Qed.

Lemma between_between (a b c : Z) (events : list UsageEvent) : c <= b ->
  filter (fun e => evID e <= c) (between a b events) = between a c events.
Proof.
  intros L. unfold between. rewrite list_filter_filter. apply list_filter_iff. intros e. lia.
Qed.

(** The events a checkpoint covers, and what one more page adds. *)
Definition covered (cursor : Z) (events : list UsageEvent) : list UsageEvent :=
  filter (fun e => evID e <= cursor) events.

Lemma covered_split (a b : Z) (events : list UsageEvent) : StronglySorted by_id events -> a <= b ->
  covered b events = covered a events ++ between a b events.
Proof.
  intros S L. unfold covered, between. induction S as [|e l Sl IH F]; [done|].
  rewrite !filter_cons. destruct (decide (evID e <= a)) as [A|A].
  - rewrite (decide_True (P := evID e <= b)) by lia.
    rewrite (decide_False (P := a < evID e <= b)) by lia. cbn [app]. by f_equal.
  - rewrite (filter_rejects (fun x => evID x <= a) l).
    2: { eapply Forall_impl; [exact F|]. unfold by_id. simpl. lia. }
    rewrite (filter_rejects (fun x => evID x <= a) l) in IH.
    2: { eapply Forall_impl; [exact F|]. unfold by_id. simpl. lia. }
    cbn [app] in *. destruct (decide (evID e <= b)).
    + rewrite decide_True by lia. by f_equal.
    + rewrite decide_False by lia. done.
Qed.

Lemma covered_app (c : Z) (events more : list UsageEvent) :
  Forall (fun e => c < evID e) more -> covered c (events ++ more) = covered c events.
Proof.
  intros F. unfold covered. rewrite filter_app, (filter_rejects _ more), app_nil_r; [done|].
  eapply Forall_impl; [exact F|]. simpl. lia.
Qed.

(** *** Pages that were loaded *)

(** [page] is what lies behind [cursor] up to [next] in the table. *)
Definition page_of (events : list UsageEvent) (cursor next : Z) (page : list UsageEvent) : Prop :=
  page <> [] /\ page = map projected (between cursor next events) /\
  last_id page = next /\ cursor < next /\ exists e, e ∈ events /\ evID e = next.

(** A page stays a page when later events come. *)
Lemma page_of_app events more cursor next page : events_ok (events ++ more) ->
  page_of events cursor next page -> page_of (events ++ more) cursor next page.
Proof.
  intros [S _] (N & -> & L & C & e & He & Hid). split; [done|]. split.
  - f_equal. unfold between. rewrite filter_app, (filter_rejects _ more), app_nil_r; [done|].
    rewrite Forall_forall. intros x Hx. apply StronglySorted_app_1_elem_of with (x1 := e) (x2 := x) in S; [|done..].
    unfold by_id in S. lia.
  - split; [done|]. split; [done|]. exists e. split; [|done]. apply elem_of_app. by left.
Qed.

Lemma loaded_page (events : list UsageEvent) (cursor target : Z) (k : nat) page :
  events_ok events ->
  page = take k (map projected (between cursor target events)) -> page <> [] ->
  page_of events cursor (last_id page) page.
Proof.
  intros [S _] E N. rewrite firstn_map in E.
  destruct (last (take k (between cursor target events))) as [e|] eqn:L.
  2: { apply last_None in L. rewrite L in E. done. }
  assert (Id : last_id page = evID e).
  { unfold last_id. rewrite E. change (map projected) with (fmap (M := list) projected). rewrite fmap_last, L. done. }
  assert (He : e ∈ between cursor target events).
  { apply last_Some_elem_of in L. apply elem_of_take in L as (i & Hi & _). by eapply list_elem_of_lookup_2. }
  apply list_elem_of_filter in He as [Be He].
  rewrite Id. split; [done|]. split.
  - rewrite E. f_equal. rewrite (take_is_filter _ _ e); [|by apply StronglySorted_filter|done].
    by rewrite between_between by lia.
  - split; [done|]. split; [lia|]. by exists e.
Qed.

Section Facts.
Context (local : Location) (sketchKey : Z -> Z) (iter : SampleSet -> list SamplePoint).
Context (sketchText : SketchError -> string) (sampleText : SampleError -> string)
  (walkText : WalkError -> string) (activityText : ActivityError -> string).

(** *** The statements *)

(** What the two or three statements of one row come to. *)
Definition upsertOverview (now : Time) (tbl : OverviewTable) (row : OverviewStat) : OverviewTable :=
  <[dimensionArgs local row := match tbl !! dimensionArgs local row with
                               | Some stored => tokenStatUpdates row now stored
                               | None => createdOverviewRow row now
                               end]> tbl.

Definition upsertActivity (now : Time) (tbl : ActivityTable) (row : UsageActivityStat) : ActivityTable :=
  <[activityArgs row := match tbl !! activityArgs row with
                        | Some stored => activityUpdates row now stored
                        | None => createdActivityRow row now
                        end]> tbl.

Section Statements.
Context (fault : nat -> option string).

Lemma update_overview_spec prefix get set row now :
  preserves (wrap prefix (statement fault (updateOverview local get set row now)))
    (fun t r t' => match r with
       | Ok true => t' = set (upsertOverview now (get t) row) t
       | Ok false => t' = t /\ get t !! dimensionArgs local row = None
       | Err _ => t' = t end).
Proof.
  eapply preserves_weaken.
  - apply preserves_wrap with (R := fun t r t' =>
      match r with Ok a => (t', a) = updateOverview local get set row now t | Err _ => t' = t end).
    + apply preserves_statement.
    + done.
  - intros t [a|e] t'; [|done]. unfold updateOverview, upsertOverview.
    destruct (get t !! dimensionArgs local row); intros [= -> ->]; [done|by split].
Qed.

Lemma applyOverviewRow_spec get set now row :
  preserves (applyOverviewRow local fault get set now row) (fun t r t' =>
    match r with Ok _ => t' = set (upsertOverview now (get t) row) t | Err _ => True end).
Proof.
  eapply preserves_try with (Q := fun updated t r t'' =>
    match r with
    | Ok _ => if updated : bool then t'' = t
              else get t !! dimensionArgs local row = None -> t'' = set (upsertOverview now (get t) row) t
    | Err _ => True end).
  - apply update_overview_spec.
  - intros [|].
    { eapply preserves_weaken; [apply preserves_ret|]. by intros t a t' [-> ->]. }
    eapply preserves_bind with (Q := fun inserted t r t'' =>
      match r with
      | Ok _ => match inserted with
                | Ok true => t'' = t
                | _ => t'' = set (upsertOverview now (get t) row) t
                end
      | Err _ => True end).
    + apply preserves_statement.
    + assert (Retry : preserves
        (try$ retried := wrap "insert usage overview stat; retry update: "
                    (statement fault (updateOverview local get set row now)) in
         if retried : bool then sql_ret (Ok tt)
         else sql_ret (Err "insert usage overview stat; retry update matched no existing row"))%sql
        (fun t r t'' => match r with
           | Ok _ => t'' = set (upsertOverview now (get t) row) t | Err _ => True end)).
      { eapply preserves_try with (Q := fun (retried : bool) t r t'' =>
          match r with Ok _ => retried = true /\ t'' = t | Err _ => True end).
        - apply update_overview_spec.
        - intros [|]; (eapply preserves_weaken; [apply preserves_ret|]); by intros t a t' [-> ->].
        - done.
        - intros t [|] t' [|] t''; [|done|by intros _ [??]|done]. intros -> [_ ->]. done. }
      intros [[|]|e]; [|exact Retry|exact Retry].
      eapply preserves_weaken; [apply preserves_ret|]. by intros t a t' [-> ->].
    + intros t inserted t' r t'' I R. destruct r; [|done]. intros N. unfold insertOverview in I.
      destruct inserted as [[|]|e].
      * rewrite N in I. injection I as ->. rewrite R. unfold upsertOverview. by rewrite N.
      * rewrite N in I. discriminate.
      * by subst t'.
  - done.
  - intros t [|] t' r t''; destruct r; try done.
    + intros -> ->. done.
    + intros [-> N] R. by apply R.
Qed.

Lemma update_activity_spec prefix row now :
  preserves (wrap prefix (statement fault (updateActivity row now)))
    (fun t r t' => match r with
       | Ok true => t' = setActivity (upsertActivity now (agActivity t) row) t
       | Ok false => t' = t /\ agActivity t !! activityArgs row = None
       | Err _ => t' = t end).
Proof.
  eapply preserves_weaken.
  - apply preserves_wrap with (R := fun t r t' =>
      match r with Ok a => (t', a) = updateActivity row now t | Err _ => t' = t end).
    + apply preserves_statement.
    + done.
  - intros t [a|e] t'; [|done]. unfold updateActivity, upsertActivity.
    destruct (agActivity t !! activityArgs row); intros [= -> ->]; [done|by split].
Qed.

Lemma applyRow_spec now row :
  preserves (applyRow fault now row) (fun t r t' =>
    match r with Ok _ => t' = setActivity (upsertActivity now (agActivity t) row) t | Err _ => True end).
Proof.
  eapply preserves_try with (Q := fun (updated : bool) t r t'' =>
    match r with
    | Ok _ => if updated then t'' = t
              else agActivity t !! activityArgs row = None ->
                   t'' = setActivity (upsertActivity now (agActivity t) row) t
    | Err _ => True end).
  - apply update_activity_spec.
  - intros [|].
    { eapply preserves_weaken; [apply preserves_ret|]. by intros t a t' [-> ->]. }
    eapply preserves_try with (Q := fun (inserted : bool) t r t'' =>
      match r with Ok _ => inserted = true /\ t'' = t | Err _ => True end).
    + apply preserves_wrap with (R := fun t r t' =>
        match r with Ok a => (t', a) = insertActivity row now t | Err _ => t' = t end);
        [apply preserves_statement|done].
    + intros [|]; (eapply preserves_weaken; [apply preserves_ret|]); by intros t a t' [-> ->].
    + done.
    + intros t inserted t' [u|e] t'' I; [|done]. intros [-> ->] N. unfold insertActivity in I.
      rewrite N in I. injection I as ->. unfold upsertActivity. by rewrite N.
  - done.
  - intros t [|] t' [u|e] t''; try done.
    + intros -> ->. done.
    + intros [-> N] R. by apply R.
Qed.

(** A loop over rows of one table. *)
Lemma rows_loop {R Tbl} (get : AggTables -> Tbl) (set : Tbl -> AggTables -> AggTables)
    (f : R -> Sql AggTables (result string unit)) (up : Tbl -> R -> Tbl) (rows : list R) :
  (forall x t, get (set x t) = x) -> (forall x y t, set x (set y t) = set x t) ->
  (forall t, set (get t) t = t) ->
  (forall row, preserves (f row) (fun t r t' =>
     match r with Ok _ => t' = set (up (get t) row) t | Err _ => True end)) ->
  preserves (for_each f rows) (fun t r t' =>
    match r with Ok _ => t' = set (foldl up (get t) rows) t | Err _ => True end).
Proof.
  intros GS SS SG F. eapply preserves_weaken; [apply (preserves_for_each _ _ rows F)|].
  intros t [u|e] t'; [|done]. intros ->. clear -GS SS SG. revert t.
  induction rows as [|row rows IH]; intros t; cbn [foldl]; [by rewrite SG|].
  by rewrite IH, GS, SS.
Qed.

Lemma overviewApplyRows_spec hourly daily now :
  preserves (overviewApplyRows local fault hourly daily now) (fun t r t' =>
    match r with
    | Ok _ => t' = setDaily (foldl (upsertOverview now) (agDaily t) daily)
                     (setHourly (foldl (upsertOverview now) (agHourly t) hourly) t)
    | Err _ => True end).
Proof.
  eapply preserves_try.
  - apply rows_loop with (get := agHourly) (set := setHourly) (up := upsertOverview now);
      [done|done|by intros []|apply applyOverviewRow_spec].
  - intros u. apply rows_loop with (get := agDaily) (set := setDaily) (up := upsertOverview now);
      [done|done|by intros []|apply applyOverviewRow_spec].
  - done.
  - intros t u t' [[]|e] t''; [|done]. intros -> ->. done.
Qed.

Lemma activityApplyRows_spec rows now :
  preserves (activityApplyRows fault rows now) (fun t r t' =>
    match r with
    | Ok _ => t' = setActivity (foldl (upsertActivity now) (agActivity t) rows) t
    | Err _ => True end).
Proof.
  apply rows_loop with (get := agActivity) (set := setActivity) (up := upsertActivity now);
    [done|done|by intros []|apply applyRow_spec].
Qed.

(** *** The rows of a latency page *)

(** Only the stored rows of the keys at hand matter. *)
Lemma mergeChunk_ext (m1 m2 : gmap (string * string * string) UsageLatencyStat) now rows :
  Forall (fun row => m1 !! latencyRowKey local row = m2 !! latencyRowKey local row) rows ->
  mergeChunk local iter sketchText sampleText walkText m1 now rows
  = mergeChunk local iter sketchText sampleText walkText m2 now rows.
Proof.
  induction 1 as [|row rows E _ IH]; [done|]. cbn [mergeChunk]. by rewrite E, IH.
Qed.

Lemma mergeChunk_app m now rows1 rows2 l1 l2 :
  mergeChunk local iter sketchText sampleText walkText m now rows1 = Ok l1 ->
  mergeChunk local iter sketchText sampleText walkText m now rows2 = Ok l2 ->
  mergeChunk local iter sketchText sampleText walkText m now (rows1 ++ rows2) = Ok (l1 ++ l2).
Proof.
  intros M1 M2. revert l1 M1. induction rows1 as [|row rows1 IH]; intros l1; cbn [mergeChunk app].
  - by intros [= <-].
  - destruct (wrapText _ _) as [r|e]; cbn [result_bind]; [|done].
    destruct (mergeChunk _ _ _ _ _ m now rows1) as [l|e]; cbn [result_bind]; [|done].
    intros [= <-]. by rewrite (IH l eq_refl).
Qed.

Lemma prepareChunks_spec fuel now rows : (length rows <= fuel)%nat ->
  reads (prepareChunks local iter sketchText sampleText walkText agLatency fault fuel now rows)
    (fun t r => match r with
       | Ok prepared => mergeChunk local iter sketchText sampleText walkText (ltRows (agLatency t)) now rows
                        = Ok prepared
       | Err _ => True end).
Proof.
  revert rows. induction fuel as [|fuel IH]; intros rows L.
  { destruct rows; [|simpl in L; lia]. intros d. done. }
  destruct rows as [|row rows]; [by intros d|]. cbn [prepareChunks].
  set (all := row :: rows) in *. assert (D : (length (drop loadKeyBatchSize all) <= fuel)%nat).
  { rewrite length_drop. unfold loadKeyBatchSize, all in *. simpl in *. lia. }
  eapply preserves_try with (Q := fun existing t r t' => t' = t /\
    match r with
    | Ok prepared => exists l1 l2, prepared = l1 ++ l2 /\
        mergeChunk local iter sketchText sampleText walkText existing now
          (take loadKeyBatchSize all) = Ok l1 /\
        mergeChunk local iter sketchText sampleText walkText (ltRows (agLatency t)) now
          (drop loadKeyBatchSize all) = Ok l2
    | Err _ => True end).
  - apply preserves_wrap with (R := fun t r t' => t' = t /\
      match r with
      | Ok a => a = filter (fun p : (string * string * string) * UsageLatencyStat =>
                  p.1 ∈ map (latencyRowKey local) (take loadKeyBatchSize all)) (ltRows (agLatency t))
      | Err _ => True end); [apply preserves_query|by intros t e e' t' [-> _]].
  - intros existing. eapply preserves_try with (Q := fun merged t r t' => t' = t /\
      match r with
      | Ok prepared => exists l2, prepared = merged ++ l2 /\
          mergeChunk local iter sketchText sampleText walkText (ltRows (agLatency t)) now
            (drop loadKeyBatchSize all) = Ok l2
      | Err _ => True end).
    + apply preserves_ret.
    + intros merged. eapply preserves_try.
      * apply (IH _ D).
      * intros others. apply preserves_ret.
      * by intros t e t' [-> _].
      * intros t others t' b t'' [-> O] [-> ->]. split; [done|]. by exists others.
    + by intros t e t' [-> _].
    + intros t merged t' b t'' [-> E] [-> H]. split; [done|].
      destruct b as [prepared|e]; [|done]. destruct H as (l2 & -> & H2). by exists merged, l2.
  - by intros t e t' [-> _].
  - intros t existing t' b t'' [-> ->] [-> H]. split; [done|].
    destruct b as [prepared|e]; [|done]. destruct H as (l1 & l2 & -> & M1 & M2).
    rewrite <- (take_drop loadKeyBatchSize all). apply mergeChunk_app; [|done].
    rewrite <- M1. apply mergeChunk_ext. apply Forall_forall. intros r Hr. symmetry.
    set (P := fun p : (string * string * string) * UsageLatencyStat =>
                p.1 ∈ map (latencyRowKey local) (take loadKeyBatchSize all)).
    destruct (ltRows (agLatency t) !! latencyRowKey local r) as [stored|] eqn:G.
    + apply map_lookup_filter_Some. split; [done|]. cbn. by apply (list_elem_of_fmap_2 (latencyRowKey local)).
    + apply map_lookup_filter_None. by left.
Qed.

(** What the statement of one prepared row does to the table. *)
Definition writtenRow (tbl : LatencyTable) (row : UsageLatencyStat) : LatencyTable :=
  if 0 <? lsID row then (updateLatencyRow id (fun x _ => x) row tbl).1
  else (insertLatencyRow local id (fun x _ => x) row tbl).1.

Lemma written_update tbl row : (0 <? lsID row) = true ->
  writtenRow tbl row = (updateLatencyRow id (fun x _ => x) row tbl).1.
Proof. unfold writtenRow. by intros ->. Qed.

Lemma written_insert tbl row : (0 <? lsID row) = false ->
  writtenRow tbl row = (insertLatencyRow local id (fun x _ => x) row tbl).1.
Proof. unfold writtenRow. by intros ->. Qed.

Lemma updateLatencyRow_hit row t :
  (updateLatencyRow agLatency setLatency row t).2 = 1%nat ->
  exists k r, ltRows (agLatency t) !! k = Some r /\ lsID r = lsID row.
Proof.
  cbn. intros S. set (hit := filter _ _) in S.
  destruct (map_choose hit) as (k & r & L).
  { intros E. rewrite E, map_size_empty in S. discriminate. }
  apply map_lookup_filter_Some in L as [L I]. by exists k, r.
Qed.

(** Every row that has a key is in the table when its turn comes. *)
Fixpoint found_rows (tbl : LatencyTable) (rows : list UsageLatencyStat) : Prop :=
  match rows with
  | [] => True
  | row :: rest =>
      (0 < lsID row -> exists k r, ltRows tbl !! k = Some r /\ lsID r = lsID row) /\
      found_rows (writtenRow tbl row) rest
  end.

Lemma writeRows_spec seen rows :
  preserves (writeRows local walkText agLatency setLatency fault seen rows) (fun t r t' =>
    match r with
    | Ok _ => t' = setLatency (foldl writtenRow (agLatency t) rows) t /\ found_rows (agLatency t) rows
    | Err _ => True end).
Proof.
  revert seen. induction rows as [|row rows IH]; intros seen; cbn [writeRows].
  { intros d. cbn. by destruct (dbTables d). }
  case_bool_decide; [by intros d|]. destruct (decodeLatencyRow walkText row) as [decoded|e]; [|by intros d].
  destruct (_ <? _)%nat; [by intros d|]. destruct (0 <? lsID row) eqn:Id.
  - eapply preserves_try with (Q := fun affected t r t' =>
      match r with
      | Ok _ => affected = 1%nat /\ t' = setLatency (foldl writtenRow (agLatency t) rows) t /\
                found_rows (agLatency t) rows
      | Err _ => True end).
    + apply preserves_wrap with (R := fun t r t' =>
        match r with
        | Ok a => (t', a) = updateLatencyRow agLatency setLatency row t
        | Err _ => t' = t end); [apply preserves_statement|done].
    + intros affected. destruct (affected =? 1)%nat eqn:A; cbn [negb]; [|by intros d].
      eapply preserves_weaken; [apply IH|]. intros t [u|e] t' W; [|done].
      split; [by apply Nat.eqb_eq|done].
    + done.
    + intros t affected t' [u|e] t'' U; [|done]. intros (A1 & -> & Fd).
      pose proof (updateLatencyRow_hit row t) as Hit. rewrite <- U in Hit. specialize (Hit A1).
      injection U as -> _. cbn [foldl found_rows]. rewrite (written_update _ _ Id). by split; [split|].
  - eapply preserves_try with (Q := fun inserted t r t' =>
      match r with
      | Ok _ => inserted = true /\ t' = setLatency (foldl writtenRow (agLatency t) rows) t /\
                found_rows (agLatency t) rows
      | Err _ => True end).
    + apply preserves_wrap with (R := fun t r t' =>
        match r with
        | Ok a => (t', a) = insertLatencyRow local agLatency setLatency row t
        | Err _ => t' = t end); [apply preserves_statement|done].
    + intros [|]; [|by intros d].
      eapply preserves_weaken; [apply IH|]. by intros t [u|e] t' W.
    + done.
    + intros t inserted t' [u|e] t'' U; [|done]. intros (-> & -> & Fd). unfold insertLatencyRow in U.
      cbn [foldl found_rows]. rewrite (written_insert _ _ Id). unfold insertLatencyRow, id.
      destruct (ltRows (agLatency t) !! latencyRowKey local row); [discriminate|].
      injection U as ->. split; [done|]. split; [lia|done].
Qed.

(** Only the checkpoint [name] moves, from [expected] to [next]. *)
Definition moved (name : CheckpointName) (expected next : Z) (t t' : AggTables) : Prop :=
  0 <= expected < next /\ cursor_of t name = expected /\ cursor_of t' name = next /\
  (forall n, n <> name -> cursor_of t' n = cursor_of t n) /\
  agEvents t' = agEvents t /\ agHourly t' = agHourly t /\ agDaily t' = agDaily t /\
  agActivity t' = agActivity t /\ agLatency t' = agLatency t.

Lemma cursor_setCheckpoint name c t n :
  cursor_of (setCheckpoint name c t) n = if decide (n = name) then cpCursor c else cursor_of t n.
Proof. unfold cursor_of. cbn [setCheckpoint agCheckpoints]. by destruct (decide (n = name)). Qed.

Lemma Advance_spec name expected next now :
  preserves (AdvanceUsageAggregationCheckpoint fault name expected next now) (fun t r t' =>
    match r with Ok _ => moved name expected next t t' | Err _ => True end).
Proof.
  unfold AdvanceUsageAggregationCheckpoint.
  destruct ((expected <? 0) || (next <=? expected)) eqn:B.
  { eapply preserves_weaken; [apply preserves_ret|]. by intros t a t' [-> ->]. }
  assert (Bd : 0 <= expected < next) by (bool_split; lia). clear B.
  eapply preserves_try with (Q := fun _ t r t' =>
    match r with Ok _ => moved name expected next t t' | Err _ => True end).
  - apply preserves_wrap with (R := fun t r t' =>
      match r with
      | Ok a => (t', a) = ensureCheckpoint name (NormalizeStorageTime now) t
      | Err _ => t' = t end); [apply preserves_statement|done].
  - intros u. eapply preserves_try with (Q := fun affected t r t' =>
      match r with Ok _ => affected = 1%nat /\ t' = t | Err _ => True end).
    + apply preserves_wrap with (R := fun t r t' =>
        match r with
        | Ok a => (t', a) = moveCheckpoint name expected next (NormalizeStorageTime now) t
        | Err _ => t' = t end); [apply preserves_statement|done].
    + intros affected. destruct (affected =? 1)%nat eqn:A; cbn [negb];
        (eapply preserves_weaken; [apply preserves_ret|]); intros t r t' [-> ->]; [|done].
      by apply Nat.eqb_eq in A.
    + done.
    + intros t affected t' [v|e] t'' Mv; [|done]. intros [-> ->]. unfold moveCheckpoint in Mv.
      destruct (agCheckpoints t name) as [c|] eqn:L; [|discriminate].
      destruct (Z.eqb_spec (cpCursor c) expected) as [E|E]; [|discriminate].
      injection Mv as ->. split_and!; try done; try lia.
      * unfold cursor_of. by rewrite L.
      * rewrite cursor_setCheckpoint. by rewrite decide_True.
      * intros n N. rewrite cursor_setCheckpoint. by rewrite decide_False.
  - done.
  - intros t u t' [v|e] t'' En; [|done]. unfold ensureCheckpoint in En.
    destruct (agCheckpoints t name) as [c|] eqn:L; injection En as -> _; [done|].
    intros (Bd' & C1 & C2 & C3 & F1 & F2 & F3 & F4 & F5).
    rewrite cursor_setCheckpoint, decide_True in C1 by done. split_and!; try done; try lia.
    + unfold cursor_of. by rewrite L.
    + intros n N. rewrite (C3 n N), cursor_setCheckpoint. by rewrite decide_False.
Qed.

End Statements.

(** *** Histories of pages *)

Abbreviation History := (list (list UsageEvent * Time)).

(** The events of a history, in order. *)
Definition seen (h : History) : list UsageEvent := concat (map fst h).

Lemma seen_snoc h page now : seen (h ++ [(page, now)]) = seen h ++ page.
Proof. unfold seen. rewrite map_app, concat_app. cbn. by rewrite app_nil_r. Qed.

Definition hourly_of (h : History) : OverviewTable :=
  foldl (fun tbl p => foldl (upsertOverview p.2) tbl (OverviewBuildRows local p.1).1.1) ∅ h.
Definition daily_of (h : History) : OverviewTable :=
  foldl (fun tbl p => foldl (upsertOverview p.2) tbl (OverviewBuildRows local p.1).1.2) ∅ h.

(** A cleanup may drop rows, never daily ones. *)
Inductive activity_history : History -> ActivityTable -> Prop :=
| activity_nil : activity_history [] ∅
| activity_page h tbl page now rows :
    activity_history h tbl -> buildActivity local activityText page now = Ok rows ->
    activity_history (h ++ [(page, now)]) (foldl (upsertActivity now) tbl rows)
| activity_cleanup h tbl tbl' :
    activity_history h tbl -> tbl' ⊆ tbl ->
    (forall k r, tbl !! k = Some r -> asGrain r = UsageActivityGrainDaily -> tbl' !! k = Some r) ->
    activity_history h tbl'.

(** The new rows merged with the stored ones and written. *)
Definition latency_written (now : Time) (rows : list UsageLatencyStat) (tbl tbl' : LatencyTable) : Prop :=
  exists prepared,
    mergeChunk local iter sketchText sampleText walkText (ltRows tbl) now rows = Ok prepared /\
    tbl' = foldl writtenRow tbl prepared.

Inductive latency_history : History -> LatencyTable -> Prop :=
| latency_nil : latency_history [] (mkLatencyTable ∅ 1)
| latency_page h tbl page now rows tbl' :
    latency_history h tbl ->
    buildLatency local sketchKey iter sketchText sampleText page now = Ok rows ->
    latency_written now rows tbl tbl' ->
    latency_history (h ++ [(page, now)]) tbl'
| latency_cleanup h tbl tbl' :
    latency_history h tbl -> ltRows tbl' ⊆ ltRows tbl -> ltNextID tbl' = ltNextID tbl ->
    latency_history h tbl'.

(** ** The invariant *)

Definition cursor_ok (t : AggTables) (name : CheckpointName) : Prop :=
  cursor_of t name = 0 \/ exists e, e ∈ agEvents t /\ evID e = cursor_of t name.

(** What the checkpoint [name] covers, as the pages saw it. *)
Definition aggregated (t : AggTables) (name : CheckpointName) : list UsageEvent :=
  map projected (covered (cursor_of t name) (agEvents t)).

(** The tables of one rollup are what the pages of [h] make. *)
Definition shows (h : History) (name : CheckpointName) (t : AggTables) : Prop :=
  match name with
  | OverviewCheckpoint => agHourly t = hourly_of h /\ agDaily t = daily_of h
  | ActivityCheckpoint => activity_history h (agActivity t)
  | LatencyCheckpoint => latency_history h (agLatency t)
  end.

Definition rollup_ok (name : CheckpointName) (t : AggTables) : Prop :=
  cursor_ok t name /\ exists h, seen h = aggregated t name /\ shows h name t.

Definition agg_ok (t : AggTables) : Prop :=
  events_ok (agEvents t) /\ forall name, rollup_ok name t.

Lemma aggregated_moved name (t t' : AggTables) c next page :
  events_ok (agEvents t) -> agEvents t' = agEvents t ->
  cursor_of t name = c -> cursor_of t' name = next ->
  page_of (agEvents t) c next page -> aggregated t' name = aggregated t name ++ page.
Proof.
  intros [S _] E C N (_ & -> & _ & L & _). unfold aggregated. rewrite E, C, N.
  rewrite (covered_split c next) by (done || lia). apply map_app.
Qed.

Lemma aggregated_same name (t t' : AggTables) :
  agEvents t' = agEvents t -> cursor_of t' name = cursor_of t name ->
  aggregated t' name = aggregated t name.
Proof. unfold aggregated. by intros -> ->. Qed.

Lemma cursor_ok_same name (t t' : AggTables) :
  agEvents t' = agEvents t -> cursor_of t' name = cursor_of t name ->
  cursor_ok t name -> cursor_ok t' name.
Proof. unfold cursor_ok. by intros -> ->. Qed.

Lemma cursor_ok_moved name (t t' : AggTables) c next page :
  agEvents t' = agEvents t -> cursor_of t' name = next ->
  page_of (agEvents t) c next page -> cursor_ok t' name.
Proof. intros E N (_ & _ & _ & _ & e & ?). right. exists e. by rewrite E, N. Qed.

(** [t'] agrees with [t] on everything the rollup [name] consists of. *)
Definition same_rollup (name : CheckpointName) (t t' : AggTables) : Prop :=
  cursor_of t' name = cursor_of t name /\
  match name with
  | OverviewCheckpoint => agHourly t' = agHourly t /\ agDaily t' = agDaily t
  | ActivityCheckpoint => agActivity t' = agActivity t
  | LatencyCheckpoint => agLatency t' = agLatency t
  end.

Lemma rollup_ok_same name (t t' : AggTables) :
  agEvents t' = agEvents t -> same_rollup name t t' -> rollup_ok name t -> rollup_ok name t'.
Proof.
  intros E [C R] (O & h & Hs & Sh). split; [by eapply cursor_ok_same|].
  exists h. rewrite (aggregated_same name t t') by done. split; [done|].
  destruct name; cbn [shows] in *; [|congruence|congruence].
  destruct R as [-> ->]. done.
Qed.

(** *** Programs that keep the invariant *)

Definition grows (t t' : AggTables) : Prop :=
  agg_ok t -> agg_ok t' /\ agEvents t' = agEvents t /\
    forall name, cursor_of t name <= cursor_of t' name.

Lemma grows_refl t : grows t t.
Proof. intros A. split_and!; [done|done|]. intros; lia. Qed.

Lemma grows_trans t1 t2 t3 : grows t1 t2 -> grows t2 t3 -> grows t1 t3.
Proof.
  intros G H A. destruct (G A) as (A2 & E2 & C2). destruct (H A2) as (A3 & E3 & C3).
  split_and!; [done|congruence|]. intros n. specialize (C2 n). specialize (C3 n). lia.
Qed.

(** A page of [name] was aggregated, and nothing else. *)
Definition page_done (name : CheckpointName) (c next : Z) (page : list UsageEvent)
    (t t' : AggTables) : Prop :=
  agEvents t' = agEvents t /\ cursor_of t name = c /\ cursor_of t' name = next /\
  (forall n, n <> name -> same_rollup n t t') /\
  (forall h, shows h name t -> exists now, shows (h ++ [(page, now)]) name t').

Lemma page_done_grows name c next page t t' :
  page_of (agEvents t) c next page -> page_done name c next page t t' -> grows t t'.
Proof.
  intros P (E & C1 & C2 & Oth & Sh) [Ev Ok']. pose proof P as (_ & _ & _ & L & _).
  split; [|split; [done|]].
  - split; [by rewrite E|]. intros n. destruct (decide (n = name)) as [->|N].
    + destruct (Ok' name) as (_ & h & Hs & Hsh). split; [by eapply cursor_ok_moved|].
      destruct (Sh h Hsh) as [now Hnow]. exists (h ++ [(page, now)]). split; [|done].
      rewrite seen_snoc, Hs. symmetry. by eapply aggregated_moved.
    + eapply rollup_ok_same; [done|by apply Oth|apply Ok'].
  - intros n. destruct (decide (n = name)) as [->|N]; [lia|].
    destruct (Oth n N) as [-> _]. lia.
Qed.

Lemma maxEventID_fold events st :
  (foldl (buildStep local) st events).2 = foldl (fun m e => if m <? evID e then evID e else m) st.2 events.
Proof.
  revert st. induction events as [|e events IH]; intros [[h d] m]; [done|]. apply IH.
Qed.

Lemma sorted_max (l : list UsageEvent) (m : Z) : StronglySorted by_id l ->
  Forall (fun e => m < evID e) l ->
  foldl (fun m e => if m <? evID e then evID e else m) m l = match last l with Some e => evID e | None => m end.
Proof.
  intros S. revert m. induction S as [|e l Sl IH F]; intros m G; [done|].
  apply Forall_cons in G as [G1 G2]. cbn [foldl]. rewrite (proj2 (Z.ltb_lt _ _) G1), IH by done.
  rewrite last_cons. by destruct (last l).
Qed.

Lemma sorted_projected (l : list UsageEvent) : StronglySorted by_id l -> StronglySorted by_id (map projected l).
Proof.
  induction 1 as [|e l _ IH F]; [constructor|]. cbn [map]. constructor; [done|].
  apply Forall_map. exact F.
Qed.

Lemma overview_next events c next page : events_ok events -> page_of events c next page ->
  0 <= c -> (OverviewBuildRows local page).2 = next.
Proof.
  intros [S P] (N & -> & L & _) C. unfold OverviewBuildRows.
  pose proof (maxEventID_fold (map projected (between c next events)) (∅, ∅, 0)) as Mx.
  destruct (foldl _ _ _) as [[h d] m]. cbn [snd] in *. rewrite Mx, sorted_max.
  - exact L.
  - by apply sorted_projected, StronglySorted_filter.
  - apply Forall_map. rewrite Forall_forall. intros e [He _]%list_elem_of_filter. cbn. lia.
Qed.

Section Pages.
Context (fault : nat -> option string).

(** What applying a page may do: nothing, or aggregate the page. *)
Definition page_effect (name : CheckpointName) (c next : Z) (page : list UsageEvent)
    (t : AggTables) (r : result string unit) (t' : AggTables) : Prop :=
  match r with
  | Ok _ => 0 <= c /\ page_done name c next page t t'
  | Err _ => t' = t
  end.

Lemma page_effect_grows name c next page t r t' :
  page_of (agEvents t) c next page -> page_effect name c next page t r t' -> grows t t'.
Proof.
  intros P. destruct r as [u|e]; [|by intros ->; apply grows_refl].
  intros [_ D]. by eapply page_done_grows.
Qed.

(** The rows and the checkpoint in one transaction. *)
Lemma page_transaction (p : Sql AggTables (result string unit)) (g : AggTables -> AggTables)
    (P : AggTables -> Prop) name c next now :
  preserves p (fun t r t' => match r with Ok _ => t' = g t /\ P t | Err _ => True end) ->
  preserves (transaction fault (sql_try p (fun _ =>
      AdvanceUsageAggregationCheckpoint fault name c next now)))
    (fun t r t' => match r with Ok _ => moved name c next (g t) t' /\ P t | Err _ => t' = t end).
Proof.
  intros Hp. eapply preserves_weaken.
  - apply preserves_transaction. eapply preserves_try with (S := fun t r t' =>
      match r with Ok _ => moved name c next (g t) t' /\ P t | Err _ => True end).
    + exact Hp.
    + intros u. apply Advance_spec.
    + done.
    + intros t u t' [v|e] t''; [by intros [-> ?]|done].
  - intros t [u|e] t' R; exact R.
Qed.

Lemma overview_page_effect c next page now :
  preserves (ApplyUsageOverviewAggregationPage local fault c next
      (OverviewBuildRows local page).1.1 (OverviewBuildRows local page).1.2 now)
    (page_effect OverviewCheckpoint c next page).
Proof.
  unfold ApplyUsageOverviewAggregationPage. eapply preserves_weaken.
  - apply page_transaction with (g := fun t =>
      setDaily (foldl (upsertOverview (NormalizeStorageTime now)) (agDaily t) (OverviewBuildRows local page).1.2)
        (setHourly (foldl (upsertOverview (NormalizeStorageTime now)) (agHourly t) (OverviewBuildRows local page).1.1) t)).
    eapply preserves_weaken; [apply overviewApplyRows_spec|].
    instantiate (1 := fun _ => True). by intros t [u|e] t' H.
  - intros t [u|e] t' Mv; [|exact Mv]. destruct Mv as [Mv _]. destruct Mv as ([B0 B1] & C1 & C2 & C3 & E & F1 & F2 & F3 & F4).
    split; [done|]. split_and!; try done.
    + intros [| |] N; [done|by split; [apply C3|]..].
    + intros h [Hh Hd]. exists (NormalizeStorageTime now). split.
      * unfold hourly_of. rewrite foldl_app. fold (hourly_of h). rewrite <- Hh. exact F1.
      * unfold daily_of. rewrite foldl_app. fold (daily_of h). rewrite <- Hd. exact F2.
Qed.

Lemma activity_page_effect c next page rows now :
  buildActivity local activityText page (NormalizeStorageTime now) = Ok rows ->
  preserves (ApplyUsageActivityAggregationPage fault c next rows now)
    (page_effect ActivityCheckpoint c next page).
Proof.
  intros B. unfold ApplyUsageActivityAggregationPage. eapply preserves_weaken.
  - apply page_transaction with (g := fun t =>
      setActivity (foldl (upsertActivity (NormalizeStorageTime now)) (agActivity t) rows) t).
    eapply preserves_weaken; [apply activityApplyRows_spec|].
    instantiate (1 := fun _ => True). by intros t [u|e] t' H.
  - intros t [u|e] t' Mv; [|exact Mv]. destruct Mv as [Mv _]. destruct Mv as ([B0 B1] & C1 & C2 & C3 & E & F1 & F2 & F3 & F4).
    split; [done|]. split_and!; try done.
    + intros [| |] N; [by split; [apply C3|]|done|by split; [apply C3|]].
    + intros h Hh. exists (NormalizeStorageTime now). cbn [shows]. rewrite F3.
      by apply activity_page.
Qed.

Lemma PrepareRows_spec rows now :
  reads (PrepareRows local iter sketchText sampleText walkText agLatency fault rows now)
    (fun t r => match r with
       | Ok prepared => mergeChunk local iter sketchText sampleText walkText (ltRows (agLatency t))
                          (NormalizeStorageTime now) rows = Ok prepared
       | Err _ => True end).
Proof.
  eapply preserves_try.
  - apply preserves_ret.
  - intros u. apply prepareChunks_spec. done.
  - by intros t e t' [-> _].
  - intros t u t' b t'' [-> _] H. exact H.
Qed.

Lemma writeLatencyPage_spec c next prepared now :
  preserves (writeLatencyPage local walkText fault c next prepared now) (fun t r t' =>
    match r with
    | Ok _ => moved LatencyCheckpoint c next
                (setLatency (foldl writtenRow (agLatency t) prepared) t) t' /\
              found_rows (agLatency t) prepared
    | Err _ => t' = t end).
Proof.
  apply page_transaction with
    (g := fun t => setLatency (foldl writtenRow (agLatency t) prepared) t)
    (P := fun t => found_rows (agLatency t) prepared).
  apply writeRows_spec.
Qed.

(** Written rows that were merged with the table they are written to. *)
Lemma latency_moved c next page rows prepared now t t' :
  buildLatency local sketchKey iter sketchText sampleText page now = Ok rows ->
  mergeChunk local iter sketchText sampleText walkText (ltRows (agLatency t)) now rows = Ok prepared ->
  moved LatencyCheckpoint c next (setLatency (foldl writtenRow (agLatency t) prepared) t) t' ->
  0 <= c /\ page_done LatencyCheckpoint c next page t t'.
Proof.
  intros B M ([B0 B1] & C1 & C2 & C3 & E & F1 & F2 & F3 & F4). split; [done|]. split_and!; try done.
  - intros [| |] N; [by split; [apply C3|]|by split; [apply C3|]|done].
  - intros h Hh. exists now. cbn [shows]. rewrite F4.
    eapply latency_page; [exact Hh|exact B|]. by exists prepared.
Qed.

Lemma latency_page_effect c next page rows now :
  buildLatency local sketchKey iter sketchText sampleText page now = Ok rows ->
  preserves (ApplyUsageLatencyAggregationPage local iter sketchText sampleText walkText fault c next rows now)
    (page_effect LatencyCheckpoint c next page).
Proof.
  intros B. unfold ApplyUsageLatencyAggregationPage.
  eapply preserves_try with (Q := fun prepared t r t' =>
    match r with
    | Ok _ => moved LatencyCheckpoint c next
                (setLatency (foldl writtenRow (agLatency t) prepared) t) t'
    | Err _ => t' = t end).
  - apply PrepareRows_spec.
  - intros prepared. eapply preserves_weaken; [apply writeLatencyPage_spec|].
    intros t [u|e] t' H; [apply H|done].
  - by intros t e t' [-> _].
  - intros t prepared t' [u|e] t'' [-> M]; [|done]. by apply (latency_moved c next page rows prepared now).
Qed.

(** *** One batch *)

Definition target_of (t : AggTables) : Z := foldr Z.max 0 (map evID (agEvents t)).

(** The events the checkpoint does not cover. *)
Definition pending (t : AggTables) (name : CheckpointName) : list UsageEvent :=
  filter (fun e => cursor_of t name < evID e) (agEvents t).

(** The page a batch takes up. *)
Definition next_page (t : AggTables) (name : CheckpointName) : list UsageEvent :=
  map projected (take (Z.to_nat usageAggregationEventPageLimit) (pending t name)).

Lemma target_above t e : e ∈ agEvents t -> evID e <= target_of t.
Proof.
  unfold target_of. induction (agEvents t) as [|x l IH]; [by intros ?%elem_of_nil|].
  cbn [map foldr]. intros [->|H]%elem_of_cons; [lia|]. specialize (IH H). lia.
Qed.

Lemma pending_between t name : pending t name = between (cursor_of t name) (target_of t) (agEvents t).
Proof.
  unfold pending, between. pose proof (target_above t) as T.
  induction (agEvents t) as [|e l IH]; [done|]. rewrite !filter_cons, IH.
  2: { intros x Hx. apply T, elem_of_cons. by right. }
  assert (evID e <= target_of t) by (apply T, elem_of_cons; by left).
  destruct (decide (cursor_of t name < evID e)).
  - rewrite decide_True by lia. done.
  - rewrite decide_False by lia. done.
Qed.

Lemma next_page_of t name : events_ok (agEvents t) -> next_page t name <> [] ->
  page_of (agEvents t) (cursor_of t name) (last_id (next_page t name)) (next_page t name).
Proof.
  intros Ev N. eapply loaded_page; [done| |done]. unfold next_page.
  rewrite pending_between, firstn_map. done.
Qed.

(** A batch does nothing, or aggregates the next page. *)
Definition batch_effect (name : CheckpointName) (t : AggTables) (r : result string Z)
    (t' : AggTables) : Prop :=
  let page := next_page t name in
  match r with
  | Err _ => t' = t
  | Ok n => n = Z.of_nat (length page) /\
      (page = [] /\ t' = t \/
       page <> [] /\ page_done name (cursor_of t name) (last_id page) page t t')
  end.

Definition snapshot_of (t : AggTables) : UsageAggregationCheckpointSnapshot :=
  mkSnapshot (cursor_of t OverviewCheckpoint) (cursor_of t ActivityCheckpoint)
    (cursor_of t LatencyCheckpoint).

Lemma LoadTarget_spec : reads (LoadUsageAggregationTargetEventID fault) (fun t r =>
  match r with Ok target => target = target_of t | Err _ => True end).
Proof.
  apply preserves_wrap with (R := fun t r t' => t' = t /\
    match r with Ok target => target = target_of t | Err _ => True end); [apply preserves_query|].
  by intros t e e' t' [-> _].
Qed.

Lemma LoadSnapshot_spec : reads (LoadUsageAggregationCheckpointSnapshot fault) (fun t r =>
  match r with Ok s => s = snapshot_of t | Err _ => True end).
Proof.
  apply preserves_wrap with (R := fun t r t' => t' = t /\
    match r with Ok s => s = snapshot_of t | Err _ => True end); [apply preserves_query|].
  by intros t e e' t' [-> _].
Qed.

Lemma pending_none t name : target_of t <= cursor_of t name -> pending t name = [].
Proof.
  intros L. apply filter_rejects, Forall_forall. intros e He. pose proof (target_above t e He). lia.
Qed.

Lemma LoadPage_spec name c target :
  reads (LoadUsageAggregationEventPage fault c target usageAggregationEventPageLimit) (fun t r =>
    match r with
    | Ok page => c = cursor_of t name -> target = target_of t -> page = next_page t name
    | Err _ => True end).
Proof.
  unfold LoadUsageAggregationEventPage. destruct (Z.leb_spec target c) as [L|L].
  { eapply preserves_weaken; [apply preserves_ret|]. intros t r t' [-> ->]. split; [done|].
    intros -> ->. unfold next_page. by rewrite pending_none. }
  destruct (_ || _); [by intros d|].
  replace (usageAggregationEventPageLimit <=? 0) with false by done.
  rewrite (Z.ltb_irrefl usageAggregationEventPageLimit).
  apply preserves_wrap with (R := fun t r t' => t' = t /\
    match r with
    | Ok page => c = cursor_of t name -> target = target_of t -> page = next_page t name
    | Err _ => True end).
  - eapply preserves_weaken; [apply preserves_query|]. intros t [page|e] t' [-> H]; [|done].
    split; [done|]. intros -> ->. rewrite H. unfold next_page.
    rewrite pending_between, firstn_map. done.
  - by intros t e e' t' [-> _].
Qed.

(** The three loads that begin every batch. *)
Lemma batch_prefix name (cur : UsageAggregationCheckpointSnapshot -> Z)
    (k : UsageAggregationCheckpointSnapshot -> list UsageEvent -> Sql AggTables (result string Z)) :
  (forall t, cur (snapshot_of t) = cursor_of t name) ->
  (forall s page, preserves (k s page) (fun t r t' =>
     events_ok (agEvents t) -> cur s = cursor_of t name -> page = next_page t name ->
     batch_effect name t r t')) ->
  preserves (try$ targetEventID := LoadUsageAggregationTargetEventID fault in
     try$ snapshot := LoadUsageAggregationCheckpointSnapshot fault in
     try$ events := LoadUsageAggregationEventPage fault (cur snapshot) targetEventID
                      usageAggregationEventPageLimit in
     k snapshot events)%sql (fun t r t' => events_ok (agEvents t) -> batch_effect name t r t').
Proof.
  intros Cur K.
  eapply preserves_try with (Q := fun target t r t' =>
    events_ok (agEvents t) -> target = target_of t -> batch_effect name t r t').
  - apply LoadTarget_spec.
  - intros target. eapply preserves_try with
      (Q := fun s t r t' => events_ok (agEvents t) ->
        target = target_of t -> s = snapshot_of t -> batch_effect name t r t').
    + apply LoadSnapshot_spec.
    + intros s. eapply preserves_try with (Q := fun page t r t' =>
        events_ok (agEvents t) -> cur s = cursor_of t name -> page = next_page t name ->
        batch_effect name t r t').
      * apply (LoadPage_spec name).
      * intros page. apply K.
      * intros t e t' [-> _] _ _ _. reflexivity.
      * intros t page t' r t'' [-> H] B Ev -> ->. apply B; [done|apply Cur|by apply H].
    + intros t e t' [-> _] _ _. reflexivity.
    + intros t s t' r t'' [-> ->] B Ev T. by apply B.
  - by intros t e t' [-> _].
  - intros t target t' r t'' [-> ->] B Ev. by apply B.
Qed.

(** A page that is applied, and the count that is returned. *)
Lemma batch_apply name c next page (p : Sql AggTables (result string unit)) :
  page <> [] -> preserves p (page_effect name c next page) ->
  preserves (try$ _ := p in sql_ret (Ok (Z.of_nat (length page))))%sql (fun t r t' =>
    c = cursor_of t name -> page = next_page t name -> (0 <= c -> next = last_id page) ->
    batch_effect name t r t').
Proof.
  intros N P. eapply preserves_try with (Q := fun _ t r t' => t' = t /\ r = Ok (Z.of_nat (length page))).
  - exact P.
  - intros u. apply preserves_ret.
  - intros t e t' -> _ _ _. reflexivity.
  - intros t u t' r t'' [C D] [-> ->] -> E L. unfold batch_effect. rewrite <- E. rewrite (L C) in D.
    split; [done|]. right. done.
Qed.

Lemma batch_empty name : preserves (sql_ret (Ok 0)) (fun t (r : result string Z) t' =>
  [] = next_page t name -> batch_effect name t r t').
Proof.
  intros d E. unfold batch_effect. rewrite <- E. cbn. split; [done|]. by left.
Qed.

Lemma overview_batch_effect now :
  preserves (AggregateUsageOverviewStatsBatch local fault now) (fun t r t' =>
    events_ok (agEvents t) -> batch_effect OverviewCheckpoint t r t').
Proof.
  apply batch_prefix; [done|]. intros s [|e page].
  { eapply preserves_weaken; [apply (batch_empty OverviewCheckpoint)|]. auto. }
  set (events := e :: page). destruct (OverviewBuildRows local events) as [[hourly daily] mx] eqn:B.
  eapply preserves_weaken.
  - apply (batch_apply OverviewCheckpoint (OverviewCursor s) mx events); [done|].
    pose proof (overview_page_effect (OverviewCursor s) mx events (NormalizeStorageTime now)) as H.
    rewrite B in H. exact H.
  - intros t r t' H Ev C E. apply H; [done|done|]. intros C0.
    assert (P : page_of (agEvents t) (OverviewCursor s) (last_id events) events).
    { rewrite C, E. apply next_page_of; [done|]. by rewrite <- E. }
    pose proof (overview_next _ _ _ _ Ev P C0) as Mx. by rewrite B in Mx.
Qed.

Lemma activity_batch_effect now :
  preserves (AggregateUsageActivityStatsBatch local activityText fault now) (fun t r t' =>
    events_ok (agEvents t) -> batch_effect ActivityCheckpoint t r t').
Proof.
  apply batch_prefix; [done|]. intros s [|e page].
  { eapply preserves_weaken; [apply (batch_empty ActivityCheckpoint)|]. auto. }
  set (events := e :: page).
  destruct (buildActivity local activityText events (NormalizeStorageTime now)) as [rows|err] eqn:B;
    [|by intros d].
  eapply preserves_weaken.
  - apply (batch_apply ActivityCheckpoint (ActivityCursor s) (last_id events) events); [done|].
    by apply activity_page_effect.
  - intros t r t' H Ev C E. by apply H.
Qed.

Lemma latency_batch_effect now :
  preserves (AggregateUsageLatencyStatsBatch local sketchKey iter sketchText sampleText walkText fault now)
    (fun t r t' => events_ok (agEvents t) -> batch_effect LatencyCheckpoint t r t').
Proof.
  apply batch_prefix; [done|]. intros s [|e page].
  { eapply preserves_weaken; [apply (batch_empty LatencyCheckpoint)|]. auto. }
  set (events := e :: page).
  destruct (buildLatency local sketchKey iter sketchText sampleText events now) as [rows|err] eqn:B;
    [|by intros d].
  eapply preserves_weaken.
  - apply (batch_apply LatencyCheckpoint (LatencyCursor s) (last_id events) events); [done|].
    by apply latency_page_effect.
  - intros t r t' H Ev C E. by apply H.
Qed.

End Pages.

End Facts.
