(* ===== verification/AggregationRuns.v ===== *)
(** The rollups under every interleaving of loads, applications and cleanups. *)
From S2P Require Import Prelude GoStrings GoTime Timeutil Entities ActivityGrain Uvarint Sketch SampleSet Sql Overview LatencyRows Aggregation AggregationFacts.
From stdpp Require Import sorting.

Local Open Scope string_scope.
Local Open Scope list_scope.
Local Open Scope Z_scope.

Section Runs.
Context (local : Location) (sketchKey : Z -> Z) (iter : SampleSet -> list SamplePoint).
Context (sketchText : SketchError -> string) (sampleText : SampleError -> string)
  (walkText : WalkError -> string) (activityText : ActivityError -> string).

Abbreviation agg_ok' := (agg_ok local sketchKey iter sketchText sampleText walkText activityText).

(** *** The latency table *)

(** Rows stand at their own key and have keys of their own. *)
Definition latency_table_ok (tbl : LatencyTable) : Prop :=
  0 < ltNextID tbl /\
  (forall k r, ltRows tbl !! k = Some r ->
     latencyRowKey local r = k /\ 0 < lsID r < ltNextID tbl) /\
  (forall k1 k2 r1 r2, ltRows tbl !! k1 = Some r1 -> ltRows tbl !! k2 = Some r2 ->
     lsID r1 = lsID r2 -> k1 = k2).

Lemma latency_table_empty : latency_table_ok (mkLatencyTable ∅ 1).
Proof. split_and!; [done|..]; cbn; intros *; by rewrite lookup_empty. Qed.

Lemma latency_table_sub tbl tbl' : ltRows tbl' ⊆ ltRows tbl -> ltNextID tbl' = ltNextID tbl ->
  latency_table_ok tbl -> latency_table_ok tbl'.
Proof.
  intros Sub N (P & K & U). rewrite <- N in *. split_and!; [done|..].
  - intros k r L. apply K. by eapply lookup_weaken.
  - intros k1 k2 r1 r2 L1 L2. eapply U; by eapply lookup_weaken.
Qed.

(** The rows of the table after one update, by key. *)
Lemma updated_lookup row tbl k r :
  ltRows (updateLatencyRow id (fun x _ => x) row tbl).1 !! k = Some r ->
  exists r0, ltRows tbl !! k = Some r0 /\ lsID r = lsID r0 /\
    latencyRowKey local r = latencyRowKey local r0.
Proof.
  cbn. rewrite lookup_union_Some_raw, lookup_fmap. intros [H|[_ H]]; [|by exists r].
  apply fmap_Some in H as (r0 & F & ->). apply map_lookup_filter_Some in F as [F _].
  by exists r0.
Qed.

Lemma written_lookup tbl row k r : ltRows (writtenRow local tbl row) !! k = Some r ->
  (exists r0, ltRows tbl !! k = Some r0 /\ lsID r = lsID r0 /\
     latencyRowKey local r = latencyRowKey local r0) \/
  (lsID r = ltNextID tbl /\ latencyRowKey local r = k /\ k = latencyRowKey local row /\
   ltNextID (writtenRow local tbl row) = ltNextID tbl + 1).
Proof.
  destruct (0 <? lsID row) eqn:Id.
  - rewrite (written_update _ _ _ Id). intros L%updated_lookup. by left.
  - rewrite (written_insert _ _ _ Id). unfold insertLatencyRow, id.
    destruct (ltRows tbl !! latencyRowKey local row); cbn; [intros L; left; by exists r|].
    destruct (decide (k = latencyRowKey local row)) as [->|N].
    + rewrite lookup_insert_eq. intros [= <-]. by right.
    + rewrite lookup_insert_ne by done. intros L. left. by exists r.
Qed.

Lemma written_next tbl row : ltNextID tbl <= ltNextID (writtenRow local tbl row).
Proof.
  unfold writtenRow. destruct (0 <? lsID row); cbn; [lia|]. unfold insertLatencyRow, id.
  destruct (_ !! _); cbn; lia.
Qed.

Lemma written_ok tbl row : latency_table_ok tbl -> latency_table_ok (writtenRow local tbl row).
Proof.
  intros (P & K & U). pose proof (written_next tbl row) as N. split_and!; [lia|..].
  - intros k r L. apply written_lookup in L as [(r0 & L & I & E)|(I & E & _ & N')].
    + destruct (K k r0 L) as [E0 B]. split; [by rewrite E|lia].
    + split; [done|lia].
  - intros k1 k2 r1 r2 L1 L2 Same.
    apply written_lookup in L1 as [(s1 & L1 & I1 & _)|(I1 & _ & E1 & _)];
      apply written_lookup in L2 as [(s2 & L2 & I2 & _)|(I2 & _ & E2 & _)].
    + apply (U k1 k2 s1 s2); [done|done|lia].
    + destruct (K k1 s1 L1). lia.
    + destruct (K k2 s2 L2). lia.
    + congruence.
Qed.

Lemma written_rows_ok tbl rows : latency_table_ok tbl ->
  latency_table_ok (foldl (writtenRow local) tbl rows).
Proof. revert tbl. induction rows as [|row rows IH]; intros tbl H; [done|]. by apply IH, written_ok. Qed.

(** *** Rows prepared from an older table *)

(** [cur] is [tbl2] after some writes: every row is one of [tbl2], by its key and
    where it stands, or newer than all of them. *)
Definition evolved (tbl2 cur : LatencyTable) : Prop :=
  ltNextID tbl2 <= ltNextID cur /\
  forall k r, ltRows cur !! k = Some r ->
    (exists r2, ltRows tbl2 !! k = Some r2 /\ lsID r = lsID r2) \/ ltNextID tbl2 <= lsID r.

Lemma evolved_refl tbl : evolved tbl tbl.
Proof. split; [done|]. intros k r L. left. by exists r. Qed.

Lemma evolved_written tbl2 cur row : evolved tbl2 cur -> evolved tbl2 (writtenRow local cur row).
Proof.
  intros [N E]. pose proof (written_next cur row). split; [lia|]. intros k r L.
  apply written_lookup in L as [(r0 & L & I & _)|(I & _)]; [|right; lia].
  rewrite I. by apply E.
Qed.

Lemma merged_id ex row now p :
  wrapText "merge latency row: "
    (mergeLatencyRows iter sketchText sampleText walkText (Some ex) row now) = Ok p ->
  lsID p = lsID ex.
Proof.
  unfold mergeLatencyRows.
  repeat match goal with
    | |- wrapText _ (let? _ := ?m in _) = _ -> _ => destruct m as [?|?]; cbn [result_bind wrapText]; [|done]
    | |- wrapText _ (if ?b then _ else _) = _ -> _ => destruct b; cbn [wrapText]; [done|]
    end.
  by intros [= <-].
Qed.

(** When every prepared row is still found, the older table gave what the newer
    one gives. *)
Lemma prepared_still_good tbl1 tbl2 cur now rows prepared :
  latency_table_ok tbl1 -> ltRows tbl2 ⊆ ltRows tbl1 -> ltNextID tbl2 = ltNextID tbl1 ->
  evolved tbl2 cur ->
  mergeChunk local iter sketchText sampleText walkText (ltRows tbl1) now rows = Ok prepared ->
  found_rows local cur prepared ->
  mergeChunk local iter sketchText sampleText walkText (ltRows tbl2) now rows = Ok prepared.
Proof.
  intros (_ & K & U) Sub N. revert cur prepared.
  induction rows as [|row rows IH]; intros cur prepared Ev; cbn [mergeChunk]; [done|].
  destruct (wrapText _ (mergeLatencyRows _ _ _ _ (ltRows tbl1 !! _) row now)) as [p|e] eqn:M;
    cbn [result_bind]; [|done].
  destruct (mergeChunk _ _ _ _ _ (ltRows tbl1) now rows) as [ps|e] eqn:Ms; cbn [result_bind]; [|done].
  intros [= <-] [F Fs]. rewrite (IH (writtenRow local cur p) ps); [|by apply evolved_written|done|done].
  replace (ltRows tbl2 !! latencyRowKey local row) with (ltRows tbl1 !! latencyRowKey local row);
    [by rewrite M|].
  destruct (ltRows tbl1 !! latencyRowKey local row) as [ex|] eqn:L1.
  - assert (Id : lsID p = lsID ex).
    { by eapply merged_id. }
    destruct (K _ _ L1) as [_ B]. destruct F as (k & r & Lk & Ir); [lia|].
    destruct Ev as [_ Ev]. destruct (Ev k r Lk) as [(r2 & L2 & I2)|G]; [|lia].
    assert (k = latencyRowKey local row) as ->.
    { apply (U _ _ r2 ex); [by eapply lookup_weaken|done|lia]. }
    pose proof (lookup_weaken _ _ _ _ L2 Sub). congruence.
  - symmetry. by eapply lookup_weaken_None.
Qed.

(** *** Runs *)

Definition agg_empty : AggTables :=
  mkAggTables [] (fun _ => None) ∅ ∅ ∅ (mkLatencyTable ∅ 1).

Definition insertEvents (events : list UsageEvent) (t : AggTables) : AggTables :=
  mkAggTables (agEvents t ++ events) (agCheckpoints t) (agHourly t) (agDaily t)
    (agActivity t) (agLatency t).

(** [agg_run t0 t]: what can happen between [t0] and [t].  A page is loaded at
    one moment and applied at a later one, with anything in between: new events,
    the same or other pages applied by someone else, cleanups.  The stored latency
    rows are read at a moment between the two.  Every statement may fail. *)
Inductive agg_run : AggTables -> AggTables -> Prop :=
| run_none t : agg_run t t
| run_insert t0 t events :
    agg_run t0 t -> events_ok (agEvents t ++ events) -> agg_run t0 (insertEvents events t)
| run_overview t0 load fault d fault' c target limit page now :
    agg_run t0 (dbTables load) -> agg_run (dbTables load) (dbTables d) ->
    (LoadUsageAggregationEventPage fault' c target limit load).2 = Ok page -> page <> [] ->
    agg_run t0 (dbTables (
      let '(hourly, daily, maxEventID) := OverviewBuildRows local page in
      ApplyUsageOverviewAggregationPage local fault c maxEventID hourly daily now d).1)
| run_activity t0 load fault d fault' c target limit page now rows :
    agg_run t0 (dbTables load) -> agg_run (dbTables load) (dbTables d) ->
    (LoadUsageAggregationEventPage fault' c target limit load).2 = Ok page -> page <> [] ->
    buildActivity local activityText page (NormalizeStorageTime now) = Ok rows ->
    agg_run t0 (dbTables (ApplyUsageActivityAggregationPage fault c (last_id page) rows now d).1)
| run_latency t0 snap load read d fault fault1 fault2 fault3 s target limit page now rows prepared :
    agg_run t0 (dbTables snap) -> agg_run (dbTables snap) (dbTables load) ->
    agg_run (dbTables load) (dbTables read) -> agg_run (dbTables read) (dbTables d) ->
    (LoadUsageAggregationCheckpointSnapshot fault1 snap).2 = Ok s ->
    (LoadUsageAggregationEventPage fault2 (LatencyCursor s) target limit load).2 = Ok page ->
    page <> [] ->
    buildLatency local sketchKey iter sketchText sampleText page now = Ok rows ->
    (PrepareRows local iter sketchText sampleText walkText agLatency fault3 rows
       (NormalizeStorageTime now) read).2 = Ok prepared ->
    agg_run t0 (dbTables (writeLatencyPage local walkText fault (LatencyCursor s) (last_id page) prepared
                            (NormalizeStorageTime now) d).1)
| run_activity_cleanup t0 fault now d :
    agg_run t0 (dbTables d) -> agg_run t0 (dbTables (CleanupUsageActivityStats fault now d).1)
| run_latency_cleanup t0 fault now d :
    agg_run t0 (dbTables d) -> agg_run t0 (dbTables (CleanupUsageLatencyStats local fault now d).1).

(** *** What a run keeps *)

Definition tables_ok (t : AggTables) : Prop :=
  agg_ok local sketchKey iter sketchText sampleText walkText activityText t /\
  latency_table_ok (agLatency t).

Definition latency_sub (tbl tbl' : LatencyTable) : Prop :=
  ltRows tbl' ⊆ ltRows tbl /\ ltNextID tbl' = ltNextID tbl.

(** Events come behind the others, checkpoints move forward, and as long as the
    latency checkpoint stands still the latency table only loses rows. *)
Definition onward (t t' : AggTables) : Prop :=
  (exists more, agEvents t' = agEvents t ++ more) /\
  (forall name, cursor_of t name <= cursor_of t' name) /\
  (cursor_of t' LatencyCheckpoint = cursor_of t LatencyCheckpoint ->
   latency_sub (agLatency t) (agLatency t')).

#[local] Instance latency_sub_preorder : PreOrder latency_sub.
Proof.
  split; [by split|]. intros a b c [S1 N1] [S2 N2]. split; [by transitivity (ltRows b)|congruence].
Qed.

#[local] Instance onward_preorder : PreOrder onward.
Proof.
  split.
  - intros t. split; [exists []; by rewrite app_nil_r|]. split; [done|]. intros _. reflexivity.
  - intros t1 t2 t3 ([m1 E1] & C1 & L1) ([m2 E2] & C2 & L2). split; [|split].
    + exists (m1 ++ m2). rewrite E2, E1. by rewrite <- app_assoc.
    + intros n. specialize (C1 n). specialize (C2 n). lia.
    + intros E. specialize (C1 LatencyCheckpoint). specialize (C2 LatencyCheckpoint).
      transitivity (agLatency t2); [apply L1|apply L2]; lia.
Qed.

Definition keeps (t t' : AggTables) : Prop := tables_ok t -> tables_ok t' /\ onward t t'.

#[local] Instance keeps_preorder : PreOrder keeps.
Proof.
  split; [by intros t H|]. intros t1 t2 t3 K1 K2 H1. destruct (K1 H1) as [H2 O1].
  destruct (K2 H2) as [H3 O2]. split; [done|]. by transitivity t2.
Qed.

(** A page that was loaded. *)
Lemma loaded fault c target limit load page : events_ok (agEvents (dbTables load)) ->
  (LoadUsageAggregationEventPage fault c target limit load).2 = Ok page -> page <> [] ->
  page_of (agEvents (dbTables load)) c (last_id page) page.
Proof.
  intros Ev. unfold LoadUsageAggregationEventPage.
  destruct (_ <=? _); [by intros [= <-]|]. destruct (_ || _); [done|]. destruct (_ <=? 0); [done|].
  set (k := Z.to_nat _). intros H N.
  pose proof (preserves_query fault (fun t : AggTables => take k (map projected
     (filter (fun e => c < evID e <= target) (agEvents t)))) load) as [_ Q].
  unfold wrap in H. destruct (query _ _ load) as [d [a|e]]; cbn [fst snd] in *; [|done].
  injection H as ->. by eapply loaded_page.
Qed.

(** Applying a page that was loaded earlier. *)
Lemma keeps_page name c page t0 t t' r :
  onward t0 t -> page_of (agEvents t0) c (last_id page) page ->
  page_effect local sketchKey iter sketchText sampleText walkText activityText
    name c (last_id page) page t r t' ->
  (latency_table_ok (agLatency t) -> latency_table_ok (agLatency t')) ->
  keeps t t'.
Proof.
  intros ([more E] & _) P Eff Lat [A L].
  assert (P' : page_of (agEvents t) c (last_id page) page).
  { rewrite E. apply page_of_app; [|done]. rewrite <- E. apply A. }
  destruct (page_effect_grows _ _ _ _ _ _ _ _ _ _ _ _ _ _ P' Eff A) as (A' & E' & C').
  split; [split; [done|by apply Lat]|]. split; [exists []; by rewrite app_nil_r|]. split; [done|].
  intros Same. destruct r as [u|e]; [|rewrite Eff; reflexivity].
  destruct Eff as [_ (_ & C1 & C2 & Oth & _)].
  destruct (decide (name = LatencyCheckpoint)) as [->|N].
  - destruct P as (_ & _ & _ & Lt & _). lia.
  - destruct (Oth LatencyCheckpoint) as [_ S]; [done|]. rewrite S. reflexivity.
Qed.

Lemma keeps_insert t events : events_ok (agEvents t ++ events) -> keeps t (insertEvents events t).
Proof.
  intros Ev [[[S P] Ok'] L]. split; [|split; [by exists events|split; [done|reflexivity]]].
  split; [|done]. split; [done|]. intros name. destruct (Ok' name) as (C & h & Hs & Sh).
  assert (Above : Forall (fun e => cursor_of t name < evID e) events).
  { destruct Ev as [S' P']. apply Forall_app in P' as [_ P']. destruct C as [->|(e & He & <-)]; [done|].
    apply Forall_forall. intros x Hx. change (by_id e x).
    eapply StronglySorted_app_1_elem_of; [exact S'|done|done]. }
  split.
  - destruct C as [C|(e & He & C)]; [by left|]. right. exists e. split; [|done].
    apply elem_of_app. by left.
  - exists h. split; [|by destruct name]. rewrite Hs. unfold aggregated.
    change (cursor_of (insertEvents events t) name) with (cursor_of t name).
    cbn [insertEvents agEvents]. by rewrite covered_app.
Qed.

(** *** Cleanups *)

Definition activity_cleaned (t t' : AggTables) : Prop :=
  exists tbl, t' = setActivity tbl t /\ tbl ⊆ agActivity t /\
    forall k r, agActivity t !! k = Some r -> asGrain r = UsageActivityGrainDaily -> tbl !! k = Some r.

Definition latency_cleaned (t t' : AggTables) : Prop :=
  exists tbl, t' = setLatency tbl t /\ latency_sub (agLatency t) tbl.

#[local] Instance activity_cleaned_preorder : PreOrder activity_cleaned.
Proof.
  split; [intros t; exists (agActivity t); by destruct t|].
  intros t1 t2 t3 (b1 & -> & S1 & D1) (b2 & -> & S2 & D2). exists b2. split; [done|].
  cbn [setActivity agActivity] in *. split; [by transitivity b1|]. intros k r L G. by apply D2; [apply D1|].
Qed.

#[local] Instance latency_cleaned_preorder : PreOrder latency_cleaned.
Proof.
  split; [intros t; exists (agLatency t); by destruct t|].
  intros t1 t2 t3 (b1 & -> & S1) (b2 & -> & S2). exists b2. split; [done|].
  cbn [setLatency agLatency] in *. by transitivity b1.
Qed.

Lemma CleanupUsageActivityStats_spec fault now :
  preserves (CleanupUsageActivityStats fault now) (fun t _ t' => activity_cleaned t t').
Proof.
  assert (H : forall grain, grain <> UsageActivityGrainDaily ->
    preserves (cleanupActivityGrain fault now grain) (fun t _ t' => activity_cleaned t t')).
  { intros grain N. unfold cleanupActivityGrain. destruct (Retention grain) as [r|]; [|by intros d].
    apply preserves_wrap; [|done]. eapply preserves_weaken; [apply preserves_statement|].
    intros t [u|e] t'; [|by intros ->]. intros [= -> ->]. eexists. split; [done|]. split.
    - apply map_filter_subseteq.
    - intros k s L G. apply map_lookup_filter_Some. split; [done|]. cbn. rewrite G. intros [E _].
      by destruct N. }
  unfold CleanupUsageActivityStats. cbn [for_each].
  repeat (eapply preserves_try;
    [apply H; discriminate|intros ?| |intros t u t' r t'' ? Q; transitivity t'; [eassumption|exact Q]];
    [|done]).
  by intros d.
Qed.

Lemma CleanupUsageLatencyStats_spec fault now :
  preserves (CleanupUsageLatencyStats local fault now) (fun t _ t' => latency_cleaned t t').
Proof.
  apply preserves_each; [apply _|]. intros bucketType. unfold cleanupLatencyType.
  eapply preserves_try; [apply preserves_ret|..].
  - intros cutoff. apply preserves_wrap with (R := fun t (_ : result string unit) t' => latency_cleaned t t');
      [|done].
    eapply preserves_weaken; [apply preserves_statement|].
    intros t [u|e] t'; [|by intros ->]. intros [= -> ->]. eexists. split; [done|]. split; [|done].
    apply map_filter_subseteq.
  - by intros t e t' [-> _].
  - by intros t u t' r t'' [-> _].
Qed.

(** A change of one table that adds nothing to what its rollup shows. *)
Lemma keeps_same (t t' : AggTables) :
  agEvents t' = agEvents t -> (forall n, cursor_of t' n = cursor_of t n) ->
  latency_sub (agLatency t) (agLatency t') ->
  (forall h n, shows local sketchKey iter sketchText sampleText walkText activityText h n t ->
               shows local sketchKey iter sketchText sampleText walkText activityText h n t') ->
  keeps t t'.
Proof.
  intros E C [S N] Sh [[Ev Ok'] L]. split.
  - split; [|by eapply latency_table_sub]. split; [by rewrite E|]. intros name.
    destruct (Ok' name) as (O & h & Hs & Hh). split; [by eapply cursor_ok_same|].
    exists h. rewrite (aggregated_same name t t') by done. auto.
  - split; [exists []; by rewrite app_nil_r|]. split; [|done]. intros n. by rewrite C.
Qed.

Lemma activity_cleaned_keeps t t' : activity_cleaned t t' -> keeps t t'.
Proof.
  intros (tbl & -> & S & D). apply keeps_same; [done|done|reflexivity|].
  intros h [| |] Sh; [done| |done]. by eapply activity_cleanup.
Qed.

Lemma latency_cleaned_keeps t t' : latency_cleaned t t' -> keeps t t'.
Proof.
  intros (tbl & -> & S & D). apply keeps_same; [done|done|done|].
  intros h [| |] Sh; [done|done|]. by eapply latency_cleanup.
Qed.

(** *** Pages of a run *)

Lemma overview_page_keeps fault c page now t0 d :
  onward t0 (dbTables d) -> events_ok (agEvents t0) -> page_of (agEvents t0) c (last_id page) page ->
  keeps (dbTables d) (dbTables (
    let '(hourly, daily, maxEventID) := OverviewBuildRows local page in
    ApplyUsageOverviewAggregationPage local fault c maxEventID hourly daily now d).1).
Proof.
  intros O Ev P. destruct (OverviewBuildRows local page) as [[hourly daily] mx] eqn:B.
  pose proof (overview_page_effect local sketchKey iter sketchText sampleText walkText activityText
    fault c mx page now d) as E. rewrite B in E. cbn [fst snd] in E.
  destruct (ApplyUsageOverviewAggregationPage _ _ _ _ _ _ _ d) as [d' r].
  eapply keeps_page with (name := OverviewCheckpoint) (r := r); [exact O|exact P| |].
  - destruct r as [u|e]; [|exact E]. cbn [fst snd] in *. destruct E as [C0 D].
    pose proof (overview_next local _ _ _ _ Ev P C0) as Mx. rewrite B in Mx. cbn in Mx. by subst mx.
  - destruct r as [u|e]; cbn [fst snd] in *.
    + destruct E as [_ (_ & _ & _ & Oth & _)]. destruct (Oth LatencyCheckpoint) as [_ ->]; done.
    + by rewrite E.
Qed.

Lemma activity_page_keeps fault c page rows now t0 d :
  onward t0 (dbTables d) -> page_of (agEvents t0) c (last_id page) page ->
  buildActivity local activityText page (NormalizeStorageTime now) = Ok rows ->
  keeps (dbTables d) (dbTables (ApplyUsageActivityAggregationPage fault c (last_id page) rows now d).1).
Proof.
  intros O P B.
  pose proof (activity_page_effect local sketchKey iter sketchText sampleText walkText activityText
    fault c (last_id page) page rows now B d) as E.
  eapply keeps_page; [exact O|exact P|exact E|].
  destruct (ApplyUsageActivityAggregationPage _ _ _ _ _ d) as [d' [u|e]]; cbn [fst snd] in *.
  - destruct E as [_ (_ & _ & _ & Oth & _)]. destruct (Oth LatencyCheckpoint) as [_ ->]; done.
  - by rewrite E.
Qed.

Lemma latency_page_keeps fault fault' c page rows prepared now read d t0 :
  tables_ok (dbTables read) -> onward t0 (dbTables d) -> onward (dbTables read) (dbTables d) ->
  c <= cursor_of (dbTables read) LatencyCheckpoint ->
  page_of (agEvents t0) c (last_id page) page ->
  buildLatency local sketchKey iter sketchText sampleText page now = Ok rows ->
  (PrepareRows local iter sketchText sampleText walkText agLatency fault' rows
     (NormalizeStorageTime now) read).2 = Ok prepared ->
  keeps (dbTables d) (dbTables (writeLatencyPage local walkText fault c (last_id page) prepared
                                  (NormalizeStorageTime now) d).1).
Proof.
  intros [_ L1] O Or Cr P B Pr.
  pose proof (PrepareRows_spec local iter sketchText sampleText walkText fault' rows
    (NormalizeStorageTime now) read) as [_ M]. rewrite Pr in M.
  pose proof (writeLatencyPage_spec local walkText fault c (last_id page) prepared
    (NormalizeStorageTime now) d) as W.
  destruct (writeLatencyPage _ _ _ _ _ _ _ d) as [d' [u|e]]; cbn [fst snd] in *; [|by rewrite W].
  destruct W as [Mv Fd].
  destruct Or as (_ & Cm & Lsub).
  assert (Same : cursor_of (dbTables d) LatencyCheckpoint = cursor_of (dbTables read) LatencyCheckpoint).
  { destruct Mv as (_ & C1 & _). specialize (Cm LatencyCheckpoint).
    change (cursor_of (dbTables d) LatencyCheckpoint = c) in C1. lia. }
  destruct (Lsub Same) as [S N].
  pose proof (prepared_still_good _ _ (agLatency (dbTables d)) _ _ _ L1 S N
    (evolved_refl _) M Fd) as M2.
  pose proof (latency_moved local sketchKey iter sketchText sampleText walkText activityText
    c (last_id page) page rows prepared now _ _ B M2 Mv) as E.
  eapply keeps_page with (r := Ok u); [exact O|exact P|exact E|].
  intros Lok. destruct Mv as (_ & _ & _ & _ & _ & _ & _ & _ & ->). by apply written_rows_ok.
Qed.

Lemma run_keeps t0 t : agg_run t0 t -> keeps t0 t.
Proof.
  induction 1 as [t|t0 t events _ IH Ev
    |t0 load fault d fault' c target limit page now _ IH1 _ IH2 Ld N
    |t0 load fault d fault' c target limit page now rows _ IH1 _ IH2 Ld N B
    |t0 snap load read d fault fault1 fault2 fault3 s target limit page now rows prepared
       _ IH0 _ IH1 _ IH2 _ IH3 Sn Ld N B Pr
    |t0 fault now d _ IH|t0 fault now d _ IH].
  - reflexivity.
  - transitivity t; [done|by apply keeps_insert].
  - intros H0. destruct (IH1 H0) as [H1 O1]. destruct (IH2 H1) as [H2 O2].
    assert (K := overview_page_keeps fault c page now _ _ O2 (proj1 (proj1 H1))
      (loaded _ _ _ _ _ _ (proj1 (proj1 H1)) Ld N)).
    destruct (K H2) as [H3 O3]. split; [done|]. transitivity (dbTables load); [done|].
    by transitivity (dbTables d).
  - intros H0. destruct (IH1 H0) as [H1 O1]. destruct (IH2 H1) as [H2 O2].
    assert (K := activity_page_keeps fault c page rows now _ _ O2
      (loaded _ _ _ _ _ _ (proj1 (proj1 H1)) Ld N) B).
    destruct (K H2) as [H3 O3]. split; [done|]. transitivity (dbTables load); [done|].
    by transitivity (dbTables d).
  - intros H. destruct (IH0 H) as [H0 O0]. destruct (IH1 H0) as [H1 O1].
    destruct (IH2 H1) as [H2 O2]. destruct (IH3 H2) as [H3 O3].
    pose proof (LoadSnapshot_spec fault1 snap) as [_ Sp]. rewrite Sn in Sp. subst s.
    cbn [snapshot_of LatencyCursor] in *.
    assert (O13 : onward (dbTables load) (dbTables d)) by by transitivity (dbTables read).
    assert (C : cursor_of (dbTables snap) LatencyCheckpoint <= cursor_of (dbTables read) LatencyCheckpoint).
    { destruct O1 as (_ & C1 & _), O2 as (_ & C2 & _). specialize (C1 LatencyCheckpoint).
      specialize (C2 LatencyCheckpoint). lia. }
    assert (K := latency_page_keeps fault fault3 _ page rows prepared now _ _ _ H2 O13 O3 C
      (loaded _ _ _ _ _ _ (proj1 (proj1 H1)) Ld N) B Pr).
    destruct (K H3) as [H4 O4]. split; [done|]. transitivity (dbTables snap); [done|].
    transitivity (dbTables load); [done|]. by transitivity (dbTables d).
  - transitivity (dbTables d); [done|]. apply activity_cleaned_keeps, CleanupUsageActivityStats_spec.
  - transitivity (dbTables d); [done|]. apply latency_cleaned_keeps, CleanupUsageLatencyStats_spec.
Qed.

(** *** The batches of the code are runs *)


Lemma tables_LoadTarget fault d : dbTables (LoadUsageAggregationTargetEventID fault d).1 = dbTables d.
Proof. by pose proof (LoadTarget_spec fault d) as [-> _]. Qed.
Lemma tables_LoadSnapshot fault d : dbTables (LoadUsageAggregationCheckpointSnapshot fault d).1 = dbTables d.
Proof. by pose proof (LoadSnapshot_spec fault d) as [-> _]. Qed.
Lemma tables_LoadPage fault c target d :
  dbTables (LoadUsageAggregationEventPage fault c target usageAggregationEventPageLimit d).1 = dbTables d.
Proof. by pose proof (LoadPage_spec fault OverviewCheckpoint c target d) as [-> _]. Qed.

(** The three loads of a batch, and then [k]. *)
Lemma batch_run (cur : UsageAggregationCheckpointSnapshot -> Z) fault t0 d
    (k : UsageAggregationCheckpointSnapshot -> list UsageEvent -> Sql AggTables (result string Z)) :
  agg_run t0 (dbTables d) ->
  (forall s target page snap load, dbTables snap = dbTables d -> dbTables load = dbTables d ->
     (LoadUsageAggregationCheckpointSnapshot fault snap).2 = Ok s ->
     (LoadUsageAggregationEventPage fault (cur s) target usageAggregationEventPageLimit load).2 = Ok page ->
     forall d1, dbTables d1 = dbTables d -> agg_run t0 (dbTables (k s page d1).1)) ->
  agg_run t0 (dbTables ((try$ targetEventID := LoadUsageAggregationTargetEventID fault in
     try$ snapshot := LoadUsageAggregationCheckpointSnapshot fault in
     try$ events := LoadUsageAggregationEventPage fault (cur snapshot) targetEventID
                      usageAggregationEventPageLimit in
     k snapshot events)%sql d).1).
Proof.
  intros R K. unfold sql_try.
  pose proof (tables_LoadTarget fault d) as E1.
  destruct (LoadUsageAggregationTargetEventID fault d) as [d1 [target|e]]; cbn [fst] in *; [|by rewrite E1].
  pose proof (tables_LoadSnapshot fault d1) as E2. pose proof (K) as K'.
  destruct (LoadUsageAggregationCheckpointSnapshot fault d1) as [d2 [s|e]] eqn:Sn; cbn [fst] in *;
    [|by rewrite E2, E1].
  pose proof (tables_LoadPage fault (cur s) target d2) as E3.
  destruct (LoadUsageAggregationEventPage fault (cur s) target _ d2) as [d3 [page|e]] eqn:Pg; cbn [fst] in *;
    [|by rewrite E3, E2, E1].
  apply (K s target page d1 d2); [done|congruence|by rewrite Sn|by rewrite Pg|congruence].
Qed.

(** What follows an application of a page does not touch the tables. *)
Lemma tables_then {A B} (m : Sql AggTables (result string A)) (b : B) d :
  dbTables (sql_try m (fun _ => sql_ret (Ok b)) d).1 = dbTables (m d).1.
Proof. unfold sql_try. by destruct (m d) as [d' [a|e]]. Qed.

Lemma overview_batch_run fault now t0 d : agg_run t0 (dbTables d) ->
  agg_run t0 (dbTables (AggregateUsageOverviewStatsBatch local fault now d).1).
Proof.
  intros R. apply batch_run; [done|]. intros s target [|e page] snap load _ El Sn Ld d1 E1; [by rewrite <- E1 in R|].
  pose proof (run_overview t0 load fault d1 fault (OverviewCursor s) target usageAggregationEventPageLimit (e :: page) (NormalizeStorageTime now)) as S.
  destruct (OverviewBuildRows local (e :: page)) as [[hourly daily] mx]. rewrite tables_then.
  eapply S; [by rewrite El|rewrite El, E1; constructor|exact Ld|done].
Qed.

Lemma activity_batch_run fault now t0 d : agg_run t0 (dbTables d) ->
  agg_run t0 (dbTables (AggregateUsageActivityStatsBatch local activityText fault now d).1).
Proof.
  intros R. apply batch_run; [done|]. intros s target [|e page] snap load _ El Sn Ld d1 E1; [by rewrite <- E1 in R|].
  destruct (buildActivity local activityText (e :: page) (NormalizeStorageTime now)) as [rows|err] eqn:B;
    [|by rewrite <- E1 in R].
  change (sql_try (sql_ret (Ok rows)) ?f d1) with (f rows d1). cbv beta. rewrite tables_then.
  eapply run_activity; [|rewrite El, E1; constructor|exact Ld|done|exact B]. by rewrite El.
Qed.

Lemma latency_batch_run fault now t0 d : agg_run t0 (dbTables d) ->
  agg_run t0 (dbTables
    (AggregateUsageLatencyStatsBatch local sketchKey iter sketchText sampleText walkText fault now d).1).
Proof.
  intros R. apply batch_run; [done|]. intros s target [|e page] snap load Es El Sn Ld d1 E1; [by rewrite <- E1 in R|].
  destruct (buildLatency local sketchKey iter sketchText sampleText (e :: page) now) as [rows|err] eqn:B;
    [|by rewrite <- E1 in R].
  change (sql_try (sql_ret (Ok rows)) ?f d1) with (f rows d1). cbv beta. rewrite tables_then.
  unfold ApplyUsageLatencyAggregationPage. unfold sql_try at 1.
  pose proof (PrepareRows_spec local iter sketchText sampleText walkText fault rows (NormalizeStorageTime now) d1)
    as [Ep _].
  destruct (PrepareRows _ _ _ _ _ _ _ rows _ d1) as [d2 [prepared|err]] eqn:Pr; cbn [fst snd] in *;
    [|by rewrite Ep, E1].
  eapply run_latency with (load := load) (snap := snap) (read := d1);
    [by rewrite Es|rewrite Es, El; constructor|rewrite El, E1; constructor|rewrite Ep; constructor
    |exact Sn|exact Ld|done|exact B|by rewrite Pr].
Qed.

Lemma agg_empty_ok : tables_ok agg_empty.
Proof.
  split; [|apply latency_table_empty]. split; [split; constructor|].
  intros name. split; [by left|]. exists []. split; [done|].
  destruct name; [done|constructor|constructor].
Qed.

End Runs.
