(* ===== verification/OverviewTotals.v ===== *)
(** The overview tables hold the sums of the events behind the checkpoint. *)
From S2P Require Import Prelude GoStrings GoTime Entities Timeutil ActivityGrain Uvarint Sketch SampleSet Sql Overview LatencyRows Aggregation AggregationFacts AggregationRuns.
From stdpp Require Import sorting.

Local Open Scope string_scope.
Local Open Scope list_scope.
Local Open Scope Z_scope.

(** The counter columns with what one event adds to them. *)
Definition overview_columns : list ((OverviewStat -> Z) * (UsageEvent -> Z)) :=
  [(osRequestCount, fun _ => 1);
   (osSuccessCount, fun e => if evFailed e then 0 else 1);
   (osFailureCount, fun e => if evFailed e then 1 else 0);
   (osInputTokens, evInputTokens); (osOutputTokens, evOutputTokens);
   (osReasoningTokens, evReasoningTokens); (osCachedTokens, evCachedTokens);
   (osCacheReadTokens, evCacheReadTokens); (osCacheCreationTokens, evCacheCreationTokens);
   (osTotalTokens, evTotalTokens)].

(** The place of an event in the hourly and in the daily table. *)
Definition hour_place (local : Location) (e : UsageEvent) : string * Dimensions :=
  (FormatStorageTime local (hourKey e).1, (hourKey e).2).
Definition day_place (local : Location) (e : UsageEvent) : string * Dimensions :=
  (FormatStorageTime local (dayKey local e).1, (dayKey local e).2).

(** The column at a place; a missing row counts zero. *)
Definition column_at (col : OverviewStat -> Z) (tbl : OverviewTable) (k : string * Dimensions) : Z :=
  match tbl !! k with Some row => col row | None => 0 end.

Section Totals.
Context (local : Location).

Section Column.
Context (col : OverviewStat -> Z) (amount : UsageEvent -> Z).
Hypothesis col_in : (col, amount) ∈ overview_columns.

Ltac each_column P :=
  assert (Forall P overview_columns) as F; [|exact (proj1 (Forall_forall _ _) F _ col_in)].

Lemma overview_col_new key : col (newOverviewRow key) = 0.
Proof. each_column (fun p : (OverviewStat -> Z) * (UsageEvent -> Z) => p.1 (newOverviewRow key) = 0). by repeat constructor. Qed.

Lemma overview_col_add row e : eqm64 (col (addEventToHourlyRow row e)) (col row + amount e).
Proof.
  each_column (fun p : (OverviewStat -> Z) * (UsageEvent -> Z) =>
    eqm64 (p.1 (addEventToHourlyRow row e)) (p.1 row + p.2 e)).
  repeat constructor; simpl; try apply add64_eqm;
    destruct (evFailed e); rewrite ?Z.add_0_r; (apply add64_eqm || reflexivity).
Qed.

Lemma overview_col_updates row now stored :
  col (tokenStatUpdates row now stored) = col stored + col row.
Proof.
  each_column (fun p : (OverviewStat -> Z) * (UsageEvent -> Z) =>
    p.1 (tokenStatUpdates row now stored) = p.1 stored + p.1 row).
  by repeat constructor.
Qed.

Lemma overview_col_created row now : col (createdOverviewRow row now) = col row.
Proof.
  each_column (fun p : (OverviewStat -> Z) * (UsageEvent -> Z) =>
    p.1 (createdOverviewRow row now) = p.1 row).
  by repeat constructor.
Qed.

Lemma amount_projected e : amount (projected e) = amount e.
Proof.
  each_column (fun p : (OverviewStat -> Z) * (UsageEvent -> Z) => p.2 (projected e) = p.2 e).
  by repeat constructor.
Qed.

(** *** Rows of one page *)

Section Rows.
Context (key : UsageEvent -> overviewKey) (k : string * Dimensions).

Let place (p : overviewKey) : string * Dimensions := (FormatStorageTime local p.1, p.2).
Let share (p : overviewKey) (row : OverviewStat) : Z := if decide (place p = k) then col row else 0.
Let part (e : UsageEvent) : Z := if decide (place (key e) = k) then amount e else 0.

Lemma overview_rows_step rows e :
  eqm64 (gmap_sum share (addToRows addEventToHourlyRow (key e) rows e)) (gmap_sum share rows + part e).
Proof.
  unfold addToRows. rewrite gmap_sum_insert. subst share part. cbn beta.
  destruct (rows !! key e) as [row|]; (destruct (decide (place (key e) = k)) as [E|N];
    [|match goal with |- eqm64 ?a ?b => replace a with b by lia end; reflexivity]).
  - rewrite overview_col_add.
    match goal with |- eqm64 ?a ?b => replace a with b by lia end. reflexivity.
  - rewrite overview_col_add, overview_col_new.
    match goal with |- eqm64 ?a ?b => replace a with b by lia end. reflexivity.
Qed.

Lemma overview_rows_fold events rows :
  eqm64 (gmap_sum share (foldl (fun m e => addToRows addEventToHourlyRow (key e) m e) rows events))
        (gmap_sum share rows + sum_Z (map part events)).
Proof.
  revert rows. induction events as [|e events IH]; intros rows; cbn [foldl map].
  - rewrite Z.add_0_r. reflexivity.
  - rewrite IH, overview_rows_step, sum_Z_cons, Z.add_assoc. reflexivity.
Qed.

(** Every row stands at its key. *)
Lemma overview_rows_keyed events rows :
  (forall p row, rows !! p = Some row -> overview_key row = p) ->
  forall p row, foldl (fun m e => addToRows addEventToHourlyRow (key e) m e) rows events !! p = Some row ->
    overview_key row = p.
Proof.
  revert rows. induction events as [|e events IH]; intros rows H; [done|]. cbn [foldl]. apply IH.
  intros p row. unfold addToRows. destruct (decide (p = key e)) as [->|N].
  - rewrite lookup_insert_eq. intros [= <-]. destruct (rows !! key e) as [r|] eqn:L.
    + change (overview_key r = key e). by apply H.
    + by destruct (key e).
  - rewrite lookup_insert_ne by done. apply H.
Qed.

(** What the sorted rows of a page add at [k]. *)
Lemma overview_page_sum events :
  eqm64 (sum_Z (map (fun row => if decide (dimensionArgs local row = k) then col row else 0)
           (sorted_rows (foldl (fun m e => addToRows addEventToHourlyRow (key e) m e) ∅ events))))
        (sum_Z (map part events)).
Proof.
  set (m := foldl _ ∅ events). rewrite <- (Z.add_0_l (sum_Z (map part events))).
  rewrite <- (gmap_sum_empty share). rewrite <- overview_rows_fold. fold m.
  match goal with |- eqm64 ?a ?b => replace a with b; [reflexivity|] end.
  unfold gmap_sum, sorted_rows.
  rewrite (merge_sort_Permutation overviewNotAfter (map snd (map_to_list m))), map_map.
  f_equal. apply map_ext_in. intros [p row] H.
  apply list_elem_of_In, elem_of_map_to_list in H. unfold share. cbn [fst snd].
  assert (E : overview_key row = p).
  { apply (overview_rows_keyed events ∅); [|exact H]. intros *. by rewrite lookup_empty. }
  subst p. done.
Qed.

End Rows.

(** *** Upserts *)

Lemma upsert_column now tbl row k :
  column_at col (upsertOverview local now tbl row) k
  = column_at col tbl k + if decide (dimensionArgs local row = k) then col row else 0.
Proof.
  unfold column_at, upsertOverview. destruct (decide (dimensionArgs local row = k)) as [<-|N].
  - rewrite lookup_insert_eq. destruct (tbl !! dimensionArgs local row).
    + apply overview_col_updates.
    + rewrite overview_col_created. lia.
  - rewrite lookup_insert_ne by done. lia.
Qed.

Lemma upserts_column now rows tbl k :
  column_at col (foldl (upsertOverview local now) tbl rows) k
  = column_at col tbl k
    + sum_Z (map (fun row => if decide (dimensionArgs local row = k) then col row else 0) rows).
Proof.
  revert tbl. induction rows as [|row rows IH]; intros tbl; cbn [foldl map].
  - rewrite Z.add_0_r. done.
  - rewrite IH, upsert_column, sum_Z_cons. lia.
Qed.

(** *** Histories *)

Lemma build_maps events st :
  (foldl (buildStep local) st events).1 =
  (foldl (fun m e => addToRows addEventToHourlyRow (hourKey e) m e) st.1.1 events,
   foldl (fun m e => addToRows addEventToHourlyRow (dayKey local e) m e) st.1.2 events).
Proof. revert st. induction events as [|e events IH]; intros [[h d] m]; [done|]. apply IH. Qed.

Lemma build_hourly events : (OverviewBuildRows local events).1.1 =
  sorted_rows (foldl (fun m e => addToRows addEventToHourlyRow (hourKey e) m e) ∅ events).
Proof.
  unfold OverviewBuildRows. pose proof (build_maps events (∅, ∅, 0)) as B.
  destruct (foldl (buildStep local) _ _) as [[h d] m]. cbn in *. by injection B as <- _.
Qed.

Lemma build_daily events : (OverviewBuildRows local events).1.2 =
  sorted_rows (foldl (fun m e => addToRows addEventToHourlyRow (dayKey local e) m e) ∅ events).
Proof.
  unfold OverviewBuildRows. pose proof (build_maps events (∅, ∅, 0)) as B.
  destruct (foldl (buildStep local) _ _) as [[h d] m]. cbn in *. by injection B as _ <-.
Qed.

(** The sum of a column over the events at a place. *)
Definition events_sum (place : UsageEvent -> string * Dimensions) (k : string * Dimensions)
    (events : list UsageEvent) : Z :=
  sum_Z (map (fun e => if decide (place e = k) then amount e else 0) events).

Lemma events_sum_app place k l1 l2 :
  events_sum place k (l1 ++ l2) = events_sum place k l1 + events_sum place k l2.
Proof. unfold events_sum. by rewrite map_app, sum_Z_app. Qed.

(** Tables that are made by upserting the rows of every page. *)
Lemma history_column (rows : list UsageEvent -> list OverviewStat) place k
    (h : list (list UsageEvent * Time)) :
  (forall page, eqm64
     (sum_Z (map (fun row => if decide (dimensionArgs local row = k) then col row else 0) (rows page)))
     (events_sum place k page)) ->
  eqm64 (column_at col (foldl (fun tbl p => foldl (upsertOverview local p.2) tbl (rows p.1)) ∅ h) k)
        (events_sum place k (seen h)).
Proof.
  intros P. induction h as [|[page now] h IH] using rev_ind.
  - unfold column_at. cbn. rewrite lookup_empty. reflexivity.
  - rewrite foldl_snoc, seen_snoc, events_sum_app, <- IH, <- P. cbn [fst snd].
    rewrite upserts_column. reflexivity.
Qed.

Lemma hourly_column h k : eqm64 (column_at col (hourly_of local h) k)
  (events_sum (hour_place local) k (seen h)).
Proof.
  apply (history_column (fun page => (OverviewBuildRows local page).1.1)). intros page.
  rewrite build_hourly. apply (overview_page_sum hourKey).
Qed.

Lemma daily_column h k : eqm64 (column_at col (daily_of local h) k)
  (events_sum (day_place local) k (seen h)).
Proof.
  apply (history_column (fun page => (OverviewBuildRows local page).1.2)). intros page.
  rewrite build_daily. apply (overview_page_sum (dayKey local)).
Qed.

(** The events of the table give the same sums as what the pages saw of them. *)
Lemma events_sum_projected place k events : (forall e, place (projected e) = place e) ->
  events_sum place k (map projected events) = events_sum place k events.
Proof.
  intros P. unfold events_sum. rewrite map_map. f_equal. apply map_ext. intros e.
  by rewrite P, amount_projected.
Qed.

End Column.
End Totals.

(** ** The rollups of any run *)

Section Runs.
Context (local : Location) (sketchKey : Z -> Z) (iter : SampleSet -> list SamplePoint).
Context (sketchText : SketchError -> string) (sampleText : SampleError -> string)
  (walkText : WalkError -> string) (activityText : ActivityError -> string).

(** C2: however loads, applications of pages, inserts and cleanups interleave and
    whatever statements fail: each of the three rollups is what one pass over the
    events up to its checkpoint makes, page after page, each event in exactly one
    page. *)
Theorem rollups_exactly_once (t : AggTables) (name : CheckpointName) :
  agg_run local sketchKey iter sketchText sampleText walkText activityText agg_empty t ->
  exists h, seen h = map projected (filter (fun e => evID e <= cursor_of t name) (agEvents t)) /\
    shows local sketchKey iter sketchText sampleText walkText activityText h name t.
Proof. intros R. destruct (run_keeps _ _ _ _ _ _ _ _ _ R (agg_empty_ok _ _ _ _ _ _ _)) as [[[_ O] _] _]. apply O. Qed.


(** The three batch functions are such runs: from tables a run has made, a
    batch makes tables a run makes, whatever statement of it fails. *)
Theorem batches_are_runs (fault : nat -> option string) (now : Time) (d : Db AggTables) :
  agg_run local sketchKey iter sketchText sampleText walkText activityText agg_empty (dbTables d) ->
  agg_run local sketchKey iter sketchText sampleText walkText activityText agg_empty
    (dbTables (AggregateUsageOverviewStatsBatch local fault now d).1) /\
  agg_run local sketchKey iter sketchText sampleText walkText activityText agg_empty
    (dbTables (AggregateUsageActivityStatsBatch local activityText fault now d).1) /\
  agg_run local sketchKey iter sketchText sampleText walkText activityText agg_empty
    (dbTables (AggregateUsageLatencyStatsBatch local sketchKey iter sketchText sampleText walkText fault now d).1).
Proof.
  intros R. split; [by apply overview_batch_run|]. split; [by apply activity_batch_run|].
  by apply latency_batch_run.
Qed.

End Runs.

(** *** A small run: a page loaded before a second event arrives *)

Definition demo_event (id tokens : Z) (failed : bool) : UsageEvent :=
  mkUsageEvent id EmptyString "key" EmptyString EmptyString EmptyString EmptyString EmptyString
    None None None None "model" None EmptyString EmptyString EmptyString EmptyString
    EmptyString (1709164800 * Second) EmptyString EmptyString failed None (Some true) None 900 (Some 300)
    tokens tokens 0 0 0 false 0 (tokens + tokens) zero_time.

Definition demo_iter (m : SampleSet) : list SamplePoint := map snd (map_to_list m).
Definition demo_fault (n : nat) : option string := if (n =? 2)%nat then Some "database is locked" else None.

Abbreviation demo_run := (agg_run UTC (fun z => z) demo_iter (fun _ => EmptyString) (fun _ => EmptyString)
  (fun _ => EmptyString) (fun _ => EmptyString)).

Definition demo_tables : AggTables := insertEvents [demo_event 2 5 true] (insertEvents [demo_event 1 7 false] agg_empty).

(** A batch that fails, and two that follow it. *)
Definition demo_batches : Db AggTables :=
  let d := mkDb demo_tables 0 in
  let d := (AggregateUsageOverviewStatsBatch UTC demo_fault (1709164900 * Second) d).1 in
  let d := (AggregateUsageOverviewStatsBatch UTC (fun _ => None) (1709164900 * Second) d).1 in
  (AggregateUsageLatencyStatsBatch UTC (fun z => z) demo_iter (fun _ => EmptyString) (fun _ => EmptyString)
     (fun _ => EmptyString) (fun _ => None) (1709164900 * Second) d).1.

Lemma demo_tables_run : demo_run agg_empty demo_tables.
Proof.
  unfold demo_tables. apply run_insert; [apply run_insert; [constructor|]|]; vm_compute;
    repeat constructor; unfold by_id; vm_compute; done.
Qed.

Lemma demo_batches_run : demo_run agg_empty (dbTables demo_batches).
Proof.
  unfold demo_batches. apply latency_batch_run, overview_batch_run, overview_batch_run, demo_tables_run.
Qed.

Lemma rollups_exactly_once_witness :
  cursor_of (dbTables demo_batches) LatencyCheckpoint = 2 /\
  exists h, seen h = map projected [demo_event 1 7 false; demo_event 2 5 true] /\
    latency_history UTC (fun z => z) demo_iter (fun _ => EmptyString) (fun _ => EmptyString)
      (fun _ => EmptyString) h (agLatency (dbTables demo_batches)).
Proof.
  split; [vm_compute; reflexivity|].
  destruct (rollups_exactly_once _ _ _ _ _ _ _ _ LatencyCheckpoint demo_batches_run) as (h & Hs & Hh).
  exists h. split; [|exact Hh]. rewrite Hs. vm_compute. reflexivity.
Defined.


Lemma batches_are_runs_witness :
  demo_run agg_empty (dbTables (AggregateUsageActivityStatsBatch UTC (fun _ => EmptyString) demo_fault
    (1709164900 * Second) (mkDb demo_tables 0)).1).
Proof.
  destruct (batches_are_runs UTC (fun z => z) demo_iter (fun _ => EmptyString) (fun _ => EmptyString)
    (fun _ => EmptyString) (fun _ => EmptyString) demo_fault (1709164900 * Second) (mkDb demo_tables 0)
    demo_tables_run) as (_ & H & _). exact H.
Defined.

(** Where the offset is not a whole number of hours, the hour bucket of the
    overview does not start at a local hour, while that of the latency rows does. *)
Example half_hour_bucket :
  let local := FixedZone 19800 in
  let e := demo_event 1 7 false in
  minute_of local (hourKey e).1 = 30 /\ minute_of local (localHourStart local (evTimestamp e)) = 0.
Proof. by vm_compute. Qed.

(** Catching up: without failures a loop of batches covers every event. *)
From stdpp Require Import sorting.

Local Open Scope string_scope.
Local Open Scope list_scope.
Local Open Scope Z_scope.

(** *** Statements that do not fail *)

Definition no_fault : nat -> option string := fun _ => None.

Definition succeeds {T A} (p : Sql T (result string A)) (P : T -> Prop) : Prop :=
  forall d, P (dbTables d) -> exists d' a, p d = (d', Ok a).

Lemma succeeds_statement {T A} (run : T -> T * A) : succeeds (statement no_fault run) (fun _ => True).
Proof. intros d _. unfold statement, no_fault. destruct (run _). eauto. Qed.

Lemma succeeds_wrap {T A} prefix (p : Sql T (result string A)) P : succeeds p P -> succeeds (wrap prefix p) P.
Proof. intros H d Hd. destruct (H d Hd) as (d' & a & E). unfold wrap. rewrite E. eauto. Qed.

Lemma succeeds_try {T A B} (m : Sql T (result string A)) (f : A -> Sql T (result string B))
    (R : T -> result string A -> T -> Prop) (P : T -> Prop) (Q : A -> T -> Prop) :
  succeeds m P -> preserves m R -> (forall a, succeeds (f a) (Q a)) ->
  (forall t a t', P t -> R t (Ok a) t' -> Q a t') -> succeeds (sql_try m f) P.
Proof.
  intros Hm Rm Hf PQ d Hd. destruct (Hm d Hd) as (d1 & a & E). pose proof (Rm d) as H.
  unfold sql_try. rewrite E in *. cbn [fst snd] in H. apply Hf. by eapply PQ.
Qed.

Lemma succeeds_for_each {T A} (f : A -> Sql T (result string unit)) l :
  (forall a, succeeds (f a) (fun _ => True)) -> succeeds (for_each f l) (fun _ => True).
Proof.
  intros Hf. induction l as [|a l IH]; intros d _; [cbn; unfold sql_ret; eauto|].
  cbn [for_each]. unfold sql_try. destruct (Hf a d I) as (d1 & u & ->). by apply IH.
Qed.

Lemma succeeds_transaction {T A} (body : Sql T (result string A)) P :
  succeeds body P -> succeeds (transaction no_fault body) P.
Proof.
  intros H d Hd. unfold transaction. cbn [no_fault].
  destruct (H (mkDb (dbTables d) (S (dbClock d))) Hd) as (d1 & a & ->). eauto.
Qed.

Section CatchUp.
Context (local : Location) (sketchKey : Z -> Z) (iter : SampleSet -> list SamplePoint).
Context (sketchText : SketchError -> string) (sampleText : SampleError -> string)
  (walkText : WalkError -> string) (activityText : ActivityError -> string).

Abbreviation ready := (agg_ok local sketchKey iter sketchText sampleText walkText activityText).

Lemma applyOverviewRow_succeeds get set now row :
  succeeds (applyOverviewRow local no_fault get set now row) (fun _ => True).
Proof.
  intros [t n] _. unfold applyOverviewRow, sql_try, wrap, sql_bind, statement, no_fault. cbn [dbClock dbTables].
  unfold updateOverview. destruct (get t !! dimensionArgs local row) eqn:L; cbn; [eauto|].
  unfold insertOverview. rewrite L. cbn. eauto.
Qed.

Lemma Advance_succeeds name c next now :
  succeeds (AdvanceUsageAggregationCheckpoint no_fault name c next now)
    (fun t => 0 <= c < next /\ cursor_of t name = c).
Proof.
  intros [t n] [B C]. cbn [dbTables] in C. unfold AdvanceUsageAggregationCheckpoint.
  replace ((c <? 0) || (next <=? c)) with false
    by (symmetry; apply orb_false_iff; split; [apply Z.ltb_ge|apply Z.leb_gt]; lia).
  unfold sql_try, wrap, statement, no_fault, ensureCheckpoint, moveCheckpoint. cbn [dbClock dbTables].
  unfold cursor_of in C. destruct (agCheckpoints t name) as [cp|] eqn:L; cbn [dbClock dbTables].
  - rewrite L, C, Z.eqb_refl. cbn. unfold sql_ret. eauto.
  - cbn [setCheckpoint agCheckpoints]. rewrite decide_True by done. cbn [cpCursor].
    subst c. cbn. unfold sql_ret. eauto.
Qed.

Lemma overview_page_succeeds c next hourly daily now :
  succeeds (ApplyUsageOverviewAggregationPage local no_fault c next hourly daily now)
    (fun t => 0 <= c < next /\ cursor_of t OverviewCheckpoint = c).
Proof.
  apply succeeds_transaction. eapply succeeds_try.
  - intros d _. unfold overviewApplyRows, sql_try.
    destruct (succeeds_for_each (applyHourlyRow local no_fault (NormalizeStorageTime now)) hourly
      (applyOverviewRow_succeeds _ _ _) d I) as (d1 & u & ->).
    by apply (succeeds_for_each _ daily (applyOverviewRow_succeeds _ _ _)).
  - apply overviewApplyRows_spec.
  - intros u. apply Advance_succeeds.
  - intros t u t' H ->. exact H.
Qed.

(** *** What is left after a batch *)

Lemma split_at (a : Z) (l : list UsageEvent) : StronglySorted by_id l ->
  l = covered a l ++ filter (fun e => a < evID e) l.
Proof.
  induction 1 as [|e l Sl IH F]; [done|]. unfold covered. rewrite !filter_cons.
  destruct (decide (evID e <= a)).
  - rewrite (decide_False (P := a < evID e)) by lia. cbn [app]. f_equal. exact IH.
  - rewrite (decide_True (P := a < evID e)) by lia. rewrite filter_rejects.
    + cbn [app]. f_equal. rewrite IH at 1. unfold covered. rewrite filter_rejects; [done|].
      eapply Forall_impl; [exact F|]. unfold by_id. simpl. lia.
    + eapply Forall_impl; [exact F|]. unfold by_id. simpl. lia.
Qed.

Lemma pending_after name t t' : events_ok (agEvents t) -> next_page t name <> [] ->
  agEvents t' = agEvents t -> cursor_of t' name = last_id (next_page t name) ->
  pending t' name = drop (Z.to_nat usageAggregationEventPageLimit) (pending t name).
Proof.
  intros Ev N E C. pose proof (next_page_of t name Ev N) as P.
  destruct P as (_ & Pg & _ & L & _). set (c := last_id (next_page t name)) in *.
  assert (Sp : pending t name = AggregationFacts.between (cursor_of t name) c (agEvents t) ++ pending t' name).
  { unfold pending at 1.
    rewrite (split_at c (filter (fun e => cursor_of t name < evID e) (agEvents t))) at 1
      by apply StronglySorted_filter, Ev.
    f_equal.
    - unfold covered, AggregationFacts.between. rewrite list_filter_filter. apply list_filter_iff. intros e. lia.
    - unfold pending. rewrite E, C, list_filter_filter. apply list_filter_iff. intros e. fold c. lia. }
  assert (Ln : length (AggregationFacts.between (cursor_of t name) c (agEvents t))
               = length (take (Z.to_nat usageAggregationEventPageLimit) (pending t name))).
  { rewrite <- (length_map projected), <- Pg. unfold next_page. by rewrite length_map. }
  pose proof (take_drop (Z.to_nat usageAggregationEventPageLimit) (pending t name)) as TD.
  rewrite Sp in TD at 3. apply app_inj_1 in TD as [_ TD]; [by rewrite TD|by rewrite Ln].
Qed.

Lemma cursor_nonneg t name : ready t -> 0 <= cursor_of t name.
Proof.
  intros [[_ P] O]. destruct (O name) as [[->|(e & He & <-)] _]; [done|].
  rewrite Forall_forall in P. specialize (P e He). lia.
Qed.

Lemma LoadPage_succeeds c target : 0 <= c -> 0 <= target ->
  succeeds (LoadUsageAggregationEventPage no_fault c target usageAggregationEventPageLimit) (fun _ => True).
Proof.
  intros C T d _. unfold LoadUsageAggregationEventPage. destruct (_ <=? _); [unfold sql_ret; eauto|].
  replace ((c <? 0) || (target <? 0)) with false
    by (symmetry; apply orb_false_iff; split; apply Z.ltb_ge; lia).
  cbn [orb]. replace (usageAggregationEventPageLimit <=? 0) with false by done.
  by apply succeeds_wrap with (P := fun _ => True); [apply succeeds_statement|].
Qed.

Lemma target_nonneg t : 0 <= target_of t.
Proof. unfold target_of. induction (agEvents t); cbn [map foldr]; lia. Qed.

Lemma overview_batch_succeeds now : succeeds (AggregateUsageOverviewStatsBatch local no_fault now) ready.
Proof.
  eapply succeeds_try with (Q := fun target t => ready t /\ target = target_of t).
  { apply succeeds_wrap. intros d _. by apply (succeeds_statement (fun t : AggTables => (t, _)) d). }
  { apply LoadTarget_spec. }
  2: { by intros t target t' H [-> ->]. }
  intros target. eapply succeeds_try with
    (Q := fun s t => ready t /\ target = target_of t /\ s = snapshot_of t).
  { apply succeeds_wrap. intros d _. by apply (succeeds_statement (fun t : AggTables => (t, _)) d). }
  { apply LoadSnapshot_spec. }
  2: { by intros t s t' [H1 H2] [-> ->]. }
  intros s. eapply succeeds_try with
    (Q := fun page t => ready t /\ s = snapshot_of t /\ page = next_page t OverviewCheckpoint).
  { intros d (H & -> & ->). apply LoadPage_succeeds; [by apply cursor_nonneg|apply target_nonneg|done]. }
  { apply (LoadPage_spec _ OverviewCheckpoint). }
  2: { intros t page t' (H1 & -> & ->) [-> H]. split; [done|]. split; [done|]. by apply H. }
  intros [|e page]; [intros d _; unfold sql_ret; eauto|].
  intros d (H & -> & E). set (events := e :: page) in *.
  assert (P : page_of (agEvents (dbTables d)) (cursor_of (dbTables d) OverviewCheckpoint)
                (last_id events) events).
  { rewrite E. apply next_page_of; [apply H|]. by rewrite <- E. }
  pose proof (cursor_nonneg _ OverviewCheckpoint H) as C0.
  pose proof (overview_next local _ _ _ _ (proj1 H) P C0) as Mx.
  destruct (OverviewBuildRows local events) as [[hourly daily] mx]. cbn [snd] in Mx. subst mx.
  unfold sql_try. destruct P as (_ & _ & _ & L & _).
  destruct (overview_page_succeeds (cursor_of (dbTables d) OverviewCheckpoint) (last_id events)
    hourly daily (NormalizeStorageTime now) d) as (d' & u & Ap); [done|].
  cbn [snapshot_of OverviewCursor]. rewrite Ap. unfold sql_ret. eauto.
Qed.

(** *** The loop *)

Lemma batch_grows name t n t' : ready t ->
  batch_effect local sketchKey iter sketchText sampleText walkText activityText name t (Ok n) t' ->
  ready t' /\
  agEvents t' = agEvents t /\
  pending t' name = drop (Z.to_nat usageAggregationEventPageLimit) (pending t name).
Proof.
  intros A [_ [[E ->]|[N D]]].
  - split; [done|]. split; [done|]. unfold next_page in E. apply map_eq_nil in E.
    destruct (pending t name) as [|e l]; [done|]. discriminate.
  - assert (Ev : events_ok (agEvents t)) by apply A.
    destruct (page_done_grows _ _ _ _ _ _ _ _ _ _ _ _ _ (next_page_of t name Ev N) D A) as (A' & E & _).
    split; [done|]. split; [done|]. apply pending_after; [done|done|done|apply D].
Qed.

Lemma catch_up_loop (batch : Sql AggTables (result string Z)) name fuel d :
  succeeds batch ready ->
  preserves batch (fun t r t' => events_ok (agEvents t) ->
    batch_effect local sketchKey iter sketchText sampleText walkText activityText name t r t') ->
  ready (dbTables d) -> (length (pending (dbTables d) name) < 1000 * fuel)%nat ->
  exists d', catchUpWith fuel batch usageAggregationEventPageLimit d = (d', Some (Ok tt)) /\
    ready (dbTables d') /\ agEvents (dbTables d') = agEvents (dbTables d) /\
    pending (dbTables d') name = [].
Proof.
  intros Suc Eff. revert d. induction fuel as [|fuel IH]; intros d R L; [lia|].
  cbn [catchUpWith]. unfold sql_bind. destruct (Suc d R) as (d1 & n & B).
  pose proof (Eff d (proj1 R)) as E. rewrite B in E |- *. cbn [fst snd] in E.
  destruct (batch_grows name _ _ _ R E) as (R1 & Ev1 & P1). destruct E as [En _].
  unfold next_page in En. rewrite length_map, length_take in En.
  assert (LD : length (pending (dbTables d1) name) = (length (pending (dbTables d) name) - 1000)%nat).
  { rewrite P1, length_drop. done. }
  change (Z.to_nat usageAggregationEventPageLimit) with 1000%nat in En.
  change usageAggregationEventPageLimit with 1000 at 1. destruct (Z.ltb_spec n 1000) as [Ln|Ln].
  - exists d1. split; [done|]. split; [done|]. split; [done|].
    apply length_zero_iff_nil. lia.
  - destruct (IH d1 R1) as (d' & C & R' & Ev' & P'); [lia|]. exists d'. split; [done|].
    split; [done|]. split; [congruence|done].
Qed.

(** While no statement fails, the loop over overview batches ends, after one
    batch per thousand pending events and one more, and then every stored event is
    behind the checkpoint. *)
Theorem overview_catches_up (fuel : nat) (now : Time) (d : Db AggTables) :
  agg_run local sketchKey iter sketchText sampleText walkText activityText agg_empty (dbTables d) ->
  (length (pending (dbTables d) OverviewCheckpoint) < 1000 * fuel)%nat ->
  exists d', AggregateUsageOverviewStats local no_fault fuel now d = (d', Some (Ok tt)) /\
    agEvents (dbTables d') = agEvents (dbTables d) /\
    Forall (fun e => evID e <= cursor_of (dbTables d') OverviewCheckpoint) (agEvents (dbTables d)).
Proof.
  intros R L.
  destruct (run_keeps _ _ _ _ _ _ _ _ _ R (agg_empty_ok _ _ _ _ _ _ _)) as [[A _] _].
  destruct (catch_up_loop _ OverviewCheckpoint fuel d (overview_batch_succeeds (NormalizeStorageTime now))
    (overview_batch_effect _ _ _ _ _ _ _ _ _) A L) as (d' & C & _ & E & P).
  exists d'. split; [exact C|]. split; [done|]. rewrite <- E.
  apply Forall_forall. intros e He. apply Z.nlt_ge. intros Lt.
  assert (H : e ∈ pending (dbTables d') OverviewCheckpoint) by (apply list_elem_of_filter; done).
  rewrite P in H. by apply elem_of_nil in H.
Qed.

End CatchUp.

Lemma overview_catches_up_witness : exists d',
  AggregateUsageOverviewStats UTC no_fault 1 (1709164900 * Second) (mkDb demo_tables 0) = (d', Some (Ok tt)) /\
  Forall (fun e => evID e <= cursor_of (dbTables d') OverviewCheckpoint) (agEvents demo_tables).
Proof.
  destruct (overview_catches_up UTC (fun z => z) demo_iter (fun _ => EmptyString) (fun _ => EmptyString)
    (fun _ => EmptyString) (fun _ => EmptyString) 1 (1709164900 * Second) (mkDb demo_tables 0)
    demo_tables_run) as (d' & C & _ & F); [vm_compute; lia|].
  exists d'. split; [exact C|exact F].
Defined.
