(* ===== verification/RecentEvents.v ===== *)
(** Package repository, usage_recent_event_cache.go and usage_credential_health_cache.go:
    the events of the last 70 minutes, the pool of their strings, and the health of
    each credential in buckets of ten minutes.

    Slices are lists and pointers to numbers are options: what the code clones is a
    value here.  The functions that run under the lock take and return the cache. *)
From S2P Require Import Prelude GoStrings GoTime Timeutil Entities GoFloat Sql Overview.
From stdpp Require Import sorting.

Local Open Scope string_scope.
Local Open Scope list_scope.
Local Open Scope Z_scope.

Definition usageRecentEventCacheDefaultWindow : Duration := 70 * Minute.
Definition usageRecentEventCacheDefaultQueueSize : Z := 100.

Inductive RecentUsageIdentityKind :=
| RecentUsageIdentityUnknown
| RecentUsageIdentityAuthFile
| RecentUsageIdentityAIProvider.

Record RecentUsageEvent := mkRecentEvent {
  reTimestamp : Time;
  reAPIGroupKey : string;
  reModel : string;
  reModelAlias : string;
  reAuthIndex : string;
  reServiceTier : string;
  reResponseServiceTier : string;
  reReasoningEffort : string;
  reEndpoint : string;
  reExecutorType : string;
  reIdentityFallbackKind : RecentUsageIdentityKind;
  reIdentityFallbackLabel : string;
  reFailed : bool;
  reGenerate : bool;
  reLatencyMS : Z;
  reTTFTMS : option Z;
  reInputTokens : Z;
  reOutputTokens : Z;
  reReasoningTokens : Z;
  reCachedTokens : Z;
  reCacheReadTokens : Z;
  reCacheCreationTokens : Z;
  reTotalTokens : Z;
}.

Record recentUsageEventLoadRow := mkLoadRow {
  rlAPIGroupKey : string;
  rlProvider : string;
  rlAuthType : string;
  rlModel : string;
  rlModelAlias : string;
  rlTimestamp : Time;
  rlSource : string;
  rlAuthIndex : string;
  rlServiceTier : string;
  rlResponseServiceTier : string;
  rlReasoningEffort : string;
  rlEndpoint : string;
  rlExecutorType : string;
  rlFailed : bool;
  rlGenerate : bool;
  rlLatencyMS : Z;
  rlTTFTMS : option Z;
  rlInputTokens : Z;
  rlOutputTokens : Z;
  rlReasoningTokens : Z;
  rlCachedTokens : Z;
  rlCacheReadTokens : Z;
  rlCacheCreationTokens : Z;
  rlTotalTokens : Z;
}.

Definition usageEventGenerateEnabled (generate : option bool) : bool :=
  match generate with None => true | Some g => g end.

(** The rows of appendEvents; those read from the table have the same columns, where
    a NULL alias is empty and generate is not null. *)
Definition loadRow (event : UsageEvent) : recentUsageEventLoadRow :=
  mkLoadRow (evAPIGroupKey event) (evProvider event) (evAuthType event) (evModel event)
    (default EmptyString (evModelAlias event)) (evTimestamp event) (evSource event) (evAuthIndex event)
    (evServiceTier event) (evResponseServiceTier event) (evReasoningEffort event) (evEndpoint event)
    (evExecutorType event) (evFailed event) (usageEventGenerateEnabled (evGenerate event))
    (evLatencyMS event) (evTTFTMS event) (evInputTokens event) (evOutputTokens event)
    (evReasoningTokens event) (evCachedTokens event) (evCacheReadTokens event)
    (evCacheCreationTokens event) (evTotalTokens event).

Definition normalizeRecentUsageAuthType (value : string) : string :=
  let v := ToLower (TrimSpace value) in
  if v =?s "oauth" then "oauth"
  else if (v =?s "apikey") || (v =?s "api_key") then "apikey"
  else EmptyString.

Definition usageRecentIdentityFallback (authType source provider : string)
    : RecentUsageIdentityKind * string :=
  let t := normalizeRecentUsageAuthType authType in
  if t =?s "oauth" then (RecentUsageIdentityAuthFile, TrimSpace source)
  else if t =?s "apikey" then (RecentUsageIdentityAIProvider, TrimSpace provider)
  else (RecentUsageIdentityUnknown, EmptyString).

(** ** The string pool: how many fields hold each string *)

Definition Pool : Type := gmap string Z.

Definition intern (value : string) (p : Pool) : Pool :=
  if value =?s EmptyString then p
  else match p !! value with
       | Some refs => <[value := refs + 1]> p
       | None => <[value := 1]> p
       end.

Definition release (value : string) (p : Pool) : Pool :=
  if value =?s EmptyString then p
  else match p !! value with
       | None => p
       | Some refs => if refs - 1 <=? 0 then delete value p else <[value := refs - 1]> p
       end.

(** The fields of an event that are pooled, in the order they are interned. *)
Definition pooled (e : RecentUsageEvent) : list string :=
  [reAPIGroupKey e; reModel e; reModelAlias e; reAuthIndex e; reServiceTier e; reResponseServiceTier e;
   reReasoningEffort e; reEndpoint e; reExecutorType e; reIdentityFallbackLabel e].

(** ** Credential health *)

Definition credentialHealthWindow : Duration := 5 * Hour.
Definition credentialHealthBucketSpan : Duration := 10 * Minute.
Definition credentialHealthBucketCount : Z := credentialHealthWindow / credentialHealthBucketSpan.
Definition credentialHealthStartupBatchSize : Z := 10000.

(** credentialHealthKey: auth type and auth index. *)
Definition credentialHealthKey : Type := string * string.

Record credentialHealthBucketCounts := mkCounts {
  hcSuccess : Z;
  hcFailure : Z;
  hcInputTokens : Z;
  hcCacheReadTokens : Z;
}.

Definition zeroCounts : credentialHealthBucketCounts := mkCounts 0 0 0 0.

Record credentialHealthLoadRow := mkHealthRow {
  hrAuthType : string;
  hrAuthIndex : string;
  hrTimestamp : Time;
  hrFailed : bool;
  hrInputTokens : Z;
  hrCacheReadTokens : Z;
}.

Definition credentialHealthRow (event : UsageEvent) : credentialHealthLoadRow :=
  mkHealthRow (evAuthType event) (evAuthIndex event) (evTimestamp event) (evFailed event)
    (evInputTokens event) (evCacheReadTokens event).
Definition credentialHealthRowsFromUsageEvents (events : list UsageEvent) : list credentialHealthLoadRow :=
  map credentialHealthRow events.

Definition newCredentialHealthKey (authType authIndex : string) : credentialHealthKey * bool :=
  ((authType, authIndex), negb (authType =?s EmptyString) && negb (authIndex =?s EmptyString)).

Definition credentialHealthBucketUnix (timestamp : Time) : Z :=
  Unix (Truncate (NormalizeStorageTime timestamp) credentialHealthBucketSpan).
Definition credentialHealthWindowEnd (now : Time) : Time :=
  Truncate (NormalizeStorageTime now) credentialHealthBucketSpan + credentialHealthBucketSpan.
Definition credentialHealthWindowStart (now : Time) : Time :=
  credentialHealthWindowEnd now - credentialHealthWindow.

Definition saturatingAddCredentialHealthTokens (total value : Z) : Z :=
  if value <=? 0 then total
  else if int64_max - value <? total then int64_max
  else total + value.

Definition countRow (row : credentialHealthLoadRow) (c : credentialHealthBucketCounts)
    : credentialHealthBucketCounts :=
  mkCounts (if hrFailed row then hcSuccess c else add64 (hcSuccess c) 1)
    (if hrFailed row then add64 (hcFailure c) 1 else hcFailure c)
    (saturatingAddCredentialHealthTokens (hcInputTokens c) (Z.max (hrInputTokens row) 0))
    (saturatingAddCredentialHealthTokens (hcCacheReadTokens c) (Z.max (hrCacheReadTokens row) 0)).

Definition Buckets : Type := gmap Z credentialHealthBucketCounts.

(** ** The cache *)

Record UsageRecentEventCache := mkCache {
  rcEvents : list RecentUsageEvent;
  rcPool : Pool;
  rcBuckets : gmap credentialHealthKey Buckets;
  rcLastFullPruneUnix : Z;
  rcWindow : Duration;
}.

Definition withEvents (events : list RecentUsageEvent) (pool : Pool) (c : UsageRecentEventCache)
    : UsageRecentEventCache :=
  mkCache events pool (rcBuckets c) (rcLastFullPruneUnix c) (rcWindow c).
Definition withBuckets (buckets : gmap credentialHealthKey Buckets) (lastFullPruneUnix : Z)
    (c : UsageRecentEventCache) : UsageRecentEventCache :=
  mkCache (rcEvents c) (rcPool c) buckets lastFullPruneUnix (rcWindow c).

Definition newEmptyUsageRecentEventCache (window : Duration) : UsageRecentEventCache :=
  mkCache [] ∅ ∅ 0 (if window <=? 0 then usageRecentEventCacheDefaultWindow else window).

(** What an event looks like in the cache. *)
Definition recentEvent (row : recentUsageEventLoadRow) : RecentUsageEvent :=
  let '(identityKind, fallbackLabel) :=
    usageRecentIdentityFallback (rlAuthType row) (rlSource row) (rlProvider row) in
  mkRecentEvent (NormalizeStorageTime (rlTimestamp row)) (TrimSpace (rlAPIGroupKey row))
    (TrimSpace (rlModel row)) (TrimSpace (rlModelAlias row)) (TrimSpace (rlAuthIndex row))
    (TrimSpace (rlServiceTier row)) (TrimSpace (rlResponseServiceTier row))
    (TrimSpace (rlReasoningEffort row)) (TrimSpace (rlEndpoint row)) (TrimSpace (rlExecutorType row))
    identityKind fallbackLabel (rlFailed row) (rlGenerate row) (rlLatencyMS row) (rlTTFTMS row)
    (rlInputTokens row) (rlOutputTokens row) (rlReasoningTokens row) (rlCachedTokens row)
    (rlCacheReadTokens row) (rlCacheCreationTokens row) (rlTotalTokens row).

Definition recentEventFromRowLocked (row : recentUsageEventLoadRow) (p : Pool) : RecentUsageEvent * Pool :=
  let event := recentEvent row in (event, foldl (fun p v => intern v p) p (pooled event)).

Fixpoint appendRecentEventsLocked (rows : list recentUsageEventLoadRow) (c : UsageRecentEventCache)
    : UsageRecentEventCache :=
  match rows with
  | [] => c
  | row :: rows =>
      let '(event, pool) := recentEventFromRowLocked row (rcPool c) in
      appendRecentEventsLocked rows (withEvents (rcEvents c ++ [event]) pool c)
  end.

Definition releaseEventStringsLocked (e : RecentUsageEvent) (p : Pool) : Pool :=
  foldl (fun p v => release v p) p (pooled e).

(** The loop over the events: those that are kept, and the pool. *)
Fixpoint pruneEvents (cutoff : Time) (events : list RecentUsageEvent) (p : Pool) : list RecentUsageEvent * Pool :=
  match events with
  | [] => ([], p)
  | e :: events =>
      if reTimestamp e <? cutoff then pruneEvents cutoff events (releaseEventStringsLocked e p)
      else let '(kept, p) := pruneEvents cutoff events p in (e :: kept, p)
  end.

Definition pruneLocked (now : Time) (c : UsageRecentEventCache) : UsageRecentEventCache :=
  let '(kept, pool) := pruneEvents (now - rcWindow c) (rcEvents c) (rcPool c) in withEvents kept pool c.

Fixpoint appendCredentialHealthRowsLocked (rows : list credentialHealthLoadRow)
    (touched : gset credentialHealthKey) (c : UsageRecentEventCache)
    : UsageRecentEventCache * gset credentialHealthKey :=
  match rows with
  | [] => (c, touched)
  | row :: rows =>
      let '(key, ok) := newCredentialHealthKey (hrAuthType row) (hrAuthIndex row) in
      if negb ok then appendCredentialHealthRowsLocked rows touched c
      else
        let bucketUnix := credentialHealthBucketUnix (hrTimestamp row) in
        let buckets := default ∅ (rcBuckets c !! key) in
        let counts := default zeroCounts (buckets !! bucketUnix) in
        let buckets := <[bucketUnix := countRow row counts]> buckets in
        appendCredentialHealthRowsLocked rows ({[key]} ∪ touched)
          (withBuckets (<[key := buckets]> (rcBuckets c)) (rcLastFullPruneUnix c) c)
  end.

Definition pruneCredentialHealthKeyLocked (cutoff : Z) (key : credentialHealthKey)
    (m : gmap credentialHealthKey Buckets) : gmap credentialHealthKey Buckets :=
  let buckets := filter (fun p => cutoff <= p.1) (default ∅ (m !! key)) in
  if (size buckets =? 0)%nat then delete key m else <[key := buckets]> m.

Definition shouldFullPruneCredentialHealthLocked (fullPruneUnix : Z) (c : UsageRecentEventCache) : bool :=
  (rcLastFullPruneUnix c =? 0)
  || (credentialHealthBucketSpan / Second <=? fullPruneUnix - rcLastFullPruneUnix c).

(** [touched] is nil for a full pruning. *)
Definition pruneCredentialHealthLocked (now : Time) (touched : option (gset credentialHealthKey))
    (c : UsageRecentEventCache) : UsageRecentEventCache :=
  let fullPruneUnix := Unix (credentialHealthWindowEnd now) in
  if (size (rcBuckets c) =? 0)%nat then withBuckets (rcBuckets c) fullPruneUnix c
  else
    let cutoff := Unix (credentialHealthWindowStart now) in
    let prune_all keys := foldr (pruneCredentialHealthKeyLocked cutoff) (rcBuckets c) keys in
    match touched with
    | Some keys =>
        if shouldFullPruneCredentialHealthLocked fullPruneUnix c
        then withBuckets (prune_all (map_to_list (rcBuckets c)).*1) fullPruneUnix c
        else withBuckets (prune_all (elements keys)) (rcLastFullPruneUnix c) c
    | None => withBuckets (prune_all (map_to_list (rcBuckets c)).*1) fullPruneUnix c
    end.

(** appendEvents, with the reading of the clock. *)
Definition appendEvents (events : list UsageEvent) (now : Time) (c : UsageRecentEventCache)
    : UsageRecentEventCache :=
  match events with
  | [] => c
  | _ =>
      let now := NormalizeStorageTime now in
      let c := appendRecentEventsLocked (map loadRow events) c in
      let '(c, touched) := appendCredentialHealthRowsLocked (credentialHealthRowsFromUsageEvents events) ∅ c in
      pruneCredentialHealthLocked now (Some touched) (pruneLocked now c)
  end.

(** ** Reading *)

Definition inGroup (apiGroupKey : string) (e : RecentUsageEvent) : bool :=
  (apiGroupKey =?s EmptyString) || (reAPIGroupKey e =?s apiGroupKey).

(** A nil cache answers [None]. *)
Definition Events (start end_ : Time) (includeEnd : bool) (apiGroupKey : string)
    (c : option UsageRecentEventCache) : option (list RecentUsageEvent) :=
  match c with
  | None => None
  | Some c =>
      if (end_ <? start) || (negb includeEnd && (end_ =? start)) then Some []
      else Some (filter (fun e =>
        negb (reTimestamp e <? start) &&
        (if includeEnd then negb (end_ <? reTimestamp e) else reTimestamp e <? end_) &&
        inGroup (TrimSpace apiGroupKey) e = true) (rcEvents c))
  end.

Definition EventsSince (start : Time) (apiGroupKey : string) (c : option UsageRecentEventCache)
    : option (list RecentUsageEvent) :=
  match c with
  | None => None
  | Some c => Some (filter (fun e =>
      negb (reTimestamp e <? start) && inGroup (TrimSpace apiGroupKey) e = true) (rcEvents c))
  end.

Definition Window (c : option UsageRecentEventCache) : Duration :=
  match c with None => 0 | Some c => rcWindow c end.

Record CredentialHealthBucket := mkHealthBucket {
  hbStartTime : Time;
  hbEndTime : Time;
  hbSuccess : Z;
  hbFailure : Z;
  hbRate : float64;
}.

Record CredentialHealthSnapshot := mkHealthSnapshot {
  hsWindowSeconds : Z;
  hsBucketSeconds : Z;
  hsWindowStart : Time;
  hsWindowEnd : Time;
  hsTotalSuccess : Z;
  hsTotalFailure : Z;
  hsSuccessRate : float64;
  hsInputTokens : Z;
  hsCacheReadTokens : Z;
  hsBuckets : list CredentialHealthBucket;
}.

Definition rateOf (success failure : Z) : float64 :=
  let total := add64 success failure in
  if 0 <? total then f64_div (f64_of_int success) (f64_of_int total) else f64_zero.

Definition healthBucket (countsByUnix : Buckets) (bucketStart : Time) : CredentialHealthBucket :=
  let counts := default zeroCounts (countsByUnix !! Unix bucketStart) in
  mkHealthBucket bucketStart (bucketStart + credentialHealthBucketSpan) (hcSuccess counts) (hcFailure counts)
    (rateOf (hcSuccess counts) (hcFailure counts)).

(** The starts the loop visits. *)
Fixpoint bucketStarts (fuel : nat) (bucketStart windowEnd : Time) : list Time :=
  match fuel with
  | O => []
  | S fuel =>
      if bucketStart <? windowEnd
      then bucketStart :: bucketStarts fuel (bucketStart + credentialHealthBucketSpan) windowEnd
      else []
  end.

(** success, failure, input and cache read tokens in one step of the loop. *)
Definition addTotals (t : credentialHealthBucketCounts) (c : credentialHealthBucketCounts)
    : credentialHealthBucketCounts :=
  mkCounts (add64 (hcSuccess t) (hcSuccess c)) (add64 (hcFailure t) (hcFailure c))
    (saturatingAddCredentialHealthTokens (hcInputTokens t) (hcInputTokens c))
    (saturatingAddCredentialHealthTokens (hcCacheReadTokens t) (hcCacheReadTokens c)).

Definition buildCredentialHealthSnapshot (countsByUnix : Buckets) (now : Time) : CredentialHealthSnapshot :=
  let windowEnd := credentialHealthWindowEnd now in
  let windowStart := windowEnd - credentialHealthWindow in
  let starts := bucketStarts 31 windowStart windowEnd in
  let totals := foldl addTotals zeroCounts
                  (map (fun s => default zeroCounts (countsByUnix !! Unix s)) starts) in
  mkHealthSnapshot (credentialHealthWindow / Second) (credentialHealthBucketSpan / Second) windowStart windowEnd
    (hcSuccess totals) (hcFailure totals)
    (if 0 <? add64 (hcSuccess totals) (hcFailure totals)
     then f64_mul (rateOf (hcSuccess totals) (hcFailure totals)) (f64_of_int 100) else f64_zero)
    (hcInputTokens totals) (hcCacheReadTokens totals) (map (healthBucket countsByUnix) starts).

Definition EmptyCredentialHealthSnapshot (now : Time) : CredentialHealthSnapshot :=
  buildCredentialHealthSnapshot ∅ now.

Definition CredentialHealth (authType authIndex : string) (now : Time) (c : option UsageRecentEventCache)
    : option CredentialHealthSnapshot :=
  match c with
  | None => None
  | Some c =>
      let '(key, ok) := newCredentialHealthKey authType authIndex in
      if negb ok then Some (buildCredentialHealthSnapshot ∅ now)
      else Some (buildCredentialHealthSnapshot (default ∅ (rcBuckets c !! key)) now)
  end.

(** recentUsageEventToEntity: the other fields are zero. *)
Definition recentUsageEventToEntity (event : RecentUsageEvent) : UsageEvent :=
  mkUsageEvent 0 EmptyString (reAPIGroupKey event) EmptyString (reEndpoint event) EmptyString EmptyString
    EmptyString None None None None (reModel event)
    (let modelAlias := TrimSpace (reModelAlias event) in
     if modelAlias =?s EmptyString then None else Some modelAlias)
    EmptyString (reReasoningEffort event) (reServiceTier event) (reResponseServiceTier event)
    (reExecutorType event) (reTimestamp event) EmptyString (reAuthIndex event) (reFailed event) None
    (Some (reGenerate event)) None (reLatencyMS event) (reTTFTMS event) (reInputTokens event)
    (reOutputTokens event) (reReasoningTokens event) (reCachedTokens event) (reCacheReadTokens event) false
    (reCacheCreationTokens event) (reTotalTokens event) zero_time.

(** ** Loading at the start *)

Section Load.
Context (local : Location) (fault : nat -> option string).
Abbreviation Failing A := (Sql (list UsageEvent) (result string A)).
Local Open Scope sql_scope.

Definition timestampText (e : UsageEvent) : string := FormatStorageTime local (evTimestamp e).

(** WHERE timestamp >= ?, the texts compared. *)
Definition fromTimestamp (start : Time) (events : list UsageEvent) : list UsageEvent :=
  filter (fun e => string_lt (timestampText e) (FormatStorageTime local start) = false) events.

(** ORDER BY timestamp asc, events of one text in the order of the table, which is
    that of the ids. *)
Definition timestampOrder (a b : UsageEvent) : Prop := string_lt (timestampText b) (timestampText a) = false.
#[export] Instance timestampOrder_dec : RelDecision timestampOrder :=
  fun a b => decide (string_lt (timestampText b) (timestampText a) = false).

Definition loadUsageRecentEventCacheRows (start : Time) : Failing (list recentUsageEventLoadRow) :=
  wrap "load usage recent event cache rows: " (query fault (fun events =>
    map loadRow (merge_sort timestampOrder (fromTimestamp start events)))).

(** The loop over the cursor: a row is scanned, and a full batch is handled. *)
Fixpoint scanRows (batchSize : Z) (rows batch : list credentialHealthLoadRow) (c : UsageRecentEventCache)
    : Failing UsageRecentEventCache :=
  match rows with
  | [] =>
      try$ _ := wrap "iterate credential health cache rows: " (query fault (fun _ => tt)) in
      sql_ret (Ok (appendCredentialHealthRowsLocked batch ∅ c).1)
  | row :: rows =>
      try$ _ := wrap "scan credential health cache row: " (query fault (fun _ => tt)) in
      let batch := batch ++ [row] in
      if Z.of_nat (length batch) <? batchSize then scanRows batchSize rows batch c
      else scanRows batchSize rows [] (appendCredentialHealthRowsLocked batch ∅ c).1
  end.

Definition loadCredentialHealthCacheRowsBatched (start : Time) (batchSize : Z) (c : UsageRecentEventCache)
    : Failing UsageRecentEventCache :=
  let batchSize := if batchSize <=? 0 then credentialHealthStartupBatchSize else batchSize in
  try$ rows := wrap "load credential health cache rows: " (query fault (fun events =>
    map credentialHealthRow (merge_sort timestampOrder (fromTimestamp start events)))) in
  scanRows batchSize rows [] c.

(** A cache that cannot be filled is closed and not returned. *)
Definition NewUsageRecentEventCache (database : bool) (window : Duration) (now : Time)
    : Failing UsageRecentEventCache :=
  let c := newEmptyUsageRecentEventCache window in
  if negb database then sql_ret (Err "database is nil")
  else
    let now := NormalizeStorageTime now in
    try$ rows := loadUsageRecentEventCacheRows (now - rcWindow c) in
    let c := pruneLocked now (appendRecentEventsLocked rows c) in
    try$ c := loadCredentialHealthCacheRowsBatched (now - credentialHealthWindow)
                credentialHealthStartupBatchSize c in
    sql_ret (Ok (pruneCredentialHealthLocked now None c)).

End Load.

(** ** The queue: producers, the worker and Close

    A producer looks whether the cache is closed, takes a slot before it copies its
    batch, and sends the copy; the worker gives the slot back when it has received the
    batch, and then appends it.  [rqSent] and [rqAppended] are the batches so far, with
    the clock of the append. *)
Record RecentQueue := mkQueue {
  rqSize : nat;
  rqSlots : nat;
  rqChecked : list (list UsageEvent);
  rqHolding : list (list UsageEvent);
  rqQueue : list (list UsageEvent);
  rqReceived : option (list UsageEvent);
  rqWorking : option (list UsageEvent);
  rqClosed : bool;
  rqDone : bool;
  rqCache : UsageRecentEventCache;
  rqSent : list (list UsageEvent);
  rqAppended : list (list UsageEvent * Time);
}.

Definition queueSizeOf (option_ : Z) : Z :=
  if option_ <=? 0 then usageRecentEventCacheDefaultQueueSize else option_.

Definition newQueue (queueSize : Z) (c : UsageRecentEventCache) : RecentQueue :=
  let n := Z.to_nat (queueSizeOf queueSize) in
  mkQueue n n [] [] [] None None false false c [] [].

(** releaseAppendSlot: a full channel of slots keeps its length. *)
Definition releaseAppendSlot (size slots : nat) : nat := if (slots <? size)%nat then S slots else slots.

(** What TryAppend answers where a step ends it. *)
Inductive QueueStep : RecentQueue -> option bool -> RecentQueue -> Prop :=
(* TryAppend *)
| append_nothing q : QueueStep q (Some true) q
| append_closed q : rqClosed q = true -> QueueStep q (Some false) q
| append_check size slots checked holding queue received working done c sent appended batch : batch <> [] ->
    QueueStep (mkQueue size slots checked holding queue received working false done c sent appended) None
              (mkQueue size slots (checked ++ [batch]) holding queue received working false done c sent appended)
| append_full size a batch b holding queue received working closed done c sent appended :
    QueueStep (mkQueue size 0 (a ++ batch :: b) holding queue received working closed done c sent appended)
              (Some false)
              (mkQueue size 0 (a ++ b) holding queue received working closed done c sent appended)
| append_slot size slots a batch b holding queue received working closed done c sent appended :
    QueueStep (mkQueue size (S slots) (a ++ batch :: b) holding queue received working closed done c sent appended)
              None
              (mkQueue size slots (a ++ b) (holding ++ [batch]) queue received working closed done c sent appended)
| append_send size slots checked a batch b queue received working closed done c sent appended :
    (length queue < size)%nat ->
    QueueStep (mkQueue size slots checked (a ++ batch :: b) queue received working closed done c sent appended)
              (Some true)
              (mkQueue size slots checked (a ++ b) (queue ++ [batch]) received working closed done c
                 (sent ++ [batch]) appended)
| append_stopped size slots checked a batch b queue received working done c sent appended :
    QueueStep (mkQueue size slots checked (a ++ batch :: b) queue received working true done c sent appended)
              (Some false)
              (mkQueue size (releaseAppendSlot size slots) checked (a ++ b) queue received working true done c
                 sent appended)
| append_default size slots checked a batch b queue received working done c sent appended :
    length queue = size ->
    QueueStep (mkQueue size slots checked (a ++ batch :: b) queue received working false done c sent appended)
              (Some false)
              (mkQueue size (releaseAppendSlot size slots) checked (a ++ b) queue received working false done c
                 sent appended)
(* run *)
| worker_receive size slots checked holding batch queue closed c sent appended :
    QueueStep (mkQueue size slots checked holding (batch :: queue) None None closed false c sent appended) None
              (mkQueue size slots checked holding queue (Some batch) None closed false c sent appended)
| worker_release size slots checked holding queue batch closed c sent appended :
    QueueStep (mkQueue size slots checked holding queue (Some batch) None closed false c sent appended) None
              (mkQueue size (releaseAppendSlot size slots) checked holding queue None (Some batch) closed false c
                 sent appended)
| worker_append size slots checked holding queue batch closed c sent appended now :
    QueueStep (mkQueue size slots checked holding queue None (Some batch) closed false c sent appended) None
              (mkQueue size slots checked holding queue None None closed false (appendEvents batch now c) sent
                 (appended ++ [(batch, now)]))
| worker_stop size slots checked holding queue c sent appended :
    QueueStep (mkQueue size slots checked holding queue None None true false c sent appended) None
              (mkQueue size slots checked holding queue None None true true c sent appended)
(* Close *)
| close_stop size slots checked holding queue received working closed done c sent appended :
    QueueStep (mkQueue size slots checked holding queue received working closed done c sent appended) None
              (mkQueue size slots checked holding queue received working true done c sent appended).
