(* ===== verification/RecentEventsFacts.v ===== *)
(** The cache of recent events holds exactly the events of its window, its string
    pool counts exactly the fields that use each string, the health of a credential
    is what counting its events anew gives, and the queue loses nothing it took. *)
From S2P Require Import Prelude GoStrings GoTime Entities Timeutil Sql GoFloat Overview RecentEvents.
From stdpp Require Import sorting.

Local Open Scope string_scope.
Local Open Scope list_scope.
Local Open Scope Z_scope.

(** ** The pool *)

Definition one (v w : string) : Z := if v =?s w then 1 else 0.

Fixpoint occurrences (l : list string) (w : string) : Z :=
  match l with
  | [] => 0
  | v :: l => one v w + occurrences l w
  end.

Lemma occurrences_nonneg l w : 0 <= occurrences l w.
Proof. induction l as [|v l IH]; cbn [occurrences]; [done|]. unfold one. case_match; lia. Qed.

Lemma occurrences_app l k w : occurrences (l ++ k) w = occurrences l w + occurrences k w.
Proof. induction l as [|v l IH]; cbn [occurrences app]; [done|]. rewrite IH. lia. Qed.

(** The pool holds each non-empty string as often as [f] says. *)
Definition pool_counts (p : Pool) (f : string -> Z) : Prop :=
  forall w, p !! w = if (w =?s EmptyString) || (f w <=? 0) then None else Some (f w).

Lemma intern_counts v p f : (forall w, 0 <= f w) -> pool_counts p f ->
  pool_counts (intern v p) (fun w => f w + one v w).
Proof.
  intros N H w. unfold intern, one. pose proof (N w). pose proof (N v).
  destruct (v =?s EmptyString) eqn:Ev; bool_split.
  - rewrite (H w). subst v. destruct (String.eqb_spec w EmptyString) as [|Ne]; [done|].
    rewrite (proj2 (String.eqb_neq EmptyString w)) by congruence. by rewrite Z.add_0_r.
  - rewrite (H v). rewrite (proj2 (String.eqb_neq _ _) Ev). cbn [orb].
    destruct (String.eqb_spec v w) as [<-|Ne].
    + rewrite (proj2 (String.eqb_neq _ _) Ev). cbn [orb]. rewrite (proj2 (Z.leb_gt (f v + 1) 0)) by lia.
      destruct (f v <=? 0) eqn:E; bool_split; (etransitivity; [apply lookup_insert_eq|]); f_equal; lia.
    + rewrite Z.add_0_r. destruct (f v <=? 0); (etransitivity; [by apply lookup_insert_ne|]); apply H.
Qed.

Lemma release_counts v p f : (forall w, one v w <= f w) -> pool_counts p f ->
  pool_counts (release v p) (fun w => f w - one v w).
Proof.
  intros N H w. unfold release. pose proof (N w). pose proof (N v) as Nv. unfold one in *.
  rewrite String.eqb_refl in Nv.
  destruct (v =?s EmptyString) eqn:Ev; bool_split.
  - rewrite (H w). subst v. destruct (String.eqb_spec w EmptyString) as [|Ne]; [done|].
    rewrite (proj2 (String.eqb_neq EmptyString w)) by congruence. by rewrite Z.sub_0_r.
  - rewrite (H v). rewrite (proj2 (String.eqb_neq _ _) Ev), (proj2 (Z.leb_gt _ _)) by lia. cbn [orb].
    clear N Nv H0. destruct (String.eqb_spec v w) as [Evw|Ne]; [subst w|].
    + rewrite (proj2 (String.eqb_neq _ _) Ev). cbn [orb].
      destruct (f v - 1 <=? 0) eqn:E; [apply lookup_delete_eq|apply lookup_insert_eq].
    + rewrite Z.sub_0_r. destruct (f v - 1 <=? 0); (etransitivity; [by first [apply lookup_delete_ne|apply lookup_insert_ne]|]); apply H.
Qed.

Lemma pool_counts_ext p f g : (forall w, f w = g w) -> pool_counts p f -> pool_counts p g.
Proof. intros E H w. by rewrite <- E. Qed.

Lemma intern_all l p f : (forall w, 0 <= f w) -> pool_counts p f ->
  pool_counts (foldl (fun p v => intern v p) p l) (fun w => f w + occurrences l w).
Proof.
  revert p f. induction l as [|v l IH]; intros p f N H; cbn [foldl occurrences].
  { eapply pool_counts_ext; [|exact H]. intros w. lia. }
  eapply pool_counts_ext; [|apply (IH _ (fun w => f w + one v w))].
  - intros w. cbn. lia.
  - intros w. pose proof (N w). unfold one. case_match; lia.
  - by apply intern_counts.
Qed.

Lemma release_all l p f : (forall w, occurrences l w <= f w) -> pool_counts p f ->
  pool_counts (foldl (fun p v => release v p) p l) (fun w => f w - occurrences l w).
Proof.
  revert p f. induction l as [|v l IH]; intros p f N H; cbn [foldl occurrences] in *.
  { eapply pool_counts_ext; [|exact H]. intros w. lia. }
  eapply pool_counts_ext; [|apply (IH _ (fun w => f w - one v w))].
  - intros w. cbn. lia.
  - intros w. pose proof (N w). lia.
  - apply release_counts; [|done]. intros w. pose proof (N w). pose proof (occurrences_nonneg l w). lia.
Qed.

(** How often the events use a string. *)
Definition uses (events : list RecentUsageEvent) : string -> Z := occurrences (concat (map pooled events)).

Lemma uses_app a b w : uses (a ++ b) w = uses a w + uses b w.
Proof. unfold uses. rewrite map_app, concat_app. apply occurrences_app. Qed.

Lemma uses_cons e b w : uses (e :: b) w = occurrences (pooled e) w + uses b w.
Proof. unfold uses. cbn [map concat]. apply occurrences_app. Qed.

Lemma uses_nonneg a w : 0 <= uses a w.
Proof. apply occurrences_nonneg. Qed.

(** ** The events *)

Definition kept_since (cutoff : Time) (events : list RecentUsageEvent) : list RecentUsageEvent :=
  filter (fun e => cutoff <= reTimestamp e) events.

Lemma append_events rows c : pool_counts (rcPool c) (uses (rcEvents c)) ->
  let c' := appendRecentEventsLocked rows c in
  rcEvents c' = rcEvents c ++ map recentEvent rows /\ pool_counts (rcPool c') (uses (rcEvents c')) /\
  rcBuckets c' = rcBuckets c /\ rcLastFullPruneUnix c' = rcLastFullPruneUnix c /\ rcWindow c' = rcWindow c.
Proof.
  revert c. induction rows as [|row rows IH]; intros c H; cbn [appendRecentEventsLocked map].
  { by rewrite app_nil_r. }
  unfold recentEventFromRowLocked. set (e := recentEvent row).
  destruct (IH (withEvents (rcEvents c ++ [e]) (foldl (fun p v => intern v p) (rcPool c) (pooled e)) c)) as (E & P & R).
  - cbn [rcPool rcEvents withEvents]. eapply pool_counts_ext; [|apply intern_all; [apply uses_nonneg|exact H]].
    intros w. rewrite uses_app, (uses_cons e []). change (uses [] w) with 0. lia.
  - split; [|done]. rewrite E. cbn [rcEvents withEvents]. by rewrite <- app_assoc.
Qed.

Lemma prune_counts cutoff events p rest : (forall w, 0 <= rest w) ->
  pool_counts p (fun w => rest w + uses events w) ->
  let '(kept, p') := pruneEvents cutoff events p in
  kept = kept_since cutoff events /\ pool_counts p' (fun w => rest w + uses kept w).
Proof.
  revert p rest. induction events as [|e events IH]; intros p rest N H; cbn [pruneEvents]; [done|].
  unfold kept_since. rewrite filter_cons. destruct (reTimestamp e <? cutoff) eqn:E; bool_split.
  - rewrite decide_False by lia. apply IH; [done|]. unfold releaseEventStringsLocked.
    eapply pool_counts_ext; [|apply release_all; [|exact H]].
    + intros w. cbv beta. rewrite uses_cons. lia.
    + intros w. cbv beta. rewrite uses_cons. pose proof (N w). pose proof (uses_nonneg events w). lia.
  - rewrite decide_True by lia.
    specialize (IH p (fun w => rest w + occurrences (pooled e) w)).
    destruct (pruneEvents cutoff events p) as [kept p'].
    destruct IH as [-> P].
    + intros w. pose proof (N w). pose proof (occurrences_nonneg (pooled e) w). lia.
    + eapply pool_counts_ext; [|exact H]. intros w. cbv beta. rewrite uses_cons. lia.
    + split; [done|]. eapply pool_counts_ext; [|exact P]. intros w. cbv beta. rewrite uses_cons. lia.
Qed.

Lemma prune_events now c : pool_counts (rcPool c) (uses (rcEvents c)) ->
  let c' := pruneLocked now c in
  rcEvents c' = kept_since (now - rcWindow c) (rcEvents c) /\ pool_counts (rcPool c') (uses (rcEvents c')) /\
  rcBuckets c' = rcBuckets c /\ rcLastFullPruneUnix c' = rcLastFullPruneUnix c /\ rcWindow c' = rcWindow c.
Proof.
  intros H. unfold pruneLocked. pose proof (prune_counts (now - rcWindow c) (rcEvents c) (rcPool c) (fun _ => 0)) as P.
  destruct (pruneEvents _ _ _) as [kept p]. destruct P as [-> P]; [done| |].
  - by eapply pool_counts_ext; [|exact H].
  - split; [done|]. split; [|done]. by eapply pool_counts_ext; [|exact P].
Qed.

Lemma kept_since_twice a b l : a <= b -> kept_since b (kept_since a l) = kept_since b l.
Proof.
  intros H. unfold kept_since. rewrite list_filter_filter. apply list_filter_iff. intros e. lia.
Qed.

(** ** Health: what the buckets hold *)

Definition rowKey (row : credentialHealthLoadRow) : credentialHealthKey := (hrAuthType row, hrAuthIndex row).
Definition valid_key (k : credentialHealthKey) : Prop := (newCredentialHealthKey k.1 k.2).2 = true.

Definition tally (rows : list credentialHealthLoadRow) : credentialHealthBucketCounts :=
  foldl (fun c row => countRow row c) zeroCounts rows.

Definition bucketRows (k : credentialHealthKey) (b : Z) (rows : list credentialHealthLoadRow)
    : list credentialHealthLoadRow :=
  filter (fun row => rowKey row = k /\ credentialHealthBucketUnix (hrTimestamp row) = b) rows.

Definition look (m : gmap credentialHealthKey Buckets) (k : credentialHealthKey) (b : Z)
    : credentialHealthBucketCounts :=
  default zeroCounts (default ∅ (m !! k) !! b).

(** From [cutoff] on each bucket of each credential is the tally of its rows. *)
Definition health_ok (cutoff : Z) (m : gmap credentialHealthKey Buckets)
    (rows : list credentialHealthLoadRow) : Prop :=
  forall k b, valid_key k -> cutoff <= b -> look m k b = tally (bucketRows k b rows).

Lemma look_insert m k b k' b' c :
  look (<[k := <[b := c]> (default ∅ (m !! k))]> m) k' b'
    = if decide (k = k' /\ b = b') then c else look m k' b'.
Proof.
  unfold look, Buckets in *. destruct (decide (k = k')) as [<-|Ne].
  - rewrite (lookup_insert_eq m). cbn [from_option id]. destruct (decide (b = b')) as [<-|Nb].
    + rewrite (lookup_insert_eq (default ∅ (m !! k))). by rewrite decide_True.
    + rewrite (lookup_insert_ne (default ∅ (m !! k))) by done. by rewrite decide_False by (by intros []).
  - rewrite (lookup_insert_ne m) by done. by rewrite decide_False by (by intros []).
Qed.

Lemma append_health rows touched c R cutoff : health_ok cutoff (rcBuckets c) R ->
  let c' := (appendCredentialHealthRowsLocked rows touched c).1 in
  health_ok cutoff (rcBuckets c') (R ++ rows) /\ rcEvents c' = rcEvents c /\ rcPool c' = rcPool c /\
  rcWindow c' = rcWindow c.
Proof.
  revert touched c R. induction rows as [|row rows IH]; intros touched c R H; cbn [appendCredentialHealthRowsLocked].
  { by rewrite app_nil_r. }
  replace (R ++ row :: rows) with ((R ++ [row]) ++ rows) by (by rewrite <- app_assoc).
  destruct (newCredentialHealthKey (hrAuthType row) (hrAuthIndex row)) as [key ok] eqn:Ek.
  assert (Key : key = rowKey row) by (by injection Ek). subst key.
  destruct ok; cbn [negb].
  - match goal with |- context [appendCredentialHealthRowsLocked rows ?t ?c1] =>
      refine (IH t c1 (R ++ [row]) _) end.
    cbn [rcBuckets withBuckets]. intros k b V L. rewrite look_insert.
    unfold bucketRows. rewrite filter_app, filter_cons, filter_nil. cbn [app].
    case_decide as D.
    + destruct D as [<- <-]. unfold tally. rewrite foldl_app. cbn [foldl]. f_equal.
      change (default zeroCounts (default ∅ (rcBuckets c !! rowKey row) !! _))
        with (look (rcBuckets c) (rowKey row) (credentialHealthBucketUnix (hrTimestamp row))). by apply H.
    + rewrite app_nil_r. by apply H.
  - apply IH. intros k b V L. unfold bucketRows. rewrite filter_app, filter_cons, filter_nil.
    rewrite decide_False; [rewrite app_nil_r; by apply H|]. intros [<- _].
    unfold valid_key, rowKey in V. cbn [fst snd] in V. rewrite Ek in V. done.
Qed.

Lemma filter_since (m : gmap Z credentialHealthBucketCounts) cutoff b : cutoff <= b ->
  filter (fun p => cutoff <= p.1) m !! b = m !! b.
Proof. intros H. rewrite map_lookup_filter. destruct (m !! b); [|done]. cbn. by rewrite option_guard_True. Qed.

Lemma prune_key_look cutoff key m k b : cutoff <= b ->
  look (pruneCredentialHealthKeyLocked cutoff key m) k b = look m k b.
Proof.
  intros H. unfold pruneCredentialHealthKeyLocked. set (kept := filter _ (default ∅ (m !! key))).
  assert (E : kept !! b = default ∅ (m !! key) !! b).
  { by apply filter_since. }
  unfold look. destruct (decide (key = k)) as [<-|Ne].
  - rewrite <- E. destruct (size kept =? 0)%nat eqn:Sz; [|by rewrite (lookup_insert_eq m)].
    apply Nat.eqb_eq, map_size_empty_inv in Sz. by rewrite (lookup_delete_eq m), Sz.
  - destruct (_ =? _)%nat; [by rewrite (lookup_delete_ne m)|by rewrite (lookup_insert_ne m)].
Qed.

Lemma prune_health now touched c R cutoff :
  health_ok cutoff (rcBuckets c) R -> cutoff <= Unix (credentialHealthWindowStart now) ->
  let c' := pruneCredentialHealthLocked now touched c in
  health_ok (Unix (credentialHealthWindowStart now)) (rcBuckets c') R /\
  rcEvents c' = rcEvents c /\ rcPool c' = rcPool c /\ rcWindow c' = rcWindow c.
Proof.
  intros H L. unfold pruneCredentialHealthLocked. set (cut := Unix (credentialHealthWindowStart now)) in *.
  assert (P : forall keys, health_ok cut (foldr (pruneCredentialHealthKeyLocked cut) (rcBuckets c) keys) R).
  { intros keys k b V Lb. rewrite <- (H k b V) by lia. induction keys as [|key keys IH]; [done|]. cbn [foldr].
    by rewrite prune_key_look. }
  assert (W : health_ok cut (rcBuckets c) R) by (intros k b V Lb; apply H; [done|lia]).
  destruct (_ =? 0)%nat; [done|]. destruct touched as [keys|]; [|by split_and!; [apply P|..]].
  destruct (shouldFullPruneCredentialHealthLocked _ c); by split_and!; [apply P|..].
Qed.

(** ** Times *)

Lemma Truncate_mult t d : Truncate t d = zero_time + (t - zero_time) / d * d.
Proof. unfold Truncate. destruct (decide (d = 0)) as [->|Hd]; [rewrite Zmod_0_r; lia|]. pose proof (Z.div_mod (t - zero_time) d Hd). lia. Qed.

Lemma Truncate_mono a b d : 0 < d -> a <= b -> Truncate a d <= Truncate b d.
Proof.
  intros Hd H. rewrite !Truncate_mult. pose proof (Z.div_le_mono (a - zero_time) (b - zero_time) d Hd). nia.
Qed.

Lemma Unix_mono a b : a <= b -> Unix a <= Unix b.
Proof. intros H. unfold Unix. apply Z.div_le_mono; [unfold Second; lia|done]. Qed.

Lemma window_start_mono a b : a <= b ->
  Unix (credentialHealthWindowStart a) <= Unix (credentialHealthWindowStart b).
Proof.
  intros H. apply Unix_mono. unfold credentialHealthWindowStart, credentialHealthWindowEnd, NormalizeStorageTime.
  pose proof (Truncate_mono a b credentialHealthBucketSpan). unfold credentialHealthBucketSpan, Minute, Second in *. lia.
Qed.

(** ** A batch *)

(** [T] is the last reading of the clock, [E] and [H] the rows so far. *)
Record cache_ok (c : UsageRecentEventCache) (E : list recentUsageEventLoadRow) (H : list credentialHealthLoadRow)
    (T : Time) : Prop := {
  ok_events : rcEvents c = kept_since (T - rcWindow c) (map recentEvent E);
  ok_pool : pool_counts (rcPool c) (uses (rcEvents c));
  ok_health : health_ok (Unix (credentialHealthWindowStart T)) (rcBuckets c) H;
}.

Lemma append_ok events now c E H T : cache_ok c E H T -> T <= now -> events <> [] ->
  cache_ok (appendEvents events now c) (E ++ map loadRow events)
    (H ++ credentialHealthRowsFromUsageEvents events) now /\
  rcWindow (appendEvents events now c) = rcWindow c.
Proof.
  intros [Ev P He] L Ne. destruct events as [|e0 events0]; [done|].
  assert (Events0 : e0 :: events0 <> []) by done. set (events := e0 :: events0) in *.
  assert (U : appendEvents events now c =
    (let c := appendRecentEventsLocked (map loadRow events) c in
     let '(c, touched) := appendCredentialHealthRowsLocked (credentialHealthRowsFromUsageEvents events) ∅ c in
     pruneCredentialHealthLocked now (Some touched) (pruneLocked now c))) by done.
  rewrite U. clear U. cbv zeta.
  destruct (append_events (map loadRow events) c P) as (E1 & P1 & B1 & _ & W1).
  set (c1 := appendRecentEventsLocked (map loadRow events) c) in *.
  assert (H1 : health_ok (Unix (credentialHealthWindowStart T)) (rcBuckets c1) H) by (by rewrite B1).
  pose proof (append_health (credentialHealthRowsFromUsageEvents events) ∅ c1 H _ H1) as A.
  destruct (appendCredentialHealthRowsLocked _ ∅ c1) as [c2 touched]. cbn [fst] in A. destruct A as (H2 & E2 & P2 & W2).
  assert (P3 : pool_counts (rcPool c2) (uses (rcEvents c2))) by (by rewrite P2, E2).
  destruct (prune_events now c2 P3) as (E4 & P4 & B4 & _ & W4). set (c3 := pruneLocked now c2) in *.
  assert (H3 : health_ok (Unix (credentialHealthWindowStart T)) (rcBuckets c3) (H ++ credentialHealthRowsFromUsageEvents events))
    by (by rewrite B4).
  destruct (prune_health now (Some touched) c3 _ _ H3 (window_start_mono _ _ L)) as (H5 & E5 & P5 & W5).
  split; [|congruence]. split.
  - rewrite E5, E4, E2, E1, Ev, W5, W4, W2, W1, map_app. unfold kept_since at 1 2.
    rewrite filter_app. fold (kept_since (T - rcWindow c) (map recentEvent E)).
    change (filter (fun e => now - rcWindow c <= reTimestamp e)) with (kept_since (now - rcWindow c)).
    rewrite kept_since_twice by lia. unfold kept_since. by rewrite filter_app.
  - by rewrite P5, E5.
  - exact H5.
Qed.

(** Counting the rows of a credential anew: the buckets of the snapshot and its totals
    are the counts over its slots of ten minutes and over its five hours. *)

Local Open Scope string_scope.
Local Open Scope list_scope.
Local Open Scope Z_scope.

(** ** Counts of a list of rows *)

Definition failures (rows : list credentialHealthLoadRow) : Z :=
  Z.of_nat (length (filter (fun row => hrFailed row = true) rows)).
Definition successes (rows : list credentialHealthLoadRow) : Z :=
  Z.of_nat (length (filter (fun row => hrFailed row = false) rows)).
Definition tokens (f : credentialHealthLoadRow -> Z) (rows : list credentialHealthLoadRow) : Z :=
  sum_Z (map (fun row => Z.max (f row) 0) rows).

Definition counts_of (rows : list credentialHealthLoadRow) : credentialHealthBucketCounts :=
  mkCounts (successes rows) (failures rows) (Z.min int64_max (tokens hrInputTokens rows))
    (Z.min int64_max (tokens hrCacheReadTokens rows)).

Definition countable_rows (rows : list credentialHealthLoadRow) : Prop := Z.of_nat (length rows) <= int64_max.

Lemma successes_app a b : successes (a ++ b) = successes a + successes b.
Proof. unfold successes. rewrite filter_app, length_app. lia. Qed.

Lemma failures_app a b : failures (a ++ b) = failures a + failures b.
Proof. unfold failures. rewrite filter_app, length_app. lia. Qed.

Lemma tokens_app f a b : tokens f (a ++ b) = tokens f a + tokens f b.
Proof. unfold tokens. by rewrite map_app, sum_Z_app. Qed.

Lemma tokens_nonneg f rows : 0 <= tokens f rows.
Proof. apply sum_Z_nonneg, Forall_fmap, Forall_true. intros row. cbn. lia. Qed.

Lemma successes_one row : successes [row] = if hrFailed row then 0 else 1.
Proof. unfold successes. rewrite filter_cons, filter_nil. destruct (hrFailed row); by case_decide. Qed.

Lemma failures_one row : failures [row] = if hrFailed row then 1 else 0.
Proof. unfold failures. rewrite filter_cons, filter_nil. destruct (hrFailed row); by case_decide. Qed.

Lemma tokens_one f row : tokens f [row] = Z.max (f row) 0.
Proof. unfold tokens. cbn. lia. Qed.

Lemma calls_bound rows : 0 <= successes rows /\ 0 <= failures rows /\
  successes rows + failures rows = Z.of_nat (length rows).
Proof.
  split; [unfold successes; lia|]. split; [unfold failures; lia|].
  induction rows as [|row rows IH]; [done|].
  change (row :: rows) with ([row] ++ rows). rewrite successes_app, failures_app, length_app, successes_one, failures_one.
  destruct (hrFailed row); cbn [length]; lia.
Qed.

#[export] Instance counts_of_Permutation : Proper (Permutation ==> eq) counts_of.
Proof.
  intros a b P. unfold counts_of, successes, failures, tokens. f_equal; f_equal;
    first [by apply Permutation_length, filter_Permutation | by apply sum_Z_Permutation, Permutation_map].
Qed.

Lemma saturating_min a b : 0 <= a -> 0 <= b ->
  saturatingAddCredentialHealthTokens (Z.min int64_max a) (Z.min int64_max b) = Z.min int64_max (a + b).
Proof.
  intros A B. unfold saturatingAddCredentialHealthTokens. assert (0 < int64_max) by done.
  destruct (_ <=? 0) eqn:E; bool_split; [lia|]. destruct (_ <? _) eqn:E2; bool_split; lia.
Qed.

Lemma saturating_row a v : 0 <= a ->
  saturatingAddCredentialHealthTokens (Z.min int64_max a) (Z.max v 0) = Z.min int64_max (a + Z.max v 0).
Proof.
  intros A. unfold saturatingAddCredentialHealthTokens. assert (0 < int64_max) by done.
  destruct (_ <=? 0) eqn:E; bool_split; [lia|]. destruct (_ <? _) eqn:E2; bool_split; lia.
Qed.

Lemma addTotals_counts a b : countable_rows (a ++ b) ->
  addTotals (counts_of a) (counts_of b) = counts_of (a ++ b).
Proof.
  intros H. unfold countable_rows in H. rewrite length_app in H.
  destruct (calls_bound a) as (? & ? & ?), (calls_bound b) as (? & ? & ?).
  unfold addTotals, counts_of. cbn [hcSuccess hcFailure hcInputTokens hcCacheReadTokens].
  rewrite successes_app, failures_app, !tokens_app, !saturating_min by apply tokens_nonneg.
  unfold64. by rewrite !add64_id by (unfold64; lia).
Qed.

Lemma countRow_counts row rows : countable_rows (rows ++ [row]) ->
  countRow row (counts_of rows) = counts_of (rows ++ [row]).
Proof.
  intros H. unfold countable_rows in H. rewrite length_app in H. cbn [length] in H.
  destruct (calls_bound rows) as (? & ? & ?).
  unfold countRow, counts_of. cbn [hcSuccess hcFailure hcInputTokens hcCacheReadTokens].
  rewrite successes_app, failures_app, !tokens_app, !saturating_row by apply tokens_nonneg.
  rewrite !tokens_one, successes_one, failures_one.
  destruct (hrFailed row); rewrite add64_id by (unfold64; lia); f_equal; lia.
Qed.

Lemma tally_counts rows : countable_rows rows -> tally rows = counts_of rows.
Proof.
  induction rows as [|row rows IH] using rev_ind; intros H; [done|].
  unfold tally. rewrite foldl_app. cbn [foldl]. fold (tally rows).
  rewrite IH; [by apply countRow_counts|]. unfold countable_rows in *. rewrite length_app in H. lia.
Qed.

(** ** Slots *)

Definition rowsBetween (k : credentialHealthKey) (lo hi : Time) (rows : list credentialHealthLoadRow)
    : list credentialHealthLoadRow :=
  filter (fun row => rowKey row = k /\ lo <= hrTimestamp row < hi) rows.

Lemma rowsBetween_countable k lo hi rows : countable_rows rows -> countable_rows (rowsBetween k lo hi rows).
Proof. unfold countable_rows. pose proof (length_filter (fun row => rowKey row = k /\ lo <= hrTimestamp row < hi) rows). unfold rowsBetween. lia. Qed.

Lemma rowsBetween_split k lo mid hi rows : lo <= mid <= hi ->
  rowsBetween k lo hi rows ≡ₚ rowsBetween k lo mid rows ++ rowsBetween k mid hi rows.
Proof.
  intros H. unfold rowsBetween. induction rows as [|row rows IH]; [done|]. rewrite !filter_cons.
  destruct (decide (rowKey row = k)) as [Ek|Nk].
  - destruct (decide (lo <= hrTimestamp row < mid)), (decide (mid <= hrTimestamp row < hi)).
    + lia.
    + rewrite decide_True by (split; [done|lia]). rewrite decide_True by done. rewrite decide_False by (by intros []).
      by rewrite IH.
    + rewrite decide_True by (split; [done|lia]). rewrite decide_False by (by intros []). rewrite decide_True by done.
      rewrite IH. apply Permutation_middle.
    + rewrite !decide_False; [done|..]; intros []; lia.
  - rewrite !decide_False by (by intros []). exact IH.
Qed.

(** A start of the snapshot is a multiple of ten minutes since the zero time. *)
Definition aligned (t : Time) : Prop := exists n, t = zero_time + n * credentialHealthBucketSpan.

Lemma Truncate_aligned t : aligned (Truncate t credentialHealthBucketSpan).
Proof. exists ((t - zero_time) / credentialHealthBucketSpan). apply Truncate_mult. Qed.

Lemma aligned_shift t n : aligned t -> aligned (t + n * credentialHealthBucketSpan).
Proof. intros [m ->]. exists (m + n). lia. Qed.

Lemma bucket_slot t start : aligned start ->
  credentialHealthBucketUnix t = Unix start <-> start <= t < start + credentialHealthBucketSpan.
Proof.
  intros [n ->]. unfold credentialHealthBucketUnix, NormalizeStorageTime. rewrite Truncate_mult.
  assert (S : credentialHealthBucketSpan = 600 * Second) by done.
  assert (Z0 : zero_time = -62135596800 * Second) by done.
  pose proof (Z.div_mod (t - zero_time) credentialHealthBucketSpan) as D.
  pose proof (Z.mod_pos_bound (t - zero_time) credentialHealthBucketSpan) as B.
  set (q := (t - zero_time) / credentialHealthBucketSpan) in *. set (r := (t - zero_time) mod _) in *.
  assert (U : forall m, Unix (zero_time + m * credentialHealthBucketSpan) = -62135596800 + m * 600).
  { intros m. unfold Unix. rewrite Z0, S. replace (_ + _) with ((-62135596800 + m * 600) * Second) by lia.
    apply Z.div_mul. done. }
  rewrite !U. rewrite S in D, B |- *. unfold Second in *. lia.
Qed.

Lemma bucketRows_slot k start rows : aligned start ->
  bucketRows k (Unix start) rows = rowsBetween k start (start + credentialHealthBucketSpan) rows.
Proof.
  intros A. apply list_filter_iff. intros row. by rewrite bucket_slot.
Qed.

(** ** The snapshot counted anew *)

Definition slotStart (start : Time) (i : nat) : Time := start + Z.of_nat i * credentialHealthBucketSpan.

Definition ratio (success failure : Z) : float64 :=
  if 0 <? success + failure then f64_div (f64_of_int success) (f64_of_int (success + failure)) else f64_zero.

(** The snapshot of the rows of [k] in the five hours that end with the slot of [now]. *)
Definition healthReference (k : credentialHealthKey) (now : Time) (rows : list credentialHealthLoadRow)
    : CredentialHealthSnapshot :=
  let windowEnd := Truncate now (10 * Minute) + 10 * Minute in
  let windowStart := windowEnd - 5 * Hour in
  let window := rowsBetween k windowStart windowEnd rows in
  mkHealthSnapshot 18000 600 windowStart windowEnd (successes window) (failures window)
    (if 0 <? successes window + failures window
     then f64_mul (ratio (successes window) (failures window)) (f64_of_int 100) else f64_zero)
    (Z.min int64_max (tokens hrInputTokens window)) (Z.min int64_max (tokens hrCacheReadTokens window))
    (map (fun i =>
       let start := slotStart windowStart i in
       let slot := rowsBetween k start (start + 10 * Minute) rows in
       mkHealthBucket start (start + 10 * Minute) (successes slot) (failures slot)
         (ratio (successes slot) (failures slot))) (seq 0 30)).

Lemma bucketStarts_slots fuel n start : (n < fuel)%nat ->
  bucketStarts fuel start (slotStart start n) = map (slotStart start) (seq 0 n).
Proof.
  revert n start. induction fuel as [|fuel IH]; intros n start H; [lia|]. cbn [bucketStarts].
  assert (P : 0 < credentialHealthBucketSpan) by done. destruct n as [|n].
  - unfold slotStart. rewrite (proj2 (Z.ltb_ge _ _)) by lia. done.
  - unfold slotStart at 1. rewrite (proj2 (Z.ltb_lt _ _)) by nia. cbn [seq map].
    f_equal; [unfold slotStart; lia|].
    replace (slotStart start (S n)) with (slotStart (start + credentialHealthBucketSpan) n) by (unfold slotStart; lia).
    rewrite IH by lia. rewrite <- seq_shift, map_map. apply map_ext. intros i. unfold slotStart. lia.
Qed.

Lemma totals_of_slots k start n rows : countable_rows rows ->
  foldl addTotals zeroCounts (map (fun s => counts_of (rowsBetween k s (s + credentialHealthBucketSpan) rows))
    (map (slotStart start) (seq 0 n))) = counts_of (rowsBetween k start (slotStart start n) rows).
Proof.
  intros C. assert (P : 0 < credentialHealthBucketSpan) by done. induction n as [|n IH].
  - replace (rowsBetween k start (slotStart start 0) rows) with (@nil credentialHealthLoadRow); [done|].
    symmetry. unfold rowsBetween. induction rows as [|row rows IH]; [done|]. rewrite filter_cons, decide_False.
    + apply IH. unfold countable_rows in *. cbn [length] in C. lia.
    + unfold slotStart. intros []. lia.
  - rewrite seq_S, !map_app, foldl_app, IH. cbn [map foldl Nat.add].
    set (mid := slotStart start n). replace (slotStart start (S n)) with (mid + credentialHealthBucketSpan) by (unfold mid, slotStart; lia).
    assert (R : start <= mid <= mid + credentialHealthBucketSpan) by (unfold mid, slotStart; lia).
    pose proof (rowsBetween_split k start mid _ rows R) as Sp. rewrite Sp. apply addTotals_counts.
    unfold countable_rows. rewrite <- Sp. by apply rowsBetween_countable.
Qed.

Lemma rateOf_ratio rows : countable_rows rows ->
  rateOf (successes rows) (failures rows) = ratio (successes rows) (failures rows).
Proof.
  intros C. destruct (calls_bound rows) as (? & ? & ?). unfold countable_rows in C. unfold rateOf, ratio.
  by rewrite add64_id by (unfold64; lia).
Qed.

(** What the snapshot reads in a cache whose buckets are the tallies of [rows]. *)
Lemma snapshot_reference k now (buckets : Buckets) rows : countable_rows rows ->
  (forall b, Unix (credentialHealthWindowStart now) <= b ->
     default zeroCounts (buckets !! b) = tally (bucketRows k b rows)) ->
  buildCredentialHealthSnapshot buckets now = healthReference k now rows.
Proof.
  intros C B. unfold buildCredentialHealthSnapshot.
  change (credentialHealthWindowEnd now) with (Truncate now (10 * Minute) + 10 * Minute).
  set (windowEnd := Truncate now (10 * Minute) + 10 * Minute).
  set (windowStart := windowEnd - credentialHealthWindow).
  assert (We : windowEnd = slotStart windowStart 30)
    by (unfold slotStart, windowStart, credentialHealthWindow, credentialHealthBucketSpan, Hour, Minute; lia).
  assert (St : bucketStarts 31 windowStart windowEnd = map (slotStart windowStart) (seq 0 30))
    by (rewrite We; apply bucketStarts_slots; lia).
  assert (A0 : aligned windowStart).
  { destruct (Truncate_aligned now) as [n En]. exists (n + 1 - 30). unfold windowStart, windowEnd.
    change (10 * Minute) with credentialHealthBucketSpan. rewrite En.
    unfold credentialHealthWindow, credentialHealthBucketSpan, Hour, Minute. lia. }
  assert (Slot : forall s, In s (map (slotStart windowStart) (seq 0 30)) ->
    default zeroCounts (buckets !! Unix s) = counts_of (rowsBetween k s (s + credentialHealthBucketSpan) rows)).
  { intros s Is. apply in_map_iff in Is as (i & <- & _). rewrite B.
    - assert (A : aligned (slotStart windowStart i)) by (by apply aligned_shift).
      rewrite bucketRows_slot by done. apply tally_counts. by apply rowsBetween_countable.
    - apply Unix_mono. change (credentialHealthWindowStart now) with windowStart. unfold slotStart.
      assert (0 < credentialHealthBucketSpan) by done. nia. }
  rewrite St. rewrite (map_ext_in _ _ _ Slot), totals_of_slots by done. rewrite <- We.
  unfold healthReference. fold windowEnd. change (windowEnd - 5 * Hour) with windowStart.
  set (window := rowsBetween k windowStart windowEnd rows).
  assert (Cw : countable_rows window) by (by apply rowsBetween_countable).
  destruct (calls_bound window) as (? & ? & ?). unfold counts_of. cbn [hcSuccess hcFailure hcInputTokens hcCacheReadTokens].
  rewrite rateOf_ratio, add64_id by (unfold countable_rows in Cw; unfold64; lia || done).
  f_equal. rewrite map_map. apply map_ext_in. intros i Ii. unfold healthBucket.
  rewrite Slot by (by apply in_map). change (10 * Minute) with credentialHealthBucketSpan. cbn [counts_of hcSuccess hcFailure].
  f_equal. apply rateOf_ratio. by apply rowsBetween_countable.
Qed.

Lemma health_answers k now T c R : health_ok (Unix (credentialHealthWindowStart T)) (rcBuckets c) R ->
  countable_rows R -> T <= now -> valid_key k ->
  CredentialHealth k.1 k.2 now (Some c) = Some (healthReference k now R).
Proof.
  intros H C L V. unfold CredentialHealth. unfold valid_key in V.
  destruct (newCredentialHealthKey k.1 k.2) as [key ok] eqn:Ek. cbn [snd] in V. subst ok. cbn [negb].
  assert (Key : key = k) by (destruct k; by injection Ek). subst key. f_equal. apply snapshot_reference; [done|].
  intros b Lb. apply H; [unfold valid_key; by rewrite Ek|]. pose proof (window_start_mono _ _ L). lia.
Qed.
