(* ===== verification/RecentEventsRuns.v ===== *)
(** Runs of the recent event cache: loading, the queue and its worker, and what is
    answered after any of them. *)
From S2P Require Import Prelude GoStrings GoTime Entities Timeutil Sql GoFloat Overview RecentEvents RecentEventsFacts.
From stdpp Require Import sorting relations.

Local Open Scope string_scope.
Local Open Scope list_scope.
Local Open Scope Z_scope.

(** ** Loading *)

Section Load.
Context (local : Location) (fault : nat -> option string).

Lemma try_ok {A B} (m : Sql (list UsageEvent) (result string A)) (f : A -> Sql (list UsageEvent) (result string B))
    d d' b : sql_try m f d = (d', Ok b) -> exists d1 a, m d = (d1, Ok a) /\ f a d1 = (d', Ok b).
Proof. unfold sql_try. destruct (m d) as [d1 [a|e]]; [eauto|done]. Qed.

Lemma wrapped_query_ok {A} prefix (run : list UsageEvent -> A) d d' a :
  wrap prefix (query fault run) d = (d', Ok a) -> a = run (dbTables d) /\ dbTables d' = dbTables d.
Proof. unfold wrap, query, statement. destruct (fault (dbClock d)); [done|]. by intros [= <- <-]. Qed.

Lemma scan_health size rows batch c R d d' c' cutoff : health_ok cutoff (rcBuckets c) R ->
  scanRows fault size rows batch c d = (d', Ok c') ->
  health_ok cutoff (rcBuckets c') (R ++ batch ++ rows) /\ rcEvents c' = rcEvents c /\ rcPool c' = rcPool c /\
  rcWindow c' = rcWindow c.
Proof.
  revert batch c R d. induction rows as [|row rows IH]; intros batch c R d H Run; cbn [scanRows] in Run.
  - apply try_ok in Run as (d1 & u & _ & Run). injection Run as <- <-. rewrite app_nil_r. by apply append_health.
  - apply try_ok in Run as (d1 & u & _ & Run). cbv zeta in Run. destruct (_ <? size).
    + replace (batch ++ row :: rows) with ((batch ++ [row]) ++ rows) by (by rewrite <- app_assoc). by eapply IH.
    + destruct (append_health (batch ++ [row]) ∅ c R cutoff H) as (H1 & E1 & P1 & W1).
      destruct (IH _ _ _ _ H1 Run) as (H2 & E2 & P2 & W2).
      replace (R ++ batch ++ row :: rows) with ((R ++ batch ++ [row]) ++ [] ++ rows) by (by rewrite <- !app_assoc).
      split; [done|]. by rewrite E2, P2, W2.
Qed.

(** The events a query that starts at [start] reads, in its order. *)
Definition selected (start : Time) (events : list UsageEvent) : list UsageEvent :=
  merge_sort (timestampOrder local) (fromTimestamp local start events).

Lemma load_ok database window now d d' c :
  NewUsageRecentEventCache local fault database window now d = (d', Ok c) ->
  cache_ok c (map loadRow (selected (now - rcWindow c) (dbTables d)))
    (map credentialHealthRow (selected (now - 5 * Hour) (dbTables d))) now.
Proof.
  unfold NewUsageRecentEventCache. destruct database; [|done]. cbn [negb]. intros Run.
  set (c0 := newEmptyUsageRecentEventCache window) in *. change (NormalizeStorageTime now) with now in Run.
  apply try_ok in Run as (d1 & rows & Rows & Run). apply wrapped_query_ok in Rows as [-> D1].
  cbv zeta in Run. apply try_ok in Run as (d2 & c2 & Batches & Run). injection Run as <- <-.
  destruct (append_events (map loadRow (selected (now - rcWindow c0) (dbTables d))) c0) as (E1 & P1 & B1 & _ & W1).
  { intros w. unfold c0. cbn. by destruct (w =?s EmptyString). }
  set (c1 := appendRecentEventsLocked _ c0) in *.
  destruct (prune_events now c1 P1) as (E2 & P2 & B2 & _ & W2). set (c1' := pruneLocked now c1) in *.
  unfold loadCredentialHealthCacheRowsBatched in Batches.
  apply try_ok in Batches as (d3 & hrows & Hrows & Scan). apply wrapped_query_ok in Hrows as [-> D3].
  rewrite D1 in Scan. change (now - credentialHealthWindow) with (now - 5 * Hour) in Scan.
  assert (H0 : health_ok (Unix (credentialHealthWindowStart now)) (rcBuckets c1') [])
    by (rewrite B2, B1; done).
  destruct (scan_health _ _ _ _ _ _ _ _ _ H0 Scan) as (H3 & E3 & P3 & W3). cbn [app] in H3.
  destruct (prune_health now None c2 _ _ H3) as (H4 & E4 & P4 & W4); [done|]. split.
  - rewrite E4, W4, E3, W3, E2, W2, W1, E1. done.
  - rewrite P4, E4, P3, E3. exact P2.
  - exact H4.
Qed.

End Load.

(** ** The queue *)

Definition queue_step (q q' : RecentQueue) : Prop := exists answer, QueueStep q answer q'.
Definition queue_steps : RecentQueue -> RecentQueue -> Prop := rtc queue_step.

Definition held (o : option (list UsageEvent)) : list (list UsageEvent) :=
  match o with Some batch => [batch] | None => [] end.

(** The batches that have a slot. *)
Definition outstanding (q : RecentQueue) : nat :=
  length (rqHolding q) + length (rqQueue q) + length (held (rqReceived q)).

Definition replay (c0 : UsageRecentEventCache) (appended : list (list UsageEvent * Time)) : UsageRecentEventCache :=
  foldl (fun c p => appendEvents p.1 p.2 c) c0 appended.

Record queue_ok (size : nat) (c0 : UsageRecentEventCache) (q : RecentQueue) : Prop := {
  ok_size : rqSize q = size;
  ok_slots : (rqSlots q + outstanding q = size)%nat;
  ok_sent : rqSent q = map fst (rqAppended q) ++ held (rqWorking q) ++ held (rqReceived q) ++ rqQueue q;
  ok_batches : Forall (fun batch => batch <> []) (rqChecked q ++ rqHolding q ++ rqSent q);
  ok_cache : rqCache q = replay c0 (rqAppended q);
}.

Lemma new_queue_ok n c : queue_ok (Z.to_nat (queueSizeOf n)) c (newQueue n c).
Proof. by split; [done|unfold outstanding; cbn; lia|..]. Qed.

Lemma release_slot size slots : (slots < size)%nat -> releaseAppendSlot size slots = S slots.
Proof. intros H. unfold releaseAppendSlot. by rewrite (proj2 (Nat.ltb_lt _ _)). Qed.

Ltac forall_app := repeat match goal with
  | H : Forall _ (_ ++ _) |- _ => apply Forall_app in H as [? ?]
  | H : Forall _ (_ :: _) |- _ => apply Forall_cons in H as [? ?]
  | |- Forall _ (_ ++ _) => apply Forall_app; split
  | |- Forall _ (_ :: _) => apply Forall_cons; split
  end.

Lemma queue_step_ok size c0 q answer q' : queue_ok size c0 q -> QueueStep q answer q' -> queue_ok size c0 q'.
Proof.
  intros Ok0 Step. destruct Step; destruct Ok0 as [E1 E2 E3 E4 E5]; unfold outstanding in E2;
    cbn [rqSize rqSlots rqChecked rqHolding rqQueue rqReceived rqWorking rqCache rqSent rqAppended] in *;
    try subst size0;
    rewrite ?length_app in E2; cbn [length held] in E2;
    (split; cbn [rqSize rqSlots rqChecked rqHolding rqQueue rqReceived rqWorking rqCache rqSent rqAppended];
      [done | unfold outstanding; cbn [rqHolding rqQueue rqReceived held] | | | ]);
    rewrite ?release_slot by lia; rewrite ?length_app; cbn [length]; try lia; try done;
    try (rewrite E3; cbn [held app]; rewrite ?map_app, <- ?app_assoc; done);
    try (forall_app; auto; done).
  unfold replay. rewrite foldl_app. cbn. by rewrite E5.
Qed.

Lemma queue_reachable n c q : queue_steps (newQueue n c) q -> queue_ok (Z.to_nat (queueSizeOf n)) c q.
Proof.
  intros H. assert (G : forall p, queue_ok (Z.to_nat (queueSizeOf n)) c p -> queue_steps p q ->
    queue_ok (Z.to_nat (queueSizeOf n)) c q); [|by eapply G; [apply new_queue_ok|]].
  clear H. intros p P H. induction H as [|p p' q [answer S] _ IH]; [done|]. apply IH. by eapply queue_step_ok.
Qed.

(** A batch is refused only by a closed cache or when [size] batches are outstanding. *)
Lemma refusal n c q q' : queue_steps (newQueue n c) q -> QueueStep q (Some false) q' ->
  rqClosed q = true \/ (rqSlots q = O /\ outstanding q = Z.to_nat (queueSizeOf n)).
Proof.
  intros H%queue_reachable S. destruct H as [E1 E2 _ _ _]. unfold outstanding in *.
  inversion S; subst; cbn [rqSize rqSlots rqHolding rqQueue rqReceived rqClosed] in *;
    try (by left); right; rewrite ?length_app in *; cbn [length] in *; try lia.
Qed.

(** C32. The queue of the recent event cache loses nothing it took: after any steps of
    producers, worker and Close the batches for which TryAppend answered true are, in
    order, those that were appended, the one the worker has in hand and those in the
    channel; slots and outstanding batches are always as many as the size of the queue;
    and TryAppend refuses only after Close or when that many batches are outstanding. *)
Theorem queue_exactly_once (n : Z) (c : UsageRecentEventCache) (q : RecentQueue)
    (Steps : queue_steps (newQueue n c) q) :
  rqSent q = map fst (rqAppended q) ++ held (rqWorking q) ++ held (rqReceived q) ++ rqQueue q /\
  (rqSlots q + outstanding q = Z.to_nat (queueSizeOf n))%nat /\
  (forall q', QueueStep q (Some false) q' ->
     rqClosed q = true \/ outstanding q = Z.to_nat (queueSizeOf n)).
Proof.
  destruct (queue_reachable n c q Steps) as [_ Sl Se _ _]. split; [done|]. split; [done|].
  intros q' S. destruct (refusal n c q q' Steps S) as [|[_ ?]]; [by left|by right].
Qed.

(** ** What is answered after a run *)

Definition lastReading (T : Time) (appended : list (list UsageEvent * Time)) : Time :=
  List.last (map snd appended) T.

Lemma last_reading_cons (now T : Time) (l : list Time) : List.last (now :: l) T = List.last l now.
Proof.
  destruct l as [|x l]; [done|]. revert x. induction l as [|y l IH]; intros x; [done|]. apply (IH y).
Qed.

(** The readings of the clock, from [T] on, never go back. *)
Fixpoint clocks (T : Time) (appended : list (list UsageEvent * Time)) : Prop :=
  match appended with
  | [] => True
  | (_, now) :: appended => T <= now /\ clocks now appended
  end.

Definition appendedEvents (appended : list (list UsageEvent * Time)) : list UsageEvent := concat (map fst appended).

Lemma replay_ok appended c E H T : cache_ok c E H T -> clocks T appended ->
  Forall (fun batch => batch <> []) (map fst appended) ->
  cache_ok (replay c appended) (E ++ map loadRow (appendedEvents appended))
    (H ++ map credentialHealthRow (appendedEvents appended)) (lastReading T appended) /\
  rcWindow (replay c appended) = rcWindow c.
Proof.
  revert c E H T. induction appended as [|[batch now] appended IH]; intros c E H T Ok0 Cl Ne.
  { unfold appendedEvents. cbn. by rewrite !app_nil_r. }
  destruct Cl as [L Cl]. cbn [map] in Ne. apply Forall_cons in Ne as [Nb Ne].
  destruct (append_ok batch now c E H T Ok0 L Nb) as [Ok1 W].
  destruct (IH _ _ _ _ Ok1 Cl Ne) as [Ok2 W2]. split; [|by rewrite <- W].
  unfold replay, appendedEvents, lastReading in *. cbn [map concat foldl fst snd] in *.
  rewrite !map_app, !app_assoc. unfold credentialHealthRowsFromUsageEvents in Ok2.
  by rewrite last_reading_cons.
Qed.

(** The texts of the table order its events against [start] as their times do. *)
Definition texts_agree (local : Location) (start : Time) (events : list UsageEvent) : Prop :=
  Forall (fun e => string_lt (timestampText local e) (FormatStorageTime local start) = (evTimestamp e <? start)) events.

Lemma selected_permutation local start events : texts_agree local start events ->
  selected local start events ≡ₚ filter (fun e => start <= evTimestamp e) events.
Proof.
  intros A. unfold selected. rewrite merge_sort_Permutation. apply reflexive_eq. unfold fromTimestamp.
  induction A as [|e events He _ IH]; [done|]. rewrite !filter_cons, IH.
  case_decide as D; case_decide as D'; try done; rewrite He in D; bool_split; lia.
Qed.

Lemma reTimestamp_recent row : reTimestamp (recentEvent row) = rlTimestamp row.
Proof. unfold recentEvent. by destruct (usageRecentIdentityFallback _ _ _). Qed.

Definition asRecent (events : list UsageEvent) : list RecentUsageEvent := map recentEvent (map loadRow events).

(** Selecting by a predicate that holds of no event before [start]. *)
Lemma selected_events (P : RecentUsageEvent -> Prop) `{!forall e, Decision (P e)} start events :
  (forall e, P e -> start <= reTimestamp e) ->
  filter P (asRecent (filter (fun e => start <= evTimestamp e) events)) = filter P (asRecent events).
Proof.
  intros Low. unfold asRecent. induction events as [|e events IH]; [done|]. cbn [map]. rewrite (filter_cons _ e).
  case_decide as D; cbn [map]; rewrite !filter_cons, IH; [done|]. rewrite decide_False; [done|].
  intros Pe. apply Low in Pe. rewrite reTimestamp_recent in Pe. by apply D.
Qed.

(** The events of the table and of the batches, less those before the window of [T]. *)
Lemma run_events (P : RecentUsageEvent -> Prop) `{!forall e, Decision (P e)}
    local fault database window now0 d d' c0 n q :
  NewUsageRecentEventCache local fault database window now0 d = (d', Ok c0) ->
  texts_agree local (now0 - rcWindow c0) (dbTables d) ->
  queue_steps (newQueue n c0) q -> clocks now0 (rqAppended q) ->
  (forall e, P e -> lastReading now0 (rqAppended q) - rcWindow c0 <= reTimestamp e) ->
  now0 <= lastReading now0 (rqAppended q) ->
  filter P (rcEvents (rqCache q)) ≡ₚ filter P (asRecent (dbTables d ++ appendedEvents (rqAppended q))).
Proof.
  intros Load A Steps Cl HP L. apply load_ok in Load.
  destruct (queue_reachable n c0 q Steps) as [_ _ Se Ba Ca].
  assert (Ne : Forall (fun batch => batch <> []) (map fst (rqAppended q))) by (rewrite Se in Ba; by forall_app).
  destruct (replay_ok _ _ _ _ _ Load Cl Ne) as [[Ev _ _] W]. rewrite Ca, Ev, W. clear Ev.
  set (T := lastReading now0 (rqAppended q)) in *. unfold kept_since.
  rewrite list_filter_filter.
  assert (Same : forall l : list RecentUsageEvent, filter (fun e => P e /\ T - rcWindow c0 <= reTimestamp e) l = filter P l).
  { intros l. apply list_filter_iff. intros e. split; [by intros []|]. auto. }
  rewrite Same, !map_app. unfold asRecent. rewrite !map_app, !filter_app. f_equiv.
  rewrite (selected_permutation _ _ _ A). apply reflexive_eq. apply (selected_events P).
  intros e Pe. apply HP in Pe. lia.
Qed.

Lemma clocks_last T appended : clocks T appended -> T <= lastReading T appended.
Proof.
  revert T. induction appended as [|[batch now] appended IH]; intros T H; [unfold lastReading; cbn; lia|].
  destruct H as [L H]. apply IH in H. unfold lastReading in *. cbn [map snd].
  rewrite last_reading_cons. lia.
Qed.

Lemma run_pool local fault database window now0 d d' c0 n q :
  NewUsageRecentEventCache local fault database window now0 d = (d', Ok c0) ->
  queue_steps (newQueue n c0) q -> clocks now0 (rqAppended q) ->
  pool_counts (rcPool (rqCache q)) (uses (rcEvents (rqCache q))).
Proof.
  intros Load Steps Cl. apply load_ok in Load. destruct (queue_reachable n c0 q Steps) as [_ _ Se Ba Ca].
  assert (Ne : Forall (fun batch => batch <> []) (map fst (rqAppended q))) by (rewrite Se in Ba; by forall_app).
  destruct (replay_ok _ _ _ _ _ Load Cl Ne) as [[_ P _] _]. by rewrite Ca.
Qed.

(** The events of [start .. end_] of one group, all groups for the empty key. *)
Definition eventsBetween (start end_ : Time) (includeEnd : bool) (group : string) (e : RecentUsageEvent) : Prop :=
  start <= reTimestamp e /\ (if includeEnd then reTimestamp e <= end_ else reTimestamp e < end_) /\
  inGroup (TrimSpace group) e = true.

#[export] Instance eventsBetween_dec start end_ includeEnd group e :
  Decision (eventsBetween start end_ includeEnd group e).
Proof. unfold eventsBetween. destruct includeEnd; apply _. Defined.


(** ** Health after a run *)

Lemma healthReference_ext k now R R' :
  (forall lo hi, credentialHealthWindowStart now <= lo -> rowsBetween k lo hi R ≡ₚ rowsBetween k lo hi R') ->
  healthReference k now R = healthReference k now R'.
Proof.
  intros H. unfold healthReference. set (we := Truncate now (10 * Minute) + 10 * Minute).
  set (ws := we - 5 * Hour). assert (W : credentialHealthWindowStart now = ws) by done.
  assert (C : forall lo hi, ws <= lo -> counts_of (rowsBetween k lo hi R) = counts_of (rowsBetween k lo hi R')).
  { intros lo hi L. rewrite (H lo hi); [done|lia]. }
  assert (C0 := C ws we (Z.le_refl _)). unfold counts_of in C0. injection C0 as -> -> -> ->. f_equal.
  apply map_ext. intros i. assert (L : ws <= slotStart ws i).
  { unfold slotStart. assert (0 < credentialHealthBucketSpan) by done. nia. }
  assert (C1 := C _ (slotStart ws i + 10 * Minute) L). unfold counts_of in C1. by injection C1 as -> -> _ _.
Qed.

Lemma rowsBetween_selected k lo hi start events : start <= lo ->
  rowsBetween k lo hi (map credentialHealthRow (filter (fun e => start <= evTimestamp e) events))
    = rowsBetween k lo hi (map credentialHealthRow events).
Proof.
  intros L. unfold rowsBetween. induction events as [|e events IH]; [done|]. cbn [map]. rewrite (filter_cons _ e).
  case_decide as D; cbn [map]; rewrite !filter_cons, IH; [done|]. rewrite decide_False; [done|].
  intros (_ & A & _). apply D. cbn in A. lia.
Qed.

#[export] Instance rowsBetween_Permutation k lo hi : Proper (Permutation ==> Permutation) (rowsBetween k lo hi).
Proof. intros a b P. unfold rowsBetween. by rewrite P. Qed.

Lemma window_start_recent now0 now : now0 <= now -> now0 - 5 * Hour <= credentialHealthWindowStart now.
Proof.
  intros L. unfold credentialHealthWindowStart, credentialHealthWindowEnd, NormalizeStorageTime.
  rewrite Truncate_mult. pose proof (Z.div_mod (now - zero_time) credentialHealthBucketSpan) as D.
  pose proof (Z.mod_pos_bound (now - zero_time) credentialHealthBucketSpan) as B.
  unfold credentialHealthWindow, credentialHealthBucketSpan, Hour, Minute, Second in *. lia.
Qed.


(** ** A run: a table with one recent and one old event, and one batch *)

Definition recent_at (t tokens : Z) (failed : bool) : UsageEvent :=
  mkUsageEvent 1 EmptyString "key" EmptyString EmptyString "oauth" EmptyString EmptyString
    None None None None "gpt" None EmptyString EmptyString EmptyString EmptyString EmptyString t
    EmptyString "auth-1" failed None None None 0 None tokens 0 0 0 0 false 0 tokens t.

Definition recent_zone : Location := FixedZone 28800.
Definition recent_now : Time := unix_time 1709168400.
Definition recent_db : Db (list UsageEvent) :=
  mkDb [recent_at (recent_now - 2 * Hour) 5 false; recent_at (recent_now - 60 * Minute) 7 true] 0.

Abbreviation recent_load := (NewUsageRecentEventCache recent_zone (fun _ => None) true 0 recent_now recent_db).
Abbreviation recent_cache := (match recent_load.2 with Ok c => c | Err _ => newEmptyUsageRecentEventCache 0 end).
Definition recent_batch : list UsageEvent := [recent_at (recent_now + 1 * Minute) 9 false].
Abbreviation recent_queue := (mkQueue 1 1 [] [] [] None None false false
  (appendEvents recent_batch (recent_now + 20 * Minute) recent_cache) [recent_batch]
  [(recent_batch, recent_now + 20 * Minute)]).

Lemma recent_steps : queue_steps (newQueue 1 recent_cache) recent_queue.
Proof.
  unfold newQueue. change (Z.to_nat (queueSizeOf 1)) with 1%nat. generalize recent_cache as c. intros c.
  eapply rtc_l; [eexists; by apply (append_check 1 1 [] [] [] None None false c [] [] recent_batch)|].
  eapply rtc_l; [eexists; apply (append_slot 1 0 [] recent_batch [] [])|].
  eapply rtc_l; [eexists; apply (append_send 1 0 [] [] recent_batch [] []); cbn; lia|].
  eapply rtc_l; [eexists; apply (worker_receive 1 0 [] [] recent_batch [])|].
  eapply rtc_l; [eexists; apply worker_release|].
  eapply rtc_l; [eexists; apply (worker_append _ _ _ _ _ _ _ _ _ _ (recent_now + 20 * Minute))|].
  apply rtc_refl.
Qed.

Lemma recent_loaded : recent_load = (recent_load.1, Ok recent_cache).
Proof. vm_compute. reflexivity. Qed.

Lemma recent_texts start : In start [recent_now - 70 * Minute; recent_now - 5 * Hour] ->
  texts_agree recent_zone start (dbTables recent_db).
Proof. intros [<-|[<-|[]]]; unfold texts_agree; repeat (constructor; [vm_compute; reflexivity|]); constructor. Qed.

Lemma queue_exactly_once_witness :
  rqSent recent_queue = map fst (rqAppended recent_queue) ++ held (rqWorking recent_queue) ++
    held (rqReceived recent_queue) ++ rqQueue recent_queue.
Proof. exact (proj1 (queue_exactly_once 1 recent_cache recent_queue recent_steps)). Defined.



(** Two successes and one failure in the window, and their tokens. *)
Example recent_health :
  let h := healthReference ("oauth", "auth-1") (recent_now + 30 * Minute)
             (map credentialHealthRow (dbTables recent_db ++ recent_batch)) in
  (hsTotalSuccess h, hsTotalFailure h, hsInputTokens h) = (2, 1, 21).
Proof. vm_compute. reflexivity. Qed.
