(* ===== verification/IdentityStats.v ===== *)
(** repository/usage_identities.go, the statistics: every usage identity carries
    the totals of its events up to a cursor of its own.

    The columns of [entities.UsageIdentity] are grouped: what CPA reports, the
    totals, the snapshot of a reset, and the rest.  A stored time is the instant;
    [MIN] and [MAX] of the timestamps compare the stored texts, as SQLite does.
    The texts of errors leave out the names printed into them. *)
From S2P Require Import Prelude GoStrings GoTime Timeutil Entities Inbox Sql.
From stdpp Require Import sorting.

Local Open Scope string_scope.
Local Open Scope list_scope.
Local Open Scope Z_scope.

(** The metadata that CPA owns. *)
Record IdentityMetadata := mkIdentityMetadata {
  imName : string;
  imAuthTypeName : string;
  imType : string;
  imProvider : string;
  imLookupKey : string;
  imPrefix : string;
  imBaseURL : string;
  imFileName : option string;
  imFilePath : option string;
  imPriority : option Z;
  imDisabled : option bool;
  imNote : option string;
  imAccountID : option string;
  imProjectID : option string;
  imXAIUserID : option string;
  imActiveStart : option Time;
  imActiveUntil : option Time;
  imPlanType : option string;
}.

Record IdentityTotals := mkIdentityTotals {
  itTotalRequests : Z;
  itSuccessCount : Z;
  itFailureCount : Z;
  itInputTokens : Z;
  itOutputTokens : Z;
  itReasoningTokens : Z;
  itCachedTokens : Z;
  itCacheReadTokens : Z;
  itTotalTokens : Z;
  itLastAggregatedUsageEventID : Z;
  itFirstUsedAt : option Time;
  itLastUsedAt : option Time;
  itStatsUpdatedAt : option Time;
}.

Record IdentityReset := mkIdentityReset {
  irStatsResetAt : option Time;
  irTotalRequests : Z;
  irSuccessCount : Z;
  irFailureCount : Z;
  irInputTokens : Z;
  irCacheReadTokens : Z;
  irTotalTokens : Z;
}.

Record UsageIdentity := mkUsageIdentity {
  uiID : Z;
  uiAlias : option string;
  uiAuthType : Z;
  uiIdentity : string;
  uiMetadata : IdentityMetadata;
  uiTotals : IdentityTotals;
  uiReset : IdentityReset;
  uiIsDeleted : bool;
  uiCreatedAt : Time;
  uiUpdatedAt : Time;
  uiDeletedAt : option Time;
}.

(** The rows by primary key, and the events they sum up. *)
Record IdentityTables := mkIdentityTables {
  idEvents : list UsageEvent;
  idRows : gmap Z UsageIdentity;
  idNextID : Z;
}.

Definition setRows (rows : gmap Z UsageIdentity) (t : IdentityTables) : IdentityTables :=
  mkIdentityTables (idEvents t) rows (idNextID t).

(** dto/usage_identities.go. *)
Record UsageIdentityStatsDelta := mkStatsDelta {
  dlTotalRequests : Z;
  dlSuccessCount : Z;
  dlFailureCount : Z;
  dlInputTokens : Z;
  dlOutputTokens : Z;
  dlReasoningTokens : Z;
  dlCachedTokens : Z;
  dlCacheReadTokens : Z;
  dlTotalTokens : Z;
  dlFirstUsedAt : option Time;
  dlLastUsedAt : option Time;
  dlMaxUsageEventID : Z;
}.

Definition zeroDelta : UsageIdentityStatsDelta := mkStatsDelta 0 0 0 0 0 0 0 0 0 None None 0.

Definition UsageIdentityAggregationBatchSize : Z := 25.

Record UsageIdentityAggregationBatchResult := mkIdentityBatch {
  ProcessedIdentities : Z;
  LastIdentityID : Z;
  ReachedEnd : bool;
}.

(** ** What SQLite computes over the selected events *)

(** SUM of an integer column, with its exception. *)
Fixpoint sqlSum (sum : Z) (l : list Z) : result string Z :=
  match l with
  | [] => Ok sum
  | z :: rest =>
      if bool_decide (int64_min <= sum + z <= int64_max) then sqlSum (sum + z) rest
      else Err "integer overflow"
  end.

(** MIN and MAX of texts; [None] is NULL. *)
Definition sqlMin (l : list string) : option string :=
  foldr (fun s m => match m with
                    | Some t => if string_lt t s then Some t else Some s
                    | None => Some s
                    end) None l.
Definition sqlMax (l : list string) : option string :=
  foldr (fun s m => match m with
                    | Some t => if string_lt s t then Some t else Some s
                    | None => Some s
                    end) None l.

(** StorageTimeSerializer.Scan. *)
Definition scanStorageTime (local : Location) (value : option string) : result string (option Time) :=
  match value with
  | None => Ok None
  | Some text =>
      match ParseStorageTime local text with
      | Ok t => Ok (Some (NormalizeStorageTime t))
      | Err _ => Err "parse storage time"
      end
  end.

(** usageIdentityEventsQuery: the [auth_type] of the events, if there is one. *)
Definition usageIdentityEventsQuery (identity : UsageIdentity) : option string :=
  if uiAuthType identity =? UsageIdentityAuthTypeAuthFile then Some "oauth"
  else if uiAuthType identity =? UsageIdentityAuthTypeAIProvider then Some "apikey"
  else None.

(** The events of an identity. *)
Definition is_event_of (identity : UsageIdentity) (e : UsageEvent) : bool :=
  match usageIdentityEventsQuery identity with
  | Some authType => (evAuthType e =?s authType) && (evAuthIndex e =?s uiIdentity identity)
  | None => false
  end.

Section IdentityStats.
Context (local : Location) (fault : nat -> option string).

Abbreviation M A := (Sql IdentityTables A).
Abbreviation Failing A := (Sql IdentityTables (result string A)).

Local Open Scope sql_scope.

Definition selectDelta (events : list UsageEvent) : result string UsageIdentityStatsDelta :=
  let times := omap (fun e => storageTimeValue local (evTimestamp e)) events in
  let? success := sqlSum 0 (map (fun e => if evFailed e then 0 else 1) events) in
  let? failure := sqlSum 0 (map (fun e => if evFailed e then 1 else 0) events) in
  let? input := sqlSum 0 (map evInputTokens events) in
  let? output := sqlSum 0 (map evOutputTokens events) in
  let? reasoning := sqlSum 0 (map evReasoningTokens events) in
  let? cached := sqlSum 0 (map evCachedTokens events) in
  let? cacheRead := sqlSum 0 (map evCacheReadTokens events) in
  let? total := sqlSum 0 (map evTotalTokens events) in
  let? first := scanStorageTime local (sqlMin times) in
  let? last := scanStorageTime local (sqlMax times) in
  Ok (mkStatsDelta (Z.of_nat (length events)) success failure input output reasoning cached
        cacheRead total first last (foldr Z.max 0 (map evID events))).

Definition aggregateUsageIdentityDelta (identity : UsageIdentity) : Failing UsageIdentityStatsDelta :=
  match usageIdentityEventsQuery identity with
  | None => sql_ret (Ok zeroDelta)
  | Some _ =>
      wrap "aggregate usage identity stats: " (
        try$ delta := query fault (fun t => selectDelta
          (filter (fun e => is_event_of identity e = true /\
                            itLastAggregatedUsageEventID (uiTotals identity) < evID e) (idEvents t))) in
        sql_ret delta)
  end.

(** The earlier of the two, the later of the two. *)
Definition earlierOf (own delta : option Time) : option Time :=
  match delta with
  | Some d => match own with Some o => if d <? o then Some d else Some o | None => Some d end
  | None => own
  end.
Definition laterOf (own delta : option Time) : option Time :=
  match delta with
  | Some d => match own with Some o => if o <? d then Some d else Some o | None => Some d end
  | None => own
  end.

(** The columns of the UPDATE. *)
Definition addDelta (now : Time) (delta : UsageIdentityStatsDelta) (s : IdentityTotals) : IdentityTotals :=
  mkIdentityTotals (add64 (itTotalRequests s) (dlTotalRequests delta))
    (add64 (itSuccessCount s) (dlSuccessCount delta)) (add64 (itFailureCount s) (dlFailureCount delta))
    (add64 (itInputTokens s) (dlInputTokens delta)) (add64 (itOutputTokens s) (dlOutputTokens delta))
    (add64 (itReasoningTokens s) (dlReasoningTokens delta)) (add64 (itCachedTokens s) (dlCachedTokens delta))
    (add64 (itCacheReadTokens s) (dlCacheReadTokens delta)) (add64 (itTotalTokens s) (dlTotalTokens delta))
    (dlMaxUsageEventID delta) (earlierOf (itFirstUsedAt s) (dlFirstUsedAt delta))
    (laterOf (itLastUsedAt s) (dlLastUsedAt delta)) (Some now).

Definition withTotals (totals : IdentityTotals) (r : UsageIdentity) : UsageIdentity :=
  mkUsageIdentity (uiID r) (uiAlias r) (uiAuthType r) (uiIdentity r) (uiMetadata r) totals (uiReset r)
    (uiIsDeleted r) (uiCreatedAt r) (uiUpdatedAt r) (uiDeletedAt r).

Definition updateRow (id : Z) (f : UsageIdentity -> UsageIdentity) (t : IdentityTables) : IdentityTables :=
  match idRows t !! id with
  | Some r => setRows (<[id := f r]> (idRows t)) t
  | None => t
  end.

(** Updates of a model also set [updated_at]. *)
Definition touched (now : Time) (r : UsageIdentity) : UsageIdentity :=
  mkUsageIdentity (uiID r) (uiAlias r) (uiAuthType r) (uiIdentity r) (uiMetadata r) (uiTotals r)
    (uiReset r) (uiIsDeleted r) (uiCreatedAt r) now (uiDeletedAt r).

(** [clock] is the time GORM writes to [updated_at]. *)
Fixpoint aggregateUsageIdentityRows (clock : Time) (identities : list UsageIdentity) (now : Time)
    (processedIdentities : Z) : Failing Z :=
  match identities with
  | [] => sql_ret (Ok processedIdentities)
  | identity :: rest =>
      try$ delta := aggregateUsageIdentityDelta identity in
      if dlTotalRequests delta =? 0 then aggregateUsageIdentityRows clock rest now processedIdentities
      else
        try$ _ := wrap "update usage identity stats: " (statement fault (fun t =>
          (updateRow (uiID identity)
             (fun r => touched clock (withTotals (addDelta now delta (uiTotals identity)) r)) t, tt))) in
        aggregateUsageIdentityRows clock rest now (processedIdentities + 1)
  end.

(** The rows of a table in the order of their keys. *)
Definition key_le (p q : Z * UsageIdentity) : Prop := p.1 <= q.1.

#[export] Instance key_le_dec p q : Decision (key_le p q).
Proof. unfold key_le. apply _. Defined.

Definition rows_by_id (rows : gmap Z UsageIdentity) : list UsageIdentity :=
  map snd (merge_sort key_le (map_to_list rows)).

Definition last_identity (identities : list UsageIdentity) : Z :=
  match last identities with Some i => uiID i | None => 0 end.

Definition AggregateUsageIdentityStatsBatch (clock now : Time) (afterIdentityID : Z)
    : Failing UsageIdentityAggregationBatchResult :=
  if afterIdentityID <? 0 then sql_ret (Err "usage identity aggregation cursor is negative")
  else
    let normalizedNow := NormalizeStorageTime now in
    transaction fault (
      try$ identities := wrap "list usage identities for aggregation batch: "
        (query fault (fun t => take (Z.to_nat UsageIdentityAggregationBatchSize)
           (filter (fun i => afterIdentityID < uiID i) (rows_by_id (idRows t))))) in
      if bool_decide (identities = []) then sql_ret (Ok (mkIdentityBatch 0 afterIdentityID true))
      else
        try$ processed := aggregateUsageIdentityRows clock identities normalizedNow 0 in
        sql_ret (Ok (mkIdentityBatch processed (last_identity identities)
                       (Z.of_nat (length identities) <? UsageIdentityAggregationBatchSize)))).

(** The loop of AggregateUsageIdentityStats. *)
Fixpoint identityPages (fuel : nat) (clock now : Time) (afterIdentityID : Z)
    : M (option (result string unit)) :=
  match fuel with
  | O => sql_ret None
  | S fuel =>
      let$ batch := AggregateUsageIdentityStatsBatch clock now afterIdentityID in
      match batch with
      | Err e => sql_ret (Some (Err e))
      | Ok batch =>
          if ReachedEnd batch then sql_ret (Some (Ok tt))
          else identityPages fuel clock now (LastIdentityID batch)
      end
  end.

Definition AggregateUsageIdentityStats (fuel : nat) (clock now : Time) : M (option (result string unit)) :=
  identityPages fuel clock (NormalizeStorageTime now) 0.

(** The SELECT EXISTS over the join. *)
Definition hasPendingUsageIdentityAggregation (t : IdentityTables) : bool :=
  existsb (fun i => existsb (fun e => (itLastAggregatedUsageEventID (uiTotals i) <? evID e) && is_event_of i e)
                      (idEvents t))
    (rows_by_id (idRows t)).

Definition HasPendingUsageIdentityAggregation : Failing bool :=
  wrap "check pending usage identity aggregation: " (query fault hasPendingUsageIdentityAggregation).

End IdentityStats.
