(* ===== verification/IdentitySync.v ===== *)
(** repository/usage_identities.go, the metadata: what CPA reports replaces the
    metadata of the stored identities, in one short transaction that holds only
    the changes; alias, totals, cursor and creation stay.  Edits of the user write
    one column.

    [julianday] is SQLite's, on stored texts. *)
From S2P Require Import Prelude GoStrings GoTime Timeutil Entities Inbox Sql IdentityStats.
From stdpp Require Import sorting.

Local Open Scope string_scope.
Local Open Scope list_scope.
Local Open Scope Z_scope.

Definition trimOptionalString (value : option string) : option string :=
  match value with
  | None => None
  | Some s => let trimmed := TrimSpace s in if trimmed =?s "" then None else Some trimmed
  end.

Definition normalizeStorageTimePtr (value : option Time) : option Time :=
  option_map NormalizeStorageTime value.

(** The assignments of the loop of normalizeUsageIdentities. *)
Definition normalizedIdentity (authType : Z) (authIndex : string) (i : UsageIdentity) : UsageIdentity :=
  let m := uiMetadata i in
  mkUsageIdentity 0 None authType authIndex
    (mkIdentityMetadata (TrimSpace (imName m)) (TrimSpace (imAuthTypeName m)) (TrimSpace (imType m))
       (TrimSpace (imProvider m)) (TrimSpace (imLookupKey m)) (TrimSpace (imPrefix m))
       (TrimSpace (imBaseURL m)) (trimOptionalString (imFileName m)) (trimOptionalString (imFilePath m))
       (imPriority m) (imDisabled m) (trimOptionalString (imNote m)) (trimOptionalString (imAccountID m))
       (trimOptionalString (imProjectID m)) (imXAIUserID m) (normalizeStorageTimePtr (imActiveStart m))
       (normalizeStorageTimePtr (imActiveUntil m)) (trimOptionalString (imPlanType m)))
    (uiTotals i) (uiReset i) false (uiCreatedAt i) (uiUpdatedAt i) None.

(** The loop: the identities so far, each with its auth index, which is what
    [seen] and [incomingIdentities] hold. *)
Fixpoint normalizeFrom (authType : Z) (seen : list string) (identities : list UsageIdentity)
    : list UsageIdentity :=
  match identities with
  | [] => []
  | identity :: rest =>
      let authIndex := TrimSpace (uiIdentity identity) in
      if authIndex =?s "" then normalizeFrom authType seen rest
      else if bool_decide (authIndex ∈ seen) then normalizeFrom authType seen rest
      else normalizedIdentity authType authIndex identity
           :: normalizeFrom authType (seen ++ [authIndex]) rest
  end.

Definition normalizeUsageIdentities (identities : list UsageIdentity) (authType : Z)
    : list UsageIdentity * list string :=
  let normalized := normalizeFrom authType [] identities in
  (normalized, map uiIdentity normalized).

(** normalizeProviderTypes and normalizeUsageIdentityTypes. *)
Fixpoint uniqueTrimmed (seen values : list string) : list string :=
  match values with
  | [] => []
  | value :: rest =>
      let value := TrimSpace value in
      if value =?s "" then uniqueTrimmed seen rest
      else if bool_decide (value ∈ seen) then uniqueTrimmed seen rest
      else value :: uniqueTrimmed (seen ++ [value]) rest
  end.

Definition normalizeProviderTypes : list string -> list string := uniqueTrimmed [].
Definition normalizeUsageIdentityTypes : list string -> list string := uniqueTrimmed [].
Definition normalizeUniqueAuthIndexes : list string -> list string := uniqueTrimmed [].

(** ** The fields of an update *)

Inductive FieldChange :=
| SetName (v : string)
| SetAuthTypeName (v : string)
| SetType (v : string)
| SetProvider (v : string)
| SetLookupKey (v : string)
| SetPrefix (v : string)
| SetBaseURL (v : string)
| SetFileName (v : option string)
| SetFilePath (v : option string)
| SetPriority (v : option Z)
| SetDisabled (v : option bool)
| SetNote (v : option string)
| SetAccountID (v : option string)
| SetProjectID (v : option string)
| SetXAIUserID (v : option string)
| SetActiveStart (v : option Time)
| SetActiveUntil (v : option Time)
| RaiseActiveUntil (v : Time)  (** the CASE expression *)
| SetPlanType (v : option string)
| ClearIsDeleted
| ClearDeletedAt
| SetUpdatedAt (v : Time).

#[export] Instance FieldChange_eq_dec : EqDecision FieldChange.
Proof. solve_decision. Defined.

Definition isCodex (i : UsageIdentity) : bool :=
  (uiAuthType i =? UsageIdentityAuthTypeAuthFile)
  && (ToLower (TrimSpace (imType (uiMetadata i))) =?s "codex").

Definition changeWhen {A} `{EqDecision A} (old new : A) (f : A -> FieldChange) : list FieldChange :=
  if decide (old = new) then [] else [f new].

Definition usageIdentityMetadataDiff (existing incoming : UsageIdentity) : list FieldChange :=
  let m := uiMetadata existing in
  let n := uiMetadata incoming in
  changeWhen (imName m) (imName n) SetName
  ++ changeWhen (imAuthTypeName m) (imAuthTypeName n) SetAuthTypeName
  ++ changeWhen (imType m) (imType n) SetType
  ++ changeWhen (imProvider m) (imProvider n) SetProvider
  ++ changeWhen (imLookupKey m) (imLookupKey n) SetLookupKey
  ++ changeWhen (imPrefix m) (imPrefix n) SetPrefix
  ++ changeWhen (imBaseURL m) (imBaseURL n) SetBaseURL
  ++ changeWhen (imFileName m) (imFileName n) SetFileName
  ++ changeWhen (imFilePath m) (imFilePath n) SetFilePath
  ++ changeWhen (imPriority m) (imPriority n) SetPriority
  ++ changeWhen (imDisabled m) (imDisabled n) SetDisabled
  ++ changeWhen (imNote m) (imNote n) SetNote
  ++ changeWhen (imAccountID m) (imAccountID n) SetAccountID
  ++ changeWhen (imProjectID m) (imProjectID n) SetProjectID
  ++ changeWhen (imXAIUserID m) (imXAIUserID n) SetXAIUserID
  ++ changeWhen (imActiveStart m) (imActiveStart n) SetActiveStart
  ++ changeWhen (imPlanType m) (imPlanType n) SetPlanType
  ++ (if isCodex incoming then
        match imActiveUntil n with
        | Some new =>
            match imActiveUntil m with
            | Some old => if old <? new then [RaiseActiveUntil new] else []
            | None => [RaiseActiveUntil new]
            end
        | None => []
        end
      else changeWhen (imActiveUntil m) (imActiveUntil n) SetActiveUntil)
  ++ (if uiIsDeleted existing then [ClearIsDeleted] else [])
  ++ (match uiDeletedAt existing with Some _ => [ClearDeletedAt] | None => [] end).

Record usageIdentityUpdate := mkIdentityUpdate {
  iuID : Z;
  iuFields : list FieldChange;
  iuOldPriority : option Z;
  iuOldDisabled : option bool;
}.

Record usageIdentityChanges := mkIdentityChanges {
  icCreate : list UsageIdentity;
  icUpdate : list usageIdentityUpdate;
  icStaleIDs : list Z;
}.

Definition stampedIdentity (now : Time) (i : UsageIdentity) : UsageIdentity :=
  mkUsageIdentity (uiID i) (uiAlias i) (uiAuthType i) (uiIdentity i) (uiMetadata i) (uiTotals i)
    (uiReset i) (uiIsDeleted i) now now (uiDeletedAt i).

(** [byIdentity]: the last row of the auth type with this identity. *)
Definition existingRow (existing : list UsageIdentity) (identity : string) : option UsageIdentity :=
  last (filter (fun r => uiIdentity r = identity) existing).

Definition identityUpdate (now : Time) (row identity : UsageIdentity) : option usageIdentityUpdate :=
  match usageIdentityMetadataDiff row identity with
  | [] => None
  | fields => Some (mkIdentityUpdate (uiID row) (fields ++ [SetUpdatedAt now])
                      (imPriority (uiMetadata row)) (imDisabled (uiMetadata row)))
  end.

(** The rows of the loop over [existing] that are marked. *)
Definition isStale (incomingIdentities : list string) (providerTypes : option (list string))
    (row : UsageIdentity) : bool :=
  negb (uiIsDeleted row) && negb (bool_decide (uiIdentity row ∈ incomingIdentities))
  && match providerTypes with
     | Some types => bool_decide (imType (uiMetadata row) ∈ types)
     | None => true
     end.

(** The comparison with the rows of the snapshot. *)
Definition identityChanges (existing identities : list UsageIdentity) (incomingIdentities : list string)
    (providerTypes : option (list string)) (now : Time) : usageIdentityChanges :=
  mkIdentityChanges
    (omap (fun identity => match existingRow existing (uiIdentity identity) with
                           | Some _ => None
                           | None => Some (stampedIdentity now identity)
                           end) identities)
    (omap (fun identity => match existingRow existing (uiIdentity identity) with
                           | Some row => identityUpdate now row identity
                           | None => None
                           end) identities)
    (map uiID (filter (fun row => isStale incomingIdentities providerTypes row = true) existing)).

(** ** Statements *)

Section IdentitySync.
Context (local : Location) (julianday : string -> option Z) (fault : nat -> option string).

Abbreviation M A := (Sql IdentityTables A).
Abbreviation Failing A := (Sql IdentityTables (result string A)).

Local Open Scope sql_scope.

(** [providerTypes] is [None] when the sync is not scoped to providers. *)
Definition prepareUsageIdentitySync (identities : list UsageIdentity) (incomingIdentities : list string)
    (authType : Z) (providerTypes : option (list string)) (now : Time) : Failing usageIdentityChanges :=
  try$ existing := query fault (fun t => filter (fun r => uiAuthType r = authType) (rows_by_id (idRows t))) in
  sql_ret (Ok (identityChanges existing identities incomingIdentities providerTypes now)).

(** julianday(?) > julianday(active_until); a comparison with NULL is not true. *)
Definition laterJulian (new old : Time) : bool :=
  match julianday (FormatStorageTime local new), julianday (FormatStorageTime local old) with
  | Some a, Some b => b <? a
  | _, _ => false
  end.

Definition applyField (f : FieldChange) (r : UsageIdentity) : UsageIdentity :=
  let m := uiMetadata r in
  let with_ m' := mkUsageIdentity (uiID r) (uiAlias r) (uiAuthType r) (uiIdentity r) m' (uiTotals r)
    (uiReset r) (uiIsDeleted r) (uiCreatedAt r) (uiUpdatedAt r) (uiDeletedAt r) in
  let meta n a t p l pr b ff fp prio d no ac pj x st un pl :=
    with_ (mkIdentityMetadata n a t p l pr b ff fp prio d no ac pj x st un pl) in
  let '(mkIdentityMetadata n a t p l pr b ff fp prio d no ac pj x st un pl) := m in
  match f with
  | SetName v => meta v a t p l pr b ff fp prio d no ac pj x st un pl
  | SetAuthTypeName v => meta n v t p l pr b ff fp prio d no ac pj x st un pl
  | SetType v => meta n a v p l pr b ff fp prio d no ac pj x st un pl
  | SetProvider v => meta n a t v l pr b ff fp prio d no ac pj x st un pl
  | SetLookupKey v => meta n a t p v pr b ff fp prio d no ac pj x st un pl
  | SetPrefix v => meta n a t p l v b ff fp prio d no ac pj x st un pl
  | SetBaseURL v => meta n a t p l pr v ff fp prio d no ac pj x st un pl
  | SetFileName v => meta n a t p l pr b v fp prio d no ac pj x st un pl
  | SetFilePath v => meta n a t p l pr b ff v prio d no ac pj x st un pl
  | SetPriority v => meta n a t p l pr b ff fp v d no ac pj x st un pl
  | SetDisabled v => meta n a t p l pr b ff fp prio v no ac pj x st un pl
  | SetNote v => meta n a t p l pr b ff fp prio d v ac pj x st un pl
  | SetAccountID v => meta n a t p l pr b ff fp prio d no v pj x st un pl
  | SetProjectID v => meta n a t p l pr b ff fp prio d no ac v x st un pl
  | SetXAIUserID v => meta n a t p l pr b ff fp prio d no ac pj v st un pl
  | SetActiveStart v => meta n a t p l pr b ff fp prio d no ac pj x v un pl
  | SetActiveUntil v => meta n a t p l pr b ff fp prio d no ac pj x st v pl
  | RaiseActiveUntil v =>
      meta n a t p l pr b ff fp prio d no ac pj x st
        (match un with
         | None => Some v
         | Some old => if laterJulian v old then Some v else Some old
         end) pl
  | SetPlanType v => meta n a t p l pr b ff fp prio d no ac pj x st un v
  | ClearIsDeleted =>
      mkUsageIdentity (uiID r) (uiAlias r) (uiAuthType r) (uiIdentity r) m (uiTotals r) (uiReset r)
        false (uiCreatedAt r) (uiUpdatedAt r) (uiDeletedAt r)
  | ClearDeletedAt =>
      mkUsageIdentity (uiID r) (uiAlias r) (uiAuthType r) (uiIdentity r) m (uiTotals r) (uiReset r)
        (uiIsDeleted r) (uiCreatedAt r) (uiUpdatedAt r) None
  | SetUpdatedAt v =>
      mkUsageIdentity (uiID r) (uiAlias r) (uiAuthType r) (uiIdentity r) m (uiTotals r) (uiReset r)
        (uiIsDeleted r) (uiCreatedAt r) v (uiDeletedAt r)
  end.

(** The columns are distinct, so their order does not matter. *)
Definition applyFields (fields : list FieldChange) (r : UsageIdentity) : UsageIdentity :=
  foldl (fun r f => applyField f r) r fields.

Definition changes_priority (fields : list FieldChange) : bool :=
  existsb (fun f => match f with SetPriority _ => true | _ => false end) fields.
Definition changes_disabled (fields : list FieldChange) : bool :=
  existsb (fun f => match f with SetDisabled _ => true | _ => false end) fields.

(** The WHERE of an update: the old values of the editable columns it writes. *)
Definition unedited (change : usageIdentityUpdate) (r : UsageIdentity) : bool :=
  (negb (changes_priority (iuFields change)) || bool_decide (imPriority (uiMetadata r) = iuOldPriority change))
  && (negb (changes_disabled (iuFields change)) || bool_decide (imDisabled (uiMetadata r) = iuOldDisabled change)).

Definition updateIdentity (change : usageIdentityUpdate) : Failing unit :=
  wrap "update usage identity: " (statement fault (fun t =>
    (updateRow (iuID change)
       (fun r => if unedited change r then applyFields (iuFields change) r else r) t, tt))).

(** CREATE with an automatic key; [false] is the violation of the unique index. *)
Definition insertIdentity (i : UsageIdentity) (t : IdentityTables) : option IdentityTables :=
  if existsb (fun p => (uiAuthType p.2 =? uiAuthType i) && (uiIdentity p.2 =?s uiIdentity i))
       (map_to_list (idRows t))
  then None
  else
    let row := mkUsageIdentity (idNextID t) (uiAlias i) (uiAuthType i) (uiIdentity i) (uiMetadata i)
      (uiTotals i) (uiReset i) (uiIsDeleted i) (uiCreatedAt i) (uiUpdatedAt i) (uiDeletedAt i) in
    Some (mkIdentityTables (idEvents t) (<[idNextID t := row]> (idRows t)) (idNextID t + 1)).

Fixpoint insertIdentities (l : list UsageIdentity) (t : IdentityTables) : option IdentityTables :=
  match l with
  | [] => Some t
  | i :: rest => match insertIdentity i t with Some t => insertIdentities rest t | None => None end
  end.

(** The columns of a UsageIdentity. *)
Definition usageIdentityColumns : Z := 46.
Definition identityBatchSize : nat := Z.to_nat (insertBatchSize usageIdentityColumns).

(** One INSERT of several rows: all of them or an error. *)
Definition createBatch (batch : list UsageIdentity) : Failing unit :=
  try$ inserted := statement fault (fun t =>
    match insertIdentities batch t with Some t' => (t', true) | None => (t, false) end) in
  if inserted : bool then sql_ret (Ok tt) else sql_ret (Err "UNIQUE constraint failed").

(** The chunks of a list; every turn takes elements, so its length is enough. *)
Fixpoint chunks {A} (fuel size : nat) (l : list A) : list (list A) :=
  match fuel, l with
  | _, [] => []
  | O, _ => []
  | S fuel, _ => take size l :: chunks fuel size (drop size l)
  end.

Definition createIdentities (create : list UsageIdentity) : Failing unit :=
  if bool_decide (create = []) then sql_ret (Ok tt)
  else wrap "create usage identities: "
         (for_each createBatch (chunks (length create) identityBatchSize create)).

Definition deletedRow (now : Time) (r : UsageIdentity) : UsageIdentity :=
  mkUsageIdentity (uiID r) (uiAlias r) (uiAuthType r) (uiIdentity r) (uiMetadata r) (uiTotals r)
    (uiReset r) true (uiCreatedAt r) now (Some now).

Definition markStale (now : Time) (context : string) (ids : list Z) : Failing unit :=
  wrap context (statement fault (fun t =>
    (setRows (map_imap (fun id r => Some (if bool_decide (id ∈ ids) then deletedRow now r else r)) (idRows t)) t,
     tt))).

Definition markStaleUsageIdentityRowsDeleted (staleIDs : list Z) (now : Time) (context : string)
    : Failing unit :=
  for_each (markStale now context) (chunks (length staleIDs) identityBatchSize staleIDs).

Definition applyUsageIdentitySync (changes : usageIdentityChanges) (now : Time) (staleContext : string)
    : Failing unit :=
  if bool_decide (icCreate changes = [] /\ icUpdate changes = [] /\ icStaleIDs changes = [])
  then sql_ret (Ok tt)
  else
    transaction fault (
      try$ _ := for_each updateIdentity (icUpdate changes) in
      try$ _ := createIdentities (icCreate changes) in
      markStaleUsageIdentityRowsDeleted (icStaleIDs changes) now staleContext).

Definition ReplaceUsageIdentitiesForAuthType (identities : list UsageIdentity) (authType : Z) (now : Time)
    : Failing unit :=
  if IsZero now then sql_ret (Err "usage identity sync time is zero")
  else
    let normalizedNow := NormalizeStorageTime now in
    let '(normalized, incomingIdentities) := normalizeUsageIdentities identities authType in
    try$ changes := wrap "list usage identities for sync: "
      (prepareUsageIdentitySync normalized incomingIdentities authType None normalizedNow) in
    applyUsageIdentitySync changes normalizedNow "mark stale usage identities deleted: ".

Definition ReplaceUsageIdentitiesForProviderTypes (identities : list UsageIdentity)
    (providerTypes : list string) (now : Time) : Failing unit :=
  if IsZero now then sql_ret (Err "usage identity sync time is zero")
  else
    let normalizedNow := NormalizeStorageTime now in
    let '(normalized, incomingIdentities) :=
      normalizeUsageIdentities identities UsageIdentityAuthTypeAIProvider in
    let types := normalizeProviderTypes providerTypes in
    try$ changes := wrap "list provider usage identities for sync: "
      (prepareUsageIdentitySync normalized incomingIdentities UsageIdentityAuthTypeAIProvider
         (Some types) normalizedNow) in
    applyUsageIdentitySync changes normalizedNow "mark stale provider usage identities deleted: ".

(** ** Edits *)

(** UPDATE of the rows that satisfy [where_]; the rows it affects. *)
Definition updateWhere (clock : Time) (where_ : UsageIdentity -> bool) (f : UsageIdentity -> UsageIdentity)
    (t : IdentityTables) : IdentityTables * nat :=
  (setRows ((fun r => if where_ r then touched clock (f r) else r) <$> idRows t) t,
   size (filter (fun p : Z * UsageIdentity => where_ p.2 = true) (idRows t))).

Definition notFoundWhenNone (m : Failing nat) : Failing unit :=
  try$ affected := m in
  if (affected =? 0)%nat then sql_ret (Err "record not found") else sql_ret (Ok tt).

Definition withAlias (alias : option string) (r : UsageIdentity) : UsageIdentity :=
  mkUsageIdentity (uiID r) alias (uiAuthType r) (uiIdentity r) (uiMetadata r) (uiTotals r) (uiReset r)
    (uiIsDeleted r) (uiCreatedAt r) (uiUpdatedAt r) (uiDeletedAt r).

Definition UpdateUsageIdentityAlias (clock : Time) (id : Z) (alias : string) : Failing unit :=
  let trimmed := TrimSpace alias in
  let value := if trimmed =?s "" then None else Some trimmed in
  notFoundWhenNone (statement fault (updateWhere clock
    (fun r => (uiID r =? id) && negb (uiIsDeleted r)) (withAlias value))).

Definition named (authType : Z) (identity : string) (r : UsageIdentity) : bool :=
  (uiAuthType r =? authType) && (uiIdentity r =?s identity) && negb (uiIsDeleted r).

Definition UpdateUsageIdentityDisabled (clock : Time) (authType : Z) (identity : string) (disabled : bool)
    : Failing unit :=
  let identity := TrimSpace identity in
  if identity =?s "" then sql_ret (Err "usage identity is required")
  else notFoundWhenNone (statement fault (updateWhere clock (named authType identity)
         (applyField (SetDisabled (Some disabled))))).

Definition UpdateUsageIdentityPriority (clock : Time) (authType : Z) (identity : string) (priority : Z)
    : Failing unit :=
  notFoundWhenNone (statement fault (updateWhere clock (named authType (TrimSpace identity))
    (applyField (SetPriority (Some priority))))).

(** LOWER and TRIM of SQLite: ASCII letters and spaces. *)
Definition UpdateCodexUsageIdentityActiveUntil (sqlLower sqlTrim : string -> string) (clock : Time)
    (identity : UsageIdentity) (activeUntil : Time) : Failing unit :=
  match imAccountID (uiMetadata identity) with
  | None => sql_ret (Ok tt)
  | Some account =>
      if (uiID identity =? 0) || (TrimSpace account =?s "") || IsZero activeUntil then sql_ret (Ok tt)
      else
        try$ _ := statement fault (updateWhere clock
          (fun r => (uiID r =? uiID identity) && (uiAuthType r =? UsageIdentityAuthTypeAuthFile)
             && (uiIdentity r =?s uiIdentity identity)
             && bool_decide (imAccountID (uiMetadata r) = Some account)
             && (sqlLower (sqlTrim (imType (uiMetadata r))) =?s "codex") && negb (uiIsDeleted r))
          (applyField (SetActiveUntil (Some activeUntil)))) in
        sql_ret (Ok tt)
  end.

End IdentitySync.
