(* ===== verification/IdentityFacts.v ===== *)
(** Usage identities: every event is counted once for its identity, whatever edits
    and synchronisations of the metadata come between. *)
From S2P Require Import Prelude GoStrings GoTime Timeutil Entities Inbox Sql Overview Aggregation AggregationFacts IdentityStats IdentitySync.
From stdpp Require Import sorting.
From Stdlib Require Import Relation_Operators.

Local Open Scope string_scope.
Local Open Scope list_scope.
Local Open Scope Z_scope.

(** The counter columns of a row, of a delta, and what one event adds. *)
Definition identity_columns
    : list ((IdentityTotals -> Z) * (UsageIdentityStatsDelta -> Z) * (UsageEvent -> Z)) :=
  [(itTotalRequests, dlTotalRequests, fun _ => 1);
   (itSuccessCount, dlSuccessCount, fun e => if evFailed e then 0 else 1);
   (itFailureCount, dlFailureCount, fun e => if evFailed e then 1 else 0);
   (itInputTokens, dlInputTokens, evInputTokens); (itOutputTokens, dlOutputTokens, evOutputTokens);
   (itReasoningTokens, dlReasoningTokens, evReasoningTokens);
   (itCachedTokens, dlCachedTokens, evCachedTokens);
   (itCacheReadTokens, dlCacheReadTokens, evCacheReadTokens);
   (itTotalTokens, dlTotalTokens, evTotalTokens)].

Definition cursor (r : UsageIdentity) : Z := itLastAggregatedUsageEventID (uiTotals r).

(** The sum over the events of an identity up to a key. *)
Definition identity_sum (amount : UsageEvent -> Z) (i : UsageIdentity) (c : Z) (events : list UsageEvent) : Z :=
  sum_Z (map (fun e => if is_event_of i e && (evID e <=? c) then amount e else 0) events).

Definition counted (events : list UsageEvent) (r : UsageIdentity) : Prop :=
  Forall (fun p => eqm64 (p.1.1 (uiTotals r)) (identity_sum p.2 r (cursor r) events)) identity_columns.

Definition identity_row_ok (events : list UsageEvent) (r : UsageIdentity) : Prop :=
  (cursor r = 0 \/ exists e, e ∈ events /\ evID e = cursor r) /\ counted events r.

(** Every row stands at its key; auth type and identity name one row. *)
Definition identity_keys_ok (t : IdentityTables) : Prop :=
  (forall id r, idRows t !! id = Some r -> uiID r = id /\ 0 < id < idNextID t) /\
  (forall id1 id2 r1 r2, idRows t !! id1 = Some r1 -> idRows t !! id2 = Some r2 ->
     uiAuthType r1 = uiAuthType r2 -> uiIdentity r1 = uiIdentity r2 -> id1 = id2).

Definition identities_ok (t : IdentityTables) : Prop :=
  events_ok (idEvents t) /\ 0 < idNextID t /\ identity_keys_ok t /\
  forall id r, idRows t !! id = Some r -> identity_row_ok (idEvents t) r.

(** *** Sums *)

Lemma sqlSum_Ok l s v : sqlSum s l = Ok v -> v = s + sum_Z l.
Proof.
  revert s. induction l as [|z l IH]; intros s; cbn [sqlSum].
  - intros [= ->]. cbn. lia.
  - case_bool_decide; [|done]. intros ->%IH. rewrite sum_Z_cons. lia.
Qed.

Lemma sum_filter {A} (P : A -> Prop) `{forall x, Decision (P x)} (f : A -> Z) (l : list A) :
  sum_Z (map f (filter P l)) = sum_Z (map (fun x => if decide (P x) then f x else 0) l).
Proof.
  induction l as [|x l IH]; [done|]. rewrite filter_cons. cbn [map]. rewrite sum_Z_cons.
  destruct (decide (P x)); [cbn [map]; rewrite sum_Z_cons|]; lia.
Qed.

Lemma selectDelta_columns local events delta : selectDelta local events = Ok delta ->
  Forall (fun p => p.1.2 delta = sum_Z (map p.2 events)) identity_columns /\
  dlMaxUsageEventID delta = foldr Z.max 0 (map evID events).
Proof.
  unfold selectDelta.
  repeat match goal with
  | |- (let? _ := sqlSum 0 ?l in _) = _ -> _ =>
      let E := fresh "E" in destruct (sqlSum 0 l) eqn:E; cbn [result_bind]; [apply sqlSum_Ok in E|done]
  | |- (let? _ := scanStorageTime _ ?l in _) = _ -> _ =>
      destruct (scanStorageTime _ l); cbn [result_bind]; [|done]
  end.
  intros [= <-]. split; [|done]. unfold identity_columns.
  repeat apply Forall_cons_2; [|..|constructor]; cbn; try lia.
  clear. induction events as [|e events IH]; [done|]. cbn [map length]. rewrite sum_Z_cons. lia.
Qed.

Lemma max_id_above events e : e ∈ events -> evID e <= foldr Z.max 0 (map evID events).
Proof.
  induction events as [|x l IH]; [by intros ?%elem_of_nil|]. cbn [map foldr].
  intros [->|H]%elem_of_cons; [lia|]. specialize (IH H). lia.
Qed.

Lemma max_id_in events : Forall (fun e => 0 < evID e) events -> events <> [] ->
  exists e, e ∈ events /\ evID e = foldr Z.max 0 (map evID events).
Proof.
  induction 1 as [|x l P F IH]; [done|]. intros _. cbn [map foldr].
  destruct (decide (l = [])) as [->|N].
  - exists x. split; [apply elem_of_cons; by left|]. cbn. lia.
  - destruct (IH N) as (e & He & E). destruct (Z.max_spec (evID x) (foldr Z.max 0 (map evID l))) as [[L ->]|[L ->]].
    + exists e. split; [apply elem_of_cons; by right|done].
    + exists x. split; [apply elem_of_cons; by left|done].
Qed.

(** Up to a later key, when all events behind the earlier one are before it. *)
Lemma identity_sum_split amount i c c' events : c <= c' ->
  (forall e, e ∈ events -> is_event_of i e = true -> c < evID e -> evID e <= c') ->
  identity_sum amount i c' events
  = identity_sum amount i c events
    + sum_Z (map amount (filter (fun e => is_event_of i e = true /\ c < evID e) events)).
Proof.
  intros L B. rewrite sum_filter. unfold identity_sum. induction events as [|e events IH]; [done|].
  cbn [map]. rewrite !sum_Z_cons, IH.
  2: { intros x Hx. apply B, elem_of_cons. by right. }
  specialize (B e (proj2 (elem_of_cons _ _ _) (or_introl eq_refl))).
  destruct (is_event_of i e); cbn [andb].
  - destruct (Z.leb_spec (evID e) c), (Z.leb_spec (evID e) c'); case_decide as D; lia || (destruct D; lia) || tauto.
  - rewrite decide_False by (intros [? _]; done). lia.
Qed.

(** The columns of the sum depend on the row by its name only. *)
Lemma is_event_of_same (i j : UsageIdentity) e :
  uiAuthType i = uiAuthType j -> uiIdentity i = uiIdentity j -> is_event_of i e = is_event_of j e.
Proof. unfold is_event_of, usageIdentityEventsQuery. by intros -> ->. Qed.

Lemma identity_sum_same amount (i j : UsageIdentity) c events :
  uiAuthType i = uiAuthType j -> uiIdentity i = uiIdentity j ->
  identity_sum amount i c events = identity_sum amount j c events.
Proof.
  intros A B. unfold identity_sum. f_equal. apply map_ext. intros e. by rewrite (is_event_of_same i j).
Qed.

(** New events lie behind the cursor. *)
Lemma identity_sum_app amount i c events more : Forall (fun e => c < evID e) more ->
  identity_sum amount i c (events ++ more) = identity_sum amount i c events.
Proof.
  intros F. unfold identity_sum. rewrite map_app, sum_Z_app.
  assert (Z0 : sum_Z (map (fun e => if is_event_of i e && (evID e <=? c) then amount e else 0) more) = 0).
  { induction F as [|e more L _ IH]; [done|]. cbn [map]. rewrite sum_Z_cons, IH.
    rewrite (proj2 (Z.leb_gt _ _) L), andb_false_r. lia. }
  lia.
Qed.

(** *** One aggregation *)

Lemma addDelta_columns now delta s :
  Forall (fun p => eqm64 (p.1.1 (addDelta now delta s)) (p.1.1 s + p.1.2 delta)) identity_columns.
Proof. unfold identity_columns. repeat constructor; cbn; apply add64_eqm. Qed.

(** The row after its delta. *)
Lemma aggregated_row_ok local events r r' now delta :
  Forall (fun e => 0 < evID e) events ->
  identity_row_ok events r ->
  selectDelta local (filter (fun e => is_event_of r e = true /\ cursor r < evID e) events) = Ok delta ->
  dlTotalRequests delta <> 0 ->
  uiTotals r' = addDelta now delta (uiTotals r) -> uiAuthType r' = uiAuthType r -> uiIdentity r' = uiIdentity r ->
  identity_row_ok events r' /\ cursor r < cursor r' /\
  (forall e, e ∈ events -> is_event_of r e = true -> evID e <= cursor r').
Proof.
  intros P [C S] D N T A I. destruct (selectDelta_columns _ _ _ D) as [Cols Mx].
  set (new := filter _ events) in *.
  assert (Nn : new <> []).
  { intros E. rewrite E in Cols. unfold identity_columns in Cols. apply Forall_cons in Cols as [Q _].
    cbn in Q. done. }
  assert (Pn : Forall (fun e => 0 < evID e) new).
  { apply Forall_forall. intros e [_ He]%list_elem_of_filter. by apply (proj1 (Forall_forall _ _) P). }
  destruct (max_id_in new Pn Nn) as (m & Hm & Em).
  assert (C' : cursor r' = foldr Z.max 0 (map evID new)) by (unfold cursor; rewrite T; exact Mx).
  apply list_elem_of_filter in Hm as [[Hm1 Hm2] Hm3].
  assert (Lt : cursor r < cursor r') by lia.
  assert (B : forall e, e ∈ events -> is_event_of r e = true -> cursor r < evID e -> evID e <= cursor r').
  { intros e He Hi Hl. rewrite C'. apply max_id_above. by apply list_elem_of_filter. }
  split; [split|split; [done|]].
  - right. exists m. split; [done|lia].
  - unfold counted in *. pose proof (addDelta_columns now delta (uiTotals r)) as Ad.
    rewrite Forall_forall in S, Cols, Ad |- *. intros p Hp.
    rewrite T, (Ad p Hp), (S p Hp), (Cols p Hp).
    rewrite (identity_sum_same _ r' r) by done.
    rewrite (identity_sum_split _ r (cursor r) (cursor r')) by (done || lia). reflexivity.
  - intros e He Hi. destruct (Z.le_gt_cases (evID e) (cursor r)); [lia|]. by apply B.
Qed.

(** *** Changes that leave the totals alone *)

Definition same_core (r r' : UsageIdentity) : Prop :=
  uiID r' = uiID r /\ uiAuthType r' = uiAuthType r /\ uiIdentity r' = uiIdentity r /\
  uiTotals r' = uiTotals r.

Definition zero_totals (r : UsageIdentity) : Prop :=
  cursor r = 0 /\ Forall (fun p => p.1.1 (uiTotals r) = 0) identity_columns.

Lemma same_core_row_ok events r r' : same_core r r' -> identity_row_ok events r -> identity_row_ok events r'.
Proof.
  intros (_ & A & I & T) [C S]. unfold identity_row_ok, counted, cursor in *. rewrite T. split; [done|].
  eapply Forall_impl; [exact S|]. intros p H. rewrite H. by rewrite (identity_sum_same _ r' r).
Qed.

Lemma zero_row_ok events r : Forall (fun e => 0 < evID e) events -> zero_totals r -> identity_row_ok events r.
Proof.
  intros P [C Z0]. split; [by left|]. unfold counted. eapply Forall_impl; [exact Z0|]. intros p E.
  rewrite E, C. replace (identity_sum p.2 r 0 events) with 0; [reflexivity|].
  unfold identity_sum. clear -P. induction P as [|e events L _ IH]; [done|]. cbn [map].
  rewrite sum_Z_cons, <- IH, (proj2 (Z.leb_gt _ _) L), andb_false_r. lia.
Qed.

Definition keyed (t : IdentityTables) : Prop := 0 < idNextID t /\ identity_keys_ok t.

(** [t'] has the rows of [t] up to what is outside of their core, and new rows
    without totals. *)
Definition edited (t t' : IdentityTables) : Prop := keyed t ->
  idEvents t' = idEvents t /\ idNextID t <= idNextID t' /\ keyed t' /\
  (forall id r, idRows t !! id = Some r -> exists r', idRows t' !! id = Some r' /\ same_core r r') /\
  (forall id r', idRows t' !! id = Some r' ->
     (exists r, idRows t !! id = Some r /\ same_core r r') \/ zero_totals r' /\ idNextID t <= id).

#[export] Instance same_core_preorder : PreOrder same_core.
Proof. split; [by intros r|]. intros a b c (?&?&?&?) (?&?&?&?). split_and!; congruence. Qed.

Lemma zero_same_core r r' : same_core r r' -> zero_totals r -> zero_totals r'.
Proof. intros (_ & _ & _ & T). unfold zero_totals, cursor. by rewrite T. Qed.

#[export] Instance edited_preorder : PreOrder edited.
Proof.
  split.
  - intros t K. split; [done|]. split; [done|]. split; [done|].
    split; intros id r H; [exists r|left; exists r]; by split.
  - intros t1 t2 t3 H12 H23 K1. destruct (H12 K1) as (E1 & N1 & K2 & F1 & B1).
    destruct (H23 K2) as (E2 & N2 & K3 & F2 & B2). split; [congruence|]. split; [lia|]. split; [done|]. split.
    + intros id r (r2 & H2 & S2)%F1. destruct (F2 id r2 H2) as (r3 & H3 & S3). exists r3.
      split; [done|by transitivity r2].
    + intros id r3 H3. destruct (B2 id r3 H3) as [(r2 & H2 & S2)|[Z0 Le]]; [|right; split; [done|lia]].
      destruct (B1 id r2 H2) as [(r1 & H1 & S1)|[Z0 Le]];
        [left|right; split; [by eapply zero_same_core|lia]].
      exists r1. split; [done|by transitivity r2].
Qed.

Lemma edited_ok t t' : edited t t' -> identities_ok t -> identities_ok t'.
Proof.
  intros Ed (Ev & P & Ks & R). destruct (Ed (conj P Ks)) as (E & N & [P' Ks'] & _ & B).
  split_and!; [by rewrite E|done|done|]. intros id r' H. rewrite E.
  destruct (B id r' H) as [(r & Hr & S)|[Z0 _]].
  - eapply same_core_row_ok; [exact S|]. by apply (R id).
  - apply zero_row_ok; [apply Ev|done].
Qed.

(** Row by row. *)
Lemma edited_map (t : IdentityTables) (f : Z -> UsageIdentity -> UsageIdentity) :
  (forall id r, same_core r (f id r)) ->
  edited t (setRows (map_imap (fun id r => Some (f id r)) (idRows t)) t).
Proof.
  intros S [P [K1 K2]].
  assert (L : forall id, map_imap (fun id r => Some (f id r)) (idRows t) !! id
                = f id <$> idRows t !! id).
  { intros id. rewrite map_lookup_imap. by destruct (idRows t !! id). }
  split; [done|]. split; [done|]. split; [split; [done|split]|split]; cbn [setRows idRows idNextID idEvents].
  - intros id r'. rewrite L. intros (r & H & ->)%fmap_Some. destruct (K1 id r H) as [I Bd].
    destruct (S id r) as (I' & _). split; [congruence|done].
  - intros id1 id2 r1' r2'. rewrite !L. intros (r1 & H1 & ->)%fmap_Some (r2 & H2 & ->)%fmap_Some.
    destruct (S id1 r1) as (_ & -> & -> & _), (S id2 r2) as (_ & -> & -> & _). by apply (K2 id1 id2 r1 r2).
  - intros id r H. exists (f id r). rewrite L, H. by split.
  - intros id r'. rewrite L. intros (r & H & ->)%fmap_Some. left. by exists r.
Qed.

Lemma edited_update_row id f t : (forall r, same_core r (f r)) -> edited t (updateRow id f t).
Proof.
  intros S. unfold updateRow. destruct (idRows t !! id) as [r|] eqn:L; [|reflexivity].
  pose proof (edited_map t (fun i x => if decide (i = id) then f x else x)) as M.
  replace (<[id:=f r]> (idRows t)) with
    (map_imap (fun i x => Some (if decide (i = id) then f x else x)) (idRows t)).
  - apply M. intros i x. by destruct (decide (i = id)).
  - apply map_eq. intros i. rewrite map_lookup_imap. destruct (decide (i = id)) as [->|N].
    + by rewrite lookup_insert_eq, L.
    + rewrite lookup_insert_ne by done. by destruct (idRows t !! i).
Qed.

(** *** The loop over a page of identities *)

Section Stats.
Context (local : Location) (fault : nat -> option string) (clock : Time).

(** A row after the batch: as it was, or with the events behind its cursor. *)
Definition aggregates (t t' : IdentityTables) : Prop :=
  idEvents t' = idEvents t /\ idNextID t' = idNextID t /\
  (identities_ok t -> identities_ok t') /\
  (forall id r, idRows t !! id = Some r -> exists r', idRows t' !! id = Some r' /\
     uiIdentity r' = uiIdentity r /\ uiAuthType r' = uiAuthType r /\
     uiMetadata r' = uiMetadata r /\ cursor r <= cursor r') /\
  (forall id, is_Some (idRows t' !! id) -> is_Some (idRows t !! id)).

Lemma aggregates_refl t : aggregates t t.
Proof. split; [done|]. split; [done|]. split; [done|]. split; [|done]. intros id r H. exists r. by split. Qed.

Lemma aggregates_trans t1 t2 t3 : aggregates t1 t2 -> aggregates t2 t3 -> aggregates t1 t3.
Proof.
  intros (E1 & N1 & O1 & R1 & D1) (E2 & N2 & O2 & R2 & D2).
  split; [congruence|]. split; [congruence|]. split; [by auto|]. split; [|by auto].
  intros id r L. destruct (R1 id r L) as (r2 & L2 & I2 & A2 & M2 & C2).
  destruct (R2 id r2 L2) as (r3 & L3 & I3 & A3 & M3 & C3). exists r3. split_and!; congruence || lia.
Qed.

(** What a successful delta says about the events behind the cursor. *)
Definition delta_of (identity : UsageIdentity) (delta : UsageIdentityStatsDelta) (t : IdentityTables) : Prop :=
  (dlTotalRequests delta <> 0 ->
   selectDelta local (filter (fun e => is_event_of identity e = true /\ cursor identity < evID e)
     (idEvents t)) = Ok delta) /\
  (dlTotalRequests delta = 0 ->
   forall e, e ∈ idEvents t -> is_event_of identity e = true -> evID e <= cursor identity).

Lemma delta_of_select identity delta t :
  selectDelta local (filter (fun e => is_event_of identity e = true /\ cursor identity < evID e)
    (idEvents t)) = Ok delta -> delta_of identity delta t.
Proof.
  intros D. split; [done|]. intros Z0 e He Hi. apply Z.nlt_ge. intros Lt.
  destruct (selectDelta_columns _ _ _ D) as [Cols _]. apply Forall_cons in Cols as [Q _].
  cbn in Q. rewrite Z0 in Q. set (l := filter _ _) in Q.
  assert (In : e ∈ l) by (apply list_elem_of_filter; done).
  destruct l as [|x l']; [by apply elem_of_nil in In|]. cbn [map] in Q. rewrite sum_Z_cons in Q.
  pose proof (sum_Z_nonneg (map (fun _ => 1) l')) as S. rewrite Forall_map in S.
  assert (0 <= sum_Z (map (fun _ : UsageEvent => 1) l')) by (apply S; by apply Forall_true). lia.
Qed.

Lemma delta_spec identity :
  preserves (aggregateUsageIdentityDelta local fault identity) (fun t r t' => t' = t /\
    match r with Ok delta => delta_of identity delta t | Err _ => True end).
Proof.
  unfold aggregateUsageIdentityDelta. destruct (usageIdentityEventsQuery identity) eqn:Q.
  2: { eapply preserves_weaken; [apply preserves_ret|]. intros t a t' [-> ->]. split; [done|].
       split; [done|]. intros _ e _. unfold is_event_of. by rewrite Q. }
  apply preserves_wrap with (R := fun t r t' => t' = t /\
    match r with Ok delta => delta_of identity delta t | Err _ => True end).
  - eapply preserves_try; [apply preserves_query|intros delta; apply preserves_ret|by intros t e t' [-> _]|].
    intros t delta t' b t'' [-> E] [-> Eb]. split; [done|]. destruct b as [b|e]; [|done].
    apply delta_of_select. rewrite Eb. symmetry. exact E.
  - by intros t e e' t' [-> _].
Qed.

(** The UPDATE of one identity. *)
Lemma aggregates_update identity delta now t :
  idRows t !! uiID identity = Some identity -> dlTotalRequests delta <> 0 ->
  selectDelta local (filter (fun e => is_event_of identity e = true /\ cursor identity < evID e)
    (idEvents t)) = Ok delta ->
  let t' := updateRow (uiID identity)
    (fun r => touched clock (withTotals (addDelta now delta (uiTotals identity)) r)) t in
  events_ok (idEvents t) -> identity_row_ok (idEvents t) identity ->
  aggregates t t' /\ exists r', idRows t' !! uiID identity = Some r' /\
    forall e, e ∈ idEvents t -> is_event_of identity e = true -> evID e <= cursor r'.
Proof.
  intros L N D t' [_ P] Ok0. subst t'. unfold updateRow. rewrite L.
  set (r' := touched _ _).
  destruct (aggregated_row_ok local (idEvents t) identity r' now delta P Ok0 D N eq_refl eq_refl eq_refl)
    as (Ok' & Lt & Up).
  split; [|exists r'; split; [apply lookup_insert_eq|done]].
  split; [done|]. split; [done|]. split; [|split]; cbn [setRows idRows idEvents idNextID].
  - intros (Ev & Pn & [K1 K2] & R). split_and!; [done|done|split|]; cbn [setRows idRows idEvents idNextID].
    + intros id r. destruct (decide (id = uiID identity)) as [->|Ne].
      * rewrite lookup_insert_eq. intros [= <-]. destruct (K1 _ _ L). done.
      * rewrite lookup_insert_ne by done. apply K1.
    + intros id1 id2 r1 r2.
      assert (Old : forall id r, <[uiID identity:=r']> (idRows t) !! id = Some r ->
        exists s, idRows t !! id = Some s /\ uiAuthType s = uiAuthType r /\ uiIdentity s = uiIdentity r).
      { intros id r. destruct (decide (id = uiID identity)) as [->|Ne].
        - rewrite lookup_insert_eq. intros [= <-]. by exists identity.
        - rewrite lookup_insert_ne by done. by exists r. }
      intros (s1 & H1 & A1 & I1)%Old (s2 & H2 & A2 & I2)%Old A I. apply (K2 id1 id2 s1 s2); congruence.
    + intros id r. destruct (decide (id = uiID identity)) as [->|Ne].
      * rewrite lookup_insert_eq. by intros [= <-].
      * rewrite lookup_insert_ne by done. apply R.
  - intros id r H. destruct (decide (id = uiID identity)) as [->|Ne].
    + exists r'. rewrite lookup_insert_eq. assert (r = identity) as -> by congruence.
      split_and!; try done. lia.
    + exists r. rewrite lookup_insert_ne by done. by split.
  - intros id. destruct (decide (id = uiID identity)) as [->|Ne]; [by rewrite L|].
    by rewrite lookup_insert_ne.
Qed.

Lemma updateRow_other id f t k : k <> id -> idRows (updateRow id f t) !! k = idRows t !! k.
Proof.
  intros N. unfold updateRow. destruct (idRows t !! id); [|done]. by apply lookup_insert_ne.
Qed.

Lemma rows_loop_spec identities now n :
  preserves (aggregateUsageIdentityRows local fault clock identities now n) (fun t r t' =>
    match r with
    | Ok _ => identities_ok t -> NoDup (map uiID identities) ->
        Forall (fun i => idRows t !! uiID i = Some i) identities ->
        aggregates t t' /\
        (forall id, id ∉ map uiID identities -> idRows t' !! id = idRows t !! id) /\
        Forall (fun i => exists r', idRows t' !! uiID i = Some r' /\
          forall e, e ∈ idEvents t -> is_event_of i e = true -> evID e <= cursor r') identities
    | Err _ => True
    end).
Proof.
  revert n. induction identities as [|i identities IH]; intros n; cbn [aggregateUsageIdentityRows].
  { intros d _ _ _. split; [apply aggregates_refl|by split]. }
  set (Post := fun (t : IdentityTables) (r : result string Z) (t' : IdentityTables) => match r with
    | Ok _ => identities_ok t -> NoDup (map uiID (i :: identities)) ->
        Forall (fun i => idRows t !! uiID i = Some i) (i :: identities) ->
        aggregates t t' /\
        (forall id, id ∉ map uiID (i :: identities) -> idRows t' !! id = idRows t !! id) /\
        Forall (fun i => exists r', idRows t' !! uiID i = Some r' /\
          forall e, e ∈ idEvents t -> is_event_of i e = true -> evID e <= cursor r') (i :: identities)
    | Err _ => True end).
  eapply preserves_try with (Q := fun delta t r t' => delta_of i delta t -> Post t r t').
  - apply delta_spec.
  - intros delta. destruct (Z.eqb_spec (dlTotalRequests delta) 0) as [Z0|Nz].
    + eapply preserves_weaken; [apply IH|]. intros t [m|e] t' H [_ D]; [|done].
      intros Ok0 [Nd1 Nd2]%NoDup_cons [L F]%Forall_cons. destruct (H Ok0 Nd2 F) as (A & Oth & Cov).
      split; [done|]. split.
      * intros id [_ N2]%not_elem_of_cons. by apply Oth.
      * constructor; [|done]. exists i. rewrite Oth by done. split; [done|]. by apply D.
    + eapply preserves_try with (Q := fun (_ : unit) t r t' => match r with
        | Ok _ => identities_ok t -> NoDup (map uiID identities) ->
            Forall (fun i => idRows t !! uiID i = Some i) identities ->
            aggregates t t' /\
            (forall id, id ∉ map uiID identities -> idRows t' !! id = idRows t !! id) /\
            Forall (fun i => exists r', idRows t' !! uiID i = Some r' /\
              forall e, e ∈ idEvents t -> is_event_of i e = true -> evID e <= cursor r') identities
        | Err _ => True end).
      * apply preserves_wrap with (R := fun t (r : result string unit) t' => match r with
          | Ok _ => t' = updateRow (uiID i)
              (fun r => touched clock (withTotals (addDelta now delta (uiTotals i)) r)) t
          | Err _ => True end); [|done].
        eapply preserves_weaken; [apply preserves_statement|]. intros t [u|e] t'; [|done]. by intros [= -> _].
      * intros u. apply IH.
      * done.
      * intros t u t' [m|e] t'' Up H D; [|done].
        intros Ok0 [Nd1 Nd2]%NoDup_cons [L F]%Forall_cons. destruct D as [D _].
        destruct (aggregates_update i delta now t L Nz (D Nz) (proj1 Ok0)) as [A1 C1].
        { apply Ok0 in L. done. }
        rewrite <- Up in A1, C1. pose proof A1 as (E1 & _ & O1 & _).
        destruct H as (A2 & Oth & Cov).
        { by apply O1. }
        { done. }
        { apply Forall_forall. intros j Hj. rewrite Up, updateRow_other.
          - by apply (proj1 (Forall_forall _ _) F).
          - intros Same. apply Nd1. rewrite <- Same. by apply (list_elem_of_fmap_2 uiID). }
        split; [by eapply aggregates_trans|]. split.
        -- intros id [N1 N2]%not_elem_of_cons. rewrite Oth by done. rewrite Up. by apply updateRow_other.
        -- rewrite E1 in Cov. constructor; [|done].
           destruct C1 as (r' & H1 & C1). exists r'. by rewrite Oth.
  - done.
  - intros t delta t' r t'' [-> D] H. exact (H D).
Qed.

(** *** Pages *)

Lemma elem_of_rows_by_id (rows : gmap Z UsageIdentity) i :
  i ∈ rows_by_id rows <-> exists k, rows !! k = Some i.
Proof.
  unfold rows_by_id. rewrite (merge_sort_Permutation key_le (map_to_list rows)). split.
  - intros ([k r] & -> & H)%list_elem_of_fmap_1. exists k. by apply elem_of_map_to_list.
  - intros [k H%elem_of_map_to_list]. by apply (list_elem_of_fmap_2 snd) in H.
Qed.

#[local] Instance key_le_total : Total key_le.
Proof. intros p q. unfold key_le. lia. Qed.
#[local] Instance key_le_trans : Transitive key_le.
Proof. intros p q r. unfold key_le. lia. Qed.

Lemma map_uiID_rows (rows : gmap Z UsageIdentity) l :
  (forall k r, rows !! k = Some r -> uiID r = k) -> l ≡ₚ map_to_list rows ->
  map uiID (map snd l) = map fst l.
Proof.
  intros K P. rewrite map_map. apply map_ext_in. intros [k r] H. cbn. apply K, elem_of_map_to_list.
  rewrite <- P. by apply list_elem_of_In.
Qed.

(** The keys of the ordered rows increase. *)
Lemma rows_by_id_sorted (rows : gmap Z UsageIdentity) :
  (forall k r, rows !! k = Some r -> uiID r = k) ->
  StronglySorted Z.lt (map uiID (rows_by_id rows)).
Proof.
  intros K. unfold rows_by_id. set (l := merge_sort key_le (map_to_list rows)).
  assert (P : l ≡ₚ map_to_list rows) by apply merge_sort_Permutation.
  rewrite (map_uiID_rows rows l K P).
  assert (Nd : NoDup (map fst l)) by (change (NoDup (l.*1)); rewrite P; apply NoDup_fst_map_to_list).
  assert (S : StronglySorted key_le l) by apply (StronglySorted_merge_sort key_le).
  clear -S Nd. induction S as [|p l S IH F]; [constructor|]. cbn [map] in *.
  apply NoDup_cons in Nd as [N Nd]. constructor; [by apply IH|]. apply Forall_map.
  rewrite Forall_forall in F |- *. intros q Hq. specialize (F q Hq). unfold key_le in F.
  assert (p.1 <> q.1). { intros E. apply N. rewrite E. by apply (list_elem_of_fmap_2 fst). } lia.
Qed.

Lemma strictly_NoDup (l : list Z) : StronglySorted Z.lt l -> NoDup l.
Proof.
  induction 1 as [|x l S IH F]; [constructor|]. constructor; [|done].
  intros H. rewrite Forall_forall in F. specialize (F x H). lia.
Qed.

Definition covered_row (events : list UsageEvent) (r : UsageIdentity) : Prop :=
  forall e, e ∈ events -> is_event_of r e = true -> evID e <= cursor r.

Lemma aggregates_covered t t' id r r' : aggregates t t' ->
  idRows t !! id = Some r -> idRows t' !! id = Some r' ->
  covered_row (idEvents t) r -> covered_row (idEvents t') r'.
Proof.
  intros (E & _ & _ & R & _) L L' C e He Hi. rewrite E in He.
  destruct (R id r L) as (r2 & L2 & I & A & _ & Cm). assert (r2 = r') as -> by congruence.
  rewrite (is_event_of_same r' r) in Hi by done. specialize (C e He Hi). lia.
Qed.

(** The rows of one page of a scan. *)
Definition page_covered (after : Z) (res : UsageIdentityAggregationBatchResult) (t' : IdentityTables) : Prop :=
  forall id r, idRows t' !! id = Some r -> after < id ->
    (ReachedEnd res = true \/ id <= LastIdentityID res) -> covered_row (idEvents t') r.

Lemma take_sorted_ids (l : list UsageIdentity) (k : nat) i m :
  StronglySorted Z.lt (map uiID l) -> i ∈ l -> last (take k l) = Some m -> uiID i <= uiID m -> i ∈ take k l.
Proof.
  revert k. induction l as [|x l IH]; intros [|k] S; try done. cbn [map take] in *.
  apply StronglySorted_inv in S as [S F]. rewrite Forall_map, Forall_forall in F.
  intros [->|H]%elem_of_cons L Le; [apply elem_of_cons; by left|]. apply elem_of_cons. right.
  destruct (take k l) as [|y r] eqn:T.
  - cbn in L. injection L as ->. specialize (F i H). cbn in F. lia.
  - rewrite <- T. apply IH; [done|done| |done]. rewrite T. exact L.
Qed.

(** What a committed page has done. *)
Definition page_post (after : Z) (t : IdentityTables)
    (r : result string UsageIdentityAggregationBatchResult) (t' : IdentityTables) : Prop :=
  match r with
  | Ok res => identities_ok t -> aggregates t t' /\ page_covered after res t' /\
      (ReachedEnd res = false -> after < LastIdentityID res < idNextID t)
  | Err _ => True
  end.

Lemma batch_spec now after :
  preserves (AggregateUsageIdentityStatsBatch local fault clock now after) (fun t r t' =>
    page_post after t r t' /\ (is_ok r = false -> t' = t)).
Proof.
  unfold AggregateUsageIdentityStatsBatch. destruct (after <? 0); [by intros d|].
  eapply preserves_weaken.
  { apply preserves_transaction. eapply preserves_try with (S := page_post after) (Q := fun identities t r t' =>
      identities = take (Z.to_nat UsageIdentityAggregationBatchSize)
           (filter (fun i => after < uiID i) (rows_by_id (idRows t))) -> page_post after t r t').
    - apply preserves_wrap with (R := fun t r t' => t' = t /\
        match r with
        | Ok a => a = take (Z.to_nat UsageIdentityAggregationBatchSize)
                    (filter (fun i => after < uiID i) (rows_by_id (idRows t)))
        | Err _ => True
        end); [apply preserves_query|by intros t e e' t' [-> _]].
    - intros identities. case_bool_decide as Em.
      + intros d. cbn. intros E (_ & _ & [K _] & _). subst identities. split; [apply aggregates_refl|].
        split; [|done]. intros id r L A _. exfalso.
        assert (H : r ∈ filter (fun i => after < uiID i) (rows_by_id (idRows (dbTables d)))).
        { apply list_elem_of_filter. destruct (K id r L) as [-> _]. split; [done|].
          apply elem_of_rows_by_id. by exists id. }
        destruct (filter _ (rows_by_id _)) as [|x l]; [by apply elem_of_nil in H|]. done.
      + eapply preserves_try with (Q := fun (processed : Z) t r t' => t' = t /\
          r = Ok (mkIdentityBatch processed (last_identity identities)
                    (Z.of_nat (length identities) <? UsageIdentityAggregationBatchSize))).
        * apply rows_loop_spec.
        * intros processed. apply preserves_ret.
        * done.
        * intros t processed t' r t'' H [-> ->] E Ok0.
          pose proof Ok0 as (_ & _ & [K _] & _).
          assert (K' : forall k r, idRows t !! k = Some r -> uiID r = k) by (intros k r L; apply (K k r L)).
          set (all := filter (fun i => after < uiID i) (rows_by_id (idRows t))) in *.
          assert (S : StronglySorted Z.lt (map uiID all)).
          { subst all. pose proof (rows_by_id_sorted (idRows t) K') as S. clear -S.
            induction (rows_by_id (idRows t)) as [|x l IH]; [constructor|]. cbn [map] in S.
            apply StronglySorted_inv in S as [S F]. rewrite filter_cons. case_decide; [|by apply IH].
            cbn [map]. constructor; [by apply IH|]. rewrite Forall_map, Forall_forall in F |- *.
            intros y [_ Hy]%list_elem_of_filter. by apply F. }
          assert (Mem : forall i, i ∈ identities -> idRows t !! uiID i = Some i /\ after < uiID i).
          { intros i Hi. rewrite E in Hi. apply elem_of_take in Hi as (n & Hi%list_elem_of_lookup_2 & _).
            apply list_elem_of_filter in Hi as [Ai [k Hk]%elem_of_rows_by_id].
            split; [by rewrite (K' k i Hk)|exact Ai]. }
          destruct H as (A & Oth & Cov).
          { done. }
          { rewrite E. clear -S. rewrite <- firstn_map. eapply sublist_NoDup; [|apply sublist_take].
            by apply strictly_NoDup. }
          { apply Forall_forall. intros i Hi. by apply Mem. }
          destruct (last identities) as [m|] eqn:Lm; [|by apply last_None in Lm].
          unfold last_identity. rewrite Lm. cbn [LastIdentityID ReachedEnd].
          split; [done|]. split.
          -- intros id r L Aft Reach. cbn [ReachedEnd LastIdentityID] in Reach.
             assert (exists r0, idRows t !! id = Some r0) as [r0 L0].
             { pose proof A as (_ & _ & _ & _ & Dm). by apply Dm. }
             assert (Id0 : uiID r0 = id) by (by apply K').
             assert (In0 : r0 ∈ all).
             { apply list_elem_of_filter. split; [by rewrite Id0|]. apply elem_of_rows_by_id. by exists id. }
             assert (In : r0 ∈ identities).
             { rewrite E. destruct Reach as [Re|Le].
               - apply Z.ltb_lt in Re. rewrite E, length_take in Re.
                 unfold UsageIdentityAggregationBatchSize in *. rewrite take_ge; [done|]. lia.
               - eapply take_sorted_ids; [done|done|rewrite <- E; exact Lm|lia]. }
             rewrite Forall_forall in Cov. destruct (Cov r0 In) as (r' & Lr' & C).
             rewrite Id0 in Lr'. assert (r' = r) as -> by congruence.
             pose proof A as (Ev & _ & _ & R & _). destruct (R id r0 L0) as (r2 & L2 & I2 & A2 & _).
             assert (r2 = r) as -> by congruence.
             intros e He Hi. rewrite Ev in He. apply C; [done|]. by rewrite (is_event_of_same r0 r).
          -- intros _. apply last_Some_elem_of in Lm. destruct (Mem m Lm) as [Lk Af].
             destruct (K _ _ Lk) as [_ Bd]. lia.
    - done.
    - intros t identities t' r t'' [-> E] H. by apply H. }
  intros t [res|e] t' H; [by split|]. by split.
Qed.

(** *** A whole scan *)

(** Rows up to [after] are covered before, then all of them are. *)
Definition scan_post (after : Z) (t : IdentityTables) (r : option (result string unit))
    (t' : IdentityTables) : Prop :=
  identities_ok t -> aggregates t t' /\
  (r = Some (Ok tt) ->
   (forall id row, idRows t !! id = Some row -> id <= after -> covered_row (idEvents t) row) ->
   forall id row, idRows t' !! id = Some row -> covered_row (idEvents t') row).

Lemma scan_spec fuel now after :
  preserves (identityPages local fault fuel clock now after) (scan_post after).
Proof.
  revert after. induction fuel as [|fuel IH]; intros after; cbn [identityPages].
  { intros d Ok0. split; [apply aggregates_refl|done]. }
  eapply preserves_bind with (Q := fun batch t r t' => identities_ok t ->
    aggregates t t' /\ (r = Some (Ok tt) -> exists res, batch = Ok res /\
      (ReachedEnd res = true /\ t' = t \/
       ReachedEnd res = false /\
       ((forall id row, idRows t !! id = Some row -> id <= LastIdentityID res -> covered_row (idEvents t) row) ->
        forall id row, idRows t' !! id = Some row -> covered_row (idEvents t') row)))).
  - apply batch_spec.
  - intros [res|e].
    2: { intros d _. split; [apply aggregates_refl|done]. }
    destruct (ReachedEnd res) eqn:Re.
    + intros d _. split; [apply aggregates_refl|]. intros _. exists res. split; [done|]. by left.
    + eapply preserves_weaken; [apply (IH (LastIdentityID res))|]. intros t r t' H Ok0.
      destruct (H Ok0) as [A C]. split; [done|]. intros Er. exists res. split; [done|]. right.
      split; [done|]. by apply C.
  - intros t batch t1 r t' [H He] Q Ok0. destruct batch as [res|e].
    2: { rewrite He in Q by done. destruct (Q Ok0) as [A N]. split; [done|]. intros Er.
         destruct (N Er) as (x & [=] & _). }
    destruct (H Ok0) as (A1 & Cov & _). pose proof A1 as (E1 & _ & O1 & _ & D1).
    destruct (Q (O1 Ok0)) as [A2 N]. split; [by eapply aggregates_trans|]. intros Er Before id row L.
    assert (Mid : forall id row, idRows t1 !! id = Some row ->
      ReachedEnd res = true \/ id <= LastIdentityID res -> covered_row (idEvents t1) row).
    { intros i w Li Re. destruct (Z.le_gt_cases i after) as [Le|Gt].
      - destruct (D1 i) as [w0 L0]; [by exists w|]. eapply aggregates_covered; [exact A1|exact L0|exact Li|].
        by apply (Before i).
      - apply (Cov i w Li); [lia|done]. }
    destruct (N Er) as (res' & [= <-] & [[Re ->]|[Re C]]).
    + apply (Mid id row L). by left.
    + apply (C (fun i w Li Le => Mid i w Li (or_intror Le)) id row L).
Qed.

(** The scan ends: every page ends at a later key. *)
Lemma scan_ends fuel now after d : identities_ok (dbTables d) -> (0 < fuel)%nat ->
  idNextID (dbTables d) - after <= Z.of_nat fuel ->
  exists d' r, identityPages local fault fuel clock now after d = (d', Some r).
Proof.
  revert after d. induction fuel as [|fuel IH]; intros after d Ok0 P L; [lia|].
  cbn [identityPages]. unfold sql_bind. pose proof (batch_spec now after d) as [H He].
  destruct (AggregateUsageIdentityStatsBatch _ _ _ now after d) as [d1 [res|e]]; cbn [fst snd] in *;
    [|by eexists _, _].
  destruct (H Ok0) as (A & _ & Nx). destruct (ReachedEnd res); [by eexists _, _|].
  specialize (Nx eq_refl). pose proof A as (_ & N & O & _). apply IH; [by apply O|lia|lia].
Qed.

End Stats.

(** ** Synchronisation and edits *)

Lemma applyField_core local julianday f r : same_core r (applyField local julianday f r).
Proof. destruct r as [? ? ? ? [] ? ? ? ? ? ?]. by destruct f. Qed.

Lemma applyFields_core local julianday fields r : same_core r (applyFields local julianday fields r).
Proof.
  revert r. induction fields as [|f fields IH]; intros r; [reflexivity|].
  transitivity (applyField local julianday f r); [apply applyField_core|]. apply IH.
Qed.

Section Sync.
Context (local : Location) (julianday : string -> option Z) (fault : nat -> option string).

Lemma preserves_edit {A} (p : Sql IdentityTables (result string A)) prefix :
  preserves p (fun t _ t' => edited t t') -> preserves (wrap prefix p) (fun t _ t' => edited t t').
Proof. intros H. by apply preserves_wrap with (R := fun t (_ : result string A) t' => edited t t'). Qed.

Lemma edited_statement {A} (run : IdentityTables -> IdentityTables * A) :
  (forall t, edited t (run t).1) -> preserves (statement fault run) (fun t _ t' => edited t t').
Proof.
  intros H. eapply preserves_weaken; [apply preserves_statement|]. intros t [a|e] t'; [|by intros ->].
  intros E. specialize (H t). by rewrite <- E in H.
Qed.

Lemma edited_try {A B} (m : Sql IdentityTables (result string A)) (f : A -> Sql IdentityTables (result string B)) :
  preserves m (fun t _ t' => edited t t') -> (forall a, preserves (f a) (fun t _ t' => edited t t')) ->
  preserves (sql_try m f) (fun t _ t' => edited t t').
Proof.
  intros Hm Hf. eapply preserves_try; [exact Hm|exact Hf|done|]. intros t a t' b t'' H1 H2.
  by transitivity t'.
Qed.

Lemma edited_ret {A} (a : A) : preserves (@sql_ret IdentityTables A a) (fun t _ t' => edited t t').
Proof. intros d. reflexivity. Qed.

Lemma edited_insert i t t' : zero_totals i -> insertIdentity i t = Some t' -> edited t t'.
Proof.
  intros Z0. unfold insertIdentity. destruct (existsb _ _) eqn:Ex; [done|]. intros [= <-].
  assert (Fresh : forall id r, idRows t !! id = Some r ->
    uiAuthType r = uiAuthType i -> uiIdentity r = uiIdentity i -> False).
  { intros id r L A I. assert (Ex' : existsb (fun p : Z * UsageIdentity =>
      (uiAuthType p.2 =? uiAuthType i) && (uiIdentity p.2 =?s uiIdentity i)) (map_to_list (idRows t)) = true).
    { apply existsb_exists. exists (id, r). split; [by apply list_elem_of_In, elem_of_map_to_list|].
      cbn. by rewrite A, I, Z.eqb_refl, String.eqb_refl. }
    congruence. }
  intros [P [K1 K2]]. set (row := mkUsageIdentity _ _ _ _ _ _ _ _ _ _ _).
  assert (Look : forall id r, <[idNextID t := row]> (idRows t) !! id = Some r ->
    id = idNextID t /\ r = row \/ id <> idNextID t /\ idRows t !! id = Some r).
  { intros id r. destruct (decide (id = idNextID t)) as [->|N].
    - rewrite lookup_insert_eq. intros [= <-]. by left.
    - rewrite lookup_insert_ne by done. by right. }
  split; [done|]. split; [cbn; lia|]. split; [split; [cbn; lia|split]|split]; cbn [idRows idNextID idEvents].
  - intros id r [[-> ->]|[_ L]]%Look; [cbn; lia|]. destruct (K1 id r L). lia.
  - intros id1 id2 r1 r2 [[-> ->]|[_ L1]]%Look [[-> ->]|[_ L2]]%Look A I; [done|..].
    + by destruct (Fresh id2 r2 L2).
    + by destruct (Fresh id1 r1 L1).
    + by apply (K2 id1 id2 r1 r2).
  - intros id r L. exists r. split; [|reflexivity]. rewrite lookup_insert_ne; [done|].
    intros <-. destruct (K1 _ _ L). lia.
  - intros id r' [[-> ->]|[_ L]]%Look; [right; by split|left]. by exists r'.
Qed.

Lemma edited_inserts l t t' : Forall zero_totals l -> insertIdentities l t = Some t' -> edited t t'.
Proof.
  intros F. revert t. induction F as [|i l Z0 _ IH]; intros t; cbn [insertIdentities]; [by intros [= <-]|].
  destruct (insertIdentity i t) as [t1|] eqn:E; [|done]. intros H.
  transitivity t1; [by eapply edited_insert|by apply IH].
Qed.

Lemma chunks_in {A} fuel size (l : list A) c x : c ∈ chunks fuel size l -> x ∈ c -> x ∈ l.
Proof.
  revert l. induction fuel as [|fuel IH]; intros [|a l]; cbn [chunks]; try by intros ?%elem_of_nil.
  set (all := a :: l). intros [->|H]%elem_of_cons Hx.
  - apply elem_of_take in Hx as (i & Hi & _). by eapply list_elem_of_lookup_2.
  - specialize (IH _ H Hx). rewrite <- (take_drop size all). apply elem_of_app. by right.
Qed.

Lemma preserves_each_in {A} (f : A -> Sql IdentityTables (result string unit)) l :
  (forall a, a ∈ l -> preserves (f a) (fun t _ t' => edited t t')) ->
  preserves (for_each f l) (fun t _ t' => edited t t').
Proof.
  induction l as [|a l IH]; intros H; [apply edited_ret|]. cbn [for_each].
  apply edited_try; [apply H, elem_of_cons; by left|]. intros u. apply IH. intros x Hx.
  apply H, elem_of_cons. by right.
Qed.

Lemma apply_sync_edited changes now context : Forall zero_totals (icCreate changes) ->
  preserves (applyUsageIdentitySync local julianday fault changes now context) (fun t _ t' => edited t t').
Proof.
  intros Z0. unfold applyUsageIdentitySync. case_bool_decide; [apply edited_ret|].
  eapply preserves_weaken.
  { apply preserves_transaction with (R := fun t (_ : result string unit) t' => edited t t').
    apply edited_try; [|intros _; apply edited_try; [|intros _]].
    - apply preserves_each_in. intros change _. apply preserves_edit, edited_statement. intros t.
      apply edited_update_row. intros r. destruct (unedited change r); [apply applyFields_core|reflexivity].
    - unfold createIdentities. case_bool_decide; [apply edited_ret|]. apply preserves_edit, preserves_each_in.
      intros batch Hb. apply edited_try; [|intros [|]; apply edited_ret].
      apply edited_statement. intros t. destruct (insertIdentities batch t) as [t'|] eqn:E; [|reflexivity].
      eapply edited_inserts; [|exact E]. apply Forall_forall. intros i Hi.
      rewrite Forall_forall in Z0. apply Z0. by eapply chunks_in.
    - apply preserves_each_in. intros ids _. apply preserves_edit, edited_statement. intros t.
      apply edited_map. intros id r. by case_bool_decide. }
  intros t [u|e] t'; [done|by intros ->].
Qed.

Lemma created_zero existing identities incoming types now : Forall zero_totals identities ->
  Forall zero_totals (icCreate (identityChanges existing identities incoming types now)).
Proof.
  intros F. cbn. induction F as [|i l Z0 _ IH]; [constructor|]. rewrite omap_cons.
  destruct (existingRow existing (uiIdentity i)); [done|]. by constructor.
Qed.

Lemma normalized_zero authType seen identities : Forall zero_totals identities ->
  Forall zero_totals (normalizeFrom authType seen identities).
Proof.
  intros F. revert seen. induction F as [|i l Z0 _ IH]; intros seen; cbn [normalizeFrom]; [constructor|].
  destruct (_ =?s _); [apply IH|]. case_bool_decide; [apply IH|]. by constructor.
Qed.

Lemma prepare_apply_edited prefix identities incoming authType types now context :
  Forall zero_totals identities ->
  preserves (sql_try (wrap prefix (prepareUsageIdentitySync fault identities incoming authType types now))
      (fun changes => applyUsageIdentitySync local julianday fault changes now context))
    (fun t _ t' => edited t t').
Proof.
  intros Z0. eapply preserves_try with (Q := fun changes t r t' =>
    Forall zero_totals (icCreate changes) -> edited t t').
  - apply preserves_wrap with (R := fun (t : IdentityTables) r t' => t' = t /\ match r with
      | Ok changes => Forall zero_totals (icCreate changes) | Err _ => True end); [|by intros t e e' t' [-> _]].
    eapply preserves_try; [apply preserves_query|intros ex; apply preserves_ret|by intros t e t' [-> _]|].
    intros t ex t' r t'' [-> _] [-> ->]. split; [done|]. by apply created_zero.
  - intros changes d Zc. by apply apply_sync_edited.
  - by intros t e t' [-> _].
  - intros t changes t' r t'' [-> Zc] H. by apply H.
Qed.

Lemma replace_auth_type_edited identities authType now : Forall zero_totals identities ->
  preserves (ReplaceUsageIdentitiesForAuthType local julianday fault identities authType now)
    (fun t _ t' => edited t t').
Proof.
  intros Z0. unfold ReplaceUsageIdentitiesForAuthType. destruct (IsZero now); [apply edited_ret|].
  apply prepare_apply_edited. by apply normalized_zero.
Qed.

Lemma replace_provider_types_edited identities types now : Forall zero_totals identities ->
  preserves (ReplaceUsageIdentitiesForProviderTypes local julianday fault identities types now)
    (fun t _ t' => edited t t').
Proof.
  intros Z0. unfold ReplaceUsageIdentitiesForProviderTypes. destruct (IsZero now); [apply edited_ret|].
  apply prepare_apply_edited. by apply normalized_zero.
Qed.

(** Edits of single columns. *)
Lemma updateWhere_edited clock where_ f t : (forall r, same_core r (f r)) ->
  edited t (updateWhere clock where_ f t).1.
Proof.
  intros S. unfold updateWhere. cbn [fst].
  replace ((fun r => if where_ r then touched clock (f r) else r) <$> idRows t) with
    (map_imap (fun _ r => Some (if where_ r then touched clock (f r) else r)) (idRows t)).
  - apply edited_map. intros _ r. destruct (where_ r); [|reflexivity]. apply S.
  - apply map_eq. intros i. rewrite map_lookup_imap, lookup_fmap. by destruct (idRows t !! i).
Qed.

Lemma edit_edited clock where_ f : (forall r, same_core r (f r)) ->
  preserves (notFoundWhenNone (statement fault (updateWhere clock where_ f))) (fun t _ t' => edited t t').
Proof.
  intros S. apply edited_try; [|intros n; destruct (n =? 0)%nat; apply edited_ret].
  apply edited_statement. intros t. by apply updateWhere_edited.
Qed.

End Sync.

(** ** Every run *)

Definition identities_empty : IdentityTables := mkIdentityTables [] ∅ 1.

(** The steps on events and identities; every statement may fail. *)
Inductive identity_step (local : Location) (julianday : string -> option Z)
    : IdentityTables -> IdentityTables -> Prop :=
| identity_insert_events t events : events_ok (idEvents t ++ events) ->
    identity_step local julianday t (mkIdentityTables (idEvents t ++ events) (idRows t) (idNextID t))
| identity_batch fault clock now after d :
    identity_step local julianday (dbTables d)
      (dbTables (AggregateUsageIdentityStatsBatch local fault clock now after d).1)
| identity_sync fault identities authType now d : Forall zero_totals identities ->
    identity_step local julianday (dbTables d)
      (dbTables (ReplaceUsageIdentitiesForAuthType local julianday fault identities authType now d).1)
| identity_provider_sync fault identities types now d : Forall zero_totals identities ->
    identity_step local julianday (dbTables d)
      (dbTables (ReplaceUsageIdentitiesForProviderTypes local julianday fault identities types now d).1)
| identity_alias fault clock id alias d :
    identity_step local julianday (dbTables d) (dbTables (UpdateUsageIdentityAlias fault clock id alias d).1)
| identity_disabled fault clock authType identity disabled d :
    identity_step local julianday (dbTables d)
      (dbTables (UpdateUsageIdentityDisabled local julianday fault clock authType identity disabled d).1)
| identity_priority fault clock authType identity priority d :
    identity_step local julianday (dbTables d)
      (dbTables (UpdateUsageIdentityPriority local julianday fault clock authType identity priority d).1).

Definition identity_reaches local julianday : IdentityTables -> IdentityTables -> Prop :=
  clos_refl_trans_1n _ (identity_step local julianday).

Lemma identities_insert_ok t events : events_ok (idEvents t ++ events) -> identities_ok t ->
  identities_ok (mkIdentityTables (idEvents t ++ events) (idRows t) (idNextID t)).
Proof.
  intros Ev ([S P] & N & K & R). split_and!; [done|done|done|]. cbn [idRows idEvents]. intros id r L.
  destruct (R id r L) as [C S0].
  assert (Above : Forall (fun e => cursor r < evID e) events).
  { destruct Ev as [S' P']. apply Forall_app in P' as [_ P']. destruct C as [->|(e & He & <-)]; [done|].
    apply Forall_forall. intros x Hx. change (by_id e x).
    eapply StronglySorted_app_1_elem_of; [exact S'|done|done]. }
  split.
  - destruct C as [C|(e & He & C)]; [by left|]. right. exists e. split; [|done].
    apply elem_of_app. by left.
  - unfold counted in *. eapply Forall_impl; [exact S0|]. intros p H. rewrite H.
    rewrite identity_sum_app by done. reflexivity.
Qed.

Lemma identity_step_cases local julianday t t' : identity_step local julianday t t' ->
  (exists events, events_ok (idEvents t ++ events) /\
     t' = mkIdentityTables (idEvents t ++ events) (idRows t) (idNextID t)) \/
  (identities_ok t -> aggregates t t') \/ edited t t'.
Proof.
  destruct 1 as [t events Ev|fault clock now after d|fault identities authType now d Z0
    |fault identities types now d Z0|fault clock id alias d|fault clock authType identity disabled d
    |fault clock authType identity priority d].
  - left. by exists events.
  - right; left. intros Ok0. pose proof (batch_spec local fault clock now after d) as [H He].
    destruct (AggregateUsageIdentityStatsBatch _ _ _ now after d) as [d1 [res|e]]; cbn [fst snd] in *.
    + by destruct (H Ok0) as (A & _).
    + rewrite He by done. apply aggregates_refl.
  - right; right. by apply replace_auth_type_edited.
  - right; right. by apply replace_provider_types_edited.
  - right; right. by apply edit_edited.
  - right; right. unfold UpdateUsageIdentityDisabled.
    destruct (_ =?s _); [apply edited_ret|apply edit_edited, applyField_core].
  - right; right. apply edit_edited, applyField_core.
Qed.

Lemma identity_step_ok local julianday t t' : identity_step local julianday t t' ->
  identities_ok t -> identities_ok t'.
Proof.
  intros [(events & Ev & ->)|[A|Ed]]%identity_step_cases Ok0.
  - by apply identities_insert_ok.
  - destruct (A Ok0) as (_ & _ & O & _). by apply O.
  - by eapply edited_ok.
Qed.

(** Events come behind the others, and the rows of before keep their identity while
    their cursors move on. *)
Definition identity_onward (t t' : IdentityTables) : Prop :=
  (exists more, idEvents t' = idEvents t ++ more) /\ idNextID t <= idNextID t' /\
  forall id r', idRows t' !! id = Some r' -> id < idNextID t -> exists r,
    idRows t !! id = Some r /\ uiAuthType r' = uiAuthType r /\ uiIdentity r' = uiIdentity r /\
    cursor r <= cursor r'.

#[export] Instance identity_onward_preorder : PreOrder identity_onward.
Proof.
  split.
  - intros t. split; [exists []; by rewrite app_nil_r|]. split; [done|]. intros id r' L _. by exists r'.
  - intros t1 t2 t3 ([m1 E1] & N1 & R1) ([m2 E2] & N2 & R2). split; [|split; [lia|]].
    + exists (m1 ++ m2). rewrite E2, E1. by rewrite app_assoc.
    + intros id r3 L3 Lt. destruct (R2 id r3 L3) as (r2 & L2 & A2 & I2 & C2); [lia|].
      destruct (R1 id r2 L2 Lt) as (r1 & L1 & A1 & I1 & C1). exists r1. split_and!; congruence || lia.
Qed.

Lemma aggregates_onward t t' : aggregates t t' -> identity_onward t t'.
Proof.
  intros (E & N & _ & R & D). split; [exists []; by rewrite E, app_nil_r|]. split; [lia|].
  intros id r' L' _. destruct (D id) as [r L]; [by exists r'|].
  destruct (R id r L) as (r2 & L2 & I & A & _ & C). assert (r2 = r') as -> by congruence.
  exists r. split_and!; done || lia.
Qed.

Lemma identity_step_onward local julianday t t' : identity_step local julianday t t' ->
  identities_ok t -> identity_onward t t'.
Proof.
  intros [(events & Ev & ->)|[A|Ed]]%identity_step_cases Ok0.
  - split; [by exists events|]. split; [done|]. intros id r' L _. by exists r'.
  - by apply aggregates_onward, A.
  - destruct Ok0 as (_ & P & K & _). destruct (Ed (conj P K)) as (E & N & _ & _ & B).
    split; [exists []; by rewrite E, app_nil_r|]. split; [done|]. intros id r' L Lt.
    destruct (B id r' L) as [(r & Lr & _ & A & I & T)|[_ Le]]; [|lia]. exists r. unfold cursor.
    rewrite T. split_and!; done || lia.
Qed.

Lemma identities_empty_ok : identities_ok identities_empty.
Proof.
  split_and!; [split; constructor|done|split|]; cbn; intros *; rewrite lookup_empty; done.
Qed.

Lemma identity_reaches_ok local julianday t t' : identity_reaches local julianday t t' ->
  identities_ok t -> identities_ok t'.
Proof. induction 1 as [|t t1 t2 S _ IH]; [done|]. intros Ok0. by eapply IH, identity_step_ok. Qed.

Lemma identity_reaches_onward local julianday t t' : identity_reaches local julianday t t' ->
  identities_ok t -> identity_onward t t'.
Proof.
  induction 1 as [|t t1 t2 S _ IH]; intros Ok0; [reflexivity|].
  transitivity t1; [by eapply identity_step_onward|]. by eapply IH, identity_step_ok.
Qed.

(** C6: whatever is inserted, synchronised, edited and aggregated in whatever
    order, with any statement failing: each counter of an identity is the sum over
    its events up to the cursor of its row, every such event counted once (modulo
    the wrap-around of int64). *)
Theorem identity_counts_once (local : Location) (julianday : string -> option Z) (t : IdentityTables)
    (id : Z) (r : UsageIdentity) (col : IdentityTotals -> Z) (delta : UsageIdentityStatsDelta -> Z)
    (amount : UsageEvent -> Z) :
  identity_reaches local julianday identities_empty t -> idRows t !! id = Some r ->
  (col, delta, amount) ∈ identity_columns ->
  eqm64 (col (uiTotals r))
    (sum_Z (map (fun e => if is_event_of r e && (evID e <=? itLastAggregatedUsageEventID (uiTotals r))
                          then amount e else 0) (idEvents t))).
Proof.
  intros R L C. destruct (identity_reaches_ok _ _ _ _ R identities_empty_ok) as (_ & _ & _ & Rows).
  destruct (Rows id r L) as [_ S]. unfold counted in S. rewrite Forall_forall in S.
  exact (S (col, delta, amount) C).
Qed.

(** A scan over all identities ends, and when it reports success no event of
    any identity is left behind its cursor. *)
Theorem identity_scan_complete (local : Location) (julianday : string -> option Z)
    (fault : nat -> option string) (fuel : nat) (clock now : Time) (d : Db IdentityTables) :
  identity_reaches local julianday identities_empty (dbTables d) ->
  idNextID (dbTables d) <= Z.of_nat fuel ->
  exists d' r, AggregateUsageIdentityStats local fault fuel clock now d = (d', Some r) /\
    (r = Ok tt -> hasPendingUsageIdentityAggregation (dbTables d') = false).
Proof.
  intros R L. pose proof (identity_reaches_ok _ _ _ _ R identities_empty_ok) as Ok0.
  pose proof Ok0 as (_ & N & [K _] & _).
  destruct (scan_ends local fault clock fuel now 0 d Ok0) as (d' & r & E); [lia|lia|].
  exists d', r. split; [exact E|]. intros ->.
  pose proof (scan_spec local fault clock fuel now 0 d Ok0) as [_ C]. rewrite E in C. cbn [fst snd] in C.
  unfold hasPendingUsageIdentityAggregation. apply not_true_is_false. intros P.
  apply existsb_exists in P as (i & Hi & P). apply existsb_exists in P as (e & He & P).
  apply list_elem_of_In in He. apply list_elem_of_In, elem_of_rows_by_id in Hi as [k Hk].
  bool_split. assert (evID e <= cursor i).
  { eapply (C eq_refl); [|exact Hk|exact He|done]. intros k' r' L' Le. destruct (K k' r' L'). lia. }
  unfold cursor in *. lia.
Qed.

(** ** The metadata after an update *)

Section Diff.
Context (local : Location) (julianday : string -> option Z).

Abbreviation apply := (applyFields local julianday).

Lemma applyFields_app l1 l2 r : apply (l1 ++ l2) r = apply l2 (apply l1 r).
Proof. apply foldl_app. Qed.

(** A conditional assignment is the assignment. *)
Lemma apply_changeWhen {A} `{EqDecision A} (old new : A) (f : A -> FieldChange) r :
  applyField local julianday (f old) r = r ->
  apply (changeWhen old new f) r = applyField local julianday (f new) r.
Proof. unfold changeWhen. intros E. case_decide as D; [|done]. subst. symmetry. exact E. Qed.

Lemma changeWhen_same {A} `{EqDecision A} (v : A) (f : A -> FieldChange) : changeWhen v v f = [].
Proof. unfold changeWhen. by case_decide. Qed.

(** The subscription end a Codex row ends up with. *)
Definition merged_until (old new : option Time) : option Time :=
  match new, old with
  | Some n, Some o => if (o <? n) && laterJulian local julianday n o then Some n else Some o
  | Some n, None => Some n
  | None, _ => old
  end.

Definition synced (existing incoming : UsageIdentity) : IdentityMetadata :=
  let n := uiMetadata incoming in
  mkIdentityMetadata (imName n) (imAuthTypeName n) (imType n) (imProvider n) (imLookupKey n) (imPrefix n)
    (imBaseURL n) (imFileName n) (imFilePath n) (imPriority n) (imDisabled n) (imNote n) (imAccountID n)
    (imProjectID n) (imXAIUserID n) (imActiveStart n)
    (if isCodex incoming then merged_until (imActiveUntil (uiMetadata existing)) (imActiveUntil n)
     else imActiveUntil n)
    (imPlanType n).

Lemma apply_diff existing incoming :
  apply (usageIdentityMetadataDiff existing incoming) existing =
  mkUsageIdentity (uiID existing) (uiAlias existing) (uiAuthType existing) (uiIdentity existing)
    (synced existing incoming) (uiTotals existing) (uiReset existing) false (uiCreatedAt existing)
    (uiUpdatedAt existing) None.
Proof.
  unfold usageIdentityMetadataDiff, synced. set (codex := isCodex incoming).
  destruct existing as [id al at_ idn [n a t p l pr b ff fp prio d no ac pj x st un pl] tot res del cr up da].
  destruct (uiMetadata incoming) as [n' a' t' p' l' pr' b' ff' fp' prio' d' no' ac' pj' x' st' un' pl'].
  cbn [uiMetadata uiID uiAlias uiAuthType uiIdentity uiTotals uiReset uiIsDeleted uiCreatedAt uiUpdatedAt uiDeletedAt
       imName imAuthTypeName imType imProvider imLookupKey imPrefix imBaseURL imFileName imFilePath imPriority
       imDisabled imNote imAccountID imProjectID imXAIUserID imActiveStart imActiveUntil imPlanType].
  do 17 (rewrite applyFields_app, apply_changeWhen by reflexivity; cbn [applyField uiMetadata uiID uiAlias
    uiAuthType uiIdentity uiTotals uiReset uiIsDeleted uiCreatedAt uiUpdatedAt uiDeletedAt]).
  rewrite !applyFields_app. destruct codex; cycle 1.
  { rewrite apply_changeWhen by reflexivity. by destruct del, da. }
  unfold merged_until. destruct un' as [new|]; [|by destruct del, da].
  destruct un as [old|]; [|by destruct del, da]. destruct (old <? new); [|by destruct del, da].
  cbn. destruct (laterJulian local julianday new old); by destruct del, da.
Qed.

(** The fields of an update are what the stored row lacks: written to it they
    give the metadata CPA reported (for a Codex credential the later end of the
    subscription), on a row that is not deleted, and leave identity, alias, totals,
    cursor and creation alone.  After that the same report asks for nothing more
    (Codex rows apart, whose subscription end SQLite compares). *)
Theorem metadata_diff_applied (existing incoming : UsageIdentity) :
  let r := applyFields local julianday (usageIdentityMetadataDiff existing incoming) existing in
  uiMetadata r = synced existing incoming /\ uiIsDeleted r = false /\ uiDeletedAt r = None /\
  same_core existing r /\ uiAlias r = uiAlias existing /\ uiReset r = uiReset existing /\
  uiCreatedAt r = uiCreatedAt existing /\
  (isCodex incoming = false -> usageIdentityMetadataDiff r incoming = []).
Proof.
  rewrite apply_diff. repeat split. intros C. unfold usageIdentityMetadataDiff, synced. rewrite C.
  cbn [uiMetadata uiIsDeleted uiDeletedAt imName imAuthTypeName imType imProvider imLookupKey imPrefix imBaseURL
       imFileName imFilePath imPriority imDisabled imNote imAccountID imProjectID imXAIUserID imActiveStart
       imActiveUntil imPlanType].
  by rewrite !changeWhen_same.
Qed.

End Diff.

(** *** A small run *)

Definition demo_identity (name : string) : UsageIdentity :=
  mkUsageIdentity 0 None 1 name
    (mkIdentityMetadata name "oauth" "gemini" EmptyString EmptyString EmptyString EmptyString None None
       (Some 3) None None None None None None None None)
    (mkIdentityTotals 0 0 0 0 0 0 0 0 0 0 None None None) (mkIdentityReset None 0 0 0 0 0 0)
    false zero_time zero_time None.

Definition demo_use (id tokens : Z) : UsageEvent :=
  mkUsageEvent id EmptyString "key" EmptyString EmptyString "oauth" EmptyString EmptyString
    None None None None "model" None EmptyString EmptyString EmptyString EmptyString
    EmptyString (1709164800 * Second) EmptyString "a" false None None None 0 None
    tokens tokens 0 0 0 false 0 (tokens + tokens) zero_time.

Definition demo_synced : IdentityTables :=
  dbTables (ReplaceUsageIdentitiesForAuthType UTC (fun _ => None) (fun _ => None)
    [demo_identity "a"; demo_identity " b "] 1 (1709164800 * Second) (mkDb identities_empty 0)).1.

Definition demo_used : IdentityTables :=
  mkIdentityTables (idEvents demo_synced ++ [demo_use 1 5; demo_use 2 7]) (idRows demo_synced)
    (idNextID demo_synced).

Definition demo_identities : Db IdentityTables :=
  (AggregateUsageIdentityStatsBatch UTC (fun _ => None) (1709164900 * Second) (1709164900 * Second) 0
     (mkDb demo_used 0)).1.

Lemma demo_identities_run : identity_reaches UTC (fun _ => None) identities_empty (dbTables demo_identities).
Proof.
  apply (rt1n_trans _ _ _ demo_synced).
  { apply (identity_sync UTC (fun _ => None) (fun _ => None) _ _ _ (mkDb identities_empty 0)).
    by repeat constructor. }
  apply (rt1n_trans _ _ _ demo_used).
  { apply identity_insert_events. vm_compute. split; repeat constructor. }
  apply (rt1n_trans _ _ _ (dbTables demo_identities)); [|apply rt1n_refl].
  apply (identity_batch UTC (fun _ => None) (fun _ => None) _ _ _ (mkDb demo_used 0)).
Qed.

Lemma identity_counts_once_witness : exists r,
  idRows (dbTables demo_identities) !! 1 = Some r /\ itTotalTokens (uiTotals r) = 24 /\
  eqm64 (itTotalTokens (uiTotals r)) 24.
Proof.
  eexists. split; [vm_compute; reflexivity|]. split; [vm_compute; reflexivity|].
  refine (identity_counts_once UTC (fun _ => None) (dbTables demo_identities) 1 _ itTotalTokens dlTotalTokens
    evTotalTokens demo_identities_run _ _).
  - vm_compute. reflexivity.
  - by repeat (left + right).
Defined.

Lemma identity_scan_complete_witness : exists d' r,
  AggregateUsageIdentityStats UTC (fun _ => None) 3 (1709164900 * Second) (1709164900 * Second) demo_identities
    = (d', Some r) /\ (r = Ok tt -> hasPendingUsageIdentityAggregation (dbTables d') = false).
Proof.
  apply (identity_scan_complete UTC (fun _ => None) (fun _ => None) 3 _ _ demo_identities demo_identities_run).
  vm_compute. discriminate.
Defined.

(** MIN and MAX compare texts with the offset at their end: in the hour that
    comes twice the first use is taken from the later event. *)
Example first_used_in_the_repeated_hour :
  let local := mkLocation (-18000) [(1710054000, -14400); (1730613600, -18000)] in
  let at_ t := mkUsageEvent 1 EmptyString EmptyString EmptyString EmptyString "oauth" EmptyString EmptyString
    None None None None EmptyString None EmptyString EmptyString EmptyString EmptyString
    EmptyString (t * Second) EmptyString "a" false None None None 0 None 0 0 0 0 0 false 0 0 zero_time in
  exists delta, selectDelta local [at_ 1730611800; at_ 1730614200] = Ok delta /\
    dlFirstUsedAt delta = Some (1730614200 * Second) /\ dlLastUsedAt delta = Some (1730611800 * Second).
Proof. eexists. split; [vm_compute; reflexivity|]. by split. Qed.
