(* ===== verification/AggregationRunner.v ===== *)
(** poller/usage_aggregation_runner.go: one goroutine that takes turns between the
    three rollups and the identities, towards targets that notifications raise.

    The world of the runner is what it shares with other goroutines (the tables,
    its own memory behind the mutex, the wake channel, the context), a script of
    what the others do, and a trace of what it does itself.  Before each lock
    section, each repository call and each select the next [Moment] of the script
    happens, so a theorem about all scripts is one about all interleavings.  A
    moment also settles the choices of select and of the timers.

    [isCtxErr] tells whether the chain of an error holds the error of the context,
    which its text does not show.  Logging is left out. *)
From S2P Require Import Prelude GoStrings GoTime Timeutil Entities ActivityGrain Uvarint Sketch SampleSet Inbox Sql Overview LatencyRows Aggregation IdentityStats.

Local Open Scope string_scope.
Local Open Scope list_scope.
Local Open Scope Z_scope.

Definition usageAggregationDefaultDebounceInterval : Duration := 5 * Second.
Definition usageAggregationInboxRetryInterval : Duration := 100 * Millisecond.
Definition usageAggregationErrorBackoffInitial : Duration := 100 * Millisecond.
Definition usageAggregationErrorBackoffMax : Duration := 2 * Second.
Definition usageAggregationEventPageSize : Z := 1000.

Inductive UsageAggregationKind :=
| UsageAggregationKindRollups
| UsageAggregationKindIdentity.

#[export] Instance UsageAggregationKind_eq_dec : EqDecision UsageAggregationKind.
Proof. solve_decision. Defined.

Record UsageAggregationRunResult := mkRunResult {
  rrKind : UsageAggregationKind;
  rrProcessed : bool;
  rrDeferredForInbox : bool;
}.

(** The fields behind the mutex. *)
Record RunnerMemory := mkMemory {
  nextKind : UsageAggregationKind;
  startupTargetLoaded : bool;
  activeRound : bool;
  activeTargetEventID : Z;
  rollupsReachedTarget : bool;
  pendingTargetEventID : Z;
  identityAfterID : Z;
  identityTargetGeneration : Z;
  identityScanGeneration : Z;
}.

(** NewUsageAggregationRunnerWithOptions. *)
Definition newMemory : RunnerMemory :=
  mkMemory UsageAggregationKindRollups false false 0 false 0 0 1 0.

Definition debounceIntervalOf (option_ : Duration) : Duration :=
  if option_ <=? 0 then usageAggregationDefaultDebounceInterval else option_.

(** A notification that was delivered, with what was stored at that moment: the
    largest event key and the next key of an identity.  The history is not part of
    the program; nothing reads it. *)
Record Notice := mkNotice {
  ncTarget : Z;
  ncEvents : Z;
  ncRows : Z;
  ncGeneration : Z;
}.

(** What the goroutines share. *)
Record Keeper := mkKeeper {
  kAgg : AggTables;
  kRows : gmap Z UsageIdentity;
  kNextID : Z;
  kInbox : InboxTable;
  kMemory : RunnerMemory;
  kWake : bool;
  kCancelled : bool;
  kNow : Time;
  kNotices : list Notice;
}.

Definition kIdentity (k : Keeper) : IdentityTables :=
  mkIdentityTables (agEvents (kAgg k)) (kRows k) (kNextID k).

Definition setAgg (t : AggTables) (k : Keeper) : Keeper :=
  mkKeeper t (kRows k) (kNextID k) (kInbox k) (kMemory k) (kWake k) (kCancelled k) (kNow k) (kNotices k).
Definition setIdentity (t : IdentityTables) (k : Keeper) : Keeper :=
  mkKeeper (kAgg k) (idRows t) (idNextID t) (kInbox k) (kMemory k) (kWake k) (kCancelled k) (kNow k)
    (kNotices k).
Definition setMemory (m : RunnerMemory) (k : Keeper) : Keeper :=
  mkKeeper (kAgg k) (kRows k) (kNextID k) (kInbox k) m (kWake k) (kCancelled k) (kNow k) (kNotices k).
Definition setWake (wake : bool) (k : Keeper) : Keeper :=
  mkKeeper (kAgg k) (kRows k) (kNextID k) (kInbox k) (kMemory k) wake (kCancelled k) (kNow k) (kNotices k).

(** ** Notifications, from other goroutines *)

Definition notice (target generation : Z) (k : Keeper) : Notice :=
  mkNotice target (foldr Z.max 0 (map evID (agEvents (kAgg k)))) (kNextID k) generation.

(** The lock section of a notification, and signalWake: the channel holds one. *)
Definition notified (target : Z) (k : Keeper) : Keeper :=
  let m := kMemory k in
  let generation := wrapu64 (identityTargetGeneration m + 1) in
  let pending := if pendingTargetEventID m <? target then target else pendingTargetEventID m in
  mkKeeper (kAgg k) (kRows k) (kNextID k) (kInbox k)
    (mkMemory (nextKind m) (startupTargetLoaded m) (activeRound m) (activeTargetEventID m)
       (rollupsReachedTarget m) pending (identityAfterID m) generation (identityScanGeneration m))
    true (kCancelled k) (kNow k) (kNotices k ++ [notice target generation k]).

Definition maxCommitted (events : list UsageEvent) : Z :=
  foldl (fun maxEventID event => if maxEventID <? evID event then evID event else maxEventID) 0 events.

Definition NotifyUsageEventsCommitted (events : list UsageEvent) (k : Keeper) : Keeper :=
  let maxEventID := maxCommitted events in
  if maxEventID <=? 0 then k else notified maxEventID k.

(** [pendingTargetEventID] is not touched: it is never negative. *)
Definition NotifyUsageIdentitiesChanged (k : Keeper) : Keeper :=
  let m := kMemory k in
  let generation := wrapu64 (identityTargetGeneration m + 1) in
  mkKeeper (kAgg k) (kRows k) (kNextID k) (kInbox k)
    (mkMemory (nextKind m) (startupTargetLoaded m) (activeRound m) (activeTargetEventID m)
       (rollupsReachedTarget m) (pendingTargetEventID m) (identityAfterID m) generation
       (identityScanGeneration m))
    true (kCancelled k) (kNow k) (kNotices k ++ [notice 0 generation k]).

(** A runner made for stored tables; the history starts with what is stored. *)
Definition NewUsageAggregationRunner (agg : AggTables) (rows : gmap Z UsageIdentity) (nextID : Z)
    (inbox : InboxTable) (now : Time) : Keeper :=
  let k := mkKeeper agg rows nextID inbox newMemory false false now [] in
  mkKeeper agg rows nextID inbox newMemory false false now
    [notice (foldr Z.max 0 (map evID (agEvents agg))) 1 k].

(** ** Lock sections of the runner, on its memory *)

Definition identityWorkPendingLocked (m : RunnerMemory) : bool :=
  negb (identityAfterID m =? 0) || (identityScanGeneration m <? identityTargetGeneration m).

Definition hasRunnableWorkLocked (m : RunnerMemory) : bool :=
  activeRound m || identityWorkPendingLocked m.

Definition nextRunnableKindLocked (m : RunnerMemory) : UsageAggregationKind * bool :=
  let rollupsPending := activeRound m in
  let identityPending := identityWorkPendingLocked m in
  if rollupsPending && identityPending then (nextKind m, true)
  else if rollupsPending then (UsageAggregationKindRollups, true)
  else if identityPending then (UsageAggregationKindIdentity, true)
  else (nextKind m, false).

(** The section of Run before a turn. *)
Definition pendingRollupWindow (m : RunnerMemory) : bool :=
  (0 <? pendingTargetEventID m)
  && (negb (activeRound m) || (activeTargetEventID m <? pendingTargetEventID m)).

Definition withRound (active : bool) (target : Z) (reached : bool) (pending : Z) (m : RunnerMemory)
    : RunnerMemory :=
  mkMemory (nextKind m) (startupTargetLoaded m) active target reached pending (identityAfterID m)
    (identityTargetGeneration m) (identityScanGeneration m).

Definition withNextKind (kind : UsageAggregationKind) (m : RunnerMemory) : RunnerMemory :=
  mkMemory kind (startupTargetLoaded m) (activeRound m) (activeTargetEventID m) (rollupsReachedTarget m)
    (pendingTargetEventID m) (identityAfterID m) (identityTargetGeneration m) (identityScanGeneration m).

Definition withScan (afterID generation : Z) (m : RunnerMemory) : RunnerMemory :=
  mkMemory (nextKind m) (startupTargetLoaded m) (activeRound m) (activeTargetEventID m)
    (rollupsReachedTarget m) (pendingTargetEventID m) afterID (identityTargetGeneration m) generation.

(** The second section of ensureStartupTarget. *)
Definition startupTarget (targetEventID : Z) (m : RunnerMemory) : RunnerMemory :=
  if startupTargetLoaded m then m
  else
    mkMemory (nextKind m) true true targetEventID (targetEventID =? 0)
      (if pendingTargetEventID m <=? targetEventID then 0 else pendingTargetEventID m)
      (identityAfterID m) (identityTargetGeneration m) (identityScanGeneration m).

Definition freezePendingTarget (m : RunnerMemory) : RunnerMemory :=
  if pendingTargetEventID m <=? 0 then m
  else if activeRound m && (pendingTargetEventID m <=? activeTargetEventID m)
  then withRound (activeRound m) (activeTargetEventID m) (rollupsReachedTarget m) 0 m
  else withRound true (pendingTargetEventID m) false 0 m.

Definition completeRollupRoundIfReadyLocked (m : RunnerMemory) : RunnerMemory :=
  if negb (activeRound m) || negb (rollupsReachedTarget m) then m
  else withRound false 0 false
         (if pendingTargetEventID m <=? activeTargetEventID m then 0 else pendingTargetEventID m) m.

(** The section after a rollups turn. *)
Definition rollupsTurnDone (wasActive : bool) (targetEventID : Z) (reachedTarget : bool) (m : RunnerMemory)
    : RunnerMemory :=
  let m := withNextKind UsageAggregationKindIdentity m in
  let m := if wasActive && activeRound m && (activeTargetEventID m =? targetEventID) && reachedTarget
           then withRound (activeRound m) (activeTargetEventID m) true (pendingTargetEventID m) m
           else m in
  completeRollupRoundIfReadyLocked m.

(** The section after an identity page. *)
Definition identityPageDone (batch : UsageIdentityAggregationBatchResult) (identityPassGeneration : Z)
    (m : RunnerMemory) : RunnerMemory :=
  withScan (if ReachedEnd batch then 0 else LastIdentityID batch) identityPassGeneration
    (withNextKind UsageAggregationKindRollups m).

Definition advanceAfterFailure (kind : UsageAggregationKind) (m : RunnerMemory) : RunnerMemory :=
  match kind with
  | UsageAggregationKindRollups => withNextKind UsageAggregationKindIdentity m
  | UsageAggregationKindIdentity => withNextKind UsageAggregationKindRollups m
  end.

(** ** The world of the runner *)

(** What the others do at one moment, and how a choice falls. *)
Record Moment := mkMoment {
  moActs : Keeper -> Keeper;
  moPick : nat;
}.

Inductive RunnerEvent :=
| Turn (memory : RunnerMemory) (result : UsageAggregationRunResult) (err : option string)
| DebounceStarted (interval : Duration)
| RetryWait (delay : Duration).

Record World := mkWorld {
  wKeeper : Keeper;
  wScript : list Moment;
  wTrace : list RunnerEvent;
}.

Definition setKeeper (k : Keeper) (w : World) : World := mkWorld k (wScript w) (wTrace w).

Section Runner.
Context (local : Location) (sketchKey : Z -> Z) (iter : SampleSet -> list SamplePoint).
Context (sketchText : SketchError -> string) (sampleText : SampleError -> string)
  (walkText : WalkError -> string) (activityText : ActivityError -> string).
Context (fault : nat -> option string) (isCtxErr : string -> bool).

Abbreviation M A := (Sql World A).
Abbreviation Failing A := (Sql World (result string A)).

Local Open Scope sql_scope.

(** The next moment happens. *)
Definition interfere : M nat :=
  locked (fun w =>
    match wScript w with
    | [] => (w, O)
    | m :: rest => (mkWorld (moActs m (wKeeper w)) rest (wTrace w), moPick m)
    end).

Definition looked {A} (f : Keeper -> A) : M A :=
  let$ _ := interfere in locked (fun w => (w, f (wKeeper w))).

(** A section between [mu.Lock] and [mu.Unlock]. *)
Definition lock_section (f : RunnerMemory -> RunnerMemory) : M RunnerMemory :=
  let$ _ := interfere in
  locked (fun w => let m := kMemory (wKeeper w) in
                   (setKeeper (setMemory (f m) (wKeeper w)) w, m)).

Definition note (e : RunnerEvent) : M unit :=
  locked (fun w => (mkWorld (wKeeper w) (wScript w) (wTrace w ++ [e]), tt)).

Definition on_agg {A} (p : Sql AggTables A) : M A :=
  let$ _ := interfere in
  zoom (fun w => kAgg (wKeeper w)) (fun t w => setKeeper (setAgg t (wKeeper w)) w) p.

Definition on_identity {A} (p : Sql IdentityTables A) : M A :=
  let$ _ := interfere in
  zoom (fun w => kIdentity (wKeeper w)) (fun t w => setKeeper (setIdentity t (wKeeper w)) w) p.

(** repository.HasProcessableRedisUsageInbox. *)
Definition hasInbox : Failing bool :=
  let$ _ := interfere in
  query fault (fun w => match selectRows processable 1 (kInbox (wKeeper w)) with [] => false | _ => true end).

(** *** select *)

Inductive Ready := CtxDone | Woken | TimerFired.

(** Some ready case is chosen; receiving empties the wake channel. *)
Definition choose (timer : bool) (pick : nat) : M (option Ready) :=
  locked (fun w =>
    let k := wKeeper w in
    let ready := (if kCancelled k then [CtxDone] else []) ++ (if kWake k then [Woken] else [])
                 ++ (if timer then [TimerFired] else []) in
    match ready !! (pick mod length ready)%nat with
    | Some Woken => (setKeeper (setWake false k) w, Some Woken)
    | r => (w, r)
    end).

(** A select that blocks: moments pass until a case is ready.  A timer that is
    running ends at the latest when the script does; without one the answer
    [None] means that the goroutine sleeps for ever. *)
Fixpoint await (moments : nat) (timer : bool) : M (option Ready) :=
  let$ pick := interfere in
  match moments with
  | O => choose timer pick
  | S moments =>
      let$ r := choose (timer && Nat.odd pick) (Nat.div2 pick) in
      match r with
      | None => await moments timer
      | Some _ => sql_ret r
      end
  end.

Definition script_length : M nat := locked (fun w => (w, length (wScript w))).

Definition blocked (timer : bool) : M (option Ready) :=
  let$ n := script_length in await n timer.

Definition waitForRetry (delay : Duration) : M bool :=
  let$ _ := note (RetryWait delay) in
  let$ r := blocked true in
  sql_ret (match r with Some CtxDone => false | _ => true end).

(** *** The rollups turn *)

(** processed, deferred, reachedTarget, err *)
Record RollupsTurn := mkRollupsTurn {
  rtProcessed : bool;
  rtDeferred : bool;
  rtReached : bool;
  rtError : option string;
}.

(** errors.Join. *)
Definition errorsJoin (errs : list string) : option string :=
  match errs with
  | [] => None
  | _ => Some (String.concat (String (Ascii.ascii_of_nat 10) "") errs)
  end.

Definition deferForInbox : Failing bool :=
  try$ has := hasInbox in sql_ret (Ok has).

(** [if deferred, err := r.deferForInbox(...); err != nil || deferred]: the turn
    returns, or goes on. *)
Definition gate (processed : bool) (pageErrors : list string) : M (option RollupsTurn) :=
  let$ deferred := deferForInbox in
  sql_ret (match deferred with
           | Err e => Some (mkRollupsTurn processed false false (errorsJoin (pageErrors ++ [e])))
           | Ok true => Some (mkRollupsTurn processed true false (errorsJoin pageErrors))
           | Ok false => None
           end).

(** An error is kept for later, a success is remembered. *)
Definition tried (applied : result string unit) (processed : bool) (pageErrors : list string)
    : bool * list string :=
  match applied with
  | Ok _ => (true, pageErrors)
  | Err e => (processed, pageErrors ++ [e])
  end.

Definition applyOverview (cursor next : Z) (hourly daily : list OverviewStat) (now : Time) : Failing unit :=
  on_agg (ApplyUsageOverviewAggregationPage local fault cursor next hourly daily now).

Definition applyActivity (cursor next : Z) (rows : list UsageActivityStat) (now : Time) : Failing unit :=
  on_agg (ApplyUsageActivityAggregationPage fault cursor next rows now).

(** ApplyUsageLatencyAggregationPage, with a moment between its reading and its
    transaction. *)
Definition applyLatency (cursor next : Z) (rows : list UsageLatencyStat) (now : Time) : Failing unit :=
  let normalizedNow := NormalizeStorageTime now in
  try$ preparedRows := on_agg (PrepareRows local iter sketchText sampleText walkText agLatency fault
                                 rows normalizedNow) in
  on_agg (writeLatencyPage local walkText fault cursor next preparedRows normalizedNow).

Definition loadPage (cursor targetEventID : Z) : Failing (list UsageEvent) :=
  on_agg (LoadUsageAggregationEventPage fault cursor targetEventID usageAggregationEventPageSize).

(** One of the three steps of the shared page: the rows, unless building them
    failed, are applied, unless the inbox comes first. *)
Definition sharedStep {R} (rows : result string R) (apply : R -> Failing unit)
    (processed : bool) (pageErrors : list string) (k : bool -> list string -> M RollupsTurn)
    : M RollupsTurn :=
  let$ stop := gate processed pageErrors in
  match stop with
  | Some turn => sql_ret turn
  | None =>
      let$ applied := match rows with
                      | Err e => sql_ret (Err e)
                      | Ok rows => apply rows
                      end in
      let '(processed, pageErrors) := tried applied processed pageErrors in
      k processed pageErrors
  end.

Definition runSharedRollupsPage (cursor targetEventID : Z) (now : Time) : M RollupsTurn :=
  let$ events := loadPage cursor targetEventID in
  match events with
  | Err e => sql_ret (mkRollupsTurn false false false (Some e))
  | Ok [] => sql_ret (mkRollupsTurn false false false
                        (Some (String.concat EmptyString
                           ["shared usage aggregation page is empty before target "; Itoa targetEventID;
                            " from cursor "; Itoa cursor])))
  | Ok events =>
      let '(overviewHourly, overviewDaily, nextCursor) := OverviewBuildRows local events in
      let activityRows := buildActivity local activityText events now in
      let latencyRows := buildLatency local sketchKey iter sketchText sampleText events now in
      sharedStep (Ok (overviewHourly, overviewDaily))
        (fun rows => applyOverview cursor nextCursor rows.1 rows.2 now) false [] (fun processed pageErrors =>
      sharedStep activityRows
        (fun rows => applyActivity cursor nextCursor rows now) processed pageErrors (fun processed pageErrors =>
      sharedStep latencyRows
        (fun rows => applyLatency cursor nextCursor rows now) processed pageErrors (fun processed pageErrors =>
      sql_ret (match errorsJoin pageErrors with
               | Some err => mkRollupsTurn processed false false (Some err)
               | None => mkRollupsTurn processed false (targetEventID <=? nextCursor) None
               end))))
  end.

(** One of the three blocks of the fallback: [build] gives the next cursor and the
    rows; [k] goes on with the cursor that is then known. *)
Definition fallbackPage {R} (name : string) (cursor targetEventID : Z)
    (build : list UsageEvent -> result string (Z * R)) (apply : Z -> R -> Failing unit)
    (processed : bool) (pageErrors : list string) (k : Z -> bool -> list string -> M RollupsTurn)
    : M RollupsTurn :=
  if cursor <? targetEventID then
    let$ events := loadPage cursor targetEventID in
    match events with
    | Err e => k cursor processed (pageErrors ++ [e])
    | Ok [] => k cursor processed (pageErrors ++
                   [String.concat EmptyString [name; " fallback page is empty before target "; Itoa targetEventID]])
    | Ok events =>
        match build events with
        | Err e => k cursor processed (pageErrors ++ [e])
        | Ok (nextCursor, rows) =>
            let$ stop := gate processed pageErrors in
            match stop with
            | Some turn => sql_ret turn
            | None =>
                let$ applied := apply nextCursor rows in
                let '(processed, pageErrors) := tried applied processed pageErrors in
                k (if is_ok applied then nextCursor else cursor) processed pageErrors
            end
        end
    end
  else k cursor processed pageErrors.

Definition runFallbackRollupsPages (snapshot : UsageAggregationCheckpointSnapshot) (targetEventID : Z)
    (now : Time) : M RollupsTurn :=
  fallbackPage "overview" (OverviewCursor snapshot) targetEventID
    (fun events => let '(hourly, daily, nextCursor) := OverviewBuildRows local events in
                   Ok (nextCursor, (hourly, daily)))
    (fun nextCursor rows => applyOverview (OverviewCursor snapshot) nextCursor rows.1 rows.2 now)
    false [] (fun overviewCursor processed pageErrors =>
  fallbackPage "activity" (ActivityCursor snapshot) targetEventID
    (fun events => let? rows := buildActivity local activityText events now in Ok (last_id events, rows))
    (fun nextCursor rows => applyActivity (ActivityCursor snapshot) nextCursor rows now)
    processed pageErrors (fun activityCursor processed pageErrors =>
  fallbackPage "latency" (LatencyCursor snapshot) targetEventID
    (fun events => let? rows := buildLatency local sketchKey iter sketchText sampleText events now in
                   Ok (last_id events, rows))
    (fun nextCursor rows => applyLatency (LatencyCursor snapshot) nextCursor rows now)
    processed pageErrors (fun latencyCursor processed pageErrors =>
  let reached := (targetEventID <=? overviewCursor) && (targetEventID <=? activityCursor)
                 && (targetEventID <=? latencyCursor) in
  sql_ret (mkRollupsTurn processed false reached (errorsJoin pageErrors))))).

Definition runRollupsTurn (wasActive : bool) (targetEventID : Z) (now : Time) : M RollupsTurn :=
  if negb wasActive then sql_ret (mkRollupsTurn false false true None)
  else
    let$ loaded := on_agg (LoadUsageAggregationCheckpointSnapshot fault) in
    match loaded with
    | Err e => sql_ret (mkRollupsTurn false false false (Some e))
    | Ok snapshot =>
        if (targetEventID <=? OverviewCursor snapshot) && (targetEventID <=? ActivityCursor snapshot)
           && (targetEventID <=? LatencyCursor snapshot)
        then sql_ret (mkRollupsTurn false false true None)
        else if snapshot_Equal snapshot
        then runSharedRollupsPage (OverviewCursor snapshot) targetEventID now
        else runFallbackRollupsPages snapshot targetEventID now
    end.

(** *** One turn *)

Definition TurnResult : Type := UsageAggregationRunResult * option string.

Definition identityPassGenerationOf (m : RunnerMemory) : Z :=
  if identityAfterID m =? 0 then identityTargetGeneration m else identityScanGeneration m.

(** The case UsageAggregationKindIdentity, when identities are pending. *)
Definition runIdentityTurn (m : RunnerMemory) (now : Time) : M TurnResult :=
  let kind := UsageAggregationKindIdentity in
  let$ clock := looked kNow in
  let$ batch := on_identity (AggregateUsageIdentityStatsBatch local fault clock now (identityAfterID m)) in
  match batch with
  | Err e => sql_ret (mkRunResult kind false false, Some e)
  | Ok batch =>
      let$ before := lock_section (identityPageDone batch (identityPassGenerationOf m)) in
      let identityStillPending :=
        identityWorkPendingLocked (identityPageDone batch (identityPassGenerationOf m) before) in
      sql_ret (mkRunResult kind ((0 <? ProcessedIdentities batch) || negb (ReachedEnd batch)
                                 || identityStillPending) false, None)
  end.

Definition runTurn (kind : UsageAggregationKind) (m : RunnerMemory) : M TurnResult :=
  let$ inbox := hasInbox in
  match inbox with
  | Err e => sql_ret (mkRunResult kind false false, Some e)
  | Ok true => sql_ret (mkRunResult kind false true, None)
  | Ok false =>
      let$ now := looked kNow in
      match kind with
      | UsageAggregationKindRollups =>
          let$ turn := runRollupsTurn (activeRound m) (activeTargetEventID m) now in
          let result := mkRunResult kind (rtProcessed turn) (rtDeferred turn) in
          match rtError turn with
          | Some e => sql_ret (result, Some e)
          | None =>
              let$ _ := lock_section (rollupsTurnDone (activeRound m) (activeTargetEventID m) (rtReached turn)) in
              sql_ret (result, None)
          end
      | UsageAggregationKindIdentity =>
          if negb (identityWorkPendingLocked m) then
            let$ _ := lock_section (withNextKind UsageAggregationKindRollups) in
            sql_ret (mkRunResult kind false false, None)
          else runIdentityTurn m now
      end
  end.

(** The trace holds the memory the turn was chosen from, and its result. *)
Definition runPreparedOnce : M TurnResult :=
  let$ m := lock_section id in
  let '(kind, runnable) := nextRunnableKindLocked m in
  let$ answer := (if runnable : bool then runTurn kind m
                  else sql_ret (mkRunResult kind false false, None)) in
  let$ _ := note (Turn m answer.1 answer.2) in
  sql_ret answer.

Definition ensureStartupTarget : Failing unit :=
  let$ m := lock_section id in
  if startupTargetLoaded m then sql_ret (Ok tt)
  else
    try$ targetEventID := on_agg (LoadUsageAggregationTargetEventID fault) in
    let$ _ := lock_section (startupTarget targetEventID) in
    sql_ret (Ok tt).

(** [runner] and [database] tell which of the two pointers are not nil; [None]
    is the zero result, which has no kind. *)
Definition RunOnce (runner database : bool) : M (option UsageAggregationRunResult * option string) :=
  if negb runner then sql_ret (None, Some "usage aggregation runner is nil")
  else if negb database then sql_ret (None, Some "database is nil")
  else
    let$ started := ensureStartupTarget in
    match started with
    | Err e => sql_ret (Some (mkRunResult UsageAggregationKindRollups false false), Some e)
    | Ok _ =>
        let$ _ := lock_section freezePendingTarget in
        let$ answer := runPreparedOnce in
        sql_ret (Some answer.1, answer.2)
    end.

(** *** Run *)

(** How a run ends, or that the fuel did. *)
Inductive Outcome :=
| Returned (err : option string)
| Asleep
| OutOfFuel.

(** [ctxErr := ctx.Err(); ctxErr != nil && errors.Is(err, ctxErr)]. *)
Definition contextEnded (err : string) : M bool :=
  let$ cancelled := looked kCancelled in sql_ret (cancelled && isCtxErr err).

Fixpoint startup (fuel : nat) (startupBackoff : Duration) : M (option Outcome) :=
  match fuel with
  | O => sql_ret (Some OutOfFuel)
  | S fuel =>
      let$ loaded := ensureStartupTarget in
      match loaded with
      | Ok _ => sql_ret None
      | Err e =>
          let$ ended := contextEnded e in
          if ended : bool then sql_ret (Some (Returned None))
          else
            let$ again := waitForRetry startupBackoff in
            if negb again then sql_ret (Some (Returned None))
            else startup fuel (Z.min (startupBackoff * 2) usageAggregationErrorBackoffMax)
      end
  end.

(** The map errorBackoffs; an absent key reads as zero. *)
Definition Backoffs : Type := UsageAggregationKind -> Duration.
Definition noBackoffs : Backoffs := fun _ => 0.
Definition setBackoff (kind : UsageAggregationKind) (d : Duration) (b : Backoffs) : Backoffs :=
  fun k => if decide (k = kind) then d else b k.

(** [debounceTimer] tells whether a timer is running. *)
Fixpoint running (fuel : nat) (debounceInterval : Duration) (debounceTimer : bool)
    (errorBackoffs : Backoffs) : M Outcome :=
  match fuel with
  | O => sql_ret OutOfFuel
  | S fuel =>
      let$ cancelled := looked kCancelled in
      if cancelled : bool then sql_ret (Returned None)
      else
        let$ m := lock_section id in
        let$ _ := (if pendingRollupWindow m && negb debounceTimer
                   then note (DebounceStarted debounceInterval) else sql_ret tt) in
        let debounceTimer := debounceTimer || pendingRollupWindow m in
        let runnable := hasRunnableWorkLocked m in
        let$ pick := interfere in
        if debounceTimer && Nat.odd pick then
          let$ _ := lock_section freezePendingTarget in
          running fuel debounceInterval false errorBackoffs
        else if runnable then
          let$ answer := runPreparedOnce in
          let '(result, err) := answer in
          match err with
          | Some e =>
              let$ ended := contextEnded e in
              if ended : bool then sql_ret (Returned None)
              else
                let$ _ := lock_section (advanceAfterFailure (rrKind result)) in
                let backoff := errorBackoffs (rrKind result) in
                let backoff := if backoff =? 0 then usageAggregationErrorBackoffInitial else backoff in
                let$ again := waitForRetry backoff in
                if negb again then sql_ret (Returned None)
                else running fuel debounceInterval debounceTimer
                       (setBackoff (rrKind result) (Z.min (backoff * 2) usageAggregationErrorBackoffMax)
                          errorBackoffs)
          | None =>
              let errorBackoffs := setBackoff (rrKind result) 0 errorBackoffs in
              if rrDeferredForInbox result then
                let$ again := waitForRetry usageAggregationInboxRetryInterval in
                if negb again then sql_ret (Returned None)
                else running fuel debounceInterval debounceTimer errorBackoffs
              else running fuel debounceInterval debounceTimer errorBackoffs
          end
        else
          let$ r := blocked debounceTimer in
          match r with
          | None => sql_ret Asleep
          | Some CtxDone => sql_ret (Returned None)
          | Some Woken => running fuel debounceInterval debounceTimer errorBackoffs
          | Some TimerFired =>
              let$ _ := lock_section freezePendingTarget in
              running fuel debounceInterval false errorBackoffs
          end
  end.

Definition Run (fuel : nat) (runner database : bool) (debounceInterval : Duration) : M Outcome :=
  if negb runner then sql_ret (Returned (Some "usage aggregation runner is nil"))
  else if negb database then sql_ret (Returned (Some "database is nil"))
  else
    let$ ended := startup fuel usageAggregationErrorBackoffInitial in
    match ended with
    | Some outcome => sql_ret outcome
    | None => running fuel debounceInterval false noBackoffs
    end.

End Runner.
