(* ===== verification/AggregationTurns.v ===== *)
(** The aggregation runner among other goroutines: the logic its proofs use.

    Others write tables along their runs, notify what they have stored, fill the
    inbox, cancel.  An assertion that survives each such step is [Stable]; a
    program is [guarded] when it keeps the invariant and leads from one stable
    assertion to another, whatever the script says. *)
From S2P Require Import Prelude GoStrings GoTime Timeutil Entities ActivityGrain Uvarint Sketch SampleSet Inbox Sql Overview LatencyRows Aggregation AggregationFacts AggregationRuns IdentityStats IdentitySync IdentityFacts AggregationRunner.
From stdpp Require Import sorting.
From Stdlib Require Import Relation_Operators Operators_Properties.

Local Open Scope string_scope.
Local Open Scope list_scope.
Local Open Scope Z_scope.

(** *** Events that come later have larger keys *)

Lemma target_of_app events more :
  foldr Z.max 0 (map evID events) <= foldr Z.max 0 (map evID (events ++ more)).
Proof. induction events as [|e l IH]; cbn [app map foldr]; [|lia]. induction more; cbn [map foldr]; lia. Qed.

Lemma max_in (events : list UsageEvent) :
  events = [] \/ foldr Z.max 0 (map evID events) = 0 \/
  exists e, e ∈ events /\ evID e = foldr Z.max 0 (map evID events).
Proof.
  induction events as [|e l IH]; [by left|]. right. cbn [map foldr].
  destruct (Z.max_spec (evID e) (foldr Z.max 0 (map evID l))) as [[Lt ->]|[Le ->]].
  - destruct IH as [->|[E|(x & Hx & E)]]; [by left|by left|]. right. exists x. split; [by right|done].
  - right. exists e. split; [by left|done].
Qed.

Lemma old_event events more e : events_ok (events ++ more) -> e ∈ events ++ more ->
  evID e <= foldr Z.max 0 (map evID events) -> e ∈ events.
Proof.
  intros [S P] [H|H]%elem_of_app Le; [done|exfalso]. rewrite Forall_forall in P.
  pose proof (P e (proj2 (elem_of_app _ _ _) (or_intror H))) as Pe.
  destruct (max_in events) as [->|[E|(x & Hx & E)]]; [cbn in Le; lia|lia|].
  assert (Lt : by_id x e) by by eapply StronglySorted_app_1_elem_of. unfold by_id in Lt. lia.
Qed.

Lemma agg_run_trans local sketchKey iter sketchText sampleText walkText activityText t1 t2 t3 :
  let run := agg_run local sketchKey iter sketchText sampleText walkText activityText in
  run t1 t2 -> run t2 t3 -> run t1 t3.
Proof.
  cbv zeta. intros Pre Post. revert t1 Pre. induction Post; intros u Pre; [done|..].
  - apply run_insert; [by auto|done].
  - apply (run_overview _ _ _ _ _ _ _ u load fault d fault' c target limit page now); by auto.
  - eapply run_activity; [by auto|eassumption..].
  - eapply run_latency; [by auto|eassumption..].
  - apply run_activity_cleanup. by auto.
  - apply run_latency_cleanup. by auto.
Qed.

Section Turns.
Context (local : Location) (sketchKey : Z -> Z) (iter : SampleSet -> list SamplePoint).
Context (sketchText : SketchError -> string) (sampleText : SampleError -> string)
  (walkText : WalkError -> string) (activityText : ActivityError -> string).
Context (julianday : string -> option Z) (fault : nat -> option string).

Abbreviation run := (agg_run local sketchKey iter sketchText sampleText walkText activityText).
Abbreviation reaches := (identity_reaches local julianday).

Lemma reaches_trans i1 i2 i3 : reaches i1 i2 -> reaches i2 i3 -> reaches i1 i3.
Proof.
  intros H1 H2. apply clos_rt_rt1n. eapply rt_trans; apply clos_rt1n_rt; eassumption.
Qed.

(** ** The others *)

Definition storedMax (k : Keeper) : Z := foldr Z.max 0 (map evID (agEvents (kAgg k))).

Definition countable (k : Keeper) : Prop := identityTargetGeneration (kMemory k) < uint64_max.

(** What another goroutine does at once.  A commit is announced after it happened;
    fewer than 2^64 notifications are ever sent. *)
Inductive outside_step : Keeper -> Keeper -> Prop :=
| others_write k t rows nextID :
    run (kAgg k) t -> reaches (kIdentity k) (mkIdentityTables (agEvents t) rows nextID) ->
    outside_step k (mkKeeper t rows nextID (kInbox k) (kMemory k) (kWake k) (kCancelled k) (kNow k)
                      (kNotices k))
| others_committed k events : countable k -> maxCommitted events <= storedMax k ->
    outside_step k (NotifyUsageEventsCommitted events k)
| others_identities k : countable k -> outside_step k (NotifyUsageIdentitiesChanged k)
| others_inbox k inbox :
    outside_step k (mkKeeper (kAgg k) (kRows k) (kNextID k) inbox (kMemory k) (kWake k) (kCancelled k)
                      (kNow k) (kNotices k))
| others_cancel k :
    outside_step k (mkKeeper (kAgg k) (kRows k) (kNextID k) (kInbox k) (kMemory k) (kWake k) true
                      (kNow k) (kNotices k))
| others_time k now :
    outside_step k (mkKeeper (kAgg k) (kRows k) (kNextID k) (kInbox k) (kMemory k) (kWake k)
                      (kCancelled k) now (kNotices k)).

(** The script is one of such steps. *)
Definition polite (w : World) : Prop :=
  Forall (fun m => forall k, rtc outside_step k (moActs m k)) (wScript w).

(** ** The invariant *)

(** The tables were filled by runs, from the empty database. *)
Definition stored (k : Keeper) : Prop :=
  run agg_empty (kAgg k) /\ reaches identities_empty (kIdentity k).

(** Every checkpoint has passed [n]. *)
Definition behind_all (n : Z) (k : Keeper) : Prop := forall name, n <= cursor_of (kAgg k) name.

Definition rounds_ok (k : Keeper) : Prop :=
  let m := kMemory k in
  0 <= activeTargetEventID m <= storedMax k /\ 0 <= pendingTargetEventID m <= storedMax k /\
  (startupTargetLoaded m = false -> activeRound m = false) /\
  (activeRound m = true -> rollupsReachedTarget m = true -> behind_all (activeTargetEventID m) k).

(** What was stored when the runner was made. *)
Definition startMax (k : Keeper) : Z := match kNotices k with n :: _ => ncEvents n | [] => 0 end.

(** The event [n] is aggregated, or some target the runner will work for holds it. *)
Definition awaited (k : Keeper) (n : Z) : Prop :=
  let m := kMemory k in
  behind_all n k \/ activeRound m = true /\ n <= activeTargetEventID m \/ n <= pendingTargetEventID m \/
  startupTargetLoaded m = false /\ n <= startMax k.

(** The identities of a notice, up to [after] (all of them for 0), have counted its
    events. *)
Definition scanned (k : Keeper) (n : Notice) (after : Z) : Prop :=
  forall id r, kRows k !! id = Some r -> id < ncRows n -> after = 0 \/ id <= after ->
  forall e, e ∈ agEvents (kAgg k) -> evID e <= ncEvents n -> is_event_of r e = true -> evID e <= cursor r.

Definition scan_ok (k : Keeper) : Prop :=
  let m := kMemory k in
  0 <= identityAfterID m /\ 0 <= identityScanGeneration m <= identityTargetGeneration m /\
  identityTargetGeneration m <= uint64_max /\
  Forall (fun n => 1 <= ncGeneration n <= identityTargetGeneration m /\ ncEvents n <= storedMax k /\
                   ncRows n <= kNextID k /\
                   (ncGeneration n <= identityScanGeneration m -> scanned k n (identityAfterID m)))
    (kNotices k).

Definition Inv (k : Keeper) : Prop :=
  stored k /\ rounds_ok k /\ (Forall (fun n => awaited k (ncTarget n)) (kNotices k) /\ kNotices k <> []) /\
  scan_ok k.

(** *** Tables that move on *)

Lemma stored_tables k : stored k ->
  tables_ok local sketchKey iter sketchText sampleText walkText activityText (kAgg k) /\
  identities_ok (kIdentity k).
Proof.
  intros [R I]. split.
  - by apply (run_keeps _ _ _ _ _ _ _ _ _ R), agg_empty_ok.
  - by eapply identity_reaches_ok, identities_empty_ok.
Qed.

Definition tables_onward (k k' : Keeper) : Prop :=
  onward (kAgg k) (kAgg k') /\ identity_onward (kIdentity k) (kIdentity k').

Lemma behind_onward k k' n : tables_onward k k' -> behind_all n k -> behind_all n k'.
Proof. intros [(_ & C & _) _] B name. specialize (C name). specialize (B name). lia. Qed.

Lemma storedMax_onward k k' : tables_onward k k' -> storedMax k <= storedMax k'.
Proof. intros [([more E] & _) _]. unfold storedMax. rewrite E. apply target_of_app. Qed.

Lemma scanned_onward k k' n after : stored k' -> tables_onward k k' ->
  ncEvents n <= storedMax k -> ncRows n <= kNextID k -> scanned k n after -> scanned k' n after.
Proof.
  intros St' [([more E] & _) (_ & _ & R)] B Bn S id r' L' Lt Af e He Le Hi.
  destruct (R id r' L') as (r & L & A & I & C); [cbn; lia|].
  assert (H : e ∈ agEvents (kAgg k)).
  { rewrite E in He. eapply old_event; [|exact He|unfold storedMax in B; lia].
    rewrite <- E. apply (proj1 (stored_tables k' St')). }
  rewrite (is_event_of_same r' r) in Hi by done. specialize (S id r L Lt Af e H Le Hi). lia.
Qed.

(** Only the tables change. *)
Lemma inv_tables k k' : Inv k -> stored k' -> tables_onward k k' ->
  kMemory k' = kMemory k -> kNotices k' = kNotices k -> Inv k'.
Proof.
  intros (St & Ro & [Aw Ne] & A0 & G & U & No) St' T M N. pose proof (storedMax_onward _ _ T) as Mx.
  assert (NR : kNextID k <= kNextID k') by apply T.
  split; [done|]. unfold rounds_ok, scan_ok. rewrite M, N. destruct Ro as (B1 & B2 & L & Re).
  split; [split_and!; try lia; [done|]|split].
  - intros a r. by eapply behind_onward, Re.
  - split; [|done]. eapply Forall_impl; [exact Aw|]. intros n. unfold awaited, startMax. cbn zeta.
    rewrite M, N. intros [B|[B|[B|B]]]; [left; by eapply behind_onward|by right; left|by do 2 right; left|].
    by do 3 right.
  - split; [done|]. split; [done|]. split; [done|]. eapply Forall_impl; [exact No|].
    intros n (Gn & En & Rn & Sn). split_and!; try lia. intros Le. by eapply scanned_onward, Sn.
Qed.

(** What others do to the tables. *)
Definition outside_tables (k k' : Keeper) : Prop :=
  run (kAgg k) (kAgg k') /\ reaches (kIdentity k) (kIdentity k').

Lemma outside_step_tables k k' : outside_step k k' -> outside_tables k k'.
Proof.
  assert (Same : forall k', kAgg k' = kAgg k -> kRows k' = kRows k -> kNextID k' = kNextID k ->
    outside_tables k k').
  { intros k2 E1 E2 E3. unfold outside_tables, kIdentity. rewrite E1, E2, E3. split; constructor. }
  destruct 1 as [k t rows nextID R I|k events _ _|k _| | |]; try by apply Same.
  - by split.
  - unfold NotifyUsageEventsCommitted. destruct (_ <=? 0); by apply Same.
Qed.

Lemma stored_on k k' : stored k -> outside_tables k k' -> stored k'.
Proof.
  intros [S I] [R J]. split; [by eapply agg_run_trans|by eapply reaches_trans].
Qed.

Lemma onward_tables k k' : stored k -> outside_tables k k' -> tables_onward k k'.
Proof.
  intros St [R J]. destruct (stored_tables k St) as [A I]. split.
  - by apply (run_keeps _ _ _ _ _ _ _ _ _ R).
  - by eapply identity_reaches_onward.
Qed.

(** A delivered notification. *)
Lemma inv_notified k k' target generation pending :
  Inv k -> countable k -> 0 <= target <= storedMax k ->
  generation = identityTargetGeneration (kMemory k) + 1 ->
  pendingTargetEventID (kMemory k) <= pending <= storedMax k -> target <= pending ->
  k' = mkKeeper (kAgg k) (kRows k) (kNextID k) (kInbox k)
    (mkMemory (nextKind (kMemory k)) (startupTargetLoaded (kMemory k)) (activeRound (kMemory k))
       (activeTargetEventID (kMemory k)) (rollupsReachedTarget (kMemory k)) pending
       (identityAfterID (kMemory k)) generation (identityScanGeneration (kMemory k)))
    true (kCancelled k) (kNow k) (kNotices k ++ [notice target generation k]) ->
  Inv k'.
Proof.
  intros (St & (B1 & B2 & L & Re) & [Aw Ne] & A0 & G & U & No) Co Tb Ge Pe Tp ->. unfold countable in Co.
  set (k' := mkKeeper _ _ _ _ _ _ _ _ _). assert (Mx : storedMax k' = storedMax k) by done.
  split; [done|]. split; [split; [|split; [|by split]]; rewrite Mx; cbn; lia|]. split.
  - assert (Sm : startMax k' = startMax k) by (unfold startMax; subst k'; cbn; by destruct (kNotices k)).
    split; [|subst k'; cbn; by destruct (kNotices k)]. apply Forall_app. split.
    + eapply Forall_impl; [exact Aw|]. intros n [B|[B|[B|B]]]; [by left|by right; left| |].
      * do 2 right; left. cbn in *. lia.
      * do 3 right. by rewrite Sm.
    + constructor; [|done]. do 2 right; left. cbn. lia.
  - unfold scan_ok. cbn. split; [done|]. split; [lia|]. split; [lia|]. apply Forall_app. split.
    + eapply Forall_impl; [exact No|]. cbn. intros n (Gn & En & Rn & Sn). split_and!; try done; lia.
    + constructor; [|done]. fold k'. rewrite Mx. cbn. fold (storedMax k). split_and!; lia.
Qed.

Lemma pending_next k target : Inv k -> countable k -> 0 <= target <= storedMax k ->
  let m := kMemory k in
  let pending := if pendingTargetEventID m <? target then target else pendingTargetEventID m in
  wrapu64 (identityTargetGeneration m + 1) = identityTargetGeneration m + 1 /\
  pendingTargetEventID m <= pending <= storedMax k /\ target <= pending.
Proof.
  intros (_ & (_ & B & _) & _ & _ & G & _) Co Tb m pending. unfold countable in Co. subst m pending.
  rewrite wrapu64_id by (unfold in_uint64; lia). split; [done|].
  destruct (Z.ltb_spec (pendingTargetEventID (kMemory k)) target); lia.
Qed.

Lemma maxCommitted_nonneg events : 0 <= maxCommitted events.
Proof.
  unfold maxCommitted. assert (H : forall m, 0 <= m ->
    0 <= foldl (fun m e => if m <? evID e then evID e else m) m events).
  { induction events as [|e l IH]; intros m Hm; [done|]. cbn [foldl]. apply IH.
    destruct (Z.ltb_spec m (evID e)); lia. }
  by apply H.
Qed.

Lemma storedMax_nonneg k : 0 <= storedMax k.
Proof. unfold storedMax. induction (agEvents (kAgg k)); cbn [map foldr]; lia. Qed.

Lemma inv_outside k k' : Inv k -> outside_step k k' -> Inv k'.
Proof.
  intros I Step. pose proof (outside_step_tables _ _ Step) as T. pose proof I as (St & _).
  pose proof (stored_on _ _ St T) as St'. pose proof (onward_tables _ _ St T) as On.
  destruct Step as [k t rows nextID R J|k events Co Mx|k Co|k inbox|k|k now]; try by apply (inv_tables k).
  - unfold NotifyUsageEventsCommitted, notified. destruct (Z.leb_spec (maxCommitted events) 0); [done|].
    destruct (pending_next k (maxCommitted events) I Co) as (W & P1 & P2); [lia|].
    eapply (inv_notified k); [done|done| |exact W|exact P1|exact P2|done]. lia.
  - pose proof (storedMax_nonneg k). destruct (pending_next k 0 I Co) as (W & _); [lia|].
    destruct I as (I0 & Ro & I1). pose proof Ro as (_ & P & _).
    eapply (inv_notified k _ 0 _ (pendingTargetEventID (kMemory k)));
      [by split|done|lia|exact W|lia|lia|done].
Qed.

(** ** Assertions *)

Class Stable (P : Keeper -> Prop) : Prop :=
  stable : forall k k', Inv k -> outside_step k k' -> P k -> P k'.

#[export] Instance stable_true : Stable (fun _ => True).
Proof. by intros k k'. Qed.
#[export] Instance stable_const (F : Prop) : Stable (fun _ => F).
Proof. by intros k k'. Qed.
#[export] Instance stable_and P Q : Stable P -> Stable Q -> Stable (fun k => P k /\ Q k).
Proof. intros SP SQ k k' I Step [HP HQ]. split; [by eapply SP|by eapply SQ]. Qed.
#[export] Instance stable_or P Q : Stable P -> Stable Q -> Stable (fun k => P k \/ Q k).
Proof. intros SP SQ k k' I Step [HP|HQ]; [left; by eapply SP|right; by eapply SQ]. Qed.
#[export] Instance stable_impl (F : Prop) P : Stable P -> Stable (fun k => F -> P k).
Proof. intros SP k k' I Step H HF. eapply SP; eauto. Qed.
#[export] Instance stable_ex {A} (P : A -> Keeper -> Prop) :
  (forall a, Stable (P a)) -> Stable (fun k => exists a, P a k).
Proof. intros SP k k' I Step [a H]. exists a. by eapply SP. Qed.
#[export] Instance stable_all {A} (P : A -> Keeper -> Prop) :
  (forall a, Stable (P a)) -> Stable (fun k => forall a, P a k).
Proof. intros SP k k' I Step H a. by eapply SP. Qed.

#[export] Instance stable_behind n : Stable (behind_all n).
Proof.
  intros k k' I Step. apply behind_onward, onward_tables; [apply I|by apply outside_step_tables].
Qed.

(** One checkpoint has passed [n]. *)
Definition behind (name : CheckpointName) (n : Z) (k : Keeper) : Prop := n <= cursor_of (kAgg k) name.

#[export] Instance stable_one_behind name n : Stable (behind name n).
Proof.
  intros k k' I Step B. destruct (onward_tables k k') as [(_ & C & _) _];
    [apply I|by apply outside_step_tables|]. specialize (C name). unfold behind in *. lia.
Qed.

Lemma startMax_le k : Inv k -> startMax k <= storedMax k.
Proof.
  intros (_ & _ & [_ Ne] & _ & _ & _ & No). unfold startMax. destruct (kNotices k) as [|n l]; [done|].
  apply Forall_cons in No as [(_ & H & _) _]. exact H.
Qed.

Lemma startMax_outside k k' : Inv k -> outside_step k k' -> startMax k' = startMax k.
Proof.
  intros (_ & _ & [_ Ne] & _) Step. destruct Step; try done; unfold startMax.
  - unfold NotifyUsageEventsCommitted, notified. destruct (_ <=? 0); [done|]. cbn. by destruct (kNotices k).
  - cbn. by destruct (kNotices k).
Qed.

(** A startup target that was read. *)
Definition startup_read (target : Z) (k : Keeper) : Prop :=
  startMax k <= target /\ 0 <= target <= storedMax k.

#[export] Instance stable_startup_read target : Stable (startup_read target).
Proof.
  intros k k' I Step [S B]. unfold startup_read. rewrite (startMax_outside k k') by done.
  pose proof (storedMax_onward k k') as M. split; [done|].
  assert (storedMax k <= storedMax k'); [|lia].
  apply M, onward_tables; [apply I|by apply outside_step_tables].
Qed.

(** The fields that only the runner writes are those of [m]; the others grow. *)
Definition since (m : RunnerMemory) (k : Keeper) : Prop :=
  let n := kMemory k in
  nextKind n = nextKind m /\ startupTargetLoaded n = startupTargetLoaded m /\
  activeRound n = activeRound m /\ activeTargetEventID n = activeTargetEventID m /\
  rollupsReachedTarget n = rollupsReachedTarget m /\ identityAfterID n = identityAfterID m /\
  identityScanGeneration n = identityScanGeneration m /\
  pendingTargetEventID m <= pendingTargetEventID n /\
  identityTargetGeneration m <= identityTargetGeneration n.

Lemma since_refl k : since (kMemory k) k.
Proof. by split_and!. Qed.

#[export] Instance stable_since m : Stable (since m).
Proof.
  intros k k' I Step (E1 & E2 & E3 & E4 & E5 & E6 & E7 & P & G).
  assert (Same : forall k2, kMemory k2 = kMemory k -> since m k2).
  { intros k2 E. unfold since. rewrite E. by split_and!. }
  destruct Step as [k t rows nextID R J|k events Co Mx|k Co|k inbox|k|k now]; try by apply Same.
  - unfold NotifyUsageEventsCommitted, notified. pose proof (maxCommitted_nonneg events).
    destruct (pending_next k (maxCommitted events) I Co) as (W & P1 & P2); [lia|].
    destruct (_ <=? 0); [by apply Same|]. unfold since. cbn [kMemory nextKind startupTargetLoaded activeRound
      activeTargetEventID rollupsReachedTarget pendingTargetEventID identityAfterID
      identityTargetGeneration identityScanGeneration]. rewrite W. split_and!; done || lia.
  - pose proof (storedMax_nonneg k). destruct (pending_next k 0 I Co) as (W & _); [lia|].
    unfold since. cbn. rewrite W. split_and!; done || lia.
Qed.

(** ** Guarded programs *)

Definition holds (P : Keeper -> Prop) (w : World) : Prop :=
  polite w /\ Inv (wKeeper w) /\ P (wKeeper w).

Definition guarded {A} (P : Keeper -> Prop) (p : Sql World A) (Q : A -> Keeper -> Prop) : Prop :=
  triple (holds P) p (fun a => holds (Q a)).

Lemma guarded_ret {A} (a : A) P (Q : A -> Keeper -> Prop) : (forall k, P k -> Q a k) -> guarded P (sql_ret a) Q.
Proof. intros H d (S & I & HP). split_and!; [done|done|by apply H]. Qed.

Lemma guarded_bind {A B} P (m : Sql World A) Q (f : A -> Sql World B) R :
  guarded P m Q -> (forall a, guarded (Q a) (f a) R) -> guarded P (sql_bind m f) R.
Proof. intros Hm Hf. by eapply triple_bind. Qed.

Lemma guarded_try {A B} P (m : Sql World (result string A)) Q (f : A -> Sql World (result string B)) R :
  guarded P m Q -> (forall a, guarded (Q (Ok a)) (f a) R) -> (forall e k, Q (Err e) k -> R (Err e) k) ->
  guarded P (sql_try m f) R.
Proof.
  intros Hm Hf He. eapply triple_try; [exact Hm|exact Hf|]. intros e w (S & I & HQ).
  split_and!; [done|done|by apply He].
Qed.

Lemma guarded_weaken {A} (P P' : Keeper -> Prop) (p : Sql World A) Q Q' :
  guarded P p Q -> (forall k, P' k -> P k) -> (forall a k, Q a k -> Q' a k) -> guarded P' p Q'.
Proof.
  intros H HP HQ. eapply triple_weaken; [exact H|..].
  - intros w (S & I & Hw). split_and!; auto.
  - intros a w (S & I & Hw). split_and!; auto.
Qed.

Lemma guarded_pre {A} (P P' : Keeper -> Prop) (p : Sql World A) Q :
  guarded P p Q -> (forall k, P' k -> P k) -> guarded P' p Q.
Proof. intros H HP. by eapply guarded_weaken. Qed.

Lemma guarded_post {A} (P : Keeper -> Prop) (p : Sql World A) Q Q' :
  guarded P p Q -> (forall a k, Q a k -> Q' a k) -> guarded P p Q'.
Proof. intros H HQ. by eapply guarded_weaken. Qed.

Lemma guarded_fact {A} (F : Prop) P (p : Sql World A) Q :
  (forall k, Inv k -> P k -> F) -> (F -> guarded P p Q) -> guarded P p Q.
Proof. intros H K. apply (triple_fact F); [|done]. intros w (_ & I & HP). by eapply H. Qed.

Lemma stable_many P k k' : Stable P -> rtc outside_step k k' -> Inv k -> P k -> Inv k' /\ P k'.
Proof.
  intros SP H. induction H as [k|k k1 k2 Step _ IH]; intros I HP; [done|].
  apply IH; [by eapply inv_outside|by eapply SP].
Qed.

Lemma guarded_interfere P : Stable P -> guarded P interfere (fun _ => P).
Proof.
  intros SP. apply triple_locked. intros w (S & I & HP). unfold polite in *.
  destruct (wScript w) as [|m rest] eqn:E.
  - split_and!; [unfold polite; cbn; by rewrite E|done|done].
  - apply Forall_cons in S as [Sm Sr]. destruct (stable_many P _ _ SP (Sm _) I HP) as [I' HP'].
    split_and!; done.
Qed.

Lemma guarded_looked {A} (f : Keeper -> A) P : Stable P -> guarded P (looked f) (fun _ => P).
Proof. intros SP. eapply guarded_bind; [by apply guarded_interfere|]. intros ?. by apply triple_locked. Qed.

Lemma guarded_note e P : guarded P (note e) (fun _ => P).
Proof. by apply triple_locked. Qed.

Lemma guarded_lock f P (Q : RunnerMemory -> Keeper -> Prop) : Stable P ->
  (forall k, Inv k -> P k ->
     Inv (setMemory (f (kMemory k)) k) /\ Q (kMemory k) (setMemory (f (kMemory k)) k)) ->
  guarded P (lock_section f) Q.
Proof.
  intros SP H. eapply guarded_bind; [by apply guarded_interfere|]. intros ?. apply triple_locked.
  intros w (S & I & HP). destruct (H _ I HP). by split_and!.
Qed.

Lemma setMemory_same k : setMemory (kMemory k) k = k.
Proof. by destruct k. Qed.

(** Reading the memory. *)
Lemma guarded_read P : Stable P -> guarded P (lock_section id) (fun m k => since m k /\ P k).
Proof.
  intros SP. apply guarded_lock; [done|]. intros k I HP. unfold id. rewrite setMemory_same.
  split; [done|]. split; [apply since_refl|done].
Qed.

(** A program on the rollups that keeps to the runs. *)
Lemma guarded_on_agg {A} (p : Sql AggTables A) (R : AggTables -> A -> AggTables -> Prop) P
    (Q : A -> Keeper -> Prop) : Stable P -> preserves p R ->
  (forall k a t', Inv k -> P k -> R (kAgg k) a t' ->
     run agg_empty t' /\ onward (kAgg k) t' /\ agEvents t' = agEvents (kAgg k) /\ Q a (setAgg t' k)) ->
  guarded P (on_agg p) Q.
Proof.
  intros SP Hp H. eapply guarded_bind; [by apply guarded_interfere|]. intros ?.
  eapply triple_of_preserves; [by apply preserves_zoom|]. intros w b w' (S & I & HP) (t' & HR & ->).
  destruct (H (wKeeper w) b t' I HP HR) as (Rn & On & E & HQ). pose proof I as ((_ & J) & _).
  assert (Ei : kIdentity (setAgg t' (wKeeper w)) = kIdentity (wKeeper w)).
  { unfold kIdentity. cbn. by rewrite E. }
  split_and!; [done| |done]. cbn [setKeeper wKeeper].
  apply (inv_tables (wKeeper w)); [done|by split; [|rewrite Ei]| |done|done].
  split; [done|]. by rewrite Ei.
Qed.

Lemma guarded_on_identity {A} (p : Sql IdentityTables A) (R : IdentityTables -> A -> IdentityTables -> Prop) P
    (Q : A -> Keeper -> Prop) : Stable P -> preserves p R ->
  (forall k a i', Inv k -> P k -> R (kIdentity k) a i' ->
     reaches (kIdentity k) i' /\ idEvents i' = idEvents (kIdentity k) /\ Q a (setIdentity i' k)) ->
  guarded P (on_identity p) Q.
Proof.
  intros SP Hp H. eapply guarded_bind; [by apply guarded_interfere|]. intros ?.
  eapply triple_of_preserves; [by apply preserves_zoom|]. intros w b w' (S & I & HP) (i' & HR & ->).
  destruct (H (wKeeper w) b i' I HP HR) as (Rn & E & HQ). pose proof I as (St & _).
  assert (T : outside_tables (wKeeper w) (setIdentity i' (wKeeper w))).
  { split; [constructor|]. replace (kIdentity (setIdentity i' (wKeeper w))) with i'; [done|].
    unfold kIdentity. cbn in *. rewrite <- E. by destruct i'. }
  split_and!; [done| |done]. cbn [setKeeper wKeeper].
  apply (inv_tables (wKeeper w)); [done|by eapply stored_on|by apply onward_tables|done|done].
Qed.

Lemma guarded_hasInbox P : Stable P -> guarded P (hasInbox fault) (fun _ => P).
Proof.
  intros SP. eapply guarded_bind; [by apply guarded_interfere|]. intros ?.
  eapply triple_of_preserves; [apply preserves_query|]. by intros w b w' H [-> _].
Qed.

(** A turn that a gate ends was put off, or reports the error. *)
Definition stopped (turn : RollupsTurn) : Prop :=
  rtReached turn = false /\ (rtError turn <> None \/ rtDeferred turn = true).

Lemma errorsJoin_snoc errs e : errorsJoin (errs ++ [e]) <> None.
Proof. by destruct errs. Qed.

Lemma guarded_gate processed errs P : Stable P -> guarded P (gate fault processed errs) (fun stop k => P k /\
  match stop with Some turn => stopped turn | None => True end).
Proof.
  intros SP. eapply guarded_bind with (Q := fun _ => P).
  - eapply guarded_try; [by apply guarded_hasInbox|intros a; by apply guarded_ret|done].
  - intros [[]|e]; apply guarded_ret; intros k HP; (split; [done|]); [|done|].
    + split; [done|by right].
    + split; [done|left]. apply errorsJoin_snoc.
Qed.

(** Receiving from the wake channel touches nothing else. *)
Lemma inv_wake k wake : Inv k -> Inv (setWake wake k).
Proof. done. Qed.

Lemma guarded_choose timer pick P : (forall k, P k -> P (setWake false k)) ->
  guarded P (choose timer pick) (fun _ => P).
Proof.
  intros HP. apply triple_locked. intros w (S & I & H).
  cbv zeta. set (ready := (_ ++ _ ++ _ : list Ready)).
  destruct (ready !! _) as [[]|]; split_and!; try done. by apply HP.
Qed.

Lemma guarded_await n timer P : Stable P -> (forall k, P k -> P (setWake false k)) ->
  guarded P (await n timer) (fun _ => P).
Proof.
  intros SP HP. revert timer. induction n as [|n IH]; intros timer; cbn [await];
    (eapply guarded_bind; [by apply guarded_interfere|]; intros pick).
  - by apply guarded_choose.
  - eapply guarded_bind; [by apply guarded_choose|]. intros [r|]; [by apply guarded_ret|apply IH].
Qed.

Lemma guarded_blocked timer P : Stable P -> (forall k, P k -> P (setWake false k)) ->
  guarded P (blocked timer) (fun _ => P).
Proof.
  intros SP HP. eapply guarded_bind with (Q := fun _ => P); [by apply triple_locked|].
  intros n. by apply guarded_await.
Qed.

Lemma guarded_wait delay P : Stable P -> (forall k, P k -> P (setWake false k)) ->
  guarded P (waitForRetry delay) (fun _ => P).
Proof.
  intros SP HP. eapply guarded_bind; [apply guarded_note|]. intros ?.
  eapply guarded_bind; [by apply guarded_blocked|]. intros r. by apply guarded_ret.
Qed.

End Turns.
