(* ===== verification/AggregationRunnerFacts.v ===== *)
(** The aggregation runner keeps its invariant through every turn. *)
From S2P Require Import Prelude GoStrings GoTime Entities Timeutil Inbox ActivityGrain Uvarint Sketch SampleSet Sql Overview LatencyRows Aggregation AggregationFacts AggregationRuns OverviewTotals IdentityStats IdentitySync IdentityFacts AggregationRunner AggregationTurns.

Local Open Scope string_scope.
Local Open Scope list_scope.
Local Open Scope Z_scope.

Section Facts.
Context (local : Location) (sketchKey : Z -> Z) (iter : SampleSet -> list SamplePoint).
Context (sketchText : SketchError -> string) (sampleText : SampleError -> string)
  (walkText : WalkError -> string) (activityText : ActivityError -> string).
Context (julianday : string -> option Z) (fault : nat -> option string) (isCtxErr : string -> bool).

Abbreviation run := (agg_run local sketchKey iter sketchText sampleText walkText activityText).
Abbreviation Inv' := (Inv local sketchKey iter sketchText sampleText walkText activityText julianday).
Abbreviation Stable' := (Stable local sketchKey iter sketchText sampleText walkText activityText julianday).
Abbreviation guarded' :=
  (guarded local sketchKey iter sketchText sampleText walkText activityText julianday).
Abbreviation buildActivity' := (buildActivity local activityText).
Abbreviation buildLatency' := (buildLatency local sketchKey iter sketchText sampleText).
Abbreviation prepareRows := (PrepareRows local iter sketchText sampleText walkText agLatency).

(** *** What was read, at moments before *)

Lemma preserves_run {T A} (p : Sql T A) :
  preserves p (fun t a t' => exists d, dbTables d = t /\ (p d).2 = a /\ dbTables (p d).1 = t').
Proof. intros d. by exists d. Qed.

Lemma preserves_both {T A} (p : Sql T A) (R S : T -> A -> T -> Prop) :
  preserves p R -> preserves p S -> preserves p (fun t a t' => R t a t' /\ S t a t').
Proof. intros H1 H2 d. split; [apply H1|apply H2]. Qed.

Definition after (t : AggTables) (k : Keeper) : Prop := run t (kAgg k).

#[export] Instance stable_after t : Stable' (after t).
Proof. intros k k' _ Step R. eapply agg_run_trans; [exact R|]. by apply outside_step_tables in Step as [? _]. Qed.

Definition snapped (s : UsageAggregationCheckpointSnapshot) (k : Keeper) : Prop :=
  exists snap fault1, run agg_empty (dbTables snap) /\
    (LoadUsageAggregationCheckpointSnapshot fault1 snap).2 = Ok s /\ after (dbTables snap) k.

Definition paged (s : UsageAggregationCheckpointSnapshot) (c target : Z) (page : list UsageEvent)
    (k : Keeper) : Prop :=
  exists snap load fault1 fault2, run agg_empty (dbTables snap) /\
    (LoadUsageAggregationCheckpointSnapshot fault1 snap).2 = Ok s /\ run (dbTables snap) (dbTables load) /\
    (LoadUsageAggregationEventPage fault2 c target usageAggregationEventPageSize load).2 = Ok page /\
    after (dbTables load) k.

Definition readied (s : UsageAggregationCheckpointSnapshot) (c target : Z) (page : list UsageEvent)
    (rows prepared : list UsageLatencyStat) (now : Time) (k : Keeper) : Prop :=
  exists snap load read fault1 fault2 fault3, run agg_empty (dbTables snap) /\
    (LoadUsageAggregationCheckpointSnapshot fault1 snap).2 = Ok s /\ run (dbTables snap) (dbTables load) /\
    (LoadUsageAggregationEventPage fault2 c target usageAggregationEventPageSize load).2 = Ok page /\
    run (dbTables load) (dbTables read) /\
    (prepareRows fault3 rows (NormalizeStorageTime now) read).2 = Ok prepared /\ after (dbTables read) k.

#[export] Instance stable_snapped s : Stable' (snapped s).
Proof. unfold snapped. apply _. Qed.
#[export] Instance stable_paged s c target page : Stable' (paged s c target page).
Proof. unfold paged. apply _. Qed.
#[export] Instance stable_readied s c target page rows prepared now :
  Stable' (readied s c target page rows prepared now).
Proof. unfold readied. apply _. Qed.

(** The cursor of a snapshot, by name. *)
Definition cursorOf (s : UsageAggregationCheckpointSnapshot) (name : CheckpointName) : Z :=
  match name with
  | OverviewCheckpoint => OverviewCursor s
  | ActivityCheckpoint => ActivityCursor s
  | LatencyCheckpoint => LatencyCursor s
  end.

Lemma inv_ok k : Inv' k ->
  tables_ok local sketchKey iter sketchText sampleText walkText activityText (kAgg k).
Proof. intros [St _]. by eapply stored_tables. Qed.

Lemma onward_refl (t : AggTables) : onward t t.
Proof. split; [exists []; by rewrite app_nil_r|]. by split. Qed.

(** A program that reads the rollups. *)
Lemma guarded_reads {A} (p : Sql AggTables A) P (Q : A -> Keeper -> Prop) : Stable' P ->
  reads p (fun _ _ => True) ->
  (forall k d, Inv' k -> P k -> dbTables d = kAgg k -> Q (p d).2 k) ->
  guarded' P (on_agg p) Q.
Proof.
  intros SP Hr H. eapply guarded_on_agg; [done|apply (preserves_both _ _ _ (preserves_run p) Hr)|].
  intros k a t' I HP [(d & E & E2 & _) [-> _]]. split; [apply I|]. split; [apply onward_refl|]. split; [done|].
  replace (setAgg (kAgg k) k) with k by by destruct k. rewrite <- E2. by apply H.
Qed.

Lemma reads_any {T A} (p : Sql T A) Q : reads p Q -> reads p (fun _ _ => True).
Proof. intros H. eapply preserves_weaken; [exact H|]. by intros t a t' [-> _]. Qed.

Lemma guarded_snapshot P c0 : Stable' P -> (forall k, Inv' k -> P k -> forall name, behind name (c0 name) k) ->
  guarded' P (on_agg (LoadUsageAggregationCheckpointSnapshot fault)) (fun r k => P k /\
    match r with
    | Ok s => (snapped s k /\ forall name, behind name (cursorOf s name) k) /\
              forall name, c0 name <= cursorOf s name
    | Err _ => True end).
Proof.
  intros SP C0. apply guarded_reads; [done|eapply reads_any, LoadSnapshot_spec|].
  intros k d I HP E. split; [done|]. pose proof (LoadSnapshot_spec fault d) as [_ S].
  destruct (LoadUsageAggregationCheckpointSnapshot fault d).2 as [s|e] eqn:L; [|done]. split; [split|].
  - exists d, fault. rewrite E. split; [apply I|]. split; [done|]. constructor.
  - intros name. subst s. unfold behind. rewrite E. by destruct name.
  - intros name. specialize (C0 k I HP name). subst s. unfold behind in C0. rewrite E. by destruct name.
Qed.

Lemma LoadPage_reads c target : reads (LoadUsageAggregationEventPage fault c target usageAggregationEventPageSize)
  (fun _ _ => True).
Proof. eapply reads_any, (LoadPage_spec fault OverviewCheckpoint). Qed.

Lemma guarded_loadPage P s c target : Stable' P ->
  guarded' (fun k => P k /\ snapped s k) (loadPage fault c target) (fun r k => P k /\
    match r with Ok page => paged s c target page k | Err _ => True end).
Proof.
  intros SP. apply guarded_reads; [apply _|apply LoadPage_reads|].
  intros k d I [HP (snap & f1 & R0 & Sn & Af)] E. split; [done|].
  destruct (LoadUsageAggregationEventPage fault c target _ d).2 as [page|e] eqn:L; [|done].
  exists snap, d, f1, fault. rewrite E. split_and!; try done. constructor.
Qed.

(** The page, where it was loaded. *)
Lemma paged_page s c target page k : page <> [] -> paged s c target page k ->
  exists t, run agg_empty t /\ run t (kAgg k) /\ events_ok (agEvents t) /\
    page_of (agEvents t) c (last_id page) page /\ onward t (kAgg k).
Proof.
  intros N (snap & load & f1 & f2 & R0 & Sn & R1 & Ld & Af). exists (dbTables load).
  assert (Rl : run agg_empty (dbTables load)) by by eapply agg_run_trans.
  destruct (run_keeps _ _ _ _ _ _ _ _ _ Rl (agg_empty_ok _ _ _ _ _ _ _)) as [Ok0 _].
  split_and!; [done|done|apply Ok0|by eapply (loaded f2 c target); [apply Ok0|..]|].
  by apply (run_keeps _ _ _ _ _ _ _ _ _ Af).
Qed.

(** *** Applying a page *)

(** What a successful application leaves. *)
Definition applied (name : CheckpointName) (next : Z) (r : result string unit) (k : Keeper) : Prop :=
  match r with Ok _ => behind name next k | Err _ => True end.

#[export] Instance stable_applied name next r : Stable' (applied name next r).
Proof. destruct r; apply _. Qed.

Lemma applied_effect name c next page t r t' k :
  page_effect local sketchKey iter sketchText sampleText walkText activityText name c next page t r t' ->
  agEvents t' = agEvents t /\ applied name next r (setAgg t' k).
Proof.
  destruct r as [u|e]; cbn; [|by intros ->]. intros [_ (E & _ & C & _)]. split; [done|].
  unfold behind. cbn. lia.
Qed.

(** Facts that also survive what the runner itself does to the rollups. *)
Class Steady (P : Keeper -> Prop) : Prop :=
  steady : forall k t, Inv' k -> onward (kAgg k) t -> P k -> P (setAgg t k).

#[export] Instance steady_const (F : Prop) : Steady (fun _ => F).
Proof. by intros k t. Qed.
#[export] Instance steady_and P Q : Steady P -> Steady Q -> Steady (fun k => P k /\ Q k).
Proof. intros SP SQ k t I O [HP HQ]. split; [by apply SP|by apply SQ]. Qed.
#[export] Instance steady_since m : Steady (since m).
Proof. by intros k t I O. Qed.
#[export] Instance steady_impl (F : Prop) P : Steady P -> Steady (fun k => F -> P k).
Proof. intros SP k t I O H HF. apply SP; auto. Qed.
#[export] Instance steady_behind name n : Steady (behind name n).
Proof. intros k t I (_ & C & _) B. specialize (C name). unfold behind in *. cbn. lia. Qed.
#[export] Instance steady_applied name n r : Steady (applied name n r).
Proof. destruct r; [apply steady_behind|by intros k t]. Qed.

Lemma guarded_apply (p : Sql AggTables (result string unit)) P (Q : Keeper -> Prop) Pg name c next page :
  Stable' P -> Steady P -> Stable' Q ->
  (forall d, page_effect local sketchKey iter sketchText sampleText walkText activityText name c next page
     (dbTables d) (p d).2 (dbTables (p d).1)) ->
  (forall d k, Inv' k -> Q k -> dbTables d = kAgg k ->
     run agg_empty (dbTables (p d).1) /\ onward (kAgg k) (dbTables (p d).1) /\
     Pg (setAgg (dbTables (p d).1) k)) ->
  guarded' (fun k => P k /\ Q k) (on_agg p) (fun r k => P k /\ Pg k /\ applied name next r k).
Proof.
  intros SP Sy SQ Eff H. eapply guarded_on_agg; [apply _|apply preserves_run|].
  intros k r t' I [HP HQ] (d & E & <- & <-). destruct (H d k I HQ E) as (R & O & HPg).
  split; [done|]. split; [done|]. pose proof (Eff d) as Ef. rewrite E in Ef.
  destruct (applied_effect _ _ _ _ _ _ _ k Ef) as [Ev Ap]. split; [done|]. split; [by apply Sy|done].
Qed.

Lemma guarded_applyOverview P s c target page next hourly daily now : Stable' P -> Steady P -> page <> [] ->
  OverviewBuildRows local page = (hourly, daily, next) ->
  guarded' (fun k => P k /\ paged s c target page k) (applyOverview local fault c next hourly daily now)
    (fun r k => P k /\ paged s c target page k /\ applied OverviewCheckpoint next r k).
Proof.
  intros SP Sy N B. eapply guarded_apply with (c := c) (page := page); [done|done|apply _|..].
  - intros d. pose proof (overview_page_effect local sketchKey iter sketchText sampleText walkText activityText
      fault c next page now d) as E. by rewrite B in E.
  - intros d k I Pg E. destruct (paged_page s c target page k N Pg) as (t & _ & _ & Ev & Po & On).
    destruct Pg as (snap & load & f1 & f2 & R0 & Sn & R1 & Ld & Af).
    assert (Rn : run (dbTables load) (dbTables (ApplyUsageOverviewAggregationPage local fault c next
      hourly daily now d).1)).
    { pose proof (run_overview local sketchKey iter sketchText sampleText walkText activityText
        (dbTables load) load fault d f2 c target usageAggregationEventPageSize page now) as Rn.
      rewrite B in Rn. apply Rn; [constructor|by rewrite E|done|done]. }
    split; [eapply agg_run_trans; [exact R0|]; by eapply agg_run_trans|]. split.
    + pose proof (overview_page_keeps local sketchKey iter sketchText sampleText walkText activityText
        fault c page now t d) as K. rewrite B, E in K. by apply K, inv_ok.
    + exists snap, load, f1, f2. by split_and!.
Qed.

Lemma guarded_applyActivity P s c target page rows now : Stable' P -> Steady P -> page <> [] ->
  buildActivity' page now = Ok rows ->
  guarded' (fun k => P k /\ paged s c target page k) (applyActivity fault c (last_id page) rows now)
    (fun r k => P k /\ paged s c target page k /\ applied ActivityCheckpoint (last_id page) r k).
Proof.
  intros SP Sy N B. eapply guarded_apply with (c := c) (page := page); [done|done|apply _|..].
  - intros d. by apply activity_page_effect.
  - intros d k I Pg E. destruct (paged_page s c target page k N Pg) as (t & _ & _ & Ev & Po & On).
    destruct Pg as (snap & load & f1 & f2 & R0 & Sn & R1 & Ld & Af).
    assert (Rn : run (dbTables load) (dbTables (ApplyUsageActivityAggregationPage fault c (last_id page)
      rows now d).1)).
    { eapply run_activity with (load := load); [constructor|by rewrite E|exact Ld|done|exact B]. }
    split; [eapply agg_run_trans; [exact R0|]; by eapply agg_run_trans|]. split.
    + pose proof (activity_page_keeps local sketchKey iter sketchText sampleText walkText activityText
        fault c page rows now t d) as K. rewrite E in K. by apply K, inv_ok.
    + exists snap, load, f1, f2. by split_and!.
Qed.

Lemma guarded_prepare P s c target page rows now : Stable' P ->
  guarded' (fun k => P k /\ paged s c target page k)
    (on_agg (prepareRows fault rows (NormalizeStorageTime now)))
    (fun r k => P k /\ snapped s k /\
       match r with Ok prepared => readied s c target page rows prepared now k | Err _ => True end).
Proof.
  intros SP. apply guarded_reads; [apply _|eapply reads_any, (PrepareRows_spec local)|].
  intros k d I [HP (snap & load & f1 & f2 & R0 & Sn & R1 & Ld & Af)] E. split; [done|]. split.
  { exists snap, f1. split; [done|]. split; [done|]. by eapply agg_run_trans. }
  destruct (prepareRows fault rows (NormalizeStorageTime now) d).2 as [prepared|e] eqn:L; [|done].
  exists snap, load, d, f1, f2, fault. rewrite E. split_and!; try done. constructor.
Qed.

Lemma guarded_applyLatency P s target page rows now : Stable' P -> Steady P -> page <> [] ->
  buildLatency' page now = Ok rows ->
  guarded' (fun k => P k /\ paged s (LatencyCursor s) target page k)
    (applyLatency local iter sketchText sampleText walkText fault (LatencyCursor s) (last_id page) rows now)
    (fun r k => P k /\ snapped s k /\ applied LatencyCheckpoint (last_id page) r k).
Proof.
  intros SP Sy N B. unfold applyLatency. eapply guarded_try; [by apply guarded_prepare| |].
  2: { by intros e k (HP & Sn & _). }
  intros prepared. eapply guarded_pre; [|intros k (HP & _ & Re); exact (conj HP Re)].
  eapply guarded_on_agg; [apply _|apply preserves_run|].
  intros k r t' I [HP (snap & load & read & f1 & f2 & f3 & R0 & Sn & R1 & Ld & R2 & Pr & Af)] (d & E & <- & <-).
  assert (Rl : run agg_empty (dbTables load)) by by eapply agg_run_trans.
  assert (Rr : run agg_empty (dbTables read)) by by eapply agg_run_trans.
  destruct (run_keeps _ _ _ _ _ _ _ _ _ Rl (agg_empty_ok _ _ _ _ _ _ _)) as [Okl _].
  destruct (run_keeps _ _ _ _ _ _ _ _ _ Rr (agg_empty_ok _ _ _ _ _ _ _)) as [Okr _].
  destruct (run_keeps _ _ _ _ _ _ _ _ _ R0 (agg_empty_ok _ _ _ _ _ _ _)) as [Oks _].
  destruct (run_keeps _ _ _ _ _ _ _ _ _ Af Okr) as [_ Ork].
  destruct (run_keeps _ _ _ _ _ _ _ _ _ (agg_run_trans _ _ _ _ _ _ _ _ _ _ R2 Af) Okl) as [_ Olk].
  destruct (run_keeps _ _ _ _ _ _ _ _ _ (agg_run_trans _ _ _ _ _ _ _ _ _ _ R1 R2) Oks) as [_ Osr].
  assert (Rn : run (dbTables snap) (dbTables (writeLatencyPage local walkText fault (LatencyCursor s)
    (last_id page) prepared (NormalizeStorageTime now) d).1)).
  { eapply run_latency with (snap := snap) (load := load) (read := read);
      [constructor|done|done|by rewrite E|exact Sn|exact Ld|done|exact B|exact Pr]. }
  assert (Cr : LatencyCursor s <= cursor_of (dbTables read) LatencyCheckpoint).
  { pose proof (LoadSnapshot_spec f1 snap) as [_ Sp]. rewrite Sn in Sp. subst s.
    destruct Osr as (_ & C & _). apply C. }
  pose proof (latency_page_keeps local sketchKey iter sketchText sampleText walkText activityText
    fault f3 (LatencyCursor s) page rows prepared now read d (dbTables load)) as K. rewrite E in K.
  destruct K as [_ On]; [done|done|done|done| |done|done|by apply inv_ok|].
  { by eapply (loaded f2 _ target); [apply Okl|..]. }
  split; [exact (agg_run_trans _ _ _ _ _ _ _ _ _ _ R0 Rn)|]. split; [done|].
  pose proof (writeLatencyPage_spec local walkText fault (LatencyCursor s) (last_id page) prepared
    (NormalizeStorageTime now) d) as W.
  assert (Same : agEvents (dbTables (writeLatencyPage local walkText fault (LatencyCursor s) (last_id page) prepared
    (NormalizeStorageTime now) d).1) = agEvents (kAgg k)).
  { destruct (writeLatencyPage _ _ _ _ _ _ _ d) as [d' [u|e]]; cbn [fst snd] in *.
    - destruct W as [(_ & _ & _ & _ & Ev & _) _]. by rewrite Ev, <- E.
    - by rewrite W, E. }
  split; [done|]. split; [by apply Sy|]. split; [by exists snap, f1|].
  destruct (writeLatencyPage _ _ _ _ _ _ _ d) as [d' [u|e]]; cbn [fst snd] in *; [|done].
  destruct W as [(_ & _ & C & _) _]. unfold applied, behind. cbn. lia.
Qed.

(** ** The rollups turn *)

Lemma snapped_nonneg s name k : snapped s k -> 0 <= cursorOf s name.
Proof.
  intros (snap & f1 & R0 & Sn & _).
  destruct (run_keeps _ _ _ _ _ _ _ _ _ R0 (agg_empty_ok _ _ _ _ _ _ _)) as [[Ok0 _] _].
  pose proof (LoadSnapshot_spec f1 snap) as [_ Sp]. rewrite Sn in Sp. subst s.
  pose proof (cursor_nonneg local sketchKey iter sketchText sampleText walkText activityText
    (dbTables snap) name Ok0). by destruct name.
Qed.

Lemma paged_next s c target page hourly daily next k : page <> [] -> paged s c target page k -> 0 <= c ->
  OverviewBuildRows local page = (hourly, daily, next) -> next = last_id page.
Proof.
  intros N Pg C B. destruct (paged_page s c target page k N Pg) as (t & _ & _ & Ev & Po & _).
  pose proof (overview_next local _ _ _ _ Ev Po C) as E. by rewrite B in E.
Qed.

Lemma tried_Ok r processed errs : (tried r processed errs).2 = [] -> (exists u, r = Ok u) /\ errs = [].
Proof. destruct r as [u|e]; cbn; [by eauto|]. by destruct errs. Qed.

(** A page of keys behind [c] ends behind [c], and there is one only before the target. *)
Lemma paged_beyond s c target page k : page <> [] -> paged s c target page k ->
  c < last_id page /\ c < target.
Proof.
  intros N Pg. destruct (paged_page s c target page k N Pg) as (t & _ & _ & _ & (_ & _ & _ & L & _) & _).
  split; [done|]. destruct Pg as (snap & load & f1 & f2 & _ & _ & _ & Ld & _).
  unfold LoadUsageAggregationEventPage in Ld. destruct (Z.leb_spec target c); [|done].
  injection Ld as <-. done.
Qed.

(** Some checkpoint before the target has moved. *)
Definition progress (c0 : CheckpointName -> Z) (target : Z) (k : Keeper) : Prop :=
  exists name, c0 name < target /\ behind name (c0 name + 1) k.

(** What a turn reports: the target is reached only when every checkpoint is there,
    and without an error or a deferral it is reached or some checkpoint moves. *)
Definition reports (c0 : CheckpointName -> Z) (target : Z) (P : Keeper -> Prop) (turn : RollupsTurn)
    (k : Keeper) : Prop :=
  P k /\ (rtReached turn = true -> behind_all target k) /\
  (rtError turn = None -> rtDeferred turn = false -> rtReached turn = true \/ progress c0 target k).

#[export] Instance stable_progress c0 target : Stable' (progress c0 target).
Proof. unfold progress. apply _. Qed.
#[export] Instance stable_reports c0 target P turn : Stable' P -> Stable' (reports c0 target P turn).
Proof. intros SP. unfold reports. apply _. Qed.

Lemma stopped_reports c0 target (P : Keeper -> Prop) turn k : stopped turn -> P k -> reports c0 target P turn k.
Proof.
  intros [Re D] HP. split; [done|]. split; [by rewrite Re|]. intros E1 E2. destruct D; congruence.
Qed.

Lemma failed_reports c0 target (P : Keeper -> Prop) e k : P k ->
  reports c0 target P (mkRollupsTurn false false false (Some e)) k.
Proof. intros HP. by apply stopped_reports; [split; [|left]|]. Qed.

Lemma guarded_sharedStep {R} (rows : result string R) apply processed errs next_ Pre Mid Post :
  Stable' Pre ->
  (forall turn k, stopped turn -> Pre k -> Post turn k) ->
  (forall r, rows = Ok r -> guarded' Pre (apply r) Mid) ->
  (forall e k, Pre k -> Mid (Err e) k) ->
  (forall r, guarded' (Mid r) (next_ (tried r processed errs).1 (tried r processed errs).2) Post) ->
  guarded' Pre (sharedStep fault rows apply processed errs next_) Post.
Proof.
  intros SP Stop Ap Er Nx. eapply guarded_bind; [by apply guarded_gate|].
  intros [turn|]; [apply guarded_ret; intros k [HP Re]; by apply Stop|].
  eapply guarded_bind with (Q := Mid).
  - destruct rows as [r|e]; [|by apply guarded_ret; intros k [HP _]; apply Er].
    eapply guarded_pre; [by apply Ap|]. by intros k [HP _].
  - intros r. specialize (Nx r). by destruct (tried r processed errs).
Qed.

Lemma guarded_shared c0 P s target now : Stable' P -> Steady P -> snapshot_Equal s = true ->
  (forall name, c0 name <= cursorOf s name) ->
  guarded' (fun k => P k /\ snapped s k)
    (runSharedRollupsPage local sketchKey iter sketchText sampleText walkText activityText fault
       (OverviewCursor s) target now) (reports c0 target P).
Proof.
  intros SP Sy Eq C0. unfold runSharedRollupsPage.
  apply (guarded_fact _ _ _ _ _ _ _ _ (0 <= OverviewCursor s)).
  { intros k _ [_ Sn]. by apply (snapped_nonneg s OverviewCheckpoint k). }
  intros C. eapply guarded_bind; [by apply (guarded_loadPage P s)|].
  intros [page|e]; [|apply guarded_ret; intros k [HP _]; by apply failed_reports].
  destruct page as [|x l]; [apply guarded_ret; intros k [HP _]; by apply failed_reports|].
  set (page := x :: l) in *. destruct (OverviewBuildRows local page) as [[hourly daily] next] eqn:B.
  apply (guarded_fact _ _ _ _ _ _ _ _ (next = last_id page /\ OverviewCursor s < last_id page /\ OverviewCursor s < target)).
  { intros k _ [_ Pg]. split; [by eapply paged_next|by eapply paged_beyond]. }
  intros (-> & Bl & Bt). assert (L : OverviewCursor s = LatencyCursor s).
  { unfold snapshot_Equal in Eq. bool_split. congruence. }
  set (Pg := paged s (OverviewCursor s) target page).
  eapply guarded_sharedStep with
    (Mid := fun r k => (P k /\ applied OverviewCheckpoint (last_id page) r k) /\ Pg k).
  - apply _.
  - intros turn k St [HP _]. by apply stopped_reports.
  - intros r [= <-]. eapply guarded_post; [by apply guarded_applyOverview|]. by intros u k (? & ? & ?).
  - intros e k [HP HPg]. by split_and!.
  - intros r1. eapply guarded_sharedStep with (Mid := fun r k =>
      ((P k /\ applied OverviewCheckpoint (last_id page) r1 k) /\
       applied ActivityCheckpoint (last_id page) r k) /\ Pg k).
    + apply _.
    + intros turn k St [[HP _] _]. by apply stopped_reports.
    + intros rows Br. eapply guarded_post.
      * by apply (guarded_applyActivity (fun k => P k /\ applied OverviewCheckpoint (last_id page) r1 k)
          s _ target); [apply _..| |].
      * by intros u k (? & ? & ?).
    + by intros e k [[HP A] HPg].
    + intros r2. eapply guarded_sharedStep with (Mid := fun r k =>
        ((P k /\ applied OverviewCheckpoint (last_id page) r1 k) /\
         applied ActivityCheckpoint (last_id page) r2 k) /\ applied LatencyCheckpoint (last_id page) r k).
      * apply _.
      * intros turn k St [[[HP _] _] _]. by apply stopped_reports.
      * intros rows Br. subst Pg. rewrite L. eapply guarded_post.
        -- apply (guarded_applyLatency (fun k => (P k /\ applied OverviewCheckpoint (last_id page) r1 k) /\
             applied ActivityCheckpoint (last_id page) r2 k) s target page); [apply _..|done|done].
        -- by intros u k (? & ? & ?).
      * by intros e k [[[HP A] B2] HPg].
      * intros r3. apply guarded_ret. intros k [[[HP A1] A2] A3].
        destruct (errorsJoin _) eqn:J; [apply stopped_reports; [by split; [|left]|done]|].
        assert (E : (tried r3 (tried r2 (tried r1 false []).1 (tried r1 false []).2).1
                      (tried r2 (tried r1 false []).1 (tried r1 false []).2).2).2 = [])
          by (destruct (_.2); done).
        apply tried_Ok in E as [[u3 ->] E]. apply tried_Ok in E as [[u2 ->] E].
        apply tried_Ok in E as [[u1 ->] _]. split; [done|]. unfold applied, behind in *. split.
        -- intros Re%Z.leb_le [| |]; lia.
        -- intros _ _. right. exists OverviewCheckpoint. specialize (C0 OverviewCheckpoint). cbn in C0.
           unfold behind. lia.
Qed.

Lemma paged_snapped s c target page k : paged s c target page k -> snapped s k.
Proof.
  intros (snap & load & f1 & f2 & R0 & Sn & R1 & Ld & Af). exists snap, f1. split; [done|]. split; [done|].
  by eapply agg_run_trans.
Qed.

Lemma guarded_fallbackPage {R} name text c target (build : list UsageEvent -> result string (Z * R))
    apply processed errs next_ P s Post : Stable' P -> Steady P ->
  (forall page next rows, page <> [] -> build page = Ok (next, rows) ->
     guarded' (fun k => (P k /\ behind name c k) /\ paged s c target page k) (apply next rows)
       (fun r k => (P k /\ behind name c k) /\ snapped s k /\ applied name next r k)) ->
  (forall page next rows k, page <> [] -> build page = Ok (next, rows) -> paged s c target page k -> c < next) ->
  (forall turn k, stopped turn -> P k -> Post turn k) ->
  (forall c' processed' errs', (errs' = [] -> errs = [] /\ (target <= c \/ c < c')) ->
     guarded' (fun k => (P k /\ behind name c' k) /\ snapped s k) (next_ c' processed' errs') Post) ->
  guarded' (fun k => (P k /\ behind name c k) /\ snapped s k)
    (fallbackPage fault text c target build apply processed errs next_) Post.
Proof.
  intros SP Sy Ap Nb Stop Nx. unfold fallbackPage. destruct (Z.ltb_spec c target) as [Lt|Ge].
  2: { apply Nx. intros ->. by split; [|left]. }
  eapply guarded_bind with (Q := fun r k => (P k /\ behind name c k) /\ snapped s k /\
    match r with Ok page => paged s c target page k | Err _ => True end).
  { eapply guarded_on_agg; [apply _|apply (preserves_both _ _ _ (preserves_run _) (LoadPage_reads c target))|].
    intros k r t' I [HP (snap & f1 & R0 & Sn & Af)] [(d & E & <- & _) [-> _]].
    split; [apply I|]. split; [apply onward_refl|]. split; [done|].
    replace (setAgg (kAgg k) k) with k by by destruct k. split; [done|]. split; [by exists snap, f1|].
    destruct (LoadUsageAggregationEventPage fault c target _ d).2 as [page|e] eqn:L; [|done].
    exists snap, d, f1, fault. rewrite E. split_and!; try done. constructor. }
  assert (Go : forall p e r, guarded' (fun k => (P k /\ behind name c k) /\ snapped s k /\
    match r : result string (list UsageEvent) with Ok page => paged s c target page k | Err _ => True end)
    (next_ c p (errs ++ [e])) Post).
  { intros p e r. eapply guarded_pre; [apply Nx; by destruct errs|]. by intros k (HP & Sn & _). }
  intros [page|e]; [|apply (Go processed _ (Err e))]. destruct page as [|x l]; [apply (Go processed _ (Ok []))|].
  destruct (build (x :: l)) as [[next rows]|e] eqn:B; [|apply (Go processed _ (Ok (x :: l)))].
  apply (guarded_fact _ _ _ _ _ _ _ _ (c < next)).
  { intros k _ (_ & _ & Pg). eapply (Nb _ next rows k); [|exact B|exact Pg]. done. }
  intros Cn.
  eapply guarded_bind with (Q := fun stop k => ((P k /\ behind name c k) /\ paged s c target (x :: l) k) /\
    match stop with Some turn => stopped turn | None => True end).
  { eapply guarded_pre; [apply guarded_gate, _|]. by intros k (HP & _ & Pg). }
  intros [turn|]; [apply guarded_ret; intros k [[[HP _] _] Re]; by apply Stop|].
  eapply guarded_bind.
  { eapply guarded_pre; [apply (Ap (x :: l) next rows); [done|exact B]|]. by intros k [? _]. }
  intros r. destruct (tried r processed errs) as [p e] eqn:Tr. eapply guarded_pre; [apply Nx|].
  - intros ->. destruct r as [u|er]; cbn in Tr; [|by destruct errs]. injection Tr as _ ->. split; [done|by right].
  - intros k ([HP Bc] & Sn & A). split; [|done]. split; [done|]. by destruct r.
Qed.

Lemma fallback_next s target page hourly daily next k : page <> [] ->
  paged s (OverviewCursor s) target page k -> OverviewBuildRows local page = (hourly, daily, next) ->
  OverviewCursor s < next.
Proof.
  intros N Pg B. pose proof (snapped_nonneg s OverviewCheckpoint k (paged_snapped _ _ _ _ _ Pg)) as C.
  rewrite (paged_next _ _ _ _ _ _ _ _ N Pg C B). exact (proj1 (paged_beyond _ _ _ _ _ N Pg)).
Qed.

Lemma guarded_fallback c0 P s target now : Stable' P -> Steady P ->
  (forall name, c0 name <= cursorOf s name) -> (exists name, cursorOf s name < target) ->
  guarded' (fun k => (P k /\ forall name, behind name (cursorOf s name) k) /\ snapped s k)
    (runFallbackRollupsPages local sketchKey iter sketchText sampleText walkText activityText fault
       s target now) (reports c0 target P).
Proof.
  intros SP Sy C0 Left. unfold runFallbackRollupsPages.
  eapply guarded_pre; [eapply (guarded_fallbackPage OverviewCheckpoint) with
    (P := fun k => (P k /\ behind ActivityCheckpoint (ActivityCursor s) k) /\ behind LatencyCheckpoint (LatencyCursor s) k) (s := s)|]; try apply _.
  - intros page next [hourly daily] N B.
    destruct (OverviewBuildRows local page) as [[h d] n] eqn:Bo. injection B as <- <- <-.
    eapply guarded_post; [apply guarded_applyOverview; [apply _..|done|exact Bo]|]. intros r k (HP & Pg & Ap).
    split; [done|]. split; [by eapply paged_snapped|done].
  - intros page next [hourly daily] k N B Pg.
    destruct (OverviewBuildRows local page) as [[h d] n] eqn:Bo. injection B as <- <- <-.
    apply (fallback_next _ _ _ _ _ _ _ N Pg Bo).
  - intros turn k St [[HP _] _]. by apply stopped_reports.
  - intros co p1 e1 F1. eapply guarded_pre; [eapply (guarded_fallbackPage ActivityCheckpoint) with
      (P := fun k => (P k /\ behind LatencyCheckpoint (LatencyCursor s) k) /\ behind OverviewCheckpoint co k) (s := s)|]; try apply _.
    + intros page next rows N B. destruct (buildActivity' page now) as [rs|e] eqn:Ba; [|done].
      injection B as <- <-. eapply guarded_post; [apply guarded_applyActivity; [apply _..|done|exact Ba]|].
      intros r k (HP & Pg & Ap). split; [done|]. split; [by eapply paged_snapped|done].
    + intros page next rows k N B Pg. destruct (buildActivity' page now) as [rs|e] eqn:Ba; [|done].
      injection B as <- <-. exact (proj1 (paged_beyond _ _ _ _ _ N Pg)).
    + intros turn k St [[HP _] _]. by apply stopped_reports.
    + intros ca p2 e2 F2. eapply guarded_pre; [eapply (guarded_fallbackPage LatencyCheckpoint) with
        (P := fun k => (P k /\ behind OverviewCheckpoint co k) /\ behind ActivityCheckpoint ca k) (s := s)|]; try apply _.
      * intros page next rows N B. destruct (buildLatency' page now) as [rs|e] eqn:Ba; [|done].
        injection B as <- <-. apply guarded_applyLatency; [apply _..|done|exact Ba].
      * intros page next rows k N B Pg. destruct (buildLatency' page now) as [rs|e] eqn:Ba; [|done].
        injection B as <- <-. exact (proj1 (paged_beyond _ _ _ _ _ N Pg)).
      * intros turn k St [[HP _] _]. by apply stopped_reports.
      * intros cl p3 e3 F3. apply guarded_ret. intros k [[[[HP Bo] Ba] Bl] _]. split; [done|]. split.
        -- cbn [rtReached]. intros Re. bool_split. unfold behind in *. intros [| |]; lia.
        -- cbn [rtError]. intros J _. right. assert (e3 = []) as -> by by destruct e3.
           destruct (F3 eq_refl) as [-> G3]. destruct (F2 eq_refl) as [-> G2]. destruct (F1 eq_refl) as [_ G1].
           destruct Left as [name Lt]. exists name. specialize (C0 name). unfold behind in *.
           destruct name; cbn in Lt, C0; lia.
      * intros k [[[[HP Bl] Bo] Ba] Sn]. by split_and!.
    + intros k [[[[HP Ba] Bl] Bo] Sn]. by split_and!.
  - intros k [[HP B] Sn]. split; [|done]. split; [|apply (B OverviewCheckpoint)].
    split; [split; [done|apply (B ActivityCheckpoint)]|apply (B LatencyCheckpoint)].
Qed.

Lemma inv_cursor_nonneg k name : Inv' k -> behind name 0 k.
Proof.
  intros I. apply (cursor_nonneg local sketchKey iter sketchText sampleText walkText activityText).
  apply (inv_ok k I).
Qed.

Lemma guarded_rollups c0 P wasActive target now : Stable' P -> Steady P ->
  (forall k, Inv' k -> P k -> forall name, behind name (c0 name) k) ->
  guarded' P (runRollupsTurn local sketchKey iter sketchText sampleText walkText activityText fault
                wasActive target now)
    (fun turn k => P k /\ (wasActive = true -> reports c0 target P turn k)).
Proof.
  intros SP Sy Pc. unfold runRollupsTurn. destruct wasActive; cbn [negb].
  2: { apply guarded_ret. by intros k HP. }
  eapply guarded_post with (Q := reports c0 target P); [|intros turn k Re; split; [apply Re|by intros _]].
  eapply guarded_bind; [by apply (guarded_snapshot _ c0)|].
  intros [s|e]; [|apply guarded_ret; intros k [HP _]; by apply failed_reports].
  apply (guarded_fact _ _ _ _ _ _ _ _ (forall name, c0 name <= cursorOf s name)).
  { by intros k _ (_ & _ & C). }
  intros C0. destruct (_ && _) eqn:Cs.
  - apply guarded_ret. intros k (HP & [_ B] & _). split; [done|]. split; [|by left]. intros _. bool_split.
    pose proof (B OverviewCheckpoint). pose proof (B ActivityCheckpoint). pose proof (B LatencyCheckpoint).
    unfold behind in *. cbn in *. intros [| |]; lia.
  - destruct (snapshot_Equal s) eqn:Eq.
    + eapply guarded_pre; [by apply guarded_shared|]. by intros k (HP & [Sn _] & _).
    + eapply guarded_pre; [apply guarded_fallback; [done|done|done|]|by intros k (HP & [Sn B] & _)].
      bool_split; [exists OverviewCheckpoint|exists ActivityCheckpoint|exists LatencyCheckpoint]; cbn; lia.
Qed.

End Facts.
