(* ===== verification/AggregationLoop.v ===== *)
(** The whole loop of the aggregation runner: its lock sections keep the invariant,
    so does every turn, and a runner that falls asleep has nothing left to do. *)
From S2P Require Import Prelude GoStrings GoTime Entities Timeutil Inbox ActivityGrain Uvarint Sketch SampleSet Sql Overview LatencyRows Aggregation AggregationFacts AggregationRuns OverviewTotals IdentityStats IdentitySync IdentityFacts AggregationRunner AggregationTurns AggregationRunnerFacts.
From Stdlib Require Import Relation_Operators.

Local Open Scope string_scope.
Local Open Scope list_scope.
Local Open Scope Z_scope.

Section Loop.
Context (local : Location) (sketchKey : Z -> Z) (iter : SampleSet -> list SamplePoint).
Context (sketchText : SketchError -> string) (sampleText : SampleError -> string)
  (walkText : WalkError -> string) (activityText : ActivityError -> string).
Context (julianday : string -> option Z) (fault : nat -> option string) (isCtxErr : string -> bool).

Abbreviation Inv' := (Inv local sketchKey iter sketchText sampleText walkText activityText julianday).
Abbreviation Stable' := (Stable local sketchKey iter sketchText sampleText walkText activityText julianday).
Abbreviation guarded' :=
  (guarded local sketchKey iter sketchText sampleText walkText activityText julianday).

(** *** Lock sections *)

Definition same_scan (m m' : RunnerMemory) : Prop :=
  identityAfterID m' = identityAfterID m /\ identityScanGeneration m' = identityScanGeneration m /\
  identityTargetGeneration m' = identityTargetGeneration m.

Lemma inv_memory k m : Inv' k -> same_scan (kMemory k) m ->
  0 <= activeTargetEventID m <= storedMax k -> 0 <= pendingTargetEventID m <= storedMax k ->
  (startupTargetLoaded m = false -> activeRound m = false) ->
  (activeRound m = true -> rollupsReachedTarget m = true -> behind_all (activeTargetEventID m) k) ->
  (forall n, awaited k n -> awaited (setMemory m k) n) -> Inv' (setMemory m k).
Proof.
  intros (St & _ & [Aw Ne] & Sc) (E1 & E2 & E3) B1 B2 L Re W. split; [done|]. split; [done|]. split.
  - split; [|done]. eapply Forall_impl; [exact Aw|]. intros n. apply W.
  - unfold scan_ok. cbn [setMemory kMemory kNotices kRows kNextID kAgg]. rewrite E1, E2, E3. exact Sc.
Qed.

Lemma inv_nextKind k kind : Inv' k -> Inv' (setMemory (withNextKind kind (kMemory k)) k).
Proof. intros I. pose proof I as (_ & (B1 & B2 & L & Re) & _). by apply inv_memory. Qed.

(** An awaited event stays awaited when it is by the memory that follows. *)
Lemma awaited_memory k m :
  (forall n, activeRound (kMemory k) = true /\ n <= activeTargetEventID (kMemory k) \/
             n <= pendingTargetEventID (kMemory k) \/
             startupTargetLoaded (kMemory k) = false /\ n <= startMax k -> awaited (setMemory m k) n) ->
  forall n, awaited k n -> awaited (setMemory m k) n.
Proof. intros H n [B|B]; [by left|by apply H]. Qed.

Definition started (k : Keeper) : Prop := startupTargetLoaded (kMemory k) = true.

#[export] Instance stable_started : Stable' started.
Proof.
  intros k k' I Step S. pose proof (stable_since _ _ _ _ _ _ _ _ (kMemory k) k k' I Step (since_refl k)) as Si.
  destruct Si as (_ & E & _). unfold started in *. congruence.
Qed.

Lemma inv_freeze k : Inv' k -> started k -> Inv' (setMemory (freezePendingTarget (kMemory k)) k).
Proof.
  intros I Sd. pose proof I as (_ & (B1 & B2 & L & Re) & _). unfold freezePendingTarget, started in *.
  destruct (Z.leb_spec (pendingTargetEventID (kMemory k)) 0) as [|P0]; [by rewrite setMemory_same|].
  destruct (activeRound (kMemory k) && (_ <=? _)) eqn:Ac.
  - bool_split. apply inv_memory; [done|done|cbn; lia|cbn; lia|done|done|]. apply awaited_memory.
    intros n [[Hr Hn]|[Hn|[Hn _]]]; [| |congruence]; right; left; cbn; (split; [done|lia]).
  - apply inv_memory; [done|done|cbn; lia|cbn; lia|cbn; congruence|done|]. apply awaited_memory.
    intros n [[Hr Hn]|[Hn|[Hn _]]]; [| |congruence]; right; left; cbn; (split; [done|]); [|done].
    rewrite Hr in Ac. cbn [andb] in Ac. bool_split. lia.
Qed.

Lemma inv_startup k target : Inv' k -> startup_read target k ->
  let k' := setMemory (startupTarget target (kMemory k)) k in Inv' k' /\ started k'.
Proof.
  intros I [Sm Tb] k'. pose proof I as (_ & (B1 & B2 & L & Re) & _). subst k'. unfold startupTarget, started.
  destruct (startupTargetLoaded (kMemory k)) eqn:Ld; [by rewrite setMemory_same|]. specialize (L eq_refl).
  split; [|done]. apply inv_memory; [done|done|cbn; lia| |done| |].
  - cbn. destruct (_ <=? target); lia.
  - cbn. intros _ R name. apply Z.eqb_eq in R. subst target.
    pose proof (cursor_nonneg local sketchKey iter sketchText sampleText walkText activityText (kAgg k) name).
    apply H, (inv_ok local sketchKey iter sketchText sampleText walkText activityText julianday k I).
  - apply awaited_memory. intros n [[Hr Hn]|[Hn|[_ Hn]]]; [congruence| |right; left; cbn; split; [done|lia]].
    unfold awaited. cbn. destruct (Z.leb_spec (pendingTargetEventID (kMemory k)) target); [right; left|do 2 right; left].
    + split; [done|lia].
    + done.
Qed.

(** A round ends only when its target is behind every checkpoint. *)
Lemma inv_complete k : Inv' k -> Inv' (setMemory (completeRollupRoundIfReadyLocked (kMemory k)) k).
Proof.
  intros I. pose proof I as (_ & (B1 & B2 & L & Re) & _). unfold completeRollupRoundIfReadyLocked.
  destruct (_ || _) eqn:Rd; [by rewrite setMemory_same|]. bool_split. rename H into Ac, H0 into Rr.
  specialize (Re Ac Rr). apply inv_memory; [done|done|cbn; lia| |done|done|].
  - cbn. destruct (_ <=? _); lia.
  - apply awaited_memory. intros n [[_ Hn]|[Hn|Hn]].
    + left. intros name. specialize (Re name). cbn. lia.
    + unfold awaited. cbn. destruct (Z.leb_spec (pendingTargetEventID (kMemory k)) (activeTargetEventID (kMemory k))).
      * left. intros name. specialize (Re name). cbn. lia.
      * by do 2 right; left.
    + do 3 right. exact Hn.
Qed.

Lemma inv_reached k : Inv' k -> behind_all (activeTargetEventID (kMemory k)) k ->
  let m := kMemory k in
  Inv' (setMemory (withRound (activeRound m) (activeTargetEventID m) true (pendingTargetEventID m) m) k).
Proof. intros I B m. pose proof I as (_ & (B1 & B2 & L & Re) & _). by apply inv_memory. Qed.

Lemma inv_rollupsDone k m reached : Inv' k -> since m k ->
  (activeRound m = true -> reached = true -> behind_all (activeTargetEventID m) k) ->
  Inv' (setMemory (rollupsTurnDone (activeRound m) (activeTargetEventID m) reached (kMemory k)) k).
Proof.
  intros I (_ & E2 & E3 & E4 & E5 & _) Rb. unfold rollupsTurnDone. cbv zeta.
  set (n := withNextKind UsageAggregationKindIdentity (kMemory k)).
  assert (In : Inv' (setMemory n k)) by by apply inv_nextKind.
  destruct (_ && reached) eqn:Rd; [|apply (inv_complete _ In)]. bool_split.
  apply (inv_complete _ (inv_reached _ In ltac:(cbn; rewrite E4; by apply Rb))).
Qed.

(** *** A page of identities *)

Definition newAfter (batch : UsageIdentityAggregationBatchResult) : Z :=
  if ReachedEnd batch then 0 else LastIdentityID batch.

(** What a committed page has scanned, for the notices its pass covers. *)
Definition pass_scanned (m : RunnerMemory) (batch : UsageIdentityAggregationBatchResult) (k : Keeper) : Prop :=
  since m k /\ 0 <= identityPassGenerationOf m <= identityTargetGeneration m /\
  (newAfter batch = 0 \/ 0 <= identityAfterID m < newAfter batch /\ newAfter batch < kNextID k) /\
  Forall (fun n => ncGeneration n <= identityPassGenerationOf m -> scanned k n (newAfter batch)) (kNotices k).

Lemma scanned_outside k k' n after : Inv' k -> outside_step local sketchKey iter sketchText sampleText walkText
    activityText julianday k k' -> n ∈ kNotices k -> scanned k n after -> scanned k' n after.
Proof.
  intros I Step Hn. pose proof I as (St & _ & _ & _ & _ & _ & No). rewrite Forall_forall in No.
  destruct (No n Hn) as (_ & En & Rn & _). pose proof (outside_step_tables _ _ _ _ _ _ _ _ _ _ Step) as T.
  eapply scanned_onward; [by eapply stored_on|by eapply onward_tables|done|done].
Qed.

(** The notices after a step of the others: those of before, and at most one of a
    later generation. *)
Lemma notices_outside k k' n : Inv' k -> outside_step local sketchKey iter sketchText sampleText walkText
    activityText julianday k k' -> n ∈ kNotices k' ->
  n ∈ kNotices k \/ identityTargetGeneration (kMemory k) < ncGeneration n.
Proof.
  intros I Step. pose proof (storedMax_nonneg k) as P0. destruct Step as [k t rows nextID R J|k events Co Mx|k Co|k inbox|k|k now]; try by left.
  - unfold NotifyUsageEventsCommitted, notified. pose proof (maxCommitted_nonneg events).
    destruct (pending_next _ _ _ _ _ _ _ _ k (maxCommitted events) I Co) as (W & _); [lia|].
    destruct (_ <=? 0); [by left|]. cbn. rewrite W. intros [H'|H']%elem_of_app; [by left|right].
    apply list_elem_of_singleton in H' as ->. cbn. lia.
  - destruct (pending_next _ _ _ _ _ _ _ _ k 0 I Co) as (W & _); [lia|].
    cbn. rewrite W. intros [H'|H']%elem_of_app; [by left|right].
    apply list_elem_of_singleton in H' as ->. cbn. lia.
Qed.

#[export] Instance stable_pass m batch : Stable' (pass_scanned m batch).
Proof.
  intros k k' I Step (Si & B & A & F). split; [by eapply stable_since|]. split; [done|]. split.
  { pose proof (outside_step_tables _ _ _ _ _ _ _ _ _ _ Step) as T.
    destruct (onward_tables _ _ _ _ _ _ _ _ k k' (proj1 I) T) as (_ & _ & N & _). cbn in N.
    destruct A; [by left|right; lia]. }
  rewrite Forall_forall in F |- *. intros n Hn Le.
  destruct (notices_outside k k' n I Step Hn) as [H|H].
  - eapply scanned_outside; [done|exact Step|done|]. by apply F.
  - destruct Si as (_ & _ & _ & _ & _ & _ & _ & _ & G). lia.
Qed.

Lemma guarded_identityPage P m clock now : Stable' P -> (forall k i, P k -> P (setIdentity i k)) ->
  0 <= identityScanGeneration m <= identityTargetGeneration m ->
  guarded' (fun k => since m k /\ P k)
    (on_identity (AggregateUsageIdentityStatsBatch local fault clock now (identityAfterID m)))
    (fun r k => (since m k /\ P k) /\ match r with Ok batch => pass_scanned m batch k | Err _ => True end).
Proof.
  intros SP Pi Mo. eapply guarded_on_identity with (R := fun i r i' =>
    (page_post (identityAfterID m) i r i' /\ (is_ok r = false -> i' = i)) /\ identity_step local julianday i i');
    [apply _| |].
  { apply preserves_both; [apply batch_spec|]. intros d. apply identity_batch. }
  intros k r i' I [Si HP] [[Po Er] Step]. pose proof I as (St & _ & _ & Sc).
  destruct (stored_tables _ _ _ _ _ _ _ _ k St) as [_ Ok0].
  split; [by eapply Relation_Operators.rt1n_trans; [exact Step|constructor]|].
  destruct r as [batch|e]; [|rewrite Er by done; split; [done|]; split; [split; [exact Si|by apply Pi]|done]].
  destruct (Po Ok0) as (A & Cov & Nx). pose proof A as (E & N & O & R & D). split; [exact E|].
  split; [split; [exact Si|by apply Pi]|]. pose proof Si as (_ & _ & _ & _ & _ & E6 & E7 & _ & E9).
  destruct Sc as (A0 & G & U & No). split; [exact Si|].
  assert (Pass : identityPassGenerationOf m = identityTargetGeneration m /\ identityAfterID m = 0 \/
    identityPassGenerationOf m = identityScanGeneration m /\ identityAfterID m <> 0).
  { unfold identityPassGenerationOf. destruct (Z.eqb_spec (identityAfterID m) 0); [by left|by right]. }
  assert (Nw : newAfter batch = 0 /\ ReachedEnd batch = true \/
               newAfter batch = LastIdentityID batch /\ identityAfterID m < LastIdentityID batch < kNextID k).
  { unfold newAfter. destruct (ReachedEnd batch) eqn:Re; [by left|right]. by destruct (Nx eq_refl). }
  split; [lia|]. split; [cbn in N; cbn [setIdentity kNextID]; lia|].
  eapply Forall_impl; [exact No|]. intros n (Gn & En & Rn & Sn) Le id r Lr Lt Af e He Be Hi.
  cbn [setIdentity kRows kAgg] in *.
  destruct (D id) as [r0 L0]; [by exists r|]. cbn in L0.
  assert (Bid : 0 < id < kNextID k) by (destruct Ok0 as (_ & _ & [K _] & _); by destruct (K id r0 L0)).
  destruct (Z.le_gt_cases id (identityAfterID m)) as [In|Out].
  - destruct (R id r0 L0) as (r' & L' & I' & A' & _ & C). assert (r' = r) as -> by congruence.
    rewrite (is_event_of_same r r0) in Hi by done.
    assert (evID e <= cursor r0); [|lia].
    eapply Sn; [lia|exact L0|done|right; lia|done|done|done].
  - eapply (Cov id r Lr Out); [|rewrite E; exact He|done]. destruct Nw as [[_ Re]|[En' Lt']]; [by left|].
    rewrite En' in Af. right. destruct Af; lia.
Qed.

Lemma inv_pageDone m batch k : Inv' k -> pass_scanned m batch k ->
  Inv' (setMemory (identityPageDone batch (identityPassGenerationOf m) (kMemory k)) k).
Proof.
  intros (St & (B1 & B2 & L & Re) & Aw & A0 & G & U & No) (Si & B & A & F).
  destruct Si as (_ & _ & _ & _ & _ & _ & _ & _ & E9).
  split; [done|]. split; [exact (conj B1 (conj B2 (conj L Re)))|]. split; [done|].
  unfold scan_ok. cbn [setMemory kMemory kNotices identityPageDone withScan withNextKind identityAfterID
    identityScanGeneration identityTargetGeneration].
  change (if ReachedEnd batch then 0 else LastIdentityID batch) with (newAfter batch).
  split; [lia|]. split; [lia|]. split; [done|]. rewrite !Forall_forall in *. intros n Hn.
  destruct (No n Hn) as (Gn & En & Rn & _). split; [done|]. split; [done|]. split; [done|]. by apply F.
Qed.

(** *** A turn *)

(** The startup is not undone. *)
Definition loadedAs (m : RunnerMemory) (k : Keeper) : Prop :=
  startupTargetLoaded (kMemory k) = startupTargetLoaded m.

Lemma since_loaded m k : since m k -> loadedAs m k.
Proof. by intros (_ & E & _). Qed.

Lemma rollupsDone_loaded a t r m : startupTargetLoaded (rollupsTurnDone a t r m) = startupTargetLoaded m.
Proof.
  unfold rollupsTurnDone, completeRollupRoundIfReadyLocked. cbv zeta.
  by repeat match goal with |- context [if ?b then _ else _] => destruct b end.
Qed.

Lemma freeze_loaded m : startupTargetLoaded (freezePendingTarget m) = startupTargetLoaded m.
Proof.
  unfold freezePendingTarget. by repeat match goal with |- context [if ?b then _ else _] => destruct b end.
Qed.

Definition memory_ok (m : RunnerMemory) : Prop :=
  0 <= identityScanGeneration m <= identityTargetGeneration m.

(** Reading the memory gives one that was in order. *)
Lemma guarded_readMemory P : Stable' P ->
  guarded' P (lock_section id) (fun m k => (since m k /\ memory_ok m) /\ P k).
Proof.
  intros SP. apply guarded_lock; [done|]. intros k I HP. unfold id. rewrite setMemory_same.
  split; [done|]. split; [|done]. split; [apply since_refl|]. apply I.
Qed.

Lemma guarded_identityTurn m now : memory_ok m ->
  guarded' (since m) (runIdentityTurn local fault m now) (fun _ => loadedAs m).
Proof.
  intros Mo. eapply guarded_bind; [apply guarded_looked, _|]. intros clock.
  eapply guarded_bind.
  { eapply guarded_pre; [by apply (guarded_identityPage (fun _ => True))|by intros k Si]. }
  intros [batch|e].
  - eapply guarded_bind with (Q := fun _ => loadedAs m).
    + eapply guarded_pre; [|intros k [_ Pa]; exact Pa]. apply guarded_lock; [apply _|].
      intros k I Pa. split; [by apply inv_pageDone|]. exact (since_loaded m k (proj1 Pa)).
    + intros before. by apply guarded_ret.
  - apply guarded_ret. intros k [[Si _] _]. by apply since_loaded.
Qed.

Lemma guarded_turn kind m : memory_ok m ->
  guarded' (since m) (runTurn local sketchKey iter sketchText sampleText walkText activityText fault kind m)
    (fun _ => loadedAs m).
Proof.
  intros Mo. eapply guarded_bind; [apply guarded_hasInbox, _|].
  intros [[]|e]; [apply guarded_ret, since_loaded| |apply guarded_ret, since_loaded].
  eapply guarded_bind; [apply guarded_looked, _|]. intros now. destruct kind.
  - eapply guarded_bind.
    { apply (guarded_rollups _ _ _ _ _ _ _ _ _ (fun _ => 0)); [apply _..|]. intros k I _ name.
      by apply (inv_cursor_nonneg local sketchKey iter sketchText sampleText walkText activityText julianday). }
    intros turn.
    destruct (rtError turn); [apply guarded_ret; intros k [Si _]; by apply since_loaded|].
    eapply guarded_bind with (Q := fun _ => loadedAs m).
    + apply guarded_lock; [apply _|]. intros k I [Si Re].
      split; [apply inv_rollupsDone; [done|done|intros Ac; by apply Re]|].
      unfold loadedAs. cbn. rewrite rollupsDone_loaded. by apply since_loaded.
    + intros ?. by apply guarded_ret.
  - destruct (negb _); [|by apply guarded_identityTurn]. eapply guarded_bind with (Q := fun _ => loadedAs m).
    + apply guarded_lock; [apply _|]. intros k I Si. split; [by apply inv_nextKind|exact (since_loaded m k Si)].
    + intros ?. by apply guarded_ret.
Qed.

Lemma guarded_preparedOnce :
  guarded' started
    (runPreparedOnce local sketchKey iter sketchText sampleText walkText activityText fault) (fun _ => started).
Proof.
  eapply guarded_bind; [by apply guarded_readMemory, _|]. intros m.
  apply (guarded_fact _ _ _ _ _ _ _ _ (memory_ok m /\ startupTargetLoaded m = true)).
  { intros k _ [[Si Mo] Sd]. split; [done|]. by rewrite <- (since_loaded m k Si). }
  intros [Mo Ld]. destruct (nextRunnableKindLocked m) as [kind runnable].
  eapply guarded_bind with (Q := fun _ => loadedAs m).
  - destruct runnable; [|apply guarded_ret; intros k [[Si _] _]; by apply since_loaded].
    eapply guarded_pre; [by apply guarded_turn|]. by intros k [[Si _] _].
  - intros answer. eapply guarded_bind; [apply guarded_note|]. intros ?. apply guarded_ret.
    intros k E. unfold started. by rewrite E.
Qed.

Lemma guarded_loadTarget P : Stable' P ->
  guarded' P (on_agg (LoadUsageAggregationTargetEventID fault))
    (fun r k => match r with Ok target => startup_read target k | Err _ => True end).
Proof.
  intros SP. apply guarded_reads; [done|eapply reads_any, LoadTarget_spec|]. intros k d I _ E.
  pose proof (LoadTarget_spec fault d) as [_ T].
  destruct (LoadUsageAggregationTargetEventID fault d).2 as [target|e]; [|done]. subst target.
  rewrite E. change (target_of (kAgg k)) with (storedMax k).
  pose proof (startMax_le _ _ _ _ _ _ _ _ k I). pose proof (storedMax_nonneg k).
  split; [done|lia].
Qed.

Lemma guarded_startup :
  guarded' (fun _ => True) (ensureStartupTarget fault)
    (fun r k => match r with Ok _ => started k | Err _ => True end).
Proof.
  eapply guarded_bind; [apply guarded_readMemory, _|]. intros m.
  destruct (startupTargetLoaded m) eqn:Ld.
  { apply guarded_ret. intros k [[Si _] _]. unfold started. by rewrite (since_loaded m k Si). }
  eapply guarded_try with (Q := fun r k => match r with Ok target => startup_read target k | Err _ => True end).
  - apply guarded_loadTarget. apply _.
  - intros target. eapply guarded_bind with (Q := fun _ => started); [|by intros ?; apply guarded_ret].
    apply guarded_lock; [apply _|]. intros k I R. by apply inv_startup.
  - done.
Qed.

Lemma guarded_freeze : guarded' started (lock_section freezePendingTarget) (fun _ => started).
Proof.
  apply guarded_lock; [apply _|]. intros k I Sd. split; [by apply inv_freeze|].
  unfold started. cbn. by rewrite freeze_loaded.
Qed.

Lemma started_wake k : started k -> started (setWake false k).
Proof. done. Qed.

(** *** Falling asleep *)

(** Unless a wake-up is waiting, nothing was notified since [m] was read. *)
Definition quiet (m : RunnerMemory) (k : Keeper) : Prop := kWake k = true \/ kMemory k = m.

#[export] Instance stable_quiet m : Stable' (quiet m).
Proof.
  intros k k' _ Step Q. destruct Step; try exact Q; [|by left].
  unfold NotifyUsageEventsCommitted. destruct (_ <=? 0); [exact Q|by left].
Qed.

Lemma choose_none timer pick d : (choose timer pick d).2 = None ->
  kWake (wKeeper (dbTables (choose timer pick d).1)) = false /\ timer = false.
Proof.
  unfold choose, locked. cbv zeta. set (ready := (_ ++ _ ++ _ : list Ready)).
  assert (L : ready = [] \/ exists r, ready !! (pick mod length ready)%nat = Some r).
  { destruct ready as [|r l] eqn:E; [by left|right]. apply lookup_lt_is_Some.
    rewrite <- E. apply Nat.mod_upper_bound. by rewrite E. }
  destruct L as [E|[r E]].
  - rewrite E. intros _. cbn. subst ready.
    destruct (kCancelled _), (kWake (wKeeper (dbTables d))) eqn:W, timer; try done.
  - rewrite E. by destruct r.
Qed.

Lemma guarded_choose_quiet m timer pick :
  guarded' (quiet m) (choose timer pick) (fun r k => r = None -> kMemory k = m).
Proof.
  intros d (Po & I & Q). pose proof (choose_none timer pick d) as N.
  pose proof (guarded_choose local sketchKey iter sketchText sampleText walkText activityText julianday
    timer pick (fun k => kMemory k = m \/ True) (fun k H => H) d) as G.
  destruct G as (Po' & I' & _); [split; [done|]; split; [done|by right]|].
  split; [done|]. split; [done|]. intros E. destruct (N E) as [W _].
  destruct Q as [Q|Q].
  - unfold choose, locked in *. cbv zeta in *. rewrite Q in *. revert E W.
    destruct (_ !! _) as [[]|]; cbn; congruence.
  - unfold choose, locked in *. cbv zeta in *. by destruct (_ !! _) as [[]|].
Qed.

Lemma guarded_await_quiet m n timer :
  guarded' (quiet m) (await n timer) (fun r k => r = None -> kMemory k = m).
Proof.
  revert timer. induction n as [|n IH]; intros timer; cbn [await];
    (eapply guarded_bind; [apply guarded_interfere, _|]; intros pick).
  - apply guarded_choose_quiet.
  - eapply guarded_bind; [apply guarded_choose_quiet|].
    intros [r|]; [by apply guarded_ret|]. eapply guarded_pre; [apply IH|]. intros k E. right. by apply E.
Qed.

Lemma guarded_blocked_quiet m timer :
  guarded' (quiet m) (blocked timer) (fun r k => r = None -> kMemory k = m).
Proof.
  eapply guarded_bind with (Q := fun _ => quiet m); [by apply triple_locked|]. intros n.
  apply guarded_await_quiet.
Qed.

Lemma guarded_both {A} (P P' : Keeper -> Prop) (p : Sql World A) Q Q' :
  guarded' P p Q -> guarded' P' p Q' ->
  guarded' (fun k => P k /\ P' k) p (fun a k => Q a k /\ Q' a k).
Proof.
  intros H H' d (Po & I & HP & HP'). destruct (H d) as (Po1 & I1 & HQ); [by split|].
  destruct (H' d) as (_ & _ & HQ'); [by split|]. by split.
Qed.

Lemma await_none n timer d : (await n timer d).2 = None -> timer = false.
Proof.
  revert timer d. induction n as [|n IH]; intros timer d; cbn [await]; unfold sql_bind;
    destruct (interfere d) as [d1 pick].
  - intros E. by apply choose_none in E as [_ E].
  - destruct (choose _ _ d1) as [d2 [r|]]; [done|apply IH].
Qed.

Lemma blocked_none timer d : (blocked timer d).2 = None -> timer = false.
Proof. unfold blocked, sql_bind. destruct (script_length d) as [d1 n]. apply await_none. Qed.

Definition idle (k : Keeper) : Prop :=
  let m := kMemory k in
  activeRound m = false /\ pendingTargetEventID m <= 0 /\ identityAfterID m = 0 /\
  identityTargetGeneration m <= identityScanGeneration m.

(** How a run may end. *)
Definition ended (o : Outcome) (k : Keeper) : Prop := o = Asleep -> idle k /\ started k.

Lemma not_runnable_idle k m : kMemory k = m -> hasRunnableWorkLocked m = false ->
  pendingRollupWindow m = false -> idle k.
Proof.
  intros <- R P. unfold hasRunnableWorkLocked, identityWorkPendingLocked, pendingRollupWindow in *.
  apply orb_false_iff in R as [Ac R]. rewrite Ac in P. apply orb_false_iff in R as [Af G].
  apply negb_false_iff, Z.eqb_eq in Af. apply Z.ltb_ge in G. rewrite andb_true_r in P. apply Z.ltb_ge in P.
  by split_and!.
Qed.

Abbreviation Turn' := (runPreparedOnce local sketchKey iter sketchText sampleText walkText activityText fault).

Lemma guarded_readQuiet P : Stable' P ->
  guarded' P (lock_section id) (fun m k => quiet m k /\ P k).
Proof.
  intros SP. apply guarded_lock; [done|]. intros k I HP. unfold id. rewrite setMemory_same.
  split; [done|]. by split; [right|].
Qed.

(** Going to sleep, with nothing to do when it is for good. *)
Lemma guarded_sleep m timer : hasRunnableWorkLocked m = false -> (timer = false -> pendingRollupWindow m = false) ->
  guarded' (fun k => quiet m k /\ started k) (blocked timer)
    (fun r k => (r = None -> idle k) /\ started k).
Proof.
  intros R P d Hd. pose proof (blocked_none timer d) as N.
  pose proof (guarded_both _ _ _ _ _ (guarded_blocked_quiet m timer)
    (guarded_blocked _ _ _ _ _ _ _ _ timer started _ started_wake) d Hd) as (Po & I & E & Sd).
  split; [done|]. split; [done|]. split; [|done]. intros En. specialize (E En). specialize (N En).
  apply (not_runnable_idle _ m); [done|done|by apply P].
Qed.

Lemma guarded_running fuel interval timer backoffs :
  guarded' started (running local sketchKey iter sketchText sampleText walkText activityText fault isCtxErr
    fuel interval timer backoffs) ended.
Proof.
  revert timer backoffs. induction fuel as [|fuel IH]; intros timer backoffs; cbn [running];
    [by apply guarded_ret|].
  assert (Wait : forall delay timer backoffs, guarded' started
    (sql_bind (waitForRetry delay) (fun again => if negb again then sql_ret (Returned None)
       else running local sketchKey iter sketchText sampleText walkText activityText fault isCtxErr
              fuel interval timer backoffs)) ended).
  { intros delay t b. eapply guarded_bind; [by apply guarded_wait; [apply _|]|].
    intros [|]; [apply IH|by apply guarded_ret]. }
  assert (Freeze : forall b, guarded' started (sql_bind (lock_section freezePendingTarget) (fun _ =>
    running local sketchKey iter sketchText sampleText walkText activityText fault isCtxErr
      fuel interval false b)) ended).
  { intros b. eapply guarded_bind; [apply guarded_freeze|]. intros ?. apply IH. }
  eapply guarded_bind; [apply guarded_looked, _|]. intros [|]; [by apply guarded_ret|].
  eapply guarded_bind; [apply guarded_readQuiet, _|]. intros m.
  eapply guarded_bind with (Q := fun _ k => quiet m k /\ started k).
  { destruct (_ && _); [apply guarded_note|by apply guarded_ret]. }
  intros ?. eapply guarded_bind; [apply guarded_interfere, _|]. intros pick.
  destruct (_ && Nat.odd pick); [eapply guarded_pre; [apply Freeze|by intros k [_ ?]]|].
  destruct (hasRunnableWorkLocked m) eqn:R.
  - eapply guarded_bind; [eapply guarded_pre; [apply guarded_preparedOnce|by intros k [_ ?]]|].
    intros [result [e|]].
    + eapply guarded_bind with (Q := fun _ => started).
      { eapply guarded_bind; [apply guarded_looked, _|]. intros c. by apply guarded_ret. }
      intros [|]; [by apply guarded_ret|]. eapply guarded_bind with (Q := fun _ => started); [|intros ?; apply Wait].
      apply guarded_lock; [apply _|]. intros k I Sd. by destruct (rrKind result); (split; [apply inv_nextKind|]).
    + destruct (rrDeferredForInbox result); [apply Wait|apply IH].
  - eapply guarded_bind.
    { apply (guarded_sleep m); [done|]. intros E. by apply orb_false_iff in E as [_ E]. }
    intros [[| |]|].
    + by apply guarded_ret.
    + eapply guarded_pre; [apply IH|by intros k [_ ?]].
    + eapply guarded_pre; [apply Freeze|by intros k [_ ?]].
    + apply guarded_ret. intros k [Id Sd] _. split; [by apply Id|done].
Qed.

Lemma guarded_startupLoop fuel backoff :
  guarded' (fun _ => True) (startup fault isCtxErr fuel backoff)
    (fun o k => match o with None => started k | Some o => o <> Asleep end).
Proof.
  revert backoff. induction fuel as [|fuel IH]; intros backoff; cbn [startup]; [by apply guarded_ret|].
  eapply guarded_bind; [apply guarded_startup|]. intros [u|e]; [by apply guarded_ret|].
  eapply guarded_bind with (Q := fun _ _ => True).
  { eapply guarded_bind; [apply guarded_looked, _|]. intros c. by apply guarded_ret. }
  intros [|]; [by apply guarded_ret|].
  eapply guarded_bind; [by apply guarded_wait; [apply _|]|]. intros [|]; [apply IH|by apply guarded_ret].
Qed.

Lemma guarded_Run fuel runner database interval :
  guarded' (fun _ => True) (Run local sketchKey iter sketchText sampleText walkText activityText fault isCtxErr
    fuel runner database interval) ended.
Proof.
  unfold Run. destruct runner; [|by apply guarded_ret]. destruct database; [|by apply guarded_ret].
  eapply guarded_bind; [apply guarded_startupLoop|]. intros [o|].
  - apply guarded_ret. by intros k N.
  - apply guarded_running.
Qed.

(** *** A runner that was just made *)

Lemma inv_new agg rows nextID inbox now :
  agg_run local sketchKey iter sketchText sampleText walkText activityText agg_empty agg ->
  identity_reaches local julianday identities_empty (mkIdentityTables (agEvents agg) rows nextID) ->
  Inv' (NewUsageAggregationRunner agg rows nextID inbox now).
Proof.
  intros R I. set (k := NewUsageAggregationRunner _ _ _ _ _).
  assert (St : stored local sketchKey iter sketchText sampleText walkText activityText julianday k) by done.
  pose proof (storedMax_nonneg k) as P. split; [done|]. split.
  - split; [cbn; lia|]. split; [cbn; lia|]. split; [done|]. done.
  - split.
    + split; [|done]. constructor; [|done]. do 3 right. split; [done|]. cbn. lia.
    + split; [done|]. split; [cbn; lia|]. split; [done|]. constructor; [|done]. cbn.
      split; [lia|]. split; [unfold storedMax; cbn; lia|]. split; [done|]. lia.
Qed.

Lemma caught_up k : Inv' k -> idle k -> started k ->
  Forall (fun n => behind_all (ncTarget n) k /\ scanned k n 0) (kNotices k).
Proof.
  intros I (Ac & Pe & Af & G) Sd. pose proof I as (_ & _ & [Aw _] & Sc).
  assert (Z0 : forall name, 0 <= cursor_of (kAgg k) name).
  { intros name. pose proof (cursor_nonneg local sketchKey iter sketchText sampleText walkText activityText
      (kAgg k) name) as C. apply C, (inv_ok _ _ _ _ _ _ _ _ k I). }
  destruct Sc as (_ & _ & _ & No). rewrite Af in No. rewrite Forall_forall in Aw, No |- *.
  intros n Hn. split.
  - destruct (Aw n Hn) as [B|[[B _]|[B|[B _]]]]; [done|congruence| |unfold started in Sd; congruence].
    intros name. specialize (Z0 name). lia.
  - destruct (No n Hn) as (B & _ & _ & S). apply S. lia.
Qed.

End Loop.
