(* ===== verification/AggregationFair.v ===== *)
(** The aggregation runner is fair: while both kinds have work they take turns,
    whatever fails and whatever the others do. *)
From S2P Require Import Prelude GoStrings GoTime Timeutil Entities ActivityGrain Uvarint Sketch SampleSet Inbox Sql Overview LatencyRows Aggregation AggregationFacts AggregationRuns IdentityStats IdentitySync IdentityFacts AggregationRunner AggregationTurns AggregationRunnerFacts.

Local Open Scope string_scope.
Local Open Scope list_scope.
Local Open Scope Z_scope.

Definition other (kind : UsageAggregationKind) : UsageAggregationKind :=
  match kind with
  | UsageAggregationKindRollups => UsageAggregationKindIdentity
  | UsageAggregationKindIdentity => UsageAggregationKindRollups
  end.

(** The kind of the last turn, unless it was put off for the inbox or had nothing to do. *)
Definition turnKind (m : RunnerMemory) (result : UsageAggregationRunResult) : option UsageAggregationKind :=
  if rrDeferredForInbox result || negb (hasRunnableWorkLocked m) then None else Some (rrKind result).

Definition lastTurn (last : option UsageAggregationKind) (e : RunnerEvent) : option UsageAggregationKind :=
  match e with Turn m result _ => turnKind m result | _ => last end.

Definition lastOf (trace : list RunnerEvent) : option UsageAggregationKind := foldl lastTurn None trace.

(** A turn that had both kinds to choose from takes the one that was not last. *)
Definition fairTurn (last : option UsageAggregationKind) (m : RunnerMemory)
    (result : UsageAggregationRunResult) : Prop :=
  forall kind, last = Some kind -> activeRound m = true -> identityWorkPendingLocked m = true ->
  rrKind result = other kind.

Definition fair (trace : list RunnerEvent) : Prop :=
  forall before m result err after, trace = before ++ Turn m result err :: after ->
  fairTurn (lastOf before) m result.

Lemma lastOf_snoc trace e : lastOf (trace ++ [e]) = lastTurn (lastOf trace) e.
Proof. unfold lastOf. by rewrite foldl_app. Qed.

Lemma fair_snoc trace e : fair trace ->
  (forall m result err, e = Turn m result err -> fairTurn (lastOf trace) m result) -> fair (trace ++ [e]).
Proof.
  intros F H before m result err after E. destruct (decide (after = [])) as [->|N].
  - apply app_inj_tail in E as [-> ->]. by eapply H.
  - destruct (exists_last N) as (after' & e' & ->). rewrite app_comm_cons, app_assoc in E.
    apply app_inj_tail in E as [-> _]. by eapply F.
Qed.

Section Fair.
Context (local : Location) (sketchKey : Z -> Z) (iter : SampleSet -> list SamplePoint).
Context (sketchText : SketchError -> string) (sampleText : SampleError -> string)
  (walkText : WalkError -> string) (activityText : ActivityError -> string).
Context (julianday : string -> option Z) (fault : nat -> option string) (isCtxErr : string -> bool).

Abbreviation polite' := (polite local sketchKey iter sketchText sampleText walkText activityText julianday).
Abbreviation next w := (nextKind (kMemory (wKeeper w))).

(** *** Programs that neither choose nor report *)

(** When nobody acts any more, the memory does not change either. *)
Definition still (w w' : World) : Prop :=
  wScript w = [] -> wScript w' = [] /\ kMemory (wKeeper w') = kMemory (wKeeper w) /\
  kNextID (wKeeper w') = kNextID (wKeeper w) /\ (kWake (wKeeper w) = false -> kWake (wKeeper w') = false).

Definition frame (w w' : World) : Prop :=
  polite' w -> polite' w' /\ next w' = next w /\ wTrace w' = wTrace w /\ still w w'.

#[export] Instance frame_preorder : PreOrder frame.
Proof.
  split; [by intros w P|]. intros w1 w2 w3 F1 F2 P1. destruct (F1 P1) as (P2 & N2 & T2 & S2).
  destruct (F2 P2) as (P3 & N3 & T3 & S3). split; [done|]. split; [congruence|]. split; [congruence|].
  intros C1. destruct (S2 C1) as (C2 & M2 & I2 & W2). destruct (S3 C2) as (C3 & M3 & I3 & W3).
  split; [done|]. split; [congruence|]. split; [congruence|auto].
Qed.

Class Frames {A} (p : Sql World A) : Prop := frames : preserves p (fun w _ w' => frame w w').

#[export] Instance frames_ret {A} (a : A) : Frames (sql_ret a).
Proof. by intros d. Qed.

#[export] Instance frames_bind {A B} (m : Sql World A) (f : A -> Sql World B) :
  Frames m -> (forall a, Frames (f a)) -> Frames (sql_bind m f).
Proof.
  intros Hm Hf. eapply preserves_bind; [exact Hm|intros a; apply Hf|].
  intros w a w' b w'' F1 F2. by transitivity w'.
Qed.

#[export] Instance frames_try {A B} (m : Sql World (result string A)) (f : A -> Sql World (result string B)) :
  Frames m -> (forall a, Frames (f a)) -> Frames (sql_try m f).
Proof.
  intros Hm Hf. eapply preserves_try; [exact Hm|intros a; apply Hf|done|].
  intros w a w' b w'' F1 F2. by transitivity w'.
Qed.

Lemma outside_next k k' : rtc (outside_step local sketchKey iter sketchText sampleText walkText activityText julianday) k k' ->
  nextKind (kMemory k') = nextKind (kMemory k).
Proof.
  induction 1 as [|k k1 k2 Step _ IH]; [done|]. rewrite IH. destruct Step; try done.
  unfold NotifyUsageEventsCommitted. by destruct (_ <=? 0).
Qed.

#[export] Instance frames_interfere : Frames interfere.
Proof.
  intros d P. unfold interfere, locked, polite in *. destruct (wScript (dbTables d)) as [|m rest] eqn:E.
  - cbn. rewrite E. split; [done|]. split; [done|]. split; [done|]. by intros _.
  - apply Forall_cons in P as [Pm Pr]. cbn. split; [done|]. split; [by apply outside_next|]. split; [done|].
    intros C. cbn in C. congruence.
Qed.

#[export] Instance frames_looked {A} (f : Keeper -> A) : Frames (looked f).
Proof. apply frames_bind; [apply _|]. intros ? d. by unfold locked. Qed.

#[export] Instance frames_on_agg {A} (p : Sql AggTables A) : Frames (on_agg p).
Proof. apply frames_bind; [apply _|]. intros ? d. unfold zoom. by destruct (p _). Qed.

Lemma frames_on_identity {A} (p : Sql IdentityTables A) :
  preserves p (fun i _ i' => idNextID i' = idNextID i) -> Frames (on_identity p).
Proof.
  intros Hp. apply frames_bind; [apply _|]. intros pick. eapply preserves_weaken; [by apply preserves_zoom|].
  intros w a w' (i & E & ->) P. split; [done|]. split; [done|]. split; [done|]. intros C.
  split; [done|]. split; [done|]. split; [exact E|done].
Qed.

(** A page of identities creates none. *)
Lemma rows_nextID clock identities now n :
  preserves (aggregateUsageIdentityRows local fault clock identities now n)
    (fun i _ i' => idNextID i' = idNextID i).
Proof.
  revert n. induction identities as [|identity rest IH]; intros n; cbn [aggregateUsageIdentityRows];
    [by intros d|].
  eapply preserves_try with (Q := fun _ i _ i' => idNextID i' = idNextID i).
  - apply (delta_spec local fault).
  - intros delta. destruct (_ =? 0); [apply IH|].
    eapply preserves_try with (Q := fun _ i _ i' => idNextID i' = idNextID i).
    + apply (preserves_wrap _ _ (fun i _ i' => idNextID i' = idNextID i)); [|done].
      eapply preserves_weaken; [apply preserves_statement|]. intros i [u|e] i'; [|by intros ->].
      intros [= ->]. unfold updateRow. by destruct (_ !! _).
    + intros u. apply IH.
    + done.
    + congruence.
  - by intros i e i' [-> _].
  - intros i delta i1 r i2 [-> _] E. exact E.
Qed.

#[export] Instance frames_identityBatch clock now after :
  Frames (on_identity (AggregateUsageIdentityStatsBatch local fault clock now after)).
Proof.
  apply frames_on_identity. unfold AggregateUsageIdentityStatsBatch. destruct (after <? 0); [by intros d|].
  eapply preserves_weaken.
  - apply (preserves_transaction _ _ (fun i _ i' => idNextID i' = idNextID i)).
    eapply preserves_try with (Q := fun _ i _ i' => idNextID i' = idNextID i).
    + apply (preserves_wrap _ _ (fun i _ i' => idNextID i' = idNextID i)); [|done].
      eapply preserves_weaken; [apply preserves_query|]. by intros i a i' [-> _].
    + intros identities. case_bool_decide; [by intros d|].
      eapply preserves_try with (Q := fun _ i _ i' => idNextID i' = idNextID i);
        [apply rows_nextID|by intros u d|done|congruence].
    + done.
    + congruence.
  - intros i [a|e] i' E; [exact E|by rewrite E].
Qed.

#[export] Instance frames_hasInbox : Frames (hasInbox fault).
Proof.
  apply frames_bind; [apply _|]. intros pick. eapply preserves_weaken; [apply preserves_query|].
  by intros w a w' [-> _].
Qed.

#[export] Instance frames_gate processed errs : Frames (gate fault processed errs).
Proof. unfold gate, deferForInbox. apply _. Qed.

#[export] Instance frames_choose timer pick : Frames (choose timer pick).
Proof. intros d. unfold choose, locked. cbv zeta. by destruct (_ !! _) as [[]|]. Qed.

#[export] Instance frames_await n timer : Frames (await n timer).
Proof.
  revert timer. induction n as [|n IH]; intros timer; cbn [await]; apply frames_bind; try apply _.
  intros pick. apply frames_bind; [apply _|]. intros [r|]; [apply _|apply IH].
Qed.

#[export] Instance frames_blocked timer : Frames (blocked timer).
Proof. apply frames_bind; [|apply _]. intros d. by unfold script_length, locked. Qed.

#[export] Instance frames_sharedStep {R} (rows : result string R) apply processed errs next_ :
  (forall r, Frames (apply r)) -> (forall p e, Frames (next_ p e)) ->
  Frames (sharedStep fault rows apply processed errs next_).
Proof.
  intros Ha Hn. apply frames_bind; [apply _|]. intros [turn|]; [apply _|]. apply frames_bind.
  - destruct rows; [apply Ha|apply _].
  - intros r. destruct (tried r processed errs). apply Hn.
Qed.

#[export] Instance frames_fallbackPage {R} text c target (build : list UsageEvent -> result string (Z * R))
    apply processed errs next_ :
  (forall n r, Frames (apply n r)) -> (forall c p e, Frames (next_ c p e)) ->
  Frames (fallbackPage fault text c target build apply processed errs next_).
Proof.
  intros Ha Hn. unfold fallbackPage. destruct (c <? target); [|apply Hn]. apply frames_bind; [apply _|].
  intros [[|x l]|e]; [apply Hn| |apply Hn]. destruct (build _) as [[next_cursor rows]|e]; [|apply Hn].
  apply frames_bind; [apply _|]. intros [turn|]; [apply _|]. apply frames_bind; [apply Ha|].
  intros r. destruct (tried r processed errs). apply Hn.
Qed.

#[export] Instance frames_rollups active target now :
  Frames (runRollupsTurn local sketchKey iter sketchText sampleText walkText activityText fault active target now).
Proof.
  unfold runRollupsTurn. destruct (negb active); [apply _|]. apply frames_bind; [apply _|].
  intros [s|e]; [|apply _]. destruct (_ && _); [apply _|]. destruct (snapshot_Equal s).
  - unfold runSharedRollupsPage. apply frames_bind; [apply _|]. intros [[|x l]|e]; [apply _| |apply _].
    destruct (OverviewBuildRows local (x :: l)) as [[h dy] n]. unfold applyLatency. apply _.
  - unfold runFallbackRollupsPages, applyLatency. apply _.
Qed.

(** *** One turn *)

Lemma lock_spec f : preserves (lock_section f) (fun w m w' => polite' w ->
  polite' w' /\ wTrace w' = wTrace w /\ nextKind m = next w /\ next w' = nextKind (f m)).
Proof.
  eapply preserves_bind; [apply frames_interfere|intros pick; apply preserves_locked|].
  intros w pick w' m w'' F [= -> ->] P. destruct (F P) as (P' & N & T & _). by split_and!.
Qed.

Lemma note_spec e : preserves (note e) (fun w _ w' =>
  (polite' w -> polite' w') /\ wKeeper w' = wKeeper w /\ wTrace w' = wTrace w ++ [e]).
Proof. by intros d. Qed.

Lemma rollupsDone_next a t r m : nextKind (rollupsTurnDone a t r m) = UsageAggregationKindIdentity.
Proof.
  unfold rollupsTurnDone, completeRollupRoundIfReadyLocked. cbv zeta.
  by repeat match goal with |- context [if ?b then _ else _] => destruct b end.
Qed.

(** What a turn leaves: no report yet, and the other kind is next. *)
Definition turned (kind : UsageAggregationKind) (w : World) (a : TurnResult) (w' : World) : Prop :=
  polite' w -> polite' w' /\ wTrace w' = wTrace w /\ rrKind a.1 = kind /\
    (a.2 = None -> rrDeferredForInbox a.1 = false -> next w' = other kind).

Lemma turned_after {B} kind (m : Sql World B) (f : B -> Sql World TurnResult) :
  Frames m -> (forall b, preserves (f b) (turned kind)) -> preserves (sql_bind m f) (turned kind).
Proof.
  intros Hm Hf. eapply preserves_bind; [exact Hm|exact Hf|].
  intros w b w' a w'' F T P. destruct (F P) as (P' & _ & E & _). destruct (T P') as (P'' & E' & K & N).
  split_and!; try done. congruence.
Qed.

Lemma turned_ret kind (a : TurnResult) : rrKind a.1 = kind ->
  a.2 <> None \/ rrDeferredForInbox a.1 = true -> preserves (sql_ret a) (turned kind).
Proof. intros K D d P. split_and!; try done. cbn. intros E1 E2. destruct D; congruence. Qed.

Lemma turned_lock kind g (f : RunnerMemory -> TurnResult) :
  (forall m, nextKind (g m) = other kind) -> (forall m, rrKind (f m).1 = kind) ->
  preserves (sql_bind (lock_section g) (fun m => sql_ret (f m))) (turned kind).
Proof.
  intros G K. eapply preserves_bind; [apply lock_spec|intros m; apply preserves_ret|].
  intros w m w' a w'' L [-> ->] P. destruct (L P) as (P' & E & _ & N). split_and!; try done.
  intros _ _. by rewrite N.
Qed.

Lemma turn_spec kind m :
  preserves (runTurn local sketchKey iter sketchText sampleText walkText activityText fault kind m) (turned kind).
Proof.
  apply turned_after; [apply _|]. intros [[]|e]; [apply turned_ret; [done|by right]| |apply turned_ret; [done|by left]].
  apply turned_after; [apply _|]. intros now. destruct kind.
  - apply turned_after; [apply _|]. intros turn. destruct (rtError turn); [apply turned_ret; [done|by left]|].
    apply (turned_lock _ _ (fun _ => _)); [apply rollupsDone_next|done].
  - destruct (negb _); [by apply (turned_lock _ _ (fun _ => _))|].
    apply turned_after; [apply _|]. intros clock. apply turned_after; [apply _|].
    intros [batch|e]; [|apply turned_ret; [done|by left]]. by apply turned_lock.
Qed.

(** A turn with its report. *)
Definition reported (w : World) (a : TurnResult) (w' : World) : Prop :=
  polite' w -> polite' w' /\ exists m, wTrace w' = wTrace w ++ [Turn m a.1 a.2] /\
    nextKind m = next w /\ rrKind a.1 = (nextRunnableKindLocked m).1 /\
    (a.2 = None -> rrDeferredForInbox a.1 = false -> hasRunnableWorkLocked m = true ->
     next w' = other (rrKind a.1)).

Lemma runnable_iff m : (nextRunnableKindLocked m).2 = hasRunnableWorkLocked m.
Proof.
  unfold nextRunnableKindLocked, hasRunnableWorkLocked.
  by destruct (activeRound m), (identityWorkPendingLocked m).
Qed.

Lemma preparedOnce_spec :
  preserves (runPreparedOnce local sketchKey iter sketchText sampleText walkText activityText fault) reported.
Proof.
  eapply preserves_bind with (Q := fun m w a w' => polite' w -> polite' w' /\
    wTrace w' = wTrace w ++ [Turn m a.1 a.2] /\ rrKind a.1 = (nextRunnableKindLocked m).1 /\
    (a.2 = None -> rrDeferredForInbox a.1 = false -> hasRunnableWorkLocked m = true ->
     next w' = other (rrKind a.1))); [apply lock_spec| |].
  - intros m. pose proof (runnable_iff m) as Rn.
    destruct (nextRunnableKindLocked m) as [kind runnable]; cbn [fst snd] in *.
    eapply preserves_bind with (R := fun w a w' => polite' w -> polite' w' /\ wTrace w' = wTrace w /\
      rrKind a.1 = kind /\ (a.2 = None -> rrDeferredForInbox a.1 = false -> runnable = true ->
      next w' = other kind)) (Q := fun a w b w' => (polite' w -> polite' w') /\ wKeeper w' = wKeeper w /\
        wTrace w' = wTrace w ++ [Turn m a.1 a.2] /\ b = a).
    + destruct runnable.
      * eapply preserves_weaken; [apply turn_spec|]. intros w a w' T P.
        destruct (T P) as (P' & E & K & N). split_and!; auto.
      * intros d P. by split_and!.
    + intros a. eapply preserves_bind; [apply note_spec|intros u; apply preserves_ret|].
      intros w u w' b w'' (P & K & T) [-> ->]. by split_and!.
    + intros w a w' b w'' T (P' & K & E & ->) P. destruct (T P) as (P1 & E1 & K1 & N1).
      split; [by apply P'|]. split; [by rewrite E, E1|]. split; [done|].
      intros X1 X2 X3. rewrite K, K1. apply N1; congruence.
  - intros w m w' a w'' L H P. destruct (L P) as (P1 & E1 & M & _). destruct (H P1) as (P2 & E2 & K & N).
    split; [done|]. exists m. split; [congruence|]. by split_and!.
Qed.

(** *** The loop *)

Definition fairWorld (w : World) : Prop :=
  polite' w /\ fair (wTrace w) /\ forall kind, lastOf (wTrace w) = Some kind -> next w = other kind.

Lemma fair_frames {A} (p : Sql World A) : Frames p ->
  triple fairWorld p (fun _ => fairWorld).
Proof.
  intros F d (Po & Fa & N). destruct (F d Po) as (Po' & Nx & T & _). unfold fairWorld. by rewrite T, Nx.
Qed.

(** After a turn: fair so far, and next comes the other kind, now or once a failure
    has been taken note of. *)
Lemma fair_turn :
  triple fairWorld (runPreparedOnce local sketchKey iter sketchText sampleText walkText activityText fault)
    (fun a w => polite' w /\ fair (wTrace w) /\
       (a.2 = None -> fairWorld w) /\
       forall kind, lastOf (wTrace w) = Some kind -> rrKind a.1 = kind).
Proof.
  eapply triple_of_preserves; [apply preparedOnce_spec|]. intros w a w' (Po & Fa & N) R.
  destruct (R Po) as (Po' & m & T & M & K & Nx).
  assert (Fa' : fair (wTrace w')).
  { rewrite T. apply fair_snoc; [done|]. intros m' result err [= <- <- <-] kind L Ac Id.
    rewrite K. unfold nextRunnableKindLocked. rewrite Ac, Id. cbn. rewrite M. by apply N. }
  assert (Lk : forall kind, lastOf (wTrace w') = Some kind -> rrKind a.1 = kind /\
    rrDeferredForInbox a.1 = false /\ hasRunnableWorkLocked m = true).
  { intros kind. rewrite T, lastOf_snoc. cbn. unfold turnKind.
    destruct (rrDeferredForInbox a.1), (hasRunnableWorkLocked m); cbn; try done. intros [= <-]. done. }
  split; [done|]. split; [done|]. split.
  - intros E. split; [done|]. split; [done|]. intros kind L. destruct (Lk kind L) as (<- & D & Rn). by apply Nx.
  - intros kind L. by apply Lk.
Qed.

Lemma fair_lock f : (forall m, nextKind (f m) = nextKind m) ->
  triple fairWorld (lock_section f) (fun _ => fairWorld).
Proof.
  intros H. eapply triple_of_preserves; [apply lock_spec|]. intros w m w' (Po & Fa & N) L.
  destruct (L Po) as (Po' & T & M & Nx). unfold fairWorld. rewrite T, Nx, H, M. done.
Qed.

Lemma fair_note e : (forall m r err, e <> Turn m r err) -> triple fairWorld (note e) (fun _ => fairWorld).
Proof.
  intros H. eapply triple_of_preserves; [apply note_spec|]. intros w u w' (Po & Fa & N) (P & K & T).
  split; [by apply P|]. rewrite T. split.
  - apply fair_snoc; [done|]. intros m r err E. by destruct (H m r err).
  - rewrite lastOf_snoc, K. destruct e as [m r err| |]; [by destruct (H m r err)|apply N..].
Qed.

Lemma fair_wait delay : triple fairWorld (waitForRetry delay) (fun _ => fairWorld).
Proof.
  eapply triple_bind; [by apply fair_note|]. intros u. eapply triple_bind; [apply fair_frames, _|].
  intros r. by intros d.
Qed.

Lemma freeze_next m : nextKind (freezePendingTarget m) = nextKind m.
Proof.
  unfold freezePendingTarget. by repeat match goal with |- context [if ?b then _ else _] => destruct b end.
Qed.

Lemma startupTarget_next t m : nextKind (startupTarget t m) = nextKind m.
Proof. unfold startupTarget. by destruct (startupTargetLoaded m). Qed.

(** Once the failure is taken note of, the other kind is next. *)
Lemma fair_advance kind :
  triple (fun w => polite' w /\ fair (wTrace w) /\ forall k, lastOf (wTrace w) = Some k -> kind = k)
    (lock_section (advanceAfterFailure kind)) (fun _ => fairWorld).
Proof.
  eapply triple_of_preserves; [apply lock_spec|]. intros w m w' (Po & Fa & K) L.
  destruct (L Po) as (Po' & T & M & Nx). unfold fairWorld. rewrite T, Nx. split; [done|]. split; [done|].
  intros k E. rewrite (K k E). by destruct k.
Qed.

Lemma fair_running fuel interval timer backoffs :
  triple fairWorld (running local sketchKey iter sketchText sampleText walkText activityText fault isCtxErr
    fuel interval timer backoffs) (fun _ w => fair (wTrace w)).
Proof.
  assert (Ret : forall o : Outcome, triple fairWorld (sql_ret o) (fun _ w => fair (wTrace w))).
  { intros o d (_ & F & _). exact F. }
  revert timer backoffs. induction fuel as [|fuel IH]; intros timer backoffs; cbn [running]; [apply Ret|].
  assert (Wait : forall delay timer backoffs, triple fairWorld
    (sql_bind (waitForRetry delay) (fun again => if negb again then sql_ret (Returned None)
       else running local sketchKey iter sketchText sampleText walkText activityText fault isCtxErr
              fuel interval timer backoffs)) (fun _ w => fair (wTrace w))).
  { intros delay t b. eapply triple_bind; [apply fair_wait|]. intros [|]; [apply IH|apply Ret]. }
  assert (Freeze : forall b, triple fairWorld (sql_bind (lock_section freezePendingTarget) (fun _ =>
    running local sketchKey iter sketchText sampleText walkText activityText fault isCtxErr
      fuel interval false b)) (fun _ w => fair (wTrace w))).
  { intros b. eapply triple_bind; [apply fair_lock, freeze_next|]. intros m. apply IH. }
  eapply triple_bind; [apply fair_frames, _|]. intros [|]; [apply Ret|].
  eapply triple_bind; [by apply fair_lock|]. intros m.
  eapply triple_bind with (Q := fun _ => fairWorld).
  { destruct (_ && _); [by apply fair_note|by intros d]. }
  intros u. eapply triple_bind; [apply fair_frames, _|]. intros pick.
  destruct (_ && Nat.odd pick); [apply Freeze|]. destruct (hasRunnableWorkLocked m).
  - eapply triple_bind; [apply fair_turn|]. intros [result [e|]].
    + eapply triple_bind with (Q := fun _ w => polite' w /\ fair (wTrace w) /\
        forall k, lastOf (wTrace w) = Some k -> rrKind result = k).
      { assert (Fr : Frames (contextEnded isCtxErr e)) by (unfold contextEnded; apply _).
        eapply triple_of_preserves; [exact Fr|]. intros w c w' (Po & Fa & _ & K) F.
        destruct (F Po) as (Po' & _ & T & _). by rewrite T. }
      intros [|].
      * intros d (_ & F & _). exact F.
      * eapply triple_bind; [apply fair_advance|]. intros m'. apply Wait.
    + assert (Rest : triple fairWorld (if rrDeferredForInbox result
        then sql_bind (waitForRetry usageAggregationInboxRetryInterval) (fun again =>
               if negb again then sql_ret (Returned None)
               else running local sketchKey iter sketchText sampleText walkText activityText fault isCtxErr
                      fuel interval (timer || pendingRollupWindow m) (setBackoff (rrKind result) 0 backoffs))
        else running local sketchKey iter sketchText sampleText walkText activityText fault isCtxErr
               fuel interval (timer || pendingRollupWindow m) (setBackoff (rrKind result) 0 backoffs))
        (fun _ w => fair (wTrace w))) by (destruct (rrDeferredForInbox result); [apply Wait|apply IH]).
      eapply triple_pre; [exact Rest|]. intros w (_ & _ & H & _). by apply H.
  - eapply triple_bind; [apply fair_frames, _|]. intros [[| |]|]; [apply Ret|apply IH|apply Freeze|apply Ret].
Qed.

Lemma fair_startup fuel backoff :
  triple fairWorld (startup fault isCtxErr fuel backoff) (fun _ => fairWorld).
Proof.
  revert backoff. induction fuel as [|fuel IH]; intros backoff; cbn [startup]; [by intros d|].
  eapply triple_bind with (Q := fun _ => fairWorld).
  { unfold ensureStartupTarget. eapply triple_bind; [by apply fair_lock|]. intros m.
    destruct (startupTargetLoaded m); [by intros d|].
    eapply triple_try; [apply fair_frames, _| |by intros e w].
    intros target. eapply triple_bind; [apply fair_lock, startupTarget_next|]. by intros m' d. }
  intros [u|e]; [by intros d|].
  eapply triple_bind with (Q := fun _ => fairWorld).
  { apply fair_frames. unfold contextEnded. apply _. }
  intros [|]; [by intros d|]. eapply triple_bind; [apply fair_wait|]. intros [|]; [apply IH|by intros d].
Qed.

Lemma fair_Run fuel runner database interval :
  triple fairWorld (Run local sketchKey iter sketchText sampleText walkText activityText fault isCtxErr
    fuel runner database interval) (fun _ w => fair (wTrace w)).
Proof.
  assert (Ret : forall o : Outcome, triple fairWorld (sql_ret o) (fun _ w => fair (wTrace w))).
  { intros o d (_ & F & _). exact F. }
  unfold Run. destruct runner; [|apply Ret]. destruct database; [|apply Ret].
  eapply triple_bind; [apply fair_startup|]. intros [o|]; [apply Ret|apply fair_running].
Qed.

End Fair.
