(* ===== verification/AggregationRest.v ===== *)
(** The aggregation runner comes to rest: when nobody acts any more, only failures
    and a waiting inbox can keep it busy beyond the work there is. *)
From S2P Require Import Prelude GoStrings GoTime Timeutil Entities ActivityGrain Uvarint Sketch SampleSet Inbox Sql Overview LatencyRows Aggregation AggregationFacts AggregationRuns IdentityStats IdentitySync IdentityFacts AggregationRunner AggregationTurns AggregationRunnerFacts AggregationLoop AggregationFair.

Local Open Scope string_scope.
Local Open Scope list_scope.
Local Open Scope Z_scope.

(** *** The work that is left *)

(** Keys between the checkpoints and the target. *)
Definition distance (c : CheckpointName -> Z) (target : Z) : Z :=
  Z.max 0 (target - c OverviewCheckpoint) + Z.max 0 (target - c ActivityCheckpoint)
  + Z.max 0 (target - c LatencyCheckpoint).

Definition rollupWork (m : RunnerMemory) (c : CheckpointName -> Z) : Z :=
  if activeRound m then 1 + distance c (activeTargetEventID m) else 0.

(** The rest of the scan under way, and the scan after it; [n] is the next key. *)
Definition identityWork (m : RunnerMemory) (n : Z) : Z :=
  (if identityAfterID m =? 0 then 0 else n - identityAfterID m)
  + (if identityScanGeneration m <? identityTargetGeneration m then n + 1 else 0).

Lemma distance_le c c' target : (forall name, c name <= c' name) -> distance c' target <= distance c target.
Proof.
  intros H. pose proof (H OverviewCheckpoint). pose proof (H ActivityCheckpoint).
  pose proof (H LatencyCheckpoint). unfold distance. lia.
Qed.

Lemma distance_lt c c' target name : (forall name, c name <= c' name) -> c name < target -> c name + 1 <= c' name ->
  distance c' target < distance c target.
Proof.
  intros H. pose proof (H OverviewCheckpoint). pose proof (H ActivityCheckpoint).
  pose proof (H LatencyCheckpoint). unfold distance. destruct name; lia.
Qed.

Lemma distance_nonneg c target : 0 <= distance c target.
Proof. unfold distance. lia. Qed.

(** A scan keeps within the keys there are. *)
Definition scanning (m : RunnerMemory) (n : Z) : Prop := 0 < n /\ 0 <= identityAfterID m < n.

Lemma identityWork_nonneg m n : scanning m n -> 0 <= identityWork m n.
Proof. intros H. unfold scanning, identityWork in *. destruct (_ =? _), (_ <? _); lia. Qed.

Lemma identityWork_pos m n : scanning m n -> identityWorkPendingLocked m = true -> 0 < identityWork m n.
Proof.
  unfold scanning, identityWork, identityWorkPendingLocked. intros H.
  destruct (Z.eqb_spec (identityAfterID m) 0), (_ <? _); cbn; done || lia.
Qed.

Lemma identityWork_page m batch n : scanning m n -> identityWorkPendingLocked m = true ->
  newAfter batch = 0 \/ 0 <= identityAfterID m < newAfter batch /\ newAfter batch < n ->
  let m' := identityPageDone batch (identityPassGenerationOf m) m in
  scanning m' n /\ identityWork m' n < identityWork m n.
Proof.
  unfold scanning, identityWork, identityWorkPendingLocked, identityPassGenerationOf. intros H P N.
  cbn [identityPageDone withScan withNextKind identityAfterID identityScanGeneration identityTargetGeneration].
  change (if ReachedEnd batch then 0 else LastIdentityID batch) with (newAfter batch).
  destruct (Z.eqb_spec (identityAfterID m) 0) as [E|E]; cbn [negb orb] in P.
  - rewrite P, Z.ltb_irrefl. destruct (Z.eqb_spec (newAfter batch) 0); lia.
  - destruct (_ <? _); destruct (Z.eqb_spec (newAfter batch) 0); lia.
Qed.

(** An event of the trace that explains why there is still work. *)
Definition disturbs (e : RunnerEvent) : Prop :=
  match e with
  | Turn _ result err => err <> None \/ rrDeferredForInbox result = true
  | RetryWait _ => True
  | DebounceStarted _ => False
  end.

Section Rest.
Context (local : Location) (sketchKey : Z -> Z) (iter : SampleSet -> list SamplePoint).
Context (sketchText : SketchError -> string) (sampleText : SampleError -> string)
  (walkText : WalkError -> string) (activityText : ActivityError -> string).
Context (julianday : string -> option Z) (fault : nat -> option string) (isCtxErr : string -> bool).

Abbreviation Inv' := (Inv local sketchKey iter sketchText sampleText walkText activityText julianday).
Abbreviation Stable' := (Stable local sketchKey iter sketchText sampleText walkText activityText julianday).
Abbreviation polite' := (polite local sketchKey iter sketchText sampleText walkText activityText julianday).
Abbreviation guarded' :=
  (guarded local sketchKey iter sketchText sampleText walkText activityText julianday).
Abbreviation holds' := (holds local sketchKey iter sketchText sampleText walkText activityText julianday).
Abbreviation Frames' := (Frames local sketchKey iter sketchText sampleText walkText activityText julianday).
Abbreviation running' := (running local sketchKey iter sketchText sampleText walkText activityText fault isCtxErr).

(** *** Silence *)

(** Nobody acts any more; the memory is [m], the next identity [n], the trace [tr]. *)
Definition silent (m : RunnerMemory) (n : Z) (tr : list RunnerEvent) (P : Keeper -> Prop) (w : World) : Prop :=
  wScript w = [] /\ kMemory (wKeeper w) = m /\ kNextID (wKeeper w) = n /\ kWake (wKeeper w) = false /\
  wTrace w = tr /\ holds' P w.

Lemma silent_frames {A} (p : Sql World A) m n tr P Q : Frames' p -> guarded' P p Q ->
  triple (silent m n tr P) p (fun a => silent m n tr (Q a)).
Proof.
  intros F G d (S & M & N & W & T & H). pose proof (G d H) as H'. pose proof H as (Po & _ & _).
  destruct (F d Po) as (_ & _ & T' & St). destruct (St S) as (S' & M' & N' & W').
  unfold silent. rewrite M', N', T'. split_and!; try done. by apply W'.
Qed.

Lemma silent_pre {A} m n tr (P P' : Keeper -> Prop) (p : Sql World A) Q :
  triple (silent m n tr P) p Q -> (forall k, P' k -> P k) -> triple (silent m n tr P') p Q.
Proof.
  intros H HP. eapply triple_pre; [exact H|]. intros w (S & M & N & W & T & Po & I & HP').
  split_and!; try done. by split_and!; [| |apply HP].
Qed.

Lemma interfere_silent d : wScript (dbTables d) = [] -> interfere d = (d, O).
Proof. intros E. unfold interfere, locked. rewrite E. by destruct d. Qed.

Lemma silent_lock f m n tr (P Q : Keeper -> Prop) :
  (forall k, Inv' k -> P k -> kMemory k = m ->
     Inv' (setMemory (f m) k) /\ Q (setMemory (f m) k)) ->
  triple (silent m n tr P) (lock_section f) (fun m' w => m' = m /\ silent (f m) n tr Q w).
Proof.
  intros H d (S & M & N & W & T & Po & I & HP). unfold lock_section, sql_bind.
  rewrite interfere_silent by done. unfold locked. cbn. rewrite M. split; [done|].
  destruct (H _ I HP M). unfold silent. cbn. by split_and!.
Qed.

Lemma silent_note e m n tr P : triple (silent m n tr P) (note e) (fun _ => silent m n (tr ++ [e]) P).
Proof. intros d (S & M & N & W & T & H). unfold silent. cbn. rewrite T. by split_and!. Qed.

(** *** A turn in silence *)

(** What a turn without failure or deferral leaves: a memory with less work. *)
Definition lessWork (m : RunnerMemory) (n : Z) (c : CheckpointName -> Z) (tr : list RunnerEvent)
    (w : World) : Prop :=
  exists m' c', silent m' n tr (fun k => started k /\ forall name, behind name (c' name) k) w /\
    pendingTargetEventID m' = 0 /\ scanning m' n /\
    rollupWork m' c' + identityWork m' n < rollupWork m c + identityWork m n.

Definition quietly (a : TurnResult) : Prop := a.2 = None /\ rrDeferredForInbox a.1 = false.

Lemma rollupsDone_work m c c' reached : activeRound m = true -> pendingTargetEventID m = 0 ->
  0 <= activeTargetEventID m ->
  (forall name, c name <= c' name) ->
  reached = true \/ (exists name, c name < activeTargetEventID m /\ c name + 1 <= c' name) ->
  let m' := rollupsTurnDone true (activeTargetEventID m) reached m in
  pendingTargetEventID m' = 0 /\ rollupWork m' c' < rollupWork m c /\
  identityAfterID m' = identityAfterID m /\ identityScanGeneration m' = identityScanGeneration m /\
  identityTargetGeneration m' = identityTargetGeneration m.
Proof.
  intros Ac Pe T0 C D. unfold rollupsTurnDone, completeRollupRoundIfReadyLocked, rollupWork. cbv zeta.
  cbn [withNextKind activeRound activeTargetEventID rollupsReachedTarget pendingTargetEventID].
  rewrite Ac, Z.eqb_refl. pose proof (distance_nonneg c (activeTargetEventID m)) as N0.
  destruct reached; cbn [andb].
  - cbn [withRound activeRound activeTargetEventID rollupsReachedTarget pendingTargetEventID negb orb].
    rewrite Pe. destruct (_ <=? _); cbn; split_and!; done || lia.
  - destruct D as [D|(name & Lt & Le)]; [done|].
    pose proof (distance_lt c c' (activeTargetEventID m) name C Lt Le).
    cbn [withNextKind activeRound activeTargetEventID rollupsReachedTarget pendingTargetEventID].
    rewrite Ac. cbn [negb orb]. destruct (rollupsReachedTarget m); cbn [negb].
    + rewrite Pe. destruct (_ <=? _); cbn; split_and!; done || lia.
    + cbn. rewrite Ac. split_and!; done || lia.
Qed.

(** The keeper at a cursor position. *)
Definition standing (c : CheckpointName -> Z) (k : Keeper) : Prop :=
  started k /\ forall name, behind name (c name) k.

#[local] Instance stable_standing c : Stable' (standing c).
Proof. unfold standing. apply _. Qed.

#[local] Instance steady_standing c :
  Steady local sketchKey iter sketchText sampleText walkText activityText julianday (standing c).
Proof.
  intros k t I O [Sd B]. split; [done|]. intros name.
  by apply (steady_behind local sketchKey iter sketchText sampleText walkText activityText julianday).
Qed.

Lemma silent_rollups m n tr c now : activeRound m = true -> pendingTargetEventID m = 0 -> scanning m n ->
  triple (silent m n tr (standing c))
    (let$ turn := runRollupsTurn local sketchKey iter sketchText sampleText walkText activityText fault
                    (activeRound m) (activeTargetEventID m) now in
     let result := mkRunResult UsageAggregationKindRollups (rtProcessed turn) (rtDeferred turn) in
     match rtError turn with
     | Some e => sql_ret (result, Some e)
     | None =>
         let$ _ := lock_section (rollupsTurnDone (activeRound m) (activeTargetEventID m) (rtReached turn)) in
         sql_ret (result, None)
     end)%sql
    (fun a w => quietly a -> lessWork m n c tr w).
Proof.
  intros Ac Pe Sc. rewrite Ac. eapply triple_bind.
  { apply silent_frames; [apply _|]. apply (guarded_rollups _ _ _ _ _ _ _ _ _ c); [apply _..|].
    by intros k _ [_ B]. }
  intros turn. destruct (rtError turn) as [e|] eqn:Er.
  { intros d H [E _]. discriminate E. }
  eapply triple_fact with (F := rtDeferred turn = false -> rtReached turn = true \/
    exists name, c name < activeTargetEventID m).
  { intros w (_ & _ & _ & _ & _ & _ & _ & _ & R). intros De. destruct (R eq_refl) as (_ & _ & Pr).
    destruct (Pr Er De) as [Re|(name & Lt & _)]; [by left|right; by exists name]. }
  intros _. set (f := rollupsTurnDone true (activeTargetEventID m) (rtReached turn)).
  eapply triple_bind with (Q := fun _ w => rtDeferred turn = false -> lessWork m n c tr w).
  2: { intros m' d H [_ De]. by apply H. }
  intros d Hd De. pose proof Hd as (S & M & N & W & T & Po & I & (Sd & B) & R).
  destruct (R eq_refl) as (_ & Re & Pr). specialize (Pr Er De).
  set (k := wKeeper (dbTables d)) in *.
  set (c' := fun name => cursor_of (kAgg k) name).
  pose proof (silent_lock f m n tr (fun k => (standing c k /\ (true = true -> reports c (activeTargetEventID m)
    (standing c) turn k)) /\ forall name, behind name (c' name) k) (standing c')) as L.
  destruct (L) with (d := d) as [_ L'].
  - intros k2 I2 [[[Sd2 _] R2] B2] M2. assert (Si : since m k2) by (rewrite <- M2; apply since_refl). split.
    + pose proof (inv_rollupsDone local sketchKey iter sketchText sampleText walkText activityText julianday
        k2 m (rtReached turn) I2 Si) as D. rewrite Ac, M2 in D. apply D.
      intros _ E. destruct (R2 eq_refl) as (_ & R3 & _). by apply R3.
    + split; [|exact B2]. unfold started, f. cbn. rewrite rollupsDone_loaded, <- M2. exact Sd2.
  - refine (conj S (conj M (conj N (conj W (conj T (conj Po (conj I (conj (conj (conj Sd B) R) _)))))))).
    intros name. apply Z.le_refl.
  - assert (T0 : 0 <= activeTargetEventID m).
    { destruct I as (_ & (B1 & _) & _). fold k in M. rewrite M in B1. lia. }
    destruct (rollupsDone_work m c c' (rtReached turn) Ac Pe T0) as (E1 & E2 & E3 & E4 & E5).
    + exact B.
    + destruct Pr as [Pr|(name & Lt & Le)]; [by left|right]. exists name. split; [done|exact Le].
    + exists (f m), c'. split; [exact L'|]. unfold f. split; [done|]. split.
      * unfold scanning in *. by rewrite E3.
      * unfold identityWork at 1. rewrite E3, E4, E5. fold (identityWork m n). lia.
Qed.

Lemma silent_identity m n tr c now : memory_ok m -> pendingTargetEventID m = 0 -> scanning m n ->
  identityWorkPendingLocked m = true ->
  triple (silent m n tr (fun k => since m k /\ standing c k)) (runIdentityTurn local fault m now)
    (fun a w => quietly a -> lessWork m n c tr w).
Proof.
  intros Mo Pe Sc Pd. eapply triple_bind; [apply silent_frames; [apply _|apply guarded_looked, _]|].
  intros clock. eapply triple_bind.
  { apply silent_frames; [apply _|]. by apply guarded_identityPage; [apply _| |]. }
  intros [batch|e]; [|by intros d H [E _]].
  set (f := identityPageDone batch (identityPassGenerationOf m)).
  eapply triple_fact with (F := newAfter batch = 0 \/ 0 <= identityAfterID m < newAfter batch /\ newAfter batch < n).
  { intros w (_ & _ & N & _ & _ & _ & _ & _ & _ & _ & B & _). by rewrite N in B. }
  intros Nw. eapply triple_bind.
  - apply (silent_lock f m n tr _ (standing c)). intros k I [[_ [Sd B]] Pa] M.
    split; [|split; [unfold started in *; rewrite M in Sd; exact Sd|exact B]].
    pose proof (inv_pageDone local sketchKey iter sketchText sampleText walkText activityText julianday
      m batch k I Pa) as D. by rewrite M in D.
  - intros m' d [_ H] _. destruct (identityWork_page m batch n Sc Pd Nw) as [Sc' Lt].
    exists (f m), c. split; [exact H|]. split; [exact Pe|]. split; [exact Sc'|].
    unfold rollupWork, f. cbn. fold (rollupWork m c). unfold rollupWork.
    change (identityPageDone batch (identityPassGenerationOf m) m) with (f m) in *. lia.
Qed.

Lemma silent_since {A} m n tr P (p : Sql World A) Q :
  triple (silent m n tr (fun k => since m k /\ P k)) p Q -> triple (silent m n tr P) p Q.
Proof.
  intros H. eapply triple_pre; [exact H|]. intros w (S & M & N & W & T & Po & I & HP).
  repeat (split; [done|]). split; [|done]. rewrite <- M. apply since_refl.
Qed.

Lemma silent_turn kind m n tr c : memory_ok m -> pendingTargetEventID m = 0 -> scanning m n ->
  nextRunnableKindLocked m = (kind, true) ->
  triple (silent m n tr (standing c))
    (runTurn local sketchKey iter sketchText sampleText walkText activityText fault kind m)
    (fun a w => quietly a -> lessWork m n c tr w).
Proof.
  intros Mo Pe Sc Nk. eapply triple_bind; [apply silent_frames; [apply _|apply guarded_hasInbox, _]|].
  intros [[]|e]; [by intros d H [_ E]| |by intros d H [E _]].
  eapply triple_bind; [apply silent_frames; [apply _|apply guarded_looked, _]|]. intros now.
  assert (Kd : match kind with
    | UsageAggregationKindRollups => activeRound m = true
    | UsageAggregationKindIdentity => identityWorkPendingLocked m = true end).
  { unfold nextRunnableKindLocked in Nk.
    destruct (activeRound m), (identityWorkPendingLocked m), (nextKind m); injection Nk as <-; done. }
  destruct kind.
  - by apply silent_rollups.
  - rewrite Kd. cbn [negb]. by apply silent_since, silent_identity.
Qed.

(** The turn of Run, with its report in the trace. *)
Lemma silent_preparedOnce m n tr c : memory_ok m -> pendingTargetEventID m = 0 -> scanning m n ->
  hasRunnableWorkLocked m = true ->
  triple (silent m n tr (standing c))
    (runPreparedOnce local sketchKey iter sketchText sampleText walkText activityText fault)
    (fun a w => quietly a -> lessWork m n c (tr ++ [Turn m a.1 a.2]) w).
Proof.
  intros Mo Pe Sc Rn. eapply triple_bind.
  { apply (silent_lock id m n tr _ (standing c)). intros k I H M. unfold id. rewrite <- M, setMemory_same. done. }
  intros m0. eapply triple_fact with (F := m0 = m); [by intros w [E _]|]. intros ->.
  pose proof (runnable_iff m) as R. destruct (nextRunnableKindLocked m) as [kind runnable] eqn:Nk. cbn in R.
  rewrite R, Rn. eapply triple_bind.
  { eapply triple_pre; [apply (silent_turn kind m n tr c); try done; congruence|]. by intros w [_ H]. }
  intros a d H. unfold sql_bind, note, locked, sql_ret. cbn. intros Q. destruct (H Q) as (m' & c' & Si & Pe' & Sc' & Lt).
  exists m', c'. split; [|done]. destruct Si as (S & M & N & W & T & Ho). unfold silent. cbn. rewrite T.
  repeat (split; [done|]). done.
Qed.

(** *** The trace only grows *)

Definition noted (w : World) : Prop := polite' w /\ Exists disturbs (wTrace w).

Lemma noted_frames {A} (p : Sql World A) : Frames' p -> triple noted p (fun _ => noted).
Proof. intros F d [Po N]. destruct (F d Po) as (Po' & _ & T & _). unfold noted. by rewrite T. Qed.

Lemma noted_lock f : triple noted (lock_section f) (fun _ => noted).
Proof.
  eapply triple_of_preserves; [apply lock_spec|]. intros w m w' [Po N] L. destruct (L Po) as (Po' & T & _).
  unfold noted. by rewrite T.
Qed.

Lemma noted_note e : triple noted (note e) (fun _ => noted).
Proof. intros d [Po N]. split; [done|]. cbn. apply Exists_app. by left. Qed.

Lemma noted_turn :
  triple noted (runPreparedOnce local sketchKey iter sketchText sampleText walkText activityText fault)
    (fun _ => noted).
Proof.
  eapply triple_of_preserves; [apply preparedOnce_spec|]. intros w a w' [Po N] R.
  destruct (R Po) as (Po' & m & T & _). split; [done|]. rewrite T. apply Exists_app. by left.
Qed.

Lemma noted_wait delay : triple noted (waitForRetry delay) (fun _ => noted).
Proof.
  eapply triple_bind; [apply noted_note|]. intros u. eapply triple_bind; [apply noted_frames, _|]. by intros r d.
Qed.

Lemma noted_running fuel interval timer backoffs :
  triple noted (running' fuel interval timer backoffs) (fun _ => noted).
Proof.
  revert timer backoffs. induction fuel as [|fuel IH]; intros timer backoffs; cbn [running]; [by intros d|].
  assert (Wait : forall delay timer backoffs, triple noted
    (sql_bind (waitForRetry delay) (fun again => if negb again then sql_ret (Returned None)
       else running' fuel interval timer backoffs)) (fun _ => noted)).
  { intros delay t b. eapply triple_bind; [apply noted_wait|]. intros [|]; [apply IH|by intros d]. }
  assert (Freeze : forall b, triple noted (sql_bind (lock_section freezePendingTarget) (fun _ =>
    running' fuel interval false b)) (fun _ => noted)).
  { intros b. eapply triple_bind; [apply noted_lock|]. intros m. apply IH. }
  eapply triple_bind; [apply noted_frames, _|]. intros [|]; [by intros d|].
  eapply triple_bind; [apply noted_lock|]. intros m.
  eapply triple_bind with (Q := fun _ => noted); [destruct (_ && _); [apply noted_note|by intros d]|].
  intros u. eapply triple_bind; [apply noted_frames, _|]. intros pick.
  destruct (_ && Nat.odd pick); [apply Freeze|]. destruct (hasRunnableWorkLocked m).
  - eapply triple_bind; [apply noted_turn|]. intros [result [e|]].
    + eapply triple_bind with (Q := fun _ => noted); [apply noted_frames; unfold contextEnded; apply _|].
      intros [|]; [by intros d|]. eapply triple_bind; [apply noted_lock|]. intros m'. apply Wait.
    + destruct (rrDeferredForInbox result); [apply Wait|apply IH].
  - eapply triple_bind; [apply noted_frames, _|]. intros [[| |]|]; [by intros d|apply IH|apply Freeze|by intros d].
Qed.

(** *** The loop in silence *)

Lemma silent_blocked m n tr P :
  triple (silent m n tr P) (blocked false) (fun r w => r = Some CtxDone \/ r = None).
Proof.
  intros d (S & M & N & W & T & H). unfold blocked, script_length, sql_bind, locked. cbn. rewrite S.
  cbn [length await]. unfold sql_bind. rewrite interfere_silent by done. unfold choose, locked. cbv zeta.
  cbn [dbTables]. rewrite W. destruct (kCancelled _); cbn; by auto.
Qed.

Definition resting (fuel : nat) (w : World) : Prop := exists m n c tr,
  silent m n tr (standing c) w /\ pendingTargetEventID m = 0 /\ scanning m n /\
  rollupWork m c + identityWork m n < Z.of_nat fuel.

Lemma work_nonneg m n c : scanning m n -> 0 <= rollupWork m c + identityWork m n.
Proof.
  intros Sc. pose proof (identityWork_nonneg m n Sc). pose proof (distance_nonneg c (activeTargetEventID m)).
  unfold rollupWork. destruct (activeRound m); lia.
Qed.

Lemma triple_exists {T A B} (P : B -> T -> Prop) (p : Sql T A) Q :
  (forall b, triple (P b) p Q) -> triple (fun t => exists b, P b t) p Q.
Proof. intros H d [b Hb]. by apply (H b). Qed.

Lemma rest_running fuel interval backoffs :
  triple (resting fuel) (running' fuel interval false backoffs)
    (fun o w => o = OutOfFuel -> Exists disturbs (wTrace w)).
Proof.
  revert backoffs. induction fuel as [|fuel IH]; intros backoffs.
  { intros d (m & n & c & tr & _ & _ & Sc & Lt). pose proof (work_nonneg m n c Sc). lia. }
  cbn [running]. apply triple_exists; intros m. apply triple_exists; intros n.
  apply triple_exists; intros c. apply triple_exists; intros tr.
  apply (triple_fact (memory_ok m /\ pendingTargetEventID m = 0 /\ scanning m n /\
    rollupWork m c + identityWork m n < Z.of_nat (S fuel))).
  { intros w (Si & Pe & Sc & Lt). split_and!; try done; destruct Si as (_ & M & _ & _ & _ & _ & I & _);
      destruct I as (_ & _ & _ & _ & G & _); rewrite M in G; unfold memory_ok; lia. }
  intros (Mo & Pe & Sc & Lt). eapply triple_pre with (P := silent m n tr (standing c)); [|by intros w [? _]].
  eapply triple_bind; [apply silent_frames; [apply _|apply guarded_looked, _]|].
  intros [|]; [by intros d|]. eapply triple_bind.
  { apply (silent_lock id m n tr _ (standing c)). intros k I H M. unfold id. rewrite <- M, setMemory_same. done. }
  intros m0. eapply triple_fact with (F := m0 = m); [by intros w [E _]|]. intros ->.
  assert (Pw : pendingRollupWindow m = false) by (unfold pendingRollupWindow; by rewrite Pe).
  rewrite Pw. cbn [andb orb negb]. eapply triple_bind with (Q := fun _ => silent m n tr (standing c)).
  { by intros d [_ H]. }
  intros u. eapply triple_bind; [apply silent_frames; [apply _|apply guarded_interfere, _]|]. intros pick.
  destruct (hasRunnableWorkLocked m) eqn:Rn.
  - eapply triple_bind with (Q := fun a w => quietly a /\ resting fuel w \/ ~ quietly a /\ noted w).
    { intros d H. pose proof (silent_preparedOnce m n tr c Mo Pe Sc Rn d H) as Q.
      pose proof (preparedOnce_spec local sketchKey iter sketchText sampleText walkText activityText julianday
        fault d) as R.
      destruct H as (_ & _ & _ & _ & T & Po & _). destruct (R Po) as (Po' & m1 & T' & _).
      destruct (runPreparedOnce _ _ _ _ _ _ _ _ d) as [d' [result err]]. cbn [fst snd] in *.
      destruct err as [e|]; [right|destruct (rrDeferredForInbox result) eqn:De; [right|left]].
      - split; [by intros [E _]|]. split; [done|]. rewrite T'. apply Exists_app. right. by repeat left.
      - split; [intros [_ E]; cbn in E; congruence|]. split; [done|]. rewrite T'. apply Exists_app. right.
        left. by right.
      - assert (Qu : quietly (result, None)) by done. split; [done|].
        destruct (Q Qu) as (m' & c' & Si & Pe' & Sc' & L). exists m', n, c', (tr ++ [Turn m result None]).
        split_and!; try done. lia. }
    assert (Noted : forall (p : Sql World Outcome) (Q : World -> Prop), triple noted p (fun _ => noted) ->
      (forall w, Q w -> noted w) -> triple Q p (fun o w => o = OutOfFuel -> Exists disturbs (wTrace w))).
    { intros p Q H HQ d Hd. destruct (H d) as [_ E]; [by apply HQ|]. by intros _. }
    intros [result [e|]].
    + apply Noted; [|by intros w [[[E _] _]|[_ H]]]. eapply triple_bind with (Q := fun _ => noted);
        [apply noted_frames; unfold contextEnded; apply _|].
      intros [|]; [by intros d|]. eapply triple_bind; [apply noted_lock|]. intros m'.
      eapply triple_bind; [apply noted_wait|]. intros [|]; [apply noted_running|by intros d].
    + destruct (rrDeferredForInbox result) eqn:De.
      * apply Noted; [|by intros w [[[_ E] _]|[_ H]]; [cbn in E; congruence|]].
        eapply triple_bind; [apply noted_wait|]. intros [|]; [apply noted_running|by intros d].
      * eapply triple_pre; [apply IH|]. intros w [[_ H]|[Nq _]]; [done|]. by destruct Nq.
  - eapply triple_bind; [apply silent_blocked|]. intros r. apply (triple_fact (r = Some CtxDone \/ r = None)); [done|].
    by intros [->| ->] d.
Qed.

(** *** From the start *)

Lemma noted_startup fuel backoff : triple noted (startup fault isCtxErr fuel backoff) (fun _ => noted).
Proof.
  revert backoff. induction fuel as [|fuel IH]; intros backoff; cbn [startup]; [by intros d|].
  eapply triple_bind with (Q := fun _ => noted).
  { unfold ensureStartupTarget. eapply triple_bind; [apply noted_lock|]. intros m.
    destruct (startupTargetLoaded m); [by intros d|].
    eapply triple_try; [apply noted_frames, _| |done]. intros target.
    eapply triple_bind; [apply noted_lock|]. by intros m' d. }
  intros [u|e]; [by intros d|].
  eapply triple_bind with (Q := fun _ => noted); [apply noted_frames; unfold contextEnded; apply _|].
  intros [|]; [by intros d|]. eapply triple_bind; [apply noted_wait|]. intros [|]; [apply IH|by intros d].
Qed.

Lemma loadTarget_value m n tr P d target : silent m n tr P (dbTables d) ->
  (on_agg (LoadUsageAggregationTargetEventID fault) d).2 = Ok target ->
  target = storedMax (wKeeper (dbTables d)).
Proof.
  intros (S & _). unfold on_agg, sql_bind. rewrite interfere_silent by done. unfold zoom.
  pose proof (LoadTarget_spec fault (mkDb (kAgg (wKeeper (dbTables d))) (dbClock d))) as [_ T].
  destruct (LoadUsageAggregationTargetEventID fault _) as [d' r]. cbn [snd] in *. by intros ->.
Qed.

Lemma wait_noted delay : triple (fun w => polite' w) (waitForRetry delay) (fun _ => noted).
Proof.
  eapply triple_bind with (Q := fun _ => noted).
  - intros d Po. split; [done|]. cbn. apply Exists_app. right. by left.
  - intros u. eapply triple_bind; [apply noted_frames, _|]. by intros r d.
Qed.

(** The memory of a started runner that was just made. *)
Definition startedMemory (target : Z) : RunnerMemory := startupTarget target newMemory.

Lemma startedMemory_work target n : 0 <= target -> 0 < n ->
  pendingTargetEventID (startedMemory target) = 0 /\ scanning (startedMemory target) n /\
  rollupWork (startedMemory target) (fun _ => 0) + identityWork (startedMemory target) n <= 3 * target + n + 2.
Proof.
  intros T N. unfold startedMemory, startupTarget, scanning, rollupWork, identityWork, distance. cbn.
  destruct (0 <=? target); split_and!; done || lia.
Qed.

Lemma silent_startup n target fuel backoff : (0 < fuel)%nat -> 0 <= target -> 0 < n ->
  triple (fun w => silent newMemory n [] (fun _ => True) w /\ storedMax (wKeeper w) = target)
    (startup fault isCtxErr fuel backoff)
    (fun o w => noted w \/ match o with
       | None => silent (startedMemory target) n [] (standing (fun _ => 0)) w
       | Some o => o <> OutOfFuel end).
Proof.
  intros F T N. destruct fuel as [|fuel]; [lia|]. clear F. cbn [startup].
  eapply triple_bind with (Q := fun r w => match r with
    | Ok _ => silent (startedMemory target) n [] (standing (fun _ => 0)) w
    | Err _ => polite' w end).
  - unfold ensureStartupTarget. eapply triple_bind with
      (Q := fun m w => m = newMemory /\ (silent newMemory n [] (fun _ => True) w /\ storedMax (wKeeper w) = target)).
    { intros d [H E]. destruct (silent_lock id newMemory n [] (fun _ => True) (fun _ => True)) with (d := d) as [M Si].
      - intros k I _ M. unfold id. by rewrite <- M, setMemory_same.
      - exact H.
      - split; [done|]. split; [exact Si|]. destruct H as (S & _). unfold lock_section, sql_bind.
        rewrite interfere_silent by done. exact E. }
    intros m. apply (triple_fact (m = newMemory)); [by intros w [? _]|]. intros ->. cbn [newMemory startupTargetLoaded].
    eapply triple_try with (Q := fun r w => silent newMemory n [] (fun k => match r with
        | Ok t => startup_read t k | Err _ => True end) w /\ match r with Ok t => t = target | Err _ => True end).
    + intros d (_ & H & E).
      assert (G : triple (silent newMemory n [] (fun _ => True)) (on_agg (LoadUsageAggregationTargetEventID fault))
        (fun r => silent newMemory n [] (fun k => match r with Ok t => startup_read t k | Err _ => True end))).
      { apply silent_frames; [apply _|]. by apply guarded_loadTarget. }
      split; [by apply G|]. pose proof (loadTarget_value newMemory n [] (fun _ => True) d) as V.
      destruct (on_agg _ d).2 as [t|e]; [|done]. rewrite <- E. by apply V.
    + intros t. apply (triple_fact (t = target)); [by intros w [_ ?]|]. intros ->.
      eapply triple_bind with (Q := fun _ => silent (startedMemory target) n [] (standing (fun _ => 0))).
      * intros d [H _]. pose proof (silent_lock (startupTarget target) newMemory n []
          (fun k => startup_read target k) (standing (fun _ => 0))) as L. destruct (L) with (d := d) as [_ Si]; [|exact H|exact Si].
        intros k I R M. pose proof (inv_startup local sketchKey iter sketchText sampleText walkText activityText
          julianday k target I R) as [I' Sd]. rewrite M in I', Sd. split; [done|]. split; [done|].
        intros name. by apply (inv_cursor_nonneg local sketchKey iter sketchText sampleText walkText activityText julianday).
      * by intros u d.
    + intros e w [(_ & _ & _ & _ & _ & Po & _) _]. exact Po.
  - intros [u|e]; [by intros d H; right|]. eapply triple_bind with (Q := fun _ => polite').
    { assert (Fr : Frames' (contextEnded isCtxErr e)) by (unfold contextEnded; apply _).
      intros d Po. by destruct (Fr d Po). }
    intros [|]; [by intros d; right|]. eapply triple_bind; [apply wait_noted|]. intros [|].
    + eapply triple_weaken; [apply noted_startup|done|]. intros o w H. by left.
    + by intros d; left.
Qed.

Lemma rest_Run fuel interval n target : 0 <= target -> 0 < n -> 3 * target + n + 2 < Z.of_nat fuel ->
  triple (fun w => silent newMemory n [] (fun _ => True) w /\ storedMax (wKeeper w) = target)
    (Run local sketchKey iter sketchText sampleText walkText activityText fault isCtxErr fuel true true interval)
    (fun o w => o = OutOfFuel -> Exists disturbs (wTrace w)).
Proof.
  intros T N F. unfold Run. cbn [negb]. eapply triple_bind; [apply silent_startup; [lia|done|done]|].
  intros [o|].
  - intros d [[_ H]|H] E; [exact H|]. by destruct H.
  - intros d [H|H].
    + intros _. by apply (noted_running fuel interval false noBackoffs d H).
    + apply rest_running. destruct (startedMemory_work target n T N) as (P & Sc & W).
      exists (startedMemory target), n, (fun _ => 0), []. split_and!; try done. lia.
Qed.

End Rest.
