(* ===== verification/AggregationPromises.v ===== *)
(** What the aggregation runner promises, whatever the other goroutines do. *)
From S2P Require Import Prelude GoStrings GoTime Timeutil Entities ActivityGrain Uvarint Sketch SampleSet Inbox Sql Overview LatencyRows Aggregation AggregationFacts AggregationRuns OverviewTotals IdentityStats IdentitySync IdentityFacts AggregationRunner AggregationTurns AggregationRunnerFacts AggregationLoop AggregationFair AggregationRest.
From Stdlib Require Import Relation_Operators.

Local Open Scope string_scope.
Local Open Scope list_scope.
Local Open Scope Z_scope.

Section Promises.
Context (local : Location) (sketchKey : Z -> Z) (iter : SampleSet -> list SamplePoint).
Context (sketchText : SketchError -> string) (sampleText : SampleError -> string)
  (walkText : WalkError -> string) (activityText : ActivityError -> string).
Context (julianday : string -> option Z) (fault : nat -> option string) (isCtxErr : string -> bool).

Abbreviation run := (agg_run local sketchKey iter sketchText sampleText walkText activityText).
Abbreviation reaches := (identity_reaches local julianday).
Abbreviation polite' := (polite local sketchKey iter sketchText sampleText walkText activityText julianday).
Abbreviation Run' := (Run local sketchKey iter sketchText sampleText walkText activityText fault isCtxErr).
Abbreviation RunOnce' := (RunOnce local sketchKey iter sketchText sampleText walkText activityText fault).

(** A world with a runner that was just made, for tables filled by runs. *)
Definition fresh (w : World) : Prop :=
  exists agg rows nextID inbox now,
    wKeeper w = NewUsageAggregationRunner agg rows nextID inbox now /\ wTrace w = [] /\
    run agg_empty agg /\ reaches identities_empty (mkIdentityTables (agEvents agg) rows nextID).

Lemma fresh_holds w : fresh w -> polite' w ->
  holds local sketchKey iter sketchText sampleText walkText activityText julianday (fun _ => True) w.
Proof.
  intros (agg & rows & nextID & inbox & now & E & _ & R & I) Po. split; [done|]. split; [|done].
  rewrite E. by apply inv_new.
Qed.

Lemma guarded_RunOnce runner database :
  guarded local sketchKey iter sketchText sampleText walkText activityText julianday (fun _ => True)
    (RunOnce' runner database) (fun _ _ => True).
Proof.
  unfold RunOnce. destruct runner; [|by apply guarded_ret]. destruct database; [|by apply guarded_ret].
  eapply guarded_bind; [apply guarded_startup|]. intros [u|e]; [|by apply guarded_ret].
  eapply guarded_bind; [apply guarded_freeze|]. intros m.
  eapply guarded_bind; [by eapply guarded_post; [apply guarded_preparedOnce|]|]. intros answer. by apply guarded_ret.
Qed.

(** C5: however the goroutines interleave and whatever fails, the runner only takes
    the tables along runs of page applications and identity pages, the runs under
    which every event is counted exactly once. *)
Theorem runner_refines_runs (fuel : nat) (runner database : bool) (interval : Duration) (w : World)
    (clock : nat) :
  fresh w -> polite' w ->
  let after := wKeeper (dbTables (Run' fuel runner database interval (mkDb w clock)).1) in
  let afterOnce := wKeeper (dbTables (RunOnce' runner database (mkDb w clock)).1) in
  run agg_empty (kAgg after) /\ reaches identities_empty (kIdentity after) /\
  run agg_empty (kAgg afterOnce) /\ reaches identities_empty (kIdentity afterOnce).
Proof.
  intros Fr Po. pose proof (fresh_holds w Fr Po) as H.
  destruct (guarded_Run local sketchKey iter sketchText sampleText walkText activityText julianday fault isCtxErr
    fuel runner database interval (mkDb w clock) H) as (_ & ([R I] & _) & _).
  destruct (guarded_RunOnce runner database (mkDb w clock) H) as (_ & ([R' I'] & _) & _).
  by split_and!.
Qed.

(** C4: no notification is lost.  When the runner has gone to sleep without a timer,
    then for every notification that was ever delivered the three rollups have
    passed its events, and every identity that was stored by then has counted all
    its events that were. *)
Theorem asleep_means_caught_up (fuel : nat) (interval : Duration) (w : World) (clock : nat) :
  fresh w -> polite' w ->
  (Run' fuel true true interval (mkDb w clock)).2 = Asleep ->
  let k := wKeeper (dbTables (Run' fuel true true interval (mkDb w clock)).1) in
  Forall (fun n =>
    (forall name, ncTarget n <= cursor_of (kAgg k) name) /\
    (forall id r e, kRows k !! id = Some r -> id < ncRows n -> e ∈ agEvents (kAgg k) ->
       evID e <= ncEvents n -> is_event_of r e = true ->
       evID e <= itLastAggregatedUsageEventID (uiTotals r)))
    (kNotices k).
Proof.
  intros Fr Po E k. pose proof (fresh_holds w Fr Po) as H.
  destruct (guarded_Run local sketchKey iter sketchText sampleText walkText activityText julianday fault isCtxErr
    fuel true true interval (mkDb w clock) H) as (_ & I & En).
  destruct (En E) as [Id Sd]. eapply Forall_impl; [by eapply caught_up|].
  intros n [B S]. split; [exact B|]. intros id r e L Lt He Le Hi. by eapply (S id r L Lt (or_introl eq_refl)).
Qed.

(** C31: the runner is fair.  A turn that has both rollups and identities to choose
    from takes the kind the turn before it did not have, unless that one was put
    off for the inbox; failures change nothing about it. *)
Theorem turns_alternate (fuel : nat) (runner database : bool) (interval : Duration) (w : World) (clock : nat)
    (before after : list RunnerEvent) (m : RunnerMemory) (result : UsageAggregationRunResult)
    (err : option string) (kind : UsageAggregationKind) :
  polite' w -> wTrace w = [] ->
  wTrace (dbTables (Run' fuel runner database interval (mkDb w clock)).1)
    = before ++ Turn m result err :: after ->
  lastOf before = Some kind -> activeRound m = true -> identityWorkPendingLocked m = true ->
  rrKind result = other kind.
Proof.
  intros Po T E L Ac Id.
  assert (F : fairWorld local sketchKey iter sketchText sampleText walkText activityText julianday w).
  { split; [done|]. rewrite T. split; [|done]. intros b m' r e a Eb. by destruct b. }
  pose proof (fair_Run local sketchKey iter sketchText sampleText walkText activityText julianday fault isCtxErr
    fuel runner database interval (mkDb w clock) F) as Fa. by apply (Fa before m result err after E kind).
Qed.

(** The runner comes to rest.  When nobody else acts, it is still busy after
    three turns per stored event key and one per identity key only if some turn
    failed or was put off for the inbox, or reading the startup target failed. *)
Theorem comes_to_rest (fuel : nat) (interval : Duration) (w : World) (clock : nat) :
  fresh w -> wScript w = [] ->
  3 * storedMax (wKeeper w) + kNextID (wKeeper w) + 2 < Z.of_nat fuel ->
  (Run' fuel true true interval (mkDb w clock)).2 = OutOfFuel ->
  Exists disturbs (wTrace (dbTables (Run' fuel true true interval (mkDb w clock)).1)).
Proof.
  intros Fr S F E. assert (Po : polite' w) by (unfold polite; by rewrite S).
  pose proof (fresh_holds w Fr Po) as H. destruct Fr as (agg & rows & nextID & inbox & now & K & T & R & I).
  assert (N : 0 < kNextID (wKeeper w)).
  { rewrite K. by apply (identity_reaches_ok _ _ _ _ I identities_empty_ok). }
  apply (rest_Run local sketchKey iter sketchText sampleText walkText activityText julianday fault isCtxErr
    fuel interval (kNextID (wKeeper w)) (storedMax (wKeeper w)) (storedMax_nonneg _) N F (mkDb w clock)); [|exact E].
  split; [|done]. split; [done|]. split; [cbn; by rewrite K|]. split; [done|].
  split; [cbn; by rewrite K|]. by split.
Qed.

End Promises.

(** *** A runner at work: an event is committed and announced while it sleeps *)

Definition demo_texts {A} : A -> string := fun _ => EmptyString.
Abbreviation demo_polite := (polite UTC (fun z => z) demo_iter demo_texts demo_texts demo_texts demo_texts (fun _ => None)).
Abbreviation demo_step := (outside_step UTC (fun z => z) demo_iter demo_texts demo_texts demo_texts demo_texts (fun _ => None)).
Abbreviation demo_Run := (Run UTC (fun z => z) demo_iter demo_texts demo_texts demo_texts demo_texts).

(** Event 2 is stored behind event 1, and then announced. *)
Definition demo_commit (k : Keeper) : Keeper :=
  if decide (map evID (agEvents (kAgg k)) = [1]) then
    mkKeeper (insertEvents [demo_use 2 7] (kAgg k)) (kRows k) (kNextID k) (kInbox k) (kMemory k) (kWake k)
      (kCancelled k) (kNow k) (kNotices k)
  else k.

Definition demo_announce (k : Keeper) : Keeper :=
  if (identityTargetGeneration (kMemory k) <? uint64_max) && (2 <=? storedMax k)
  then NotifyUsageEventsCommitted [demo_use 2 7] k else k.

Definition demo_script : list Moment :=
  replicate 40 (mkMoment id 0) ++ [mkMoment demo_commit 0; mkMoment demo_announce 0] ++ replicate 3 (mkMoment id 1).

Definition demo_start : World :=
  mkWorld (NewUsageAggregationRunner (insertEvents [demo_use 1 5] agg_empty) (idRows demo_synced) 3
    (mkInboxTable ∅ 1) (1709164900 * Second)) demo_script [].

Definition no_faults (n : nat) : option string := None.

Abbreviation demo_busy fault := (demo_Run fault (fun _ => false) 60 true true (5 * Second) (mkDb demo_start 0)).

Lemma demo_second (l : list UsageEvent) : map evID l = [1] -> events_ok (l ++ [demo_use 2 7]).
Proof.
  destruct l as [|e [|? ?]]; try done. intros [= E].
  split; repeat constructor; unfold by_id; cbn; lia.
Qed.

Lemma demo_commit_step k : rtc demo_step k (demo_commit k).
Proof.
  unfold demo_commit. destruct (decide _) as [E|]; [|constructor]. apply rtc_once.
  apply (others_write _ _ _ _ _ _ _ _ k (insertEvents [demo_use 2 7] (kAgg k))).
  - apply run_insert; [constructor|by apply demo_second].
  - apply (rt1n_trans _ _ _ (mkIdentityTables (agEvents (kAgg k) ++ [demo_use 2 7]) (kRows k) (kNextID k)));
      [|apply rt1n_refl]. apply (identity_insert_events _ _ (kIdentity k)). by apply demo_second.
Qed.

Lemma demo_announce_step k : rtc demo_step k (demo_announce k).
Proof.
  unfold demo_announce. destruct (_ && _) eqn:E; [|constructor]. bool_split. apply rtc_once.
  apply others_committed; [done|exact H0].
Qed.

Lemma demo_start_polite : demo_polite demo_start.
Proof.
  unfold polite. cbn [demo_start wScript]. unfold demo_script. apply Forall_app. split.
  - apply Forall_replicate. intros k. apply rtc_refl.
  - constructor; [exact demo_commit_step|]. constructor; [exact demo_announce_step|].
    apply Forall_replicate. intros k. apply rtc_refl.
Qed.

Lemma demo_start_fresh :
  fresh UTC (fun z => z) demo_iter demo_texts demo_texts demo_texts demo_texts (fun _ => None) demo_start.
Proof.
  exists (insertEvents [demo_use 1 5] agg_empty), (idRows demo_synced), 3, (mkInboxTable ∅ 1), (1709164900 * Second).
  split; [done|]. split; [done|]. split.
  - apply run_insert; [constructor|]. split; repeat constructor.
  - apply (rt1n_trans _ _ _ demo_synced).
    { apply (identity_sync UTC (fun _ => None) (fun _ => None) _ _ _ (mkDb identities_empty 0)).
      by repeat constructor. }
    eapply rt1n_trans; [|apply rt1n_refl].
    apply (identity_insert_events UTC (fun _ => None) demo_synced [demo_use 1 5]).
    split; repeat constructor.
Qed.

Lemma runner_refines_runs_witness :
  let k := wKeeper (dbTables (demo_busy no_faults).1) in
  agg_run UTC (fun z => z) demo_iter demo_texts demo_texts demo_texts demo_texts agg_empty (kAgg k) /\
  map evID (agEvents (kAgg k)) = [1; 2] /\ cursor_of (kAgg k) ActivityCheckpoint = 2.
Proof.
  pose proof (runner_refines_runs UTC (fun z => z) demo_iter demo_texts demo_texts demo_texts demo_texts
    (fun _ => None) no_faults (fun _ => false) 60 true true (5 * Second) demo_start 0
    demo_start_fresh demo_start_polite) as (R & _).
  split; [exact R|]. split; vm_compute; reflexivity.
Defined.

Lemma asleep_means_caught_up_witness :
  let k := wKeeper (dbTables (demo_busy no_faults).1) in
  map ncTarget (kNotices k) = [1; 2] /\ 2 <= cursor_of (kAgg k) LatencyCheckpoint.
Proof.
  assert (N : map ncTarget (kNotices (wKeeper (dbTables (demo_busy no_faults).1))) = [1; 2])
    by (vm_compute; reflexivity).
  split; [exact N|].
  pose proof (asleep_means_caught_up UTC (fun z => z) demo_iter demo_texts demo_texts demo_texts demo_texts
    (fun _ => None) no_faults (fun _ => false) 60 (5 * Second) demo_start 0 demo_start_fresh demo_start_polite) as A.
  assert (E : (demo_busy no_faults).2 = Asleep) by (vm_compute; reflexivity).
  specialize (A E). cbv zeta in A.
  destruct (kNotices _) as [|n1 [|n2 [|]]]; try discriminate N. injection N as _ N2.
  apply Forall_cons in A as [_ A]. apply Forall_cons in A as [[B _] _]. rewrite <- N2. apply B.
Defined.

(** The fourth statement fails: the rollups of event 1 are tried again later. *)
Definition demo_locked (n : nat) : option string := if (n =? 3)%nat then Some "database is locked" else None.

Definition turn_of (e : option RunnerEvent) : RunnerMemory * UsageAggregationRunResult * option string :=
  match e with
  | Some (Turn m r err) => (m, r, err)
  | _ => (newMemory, mkRunResult UsageAggregationKindRollups false false, None)
  end.

Lemma turns_alternate_witness :
  let trace := wTrace (dbTables (demo_busy demo_locked).1) in
  (turn_of (trace !! 0%nat)).2 <> None /\
  rrKind (turn_of (trace !! 3%nat)).1.2 = UsageAggregationKindIdentity.
Proof.
  intros trace. split; [vm_compute; discriminate|].
  refine (turns_alternate UTC (fun z => z) demo_iter demo_texts demo_texts demo_texts demo_texts (fun _ => None)
    demo_locked (fun _ => false) 60 true true (5 * Second) demo_start 0
    (take 3 trace) (drop 4 trace) (turn_of (trace !! 3%nat)).1.1 _ (turn_of (trace !! 3%nat)).2
    UsageAggregationKindRollups demo_start_polite eq_refl _ _ _ _); vm_compute; reflexivity.
Defined.

Definition demo_silent : World := mkWorld (wKeeper demo_start) [] [].

(** Every statement fails. *)
Lemma comes_to_rest_witness :
  Exists disturbs (wTrace (dbTables (demo_Run (fun _ => Some "database is locked") (fun _ => false) 9 true true
    (5 * Second) (mkDb demo_silent 0)).1)).
Proof.
  apply (comes_to_rest UTC (fun z => z) demo_iter demo_texts demo_texts demo_texts demo_texts (fun _ => None)
    (fun _ => Some "database is locked") (fun _ => false) 9 (5 * Second) demo_silent 0).
  - destruct demo_start_fresh as (agg & rows & nextID & inbox & now & E & _ & R).
    by exists agg, rows, nextID, inbox, now.
  - reflexivity.
  - vm_compute. reflexivity.
  - vm_compute. reflexivity.
Defined.

(** And with no failure it does come to rest. *)
Example demo_rests :
  (demo_Run no_faults (fun _ => false) 9 true true (5 * Second) (mkDb demo_silent 0)).2 = Asleep.
Proof. vm_compute. reflexivity. Qed.
