(* ===== verification/LoginLimiter.v ===== *)
(** Package auth, login_limiter.go: fixed windows of login attempts, one per
    source and one for all of them.  [now] is the reading of the limiter's clock,
    [walk] the order in which a range over the map visits the sources. *)
From S2P Require Import Prelude GoStrings GoTime Timeutil.

Local Open Scope string_scope.
Local Open Scope list_scope.
Local Open Scope Z_scope.

Definition defaultLoginAttemptWindow : Duration := Minute.
Definition defaultLoginAttemptPerSourceLimit : Z := 5.
Definition defaultLoginAttemptGlobalLimit : Z := 60.
Definition defaultLoginAttemptMaxSources : Z := 4096.

Record loginAttemptWindow := mkWindow {
  lwStartedAt : Time;
  lwLastSeen : Time;
  lwAttempts : Z;
}.

Definition zeroWindow : loginAttemptWindow := mkWindow zero_time zero_time 0.

Record LoginAttemptLimiter := mkLimiter {
  llWindow : Duration;
  llPerSourceLimit : Z;
  llGlobalLimit : Z;
  llMaxSources : Z;
  llSources : gmap string loginAttemptWindow;
  llGlobal : loginAttemptWindow;
}.

Record LoginAttemptLimiterOptions := mkLimiterOptions {
  loWindow : Duration;
  loPerSourceLimit : Z;
  loGlobalLimit : Z;
  loMaxSources : Z;
}.

Definition positiveOr (value default : Z) : Z := if value <=? 0 then default else value.

Definition NewLoginAttemptLimiter (options : LoginAttemptLimiterOptions) : LoginAttemptLimiter :=
  mkLimiter (positiveOr (loWindow options) defaultLoginAttemptWindow)
    (positiveOr (loPerSourceLimit options) defaultLoginAttemptPerSourceLimit)
    (positiveOr (loGlobalLimit options) defaultLoginAttemptGlobalLimit)
    (positiveOr (loMaxSources options) defaultLoginAttemptMaxSources) ∅ zeroWindow.

Definition withSources (sources : gmap string loginAttemptWindow) (l : LoginAttemptLimiter)
    : LoginAttemptLimiter :=
  mkLimiter (llWindow l) (llPerSourceLimit l) (llGlobalLimit l) (llMaxSources l) sources (llGlobal l).

Definition withGlobal (global : loginAttemptWindow) (l : LoginAttemptLimiter) : LoginAttemptLimiter :=
  mkLimiter (llWindow l) (llPerSourceLimit l) (llGlobalLimit l) (llMaxSources l) (llSources l) global.

Section Limiter.
Context (walk : gmap string loginAttemptWindow -> list (string * loginAttemptWindow)).

Definition retryAfter (now startedAt : Time) (window : Duration) : Duration :=
  let retry := time_sub (startedAt + window) now in
  if retry <=? 0 then Second else retry.

Definition resetGlobalWindowLocked (now : Time) (l : LoginAttemptLimiter) : LoginAttemptLimiter :=
  if IsZero (lwStartedAt (llGlobal l)) || (llWindow l <=? time_sub now (lwStartedAt (llGlobal l)))
  then withGlobal (mkWindow now now 0) l else l.

Definition removeExpiredSourcesLocked (now : Time) (l : LoginAttemptLimiter) : LoginAttemptLimiter :=
  withSources (filter (fun p => time_sub now (lwStartedAt p.2) < llWindow l) (llSources l)) l.

(** The source seen longest ago, the first one visited among equals; the empty
    source means that there is none yet. *)
Definition oldest (best : string * Time) (p : string * loginAttemptWindow) : string * Time :=
  if (best.1 =?s EmptyString) || (lwLastSeen p.2 <? best.2) then (p.1, lwLastSeen p.2) else best.

Definition makeSourceCapacityLocked (l : LoginAttemptLimiter) : LoginAttemptLimiter :=
  if Z.of_nat (size (llSources l)) <? llMaxSources l then l
  else withSources (delete (foldl oldest (EmptyString, zero_time) (walk (llSources l))).1 (llSources l)) l.

Definition knownSource (source : string) : string :=
  if source =?s EmptyString then "unknown" else source.

(** The part of Allow between Lock and Unlock. *)
Definition allow (source : string) (now : Time) (l : LoginAttemptLimiter)
    : LoginAttemptLimiter * (bool * Duration) :=
  let l := resetGlobalWindowLocked now l in
  let l := removeExpiredSourcesLocked now l in
  if llGlobalLimit l <=? lwAttempts (llGlobal l)
  then (l, (false, retryAfter now (lwStartedAt (llGlobal l)) (llWindow l)))
  else
    let '(l, state) :=
      match llSources l !! source with
      | Some state => (l, state)
      | None => (makeSourceCapacityLocked l, mkWindow now zero_time 0)
      end in
    if llPerSourceLimit l <=? lwAttempts state
    then (withSources (<[source := mkWindow (lwStartedAt state) now (lwAttempts state)]> (llSources l)) l,
          (false, retryAfter now (lwStartedAt state) (llWindow l)))
    else
      let l := withSources (<[source := mkWindow (lwStartedAt state) now (lwAttempts state + 1)]> (llSources l)) l in
      (withGlobal (mkWindow (lwStartedAt (llGlobal l)) now (lwAttempts (llGlobal l) + 1)) l, (true, 0)).

(** A nil limiter allows everything. *)
Definition Allow (source : string) (now : Time) (l : option LoginAttemptLimiter)
    : option LoginAttemptLimiter * (bool * Duration) :=
  match l with
  | None => (None, (true, 0))
  | Some l => let '(l, answer) := allow (knownSource source) now l in (Some l, answer)
  end.

Definition Reset (source : string) (l : option LoginAttemptLimiter) : option LoginAttemptLimiter :=
  match l with
  | None => None
  | Some l => Some (if source =?s EmptyString then l else withSources (delete source (llSources l)) l)
  end.

(** *** Calls in the order of the mutex *)

Inductive LimiterCall :=
| CallAllow (source : string) (now : Time)
| CallReset (source : string).

(** What Allow answered, with its source and time. *)
Record Attempt := mkAttempt {
  atSource : string;
  atTime : Time;
  atAllowed : bool;
  atRetry : Duration;
}.

Definition call (c : LimiterCall) (l : option LoginAttemptLimiter)
    : option LoginAttemptLimiter * list Attempt :=
  match c with
  | CallAllow source now =>
      let '(l, answer) := Allow source now l in (l, [mkAttempt (knownSource source) now answer.1 answer.2])
  | CallReset source => (Reset source l, [])
  end.

Fixpoint calls (cs : list LimiterCall) (l : option LoginAttemptLimiter)
    : option LoginAttemptLimiter * list Attempt :=
  match cs with
  | [] => (l, [])
  | c :: cs =>
      let '(l, answers) := call c l in
      let '(l, rest) := calls cs l in (l, answers ++ rest)
  end.

End Limiter.

(** The login limiter bounds the attempts of every stretch of time as long as its
    window, and its memory.

    [counted] is the argument both windows share: a window that started at [s] holds
    the attempts [cur], those before it are [old]. *)

Local Open Scope string_scope.
Local Open Scope list_scope.
Local Open Scope Z_scope.

(** ** Counting times *)

Definition since (t : Z) (h : list Z) : list Z := filter (fun x => t <= x) h.
Definition within (t w : Z) (h : list Z) : list Z := filter (fun x => t <= x < t + w) h.
Definition count (h : list Z) : Z := Z.of_nat (length h).

Lemma count_app (h k : list Z) : count (h ++ k) = count h + count k.
Proof. unfold count. rewrite length_app. lia. Qed.

Lemma count_cons (x : Z) (h : list Z) : count (x :: h) = count h + 1.
Proof. unfold count. cbn [length]. lia. Qed.

Lemma count_within_since t w h : count (within t w h) <= count (since t h).
Proof.
  unfold within, since. induction h as [|x h IH]; [done|].
  rewrite !filter_cons. repeat case_decide; rewrite ?count_cons; lia.
Qed.

Lemma count_since t h : count (since t h) <= count h.
Proof.
  unfold since. induction h as [|x h IH]; [done|].
  rewrite filter_cons. case_decide; rewrite ?count_cons; lia.
Qed.

Lemma within_none t w h : Forall (fun x => t + w <= x) h -> within t w h = [].
Proof.
  unfold within. induction 1 as [|x h H _ IH]; [done|]. rewrite filter_cons, IH. case_decide; [lia|done].
Qed.

Lemma since_none t h : Forall (fun x => x < t) h -> since t h = [].
Proof.
  unfold since. induction 1 as [|x h H _ IH]; [done|]. rewrite filter_cons, IH. case_decide; [lia|done].
Qed.

Record counted (w limit s : Z) (cur old : list Z) : Prop := {
  counted_cur : Forall (fun x => s <= x) cur;
  counted_limit : count cur <= limit;
  counted_old : Forall (fun x => x <= s) old;
  counted_within : forall t, count (within t w old) <= 2 * limit;
  counted_since : forall t, s < t + w -> count (since t old) <= limit;
}.

Lemma counted_empty w limit s : 0 <= limit -> counted w limit s [] [].
Proof. intros H. split; intros; try constructor; cbn; unfold count; cbn; lia. Qed.

Lemma counted_add w limit s cur old now :
  counted w limit s cur old -> s <= now -> count cur < limit -> counted w limit s (now :: cur) old.
Proof. intros [C L O W S] Hs Hl. split; try done; [by constructor|]. rewrite count_cons. lia. Qed.

Lemma counted_bound w limit s cur old t :
  counted w limit s cur old -> count (within t w (cur ++ old)) <= 2 * limit.
Proof.
  intros [C L O W S]. unfold within. rewrite filter_app, count_app.
  destruct (Z.lt_ge_cases s (t + w)) as [Hlt|Hge].
  - pose proof (S t Hlt). pose proof (count_within_since t w old). pose proof (count_within_since t w cur).
    pose proof (count_since t cur). unfold within in *. lia.
  - pose proof (W t). change (filter _ cur) with (within t w cur). rewrite (within_none t w cur).
    + unfold within in *. unfold count at 1. cbn. lia.
    + eapply Forall_impl; [exact C|]. intros x Hx. cbn in *. lia.
Qed.

(** A window that begins a whole window later. *)
Lemma counted_restart w limit s cur old now :
  counted w limit s cur old -> 0 <= w -> s + w <= now -> Forall (fun x => x <= now) cur ->
  counted w limit now [] (cur ++ old).
Proof.
  intros H Hw Hn Hc. pose proof H as [C L O W S]. split.
  - constructor.
  - pose proof (W 0). unfold count in *. cbn in *. lia.
  - apply Forall_app. split; [done|]. eapply Forall_impl; [exact O|]. intros x Hx. cbn in *. lia.
  - intros t. by apply (counted_bound w limit s).
  - intros t Ht. unfold since. rewrite filter_app, count_app. change (filter _ old) with (since t old).
    rewrite (since_none t old).
    + pose proof (count_since t cur). unfold since, count in *. cbn [length]. lia.
    + eapply Forall_impl; [exact O|]. intros x Hx. cbn in *. lia.
Qed.

Lemma counted_permute w limit s cur old h t :
  counted w limit s cur old -> h ≡ₚ cur ++ old -> count (within t w h) <= 2 * limit.
Proof.
  intros H P. pose proof (counted_bound w limit s cur old t H). unfold within, count in *.
  by rewrite P.
Qed.

(** ** The limiter *)

Lemma time_sub_ge (w now s : Z) : 0 < w <= int64_max -> (w <=? time_sub now s) = (s + w <=? now).
Proof.
  unfold time_sub. unfold64. intros H. apply Bool.eq_iff_eq_true. rewrite !Z.leb_le. lia.
Qed.

Definition allowedBy (hist : list Attempt) : list Z :=
  map atTime (filter (fun a => atAllowed a = true) hist).
Definition allowedOf (source : string) (hist : list Attempt) : list Z :=
  map atTime (filter (fun a => atAllowed a = true /\ atSource a = source) hist).

Lemma allowedBy_app h k : allowedBy (h ++ k) = allowedBy h ++ allowedBy k.
Proof. unfold allowedBy. by rewrite filter_app, map_app. Qed.

Lemma allowedOf_app s h k : allowedOf s (h ++ k) = allowedOf s h ++ allowedOf s k.
Proof. unfold allowedOf. by rewrite filter_app, map_app. Qed.

Lemma allowedBy_refused s now r : allowedBy [mkAttempt s now false r] = [].
Proof. done. Qed.

Lemma allowedOf_one s s' now ok r :
  allowedOf s [mkAttempt s' now ok r] = if ok && (s' =?s s) then [now] else [].
Proof.
  unfold allowedOf. rewrite filter_cons, filter_nil. cbn [atAllowed atSource].
  destruct ok; cbn [andb]; [|by rewrite decide_False by (intros [? ?]; done)].
  destruct (String.eqb_spec s' s) as [->|Hn]; [by rewrite decide_True|].
  by rewrite decide_False by (intros [_ ?]; done).
Qed.

Section Allow.
Context (walk : gmap string loginAttemptWindow -> list (string * loginAttemptWindow)).
Hypothesis walk_all : forall m, walk m ≡ₚ map_to_list m.
Context (W LS LG MX : Z).

Definition limits (l : LoginAttemptLimiter) : Prop :=
  llWindow l = W /\ llPerSourceLimit l = LS /\ llGlobalLimit l = LG /\ llMaxSources l = MX.

Hypothesis W_ok : 0 < W <= int64_max.
Hypothesis LS_ok : 0 < LS.
Hypothesis LG_ok : 0 < LG.
Hypothesis MX_ok : 0 < MX.

Definition global_inv (T : Z) (l : LoginAttemptLimiter) (h : list Z) : Prop :=
  exists cur old, let s := lwStartedAt (llGlobal l) in
    counted W LG s cur old /\ h ≡ₚ cur ++ old /\ Forall (fun x => x <= T) cur /\ s <= T /\
    lwAttempts (llGlobal l) = count cur /\ (s = zero_time -> cur ++ old = []).

Definition source_inv (T : Z) (w : option loginAttemptWindow) (h : list Z) : Prop :=
  exists s cur old, counted W LS s cur old /\ h ≡ₚ cur ++ old /\ Forall (fun x => x <= T) cur /\ s <= T /\
    match w with
    | Some w => lwStartedAt w = s /\ lwAttempts w = count cur
    | None => cur ++ old = [] \/ s + W <= T
    end.

Lemma upto_weaken T T' (h : list Z) : T <= T' -> Forall (fun x => x <= T) h -> Forall (fun x => x <= T') h.
Proof. intros H F. eapply Forall_impl; [exact F|]. intros x Hx. cbn in *. lia. Qed.

Lemma source_inv_later T T' w h : source_inv T w h -> T <= T' -> source_inv T' w h.
Proof.
  intros (s & cur & old & C & P & F & S & M) H. exists s, cur, old.
  split; [done|]. split; [done|]. split; [by eapply upto_weaken|]. split; [lia|].
  destruct w; [done|]. destruct M; [by left|right; lia].
Qed.

(** A window of the source that begins now. *)
Lemma source_inv_open T now h : source_inv T None h -> T <= now ->
  source_inv now (Some (mkWindow now zero_time 0)) h.
Proof.
  intros (s & cur & old & C & P & F & S & M) H. exists now, [], (cur ++ old).
  split; [|by split_and!; [|constructor|lia|..]].
  destruct M as [M|M].
  - rewrite M. apply counted_empty. lia.
  - apply (counted_restart W LS s); [done|lia|lia|by eapply upto_weaken].
Qed.

Lemma source_inv_add T w h : source_inv T (Some w) h -> lwAttempts w < LS ->
  source_inv T (Some (mkWindow (lwStartedAt w) T (lwAttempts w + 1))) (h ++ [T]).
Proof.
  intros (s & cur & old & C & P & F & S & E & A) H. exists s, (T :: cur), old. cbn [lwStartedAt lwAttempts].
  split; [apply counted_add; [done|lia|lia]|].
  split; [by rewrite P, Permutation_app_comm|]. split; [constructor; [lia|done]|].
  rewrite count_cons. lia.
Qed.

Lemma source_inv_seen T w h seen : source_inv T (Some w) h ->
  source_inv T (Some (mkWindow (lwStartedAt w) seen (lwAttempts w))) h.
Proof. done. Qed.

(** A source whose window has passed is forgotten. *)
Lemma source_inv_expire T w h : source_inv T (Some w) h -> lwStartedAt w + W <= T -> source_inv T None h.
Proof.
  intros (s & cur & old & C & P & F & S & E & A) H. exists s, cur, old. subst s. split_and!; try done. by right.
Qed.

Lemma reset_global T now l h : limits l -> global_inv T l h -> T <= now -> zero_time < now ->
  let l' := resetGlobalWindowLocked now l in
  global_inv now l' h /\ limits l' /\ llSources l' = llSources l /\
  now < lwStartedAt (llGlobal l') + W /\ lwStartedAt (llGlobal l') <> zero_time.
Proof.
  intros (EW & ES & EG & EM) (cur & old & C & P & F & S & A & Zr) H Hz. cbv zeta in *. unfold resetGlobalWindowLocked, IsZero.
  rewrite EW, time_sub_ge by done. destruct (_ || _) eqn:E.
  - cbn [llGlobal llSources withGlobal lwStartedAt lwAttempts limits]. split; [|split_and!; [done..|lia|lia]].
    exists [], (cur ++ old). split; [|split_and!; [done|constructor|reflexivity..|cbn; lia]].
    apply orb_true_iff in E as [E|E]; bool_split.
    + rewrite (Zr E). apply counted_empty. lia.
    + apply (counted_restart W LG (lwStartedAt (llGlobal l)) cur old now C); [lia|lia|by apply (upto_weaken T)].
  - bool_split. split; [|by split_and!; [..|lia|]]. exists cur, old. split_and!; try done; [by apply (upto_weaken T)|lia].
Qed.

Lemma expire_lookup T now l source h : limits l -> source_inv T (llSources l !! source) h -> T <= now ->
  source_inv now (llSources (removeExpiredSourcesLocked now l) !! source) h.
Proof.
  intros (EW & _) I H. cbn [removeExpiredSourcesLocked llSources withSources]. rewrite map_lookup_filter, EW.
  apply (source_inv_later T now) in I; [|done]. destruct (llSources l !! source) as [w|]; [|done]. cbn.
  pose proof (time_sub_ge W now (lwStartedAt w) W_ok) as E. case_guard as G; cbn; [done|].
  apply source_inv_expire with w; [done|]. apply Z.nlt_ge in G. apply Z.leb_le in G. rewrite E in G. lia.
Qed.

Lemma expire_size now l : (size (llSources (removeExpiredSourcesLocked now l)) <= size (llSources l))%nat.
Proof. apply map_subseteq_size, map_filter_subseteq. Qed.

(** *** Room for a new source *)

Lemma oldest_visited l best : (foldl oldest best l).1 = best.1 \/ (foldl oldest best l).1 ∈ l.*1.
Proof.
  revert best. induction l as [|p l IH]; intros best; [by left|]. cbn [foldl fmap list_fmap].
  destruct (IH (oldest best p)) as [E|E]; [|by right; constructor].
  rewrite E. unfold oldest. destruct (_ || _); [right; constructor|by left].
Qed.

Lemma oldest_found m : m <> ∅ -> is_Some (m !! (foldl oldest (EmptyString, zero_time) (walk m)).1).
Proof.
  intros Hm. destruct (walk m) as [|p l] eqn:E.
  - pose proof (walk_all m) as P. rewrite E in P. apply Permutation_nil_l in P. by symmetry in P; apply map_to_list_empty_iff in P.
  - rewrite <- E. assert (In : (foldl oldest (EmptyString, zero_time) (walk m)).1 ∈ (walk m).*1).
    { rewrite E. cbn [foldl fmap list_fmap]. replace (oldest _ p) with (p.1, lwLastSeen p.2) by done.
      destruct (oldest_visited l (p.1, lwLastSeen p.2)) as [->|?]; by constructor. }
    revert In. generalize (foldl oldest (EmptyString, zero_time) (walk m)).1. intros key In.
    rewrite walk_all in In. apply list_elem_of_fmap in In as ([k w] & -> & In).
    apply elem_of_map_to_list in In. by exists w.
Qed.

Lemma capacity_size l : limits l -> Z.of_nat (size (llSources l)) <= MX ->
  Z.of_nat (size (llSources (makeSourceCapacityLocked walk l))) < MX.
Proof.
  intros (_ & _ & _ & EM) H. unfold makeSourceCapacityLocked. rewrite EM. destruct (_ <? _) eqn:E; bool_split; [done|].
  cbn [llSources withSources]. assert (Ne : llSources l <> ∅).
  { intros Em. rewrite Em, map_size_empty in *. lia. }
  rewrite map_size_delete_Some by (by apply oldest_found). pose proof (map_size_non_empty_iff (llSources l)).
  assert (size (llSources l) <> 0%nat) by (by apply map_size_non_empty_iff). lia.
Qed.

Lemma insert_size {A} (m : gmap string A) k (a : A) :
  (size (<[k := a]> m) <= if decide (is_Some (m !! k)) then size m else S (size m))%nat.
Proof. case_decide; [rewrite map_size_insert_Some by done|rewrite map_size_insert_None by (by apply eq_None_not_Some)]; lia. Qed.

(** *** One call *)

(** What Allow does between the removal of what has expired and its answer. *)
Definition admitted_state (source : string) (now : Time) (l : LoginAttemptLimiter)
    : LoginAttemptLimiter * loginAttemptWindow :=
  match llSources l !! source with
  | Some state => (l, state)
  | None => (makeSourceCapacityLocked walk l, mkWindow now zero_time 0)
  end.

Definition prepared (now : Time) (l : LoginAttemptLimiter) : LoginAttemptLimiter :=
  removeExpiredSourcesLocked now (resetGlobalWindowLocked now l).

Lemma allow_global T source now l h : limits l -> global_inv T l h ->
  Z.of_nat (size (llSources l)) <= MX -> T <= now -> zero_time < now ->
  let '(l', (ok, retry)) := allow walk source now l in
  limits l' /\ global_inv now l' (h ++ if ok then [now] else []) /\ Z.of_nat (size (llSources l')) <= MX.
Proof.
  intros L G Sz H Hz. unfold allow.
  destruct (reset_global T now l h L G H Hz) as (G1 & L1 & E1 & _).
  pose proof (expire_size now (resetGlobalWindowLocked now l)) as X. rewrite E1 in X.
  change (removeExpiredSourcesLocked now (resetGlobalWindowLocked now l)) with (prepared now l) in *.
  assert (L2 : limits (prepared now l)) by exact L1.
  assert (G2 : global_inv now (prepared now l) h) by exact G1. clear G1 L1 E1. set (l2 := prepared now l) in *.
  assert (X2 : Z.of_nat (size (llSources l2)) <= MX) by lia. clear X. pose proof L2 as (_ & ES & EG & _).
  rewrite EG. destruct (_ <=? lwAttempts (llGlobal l2)) eqn:E; [rewrite app_nil_r; done|bool_split].
  assert (K : exists l3 state, admitted_state source now l2 = (l3, state) /\ limits l3 /\ llGlobal l3 = llGlobal l2 /\
    Z.of_nat (size (llSources l3)) + (if decide (is_Some (llSources l3 !! source)) then 0 else 1) <= MX).
  { unfold admitted_state. destruct (llSources l2 !! source) as [state|] eqn:Es.
    - exists l2, state. rewrite decide_True by done. split_and!; try done. lia.
    - eexists _, _. split; [done|]. pose proof (capacity_size l2 L2 X2) as Cp. split; [|split].
      + unfold makeSourceCapacityLocked. by case_match.
      + unfold makeSourceCapacityLocked. by case_match.
      + case_decide; lia. }
  destruct K as (l3 & state & EK & L3 & E3 & Z3). unfold admitted_state in EK. rewrite EK.
  destruct L3 as (EW3 & ES3 & EG3 & EM3). rewrite ES3.
  assert (Z4 : forall w, Z.of_nat (size (<[source := w]> (llSources l3))) <= MX).
  { intros w. pose proof (insert_size (llSources l3) source w). repeat case_decide; lia. }
  destruct (LS <=? lwAttempts state).
  - rewrite app_nil_r. split; [done|]. split; [|apply Z4]. unfold global_inv. cbn [withSources llGlobal]. by rewrite E3.
  - split; [done|]. split; [|apply Z4]. destruct G2 as (cur & old & C & P & F & S & A & Zr). rewrite <- E3 in *.
    exists (now :: cur), old. cbn [withGlobal withSources llGlobal lwStartedAt lwAttempts] in *.
    split; [apply counted_add; [done|lia|lia]|]. split; [by rewrite P, Permutation_app_comm|].
    split; [constructor; [lia|done]|]. split; [done|]. rewrite count_cons. split; [lia|].
    intros Z0. pose proof (reset_global T now l h L G H Hz) as (_ & _ & _ & _ & N). rewrite E3 in Z0. done.
Qed.

(** The sources of [D] all fit: nobody is put out for a new one. *)
Definition sources_inv (D : gset string) (T : Z) (l : LoginAttemptLimiter) (hist : list Attempt) : Prop :=
  dom (llSources l) ⊆ D /\
  forall source, source ∈ D -> source_inv T (llSources l !! source) (allowedOf source hist).

Lemma allow_sources D T source now l hist : limits l -> sources_inv D T l hist ->
  Z.of_nat (size D) <= MX -> source ∈ D -> T <= now -> zero_time < now ->
  let '(l', (ok, retry)) := allow walk source now l in
  sources_inv D now l' (hist ++ [mkAttempt source now ok retry]).
Proof.
  intros L [Sub I] Sz Hin H Hz. unfold allow.
  change (removeExpiredSourcesLocked now (resetGlobalWindowLocked now l)) with (prepared now l).
  assert (I2 : forall s, s ∈ D -> source_inv now (llSources (prepared now l) !! s) (allowedOf s hist)).
  { intros s Hs. apply (expire_lookup T); [|unfold resetGlobalWindowLocked; case_match; by apply I|done].
    unfold resetGlobalWindowLocked. by case_match. }
  assert (Sub2 : dom (llSources (prepared now l)) ⊆ D).
  { unfold prepared. cbn [removeExpiredSourcesLocked llSources withSources].
    etransitivity; [apply dom_filter_subseteq|]. unfold resetGlobalWindowLocked. by case_match. }
  assert (L2 : limits (prepared now l)).
  { unfold prepared, resetGlobalWindowLocked. by case_match. }
  set (l2 := prepared now l) in *. pose proof L2 as (_ & ES & _ & EM).
  assert (Keep : forall l' r, dom (llSources l') ⊆ D ->
    (forall s, s ∈ D -> source_inv now (llSources l' !! s) (allowedOf s hist)) ->
    sources_inv D now l' (hist ++ [mkAttempt source now false r])).
  { intros l' r S' K'. split; [done|]. intros s Hs. rewrite allowedOf_app, allowedOf_one. cbn. rewrite app_nil_r. by apply K'. }
  destruct (llGlobalLimit l2 <=? _); [by apply Keep|].
  assert (K : exists state, admitted_state source now l2 = (l2, state) /\
    source_inv now (Some state) (allowedOf source hist)).
  { unfold admitted_state. pose proof (I2 source Hin) as Is. destruct (llSources l2 !! source) as [state|] eqn:Es.
    - by exists state.
    - exists (mkWindow now zero_time 0). split; [|by apply (source_inv_open now)].
      unfold makeSourceCapacityLocked. rewrite EM.
      assert (size (dom (llSources l2)) < size D)%nat.
      { apply subset_size. split; [done|]. intros Sup. apply not_elem_of_dom in Es. by apply Es, Sup. }
      rewrite size_dom in *. by rewrite (proj2 (Z.ltb_lt _ _)) by lia. }
  destruct K as (state & EK & Is). unfold admitted_state in EK. rewrite EK, ES.
  assert (Sub3 : forall w, dom (<[source := w]> (llSources l2)) ⊆ D).
  { intros w. rewrite dom_insert. set_solver. }
  destruct (LS <=? lwAttempts state) eqn:E.
  - apply Keep; [apply Sub3|]. intros s Hs. cbn [llSources withSources].
    destruct (decide (source = s)) as [<-|Ne]; [by rewrite lookup_insert_eq|].
    rewrite lookup_insert_ne by done. by apply I2.
  - bool_split. split; [apply Sub3|]. intros s Hs. cbn [llSources withSources withGlobal].
    rewrite allowedOf_app, allowedOf_one. cbn [andb].
    destruct (String.eqb_spec source s) as [<-|Ne].
    + rewrite lookup_insert_eq. by apply source_inv_add.
    + rewrite lookup_insert_ne by done. rewrite app_nil_r. by apply I2.
Qed.
End Allow.

(** ** Sequences of calls *)

Definition timesOf (cs : list LimiterCall) : list Z :=
  omap (fun c => match c with CallAllow _ now => Some now | CallReset _ => None end) cs.
Definition sourcesOf (cs : list LimiterCall) : gset string :=
  list_to_set (omap (fun c => match c with CallAllow s _ => Some (knownSource s) | CallReset _ => None end) cs).

Section Calls.
Context (walk : gmap string loginAttemptWindow -> list (string * loginAttemptWindow)).
Hypothesis walk_all : forall m, walk m ≡ₚ map_to_list m.
Context (W LS LG MX : Z).
Hypothesis W_ok : 0 < W <= int64_max.
Hypothesis LS_ok : 0 < LS.
Hypothesis LG_ok : 0 < LG.
Hypothesis MX_ok : 0 < MX.

Lemma calls_global cs T l hist :
  limits W LS LG MX l -> global_inv W LG T l (allowedBy hist) -> Z.of_nat (size (llSources l)) <= MX ->
  StronglySorted Z.le (T :: timesOf cs) -> Forall (fun t => zero_time < t) (timesOf cs) ->
  exists l' h' T', calls walk cs (Some l) = (Some l', h') /\ limits W LS LG MX l' /\
    global_inv W LG T' l' (allowedBy (hist ++ h')) /\ Z.of_nat (size (llSources l')) <= MX.
Proof.
  revert T l hist. induction cs as [|[source now|source] cs IH]; intros T l hist L G Sz So Fo.
  - exists l, [], T. by rewrite app_nil_r.
  - cbn [timesOf omap list_omap] in *. apply StronglySorted_inv in So as [So Le].
    apply Forall_cons in Le as [Le _]. apply Forall_cons in Fo as [Lz Fo].
    pose proof (allow_global walk walk_all W LS LG MX W_ok LG_ok MX_ok T (knownSource source) now l
      (allowedBy hist) L G Sz Le Lz) as A.
    cbn [calls call Allow]. destruct (allow _ _ _ l) as [l1 [ok r]].  destruct A as (L1 & G1 & S1).
    assert (G2 : global_inv W LG now l1 (allowedBy (hist ++ [mkAttempt (knownSource source) now ok r]))).
    { rewrite allowedBy_app. by destruct ok. }
    destruct (IH now l1 _ L1 G2 S1 So Fo) as (l' & h' & T' & E & H'). cbn [fst snd]. rewrite E.
    eexists _, _, T'. split; [done|]. by rewrite <- app_assoc in H'.
  - cbn [calls call Reset]. change (timesOf (CallReset source :: cs)) with (timesOf cs) in *.
    assert (R : exists l1, Some (if source =?s EmptyString then l else withSources (delete source (llSources l)) l) = Some l1 /\
      limits W LS LG MX l1 /\ llGlobal l1 = llGlobal l /\ (size (llSources l1) <= size (llSources l))%nat).
    { eexists. split; [done|]. destruct (_ =?s _); [done|]. split_and!; try apply L; [done|].
      apply map_subseteq_size, delete_subseteq. }
    destruct R as (l1 & -> & L1 & E1 & S1).
    destruct (IH T l1 hist L1) as (l' & h' & T' & E & H'); try done.
    + unfold global_inv. by rewrite E1.
    + lia.
    + rewrite E. by exists l', h', T'.
Qed.

Lemma calls_sources D cs T l hist :
  limits W LS LG MX l -> sources_inv W LS D T l hist -> Z.of_nat (size D) <= MX -> sourcesOf cs ⊆ D ->
  Forall (fun c => match c with CallReset _ => False | _ => True end) cs ->
  StronglySorted Z.le (T :: timesOf cs) -> Forall (fun t => zero_time < t) (timesOf cs) ->
  exists T' l', sources_inv W LS D T' l' (hist ++ (calls walk cs (Some l)).2).
Proof.
  intros L I SD Sub NR So Fo. revert T l hist L I Sub So Fo.
  induction cs as [|[source now|source] cs IH]; intros T l hist L I Sub So Fo.
  - exists T, l. cbn. by rewrite app_nil_r.
  - cbn [timesOf omap list_omap] in *. apply StronglySorted_inv in So as [So Le].
    apply Forall_cons in Le as [Le _]. apply Forall_cons in Fo as [Lz Fo]. apply Forall_cons in NR as [_ NR].
    assert (Hin : knownSource source ∈ D) by (apply Sub; unfold sourcesOf; cbn; set_solver).
    pose proof (allow_sources walk walk_all W LS LG MX W_ok LS_ok LG_ok MX_ok D T (knownSource source) now l hist
      L I SD Hin Le Lz) as A.
    assert (L1 : limits W LS LG MX (allow walk (knownSource source) now l).1).
    { unfold allow, makeSourceCapacityLocked, resetGlobalWindowLocked. repeat case_match; by simplify_eq. }
    cbn [calls call Allow]. destruct (allow _ _ _ l) as [l1 [ok r]].
    destruct (IH NR now l1 _ L1 A) as (T' & l' & H'); [unfold sourcesOf in *; cbn in *; set_solver|done|done|].
    exists T', l'. destruct (calls walk cs (Some l1)). by rewrite <- app_assoc in H'.
  - by apply Forall_cons in NR as [[] _].
Qed.
End Calls.

(** ** What the limiter promises *)

Lemma new_limits options : let l := NewLoginAttemptLimiter options in
  limits (llWindow l) (llPerSourceLimit l) (llGlobalLimit l) (llMaxSources l) l /\
  0 < llWindow l /\ 0 < llPerSourceLimit l /\ 0 < llGlobalLimit l /\ 0 < llMaxSources l.
Proof.
  unfold NewLoginAttemptLimiter, positiveOr, defaultLoginAttemptWindow, defaultLoginAttemptPerSourceLimit,
    defaultLoginAttemptGlobalLimit, defaultLoginAttemptMaxSources, Minute, Second. cbn.
  split; [done|]. repeat case_match; bool_split; lia.
Qed.

Lemma new_global W LG T options : 0 <= LG -> zero_time <= T ->
  global_inv W LG T (NewLoginAttemptLimiter options) [].
Proof.
  intros HL HT. exists [], []. split_and!; try done. by apply counted_empty.
Qed.

Lemma calls_sources_known walk cs l : Forall (fun a => atSource a ∈ sourcesOf cs) (calls walk cs l).2.
Proof.
  revert l. induction cs as [|c cs IH]; intros l; cbn [calls]; [constructor|].
  destruct (call walk c l) as [l1 ans] eqn:Ec. pose proof (IH l1) as I. destruct (calls walk cs l1) as [l2 rest].
  cbn [snd] in *. apply Forall_app. split.
  - destruct c as [src now|src]; cbn [call] in Ec; [|injection Ec as <- <-; constructor].
    destruct (Allow walk src now l) as [l3 ok]. injection Ec as <- <-. repeat constructor.
    cbn [atSource]. unfold sourcesOf. cbn. set_solver.
  - eapply Forall_impl; [exact I|]. intros x. unfold sourcesOf. destruct c; cbn; set_solver.
Qed.


Definition demo_calls : list LimiterCall :=
  map (fun k => CallAllow "10.0.0.1" (k * Second)) [1; 2; 3; 4; 5; 6; 7] ++ [CallAllow "" (8 * Second)].


(** ** After a refusal *)

Definition globalFull (now : Time) (l : LoginAttemptLimiter) : bool :=
  llGlobalLimit l <=? lwAttempts (llGlobal (prepared now l)).

Lemma reset_cases now l :
  resetGlobalWindowLocked now l = l \/ resetGlobalWindowLocked now l = withGlobal (mkWindow now now 0) l.
Proof. unfold resetGlobalWindowLocked. destruct (_ || _); [by right|by left]. Qed.

(** Who waits as long as he was told is not refused again by the same limit. *)
Lemma refusal_passes walk (source : string) (now now' : Time) (l l' : LoginAttemptLimiter) (r : Duration) :
  0 < llWindow l <= int64_max -> 0 < llGlobalLimit l -> 0 < llPerSourceLimit l ->
  lwStartedAt (llGlobal l) <= now ->
  (forall w, llSources l !! source = Some w -> lwStartedAt w <= now) ->
  allow walk source now l = (l', (false, r)) -> now + r <= now' ->
  0 < r /\ (if globalFull now l then globalFull now' l' = false
            else llSources (prepared now' l') !! source = None).
Proof.
  intros HW HG HS Hg Hs E Hn.
  assert (R : forall s, s <= now -> 0 < retryAfter now s (llWindow l) /\
    (now + retryAfter now s (llWindow l) <= now' -> s + llWindow l <= now')).
  { intros s Le. unfold retryAfter, time_sub, Second. unfold64. case_match; bool_split; lia. }
  unfold allow in E. change (removeExpiredSourcesLocked now (resetGlobalWindowLocked now l)) with (prepared now l) in E.
  assert (Sm : llWindow (prepared now l) = llWindow l /\ llGlobalLimit (prepared now l) = llGlobalLimit l /\
    llPerSourceLimit (prepared now l) = llPerSourceLimit l).
  { unfold prepared. by destruct (reset_cases now l) as [->| ->]. }
  destruct Sm as (E1 & E2 & E3). unfold globalFull. rewrite E1, E2 in E.
  destruct (llGlobalLimit l <=? _) eqn:Ef.
  - injection E as <- <-. destruct (R (lwStartedAt (llGlobal (prepared now l)))) as [R1 R2].
    { unfold prepared. destruct (reset_cases now l) as [->| ->]; [done|cbn; lia]. }
    split; [done|]. rewrite E2. unfold prepared at 1, resetGlobalWindowLocked at 1.
    rewrite E1, time_sub_ge, (proj2 (Z.leb_le _ _) (R2 Hn)), orb_true_r by done. cbn. by apply Z.leb_gt.
  - match type of E with (let '(_, _) := ?m in _) = _ => destruct m as [l2 state] eqn:Em end.
    assert (L2 : llWindow l2 = llWindow l /\ llPerSourceLimit l2 = llPerSourceLimit l).
    { clear E. destruct (_ !! source) in Em; [by simplify_eq|]. unfold makeSourceCapacityLocked in Em.
      destruct (_ <? _) in Em; by simplify_eq. }
    destruct L2 as [E4 E5]. rewrite E4, E5 in E. destruct (_ <=? lwAttempts state); [|done]. injection E as <- <-.
    destruct (R (lwStartedAt state)) as [R1 R2].
    { destruct (_ !! source) as [w|] eqn:El in Em; injection Em as _ <-; [|cbn; lia]. apply Hs.
      revert El. unfold prepared.
      destruct (reset_cases now l) as [->| ->]; cbn; intros El; by apply map_lookup_filter_Some in El as [El _]. }
    split; [done|]. unfold prepared at 1.
    cbn [removeExpiredSourcesLocked llSources withSources]. apply map_lookup_filter_None. right. intros w.
    set (l3 := withSources _ l2).
    assert (Er : llSources (resetGlobalWindowLocked now' l3) = llSources l3 /\
      llWindow (resetGlobalWindowLocked now' l3) = llWindow l)
      by (destruct (reset_cases now' l3) as [->| ->]; cbn; split; congruence).
    destruct Er as [-> ->]. subst l3. cbn [llSources withSources]. rewrite lookup_insert_eq. intros [= <-]. cbn.
    apply Z.nlt_ge. apply Z.leb_le. rewrite time_sub_ge by done. apply Z.leb_le. by apply R2.
Qed.
