(* ===== verification/Session.v ===== *)
(** Package auth, session.go: the session manager and its store.

    The state holds the maps of the manager, the rows of auth_sessions (none for a
    manager without a store), how often the clock was read, and the log of what
    was issued and revoked, which is for the theorems only.  Each definition that
    runs between Lock and Unlock is one [Sql] program; a panic is an [Err], and
    keeps what was done before it.  Statements fail as [fault] says, also with
    the error of a store without a database. *)
From S2P Require Import Prelude GoStrings GoTime Timeutil TimeutilFacts GoCrypto Sql.
From stdpp Require Import sorting.

Local Open Scope string_scope.
Local Open Scope list_scope.
Local Open Scope Z_scope.

(** ** Data *)

Definition RoleAdmin : string := "admin".
Definition RoleAPIKeyViewer : string := "api_key_viewer".
Definition SessionSourceStandard : string := "standard".
Definition SessionSourceEmbed : string := "embed".

Definition NormalizeSessionSource (source : string) : string :=
  if source =?s SessionSourceEmbed then SessionSourceEmbed else SessionSourceStandard.

Record Session := mkSession {
  seRole : string;
  seSource : string;
  seAlias : string;
  seCPAAPIKeyID : Z;
  seLoginIP : string;
  seLastSeenIP : string;
  seUserAgent : string;
  seLastSeenAt : Time;
  seExpiresAt : Time;
  seCreatedAt : Time;
}.

(** SessionRecord: the hash in front of the fields of a session. *)
Record SessionRecord := mkSessionRecord {
  srTokenHash : string;
  srSession : Session;
}.

Record SessionClientMetadata := mkClientMetadata {
  cmIP : string;
  cmUserAgent : string;
}.

(** A row of auth_sessions, keyed by its token_hash; times are texts. *)
Record AuthSession := mkAuthSession {
  auRole : string;
  auSource : string;
  auAlias : string;
  auCPAAPIKeyID : Z;
  auLoginIP : string;
  auLastSeenIP : string;
  auUserAgent : string;
  auLastSeenAt : option string;
  auExpiresAt : string;
  auCreatedAt : option string;
  auUpdatedAt : option string;
}.

Record sessionActivityUpdate := mkActivityUpdate {
  suToken : string;
  suLastSeenIP : string;
  suLastSeenAt : Time;
}.

Definition sessionTokenHash (token : string) : string := EncodeToString (Sha256.Sum256 token).

(** [buf] is what rand.Read filled or its error. *)
Definition generateToken (buf : result string (list Z)) : result string string :=
  let? bytes := buf in Ok (EncodeToString bytes).

Definition normalizeSessionIP (value : string) : string :=
  let value := TrimSpace value in if 64 <? len value then EmptyString else value.

Definition normalizeSessionClientMetadata (metadata : SessionClientMetadata) : SessionClientMetadata :=
  mkClientMetadata (normalizeSessionIP (cmIP metadata)) (cmUserAgent metadata).

Definition sessionTimePointer (value : Time) : option Time := if IsZero value then None else Some value.

Definition sessionActivityWriteInterval : Duration := Minute.

(** Issued, and revoked by token, by hash or by role. *)
Inductive SessionEvent :=
| Issued (token : string) (session : Session)
| RevokedToken (token : string)
| RevokedHash (tokenHash : string)
| RevokedRole (role : string).

Record Sessions := mkSessions {
  smSessions : gmap string Session;
  smPendingActivity : gmap string sessionActivityUpdate;
  smActivityWriterRunning : bool;
  smStore : option (gmap string AuthSession);
  smReadings : nat;
  smLog : list SessionEvent;
}.

Definition setSessions (m : gmap string Session) (s : Sessions) : Sessions :=
  mkSessions m (smPendingActivity s) (smActivityWriterRunning s) (smStore s) (smReadings s) (smLog s).
Definition setPending (m : gmap string sessionActivityUpdate) (running : bool) (s : Sessions) : Sessions :=
  mkSessions (smSessions s) m running (smStore s) (smReadings s) (smLog s).
Definition setRows (rows : gmap string AuthSession) (s : Sessions) : Sessions :=
  mkSessions (smSessions s) (smPendingActivity s) (smActivityWriterRunning s) ((fun _ => rows) <$> smStore s)
    (smReadings s) (smLog s).
Definition logged (e : SessionEvent) (s : Sessions) : Sessions :=
  mkSessions (smSessions s) (smPendingActivity s) (smActivityWriterRunning s) (smStore s)
    (smReadings s) (smLog s ++ [e]).
Definition readOnce (s : Sessions) : Sessions :=
  mkSessions (smSessions s) (smPendingActivity s) (smActivityWriterRunning s) (smStore s)
    (S (smReadings s)) (smLog s).

Definition NewSessionManager : Sessions := mkSessions ∅ ∅ false None 0 [].
Definition NewPersistentSessionManager (rows : gmap string AuthSession) : Sessions :=
  mkSessions ∅ ∅ false (Some rows) 0 [].

Definition hasStore (s : Sessions) : bool := match smStore s with Some _ => true | None => false end.
Definition rows_of (s : Sessions) : gmap string AuthSession := default ∅ (smStore s).

Section Manager.
Context (local : Location) (quote : string -> string) (ttl : Duration) (now : nat -> Time).
Context (fault : nat -> option string).
(** The orders in which a range visits the maps. *)
Context (walk : gmap string Session -> list (string * Session))
        (walkActivity : gmap string sessionActivityUpdate -> list (string * sessionActivityUpdate)).

Abbreviation M A := (Sql Sessions A).
Abbreviation Failing A := (Sql Sessions (result string A)).
Local Open Scope sql_scope.

(** m.now(). *)
Definition clock : M Time := locked (fun s => (readOnce s, now (smReadings s))).
Definition peek {A} (f : Sessions -> A) : M A := locked (fun s => (s, f s)).
Definition change (f : Sessions -> Sessions) : M unit := locked (fun s => (f s, tt)).

(** A statement on the rows. *)
Definition on_rows {A} (f : gmap string AuthSession -> gmap string AuthSession * A) : Failing A :=
  statement fault (fun s => let '(rows, a) := f (rows_of s) in (setRows rows s, a)).

(** ** GormSessionStore *)

Definition storageText (t : Time) : option string := db_text (StorageTimeSerializer_Value local (FieldTime t)).
Definition storagePtrText (t : option Time) : option string :=
  db_text (StorageTimeSerializer_Value local (FieldTimePtr t)).

(** The upsert of gorm replaces every column but created_at. *)
Definition upserted (row : AuthSession) (old : option AuthSession) : AuthSession :=
  match old with
  | None => row
  | Some old =>
      mkAuthSession (auRole row) (auSource row) (auAlias row) (auCPAAPIKeyID row) (auLoginIP row)
        (auLastSeenIP row) (auUserAgent row) (auLastSeenAt row) (auExpiresAt row) (auCreatedAt old)
        (auUpdatedAt row)
  end.

Definition savedRow (session : Session) (expiresAt : string) : AuthSession :=
  mkAuthSession (seRole session) (NormalizeSessionSource (seSource session)) (seAlias session)
    (seCPAAPIKeyID session) (seLoginIP session) (seLastSeenIP session) (seUserAgent session)
    (storagePtrText (sessionTimePointer (seLastSeenAt session))) expiresAt
    (storageText (seCreatedAt session)) (storageText (seCreatedAt session)).

(** A zero ExpiresAt is NULL, which the column refuses. *)
Definition Save (token : string) (session : Session) : Failing unit :=
  let hash := sessionTokenHash token in
  match storageText (seExpiresAt session) with
  | None =>
      try$ _ := on_rows (fun rows => (rows, tt)) in
      sql_ret (Err "NOT NULL constraint failed: auth_sessions.expires_at")
  | Some expiresAt =>
      on_rows (fun rows => (<[hash := upserted (savedRow session expiresAt) (rows !! hash)]> rows, tt))
  end.

Definition store_UpdateAdminAliasByTokenHash (tokenHash alias : string) (updatedAt : Time) : Failing Z :=
  on_rows (fun rows =>
    match rows !! tokenHash with
    | Some r =>
        if auRole r =?s RoleAdmin then
          (<[tokenHash := mkAuthSession (auRole r) (auSource r) alias (auCPAAPIKeyID r) (auLoginIP r)
               (auLastSeenIP r) (auUserAgent r) (auLastSeenAt r) (auExpiresAt r) (auCreatedAt r)
               (Some (FormatStorageTime local updatedAt))]> rows, 1)
        else (rows, 0)
    | None => (rows, 0)
    end).

Definition UpdateActivity (token lastSeenIP : string) (lastSeenAt : Time) : Failing unit :=
  let text := Some (FormatStorageTime local lastSeenAt) in
  on_rows (fun rows =>
    (alter (fun r => mkAuthSession (auRole r) (auSource r) (auAlias r) (auCPAAPIKeyID r) (auLoginIP r)
               lastSeenIP (auUserAgent r) text (auExpiresAt r) (auCreatedAt r) text)
       (sessionTokenHash token) rows, tt)).

Definition scannedTime (text : option string) : result string (option Time) :=
  StorageTimeSerializer_Scan local quote (text_value text).

(** A NULL leaves the zero time. *)
Definition authSessionFromRow (row : AuthSession) : result string Session :=
  let? lastSeen := scannedTime (auLastSeenAt row) in
  let? expires := scannedTime (Some (auExpiresAt row)) in
  let? created := scannedTime (auCreatedAt row) in
  let createdAt := default zero_time created in
  let expiresAt := default zero_time expires in
  let source := NormalizeSessionSource (auSource row) in
  let lastSeenAt := match lastSeen with
                    | Some t => if IsZero t then createdAt else t
                    | None => createdAt
                    end in
  if auRole row =?s RoleAdmin then
    Ok (mkSession RoleAdmin source (auAlias row) 0 (auLoginIP row) (auLastSeenIP row) (auUserAgent row)
          lastSeenAt expiresAt createdAt)
  else if auRole row =?s RoleAPIKeyViewer then
    Ok (mkSession RoleAPIKeyViewer source EmptyString (auCPAAPIKeyID row) (auLoginIP row) (auLastSeenIP row)
          (auUserAgent row) lastSeenAt expiresAt createdAt)
  else Err (String.append "unknown auth session role " (quote (auRole row))).

Definition authSessionRecordFromRow (tokenHash : string) (row : AuthSession) : result string SessionRecord :=
  let? session := authSessionFromRow row in Ok (mkSessionRecord tokenHash session).

Definition store_Get (token : string) : Failing (option Session) :=
  try$ row := on_rows (fun rows => (rows, rows !! sessionTokenHash token)) in
  sql_ret (match row with
           | None => Ok None
           | Some row => let? session := authSessionFromRow row in Ok (Some session)
           end).

(** ORDER BY created_at asc, token_hash asc; NULL comes first. *)
Definition row_not_after (p q : string * AuthSession) : bool :=
  match auCreatedAt p.2, auCreatedAt q.2 with
  | None, Some _ => true
  | Some _, None => false
  | None, None => negb (string_lt q.1 p.1)
  | Some a, Some b => string_lt a b || (negb (string_lt b a) && negb (string_lt q.1 p.1))
  end.

Definition rowOrder (p q : string * AuthSession) : Prop := row_not_after p q = true.
#[local] Instance rowOrder_dec : RelDecision rowOrder := fun p q => decide (row_not_after p q = true).

Fixpoint recordsOf (rows : list (string * AuthSession)) : result string (list SessionRecord) :=
  match rows with
  | [] => Ok []
  | (hash, row) :: rest =>
      let? record := authSessionRecordFromRow hash row in
      let? records := recordsOf rest in
      Ok (record :: records)
  end.

Definition store_List (at_ : Time) : Failing (list SessionRecord) :=
  try$ rows := on_rows (fun rows =>
    (rows, merge_sort rowOrder
             (map_to_list (filter (fun p => string_lt (FormatStorageTime local at_) (auExpiresAt p.2) = true) rows)))) in
  sql_ret (recordsOf rows).

Definition store_Delete (token : string) : Failing unit :=
  on_rows (fun rows => (delete (sessionTokenHash token) rows, tt)).

Definition store_DeleteByTokenHash (tokenHash : string) : Failing Z :=
  on_rows (fun rows => (delete tokenHash rows, if rows !! tokenHash then 1 else 0)).

Definition store_DeleteByRole (role : string) : Failing Z :=
  on_rows (fun rows =>
    let kept := filter (fun p => auRole p.2 <> role) rows in
    (kept, Z.of_nat (size rows) - Z.of_nat (size kept))).

(** The texts are compared. *)
Definition DeleteExpired (at_ : Time) : Failing unit :=
  on_rows (fun rows =>
    (filter (fun p => string_lt (FormatStorageTime local at_) (auExpiresAt p.2) = true) rows, tt)).

(** ** SessionManager *)

Definition live (session : Session) (at_ : Time) : bool := at_ <? seExpiresAt session.

(** The statement of a manager with a store; [panics] is the text in front. *)
Definition stored {A} (panics : string) (m : Failing A) (none : A) : Failing A :=
  let$ has := peek hasStore in
  if has : bool then wrap panics m else sql_ret (Ok none).

Definition cleanupExpiredLocked : Failing unit :=
  let$ t := clock in
  let$ _ := change (fun s => setSessions (filter (fun p => live p.2 t = true) (smSessions s)) s) in
  stored "delete expired auth sessions: " (DeleteExpired t) tt.

Definition CleanupExpired : Failing unit := cleanupExpiredLocked.

(** create: the outer result is the panic, the inner one the returned error. *)
Definition create (generated : result string string) (session : Session) (metadata : SessionClientMetadata)
    : Failing (result string (string * Time)) :=
  match generated with
  | Err e => sql_ret (Ok (Err e))
  | Ok token =>
      try$ _ := cleanupExpiredLocked in
      let$ t := clock in
      let expiresAt := t + ttl in
      let metadata := normalizeSessionClientMetadata metadata in
      let session := mkSession (seRole session) (NormalizeSessionSource (seSource session)) (seAlias session)
                       (seCPAAPIKeyID session) (cmIP metadata) (cmIP metadata) (cmUserAgent metadata)
                       t expiresAt t in
      let$ saved := stored "save auth session: " (Save token session) tt in
      match saved with
      | Err e => sql_ret (Ok (Err e))
      | Ok _ =>
          let$ _ := change (fun s => logged (Issued token session)
                                       (setSessions (<[token := session]> (smSessions s)) s)) in
          sql_ret (Ok (Ok (token, expiresAt)))
      end
  end.

Definition emptySession (role source : string) (cpaAPIKeyID : Z) : Session :=
  mkSession role source EmptyString cpaAPIKeyID EmptyString EmptyString EmptyString zero_time zero_time zero_time.

Definition CreateWithSourceAndMetadata (generated : result string string) (source : string)
    (metadata : SessionClientMetadata) :=
  create generated (emptySession RoleAdmin (NormalizeSessionSource source) 0) metadata.

Definition CreateAPIKeyViewerWithSourceAndMetadata (generated : result string string) (cpaAPIKeyID : Z)
    (source : string) (metadata : SessionClientMetadata) :=
  create generated (emptySession RoleAPIKeyViewer (NormalizeSessionSource source) cpaAPIKeyID) metadata.

Definition Delete (token : string) : Failing unit :=
  if token =?s EmptyString then sql_ret (Ok tt)
  else
    let$ _ := change (fun s => setSessions (delete token (smSessions s)) s) in
    try$ _ := stored "delete auth session: " (store_Delete token) tt in
    let$ _ := change (logged (RevokedToken token)) in
    sql_ret (Ok tt).

Definition getPersisted (token : string) : Failing (option Session) :=
  let$ has := peek hasStore in
  if negb (has : bool) then sql_ret (Ok None)
  else
    let$ known := peek (fun s => smSessions s !! token) in
    match known with
    | Some session =>
        let$ t := clock in
        if live session t then sql_ret (Ok (Some session))
        else
          let$ _ := change (fun s => setSessions (delete token (smSessions s)) s) in
          try$ _ := wrap "delete auth session: " (store_Delete token) in
          sql_ret (Ok None)
    | None =>
        try$ found := wrap "load auth session: " (store_Get token) in
        match found with
        | None => sql_ret (Ok None)
        | Some session =>
            let$ t := clock in
            if live session t then
              let$ _ := change (fun s => setSessions (<[token := session]> (smSessions s)) s) in
              sql_ret (Ok (Some session))
            else
              try$ _ := wrap "delete auth session: " (store_Delete token) in
              sql_ret (Ok None)
        end
    end.

(** [others] is what happens between the two times Get takes the lock. *)
Definition Get (others : Sessions -> Sessions) (token : string) : Failing (option Session) :=
  if token =?s EmptyString then sql_ret (Ok None)
  else
    let$ known := peek (fun s => smSessions s !! token) in
    match known with
    | None =>
        let$ _ := change others in
        getPersisted token
    | Some session =>
        let$ t := clock in
        if live session t then sql_ret (Ok (Some session))
        else
          let$ _ := change others in
          try$ _ := Delete token in
          sql_ret (Ok None)
    end.

Definition Validate (others : Sessions -> Sessions) (token : string) : Failing bool :=
  try$ found := Get others token in
  sql_ret (Ok (match found with Some _ => true | None => false end)).

(** The second half of Touch; the answer tells that the session was touched, and
    that a writer is to be started. *)
Definition touchLocked (token lastSeenIP : string) : M (bool * bool) :=
  let$ known := peek (fun s => smSessions s !! token) in
  match known with
  | None => sql_ret (false, false)
  | Some session =>
      let$ t := clock in
      if negb (live session t) then sql_ret (false, false)
      else
        let$ t := clock in
        let lastSeenIP := normalizeSessionIP lastSeenIP in
        let lastSeenIP := if lastSeenIP =?s EmptyString then seLastSeenIP session else lastSeenIP in
        if (lastSeenIP =?s seLastSeenIP session) && (t <? seLastSeenAt session + sessionActivityWriteInterval)
        then sql_ret (false, false)
        else
          let session := mkSession (seRole session) (seSource session) (seAlias session) (seCPAAPIKeyID session)
                           (seLoginIP session) lastSeenIP (seUserAgent session) t (seExpiresAt session)
                           (seCreatedAt session) in
          let$ _ := change (fun s => setSessions (<[token := session]> (smSessions s)) s) in
          let$ has := peek hasStore in
          if has : bool then
            let$ running := peek smActivityWriterRunning in
            let$ _ := change (fun s =>
              setPending (<[token := mkActivityUpdate token lastSeenIP t]> (smPendingActivity s)) true s) in
            sql_ret (true, negb running)
          else sql_ret (true, false)
  end.

Definition Touch (others others' : Sessions -> Sessions) (token lastSeenIP : string) : Failing (bool * bool) :=
  if token =?s EmptyString then sql_ret (Ok (false, false))
  else
    try$ found := Get others token in
    match found with
    | None => sql_ret (Ok (false, false))
    | Some _ =>
        let$ _ := change others' in
        let$ touched := touchLocked token lastSeenIP in
        sql_ret (Ok touched)
    end.

(** What the writer takes under the lock: the first update the range visits. *)
Definition takeActivity : M (option sessionActivityUpdate) :=
  locked (fun s =>
    match walkActivity (smPendingActivity s) with
    | [] => (setPending (smPendingActivity s) false s, None)
    | (token, update) :: _ =>
        (setPending (delete token (smPendingActivity s)) (smActivityWriterRunning s) s, Some update)
    end).

(** One round of the writer; a failing update is logged and given up.  The answer
    tells whether the writer goes on. *)
Definition writeActivity (others : Sessions -> Sessions) : M bool :=
  let$ taken := takeActivity in
  match taken with
  | None => sql_ret false
  | Some update =>
      let$ _ := change others in
      let$ _ := UpdateActivity (suToken update) (suLastSeenIP update) (suLastSeenAt update) in
      sql_ret true
  end.

Fixpoint writePendingActivity (fuel : nat) (others : nat -> Sessions -> Sessions) : M bool :=
  match fuel with
  | O => sql_ret false
  | S fuel =>
      let$ more := writeActivity (others fuel) in
      if more : bool then writePendingActivity fuel others else sql_ret true
  end.

Definition byHash (s : Sessions) : gmap string Session :=
  foldl (fun m p => <[sessionTokenHash p.1 := p.2]> m) ∅ (walk (smSessions s)).

Definition withCached (cached : gmap string Session) (r : SessionRecord) : SessionRecord :=
  match cached !! srTokenHash r with
  | None => r
  | Some c =>
      let s := srSession r in
      mkSessionRecord (srTokenHash r)
        (mkSession (seRole s) (seSource s) (seAlias c) (seCPAAPIKeyID s) (seLoginIP c) (seLastSeenIP c)
           (seUserAgent c) (seLastSeenAt c) (seExpiresAt s) (seCreatedAt s))
  end.

Definition record_less (a b : SessionRecord) : bool :=
  if seCreatedAt (srSession a) =? seCreatedAt (srSession b)
  then string_lt (srTokenHash a) (srTokenHash b)
  else seCreatedAt (srSession a) <? seCreatedAt (srSession b).

Definition recordOrder (a b : SessionRecord) : Prop := record_less b a = false.
#[local] Instance recordOrder_dec : RelDecision recordOrder := fun a b => decide (record_less b a = false).

Definition recordOf (p : string * Session) : SessionRecord :=
  let s := p.2 in
  mkSessionRecord (sessionTokenHash p.1)
    (mkSession (seRole s) (NormalizeSessionSource (seSource s)) (seAlias s) (seCPAAPIKeyID s) (seLoginIP s)
       (seLastSeenIP s) (seUserAgent s) (seLastSeenAt s) (seExpiresAt s) (seCreatedAt s)).

Definition List_ : Failing (list SessionRecord) :=
  try$ _ := cleanupExpiredLocked in
  let$ has := peek hasStore in
  if has : bool then
    let$ t := clock in
    try$ records := wrap "list auth sessions: " (store_List t) in
    let$ cached := peek byHash in
    sql_ret (Ok (map (withCached cached) records))
  else
    let$ sessions := peek smSessions in
    sql_ret (Ok (merge_sort recordOrder (map recordOf (walk sessions)))).

Definition withAlias (alias : string) (s : Session) : Session :=
  mkSession (seRole s) (seSource s) alias (seCPAAPIKeyID s) (seLoginIP s) (seLastSeenIP s) (seUserAgent s)
    (seLastSeenAt s) (seExpiresAt s) (seCreatedAt s).

Definition aliased (tokenHash : string) (token : string) (s : Session) : bool :=
  (sessionTokenHash token =?s tokenHash) && (seRole s =?s RoleAdmin).

Definition UpdateAdminAliasByTokenHash (tokenHash alias : string) : Failing bool :=
  let tokenHash := TrimSpace tokenHash in
  let alias := TrimSpace alias in
  if tokenHash =?s EmptyString then sql_ret (Ok false)
  else
    try$ _ := cleanupExpiredLocked in
    let$ has := peek hasStore in
    let$ t := (if has : bool then clock else sql_ret 0) in
    try$ rows := stored "update admin auth session alias: "
                   (store_UpdateAdminAliasByTokenHash tokenHash alias t) 0 in
    let updated := 0 <? rows in
    let$ known := peek (fun s => filter (fun p => aliased tokenHash p.1 p.2 = true) (smSessions s)) in
    if bool_decide (known = ∅) then sql_ret (Ok updated)
    else if (has : bool) && negb updated then sql_ret (Ok false)
    else
      let$ _ := change (fun s => setSessions (map_imap (fun token session =>
        Some (if aliased tokenHash token session then withAlias alias session else session)) (smSessions s)) s) in
      sql_ret (Ok true).

Definition DeleteByTokenHash (tokenHash : string) : Failing Z :=
  let tokenHash := TrimSpace tokenHash in
  if tokenHash =?s EmptyString then sql_ret (Ok 0)
  else
    try$ _ := cleanupExpiredLocked in
    let$ deleted := locked (fun s =>
      let kept := filter (fun p => (sessionTokenHash p.1 =?s tokenHash) = false) (smSessions s) in
      (setSessions kept s, if (size kept <? size (smSessions s))%nat then 1 else 0)) in
    try$ rows := stored "delete auth session by token hash: " (store_DeleteByTokenHash tokenHash) 0 in
    let$ _ := change (logged (RevokedHash tokenHash)) in
    sql_ret (Ok (Z.max deleted rows)).

Definition DeleteByRole (role : string) : Failing Z :=
  try$ _ := cleanupExpiredLocked in
  let$ deleted := locked (fun s =>
    let kept := filter (fun p => seRole p.2 <> role) (smSessions s) in
    (setSessions kept s, Z.of_nat (size (smSessions s)) - Z.of_nat (size kept))) in
  try$ rows := stored "delete auth sessions by role: " (store_DeleteByRole role) 0 in
  let$ _ := change (logged (RevokedRole role)) in
  sql_ret (Ok (Z.max deleted rows)).

End Manager.
