(* ===== verification/SessionFacts.v ===== *)
(** Who the session manager lets in: only tokens that were issued, with the role,
    the key and the expiry they were issued with, and that were not revoked since,
    whatever fails and however the requests interleave. *)
From S2P Require Import Prelude GoStrings GoTime GoTimeFacts Timeutil TimeutilFacts GoCrypto Sql Session.

Local Open Scope string_scope.
Local Open Scope list_scope.
Local Open Scope Z_scope.

(** ** The log *)

Definition ends (token role : string) (e : SessionEvent) : bool :=
  match e with
  | Issued _ _ => false
  | RevokedToken t => t =?s token
  | RevokedHash h => h =?s sessionTokenHash token
  | RevokedRole r => r =?s role
  end.

Definition ends_row (hash role : string) (e : SessionEvent) : bool :=
  match e with
  | Issued _ _ => false
  | RevokedToken t => sessionTokenHash t =?s hash
  | RevokedHash h => h =?s hash
  | RevokedRole r => r =?s role
  end.

(** [s0] was issued under this hash, and no later event ends it. *)
Definition standing (log : list SessionEvent) (hash : string) (over : SessionEvent -> bool) (s0 : Session) : Prop :=
  exists before token after, log = before ++ Issued token s0 :: after /\ sessionTokenHash token = hash /\
    Forall (fun e => over e = false) after.

Lemma standing_on log hash over s0 e : standing log hash over s0 -> over e = false ->
  standing (log ++ [e]) hash over s0.
Proof.
  intros (b & t & a & -> & H & F) E. exists b, t, (a ++ [e]). rewrite <- app_assoc. split; [done|]. split; [done|].
  apply Forall_app. split; [done|]. by constructor.
Qed.

Lemma standing_now log token hash over s0 : sessionTokenHash token = hash ->
  standing (log ++ [Issued token s0]) hash over s0.
Proof. intros H. by exists log, token, []. Qed.

Lemma standing_weaken log hash (over over' : SessionEvent -> bool) s0 :
  (forall e, over e = false -> over' e = false) -> standing log hash over s0 -> standing log hash over' s0.
Proof.
  intros H (b & t & a & E & Eh & F). exists b, t, a. split; [done|]. split; [done|].
  eapply Forall_impl; [exact F|]. intros e. apply H.
Qed.

Lemma ends_row_ends token role e : ends_row (sessionTokenHash token) role e = false -> ends token role e = false.
Proof.
  destruct e as [| t | h | r]; cbn; try done. intros H. apply String.eqb_neq in H. apply String.eqb_neq.
  intros ->. done.
Qed.

(** ** What must not change *)

Definition alike (s0 s : Session) : Prop :=
  seRole s = seRole s0 /\ seSource s = seSource s0 /\ seCPAAPIKeyID s = seCPAAPIKeyID s0 /\
  seLoginIP s = seLoginIP s0 /\ seUserAgent s = seUserAgent s0 /\ seExpiresAt s = seExpiresAt s0.

Lemma alike_trans s0 s s' : alike s0 s -> alike s s' -> alike s0 s'.
Proof. unfold alike. intros (?&?&?&?&?&?) (?&?&?&?&?&?). split_and!; congruence. Qed.

Lemma Normalize_twice source : NormalizeSessionSource (NormalizeSessionSource source) = NormalizeSessionSource source.
Proof. unfold NormalizeSessionSource. by destruct (source =?s SessionSourceEmbed). Qed.

(** Times the storage can write and read back. *)
Definition readable (local : Location) (t : Time) : Prop :=
  year_in_range local t /\ zone_writable (zoneOffset (lookup_zone local (Unix t))) /\ IsZero t = false.

Lemma triple_frame {A} (P : Sessions -> Prop) (Q : A -> Sessions -> Prop) (a : A) :
  (forall s, P s -> Q a s) -> triple P (sql_ret a) Q.
Proof. intros H d. apply H. Qed.

Ltac frame := apply triple_frame; let s := fresh "s" in let H := fresh "H" in intros s H; exact H.

Section Facts.
Context (local : Location) (quote : string -> string) (ttl : Duration) (now : nat -> Time).
Context (fault : nat -> option string).
Context (walk : gmap string Session -> list (string * Session))
        (walkActivity : gmap string sessionActivityUpdate -> list (string * sessionActivityUpdate)).
Hypothesis now_readable : forall k, readable local (now k + ttl).

Definition row_alike (s0 : Session) (row : AuthSession) : Prop :=
  auRole row = seRole s0 /\ auSource row = seSource s0 /\ auCPAAPIKeyID row = seCPAAPIKeyID s0 /\
  auLoginIP row = seLoginIP s0 /\ auUserAgent row = seUserAgent s0 /\
  auExpiresAt row = FormatStorageTime local (seExpiresAt s0).

Definition issued_ok (s0 : Session) : Prop :=
  (seRole s0 = RoleAdmin /\ seCPAAPIKeyID s0 = 0 \/ seRole s0 = RoleAPIKeyViewer) /\
  NormalizeSessionSource (seSource s0) = seSource s0 /\
  exists k, seCreatedAt s0 = now k /\ seExpiresAt s0 = now k + ttl.

Definition mem_inv (log : list SessionEvent) (m : gmap string Session) : Prop :=
  forall token s, m !! token = Some s ->
    exists s0, standing log (sessionTokenHash token) (ends token (seRole s0)) s0 /\ issued_ok s0 /\ alike s0 s.

Definition row_inv (log : list SessionEvent) (rows : gmap string AuthSession) : Prop :=
  forall hash row, rows !! hash = Some row ->
    exists s0, standing log hash (ends_row hash (seRole s0)) s0 /\ issued_ok s0 /\ row_alike s0 row.

Definition sound (s : Sessions) : Prop :=
  mem_inv (smLog s) (smSessions s) /\ row_inv (smLog s) (rows_of s).

Lemma new_sound : sound NewSessionManager.
Proof. by split. Qed.

(** Nothing that is stored is ended by [e]. *)
Definition quiet (e : SessionEvent) (s : Sessions) : Prop :=
  (forall token x, smSessions s !! token = Some x -> ends token (seRole x) e = false) /\
  (forall hash row, rows_of s !! hash = Some row -> ends_row hash (auRole row) e = false).

Lemma logged_sound e s : sound s -> quiet e s -> sound (logged e s).
Proof.
  intros [M R] [QM QR]. split; cbn.
  - intros token x L. destruct (M token x L) as (s0 & St & I & A). exists s0. split; [|done].
    apply standing_on; [done|]. destruct A as (<- & _). by eapply QM.
  - intros hash row L. destruct (R hash row L) as (s0 & St & I & A). exists s0. split; [|done].
    apply standing_on; [done|]. destruct A as (<- & _). by eapply QR.
Qed.

Lemma mem_inv_sub log m m' : mem_inv log m -> m' ⊆ m -> mem_inv log m'.
Proof. intros M Sub token s L. eapply M, lookup_weaken; done. Qed.

Lemma row_inv_sub log rows rows' : row_inv log rows -> rows' ⊆ rows -> row_inv log rows'.
Proof. intros R Sub hash row L. eapply R, lookup_weaken; done. Qed.

Lemma rows_setRows rows s : rows_of (setRows rows s) = if hasStore s then rows else ∅.
Proof. unfold rows_of, setRows, hasStore. cbn. by destruct (smStore s). Qed.

Lemma setSessions_sound m s : sound s -> m ⊆ smSessions s -> sound (setSessions m s).
Proof. intros [M R] Sub. split; [by eapply mem_inv_sub|done]. Qed.

Lemma setRows_sound rows s : sound s -> row_inv (smLog s) rows -> sound (setRows rows s).
Proof. intros [M R] H. split; [done|]. rewrite rows_setRows. by destruct (hasStore s). Qed.

(** A row that reads is the session it was written from. *)
Lemma scanned_expires s0 : issued_ok s0 ->
  scannedTime local quote (Some (FormatStorageTime local (seExpiresAt s0))) = Ok (Some (seExpiresAt s0)).
Proof.
  intros (_ & _ & k & _ & ->). destruct (now_readable k) as (Y & Zw & _).
  unfold scannedTime. cbn. by rewrite parse_format_storage.
Qed.

Lemma row_session s0 row s : issued_ok s0 -> row_alike s0 row -> authSessionFromRow local quote row = Ok s ->
  alike s0 s.
Proof.
  intros I (Er & Es & Ek & El & Eu & Ee). unfold authSessionFromRow.
  destruct (scannedTime _ _ (auLastSeenAt row)) as [lastSeen|]; [|done]. cbn [result_bind].
  rewrite Ee, (scanned_expires s0 I). cbn [result_bind].
  destruct (scannedTime _ _ (auCreatedAt row)) as [created|]; [|done]. cbn [result_bind].
  destruct I as (Ro & No & _). rewrite Er, Es, No.
  destruct Ro as [[E Ek0]|E]; rewrite E; cbn; intros [= <-]; unfold alike; cbn; split_and!; congruence.
Qed.

(** ** The programs *)

Abbreviation Sound := (fun s => sound s).

Lemma triple_change f (P : Sessions -> Prop) (Q : unit -> Sessions -> Prop) :
  (forall s, P s -> Q tt (f s)) -> triple P (change f) Q.
Proof. intros H. by apply triple_locked. Qed.

Lemma triple_peek {A} (f : Sessions -> A) (P : Sessions -> Prop) :
  triple P (peek f) (fun a s => P s /\ a = f s).
Proof. by apply triple_locked. Qed.

(** Reading the clock: the answer is the last reading. *)
Definition last_reading (s : Sessions) (t : Time) : Prop := exists k, smReadings s = S k /\ t = now k.

Definition clock_free (P : Sessions -> Prop) : Prop := forall s, P s -> P (readOnce s).

Lemma triple_clock (P : Sessions -> Prop) : clock_free P ->
  triple P (clock now) (fun t s => P s /\ last_reading s t).
Proof. intros H. apply triple_locked. intros s Hs. cbn. split; [by apply H|]. by exists (smReadings s). Qed.

Lemma readOnce_sound : clock_free sound.
Proof. by intros s [M R]. Qed.

(** A statement that fails has a fault. *)
Lemma triple_rows_fault {A} (f : gmap string AuthSession -> gmap string AuthSession * A)
    (P : Sessions -> Prop) (Q : result string A -> Sessions -> Prop) :
  (forall s, P s -> Q (Ok (f (rows_of s)).2) (setRows (f (rows_of s)).1 s)) ->
  (forall s e m, fault m = Some e -> P s -> Q (Err e) s) -> triple P (on_rows fault f) Q.
Proof.
  intros Ho He d Hd. unfold on_rows, statement. destruct (fault (dbClock d)) as [e|] eqn:E; cbn; [by eapply He|].
  pose proof (Ho _ Hd) as H. by destruct (f (rows_of (dbTables d))).
Qed.

Lemma triple_rows {A} (f : gmap string AuthSession -> gmap string AuthSession * A)
    (P : Sessions -> Prop) (Q : result string A -> Sessions -> Prop) :
  (forall s, P s -> Q (Ok (f (rows_of s)).2) (setRows (f (rows_of s)).1 s)) ->
  (forall s e, P s -> Q (Err e) s) -> triple P (on_rows fault f) Q.
Proof. intros Ho He. apply triple_rows_fault; [done|]. intros s e m _. apply He. Qed.

Lemma triple_wrap {A} prefix (p : Sql Sessions (result string A)) P Q :
  (forall s e, Q (Err e) s -> Q (Err (String.append prefix e)) s) ->
  triple P p Q -> triple P (wrap prefix p) Q.
Proof.
  intros H T d HP. unfold wrap. pose proof (T d HP) as HQ. destruct (p d) as [d1 [a|e]]; [done|]. by apply H.
Qed.

Lemma triple_stored {A} prefix (p : Sql Sessions (result string A)) none (P : Sessions -> Prop)
    (Q : result string A -> Sessions -> Prop) :
  (forall s e, Q (Err e) s -> Q (Err (String.append prefix e)) s) ->
  triple (fun s => P s /\ hasStore s = true) p Q ->
  (forall s, P s -> hasStore s = false -> Q (Ok none) s) ->
  triple P (stored prefix p none) Q.
Proof.
  intros He T Hn. unfold stored. eapply triple_bind; [apply (triple_peek hasStore)|]. intros [].
  - eapply triple_pre; [by apply triple_wrap|]. intros s [HP E]. by rewrite E.
  - intros d [HP E]. by apply Hn.
Qed.

Lemma filter_sound (f : string * Session -> Prop) `{!forall p, Decision (f p)} s :
  sound s -> sound (setSessions (filter f (smSessions s)) s).
Proof. intros Hs. apply setSessions_sound; [done|]. apply map_filter_subseteq. Qed.

Lemma filter_rows_sound (f : string * AuthSession -> Prop) `{!forall p, Decision (f p)} s :
  sound s -> sound (setRows (filter f (rows_of s)) s).
Proof. intros Hs. apply setRows_sound; [done|]. eapply row_inv_sub; [apply Hs|]. apply map_filter_subseteq. Qed.

Lemma cleanup_sound : triple sound (cleanupExpiredLocked local now fault) (fun _ => sound).
Proof.
  unfold cleanupExpiredLocked. eapply triple_bind; [apply triple_clock, readOnce_sound|]. intros t.
  eapply triple_bind with (Q := fun _ => sound).
  - apply triple_change. intros s [H _]. by apply filter_sound.
  - intros _. apply triple_stored; [done| |done].
    apply triple_rows; intros s; [|by intros e []]. intros [H _]. by apply filter_rows_sound.
Qed.

(** Between the statement of Save and the log. *)
Lemma issue_sound token session s (saved : bool) :
  sound s -> issued_ok session ->
  let row := upserted (savedRow local session (FormatStorageTime local (seExpiresAt session)))
               (rows_of s !! sessionTokenHash token) in
  sound (logged (Issued token session)
    (setSessions (<[token := session]> (smSessions s))
       (if saved then setRows (<[sessionTokenHash token := row]> (rows_of s)) s else s))).
Proof.
  intros [M R] I row. split.
  - destruct saved; cbn.
    all: intros t x L; destruct (decide (token = t)) as [<-|Ne];
      [rewrite lookup_insert_eq in L; injection L as <-; exists session; split;
         [by apply standing_now|done]
      |rewrite lookup_insert_ne in L by done; destruct (M t x L) as (s0 & St & H);
         exists s0; split; [by apply standing_on|done]].
  - assert (R' : row_inv (smLog s ++ [Issued token session]) (rows_of s)).
    { intros h r L. destruct (R h r L) as (s0 & St & H). exists s0. split; [by apply standing_on|done]. }
    destruct saved; [|exact R']. change (rows_of (logged _ (setSessions _ ?x))) with (rows_of x).
    rewrite rows_setRows. destruct (hasStore s); [|by intros h r L].
    intros h r L. destruct (decide (sessionTokenHash token = h)) as [<-|Ne].
    + rewrite lookup_insert_eq in L. injection L as <-. exists session. split; [by apply standing_now|].
      split; [done|]. destruct I as (_ & No & _). unfold row_alike, row, upserted, savedRow.
      by destruct (rows_of s !! _); cbn; rewrite No.
    + rewrite lookup_insert_ne in L by done. by apply R'.
Qed.

Lemma create_sound g session metadata :
  (seRole session = RoleAdmin /\ seCPAAPIKeyID session = 0 \/ seRole session = RoleAPIKeyViewer) ->
  triple sound (create local ttl now fault g session metadata) (fun _ => sound).
Proof.
  intros Ro. unfold create. destruct g as [token|e]; [|frame].
  eapply triple_try with (Q := fun _ => sound); [apply cleanup_sound| |done]. intros _.
  eapply triple_bind; [apply triple_clock, readOnce_sound|]. intros t. cbv zeta.
  set (issued := mkSession _ _ _ _ _ _ _ _ _ _).
  eapply triple_bind with (Q := fun saved s =>
    match saved with Ok _ => sound (logged (Issued token issued) (setSessions (<[token := issued]> (smSessions s)) s))
                   | Err _ => sound s end).
  - assert (I : forall s, last_reading s t -> issued_ok issued).
    { intros s (k & _ & ->). split; [done|]. split; [apply Normalize_twice|]. by exists k. }
    assert (T : forall s, last_reading s t -> storageText local (seExpiresAt issued)
                  = Some (FormatStorageTime local (seExpiresAt issued))).
    { intros s L. destruct (I s L) as (_ & _ & k & _ & ->). destruct (now_readable k) as (_ & _ & Z0).
      unfold storageText. cbn. by rewrite Z0. }
    apply triple_stored; [done| |].
    + apply triple_fact with (F := exists s, last_reading s t); [by intros s [[_ L] _]; exists s|]. intros [s0 L0].
      unfold Save. rewrite (T s0 L0). apply triple_rows; [intros s [[Hs L] Hst]|by intros s e [[]]].
      pose proof (issue_sound token issued s true Hs (I s L)) as H. unfold setRows, setSessions, logged in *. cbn in *.
      destruct (smStore s); [exact H|by unfold hasStore in Hst].
    + intros s [Hs L] _. by apply (issue_sound token issued s false Hs (I s L)).
  - intros [[]|e]; [|frame]. eapply triple_bind with (Q := fun _ => sound); [apply triple_change; intros s H; exact H|].
    intros _. frame.
Qed.

Lemma new_session_sound g role source key metadata :
  role = RoleAdmin /\ key = 0 \/ role = RoleAPIKeyViewer ->
  triple sound (create local ttl now fault g (emptySession role source key) metadata) (fun _ => sound).
Proof. intros H. by apply create_sound. Qed.

Lemma log_sound e : triple (fun s => sound s /\ quiet e s) (change (logged e)) (fun _ => sound).
Proof. apply triple_change. intros s [H Q]. by apply logged_sound. Qed.

Lemma delete_row_sound token s : sound s -> sound (setRows (delete token (rows_of s)) s).
Proof. intros H. apply setRows_sound; [done|]. eapply row_inv_sub; [apply H|apply delete_subseteq]. Qed.

Lemma delete_mem_sound token s : sound s -> sound (setSessions (delete token (smSessions s)) s).
Proof. intros H. apply setSessions_sound; [done|apply delete_subseteq]. Qed.

Lemma store_Delete_sound token : triple sound (store_Delete fault token) (fun _ => sound).
Proof. apply triple_rows; [|done]. intros s H. by apply delete_row_sound. Qed.

Lemma Delete_sound token : triple sound (Delete fault token) (fun _ => sound).
Proof.
  unfold Delete. destruct (token =?s EmptyString); [frame|].
  eapply triple_bind with (Q := fun _ s => sound s /\ smSessions s !! token = None).
  { apply triple_change. intros s H. split; [by apply delete_mem_sound|]. cbn. apply lookup_delete_eq. }
  intros _. eapply triple_try with (Q := fun r s => sound s /\ match r with Ok _ => quiet (RevokedToken token) s | _ => True end).
  - assert (K : forall s, sound s -> smSessions s !! token = None -> rows_of s !! sessionTokenHash token = None ->
      quiet (RevokedToken token) s).
    { intros s H M R. split; cbn.
      - intros t x L. apply String.eqb_neq. intros ->. congruence.
      - intros h r L. apply String.eqb_neq. intros <-. congruence. }
    apply triple_stored; [done| |].
    + apply triple_rows; [intros s [[H M] St]|by intros s e [[]]]. split; [by apply delete_row_sound|].
      apply K; [by apply delete_row_sound|done|]. rewrite rows_setRows, St. apply lookup_delete_eq.
    + intros s [H M] St. split; [done|]. apply K; [done|done|]. unfold rows_of, hasStore in *. by destruct (smStore s).
  - intros []. eapply triple_bind; [apply log_sound|]. intros ?. frame.
  - by intros e s [].
Qed.

(** ** Letting in *)

(** The session was issued, stands, and had not expired at the last reading. *)
Definition accepted (token : string) (x : Session) (s : Sessions) : Prop :=
  (exists s0, standing (smLog s) (sessionTokenHash token) (ends token (seRole s0)) s0 /\ issued_ok s0 /\ alike s0 x) /\
  exists t, last_reading s t /\ t < seExpiresAt x.

Definition answered (token : string) (r : result string (option Session)) (s : Sessions) : Prop :=
  sound s /\ match r with Ok (Some x) => accepted token x s | _ => True end.

Lemma answered_none token s : sound s -> answered token (Ok None) s.
Proof. by split. Qed.

Lemma getPersisted_answered token :
  triple sound (getPersisted local quote now fault token) (answered token).
Proof.
  unfold getPersisted. eapply triple_bind; [apply (triple_peek hasStore)|]. intros has.
  destruct has; cbn [negb]; [|by apply triple_frame; intros s []].
  eapply triple_bind with (Q := fun known s => sound s /\ known = smSessions s !! token).
  { eapply triple_pre; [apply triple_peek|]. by intros s []. }
  intros [x|].
  - eapply triple_bind; [apply triple_clock; intros s [H E]; split; [by apply readOnce_sound|done]|].
    intros t. destruct (live x t) eqn:Lx.
    + apply triple_frame. intros s ((H & E) & L). split; [done|]. split; [|exists t; split; [done|by apply Z.ltb_lt]].
      symmetry in E. by apply H in E.
    + eapply triple_bind with (Q := fun _ => sound); [apply triple_change; intros s ((H & _) & _); by apply delete_mem_sound|].
      intros _. eapply triple_try with (Q := fun _ => sound); [apply triple_wrap; [done|apply store_Delete_sound]| |by split].
      intros _. apply triple_frame. apply answered_none.
  - eapply triple_try with (Q := fun r s => sound s /\
      match r with Ok (Some x) => exists s0, standing (smLog s) (sessionTokenHash token) (ends token (seRole s0)) s0 /\
                                   issued_ok s0 /\ alike s0 x | _ => True end).
    + apply triple_wrap; [done|]. unfold store_Get.
      eapply triple_try with (Q := fun r s => sound s /\ match r with Ok row => row = rows_of s !! sessionTokenHash token | _ => True end).
      * apply triple_rows; [intros s [H _]|by intros s e []]. cbn. unfold setRows, rows_of. cbn.
        split; [|by destruct (smStore s)]. destruct H as [M R]. split; [done|]. unfold rows_of in *. cbn.
        by destruct (smStore s).
      * intros [row|]; apply triple_frame; [|by intros s []]. intros s [H E]. split; [done|].
        destruct (authSessionFromRow local quote row) as [x|] eqn:Ea; [|done]. cbn. symmetry in E.
        apply H in E as (s0 & St & I & A). exists s0. split; [|split; [done|by eapply row_session]].
        eapply standing_weaken; [|exact St]. intros e. apply ends_row_ends.
      * by intros e s [].
    + intros [x|]; [|apply triple_frame; intros s []; by apply answered_none].
      eapply triple_bind; [apply triple_clock; intros s [H E]; split; [by apply readOnce_sound|done]|].
      intros t. destruct (live x t) eqn:Lx.
      * eapply triple_bind with (Q := fun _ s => answered token (Ok (Some x)) s).
        { apply triple_change. intros s ((H & A) & L). split.
          - destruct H as [M R]. split; [|done]. intros t' y Ly. cbn in *.
            destruct (decide (token = t')) as [<-|Ne];
              [rewrite lookup_insert_eq in Ly; by injection Ly as <-
              |rewrite lookup_insert_ne in Ly by done; by apply M].
          - split; [exact A|]. exists t. split; [done|by apply Z.ltb_lt]. }
        intros _. frame.
      * eapply triple_try with (Q := fun _ => sound);
          [apply triple_wrap; [done|]; eapply triple_pre; [apply store_Delete_sound|by intros s ((H & _) & _)]| |by split].
        intros _. apply triple_frame. apply answered_none.
    + by intros e s [H _].
Qed.

Lemma Get_answered others token : (forall s, sound s -> sound (others s)) ->
  triple sound (Get local quote now fault others token) (answered token).
Proof.
  intros Ho. unfold Get. destruct (token =?s EmptyString); [apply triple_frame; apply answered_none|].
  eapply triple_bind; [apply triple_peek|]. intros [x|].
  - eapply triple_bind; [apply triple_clock; intros s [H E]; split; [by apply readOnce_sound|done]|].
    intros t. destruct (live x t) eqn:Lx.
    + apply triple_frame. intros s ((H & E) & L). split; [done|]. split; [|exists t; split; [done|by apply Z.ltb_lt]].
      symmetry in E. by apply H in E.
    + eapply triple_bind with (Q := fun _ => sound); [apply triple_change; intros s ((H & _) & _); by apply Ho|].
      intros _. eapply triple_try with (Q := fun _ => sound); [apply Delete_sound| |by split].
      intros _. apply triple_frame. apply answered_none.
  - eapply triple_bind with (Q := fun _ => sound); [apply triple_change; intros s [H _]; by apply Ho|].
    intros _. apply getPersisted_answered.
Qed.

(** ** The other programs *)

Lemma mem_update_sound log m token s s' : mem_inv log m -> m !! token = Some s -> alike s s' ->
  mem_inv log (<[token := s']> m).
Proof.
  intros M L A t x Lx. destruct (decide (token = t)) as [<-|Ne].
  - rewrite lookup_insert_eq in Lx. injection Lx as <-. destruct (M token s L) as (s0 & St & I & A0).
    exists s0. split; [done|]. split; [done|]. by eapply alike_trans.
  - rewrite lookup_insert_ne in Lx by done. by apply M.
Qed.

Lemma touchLocked_sound token ip : triple sound (touchLocked now token ip) (fun _ => sound).
Proof.
  unfold touchLocked. eapply triple_bind; [apply triple_peek|]. intros [x|]; [|apply triple_frame; by intros s []].
  eapply triple_bind; [apply triple_clock; intros s [H E]; split; [by apply readOnce_sound|done]|].
  intros t. destruct (negb (live x t)); [apply triple_frame; by intros s [[]]|].
  eapply triple_bind with (Q := fun _ s => sound s /\ Some x = smSessions s !! token).
  { eapply triple_pre; [eapply triple_weaken; [apply (triple_clock (fun s => sound s /\ Some x = smSessions s !! token))| |]|].
    - intros s [H E]. split; [by apply readOnce_sound|done].
    - intros s H. exact H.
    - by intros u s [].
    - by intros s []. }
  intros u. cbv zeta. destruct (_ && _); [apply triple_frame; by intros s []|].
  eapply triple_bind with (Q := fun _ => sound).
  { apply triple_change. intros s [[M R] E]. split; [|done]. symmetry in E. by eapply mem_update_sound. }
  intros _. eapply triple_bind with (Q := fun _ => sound).
  { eapply triple_weaken; [apply triple_peek|intros s H; exact H|by intros b s []]. }
  intros []; [|frame]. eapply triple_bind with (Q := fun _ => sound).
  { eapply triple_weaken; [apply triple_peek|intros s H; exact H|by intros b s []]. }
  intros running. eapply triple_bind with (Q := fun _ => sound); [by apply triple_change|]. intros _. frame.
Qed.

Lemma takeActivity_sound : triple sound (takeActivity walkActivity) (fun _ => sound).
Proof.
  apply triple_locked. intros s H. by destruct (walkActivity _) as [|[? ?] ?].
Qed.

Lemma UpdateActivity_sound token ip t : triple sound (UpdateActivity local fault token ip t) (fun _ => sound).
Proof.
  apply triple_rows; [|done]. intros s H. apply setRows_sound; [done|]. cbn. intros h row L.
  apply lookup_alter_Some in L as [(<- & old & L & ->)|[_ L]]; [|by apply H in L].
  apply H in L as (s0 & St & I & A). exists s0. by split_and!.
Qed.

Lemma List_sound : triple sound (List_ local quote now fault walk) (fun _ => sound).
Proof.
  unfold List_. eapply triple_try with (Q := fun _ => sound); [apply cleanup_sound| |done]. intros _.
  eapply triple_bind; [apply (triple_peek hasStore)|]. intros [].
  - eapply triple_bind with (Q := fun _ => sound).
    { eapply triple_weaken; [apply (triple_clock sound), readOnce_sound|by intros s []|by intros t s []]. }
    intros t. eapply triple_try with (Q := fun _ => sound); [|intros records|done].
    + apply triple_wrap; [done|]. unfold store_List. eapply triple_try with (Q := fun _ => sound); [|intros rows; frame|done].
      apply triple_rows; [|done]. intros s [M R]. split; [done|]. unfold setRows, rows_of in *. cbn. by destruct (smStore s).
    + eapply triple_bind with (Q := fun _ => sound).
      { eapply triple_weaken; [apply triple_peek|intros s H; exact H|by intros b s []]. }
      intros cached. frame.
  - eapply triple_bind with (Q := fun _ => sound); [|intros sessions; frame].
    eapply triple_weaken; [apply triple_peek|intros s [H _]; exact H|by intros b s []].
Qed.

Lemma alias_sound hash alias s : sound s ->
  sound (setSessions (map_imap (fun token session =>
    Some (if aliased hash token session then withAlias alias session else session)) (smSessions s)) s).
Proof.
  intros [M R]. split; [|done]. cbn. intros token x L. rewrite map_lookup_imap in L.
  destruct (smSessions s !! token) as [y|] eqn:E; [|done]. cbn in L. injection L as <-.
  destruct (M token y E) as (s0 & St & I & A). exists s0. split; [done|]. split; [done|]. by destruct (aliased _ _ _).
Qed.

Lemma UpdateAdminAlias_sound hash alias :
  triple sound (UpdateAdminAliasByTokenHash local now fault hash alias) (fun _ => sound).
Proof.
  unfold UpdateAdminAliasByTokenHash. cbv zeta. destruct (TrimSpace hash =?s EmptyString); [frame|].
  eapply triple_try with (Q := fun _ => sound); [apply cleanup_sound| |done]. intros _.
  eapply triple_bind with (Q := fun _ => sound).
  { eapply triple_weaken; [apply triple_peek|intros s H; exact H|by intros b s []]. }
  intros has. eapply triple_bind with (Q := fun _ => sound).
  { destruct has; [|frame]. eapply triple_weaken; [apply (triple_clock sound), readOnce_sound|done|by intros t s []]. }
  intros t. eapply triple_try with (Q := fun _ => sound); [| |done].
  - apply triple_stored; [done| |done]. apply triple_rows; [|by intros s e []]. intros s [H _].
    assert (K : row_inv (smLog s) (rows_of s)) by apply H.
    destruct (rows_of s !! TrimSpace hash) as [r|] eqn:E; [destruct (auRole r =?s RoleAdmin)|]; cbn;
      apply setRows_sound; try done.
    intros h row L. destruct (decide (TrimSpace hash = h)) as [<-|Ne].
    + rewrite lookup_insert_eq in L. injection L as <-. destruct (K _ _ E) as (s0 & St & I & A).
      exists s0. by split_and!.
    + rewrite lookup_insert_ne in L by done. by apply K.
  - intros rows. eapply triple_bind with (Q := fun _ => sound).
    { eapply triple_weaken; [apply triple_peek|intros s H; exact H|by intros b s []]. }
    intros known. case_bool_decide; [frame|]. destruct (_ && _); [frame|].
    eapply triple_bind with (Q := fun _ => sound); [|intros _; frame].
    apply triple_change. intros s Hs. by apply alias_sound.
Qed.

(** The statement of a revocation, after the memory. *)
Lemma revoke_sound {A} e prefix (f : gmap string AuthSession -> gmap string AuthSession * A) (none : A)
    (k : A -> A) (P : Sessions -> Prop) :
  (forall s, P s -> sound s) ->
  (forall s, P s -> hasStore s = true -> sound (setRows (f (rows_of s)).1 s) /\ quiet e (setRows (f (rows_of s)).1 s)) ->
  (forall s, P s -> hasStore s = false -> quiet e s) ->
  triple P (sql_try (stored prefix (on_rows fault f) none) (fun rows =>
              sql_bind (change (logged e)) (fun _ => sql_ret (Ok (k rows))))) (fun _ => sound).
Proof.
  intros HP HS HN. eapply triple_try with (Q := fun r s => sound s /\ match r with Ok _ => quiet e s | _ => True end).
  - apply triple_stored; [done| |].
    + apply triple_rows; [|intros s x [H _]; split; [by apply HP|done]]. intros s [H St]. by apply HS.
    + intros s H St. split; [by apply HP|]. by apply HN.
  - intros rows. eapply triple_bind; [apply log_sound|]. intros ?. frame.
  - by intros x s [].
Qed.

Lemma no_rows s hash : hasStore s = false -> rows_of s !! hash = None.
Proof. unfold hasStore, rows_of. by destruct (smStore s). Qed.

Lemma DeleteByTokenHash_sound hash : triple sound (DeleteByTokenHash local now fault hash) (fun _ => sound).
Proof.
  unfold DeleteByTokenHash. cbv zeta. set (h := TrimSpace hash). destruct (h =?s EmptyString); [frame|].
  eapply triple_try with (Q := fun _ => sound); [apply cleanup_sound| |done]. intros _.
  assert (Mem : forall s, sound s -> forall t x,
    filter (fun p : string * Session => (sessionTokenHash p.1 =?s h) = false) (smSessions s) !! t = Some x ->
    ends t (seRole x) (RevokedHash h) = false).
  { intros s _ t x L. apply map_lookup_filter_Some in L as [_ L]. cbn in *. by rewrite String.eqb_sym. }
  eapply triple_bind with (Q := fun _ s => sound s /\ forall t x, smSessions s !! t = Some x ->
    ends t (seRole x) (RevokedHash h) = false).
  { apply triple_locked. intros s H. cbn. split; [by apply filter_sound|]. by apply Mem. }
  intros deleted. apply (revoke_sound (RevokedHash h)); [by intros s []| |].
  - intros s [H M] St. cbn. split; [by apply delete_row_sound|]. split; [done|]. rewrite rows_setRows, St.
    intros x row L. apply String.eqb_neq. intros <-. by rewrite lookup_delete_eq in L.
  - intros s [H M] St. split; [done|]. intros x row L. by rewrite no_rows in L.
Qed.

Lemma DeleteByRole_sound role : triple sound (DeleteByRole local now fault role) (fun _ => sound).
Proof.
  unfold DeleteByRole. eapply triple_try with (Q := fun _ => sound); [apply cleanup_sound| |done]. intros _.
  eapply triple_bind with (Q := fun _ s => sound s /\ forall t x, smSessions s !! t = Some x ->
    ends t (seRole x) (RevokedRole role) = false).
  { apply triple_locked. intros s H. cbn. split; [by apply filter_sound|]. intros t x L.
    apply map_lookup_filter_Some in L as [_ L]. cbn in *. apply String.eqb_neq. congruence. }
  intros deleted. apply (revoke_sound (RevokedRole role)); [by intros s []| |].
  - intros s [H M] St. cbn. split; [by apply filter_rows_sound|]. split; [done|]. rewrite rows_setRows, St.
    intros x row L. apply map_lookup_filter_Some in L as [_ L]. cbn in *. apply String.eqb_neq. congruence.
  - intros s [H M] St. split; [done|]. intros x row L. by rewrite no_rows in L.
Qed.
End Facts.

(** ** Sections of the mutex and their interleavings *)

(** What a goroutine does while it holds the lock, or in one statement outside it;
    an activity that is written was seen at some reading of the clock. *)
Inductive LockSection :=
| SCreateAdmin (generated : result string string) (source : string) (metadata : SessionClientMetadata)
| SCreateViewer (generated : result string string) (key : Z) (source : string) (metadata : SessionClientMetadata)
| SDelete (token : string)
| SGetPersisted (token : string)
| SReadClock
| STouch (token lastSeenIP : string)
| STakeActivity
| SWriteActivity (token lastSeenIP : string) (reading : nat)
| SList
| SAlias (tokenHash alias : string)
| SDeleteByTokenHash (tokenHash : string)
| SDeleteByRole (role : string)
| SCleanup.

Section Steps.
Context (local : Location) (quote : string -> string) (ttl : Duration) (now : nat -> Time).
Context (fault : nat -> option string).
Context (walk : gmap string Session -> list (string * Session))
        (walkActivity : gmap string sessionActivityUpdate -> list (string * sessionActivityUpdate)).

Definition perform (section : LockSection) (d : Db Sessions) : Db Sessions :=
  match section with
  | SCreateAdmin g source metadata => (CreateWithSourceAndMetadata local ttl now fault g source metadata d).1
  | SCreateViewer g key source metadata =>
      (CreateAPIKeyViewerWithSourceAndMetadata local ttl now fault g key source metadata d).1
  | SDelete token => (Delete fault token d).1
  | SGetPersisted token => (getPersisted local quote now fault token d).1
  | SReadClock => (clock now d).1
  | STouch token ip => (touchLocked now token ip d).1
  | STakeActivity => (takeActivity walkActivity d).1
  | SWriteActivity token ip k => (UpdateActivity local fault token ip (now k) d).1
  | SList => (List_ local quote now fault walk d).1
  | SAlias hash alias => (UpdateAdminAliasByTokenHash local now fault hash alias d).1
  | SDeleteByTokenHash hash => (DeleteByTokenHash local now fault hash d).1
  | SDeleteByRole role => (DeleteByRole local now fault role d).1
  | SCleanup => (cleanupExpiredLocked local now fault d).1
  end.

(** The tokens a section presents or hands out. *)
Definition presented (section : LockSection) : option string :=
  match section with
  | SCreateAdmin (Ok t) _ _ | SCreateViewer (Ok t) _ _ _ | SDelete t | SGetPersisted t => Some t
  | _ => None
  end.

(** The process ends and starts again over the same table. *)
Definition restarted (s : Sessions) : Sessions := mkSessions ∅ ∅ false (smStore s) (smReadings s) (smLog s).

Inductive session_step (ask : string -> Prop) (s : Sessions) : Sessions -> Prop :=
| step_section section n : (forall t, presented section = Some t -> ask t) ->
    session_step ask s (dbTables (perform section (mkDb s n)))
| step_restart : hasStore s = true -> session_step ask s (restarted s).

Hypothesis now_readable : forall k, readable local (now k + ttl).

Lemma step_sound ask s s' : session_step ask s s' -> sound local ttl now s -> sound local ttl now s'.
Proof.
  intros [section n _|_] H; [|by destruct H].
  assert (K : forall A (p : Sql Sessions A), triple (sound local ttl now) p (fun _ => sound local ttl now) ->
    sound local ttl now (dbTables (p (mkDb s n)).1)).
  { intros A p T. apply (T (mkDb s n)). exact H. }
  destruct section; cbn [perform]; apply K.
  - by apply new_session_sound; [|left].
  - by apply new_session_sound; [|right].
  - apply Delete_sound.
  - intros d Hd. by apply (getPersisted_answered local quote ttl now fault now_readable token d Hd).
  - eapply triple_weaken; [apply triple_clock, readOnce_sound|done|by intros t s0 []].
  - apply touchLocked_sound.
  - apply takeActivity_sound.
  - apply UpdateActivity_sound.
  - apply List_sound.
  - apply UpdateAdminAlias_sound.
  - apply DeleteByTokenHash_sound.
  - apply DeleteByRole_sound.
  - apply cleanup_sound.
Qed.

Lemma steps_sound ask s s' : rtc (session_step ask) s s' -> sound local ttl now s -> sound local ttl now s'.
Proof. induction 1; [done|]. intros H'. by eapply IHrtc, step_sound. Qed.

(** The manager as it is made, over an empty table or without one. *)
Definition initial (s : Sessions) : Prop := s = NewSessionManager \/ s = NewPersistentSessionManager ∅.

Lemma initial_sound s : initial s -> sound local ttl now s.
Proof. intros [->| ->]; by split. Qed.

(** C3: a token gets in only when a session was issued under its SHA-256 hash, and
    neither the token nor the hash nor the role was revoked since; the request has
    the role, the source and the key of that session, which the clock has not
    passed.  This holds however requests, revocations, the activity writer and
    restarts interleave, and whichever statements fail. *)
Theorem only_issued_sessions (others : Sessions -> Sessions) (token : string) (s0 s : Sessions) (n : nat)
    (x : Session) :
  initial s0 -> rtc (session_step (fun _ => True)) s0 s ->
  (forall s, rtc (session_step (fun _ => True)) s (others s)) ->
  (Get local quote now fault others token (mkDb s n)).2 = Ok (Some x) ->
  let s' := dbTables (Get local quote now fault others token (mkDb s n)).1 in
  exists before t y after k,
    smLog s' = before ++ Issued t y :: after /\ sessionTokenHash t = sessionTokenHash token /\
    Forall (fun e => ends token (seRole y) e = false) after /\
    seRole x = seRole y /\ seSource x = seSource y /\ seCPAAPIKeyID x = seCPAAPIKeyID y /\
    seExpiresAt x = seCreatedAt y + ttl /\ smReadings s' = S k /\ now k < seExpiresAt x.
Proof.
  intros H0 R Ho E s'. pose proof (steps_sound _ _ _ R (initial_sound _ H0)) as H.
  assert (Hoth : forall s, sound local ttl now s -> sound local ttl now (others s)) by (intros s1 H1; eapply steps_sound; [apply Ho|exact H1]).
  pose proof (Get_answered local quote ttl now fault now_readable others token Hoth (mkDb s n) H) as [_ A].
  rewrite E in A. destruct A as ((y & (b & t & a & El & Eh & F) & (_ & _ & k & Ec & Ee) & A) & t' & (k' & Ek & ->) & L).
  destruct A as (? & ? & ? & _ & _ & Ex).
  exists b, t, y, a, k'. split_and!; try done. rewrite Ex, Ee, Ec. done.
Qed.
End Steps.

(** A session that was issued stays: it is let in until it expires or is revoked,
    also after restarts of the process and when statements fail. *)

Local Open Scope string_scope.
Local Open Scope list_scope.
Local Open Scope Z_scope.

(** ** The log and the clock only grow *)

Definition grows (s s' : Sessions) : Prop :=
  (exists log, smLog s' = smLog s ++ log) /\ (smReadings s <= smReadings s')%nat.

#[export] Instance grows_preorder : PreOrder grows.
Proof.
  split.
  - intros s. split; [exists []; by rewrite app_nil_r|done].
  - intros s s' s'' [[l1 E1] H1] [[l2 E2] H2]. split; [|lia]. exists (l1 ++ l2). by rewrite E2, E1, app_assoc.
Qed.

Lemma same_grows s s' : smLog s' = smLog s -> smReadings s' = smReadings s -> grows s s'.
Proof. intros E1 E2. split; [exists []; by rewrite app_nil_r|lia]. Qed.

Lemma logged_grows e s : grows s (logged e s).
Proof. split; [by exists [e]|done]. Qed.

Lemma readOnce_grows s : grows s (readOnce s).
Proof. split; [exists []; by rewrite app_nil_r|cbn; lia]. Qed.

Definition mono {A} (p : Sql Sessions A) : Prop := forall d, grows (dbTables d) (dbTables (p d).1).

Lemma mono_ret {A} (a : A) : mono (sql_ret a).
Proof. by intros d. Qed.

Lemma mono_bind {A B} (m : Sql Sessions A) (f : A -> Sql Sessions B) :
  mono m -> (forall a, mono (f a)) -> mono (sql_bind m f).
Proof. intros Hm Hf d. unfold sql_bind. pose proof (Hm d). destruct (m d) as [d1 a]. etransitivity; [done|apply Hf]. Qed.

Lemma mono_try {A B} (m : Sql Sessions (result string A)) (f : A -> Sql Sessions (result string B)) :
  mono m -> (forall a, mono (f a)) -> mono (sql_try m f).
Proof.
  intros Hm Hf d. unfold sql_try. pose proof (Hm d). destruct (m d) as [d1 [a|e]]; [|done].
  etransitivity; [done|apply Hf].
Qed.

Lemma mono_wrap {A} prefix (p : Sql Sessions (result string A)) : mono p -> mono (wrap prefix p).
Proof. intros H d. unfold wrap. pose proof (H d). by destruct (p d) as [d1 [a|e]]. Qed.

Lemma mono_locked {A} (f : Sessions -> Sessions * A) : (forall s, grows s (f s).1) -> mono (locked f).
Proof. intros H d. unfold locked. pose proof (H (dbTables d)). by destruct (f (dbTables d)). Qed.

Lemma mono_change f : (forall s, grows s (f s)) -> mono (change f).
Proof. intros H. by apply mono_locked. Qed.

Lemma mono_rows fault {A} (f : gmap string AuthSession -> gmap string AuthSession * A) : mono (on_rows fault f).
Proof.
  intros d. unfold on_rows, statement. destruct (fault _); [done|]. cbn. destruct (f _). cbn. by apply same_grows.
Qed.

Lemma mono_peek {A} (f : Sessions -> A) : mono (peek f).
Proof. by apply mono_locked. Qed.

Lemma mono_clock now : mono (clock now).
Proof. apply mono_locked. apply readOnce_grows. Qed.

(** Program by program, following the text. *)
Ltac mono_step :=
  lazymatch goal with
  | |- mono (sql_ret _) => apply mono_ret
  | |- mono (sql_bind _ _) => apply mono_bind; [|intros ?]
  | |- mono (sql_try _ _) => apply mono_try; [|intros ?]
  | |- mono (wrap _ _) => apply mono_wrap
  | |- mono (stored _ _ _) => unfold stored
  | |- mono (on_rows _ _) => apply mono_rows
  | |- mono (peek _) => apply mono_peek
  | |- mono (clock _) => apply mono_clock
  | |- mono (change (logged _)) => apply mono_change, logged_grows
  | |- mono (change _) => apply mono_change; intros ?; first [by apply same_grows|apply (logged_grows _ (setSessions _ _))]
  | |- mono (locked _) => apply mono_locked; intros ?; by apply same_grows
  | |- mono (match ?x with _ => _ end) => destruct x
  | |- mono (let _ := _ in _) => cbv zeta
  | |- mono (?f) => first [progress unfold f|fail]
  end.
Ltac mono := repeat mono_step.

Section Monotone.
Context (local : Location) (quote : string -> string) (ttl : Duration) (now : nat -> Time).
Context (fault : nat -> option string).
Context (walk : gmap string Session -> list (string * Session))
        (walkActivity : gmap string sessionActivityUpdate -> list (string * sessionActivityUpdate)).

Lemma mono_cleanup : mono (cleanupExpiredLocked local now fault).
Proof. unfold cleanupExpiredLocked, DeleteExpired. mono. Qed.

Lemma mono_create g session metadata : mono (create local ttl now fault g session metadata).
Proof.
  unfold create, Save. destruct g; [|apply mono_ret]. apply mono_try; [apply mono_cleanup|intros ?]. mono.
Qed.

Lemma mono_Delete t : mono (Delete fault t).
Proof. unfold Delete, store_Delete. mono. Qed.

Lemma mono_getPersisted t : mono (getPersisted local quote now fault t).
Proof. unfold getPersisted, store_Delete, store_Get. mono. Qed.

Lemma mono_step section d :
  grows (dbTables d) (dbTables (perform local quote ttl now fault walk walkActivity section d)).
Proof.
  assert (K : forall A (p : Sql Sessions A), mono p -> grows (dbTables d) (dbTables (p d).1)) by (intros A p H; apply H).
  destruct section; cbn [perform]; apply K.
  - apply mono_create.
  - apply mono_create.
  - apply mono_Delete.
  - apply mono_getPersisted.
  - apply mono_clock.
  - unfold touchLocked. mono.
  - apply mono_locked. intros s. destruct (walkActivity _) as [|[? ?] ?]; by apply same_grows.
  - apply mono_rows.
  - unfold List_, store_List. apply mono_try; [apply mono_cleanup|intros ?]. mono.
  - unfold UpdateAdminAliasByTokenHash. cbv zeta. destruct (_ =?s _); [apply mono_ret|].
    apply mono_try; [apply mono_cleanup|intros ?]. unfold store_UpdateAdminAliasByTokenHash. mono.
  - unfold DeleteByTokenHash. cbv zeta. destruct (_ =?s _); [apply mono_ret|].
    apply mono_try; [apply mono_cleanup|intros ?]. unfold store_DeleteByTokenHash. mono.
  - unfold DeleteByRole. apply mono_try; [apply mono_cleanup|intros ?]. unfold store_DeleteByRole. mono.
  - apply mono_cleanup.
Qed.

Lemma steps_grow ask s s' :
  rtc (session_step local quote ttl now fault walk walkActivity ask) s s' -> grows s s'.
Proof.
  induction 1 as [s|s s1 s' [section n _|_] _ IH]; [done|..]; (etransitivity; [|exact IH]).
  - apply (mono_step section (mkDb s n)).
  - by apply same_grows.
Qed.
End Monotone.

(** Events after which a session of this token and role need not be there. *)
Definition supersedes (token role : string) (e : SessionEvent) : bool :=
  match e with
  | Issued t _ => sessionTokenHash t =?s sessionTokenHash token
  | _ => ends_row (sessionTokenHash token) role e
  end.

Section Survival.
Context (local : Location) (quote : string -> string) (ttl : Duration) (now : nat -> Time).
Context (fault : nat -> option string).
Context (walk : gmap string Session -> list (string * Session))
        (walkActivity : gmap string sessionActivityUpdate -> list (string * sessionActivityUpdate)).

(** The token, its session, and the length of the log when it had been issued. *)
Context (token : string) (s0 : Session) (n0 : nat).
Abbreviation hash := (sessionTokenHash token).

Hypothesis now_readable : forall k, readable local (now k) /\ readable local (now k + ttl).
Hypothesis s0_issued : issued_ok ttl now s0.
(** The texts of these times compare as the times do. *)
Hypothesis texts_ordered : forall k, now k < seExpiresAt s0 ->
  string_lt (FormatStorageTime local (now k)) (FormatStorageTime local (seExpiresAt s0)) = true.

(** No other token of the run has the same hash. *)
Context (ask : string -> Prop).
Hypothesis no_collision : forall t, ask t -> sessionTokenHash t = hash -> t = token.

Abbreviation touches := (supersedes token (seRole s0)).

(** Revoked or issued again since, or expired at some reading. *)
Definition gone (s : Sessions) : Prop :=
  Exists (fun e => touches e = true) (drop n0 (smLog s)) \/
  exists k, (k < smReadings s)%nat /\ seExpiresAt s0 <= now k.

Definition row_fine (row : AuthSession) : Prop :=
  row_alike local s0 row /\
  (exists v, scannedTime local quote (auLastSeenAt row) = Ok v) /\
  (exists v, scannedTime local quote (auCreatedAt row) = Ok v).

Definition kept (s : Sessions) : Prop :=
  (forall x, smSessions s !! token = Some x -> alike s0 x) /\
  exists row, rows_of s !! hash = Some row /\ row_fine row.

Definition lasting (s : Sessions) : Prop :=
  hasStore s = true /\ (n0 <= length (smLog s))%nat /\ (gone s \/ kept s).

Lemma row_fine_session row : row_fine row -> exists x, authSessionFromRow local quote row = Ok x /\ alike s0 x.
Proof.
  intros (A & [v1 E1] & [v2 E2]). destruct (authSessionFromRow local quote row) as [x|e] eqn:E.
  - exists x. split; [done|]. eapply (row_session local quote ttl now); [intros k; apply now_readable|done..].
  - exfalso. revert E. unfold authSessionFromRow. rewrite E1. cbn [result_bind].
    destruct A as (Er & _ & _ & _ & _ & Ee). rewrite Ee.
    rewrite (scanned_expires local quote ttl now) by (done || intros k; apply now_readable). cbn [result_bind].
    rewrite E2. cbn [result_bind]. rewrite Er. destruct s0_issued as ([[-> _]| ->] & _); cbn; done.
Qed.

(** *** The single actions *)

Lemma gone_logged e s : gone s -> gone (logged e s).
Proof. intros [H|H]; [left|by right]. cbn. rewrite drop_app. apply Exists_app. by left. Qed.

Lemma lasting_logged e s : lasting s -> lasting (logged e s).
Proof.
  intros (St & L & H). split; [done|]. split; [cbn; rewrite length_app; cbn; lia|].
  destruct H as [H|H]; [left; by apply gone_logged|by right].
Qed.

(** An event that takes the row away. *)
Lemma lasting_touched e s : hasStore s = true -> (n0 <= length (smLog s))%nat ->
  gone s \/ kept s \/ touches e = true -> lasting (logged e s).
Proof.
  intros St L H. split; [done|]. split; [cbn; rewrite length_app; cbn; lia|].
  destruct H as [H|[H|H]]; [left; by apply gone_logged|by right|].
  left. left. cbn. rewrite drop_app_le by done. apply Exists_app. right. by constructor.
Qed.

Lemma lasting_readOnce s : lasting s -> lasting (readOnce s).
Proof.
  intros (St & L & [[H|(k & Lt & H)]|H]); (split; [done|]; split; [done|]).
  - by left; left.
  - left. right. exists k. cbn. split; [lia|done].
  - by right.
Qed.

Lemma lasting_mem m s : lasting s -> (forall x, m !! token = Some x -> smSessions s !! token = Some x \/ alike s0 x) ->
  lasting (setSessions m s).
Proof.
  intros (St & L & [H|[M R]]) Hm; (split; [done|]; split; [done|]); [by left|right].
  split; [|done]. intros x Lx. destruct (Hm x Lx); [by apply M|done].
Qed.

Lemma lasting_rows rows s : lasting s ->
  (forall row, rows_of s !! hash = Some row -> row_fine row ->
     gone s \/ exists row', rows !! hash = Some row' /\ row_fine row') ->
  lasting (setRows rows s).
Proof.
  intros (St & L & [H|[M (row & R & F)]]) Hr.
  - split; [unfold hasStore, setRows in *; cbn; by destruct (smStore s)|]. split; [done|by left].
  - split; [unfold hasStore, setRows in *; cbn; by destruct (smStore s)|]. split; [done|].
    destruct (Hr row R F) as [G|H]; [by left|right]. split; [done|]. by rewrite rows_setRows, St.
Qed.

Lemma lasting_rows_kept rows s : lasting s -> rows !! hash = rows_of s !! hash -> lasting (setRows rows s).
Proof. intros H E. apply lasting_rows; [done|]. intros row R F. right. exists row. by rewrite E. Qed.

Lemma lasting_pending m r s : lasting s -> lasting (setPending m r s).
Proof. done. Qed.

(** *** The programs *)

Definition broken : Prop := exists m e, fault m = Some e.

Lemma gone_at s t : last_reading now s t -> seExpiresAt s0 <= t -> gone s.
Proof. intros (k & E & ->) H. right. exists k. split; [lia|done]. Qed.

Lemma triple_clock_lasting (P : Sessions -> Prop) :
  (forall s, P s -> P (readOnce s)) -> (forall s, P s -> lasting s) ->
  triple P (clock now) (fun t s => P s /\ lasting s /\ last_reading now s t).
Proof.
  intros H L. eapply triple_weaken; [apply (triple_clock now P H)|done|].
  intros t s [HP R]. split; [done|]. split; [by apply L|done].
Qed.

Lemma lasting_cleanup : triple lasting (cleanupExpiredLocked local now fault) (fun _ => lasting).
Proof.
  unfold cleanupExpiredLocked. eapply triple_bind; [apply (triple_clock now lasting lasting_readOnce)|]. intros t.
  eapply triple_bind with (Q := fun _ s => lasting s /\ last_reading now s t).
  { apply triple_change. intros s [H R]. split; [|done]. apply lasting_mem; [done|].
    intros x Lx. left. by apply map_lookup_filter_Some in Lx as [Lx _]. }
  intros _. apply triple_stored; [done| |by intros s []].
  apply triple_rows; [|by intros s e [[]]]. intros s [[H R] St]. apply lasting_rows; [done|]. intros row Lr F.
  destruct (Z.lt_ge_cases t (seExpiresAt s0)) as [Lt|Ge]; [right|left; by eapply gone_at].
  exists row. split; [|done]. apply map_lookup_filter_Some. split; [done|]. cbn.
  destruct F as ((_ & _ & _ & _ & _ & ->) & _). destruct R as (k & _ & ->). by apply texts_ordered.
Qed.

Lemma lasting_create g session metadata : (forall t, g = Ok t -> ask t) ->
  triple lasting (create local ttl now fault g session metadata) (fun _ => lasting).
Proof.
  intros Hask. unfold create. destruct g as [t|e]; [|frame]. specialize (Hask t eq_refl).
  eapply triple_try with (Q := fun _ => lasting); [apply lasting_cleanup| |done]. intros _.
  eapply triple_bind with (Q := fun _ => lasting).
  { eapply triple_weaken; [apply (triple_clock now lasting lasting_readOnce)|done|by intros u s []]. }
  intros u. cbv zeta. set (issued := mkSession _ _ _ _ _ _ _ _ _ _).
  eapply triple_bind with (Q := fun saved s =>
    match saved with Ok _ => lasting (logged (Issued t issued) (setSessions (<[t := issued]> (smSessions s)) s))
                   | Err _ => lasting s end).
  - assert (K : forall s, lasting s -> (rows_of s !! hash = rows_of s !! hash) ->
      forall row, lasting (logged (Issued t issued) (setSessions (<[t := issued]> (smSessions s))
        (setRows (<[sessionTokenHash t := row]> (rows_of s)) s)))).
    { intros s H _ row. destruct H as (St & L & H).
      apply lasting_touched; [unfold hasStore, setRows in *; cbn; by destruct (smStore s)|done|].
      destruct (String.eqb_spec (sessionTokenHash t) hash) as [E|Ne].
      - right. right. cbn. by apply String.eqb_eq.
      - assert (Ne' : t <> token) by congruence.
        destruct H as [H|[M (r & R & F)]]; [by left|right; left]. split.
        + intros x Lx. cbn in Lx. rewrite lookup_insert_ne in Lx by done. by apply M.
        + exists r. split; [|done]. change (rows_of (setSessions _ ?x)) with (rows_of x).
          rewrite rows_setRows, St. by rewrite lookup_insert_ne. }
    apply triple_stored; [done| |by intros s (St & _) N; rewrite St in N].
    unfold Save. destruct (storageText local (seExpiresAt issued)) as [text|].
    + apply triple_rows; [|by intros s e []]. intros s [H St]. pose proof (K s H eq_refl) as K'.
      unfold setRows, setSessions, logged in *. cbn in *. apply K'.
    + eapply triple_try with (Q := fun _ => lasting); [|intros _; frame|done].
      apply triple_rows; [|by intros s e []]. intros s [H _]. by apply lasting_rows_kept.
  - intros [[]|e]; [|frame]. eapply triple_bind with (Q := fun _ => lasting); [by apply triple_change|]. intros _. frame.
Qed.

Lemma lasting_Delete t : triple lasting (Delete fault t) (fun _ => lasting).
Proof.
  unfold Delete. destruct (t =?s EmptyString); [frame|].
  eapply triple_bind with (Q := fun _ => lasting).
  { apply triple_change. intros s H. apply lasting_mem; [done|]. intros x Lx. left.
    by apply lookup_delete_Some in Lx as []. }
  intros _. eapply triple_try with (Q := fun r s => match r with Ok _ => lasting (logged (RevokedToken t) s) | Err _ => lasting s end).
  - apply triple_stored; [done| |intros s H _; by apply lasting_logged].
    apply triple_rows; [|by intros s e []]. intros s [H St]. cbn [fst snd]. pose proof H as (_ & L & H').
    apply lasting_touched; [unfold hasStore, setRows in *; cbn; by destruct (smStore s)|done|].
    destruct (String.eqb_spec (sessionTokenHash t) hash) as [E|Ne].
    + right. right. cbn. by apply String.eqb_eq.
    + destruct H' as [H'|[M (r & R & F)]]; [by left|right; left]. split; [done|]. exists r. split; [|done].
      rewrite rows_setRows, St. by rewrite lookup_delete_ne.
  - intros []. eapply triple_bind with (Q := fun _ => lasting); [by apply triple_change|]. intros _. frame.
  - done.
Qed.

(** What a lookup may answer. *)
Definition told (r : result string (option Session)) (s : Sessions) : Prop :=
  lasting s /\
  match r with
  | Ok (Some x) => gone s \/ alike s0 x
  | Ok None => gone s
  | Err _ => gone s \/ broken
  end.

(** The row of an expired session goes. *)
Lemma drop_expired t : ask t ->
  triple (fun s => lasting s /\ (t = token -> gone s)) (wrap "delete auth session: " (store_Delete fault t))
    (fun r s => lasting s /\ (t = token -> gone s) /\ match r with Ok _ => True | Err _ => broken end).
Proof.
  intros Ha. apply triple_wrap; [done|]. apply triple_rows_fault.
  - intros s [H G]. cbn [fst snd]. split; [|done]. apply lasting_rows; [done|]. intros row R F.
    destruct (decide (sessionTokenHash t = hash)) as [E|Ne]; [left; by apply G, no_collision|].
    right. exists row. by rewrite lookup_delete_ne.
  - intros s e m E [H G]. split; [done|]. split; [done|]. by exists m, e.
Qed.

(** For any token, the state; for ours also the answer. *)
Definition looked_up (t : string) (r : result string (option Session)) (s : Sessions) : Prop :=
  lasting s /\ (t = token -> told r s).

Lemma expired_answer t : ask t ->
  triple (fun s => lasting s /\ (t = token -> gone s))
    (sql_try (wrap "delete auth session: " (store_Delete fault t)) (fun _ => sql_ret (Ok None)))
    (looked_up t).
Proof.
  intros Ha. eapply triple_try; [apply (drop_expired t Ha)| |].
  - intros []. apply triple_frame. intros s (H & G & _). split; [done|]. intros E. split; [done|by apply G].
  - intros e s (H & G & B). split; [done|]. intros E. split; [done|by right].
Qed.

Lemma lasting_getPersisted t : ask t ->
  triple lasting (getPersisted local quote now fault t) (looked_up t).
Proof.
  intros Ha. unfold getPersisted. eapply triple_bind; [apply (triple_peek hasStore)|]. intros has.
  destruct has; cbn [negb]; [|apply triple_frame; intros s [(St & _) E]; congruence].
  eapply triple_bind with (Q := fun known s => lasting s /\ known = smSessions s !! t).
  { eapply triple_pre; [apply triple_peek|]. by intros s []. }
  intros [x|].
  - eapply triple_bind with (Q := fun u s => (lasting s /\ Some x = smSessions s !! t) /\ last_reading now s u).
    { eapply triple_weaken; [apply (triple_clock now (fun s => lasting s /\ Some x = smSessions s !! t))| |].
      - intros s [H E]. split; [by apply lasting_readOnce|done].
      - intros s H. exact H.
      - intros u s H. exact H. }
    intros u.
    assert (Alike : forall s, lasting s -> Some x = smSessions s !! t -> t = token -> gone s \/ alike s0 x).
    { intros s (_ & _ & [H|[M _]]) E Et; [by left|right]. subst t. symmetry in E. by apply M. }
    destruct (live x u) eqn:Lx.
    + apply triple_frame. intros s [[H E] R]. split; [done|]. intros Et. split; [done|]. by apply Alike.
    + eapply triple_bind with (Q := fun _ s => lasting s /\ (t = token -> gone s)); [|intros _; by apply (expired_answer t)].
      apply triple_change. intros s [[H E] R]. split.
      * apply lasting_mem; [done|]. intros y Ly. left. by apply lookup_delete_Some in Ly as [].
      * intros Et. destruct (Alike s H E Et) as [G|(_ & _ & _ & _ & _ & Ee)]; [done|].
        apply (gone_at s u R). unfold live in Lx. apply Z.ltb_ge in Lx. by rewrite <- Ee.
  - eapply triple_try with (Q := fun r s => lasting s /\ (t = token ->
      match r with Ok (Some x) => gone s \/ alike s0 x | Ok None => gone s | Err _ => gone s \/ broken end)).
    + apply triple_wrap; [done|]. unfold store_Get.
      eapply triple_try with (Q := fun r s => lasting s /\ match r with Ok row => row = rows_of s !! sessionTokenHash t | _ => broken end).
      * apply triple_rows_fault; [intros s [H _]|intros s e m E []; split; [done|by exists m, e]]. cbn [fst snd].
        split; [by apply lasting_rows_kept|]. rewrite rows_setRows. destruct H as (-> & _). done.
      * intros row. apply triple_frame. intros s [H ->]. split; [done|]. intros ->.
        destruct H as (_ & _ & [G|[M (row & -> & F)]]).
        { destruct (rows_of s !! hash) as [row|]; [|done].
          destruct (authSessionFromRow local quote row); by left. }
        destruct (row_fine_session row F) as (x & -> & A). by right.
      * intros e s [H B]. split; [done|]. by right.
    + intros [x|]; [|apply triple_frame; intros s [H G]; split; [done|]; intros Et; split; [done|by apply G]].
      eapply triple_bind with (Q := fun u s => (lasting s /\ (t = token -> gone s \/ alike s0 x)) /\ last_reading now s u).
      { eapply triple_weaken; [apply (triple_clock now (fun s => lasting s /\ (t = token -> gone s \/ alike s0 x)))| |].
        - intros s [H E]. split; [by apply lasting_readOnce|]. intros Et. destruct (E Et) as [[G|(k & Lt & G)]|A]; [left; by left|left|by right].
          right. exists k. cbn. split; [lia|done].
        - intros s H. exact H.
        - intros u s H. exact H. }
      intros u. destruct (live x u) eqn:Lx.
      * eapply triple_bind with (Q := fun _ s => looked_up t (Ok (Some x)) s); [|intros _; frame].
        apply triple_change. intros s [[H E] R]. assert (L' : lasting (setSessions (<[t := x]> (smSessions s)) s)).
        { destruct (decide (t = token)) as [->|Ne].
          - destruct (E eq_refl) as [G|A].
            + destruct H as (St & L & _). split; [done|]. split; [done|]. by left.
            + apply lasting_mem; [done|]. intros y Ly. rewrite lookup_insert_eq in Ly. injection Ly as <-. by right.
          - apply lasting_mem; [done|]. intros y Ly. rewrite lookup_insert_ne in Ly by done. by left. }
        split; [done|]. intros Et. split; [done|]. by apply E.
      * eapply triple_pre; [by apply (expired_answer t)|]. intros s [[H E] R]. split; [done|]. intros Et.
        destruct (E Et) as [G|(_ & _ & _ & _ & _ & Ee)]; [done|]. apply (gone_at s u R).
        unfold live in Lx. apply Z.ltb_ge in Lx. by rewrite <- Ee.
    + intros e s [H E]. split; [done|]. intros Et. split; [done|]. by apply E.
Qed.

Lemma lasting_clock : triple lasting (clock now) (fun _ => lasting).
Proof. eapply triple_weaken; [apply (triple_clock now lasting lasting_readOnce)|done|by intros u s []]. Qed.

Lemma lasting_peek {A} (f : Sessions -> A) : triple lasting (peek f) (fun _ => lasting).
Proof. eapply triple_weaken; [apply triple_peek|intros s H; exact H|by intros u s []]. Qed.

(** A query leaves the rows. *)
Lemma lasting_query {A} (f : gmap string AuthSession -> A) :
  triple lasting (on_rows fault (fun rows => (rows, f rows))) (fun _ => lasting).
Proof. apply triple_rows; [|done]. intros s H. by apply lasting_rows_kept. Qed.

Lemma lasting_touchLocked t ip : triple lasting (touchLocked now t ip) (fun _ => lasting).
Proof.
  unfold touchLocked. eapply triple_bind; [apply triple_peek|]. intros [x|]; [|apply triple_frame; by intros s []].
  assert (C : triple (fun s => lasting s /\ Some x = smSessions s !! t) (clock now)
    (fun _ s => lasting s /\ Some x = smSessions s !! t)).
  { eapply triple_weaken; [apply (triple_clock now (fun s => lasting s /\ Some x = smSessions s !! t))| |].
    - intros s [H E]. split; [by apply lasting_readOnce|done].
    - intros s H. exact H.
    - by intros u s []. }
  eapply triple_bind; [exact C|]. intros u. destruct (negb (live x u)); [apply triple_frame; by intros s []|].
  eapply triple_bind; [exact C|]. intros v. cbv zeta. destruct (_ && _); [apply triple_frame; by intros s []|].
  eapply triple_bind with (Q := fun _ => lasting).
  { apply triple_change. intros s [H E].
    destruct (decide (t = token)) as [->|Ne].
    - pose proof H as (St & L & [G|[M _]]); [split; [done|]; split; [done|]; by left|].
      apply lasting_mem; [done|]. intros y Ly. rewrite lookup_insert_eq in Ly. injection Ly as <-. right.
      symmetry in E. apply (alike_trans _ x); [by apply M|done].
    - apply lasting_mem; [done|]. intros y Ly. rewrite lookup_insert_ne in Ly by done. by left. }
  intros _. eapply triple_bind; [apply lasting_peek|]. intros []; [|frame].
  eapply triple_bind; [apply lasting_peek|]. intros running.
  eapply triple_bind with (Q := fun _ => lasting); [by apply triple_change|]. intros _. frame.
Qed.

Lemma lasting_takeActivity : triple lasting (takeActivity walkActivity) (fun _ => lasting).
Proof. apply triple_locked. intros s H. by destruct (walkActivity _) as [|[? ?] ?]. Qed.

Lemma scanned_now k : scannedTime local quote (Some (FormatStorageTime local (now k))) = Ok (Some (now k)).
Proof.
  destruct (now_readable k) as [(Y & Zw & _) _]. unfold scannedTime. cbn. by rewrite parse_format_storage.
Qed.

Lemma lasting_UpdateActivity t ip k : triple lasting (UpdateActivity local fault t ip (now k)) (fun _ => lasting).
Proof.
  apply triple_rows; [|done]. intros s H. cbn [fst snd]. apply lasting_rows; [done|]. intros row R F. right.
  destruct (decide (sessionTokenHash t = hash)) as [->|Ne]; [|exists row; by rewrite lookup_alter_ne].
  rewrite lookup_alter_eq, R. eexists. split; [done|]. destruct F as (A & F1 & F2). split; [done|].
  split; [|done]. cbn. eexists. apply scanned_now.
Qed.

Lemma lasting_List : triple lasting (List_ local quote now fault walk) (fun _ => lasting).
Proof.
  unfold List_. eapply triple_try with (Q := fun _ => lasting); [apply lasting_cleanup| |done]. intros _.
  eapply triple_bind; [apply lasting_peek|]. intros [].
  - eapply triple_bind; [apply lasting_clock|]. intros u.
    eapply triple_try with (Q := fun _ => lasting); [|intros records|done].
    + apply triple_wrap; [done|]. unfold store_List.
      eapply triple_try with (Q := fun _ => lasting); [apply lasting_query|intros rows; frame|done].
    + eapply triple_bind; [apply lasting_peek|]. intros cached. frame.
  - eapply triple_bind; [apply lasting_peek|]. intros sessions. frame.
Qed.

Lemma lasting_alias h alias : triple lasting (UpdateAdminAliasByTokenHash local now fault h alias) (fun _ => lasting).
Proof.
  unfold UpdateAdminAliasByTokenHash. cbv zeta. destruct (TrimSpace h =?s EmptyString); [frame|].
  eapply triple_try with (Q := fun _ => lasting); [apply lasting_cleanup| |done]. intros _.
  eapply triple_bind; [apply lasting_peek|]. intros has.
  eapply triple_bind with (Q := fun _ => lasting); [destruct has; [apply lasting_clock|frame]|]. intros u.
  eapply triple_try with (Q := fun _ => lasting); [| |done].
  - apply triple_stored; [done| |done]. apply triple_rows; [|by intros s e []]. intros s [H _].
    destruct (rows_of s !! TrimSpace h) as [r|] eqn:E; [destruct (auRole r =?s RoleAdmin)|]; cbn [fst snd];
      try by apply lasting_rows_kept.
    apply lasting_rows; [done|]. intros row R F. right.
    destruct (decide (TrimSpace h = hash)) as [Eh|Ne]; [|exists row; by rewrite lookup_insert_ne].
    rewrite Eh in *. rewrite lookup_insert_eq. eexists. split; [done|]. rewrite R in E. injection E as <-. done.
  - intros rows. eapply triple_bind; [apply lasting_peek|]. intros known. case_bool_decide; [frame|].
    destruct (_ && _); [frame|]. eapply triple_bind with (Q := fun _ => lasting); [|intros _; frame].
    apply triple_change. intros s Hl.
    pose proof Hl as (St & L & [G|[M _]]); [split; [done|]; split; [done|]; by left|].
    apply lasting_mem; [done|]. intros x Lx. rewrite map_lookup_imap in Lx. right.
    destruct (smSessions s !! token) as [y|] eqn:E; [|done]. cbn in Lx. injection Lx as <-.
    pose proof (M y eq_refl). by destruct (aliased _ _ _).
Qed.

(** A revocation: the rows that go are those it names. *)
Lemma lasting_revoke {A B} e prefix (f : gmap string AuthSession -> gmap string AuthSession * A) (none : A) (k : A -> B) :
  (forall s row, kept s -> touches e = false -> rows_of s !! hash = Some row ->
     row_alike local s0 row -> (f (rows_of s)).1 !! hash = Some row) ->
  triple lasting (sql_try (stored prefix (on_rows fault f) none) (fun rows =>
              sql_bind (change (logged e)) (fun _ => sql_ret (Ok (k rows))))) (fun _ => lasting).
Proof.
  intros Hf. eapply triple_try with (Q := fun r s => match r with Ok _ => lasting (logged e s) | Err _ => lasting s end); [| |done].
  - apply triple_stored; [done| |intros s H _; by apply lasting_logged].
    apply triple_rows; [|by intros s x []]. intros s [H St]. pose proof H as (_ & L & H').
    apply lasting_touched; [unfold hasStore, setRows in *; cbn; by destruct (smStore s)|done|].
    destruct (touches e) eqn:Et; [by right; right|].
    destruct H' as [H'|K]; [by left|right; left]. pose proof K as [M (r & R & F)]. split; [done|].
    exists r. split; [|done]. rewrite rows_setRows, St. apply Hf; try done. apply F.
  - intros rows. eapply triple_bind with (Q := fun _ => lasting); [by apply triple_change|]. intros _. frame.
Qed.

Lemma lasting_DeleteByTokenHash h : triple lasting (DeleteByTokenHash local now fault h) (fun _ => lasting).
Proof.
  unfold DeleteByTokenHash. cbv zeta. destruct (TrimSpace h =?s EmptyString); [frame|].
  eapply triple_try with (Q := fun _ => lasting); [apply lasting_cleanup| |done]. intros _.
  eapply triple_bind with (Q := fun _ => lasting).
  { apply triple_locked. intros s H. cbn [fst snd]. apply lasting_mem; [done|]. intros x Lx. left.
    by apply map_lookup_filter_Some in Lx as []. }
  intros deleted. apply lasting_revoke. intros s row _ Et R _. cbn in *. apply String.eqb_neq in Et.
  by rewrite lookup_delete_ne.
Qed.

Lemma lasting_DeleteByRole role : triple lasting (DeleteByRole local now fault role) (fun _ => lasting).
Proof.
  unfold DeleteByRole. eapply triple_try with (Q := fun _ => lasting); [apply lasting_cleanup| |done]. intros _.
  eapply triple_bind with (Q := fun _ => lasting).
  { apply triple_locked. intros s H. cbn [fst snd]. apply lasting_mem; [done|]. intros x Lx. left.
    by apply map_lookup_filter_Some in Lx as []. }
  intros deleted. apply lasting_revoke. intros s row _ Et R (Er & _). cbn in *. apply String.eqb_neq in Et.
  apply map_lookup_filter_Some. split; [done|]. cbn. congruence.
Qed.

Lemma lasting_restart s : lasting s -> lasting (restarted s).
Proof.
  intros (St & L & [G|[M R]]); (split; [done|]; split; [done|]); [by left|by right].
Qed.

Lemma lasting_step s s' :
  session_step local quote ttl now fault walk walkActivity ask s s' -> lasting s -> lasting s'.
Proof.
  intros [section n Ha|_] H; [|by apply lasting_restart].
  assert (K : forall A (p : Sql Sessions A), triple lasting p (fun _ => lasting) -> lasting (dbTables (p (mkDb s n)).1)).
  { intros A p T. apply (T (mkDb s n)). exact H. }
  destruct section; cbn [perform]; apply K.
  - apply lasting_create. intros t ->. by apply Ha.
  - apply lasting_create. intros t ->. by apply Ha.
  - apply lasting_Delete.
  - refine (fun d Hd => proj1 (lasting_getPersisted _ _ d Hd)). by apply Ha.
  - apply lasting_clock.
  - apply lasting_touchLocked.
  - apply lasting_takeActivity.
  - apply lasting_UpdateActivity.
  - apply lasting_List.
  - apply lasting_alias.
  - apply lasting_DeleteByTokenHash.
  - apply lasting_DeleteByRole.
  - apply lasting_cleanup.
Qed.

Lemma lasting_steps s s' :
  rtc (session_step local quote ttl now fault walk walkActivity ask) s s' -> lasting s -> lasting s'.
Proof. induction 1; [done|]. intros H'. by eapply IHrtc, lasting_step. Qed.

Lemma gone_grows s s' : grows s s' -> gone s -> gone s'.
Proof.
  intros [[log E] L] [H|(k & Lt & H)]; [left|right; exists k; split; [lia|done]].
  rewrite E, drop_app. apply Exists_app. by left.
Qed.

Lemma triple_grows {A} (p : Sql Sessions A) (P : Sessions -> Prop) (Q : A -> Sessions -> Prop) :
  mono p -> triple P p Q -> triple (fun s => P s /\ gone s) p (fun a s => Q a s /\ gone s).
Proof. intros M T d [HP G]. split; [by apply T|]. eapply gone_grows; [apply M|exact G]. Qed.

Lemma lasting_Get others : ask token -> token <> EmptyString ->
  (forall s, rtc (session_step local quote ttl now fault walk walkActivity ask) s (others s)) ->
  triple lasting (Get local quote now fault others token) told.
Proof.
  intros Ha Ne Ho. unfold Get. rewrite (proj2 (String.eqb_neq _ _) Ne).
  eapply triple_bind; [apply triple_peek|]. intros [x|].
  - eapply triple_bind with (Q := fun u s => (lasting s /\ Some x = smSessions s !! token) /\ last_reading now s u).
    { eapply triple_weaken; [apply (triple_clock now (fun s => lasting s /\ Some x = smSessions s !! token))| |].
      - intros s [H E]. split; [by apply lasting_readOnce|done].
      - intros s H. exact H.
      - intros u s H. exact H. }
    intros u. assert (Alike : forall s, lasting s -> Some x = smSessions s !! token -> gone s \/ alike s0 x).
    { intros s (_ & _ & [H|[M _]]) E; [by left|right]. symmetry in E. by apply M. }
    destruct (live x u) eqn:Lx.
    + apply triple_frame. intros s [[H E] R]. split; [done|]. by apply Alike.
    + eapply triple_bind with (Q := fun _ s => lasting s /\ gone s).
      { apply triple_change. intros s [[H E] R]. split; [by eapply lasting_steps; [apply Ho|]|].
        eapply gone_grows; [by eapply steps_grow, Ho|].
        destruct (Alike s H E) as [G|(_ & _ & _ & _ & _ & Ee)]; [done|].
        apply (gone_at s u R). unfold live in Lx. apply Z.ltb_ge in Lx. by rewrite <- Ee. }
      intros _. eapply triple_try; [apply triple_grows; [apply mono_Delete|apply lasting_Delete]| |].
      * intros []. apply triple_frame. by intros s [].
      * intros e s [H G]. split; [done|]. by left.
  - eapply triple_bind with (Q := fun _ => lasting).
    { apply triple_change. intros s [H _]. eapply lasting_steps; [apply Ho|done]. }
    intros _. eapply triple_weaken; [by apply (lasting_getPersisted token)|done|]. intros r s [_ T]. by apply T.
Qed.
End Survival.

Section Survives.
Context (local : Location) (quote : string -> string) (ttl : Duration) (now : nat -> Time).
Context (fault : nat -> option string).
Context (walk : gmap string Session -> list (string * Session))
        (walkActivity : gmap string sessionActivityUpdate -> list (string * sessionActivityUpdate)).
Hypothesis now_readable : forall k, readable local (now k) /\ readable local (now k + ttl).

Lemma scanned_readable t : readable local t ->
  scannedTime local quote (storageText local t) = Ok (Some t) /\
  scannedTime local quote (storagePtrText local (sessionTimePointer t)) = Ok (Some t).
Proof.
  intros (Y & Zw & Z0). unfold sessionTimePointer, storagePtrText, storageText. rewrite Z0. cbn. rewrite Z0.
  unfold scannedTime. cbn. by rewrite parse_format_storage.
Qed.

(** What a login leaves behind. *)
Lemma create_keeps token session metadata :
  (seRole session = RoleAdmin /\ seCPAAPIKeyID session = 0 \/ seRole session = RoleAPIKeyViewer) ->
  triple (fun s => hasStore s = true /\ rows_of s !! sessionTokenHash token = None)
    (create local ttl now fault (Ok token) session metadata)
    (fun r s => forall t e, r = Ok (Ok (t, e)) ->
       exists y, seRole y = seRole session /\ seExpiresAt y = e /\ issued_ok ttl now y /\
         hasStore s = true /\ kept local quote token y s).
Proof.
  intros Ro. unfold create.
  set (fresh := fun s => hasStore s = true /\ rows_of s !! sessionTokenHash token = None).
  assert (Setrows : forall rows s, hasStore (setRows rows s) = hasStore s) by (intros rows s; unfold hasStore, setRows; cbn; by destruct (smStore s)).
  eapply triple_try with (Q := fun _ => fresh); [| |by intros e s _].
  - unfold cleanupExpiredLocked. eapply triple_bind; [apply (triple_clock now fresh); by intros s|]. intros t.
    eapply triple_bind with (Q := fun _ => fresh); [apply triple_change; by intros s []|]. intros _.
    apply triple_stored; [done| |done]. apply triple_rows; [|by intros s e []]. intros s [[H R] St]. cbn [fst snd].
    split; [by rewrite Setrows|]. rewrite rows_setRows, St. apply map_lookup_filter_None. left. exact R.
  - intros _. eapply triple_bind; [apply (triple_clock now fresh); by intros s|]. intros t. cbv zeta.
    set (y := mkSession _ _ _ _ _ _ _ _ _ _).
    apply triple_fact with (F := exists k, t = now k); [by intros s (_ & k & _ & ->); exists k|]. intros [k Ek].
    assert (I : issued_ok ttl now y).
    { split; [done|]. split; [apply Normalize_twice|]. exists k. by rewrite <- Ek. }
    destruct (now_readable k) as [Rn Rt]. pose proof (scanned_readable (now k) Rn) as [Sc Sp].
    eapply triple_bind with (Q := fun saved s => match saved with
      | Ok _ => hasStore s = true /\ exists row, rows_of s !! sessionTokenHash token = Some row /\ row_fine local quote y row
      | Err _ => True end).
    + apply triple_stored; [done| |intros s [[St _] _] N; congruence].
      unfold Save, storageText. cbn [seExpiresAt y]. destruct Rt as (_ & _ & Z0). rewrite Ek.
      change (db_text (StorageTimeSerializer_Value local (FieldTime (now k + ttl)))) with
        (match (if IsZero (now k + ttl) then DbNull else DbText (FormatStorageTime local (now k + ttl))) with DbText s => Some s | _ => None end).
      rewrite Z0. apply triple_rows; [|by intros s e _]. intros s [[[St Rn'] _] _]. cbn [fst snd].
      split; [by rewrite Setrows|]. rewrite rows_setRows, St, Rn', lookup_insert_eq. eexists. split; [done|].
      split; [|split; [|]].
      * unfold row_alike, savedRow, upserted. cbn. rewrite Normalize_twice, Ek. done.
      * eexists. cbn. rewrite Ek. apply Sp.
      * eexists. cbn. rewrite Ek. apply Sc.
    + intros [[]|e]; [|apply triple_frame; intros s _ t' e' [=]].
      eapply triple_bind with (Q := fun _ s => hasStore s = true /\ kept local quote token y s).
      { apply triple_change. intros s [St R]. split; [done|]. split; [|exact R]. intros x Lx. cbn in Lx.
        rewrite lookup_insert_eq in Lx. by injection Lx as <-. }
      intros _. apply triple_frame. intros s [St K] t' e' [= <- <-]. exists y. by split_and!.
Qed.

End Survives.

(** *** A login, a restart, and the next request *)

Definition demo_time (k : nat) : Time := (if (k <? 8)%nat then 1709164800 else 1709251300) * Second.
Definition demo_zone : Location := FixedZone 28800.
Definition demo_quote (s : string) : string := s.
Definition never (n : nat) : option string := None.

Abbreviation demo_login source :=
  (create demo_zone (24 * Hour) demo_time never (Ok "secret") (emptySession RoleAdmin source 0)
     (mkClientMetadata " 10.0.0.1 " "browser")).
Abbreviation demo_get := (Get demo_zone demo_quote demo_time never id "secret").
Abbreviation demo_step := (session_step demo_zone demo_quote (24 * Hour) demo_time never map_to_list map_to_list).
Definition demo_manager : Sessions := NewPersistentSessionManager ∅.
Definition demo_after : Sessions := restarted (dbTables (demo_login SessionSourceStandard (mkDb demo_manager 0)).1).

Lemma demo_readable k : readable demo_zone (demo_time k) /\ readable demo_zone (demo_time k + 24 * Hour).
Proof.
  unfold demo_time, readable. destruct (k <? 8)%nat.
  all: split; (split; [apply year_in_range_dec; vm_compute; reflexivity|]);
    (split; [|vm_compute; reflexivity]); vm_compute; repeat split.
Qed.

Lemma demo_texts_ordered k j : demo_time k < demo_time j + 24 * Hour ->
  string_lt (FormatStorageTime demo_zone (demo_time k)) (FormatStorageTime demo_zone (demo_time j + 24 * Hour)) = true.
Proof.
  intros H. rewrite (format_storage_lex demo_zone (demo_time k) (demo_time j + 24 * Hour) 28800 eq_refl eq_refl
    ltac:(discriminate) (proj1 (proj1 (demo_readable k))) (proj1 (proj2 (demo_readable j)))).
  by apply Z.ltb_lt.
Qed.

Lemma demo_runs ask : ask "secret" -> rtc (demo_step ask) demo_manager demo_after.
Proof.
  intros Ha. eapply rtc_l; [|apply rtc_once; apply step_restart; vm_compute; reflexivity].
  refine (step_section _ _ _ _ _ _ _ _ _ (SCreateAdmin (Ok "secret") SessionSourceStandard
    (mkClientMetadata " 10.0.0.1 " "browser")) 0%nat _). by intros t [= <-].
Qed.

Lemma only_issued_sessions_witness : exists x, (demo_get (mkDb demo_after 0)).2 = Ok (Some x) /\
  exists before t y after k,
    smLog (dbTables (demo_get (mkDb demo_after 0)).1) = before ++ Issued t y :: after /\
    sessionTokenHash t = sessionTokenHash "secret" /\
    Forall (fun e => ends "secret" (seRole y) e = false) after /\
    seRole x = seRole y /\ seSource x = seSource y /\ seCPAAPIKeyID x = seCPAAPIKeyID y /\
    seExpiresAt x = seCreatedAt y + 24 * Hour /\
    smReadings (dbTables (demo_get (mkDb demo_after 0)).1) = S k /\ demo_time k < seExpiresAt x.
Proof.
  eexists. split; [vm_compute; reflexivity|].
  refine (only_issued_sessions demo_zone demo_quote (24 * Hour) demo_time never map_to_list map_to_list
    (fun k => proj2 (demo_readable k)) id "secret" demo_manager demo_after 0 _ _ (demo_runs _ I) _ _).
  - by right.
  - intros s. apply rtc_refl.
  - vm_compute. reflexivity.
Defined.


(** The hypothesis about texts is needed: in the hour that comes twice the cleanup
    deletes a session 45 minutes before it expires. *)
Example session_lost_in_the_repeated_hour :
  let local := mkLocation (-18000) [(1710054000, -14400); (1730613600, -18000)] in
  let row := mkAuthSession RoleAdmin SessionSourceStandard EmptyString 0 EmptyString EmptyString EmptyString None
               (FormatStorageTime local (1730615400 * Second)) None None in
  let d := mkDb (NewPersistentSessionManager {[ "hash" := row ]}) 0 in
  rows_of (dbTables (DeleteExpired local never (1730612700 * Second) d).1) !! "hash" = None.
Proof. vm_compute. reflexivity. Qed.
