(* ===== verification/Quota.v ===== *)
(** Package quota, what a provider reports and what is shown of it: types.go,
    normalize.go, subscription*.go, usage_stats.go.

    Pointers to values are options; nobody writes through one of them.  The result of
    a provider is one of the types the code switches on, by value or by pointer. *)
From S2P Require Import Prelude GoStrings GoTime Timeutil Entities GoFloat IdentityStats.
From Stdlib Require Import Ascii.

Local Open Scope string_scope.
Local Open Scope list_scope.
Local Open Scope Z_scope.

(** ** types.go *)

Record QuotaWindow := mkQuotaWindow { qwDuration : option float64; qwUnit : string; qwSeconds : option Z }.

Record SubscriptionInfo := mkSubscription {
  suProvider : string;
  suPlan : string;
  suTierID : string;
  suTierName : string;
}.

Record QuotaRow := mkQuotaRow {
  qrKey : string;
  qrLabel : string;
  qrScope : string;
  qrMetric : string;
  qrGroupKey : string;
  qrGroupLabel : string;
  qrGroupDescription : string;
  qrUsed : option float64;
  qrLimit : option float64;
  qrRemaining : option float64;
  qrUsedPercent : option float64;
  qrRemainingFraction : option float64;
  qrAllowed : option bool;
  qrLimitReached : option bool;
  qrWindow : option QuotaWindow;
  qrResetAt : string;
  qrResetAfterSeconds : option Z;
  qrWindowUsageTokens : option Z;
  qrWindowUsageCost : option float64;
}.

Record CodexUsageWindow := mkCodexWindow {
  cwUsedPercent : float64;
  cwLimitWindowSeconds : Z;
  cwResetAfterSeconds : Z;
  cwResetAt : Z;
  cwWindowUsageTokens : option Z;
  cwWindowUsageCost : option float64;
  cwHasUsedPercent : bool;
  cwHasLimitWindowSeconds : bool;
  cwHasResetAfterSeconds : bool;
  cwHasResetAt : bool;
}.

Record CodexRateLimitInfo := mkRateLimit {
  rlmAllowed : option bool;
  rlmLimitReached : option bool;
  rlmPrimaryWindow : option CodexUsageWindow;
  rlmSecondaryWindow : option CodexUsageWindow;
}.

Record CodexAdditionalRateLimit := mkAdditional {
  adLimitName : string;
  adMeteredFeature : string;
  adRateLimit : option CodexRateLimitInfo;
}.

Record CodexRateLimitResetCredits := mkResetCredits { rcAvailableCount : option Z }.

Record CodexUsagePayload := mkCodexUsage {
  cuPlanType : string;
  cuRateLimit : option CodexRateLimitInfo;
  cuCodeReviewRateLimit : option CodexRateLimitInfo;
  cuAdditionalRateLimits : list CodexAdditionalRateLimit;
  cuRateLimitResetCredits : option CodexRateLimitResetCredits;
}.

Record ClaudeUsageWindow := mkClaudeWindow {
  clUtilization : float64;
  clResetsAt : string;
  clHasUtilization : bool;
}.

Record ClaudeExtraUsage := mkExtraUsage {
  exIsEnabled : bool;
  exMonthlyLimit : float64;
  exUsedCredits : float64;
  exUtilization : option float64;
}.

(** claude_reset_grants.go *)
Record ClaudeResetGrant := mkResetGrant {
  rgID : string;
  rgLabel : string;
  rgResetsTotal : Z;
  rgResetsLeft : Z;
  rgStartsAt : string;
  rgEndsAt : string;
  rgClears : list string;
  rgPaused : bool;
  rgUsableNow : bool;
  rgUseRequiresLimit : bool;
}.

Record ClaudeResetGrantStatus := mkGrantStatus {
  rsEligible : bool;
  rsIneligibleReason : string;
  rsAtLimit : bool;
  rsGrants : list ClaudeResetGrant;
  rsNextGrantID : string;
  rsWeeklyResetsAt : string;
  rsCooldownUntil : string;
  rsAvailableCount : Z;
}.

Record ClaudeUsagePayload := mkClaudeUsage {
  cpResetGrants : option ClaudeResetGrantStatus;
  cpFiveHour : option ClaudeUsageWindow;
  cpSevenDay : option ClaudeUsageWindow;
  cpSevenDayOAuthApps : option ClaudeUsageWindow;
  cpSevenDayOpus : option ClaudeUsageWindow;
  cpSevenDaySonnet : option ClaudeUsageWindow;
  cpSevenDayCowork : option ClaudeUsageWindow;
  cpIguanaNecktie : option ClaudeUsageWindow;
  cpExtraUsage : option ClaudeExtraUsage;
}.

Definition emptyClaudeUsage : ClaudeUsagePayload := mkClaudeUsage None None None None None None None None None.
Definition withFiveHour (w : option ClaudeUsageWindow) (u : ClaudeUsagePayload) : ClaudeUsagePayload :=
  mkClaudeUsage (cpResetGrants u) w (cpSevenDay u) (cpSevenDayOAuthApps u) (cpSevenDayOpus u) (cpSevenDaySonnet u)
    (cpSevenDayCowork u) (cpIguanaNecktie u) (cpExtraUsage u).
Definition withSevenDay (w : option ClaudeUsageWindow) (u : ClaudeUsagePayload) : ClaudeUsagePayload :=
  mkClaudeUsage (cpResetGrants u) (cpFiveHour u) w (cpSevenDayOAuthApps u) (cpSevenDayOpus u) (cpSevenDaySonnet u)
    (cpSevenDayCowork u) (cpIguanaNecktie u) (cpExtraUsage u).

Record ClaudeProfileAccount := mkProfileAccount {
  paUUID : string;
  paFullName : string;
  paDisplayName : string;
  paEmail : string;
  paHasClaudeMax : option bool;
  paHasClaudePro : option bool;
}.

Record ClaudeProfileOrganization := mkProfileOrganization {
  poUUID : string;
  poName : string;
  poOrganizationType : string;
  poBillingType : string;
  poRateLimitTier : string;
  poHasExtraUsageEnabled : bool;
  poSubscriptionStatus : string;
}.

Record ClaudeProfileResponse := mkProfile {
  prAccount : option ClaudeProfileAccount;
  prOrganization : option ClaudeProfileOrganization;
}.

Record CodexResult := mkCodexResult { crUsage : option CodexUsagePayload }.
Record ClaudeResult := mkClaudeResult { clUsage : option ClaudeUsagePayload; clProfile : option ClaudeProfileResponse }.

(** ProviderOutput.Result, by its dynamic type. *)
Inductive ProviderResult :=
| CodexValue (r : CodexResult)
| CodexPointer (r : option CodexResult)
| ClaudeValue (r : ClaudeResult)
| ClaudePointer (r : option ClaudeResult)
| OtherResult.

Record ProviderOutput := mkOutput { poProvider : string; poResult : ProviderResult }.

(** The result behind a value or a pointer. *)
Definition codexOf (r : ProviderResult) : option CodexResult :=
  match r with CodexValue c => Some c | CodexPointer c => c | _ => None end.
Definition claudeOf (r : ProviderResult) : option ClaudeResult :=
  match r with ClaudeValue c => Some c | ClaudePointer c => c | _ => None end.

Definition codexUsagePayloadFromProviderOutput (output : ProviderOutput) : option CodexUsagePayload :=
  match codexOf (poResult output) with Some r => crUsage r | None => None end.
Definition claudeUsagePayloadFromProviderOutput (output : ProviderOutput) : option ClaudeUsagePayload :=
  match claudeOf (poResult output) with Some r => clUsage r | None => None end.

Definition normalizeIdentityType (identityType : string) : string := ToLower (TrimSpace identityType).

(** strings.EqualFold(s, word), for an ASCII word without k and s, the letters that
    other runes fold to. *)
Definition EqualFold (s word : string) : bool :=
  String.string_of_list_ascii (map lower_byte (String.list_ascii_of_string s)) =?s word.

(** ** normalize.go *)

Definition quotaWindowFiveHourSeconds : Z := 5 * 60 * 60.
Definition quotaWindowSevenDaySeconds : Z := 7 * 24 * 60 * 60.
Definition quotaWindowThirtyDaySeconds : Z := 30 * 24 * 60 * 60.
Definition quotaWindowAverageMonthSeconds : Z := 365 * 24 * 60 * 60 / 12.

Definition secondsWindow (seconds : Z) : option QuotaWindow := Some (mkQuotaWindow None EmptyString (Some seconds)).

Definition claudeWindowRow (key label scope : string) (window : ClaudeUsageWindow) : QuotaRow :=
  mkQuotaRow key label scope EmptyString EmptyString EmptyString EmptyString None None None
    (Some (clUtilization window)) None None None
    (if key =?s "five_hour" then secondsWindow quotaWindowFiveHourSeconds
     else if HasPrefix key "seven_day" then secondsWindow quotaWindowSevenDaySeconds else None)
    (clResetsAt window) None None None.

Definition appendClaudeWindowQuotaRow (rows : list QuotaRow) (key label scope : string)
    (window : option ClaudeUsageWindow) : list QuotaRow :=
  match window with
  | None => rows
  | Some window => rows ++ [claudeWindowRow key label scope window]
  end.

Definition extraUsageRow (extra : ClaudeExtraUsage) : QuotaRow :=
  mkQuotaRow "extra_usage" "Extra Usage" "extra_usage" EmptyString EmptyString EmptyString EmptyString
    (Some (exUsedCredits extra)) (Some (exMonthlyLimit extra)) None (exUtilization extra) None
    (Some (exIsEnabled extra)) None None EmptyString None None None.

Definition normalizeClaudeQuotaRows (result_ : ClaudeResult) : list QuotaRow :=
  match clUsage result_ with
  | None => []
  | Some usage =>
      let rows := appendClaudeWindowQuotaRow [] "five_hour" "5h" "window" (cpFiveHour usage) in
      let rows := appendClaudeWindowQuotaRow rows "seven_day" "Weekly" "window" (cpSevenDay usage) in
      let rows := appendClaudeWindowQuotaRow rows "seven_day_oauth_apps" "7d OAuth Apps" "window" (cpSevenDayOAuthApps usage) in
      let rows := appendClaudeWindowQuotaRow rows "seven_day_opus" "7d Opus" "model" (cpSevenDayOpus usage) in
      let rows := appendClaudeWindowQuotaRow rows "seven_day_sonnet" "7d Sonnet" "model" (cpSevenDaySonnet usage) in
      let rows := appendClaudeWindowQuotaRow rows "seven_day_cowork" "7d Cowork" "window" (cpSevenDayCowork usage) in
      let rows := appendClaudeWindowQuotaRow rows "iguana_necktie" "Iguana Necktie" "window" (cpIguanaNecktie usage) in
      match cpExtraUsage usage with
      | None => rows
      | Some extra => rows ++ [extraUsageRow extra]
      end
  end.

(** strings.TrimPrefix, strings.TrimSuffix and strings.Replace(s, old, new, 1) of a
    non-empty old. *)
Fixpoint drop_bytes (n : nat) (s : string) : string :=
  match n, s with
  | S n, String _ s => drop_bytes n s
  | _, _ => s
  end.
Fixpoint take_bytes (n : nat) (s : string) : string :=
  match n, s with
  | S n, String a s => String a (take_bytes n s)
  | _, _ => EmptyString
  end.
Definition TrimPrefix (s p : string) : string := if HasPrefix s p then drop_bytes (String.length p) s else s.
Definition TrimSuffix (s p : string) : string :=
  if HasSuffix s p then take_bytes (String.length s - String.length p) s else s.
Fixpoint Replace1 (s old new : string) : string :=
  if HasPrefix s old then String.append new (drop_bytes (String.length old) s)
  else match s with
       | EmptyString => EmptyString
       | String a s => String a (Replace1 s old new)
       end.

Definition windowLabels : list string := ["5h"; "Weekly"; "Monthly"; "Window"].

Definition codexKnownWindowLabel (label replacement : string) : string :=
  if existsb (String.eqb label) windowLabels then replacement
  else match List.find (fun candidate => Contains label candidate) windowLabels with
       | Some candidate => Replace1 label candidate replacement
       | None => label
       end.

Definition codexWindowRole (key : string) : string :=
  if HasSuffix key ".primary_window" then "Primary"
  else if HasSuffix key ".secondary_window" then "Secondary"
  else EmptyString.

Definition codexPrefixedWindowRole (key role : string) : string :=
  if HasPrefix key "code_review_rate_limit." then String.append "Code Review " role
  else if HasPrefix key "additional_rate_limits." then
    let name := TrimPrefix key "additional_rate_limits." in
    let name := TrimSuffix name ".primary_window" in
    let name := TrimSuffix name ".secondary_window" in
    if negb (name =?s EmptyString) then String.append name (String.append " " role) else role
  else role.

Definition codexRoleWindowLabel (key label : string) : string :=
  let role := codexWindowRole key in
  if role =?s EmptyString then label
  else
    let fallback := codexPrefixedWindowRole key role in
    if (label =?s EmptyString) || existsb (String.eqb label) windowLabels then fallback
    else match List.find (fun candidate => Contains label candidate) windowLabels with
         | Some candidate => Replace1 label candidate role
         | None => fallback
         end.

Definition codexWindowLabel (key label : string) (seconds : Z) : string :=
  if seconds =? quotaWindowFiveHourSeconds then codexKnownWindowLabel label "5h"
  else if seconds =? quotaWindowSevenDaySeconds then codexKnownWindowLabel label "Weekly"
  else if (seconds =? quotaWindowThirtyDaySeconds) || (seconds =? quotaWindowAverageMonthSeconds)
  then codexKnownWindowLabel label "Monthly"
  else codexRoleWindowLabel key label.

Section Rows.
Context (local : Location).

Definition codexWindowRow (key label scope metric : string) (info : CodexRateLimitInfo) (window : CodexUsageWindow)
    : QuotaRow :=
  mkQuotaRow key (codexWindowLabel key label (cwLimitWindowSeconds window)) scope metric EmptyString EmptyString
    EmptyString None None None (Some (cwUsedPercent window)) None (rlmAllowed info) (rlmLimitReached info)
    (if negb (cwLimitWindowSeconds window =? 0) then secondsWindow (cwLimitWindowSeconds window) else None)
    (if negb (cwResetAt window =? 0) then FormatStorageTime local (unix_time (cwResetAt window)) else EmptyString)
    (if negb (cwResetAfterSeconds window =? 0) then Some (cwResetAfterSeconds window) else None)
    (cwWindowUsageTokens window) (cwWindowUsageCost window).

Definition appendCodexWindowQuotaRow (rows : list QuotaRow) (key label scope metric : string)
    (info : CodexRateLimitInfo) (window : option CodexUsageWindow) : list QuotaRow :=
  match window with
  | None => rows
  | Some window => rows ++ [codexWindowRow key label scope metric info window]
  end.

Definition appendCodexWindowQuotaRows (rows : list QuotaRow) (keyPrefix primaryLabel secondaryLabel scope metric : string)
    (info : option CodexRateLimitInfo) : list QuotaRow :=
  match info with
  | None => rows
  | Some info =>
      let rows := appendCodexWindowQuotaRow rows (String.append keyPrefix ".primary_window") primaryLabel scope metric
                    info (rlmPrimaryWindow info) in
      appendCodexWindowQuotaRow rows (String.append keyPrefix ".secondary_window") secondaryLabel scope metric
        info (rlmSecondaryWindow info)
  end.

Definition appendAdditional (rows : list QuotaRow) (additional : CodexAdditionalRateLimit) : list QuotaRow :=
  let name := adLimitName additional in
  let metric := if adMeteredFeature additional =?s EmptyString then name else adMeteredFeature additional in
  appendCodexWindowQuotaRows rows (String.append "additional_rate_limits." name) (String.append name " 5h")
    (String.append name " Weekly") "additional" metric (adRateLimit additional).

Definition normalizeCodexQuotaRows (result_ : CodexResult) : list QuotaRow :=
  match crUsage result_ with
  | None => []
  | Some usage =>
      let rows := appendCodexWindowQuotaRows [] "rate_limit" "5h" "Weekly" "window" EmptyString (cuRateLimit usage) in
      let rows := appendCodexWindowQuotaRows rows "code_review_rate_limit" "Code Review 5h" "Code Review Weekly"
                    "code_review" EmptyString (cuCodeReviewRateLimit usage) in
      foldl appendAdditional rows (cuAdditionalRateLimits usage)
  end.

Definition NormalizeQuotaRows (output : ProviderOutput) : list QuotaRow :=
  match poResult output with
  | CodexValue r => normalizeCodexQuotaRows r
  | CodexPointer (Some r) => normalizeCodexQuotaRows r
  | ClaudeValue r => normalizeClaudeQuotaRows r
  | ClaudePointer (Some r) => normalizeClaudeQuotaRows r
  | _ => []
  end.

End Rows.

(** ** subscription*.go *)

Definition newClaudeSubscription (plan : string) : SubscriptionInfo := mkSubscription "claude" plan EmptyString EmptyString.

Definition claudeMaxPlan (organization : option ClaudeProfileOrganization) : string :=
  match organization with
  | None => "max"
  | Some organization =>
      if poRateLimitTier organization =?s "default_claude_max_5x" then "max-5x"
      else if poRateLimitTier organization =?s "default_claude_max_20x" then "max-20x"
      else "max"
  end.

Definition isTrue (b : option bool) : bool := match b with Some true => true | _ => false end.
Definition isFalse (b : option bool) : bool := match b with Some false => true | _ => false end.

Definition resolveClaudeSubscription (result_ : ProviderResult) : option SubscriptionInfo :=
  match claudeOf result_ with
  | None => None
  | Some value =>
      match clProfile value with
      | None => None
      | Some profile =>
          let hasMax := match prAccount profile with Some a => paHasClaudeMax a | None => None end in
          let hasPro := match prAccount profile with Some a => paHasClaudePro a | None => None end in
          let organizationType := match prOrganization profile with
            | Some o => ToLower (TrimSpace (poOrganizationType o)) | None => EmptyString end in
          let subscriptionStatus := match prOrganization profile with
            | Some o => ToLower (TrimSpace (poSubscriptionStatus o)) | None => EmptyString end in
          if isTrue hasMax then Some (newClaudeSubscription (claudeMaxPlan (prOrganization profile)))
          else if isTrue hasPro then Some (newClaudeSubscription "pro")
          else if (organizationType =?s "claude_team") && (subscriptionStatus =?s "active")
          then Some (newClaudeSubscription "team")
          else if negb (organizationType =?s EmptyString) && negb (organizationType =?s "claude_free") then None
          else if isFalse hasMax && isFalse hasPro then Some (newClaudeSubscription "free")
          else None
      end
  end.

Definition newCodexSubscription (rawPlan : string) : option SubscriptionInfo :=
  let displayPlan := TrimSpace rawPlan in
  if displayPlan =?s EmptyString then None
  else
    let canonicalPlan := ToLower displayPlan in
    let canonicalPlan :=
      if canonicalPlan =?s "pro" then "pro-20x"
      else if existsb (String.eqb canonicalPlan) ["prolite"; "pro-lite"; "pro_lite"] then "pro-5x"
      else if existsb (String.eqb canonicalPlan) ["free"; "plus"; "team"; "pro-5x"; "pro-20x"; "enterprise"]
      then canonicalPlan
      else displayPlan in
    Some (mkSubscription "codex" canonicalPlan EmptyString EmptyString).

Definition codexUsageSubscription (usage : option CodexUsagePayload) : option SubscriptionInfo :=
  match usage with None => None | Some usage => newCodexSubscription (cuPlanType usage) end.

Definition resolveCodexSubscription (result_ : ProviderResult) : option SubscriptionInfo :=
  match codexOf result_ with None => None | Some value => codexUsageSubscription (crUsage value) end.

Definition NormalizeSubscription (output : ProviderOutput) : option SubscriptionInfo :=
  let provider := normalizeIdentityType (poProvider output) in
  let subscription :=
    if provider =?s "claude" then resolveClaudeSubscription (poResult output)
    else if provider =?s "codex" then resolveCodexSubscription (poResult output)
    else None in
  match subscription with
  | None => None
  | Some s =>
      let s := mkSubscription (normalizeIdentityType (suProvider s)) (TrimSpace (suPlan s)) (TrimSpace (suTierID s))
                 (TrimSpace (suTierName s)) in
      if (suProvider s =?s EmptyString) || negb (suProvider s =?s provider) || (suPlan s =?s EmptyString)
      then None else Some s
  end.

Definition ResolveIdentitySubscription (identity : UsageIdentity) : option SubscriptionInfo :=
  if negb (uiAuthType identity =? UsageIdentityAuthTypeAuthFile) then None
  else if negb (normalizeIdentityType (imType (uiMetadata identity)) =?s "codex")
          && negb (normalizeIdentityType (imProvider (uiMetadata identity)) =?s "codex") then None
  else match imPlanType (uiMetadata identity) with
       | None => None
       | Some plan => newCodexSubscription plan
       end.

(** rateLimitResetCreditsAvailableCount of service.go. *)
Definition rateLimitResetCreditsAvailableCount (output : ProviderOutput) : option Z :=
  match codexOf (poResult output) with
  | None => None
  | Some r =>
      match crUsage r with
      | None => None
      | Some usage =>
          match cuRateLimitResetCredits usage with
          | None => None
          | Some credits => rcAvailableCount credits
          end
      end
  end.

Record CheckResponse := mkCheckResponse {
  chID : string;
  chQuota : list QuotaRow;
  chSubscription : option SubscriptionInfo;
  chRateLimitResetCreditsAvailableCount : option Z;
  chClaudeResetGrants : option ClaudeResetGrantStatus;
}.

(** ** usage_stats.go *)

Definition withWindowUsage (tokens : option Z) (cost : option float64) (r : QuotaRow) : QuotaRow :=
  mkQuotaRow (qrKey r) (qrLabel r) (qrScope r) (qrMetric r) (qrGroupKey r) (qrGroupLabel r) (qrGroupDescription r)
    (qrUsed r) (qrLimit r) (qrRemaining r) (qrUsedPercent r) (qrRemainingFraction r) (qrAllowed r)
    (qrLimitReached r) (qrWindow r) (qrResetAt r) (qrResetAfterSeconds r) tokens cost.

Definition withQuota (rows : list QuotaRow) (r : CheckResponse) : CheckResponse :=
  mkCheckResponse (chID r) rows (chSubscription r) (chRateLimitResetCreditsAvailableCount r) (chClaudeResetGrants r).

(** Seconds of the window of a row. *)
Definition rowSeconds (row : QuotaRow) : option Z :=
  match qrWindow row with None => None | Some w => qwSeconds w end.

Definition shouldBackfillWindowUsageStats (row : QuotaRow) : bool :=
  if bool_decide (qrWindowUsageTokens row <> None) && match qrWindowUsageCost row with Some _ => true | None => false end
  then false
  else if negb (EqualFold (TrimSpace (qrScope row)) "window") then false
  else match rowSeconds row with
       | None => false
       | Some s => (s =? quotaWindowFiveHourSeconds) || (s =? quotaWindowSevenDaySeconds)
                   || (s =? quotaWindowThirtyDaySeconds) || (s =? quotaWindowAverageMonthSeconds)
       end.

Section Stats.
(** [stats] is SumByAuthIndex of the calculator, one result for each question. *)
Context (local : Location) (stats : Time -> Time -> option (Z * float64)).

Definition quotaRowUsageWindow (row : QuotaRow) (now : Time) : option (Time * Time) :=
  match rowSeconds row with
  | None => None
  | Some seconds =>
      if seconds <=? 0 then None
      else
        let now := NormalizeStorageTime now in
        let resetAt :=
          if negb (qrResetAt row =?s EmptyString)
          then match ParseStorageTime local (qrResetAt row) with
               | Ok t => Some (NormalizeStorageTime t)
               | Err _ => None
               end
          else match qrResetAfterSeconds row with
               | Some after_ => if 0 <=? after_ then Some (now + mul64 after_ Second) else None
               | None => None
               end in
        match resetAt with
        | None => None
        | Some resetAt =>
            let windowStart := resetAt + mul64 (- seconds) Second in
            if now <? resetAt then Some (windowStart, now) else Some (windowStart, resetAt)
        end
  end.

Definition attachRow (now : Time) (row : QuotaRow) : QuotaRow :=
  if negb (shouldBackfillWindowUsageStats row) then row
  else
    let row := withWindowUsage None None row in
    match quotaRowUsageWindow row now with
    | None => row
    | Some (windowStart, windowEnd) =>
        match stats windowStart windowEnd with
        | None => row
        | Some (tokens, cost) => withWindowUsage (Some tokens) (Some cost) row
        end
    end.

Definition attachWindowUsageStatsWithProvider (response : CheckResponse) (now : Time) : CheckResponse :=
  withQuota (map (attachRow now) (chQuota response)) response.

End Stats.
