(* ===== verification/DisplayName.v ===== *)
(** helper/redact.go and helper/usage_identity_display_name.go: masked secrets and the
    name an identity is shown under. *)
From S2P Require Import Prelude GoStrings Entities IdentityStats.
From Stdlib Require Import Ascii.

Local Open Scope string_scope.
Local Open Scope list_scope.
Local Open Scope Z_scope.

(** U+FFFD, which a byte that starts no rune is decoded to. *)
Definition replacement : list ascii := [mk_byte 239; mk_byte 191; mk_byte 189].

(** []rune(s): the encodings of the runes, one by one. *)
Fixpoint runes (l : list ascii) : list (list ascii) :=
  match l with
  | [] => []
  | a :: r1 =>
      if in_range 0 127 a then [a] :: runes r1
      else match r1 with
           | b :: r2 =>
               if in_range 194 223 a && cont b then [a; b] :: runes r2
               else match r2 with
                    | c :: r3 =>
                        if in_range 224 239 a && second3 a b && cont c then [a; b; c] :: runes r3
                        else match r3 with
                             | e :: r4 =>
                                 if in_range 240 244 a && second4 a b && cont c && cont e then [a; b; c; e] :: runes r4
                                 else replacement :: runes r1
                             | [] => replacement :: runes r1
                             end
                    | [] => replacement :: runes r1
                    end
           | [] => replacement :: runes r1
           end
  end.

Definition string_of_runes (l : list (list ascii)) : string := String.string_of_list_ascii (concat l).

Definition sensitiveValueMask : string := "*********".

Definition RedactSensitiveValue (value : string) : string :=
  let trimmed := TrimSpace value in
  if (trimmed =?s EmptyString) || (trimmed =?s "unknown") then "unknown"
  else
    let rs := runes (String.list_ascii_of_string trimmed) in
    if (length rs <=? 9)%nat then sensitiveValueMask
    else String.append (string_of_runes (firstn 3 rs))
           (String.append sensitiveValueMask (string_of_runes (skipn (length rs - 6) rs))).

Definition maskedUsageIdentityLookupKey (value : string) : string :=
  let trimmed := TrimSpace value in
  if trimmed =?s EmptyString then EmptyString
  else
    let masked := RedactSensitiveValue trimmed in
    if masked =?s "unknown" then EmptyString else masked.

Fixpoint distinctQualifiers (values seen : list string) : list string :=
  match values with
  | [] => seen
  | value :: values =>
      let value := TrimSpace value in
      if (value =?s EmptyString) || existsb (String.eqb value) seen then distinctQualifiers values seen
      else distinctQualifiers values (seen ++ [value])
  end.
Definition displayQualifiers (values : list string) : list string := distinctQualifiers values [].

(** strings.TrimRight(s, /), on the reversed bytes. *)
Fixpoint drop_slashes (l : list ascii) : list ascii :=
  match l with
  | a :: l' => if Ascii.eqb a (mk_byte 47) then drop_slashes l' else l
  | [] => []
  end.

Definition drop_ (n : nat) (s : string) : string :=
  String.string_of_list_ascii (skipn n (String.list_ascii_of_string s)).
Definition drop_last (n : nat) (s : string) : string :=
  String.string_of_list_ascii (firstn (String.length s - n) (String.list_ascii_of_string s)).

Definition formatBaseURLDisplay (raw : string) : string :=
  let trimmed := TrimSpace raw in
  if trimmed =?s EmptyString then EmptyString
  else
    let lower := ToLower trimmed in
    let trimmed :=
      if HasPrefix lower "https://" then drop_ 8 trimmed
      else if HasPrefix lower "http://" then drop_ 7 trimmed
      else trimmed in
    let trimmed :=
      String.string_of_list_ascii (rev (drop_slashes (rev (String.list_ascii_of_string trimmed)))) in
    if HasSuffix (ToLower trimmed) "/v1" then drop_last 3 trimmed else trimmed.

Fixpoint firstNonEmptyString (values : list string) : string :=
  match values with
  | [] => EmptyString
  | value :: values =>
      let trimmed := TrimSpace value in
      if negb (trimmed =?s EmptyString) then trimmed else firstNonEmptyString values
  end.

Definition Join (values : list string) (separator : string) : string :=
  match values with
  | [] => EmptyString
  | value :: values => foldl (fun acc v => String.append acc (String.append separator v)) value values
  end.

Definition UsageIdentityDisplayName (item : UsageIdentity) : string :=
  let m := uiMetadata item in
  let alias := match uiAlias item with Some a => TrimSpace a | None => EmptyString end in
  if negb (alias =?s EmptyString) then alias
  else
    let name := TrimSpace (imName m) in
    let provider := TrimSpace (imProvider m) in
    if negb (uiAuthType item =? UsageIdentityAuthTypeAIProvider)
    then if negb (name =?s EmptyString) then name else firstNonEmptyString [provider; uiIdentity item]
    else
      let isOpenAICompatible := TrimSpace (imType m) =?s "openai" in
      if isOpenAICompatible && negb (name =?s EmptyString) && negb (name =?s "openai") && (provider =?s name)
      then
        let lookupKey := maskedUsageIdentityLookupKey (imLookupKey m) in
        if negb (lookupKey =?s EmptyString) then Join (displayQualifiers [name; lookupKey]) " @ " else name
      else
        let qualifiers := displayQualifiers [TrimSpace (imPrefix m); formatBaseURLDisplay (imBaseURL m)] in
        if (0 <? length qualifiers)%nat then Join qualifiers " @ " else name.
