(* ===== verification/HeaderPending.v ===== *)
(** Package quota, header_cache_worker.go, what waits to be flushed: the snapshots of
    the response headers of a minute, one for each identity and at most 1000, whose
    components are merged by their own times of observation.

    The pointers of the code are to frozen snapshots and are values here; a nil pointer
    among the snapshots is [None].  Map iteration is only used to find the oldest
    entry, and the answer does not depend on its order. *)
From S2P Require Import Prelude GoStrings GoTime Timeutil Entities GoFloat IdentityStats Quota.
From stdpp Require Import sorting.
From Stdlib Require Import Ascii.

Local Open Scope string_scope.
Local Open Scope list_scope.
Local Open Scope Z_scope.

Definition usageHeaderPendingIdentityLimit : Z := 1000.

(** The observations for the history are not looked at here. *)
Record UsageHeaderSnapshot := mkHeaderSnapshot {
  hdAuthType : string;
  hdAuthIndex : string;
  hdProvider : string;
  hdObservedAt : Time;
  hdCacheOutput : ProviderOutput;
  hdPendingMainObservedAt : Time;
  hdPendingMainLimitReachedObservedAt : Time;
  hdPendingAdditionalObservedAt : gmap string Time;
  hdPendingClaudeObservedAt : gmap string Time;
}.

Definition withOutput (output : ProviderOutput) (s : UsageHeaderSnapshot) : UsageHeaderSnapshot :=
  mkHeaderSnapshot (hdAuthType s) (hdAuthIndex s) (hdProvider s) (hdObservedAt s) output (hdPendingMainObservedAt s)
    (hdPendingMainLimitReachedObservedAt s) (hdPendingAdditionalObservedAt s) (hdPendingClaudeObservedAt s).

Definition usageHeaderObservedAtBefore (candidate existing : Time) : bool :=
  if IsZero candidate then negb (IsZero existing)
  else if IsZero existing then false
  else candidate <? existing.

Definition usageHeaderSnapshotIsNewer (candidate existing : UsageHeaderSnapshot) : bool :=
  if IsZero (hdObservedAt candidate) then IsZero (hdObservedAt existing)
  else if IsZero (hdObservedAt existing) then true
  else negb (hdObservedAt candidate <? hdObservedAt existing).

(** ** Codex *)

Definition pendingUsageHeaderMainObservedAt (snapshot : UsageHeaderSnapshot) (usage : CodexUsagePayload) : Time :=
  match cuRateLimit usage with
  | None => zero_time
  | Some _ =>
      if negb (IsZero (hdPendingMainObservedAt snapshot)) then hdPendingMainObservedAt snapshot
      else hdObservedAt snapshot
  end.

Definition pendingUsageHeaderAdditionalObservedAt (snapshot : UsageHeaderSnapshot) (limitName : string) : Time :=
  match hdPendingAdditionalObservedAt snapshot !! limitName with
  | Some observedAt => observedAt
  | None => hdObservedAt snapshot
  end.

(** The first entry of the name is replaced when the candidate is not older; [None]
    when there is none. *)
Fixpoint replaceLimit (candidate : CodexAdditionalRateLimit) (newer : bool) (merged : list CodexAdditionalRateLimit)
    : option (list CodexAdditionalRateLimit) :=
  match merged with
  | [] => None
  | limit :: merged =>
      if adLimitName limit =?s adLimitName candidate then Some ((if newer then candidate else limit) :: merged)
      else match replaceLimit candidate newer merged with
           | Some merged => Some (limit :: merged)
           | None => None
           end
  end.

Fixpoint mergeAdditional (candidateSnapshot : UsageHeaderSnapshot) (candidates merged : list CodexAdditionalRateLimit)
    (observedAtByLimit : gmap string Time) : list CodexAdditionalRateLimit * gmap string Time :=
  match candidates with
  | [] => (merged, observedAtByLimit)
  | candidate :: candidates =>
      let name := adLimitName candidate in
      let candidateObservedAt := pendingUsageHeaderAdditionalObservedAt candidateSnapshot name in
      let existingObservedAt := default zero_time (observedAtByLimit !! name) in
      let newer := negb (usageHeaderObservedAtBefore candidateObservedAt existingObservedAt) in
      match replaceLimit candidate newer merged with
      | Some merged =>
          mergeAdditional candidateSnapshot candidates merged
            (if newer then <[name := candidateObservedAt]> observedAtByLimit else observedAtByLimit)
      | None =>
          mergeAdditional candidateSnapshot candidates (merged ++ [candidate])
            (<[name := candidateObservedAt]> observedAtByLimit)
      end
  end.

Definition mergePendingCodexAdditionalRateLimits (existingSnapshot : UsageHeaderSnapshot)
    (existing : list CodexAdditionalRateLimit) (candidateSnapshot : UsageHeaderSnapshot)
    (candidates : list CodexAdditionalRateLimit) : list CodexAdditionalRateLimit * gmap string Time :=
  if (length existing =? 0)%nat && (length candidates =? 0)%nat then ([], ∅)
  else
    let observedAtByLimit := foldl (fun m limit =>
      <[adLimitName limit := pendingUsageHeaderAdditionalObservedAt existingSnapshot (adLimitName limit)]> m)
      ∅ existing in
    mergeAdditional candidateSnapshot candidates existing observedAtByLimit.

(** The flag of one snapshot, and the time it was observed. *)
Definition limitReachedOf (snapshot : UsageHeaderSnapshot) (usage : CodexUsagePayload) : option (bool * Time) :=
  match cuRateLimit usage with
  | None => None
  | Some info =>
      match rlmLimitReached info with
      | None => None
      | Some flag =>
          Some (flag, if IsZero (hdPendingMainLimitReachedObservedAt snapshot) then hdObservedAt snapshot
                      else hdPendingMainLimitReachedObservedAt snapshot)
      end
  end.

(** The loop over existing and candidate: the flag so far and its time. *)
Definition latestFlag (sofar : option bool * Time) (flag : option (bool * Time)) : option bool * Time :=
  match flag with
  | None => sofar
  | Some (value, observedAt) =>
      match sofar.1 with
      | None => (Some value, observedAt)
      | Some _ => if negb (usageHeaderObservedAtBefore observedAt sofar.2) then (Some value, observedAt) else sofar
      end
  end.

Definition withLimitReached (flag : option bool) (info : CodexRateLimitInfo) : CodexRateLimitInfo :=
  mkRateLimit (rlmAllowed info) flag (rlmPrimaryWindow info) (rlmSecondaryWindow info).

Definition mergeCodex (existing candidate : UsageHeaderSnapshot) (existingUsage candidateUsage : CodexUsagePayload)
    : UsageHeaderSnapshot :=
  let newer := usageHeaderSnapshotIsNewer candidate existing in
  let baseSnapshot := if newer then candidate else existing in
  let baseUsage := if newer then candidateUsage else existingUsage in
  let otherUsage := if newer then existingUsage else candidateUsage in
  let planType :=
    if TrimSpace (cuPlanType baseUsage) =?s EmptyString then cuPlanType otherUsage else cuPlanType baseUsage in
  let existingMainObservedAt := pendingUsageHeaderMainObservedAt existing existingUsage in
  let candidateMainObservedAt := pendingUsageHeaderMainObservedAt candidate candidateUsage in
  let '(rateLimit, mainObservedAt) :=
    match cuRateLimit candidateUsage, cuRateLimit existingUsage with
    | Some c, None => (Some c, candidateMainObservedAt)
    | Some c, Some e =>
        if negb (usageHeaderObservedAtBefore candidateMainObservedAt existingMainObservedAt)
        then (Some c, candidateMainObservedAt) else (Some e, existingMainObservedAt)
    | None, Some e => (Some e, existingMainObservedAt)
    | None, None => (None, zero_time)
    end in
  let '(rateLimit, flagObservedAt) :=
    match rateLimit with
    | None => (None, hdPendingMainLimitReachedObservedAt baseSnapshot)
    | Some info =>
        let '(flag, at_) := latestFlag (latestFlag (None, zero_time) (limitReachedOf existing existingUsage))
                              (limitReachedOf candidate candidateUsage) in
        (Some (withLimitReached flag info), at_)
    end in
  let '(additional, additionalObservedAt) :=
    mergePendingCodexAdditionalRateLimits existing (cuAdditionalRateLimits existingUsage) candidate
      (cuAdditionalRateLimits candidateUsage) in
  mkHeaderSnapshot (hdAuthType baseSnapshot) (hdAuthIndex baseSnapshot) (hdProvider baseSnapshot)
    (hdObservedAt baseSnapshot)
    (mkOutput (poProvider (hdCacheOutput baseSnapshot))
       (CodexValue (mkCodexResult (Some (mkCodexUsage planType rateLimit (cuCodeReviewRateLimit baseUsage)
          additional (cuRateLimitResetCredits baseUsage))))))
    mainObservedAt flagObservedAt additionalObservedAt (hdPendingClaudeObservedAt baseSnapshot).

(** ** Claude *)

Definition pendingClaudeWindowObservedAt (snapshot : UsageHeaderSnapshot) (key : string) : Time :=
  match hdPendingClaudeObservedAt snapshot !! key with
  | Some observedAt => observedAt
  | None => hdObservedAt snapshot
  end.

(** One of the two windows: what the target becomes, which was [base], and its time. *)
Definition mergeClaudeWindow (existing candidate base : option ClaudeUsageWindow) (existingAt candidateAt : Time)
    : option ClaudeUsageWindow * option Time :=
  match candidate, existing with
  | Some c, None => (Some c, Some candidateAt)
  | Some c, Some e =>
      if negb (usageHeaderObservedAtBefore candidateAt existingAt) then (Some c, Some candidateAt)
      else (Some e, Some existingAt)
  | None, Some e => (Some e, Some existingAt)
  | None, None => (base, None)
  end.

Definition insertTime (key : string) (at_ : option Time) (m : gmap string Time) : gmap string Time :=
  match at_ with None => m | Some t => <[key := t]> m end.

Definition mergePendingClaudeUsageHeaderCacheSnapshot (existing candidate : UsageHeaderSnapshot)
    : UsageHeaderSnapshot :=
  let newer := usageHeaderSnapshotIsNewer candidate existing in
  let base := if newer then candidate else existing in
  match claudeUsagePayloadFromProviderOutput (hdCacheOutput existing),
        claudeUsagePayloadFromProviderOutput (hdCacheOutput candidate) with
  | Some existingUsage, Some candidateUsage =>
      let usage := if newer then candidateUsage else existingUsage in
      let '(five, fiveAt) := mergeClaudeWindow (cpFiveHour existingUsage) (cpFiveHour candidateUsage) (cpFiveHour usage)
        (pendingClaudeWindowObservedAt existing "five_hour") (pendingClaudeWindowObservedAt candidate "five_hour") in
      let '(seven, sevenAt) := mergeClaudeWindow (cpSevenDay existingUsage) (cpSevenDay candidateUsage) (cpSevenDay usage)
        (pendingClaudeWindowObservedAt existing "seven_day") (pendingClaudeWindowObservedAt candidate "seven_day") in
      mkHeaderSnapshot (hdAuthType base) (hdAuthIndex base) (hdProvider base) (hdObservedAt base)
        (mkOutput (poProvider (hdCacheOutput base))
           (ClaudeValue (mkClaudeResult (Some (withSevenDay seven (withFiveHour five usage))) None)))
        (hdPendingMainObservedAt base) (hdPendingMainLimitReachedObservedAt base)
        (hdPendingAdditionalObservedAt base) (insertTime "seven_day" sevenAt (insertTime "five_hour" fiveAt ∅))
  | _, _ => base
  end.

Definition mergePendingUsageHeaderCacheSnapshot (existing candidate : UsageHeaderSnapshot) : UsageHeaderSnapshot :=
  if negb (ToLower (TrimSpace (hdProvider existing)) =?s ToLower (TrimSpace (hdProvider candidate)))
  then if usageHeaderSnapshotIsNewer candidate existing then candidate else existing
  else if EqualFold (TrimSpace (hdProvider existing)) "claude"
  then mergePendingClaudeUsageHeaderCacheSnapshot existing candidate
  else match codexUsagePayloadFromProviderOutput (hdCacheOutput existing),
             codexUsagePayloadFromProviderOutput (hdCacheOutput candidate) with
       | Some existingUsage, Some candidateUsage => mergeCodex existing candidate existingUsage candidateUsage
       | _, _ => if usageHeaderSnapshotIsNewer candidate existing then candidate else existing
       end.

(** ** The map *)

Definition Pending : Type := gmap string UsageHeaderSnapshot.

Definition nul : string := String (mk_byte 0) EmptyString.

(** The key of a snapshot. *)
Definition pendingKey (snapshot : UsageHeaderSnapshot) : string :=
  let authIndex := TrimSpace (hdAuthIndex snapshot) in
  if authIndex =?s EmptyString
  then String.append (hdProvider snapshot) (String.append nul (hdAuthType snapshot))
  else if EqualFold (TrimSpace (hdProvider snapshot)) "claude"
  then String.append "claude" (String.append nul authIndex)
  else authIndex.

(** Older, or as old with a smaller key. *)
Definition olderEntry (a b : string * UsageHeaderSnapshot) : bool :=
  usageHeaderObservedAtBefore (hdObservedAt a.2) (hdObservedAt b.2)
  || ((hdObservedAt a.2 =? hdObservedAt b.2) && string_lt a.1 b.1).

Definition oldestPendingUsageHeaderSnapshot (pending : Pending) : option (string * UsageHeaderSnapshot) :=
  foldl (fun oldest entry =>
    match oldest with
    | None => Some entry
    | Some o => if olderEntry entry o then Some entry else oldest
    end) None (map_to_list pending).

Definition mergePendingUsageHeaderSnapshot (pending : Pending) (snapshot : UsageHeaderSnapshot) : Pending :=
  let key := pendingKey snapshot in
  match pending !! key with
  | Some existing => <[key := mergePendingUsageHeaderCacheSnapshot existing snapshot]> pending
  | None =>
      if Z.of_nat (size pending) <? usageHeaderPendingIdentityLimit then <[key := snapshot]> pending
      else
        match oldestPendingUsageHeaderSnapshot pending with
        | None => pending
        | Some (oldestKey, oldestSnapshot) =>
            if negb (usageHeaderSnapshotIsNewer snapshot oldestSnapshot) then pending
            else <[key := snapshot]> (delete oldestKey pending)
        end
  end.

Definition mergePendingUsageHeaderSnapshotPointers (pending : Pending) (snapshots : list (option UsageHeaderSnapshot))
    : Pending :=
  foldl (fun pending snapshot =>
    match snapshot with
    | None => pending
    | Some snapshot => mergePendingUsageHeaderSnapshot pending snapshot
    end) pending snapshots.

(** pendingUsageHeaderSnapshots: in the order of the keys. *)
Definition entryOrder (a b : string * UsageHeaderSnapshot) : Prop := string_lt b.1 a.1 = false.
#[export] Instance entryOrder_dec : RelDecision entryOrder := fun a b => decide (string_lt b.1 a.1 = false).

Definition pendingUsageHeaderSnapshots (pending : Pending) : list UsageHeaderSnapshot :=
  map snd (merge_sort entryOrder (map_to_list pending)).
