(* ===== verification/RefreshTasks.v ===== *)
(** Package quota, the tasks of refreshing and the cache of their results:
    refresh.go, auto_refresh.go, inspection.go and the part of header_cache_worker.go
    that writes into the cache.

    A task is an object behind a pointer that the map, the dispatcher and the worker
    share; [tkObject] is its identity, and every write goes through the map, after a
    comparison of the pointers where the code has one. *)
From S2P Require Import Prelude GoStrings GoTime Timeutil Entities GoFloat IdentityStats Quota DisplayName HeaderPending.
From stdpp Require Import gmap sorting.
From Stdlib Require Import Ascii.

Local Open Scope string_scope.
Local Open Scope list_scope.
Local Open Scope Z_scope.

Inductive RefreshSource :=
| RefreshSourceManual
| RefreshSourceInspection
| RefreshSourceScheduled
| RefreshSourceCacheBackfill
| RefreshSourceUsageHeader.

#[export] Instance RefreshSource_eq_dec : EqDecision RefreshSource.
Proof. solve_decision. Defined.

Inductive RefreshTaskStatus :=
| RefreshTaskStatusQueued
| RefreshTaskStatusRunning
| RefreshTaskStatusCompleted
| RefreshTaskStatusFailed.

#[export] Instance RefreshTaskStatus_eq_dec : EqDecision RefreshTaskStatus.
Proof. solve_decision. Defined.

Record UpstreamResponse := mkUpstream {
  upMethod : string;
  upURL : string;
  upStatusCode : Z;
  upHeader : list (string * list string);
  upBody : string;
}.

Record RefreshTaskRecord := mkTask {
  tkObject : nat;
  tkAuthIndex : string;
  tkName : string;
  tkType : string;
  tkFileName : option string;
  tkStatus : RefreshTaskStatus;
  tkQuota : option CheckResponse;
  tkError : string;
  tkHTTPStatusCode : option Z;
  tkSource : RefreshSource;
  tkCreatedAt : Time;
  tkStartedAt : Time;
  tkRefreshedAt : Time;
  tkExpiresAt : Time;
  tkUpstreamResponses : list UpstreamResponse;
}.

(** config.go *)
Definition RefreshWorkerLimit : Z := 10.
Definition RefreshTransientTaskTTL : Duration := 20 * Minute.
Definition RefreshErrorCacheTTL : Duration := 4 * Hour.
Definition RefreshCacheableHTTPStatusCodes : list Z := [401; 402].
Definition refreshTaskReadCleanupInterval : Duration := Minute.

Definition isRefreshCacheableHTTPStatus (statusCode : Z) : bool :=
  existsb (Z.eqb statusCode) RefreshCacheableHTTPStatusCodes.

Definition isActive (t : RefreshTaskRecord) : bool :=
  match tkStatus t with RefreshTaskStatusQueued | RefreshTaskStatusRunning => true | _ => false end.

(** What refreshMu guards, and the next object. *)
Record Tasks := mkTasks {
  tsMap : gmap string RefreshTaskRecord;
  tsNextCleanupAt : Time;
  tsInspectionCompletedAt : Time;
  tsInspectionRoundActive : bool;
  tsInspectionRoundAuthIndexSet : gset string;
  tsNextObject : nat;
}.

Definition noTasks : Tasks := mkTasks ∅ zero_time zero_time false ∅ 0.

Definition setTasks (m : gmap string RefreshTaskRecord) (s : Tasks) : Tasks :=
  mkTasks m (tsNextCleanupAt s) (tsInspectionCompletedAt s) (tsInspectionRoundActive s)
    (tsInspectionRoundAuthIndexSet s) (tsNextObject s).

(** A pointer to a task: the object and its auth index, which is never written. *)
Definition TaskRef : Type := nat * string.

(** ** Creating and advancing tasks *)

Definition hasActiveRefreshTaskByAuthIndex (authIndex : string) (s : Tasks) : bool :=
  match tsMap s !! authIndex with Some t => isActive t | None => false end.

Definition queuedTask (object : nat) (authIndex : string) (source : RefreshSource) (identity : UsageIdentity) (now : Time)
    : RefreshTaskRecord :=
  mkTask object authIndex (UsageIdentityDisplayName identity) (imType (uiMetadata identity))
    (imFileName (uiMetadata identity)) RefreshTaskStatusQueued None EmptyString None source
    (NormalizeStorageTime now) zero_time zero_time zero_time [].

(** The task and whether it was created. *)
Definition ensureRefreshTaskWithIdentity (authIndex : string) (source : RefreshSource) (identity : UsageIdentity)
    (now : Time) (s : Tasks) : Tasks * (RefreshTaskRecord * bool) :=
  match tsMap s !! authIndex with
  | Some task =>
      if isActive task then (s, (task, false))
      else
        let task := queuedTask (tsNextObject s) authIndex source identity now in
        (mkTasks (<[authIndex := task]> (tsMap s)) (tsNextCleanupAt s) (tsInspectionCompletedAt s)
           (tsInspectionRoundActive s) (tsInspectionRoundAuthIndexSet s) (S (tsNextObject s)), (task, true))
  | None =>
      let task := queuedTask (tsNextObject s) authIndex source identity now in
      (mkTasks (<[authIndex := task]> (tsMap s)) (tsNextCleanupAt s) (tsInspectionCompletedAt s)
         (tsInspectionRoundActive s) (tsInspectionRoundAuthIndexSet s) (S (tsNextObject s)), (task, true))
  end.

(** The task of the map, when it is the expected object. *)
Definition expectedTask (expected : TaskRef) (s : Tasks) : option RefreshTaskRecord :=
  match tsMap s !! expected.2 with
  | Some task => if (tkObject task =? expected.1)%nat then Some task else None
  | None => None
  end.

Definition markRefreshTaskRunning (expected : TaskRef) (now : Time) (s : Tasks)
    : Tasks * option (string * RefreshSource) :=
  match expectedTask expected s with
  | None => (s, None)
  | Some t =>
      if bool_decide (tkStatus t <> RefreshTaskStatusQueued) then (s, None)
      else
        let t := mkTask (tkObject t) (tkAuthIndex t) (tkName t) (tkType t) (tkFileName t) RefreshTaskStatusRunning
                   (tkQuota t) (tkError t) (tkHTTPStatusCode t) (tkSource t) (tkCreatedAt t)
                   (NormalizeStorageTime now) (tkRefreshedAt t) (tkExpiresAt t) (tkUpstreamResponses t) in
        (setTasks (<[expected.2 := t]> (tsMap s)) s, Some (tkAuthIndex t, tkSource t))
  end.

Definition markRefreshTaskCompleted (expected : TaskRef) (response : CheckResponse)
    (upstreamResponses : list UpstreamResponse) (now : Time) (s : Tasks) : Tasks :=
  match expectedTask expected s with
  | None => s
  | Some t =>
      setTasks (<[expected.2 :=
        mkTask (tkObject t) (tkAuthIndex t) (tkName t) (tkType t) (tkFileName t) RefreshTaskStatusCompleted
          (Some response) (tkError t) (tkHTTPStatusCode t) (tkSource t) (tkCreatedAt t) (tkStartedAt t)
          (NormalizeStorageTime now) (tkExpiresAt t) upstreamResponses]> (tsMap s)) s
  end.

(** [message] and [httpStatusCode] are those of the error, [ttl] is refreshTaskTTL. *)
Definition markRefreshTaskFailed (ttl : Duration) (expected : TaskRef) (message : string) (httpStatusCode : option Z)
    (upstreamResponses : list UpstreamResponse) (now : Time) (s : Tasks) : Tasks :=
  match expectedTask expected s with
  | None => s
  | Some t =>
      let now := NormalizeStorageTime now in
      let cacheable := match httpStatusCode with Some c => isRefreshCacheableHTTPStatus c | None => false end in
      setTasks (<[expected.2 :=
        mkTask (tkObject t) (tkAuthIndex t) (tkName t) (tkType t) (tkFileName t) RefreshTaskStatusFailed
          (tkQuota t) message httpStatusCode (tkSource t) (tkCreatedAt t) (tkStartedAt t) now
          (now + (if cacheable then RefreshErrorCacheTTL else ttl)) upstreamResponses]> (tsMap s)) s
  end.

Definition deleteRefreshTask (expected : TaskRef) (s : Tasks) : Tasks :=
  match expectedTask expected s with
  | None => s
  | Some _ => setTasks (delete expected.2 (tsMap s)) s
  end.

Definition UpdateUsageIdentityDisplayNameSnapshot (identity : UsageIdentity) (s : Tasks) : Tasks :=
  let authIndex := TrimSpace (uiIdentity identity) in
  if authIndex =?s EmptyString then s
  else match tsMap s !! authIndex with
       | None => s
       | Some t =>
           setTasks (<[authIndex :=
             mkTask (tkObject t) (tkAuthIndex t) (UsageIdentityDisplayName identity) (tkType t) (tkFileName t)
               (tkStatus t) (tkQuota t) (tkError t) (tkHTTPStatusCode t) (tkSource t) (tkCreatedAt t)
               (tkStartedAt t) (tkRefreshedAt t) (tkExpiresAt t) (tkUpstreamResponses t)]> (tsMap s)) s
       end.

(** ** Cleaning up and reading *)

Definition expired (now : Time) (t : RefreshTaskRecord) : bool :=
  negb (IsZero (tkExpiresAt t)) && negb (now <? tkExpiresAt t).

Definition cleanupExpiredRefreshTasksLocked (now : Time) (s : Tasks) : Tasks :=
  mkTasks (filter (fun p => expired now p.2 = false) (tsMap s)) (now + refreshTaskReadCleanupInterval)
    (tsInspectionCompletedAt s) (tsInspectionRoundActive s) (tsInspectionRoundAuthIndexSet s) (tsNextObject s).

Definition cleanupRefreshTasksForReadLocked (now : Time) (s : Tasks) : Tasks :=
  if negb (now <? tsNextCleanupAt s) then cleanupExpiredRefreshTasksLocked now s else s.

Definition refreshTaskForReadLocked (authIndex : string) (now : Time) (s : Tasks) : Tasks * option RefreshTaskRecord :=
  match tsMap s !! authIndex with
  | Some task =>
      if expired now task then (setTasks (delete authIndex (tsMap s)) s, None) else (s, Some task)
  | None => (s, None)
  end.

Definition clearSettledRefreshTasks (s : Tasks) : Tasks :=
  setTasks (filter (fun p => isActive p.2 = true) (tsMap s)) s.

Record CachedQuotaItem := mkCachedItem {
  cqAuthIndex : string;
  cqFileName : option string;
  cqStatus : RefreshTaskStatus;
  cqQuota : option CheckResponse;
  cqError : string;
  cqHTTPStatusCode : option Z;
  cqExpiresAt : option Time;
  cqRefreshedAt : option Time;
  cqUpstreamResponses : list UpstreamResponse;
}.

(** The switch of GetCachedQuota. *)
Definition cachedItem (authIndex : string) (t : RefreshTaskRecord) : option CachedQuotaItem :=
  match tkStatus t, tkQuota t, tkHTTPStatusCode t with
  | RefreshTaskStatusCompleted, Some quota, _ =>
      Some (mkCachedItem authIndex (tkFileName t) RefreshTaskStatusCompleted (Some quota) EmptyString None None
              (Some (tkRefreshedAt t)) (tkUpstreamResponses t))
  | RefreshTaskStatusFailed, _, Some code =>
      if isRefreshCacheableHTTPStatus code
      then Some (mkCachedItem authIndex (tkFileName t) RefreshTaskStatusFailed None (tkError t) (Some code)
                   (Some (tkExpiresAt t)) (Some (tkRefreshedAt t)) (tkUpstreamResponses t))
      else None
  | _, _, _ => None
  end.

Fixpoint readCached (authIndexes : list string) (seen : gset string) (now : Time) (s : Tasks)
    : Tasks * list CachedQuotaItem :=
  match authIndexes with
  | [] => (s, [])
  | raw :: authIndexes =>
      let authIndex := TrimSpace raw in
      if (authIndex =?s EmptyString) || bool_decide (authIndex ∈ seen) then readCached authIndexes seen now s
      else
        let '(s, task) := refreshTaskForReadLocked authIndex now s in
        let '(s, items) := readCached authIndexes ({[authIndex]} ∪ seen) now s in
        (s, match task with
            | None => items
            | Some task => match cachedItem authIndex task with Some item => item :: items | None => items end
            end)
  end.

Definition GetCachedQuota (authIndexes : list string) (now : Time) (s : Tasks)
    : Tasks * result string (list CachedQuotaItem) :=
  match authIndexes with
  | [] => (s, Err "quota request validation failed: auth_indexes are required")
  | _ =>
      let '(s, items) := readCached authIndexes ∅ now (cleanupRefreshTasksForReadLocked now s) in
      (s, Ok items)
  end.

(** The task behind RefreshTaskResponse; [None] is ErrTaskNotFound. *)
Definition GetRefreshTaskByAuthIndex (authIndex : string) (now : Time) (s : Tasks)
    : Tasks * result string (option RefreshTaskRecord) :=
  let authIndex := TrimSpace authIndex in
  if authIndex =?s EmptyString then (s, Err "quota request validation failed: auth_index is required")
  else
    let '(s, task) := refreshTaskForReadLocked authIndex now (cleanupRefreshTasksForReadLocked now s) in
    (s, Ok task).

(** shouldSkipAutoRefreshForCachedHTTPError *)
Definition shouldSkipAutoRefreshForCachedHTTPError (authIndex : string) (now : Time) (s : Tasks) : bool :=
  match tsMap s !! authIndex with
  | Some t =>
      match tkStatus t, tkHTTPStatusCode t with
      | RefreshTaskStatusFailed, Some code =>
          isRefreshCacheableHTTPStatus code && (IsZero (tkExpiresAt t) || (NormalizeStorageTime now <? tkExpiresAt t))
      | _, _ => false
      end
  | None => false
  end.
