(* ===== verification/HeaderCache.v ===== *)
(** Package quota, header_cache_worker.go, from a flushed snapshot to the cache: finding
    the identity, normalizing, the windows of local usage, and the merge with what the
    cache holds. *)
From S2P Require Import Prelude GoStrings GoTime Timeutil Entities GoFloat IdentityStats Quota DisplayName HeaderPending RefreshTasks.
From stdpp Require Import gmap sorting.
From Stdlib Require Import Ascii.

Local Open Scope string_scope.
Local Open Scope list_scope.
Local Open Scope Z_scope.

(** ** Merging rows *)

Definition usageHeaderQuotaRowIsWindow (row : QuotaRow) : bool := EqualFold (TrimSpace (qrScope row)) "window".

Definition blank (s : string) : bool := TrimSpace s =?s EmptyString.
Definition unlessBlank (new old : string) : string := if blank new then old else new.
Definition orElse {A} (new old : option A) : option A := match new with Some _ => new | None => old end.

Definition mergeUsageHeaderQuotaRow (existing header : QuotaRow) : QuotaRow :=
  let window := usageHeaderQuotaRowIsWindow header in
  mkQuotaRow (unlessBlank (qrKey header) (qrKey existing)) (unlessBlank (qrLabel header) (qrLabel existing))
    (unlessBlank (qrScope header) (qrScope existing)) (unlessBlank (qrMetric header) (qrMetric existing))
    (qrGroupKey existing) (qrGroupLabel existing) (qrGroupDescription existing)
    (orElse (qrUsed header) (qrUsed existing)) (orElse (qrLimit header) (qrLimit existing))
    (orElse (qrRemaining header) (qrRemaining existing)) (orElse (qrUsedPercent header) (qrUsedPercent existing))
    (orElse (qrRemainingFraction header) (qrRemainingFraction existing)) (orElse (qrAllowed header) (qrAllowed existing))
    (orElse (qrLimitReached header) (qrLimitReached existing)) (orElse (qrWindow header) (qrWindow existing))
    (unlessBlank (qrResetAt header) (qrResetAt existing))
    (orElse (qrResetAfterSeconds header) (qrResetAfterSeconds existing))
    (if window then qrWindowUsageTokens header else orElse (qrWindowUsageTokens header) (qrWindowUsageTokens existing))
    (if window then qrWindowUsageCost header else orElse (qrWindowUsageCost header) (qrWindowUsageCost existing)).

Definition setLimitReached (flag : option bool) (r : QuotaRow) : QuotaRow :=
  mkQuotaRow (qrKey r) (qrLabel r) (qrScope r) (qrMetric r) (qrGroupKey r) (qrGroupLabel r) (qrGroupDescription r)
    (qrUsed r) (qrLimit r) (qrRemaining r) (qrUsedPercent r) (qrRemainingFraction r) (qrAllowed r) flag (qrWindow r)
    (qrResetAt r) (qrResetAfterSeconds r) (qrWindowUsageTokens r) (qrWindowUsageCost r).

Definition isMainRow (row : QuotaRow) : bool := HasPrefix (qrKey row) "rate_limit.".

(** The loop over the rows of the header: by key, the order of the keys, and the flag. *)
Fixpoint indexRows (header : list QuotaRow) (headerByKey : gmap string QuotaRow) (headerOrder : list string)
    (mainLimitReached : option bool) : gmap string QuotaRow * list string * option bool :=
  match header with
  | [] => (headerByKey, headerOrder, mainLimitReached)
  | row :: header =>
      if blank (qrKey row) then indexRows header headerByKey headerOrder mainLimitReached
      else
        indexRows header (<[qrKey row := row]> headerByKey)
          (match headerByKey !! qrKey row with Some _ => headerOrder | None => headerOrder ++ [qrKey row] end)
          (if isMainRow row then orElse (qrLimitReached row) mainLimitReached else mainLimitReached)
  end.

(** The loop over the old rows: the rows put out and the keys seen. *)
Fixpoint mergeRows (existing : list QuotaRow) (headerByKey : gmap string QuotaRow) (seen : gset string)
    : list QuotaRow * gset string :=
  match existing with
  | [] => ([], seen)
  | row :: existing =>
      match headerByKey !! qrKey row with
      | Some replacement =>
          let '(merged, seen) := mergeRows existing headerByKey ({[qrKey row]} ∪ seen) in
          (mergeUsageHeaderQuotaRow row replacement :: merged, seen)
      | None =>
          let '(merged, seen) :=
            mergeRows existing headerByKey (if blank (qrKey row) then seen else {[qrKey row]} ∪ seen) in
          (row :: merged, seen)
      end
  end.

(** The new rows, in the order of the header. *)
Definition newRows (headerByKey : gmap string QuotaRow) (seen : gset string) (headerOrder : list string)
    : list QuotaRow :=
  omap (fun key => if bool_decide (key ∈ seen) then None else headerByKey !! key) headerOrder.

Definition mergeUsageHeaderQuotaRows (existing header : list QuotaRow) : list QuotaRow :=
  let '(headerByKey, headerOrder, mainLimitReached) := indexRows header ∅ [] None in
  let '(merged, seen) := mergeRows existing headerByKey ∅ in
  let merged := merged ++ newRows headerByKey seen headerOrder in
  match mainLimitReached with
  | None => merged
  | Some _ => map (fun row => if isMainRow row then setLimitReached mainLimitReached row else row) merged
  end.

Definition mergeUsageHeaderQuotaResponse (existing header : CheckResponse) : CheckResponse :=
  mkCheckResponse (if chID header =?s EmptyString then chID existing else chID header)
    (mergeUsageHeaderQuotaRows (chQuota existing) (chQuota header))
    (orElse (chSubscription header) (chSubscription existing))
    (orElse (chRateLimitResetCreditsAvailableCount header) (chRateLimitResetCreditsAvailableCount existing))
    (orElse (chClaudeResetGrants header) (chClaudeResetGrants existing)).

(** ** Writing into the cache *)

Definition sameType (a b : string) : bool := normalizeIdentityType a =?s normalizeIdentityType b.

Definition usageHeaderCompletedCacheIsCurrentOrNewer (existing : RefreshTaskRecord) (identityType : string)
    (observedAt : Time) : bool :=
  sameType (tkType existing) identityType && bool_decide (tkStatus existing = RefreshTaskStatusCompleted)
  && negb (IsZero (tkRefreshedAt existing)) && negb (tkRefreshedAt existing <? observedAt).

Definition shouldProcessUsageHeaderQuotaSnapshot (authIndex identityType : string) (observedAt : Time) (s : Tasks) : bool :=
  match tsMap s !! authIndex with
  | None => true
  | Some existing =>
      if isActive existing && sameType (tkType existing) identityType then false
      else negb (usageHeaderCompletedCacheIsCurrentOrNewer existing identityType observedAt)
  end.

Definition usageHeaderIdentityIsCodex (identity : UsageIdentity) : bool :=
  normalizeIdentityType (imType (uiMetadata identity)) =?s "codex".

Definition headerTask (object : nat) (authIndex : string) (identity : UsageIdentity) (response : CheckResponse)
    (observedAt : Time) (upstreamResponses : list UpstreamResponse) : RefreshTaskRecord :=
  mkTask object authIndex (UsageIdentityDisplayName identity) (imType (uiMetadata identity))
    (imFileName (uiMetadata identity)) RefreshTaskStatusCompleted (Some response) EmptyString None
    RefreshSourceUsageHeader observedAt zero_time observedAt zero_time upstreamResponses.

(** What an old record of the same type does to the response. *)
Definition mergedWith (existing : RefreshTaskRecord) (response : CheckResponse) (limitReachedObservedAt : Time)
    (identity : UsageIdentity) : CheckResponse :=
  match tkQuota existing with
  | None => response
  | Some quota =>
      let response :=
        if usageHeaderIdentityIsCodex identity
           && usageHeaderCompletedCacheIsCurrentOrNewer existing (imType (uiMetadata identity)) limitReachedObservedAt
        then withQuota (map (fun row => if isMainRow row then setLimitReached None row else row) (chQuota response))
               response
        else response in
      mergeUsageHeaderQuotaResponse quota response
  end.

Definition mergeUsageHeaderQuotaCache (authIndex : string) (response : CheckResponse) (observedAt : Time)
    (limitReachedObservedAt : Time) (identity : UsageIdentity) (s : Tasks) : Tasks * bool :=
  let type := imType (uiMetadata identity) in
  let write response upstreamResponses :=
    (mkTasks (<[authIndex := headerTask (tsNextObject s) authIndex identity response observedAt upstreamResponses]> (tsMap s))
       (tsNextCleanupAt s) (tsInspectionCompletedAt s) (tsInspectionRoundActive s) (tsInspectionRoundAuthIndexSet s)
       (S (tsNextObject s)), true) in
  match tsMap s !! authIndex with
  | None => write response []
  | Some existing =>
      if isActive existing && sameType (tkType existing) type then (s, false)
      else if usageHeaderCompletedCacheIsCurrentOrNewer existing type observedAt then (s, false)
      else if sameType (tkType existing) type
      then write (mergedWith existing response limitReachedObservedAt identity) (tkUpstreamResponses existing)
      else write response []
  end.

(** ** From a snapshot to its response *)

Definition usageHeaderIdentitySupported (identity : UsageIdentity) : bool :=
  let provider := normalizeIdentityType (imType (uiMetadata identity)) in
  (provider =?s "codex") || (provider =?s "claude").

Definition usageHeaderIdentityMatchesSnapshot (identity : UsageIdentity) (snapshot : UsageHeaderSnapshot) : bool :=
  let provider := ToLower (TrimSpace (hdProvider snapshot)) in
  if negb (usageHeaderIdentitySupported identity)
     || negb (normalizeIdentityType (imType (uiMetadata identity)) =?s provider) then false
  else if provider =?s "codex"
  then match codexUsagePayloadFromProviderOutput (hdCacheOutput snapshot) with Some _ => true | None => false end
  else if provider =?s "claude"
  then match poResult (hdCacheOutput snapshot) with ClaudeValue _ | ClaudePointer _ => true | _ => false end
  else false.

Section Apply.
(** [stats] answers for one auth index, [clock] is time.Now; [between] is what other
    goroutines do to the tasks between the two lock sections. *)
Context (local : Location) (stats : string -> Time -> Time -> option (Z * float64)) (clock : Time)
  (between : Tasks -> Tasks).

(** The response of a snapshot, before its windows are counted. *)
Definition headerResponse (authIndex : string) (output : ProviderOutput) : CheckResponse :=
  mkCheckResponse authIndex (NormalizeQuotaRows local output) (NormalizeSubscription output)
    (rateLimitResetCreditsAvailableCount output) None.

(** applyUsageHeaderSnapshotWithIdentity of a snapshot without pending Claude windows. *)
Definition applyPlain (snapshot : UsageHeaderSnapshot) (identity : UsageIdentity) (s : Tasks) : Tasks * bool :=
  let authType := ToLower (TrimSpace (hdAuthType snapshot)) in
  let authIndex := TrimSpace (hdAuthIndex snapshot) in
  if negb (authType =?s "oauth") || (authIndex =?s EmptyString)
     || negb (TrimSpace (uiIdentity identity) =?s authIndex) then (s, false)
  else if negb (usageHeaderIdentityMatchesSnapshot identity snapshot) then (s, false)
  else
    let response := headerResponse authIndex (hdCacheOutput snapshot) in
    if (length (chQuota response) =? 0)%nat then (s, false)
    else
      let observedAt := NormalizeStorageTime (hdObservedAt snapshot) in
      let observedAt := if IsZero observedAt then NormalizeStorageTime clock else observedAt in
      if negb (shouldProcessUsageHeaderQuotaSnapshot authIndex (imType (uiMetadata identity)) observedAt s)
      then (s, false)
      else
        let response := attachWindowUsageStatsWithProvider local (stats authIndex) response observedAt in
        let flagAt := NormalizeStorageTime (hdPendingMainLimitReachedObservedAt snapshot) in
        let flagAt := if IsZero flagAt then observedAt else flagAt in
        mergeUsageHeaderQuotaCache authIndex response observedAt flagAt identity (between s).

(** The windows of applyPendingClaudeUsageHeaderSnapshot, a snapshot for each time. *)
Definition claudeWindowSnapshot (snapshot : UsageHeaderSnapshot) (at_ : Time) (usage : ClaudeUsagePayload)
    : UsageHeaderSnapshot :=
  mkHeaderSnapshot (hdAuthType snapshot) (hdAuthIndex snapshot) (hdProvider snapshot) at_
    (mkOutput (poProvider (hdCacheOutput snapshot)) (ClaudeValue (mkClaudeResult (Some usage) None)))
    (hdPendingMainObservedAt snapshot) (hdPendingMainLimitReachedObservedAt snapshot)
    (hdPendingAdditionalObservedAt snapshot) ∅.

Definition claudeWindowSnapshots (snapshot : UsageHeaderSnapshot) (usage : ClaudeUsagePayload)
    : list UsageHeaderSnapshot :=
  let fiveAt := pendingClaudeWindowObservedAt snapshot "five_hour" in
  let sevenAt := pendingClaudeWindowObservedAt snapshot "seven_day" in
  match cpFiveHour usage, cpSevenDay usage with
  | None, None => []
  | Some _, None => [claudeWindowSnapshot snapshot fiveAt (withFiveHour (cpFiveHour usage) emptyClaudeUsage)]
  | None, Some _ => [claudeWindowSnapshot snapshot sevenAt (withSevenDay (cpSevenDay usage) emptyClaudeUsage)]
  | Some _, Some _ =>
      let five := withFiveHour (cpFiveHour usage) emptyClaudeUsage in
      if fiveAt =? sevenAt then [claudeWindowSnapshot snapshot fiveAt (withSevenDay (cpSevenDay usage) five)]
      else
        let windows := [claudeWindowSnapshot snapshot fiveAt five;
                        claudeWindowSnapshot snapshot sevenAt (withSevenDay (cpSevenDay usage) emptyClaudeUsage)] in
        if usageHeaderObservedAtBefore sevenAt fiveAt then rev windows else windows
  end.

Fixpoint applyWindows (windows : list UsageHeaderSnapshot) (identity : UsageIdentity) (applied : bool) (s : Tasks)
    : Tasks * bool :=
  match windows with
  | [] => (s, applied)
  | window :: windows =>
      let '(s, ok) := applyPlain window identity s in applyWindows windows identity (ok || applied) s
  end.

Definition applyUsageHeaderSnapshotWithIdentity (snapshot : UsageHeaderSnapshot) (identity : UsageIdentity) (s : Tasks)
    : Tasks * bool :=
  if EqualFold (TrimSpace (hdProvider snapshot)) "claude"
     && bool_decide (hdPendingClaudeObservedAt snapshot <> ∅)
  then match claudeUsagePayloadFromProviderOutput (hdCacheOutput snapshot) with
       | None => (s, false)
       | Some usage => applyWindows (claudeWindowSnapshots snapshot usage) identity false s
       end
  else applyPlain snapshot identity s.

End Apply.

(** ** A batch *)

Fixpoint authIndexesFrom (snapshots : list UsageHeaderSnapshot) (seen : list string) : list string :=
  match snapshots with
  | [] => seen
  | snapshot :: snapshots =>
      let authType := ToLower (TrimSpace (hdAuthType snapshot)) in
      let authIndex := TrimSpace (hdAuthIndex snapshot) in
      if negb (authType =?s "oauth") || (authIndex =?s EmptyString) || existsb (String.eqb authIndex) seen
      then authIndexesFrom snapshots seen
      else authIndexesFrom snapshots (seen ++ [authIndex])
  end.
Definition usageHeaderSnapshotAuthIndexes (snapshots : list UsageHeaderSnapshot) : list string :=
  authIndexesFrom snapshots [].

(** usageHeaderIdentityLookup, from the identities the query returned. *)
Definition identitiesByAuthIndex (identities : list UsageIdentity) : gmap string UsageIdentity :=
  foldl (fun m identity =>
    let authIndex := TrimSpace (uiIdentity identity) in
    if (authIndex =?s EmptyString) || negb (usageHeaderIdentitySupported identity) then m
    else <[authIndex := identity]> m) ∅ identities.

(** The jobs of applyUsageHeaderSnapshotPointers. *)
Definition headerJobs (identityByAuthIndex : gmap string UsageIdentity) (snapshots : list UsageHeaderSnapshot)
    : list (UsageHeaderSnapshot * UsageIdentity) :=
  omap (fun snapshot =>
    match identityByAuthIndex !! TrimSpace (hdAuthIndex snapshot) with
    | Some identity =>
        if usageHeaderIdentityMatchesSnapshot identity snapshot then Some (snapshot, identity) else None
    | None => None
    end) snapshots.
