(* ===== verification/Inspection.v ===== *)
(** Package quota, inspection.go: the results of an inspection and what GetInspectionStatus
    reads from the tasks, which also settles the time the round was completed at. *)
From S2P Require Import Prelude GoStrings GoTime Timeutil Entities GoFloat IdentityStats Quota DisplayName HeaderPending RefreshTasks.
From stdpp Require Import gmap sorting.

Local Open Scope string_scope.
Local Open Scope list_scope.
Local Open Scope Z_scope.

Inductive InspectionResultStatus :=
| InspectionResultStatusNormal
| InspectionResultStatusLimitReached
| InspectionResultStatusUnauthorized401
| InspectionResultStatusPaymentRequired402
| InspectionResultStatusOtherFailed.

#[export] Instance InspectionResultStatus_eq_dec : EqDecision InspectionResultStatus.
Proof. solve_decision. Defined.

Record InspectionResult := mkInspectionResult {
  irAuthIndex : string;
  irName : string;
  irType : string;
  irFileName : option string;
  irStatus : InspectionResultStatus;
  irError : string;
  irHTTPStatusCode : option Z;
  irRefreshedAt : option Time;
}.

Record InspectionStatus := mkInspectionStatus {
  isTotal : Z;
  isCached : Z;
  isRunning : bool;
  isCompleted : bool;
  isCompletedAt : option Time;
  isNormal : Z;
  isLimitReached : Z;
  isUnauthorized401 : Z;
  isPaymentRequired402 : Z;
  isUnauthorized401402 : Z;
  isOtherFailed : Z;
  isUnknown : Z;
  isResults : list InspectionResult;
}.

(** ** The result of one task *)

Definition inspectionFailedResultStatus (statusCode : option Z) : InspectionResultStatus :=
  match statusCode with
  | None => InspectionResultStatusOtherFailed
  | Some code =>
      if code =? 401 then InspectionResultStatusUnauthorized401
      else if code =? 402 then InspectionResultStatusPaymentRequired402
      else InspectionResultStatusOtherFailed
  end.

Definition quotaRowLimitReached (row : QuotaRow) : bool :=
  match qrLimitReached row with Some b => b | None => false end.

Definition quotaRowUsedPercentAtLeast (row : QuotaRow) (threshold : float64) : bool :=
  match qrUsedPercent row with Some p => f64_le threshold p | None => false end.

Definition codexInspectionLimitReached (rows : list QuotaRow) : bool :=
  existsb (fun row => quotaRowLimitReached row || quotaRowUsedPercentAtLeast row (f64_of_int 100)) rows.

Definition claudeInspectionLimitReached (rows : list QuotaRow) : bool :=
  existsb (fun row => quotaRowUsedPercentAtLeast row (f64_of_int 100)) rows.

Definition knownProvider (value : string) : option string :=
  let normalized := ToLower (TrimSpace value) in
  if (normalized =?s "codex") || (normalized =?s "claude") then Some normalized else None.

Definition inspectionQuotaProvider (identity : UsageIdentity) (task : RefreshTaskRecord) : string :=
  match knownProvider (tkType task) with
  | Some p => p
  | None => match knownProvider (imType (uiMetadata identity)) with Some p => p | None => EmptyString end
  end.

Definition inspectionQuotaLimitReached (identity : UsageIdentity) (task : RefreshTaskRecord) (rows : list QuotaRow) : bool :=
  let provider := inspectionQuotaProvider identity task in
  if provider =?s "codex" then codexInspectionLimitReached rows
  else if provider =?s "claude" then claudeInspectionLimitReached rows
  else false.

(** normalize.go *)
Fixpoint firstNonEmpty (values : list string) : string :=
  match values with
  | [] => EmptyString
  | value :: values => if negb (value =?s EmptyString) then value else firstNonEmpty values
  end.

Definition withIdentity (authIndex : string) (i : UsageIdentity) : UsageIdentity :=
  mkUsageIdentity (uiID i) (uiAlias i) (uiAuthType i) authIndex (uiMetadata i) (uiTotals i) (uiReset i)
    (uiIsDeleted i) (uiCreatedAt i) (uiUpdatedAt i) (uiDeletedAt i).

(** [authIndex] is the normalized identity. *)
Definition inspectionResultForTask (authIndex : string) (identity : UsageIdentity) (task : RefreshTaskRecord)
    : option InspectionResult :=
  let result_ status :=
    mkInspectionResult authIndex
      (firstNonEmpty [TrimSpace (tkName task); UsageIdentityDisplayName (withIdentity authIndex identity)])
      (firstNonEmpty [tkType task; imType (uiMetadata identity)]) (tkFileName task) status (tkError task)
      (tkHTTPStatusCode task) (if IsZero (tkRefreshedAt task) then None else Some (tkRefreshedAt task)) in
  match tkStatus task with
  | RefreshTaskStatusCompleted =>
      match tkQuota task with
      | None => None
      | Some quota =>
          if inspectionQuotaLimitReached identity task (chQuota quota)
          then Some (result_ InspectionResultStatusLimitReached)
          else Some (result_ InspectionResultStatusNormal)
      end
  | RefreshTaskStatusFailed => Some (result_ (inspectionFailedResultStatus (tkHTTPStatusCode task)))
  | _ => None
  end.

(** ** The order of the results *)

Definition resultLess (a b : InspectionResult) : bool :=
  match irRefreshedAt a, irRefreshedAt b with
  | None, None => string_lt (irAuthIndex a) (irAuthIndex b)
  | None, Some _ => false
  | Some _, None => true
  | Some x, Some y =>
      if x =? y then string_lt (irAuthIndex a) (irAuthIndex b) else y <? x
  end.

Definition resultOrder (a b : InspectionResult) : Prop := resultLess b a = false.
#[export] Instance resultOrder_dec : RelDecision resultOrder := fun a b => decide (resultLess b a = false).

Definition sortInspectionResults (results : list InspectionResult) : list InspectionResult := merge_sort resultOrder results.

(** ** The round *)

Definition inspectionRoundActiveTaskLocked (authIndex : string) (task : RefreshTaskRecord) (s : Tasks) : bool :=
  if bool_decide (tkSource task <> RefreshSourceInspection) || negb (isActive task) then false
  else if negb (tsInspectionRoundActive s) || negb (IsZero (tsInspectionCompletedAt s)) then false
  else bool_decide (authIndex ∈ tsInspectionRoundAuthIndexSet s).

Definition inspectionRoundCompletedLocked (s : Tasks) : bool :=
  if negb (tsInspectionRoundActive s) then false
  else if bool_decide (tsInspectionRoundAuthIndexSet s = ∅) then false
  else if negb (IsZero (tsInspectionCompletedAt s)) then true
  else forallb (fun authIndex =>
         match tsMap s !! authIndex with
         | Some task => negb (bool_decide (tkSource task = RefreshSourceInspection) && isActive task)
         | None => true
         end) (elements (tsInspectionRoundAuthIndexSet s)).

(** What one identity adds: a result, an active task of the round, or nothing. *)
Inductive Contribution :=
| HasResult (r : InspectionResult)
| ActiveInspection
| NothingKnown.

Definition contribution (s : Tasks) (identity : UsageIdentity) : Contribution :=
  let authIndex := TrimSpace (uiIdentity identity) in
  if authIndex =?s EmptyString then NothingKnown
  else match tsMap s !! authIndex with
       | None => NothingKnown
       | Some task =>
           if isActive task
           then if inspectionRoundActiveTaskLocked authIndex task s then ActiveInspection else NothingKnown
           else match inspectionResultForTask authIndex identity task with
                | Some r => HasResult r
                | None => NothingKnown
                end
       end.

(** The counters of the loop; the last is activeInspectionTasks. *)
Record Tally := mkTally {
  tlCached : Z;
  tlNormal : Z;
  tlLimitReached : Z;
  tlUnauthorized401 : Z;
  tlPaymentRequired402 : Z;
  tlUnauthorized401402 : Z;
  tlOtherFailed : Z;
  tlResults : list InspectionResult;
  tlActive : Z;
}.

Definition countResult (r : InspectionResult) (t : Tally) : Tally :=
  let cached := tlCached t + 1 in
  let results := tlResults t ++ [r] in
  match irStatus r with
  | InspectionResultStatusNormal =>
      mkTally cached (tlNormal t + 1) (tlLimitReached t) (tlUnauthorized401 t) (tlPaymentRequired402 t)
        (tlUnauthorized401402 t) (tlOtherFailed t) results (tlActive t)
  | InspectionResultStatusLimitReached =>
      mkTally cached (tlNormal t) (tlLimitReached t + 1) (tlUnauthorized401 t) (tlPaymentRequired402 t)
        (tlUnauthorized401402 t) (tlOtherFailed t) results (tlActive t)
  | InspectionResultStatusUnauthorized401 =>
      mkTally cached (tlNormal t) (tlLimitReached t) (tlUnauthorized401 t + 1) (tlPaymentRequired402 t)
        (tlUnauthorized401402 t + 1) (tlOtherFailed t) results (tlActive t)
  | InspectionResultStatusPaymentRequired402 =>
      mkTally cached (tlNormal t) (tlLimitReached t) (tlUnauthorized401 t) (tlPaymentRequired402 t + 1)
        (tlUnauthorized401402 t + 1) (tlOtherFailed t) results (tlActive t)
  | InspectionResultStatusOtherFailed =>
      mkTally cached (tlNormal t) (tlLimitReached t) (tlUnauthorized401 t) (tlPaymentRequired402 t)
        (tlUnauthorized401402 t) (tlOtherFailed t + 1) results (tlActive t)
  end.

Definition tally (s : Tasks) (identities : list UsageIdentity) : Tally :=
  foldl (fun t identity =>
    match contribution s identity with
    | HasResult r => countResult r t
    | ActiveInspection =>
        mkTally (tlCached t) (tlNormal t) (tlLimitReached t) (tlUnauthorized401 t) (tlPaymentRequired402 t)
          (tlUnauthorized401402 t) (tlOtherFailed t) (tlResults t) (tlActive t + 1)
    | NothingKnown => t
    end) (mkTally 0 0 0 0 0 0 0 [] 0) identities.

Definition setCompletedAt (t : Time) (s : Tasks) : Tasks :=
  mkTasks (tsMap s) (tsNextCleanupAt s) t (tsInspectionRoundActive s) (tsInspectionRoundAuthIndexSet s) (tsNextObject s).

(** What GetInspectionStatus does under its lock, at [now]. *)
Definition inspectionStatusLocked (identities : list UsageIdentity) (now : Time) (s : Tasks) : Tasks * InspectionStatus :=
  let t := tally s identities in
  let total := Z.of_nat (length identities) in
  let running := 0 <? tlActive t in
  let unknown := total - tlCached t - tlActive t in
  let unknown := if unknown <? 0 then 0 else unknown in
  let completed := negb running && inspectionRoundCompletedLocked s in
  let s := if completed && IsZero (tsInspectionCompletedAt s) then setCompletedAt (NormalizeStorageTime now) s else s in
  (s, mkInspectionStatus total (tlCached t) running completed
        (if completed then Some (tsInspectionCompletedAt s) else None)
        (tlNormal t) (tlLimitReached t) (tlUnauthorized401 t) (tlPaymentRequired402 t) (tlUnauthorized401402 t)
        (tlOtherFailed t) unknown (sortInspectionResults (tlResults t))).

(** [now] cleans up, [later] is the clock under the lock. *)
Definition GetInspectionStatus (identities : list UsageIdentity) (now later : Time) (s : Tasks)
    : Tasks * InspectionStatus :=
  inspectionStatusLocked identities later (cleanupExpiredRefreshTasksLocked now s).
