(* ===== verification/RefreshRuns.v ===== *)
(** Package quota, the goroutines of the refresh tasks as a step relation: requests and
    rounds that queue tasks, dispatchers that wait for a worker slot, workers that ask
    the provider, and what else writes into the tasks meanwhile.

    A step is one lock section of refreshMu, one channel operation or one answer of the
    database or the provider.  Answers are arbitrary. *)
From S2P Require Import Prelude GoStrings GoTime Timeutil Entities GoFloat IdentityStats Quota DisplayName HeaderPending RefreshTasks HeaderCache Inspection.
From stdpp Require Import gmap sorting relations.

Local Open Scope string_scope.
Local Open Scope list_scope.
Local Open Scope Z_scope.

(** ** Which identities can be asked *)

(** resolveQuotaIdentityTypes *)
Definition resolveQuotaIdentityTypes (provider identityType : string) : list string :=
  foldl (fun candidates value =>
    let normalized := normalizeIdentityType value in
    if (normalized =?s EmptyString) || existsb (String.eqb normalized) candidates then candidates
    else candidates ++ [normalized]) [] [provider; identityType].

(** The types of NewDefaultProviderRegistry. *)
Definition registeredTypes : list string := ["codex"; "claude"].

Definition resolveQuotaHandlerForIdentity (identity : UsageIdentity) : option string :=
  List.find (fun candidate => existsb (String.eqb candidate) registeredTypes)
    (resolveQuotaIdentityTypes (imProvider (uiMetadata identity)) (imType (uiMetadata identity))).

(** validateRefreshAuthIndex: [found] is the active auth file of the index, [other]
    whether any other active identity has it. *)
Definition validateRefreshAuthIndex (found : result string (option UsageIdentity)) (other : result string bool)
    : result string (UsageIdentity + string) :=
  match found with
  | Err e => Err e
  | Ok (Some identity) =>
      match resolveQuotaHandlerForIdentity identity with
      | Some _ => Ok (inl identity)
      | None => Ok (inr "unsupported")
      end
  | Ok None =>
      match other with
      | Ok true => Ok (inr "not_auth_file")
      | Ok false => Ok (inr "not_found")
      | Err e => Err e
      end
  end.

(** ** Processes *)

(** The item a request is at: before the look at the active task, before the database
    is asked, before the task is created. *)
Inductive Phase :=
| AtNext
| AtValidate (authIndex : string)
| AtEnsure (authIndex : string) (identity : UsageIdentity).

(** Refresh; the response is [rsTasks], [rsRejected] and [rsSkippedUnsupported]. *)
Record Request := mkRequest {
  rsSource : RefreshSource;
  rsRest : list string;
  rsPhase : Phase;
  rsSeen : gset string;
  rsQueued : list TaskRef;
  rsRejected : list (string * string);
  rsSkippedUnsupported : Z;
}.

(** queueAuthFileRefreshRound, for the timer or for an inspection. *)
Record Round := mkRound {
  rdSource : RefreshSource;
  rdNow : Time;
  rdRest : list UsageIdentity;
  rdEnsure : bool;
  rdQueued : list TaskRef;
  rdIndexes : list string;
}.

(** dispatchRefreshTasks; [dpAuto] is the round of the timer, which waits for its tasks
    [dpAll] at the end. *)
Inductive DispatchPhase :=
| Waiting_for_slot
| Holding_slot
| Failing_rest
| Polling.

Record Dispatcher := mkDispatcher {
  dpPhase : DispatchPhase;
  dpTasks : list TaskRef;
  dpAll : list TaskRef;
  dpAuto : bool;
  dpContextDone : bool;
}.

(** runRefreshTaskWithWorker *)
Inductive Worker :=
| Starting (task : TaskRef)
| Checking (task : TaskRef)
| Cooling.

(** [rfLost] are the tasks of requests that returned an error; nothing reads it. *)
Record Refreshing := mkRefreshing {
  rfTasks : Tasks;
  rfLimit : nat;
  rfSlots : nat;
  rfClosing : bool;
  rfContextDone : bool;
  rfAutoRunning : bool;
  rfRequests : list Request;
  rfRounds : list Round;
  rfDispatchers : list Dispatcher;
  rfWorkers : list Worker;
  rfLost : list TaskRef;
}.

(** NewServiceWithRegistryAndOptions *)
Definition workerLimitOf (option_ : Z) : nat :=
  let workerLimit := if option_ <=? 0 then RefreshWorkerLimit else option_ in
  Z.to_nat (if 100 <? workerLimit then 100 else workerLimit).

Definition newRefreshing (workerLimit : Z) : Refreshing :=
  mkRefreshing noTasks (workerLimitOf workerLimit) 0 false false false [] [] [] [] [].

Definition refOf (t : RefreshTaskRecord) : TaskRef := (tkObject t, tkAuthIndex t).

(** What an item is rejected with before the database is asked. *)
Definition rejectedEarly (raw : string) (seen : gset string) (s : Tasks) : option string :=
  let authIndex := TrimSpace raw in
  if authIndex =?s EmptyString then Some "invalid"
  else if bool_decide (authIndex ∈ seen) then Some "duplicate_request"
  else if hasActiveRefreshTaskByAuthIndex authIndex s then Some "duplicate"
  else None.

Definition rejecting (authIndex error : string) (rest : list string) (seen : gset string) (r : Request) : Request :=
  mkRequest (rsSource r) rest AtNext seen (rsQueued r) (rsRejected r ++ [(authIndex, error)]) (rsSkippedUnsupported r).

(** An identity of a round that is passed over. *)
Definition skipsIdentity (identity : UsageIdentity) : bool :=
  (TrimSpace (uiIdentity identity) =?s EmptyString)
  || match resolveQuotaHandlerForIdentity identity with None => true | Some _ => false end.

(** The round after an identity was tried to be queued. *)
Definition roundEnsured (task : RefreshTaskRecord) (created : bool) (rest : list UsageIdentity) (r : Round) : Round :=
  if created
  then mkRound (rdSource r) (rdNow r) rest false (rdQueued r ++ [refOf task]) (rdIndexes r ++ [tkAuthIndex task])
  else if isActive task && bool_decide (tkSource task = rdSource r)
  then mkRound (rdSource r) (rdNow r) rest false (rdQueued r) (rdIndexes r ++ [tkAuthIndex task])
  else mkRound (rdSource r) (rdNow r) rest false (rdQueued r) (rdIndexes r).

(** hasActiveRefreshTask *)
Definition hasActiveRefreshTask (tasks : list TaskRef) (s : Tasks) : bool :=
  existsb (fun expected =>
    match expectedTask expected s with
    | Some t => bool_decide (tkSource t = RefreshSourceScheduled) && isActive t
    | None => false
    end) tasks.

Definition resetInspectionRound (s : Tasks) : Tasks :=
  mkTasks (tsMap s) (tsNextCleanupAt s) zero_time false ∅ (tsNextObject s).

Definition setInspectionRoundAuthIndexes (authIndexes : list string) (s : Tasks) : Tasks :=
  mkTasks (tsMap s) (tsNextCleanupAt s) (tsInspectionCompletedAt s) true (list_to_set authIndexes) (tsNextObject s).

(** What a dispatcher is after its last task. *)
Definition dispatched (d : Dispatcher) : list Dispatcher :=
  if dpAuto d then [mkDispatcher Polling [] (dpAll d) true (dpContextDone d)] else [].

(** refreshTaskErrorMessage(context.Canceled) *)
Definition canceledMessage : string := "Quota refresh timed out. Please try again later.".

(** The dispatcher of queued tasks, or their failure when no goroutine may start. *)
Definition startDispatcher (queued : list TaskRef) (auto closing contextDone : bool) : list Dispatcher :=
  match queued with
  | [] => []
  | _ => [mkDispatcher (if closing then Failing_rest else Waiting_for_slot) queued queued (auto && negb closing) contextDone]
  end.

(** The steps of the goroutines. *)
Inductive GoStep : Refreshing -> Refreshing -> Prop :=
(* Refresh *)
| item_rejected s lim slots cl ctx auto a r b rds ds ws lost raw rest error :
    rsPhase r = AtNext -> rsRest r = raw :: rest -> rejectedEarly raw (rsSeen r) s = Some error ->
    GoStep (mkRefreshing s lim slots cl ctx auto (a ++ r :: b) rds ds ws lost)
           (mkRefreshing s lim slots cl ctx auto
              (a ++ rejecting (TrimSpace raw) error rest ({[TrimSpace raw]} ∪ rsSeen r) r :: b) rds ds ws lost)
| item_looked s lim slots cl ctx auto a r b rds ds ws lost raw rest :
    rsPhase r = AtNext -> rsRest r = raw :: rest -> rejectedEarly raw (rsSeen r) s = None ->
    GoStep (mkRefreshing s lim slots cl ctx auto (a ++ r :: b) rds ds ws lost)
           (mkRefreshing s lim slots cl ctx auto
              (a ++ mkRequest (rsSource r) rest (AtValidate (TrimSpace raw)) ({[TrimSpace raw]} ∪ rsSeen r) (rsQueued r)
                      (rsRejected r) (rsSkippedUnsupported r) :: b) rds ds ws lost)
| item_refused s lim slots cl ctx auto a r b rds ds ws lost authIndex found other rejection :
    rsPhase r = AtValidate authIndex -> validateRefreshAuthIndex found other = Ok (inr rejection) ->
    GoStep (mkRefreshing s lim slots cl ctx auto (a ++ r :: b) rds ds ws lost)
           (mkRefreshing s lim slots cl ctx auto
              (a ++ (if rejection =?s "unsupported"
                     then mkRequest (rsSource r) (rsRest r) AtNext (rsSeen r) (rsQueued r) (rsRejected r)
                            (rsSkippedUnsupported r + 1)
                     else rejecting authIndex rejection (rsRest r) (rsSeen r) r) :: b) rds ds ws lost)
| item_validated s lim slots cl ctx auto a r b rds ds ws lost authIndex found other identity :
    rsPhase r = AtValidate authIndex -> validateRefreshAuthIndex found other = Ok (inl identity) ->
    GoStep (mkRefreshing s lim slots cl ctx auto (a ++ r :: b) rds ds ws lost)
           (mkRefreshing s lim slots cl ctx auto
              (a ++ mkRequest (rsSource r) (rsRest r) (AtEnsure authIndex identity) (rsSeen r) (rsQueued r)
                      (rsRejected r) (rsSkippedUnsupported r) :: b) rds ds ws lost)
| request_failed s lim slots cl ctx auto a r b rds ds ws lost authIndex found other error :
    rsPhase r = AtValidate authIndex -> validateRefreshAuthIndex found other = Err error ->
    GoStep (mkRefreshing s lim slots cl ctx auto (a ++ r :: b) rds ds ws lost)
           (mkRefreshing s lim slots cl ctx auto (a ++ b) rds ds ws (lost ++ rsQueued r))
| item_ensured s lim slots cl ctx auto a r b rds ds ws lost authIndex identity now s' task created :
    rsPhase r = AtEnsure authIndex identity ->
    ensureRefreshTaskWithIdentity authIndex (rsSource r) identity now s = (s', (task, created)) ->
    GoStep (mkRefreshing s lim slots cl ctx auto (a ++ r :: b) rds ds ws lost)
           (mkRefreshing s' lim slots cl ctx auto
              (a ++ (if created : bool
                     then mkRequest (rsSource r) (rsRest r) AtNext (rsSeen r) (rsQueued r ++ [refOf task])
                            (rsRejected r) (rsSkippedUnsupported r)
                     else rejecting authIndex "duplicate" (rsRest r) (rsSeen r) r) :: b) rds ds ws lost)
| request_done s lim slots cl ctx auto a r b rds ds ws lost :
    rsPhase r = AtNext -> rsRest r = [] ->
    GoStep (mkRefreshing s lim slots cl ctx auto (a ++ r :: b) rds ds ws lost)
           (mkRefreshing s lim slots cl ctx auto (a ++ b) rds (startDispatcher (rsQueued r) false cl ctx ++ ds) ws lost)
(* queueAuthFileRefreshRound *)
| identity_skipped s lim slots cl ctx auto rqs a r b ds ws lost identity rest :
    rdEnsure r = false -> rdRest r = identity :: rest ->
    skipsIdentity identity = true \/
    (rdSource r = RefreshSourceScheduled /\
     shouldSkipAutoRefreshForCachedHTTPError (TrimSpace (uiIdentity identity)) (rdNow r) s = true) ->
    GoStep (mkRefreshing s lim slots cl ctx auto rqs (a ++ r :: b) ds ws lost)
           (mkRefreshing s lim slots cl ctx auto rqs
              (a ++ mkRound (rdSource r) (rdNow r) rest false (rdQueued r) (rdIndexes r) :: b) ds ws lost)
| identity_looked s lim slots cl ctx auto rqs a r b ds ws lost identity rest :
    rdEnsure r = false -> rdRest r = identity :: rest -> skipsIdentity identity = false ->
    (rdSource r = RefreshSourceScheduled ->
     shouldSkipAutoRefreshForCachedHTTPError (TrimSpace (uiIdentity identity)) (rdNow r) s = false) ->
    GoStep (mkRefreshing s lim slots cl ctx auto rqs (a ++ r :: b) ds ws lost)
           (mkRefreshing s lim slots cl ctx auto rqs
              (a ++ mkRound (rdSource r) (rdNow r) (identity :: rest) true (rdQueued r) (rdIndexes r) :: b) ds ws lost)
| identity_ensured s lim slots cl ctx auto rqs a r b ds ws lost identity rest now s' task created :
    rdEnsure r = true -> rdRest r = identity :: rest ->
    ensureRefreshTaskWithIdentity (TrimSpace (uiIdentity identity)) (rdSource r) identity now s = (s', (task, created)) ->
    GoStep (mkRefreshing s lim slots cl ctx auto rqs (a ++ r :: b) ds ws lost)
           (mkRefreshing s' lim slots cl ctx auto rqs (a ++ roundEnsured task created rest r :: b) ds ws lost)
| round_done s lim slots cl ctx auto rqs a r b ds ws lost :
    rdRest r = [] ->
    let scheduled := bool_decide (rdSource r = RefreshSourceScheduled) in
    GoStep (mkRefreshing s lim slots cl ctx auto rqs (a ++ r :: b) ds ws lost)
           (mkRefreshing (if scheduled then s else setInspectionRoundAuthIndexes (rdIndexes r) s) lim slots cl ctx
              (if scheduled && (bool_decide (rdQueued r = []) || cl) then false else auto) rqs (a ++ b)
              (startDispatcher (rdQueued r) scheduled cl ctx ++ ds) ws lost)
(* dispatchRefreshTasks *)
| slot_taken s lim slots cl ctx auto rqs rds a d b ws lost :
    dpPhase d = Waiting_for_slot -> dpTasks d <> [] -> (slots < lim)%nat ->
    GoStep (mkRefreshing s lim slots cl ctx auto rqs rds (a ++ d :: b) ws lost)
           (mkRefreshing s lim (S slots) cl ctx auto rqs rds
              (a ++ mkDispatcher Holding_slot (dpTasks d) (dpAll d) (dpAuto d) (dpContextDone d) :: b) ws lost)
| worker_started s lim slots ctx auto rqs rds a d b ws lost task rest :
    dpPhase d = Holding_slot -> dpTasks d = task :: rest ->
    GoStep (mkRefreshing s lim slots false ctx auto rqs rds (a ++ d :: b) ws lost)
           (mkRefreshing s lim slots false ctx auto rqs rds
              (a ++ mkDispatcher Waiting_for_slot rest (dpAll d) (dpAuto d) (dpContextDone d) :: b)
              (Starting task :: ws) lost)
| worker_refused s lim slots ctx auto rqs rds a d b ws lost :
    dpPhase d = Holding_slot ->
    GoStep (mkRefreshing s lim (S slots) true ctx auto rqs rds (a ++ d :: b) ws lost)
           (mkRefreshing s lim slots true ctx auto rqs rds
              (a ++ mkDispatcher Failing_rest (dpTasks d) (dpAll d) (dpAuto d) (dpContextDone d) :: b) ws lost)
| dispatch_canceled s lim slots cl ctx auto rqs rds a d b ws lost :
    dpPhase d = Waiting_for_slot -> dpTasks d <> [] -> dpContextDone d = true ->
    GoStep (mkRefreshing s lim slots cl ctx auto rqs rds (a ++ d :: b) ws lost)
           (mkRefreshing s lim slots cl ctx auto rqs rds
              (a ++ mkDispatcher Failing_rest (dpTasks d) (dpAll d) (dpAuto d) true :: b) ws lost)
| task_canceled s lim slots cl ctx auto rqs rds a d b ws lost task rest now :
    dpPhase d = Failing_rest -> dpTasks d = task :: rest ->
    GoStep (mkRefreshing s lim slots cl ctx auto rqs rds (a ++ d :: b) ws lost)
           (mkRefreshing (markRefreshTaskFailed RefreshTransientTaskTTL task canceledMessage None [] now s)
              lim slots cl ctx auto rqs rds
              (a ++ mkDispatcher Failing_rest rest (dpAll d) (dpAuto d) (dpContextDone d) :: b) ws lost)
| dispatch_done s lim slots cl ctx auto rqs rds a d b ws lost :
    dpPhase d = Waiting_for_slot \/ dpPhase d = Failing_rest -> dpTasks d = [] ->
    GoStep (mkRefreshing s lim slots cl ctx auto rqs rds (a ++ d :: b) ws lost)
           (mkRefreshing s lim slots cl ctx auto rqs rds (a ++ dispatched d ++ b) ws lost)
| auto_round_done s lim slots cl ctx auto rqs rds a d b ws lost :
    dpPhase d = Polling -> hasActiveRefreshTask (dpAll d) s = false \/ dpContextDone d = true ->
    GoStep (mkRefreshing s lim slots cl ctx auto rqs rds (a ++ d :: b) ws lost)
           (mkRefreshing s lim slots cl ctx false rqs rds (a ++ b) ws lost)
(* runRefreshTaskWithWorker *)
| task_running s lim slots cl ctx auto rqs rds ds a task b lost now s' started :
    markRefreshTaskRunning task now s = (s', started) ->
    GoStep (mkRefreshing s lim slots cl ctx auto rqs rds ds (a ++ Starting task :: b) lost)
           (mkRefreshing s' lim slots cl ctx auto rqs rds ds
              (a ++ (match started with Some _ => Checking task | None => Cooling end) :: b) lost)
| task_completed s lim slots cl ctx auto rqs rds ds a task b lost response upstream now :
    GoStep (mkRefreshing s lim slots cl ctx auto rqs rds ds (a ++ Checking task :: b) lost)
           (mkRefreshing (markRefreshTaskCompleted task response upstream now s) lim slots cl ctx auto rqs rds ds
              (a ++ Cooling :: b) lost)
| task_failed s lim slots cl ctx auto rqs rds ds a task b lost message code upstream now :
    GoStep (mkRefreshing s lim slots cl ctx auto rqs rds ds (a ++ Checking task :: b) lost)
           (mkRefreshing (markRefreshTaskFailed RefreshTransientTaskTTL task message code upstream now s)
              lim slots cl ctx auto rqs rds ds (a ++ Cooling :: b) lost)
| task_unsupported s lim slots cl ctx auto rqs rds ds a task b lost :
    GoStep (mkRefreshing s lim slots cl ctx auto rqs rds ds (a ++ Checking task :: b) lost)
           (mkRefreshing (deleteRefreshTask task s) lim slots cl ctx auto rqs rds ds (a ++ Cooling :: b) lost)
| worker_done s lim slots cl ctx auto rqs rds ds a b lost :
    GoStep (mkRefreshing s lim (S slots) cl ctx auto rqs rds ds (a ++ Cooling :: b) lost)
           (mkRefreshing s lim slots cl ctx auto rqs rds ds (a ++ b) lost).

(** What comes from outside: requests, rounds, reads, headers, renames, the end.
    StartInspection is [settled_cleared], [inspection_reset], [expired_cleaned] and, once
    the credentials are listed, [start_inspection]. *)
Inductive CallStep : Refreshing -> Refreshing -> Prop :=
| refresh s lim slots cl ctx auto rqs rds ds ws lost source authIndexes now : authIndexes <> [] ->
    CallStep (mkRefreshing s lim slots cl ctx auto rqs rds ds ws lost)
             (mkRefreshing (cleanupExpiredRefreshTasksLocked now s) lim slots cl ctx auto
                (mkRequest source authIndexes AtNext ∅ [] [] 0 :: rqs) rds ds ws lost)
| auto_refresh s lim slots cl ctx rqs rds ds ws lost identities now :
    CallStep (mkRefreshing s lim slots cl ctx false rqs rds ds ws lost)
             (mkRefreshing (cleanupExpiredRefreshTasksLocked now s) lim slots cl ctx true rqs
                (mkRound RefreshSourceScheduled now identities false [] [] :: rds) ds ws lost)
| settled_cleared s lim slots cl ctx auto rqs rds ds ws lost :
    CallStep (mkRefreshing s lim slots cl ctx auto rqs rds ds ws lost)
             (mkRefreshing (clearSettledRefreshTasks s) lim slots cl ctx auto rqs rds ds ws lost)
| inspection_reset s lim slots cl ctx auto rqs rds ds ws lost :
    CallStep (mkRefreshing s lim slots cl ctx auto rqs rds ds ws lost)
             (mkRefreshing (resetInspectionRound s) lim slots cl ctx auto rqs rds ds ws lost)
| expired_cleaned s lim slots cl ctx auto rqs rds ds ws lost now :
    CallStep (mkRefreshing s lim slots cl ctx auto rqs rds ds ws lost)
             (mkRefreshing (cleanupExpiredRefreshTasksLocked now s) lim slots cl ctx auto rqs rds ds ws lost)
| start_inspection s lim slots cl ctx auto rqs rds ds ws lost identities now :
    CallStep (mkRefreshing s lim slots cl ctx auto rqs rds ds ws lost)
             (mkRefreshing s lim slots cl ctx auto rqs
                (mkRound RefreshSourceInspection now identities false [] [] :: rds) ds ws lost)
| read_inspection s lim slots cl ctx auto rqs rds ds ws lost identities now :
    CallStep (mkRefreshing s lim slots cl ctx auto rqs rds ds ws lost)
             (mkRefreshing (inspectionStatusLocked identities now s).1 lim slots cl ctx auto rqs rds ds ws lost)
| read_cached s lim slots cl ctx auto rqs rds ds ws lost authIndexes now :
    CallStep (mkRefreshing s lim slots cl ctx auto rqs rds ds ws lost)
             (mkRefreshing (GetCachedQuota authIndexes now s).1 lim slots cl ctx auto rqs rds ds ws lost)
| read_task s lim slots cl ctx auto rqs rds ds ws lost authIndex now :
    CallStep (mkRefreshing s lim slots cl ctx auto rqs rds ds ws lost)
             (mkRefreshing (GetRefreshTaskByAuthIndex authIndex now s).1 lim slots cl ctx auto rqs rds ds ws lost)
| header_cached s lim slots cl ctx auto rqs rds ds ws lost authIndex response observedAt flagAt identity :
    CallStep (mkRefreshing s lim slots cl ctx auto rqs rds ds ws lost)
             (mkRefreshing (mergeUsageHeaderQuotaCache authIndex response observedAt flagAt identity s).1
                lim slots cl ctx auto rqs rds ds ws lost)
| identity_renamed s lim slots cl ctx auto rqs rds ds ws lost identity :
    CallStep (mkRefreshing s lim slots cl ctx auto rqs rds ds ws lost)
             (mkRefreshing (UpdateUsageIdentityDisplayNameSnapshot identity s) lim slots cl ctx auto rqs rds ds ws lost)
| context_replaced s lim slots cl ctx auto rqs rds ds ws lost done_ :
    CallStep (mkRefreshing s lim slots cl ctx auto rqs rds ds ws lost)
             (mkRefreshing s lim slots cl done_ auto rqs rds
                (map (fun d => mkDispatcher (dpPhase d) (dpTasks d) (dpAll d) (dpAuto d) true) ds) ws lost)
| stop s lim slots cl ctx auto rqs rds ds ws lost :
    CallStep (mkRefreshing s lim slots cl ctx auto rqs rds ds ws lost)
             (mkRefreshing s lim slots true ctx auto rqs rds ds ws lost).

Definition refresh_step (s s' : Refreshing) : Prop := GoStep s s' \/ CallStep s s'.
Definition refresh_run : Refreshing -> Refreshing -> Prop := rtc refresh_step.
