(* ===== verification/RefreshTaskFacts.v ===== *)
(** The tasks of refreshing: what each lock section does to the record at a key, and the
    invariant that every active task is held by exactly one goroutine. *)
From S2P Require Import Prelude GoStrings GoTime Timeutil Entities GoFloat IdentityStats Quota DisplayName HeaderPending RefreshTasks HeaderCache Inspection RefreshRuns.
From stdpp Require Import gmap sorting relations.

Local Open Scope string_scope.
Local Open Scope list_scope.
Local Open Scope Z_scope.

(** ** Lock sections that settle nothing *)

Definition renamed (name : string) (t : RefreshTaskRecord) : RefreshTaskRecord :=
  mkTask (tkObject t) (tkAuthIndex t) name (tkType t) (tkFileName t) (tkStatus t) (tkQuota t) (tkError t)
    (tkHTTPStatusCode t) (tkSource t) (tkCreatedAt t) (tkStartedAt t) (tkRefreshedAt t) (tkExpiresAt t)
    (tkUpstreamResponses t).

Lemma renamed_same (t : RefreshTaskRecord) : renamed (tkName t) t = t.
Proof. by destruct t. Qed.

Lemma renamed_twice (a b : string) (t : RefreshTaskRecord) : renamed a (renamed b t) = renamed a t.
Proof. by destruct t. Qed.

Lemma renamed_ref (name : string) (t : RefreshTaskRecord) : refOf (renamed name t) = refOf t.
Proof. done. Qed.

Lemma renamed_active (name : string) (t : RefreshTaskRecord) : isActive (renamed name t) = isActive t.
Proof. done. Qed.

(** A task without an end of its life. *)
Definition lasting (t : RefreshTaskRecord) : Prop := isActive t = true /\ tkExpiresAt t = zero_time.

Lemma lasting_not_expired (now : Time) (t : RefreshTaskRecord) : lasting t -> expired now t = false.
Proof. intros [_ H]. unfold expired. rewrite H. done. Qed.

(** The records stay, but for names and for records that are removed; active ones are
    not removed. *)
Record keeps (s s' : Tasks) : Prop := {
  keeps_next : tsNextObject s' = tsNextObject s;
  keeps_old : forall k t', tsMap s' !! k = Some t' ->
    exists t name, tsMap s !! k = Some t /\ t' = renamed name t;
  keeps_active : forall k t, tsMap s !! k = Some t -> lasting t ->
    exists name, tsMap s' !! k = Some (renamed name t);
}.

#[export] Instance keeps_preorder : PreOrder keeps.
Proof.
  split.
  - intros s. split; [done| |]; intros k t H; [exists t, (tkName t) | intros _; exists (tkName t)]; by rewrite renamed_same.
  - intros s s1 s2 [n1 o1 a1] [n2 o2 a2]. split; [congruence| |].
    + intros k t H. destruct (o2 _ _ H) as (t1 & name1 & H1 & ->). destruct (o1 _ _ H1) as (t0 & name0 & H0 & ->).
      exists t0, name1. by rewrite renamed_twice.
    + intros k t H L. destruct (a1 _ _ H L) as [name1 H1]. destruct (a2 _ _ H1) as [name2 H2]; [done|].
      exists name2. by rewrite renamed_twice in H2.
Qed.

Lemma keeps_as_is (s s' : Tasks) : tsMap s' = tsMap s -> tsNextObject s' = tsNextObject s -> keeps s s'.
Proof. intros M N. split; [done| |]; rewrite M; intros k t H; [exists t, (tkName t) | intros _; exists (tkName t)]; by rewrite renamed_same. Qed.

(** Records taken out by a test that active ones pass. *)
Lemma keeps_filter (P : RefreshTaskRecord -> Prop) `{forall t, Decision (P t)} (s s' : Tasks) :
  tsNextObject s' = tsNextObject s -> tsMap s' = filter (fun p => P p.2) (tsMap s) ->
  (forall t, lasting t -> P t) -> keeps s s'.
Proof.
  intros N M A. split; [done| |]; rewrite M; intros k t.
  - intros [H1 _]%map_lookup_filter_Some. exists t, (tkName t). by rewrite renamed_same.
  - intros H1 L. exists (tkName t). rewrite renamed_same. apply map_lookup_filter_Some; eauto.
Qed.

Lemma keeps_delete (k : string) (s s' : Tasks) :
  tsNextObject s' = tsNextObject s -> tsMap s' = delete k (tsMap s) ->
  (forall t, tsMap s !! k = Some t -> ~ lasting t) -> keeps s s'.
Proof.
  intros N M A. split; [done| |]; rewrite M; intros k' t.
  - intros [_ H1]%lookup_delete_Some. exists t, (tkName t). by rewrite renamed_same.
  - intros H1 L. exists (tkName t). rewrite renamed_same. apply lookup_delete_Some. split; [|done]. intros ->. by eapply A.
Qed.

Lemma cleanup_keeps (now : Time) (s : Tasks) : keeps s (cleanupExpiredRefreshTasksLocked now s).
Proof.
  apply (keeps_filter (fun t => expired now t = false)); [done..|]. intros t. apply lasting_not_expired.
Qed.

Lemma cleanup_read_keeps (now : Time) (s : Tasks) : keeps s (cleanupRefreshTasksForReadLocked now s).
Proof. unfold cleanupRefreshTasksForReadLocked. case_match; [apply cleanup_keeps | reflexivity]. Qed.

Lemma read_keeps (authIndex : string) (now : Time) (s : Tasks) : keeps s (refreshTaskForReadLocked authIndex now s).1.
Proof.
  unfold refreshTaskForReadLocked. destruct (tsMap s !! authIndex) as [t|] eqn:L; [|reflexivity].
  destruct (expired now t) eqn:E; [|reflexivity].
  apply (keeps_delete authIndex); [done..|]. intros t' H Last. apply (lasting_not_expired now) in Last. congruence.
Qed.

Lemma clear_keeps (s : Tasks) : keeps s (clearSettledRefreshTasks s).
Proof. apply (keeps_filter (fun t => isActive t = true)); [done..|]. by intros t []. Qed.

Lemma cached_keeps (authIndexes : list string) (now : Time) (s : Tasks) : keeps s (GetCachedQuota authIndexes now s).1.
Proof.
  unfold GetCachedQuota. destruct authIndexes as [|a l]; [reflexivity|].
  assert (forall l seen s, keeps s (readCached l seen now s).1) as R.
  { clear. induction l as [|a l IH]; intros seen s; [reflexivity|]. cbn [readCached]. case_match; [apply IH|].
    destruct (refreshTaskForReadLocked (TrimSpace a) now s) as [s1 task] eqn:E1.
    destruct (readCached l _ now s1) as [s2 items] eqn:E2. cbn [fst].
    etransitivity; [|exact (eq_ind _ (keeps s1) (IH _ s1) _ (f_equal fst E2))].
    exact (eq_ind _ (keeps s) (read_keeps _ _ s) _ (f_equal fst E1)). }
  specialize (R (a :: l) ∅ (cleanupRefreshTasksForReadLocked now s)).
  destruct (readCached _ _ _ _) as [s1 items]. cbn [fst] in *. etransitivity; [apply cleanup_read_keeps | exact R].
Qed.

Lemma by_index_keeps (authIndex : string) (now : Time) (s : Tasks) :
  keeps s (GetRefreshTaskByAuthIndex authIndex now s).1.
Proof.
  unfold GetRefreshTaskByAuthIndex. case_match; [reflexivity|].
  pose proof (read_keeps (TrimSpace authIndex) now (cleanupRefreshTasksForReadLocked now s)) as R.
  destruct (refreshTaskForReadLocked _ _ _) as [s1 task]. cbn [fst] in *. etransitivity; [apply cleanup_read_keeps | exact R].
Qed.

Lemma rename_keeps (identity : UsageIdentity) (s : Tasks) : keeps s (UpdateUsageIdentityDisplayNameSnapshot identity s).
Proof.
  unfold UpdateUsageIdentityDisplayNameSnapshot. case_match; [reflexivity|].
  destruct (tsMap s !! _) as [t0|] eqn:L; [|reflexivity]. split; [done| |]; cbn [setTasks tsMap]; intros k t.
  - intros [[<- <-] | [Hne H1]]%lookup_insert_Some; [by eexists t0, _|]. exists t, (tkName t). by rewrite renamed_same.
  - intros H1 _. destruct (decide (TrimSpace (uiIdentity identity) = k)) as [<-|Hne].
    + simplify_eq. eexists. by rewrite lookup_insert_eq.
    + exists (tkName t). by rewrite renamed_same, lookup_insert_ne.
Qed.

Lemma inspect_keeps (identities : list UsageIdentity) (now : Time) (s : Tasks) :
  keeps s (inspectionStatusLocked identities now s).1.
Proof. unfold inspectionStatusLocked. cbn zeta. cbn [fst]. case_match; [by apply keeps_as_is | reflexivity]. Qed.

Lemma reset_keeps (s : Tasks) : keeps s (resetInspectionRound s).
Proof. by apply keeps_as_is. Qed.

#[export] Hint Resolve cleanup_keeps cached_keeps by_index_keeps rename_keeps inspect_keeps clear_keeps reset_keeps : keeper.

(** ** Who holds a task *)

Definition one (r x : TaskRef) : nat := if decide (x = r) then 1 else 0.

(** [waits] counts who will run a task or fail it, [works] who runs it. *)
Record held_ok (s : Tasks) (waits works : TaskRef -> nat) : Prop := {
  ho_key : forall k t, tsMap s !! k = Some t ->
    tkAuthIndex t = k /\ (tkObject t < tsNextObject s)%nat /\ (isActive t = true -> tkExpiresAt t = zero_time);
  ho_queued : forall k t, tsMap s !! k = Some t -> tkStatus t = RefreshTaskStatusQueued -> waits (refOf t) = 1%nat;
  ho_running : forall k t, tsMap s !! k = Some t -> tkStatus t = RefreshTaskStatusRunning -> works (refOf t) = 1%nat;
  ho_settled : forall k t, tsMap s !! k = Some t -> isActive t = false -> (waits (refOf t) + works (refOf t) = 0)%nat;
  ho_once : forall r, (waits r + works r <= 1)%nat;
  ho_fresh : forall r, (0 < waits r + works r)%nat -> (r.1 < tsNextObject s)%nat;
}.

Lemma ho_lasting (s : Tasks) (Q R : TaskRef -> nat) (k : string) (t : RefreshTaskRecord) :
  held_ok s Q R -> tsMap s !! k = Some t -> isActive t = true -> lasting t.
Proof. intros H L A. split; [done|]. by apply (ho_key _ _ _ H _ _ L). Qed.

Lemma ho_counts (s : Tasks) (Q R Q' R' : TaskRef -> nat) :
  held_ok s Q R -> (forall r, Q' r = Q r) -> (forall r, R' r = R r) -> held_ok s Q' R'.
Proof.
  intros [K Qd Rn St On Fr] HQ HR. split; intros; rewrite ?HQ, ?HR in *; eauto.
Qed.

Lemma ho_keeps (s s' : Tasks) (Q R : TaskRef -> nat) : held_ok s Q R -> keeps s s' -> held_ok s' Q R.
Proof.
  intros [K Qd Rn St On Fr] [N O A].
  split; rewrite ?N; try (intros k t (t0 & name & H0 & ->)%O); rewrite ?renamed_ref.
  - exact (K _ _ H0).
  - exact (Qd _ _ H0).
  - exact (Rn _ _ H0).
  - exact (St _ _ H0).
  - apply On.
  - by apply Fr.
Qed.

(** A record of a new object is put at its key. *)
Lemma ho_put (s s' : Tasks) (Q R Q' : TaskRef -> nat) (k : string) (t : RefreshTaskRecord) :
  held_ok s Q R -> tsMap s' = <[k := t]> (tsMap s) -> tsNextObject s' = S (tsNextObject s) ->
  tkAuthIndex t = k -> tkObject t = tsNextObject s -> tkExpiresAt t = zero_time ->
  tkStatus t <> RefreshTaskStatusRunning ->
  (forall r, Q' r = Q r + if isActive t then one (refOf t) r else 0)%nat -> held_ok s' Q' R.
Proof.
  intros [K Qd Rn St On Fr] M N Hk Ho He Hr HQ.
  assert (forall r, (0 < Q r + R r)%nat -> r <> refOf t) as Old.
  { intros r H%Fr ->. unfold refOf in H. cbn in H. lia. }
  assert (forall k' t', tsMap s !! k' = Some t' -> refOf t' <> refOf t) as New.
  { intros k' t' H%K E. unfold refOf in E. injection E as E _. lia. }
  assert (Q (refOf t) = 0 /\ R (refOf t) = 0)%nat as [Q0 R0].
  { destruct (decide (0 < Q (refOf t) + R (refOf t))%nat) as [H%Old|]; [done | lia]. }
  split; rewrite ?N; try (intros k' t' H; rewrite M in H; apply lookup_insert_Some in H as [[<- <-] | [Hne H]]).
  - split_and!; [done | lia | done].
  - destruct (K _ _ H) as (? & ? & ?). split_and!; [done | lia | done].
  - intros S0. rewrite HQ, Q0. unfold isActive, one. rewrite S0. by rewrite decide_True.
  - intros S0. rewrite HQ. specialize (New _ _ H). rewrite (Qd _ _ H S0). unfold one.
    destruct (isActive t); [|lia]. by rewrite decide_False.
  - done.
  - exact (Rn _ _ H).
  - intros A. rewrite HQ, A, Q0, R0. done.
  - intros A. rewrite HQ. specialize (New _ _ H). pose proof (St _ _ H A). unfold one. destruct (isActive t); [|lia].
    rewrite decide_False by done. lia.
  - intros r. rewrite HQ. specialize (On r). unfold one. destruct (isActive t); [|lia]. case_decide; [|lia]. subst r. lia.
  - intros r. rewrite HQ. unfold one. intros H. destruct (decide (r = refOf t)) as [->|Hne].
    + unfold refOf. cbn. lia.
    + assert (0 < Q r + R r)%nat as H'%Fr; [|lia].
      destruct (isActive t); lia.
Qed.

Lemma ho_ensured (s s' : Tasks) (Q R Q' : TaskRef -> nat) authIndex source identity now task created :
  held_ok s Q R -> ensureRefreshTaskWithIdentity authIndex source identity now s = (s', (task, created)) ->
  (forall r, Q' r = Q r + if created then one (refOf task) r else 0)%nat -> held_ok s' Q' R.
Proof.
  intros H E HQ. unfold ensureRefreshTaskWithIdentity in E.
  destruct (tsMap s !! authIndex) as [t|] eqn:L; [destruct (isActive t) eqn:A|]; simplify_eq; cbn beta iota in HQ;
    [eapply ho_counts; [done | intros r; rewrite HQ; lia | done] | eapply (ho_put s); [done..|] ..]; done.
Qed.

Lemma ho_header (s : Tasks) (Q R : TaskRef -> nat) authIndex response observedAt flagAt identity :
  held_ok s Q R -> held_ok (mergeUsageHeaderQuotaCache authIndex response observedAt flagAt identity s).1 Q R.
Proof.
  intros H. unfold mergeUsageHeaderQuotaCache. destruct (tsMap s !! authIndex) as [t|]; cbn beta zeta;
    repeat (case_match; [done || idtac|]); cbn [fst];
    (eapply (ho_put s); [done | reflexivity | reflexivity | done | done | done | done | intros r; cbn; lia]).
Qed.

Lemma expected_at (s : Tasks) (Q R : TaskRef -> nat) (k : string) (t : RefreshTaskRecord) :
  held_ok s Q R -> tsMap s !! k = Some t -> k = (refOf t).2 /\ expectedTask (refOf t) s = Some t.
Proof.
  intros H L. destruct (ho_key _ _ _ H _ _ L) as [K _]. unfold expectedTask, refOf. cbn. rewrite K, L, Nat.eqb_refl. done.
Qed.

Lemma expected_some (s : Tasks) (Q R : TaskRef -> nat) (r : TaskRef) (t : RefreshTaskRecord) :
  held_ok s Q R -> expectedTask r s = Some t -> tsMap s !! r.2 = Some t /\ refOf t = r.
Proof.
  intros H E. unfold expectedTask in E. destruct (tsMap s !! r.2) as [t0|] eqn:L; [|done].
  destruct (tkObject t0 =? r.1)%nat eqn:O; simplify_eq. apply Nat.eqb_eq in O. split; [done|].
  destruct (ho_key _ _ _ H _ _ L) as [K _]. unfold refOf. destruct r. cbn in *. by subst.
Qed.

(** What is held is in no settled state. *)
Lemma held_active (s : Tasks) (Q R : TaskRef -> nat) (r : TaskRef) (t : RefreshTaskRecord) :
  held_ok s Q R -> expectedTask r s = Some t -> (0 < Q r + R r)%nat -> isActive t = true.
Proof.
  intros H E Pos. destruct (expected_some _ _ _ _ _ H E) as [L <-].
  destruct (isActive t) eqn:A; [done|]. pose proof (ho_settled _ _ _ H _ _ L A). lia.
Qed.

(** The record behind [r] is replaced by another of its object, or goes. *)
Lemma ho_written (s s' : Tasks) (Q R Q' R' : TaskRef -> nat) (r : TaskRef) (new : option RefreshTaskRecord) :
  held_ok s Q R -> (Q r + R r = 1)%nat -> tsNextObject s' = tsNextObject s ->
  (forall k t, tsMap s' !! k = Some t -> (refOf t <> r /\ tsMap s !! k = Some t) \/ (k = r.2 /\ refOf t = r /\ new = Some t)) ->
  (forall t, new = Some t -> isActive t = true -> tkExpiresAt t = zero_time) ->
  (forall t, new = Some t -> tkStatus t <> RefreshTaskStatusQueued) ->
  (forall x, x <> r -> Q' x = Q x /\ R' x = R x)%nat -> Q' r = 0%nat ->
  (R' r = match new with Some t => if isActive t then 1 else 0 | None => 0 end)%nat ->
  held_ok s' Q' R'.
Proof.
  intros [K Qd Rn St On Fr] Hr N M Ex NQ HQ Q0 R0.
  split; rewrite ?N; try (intros k t [[Ne L] | (-> & E & New)]%M).
  - by apply K in L.
  - assert (tkObject t = r.1 /\ tkAuthIndex t = r.2) as [Ho Hk] by (by rewrite <- E).
    rewrite Hk, Ho. split_and!; [done | apply Fr; lia | by apply Ex].
  - rewrite (proj1 (HQ _ Ne)). exact (Qd _ _ L).
  - intros S0. by destruct (NQ t).
  - rewrite (proj2 (HQ _ Ne)). exact (Rn _ _ L).
  - intros S0. rewrite E, R0, New. unfold isActive. by rewrite S0.
  - destruct (HQ _ Ne) as [-> ->]. exact (St _ _ L).
  - intros A. rewrite E, Q0, R0, New, A. done.
  - intros x. destruct (decide (x = r)) as [->|Ne].
    + rewrite Q0, R0. destruct new as [t|]; [destruct (isActive t)|]; lia.
    + destruct (HQ _ Ne) as [-> ->]. apply On.
  - intros x. destruct (decide (x = r)) as [->|Ne].
    + intros _. apply Fr. lia.
    + destruct (HQ _ Ne) as [-> ->]. apply Fr.
Qed.

Lemma written_at (s : Tasks) (Q R : TaskRef -> nat) (m : gmap string RefreshTaskRecord) (r : TaskRef) (t1 : RefreshTaskRecord) :
  held_ok s Q R -> m = <[r.2 := t1]> (tsMap s) -> refOf t1 = r ->
  forall k t, m !! k = Some t -> (refOf t <> r /\ tsMap s !! k = Some t) \/ (k = r.2 /\ refOf t = r /\ Some t1 = Some t).
Proof.
  intros H -> E k t [[<- <-] | [Ne L]]%lookup_insert_Some; [by right|]. left. split; [|done].
  intros <-. by destruct (expected_at _ _ _ _ _ H L).
Qed.

Lemma removed_at (s : Tasks) (Q R : TaskRef -> nat) (m : gmap string RefreshTaskRecord) (r : TaskRef) :
  held_ok s Q R -> m = delete r.2 (tsMap s) ->
  forall k t, m !! k = Some t -> (refOf t <> r /\ tsMap s !! k = Some t) \/ (k = r.2 /\ refOf t = r /\ None = Some t).
Proof.
  intros H -> k t [Ne L]%lookup_delete_Some. left. split; [|done]. intros <-. by destruct (expected_at _ _ _ _ _ H L).
Qed.

Lemma absent_at (s : Tasks) (Q R : TaskRef -> nat) (r : TaskRef) :
  held_ok s Q R -> expectedTask r s = None ->
  forall k t, tsMap s !! k = Some t -> (refOf t <> r /\ tsMap s !! k = Some t) \/ (k = r.2 /\ refOf t = r /\ None = Some t).
Proof.
  intros H E k t L. left. split; [|done]. intros <-. destruct (expected_at _ _ _ _ _ H L). congruence.
Qed.

Section Writes.
Context (s : Tasks) (Q R Q' R' : TaskRef -> nat) (r : TaskRef) (H : held_ok s Q R) (Hr : (0 < Q r + R r)%nat)
  (Others : forall x, x <> r -> Q' x = Q x /\ R' x = R x) (Gone : Q' r = 0%nat).

Local Lemma held_once : (Q r + R r = 1)%nat.
Proof using H Hr. clear Gone. pose proof (ho_once _ _ _ H r). lia. Qed.

Lemma ho_unheld : R' r = 0%nat -> expectedTask r s = None -> held_ok s Q' R'.
Proof using H Hr Others Gone.
  intros R0 E. eapply (ho_written s s _ _ _ _ r None); eauto using held_once, absent_at; done.
Qed.

Lemma ho_started now s' started : (0 < Q r)%nat ->
  markRefreshTaskRunning r now s = (s', started) -> R' r = (match started with Some _ => 1 | None => 0 end)%nat ->
  held_ok s' Q' R'.
Proof using H Hr Others Gone.
  intros Pos E R0. unfold markRefreshTaskRunning in E. destruct (expectedTask r s) as [t|] eqn:Ex.
  - destruct (expected_some _ _ _ _ _ H Ex) as [L Er].
    case_bool_decide as St; injection E as <- <-; cbn in R0.
    + pose proof (held_active _ _ _ _ _ H Ex Hr) as A.
      assert (tkStatus t = RefreshTaskStatusRunning) as Run by (unfold isActive in A; destruct (tkStatus t); done).
      pose proof (ho_running _ _ _ H _ _ L Run). pose proof (ho_once _ _ _ H r). rewrite Er in *. lia.
    + eapply (ho_written s _ _ _ _ _ r (Some _)); [done | apply held_once | reflexivity
        | eapply (written_at s); [done | reflexivity | done] | | | done | done | done].
      * intros ? [= <-] _. cbn. apply (ho_lasting _ _ _ _ _ H L). by destruct (tkStatus t) eqn:S0; unfold isActive; rewrite S0.
      * by intros ? [= <-].
  - injection E as <- <-. by apply ho_unheld.
Qed.

Lemma ho_completed response upstream now : R' r = 0%nat -> held_ok (markRefreshTaskCompleted r response upstream now s) Q' R'.
Proof using H Hr Others Gone.
  intros R0. unfold markRefreshTaskCompleted. destruct (expectedTask r s) as [t|] eqn:Ex; [|by apply ho_unheld].
  destruct (expected_some _ _ _ _ _ H Ex) as [L Er].
  eapply (ho_written s _ _ _ _ _ r (Some _)); [done | apply held_once | reflexivity
    | eapply (written_at s); [done | reflexivity | done] | by intros ? [= <-] ..| done | done | done].
Qed.

Lemma ho_failed ttl message code upstream now : R' r = 0%nat ->
  held_ok (markRefreshTaskFailed ttl r message code upstream now s) Q' R'.
Proof using H Hr Others Gone.
  intros R0. unfold markRefreshTaskFailed. destruct (expectedTask r s) as [t|] eqn:Ex; [|by apply ho_unheld].
  destruct (expected_some _ _ _ _ _ H Ex) as [L Er].
  eapply (ho_written s _ _ _ _ _ r (Some _)); [done | apply held_once | reflexivity
    | eapply (written_at s); [done | reflexivity | done] | by intros ? [= <-] ..| done | done | done].
Qed.

Lemma ho_deleted : R' r = 0%nat -> held_ok (deleteRefreshTask r s) Q' R'.
Proof using H Hr Others Gone.
  intros R0. unfold deleteRefreshTask. destruct (expectedTask r s) as [t|] eqn:Ex; [|by apply ho_unheld].
  destruct (expected_some _ _ _ _ _ H Ex) as [L Er].
  eapply (ho_written s _ _ _ _ _ r None); [done | apply held_once | reflexivity
    | eapply (removed_at s); [done | reflexivity] | done | done | done | done | done].
Qed.

End Writes.
