(* ===== verification/RefreshOwners.v ===== *)
(** The goroutines of refreshing: every reachable state has each active task in the
    hands of exactly one of them, no more workers than slots and no more slots than the
    limit, and at most one round of the timer. *)
From S2P Require Import Prelude GoStrings GoTime Timeutil Entities GoFloat IdentityStats Quota DisplayName HeaderPending RefreshTasks HeaderCache Inspection RefreshRuns RefreshTaskFacts.
From stdpp Require Import gmap sorting relations.

Local Open Scope string_scope.
Local Open Scope list_scope.
Local Open Scope Z_scope.

(** ** Counting *)

Definition times (r : TaskRef) (l : list TaskRef) : nat := sum_list_with (fun x => one x r) l.

Definition starting (r : TaskRef) (w : Worker) : nat := match w with Starting task => one task r | _ => 0 end.
Definition checking (r : TaskRef) (w : Worker) : nat := match w with Checking task => one task r | _ => 0 end.
Definition holding (d : Dispatcher) : nat := match dpPhase d with Holding_slot => 1 | _ => 0 end.

(** Who will run [r] or fail it: a request or round that queued it, a dispatcher, a
    worker that starts; or nobody any more. *)
Definition waits (sys : Refreshing) (r : TaskRef) : nat :=
  sum_list_with (fun q => times r (rsQueued q)) (rfRequests sys)
  + sum_list_with (fun q => times r (rdQueued q)) (rfRounds sys)
  + sum_list_with (fun d => times r (dpTasks d)) (rfDispatchers sys)
  + sum_list_with (starting r) (rfWorkers sys)
  + times r (rfLost sys).

Definition works (sys : Refreshing) (r : TaskRef) : nat := sum_list_with (checking r) (rfWorkers sys).

(** Rounds of the timer: in the queueing or in the hands of a dispatcher. *)
Definition scheduled (q : Round) : nat := if decide (rdSource q = RefreshSourceScheduled) then 1 else 0.
Definition autoDispatcher (d : Dispatcher) : nat := if dpAuto d then 1 else 0.
Definition autos (sys : Refreshing) : nat :=
  sum_list_with scheduled (rfRounds sys) + sum_list_with autoDispatcher (rfDispatchers sys).

(** A dispatcher: with a slot it has a task, and only that of a round
    of the timer polls, when it has none left. *)
Definition dispatcher_ok (d : Dispatcher) : Prop :=
  match dpPhase d with Holding_slot => dpTasks d <> [] | Polling => dpTasks d = [] /\ dpAuto d = true | _ => True end.

Record orderly (sys : Refreshing) : Prop := {
  or_held : held_ok (rfTasks sys) (waits sys) (works sys);
  or_slots : rfSlots sys = (length (rfWorkers sys) + sum_list_with holding (rfDispatchers sys))%nat;
  or_limit : (rfSlots sys <= rfLimit sys <= 100)%nat /\ (0 < rfLimit sys)%nat;
  or_autos : autos sys = if rfAutoRunning sys then 1%nat else 0%nat;
  or_dispatchers : Forall dispatcher_ok (rfDispatchers sys);
  or_rounds : Forall (fun r => rdSource r = RefreshSourceScheduled \/ rdSource r = RefreshSourceInspection) (rfRounds sys);
}.

Lemma times_app (r : TaskRef) (l k : list TaskRef) : times r (l ++ k) = (times r l + times r k)%nat.
Proof. apply sum_list_with_app. Qed.

Lemma times_cons (r x : TaskRef) (l : list TaskRef) : times r (x :: l) = (one x r + times r l)%nat.
Proof. done. Qed.

Lemma times_nil (r : TaskRef) : times r [] = 0%nat.
Proof. done. Qed.

Lemma one_same (r : TaskRef) : one r r = 1%nat.
Proof. unfold one. by rewrite decide_True. Qed.

Lemma one_other (r x : TaskRef) : x <> r -> one r x = 0%nat.
Proof. intros H. unfold one. by rewrite decide_False. Qed.

Lemma start_times (r : TaskRef) (queued : list TaskRef) (auto closing ctx : bool) :
  sum_list_with (fun d => times r (dpTasks d)) (startDispatcher queued auto closing ctx) = times r queued.
Proof. destruct queued; [done|]. cbn [startDispatcher sum_list_with dpTasks]. lia. Qed.

Lemma dispatched_times (r : TaskRef) (d : Dispatcher) :
  sum_list_with (fun d => times r (dpTasks d)) (dispatched d) = 0%nat.
Proof. unfold dispatched. by destruct (dpAuto d). Qed.

#[export] Hint Rewrite times_app times_cons times_nil start_times dispatched_times one_same @sum_list_with_app : counts.

(** A context that ends changes nothing else of a dispatcher. *)
Definition withContextDone (d : Dispatcher) : Dispatcher :=
  mkDispatcher (dpPhase d) (dpTasks d) (dpAll d) (dpAuto d) true.

Lemma map_context_sum (f : Dispatcher -> nat) (ds : list Dispatcher) :
  (forall d, f (withContextDone d) = f d) -> sum_list_with f (map withContextDone ds) = sum_list_with f ds.
Proof. intros H. induction ds as [|d ds IH]; [done|]. cbn. by rewrite H, IH. Qed.

Ltac count_all :=
  unfold waits, works;
  cbn [rfTasks rfLimit rfSlots rfRequests rfRounds rfDispatchers rfWorkers rfLost sum_list_with];
  autorewrite with counts;
  cbn [sum_list_with rsQueued rdQueued dpTasks starting checking rejecting];
  autorewrite with counts;
  repeat match goal with E : dpTasks _ = _ |- _ => rewrite E end;
  rewrite ?times_cons, ?times_nil, ?one_same; cbn [sum_list_with].

(** A goroutine that holds [task] writes its record. *)
Ltac held_by lemma_ H task :=
  pose proof (ho_once _ _ _ H task) as Once; revert Once; count_all; intros Once;
  eapply (lemma_ _ _ _ _ _ task H);
    [ count_all; lia
    | let x := fresh "x" in let Hx := fresh "Hx" in
      intros x Hx; count_all; rewrite ?(one_other task x Hx); split; lia
    | count_all; lia | .. ];
    try (count_all; lia).

(** ** Every step keeps the holders right *)

Lemma held_go (sys sys' : Refreshing) :
  orderly sys -> GoStep sys sys' -> held_ok (rfTasks sys') (waits sys') (works sys').
Proof.
  intros [H _ _ _ D _] G. inversion G; subst; clear G; cbn [rfTasks rfDispatchers] in *.
  all: try (eapply ho_counts; [exact H | intros x; count_all; lia | intros x; count_all; lia]).
  - destruct (rejection =?s "unsupported"); (eapply ho_counts; [exact H | intros x; count_all; lia ..]).
  - eapply ho_ensured; [exact H | eassumption |]. intros x. destruct created; count_all; lia.
  - eapply ho_ensured; [exact H | eassumption |]. intros x. unfold roundEnsured.
    destruct created; [|case_match]; count_all; lia.
  - eapply ho_counts; [eapply ho_keeps; [exact H | apply keeps_as_is; by destruct scheduled0] | intros x; count_all; lia ..].
  - held_by ho_failed H task.
  - apply Forall_app in D as [_ [D _]%Forall_cons]. unfold dispatcher_ok in D. rewrite H0 in D.
    destruct D as [D _]. eapply ho_counts; [exact H | intros x; count_all; lia ..].
  - destruct started; held_by ho_started H task; try eassumption; count_all; lia.
  - held_by ho_completed H task.
  - held_by ho_failed H task.
  - held_by ho_deleted H task.
Qed.

Lemma held_call (sys sys' : Refreshing) :
  orderly sys -> CallStep sys sys' -> held_ok (rfTasks sys') (waits sys') (works sys').
Proof.
  intros [H _ _ _ _ _] G. inversion G; subst; clear G; cbn [rfTasks] in *.
  all: try (eapply ho_counts; [first [exact H | eapply ho_keeps; [exact H | solve [auto with keeper]]]
                              | intros x; count_all; lia | intros x; count_all; lia]).
  - eapply ho_counts; [apply ho_header, H | done..].
  - eapply ho_counts; [exact H | intros x; unfold waits; cbn | done].
    by rewrite (map_context_sum (fun d => times x (dpTasks d))).
Qed.

Lemma start_holding (queued : list TaskRef) (auto closing ctx : bool) :
  sum_list_with holding (startDispatcher queued auto closing ctx) = 0%nat.
Proof. destruct queued, closing; done. Qed.

Lemma dispatched_holding (d : Dispatcher) : sum_list_with holding (dispatched d) = 0%nat.
Proof. unfold dispatched. by destruct (dpAuto d). Qed.

Lemma dispatched_autos (d : Dispatcher) : sum_list_with autoDispatcher (dispatched d) = autoDispatcher d.
Proof. unfold dispatched, autoDispatcher. by destruct (dpAuto d). Qed.

Lemma start_autos (queued : list TaskRef) (auto closing ctx : bool) :
  sum_list_with autoDispatcher (startDispatcher queued auto closing ctx)
  = if auto && negb closing && negb (bool_decide (queued = [])) then 1%nat else 0%nat.
Proof. destruct queued, auto, closing; done. Qed.

Lemma start_ok (queued : list TaskRef) (auto closing ctx : bool) :
  Forall dispatcher_ok (startDispatcher queued auto closing ctx).
Proof. destruct queued, closing; repeat constructor. Qed.

Lemma dispatched_ok (d : Dispatcher) : Forall dispatcher_ok (dispatched d).
Proof. unfold dispatched. destruct (dpAuto d); repeat constructor. Qed.

Lemma slots_go (sys sys' : Refreshing) : orderly sys -> GoStep sys sys' ->
  rfSlots sys' = (length (rfWorkers sys') + sum_list_with holding (rfDispatchers sys'))%nat
  /\ (rfSlots sys' <= rfLimit sys' <= 100)%nat /\ (0 < rfLimit sys')%nat.
Proof.
  intros [_ S L _ D _] G. inversion G; subst; clear G;
    cbn [rfSlots rfLimit rfWorkers rfDispatchers sum_list_with] in *;
    rewrite ?sum_list_with_app, ?length_app, ?start_holding, ?dispatched_holding in *;
    cbn [sum_list_with length] in *; unfold holding in *; cbn [dpPhase] in *;
    repeat match goal with E : dpPhase _ = _ |- _ => rewrite E in * end; try lia.
  destruct H as [E|E]; rewrite E in *; rewrite ?sum_list_with_app, ?dispatched_holding; lia.
Qed.

Lemma roundEnsured_source task created rest (r : Round) : rdSource (roundEnsured task created rest r) = rdSource r.
Proof. unfold roundEnsured. destruct created; [done|]. by case_match. Qed.

Lemma autos_go (sys sys' : Refreshing) :
  orderly sys -> GoStep sys sys' -> autos sys' = if rfAutoRunning sys' then 1%nat else 0%nat.
Proof.
  intros [_ _ _ A D _] G. unfold autos in *.
  inversion G; subst; clear G; cbn [rfAutoRunning rfRounds rfDispatchers sum_list_with] in *;
    rewrite ?sum_list_with_app, ?dispatched_autos, ?start_autos in *;
    cbn [sum_list_with andb] in *; unfold scheduled in *; rewrite ?roundEnsured_source in *; cbn [rdSource] in *; try exact A.
  - unfold scheduled0 in *. case_bool_decide; [rewrite decide_True in A by done | rewrite decide_False in A by done];
      cbn [andb] in *; [|destruct auto; lia].
    destruct auto; [|lia]. destruct (bool_decide (rdQueued r = [])), cl; cbn in *; lia.
  - apply Forall_app in D as [_ [D _]%Forall_cons]. unfold dispatcher_ok in D. rewrite H in D. destruct D as [_ D].
    unfold autoDispatcher at 2 in A. rewrite D in A. destruct auto; lia.
Qed.

Lemma rounds_go (sys sys' : Refreshing) : orderly sys -> GoStep sys sys' ->
  Forall dispatcher_ok (rfDispatchers sys')
  /\ Forall (fun r => rdSource r = RefreshSourceScheduled \/ rdSource r = RefreshSourceInspection) (rfRounds sys').
Proof.
  intros [_ _ _ _ D R] G.
  inversion G; subst; clear G; cbn [rfRounds rfDispatchers] in *;
    rewrite ?Forall_app, ?Forall_cons in *; rewrite ?roundEnsured_source; cbn [rdSource] in *;
    try (split; [tauto|tauto]); (split; [|tauto]); split_and!;
    try tauto; auto using start_ok, dispatched_ok; unfold dispatcher_ok; cbn; by intros.
Qed.

Lemma limit_step (sys sys' : Refreshing) : refresh_step sys sys' -> rfLimit sys' = rfLimit sys.
Proof. by intros [G|G]; inversion G. Qed.

Lemma orderly_step (sys sys' : Refreshing) : orderly sys -> refresh_step sys sys' -> orderly sys'.
Proof.
  intros O [G|G].
  - destruct (slots_go _ _ O G), (rounds_go _ _ O G). split; eauto using held_go, autos_go.
  - pose proof (held_call _ _ O G) as H. destruct O as [_ S L A D R].
    inversion G; subst; clear G; (split; [exact H | ..]); cbn in *; try done; unfold autos in *; cbn in *; try done; try lia.
    + match goal with |- context [scheduled ?q] => change (scheduled q) with 1%nat end. lia.
    + constructor; [by left | done].
    + constructor; [by right | done].
    + by rewrite (map_context_sum holding).
    + by rewrite (map_context_sum autoDispatcher).
    + by apply Forall_map.
Qed.

Lemma orderly_new (n : Z) : orderly (newRefreshing n).
Proof.
  split; cbn; try done.
  - split; intros *; cbn; try (by rewrite lookup_empty); unfold waits, works; cbn; lia.
  - unfold workerLimitOf, RefreshWorkerLimit. repeat case_match; lia.
Qed.

Lemma orderly_run (sys sys' : Refreshing) : refresh_run sys sys' -> orderly sys -> orderly sys'.
Proof. intros R. induction R as [|sys sys1 sys' S R IH]; [done|]. eauto using orderly_step. Qed.

Lemma limit_run (sys sys' : Refreshing) : refresh_run sys sys' -> rfLimit sys' = rfLimit sys.
Proof. intros R. induction R as [|sys sys1 sys' S R IH]; [done|]. rewrite IH. by apply limit_step. Qed.

