(* ===== verification/RefreshEnds.v ===== *)
(** The goroutines of refreshing left to themselves: they come to an end, and leave no
    active task behind but those of requests that returned an error; and what has been
    settled is not written again. *)
From S2P Require Import Prelude GoStrings GoTime Timeutil Entities GoFloat IdentityStats Quota DisplayName HeaderPending RefreshTasks HeaderCache Inspection RefreshRuns RefreshTaskFacts RefreshOwners.
From stdpp Require Import gmap sorting relations.

Local Open Scope string_scope.
Local Open Scope list_scope.
Local Open Scope Z_scope.

(** ** Every goroutine step does some of the work that is left *)

Definition phaseWork (p : Phase) : nat := match p with AtNext => 0 | AtValidate _ => 7 | AtEnsure _ _ => 6 end.
Definition requestWork (r : Request) : nat :=
  5 + 5 * length (rsQueued r) + 8 * length (rsRest r) + phaseWork (rsPhase r).
Definition roundWork (r : Round) : nat :=
  5 + 5 * length (rdQueued r) + 7 * length (rdRest r) + if rdEnsure r then 0 else 1.
Definition dispatcherWork (d : Dispatcher) : nat :=
  5 * length (dpTasks d)
  + match dpPhase d with Waiting_for_slot => 4 | Holding_slot => 3 | Failing_rest => 2 | Polling => 1 end.
Definition workerWork (w : Worker) : nat := match w with Starting _ => 3 | Checking _ => 2 | Cooling => 1 end.

Definition work (sys : Refreshing) : nat :=
  sum_list_with requestWork (rfRequests sys) + sum_list_with roundWork (rfRounds sys)
  + sum_list_with dispatcherWork (rfDispatchers sys) + sum_list_with workerWork (rfWorkers sys).

Lemma start_work (queued : list TaskRef) (auto closing ctx : bool) :
  (sum_list_with dispatcherWork (startDispatcher queued auto closing ctx) < 5 + 5 * length queued)%nat.
Proof. destruct queued; [cbn; lia|]. destruct closing; cbn -[Nat.mul length]; unfold dispatcherWork; cbn -[Nat.mul length]; lia. Qed.

Lemma dispatched_work (d : Dispatcher) : (sum_list_with dispatcherWork (dispatched d) <= 1)%nat.
Proof. unfold dispatched. destruct (dpAuto d); cbn; lia. Qed.

Lemma go_works (sys sys' : Refreshing) : GoStep sys sys' -> (work sys' < work sys)%nat.
Proof.
  intros G. unfold work.
  inversion G; subst; clear G; cbn [rfRequests rfRounds rfDispatchers rfWorkers sum_list_with];
    rewrite ?sum_list_with_app; cbn [sum_list_with].
  all: try pose proof (start_work (rsQueued r) false cl ctx).
  all: try pose proof (start_work (rdQueued r) scheduled cl ctx).
  all: try pose proof (dispatched_work d).
  all: try (destruct created).
  all: try (destruct (rejection =?s "unsupported")).
  all: try (destruct started).
  all: unfold roundEnsured; try case_match.
  all: unfold requestWork, roundWork, dispatcherWork, workerWork, phaseWork in *.
  all: cbn [rejecting rsQueued rsRest rsPhase rdQueued rdRest rdEnsure dpTasks dpPhase] in *.
  all: repeat match goal with
         E : rsPhase _ = _ |- _ => rewrite E in * | E : rsRest _ = _ |- _ => rewrite E in *
       | E : dpPhase _ = _ |- _ => rewrite E in * | E : rdRest _ = _ |- _ => rewrite E in *
       | E : dpTasks _ = _ |- _ => rewrite E in * | E : rdEnsure _ = _ |- _ => rewrite E in * end.
  all: rewrite ?length_app in *; cbn [length] in *; try lia.
  destruct H as [E|E]; rewrite E; lia.
Qed.

(** No run of the goroutines alone is endless. *)
Lemma go_ends (sys : Refreshing) : Acc (flip GoStep) sys.
Proof.
  remember (work sys) as n eqn:E. revert sys E. induction n as [n IH] using lt_wf_ind. intros sys ->.
  constructor. intros sys' G. eapply IH; [|reflexivity]. by apply go_works.
Qed.

(** ** The tasks of the timer's round are not those of a request *)

Definition awaited (r : TaskRef) (d : Dispatcher) : nat := if dpAuto d then times r (dpAll d) else 0.
Definition polled (sys : Refreshing) (r : TaskRef) : nat := sum_list_with (awaited r) (rfDispatchers sys).
Definition requested (sys : Refreshing) (r : TaskRef) : nat :=
  sum_list_with (fun q => times r (rsQueued q)) (rfRequests sys) + times r (rfLost sys).

Record apart (sys : Refreshing) : Prop := {
  ap_fresh : forall r, (0 < polled sys r)%nat -> (r.1 < tsNextObject (rfTasks sys))%nat;
  ap_apart : forall r, (0 < polled sys r)%nat -> requested sys r = 0%nat;
}.

Lemma start_awaited (r : TaskRef) (queued : list TaskRef) (auto closing ctx : bool) :
  (sum_list_with (awaited r) (startDispatcher queued auto closing ctx) <= if auto then times r queued else 0)%nat.
Proof.
  destruct queued as [|x l]; [destruct auto; cbn; lia|]. cbn [startDispatcher sum_list_with].
  unfold awaited. destruct auto, closing; cbn -[times]; lia.
Qed.

Lemma dispatched_awaited (r : TaskRef) (d : Dispatcher) :
  sum_list_with (awaited r) (dispatched d) = awaited r d.
Proof. unfold dispatched, awaited. destruct (dpAuto d) eqn:E; cbn -[times]; rewrite ?E; lia. Qed.

(** The counter of objects never goes back. *)
Lemma next_go (sys sys' : Refreshing) :
  GoStep sys sys' -> (tsNextObject (rfTasks sys) <= tsNextObject (rfTasks sys'))%nat.
Proof.
  intros G. inversion G; subst; clear G; cbn [rfTasks]; try lia.
  - unfold ensureRefreshTaskWithIdentity in *. repeat case_match; simplify_eq; cbn; lia.
  - unfold ensureRefreshTaskWithIdentity in *. repeat case_match; simplify_eq; cbn; lia.
  - by destruct scheduled.
  - unfold markRefreshTaskFailed. case_match; done.
  - unfold markRefreshTaskRunning in *. repeat case_match; simplify_eq; done.
  - unfold markRefreshTaskCompleted. case_match; done.
  - unfold markRefreshTaskFailed. case_match; done.
  - unfold deleteRefreshTask. case_match; done.
Qed.

Lemma next_call (sys sys' : Refreshing) :
  CallStep sys sys' -> (tsNextObject (rfTasks sys) <= tsNextObject (rfTasks sys'))%nat.
Proof.
  intros G. inversion G; subst; clear G; cbn [rfTasks]; try done.
  - by rewrite (keeps_next _ _ (inspect_keeps _ _ _)).
  - by rewrite (keeps_next _ _ (cached_keeps _ _ _)).
  - by rewrite (keeps_next _ _ (by_index_keeps _ _ _)).
  - unfold mergeUsageHeaderQuotaCache. repeat case_match; cbn; lia.
  - by rewrite (keeps_next _ _ (rename_keeps _ _)).
Qed.

Lemma ensured_ref s s' authIndex source identity now task created :
  ensureRefreshTaskWithIdentity authIndex source identity now s = (s', (task, created)) ->
  created = true -> (refOf task).1 = tsNextObject s.
Proof. unfold ensureRefreshTaskWithIdentity. intros E ->. repeat case_match; simplify_eq; done. Qed.

(** Nothing is polled that was not, but for a round that is dispatched; nothing is
    requested that was not, but for a new object. *)
Lemma polled_go (sys sys' : Refreshing) (r : TaskRef) : GoStep sys sys' ->
  (polled sys' r <= polled sys r + sum_list_with (fun q => times r (rdQueued q)) (rfRounds sys))%nat.
Proof.
  intros G. unfold polled. inversion G; subst; clear G; cbn [rfDispatchers rfRounds sum_list_with];
    rewrite ?sum_list_with_app, ?dispatched_awaited; cbn [sum_list_with]; unfold awaited; cbn [dpAuto dpAll]; try lia.
  - pose proof (start_awaited r (rsQueued r0) false cl ctx) as S. unfold awaited in S. lia.
  - pose proof (start_awaited r (rdQueued r0) scheduled cl ctx) as S. unfold awaited in S. destruct scheduled; lia.
Qed.

Lemma requested_go (sys sys' : Refreshing) (r : TaskRef) : GoStep sys sys' ->
  (requested sys' r <= requested sys r)%nat \/ r.1 = tsNextObject (rfTasks sys).
Proof.
  intros G. unfold requested. inversion G; subst; clear G; cbn [rfRequests rfLost rfTasks sum_list_with];
    rewrite ?sum_list_with_app, ?times_app; cbn [sum_list_with rsQueued rejecting]; try (left; lia).
  - left. destruct (rejection =?s "unsupported"); cbn [rsQueued rejecting]; lia.
  - destruct created; [|left; cbn [rsQueued rejecting]; lia]. cbn [rsQueued]. rewrite times_app, times_cons, times_nil.
    unfold one. destruct (decide (r = refOf task)) as [->|]; [right | left; lia].
    by eapply ensured_ref.
Qed.

Lemma polled_call (sys sys' : Refreshing) (r : TaskRef) :
  CallStep sys sys' -> polled sys' r = polled sys r /\ requested sys' r = requested sys r.
Proof.
  intros G. unfold polled, requested. inversion G; subst; clear G; cbn [rfDispatchers rfRequests rfLost]; try done.
  split; [|done]. by rewrite (map_context_sum (awaited r)).
Qed.

Lemma apart_step (sys sys' : Refreshing) : orderly sys -> apart sys -> refresh_step sys sys' -> apart sys'.
Proof.
  intros O [F A] [G|G].
  - assert (forall r, (0 < polled sys' r)%nat ->
      (r.1 < tsNextObject (rfTasks sys))%nat /\ requested sys r = 0%nat) as P.
    { intros r Pos. pose proof (polled_go _ _ r G).
      destruct (decide (0 < polled sys r)%nat) as [H1|H1]; [eauto|].
      pose proof (ho_once _ _ _ (or_held _ O) r) as Once. pose proof (ho_fresh _ _ _ (or_held _ O) r) as Fr.
      unfold requested, waits in *. split; [apply Fr|]; lia. }
    split; intros r Pos; destruct (P r Pos) as [P1 P2].
    + pose proof (next_go _ _ G). lia.
    + destruct (requested_go _ _ r G); lia.
  - split; intros r; destruct (polled_call _ _ r G) as [-> E]; [|rewrite E; auto].
    intros Pos%F. pose proof (next_call _ _ G). lia.
Qed.

Lemma apart_run (sys sys' : Refreshing) : refresh_run sys sys' -> orderly sys -> apart sys -> apart sys'.
Proof. intros R. induction R as [|sys sys1 sys' S R IH]; [done|]. eauto using orderly_step, apart_step. Qed.

Lemma apart_new (n : Z) : apart (newRefreshing n).
Proof. split; intros r; cbn; lia. Qed.

(** ** Progress *)

Definition at_rest (sys : Refreshing) : Prop :=
  rfRequests sys = [] /\ rfRounds sys = [] /\ rfDispatchers sys = [] /\ rfWorkers sys = [].

Lemma request_goes s lim slots cl ctx auto r b rds ds ws lost :
  exists sys', GoStep (mkRefreshing s lim slots cl ctx auto (r :: b) rds ds ws lost) sys'.
Proof.
  destruct (rsPhase r) eqn:P.
  - destruct (rsRest r) as [|raw rest] eqn:L; [|destruct (rejectedEarly raw (rsSeen r) s) eqn:E]; eexists.
    + by apply (request_done _ _ _ _ _ _ []).
    + eapply (item_rejected _ _ _ _ _ _ []); eauto.
    + eapply (item_looked _ _ _ _ _ _ []); eauto.
  - eexists. by eapply (item_refused _ _ _ _ _ _ [] _ _ _ _ _ _ _ (Ok None) (Ok false)).
  - destruct (ensureRefreshTaskWithIdentity authIndex (rsSource r) identity 0 s) as [s' [task created]] eqn:E.
    eexists. eapply (item_ensured _ _ _ _ _ _ []); eauto.
Qed.

Lemma round_goes s lim slots cl ctx auto rqs r b ds ws lost :
  exists sys', GoStep (mkRefreshing s lim slots cl ctx auto rqs (r :: b) ds ws lost) sys'.
Proof.
  destruct (rdRest r) as [|identity rest] eqn:L; [eexists; by apply (round_done _ _ _ _ _ _ _ [])|].
  destruct (rdEnsure r) eqn:En.
  { destruct (ensureRefreshTaskWithIdentity (TrimSpace (uiIdentity identity)) (rdSource r) identity 0 s)
      as [s' [task created]] eqn:E. eexists. eapply (identity_ensured _ _ _ _ _ _ _ []); eauto. }
  destruct (skipsIdentity identity) eqn:Sk; [eexists; eapply (identity_skipped _ _ _ _ _ _ _ []); eauto|].
  destruct (decide (rdSource r = RefreshSourceScheduled)) as [S|S];
    [destruct (shouldSkipAutoRefreshForCachedHTTPError (TrimSpace (uiIdentity identity)) (rdNow r) s) eqn:C|];
    eexists; [eapply (identity_skipped _ _ _ _ _ _ _ []); eauto
             | eapply (identity_looked _ _ _ _ _ _ _ []); eauto ..].
  by intros.
Qed.

Lemma worker_goes s lim slots cl ctx auto rqs rds ds w b lost :
  slots = S (length b + sum_list_with holding ds) ->
  exists sys', GoStep (mkRefreshing s lim slots cl ctx auto rqs rds ds (w :: b) lost) sys'.
Proof.
  intros ->. destruct w as [task|task|].
  - destruct (markRefreshTaskRunning task 0 s) as [s' started] eqn:E. eexists.
    by eapply (task_running _ _ _ _ _ _ _ _ _ []).
  - eexists. apply (task_unsupported _ _ _ _ _ _ _ _ _ []).
  - eexists. apply (worker_done _ _ _ _ _ _ _ _ _ []).
Qed.

Lemma dispatcher_goes s lim slots cl ctx auto rqs rds a d b lost :
  dispatcher_ok d -> slots = sum_list_with holding (a ++ d :: b) -> (slots <= lim)%nat -> (0 < lim)%nat ->
  dpPhase d <> Polling -> (dpPhase d = Waiting_for_slot -> slots = 0%nat) ->
  exists sys', GoStep (mkRefreshing s lim slots cl ctx auto rqs rds (a ++ d :: b) [] lost) sys'.
Proof.
  intros Ok S L L0 NP W. rewrite sum_list_with_app in S. cbn in S. unfold dispatcher_ok, holding in *.
  destruct (dpPhase d) eqn:P; [| | |done].
  - specialize (W eq_refl). destruct (dpTasks d) eqn:T; eexists; [apply dispatch_done; auto | apply slot_taken; [done| |lia]].
    by rewrite T.
  - destruct (dpTasks d) as [|task rest] eqn:T; [done|]. destruct cl; [|eexists; by eapply worker_started].
    destruct slots as [|slots]; [lia|]. eexists. by apply worker_refused.
  - destruct (dpTasks d) as [|task rest] eqn:T; eexists; [apply dispatch_done; auto | by eapply (task_canceled _ _ _ _ _ _ _ _ _ _ _ _ _ _ _ 0)].
Qed.

(** A timer's round that polls is released: whatever it waits for is held by no one. *)
Lemma polling_goes s lim slots cl ctx auto d b lost :
  let sys := mkRefreshing s lim slots cl ctx auto [] [] (d :: b) [] lost in
  orderly sys -> apart sys -> Forall (fun d => dpPhase d = Polling) (d :: b) -> exists sys', GoStep sys sys'.
Proof.
  intros sys O A P. pose proof (or_dispatchers _ O) as Ok. cbn in Ok.
  assert (sum_list_with (fun d => length (dpTasks d)) (d :: b) = 0%nat) as Empty.
  { clear -P Ok. revert P Ok. generalize (d :: b). induction l as [|x l IH]; [done|].
    intros [Px Pl]%Forall_cons [Ox Ol]%Forall_cons. cbn. rewrite IH by done. unfold dispatcher_ok in Ox.
    rewrite Px in Ox. destruct Ox as [-> _]. done. }
  assert (forall r, sum_list_with (fun d => times r (dpTasks d)) (d :: b) = 0%nat) as NoWait.
  { clear -Empty. intros r. revert Empty. generalize (d :: b). induction l as [|x l IH]; [done|].
    cbn. destruct (dpTasks x); [|cbn; lia]. cbn. intros. apply IH. lia. }
  apply Forall_cons in P as [P _]. apply Forall_cons in Ok as [Ok _]. unfold dispatcher_ok in Ok. rewrite P in Ok.
  destruct Ok as [_ Auto]. eexists. apply (auto_round_done _ _ _ _ _ _ _ _ []); [done|]. left.
  apply not_true_is_false. unfold hasActiveRefreshTask. intros (r & In & Act)%existsb_exists.
  destruct (expectedTask r s) as [t|] eqn:E; [|done]. apply andb_true_iff in Act as [_ Act].
  pose proof (or_held _ O) as H. destruct (expected_some _ _ _ _ _ H E) as [Lk <-].
  assert (0 < times (refOf t) (dpAll d))%nat as Pos.
  { clear -In. induction (dpAll d) as [|x l IH]; [done|]. rewrite times_cons.
    destruct In as [->|In]; [rewrite one_same; lia | specialize (IH In); lia]. }
  pose proof (ap_apart _ A (refOf t)) as Ap. unfold polled, requested in Ap. cbn in Ap. unfold awaited in Ap at 1.
  rewrite Auto in Ap.
  specialize (NoWait (refOf t)). cbn in NoWait.
  destruct (tkStatus t) eqn:S; unfold isActive in Act; rewrite S in Act; try done.
  - pose proof (ho_queued _ _ _ H _ _ Lk S) as Q. unfold waits in Q. cbn in Q. lia.
  - pose proof (ho_running _ _ _ H _ _ Lk S) as Q. done.
Qed.

Lemma holding_zero (ds : list Dispatcher) : Forall (fun d => dpPhase d <> Holding_slot) ds -> sum_list_with holding ds = 0%nat.
Proof.
  induction 1 as [|d ds H _ IH]; [done|]. cbn. rewrite IH. unfold holding. by destruct (dpPhase d).
Qed.

#[local] Instance phase_dec (p : DispatchPhase) : forall q, Decision (p = q).
Proof. solve_decision. Defined.

Lemma goes_on (sys : Refreshing) : orderly sys -> apart sys -> at_rest sys \/ exists sys', GoStep sys sys'.
Proof.
  intros O A. destruct sys as [s lim slots cl ctx auto [|r rqs] rds ds ws lost]; [|right; apply request_goes].
  destruct rds as [|r rds]; [|right; apply round_goes].
  destruct ws as [|w ws]; [|right; apply worker_goes, (or_slots _ O)].
  destruct ds as [|d0 ds0] eqn:Ds; [left; done|]. right. rewrite <- Ds in *.
  pose proof (or_slots _ O) as S. pose proof (or_limit _ O) as L. pose proof (or_dispatchers _ O) as Ok. cbn in S, L, Ok.
  assert (forall d a b, ds = a ++ d :: b -> dispatcher_ok d) as OkAt.
  { intros d a b ->. by apply Forall_app in Ok as [_ [? _]%Forall_cons]. }
  destruct (decide (Exists (fun d => dpPhase d = Holding_slot) ds)) as [E|N].
  { apply Exists_exists in E as (d & In & P). apply list_elem_of_split in In as (a & b & Eds).
    rewrite Eds in S |- *. apply dispatcher_goes; try lia; try congruence; eauto. }
  apply not_Exists_Forall in N; [|intros d; apply _].
  destruct (decide (Forall (fun d => dpPhase d = Polling) ds)) as [P|P].
  { rewrite Ds in *. by apply polling_goes. }
  apply not_Forall_Exists in P; [|intros d; apply _].
  apply Exists_exists in P as (d & In & P). apply list_elem_of_split in In as (a & b & Eds).
  rewrite holding_zero in S by done. rewrite Eds.
  apply dispatcher_goes; try lia; eauto. rewrite <- Eds. rewrite holding_zero by done. lia.
Qed.

(** Someone other than an aborted request holds [r]. *)
Definition hands (sys : Refreshing) (r : TaskRef) : nat := waits sys r - times r (rfLost sys) + works sys r.

Lemma times_in (r : TaskRef) (l : list TaskRef) : (0 < times r l)%nat -> r ∈ l.
Proof.
  induction l as [|x l IH]; [cbn; lia|]. rewrite times_cons. intros H. unfold one in H.
  case_decide; [subst; by left | right; apply IH; lia].
Qed.

Lemma in_times (r : TaskRef) (l : list TaskRef) : r ∈ l -> (0 < times r l)%nat.
Proof.
  induction 1 as [|x l H IH]; rewrite times_cons; [rewrite one_same; lia | lia].
Qed.

Lemma rest_leaves (sys : Refreshing) : orderly sys -> at_rest sys ->
  rfSlots sys = 0%nat /\ rfAutoRunning sys = false
  /\ forall k t, tsMap (rfTasks sys) !! k = Some t -> isActive t = true ->
       tkStatus t = RefreshTaskStatusQueued /\ refOf t ∈ rfLost sys.
Proof.
  destruct sys as [s lim slots cl ctx auto rqs rds ds ws lost]. intros [H S _ A _ _] (R1 & R2 & R3 & R4).
  cbn in R1, R2, R3, R4. subst. split_and!; [done | by destruct auto |]. intros k t L Act. cbn in L.
  destruct (tkStatus t) eqn:St; unfold isActive in Act; rewrite St in Act; try done.
  - split; [done|]. pose proof (ho_queued _ _ _ H _ _ L St) as Q. unfold waits in Q. cbn in Q. apply times_in. cbn. lia.
  - by pose proof (ho_running _ _ _ H _ _ L St).
Qed.

(** C10: Left to themselves, from any state that requests, the timer, inspections,
    headers and stops have brought about, the goroutines of refreshing come to an end,
    whatever the database and the provider answer and however they interleave; there is
    no deadlock on the worker slots; and when they have ended every slot is free, the
    timer may start its next round, and no task is left queued or running, but those
    queued by a request that returned an error. *)
Theorem no_task_left_behind (n : Z) (sys : Refreshing) :
  refresh_run (newRefreshing n) sys ->
  Acc (flip GoStep) sys
  /\ forall sys', rtc GoStep sys sys' ->
       (exists sys'', GoStep sys' sys'')
       \/ (at_rest sys' /\ rfSlots sys' = 0%nat /\ rfAutoRunning sys' = false
           /\ forall k t, tsMap (rfTasks sys') !! k = Some t -> isActive t = true ->
                tkStatus t = RefreshTaskStatusQueued /\ refOf t ∈ rfLost sys').
Proof.
  intros Run. split; [apply go_ends|]. intros sys' Go.
  assert (refresh_run (newRefreshing n) sys') as Run'.
  { unfold refresh_run. etransitivity; [exact Run|]. eapply rtc_subrel; [|exact Go]. by left. }
  pose proof (orderly_run _ _ Run' (orderly_new n)) as O.
  pose proof (apart_run _ _ Run' (orderly_new n) (apart_new n)) as A.
  destruct (goes_on _ O A) as [Rest|G]; [right | by left]. split; [done|]. by apply rest_leaves.
Qed.

(** ** What is settled is not written again *)

(** Where a record comes from: it was there, it is new, or its holder wrote it. *)
Definition came_from (s : Tasks) (writer : TaskRef -> Prop) (k : string) (t' : RefreshTaskRecord) : Prop :=
  (exists t, tsMap s !! k = Some t /\ t' = renamed (tkName t') t)
  \/ tkObject t' = tsNextObject s
  \/ (exists t, tsMap s !! k = Some t /\ refOf t = refOf t' /\ writer (refOf t)).

Lemma came_same (s : Tasks) (writer : TaskRef -> Prop) k t : tsMap s !! k = Some t -> came_from s writer k t.
Proof. left. exists t. by rewrite renamed_same. Qed.

Lemma came_keeps (s s' : Tasks) (writer : TaskRef -> Prop) k t :
  keeps s s' -> tsMap s' !! k = Some t -> came_from s writer k t.
Proof. intros K H. destruct (keeps_old _ _ K _ _ H) as (t0 & name & H0 & ->). left. eexists. split; [exact H0 | done]. Qed.

Lemma came_ensured s s' authIndex source identity now p writer k t :
  ensureRefreshTaskWithIdentity authIndex source identity now s = (s', p) ->
  tsMap s' !! k = Some t -> came_from s writer k t.
Proof.
  unfold ensureRefreshTaskWithIdentity. intros E L.
  assert (s' = s \/ exists t1, tsMap s' = <[authIndex := t1]> (tsMap s) /\ tkObject t1 = tsNextObject s) as [-> | (t1 & M & O)].
  { repeat case_match; injection E as <- <-; eauto. }
  - by apply came_same.
  - rewrite M in L. apply lookup_insert_Some in L as [[<- <-] | [_ L]]; [by right; left | by apply came_same].
Qed.

Lemma came_header authIndex response observedAt flagAt identity s writer k t :
  tsMap (mergeUsageHeaderQuotaCache authIndex response observedAt flagAt identity s).1 !! k = Some t ->
  came_from s writer k t.
Proof.
  intros L.
  destruct (mergeUsageHeaderQuotaCache authIndex response observedAt flagAt identity s) as [s' b] eqn:E. cbn in L.
  assert (s' = s \/ exists t1, tsMap s' = <[authIndex := t1]> (tsMap s) /\ tkObject t1 = tsNextObject s) as [-> | (t1 & M & O)].
  { unfold mergeUsageHeaderQuotaCache in E. cbn zeta in E. repeat case_match; injection E as <- <-; eauto. }
  - by apply came_same.
  - rewrite M in L. apply lookup_insert_Some in L as [[<- <-] | [_ L]]; [by right; left | by apply came_same].
Qed.

Lemma came_written (s : Tasks) (Q R : TaskRef -> nat) (r : TaskRef) (t0 t1 t : RefreshTaskRecord) (writer : TaskRef -> Prop) k :
  held_ok s Q R -> expectedTask r s = Some t0 -> refOf t1 = refOf t0 -> writer r ->
  <[r.2 := t1]> (tsMap s) !! k = Some t -> came_from s writer k t.
Proof.
  intros H E E1 W L. destruct (expected_some _ _ _ _ _ H E) as [L0 <-].
  apply lookup_insert_Some in L as [[<- <-] | [_ L]]; [|by apply came_same].
  right. right. eauto.
Qed.

Lemma came_go (sys sys' : Refreshing) k t : orderly sys -> GoStep sys sys' ->
  tsMap (rfTasks sys') !! k = Some t -> came_from (rfTasks sys) (fun r => 0 < hands sys r)%nat k t.
Proof.
  intros [H _ _ _ _ _] G L.
  assert (forall x, (0 < works sys x)%nat \/ (times x (rfLost sys) < waits sys x)%nat -> (0 < hands sys x)%nat) as W
    by (intros x; unfold hands; lia).
  inversion G; subst; clear G; cbn [rfTasks] in *; try (by apply came_same).
  - by eapply came_ensured.
  - by eapply came_ensured.
  - case_match; by apply came_same.
  - unfold markRefreshTaskFailed in L. destruct (expectedTask task s) as [t0|] eqn:E; [|by apply came_same].
    eapply came_written; [exact H | exact E | | apply W; right; count_all; lia | exact L]. done.
  - unfold markRefreshTaskRunning in *. destruct (expectedTask task s) as [t0|] eqn:E; [|simplify_eq; by apply came_same].
    case_bool_decide; simplify_eq; [by apply came_same|].
    eapply came_written; [exact H | exact E | | apply W; right; count_all; lia | exact L]. done.
  - unfold markRefreshTaskCompleted in L. destruct (expectedTask task s) as [t0|] eqn:E; [|by apply came_same].
    eapply came_written; [exact H | exact E | | apply W; left; count_all; lia | exact L]. done.
  - unfold markRefreshTaskFailed in L. destruct (expectedTask task s) as [t0|] eqn:E; [|by apply came_same].
    eapply came_written; [exact H | exact E | | apply W; left; count_all; lia | exact L]. done.
  - unfold deleteRefreshTask in L. destruct (expectedTask task s) as [t0|] eqn:E; [|by apply came_same].
    cbn [setTasks tsMap] in L; apply lookup_delete_Some in L as [_ L]. by apply came_same.
Qed.

Lemma came_call (sys sys' : Refreshing) writer k t : CallStep sys sys' ->
  tsMap (rfTasks sys') !! k = Some t -> came_from (rfTasks sys) writer k t.
Proof.
  intros G L. inversion G; subst; clear G; cbn [rfTasks] in *; try (by apply came_same);
    try (eapply came_keeps; [|exact L]; solve [auto with keeper]).
  by eapply came_header.
Qed.

Lemma lost_step (sys sys' : Refreshing) (r : TaskRef) : refresh_step sys sys' -> r ∈ rfLost sys -> r ∈ rfLost sys'.
Proof. intros [G|G] H; inversion G; subst; cbn in *; try done. apply elem_of_app. by left. Qed.

(** A record nobody will write: it is settled, or its request returned an error. *)
Definition let_go (sys : Refreshing) (t : RefreshTaskRecord) : Prop := isActive t = false \/ refOf t ∈ rfLost sys.

Lemma let_go_hands (sys : Refreshing) k t :
  orderly sys -> tsMap (rfTasks sys) !! k = Some t -> let_go sys t -> hands sys (refOf t) = 0%nat.
Proof.
  intros [H _ _ _ _ _] L F. unfold hands. pose proof (ho_once _ _ _ H (refOf t)) as O. destruct F as [F|F].
  - pose proof (ho_settled _ _ _ H _ _ L F). lia.
  - apply in_times in F. unfold waits in *. lia.
Qed.

Lemma let_go_step (sys sys' : Refreshing) (o : nat) k (t : RefreshTaskRecord) :
  orderly sys -> refresh_step sys sys' -> (o < tsNextObject (rfTasks sys))%nat -> let_go sys t ->
  (forall t0, tsMap (rfTasks sys) !! k = Some t0 -> tkObject t0 = o -> t0 = renamed (tkName t0) t) ->
  forall t', tsMap (rfTasks sys') !! k = Some t' -> tkObject t' = o -> t' = renamed (tkName t') t.
Proof.
  intros O S Fresh F IH t' L Ho.
  assert (came_from (rfTasks sys) (fun r => 0 < hands sys r)%nat k t') as C
    by (destruct S; [by eapply came_go | by eapply came_call]).
  destruct C as [(t0 & L0 & E) | [New | (t0 & L0 & Er & W)]].
  - pose proof (f_equal tkObject E) as E0. cbn in E0. etransitivity; [exact E|].
    rewrite (IH _ L0) by congruence. done.
  - lia.
  - assert (tkObject t0 = o) as E0 by (unfold refOf in Er; congruence). specialize (IH _ L0 E0).
    rewrite (let_go_hands _ k t0) in W; [lia | done | done |].
    rewrite IH. destruct F as [F|F]; [left | right]; done.
Qed.

Lemma let_go_run (n : Z) (sys sys' : Refreshing) (k : string) (t t' : RefreshTaskRecord) :
  refresh_run (newRefreshing n) sys -> refresh_run sys sys' ->
  tsMap (rfTasks sys) !! k = Some t -> isActive t = false \/ refOf t ∈ rfLost sys ->
  tsMap (rfTasks sys') !! k = Some t' -> tkObject t' = tkObject t ->
  t' = renamed (tkName t') t.
Proof.
  intros Run Run' L F L' Ho.
  pose proof (orderly_run _ _ Run (orderly_new n)) as O.
  pose proof (proj1 (proj2 (ho_key _ _ _ (or_held _ O) _ _ L))) as Fresh.
  assert (forall t0, tsMap (rfTasks sys) !! k = Some t0 -> tkObject t0 = tkObject t -> t0 = renamed (tkName t0) t) as IH
    by (intros t0 L0 _; simplify_eq; by rewrite renamed_same).
  clear Run L. revert O F Fresh IH. induction Run' as [sys|sys sys1 sys' S R IHR]; intros O F Fresh IH; [by apply IH|].
  apply IHR; [done | by eapply orderly_step | | | by eapply let_go_step].
  - destruct F as [F|F]; [by left | right; by eapply lost_step].
  - destruct S as [G|G]; [pose proof (next_go _ _ G) | pose proof (next_call _ _ G)]; lia.
Qed.

(** C14: What a goroutine wrote as the outcome of a task, completed or failed, stays as
    it is but for the display name for as long as the record is there: no late worker,
    no cancelled dispatcher and no second request writes into it.  The same holds for a
    task that was queued by a request that then returned an error: it stays queued. *)
Theorem outcomes_are_final (n : Z) (sys sys' : Refreshing) (k : string) (t t' : RefreshTaskRecord) :
  refresh_run (newRefreshing n) sys -> refresh_run sys sys' ->
  tsMap (rfTasks sys) !! k = Some t -> isActive t = false \/ refOf t ∈ rfLost sys ->
  tsMap (rfTasks sys') !! k = Some t' -> tkObject t' = tkObject t ->
  t' = renamed (tkName t') t.
Proof. exact (let_go_run n sys sys' k t t'). Qed.

(** ** Runs *)

Definition sampleIdentity : UsageIdentity :=
  mkUsageIdentity 1 None 1 "a"
    (mkIdentityMetadata "a" "oauth" "codex" "codex" EmptyString EmptyString EmptyString None None None None None
       None None None None None None)
    (mkIdentityTotals 0 0 0 0 0 0 0 0 0 0 None None None) (mkIdentityReset None 0 0 0 0 0 0)
    false zero_time zero_time None.

Definition sampleTask : RefreshTaskRecord := queuedTask 0 "a" RefreshSourceManual sampleIdentity 5.
Definition sampleTasks (task : RefreshTaskRecord) : Tasks :=
  mkTasks {["a" := task]} (3 + refreshTaskReadCleanupInterval) zero_time false ∅ 1.

(** A request for two credentials after its first is queued. *)
Definition halfQueued (b : list string) : Refreshing :=
  mkRefreshing (sampleTasks sampleTask) 2 0 false false false
    [mkRequest RefreshSourceManual b AtNext {["a"]} [(0%nat, "a")] [] 0] [] [] [] [].

Lemma halfQueued_run (b : list string) : refresh_run (newRefreshing 2) (halfQueued b).
Proof.
  eapply rtc_l; [right; apply (refresh _ _ _ _ _ _ _ _ _ _ _ RefreshSourceManual ("a" :: b) 3); done|].
  eapply rtc_l; [left; eapply (item_looked _ _ _ _ _ _ []); [done | done | vm_compute; reflexivity]|].
  eapply rtc_l.
  { left. eapply (item_validated _ _ _ _ _ _ [] _ _ _ _ _ _ _ (Ok (Some sampleIdentity)) (Ok false)); [done|].
    vm_compute. reflexivity. }
  eapply rtc_l; [left; eapply (item_ensured _ _ _ _ _ _ [] _ _ _ _ _ _ _ _ 5); [done | reflexivity]|].
  unfold halfQueued. vm_compute. apply rtc_refl.
Qed.

(** The same after its worker began. *)
Definition sampleRunning : RefreshTaskRecord :=
  mkTask 0 "a" (tkName sampleTask) "codex" None RefreshTaskStatusRunning None EmptyString None RefreshSourceManual
    (NormalizeStorageTime 5) (NormalizeStorageTime 8) zero_time zero_time [].
Definition underWay : Refreshing :=
  mkRefreshing (sampleTasks sampleRunning) 2 1 false false false [] [] [] [Checking (0%nat, "a")] [].

Lemma underWay_run : refresh_run (newRefreshing 2) underWay.
Proof.
  etransitivity; [exact (halfQueued_run [])|].
  eapply rtc_l; [left; eapply (request_done _ _ _ _ _ _ []); done|]. cbn.
  eapply rtc_l; [left; eapply (slot_taken _ _ _ _ _ _ _ _ []); [done | done | lia]|]. cbn.
  eapply rtc_l; [left; eapply (worker_started _ _ _ _ _ _ _ []); done|]. cbn.
  eapply rtc_l; [left; eapply (dispatch_done _ _ _ _ _ _ _ _ []); [by left | done]|]. cbn.
  eapply rtc_l; [left; eapply (task_running _ _ _ _ _ _ _ _ _ [] _ _ _ 8); reflexivity|].
  unfold underWay. vm_compute. apply rtc_refl.
Qed.


(** The database fails at the second credential: the first stays queued. *)
Definition stuck : Refreshing := mkRefreshing (sampleTasks sampleTask) 2 0 false false false [] [] [] [] [(0%nat, "a")].

Lemma stuck_run : refresh_run (newRefreshing 2) stuck.
Proof.
  etransitivity; [exact (halfQueued_run ["b"])|].
  eapply rtc_l; [left; eapply (item_looked _ _ _ _ _ _ []); [done | done | vm_compute; reflexivity]|]. cbn.
  eapply rtc_l; [left; eapply (request_failed _ _ _ _ _ _ [] _ _ _ _ _ _ _ (Err "database is locked") (Ok false)); done|].
  apply rtc_refl.
Qed.

(** And a year later a request for it is refused as a duplicate. *)
Definition muchLater : Time := 365 * 24 * Hour.
Definition refused : Refreshing :=
  mkRefreshing (cleanupExpiredRefreshTasksLocked muchLater (sampleTasks sampleTask)) 2 0 false false false
    [mkRequest RefreshSourceManual [] AtNext {["a"]} [] [("a", "duplicate")] 0] [] [] [] [(0%nat, "a")].

Lemma refused_run : refresh_run stuck refused.
Proof.
  eapply rtc_l; [right; apply (refresh _ _ _ _ _ _ _ _ _ _ _ RefreshSourceManual ["a"] muchLater); done|].
  eapply rtc_l; [left; eapply (item_rejected _ _ _ _ _ _ []); [done | done | vm_compute; reflexivity]|].
  unfold refused. vm_compute. apply rtc_refl.
Qed.

Lemma outcomes_are_final_witness :
  rfLost stuck = [(0%nat, "a")] /\ at_rest stuck
  /\ exists t', tsMap (rfTasks refused) !! "a" = Some t' /\ t' = renamed (tkName t') sampleTask.
Proof.
  split; [reflexivity|]. split; [by vm_compute|]. exists sampleTask. split; [vm_compute; reflexivity|].
  apply (outcomes_are_final 2 stuck refused "a" sampleTask sampleTask stuck_run refused_run);
    [vm_compute; reflexivity | right; left | vm_compute; reflexivity | reflexivity].
Defined.

(** As long as the record is there, every request for the credential is refused. *)
Lemma abandoned_task_blocks (sys' : Refreshing) (t : RefreshTaskRecord) (seen : gset string) :
  refresh_run stuck sys' -> tsMap (rfTasks sys') !! "a" = Some t -> tkObject t = 0%nat -> "a" ∉ seen ->
  rejectedEarly "a" seen (rfTasks sys') = Some "duplicate".
Proof.
  intros Run L O Seen. pose proof (let_go_run 2 stuck sys' "a" sampleTask t stuck_run Run) as E.
  rewrite E in L; [| vm_compute; reflexivity | right; left | done | done].
  unfold rejectedEarly. change (TrimSpace "a") with "a". cbn beta zeta. change ("a" =?s EmptyString) with false.
  cbn [orb]. rewrite bool_decide_eq_false_2 by done. unfold hasActiveRefreshTaskByAuthIndex. rewrite L. done.
Qed.

Lemma no_task_left_behind_witness :
  Acc (flip GoStep) underWay /\ rtc GoStep underWay underWay /\ exists sys', GoStep underWay sys'.
Proof.
  destruct (no_task_left_behind 2 underWay underWay_run) as [H1 H2]. split; [exact H1|]. split; [apply rtc_refl|].
  destruct (H2 underWay (rtc_refl _ _)) as [G | (R & _)]; [exact G|]. destruct R as (_ & _ & _ & R). discriminate R.
Defined.
