(* ===== verification/HeaderFacts.v ===== *)
(** The snapshots of response headers that wait to be flushed: the merge of the
    snapshots of one identity against the reference that looks every component up in
    the newest snapshot that has it, and the bound on the identities. *)
From S2P Require Import Prelude GoStrings GoTime Timeutil Entities GoFloat IdentityStats Quota HeaderPending.
From stdpp Require Import gmap sorting.

Local Open Scope string_scope.
Local Open Scope list_scope.
Local Open Scope Z_scope.

(** ** The reference: a value with the time it was observed *)

Definition newest {A} (a b : option (A * Time)) : option (A * Time) :=
  match a, b with
  | Some x, Some y => if y.2 <? x.2 then a else b
  | Some _, None => a
  | None, _ => b
  end.

(** The value of the newest snapshot that has one; of two as new the later. *)
Definition latest {A} (f : UsageHeaderSnapshot -> option (A * Time)) (l : list UsageHeaderSnapshot) : option (A * Time) :=
  foldl (fun a s => newest a (f s)) None l.

Definition usageOf (s : UsageHeaderSnapshot) : option CodexUsagePayload :=
  codexUsagePayloadFromProviderOutput (hdCacheOutput s).

(** The main windows without the flag, the flag, the windows of one additional limit. *)
Definition mainOf (s : UsageHeaderSnapshot) : option (CodexRateLimitInfo * Time) :=
  match usageOf s with
  | Some u => match cuRateLimit u with
              | Some info => Some (withLimitReached None info, pendingUsageHeaderMainObservedAt s u)
              | None => None
              end
  | None => None
  end.

Definition flagOf (s : UsageHeaderSnapshot) : option (bool * Time) :=
  match usageOf s with Some u => limitReachedOf s u | None => None end.

Definition limitNamed (name : string) (l : list CodexAdditionalRateLimit) : option CodexAdditionalRateLimit :=
  List.find (fun limit => adLimitName limit =?s name) l.

Definition limitOf (name : string) (s : UsageHeaderSnapshot) : option (CodexAdditionalRateLimit * Time) :=
  match usageOf s with
  | Some u => match limitNamed name (cuAdditionalRateLimits u) with
              | Some limit => Some (limit, pendingUsageHeaderAdditionalObservedAt s name)
              | None => None
              end
  | None => None
  end.

Definition observedOf (s : UsageHeaderSnapshot) : option (unit * Time) := Some (tt, hdObservedAt s).

(** A snapshot of Codex, with a time and with limits of different names. *)
Record codex_ok (s : UsageHeaderSnapshot) : Prop := {
  ck_usage : exists u, usageOf s = Some u /\ NoDup (map adLimitName (cuAdditionalRateLimits u));
  ck_provider : ToLower (TrimSpace (hdProvider s)) = "codex";
  ck_claude : EqualFold (TrimSpace (hdProvider s)) "claude" = false;
  ck_observed : hdObservedAt s <> zero_time;
  ck_limits : map_Forall (fun _ t => t <> zero_time) (hdPendingAdditionalObservedAt s);
}.

Lemma before_times (a b : Time) : a <> zero_time -> b <> zero_time -> usageHeaderObservedAtBefore a b = (a <? b).
Proof. intros Ha Hb. unfold usageHeaderObservedAtBefore, IsZero. by rewrite !(proj2 (Z.eqb_neq _ _)). Qed.

Lemma newer_times (c e : UsageHeaderSnapshot) :
  hdObservedAt c <> zero_time -> hdObservedAt e <> zero_time ->
  usageHeaderSnapshotIsNewer c e = negb (hdObservedAt c <? hdObservedAt e).
Proof. intros Hc He. unfold usageHeaderSnapshotIsNewer, IsZero. by rewrite !(proj2 (Z.eqb_neq _ _)). Qed.

Lemma main_time (s : UsageHeaderSnapshot) (u : CodexUsagePayload) info :
  codex_ok s -> cuRateLimit u = Some info -> pendingUsageHeaderMainObservedAt s u <> zero_time.
Proof.
  intros H E. unfold pendingUsageHeaderMainObservedAt. rewrite E. destruct (IsZero (hdPendingMainObservedAt s)) eqn:Z0; cbn [negb].
  - apply H.
  - by apply Z.eqb_neq in Z0.
Qed.

Lemma flag_time (s : UsageHeaderSnapshot) (u : CodexUsagePayload) x : codex_ok s -> limitReachedOf s u = Some x -> x.2 <> zero_time.
Proof.
  intros H. unfold limitReachedOf. destruct (cuRateLimit u) as [info|]; [|done]. destruct (rlmLimitReached info); [|done].
  intros [= <-]. cbn [snd]. destruct (IsZero _) eqn:Z0; [apply H | by apply Z.eqb_neq in Z0].
Qed.

Lemma additional_time (s : UsageHeaderSnapshot) (name : string) :
  codex_ok s -> pendingUsageHeaderAdditionalObservedAt s name <> zero_time.
Proof.
  intros H. unfold pendingUsageHeaderAdditionalObservedAt.
  destruct (hdPendingAdditionalObservedAt s !! name) eqn:L; [exact (ck_limits _ H _ _ L) | apply H].
Qed.

(** ** The additional limits *)

Lemma replaceLimit_names (c : CodexAdditionalRateLimit) (newer : bool) (l l' : list CodexAdditionalRateLimit) :
  replaceLimit c newer l = Some l' -> map adLimitName l' = map adLimitName l.
Proof.
  revert l'. induction l as [|x l IH]; intros l' E; [done|]. cbn in E.
  destruct (adLimitName x =?s adLimitName c) eqn:N.
  - injection E as <-. cbn. f_equal. destruct newer; [|done]. by apply String.eqb_eq in N.
  - destruct (replaceLimit c newer l) as [l1|]; [|done]. injection E as <-. cbn. f_equal. by apply IH.
Qed.

Lemma replaceLimit_named (c : CodexAdditionalRateLimit) (newer : bool) (l l' : list CodexAdditionalRateLimit) (name : string) :
  replaceLimit c newer l = Some l' ->
  limitNamed name l' = if decide (name = adLimitName c) then (if newer then Some c else limitNamed name l) else limitNamed name l.
Proof.
  revert l'. induction l as [|x l IH]; intros l' E; [done|]. cbn in E.
  destruct (adLimitName x =?s adLimitName c) eqn:N.
  - injection E as <-. apply String.eqb_eq in N. unfold limitNamed. cbn. destruct newer; [|by case_decide].
    case_decide as D; [subst name; by rewrite String.eqb_refl|].
    rewrite N. by rewrite (proj2 (String.eqb_neq (adLimitName c) name)).
  - destruct (replaceLimit c newer l) as [l1|]; [|done]. injection E as <-. specialize (IH _ eq_refl).
    unfold limitNamed in *. cbn. rewrite IH. apply String.eqb_neq in N. case_decide as D; [|done].
    subst name. by rewrite (proj2 (String.eqb_neq _ _)).
Qed.

Lemma replaceLimit_found (c : CodexAdditionalRateLimit) (newer : bool) (l : list CodexAdditionalRateLimit) :
  (exists l', replaceLimit c newer l = Some l') \/ (replaceLimit c newer l = None /\ adLimitName c ∉ map adLimitName l).
Proof.
  induction l as [|x l [[l' IH] | [IH N]]]; cbn.
  - right. split; [done|]. apply not_elem_of_nil.
  - destruct (_ =?s _); [by left; eexists|]. rewrite IH. left. by eexists.
  - destruct (_ =?s _) eqn:E; [by left; eexists|]. rewrite IH. right. split; [done|]. apply String.eqb_neq in E.
    rewrite not_elem_of_cons. split; [congruence | done].
Qed.

Lemma limitNamed_app (name : string) (l k : list CodexAdditionalRateLimit) :
  limitNamed name (l ++ k) = match limitNamed name l with Some x => Some x | None => limitNamed name k end.
Proof. induction l as [|x l IH]; [done|]. unfold limitNamed in *. cbn. by destruct (_ =?s _). Qed.

Lemma limitNamed_none (name : string) (l : list CodexAdditionalRateLimit) :
  limitNamed name l = None <-> name ∉ map adLimitName l.
Proof.
  unfold limitNamed. induction l as [|x l IH]; cbn; [split; [intros _; apply not_elem_of_nil | done]|].
  rewrite not_elem_of_cons. destruct (adLimitName x =?s name) eqn:E.
  - apply String.eqb_eq in E. split; [done | by intros [[] _]].
  - apply String.eqb_neq in E. rewrite IH. split; [intros; split; [congruence | done] | by intros [_ ?]].
Qed.

(** The entry of a name, and its time in the map of the loop. *)
Definition timed (l : list CodexAdditionalRateLimit) (m : gmap string Time) (name : string)
    : option (CodexAdditionalRateLimit * Time) :=
  match limitNamed name l with Some x => Some (x, default zero_time (m !! name)) | None => None end.

Definition offered (c : UsageHeaderSnapshot) (candidates : list CodexAdditionalRateLimit) (name : string)
    : option (CodexAdditionalRateLimit * Time) :=
  match limitNamed name candidates with
  | Some x => Some (x, pendingUsageHeaderAdditionalObservedAt c name)
  | None => None
  end.

Definition times_ok (l : list CodexAdditionalRateLimit) (m : gmap string Time) : Prop :=
  map_Forall (fun _ t => t <> zero_time) m /\ forall name, name ∈ map adLimitName l -> is_Some (m !! name).

(** A candidate alone. *)
Definition single (x : CodexAdditionalRateLimit) (at_ : Time) (name : string) : option (CodexAdditionalRateLimit * Time) :=
  if decide (name = adLimitName x) then Some (x, at_) else None.

Lemma times_insert (l l' : list CodexAdditionalRateLimit) (m : gmap string Time) (name : string) (at_ : Time) :
  times_ok l m -> at_ <> zero_time ->
  (forall n, n ∈ map adLimitName l' -> n = name \/ n ∈ map adLimitName l) -> times_ok l' (<[name := at_]> m).
Proof.
  intros [T1 T2] Nz In. split; [by apply map_Forall_insert_2|]. intros n Hn.
  destruct (decide (name = n)) as [<-|Ne]; [rewrite lookup_insert_eq; by eexists|].
  rewrite lookup_insert_ne by done. apply T2. destruct (In _ Hn); congruence.
Qed.

Lemma replaced_step (x : CodexAdditionalRateLimit) (at_ t0 : Time) (l l1 : list CodexAdditionalRateLimit) (m : gmap string Time) :
  times_ok l m -> at_ <> zero_time -> m !! adLimitName x = Some t0 -> adLimitName x ∈ map adLimitName l ->
  let newer := negb (usageHeaderObservedAtBefore at_ t0) in
  replaceLimit x newer l = Some l1 ->
  let m1 := if newer then <[adLimitName x := at_]> m else m in
  times_ok l1 m1 /\ forall name, timed l1 m1 name = newest (timed l m name) (single x at_ name).
Proof.
  intros T Nz Ht0 In newer E. pose proof (replaceLimit_names _ _ _ _ E) as Names.
  pose proof (proj1 T _ _ Ht0) as Nz0. cbn in Nz0. split.
  - destruct newer; [eapply times_insert; [exact T | done | rewrite Names; by right]|].
    split; [apply T|]. rewrite Names. apply T.
  - intros name. unfold timed. rewrite (replaceLimit_named _ _ _ _ name E). unfold newer, single.
    rewrite (before_times at_ t0) by done. case_decide as D; [subst name|].
    + destruct (limitNamed (adLimitName x) l) eqn:L; [|by apply limitNamed_none in L].
      destruct (at_ <? t0) eqn:B; cbn [negb]; [|rewrite lookup_insert_eq]; rewrite ?Ht0; cbn; by rewrite ?B.
    + destruct (negb (at_ <? t0)); [rewrite lookup_insert_ne by done|]; by destruct (limitNamed name l).
Qed.

Lemma appended_step (x : CodexAdditionalRateLimit) (at_ : Time) (l : list CodexAdditionalRateLimit) (m : gmap string Time) (name : string) :
  adLimitName x ∉ map adLimitName l ->
  timed (l ++ [x]) (<[adLimitName x := at_]> m) name = newest (timed l m name) (single x at_ name).
Proof.
  intros Fresh. unfold timed, single. rewrite limitNamed_app. case_decide as D; [subst name|].
  - rewrite (proj2 (limitNamed_none _ _) Fresh), lookup_insert_eq. unfold limitNamed. cbn. by rewrite String.eqb_refl.
  - rewrite lookup_insert_ne by done. destruct (limitNamed name l) eqn:L; [done|]. unfold limitNamed. cbn.
    by rewrite (proj2 (String.eqb_neq (adLimitName x) name)).
Qed.

Lemma offered_cons (c : UsageHeaderSnapshot) (x : CodexAdditionalRateLimit) (candidates : list CodexAdditionalRateLimit)
    (a : option (CodexAdditionalRateLimit * Time)) (name : string) :
  adLimitName x ∉ map adLimitName candidates ->
  newest (newest a (single x (pendingUsageHeaderAdditionalObservedAt c (adLimitName x)) name)) (offered c candidates name)
  = newest a (offered c (x :: candidates) name).
Proof.
  intros Nx. unfold offered, single, limitNamed at 2. cbn. case_decide as D; [subst name|].
  - rewrite String.eqb_refl, (proj2 (limitNamed_none _ _) Nx). by destruct a as [a|]; cbn; [case_match|].
  - rewrite (proj2 (String.eqb_neq (adLimitName x) name)) by done. fold (limitNamed name candidates). by destruct a.
Qed.

Lemma replaceLimit_in (x : CodexAdditionalRateLimit) (newer : bool) (l l1 : list CodexAdditionalRateLimit) :
  replaceLimit x newer l = Some l1 -> adLimitName x ∈ map adLimitName l.
Proof.
  revert l1. induction l as [|y l IH]; intros l1 E; [done|]. cbn in *. destruct (_ =?s _) eqn:D.
  - apply String.eqb_eq in D. rewrite D. by left.
  - destruct (replaceLimit x newer l); [|done]. right. by eapply IH.
Qed.

Lemma mergeAdditional_exact (c : UsageHeaderSnapshot) (candidates l : list CodexAdditionalRateLimit) (m : gmap string Time) :
  codex_ok c -> times_ok l m -> NoDup (map adLimitName l) -> NoDup (map adLimitName candidates) ->
  let '(l', m') := mergeAdditional c candidates l m in
  times_ok l' m' /\ NoDup (map adLimitName l')
  /\ forall name, timed l' m' name = newest (timed l m name) (offered c candidates name).
Proof.
  intros C. revert l m. induction candidates as [|x candidates IH]; intros l m T N Nc; cbn [mergeAdditional].
  { split_and!; [done | done |]. intros name. unfold offered. cbn. by destruct (timed l m name). }
  apply NoDup_cons in Nc as [Nx Nc]. pose proof (additional_time c (adLimitName x) C) as Tx.
  set (at_ := pendingUsageHeaderAdditionalObservedAt c (adLimitName x)) in *.
  set (newer := negb (usageHeaderObservedAtBefore at_ (default zero_time (m !! adLimitName x)))).
  destruct (replaceLimit_found x newer l) as [[l1 E] | [E Fresh]]; rewrite E; cbn zeta.
  - pose proof (replaceLimit_in _ _ _ _ E) as In. destruct (proj2 T _ In) as [t0 Ht0].
    unfold newer in *. clear newer. rewrite Ht0 in *. cbn [from_option id] in *.
    destruct (replaced_step x at_ t0 l l1 m T Tx Ht0 In E) as [T1 Step].
    specialize (IH _ _ T1). destruct (mergeAdditional _ _ _ _) as [l' m'].
    destruct IH as (Tl & Nl & Ex); [by rewrite (replaceLimit_names _ _ _ _ E) | done |].
    split_and!; [done | done |]. intros name. rewrite Ex, Step. by apply offered_cons.
  - specialize (IH (l ++ [x]) (<[adLimitName x := at_]> m)). destruct (mergeAdditional _ _ _ _) as [l' m'].
    destruct IH as (Tl & Nl & Ex); [| | done |].
    + eapply times_insert; [exact T | done |]. intros n. rewrite map_app, elem_of_app. cbn.
      rewrite list_elem_of_singleton. tauto.
    + rewrite map_app. apply NoDup_app. split_and!; [done | | apply NoDup_singleton].
      by intros y Hy ->%list_elem_of_singleton.
    + split_and!; [done | done |]. intros name. rewrite Ex, appended_step by done. by apply offered_cons.
Qed.

(** ** The merge of two snapshots takes every component from the newer that has it *)

Definition startingTimes (s : UsageHeaderSnapshot) (l : list CodexAdditionalRateLimit) (m : gmap string Time) : gmap string Time :=
  foldl (fun m limit => <[adLimitName limit := pendingUsageHeaderAdditionalObservedAt s (adLimitName limit)]> m) m l.

Lemma startingTimes_lookup (s : UsageHeaderSnapshot) (l : list CodexAdditionalRateLimit) (m : gmap string Time) (name : string) :
  startingTimes s l m !! name
  = if decide (name ∈ map adLimitName l) then Some (pendingUsageHeaderAdditionalObservedAt s name) else m !! name.
Proof.
  revert m. induction l as [|x l IH]; intros m.
  - rewrite decide_False; [done | apply not_elem_of_nil].
  - change (startingTimes s (x :: l) m) with
      (startingTimes s l (<[adLimitName x := pendingUsageHeaderAdditionalObservedAt s (adLimitName x)]> m)).
    rewrite IH. destruct (decide (name = adLimitName x)) as [->|Ne].
    + rewrite (decide_True (P := adLimitName x ∈ map adLimitName (x :: l))) by (cbn; by left).
      case_decide; [done | by rewrite lookup_insert_eq].
    + rewrite lookup_insert_ne by done. repeat case_decide; try done; cbn in *; set_solver.
Qed.

Lemma startingTimes_ok (s : UsageHeaderSnapshot) (l : list CodexAdditionalRateLimit) :
  codex_ok s -> times_ok l (startingTimes s l ∅) /\ forall name, timed l (startingTimes s l ∅) name = offered s l name.
Proof.
  intros C. split; [split|].
  - intros name t. rewrite startingTimes_lookup, lookup_empty. case_decide; [|done]. intros [= <-]. by apply additional_time.
  - intros name H. rewrite startingTimes_lookup, decide_True by done. by eexists.
  - intros name. unfold timed, offered. destruct (limitNamed name l) eqn:L; [|done].
    rewrite startingTimes_lookup, decide_True; [done|]. apply dec_stable. intros N. apply limitNamed_none in N. congruence.
Qed.

Lemma merge_additional (e c : UsageHeaderSnapshot) (le lc : list CodexAdditionalRateLimit) :
  codex_ok e -> codex_ok c -> NoDup (map adLimitName le) -> NoDup (map adLimitName lc) ->
  let '(l, m) := mergePendingCodexAdditionalRateLimits e le c lc in
  times_ok l m /\ NoDup (map adLimitName l) /\ forall name, timed l m name = newest (offered e le name) (offered c lc name).
Proof.
  intros E C Ne Nc. unfold mergePendingCodexAdditionalRateLimits. destruct ((length le =? 0)%nat && (length lc =? 0)%nat) eqn:Z0.
  - apply andb_true_iff in Z0 as [Z1%Nat.eqb_eq Z2%Nat.eqb_eq]. destruct le, lc; try done.
    split_and!; [|constructor | done]. split; [by intros ? ? | by intros ? ?%elem_of_nil].
  - cbn zeta. destruct (startingTimes_ok e le E) as [T Ex].
    pose proof (mergeAdditional_exact c lc le (startingTimes e le ∅) C T Ne Nc) as M. unfold startingTimes in *.
    destruct (mergeAdditional _ _ _ _) as [l m]. destruct M as (Tl & Nl & M). split_and!; [done..|].
    intros name. by rewrite M, Ex.
Qed.

Lemma latestFlag_newest (e c : option (bool * Time)) :
  (forall x, e = Some x -> x.2 <> zero_time) -> (forall x, c = Some x -> x.2 <> zero_time) ->
  let r := latestFlag (latestFlag (None, zero_time) e) c in
  (match r.1 with Some f => Some (f, r.2) | None => None end) = newest e c.
Proof.
  intros He Hc. destruct e as [[fe te]|], c as [[fc tc]|]; cbn; try done.
  specialize (He _ eq_refl). specialize (Hc _ eq_refl). cbn in *. rewrite before_times by done.
  by destruct (tc <? te).
Qed.

Lemma newest_time {A} (a b : option (A * Time)) (x : A * Time) :
  (forall x, a = Some x -> x.2 <> zero_time) -> (forall x, b = Some x -> x.2 <> zero_time) ->
  newest a b = Some x -> x.2 <> zero_time.
Proof. destruct a as [a|], b as [b|]; cbn; intros Ha Hb; try case_match; intros; simplify_eq; eauto. Qed.

(** A snapshot of the components of two. *)
Definition joins (e c m : UsageHeaderSnapshot) : Prop :=
  mainOf m = newest (mainOf e) (mainOf c) /\ flagOf m = newest (flagOf e) (flagOf c)
  /\ (forall name, limitOf name m = newest (limitOf name e) (limitOf name c))
  /\ observedOf m = newest (observedOf e) (observedOf c).

(** The choice of the main windows. *)
Lemma merge_main (e c : UsageHeaderSnapshot) (ue uc : CodexUsagePayload) (rl : option CodexRateLimitInfo) (at_ : Time) :
  codex_ok e -> codex_ok c -> usageOf e = Some ue -> usageOf c = Some uc ->
  match cuRateLimit uc, cuRateLimit ue with
  | Some i, None => (Some i, pendingUsageHeaderMainObservedAt c uc)
  | Some i, Some j =>
      if negb (usageHeaderObservedAtBefore (pendingUsageHeaderMainObservedAt c uc) (pendingUsageHeaderMainObservedAt e ue))
      then (Some i, pendingUsageHeaderMainObservedAt c uc) else (Some j, pendingUsageHeaderMainObservedAt e ue)
  | None, Some j => (Some j, pendingUsageHeaderMainObservedAt e ue)
  | None, None => (None, zero_time)
  end = (rl, at_) ->
  match rl with
  | Some i => newest (mainOf e) (mainOf c) = Some (withLimitReached None i, at_) /\ at_ <> zero_time
  | None => newest (mainOf e) (mainOf c) = None /\ flagOf e = None /\ flagOf c = None
  end.
Proof.
  intros E C Ue Uc M. unfold mainOf, flagOf, limitReachedOf. rewrite Ue, Uc.
  destruct (cuRateLimit uc) as [i|] eqn:Rc, (cuRateLimit ue) as [j|] eqn:Re; [|injection M as <- <- ..].
  - pose proof (main_time _ _ _ E Re) as Te. pose proof (main_time _ _ _ C Rc) as Tc. rewrite before_times in M by done.
    cbn. destruct (_ <? _); injection M as <- <-; done.
  - split; [done | by eapply main_time].
  - split; [done | by eapply main_time].
  - done.
Qed.

Lemma limitOf_known (s : UsageHeaderSnapshot) (u : CodexUsagePayload) (name : string) :
  usageOf s = Some u -> times_ok (cuAdditionalRateLimits u) (hdPendingAdditionalObservedAt s) ->
  limitOf name s = timed (cuAdditionalRateLimits u) (hdPendingAdditionalObservedAt s) name.
Proof.
  intros E [_ T]. unfold limitOf, timed, pendingUsageHeaderAdditionalObservedAt. rewrite E.
  destruct (limitNamed name _) as [x|] eqn:L; [|done]. destruct (T name) as [t ->]; [|done].
  apply dec_stable. intros N. apply limitNamed_none in N. congruence.
Qed.

Lemma merge_codex (e c : UsageHeaderSnapshot) :
  codex_ok e -> codex_ok c ->
  codex_ok (mergePendingUsageHeaderCacheSnapshot e c) /\ joins e c (mergePendingUsageHeaderCacheSnapshot e c).
Proof.
  intros E C. destruct (ck_usage _ E) as (ue & Ue & Ne), (ck_usage _ C) as (uc & Uc & Nc).
  unfold mergePendingUsageHeaderCacheSnapshot. rewrite (ck_provider _ E), (ck_provider _ C), (ck_claude _ E).
  change ("codex" =?s "codex") with true. cbn [negb]. fold (usageOf e) (usageOf c). rewrite Ue, Uc.
  unfold mergeCodex. cbn zeta.
  set (base := if usageHeaderSnapshotIsNewer c e then c else e).
  assert (codex_ok base) as B by (unfold base; by case_match).
  destruct (match cuRateLimit uc with Some _ => _ | None => _ end) as [rl mainAt] eqn:Main.
  apply (merge_main _ _ _ _ _ _ E C Ue Uc) in Main.
  pose proof (merge_additional e c _ _ E C Ne Nc) as Add. destruct (mergePendingCodexAdditionalRateLimits _ _ _ _) as [l m].
  destruct Add as (T & Nl & Add).
  pose proof (latestFlag_newest (limitReachedOf e ue) (limitReachedOf c uc)
    (fun x => flag_time e ue x E) (fun x => flag_time c uc x C)) as Flag.
  destruct (latestFlag _ _) as [flag flagAt]. cbn [fst snd] in Flag. cbn zeta in Flag.
  assert (observedOf base = newest (observedOf e) (observedOf c)) as Obs.
  { unfold base, observedOf. cbn. rewrite newer_times by (apply C || apply E). by destruct (_ <? _). }
  assert (forall name, newest (limitOf name e) (limitOf name c)
    = timed l m name) as Lim.
  { intros name. unfold limitOf. rewrite Ue, Uc. symmetry. apply Add. }
  assert (newest (flagOf e) (flagOf c) = match flag with Some f => Some (f, flagAt) | None => None end) as Fl
    by (unfold flagOf; rewrite Ue, Uc; by symmetry).
  assert (flag <> None -> flagAt <> zero_time) as FlagNz.
  { intros F. destruct flag as [f|]; [|done]. unfold flagOf in Fl. rewrite Ue, Uc in Fl.
    exact (newest_time _ _ _ (fun x => flag_time e ue x E) (fun x => flag_time c uc x C) Fl). }
  clear Flag Add. generalize (if usageHeaderSnapshotIsNewer c e then uc else ue) as v,
    (if usageHeaderSnapshotIsNewer c e then ue else uc) as v'. intros v v'.
  split.
  { destruct rl; (split; [by eexists | apply B | apply B | apply B | apply T]). }
  unfold joins. setoid_rewrite Lim. rewrite <- Obs.
  destruct rl as [i|]; (split_and!; [| | intros name; etransitivity; [eapply limitOf_known; [reflexivity | exact T] | done] | done]).
  - destruct Main as [-> Nz]. unfold mainOf, usageOf, pendingUsageHeaderMainObservedAt, IsZero. cbn.
    by rewrite (proj2 (Z.eqb_neq mainAt zero_time)).
  - rewrite Fl. unfold flagOf, usageOf, limitReachedOf, IsZero. cbn. destruct flag as [f|]; [|done].
    by rewrite (proj2 (Z.eqb_neq flagAt zero_time)) by auto.
  - by destruct Main as (-> & _).
  - by destruct Main as (_ & -> & ->).
Qed.

(** ** The map of pending snapshots *)

(** [s] has every component of the newest of [own] that has it. *)
Definition represents (s : UsageHeaderSnapshot) (own : list UsageHeaderSnapshot) : Prop :=
  mainOf s = latest mainOf own /\ flagOf s = latest flagOf own
  /\ (forall name, limitOf name s = latest (limitOf name) own)
  /\ observedOf s = latest observedOf own.

Definition ofKey (key : string) (l : list UsageHeaderSnapshot) : list UsageHeaderSnapshot :=
  List.filter (fun s => pendingKey s =?s key) l.

Definition keysOf (l : list UsageHeaderSnapshot) : gset string := list_to_set (map pendingKey l).

Lemma latest_snoc {A} (f : UsageHeaderSnapshot -> option (A * Time)) (l : list UsageHeaderSnapshot) (s : UsageHeaderSnapshot) :
  latest f (l ++ [s]) = newest (latest f l) (f s).
Proof. unfold latest. by rewrite foldl_app. Qed.

Lemma ofKey_snoc (key : string) (l : list UsageHeaderSnapshot) (s : UsageHeaderSnapshot) :
  ofKey key (l ++ [s]) = if pendingKey s =?s key then ofKey key l ++ [s] else ofKey key l.
Proof.
  unfold ofKey. rewrite List.filter_app. cbn. destruct (pendingKey s =?s key); [done | by rewrite app_nil_r].
Qed.

Lemma represents_one (s : UsageHeaderSnapshot) : represents s [s].
Proof.
  unfold represents, latest. cbn.
  split_and!; [by destruct (mainOf s) | by destruct (flagOf s) | intros name; by destruct (limitOf name s) | done].
Qed.

Lemma represents_snoc (e c m : UsageHeaderSnapshot) (own : list UsageHeaderSnapshot) :
  represents e own -> joins e c m -> represents m (own ++ [c]).
Proof.
  intros (R1 & R2 & R3 & R4) (J1 & J2 & J3 & J4). unfold represents. setoid_rewrite latest_snoc.
  rewrite J1, J2, J4, R1, R2, R4. split_and!; [done | done | | done]. intros name. by rewrite J3, R3.
Qed.

Record pending_exact (pending : gmap string UsageHeaderSnapshot) (l : list UsageHeaderSnapshot) : Prop := {
  pe_dom : dom pending = keysOf l;
  pe_entry : forall key s, pending !! key = Some s -> codex_ok s /\ represents s (ofKey key l);
}.

Lemma keysOf_snoc (l : list UsageHeaderSnapshot) (s : UsageHeaderSnapshot) : keysOf (l ++ [s]) = keysOf l ∪ {[pendingKey s]}.
Proof. unfold keysOf. rewrite map_app, list_to_set_app_L. cbn. by rewrite (right_id_L ∅ union). Qed.

Lemma ofKey_fresh (key : string) (l : list UsageHeaderSnapshot) : key ∉ keysOf l -> ofKey key l = [].
Proof.
  unfold keysOf, ofKey. rewrite elem_of_list_to_set. induction l as [|s l IH]; [done|]. cbn. rewrite not_elem_of_cons.
  intros [Ne N]. rewrite (proj2 (String.eqb_neq _ _)) by congruence. by apply IH.
Qed.

Lemma pending_merged (pending : gmap string UsageHeaderSnapshot) (l : list UsageHeaderSnapshot) (s : UsageHeaderSnapshot) :
  pending_exact pending l -> codex_ok s -> Z.of_nat (size (keysOf (l ++ [s]))) <= usageHeaderPendingIdentityLimit ->
  pending_exact (mergePendingUsageHeaderSnapshot pending s) (l ++ [s]).
Proof.
  intros [D P] S Size. unfold mergePendingUsageHeaderSnapshot, Pending. destruct (pending !! pendingKey s) as [e|] eqn:L.
  - destruct (P _ _ L) as [E R]. destruct (merge_codex e s E S) as [M J]. split.
    + etransitivity; [apply dom_insert_L|]. rewrite keysOf_snoc, D. set_solver.
    + intros key x. rewrite ofKey_snoc. intros [[<- <-] | [Ne Lx]]%lookup_insert_Some.
      * rewrite String.eqb_refl. split; [done|]. by eapply represents_snoc.
      * rewrite (proj2 (String.eqb_neq _ _)) by done. by apply P.
  - assert (pendingKey s ∉ keysOf l) as Fresh by (rewrite <- D; by apply not_elem_of_dom).
    rewrite keysOf_snoc, size_union in Size by set_solver. rewrite size_singleton, <- D, size_dom in Size.
    rewrite (proj2 (Z.ltb_lt _ _)) by lia. split.
    + etransitivity; [apply dom_insert_L|]. rewrite keysOf_snoc, D. set_solver.
    + intros key x. rewrite ofKey_snoc. intros [[<- <-] | [Ne Lx]]%lookup_insert_Some.
      * rewrite String.eqb_refl, ofKey_fresh by done. split; [done | apply represents_one].
      * rewrite (proj2 (String.eqb_neq _ _)) by done. by apply P.
Qed.

Lemma pending_exact_all (l : list UsageHeaderSnapshot) :
  Forall codex_ok l -> Z.of_nat (size (keysOf l)) <= usageHeaderPendingIdentityLimit ->
  pending_exact (mergePendingUsageHeaderSnapshotPointers ∅ (map Some l)) l.
Proof.
  induction l as [|s l IH] using rev_ind; intros C Size.
  - split; [apply dom_empty_L | by intros key s].
  - apply Forall_app in C as [C [Cs _]%Forall_cons]. unfold mergePendingUsageHeaderSnapshotPointers in *.
    rewrite map_app, foldl_app. cbn [map foldl]. apply pending_merged; [|done | done]. apply IH; [done|].
    rewrite keysOf_snoc in Size. assert (size (keysOf l) <= size (keysOf l ∪ {[pendingKey s]}))%nat; [|lia].
    apply subseteq_size. set_solver.
Qed.


(** ** The bound on the identities *)

(** Not before: a total preorder, in which the zero time comes first. *)
Lemma not_before_trans (x y z : Time) :
  usageHeaderObservedAtBefore x y = false -> usageHeaderObservedAtBefore y z = false ->
  usageHeaderObservedAtBefore x z = false.
Proof.
  unfold usageHeaderObservedAtBefore, IsZero.
  destruct (x =? zero_time) eqn:X, (y =? zero_time) eqn:Y, (z =? zero_time) eqn:Z0; cbn; try done.
  intros ?%Z.ltb_ge ?%Z.ltb_ge. apply Z.ltb_ge. lia.
Qed.

Lemma before_not_after (x y : Time) : usageHeaderObservedAtBefore x y = true -> usageHeaderObservedAtBefore y x = false.
Proof.
  unfold usageHeaderObservedAtBefore, IsZero. destruct (x =? zero_time), (y =? zero_time); cbn; try done.
  intros ?%Z.ltb_lt. apply Z.ltb_ge. lia.
Qed.

Lemma before_irrefl (x : Time) : usageHeaderObservedAtBefore x x = false.
Proof. unfold usageHeaderObservedAtBefore. destruct (IsZero x); [done | apply Z.ltb_irrefl]. Qed.

Lemma newer_not_before (c e : UsageHeaderSnapshot) :
  usageHeaderSnapshotIsNewer c e = negb (usageHeaderObservedAtBefore (hdObservedAt c) (hdObservedAt e)).
Proof.
  unfold usageHeaderSnapshotIsNewer, usageHeaderObservedAtBefore.
  by destruct (IsZero (hdObservedAt c)), (IsZero (hdObservedAt e)).
Qed.

Definition pickOlder (oldest : option (string * UsageHeaderSnapshot)) (entry : string * UsageHeaderSnapshot) :=
  match oldest with None => Some entry | Some o => if olderEntry entry o then Some entry else oldest end.

Lemma olderEntry_not_before (e s : string * UsageHeaderSnapshot) :
  usageHeaderObservedAtBefore
    (hdObservedAt (if olderEntry e s then s else e).2) (hdObservedAt (if olderEntry e s then e else s).2) = false.
Proof.
  destruct (olderEntry e s) eqn:Old; unfold olderEntry in Old.
  - apply orb_true_iff in Old as [B|[B%Z.eqb_eq _]%andb_true_iff]; [by apply before_not_after|].
    rewrite B. apply before_irrefl.
  - by apply orb_false_iff in Old as [B _].
Qed.

Lemma pickOlder_min (entries : list (string * UsageHeaderSnapshot)) (start : option (string * UsageHeaderSnapshot)) o :
  foldl pickOlder start entries = Some o ->
  (Some o = start \/ o ∈ entries)
  /\ forall x, Some x = start \/ x ∈ entries -> usageHeaderObservedAtBefore (hdObservedAt x.2) (hdObservedAt o.2) = false.
Proof.
  revert start. induction entries as [|e entries IH]; intros start E; cbn in E.
  { subst. split; [by left|]. intros x [[= ->] | N%elem_of_nil]; [apply before_irrefl | done]. }
  destruct (IH _ E) as [In Min]. destruct start as [s|]; cbn in In, Min.
  - pose proof (olderEntry_not_before e s) as NB. destruct (olderEntry e s).
    + split; [destruct In as [[= ->]|In]; right; [by left | by right]|].
      intros x [[= ->] | [->|Hx]%elem_of_cons]; [eapply not_before_trans; [exact NB|]; by apply Min; left
        | by apply Min; left | by apply Min; right].
    + split; [destruct In as [In|In]; [by left | right; by right]|].
      intros x [[= ->] | [->|Hx]%elem_of_cons]; [by apply Min; left
        | eapply not_before_trans; [exact NB|]; by apply Min; left | by apply Min; right].
  - split; [destruct In as [[= ->]|In]; right; [by left | by right]|].
    intros x [Hx | [->|Hx]%elem_of_cons]; [done | by apply Min; left | by apply Min; right].
Qed.

Lemma oldest_min (pending : gmap string UsageHeaderSnapshot) (k0 : string) (s0 : UsageHeaderSnapshot) :
  oldestPendingUsageHeaderSnapshot pending = Some (k0, s0) ->
  pending !! k0 = Some s0
  /\ forall k s, pending !! k = Some s -> usageHeaderObservedAtBefore (hdObservedAt s) (hdObservedAt s0) = false.
Proof.
  intros E. destruct (pickOlder_min (map_to_list pending) None (k0, s0) E) as [[In|In] Min]; [done|].
  apply elem_of_map_to_list in In. split; [done|]. intros k s L. apply (Min (k, s)). right. by apply elem_of_map_to_list.
Qed.

Lemma oldest_none (pending : gmap string UsageHeaderSnapshot) :
  oldestPendingUsageHeaderSnapshot pending = None -> pending = ∅.
Proof.
  unfold oldestPendingUsageHeaderSnapshot, Pending. intros Old. apply map_to_list_empty_iff.
  destruct (map_to_list pending) as [|x xs]; [done|]. exfalso. cbn in Old. revert x Old.
  induction xs as [|y ys IH]; intros x; [by cbn|]. cbn. destruct (olderEntry y x); apply IH.
Qed.

(** The map of pending snapshots never holds more than 1000 identities; a header of
    a known identity removes none, and when a new one pushes an entry out, or is itself
    not taken, what is lost is not newer than anything that stays. *)
Theorem pending_bounded (pending : Pending) (snapshot : UsageHeaderSnapshot) :
  Z.of_nat (size pending) <= usageHeaderPendingIdentityLimit ->
  let pending' := mergePendingUsageHeaderSnapshot pending snapshot in
  Z.of_nat (size pending') <= usageHeaderPendingIdentityLimit
  /\ (forall k s k' s', pending !! k = Some s -> pending' !! k = None -> pending' !! k' = Some s' ->
        usageHeaderObservedAtBefore (hdObservedAt s') (hdObservedAt s) = false)
  /\ (pending' !! pendingKey snapshot = None -> pending' = pending
      /\ forall k s, pending !! k = Some s -> usageHeaderObservedAtBefore (hdObservedAt s) (hdObservedAt snapshot) = false).
Proof.
  unfold mergePendingUsageHeaderSnapshot, Pending in *. intros Size. cbn zeta.
  destruct (pending !! pendingKey snapshot) as [e|] eqn:L; [|case_match eqn:Room].
  - rewrite map_size_insert_Some by eauto. split_and!; [done | | by rewrite lookup_insert_eq].
    intros k s k' s' Lk [Lk' _]%lookup_insert_None. congruence.
  - apply Z.ltb_lt in Room. rewrite map_size_insert_None by done. split_and!; [lia | | by rewrite lookup_insert_eq].
    intros k s k' s' Lk [Lk' _]%lookup_insert_None. congruence.
  - apply Z.ltb_ge in Room. destruct (oldestPendingUsageHeaderSnapshot pending) as [[k0 s0]|] eqn:Old.
    + destruct (oldest_min _ _ _ Old) as [L0 Min]. rewrite newer_not_before, negb_involutive.
      destruct (usageHeaderObservedAtBefore (hdObservedAt snapshot) (hdObservedAt s0)) eqn:B.
      * split_and!; [done | congruence |]. intros _. split; [done|]. intros k s Lk.
        eapply not_before_trans; [by eapply Min | by apply before_not_after].
      * rewrite map_size_insert_None by (apply lookup_delete_None; by right). rewrite map_size_delete_Some by eauto.
        split_and!; [unfold usageHeaderPendingIdentityLimit in *; lia | | by rewrite lookup_insert_eq].
        intros k s k' s' Lk [Lk' Nk]%lookup_insert_None. apply lookup_delete_None in Lk' as [->|]; [|congruence].
        rewrite L0 in Lk. injection Lk as <-. intros [[<- <-] | [_ [_ Lx]%lookup_delete_Some]]%lookup_insert_Some; [done|].
        by eapply Min.
    + unfold usageHeaderPendingIdentityLimit in *. assert (pending <> ∅) as Ne by (intros ->; rewrite map_size_empty in Room; lia).
      destruct Ne. by apply oldest_none.
Qed.

(** ** Headers of one minute *)

Definition sampleWindow (percent : Z) : CodexRateLimitInfo :=
  mkRateLimit None (if percent =? 100 then Some true else None) None None.
Definition sampleHeader (at_ : Time) (main : option CodexRateLimitInfo) (limits : list CodexAdditionalRateLimit)
    : UsageHeaderSnapshot :=
  mkHeaderSnapshot "oauth" "a" "codex" at_
    (mkOutput "codex" (CodexValue (mkCodexResult (Some (mkCodexUsage EmptyString main None limits None)))))
    zero_time zero_time ∅ ∅.
Definition spark : CodexAdditionalRateLimit := mkAdditional "spark" EmptyString (Some (sampleWindow 7)).

(** The limit is reached, then only the additional limit is seen, and last an old header
    arrives late. *)
Definition sampleHeaders : list UsageHeaderSnapshot :=
  [sampleHeader 20 (Some (sampleWindow 100)) []; sampleHeader 30 None [spark]; sampleHeader 10 (Some (sampleWindow 50)) []].


Lemma pending_bounded_witness :
  Z.of_nat (size (∅ : Pending)) <= usageHeaderPendingIdentityLimit
  /\ Z.of_nat (size (mergePendingUsageHeaderSnapshot ∅ (sampleHeader 20 None []))) <= usageHeaderPendingIdentityLimit.
Proof.
  assert (Z.of_nat (size (∅ : Pending)) <= usageHeaderPendingIdentityLimit) as H by (vm_compute; discriminate).
  split; [exact H|]. apply (pending_bounded ∅ (sampleHeader 20 None []) H).
Defined.
