(* ===== verification/AutoRefresh.v ===== *)
(** repository/app_settings.go and package quota, settings.go and the schedule of
    auto_refresh.go: the settings of the timer, when its next round is due and what the
    loop waits for.

    A setting whose statement fails is not written; encoding/json is the pair
    [Marshal], which is written out for a schedule, and the parameter [Unmarshal]. *)
From S2P Require Import Prelude GoStrings GoTime GoTimeFacts Entities Timeutil.
From stdpp Require Import gmap.

Local Open Scope string_scope.
Local Open Scope list_scope.
Local Open Scope Z_scope.

(** ** app_settings.go *)

Record AppSetting := mkAppSetting {
  asSettingKey : string;
  asValue : option string;
  asValueType : string;
  asCreatedAt : Time;
  asUpdatedAt : Time;
}.

Definition AppSettings : Type := gmap string AppSetting.

Definition GetAppSetting (key : string) (t : AppSettings) : result string (option AppSetting) :=
  let normalizedKey := TrimSpace key in
  if normalizedKey =?s EmptyString then Err "setting key is required" else Ok (t !! normalizedKey).

Fixpoint normalizeSettingKeys (keys seen : list string) : result string (list string) :=
  match keys with
  | [] => Ok seen
  | key :: keys =>
      let normalizedKey := TrimSpace key in
      if normalizedKey =?s EmptyString then Err "setting key is required"
      else normalizeSettingKeys keys (if existsb (String.eqb normalizedKey) seen then seen else seen ++ [normalizedKey])
  end.

Definition GetAppSettings (keys : list string) (t : AppSettings) : result string AppSettings :=
  result_bind (normalizeSettingKeys keys []) (fun keys => Ok (filter (fun p => p.1 ∈ keys) t)).

(** [writes] tells whether the statement succeeds, at [now]. *)
Definition UpsertAppSetting (writes : bool) (now : Time) (setting : AppSetting) (t : AppSettings)
    : AppSettings * result string AppSetting :=
  let key := TrimSpace (asSettingKey setting) in
  let type := TrimSpace (asValueType setting) in
  if key =?s EmptyString then (t, Err "setting key is required")
  else if type =?s EmptyString then (t, Err "setting value_type is required")
  else if negb writes then (t, Err (String.append "upsert app setting " key))
  else
    let row := match t !! key with
               | Some old => mkAppSetting key (asValue setting) type (asCreatedAt old) now
               | None => mkAppSetting key (asValue setting) type now now
               end in
    (<[key := row]> t, Ok row).

(** ** settings.go *)

Inductive AutoRefreshScheduleUnit := UnitMinute | UnitHour | UnitDay | UnitWeek.

#[export] Instance AutoRefreshScheduleUnit_eq_dec : EqDecision AutoRefreshScheduleUnit.
Proof. solve_decision. Defined.

Definition unitText (u : AutoRefreshScheduleUnit) : string :=
  match u with UnitMinute => "minute" | UnitHour => "hour" | UnitDay => "day" | UnitWeek => "week" end.

(** A schedule as it is written, and after normalizeAutoRefreshSchedule. *)
Record AutoRefreshSchedule := mkSchedule { asUnit : string; asNumber : Z }.
Record Schedule := mkNormalized { scUnit : AutoRefreshScheduleUnit; scValue : Z }.

Definition scheduleUnits : list AutoRefreshScheduleUnit := [UnitMinute; UnitHour; UnitDay; UnitWeek].
Definition unitMax (u : AutoRefreshScheduleUnit) : Z :=
  match u with UnitMinute => 60 | UnitHour => 24 | UnitDay => 30 | UnitWeek => 7 end.

Definition normalizeAutoRefreshSchedule (schedule : option AutoRefreshSchedule) : result string (option Schedule) :=
  match schedule with
  | None => Ok None
  | Some schedule =>
      let unit_ := ToLower (TrimSpace (asUnit schedule)) in
      match List.find (fun u => unitText u =?s unit_) scheduleUnits with
      | None => Err "quota auto refresh schedule unit must be minute, hour, day, or week"
      | Some u =>
          if (asNumber schedule <? 1) || (unitMax u <? asNumber schedule)
          then Err (String.append "quota auto refresh " (String.append unit_ " value must be between 1 and its maximum"))
          else Ok (Some (mkNormalized u (asNumber schedule)))
      end
  end.

Record AutoRefreshSettings := mkSettings { seEnabled : bool; seSchedule : option Schedule }.

Definition autoRefreshEnabledSettingKey : string := "quota.auto_refresh.enabled".
Definition autoRefreshScheduleSettingKey : string := "quota.auto_refresh.schedule".

(** strconv.ParseBool and FormatBool *)
Definition ParseBool (s : string) : option bool :=
  if existsb (String.eqb s) ["1"; "t"; "T"; "true"; "TRUE"; "True"] then Some true
  else if existsb (String.eqb s) ["0"; "f"; "F"; "false"; "FALSE"; "False"] then Some false
  else None.
Definition FormatBool (b : bool) : string := if b then "true" else "false".

Definition quote : string := String (mk_byte 34) EmptyString.

(** json.Marshal of a normalized schedule. *)
Definition Marshal (s : Schedule) : string :=
  String.append "{" (String.append quote (String.append "unit" (String.append quote (String.append ":"
    (String.append quote (String.append (unitText (scUnit s)) (String.append quote (String.append ","
      (String.append quote (String.append "value" (String.append quote (String.append ":"
        (String.append (Itoa (scValue s)) "}"))))))))))))).

Section Settings.
Context (Unmarshal : string -> option AutoRefreshSchedule).

Definition GetAutoRefreshSettings (t : AppSettings) : result string AutoRefreshSettings :=
  result_bind (GetAppSettings [autoRefreshEnabledSettingKey; autoRefreshScheduleSettingKey] t) (fun stored =>
  result_bind (match stored !! autoRefreshEnabledSettingKey with
               | Some setting =>
                   match asValue setting with
                   | Some value =>
                       match ParseBool (TrimSpace value) with
                       | Some enabled => Ok enabled
                       | None => Err "quota auto refresh enabled must be true or false"
                       end
                   | None => Ok false
                   end
               | None => Ok false
               end) (fun enabled =>
  match stored !! autoRefreshScheduleSettingKey with
  | None => Ok (mkSettings enabled None)
  | Some setting =>
      match asValue setting with
      | None => Ok (mkSettings enabled None)
      | Some value =>
          if TrimSpace value =?s EmptyString then Ok (mkSettings enabled None)
          else match Unmarshal value with
               | None => Err "quota auto refresh schedule is invalid JSON"
               | Some schedule =>
                   result_bind (normalizeAutoRefreshSchedule (Some schedule)) (fun n => Ok (mkSettings enabled n))
               end
      end
  end)).

End Settings.

(** ** The state of the timer *)

Record Timer := mkTimer {
  tmRunning : bool;
  tmLastRoundAt : Time;
  tmLastAttemptAt : Time;
}.

Definition newTimer : Timer := mkTimer false zero_time zero_time.

Definition resetAutoRefreshScheduleAnchor (t : Timer) : Timer := mkTimer (tmRunning t) zero_time zero_time.

(** [writes] tells which of the two statements succeed and whether the transaction
    commits; the third is whether the timer is told. *)
Definition UpdateAutoRefreshSettings (enabled : bool) (schedule : option AutoRefreshSchedule)
    (writes : bool * bool * bool) (now : Time) (st : AppSettings) (t : Timer)
    : AppSettings * Timer * bool * result string AutoRefreshSettings :=
  match normalizeAutoRefreshSchedule schedule with
  | Err e => (st, t, false, Err e)
  | Ok normalized =>
      let '(first, second, commit) := writes in
      let enabledRow := mkAppSetting autoRefreshEnabledSettingKey (Some (FormatBool enabled)) "bool" zero_time zero_time in
      let scheduleRow := mkAppSetting autoRefreshScheduleSettingKey
        (match normalized with Some n => Some (Marshal n) | None => None end) "json" zero_time zero_time in
      match UpsertAppSetting first now enabledRow st with
      | (_, Err e) => (st, t, false, Err e)
      | (st1, Ok _) =>
          match UpsertAppSetting second now scheduleRow st1 with
          | (_, Err e) => (st, t, false, Err e)
          | (st2, Ok _) =>
              if negb commit then (st, t, false, Err "commit failed")
              else (st2, resetAutoRefreshScheduleAnchor t, true, Ok (mkSettings enabled normalized))
          end
      end
  end.

Definition beginAutoRefreshRound (now : Time) (t : Timer) : Timer * bool :=
  if tmRunning t then (t, false) else (mkTimer true (tmLastRoundAt t) (NormalizeStorageTime now), true).
Definition markAutoRefreshRoundStartedAt (now : Time) (t : Timer) : Timer :=
  mkTimer (tmRunning t) (NormalizeStorageTime now) (tmLastAttemptAt t).
Definition finishAutoRefreshRound (t : Timer) : Timer := mkTimer false (tmLastRoundAt t) (tmLastAttemptAt t).

(** ** When the next round is due *)

Definition autoRefreshSettingsCheckInterval : Duration := Minute.

Section Schedule.
Context (local : Location).

(** time.Weekday of the local day; the epoch was a Thursday. *)
Definition Weekday (t : Time) : Z := (local_sec local t / 86400 + 4) mod 7.

Definition nextLocalMidnightAtOrAfter (now : Time) : Time :=
  let candidate := day_start local now in
  if candidate <? now then AddDate local candidate 0 0 1 else candidate.

Definition nextLocalMidnightAfter (anchor : Time) : Time :=
  let candidate := day_start local anchor in
  if negb (anchor <? candidate) then AddDate local candidate 0 0 1 else candidate.

Definition weekdayMidnight (base : Time) (weekdayValue : Z) : Time :=
  let target := Z.rem weekdayValue 7 in
  let startOfDay := day_start local base in
  let daysUntilTarget := Z.rem (target - Weekday startOfDay + 7) 7 in
  AddDate local startOfDay 0 0 daysUntilTarget.

Definition nextWeekdayMidnightAtOrAfter (now : Time) (weekdayValue : Z) : Time :=
  let candidate := weekdayMidnight now weekdayValue in
  if candidate <? now then AddDate local candidate 0 0 7 else candidate.

Definition nextWeekdayMidnightAfter (anchor : Time) (weekdayValue : Z) : Time :=
  let candidate := weekdayMidnight anchor weekdayValue in
  if negb (anchor <? candidate) then AddDate local candidate 0 0 7 else candidate.

Definition delayUntil (now dueAt : Time) : Duration := if negb (now <? dueAt) then 0 else dueAt - now.

Definition nextAutoRefreshDelayWithoutAnchor (schedule : Schedule) (now : Time) : Duration :=
  delayUntil now
    (match scUnit schedule with
     | UnitMinute => now + mul64 (scValue schedule) Minute
     | UnitHour => now + mul64 (scValue schedule) Hour
     | UnitDay => nextLocalMidnightAtOrAfter now
     | UnitWeek => nextWeekdayMidnightAtOrAfter now (scValue schedule)
     end).

Definition nextAutoRefreshDueAt (anchor : Time) (schedule : Schedule) : Time :=
  let anchor := NormalizeStorageTime anchor in
  match scUnit schedule with
  | UnitMinute => anchor + mul64 (scValue schedule) Minute
  | UnitHour => anchor + mul64 (scValue schedule) Hour
  | UnitDay => AddDate local (nextLocalMidnightAfter anchor) 0 0 (scValue schedule - 1)
  | UnitWeek => nextWeekdayMidnightAfter anchor (scValue schedule)
  end.

Definition nextAutoRefreshDelay (settings : AutoRefreshSettings) (now : Time) (t : Timer) : Duration :=
  match seEnabled settings, seSchedule settings with
  | true, Some schedule =>
      let normalizedNow := NormalizeStorageTime now in
      let anchor := tmLastRoundAt t in
      if tmRunning t then
        if IsZero anchor then autoRefreshSettingsCheckInterval
        else
          let dueAt := nextAutoRefreshDueAt anchor schedule in
          if negb (normalizedNow <? dueAt) then autoRefreshSettingsCheckInterval else dueAt - normalizedNow
      else if negb (IsZero (tmLastAttemptAt t)) && (IsZero anchor || (anchor <? tmLastAttemptAt t))
      then autoRefreshSettingsCheckInterval
      else if IsZero anchor then nextAutoRefreshDelayWithoutAnchor schedule normalizedNow
      else
        let dueAt := nextAutoRefreshDueAt anchor schedule in
        if negb (normalizedNow <? dueAt) then 0 else dueAt - normalizedNow
  | _, _ => autoRefreshSettingsCheckInterval
  end.

End Schedule.

(** The timer of the automatic refresh: when a round is due in a fixed zone, what the
    settings survive, and the loop of StartAutoRefresh as a step relation, whose rounds
    keep to the schedule. *)
From stdpp Require Import gmap relations.

Local Open Scope string_scope.
Local Open Scope list_scope.
Local Open Scope Z_scope.

Definition schedule_ok (s : Schedule) : Prop := 1 <= scValue s <= unitMax (scUnit s).

Lemma normalize_schedule_ok (s : AutoRefreshSchedule) (n : Schedule) :
  normalizeAutoRefreshSchedule (Some s) = Ok (Some n) ->
  schedule_ok n /\ ToLower (TrimSpace (asUnit s)) = unitText (scUnit n) /\ asNumber s = scValue n.
Proof.
  unfold normalizeAutoRefreshSchedule. destruct (List.find _ _) as [u|] eqn:F; [|done].
  apply List.find_some in F as [_ F%String.eqb_eq]. case_match eqn:B; [done|]. intros [= <-].
  apply orb_false_iff in B as [B1%Z.ltb_ge B2%Z.ltb_ge]. by unfold schedule_ok.
Qed.

(** ** Fixed zones *)

Section Fixed.
Context (off : Z).
Definition Day : Duration := 24 * Hour.

(** Midnight of a local day. *)
Definition is_midnight (t : Time) : Prop := day_start (FixedZone off) t = t.

Lemma midnight_shift (t n : Z) : is_midnight t -> is_midnight (t + n * Day).
Proof.
  unfold is_midnight. rewrite !day_start_fixed. unfold Day, Hour, Minute, Unix, Second. intros E.
  replace ((t + n * (24 * (60 * (60 * 1000000000)))) / 1000000000) with (t / 1000000000 + n * 86400)
    by (rewrite <- (Z.div_add t (n * 86400) 1000000000) by lia; f_equal; lia).
  replace (t / 1000000000 + n * 86400 + off) with (t / 1000000000 + off + n * 86400) by lia.
  rewrite Z.div_add by lia. lia.
Qed.

Lemma day_start_midnight (t : Z) : is_midnight (day_start (FixedZone off) t).
Proof.
  unfold is_midnight. rewrite !day_start_fixed. unfold Unix, Second. rewrite Z.div_mul by lia.
  replace ((t / 1000000000 + off) / 86400 * 86400 - off + off) with ((t / 1000000000 + off) / 86400 * 86400) by lia.
  by rewrite Z.div_mul by lia.
Qed.

Lemma Weekday_range (t : Z) : 0 <= Weekday (FixedZone off) t < 7.
Proof. unfold Weekday. by apply Z.mod_pos_bound. Qed.

Lemma Weekday_shift (t n : Z) :
  Weekday (FixedZone off) (t + n * Day) = (Weekday (FixedZone off) t + n) mod 7.
Proof.
  unfold Weekday, local_sec. rewrite !lookup_fixed. cbn [zoneOffset]. unfold Day, Hour, Minute, Unix, Second.
  replace ((t + n * (24 * (60 * (60 * 1000000000)))) / 1000000000) with (t / 1000000000 + n * 86400)
    by (rewrite <- (Z.div_add t (n * 86400) 1000000000) by lia; f_equal; lia).
  replace (t / 1000000000 + n * 86400 + off) with (t / 1000000000 + off + n * 86400) by lia.
  rewrite Z.div_add, Zplus_mod_idemp_l by lia. f_equal. lia.
Qed.

(** The first midnight after an instant, and the first one of a weekday. *)
Lemma midnight_after (t : Z) :
  let m := nextLocalMidnightAfter (FixedZone off) t in is_midnight m /\ t < m <= t + Day.
Proof.
  unfold nextLocalMidnightAfter. cbn zeta. pose proof (day_start_fixed_bounds off t) as B.
  destruct (t <? day_start (FixedZone off) t) eqn:L; cbn [negb]; [apply Z.ltb_lt in L; lia|].
  rewrite AddDate_fixed_days. split; [apply midnight_shift, day_start_midnight|]. unfold Day in *. lia.
Qed.

Lemma weekday_midnight (t v : Z) : 1 <= v <= 7 ->
  let m := weekdayMidnight (FixedZone off) t v in
  is_midnight m /\ Weekday (FixedZone off) m = v mod 7
  /\ day_start (FixedZone off) t <= m < day_start (FixedZone off) t + 7 * Day.
Proof.
  intros Hv. unfold weekdayMidnight. cbn zeta. set (d := day_start (FixedZone off) t).
  pose proof (Weekday_range d) as W. rewrite (Z.rem_mod_nonneg v) by lia.
  assert (0 <= v mod 7 < 7) as Hm by (apply Z.mod_pos_bound; lia).
  rewrite Z.rem_mod_nonneg by lia. rewrite AddDate_fixed_days. fold Day.
  assert (0 <= (v mod 7 - Weekday (FixedZone off) d + 7) mod 7 < 7) as Hn by (apply Z.mod_pos_bound; lia).
  split_and!.
  - apply midnight_shift, day_start_midnight.
  - rewrite Weekday_shift, Zplus_mod_idemp_r.
    replace (Weekday (FixedZone off) d + (v mod 7 - Weekday (FixedZone off) d + 7)) with (v mod 7 + 1 * 7) by lia.
    rewrite Z.mod_add, Z.mod_mod by lia. done.
  - unfold Day, Hour, Minute, Second in *. lia.
  - unfold Day, Hour, Minute, Second in *. lia.
Qed.

Lemma weekday_midnight_after (t v : Z) : 1 <= v <= 7 ->
  let m := nextWeekdayMidnightAfter (FixedZone off) t v in
  is_midnight m /\ Weekday (FixedZone off) m = v mod 7 /\ t < m <= t + 7 * Day.
Proof.
  intros Hv. unfold nextWeekdayMidnightAfter. cbn zeta. destruct (weekday_midnight t v Hv) as (M & W & B1 & B2).
  pose proof (day_start_fixed_bounds off t) as [D1 D2].
  destruct (t <? weekdayMidnight (FixedZone off) t v) eqn:L; cbn [negb].
  - apply Z.ltb_lt in L. split_and!; [done | done | lia | lia].
  - apply Z.ltb_ge in L. rewrite AddDate_fixed_days. fold Day. split_and!.
    + by apply midnight_shift.
    + rewrite Weekday_shift, W. replace (v mod 7 + 7) with (v mod 7 + 1 * 7) by lia. by rewrite Z.mod_add, Z.mod_mod by lia.
    + unfold Day, Hour, Minute, Second in *. lia.
    + lia.
Qed.

End Fixed.

(** In a fixed zone the next round is due: by minutes and hours, so long after the
    last; by days, at the n-th local midnight after it; by weeks, at the first local
    midnight after it that begins the chosen weekday, 7 being Sunday.  It is always
    after the last round. *)
Theorem next_round_due (off anchor : Z) (s : Schedule) :
  schedule_ok s ->
  let due := nextAutoRefreshDueAt (FixedZone off) anchor s in
  anchor < due /\
  match scUnit s with
  | UnitMinute => due = anchor + scValue s * Minute
  | UnitHour => due = anchor + scValue s * Hour
  | UnitDay => is_midnight off due /\ anchor + (scValue s - 1) * Day < due <= anchor + scValue s * Day
  | UnitWeek => is_midnight off due /\ Weekday (FixedZone off) due = scValue s mod 7 /\ due <= anchor + 7 * Day
  end.
Proof.
  unfold schedule_ok, nextAutoRefreshDueAt, NormalizeStorageTime. cbn zeta. intros V.
  assert (forall u, 0 < u <= Hour -> mul64 (scValue s) u = scValue s * u) as Mul.
  { intros u Hu. apply mul64_id. unfold in_int64, int64_min, int64_max, Hour, Minute, Second in *.
    destruct (scUnit s); cbn in V; nia. }
  destruct (scUnit s); cbn in V.
  - rewrite Mul by (unfold Hour, Minute, Second; lia). unfold Minute, Second. lia.
  - rewrite Mul by (unfold Hour, Minute, Second; lia). unfold Hour, Minute, Second. lia.
  - destruct (midnight_after off anchor) as [M B]. rewrite AddDate_fixed_days. fold Day.
    split; [|split; [by apply midnight_shift|]]; unfold Day, Hour, Minute, Second in *; lia.
  - destruct (weekday_midnight_after off anchor (scValue s)) as (M & W & B); [lia|]. split_and!; try done; lia.
Qed.

Lemma next_round_due_witness :
  schedule_ok (mkNormalized UnitWeek 7)
  /\ Weekday (FixedZone 28800) (nextAutoRefreshDueAt (FixedZone 28800) 0 (mkNormalized UnitWeek 7)) = 0.
Proof.
  assert (schedule_ok (mkNormalized UnitWeek 7)) as V by (unfold schedule_ok; cbn; lia).
  split; [exact V|]. destruct (next_round_due 28800 0 (mkNormalized UnitWeek 7) V) as (_ & _ & W & _). exact W.
Defined.

(** ** The settings *)

(** What encoding/json gives back of what it wrote. *)
Definition json_reads (Unmarshal : string -> option AutoRefreshSchedule) : Prop :=
  forall n, schedule_ok n -> Unmarshal (Marshal n) = Some (mkSchedule (unitText (scUnit n)) (scValue n)).

Lemma normalize_again (n : Schedule) : schedule_ok n ->
  normalizeAutoRefreshSchedule (Some (mkSchedule (unitText (scUnit n)) (scValue n))) = Ok (Some n).
Proof.
  intros V. destruct n as [u v]. unfold schedule_ok, normalizeAutoRefreshSchedule in *. cbn [asUnit asNumber scUnit scValue] in *.
  assert (List.find (fun w => unitText w =?s ToLower (TrimSpace (unitText u))) scheduleUnits = Some u) as -> by (by destruct u).
  destruct ((v <? 1) || (unitMax u <? v)) eqn:B; [|done].
  apply orb_true_iff in B as [B%Z.ltb_lt|B%Z.ltb_lt]; lia.
Qed.

Lemma normalized_ok (schedule : option AutoRefreshSchedule) (n : option Schedule) :
  normalizeAutoRefreshSchedule schedule = Ok n -> match n with Some n => schedule_ok n | None => schedule = None end.
Proof.
  intros H. destruct n as [n|]; destruct schedule as [s|]; try done.
  - by apply normalize_schedule_ok in H as [H _].
  - unfold normalizeAutoRefreshSchedule in H. repeat case_match; done.
Qed.

Lemma marshal_not_blank (n : Schedule) : schedule_ok n -> TrimSpace (Marshal n) =?s EmptyString = false.
Proof.
  destruct n as [u v]. unfold schedule_ok. cbn [scUnit scValue]. intros V. apply negb_true_iff.
  assert (forallb (fun w => negb (TrimSpace (Marshal (mkNormalized u w)) =?s EmptyString)) (seqZ 0 61) = true) as All
    by (destruct u; vm_compute; reflexivity).
  apply (forallb_seqZ _ _ _ All). destruct u; cbn in V; lia.
Qed.

Lemma get_settings (Unmarshal : string -> option AutoRefreshSchedule) (t : AppSettings) (a b : AppSetting) enabled (n : option Schedule) :
  json_reads Unmarshal ->
  t !! autoRefreshEnabledSettingKey = Some a -> t !! autoRefreshScheduleSettingKey = Some b ->
  asValue a = Some (FormatBool enabled) -> asValue b = option_map Marshal n ->
  match n with Some n => schedule_ok n | None => True end ->
  GetAutoRefreshSettings Unmarshal t = Ok (mkSettings enabled n).
Proof.
  intros J Ha Hb Va Vb Vn. unfold GetAutoRefreshSettings, GetAppSettings.
  change (normalizeSettingKeys _ []) with (@Ok string _ [autoRefreshEnabledSettingKey; autoRefreshScheduleSettingKey]).
  cbn [result_bind].
  rewrite (proj2 (map_lookup_filter_Some _ t autoRefreshEnabledSettingKey a)) by (split; [done | set_solver]).
  rewrite (proj2 (map_lookup_filter_Some _ t autoRefreshScheduleSettingKey b)) by (split; [done | set_solver]).
  rewrite Va, Vb. assert (ParseBool (TrimSpace (FormatBool enabled)) = Some enabled) as -> by (by destruct enabled).
  cbn [result_bind]. destruct n as [n|]; [|done]. cbn [option_map].
  assert (TrimSpace (Marshal n) =?s EmptyString = false) as -> by (by apply marshal_not_blank).
  rewrite J by done. by rewrite normalize_again.
Qed.

Lemma update_stores (t : AppSettings) now setting row t1 :
  UpsertAppSetting true now setting t = (t1, Ok row) ->
  t1 = <[TrimSpace (asSettingKey setting) := row]> t /\ asValue row = asValue setting.
Proof. unfold UpsertAppSetting. intros E. repeat case_match; simplify_eq; done. Qed.

(** C16: What UpdateAutoRefreshSettings stored is what GetAutoRefreshSettings reads, the
    timer then starts from no anchor and is told; a schedule that is refused, a failing
    statement or a failing commit leaves the table and the timer as they were; and the
    other settings are never touched. *)
Theorem settings_survive (Unmarshal : string -> option AutoRefreshSchedule) (enabled : bool)
    (schedule : option AutoRefreshSchedule) (writes : bool * bool * bool) (now : Time) (st : AppSettings) (t : Timer) :
  json_reads Unmarshal ->
  let '(st', t', told, r) := UpdateAutoRefreshSettings enabled schedule writes now st t in
  match r with
  | Ok settings =>
      GetAutoRefreshSettings Unmarshal st' = Ok settings
      /\ t' = mkTimer (tmRunning t) zero_time zero_time /\ told = true
      /\ Ok (seSchedule settings) = normalizeAutoRefreshSchedule schedule /\ seEnabled settings = enabled
      /\ forall k, k <> autoRefreshEnabledSettingKey -> k <> autoRefreshScheduleSettingKey -> st' !! k = st !! k
  | Err _ => st' = st /\ t' = t /\ told = false
  end.
Proof.
  intros J. unfold UpdateAutoRefreshSettings.
  destruct (normalizeAutoRefreshSchedule schedule) as [n|e] eqn:N; [|done].
  destruct writes as [[first second] commit].
  destruct (UpsertAppSetting first now _ st) as [st1 [row1|e1]] eqn:U1; [|done].
  destruct (UpsertAppSetting second now _ st1) as [st2 [row2|e2]] eqn:U2; [|done].
  destruct commit; cbn [negb]; [|done].
  destruct first; [|by unfold UpsertAppSetting in U1; repeat case_match].
  destruct second; [|by unfold UpsertAppSetting in U2; repeat case_match].
  apply update_stores in U1 as [-> V1], U2 as [-> V2].
  cbn [asSettingKey asValue] in *.
  change (TrimSpace autoRefreshEnabledSettingKey) with autoRefreshEnabledSettingKey.
  change (TrimSpace autoRefreshScheduleSettingKey) with autoRefreshScheduleSettingKey.
  assert (autoRefreshScheduleSettingKey <> autoRefreshEnabledSettingKey) as Ne by done.
  split_and!; try done.
  - apply normalized_ok in N.
    apply (get_settings Unmarshal _ row1 row2); [done
      | etransitivity; [by apply lookup_insert_ne | apply lookup_insert_eq] | apply lookup_insert_eq | done | by destruct n | by destruct n].
  - intros k K1 K2. etransitivity; by apply lookup_insert_ne.
Qed.

(** A decoder of what the package writes. *)
Definition allSchedules : list Schedule :=
  concat (map (fun u => map (mkNormalized u) (seqZ 1 60)) scheduleUnits).
Definition demoUnmarshal (s : string) : option AutoRefreshSchedule :=
  option_map (fun n => mkSchedule (unitText (scUnit n)) (scValue n)) (List.find (fun n => Marshal n =?s s) allSchedules).

Lemma demo_reads : json_reads demoUnmarshal.
Proof.
  intros [u v]. unfold schedule_ok. cbn [scUnit scValue]. intros V.
  set (good := fun w => match demoUnmarshal (Marshal (mkNormalized u w)) with
                        | Some s => (asUnit s =?s unitText u) && (asNumber s =? w) | None => false end || (w =? 0)).
  assert (forallb good (seqZ 0 61) = true) as All by (destruct u; vm_compute; reflexivity).
  assert (good v = true) as G by (apply (forallb_seqZ good 61 v All); destruct u; cbn in V; lia).
  unfold good in G. apply orb_true_iff in G as [G|G%Z.eqb_eq]; [|lia].
  destruct (demoUnmarshal _) as [[n w]|]; [|done]. apply andb_true_iff in G as [G1%String.eqb_eq G2%Z.eqb_eq].
  cbn in *. by subst.
Qed.

Lemma settings_survive_witness :
  json_reads demoUnmarshal
  /\ exists st' settings, GetAutoRefreshSettings demoUnmarshal st' = Ok settings
      /\ seEnabled settings = true /\ seSchedule settings = Some (mkNormalized UnitDay 3).
Proof.
  split; [exact demo_reads|].
  pose proof (settings_survive demoUnmarshal true (Some (mkSchedule " Day " 3)) (true, true, true) 7 ∅ newTimer demo_reads) as S.
  assert (is_ok (UpdateAutoRefreshSettings true (Some (mkSchedule " Day " 3)) (true, true, true) 7 ∅ newTimer).2 = true) as Fine
    by (vm_compute; reflexivity).
  revert S Fine. generalize (UpdateAutoRefreshSettings true (Some (mkSchedule " Day " 3)) (true, true, true) 7 ∅ newTimer).
  intros [[[st' t'] told] [settings|e]] S Fine; [|discriminate Fine]. destruct S as (G & _ & _ & N & En & _). exists st', settings. split; [exact G|]. split; [exact En|].
  vm_compute in N. injection N as N. exact N.
Defined.

(** ** The loop of StartAutoRefresh *)

(** Where the goroutine is: at the top, asleep until a time, after which it asks for the
    settings again or runs a round, or listing the credentials of a round. *)
Inductive TimerPhase :=
| AtTop
| Sleeping (until : Time) (runs : bool)
| Scanning (now : Time).

(** [lpStarted] are the rounds that started since the settings were last written, the
    newest first; nothing reads it. *)
Record Loop := mkLoop {
  lpTimer : Timer;
  lpSettings : AutoRefreshSettings;
  lpClock : Time;
  lpPhase : TimerPhase;
  lpStarted : list Time;
}.

Section Loop.
Context (local : Location).

(** RunAutoRefresh up to the listing. *)
Definition runs (t : Timer) (clock : Time) : Timer * TimerPhase :=
  let '(t', begun) := beginAutoRefreshRound clock t in (t', if begun then Scanning clock else AtTop).

Inductive LoopStep : Loop -> Loop -> Prop :=
| time_passes t se clock clock' p st : clock <= clock' ->
    LoopStep (mkLoop t se clock p st) (mkLoop t se clock' p st)
| settings_unreadable t se clock st :
    LoopStep (mkLoop t se clock AtTop st)
             (mkLoop t se clock (Sleeping (clock + autoRefreshSettingsCheckInterval) false) st)
| switched_off t se clock st : seEnabled se = false \/ seSchedule se = None ->
    LoopStep (mkLoop t se clock AtTop st)
             (mkLoop t se clock (Sleeping (clock + autoRefreshSettingsCheckInterval) false) st)
| not_yet_due t se clock st schedule : seEnabled se = true -> seSchedule se = Some schedule ->
    0 < nextAutoRefreshDelay local se clock t ->
    LoopStep (mkLoop t se clock AtTop st)
             (mkLoop t se clock (Sleeping (clock + nextAutoRefreshDelay local se clock t) true) st)
| due_now t se clock st schedule : seEnabled se = true -> seSchedule se = Some schedule ->
    nextAutoRefreshDelay local se clock t <= 0 ->
    LoopStep (mkLoop t se clock AtTop st) (mkLoop (runs t clock).1 se clock (runs t clock).2 st)
| woke_up t se clock until st : until <= clock ->
    LoopStep (mkLoop t se clock (Sleeping until true) st) (mkLoop (runs t clock).1 se clock (runs t clock).2 st)
| looks_again t se clock until r st :
    LoopStep (mkLoop t se clock (Sleeping until r) st) (mkLoop t se clock AtTop st)
| listing_failed t se clock now st :
    LoopStep (mkLoop t se clock (Scanning now) st) (mkLoop (finishAutoRefreshRound t) se clock AtTop st)
| round_started t se clock now st (handed : bool) :
    LoopStep (mkLoop t se clock (Scanning now) st)
             (mkLoop (let t' := markAutoRefreshRoundStartedAt now t in if handed then t' else finishAutoRefreshRound t')
                se clock AtTop (now :: st))
| round_finished t se clock p st : (forall now, p <> Scanning now) ->
    LoopStep (mkLoop t se clock p st) (mkLoop (finishAutoRefreshRound t) se clock p st)
| settings_written t se clock p st se' :
    LoopStep (mkLoop t se clock p st) (mkLoop (resetAutoRefreshScheduleAnchor t) se' clock p []).

Definition loop_run : Loop -> Loop -> Prop := rtc LoopStep.
Definition newLoop (se : AutoRefreshSettings) (clock : Time) : Loop := mkLoop newTimer se clock AtTop [].

(** When the round after the last is due. *)
Definition due_by (se : AutoRefreshSettings) (anchor : Time) (t : Time) : Prop :=
  match seSchedule se with Some s => nextAutoRefreshDueAt local anchor s <= t | None => True end.

(** Each round at its time or later. *)
Fixpoint spaced (se : AutoRefreshSettings) (started : list Time) : Prop :=
  match started with
  | b :: ((a :: _) as rest) => due_by se a b /\ spaced se rest
  | _ => True
  end.

Record loop_ok (l : Loop) : Prop := {
  lk_clock : zero_time < lpClock l;
  lk_anchor : tmLastRoundAt (lpTimer l) = match lpStarted l with a :: _ => a | [] => zero_time end;
  lk_started : match lpStarted l with a :: _ => zero_time < a | [] => True end;
  lk_spaced : spaced (lpSettings l) (lpStarted l);
  lk_attempt : forall a st, lpStarted l = a :: st -> a < tmLastAttemptAt (lpTimer l) ->
    due_by (lpSettings l) a (tmLastAttemptAt (lpTimer l));
  lk_attempted : tmLastAttemptAt (lpTimer l) <= lpClock l;
  lk_phase : match lpPhase l with
    | AtTop => True
    | Sleeping until runs => runs = true -> forall a st, lpStarted l = a :: st -> due_by (lpSettings l) a until
    | Scanning now => zero_time < now <= lpClock l /\ tmLastAttemptAt (lpTimer l) <= now /\ forall a st, lpStarted l = a :: st -> due_by (lpSettings l) a now
    end;
}.

Lemma due_later (se : AutoRefreshSettings) (a t t' : Time) : due_by se a t -> t <= t' -> due_by se a t'.
Proof. unfold due_by. destruct (seSchedule se); [lia | done]. Qed.

(** The sleep is never too short. *)
Lemma delay_reaches_due (l : Loop) (schedule : Schedule) a st :
  loop_ok l -> seEnabled (lpSettings l) = true -> seSchedule (lpSettings l) = Some schedule -> lpStarted l = a :: st ->
  due_by (lpSettings l) a (lpClock l + nextAutoRefreshDelay local (lpSettings l) (lpClock l) (lpTimer l)).
Proof.
  intros K En Sc St. pose proof (lk_anchor _ K) as An. pose proof (lk_started _ K) as Z0. rewrite St in An, Z0.
  pose proof (lk_attempt _ K _ _ St) as At. pose proof (lk_attempted _ K) as Cl.
  unfold nextAutoRefreshDelay, NormalizeStorageTime. rewrite En, Sc, An. cbn zeta.
  unfold IsZero at 1 3 4. rewrite !(proj2 (Z.eqb_neq a zero_time)) by lia. cbn [orb].
  unfold autoRefreshSettingsCheckInterval, Minute, Second.
  unfold due_by in *. rewrite Sc in *.
  destruct (tmRunning (lpTimer l)).
  - destruct (lpClock l <? _) eqn:B; cbn [negb]; [apply Z.ltb_lt in B | apply Z.ltb_ge in B]; lia.
  - destruct (_ && (a <? _)) eqn:F.
    + apply andb_true_iff in F as [_ F%Z.ltb_lt]. specialize (At F). lia.
    + destruct (lpClock l <? _) eqn:B; cbn [negb]; [apply Z.ltb_lt in B | apply Z.ltb_ge in B]; lia.
Qed.

(** A round that begins at a time that is due. *)
Lemma runs_ok (t : Timer) se clock p st :
  loop_ok (mkLoop t se clock p st) -> (forall a st', st = a :: st' -> due_by se a clock) ->
  loop_ok (mkLoop (runs t clock).1 se clock (runs t clock).2 st).
Proof.
  intros [K A Z0 Sp At Cl Ph] Due. unfold runs, beginAutoRefreshRound. cbn in *. destruct (tmRunning t); cbn.
  - by split.
  - split; cbn; try done. intros a st' St Lt. unfold NormalizeStorageTime. by eapply Due.
Qed.

Lemma loop_ok_step (l l' : Loop) : loop_ok l -> LoopStep l l' -> loop_ok l'.
Proof.
  intros K S. destruct S.
  - destruct K as [K A Z0 Sp At Cl Ph]. split; cbn in *; try done; try lia. destruct p; [done | done |].
    split; [lia | apply Ph].
  - destruct K as [K A Z0 Sp At Cl Ph]. by split.
  - destruct K as [K A Z0 Sp At Cl Ph]. by split.
  - pose proof (fun a st' => delay_reaches_due (mkLoop t se clock AtTop st) schedule a st' K) as D.
    destruct K as [K A Z0 Sp At Cl Ph]. split; cbn in *; try done. intros _ a st' St. by eapply D.
  - eapply runs_ok; [exact K|]. intros a st' St.
    eapply due_later; [by apply (delay_reaches_due (mkLoop t se clock AtTop st) schedule a st' K) | cbn; lia].
  - eapply runs_ok; [exact K|]. intros a st' St. eapply due_later; [eapply (lk_phase _ K); done | done].
  - destruct K as [K A Z0 Sp At Cl Ph]. by split.
  - destruct K as [K A Z0 Sp At Cl Ph]. by split.
  - destruct K as [K A Z0 Sp At Cl (Ph1 & Ph2 & Ph3)]. cbn in *.
    destruct handed; (split; cbn; try done; [lia | destruct st as [|a st']; [done | split; [by eapply Ph3 | done]]
      | intros a st' [= <- <-] Lt; unfold NormalizeStorageTime in *; lia]).
  - destruct K as [K A Z0 Sp At Cl Ph]. split; cbn in *; try done.
  - destruct K as [K A Z0 Sp At Cl Ph]. split; cbn in *; try done; try lia. destruct p; [done | done |].
    split_and!; [apply Ph | apply Ph | lia | done].
Qed.

(** C17: Under settings that stay as they are the rounds of the timer keep to the
    schedule: no round starts before the time that is due after the one before, whatever
    listings fail in between, however long rounds take, and whenever the loop is woken. *)
Theorem rounds_keep_the_schedule (se : AutoRefreshSettings) (clock : Time) (l : Loop) :
  zero_time < clock -> loop_run (newLoop se clock) l -> spaced (lpSettings l) (lpStarted l).
Proof.
  intros C R. assert (loop_ok (newLoop se clock)) as K.
  { split; cbn; try done; unfold zero_time in *; lia. }
  apply lk_spaced. unfold loop_run in R. revert K. induction R as [|l l1 l' S R IH]; [done|].
  intros K. apply IH. by eapply loop_ok_step.
Qed.
End Loop.

(** Two rounds of a schedule of five minutes. *)
Lemma rounds_keep_the_schedule_witness :
  exists l, loop_run (FixedZone 0) (newLoop (mkSettings true (Some (mkNormalized UnitMinute 5))) 0) l
    /\ lpStarted l = [10 * Minute; 5 * Minute] /\ spaced (FixedZone 0) (lpSettings l) (lpStarted l).
Proof.
  set (se := mkSettings true (Some (mkNormalized UnitMinute 5))).
  exists (mkLoop (mkTimer false (10 * Minute) (10 * Minute)) se (10 * Minute) AtTop [10 * Minute; 5 * Minute]).
  assert (loop_run (FixedZone 0) (newLoop se 0)
    (mkLoop (mkTimer false (10 * Minute) (10 * Minute)) se (10 * Minute) AtTop [10 * Minute; 5 * Minute])) as R.
  { eapply rtc_l; [eapply not_yet_due; [reflexivity | reflexivity | vm_compute; reflexivity]|]. eapply rtc_l; [apply (time_passes _ _ _ _ (5 * Minute)); vm_compute; discriminate|].
    eapply rtc_l; [apply woke_up; vm_compute; discriminate|]. eapply rtc_l; [by apply (round_started _ _ _ _ _ _ false)|].
    eapply rtc_l; [eapply not_yet_due; [reflexivity | reflexivity | vm_compute; reflexivity]|]. eapply rtc_l; [apply (time_passes _ _ _ _ (10 * Minute)); vm_compute; discriminate|].
    eapply rtc_l; [apply woke_up; vm_compute; discriminate|]. eapply rtc_l; [by apply (round_started _ _ _ _ _ _ false)|]. apply rtc_refl. }
  split; [exact R|]. split; [reflexivity|].
  apply (rounds_keep_the_schedule (FixedZone 0) se 0); [vm_compute; reflexivity | exact R].
Defined.
