(* ===== verification/HeaderCacheFacts.v ===== *)
(** What a response header does to the cache of quota results: the merge of its rows
    into the cached ones against a reference without indexes, and that it never goes
    back in time nor touches a task of its type that is under way. *)
From S2P Require Import Prelude GoStrings GoTime Entities Timeutil GoFloat IdentityStats Quota DisplayName HeaderPending RefreshTasks HeaderCache Inspection.
From stdpp Require Import gmap sorting.

Local Open Scope string_scope.
Local Open Scope list_scope.
Local Open Scope Z_scope.

(** ** The reference *)

(** The rows of a header that have a key, the last of a key, and the keys in the order
    of their first row. *)
Definition keyed (header : list QuotaRow) : list QuotaRow := List.filter (fun r => negb (blank (qrKey r))) header.
Definition lastRow (header : list QuotaRow) (key : string) : option QuotaRow :=
  List.find (fun r => qrKey r =?s key) (rev (keyed header)).
Definition addKey (keys : list string) (r : QuotaRow) : list string :=
  if existsb (String.eqb (qrKey r)) keys then keys else keys ++ [qrKey r].
Definition headerKeys (header : list QuotaRow) : list string := foldl addKey [] (keyed header).

(** The last explicit flag of the main windows. *)
Definition headerFlag (header : list QuotaRow) : option bool :=
  last (omap (fun r => if isMainRow r then qrLimitReached r else None) (keyed header)).

Definition keysOfRows (rows : list QuotaRow) : list string := map qrKey rows.

Definition referenceRows (existing header : list QuotaRow) : list QuotaRow :=
  let merged :=
    map (fun row => match lastRow header (qrKey row) with
                    | Some h => mergeUsageHeaderQuotaRow row h
                    | None => row
                    end) existing
    ++ omap (fun key => if bool_decide (key ∈ keysOfRows existing) then None else lastRow header key) (headerKeys header) in
  match headerFlag header with
  | None => merged
  | Some flag => map (fun row => if isMainRow row then setLimitReached (Some flag) row else row) merged
  end.

(** ** The indexes *)

Record indexed (header : list QuotaRow) (m : gmap string QuotaRow) (order : list string) (flag : option bool) : Prop := {
  ix_rows : forall key, m !! key = lastRow header key;
  ix_keys : order = headerKeys header;
  ix_flag : flag = headerFlag header;
}.

Lemma keyed_snoc (header : list QuotaRow) (r : QuotaRow) :
  keyed (header ++ [r]) = if blank (qrKey r) then keyed header else keyed header ++ [r].
Proof. unfold keyed. rewrite List.filter_app. cbn. destruct (blank (qrKey r)); cbn; [apply app_nil_r | done]. Qed.

Lemma headerKeys_in (header : list QuotaRow) (key : string) : key ∈ headerKeys header <-> is_Some (lastRow header key).
Proof.
  unfold headerKeys, lastRow. induction (keyed header) as [|r l IH] using rev_ind.
  - cbn. split; [by intros ?%elem_of_nil | by intros []].
  - rewrite foldl_app, rev_app_distr. cbn. unfold addKey. destruct (qrKey r =?s key) eqn:E.
    + apply String.eqb_eq in E. subst key. split; [by eexists|]. intros _.
      destruct (existsb _ _) eqn:X; [|apply elem_of_app; right; by left].
      apply existsb_exists in X as (k & In & E%String.eqb_eq). subst k. by apply list_elem_of_In.
    + rewrite <- IH. destruct (existsb _ _); [done|]. rewrite elem_of_app, list_elem_of_singleton.
      apply String.eqb_neq in E. split; [by intros [?|?] | by left].
Qed.

Lemma omap_one {A B} (f : A -> option B) (x : A) : omap f [x] = match f x with Some y => [y] | None => [] end.
Proof. done. Qed.

Lemma indexed_snoc (header : list QuotaRow) (r : QuotaRow) m order flag :
  indexed header m order flag -> blank (qrKey r) = false ->
  indexed (header ++ [r]) (<[qrKey r := r]> m)
    (match m !! qrKey r with Some _ => order | None => order ++ [qrKey r] end)
    (if isMainRow r then orElse (qrLimitReached r) flag else flag).
Proof.
  intros [R K F] B. split.
  - intros key. unfold lastRow. rewrite keyed_snoc, B, rev_app_distr. cbn. destruct (qrKey r =?s key) eqn:E.
    + apply String.eqb_eq in E. subst key. by rewrite lookup_insert_eq.
    + apply String.eqb_neq in E. rewrite lookup_insert_ne by done. apply R.
  - unfold headerKeys. rewrite keyed_snoc, B, foldl_app. cbn. fold (headerKeys header). rewrite <- K. unfold addKey.
    rewrite R. destruct (existsb (String.eqb (qrKey r)) order) eqn:X.
    + apply existsb_exists in X as (k & In & E%String.eqb_eq). subst k. apply list_elem_of_In in In. rewrite K in In.
      apply headerKeys_in in In as [x ->]. done.
    + destruct (lastRow header (qrKey r)) eqn:L; [|done]. exfalso.
      assert (qrKey r ∈ order) as In by (rewrite K; apply headerKeys_in; by eexists).
      apply list_elem_of_In in In. apply not_true_iff_false in X. apply X, existsb_exists.
      exists (qrKey r). split; [done | apply String.eqb_refl].
  - unfold headerFlag. rewrite keyed_snoc, B, omap_app, F, omap_one. destruct (isMainRow r); [|by rewrite app_nil_r].
    destruct (qrLimitReached r); [by rewrite last_snoc | by rewrite app_nil_r].
Qed.

Lemma indexRows_exact (header before : list QuotaRow) m order flag :
  indexed before m order flag ->
  let '(m', order', flag') := indexRows header m order flag in indexed (before ++ header) m' order' flag'.
Proof.
  revert before m order flag. induction header as [|r header IH]; intros before m order flag X; cbn [indexRows].
  { by rewrite app_nil_r. }
  rewrite (cons_middle r before header), app_assoc. destruct (blank (qrKey r)) eqn:B.
  - apply IH. destruct X as [R K F].
    split; [intros key; unfold lastRow | unfold headerKeys | unfold headerFlag]; rewrite keyed_snoc, B; [apply R | done | done].
  - apply IH. by apply indexed_snoc.
Qed.

Lemma mergeRows_exact (existing header : list QuotaRow) (m : gmap string QuotaRow) (seen : gset string) :
  (forall key, m !! key = lastRow header key) ->
  let '(merged, seen') := mergeRows existing m seen in
  merged = map (fun row => match lastRow header (qrKey row) with
                           | Some h => mergeUsageHeaderQuotaRow row h | None => row end) existing
  /\ forall key, blank key = false -> (key ∈ seen' <-> key ∈ seen \/ key ∈ keysOfRows existing).
Proof.
  intros R. revert seen. induction existing as [|row existing IH]; intros seen; cbn [mergeRows map].
  { split; [done|]. intros key _. unfold keysOfRows. cbn. rewrite elem_of_nil. tauto. }
  rewrite R. destruct (lastRow header (qrKey row)) as [h|].
  - specialize (IH ({[qrKey row]} ∪ seen)). destruct (mergeRows _ _ _) as [merged seen']. destruct IH as [-> IH].
    split; [done|]. intros key B. rewrite IH by done. unfold keysOfRows. cbn. set_solver.
  - specialize (IH (if blank (qrKey row) then seen else {[qrKey row]} ∪ seen)).
    destruct (mergeRows _ _ _) as [merged seen']. destruct IH as [-> IH].
    split; [done|]. intros key B. rewrite IH by done. unfold keysOfRows. cbn. rewrite elem_of_cons.
    destruct (blank (qrKey row)) eqn:Br; [|set_solver]. split; [tauto|]. intros [?|[->|?]]; [by left | congruence | by right].
Qed.

Lemma lastRow_keyed (header : list QuotaRow) (key : string) (r : QuotaRow) :
  lastRow header key = Some r -> blank key = false /\ qrKey r = key.
Proof.
  unfold lastRow. intros F. apply List.find_some in F as [In E%String.eqb_eq]. subst key. split; [|done].
  rewrite <- in_rev in In. unfold keyed in In. apply List.filter_In in In as [_ B]. by destruct (blank (qrKey r)).
Qed.

(** The rows a header is merged to are those of the reference: every cached row
    stays at its place and takes what the last header row of its key says, the other
    header rows follow in the order their keys first appeared, and an explicit limit
    flag of the main windows is put on all of them. *)
Theorem header_rows_exact (existing header : list QuotaRow) :
  mergeUsageHeaderQuotaRows existing header = referenceRows existing header.
Proof.
  unfold mergeUsageHeaderQuotaRows, referenceRows. cbn zeta.
  pose proof (indexRows_exact header [] ∅ [] None) as X. destruct (indexRows _ _ _ _) as [[m order] flag].
  destruct X as [R K F]; [by split|]. cbn [app] in R, K, F.
  pose proof (mergeRows_exact existing header m ∅ R) as M. destruct (mergeRows _ _ _) as [merged seen].
  destruct M as [-> Seen].
  assert (newRows m seen order = omap (fun key => if bool_decide (key ∈ keysOfRows existing) then None
            else lastRow header key) (headerKeys header)) as ->.
  { unfold newRows. rewrite K. clear -R Seen.
    assert (Forall (fun key => blank key = false) (headerKeys header)) as B.
    { apply Forall_forall. intros key [r Hr]%headerKeys_in. by destruct (lastRow_keyed _ _ _ Hr). }
    induction B as [|key keys B _ IH]; [done|]. cbn. rewrite IH, R.
    assert (bool_decide (key ∈ seen) = bool_decide (key ∈ keysOfRows existing)) as ->; [|done].
    apply bool_decide_ext. rewrite Seen by done. set_solver. }
  rewrite F. by destruct (headerFlag header).
Qed.

(** ** The cache *)


(** What GetInspectionStatus reports: the counters partition the credentials, and a round
    is completed only when none of its tasks is active. *)
From stdpp Require Import gmap sorting.

Local Open Scope string_scope.
Local Open Scope list_scope.
Local Open Scope Z_scope.

(** ** The reference: what each credential contributes *)

Definition resultOf (s : Tasks) (identity : UsageIdentity) : option InspectionResult :=
  match contribution s identity with HasResult r => Some r | _ => None end.
Definition isActiveInspection (s : Tasks) (identity : UsageIdentity) : bool :=
  match contribution s identity with ActiveInspection => true | _ => false end.
Definition isUnknownIdentity (s : Tasks) (identity : UsageIdentity) : bool :=
  match contribution s identity with NothingKnown => true | _ => false end.

Definition countOf {A} (f : A -> bool) (l : list A) : Z := Z.of_nat (length (List.filter f l)).
Definition statusIs (x : InspectionResultStatus) (r : InspectionResult) : bool := bool_decide (irStatus r = x).

Lemma statusIs_at (x : InspectionResultStatus) (r : InspectionResult) (y : InspectionResultStatus) :
  irStatus r = y -> statusIs x r = bool_decide (y = x).
Proof. by intros <-. Qed.

Lemma countOf_app {A} (f : A -> bool) (l k : list A) : countOf f (l ++ k) = countOf f l + countOf f k.
Proof. unfold countOf. rewrite List.filter_app, length_app. lia. Qed.

Lemma countOf_one {A} (f : A -> bool) (x : A) : countOf f [x] = if f x then 1 else 0.
Proof. unfold countOf. cbn. by destruct (f x). Qed.

Lemma countOf_nonneg {A} (f : A -> bool) (l : list A) : 0 <= countOf f l.
Proof. unfold countOf. lia. Qed.

Definition tally_exact (s : Tasks) (identities : list UsageIdentity) (t : Tally) : Prop :=
  tlResults t = omap (resultOf s) identities
  /\ tlCached t = Z.of_nat (length (tlResults t))
  /\ tlNormal t = countOf (statusIs InspectionResultStatusNormal) (tlResults t)
  /\ tlLimitReached t = countOf (statusIs InspectionResultStatusLimitReached) (tlResults t)
  /\ tlUnauthorized401 t = countOf (statusIs InspectionResultStatusUnauthorized401) (tlResults t)
  /\ tlPaymentRequired402 t = countOf (statusIs InspectionResultStatusPaymentRequired402) (tlResults t)
  /\ tlUnauthorized401402 t = tlUnauthorized401 t + tlPaymentRequired402 t
  /\ tlOtherFailed t = countOf (statusIs InspectionResultStatusOtherFailed) (tlResults t)
  /\ tlActive t = countOf (isActiveInspection s) identities.

Lemma tally_ok (s : Tasks) (identities : list UsageIdentity) : tally_exact s identities (tally s identities).
Proof.
  induction identities as [|i l IH] using rev_ind; [by unfold tally_exact|].
  unfold tally in *. rewrite foldl_app. cbn [foldl]. set (t := foldl _ _ _) in *.
  destruct IH as (R & C & N & L & U & P & UP & O & A). unfold tally_exact.
  assert (omap (resultOf s) (l ++ [i]) = tlResults t ++ match contribution s i with HasResult r => [r] | _ => [] end) as E.
  { rewrite omap_app, <- R. f_equal. cbn. unfold resultOf. by destruct (contribution s i). }
  rewrite E, countOf_app, countOf_one. unfold isActiveInspection at 2.
  destruct (contribution s i) as [r| |]; rewrite ?app_nil_r.
  - unfold countResult. destruct (irStatus r) eqn:S; cbn [tlResults tlCached tlNormal tlLimitReached tlUnauthorized401
      tlPaymentRequired402 tlUnauthorized401402 tlOtherFailed tlActive];
      rewrite !countOf_app, !countOf_one, length_app, !(statusIs_at _ r _ S); 
      repeat match goal with |- context [bool_decide ?P] =>
               let b := eval vm_compute in (bool_decide P) in change (bool_decide P) with b end;
      cbn [length]; split_and!; lia || done.
  - cbn. split_and!; lia || done.
  - split_and!; lia || done.
Qed.

(** Results, active tasks of the round and unknown credentials are all the credentials. *)
Lemma contributions_partition (s : Tasks) (identities : list UsageIdentity) :
  Z.of_nat (length (omap (resultOf s) identities)) + countOf (isActiveInspection s) identities
    + countOf (isUnknownIdentity s) identities = Z.of_nat (length identities).
Proof.
  induction identities as [|i l IH]; [done|]. unfold countOf, resultOf, isActiveInspection, isUnknownIdentity in *.
  cbn. destruct (contribution s i); cbn; lia.
Qed.

Lemma string_lt_asym (a b : string) : string_lt a b = true -> string_lt b a = false.
Proof.
  unfold string_lt, String.ltb. rewrite (String.compare_antisym b a). by destruct (String.compare a b).
Qed.

Lemma resultOrder_total : Total resultOrder.
Proof.
  intros a b. unfold resultOrder, resultLess.
  destruct (irRefreshedAt a) as [x|], (irRefreshedAt b) as [y|]; try tauto.
  - rewrite (Z.eqb_sym x y). destruct (y =? x) eqn:E.
    + destruct (string_lt (irAuthIndex b) (irAuthIndex a)) eqn:L; [right; by apply string_lt_asym | by left].
    + destruct (x <? y) eqn:L; [|by left]. right. apply Z.ltb_lt in L. apply Z.ltb_ge. lia.
  - destruct (string_lt (irAuthIndex b) (irAuthIndex a)) eqn:L; [right; by apply string_lt_asym | by left].
Qed.

Lemma countOf_Permutation {A} (f : A -> bool) (l k : list A) : l ≡ₚ k -> countOf f l = countOf f k.
Proof. intros P. unfold countOf. f_equal. induction P; cbn; repeat case_match; cbn; lia. Qed.

(** C19: The status of an inspection adds up: the results are those of the settled tasks of
    the credentials, newest first; each counter counts the results of its status; the
    results, the active tasks of the round and the unknown are together the credentials,
    so that the guard against a negative count never acts; a round runs exactly while
    one of its tasks is active, and its completion is first reported when no task of
    its credentials is an active one of an inspection. *)
Theorem inspection_adds_up (identities : list UsageIdentity) (now later : Time) (s : Tasks) :
  let s0 := cleanupExpiredRefreshTasksLocked now s in
  let st := (GetInspectionStatus identities now later s).2 in
  isResults st ≡ₚ omap (resultOf s0) identities
  /\ Sorted resultOrder (isResults st)
  /\ isNormal st = countOf (statusIs InspectionResultStatusNormal) (isResults st)
  /\ isLimitReached st = countOf (statusIs InspectionResultStatusLimitReached) (isResults st)
  /\ isUnauthorized401 st = countOf (statusIs InspectionResultStatusUnauthorized401) (isResults st)
  /\ isPaymentRequired402 st = countOf (statusIs InspectionResultStatusPaymentRequired402) (isResults st)
  /\ isUnauthorized401402 st = isUnauthorized401 st + isPaymentRequired402 st
  /\ isOtherFailed st = countOf (statusIs InspectionResultStatusOtherFailed) (isResults st)
  /\ isCached st = Z.of_nat (length (isResults st))
  /\ isUnknown st = countOf (isUnknownIdentity s0) identities
  /\ isCached st + countOf (isActiveInspection s0) identities + isUnknown st = isTotal st
  /\ (isRunning st = true <-> exists i, i ∈ identities /\ isActiveInspection s0 i = true)
  /\ (isCompleted st = true -> IsZero (tsInspectionCompletedAt s0) = true -> forall k t,
        k ∈ tsInspectionRoundAuthIndexSet s0 -> tsMap s0 !! k = Some t ->
        ~ (tkSource t = RefreshSourceInspection /\ isActive t = true)).
Proof.
  cbn zeta. unfold GetInspectionStatus. set (s0 := cleanupExpiredRefreshTasksLocked now s).
  unfold inspectionStatusLocked. cbn zeta. cbn [snd isResults isNormal isLimitReached isUnauthorized401
    isPaymentRequired402 isUnauthorized401402 isOtherFailed isCached isUnknown isTotal isRunning isCompleted].
  pose proof (tally_ok s0 identities) as T. destruct (tally s0 identities) as [c n l u p up o rs a].
  destruct T as (R & C & N & L & U & P & UP & O & A).
  cbn [tlResults tlCached tlNormal tlLimitReached tlUnauthorized401 tlPaymentRequired402 tlUnauthorized401402 tlOtherFailed tlActive] in *.
  pose proof (contributions_partition s0 identities) as Part. rewrite <- R in Part.
  pose proof (countOf_nonneg (isUnknownIdentity s0) identities) as NN.
  assert (sortInspectionResults rs ≡ₚ rs) as Perm by apply merge_sort_Permutation.
  rewrite !(countOf_Permutation _ _ _ Perm), (Permutation_length Perm).
  assert ((Z.of_nat (length identities) - c - a <? 0) = false) as -> by (apply Z.ltb_ge; lia).
  split_and!; try done; try lia.
  - by rewrite Perm, R.
  - apply (Sorted_merge_sort _ (Total0 := resultOrder_total)).
  - rewrite A, Z.ltb_lt. unfold countOf. split.
    + intros H. destruct (List.filter _ identities) as [|i is_] eqn:F; [cbn in H; lia|].
      exists i. rewrite list_elem_of_In. apply List.filter_In. rewrite F. by left.
    + intros (i & In & Hi). assert (In' : List.In i (List.filter (isActiveInspection s0) identities))
        by (apply List.filter_In; by rewrite <- list_elem_of_In).
      destruct (List.filter _ identities); [done | cbn; lia].
  - intros [_ D]%andb_true_iff Z0 k t In Lk [Src Act]. unfold inspectionRoundCompletedLocked in D.
    rewrite Z0 in D. cbn [negb] in D. repeat case_match; try done.
    rewrite forallb_forall in D. specialize (D k). rewrite <- list_elem_of_In, elem_of_elements in D. specialize (D In).
    rewrite Lk, Act in D. by rewrite bool_decide_eq_true_2 in D.
Qed.
