(* ===== verification/QuotaHistory.v ===== *)
(** repository/codex_quota_history.go and quota_cycle_delete.go: the history of the main
    quotas, a row for each cycle of a window and under it a segment for each remaining
    percentage that was seen.

    The sortable columns hold the instants whose texts they are: those of the years 0 to
    9999 order and read back like the instants (TimeutilFacts).  Keys count up, as
    AUTOINCREMENT does. *)
From S2P Require Import Prelude GoStrings GoTime Timeutil Sql.
From stdpp Require Import sorting.

Local Open Scope string_scope.
Local Open Scope list_scope.
Local Open Scope Z_scope.

(** ** Rows *)

Record QuotaCycle := mkCycle {
  qcID : Z;
  qcProvider : string;
  qcAuthIndex : string;
  qcQuotaKey : string;
  qcWindowSeconds : Z;
  qcResetAtSource : string;
  qcWindowStartedAt : Time;
  qcResetAt : Time;
  qcFirstObservedAt : Time;
  qcLastObservedAt : Time;
  qcCreatedAt : Time;
  qcUpdatedAt : Time;
}.

Record QuotaPercentSegment := mkSegment {
  sgID : Z;
  sgCycleID : Z;
  sgRemainingPercent : Z;
  sgFirstObservedAt : Time;
  sgLastObservedAt : Time;
  sgObservationCount : Z;
  sgCreatedAt : Time;
  sgUpdatedAt : Time;
}.

Record CodexMainQuotaObservation := mkObservation {
  obProvider : string;
  obQuotaKey : string;
  obAuthIndex : string;
  obWindowRole : string;
  obWindowSeconds : Z;
  obResetAtSource : string;
  obResetAt : Time;
  obRemainingPercent : Z;
  obFirstObservedAt : Time;
  obLastObservedAt : Time;
  obObservationCount : Z;
  obAuthoritative : bool;
}.

Record CodexQuotaHistoryState := mkHistoryState {
  hsFound : bool;
  hsWindowSeconds : Z;
  hsResetAtSource : string;
  hsResetAt : Time;
  hsHasTail : bool;
  hsTailRemainingPercent : Z;
  hsTailLastObservedAt : Time;
}.

Record QuotaTables := mkQuotaTables {
  qtCycles : gmap Z QuotaCycle;
  qtSegments : gmap Z QuotaPercentSegment;
  qtNextCycle : Z;
  qtNextSegment : Z;
}.

Definition emptyQuotaTables : QuotaTables := mkQuotaTables ∅ ∅ 1 1.

(** ** Keys and matching *)

Definition QuotaWindowKey (provider role : string) : option string :=
  let provider := ToLower (TrimSpace provider) in
  let role := ToLower (TrimSpace role) in
  let name := String.append provider (String.append "/" role) in
  if name =?s "codex/primary" then Some "rate_limit.primary_window"
  else if name =?s "codex/secondary" then Some "rate_limit.secondary_window"
  else if name =?s "claude/primary" then Some "five_hour"
  else if name =?s "claude/secondary" then Some "seven_day"
  else None.

Definition QuotaWindowRole (provider key : string) : option string :=
  List.find (fun role => match QuotaWindowKey provider role with Some mapped => mapped =?s key | None => false end)
    ["primary"; "secondary"].

Definition codexQuotaHistoryWriteBatchSize : nat := 32.
Definition codexQuotaResetTolerance : Duration := 120 * Second.

(** [left.Sub(right)] saturates, and the negation of the least duration is itself. *)
Definition timeDistance (left right : Time) : Duration :=
  let distance := Z.max int64_min (Z.min int64_max (left - right)) in
  if distance <? 0 then wrap64 (- distance) else distance.

Definition quotaResetTimesMatch (left right : Time) : bool := timeDistance left right <=? codexQuotaResetTolerance.

Definition quotaCycleMatchesObservation (cycle : QuotaCycle) (observation : CodexMainQuotaObservation) : bool :=
  (qcWindowSeconds cycle =? obWindowSeconds observation) && quotaResetTimesMatch (qcResetAt cycle) (obResetAt observation).

(** The loop of closestMatchingQuotaCycle. *)
Definition closer (windowSeconds : Z) (resetAt : Time) (selected : option (QuotaCycle * Duration)) (candidate : QuotaCycle)
    : option (QuotaCycle * Duration) :=
  if negb (qcWindowSeconds candidate =? windowSeconds) || negb (quotaResetTimesMatch (qcResetAt candidate) resetAt)
  then selected
  else
    let distance := timeDistance (qcResetAt candidate) resetAt in
    match selected with
    | None => Some (candidate, distance)
    | Some (_, selectedDistance) => if distance <? selectedDistance then Some (candidate, distance) else selected
    end.

Definition closestMatchingQuotaCycle (candidates : list QuotaCycle) (windowSeconds : Z) (resetAt : Time)
    : option QuotaCycle :=
  option_map fst (foldl (closer windowSeconds resetAt) None candidates).

(** normalizeCodexMainQuotaObservation *)
Definition normalizeCodexMainQuotaObservation (observation : CodexMainQuotaObservation)
    : result string CodexMainQuotaObservation :=
  let provider := ToLower (TrimSpace (obProvider observation)) in
  let provider := if provider =?s EmptyString then "codex" else provider in
  let authIndex := TrimSpace (obAuthIndex observation) in
  let role := ToLower (TrimSpace (obWindowRole observation)) in
  let source := ToLower (TrimSpace (obResetAtSource observation)) in
  if authIndex =?s EmptyString then Err "auth_index is required"
  else match QuotaWindowKey provider role with
  | None => Err "invalid window role"
  | Some quotaKey =>
      if negb (obQuotaKey observation =?s EmptyString) && negb (obQuotaKey observation =?s quotaKey)
      then Err "quota key does not match provider and role"
      else if obWindowSeconds observation <=? 0 then Err "window seconds must be positive"
      else if int64_max / Second <? obWindowSeconds observation then Err "window seconds exceed time duration range"
      else if negb (source =?s "absolute") && negb (source =?s "relative") then Err "invalid reset source"
      else if IsZero (obResetAt observation) then Err "reset_at is required"
      else if (obRemainingPercent observation <? 0) || (100 <? obRemainingPercent observation)
      then Err "remaining percent must be between 0 and 100"
      else if obObservationCount observation <? 1 then Err "observation count must be positive"
      else if IsZero (obFirstObservedAt observation) || IsZero (obLastObservedAt observation)
      then Err "observation time is required"
      else if obLastObservedAt observation <? obFirstObservedAt observation
      then Err "first observed time is after last observed time"
      else Ok (mkObservation provider quotaKey authIndex role (obWindowSeconds observation) source
                 (NormalizeStorageTime (obResetAt observation)) (obRemainingPercent observation)
                 (NormalizeStorageTime (obFirstObservedAt observation))
                 (NormalizeStorageTime (obLastObservedAt observation)) (obObservationCount observation)
                 (obAuthoritative observation))
  end.

(** ** Queries *)

(** ORDER BY last_observed_at DESC, id DESC *)
Definition newerCycle (a b : QuotaCycle) : Prop :=
  (qcLastObservedAt b <? qcLastObservedAt a)
  || ((qcLastObservedAt a =? qcLastObservedAt b) && (qcID b <=? qcID a)) = true.
#[export] Instance newerCycle_dec : RelDecision newerCycle := fun a b => decide (_ = true).

(** ORDER BY first_observed_at DESC, id DESC *)
Definition newerSegment (a b : QuotaPercentSegment) : Prop :=
  (sgFirstObservedAt b <? sgFirstObservedAt a)
  || ((sgFirstObservedAt a =? sgFirstObservedAt b) && (sgID b <=? sgID a)) = true.
#[export] Instance newerSegment_dec : RelDecision newerSegment := fun a b => decide (_ = true).

Definition cyclesWhere (p : QuotaCycle -> bool) (t : QuotaTables) : list QuotaCycle :=
  merge_sort newerCycle (List.filter p (map snd (map_to_list (qtCycles t)))).

Definition segmentsWhere (p : QuotaPercentSegment -> bool) (t : QuotaTables) : list QuotaPercentSegment :=
  merge_sort newerSegment (List.filter p (map snd (map_to_list (qtSegments t)))).

Definition ofQuota (provider authIndex quotaKey : string) (c : QuotaCycle) : bool :=
  (qcProvider c =?s provider) && (qcAuthIndex c =?s authIndex) && (qcQuotaKey c =?s quotaKey).

Definition tailOf (cycleID : Z) (t : QuotaTables) : option QuotaPercentSegment :=
  head (segmentsWhere (fun s => sgCycleID s =? cycleID) t).

(** ** Writes and what the tables refuse *)

Definition setCycles (m : gmap Z QuotaCycle) (t : QuotaTables) : QuotaTables :=
  mkQuotaTables m (qtSegments t) (qtNextCycle t) (qtNextSegment t).
Definition setSegments (m : gmap Z QuotaPercentSegment) (t : QuotaTables) : QuotaTables :=
  mkQuotaTables (qtCycles t) m (qtNextCycle t) (qtNextSegment t).

(** The checks of a row and uniq_quota_cycles_identity. *)
Definition cycleAllowed (id : Z) (c : QuotaCycle) (t : QuotaTables) : bool :=
  negb (qcProvider c =?s EmptyString) && negb (qcAuthIndex c =?s EmptyString) && negb (qcQuotaKey c =?s EmptyString)
  && (0 <? qcWindowSeconds c) && ((qcResetAtSource c =?s "absolute") || (qcResetAtSource c =?s "relative"))
  && (qcWindowStartedAt c <? qcResetAt c) && (qcFirstObservedAt c <=? qcLastObservedAt c)
  && forallb (fun p => (p.1 =? id) || negb (ofQuota (qcProvider c) (qcAuthIndex c) (qcQuotaKey c) p.2
                                           && (qcWindowSeconds p.2 =? qcWindowSeconds c) && (qcResetAt p.2 =? qcResetAt c)))
       (map_to_list (qtCycles t)).

(** The checks of a row, its cycle and uniq_quota_percent_segments_cycle_percent. *)
Definition segmentAllowed (id : Z) (s : QuotaPercentSegment) (t : QuotaTables) : bool :=
  (0 <=? sgRemainingPercent s) && (sgRemainingPercent s <=? 100) && (sgFirstObservedAt s <=? sgLastObservedAt s)
  && (1 <=? sgObservationCount s) && bool_decide (is_Some (qtCycles t !! sgCycleID s))
  && forallb (fun p => (p.1 =? id) || negb ((sgCycleID p.2 =? sgCycleID s) && (sgRemainingPercent p.2 =? sgRemainingPercent s)))
       (map_to_list (qtSegments t)).

Section History.
(** [ctxErr] is ctx.Err() and [now] time.Now() before a statement. *)
Context (fault : nat -> option string) (ctxErr : nat -> option string) (now : nat -> Time).
Notation Sql := (Sql QuotaTables).
Local Open Scope sql_scope.

Definition time_now : Sql Time := fun d => (d, now (dbClock d)).

(** A statement the tables may refuse. *)
Definition constrained {A} (allowed : QuotaTables -> bool) (run : QuotaTables -> QuotaTables * A) : Sql (result string A) :=
  fun d =>
    match fault (dbClock d) with
    | Some e => (mkDb (dbTables d) (S (dbClock d)), Err e)
    | None =>
        if allowed (dbTables d)
        then let '(t, a) := run (dbTables d) in (mkDb t (S (dbClock d)), Ok a)
        else (mkDb (dbTables d) (S (dbClock d)), Err "constraint failed")
    end.

Definition createCycle (c : Z -> QuotaCycle) : Sql (result string QuotaCycle) :=
  constrained (fun t => cycleAllowed (qtNextCycle t) (c (qtNextCycle t)) t)
    (fun t => let id := qtNextCycle t in
       (mkQuotaTables (<[id := c id]> (qtCycles t)) (qtSegments t) (id + 1) (qtNextSegment t), c id)).

Definition createSegment (s : Z -> QuotaPercentSegment) : Sql (result string unit) :=
  constrained (fun t => segmentAllowed (qtNextSegment t) (s (qtNextSegment t)) t)
    (fun t => let id := qtNextSegment t in
       (mkQuotaTables (qtCycles t) (<[id := s id]> (qtSegments t)) (qtNextCycle t) (id + 1), tt)).

(** UPDATE … WHERE id = ? *)
Definition updateCycle (id : Z) (f : QuotaCycle -> QuotaCycle) : Sql (result string unit) :=
  constrained (fun t => match qtCycles t !! id with Some c => cycleAllowed id (f c) t | None => true end)
    (fun t => (match qtCycles t !! id with Some c => setCycles (<[id := f c]> (qtCycles t)) t | None => t end, tt)).

Definition updateSegment (id : Z) (f : QuotaPercentSegment -> QuotaPercentSegment) : Sql (result string unit) :=
  constrained (fun t => match qtSegments t !! id with Some s => segmentAllowed id (f s) t | None => true end)
    (fun t => (match qtSegments t !! id with Some s => setSegments (<[id := f s]> (qtSegments t)) t | None => t end, tt)).

Definition loadCurrentQuotaCycle (provider authIndex quotaKey : string) : Sql (result string (option QuotaCycle)) :=
  wrap "load current quota cycle: " (query fault (fun t => head (cyclesWhere (ofQuota provider authIndex quotaKey) t))).

Definition loadMatchingQuotaCycle (provider authIndex quotaKey : string) (windowSeconds : Z) (resetAt : Time)
    : Sql (result string (option QuotaCycle)) :=
  try$ candidates := wrap "load matching quota cycle: " (query fault (cyclesWhere (fun c =>
    ofQuota provider authIndex quotaKey c && (qcWindowSeconds c =? windowSeconds)
    && (resetAt - codexQuotaResetTolerance <=? qcResetAt c) && (qcResetAt c <=? resetAt + codexQuotaResetTolerance)))) in
  sql_ret (Ok (closestMatchingQuotaCycle candidates windowSeconds resetAt)).

Definition newQuotaCycle (o : CodexMainQuotaObservation) (at_ : Time) (id : Z) : QuotaCycle :=
  mkCycle id (obProvider o) (obAuthIndex o) (obQuotaKey o) (obWindowSeconds o) (obResetAtSource o)
    (obResetAt o - obWindowSeconds o * Second) (obResetAt o) (obFirstObservedAt o) (obLastObservedAt o) at_ at_.

Definition newQuotaPercentSegment (cycleID : Z) (o : CodexMainQuotaObservation) (at_ : Time) (id : Z) : QuotaPercentSegment :=
  mkSegment id cycleID (obRemainingPercent o) (obFirstObservedAt o) (obLastObservedAt o) (obObservationCount o) at_ at_.

(** The segment after more observations of its percentage. *)
Definition extended (o : CodexMainQuotaObservation) (at_ : Time) (s : QuotaPercentSegment) : QuotaPercentSegment :=
  mkSegment (sgID s) (sgCycleID s) (sgRemainingPercent s) (sgFirstObservedAt s) (obLastObservedAt o)
    (sgObservationCount s + obObservationCount o) (sgCreatedAt s) at_.

(** updateQuotaCycleObservedTimes: [cycle] is the row as it was read. *)
Definition updateQuotaCycleObservedTimes (cycle : QuotaCycle) (o : CodexMainQuotaObservation) : Sql (result string unit) :=
  let firstObservedAt :=
    if IsZero (qcFirstObservedAt cycle) || (obFirstObservedAt o <? qcFirstObservedAt cycle)
    then obFirstObservedAt o else qcFirstObservedAt cycle in
  let$ at_ := time_now in
  wrap "update quota cycle observed times: " (updateCycle (qcID cycle) (fun c =>
    mkCycle (qcID c) (qcProvider c) (qcAuthIndex c) (qcQuotaKey c) (qcWindowSeconds c) (qcResetAtSource c)
      (qcWindowStartedAt c) (qcResetAt c) firstObservedAt (obLastObservedAt o) (qcCreatedAt c) at_)).

Definition withBoundary (o : CodexMainQuotaObservation) (at_ : Time) (c : QuotaCycle) : QuotaCycle :=
  mkCycle (qcID c) (qcProvider c) (qcAuthIndex c) (qcQuotaKey c) (qcWindowSeconds c) (obResetAtSource o)
    (obResetAt o - obWindowSeconds o * Second) (obResetAt o) (qcFirstObservedAt c) (qcLastObservedAt c) (qcCreatedAt c) at_.

Definition upgradesBoundary (cycle : QuotaCycle) (o : CodexMainQuotaObservation) : bool :=
  (obAuthoritative o && (negb (qcResetAtSource cycle =?s obResetAtSource o) || negb (qcResetAt cycle =? obResetAt o)))
  || ((qcResetAtSource cycle =?s "relative") && (obResetAtSource o =?s "absolute")).

(** upgradeQuotaCycleBoundary; the cycle the caller goes on with. *)
Definition upgradeQuotaCycleBoundary (cycle : QuotaCycle) (o : CodexMainQuotaObservation) : Sql (result string QuotaCycle) :=
  if negb (upgradesBoundary cycle o) then sql_ret (Ok cycle)
  else
    let$ at_ := time_now in
    try$ _ := wrap "upgrade quota cycle boundary: " (updateCycle (qcID cycle) (withBoundary o at_)) in
    sql_ret (Ok (withBoundary o (qcUpdatedAt cycle) cycle)).

Definition correctQuotaPercentTail (cycle : QuotaCycle) (o : CodexMainQuotaObservation) : Sql (result string unit) :=
  try$ _ := wrap "delete corrected quota percent tail: " (statement fault (fun t =>
    (setSegments (filter (fun p => negb ((sgCycleID p.2 =? qcID cycle) && (sgRemainingPercent p.2 <? obRemainingPercent o)) = true)
                    (qtSegments t)) t, tt))) in
  try$ target := wrap "load corrected quota percent segment: " (query fault (fun t =>
    head (segmentsWhere (fun s => (sgCycleID s =? qcID cycle) && (sgRemainingPercent s =? obRemainingPercent o)) t))) in
  let$ at_ := time_now in
  try$ _ := match target with
            | None => wrap "create corrected quota percent segment: "
                        (createSegment (newQuotaPercentSegment (qcID cycle) o at_))
            | Some target => wrap "update corrected quota percent segment: "
                               (updateSegment (sgID target) (extended o at_))
            end in
  updateQuotaCycleObservedTimes cycle o.

(** applyCodexMainQuotaObservation after the cycle is chosen. *)
Definition applyToCycle (cycle : QuotaCycle) (created : bool) (o : CodexMainQuotaObservation) : Sql (result string unit) :=
  try$ tail := wrap "load quota percent tail: " (query fault (tailOf (qcID cycle))) in
  match tail with
  | None =>
      let$ at_ := time_now in
      try$ _ := wrap "create first quota percent segment: " (createSegment (newQuotaPercentSegment (qcID cycle) o at_)) in
      if created then sql_ret (Ok tt) else updateQuotaCycleObservedTimes cycle o
  | Some tail =>
      if obLastObservedAt o <? sgLastObservedAt tail then sql_ret (Ok tt)
      else if obAuthoritative o && (sgRemainingPercent tail <? obRemainingPercent o) then correctQuotaPercentTail cycle o
      else if obLastObservedAt o =? sgLastObservedAt tail then sql_ret (Ok tt)
      else if negb (sgLastObservedAt tail <? obFirstObservedAt o) then sql_ret (Ok tt)
      else if sgRemainingPercent tail <? obRemainingPercent o then sql_ret (Ok tt)
      else
        let$ at_ := time_now in
        try$ _ := if obRemainingPercent o =? sgRemainingPercent tail
                  then wrap "update quota percent segment: " (updateSegment (sgID tail) (extended o at_))
                  else wrap "create quota percent segment: " (createSegment (newQuotaPercentSegment (qcID cycle) o at_)) in
        updateQuotaCycleObservedTimes cycle o
  end.

(** The cycle an observation belongs to, before it is known whether it counts. *)
Definition findCycle (latest : option QuotaCycle) (o : CodexMainQuotaObservation) : Sql (result string (option QuotaCycle)) :=
  match latest with
  | None => sql_ret (Ok None)
  | Some c =>
      if quotaCycleMatchesObservation c o then sql_ret (Ok (Some c))
      else loadMatchingQuotaCycle (obProvider o) (obAuthIndex o) (obQuotaKey o) (obWindowSeconds o) (obResetAt o)
  end.

(** The three early returns for what is late. *)
Definition tooLate (latest found : option QuotaCycle) (o : CodexMainQuotaObservation) : bool :=
  match latest with
  | None => false
  | Some latestCycle =>
      (obLastObservedAt o <? qcLastObservedAt latestCycle)
      || match found with
         | Some cycle => negb (qcID cycle =? qcID latestCycle) && (qcWindowSeconds cycle =? qcWindowSeconds latestCycle)
         | None => (qcWindowSeconds latestCycle =? obWindowSeconds o) && (obResetAt o <? qcResetAt latestCycle)
         end
  end.

Definition applyCodexMainQuotaObservation (o : CodexMainQuotaObservation) : Sql (result string unit) :=
  try$ latest := loadCurrentQuotaCycle (obProvider o) (obAuthIndex o) (obQuotaKey o) in
  try$ found := findCycle latest o in
  if tooLate latest found o then sql_ret (Ok tt)
  else
    match found with
    | None =>
        let$ at_ := time_now in
        try$ cycle := wrap "create quota cycle: " (createCycle (newQuotaCycle o at_)) in
        applyToCycle cycle true o
    | Some cycle =>
        if obLastObservedAt o <? qcLastObservedAt cycle then sql_ret (Ok tt)
        else try$ cycle := upgradeQuotaCycleBoundary cycle o in applyToCycle cycle false o
    end.

(** The loop over the batches; [n] batches at most. *)
Fixpoint writeBatches (n : nat) (normalized : list CodexMainQuotaObservation) : Sql (result string unit) :=
  match n, normalized with
  | _, [] => sql_ret (Ok tt)
  | O, _ => sql_ret (Ok tt)
  | S n, _ => fun d =>
      match ctxErr (dbClock d) with
      | Some e => (d, Err (String.append "write codex quota history: " e))
      | None =>
          (try$ _ := wrap "write codex quota history batch: " (transaction fault
             (for_each applyCodexMainQuotaObservation (take codexQuotaHistoryWriteBatchSize normalized))) in
           writeBatches n (drop codexQuotaHistoryWriteBatchSize normalized)) d
      end
  end.

Fixpoint normalizeAll (observations : list CodexMainQuotaObservation) : result string (list CodexMainQuotaObservation) :=
  match observations with
  | [] => Ok []
  | o :: observations =>
      let? o := normalizeCodexMainQuotaObservation o in
      let? normalized := normalizeAll observations in
      Ok (o :: normalized)
  end.

Definition WriteCodexMainQuotaObservations (observations : list CodexMainQuotaObservation) : Sql (result string unit) :=
  match normalizeAll observations with
  | Err e => sql_ret (Err (String.append "validate codex quota observation: " e))
  | Ok normalized => writeBatches (length normalized) normalized
  end.

Definition notFoundState : CodexQuotaHistoryState := mkHistoryState false 0 EmptyString zero_time false 0 zero_time.

Definition LoadLatestQuotaHistoryState (provider authIndex windowRole : string) : Sql (result string CodexQuotaHistoryState) :=
  let authIndex := TrimSpace authIndex in
  if authIndex =?s EmptyString then sql_ret (Err "load codex quota history state: auth_index is required")
  else
    let windowRole := ToLower (TrimSpace windowRole) in
    let provider := ToLower (TrimSpace provider) in
    match QuotaWindowKey provider windowRole with
    | None => sql_ret (Err "load codex quota history state: invalid window role")
    | Some quotaKey =>
        try$ cycle := wrap "load latest quota cycle: "
                        (query fault (fun t => head (cyclesWhere (ofQuota provider authIndex quotaKey) t))) in
        match cycle with
        | None => sql_ret (Ok notFoundState)
        | Some cycle =>
            try$ tail := wrap "load latest quota percent segment: " (query fault (tailOf (qcID cycle))) in
            sql_ret (Ok
              match tail with
              | None => mkHistoryState true (qcWindowSeconds cycle) (qcResetAtSource cycle) (qcResetAt cycle) false 0 zero_time
              | Some tail => mkHistoryState true (qcWindowSeconds cycle) (qcResetAtSource cycle) (qcResetAt cycle) true
                               (sgRemainingPercent tail) (sgLastObservedAt tail)
              end)
        end
    end.

(** ** Deleting a cycle *)

Record CodexQuotaCycleDeletion := mkDeletion { deCycle : QuotaCycle; deCycles : list QuotaCycle }.

Definition MatchesObservation (deletion : CodexQuotaCycleDeletion) (o : CodexMainQuotaObservation) : bool :=
  let provider := ToLower (TrimSpace (obProvider o)) in
  let provider := if provider =?s EmptyString then "codex" else provider in
  match QuotaWindowKey provider (obWindowRole o) with
  | None => false
  | Some quotaKey =>
      if negb (ofQuota provider (TrimSpace (obAuthIndex o)) quotaKey (deCycle deletion))
         || negb (quotaCycleMatchesObservation (deCycle deletion) o) then false
      else
        let byDistance :=
          match closestMatchingQuotaCycle (deCycles deletion) (obWindowSeconds o) (obResetAt o) with
          | Some matched => qcID matched =? qcID (deCycle deletion)
          | None => false
          end in
        match deCycles deletion with
        | newest :: _ =>
            if quotaCycleMatchesObservation newest o then qcID newest =? qcID (deCycle deletion) else byDistance
        | [] => byDistance
        end
  end.

(** gorm.ErrRecordNotFound is an error of the transaction. *)
Definition DeleteQuotaCycle (provider authIndex : string) (cycleID : Z) : Sql (result string CodexQuotaCycleDeletion) :=
  let authIndex := TrimSpace authIndex in
  let provider := ToLower (TrimSpace provider) in
  match QuotaWindowKey provider "primary" with
  | None => sql_ret (Err "delete codex quota cycle: invalid database, auth_index or cycle_id")
  | Some primaryKey =>
      let secondaryKey := default EmptyString (QuotaWindowKey provider "secondary") in
      if (authIndex =?s EmptyString) || (cycleID <=? 0)
      then sql_ret (Err "delete codex quota cycle: invalid database, auth_index or cycle_id")
      else transaction fault (
        try$ cycle := query fault (fun t =>
          match qtCycles t !! cycleID with
          | Some c => if ofQuota provider authIndex primaryKey c || ofQuota provider authIndex secondaryKey c
                      then Some c else None
          | None => None
          end) in
        match cycle with
        | None => sql_ret (Err "record not found")
        | Some cycle =>
            try$ cycles := query fault (cyclesWhere (ofQuota provider authIndex (qcQuotaKey cycle))) in
            try$ _ := statement fault (fun t =>
              (setSegments (filter (fun p => (sgCycleID p.2 =? qcID cycle) = false) (qtSegments t)) t, tt)) in
            try$ _ := statement fault (fun t => (setCycles (delete (qcID cycle) (qtCycles t)) t, tt)) in
            sql_ret (Ok (mkDeletion cycle cycles))
        end)
  end.

End History.
