(* ===== verification/QuotaHistoryFacts.v ===== *)
(** The history of the quotas: what one observation does to the tables, that the segments
    of a cycle stay a descending staircase, and that headers only extend it. *)
From S2P Require Import Prelude GoStrings GoTime Timeutil Sql QuotaHistory.
From stdpp Require Import sorting.

Local Open Scope string_scope.
Local Open Scope list_scope.
Local Open Scope Z_scope.

(** ** Programs that succeed *)

Section Succeeds.
Context {T : Type}.
Implicit Types d : Db T.

Lemma sql_try_ok {A B} (m : Sql T (result string A)) (f : A -> Sql T (result string B)) d d' b :
  sql_try m f d = (d', Ok b) -> exists a d1, m d = (d1, Ok a) /\ f a d1 = (d', Ok b).
Proof. unfold sql_try. destruct (m d) as [d1 [a|e]]; [by eauto | done]. Qed.

Lemma ret_ok {A} (a b : A) d d' : sql_ret (Ok (E := string) a) d = (d', Ok b) -> d' = d /\ b = a.
Proof. by intros [= -> ->]. Qed.

Lemma wrap_ok {A} prefix (m : Sql T (result string A)) d d' a : wrap prefix m d = (d', Ok a) -> m d = (d', Ok a).
Proof. unfold wrap. by destruct (m d) as [d1 [a'|e]]. Qed.

Lemma query_ok {A} fault (run : T -> A) d d' a :
  query fault run d = (d', Ok a) -> dbTables d' = dbTables d /\ a = run (dbTables d).
Proof. unfold query, statement. destruct (fault _); [done|]. by intros [= <- ->]. Qed.

Lemma statement_ok {A} fault (run : T -> T * A) d d' a :
  statement fault run d = (d', Ok a) -> (dbTables d', a) = run (dbTables d).
Proof. unfold statement. destruct (fault _); [done|]. destruct (run _). by intros [= <- ->]. Qed.

Lemma transaction_ok {A} fault (body : Sql T (result string A)) d d' a :
  transaction fault body d = (d', Ok a) ->
  exists d1 d2, dbTables d1 = dbTables d /\ body d1 = (d2, Ok a) /\ dbTables d' = dbTables d2.
Proof.
  unfold transaction. destruct (fault _); [done|]. destruct (body _) as [d2 [b|e]] eqn:E; [|done].
  destruct (fault _); [done|]. intros [= <- ->]. exists (mkDb (dbTables d) (S (dbClock d))), d2. done.
Qed.

Lemma transaction_err {A} fault (body : Sql T (result string A)) d d' e :
  transaction fault body d = (d', Err e) -> dbTables d' = dbTables d.
Proof.
  unfold transaction. destruct (fault _); [by intros [= <- <-]|]. destruct (body _) as [d2 [b|e']].
  - destruct (fault _); [by intros [= <- <-] | done].
  - by intros [= <- <-].
Qed.
End Succeeds.

Section Writes.
Context (fault : nat -> option string) (ctxErr : nat -> option string) (now : nat -> Time).

Lemma constrained_ok {A} (allowed : QuotaTables -> bool) (run : QuotaTables -> QuotaTables * A) d d' a :
  constrained fault allowed run d = (d', Ok a) -> allowed (dbTables d) = true /\ (dbTables d', a) = run (dbTables d).
Proof.
  unfold constrained. destruct (fault _); [done|]. destruct (allowed _); [|done].
  destruct (run _). by intros [= <- ->].
Qed.

Lemma now_ok {B} (f : Time -> Sql QuotaTables B) d : sql_bind (time_now now) f d = f (now (dbClock d)) d.
Proof. reflexivity. Qed.

(** ** What one observation does *)

(** The row of a cycle with its times of observation. *)
Definition observed (o : CodexMainQuotaObservation) (at_ : Time) (c : QuotaCycle) : QuotaCycle :=
  mkCycle (qcID c) (qcProvider c) (qcAuthIndex c) (qcQuotaKey c) (qcWindowSeconds c) (qcResetAtSource c)
    (qcWindowStartedAt c) (qcResetAt c)
    (if IsZero (qcFirstObservedAt c) || (obFirstObservedAt o <? qcFirstObservedAt c)
     then obFirstObservedAt o else qcFirstObservedAt c) (obLastObservedAt o) (qcCreatedAt c) at_.

(** What changes no segment: late, overlapping or higher, unless it corrects. *)
Definition unmoved (tail : QuotaPercentSegment) (o : CodexMainQuotaObservation) : bool :=
  let higher := sgRemainingPercent tail <? obRemainingPercent o in
  (obLastObservedAt o <? sgLastObservedAt tail)
  || (negb (obAuthoritative o && higher)
      && ((obLastObservedAt o =? sgLastObservedAt tail) || negb (sgLastObservedAt tail <? obFirstObservedAt o) || higher)).

(** What the segments of a cycle become; [None] when nothing does. *)
Inductive segments_step (o : CodexMainQuotaObservation) (k : Z) (t : QuotaTables) : option QuotaTables -> Prop :=
| kept tail : tailOf k t = Some tail -> unmoved tail o = true -> segments_step o k t None
| begun at_ : tailOf k t = None ->
    segments_step o k t (Some (mkQuotaTables (qtCycles t)
      (<[qtNextSegment t := newQuotaPercentSegment k o at_ (qtNextSegment t)]> (qtSegments t)) (qtNextCycle t) (qtNextSegment t + 1)))
| dropped tail at_ : tailOf k t = Some tail -> sgLastObservedAt tail < obFirstObservedAt o ->
    obRemainingPercent o < sgRemainingPercent tail ->
    segments_step o k t (Some (mkQuotaTables (qtCycles t)
      (<[qtNextSegment t := newQuotaPercentSegment k o at_ (qtNextSegment t)]> (qtSegments t)) (qtNextCycle t) (qtNextSegment t + 1)))
| lasted tail at_ : tailOf k t = Some tail -> sgLastObservedAt tail < obFirstObservedAt o ->
    obRemainingPercent o = sgRemainingPercent tail ->
    segments_step o k t (Some (setSegments (<[sgID tail := extended o at_ tail]> (qtSegments t)) t))
| corrected tail at_ t1 t2 : tailOf k t = Some tail -> sgLastObservedAt tail <= obLastObservedAt o ->
    obAuthoritative o = true -> sgRemainingPercent tail < obRemainingPercent o ->
    t1 = setSegments (filter (fun p => negb ((sgCycleID p.2 =? k) && (sgRemainingPercent p.2 <? obRemainingPercent o)) = true)
           (qtSegments t)) t ->
    match head (segmentsWhere (fun s => (sgCycleID s =? k) && (sgRemainingPercent s =? obRemainingPercent o)) t1) with
    | None => t2 = mkQuotaTables (qtCycles t1)
        (<[qtNextSegment t := newQuotaPercentSegment k o at_ (qtNextSegment t)]> (qtSegments t1)) (qtNextCycle t) (qtNextSegment t + 1)
    | Some target => exists s, qtSegments t1 !! sgID target = Some s
        /\ t2 = setSegments (<[sgID target := extended o at_ s]> (qtSegments t1)) t1
    end ->
    segments_step o k t (Some t2).

(** The tables after an observation that was taken. *)
Inductive applied (o : CodexMainQuotaObservation) (t : QuotaTables) : QuotaTables -> Prop :=
| ignored found : let latest := head (cyclesWhere (ofQuota (obProvider o) (obAuthIndex o) (obQuotaKey o)) t) in
    (forall c, found = Some c -> quotaCycleMatchesObservation c o = true
       /\ ofQuota (obProvider o) (obAuthIndex o) (obQuotaKey o) c = true /\ exists k, qtCycles t !! k = Some c) ->
    (forall l, latest = Some l -> quotaCycleMatchesObservation l o = true -> found = latest) ->
    tooLate latest found o || match found with Some c => obLastObservedAt o <? qcLastObservedAt c | None => false end = true ->
    applied o t t
| opened at_ at' : let k := qtNextCycle t in
    cycleAllowed k (newQuotaCycle o at_ k) t = true ->
    applied o t (mkQuotaTables (<[k := newQuotaCycle o at_ k]> (qtCycles t))
      (<[qtNextSegment t := newQuotaPercentSegment k o at' (qtNextSegment t)]> (qtSegments t)) (k + 1) (qtNextSegment t + 1))
| touched k c c1 t1 next :
    qtCycles t !! k = Some c -> ofQuota (obProvider o) (obAuthIndex o) (obQuotaKey o) c = true ->
    quotaCycleMatchesObservation c o = true -> qcLastObservedAt c <= obLastObservedAt o ->
    (c1 = c /\ upgradesBoundary c o = false \/ exists at_, upgradesBoundary c o = true /\ c1 = withBoundary o at_ c /\ cycleAllowed k c1 t = true) ->
    t1 = setCycles (<[k := c1]> (qtCycles t)) t -> segments_step o k t1 next ->
    forall t', match next with
    | None => t' = t1
    | Some t2 => exists at_, cycleAllowed k (observed o at_ c1) t2 = true
        /\ t' = setCycles (<[k := observed o at_ c1]> (qtCycles t2)) t2
    end -> applied o t t'.

(** ** Rows found by a query *)

Definition keyed (t : QuotaTables) : Prop :=
  (forall k c, qtCycles t !! k = Some c -> qcID c = k) /\ (forall k s, qtSegments t !! k = Some s -> sgID s = k).

Lemma in_cyclesWhere p t c : c ∈ cyclesWhere p t <-> p c = true /\ exists k, qtCycles t !! k = Some c.
Proof.
  unfold cyclesWhere. rewrite merge_sort_Permutation, list_elem_of_In, List.filter_In, <- list_elem_of_In.
  rewrite list_elem_of_fmap. split.
  - intros [([k c'] & -> & H%elem_of_map_to_list) H2]. by eauto.
  - intros [H1 [k H]]. split; [|done]. exists (k, c). split; [done|]. by apply elem_of_map_to_list.
Qed.

Lemma in_segmentsWhere p t s : s ∈ segmentsWhere p t <-> p s = true /\ exists k, qtSegments t !! k = Some s.
Proof.
  unfold segmentsWhere. rewrite merge_sort_Permutation, list_elem_of_In, List.filter_In, <- list_elem_of_In.
  rewrite list_elem_of_fmap. split.
  - intros [([k c'] & -> & H%elem_of_map_to_list) H2]. by eauto.
  - intros [H1 [k H]]. split; [|done]. exists (k, s). split; [done|]. by apply elem_of_map_to_list.
Qed.

Lemma head_in {A} (l : list A) x : head l = Some x -> x ∈ l.
Proof. destruct l; [done|]. intros [= ->]. left. Qed.

Lemma closest_from (l : list QuotaCycle) w r sel :
  foldl (closer w r) sel l = sel
  \/ exists c d, foldl (closer w r) sel l = Some (c, d) /\ c ∈ l /\ qcWindowSeconds c = w /\ quotaResetTimesMatch (qcResetAt c) r = true.
Proof.
  revert sel. induction l as [|a l IH]; intros sel; [by left|]. cbn [foldl].
  destruct (IH (closer w r sel a)) as [E|(c & d & E & In & W & M)]; [|right; exists c, d; split_and!; try done; by right].
  rewrite E. unfold closer. destruct (_ || _) eqn:B; [by left|].
  bool_split.
  assert (forall d, Some (a, d) = sel \/ exists c d', Some (a, d) = Some (c, d') /\ c ∈ a :: l /\ qcWindowSeconds c = w
            /\ quotaResetTimesMatch (qcResetAt c) r = true) as Take by (intros d; right; exists a, d; split_and!; [done | left | done..]).
  destruct sel as [[c d]|]; [|apply Take]. destruct (_ <? d); [apply Take | by left].
Qed.

Lemma closest_in l w r c :
  closestMatchingQuotaCycle l w r = Some c -> c ∈ l /\ qcWindowSeconds c = w /\ quotaResetTimesMatch (qcResetAt c) r = true.
Proof.
  unfold closestMatchingQuotaCycle. intros H.
  destruct (closest_from l w r None) as [E|(c' & d & E & R)]; rewrite E in H; [done|]. by injection H as ->.
Qed.

(** ** The program does what the relation says *)

Lemma found_ok latest o d d' found :
  findCycle fault latest o d = (d', Ok found) -> dbTables d' = dbTables d
  /\ (forall l, latest = Some l -> quotaCycleMatchesObservation l o = true -> found = latest)
  /\ forall c, found = Some c -> quotaCycleMatchesObservation c o = true
    /\ (latest = Some c \/ ofQuota (obProvider o) (obAuthIndex o) (obQuotaKey o) c = true
        /\ exists k, qtCycles (dbTables d) !! k = Some c).
Proof.
  unfold findCycle, loadMatchingQuotaCycle. destruct latest as [l|]; [|by intros [-> ->]%ret_ok].
  destruct (quotaCycleMatchesObservation l o) eqn:M.
  - intros [-> ->]%ret_ok. split; [done|]. split; [done|]. intros c [= <-]. by eauto.
  - intros (l' & d1 & [E ->]%wrap_ok%query_ok & [-> ->]%ret_ok)%sql_try_ok. split; [done|].
    split; [intros l0 [= <-]; by rewrite M|]. intros c H.
    apply closest_in in H as (In & W & R). apply in_cyclesWhere in In as [P [k L]]. bool_split.
    split; [|right; by eauto]. unfold quotaCycleMatchesObservation. rewrite R, andb_true_r. by apply Z.eqb_eq.
Qed.

Lemma observed_ok cycle o d d' c :
  updateQuotaCycleObservedTimes fault now cycle o d = (d', Ok tt) ->
  qtCycles (dbTables d) !! qcID cycle = Some c -> qcFirstObservedAt c = qcFirstObservedAt cycle ->
  exists at_, cycleAllowed (qcID cycle) (observed o at_ c) (dbTables d) = true
    /\ dbTables d' = setCycles (<[qcID cycle := observed o at_ c]> (qtCycles (dbTables d))) (dbTables d).
Proof.
  unfold updateQuotaCycleObservedTimes. rewrite now_ok. intros [Al E]%wrap_ok%constrained_ok L F.
  rewrite L in Al, E. injection E as ->. eexists. unfold observed. by rewrite F.
Qed.

(** What follows the change of the segments. *)
Definition finished (o : CodexMainQuotaObservation) (k : Z) (t2 t' : QuotaTables) : Prop :=
  forall c, qtCycles t2 !! k = Some c ->
    exists at_, cycleAllowed k (observed o at_ c) t2 = true /\ t' = setCycles (<[k := observed o at_ c]> (qtCycles t2)) t2.

Lemma corrected_ok cycle o d d' tail c :
  correctQuotaPercentTail fault now cycle o d = (d', Ok tt) -> keyed (dbTables d) ->
  qtCycles (dbTables d) !! qcID cycle = Some c -> qcFirstObservedAt c = qcFirstObservedAt cycle ->
  tailOf (qcID cycle) (dbTables d) = Some tail -> sgLastObservedAt tail <= obLastObservedAt o -> obAuthoritative o = true ->
  sgRemainingPercent tail < obRemainingPercent o ->
  exists t2, segments_step o (qcID cycle) (dbTables d) (Some t2) /\ finished o (qcID cycle) t2 (dbTables d').
Proof.
  unfold correctQuotaPercentTail. intros ([] & d1 & [= E1]%wrap_ok%statement_ok & H)%sql_try_ok Key L F Tl Le Au Lt.
  apply sql_try_ok in H as (target & d2 & [E2 ->]%wrap_ok%query_ok & H). rewrite now_ok in H.
  apply sql_try_ok in H as ([] & d3 & W & H).
  assert (qtCycles (dbTables d3) = qtCycles (dbTables d)
    /\ segments_step o (qcID cycle) (dbTables d) (Some (dbTables d3))) as [Same St].
  { destruct (head _) as [target|] eqn:Hd in W.
    - apply wrap_ok, constrained_ok in W as [_ W]. rewrite E2 in W.
      pose proof (head_in _ _ Hd) as [_ [k Lk]]%in_segmentsWhere.
      assert (qtSegments (dbTables d1) !! sgID target = Some target) as Ls.
      { rewrite (proj2 Key k target); [done|]. rewrite E1 in Lk. by apply map_lookup_filter_Some in Lk as [Lk _]. }
      rewrite Ls in W. injection W as ->. split; [by rewrite E1|].
      eapply corrected; [done..|reflexivity|]. rewrite <- E1, Hd. by exists target.
    - apply wrap_ok, constrained_ok in W as [_ W]. rewrite E2 in W. injection W as ->. split; [by rewrite E1|].
      eapply corrected; [done..|reflexivity|]. rewrite <- E1, Hd. by rewrite E1. }
  exists (dbTables d3). split; [done|]. intros c' L'. rewrite Same in L'.
  apply (observed_ok cycle o d3 d' c'); [done | by rewrite Same | congruence].
Qed.

Lemma created_ok k o at_ d d' :
  createSegment fault (newQuotaPercentSegment k o at_) d = (d', Ok tt) ->
  dbTables d' = mkQuotaTables (qtCycles (dbTables d))
    (<[qtNextSegment (dbTables d) := newQuotaPercentSegment k o at_ (qtNextSegment (dbTables d))]> (qtSegments (dbTables d)))
    (qtNextCycle (dbTables d)) (qtNextSegment (dbTables d) + 1).
Proof. intros [_ E]%constrained_ok. by injection E as ->. Qed.

Lemma to_cycle_ok cycle created o d d' c :
  applyToCycle fault now cycle created o d = (d', Ok tt) -> keyed (dbTables d) ->
  qtCycles (dbTables d) !! qcID cycle = Some c -> qcFirstObservedAt c = qcFirstObservedAt cycle ->
  (created = true -> tailOf (qcID cycle) (dbTables d) = None) ->
  exists next, segments_step o (qcID cycle) (dbTables d) next
    /\ match next with
       | None => dbTables d' = dbTables d
       | Some t2 => if created then dbTables d' = t2 else finished o (qcID cycle) t2 (dbTables d')
       end.
Proof.
  unfold applyToCycle. intros (tail & d1 & [E1 Tl]%wrap_ok%query_ok & H)%sql_try_ok Key L F Cr.
  symmetry in Tl. rewrite <- E1 in Key, L, Tl, Cr |- *. clear E1.
  destruct tail as [tail|].
  - destruct created; [by rewrite Cr in Tl|].
    destruct (obLastObservedAt o <? sgLastObservedAt tail) eqn:Late.
    { apply ret_ok in H as [-> _]. exists None. split; [|done]. eapply kept; [done|]. unfold unmoved. by rewrite Late. }
    destruct (obAuthoritative o && _) eqn:Au.
    { bool_split. destruct (corrected_ok cycle o d1 d' tail c) as (t2 & St & Fi); [done..|]. by exists (Some t2). }
    destruct (obLastObservedAt o =? _) eqn:Same; [|destruct (negb (sgLastObservedAt tail <? _)) eqn:Over;
      [|destruct (sgRemainingPercent tail <? _) eqn:Higher]].
    1-3: apply ret_ok in H as [-> _]; exists None; split; [|done]; eapply kept; [done|];
      unfold unmoved; rewrite Late, ?Same, ?Over, ?Higher, Au; by rewrite ?orb_true_r.
    rewrite now_ok in H. apply sql_try_ok in H as ([] & d2 & W & H). clear Au. bool_split.
    destruct (obRemainingPercent o =? _) eqn:Eq; bool_split.
    + apply wrap_ok, constrained_ok in W as [_ W].
      assert (qtSegments (dbTables d1) !! sgID tail = Some tail) as Ls.
      { pose proof (head_in _ _ Tl) as [_ [k Lk]]%in_segmentsWhere. by rewrite (proj2 Key _ _ Lk). }
      rewrite Ls in W. injection W as W. eexists (Some _). split; [by eapply lasted|].
      rewrite <- W. intros c' L'. apply (observed_ok cycle o d2 d' c'); [done..|]. rewrite W in L'. cbn in L'. congruence.
    + apply wrap_ok, created_ok in W. eexists (Some _). split; [eapply dropped; [done | lia | lia]|].
      rewrite <- W. intros c' L'. apply (observed_ok cycle o d2 d' c'); [done..|]. rewrite W in L'. cbn in L'. congruence.
  - rewrite now_ok in H. apply sql_try_ok in H as ([] & d2 & W%wrap_ok%created_ok & H).
    eexists (Some _). split; [by eapply begun|]. rewrite <- W. destruct created; [by apply ret_ok in H as [-> _]|].
    intros c' L'. apply (observed_ok cycle o d2 d' c'); [done..|]. rewrite W in L'. cbn in L'. congruence.
Qed.

Record sane (t : QuotaTables) : Prop := {
  sa_next : 0 < qtNextCycle t;
  sa_keyed : keyed t;
  sa_cycles : forall k c, qtCycles t !! k = Some c -> 0 < k < qtNextCycle t;
  sa_segments : forall k s, qtSegments t !! k = Some s -> k < qtNextSegment t /\ is_Some (qtCycles t !! sgCycleID s);
}.

Lemma tailOf_none k t : (forall i s, qtSegments t !! i = Some s -> sgCycleID s <> k) -> tailOf k t = None.
Proof.
  intros H. unfold tailOf. destruct (segmentsWhere _ t) as [|s l] eqn:E; [done|].
  assert (s ∈ segmentsWhere (fun s => sgCycleID s =? k) t) as [P [i L]]%in_segmentsWhere by (rewrite E; left).
  bool_split. by destruct (H _ _ L).
Qed.

(** The boundary: the row and the cycle the program goes on with. *)
Lemma upgraded_ok c o d d' cycle :
  upgradeQuotaCycleBoundary fault now c o d = (d', Ok cycle) -> qtCycles (dbTables d) !! qcID c = Some c ->
  exists c1, qcID cycle = qcID c /\ qcFirstObservedAt c1 = qcFirstObservedAt cycle
    /\ dbTables d' = setCycles (<[qcID c := c1]> (qtCycles (dbTables d))) (dbTables d)
    /\ (c1 = c /\ upgradesBoundary c o = false \/ exists at_, upgradesBoundary c o = true /\ c1 = withBoundary o at_ c
         /\ cycleAllowed (qcID c) c1 (dbTables d) = true).
Proof.
  unfold upgradeQuotaCycleBoundary. intros H L. destruct (upgradesBoundary c o) eqn:U; cbn [negb] in H.
  - rewrite now_ok in H. apply sql_try_ok in H as ([] & d1 & [Al W]%wrap_ok%constrained_ok & [-> ->]%ret_ok).
    exists (withBoundary o (now (dbClock d)) c).
    rewrite L in Al, W. injection W as W. split_and!; [done | done | done |]. right. by eexists.
  - apply ret_ok in H as [-> ->]. exists c. split_and!; [done..| |by left].
    rewrite insert_id by done. by destruct (dbTables d).
Qed.

Lemma apply_ok o d d' :
  applyCodexMainQuotaObservation fault now o d = (d', Ok tt) -> sane (dbTables d) -> applied o (dbTables d) (dbTables d').
Proof.
  unfold applyCodexMainQuotaObservation. intros (latest & d1 & [E1 La]%wrap_ok%query_ok & H)%sql_try_ok S.
  apply sql_try_ok in H as (found & d2 & (E2 & Lt & Fo)%found_ok & H).
  rewrite E1 in E2, Fo. clear E1 d1.
  assert (tooLate latest found o || match found with Some c => obLastObservedAt o <? qcLastObservedAt c | None => false end = true ->
    applied o (dbTables d) (dbTables d)) as Ignored.
  { subst latest. apply ignored; [|done]. intros c E. destruct (Fo c E) as [M [Hd|R]]; [|done].
    split; [done|]. by apply head_in, in_cyclesWhere in Hd. }
  destruct (tooLate latest found o).
  { apply ret_ok in H as [-> _]. rewrite E2. by apply Ignored. }
  destruct found as [c|].
  - destruct (Fo c eq_refl) as [M Or].
    assert (ofQuota (obProvider o) (obAuthIndex o) (obQuotaKey o) c = true /\ qtCycles (dbTables d) !! qcID c = Some c) as [Of L].
    { destruct Or as [->|[Of [k L]]].
      - apply eq_sym, head_in, in_cyclesWhere in La as [Of [k L]]. split; [done|]. by rewrite (proj1 (sa_keyed _ S) _ _ L).
      - split; [done|]. by rewrite (proj1 (sa_keyed _ S) _ _ L). }
    destruct (obLastObservedAt o <? qcLastObservedAt c) eqn:Late.
    { apply ret_ok in H as [-> _]. rewrite E2. by apply Ignored. }
    apply sql_try_ok in H as (cycle & d3 & U & H). rewrite <- E2 in L. apply upgraded_ok in U as (c1 & Id & Fi & E3 & Up); [|done].
    rewrite E2 in L, E3, Up.
    assert (keyed (dbTables d3)) as Key.
    { rewrite E3. split; [|apply (sa_keyed _ S)]. cbn. intros k c' [[<- <-]|[_ Lk]]%lookup_insert_Some.
      - destruct Up as [[-> _]|(at_ & _ & -> & _)]; done.
      - by apply (sa_keyed _ S). }
    apply (to_cycle_ok _ _ _ _ _ c1) in H as (next & St & Fin);
      [|done | rewrite Id, E3; apply lookup_insert_eq | done | done].
    rewrite Id in St, Fin. bool_split.
    eapply (touched o _ (qcID c) c c1 (dbTables d3) next); try done.
    destruct next as [t2|]; [|done]. apply Fin. clear -St E3.
    assert (qtCycles t2 = qtCycles (dbTables d3)) as ->.
    { inversion St; subst; try done. repeat case_match; [|by subst]. by destruct_and?; destruct H5 as (? & _ & ->). }
    rewrite E3. apply lookup_insert_eq.
  - rewrite now_ok in H. apply sql_try_ok in H as (cycle & d3 & [Al W]%wrap_ok%constrained_ok & H).
    rewrite E2 in Al, W. injection W as E3 ->.
    assert (tailOf (qtNextCycle (dbTables d)) (dbTables d3) = None) as T0.
    { rewrite E3. apply tailOf_none. cbn. intros i s L Eq. pose proof (sa_segments _ S _ _ L) as [_ [c' Lc]].
      rewrite Eq in Lc. pose proof (sa_cycles _ S _ _ Lc). lia. }
    assert (keyed (dbTables d3)) as Key.
    { rewrite E3. split; [|apply (sa_keyed _ S)]. cbn. intros k c' [[<- <-]|[_ Lk]]%lookup_insert_Some; [done|].
      by apply (sa_keyed _ S). }
    apply (to_cycle_ok _ _ _ _ _ (newQuotaCycle o (now (dbClock d2)) (qtNextCycle (dbTables d)))) in H as (next & St & Fin);
      [|done | rewrite E3; apply lookup_insert_eq | done | done].
    cbn in St. inversion St; subst; try congruence. rewrite Fin, E3. cbn. by apply opened.
Qed.

End Writes.

(** ** The staircase *)

Definition follows (s1 s2 : QuotaPercentSegment) : Prop :=
  sgLastObservedAt s1 < sgFirstObservedAt s2 /\ sgRemainingPercent s2 < sgRemainingPercent s1.

Definition cycle_row (c : QuotaCycle) : Prop :=
  0 < qcWindowSeconds c /\ qcWindowStartedAt c < qcResetAt c /\ qcFirstObservedAt c <= qcLastObservedAt c
  /\ qcFirstObservedAt c <> zero_time.

Definition same_identity (a b : QuotaCycle) : Prop :=
  qcProvider a = qcProvider b /\ qcAuthIndex a = qcAuthIndex b /\ qcQuotaKey a = qcQuotaKey b
  /\ qcWindowSeconds a = qcWindowSeconds b /\ qcResetAt a = qcResetAt b.

Definition cycles_ok (m : gmap Z QuotaCycle) : Prop :=
  (forall k c, m !! k = Some c -> cycle_row c)
  /\ (forall k1 k2 c1 c2, m !! k1 = Some c1 -> m !! k2 = Some c2 -> same_identity c1 c2 -> k1 = k2).

Definition segment_row (s : QuotaPercentSegment) : Prop :=
  0 <= sgRemainingPercent s <= 100 /\ sgFirstObservedAt s <= sgLastObservedAt s /\ 1 <= sgObservationCount s.

Definition within (s : QuotaPercentSegment) (c : QuotaCycle) : Prop :=
  qcFirstObservedAt c <= sgFirstObservedAt s /\ sgLastObservedAt s <= qcLastObservedAt c.

(** Every row is fine, no two cycles are the same, a segment lies within the time its
    cycle was observed, and of two segments of a cycle the later one is lower. *)
Record history_ok (t : QuotaTables) : Prop := {
  hi_sane : sane t;
  hi_cycles : cycles_ok (qtCycles t);
  hi_rows : forall i s, qtSegments t !! i = Some s -> segment_row s;
  hi_within : forall i s c, qtSegments t !! i = Some s -> qtCycles t !! sgCycleID s = Some c -> within s c;
  hi_stairs : forall i j s1 s2, i <> j -> qtSegments t !! i = Some s1 -> qtSegments t !! j = Some s2 ->
    sgCycleID s1 = sgCycleID s2 -> follows s1 s2 \/ follows s2 s1;
}.

(** What normalizeCodexMainQuotaObservation lets through. *)
Definition valid_observation (o : CodexMainQuotaObservation) : Prop :=
  0 <= obRemainingPercent o <= 100 /\ obFirstObservedAt o <= obLastObservedAt o /\ 1 <= obObservationCount o
  /\ obFirstObservedAt o <> zero_time.

Lemma normalized_valid o o' : normalizeCodexMainQuotaObservation o = Ok o' -> valid_observation o'.
Proof.
  unfold normalizeCodexMainQuotaObservation. intros H. repeat case_match; try done; injection H as <-;
    unfold valid_observation, IsZero, NormalizeStorageTime in *; cbn; bool_split; lia.
Qed.

#[export] Instance newerSegment_total : Total newerSegment.
Proof.
  intros a b. unfold newerSegment.
  destruct (Z.lt_trichotomy (sgFirstObservedAt a) (sgFirstObservedAt b)) as [L|[E|L]].
  - right. by rewrite (proj2 (Z.ltb_lt _ _) L).
  - rewrite !E, Z.eqb_refl. destruct (Z.le_ge_cases (sgID a) (sgID b)) as [I|I]; [right|left];
      rewrite (proj2 (Z.leb_le _ _) I); by rewrite orb_true_r.
  - left. by rewrite (proj2 (Z.ltb_lt _ _) L).
Qed.

Lemma newerSegment_iff a b : newerSegment a b <->
  sgFirstObservedAt b < sgFirstObservedAt a \/ (sgFirstObservedAt a = sgFirstObservedAt b /\ sgID b <= sgID a).
Proof. unfold newerSegment. by rewrite orb_true_iff, andb_true_iff, Z.ltb_lt, Z.eqb_eq, Z.leb_le. Qed.

#[export] Instance newerSegment_trans : Transitive newerSegment.
Proof. intros a b c. rewrite !newerSegment_iff. lia. Qed.

Lemma tailOf_first k t tail : tailOf k t = Some tail ->
  sgCycleID tail = k /\ (exists i, qtSegments t !! i = Some tail)
  /\ forall i s, qtSegments t !! i = Some s -> sgCycleID s = k -> s = tail \/ sgFirstObservedAt s <= sgFirstObservedAt tail.
Proof.
  intros H. pose proof (head_in _ _ H) as [P Ex]%in_segmentsWhere. bool_split. split_and!; [done..|].
  intros i s L C. unfold tailOf in H.
  assert (s ∈ segmentsWhere (fun s => sgCycleID s =? k) t) as In.
  { apply in_segmentsWhere. split; [by apply Z.eqb_eq | by exists i]. }
  pose proof (StronglySorted_merge_sort newerSegment
    (List.filter (fun s => sgCycleID s =? k) (map snd (map_to_list (qtSegments t))))) as Sorted.
  fold (segmentsWhere (fun s => sgCycleID s =? k) t) in Sorted.
  destruct (segmentsWhere _ t) as [|x l]; [done|]. injection H as ->. apply elem_of_cons in In as [->|In]; [by left|right].
  inversion Sorted as [|? ? _ All]; subst. rewrite Forall_forall in All.
  pose proof (All _ In) as N%newerSegment_iff. lia.
Qed.

(** The tail is the foot of the stairs. *)
Lemma tail_last t k tail : history_ok t -> tailOf k t = Some tail ->
  qtSegments t !! sgID tail = Some tail /\ sgCycleID tail = k
  /\ forall i s, qtSegments t !! i = Some s -> sgCycleID s = k -> i <> sgID tail -> follows s tail.
Proof.
  intros H Tl. apply tailOf_first in Tl as (C & [j L] & First).
  pose proof (proj2 (sa_keyed _ (hi_sane _ H)) _ _ L) as <-. split_and!; [done..|].
  intros i s Ls Cs Ne. destruct (hi_stairs _ H _ _ _ _ Ne Ls L) as [F|[F1 F2]]; [congruence | done |].
  pose proof (hi_rows _ H _ _ L) as (_ & R & _). destruct (First _ _ Ls Cs) as [->|Le]; lia.
Qed.

Lemma allowed_put k c t : cycles_ok (qtCycles t) -> cycleAllowed k c t = true -> qcFirstObservedAt c <> zero_time ->
  cycles_ok (<[k := c]> (qtCycles t)).
Proof.
  intros [Rows Uniq] Al Nz. unfold cycleAllowed in Al. apply andb_true_iff in Al as [Row Al]. rewrite forallb_forall in Al.
  assert (forall k' c', k' <> k -> qtCycles t !! k' = Some c' -> ~ same_identity c c') as Other.
  { intros k' c' Ne L (I1 & I2 & I3 & I4 & I5). specialize (Al (k', c')). cbn in Al. unfold ofQuota in Al.
    rewrite I1, I2, I3, I4, I5, !String.eqb_refl, !Z.eqb_refl, orb_false_r in Al. apply Z.eqb_eq in Al; [done|].
    by apply list_elem_of_In, elem_of_map_to_list. }
  split.
  - intros k' c' [[<- <-]|[_ L]]%lookup_insert_Some; [|by eapply Rows]. bool_split; unfold cycle_row; split_and!; (lia || done).
  - intros k1 k2 c1 c2 [[<- <-]|[N1 L1]]%lookup_insert_Some [[<- <-]|[N2 L2]]%lookup_insert_Some I; [done | | |by eapply Uniq].
    + by destruct (Other k2 c2).
    + destruct (Other k1 c1); try done. unfold same_identity in *. destruct_and!. by rewrite ?H, ?H1, ?H0, ?H2, ?H3.
Qed.

(** An authoritative value that could raise the percentage is one instant, or later than
    all that is known of its quota. *)
Definition timely (t : QuotaTables) (o : CodexMainQuotaObservation) : Prop :=
  obAuthoritative o = true -> obFirstObservedAt o = obLastObservedAt o
  \/ forall i s c, qtSegments t !! i = Some s -> qtCycles t !! sgCycleID s = Some c ->
       ofQuota (obProvider o) (obAuthIndex o) (obQuotaKey o) c = true -> sgLastObservedAt s <= obFirstObservedAt o.

(** The segments after a step, whatever the row of the cycle becomes. *)
Record segments_ok (t : QuotaTables) : Prop := {
  so_keys : forall i s, qtSegments t !! i = Some s -> sgID s = i /\ i < qtNextSegment t /\ is_Some (qtCycles t !! sgCycleID s);
  so_rows : forall i s, qtSegments t !! i = Some s -> segment_row s;
  so_stairs : forall i j s1 s2, i <> j -> qtSegments t !! i = Some s1 -> qtSegments t !! j = Some s2 ->
    sgCycleID s1 = sgCycleID s2 -> follows s1 s2 \/ follows s2 s1;
}.

Lemma history_segments t : history_ok t -> segments_ok t.
Proof.
  intros H. split; [|apply H..]. intros i s L. split; [by apply (sa_keyed _ (hi_sane _ H))|].
  by apply (sa_segments _ (hi_sane _ H)).
Qed.

(** A new segment at the foot of the stairs. *)
Lemma segments_new k o at_ m t : segments_ok (setSegments m t) -> valid_observation o -> is_Some (qtCycles t !! k) ->
  (forall i s, m !! i = Some s -> sgCycleID s = k -> sgLastObservedAt s < obFirstObservedAt o /\ obRemainingPercent o < sgRemainingPercent s) ->
  segments_ok (mkQuotaTables (qtCycles t) (<[qtNextSegment t := newQuotaPercentSegment k o at_ (qtNextSegment t)]> m)
    (qtNextCycle t) (qtNextSegment t + 1)).
Proof.
  intros [Keys Rows Stairs] (V1 & V2 & V3 & _) Cy Below. cbn in *.
  split; cbn.
  - intros i s [[<- <-]|[Ne L]]%lookup_insert_Some; [by split_and!; [|lia|]|].
    destruct (Keys _ _ L) as (? & ? & ?). split_and!; [done|lia|done].
  - intros i s [[<- <-]|[Ne L]]%lookup_insert_Some; [done | by eapply Rows].
  - intros i j s1 s2 Ne [[<- <-]|[N1 L1]]%lookup_insert_Some [[<- <-]|[N2 L2]]%lookup_insert_Some C; [done| | |by eapply (Stairs i j)].
    + right. apply (Below _ _ L2). by rewrite <- C.
    + left. by apply (Below _ _ L1).
Qed.

(** The last segment of a cycle goes on. *)
Lemma segments_last k o at_ s t : segments_ok t -> valid_observation o -> qtSegments t !! sgID s = Some s -> sgCycleID s = k ->
  sgFirstObservedAt s <= obLastObservedAt o ->
  (forall i s', qtSegments t !! i = Some s' -> sgCycleID s' = k -> i <> sgID s -> follows s' s) ->
  segments_ok (setSegments (<[sgID s := extended o at_ s]> (qtSegments t)) t).
Proof.
  intros [Keys Rows Stairs] (V1 & V2 & V3 & _) Ls C Le Last. cbn in *.
  destruct (Keys _ _ Ls) as (_ & K2 & K3). destruct (Rows _ _ Ls) as (R1 & R2 & R3).
  split; cbn.
  - intros i s' [[<- <-]|[Ne L]]%lookup_insert_Some; [done | by apply Keys].
  - intros i s' [[<- <-]|[Ne L]]%lookup_insert_Some; [|by eapply Rows]. split_and!; cbn; lia.
  - intros i j s1 s2 Ne [[<- <-]|[N1 L1]]%lookup_insert_Some [[<- <-]|[N2 L2]]%lookup_insert_Some C'; [done| | |by eapply (Stairs i j)].
    + right. destruct (Last j s2 L2); [cbn in C'; congruence | done | by split].
    + left. destruct (Last i s1 L1); [cbn in C'; congruence | done | by split].
Qed.

(** Where the segments of a step come from. *)
Definition grown (o : CodexMainQuotaObservation) (k : Z) (t t2 : QuotaTables) : Prop :=
  qtCycles t2 = qtCycles t /\ qtNextCycle t2 = qtNextCycle t
  /\ forall i s, qtSegments t2 !! i = Some s -> qtSegments t !! i = Some s
       \/ (sgCycleID s = k /\ sgLastObservedAt s = obLastObservedAt o
           /\ (sgFirstObservedAt s = obFirstObservedAt o
               \/ exists s0, qtSegments t !! i = Some s0 /\ sgCycleID s0 = k /\ sgFirstObservedAt s0 = sgFirstObservedAt s)).

Lemma below_tail t k tail i s : history_ok t -> tailOf k t = Some tail -> qtSegments t !! i = Some s -> sgCycleID s = k ->
  s = tail \/ follows s tail.
Proof.
  intros H Tl L C. destruct (tail_last _ _ _ H Tl) as (Lt & _ & Last).
  destruct (decide (i = sgID tail)) as [->|Ne]; [left; congruence | right; by eapply Last].
Qed.

Lemma filter_segments_ok P `{forall x, Decision (P x)} t :
  segments_ok t -> segments_ok (setSegments (filter P (qtSegments t)) t).
Proof.
  intros [Keys Rows Stairs]. split; cbn.
  - intros i s [L _]%map_lookup_filter_Some. by apply Keys.
  - intros i s [L _]%map_lookup_filter_Some. by eapply Rows.
  - intros i j s1 s2 Ne [L1 _]%map_lookup_filter_Some [L2 _]%map_lookup_filter_Some. by eapply (Stairs i j).
Qed.

Lemma corrected_segments o k t t1 t2 at_ tail c : history_ok t -> valid_observation o -> timely t o ->
  qtCycles t !! k = Some c -> ofQuota (obProvider o) (obAuthIndex o) (obQuotaKey o) c = true ->
  tailOf k t = Some tail -> sgLastObservedAt tail <= obLastObservedAt o -> obAuthoritative o = true ->
  sgRemainingPercent tail < obRemainingPercent o ->
  t1 = setSegments (filter (fun p => negb ((sgCycleID p.2 =? k) && (sgRemainingPercent p.2 <? obRemainingPercent o)) = true)
         (qtSegments t)) t ->
  match head (segmentsWhere (fun s => (sgCycleID s =? k) && (sgRemainingPercent s =? obRemainingPercent o)) t1) with
  | None => t2 = mkQuotaTables (qtCycles t1)
      (<[qtNextSegment t := newQuotaPercentSegment k o at_ (qtNextSegment t)]> (qtSegments t1)) (qtNextCycle t) (qtNextSegment t + 1)
  | Some target => exists s, qtSegments t1 !! sgID target = Some s
      /\ t2 = setSegments (<[sgID target := extended o at_ s]> (qtSegments t1)) t1
  end ->
  segments_ok t2 /\ grown o k t t2.
Proof.
  intros H V Ti Lc Of Tl Le Au Lt T1 T2. destruct (tail_last _ _ _ H Tl) as (Lt0 & Ct & Last).
  assert (segments_ok t1) as Ok1 by (subst t1; by apply filter_segments_ok, history_segments).
  assert (forall i s, qtSegments t1 !! i = Some s -> qtSegments t !! i = Some s) as Sub
    by (subst t1; by intros i s [L _]%map_lookup_filter_Some).
  assert (forall i s, qtSegments t1 !! i = Some s -> sgCycleID s = k ->
    obRemainingPercent o <= sgRemainingPercent s /\ follows s tail) as Rest.
  { subst t1. intros i s [L P]%map_lookup_filter_Some C. cbn in P. rewrite C, Z.eqb_refl in P. cbn in P. bool_split.
    split; [done|]. destruct (below_tail _ _ _ _ _ H Tl L C) as [->|F]; [lia | done]. }
  pose proof (hi_rows _ H _ _ Lt0) as (_ & Rt & _).
  destruct (head _) as [target|] eqn:Hd.
  - destruct T2 as (s & Ls & ->). pose proof (head_in _ _ Hd) as [P [i Li]]%in_segmentsWhere. bool_split.
    pose proof (so_keys _ Ok1 _ _ Li) as (Ki & _). rewrite Ki, Li in Ls. injection Ls as ->. rewrite Ki in *. subst i.
    destruct (Rest _ _ Li) as [_ [F1 F2]]; [done|]. destruct (so_rows _ Ok1 _ _ Li) as (_ & R2 & _).
    split; [eapply (segments_last k); try done; [lia|]|].
    + intros i s' L' C' Ne. destruct (so_stairs _ Ok1 _ _ _ _ Ne L' Li) as [F|[_ F]]; [congruence | done |].
      destruct (Rest _ _ L' C'). lia.
    + split_and!; [by subst t1 | by subst t1|]. cbn. intros j s' [[<- <-]|[_ L']]%lookup_insert_Some; [|left; by apply Sub].
      right. split_and!; [done | done|]. right. exists s. split_and!; [by apply Sub | done | done].
  - subst t2. assert (qtNextSegment t = qtNextSegment t1 /\ qtNextCycle t = qtNextCycle t1) as [-> ->] by by subst t1.
    split; [eapply segments_new|].
    + by destruct t1.
    + done.
    + subst t1. by exists c.
    + intros i s L C. destruct (Rest _ _ L C) as [P [F1 F2]]. split.
      * destruct (Ti Au) as [E|All]; [lia|].
        assert (sgLastObservedAt tail <= obFirstObservedAt o) by (eapply All; [done | by rewrite Ct | done]). lia.
      * destruct (decide (sgRemainingPercent s = obRemainingPercent o)) as [E|]; [|lia].
        assert (s ∈ segmentsWhere (fun s => (sgCycleID s =? k) && (sgRemainingPercent s =? obRemainingPercent o)) t1) as In.
        { apply in_segmentsWhere. rewrite E, C, !Z.eqb_refl. split; [done | by exists i]. }
        destruct (segmentsWhere _ t1); [by apply elem_of_nil in In | done].
    + split_and!; [by subst t1 | by subst t1|]. cbn. intros j s' [[<- <-]|[_ L']]%lookup_insert_Some; [|left; by apply Sub].
      right. split_and!; [done | done | by left].
Qed.

Lemma step_segments o k t next c : history_ok t -> valid_observation o -> timely t o ->
  qtCycles t !! k = Some c -> ofQuota (obProvider o) (obAuthIndex o) (obQuotaKey o) c = true ->
  qcLastObservedAt c <= obLastObservedAt o -> segments_step o k t next ->
  match next with None => True | Some t2 => segments_ok t2 /\ grown o k t t2 end.
Proof.
  intros H V Ti Lc Of Le St. pose proof (history_segments _ H) as Ok0.
  assert (forall at_, (forall i s, qtSegments t !! i = Some s -> sgCycleID s = k ->
      sgLastObservedAt s < obFirstObservedAt o /\ obRemainingPercent o < sgRemainingPercent s) ->
    let t2 := mkQuotaTables (qtCycles t)
      (<[qtNextSegment t := newQuotaPercentSegment k o at_ (qtNextSegment t)]> (qtSegments t)) (qtNextCycle t) (qtNextSegment t + 1) in
    segments_ok t2 /\ grown o k t t2) as New.
  { intros at_ Below. split; [apply segments_new; try done; by destruct t|].
    split_and!; [done | done|]. cbn. intros j s' [[<- <-]|[_ L']]%lookup_insert_Some; [right | by left]. split_and!; [done | done | by left]. }
  destruct St as [tail Tl U | at_ Tl | tail at_ Tl Late Low | tail at_ Tl Late Eq | tail at_ t1 t2 Tl Late Au Lt T1 T2]; [done|..].
  - apply New. intros i s L C. exfalso. unfold tailOf in Tl.
    assert (s ∈ segmentsWhere (fun s => sgCycleID s =? k) t) as In by (apply in_segmentsWhere; split; [by apply Z.eqb_eq | by exists i]).
    destruct (segmentsWhere _ t); [by apply elem_of_nil in In | done].
  - apply New. intros i s L C. destruct (below_tail _ _ _ _ _ H Tl L C) as [->|[F1 F2]]; [lia|].
    destruct (tail_last _ _ _ H Tl) as (Lt & _ & _). pose proof (hi_rows _ H _ _ Lt) as (_ & R & _). lia.
  - destruct (tail_last _ _ _ H Tl) as (Lt & Ct & Last). pose proof (hi_rows _ H _ _ Lt) as (_ & R & _).
    destruct V as (V1 & V2 & V3). split; [eapply (segments_last k); try done; lia|].
    split_and!; [done | done|]. cbn. intros j s' [[<- <-]|[_ L']]%lookup_insert_Some; [right | by left].
    split_and!; [done | done|]. right. by exists tail.
  - eapply corrected_segments; try done.
Qed.

(** A row of a cycle that keeps its identity as a quota is replaced. *)
Lemma put_cycle k c c' t : sane t -> qtCycles t !! k = Some c -> qcID c' = qcID c -> sane (setCycles (<[k := c']> (qtCycles t)) t).
Proof.
  intros [Nx [K1 K2] Cy Sg] L Id. split; [done | split|..]; cbn.
  - intros j d [[<- <-]|[_ Lj]]%lookup_insert_Some; [rewrite Id|]; by apply K1.
  - apply K2.
  - intros j d [[<- <-]|[_ Lj]]%lookup_insert_Some; by eapply Cy.
  - intros i s Li. destruct (Sg _ _ Li) as [? S]. split; [done|]. apply lookup_insert_is_Some'. by right.
Qed.

Lemma boundary_ok k c c1 o t : history_ok t -> qtCycles t !! k = Some c ->
  (c1 = c /\ upgradesBoundary c o = false \/ exists at_, upgradesBoundary c o = true /\ c1 = withBoundary o at_ c /\ cycleAllowed k c1 t = true) ->
  history_ok (setCycles (<[k := c1]> (qtCycles t)) t).
Proof.
  intros [Sa Cy Rw Wi St] L Up.
  assert (qcID c1 = qcID c /\ qcFirstObservedAt c1 = qcFirstObservedAt c /\ qcLastObservedAt c1 = qcLastObservedAt c) as (Id & F & La).
  { destruct Up as [[-> _]|(at_ & _ & -> & _)]; done. }
  split; cbn; try done.
  - by eapply put_cycle.
  - destruct Up as [[-> _]|(at_ & _ & -> & Al)]; [by rewrite insert_id|].
    apply allowed_put; [done | done|]. cbn. destruct Cy as [Rows _]. apply (Rows _ _ L).
  - intros i s c' Ls [[Ek <-]|[_ Lc]]%lookup_insert_Some; [|by eapply Wi].
    rewrite Ek in L. destruct (Wi _ _ _ Ls L) as [W1 W2]. split; lia.
Qed.

Lemma opened_ok o t at_ at' : history_ok t -> valid_observation o ->
  cycleAllowed (qtNextCycle t) (newQuotaCycle o at_ (qtNextCycle t)) t = true ->
  history_ok (mkQuotaTables (<[qtNextCycle t := newQuotaCycle o at_ (qtNextCycle t)]> (qtCycles t))
    (<[qtNextSegment t := newQuotaPercentSegment (qtNextCycle t) o at' (qtNextSegment t)]> (qtSegments t))
    (qtNextCycle t + 1) (qtNextSegment t + 1)).
Proof.
  intros H V Al. pose proof H as [Sa Cy Rw Wi St]. pose proof Sa as [Nx [K1 K2] Kc Ks].
  set (k := qtNextCycle t) in *.
  assert (forall i s, qtSegments t !! i = Some s -> sgCycleID s <> k) as Away.
  { intros i s L E. destruct (Ks _ _ L) as [_ [c Lc]]. rewrite E in Lc. pose proof (Kc _ _ Lc). unfold k in *. lia. }
  set (t1 := setCycles (<[k := newQuotaCycle o at_ k]> (qtCycles t)) t).
  assert (segments_ok t1) as Ok1.
  { split; cbn; [|apply Rw | apply St]. intros i s L. destruct (Ks _ _ L) as [? S]. split_and!; [by apply K2 | done|].
    apply lookup_insert_is_Some'. by right. }
  assert (segments_ok (mkQuotaTables (qtCycles t1)
      (<[qtNextSegment t1 := newQuotaPercentSegment k o at' (qtNextSegment t1)]> (qtSegments t)) (qtNextCycle t1) (qtNextSegment t1 + 1))) as [Keys Rows Stairs].
  { apply segments_new; [by destruct t | done | exists (newQuotaCycle o at_ k); apply lookup_insert_eq|].
    intros i s L C. by destruct (Away _ _ L). }
  cbn in Keys, Rows, Stairs. split; cbn; try done.
  - split; cbn; [lia | split|..]; cbn.
    + intros j c [[<- <-]|[_ L]]%lookup_insert_Some; [done | by apply K1].
    + intros i s L. by apply Keys in L as (? & _).
    + intros j c [[<- <-]|[_ L]]%lookup_insert_Some; [|pose proof (Kc _ _ L); unfold k in *; lia].
      unfold k. lia.
    + intros i s L. by apply Keys in L as (_ & ?).
  - apply allowed_put; [done | done|]. apply V.
  - intros i s c [[<- <-]|[Ni Li]]%lookup_insert_Some [[Ek <-]|[Nk Lk]]%lookup_insert_Some.
    + split; cbn; lia.
    + done.
    + by destruct (Away _ _ Li).
    + by eapply Wi.
Qed.

Lemma observed_within o at_ c s : within s c -> qcLastObservedAt c <= obLastObservedAt o -> cycle_row c -> within s (observed o at_ c).
Proof.
  intros [W1 W2] Le (_ & _ & _ & Nz). unfold observed, within, IsZero. cbn.
  rewrite (proj2 (Z.eqb_neq _ _) Nz). cbn [orb]. destruct (_ <? _) eqn:E; bool_split; lia.
Qed.

Lemma applied_ok o t t' : history_ok t -> valid_observation o -> timely t o -> applied o t t' -> history_ok t'.
Proof.
  intros H V Ti A. destruct A as [found latest|at_ at' k Al|k c c1 t1 next L Of M Le Up T1 St t' Fin]; [done | by apply opened_ok |].
  assert (history_ok t1) as H1 by (subst t1; by eapply boundary_ok).
  assert (qcID c1 = qcID c /\ qcFirstObservedAt c1 = qcFirstObservedAt c /\ qcLastObservedAt c1 = qcLastObservedAt c
    /\ ofQuota (obProvider o) (obAuthIndex o) (obQuotaKey o) c1 = true) as (Id & F1 & La & Of1)
    by (destruct Up as [[-> _]|(at_ & _ & -> & _)]; done).
  assert (qtCycles t1 !! k = Some c1) as L1 by (subst t1; apply lookup_insert_eq).
  assert (timely t1 o) as Ti1.
  { intros Au. destruct (Ti Au) as [E|All]; [by left|right]. intros i s c' Ls Lc Ofc. subst t1. cbn in *.
    apply lookup_insert_Some in Lc as [[Ek <-]|[_ Lc]]; [|by eapply All]. eapply (All i s c); [done | by rewrite <- Ek | done]. }
  pose proof (step_segments o k t1 next c1 H1 V Ti1 L1 Of1 ltac:(lia) St) as Seg.
  destruct next as [t2|]; [|by subst t']. destruct Fin as (at_ & Al & ->). destruct Seg as [[Keys Rows Stairs] (Cy2 & Nx2 & Grown)].
  destruct H1 as [Sa1 Cy1 Rw1 Wi1 _]. pose proof (proj1 Cy1 _ _ L1) as Row1.
  assert (qtCycles t2 !! k = Some c1) as L2 by by rewrite Cy2.
  split; cbn; [ | | exact Rows | | exact Stairs].
  - apply (put_cycle k c1); [|done | done]. destruct Sa1 as [Nx [K1 K2] Kc Ks].
    split; [by rewrite Nx2 | split | rewrite Cy2, Nx2; apply Kc|].
    + by rewrite Cy2.
    + intros i s Ls. by apply Keys in Ls as (? & _).
    + intros i s Ls. by apply Keys in Ls as (_ & ?).
  - apply allowed_put; [by rewrite Cy2 | done|]. cbn. destruct Row1 as (_ & _ & _ & Nz), V as (_ & _ & _ & Nz').
    by destruct (_ || _).
  - intros i s c' Ls [[Ek <-]|[Nk Lc]]%lookup_insert_Some; rewrite ?Cy2 in *.
    + destruct (Grown _ _ Ls) as [L0|(C & E2 & E1)].
      * apply observed_within; [by eapply Wi1; [done|rewrite <- Ek] | lia | done].
      * destruct Row1 as (_ & _ & R & Nz). unfold observed, within, IsZero. cbn. rewrite (proj2 (Z.eqb_neq _ _) Nz). cbn [orb].
        destruct E1 as [E1|(s0 & L0 & C0 & E1)].
        -- destruct (_ <? _) eqn:E; bool_split; lia.
        -- assert (within s0 c1) as [W1 _] by (eapply Wi1; [exact L0 | by rewrite C0]).
           destruct (_ <? _) eqn:E; bool_split; lia.
    + destruct (Grown _ _ Ls) as [L0|(C & _)]; [by eapply Wi1 | congruence].
Qed.

(** ** A list of observations *)

Definition same_quota (a b : CodexMainQuotaObservation) : Prop :=
  obProvider a = obProvider b /\ obAuthIndex a = obAuthIndex b /\ obQuotaKey a = obQuotaKey b.

Definition recorded_until (t : QuotaTables) (o : CodexMainQuotaObservation) (limit : Time) : Prop :=
  forall i s c, qtSegments t !! i = Some s -> qtCycles t !! sgCycleID s = Some c ->
    ofQuota (obProvider o) (obAuthIndex o) (obQuotaKey o) c = true -> sgLastObservedAt s <= limit.

(** An authoritative observation is of one instant, or begins no earlier than what is
    recorded of its quota and what comes before it in the list. *)
Definition in_order (t : QuotaTables) (l : list CodexMainQuotaObservation) : Prop :=
  forall l1 o l2, l = l1 ++ o :: l2 -> obAuthoritative o = true ->
    obFirstObservedAt o = obLastObservedAt o
    \/ (recorded_until t o (obFirstObservedAt o)
        /\ forall o', o' ∈ l1 -> same_quota o' o -> obLastObservedAt o' <= obFirstObservedAt o).

Lemma ofQuota_iff p a q c : ofQuota p a q c = true <-> qcProvider c = p /\ qcAuthIndex c = a /\ qcQuotaKey c = q.
Proof. unfold ofQuota. rewrite !andb_true_iff, !String.eqb_eq. tauto. Qed.

(** A step records nothing later than its observation. *)
Lemma applied_until o o' t t' limit : history_ok t -> valid_observation o -> timely t o -> applied o t t' ->
  recorded_until t o' limit -> (same_quota o o' -> obLastObservedAt o <= limit) -> recorded_until t' o' limit.
Proof.
  intros H V Ti A R Q. destruct A as [found latest|at_ at' k Al|k c c1 t1 next L Of M Le Up T1 St t' Fin]; [done| |].
  - intros i s c Ls Lc Of. cbn in *. destruct (hi_sane _ H) as [Nx [K1 K2] Kc Ks].
    apply lookup_insert_Some in Ls as [[<- <-]|[_ Ls]]; apply lookup_insert_Some in Lc as [[Ek <-]|[Nk Lc]]; cbn in *.
    + apply Q. by apply ofQuota_iff in Of.
    + done.
    + destruct (Ks _ _ Ls) as [_ [c' Lc']]. rewrite <- Ek in Lc'. pose proof (Kc _ _ Lc'). unfold k in *. lia.
    + by eapply R.
  - assert (history_ok t1) as H1 by (subst t1; by eapply boundary_ok).
    assert (ofQuota (obProvider o) (obAuthIndex o) (obQuotaKey o) c1 = true /\ qcLastObservedAt c1 = qcLastObservedAt c
      /\ forall p a q, ofQuota p a q c1 = ofQuota p a q c) as (Of1 & La & Same)
      by (destruct Up as [[-> _]|(at_ & _ & -> & _)]; done).
    assert (qtCycles t1 !! k = Some c1) as L1 by (subst t1; apply lookup_insert_eq).
    assert (recorded_until t1 o' limit) as R1.
    { intros i s c' Ls Lc' Of'. subst t1. cbn in *. apply lookup_insert_Some in Lc' as [[Ek <-]|[_ Lc']]; [|by eapply R].
      eapply (R i s c); [done | by rewrite <- Ek | by rewrite <- Same]. }
    assert (timely t1 o) as Ti1.
    { intros Au. destruct (Ti Au) as [E|All]; [by left|right]. intros i s c' Ls Lc' Of'. subst t1. cbn in *.
      apply lookup_insert_Some in Lc' as [[Ek <-]|[_ Lc']]; [|by eapply All]. eapply (All i s c); [done | by rewrite <- Ek | done]. }
    pose proof (step_segments o k t1 next c1 H1 V Ti1 L1 Of1 ltac:(lia) St) as Seg.
    destruct next as [t2|]; [|by subst t']. destruct Fin as (at_ & _ & ->). destruct Seg as [_ (Cy2 & _ & Grown)].
    intros i s c' Ls Lc' Of'. cbn in *. rewrite Cy2 in Lc'.
    assert (exists c0, qtCycles t1 !! sgCycleID s = Some c0 /\ ofQuota (obProvider o') (obAuthIndex o') (obQuotaKey o') c0 = true) as (c0 & Lc0 & Of0).
    { apply lookup_insert_Some in Lc' as [[Ek <-]|[_ Lc']]; [exists c1; by rewrite <- Ek | by exists c']. }
    destruct (Grown _ _ Ls) as [L0|(C & E & _)]; [by eapply R1|].
    rewrite E. apply Q. rewrite C in Lc0. rewrite L1 in Lc0. injection Lc0 as <-. apply ofQuota_iff in Of1, Of0.
    destruct_and!. unfold same_quota. split_and!; congruence.
Qed.

Definition ready (l : list CodexMainQuotaObservation) (t : QuotaTables) : Prop :=
  history_ok t /\ Forall valid_observation l /\ in_order t l.

Lemma ready_step o l t t' : ready (o :: l) t -> applied o t t' -> ready l t'.
Proof.
  intros (H & V & Ord) A. apply Forall_cons in V as [Vo Vl].
  assert (timely t o) as Ti.
  { intros Au. destruct (Ord [] o l eq_refl Au) as [E|[R _]]; [by left | by right]. }
  split_and!; [by eapply applied_ok | done|]. intros l1 o' l2 -> Au.
  destruct (Ord (o :: l1) o' l2 eq_refl Au) as [E|[R B]]; [by left|right]. split.
  - eapply applied_until; [done | exact Vo | done | done | done|]. intros Q. apply B; [left | done].
  - intros o1 In Q. apply B; [by right | done].
Qed.

Section Lists.
Context (fault : nat -> option string) (ctxErr : nat -> option string) (now : nat -> Time).

Lemma each_ready l rest d d' :
  for_each (applyCodexMainQuotaObservation fault now) l d = (d', Ok tt) -> ready (l ++ rest) (dbTables d) -> ready rest (dbTables d').
Proof.
  revert d. induction l as [|o l IH]; intros d; cbn [for_each app].
  - by intros [-> _]%ret_ok.
  - intros ([] & d1 & Ap & H)%sql_try_ok R. eapply IH; [exact H|]. eapply ready_step; [exact R|].
    eapply apply_ok; [exact Ap | apply R].
Qed.

Lemma batches_ok n l d : ready l (dbTables d) -> history_ok (dbTables (writeBatches fault ctxErr now n l d).1).
Proof.
  revert l d. induction n as [|n IH]; intros l d R; [destruct l; apply R|].
  destruct l as [|o l]; [apply R|]. cbn [writeBatches]. destruct (ctxErr (dbClock d)); [apply R|].
  set (l0 := o :: l) in *. unfold sql_try, wrap. destruct (transaction _ _ d) as [d1 [[]|e]] eqn:Tr.
  - apply IH. apply transaction_ok in Tr as (d2 & d3 & E2 & Ea & E3). rewrite E3.
    eapply each_ready; [exact Ea|]. rewrite take_drop. by rewrite E2.
  - apply transaction_err in Tr. cbn. rewrite Tr. apply R.
Qed.

Lemma normalizeAll_valid l l' : normalizeAll l = Ok l' -> Forall valid_observation l'.
Proof.
  revert l'. induction l as [|o l IH]; intros l'; cbn; [by intros [= <-]|].
  destruct (normalizeCodexMainQuotaObservation o) as [o'|] eqn:N; [|done]. cbn.
  destruct (normalizeAll l) as [l1|]; [|done]. cbn. intros [= <-]. constructor; [by eapply normalized_valid | by apply IH].
Qed.

Definition without (k : Z) (t : QuotaTables) : QuotaTables :=
  mkQuotaTables (delete k (qtCycles t)) (filter (fun p => (sgCycleID p.2 =? k) = false) (qtSegments t)) (qtNextCycle t) (qtNextSegment t).

Lemma deleted_tables provider authIndex id d :
  let t' := dbTables (DeleteQuotaCycle fault provider authIndex id d).1 in
  t' = dbTables d \/ exists k, t' = without k (dbTables d).
Proof.
  unfold DeleteQuotaCycle. cbn zeta. destruct (QuotaWindowKey _ _) as [pk|]; [|by left].
  destruct (_ || _); [by left|].
  destruct (transaction _ _ d) as [d1 [r|e]] eqn:Tr; [|by apply transaction_err in Tr; cbn; rewrite Tr; left].
  apply transaction_ok in Tr as (d2 & d3 & E2 & Body & E3). cbn [fst]. rewrite E3. clear E3 d1.
  apply sql_try_ok in Body as (c & d4 & [E4 Lc]%query_ok & Body). destruct c as [c|]; [|done].
  apply sql_try_ok in Body as (cs & d5 & [E5 _]%query_ok & Body).
  apply sql_try_ok in Body as ([] & d6 & W1%statement_ok & Body).
  apply sql_try_ok in Body as ([] & d7 & W2%statement_ok & [-> _]%ret_ok).
  injection W1 as W1. injection W2 as W2. right. exists (qcID c). by rewrite W2, W1, E5, E4, E2.
Qed.

Lemma delete_ok provider authIndex id d : history_ok (dbTables d) ->
  history_ok (dbTables (DeleteQuotaCycle fault provider authIndex id d).1).
Proof.
  intros H. destruct (deleted_tables provider authIndex id d) as [E|[k0 E]]; cbn zeta in E; rewrite E; [done|]. clear E.
  destruct H as [[Nx [K1 K2] Kc Ks] Cy Rw Wi St].
  split; cbn.
  - split; cbn; [done | split|..]; cbn.
    + intros k c' [_ L]%lookup_delete_Some. by apply K1.
    + intros i s [L _]%map_lookup_filter_Some. by apply K2.
    + intros k c' [_ L]%lookup_delete_Some. by eapply Kc.
    + intros i s [L P]%map_lookup_filter_Some. destruct (Ks _ _ L) as [? S]. split; [done|]. cbn in P. bool_split.
      by rewrite lookup_delete_ne.
  - destruct Cy as [Rows Uniq]. split.
    + intros k c' [_ L]%lookup_delete_Some. by eapply Rows.
    + intros k1 k2 c1 c2 [_ L1]%lookup_delete_Some [_ L2]%lookup_delete_Some. by apply Uniq.
  - intros i s [L _]%map_lookup_filter_Some. by eapply Rw.
  - intros i s c' [L _]%map_lookup_filter_Some [_ Lc']%lookup_delete_Some. by eapply Wi.
  - intros i j s1 s2 Ne [L1 _]%map_lookup_filter_Some [L2 _]%map_lookup_filter_Some. by eapply (St i j).
Qed.

End Lists.

(** ** Headers only extend the history *)

Definition extends (t t' : QuotaTables) : Prop :=
  forall i s, qtSegments t !! i = Some s -> exists s', qtSegments t' !! i = Some s'
    /\ sgCycleID s' = sgCycleID s /\ sgRemainingPercent s' = sgRemainingPercent s
    /\ sgFirstObservedAt s' = sgFirstObservedAt s /\ sgLastObservedAt s <= sgLastObservedAt s'
    /\ sgObservationCount s <= sgObservationCount s'.

#[export] Instance extends_preorder : PreOrder extends.
Proof.
  split.
  - intros t i s L. exists s. split_and!; (done || lia).
  - intros t1 t2 t3 E1 E2 i s L. destruct (E1 _ _ L) as (s2 & L2 & ?). destruct (E2 _ _ L2) as (s3 & L3 & ?).
    exists s3. destruct_and!. split_and!; (done || congruence || lia).
Qed.

Lemma extends_insert i s t m n : qtSegments t !! i = None ->
  extends t (mkQuotaTables (qtCycles t) (<[i := s]> (qtSegments t)) m n).
Proof.
  intros Fresh j s' L. exists s'. cbn. rewrite lookup_insert_ne by congruence. split_and!; (done || lia).
Qed.

Lemma extends_cycles m t : extends t (setCycles m t).
Proof. intros i s L. exists s. split_and!; (done || lia). Qed.

Lemma next_fresh t : sane t -> qtSegments t !! qtNextSegment t = None.
Proof. intros S. destruct (qtSegments t !! _) as [s|] eqn:L; [|done]. apply (sa_segments _ S) in L as [? _]. lia. Qed.

Lemma step_extends o k t t2 : history_ok t -> valid_observation o -> obAuthoritative o = false ->
  segments_step o k t (Some t2) -> extends t t2.
Proof.
  intros H V Au St. pose proof (next_fresh _ (hi_sane _ H)) as Fresh. inversion St; subst.
  - by apply extends_insert.
  - by apply extends_insert.
  - destruct (tail_last _ _ _ H H1) as (Lt & _ & _). intros i s L. cbn.
    destruct (decide (i = sgID tail)) as [->|Ne].
    + exists (extended o at_ tail). rewrite lookup_insert_eq. rewrite Lt in L. injection L as <-.
      destruct V as (_ & V2 & V3 & _). cbn. split_and!; (done || lia).
    + exists s. rewrite lookup_insert_ne by done. split_and!; (done || lia).
  - congruence.
Qed.

Lemma applied_extends o t t' : history_ok t -> valid_observation o -> obAuthoritative o = false -> applied o t t' -> extends t t'.
Proof.
  intros H V Au A. destruct A as [found latest|at_ at' k Al|k c c1 t1 next L Of M Le Up T1 St t' Fin]; [done| |].
  - pose proof (next_fresh _ (hi_sane _ H)) as Fresh. intros i s Li. exists s. cbn.
    rewrite lookup_insert_ne by congruence. split_and!; (done || lia).
  - assert (history_ok t1) as H1 by (subst t1; by eapply boundary_ok).
    assert (extends t t1) as E1 by (subst t1; apply extends_cycles).
    destruct next as [t2|]; [|by subst t']. destruct Fin as (at_ & _ & ->).
    transitivity t1; [done|]. transitivity t2; [by eapply step_extends | apply extends_cycles].
Qed.

Section Headers.
Context (fault : nat -> option string) (ctxErr : nat -> option string) (now : nat -> Time).

Lemma headers_in_order t l : Forall (fun o => obAuthoritative o = false) l -> in_order t l.
Proof. intros All l1 o l2 -> Au. apply Forall_app in All as [_ All]. apply Forall_cons in All as [E _]. congruence. Qed.

Lemma each_extends l d d' :
  for_each (applyCodexMainQuotaObservation fault now) l d = (d', Ok tt) -> ready l (dbTables d) ->
  Forall (fun o => obAuthoritative o = false) l -> extends (dbTables d) (dbTables d').
Proof.
  revert d. induction l as [|o l IH]; intros d; cbn [for_each].
  - by intros [-> _]%ret_ok.
  - intros ([] & d1 & Ap & H)%sql_try_ok R All. apply Forall_cons in All as [Au All].
    apply apply_ok in Ap; [|apply R]. transitivity (dbTables d1); [|apply IH; [done | by eapply ready_step | done]].
    destruct R as (Ok0 & [V _]%Forall_cons & _). by eapply applied_extends.
Qed.

Lemma batches_extend n l d : ready l (dbTables d) -> Forall (fun o => obAuthoritative o = false) l ->
  extends (dbTables d) (dbTables (writeBatches fault ctxErr now n l d).1).
Proof.
  revert l d. induction n as [|n IH]; intros l d R All; [by destruct l|].
  destruct l as [|o l]; [done|]. cbn [writeBatches]. destruct (ctxErr (dbClock d)); [done|].
  set (l0 := o :: l) in *. unfold sql_try, wrap. destruct (transaction _ _ d) as [d1 [[]|e]] eqn:Tr.
  - apply transaction_ok in Tr as (d2 & d3 & E2 & Ea & E3).
    rewrite <- (take_drop codexQuotaHistoryWriteBatchSize l0), <- E2 in R. pose proof (each_ready _ _ _ _ _ _ Ea R) as R'.
    rewrite <- (take_drop codexQuotaHistoryWriteBatchSize l0) in All. apply Forall_app in All as [A1 A2].
    assert (extends (dbTables d) (dbTables d1)) as E; [|rewrite <- E3 in R'; etransitivity; [exact E | by apply IH]].
    rewrite <- E2, E3. eapply each_extends; [exact Ea | | done].
    destruct R as (Ok0 & [V _]%Forall_app & _). split_and!; [done | done | by apply headers_in_order].
  - apply transaction_err in Tr. cbn. by rewrite Tr.
Qed.

(** C23: Observations that are not authoritative never rewrite the history: whatever
    fails, every segment is still there afterwards with its cycle, percentage and
    beginning, and neither ends earlier nor counts less. *)
Theorem headers_only_extend (observations : list CodexMainQuotaObservation) (d : Db QuotaTables) :
  history_ok (dbTables d) -> Forall (fun o => obAuthoritative o = false) observations ->
  extends (dbTables d) (dbTables (WriteCodexMainQuotaObservations fault ctxErr now observations d).1).
Proof.
  intros H All. unfold WriteCodexMainQuotaObservations.
  destruct (normalizeAll observations) as [l|e] eqn:N; [|done].
  assert (Forall (fun o => obAuthoritative o = false) l) as All'.
  { revert l N. induction All as [|o os Au All IH]; intros l; cbn; [by intros [= <-]|].
    destruct (normalizeCodexMainQuotaObservation o) as [o'|] eqn:E; [|done]. cbn.
    destruct (normalizeAll os) as [l1|]; [|done]. cbn. intros [= <-]. constructor; [|by apply IH].
    revert E. unfold normalizeCodexMainQuotaObservation. intros E. repeat case_match; try done; by injection E as <-. }
  apply batches_extend; [|done]. split_and!; [done | by eapply normalizeAll_valid | by apply headers_in_order].
Qed.
End Headers.

(** ** What is written is what is read *)

Lemma newerCycle_iff a b : newerCycle a b <->
  qcLastObservedAt b < qcLastObservedAt a \/ (qcLastObservedAt a = qcLastObservedAt b /\ qcID b <= qcID a).
Proof. unfold newerCycle. by rewrite orb_true_iff, andb_true_iff, Z.ltb_lt, Z.eqb_eq, Z.leb_le. Qed.

#[export] Instance newerCycle_total : Total newerCycle.
Proof. intros a b. rewrite !newerCycle_iff. lia. Qed.
#[export] Instance newerCycle_trans : Transitive newerCycle.
Proof. intros a b c. rewrite !newerCycle_iff. lia. Qed.

Lemma newest_cycle p t k c : qtCycles t !! k = Some c -> p c = true ->
  (forall k' c', qtCycles t !! k' = Some c' -> p c' = true -> k' <> k -> qcLastObservedAt c' < qcLastObservedAt c) ->
  head (cyclesWhere p t) = Some c.
Proof.
  intros L P Newest. assert (c ∈ cyclesWhere p t) as In by (apply in_cyclesWhere; split; [done | by exists k]).
  pose proof (StronglySorted_merge_sort newerCycle (List.filter p (map snd (map_to_list (qtCycles t))))) as Sorted.
  fold (cyclesWhere p t) in Sorted.
  assert (forall x, x ∈ cyclesWhere p t -> x = c \/ qcLastObservedAt x < qcLastObservedAt c) as All.
  { intros x [Px [k' Lx]]%in_cyclesWhere. destruct (decide (k' = k)) as [->|Ne]; [left; congruence | right; by eapply Newest]. }
  destruct (cyclesWhere p t) as [|x l]; [by apply elem_of_nil in In|]. cbn. f_equal.
  apply elem_of_cons in In as [->|In]; [done|]. inversion Sorted as [|? ? _ F]; subst. rewrite Forall_forall in F.
  pose proof (F _ In) as N%newerCycle_iff. destruct (All x) as [?|?]; [left | done | lia].
Qed.

(** The segment that ends last is the tail. *)
Lemma latest_segment t i s : history_ok t -> qtSegments t !! i = Some s ->
  (forall j s', qtSegments t !! j = Some s' -> sgCycleID s' = sgCycleID s -> j <> i -> sgLastObservedAt s' < sgLastObservedAt s) ->
  tailOf (sgCycleID s) t = Some s.
Proof.
  intros H L Last. destruct (tailOf (sgCycleID s) t) as [tail|] eqn:Tl.
  - destruct (tail_last _ _ _ H Tl) as (Lt & Ct & Below). destruct (decide (i = sgID tail)) as [->|Ne]; [congruence|].
    pose proof (Below _ _ L eq_refl Ne) as [F1 F2]. pose proof (hi_rows _ H _ _ Lt) as (_ & R & _).
    pose proof (Last _ _ Lt Ct ltac:(congruence)). lia.
  - exfalso. unfold tailOf in Tl. assert (s ∈ segmentsWhere (fun s' => sgCycleID s' =? sgCycleID s) t) as In
      by (apply in_segmentsWhere; split; [by apply Z.eqb_eq | by exists i]).
    destruct (segmentsWhere _ t); [by apply elem_of_nil in In | done].
Qed.

(** The observation is newer than what is recorded, and of the current cycle, of another
    window or of a cycle that ends later than all others. *)
Definition newest_observation (t : QuotaTables) (o : CodexMainQuotaObservation) : Prop :=
  (forall k c, qtCycles t !! k = Some c -> ofQuota (obProvider o) (obAuthIndex o) (obQuotaKey o) c = true ->
     qcLastObservedAt c < obFirstObservedAt o)
  /\ forall l, head (cyclesWhere (ofQuota (obProvider o) (obAuthIndex o) (obQuotaKey o)) t) = Some l ->
     quotaCycleMatchesObservation l o = true \/ qcWindowSeconds l <> obWindowSeconds o
     \/ forall k c, qtCycles t !! k = Some c -> ofQuota (obProvider o) (obAuthIndex o) (obQuotaKey o) c = true ->
          codexQuotaResetTolerance < obResetAt o - qcResetAt c <= int64_max.

Lemma far_apart a b : codexQuotaResetTolerance < b - a <= int64_max -> quotaResetTimesMatch a b = false.
Proof.
  unfold quotaResetTimesMatch, timeDistance, codexQuotaResetTolerance. intros H.
  rewrite Z.min_r, Z.max_r by (unfold int64_min, int64_max, Second in *; lia).
  rewrite (proj2 (Z.ltb_lt _ _)) by (unfold Second in *; lia).
  rewrite wrap64_id by (unfold in_int64, int64_min, int64_max, Second in *; lia). apply Z.leb_gt. lia.
Qed.

(** The tables show the observation as the latest of its quota. *)
Definition shows (o : CodexMainQuotaObservation) (t : QuotaTables) : Prop :=
  exists k c i s, qtCycles t !! k = Some c /\ ofQuota (obProvider o) (obAuthIndex o) (obQuotaKey o) c = true
    /\ qcWindowSeconds c = obWindowSeconds o /\ qcResetAtSource c = obResetAtSource o /\ qcResetAt c = obResetAt o
    /\ qcLastObservedAt c = obLastObservedAt o
    /\ (forall k' c', qtCycles t !! k' = Some c' -> ofQuota (obProvider o) (obAuthIndex o) (obQuotaKey o) c' = true ->
          k' <> k -> qcLastObservedAt c' < obLastObservedAt o)
    /\ qtSegments t !! i = Some s /\ sgCycleID s = k /\ sgRemainingPercent s = obRemainingPercent o
    /\ sgLastObservedAt s = obLastObservedAt o
    /\ (forall j s', qtSegments t !! j = Some s' -> sgCycleID s' = k -> j <> i -> sgLastObservedAt s' < obLastObservedAt o).

Lemma step_shows o k t next c : history_ok t -> valid_observation o -> obAuthoritative o = true ->
  qtCycles t !! k = Some c -> qcLastObservedAt c < obFirstObservedAt o -> segments_step o k t next ->
  exists t2 i s, next = Some t2 /\ qtSegments t2 !! i = Some s /\ sgCycleID s = k /\ sgRemainingPercent s = obRemainingPercent o
    /\ sgLastObservedAt s = obLastObservedAt o
    /\ (forall j s', qtSegments t2 !! j = Some s' -> sgCycleID s' = k -> j <> i -> qtSegments t !! j = Some s').
Proof.
  intros H V Au Lc Lt St. destruct V as (V1 & V2 & V3 & _).
  assert (forall tail, tailOf k t = Some tail -> qtSegments t !! sgID tail = Some tail /\ sgCycleID tail = k
    /\ sgLastObservedAt tail < obFirstObservedAt o) as Known.
  { intros tail Tl. destruct (tail_last _ _ _ H Tl) as (L & C & _). split_and!; [done..|].
    destruct (hi_within _ H _ _ c L) as [_ W]; [by rewrite C | lia]. }
  destruct St as [tail Tl U | at_ Tl | tail at_ Tl Late Low | tail at_ Tl Late Eq | tail at_ t1 t2 Tl Late Au' Ltp T1 T2].
  - destruct (Known _ Tl) as (_ & _ & K). unfold unmoved in U. rewrite Au in U. exfalso.
    rewrite (proj2 (Z.ltb_ge _ _)) in U by lia. rewrite (proj2 (Z.ltb_lt _ _) K) in U.
    destruct (sgRemainingPercent tail <? _); cbn in U; [done|]. rewrite orb_false_r in U. bool_split; lia.
  - eexists _, (qtNextSegment t), _. split_and!; [done | apply lookup_insert_eq | done | done | done|].
    cbn. intros j s' [[<- _]|[_ L]]%lookup_insert_Some; done.
  - eexists _, (qtNextSegment t), _. split_and!; [done | apply lookup_insert_eq | done | done | done|].
    cbn. intros j s' [[<- _]|[_ L]]%lookup_insert_Some; done.
  - destruct (Known _ Tl) as (_ & Ct & _). eexists _, (sgID tail), _. split_and!; [done | apply lookup_insert_eq | done | done | done|].
    cbn. intros j s' [[<- _]|[_ L]]%lookup_insert_Some; done.
  - assert (forall i s, qtSegments t1 !! i = Some s -> qtSegments t !! i = Some s) as Sub
      by (subst t1; by intros i s [L _]%map_lookup_filter_Some).
    destruct (head _) as [target|] eqn:Hd.
    + destruct T2 as (s & Ls & ->). pose proof (head_in _ _ Hd) as [P [i Li]]%in_segmentsWhere. bool_split.
      pose proof (proj2 (sa_keyed _ (hi_sane _ H)) _ _ (Sub _ _ Li)) as Ki. rewrite Ki, Li in Ls. injection Ls as <-. rewrite Ki.
      eexists _, i, _. split_and!; [done | apply lookup_insert_eq | done | done | done|].
      cbn. intros j s' [[<- _]|[_ L]]%lookup_insert_Some; [done|]. intros _ _. by apply Sub.
    + subst t2. eexists _, (qtNextSegment t), _. split_and!; [done | apply lookup_insert_eq | done | done | done|].
      cbn. intros j s' [[<- _]|[_ L]]%lookup_insert_Some; [done|]. intros _ _. by apply Sub.
Qed.

Lemma applied_shows o t t' : history_ok t -> valid_observation o -> obAuthoritative o = true -> newest_observation t o ->
  applied o t t' -> shows o t'.
Proof.
  intros H V Au [Rec Starts] A. pose proof V as (V1 & V2 & V3 & _).
  destruct A as [found latest Fm Fl Late|at_ at' k Al|k c c1 t1 next L Of M Le Up T1 St t' Fin].
  - exfalso. unfold tooLate in Late.
    assert (forall c, found = Some c -> obLastObservedAt o <? qcLastObservedAt c = false) as NotLate.
    { intros c E. destruct (Fm c E) as (_ & Of & k & L). pose proof (Rec _ _ L Of). apply Z.ltb_ge. lia. }
    assert (match found with Some c => obLastObservedAt o <? qcLastObservedAt c | None => false end = false) as E
      by (destruct found; [by apply NotLate | done]).
    rewrite E, orb_false_r in Late. clear E NotLate. destruct latest as [l|] eqn:Hd in Late; [|done].
    specialize (Starts l Hd). specialize (Fl l Hd).
    pose proof (head_in _ _ Hd) as [Of [k L]]%in_cyclesWhere. pose proof (Rec _ _ L Of) as Old.
    rewrite (proj2 (Z.ltb_ge _ _)) in Late by lia. cbn in Late.
    destruct found as [c|].
    + destruct (Fm c eq_refl) as (M & Ofc & kc & Lc). pose proof M as M'. unfold quotaCycleMatchesObservation in M'. bool_split.
      destruct Starts as [E|[E|Far]]; [|congruence|].
      * specialize (Fl E). congruence.
      * specialize (Far _ _ Lc Ofc). apply far_apart in Far. congruence.
    + bool_split. destruct Starts as [E|[E|Far]]; [|congruence|].
      * specialize (Fl E). congruence.
      * specialize (Far _ _ L Of). unfold codexQuotaResetTolerance, Second in *. lia.
  - assert (forall i s, qtSegments t !! i = Some s -> sgCycleID s <> k) as Away.
    { intros i s L E. destruct (sa_segments _ (hi_sane _ H) _ _ L) as [_ [c Lc]]. rewrite E in Lc.
      pose proof (sa_cycles _ (hi_sane _ H) _ _ Lc). unfold k in *. lia. }
    exists k, (newQuotaCycle o at_ k), (qtNextSegment t), (newQuotaPercentSegment k o at' (qtNextSegment t)). cbn.
    split_and!; try done; [apply lookup_insert_eq | by apply ofQuota_iff | | apply lookup_insert_eq |].
    + intros k' c' [[<- _]|[_ L]]%lookup_insert_Some; [done|]. intros Of _. pose proof (Rec _ _ L Of). lia.
    + intros j s' [[<- _]|[_ L]]%lookup_insert_Some; [done|]. intros C. by destruct (Away _ _ L).
  - assert (history_ok t1) as H1 by (subst t1; by eapply boundary_ok).
    assert (ofQuota (obProvider o) (obAuthIndex o) (obQuotaKey o) c1 = true /\ qcLastObservedAt c1 = qcLastObservedAt c
      /\ qcWindowSeconds c1 = obWindowSeconds o /\ qcResetAtSource c1 = obResetAtSource o /\ qcResetAt c1 = obResetAt o)
      as (Of1 & La & Wi & So & Re).
    { unfold quotaCycleMatchesObservation in M. apply andb_true_iff in M as [M%Z.eqb_eq _].
      destruct Up as [[-> Up]|(at_ & _ & -> & _)]; [|done]. unfold upgradesBoundary in Up. rewrite Au in Up. cbn in Up.
      apply orb_false_iff in Up as [Up _]. bool_split. done. }
    assert (qtCycles t1 !! k = Some c1) as L1 by (subst t1; apply lookup_insert_eq).
    pose proof (Rec _ _ L Of) as Newer.
    destruct (step_shows o k t1 next c1 H1 V Au L1 ltac:(lia) St) as (t2 & i & s & -> & Ls & Cs & Ps & As & Rest).
    destruct Fin as (at_ & _ & ->).
    assert (qtCycles t2 = qtCycles t1) as Cy2.
    { inversion St; subst; try done. repeat case_match; [|by subst]. by destruct_and?; destruct H7 as (? & _ & ->). }
    exists k, (observed o at_ c1), i, s. cbn. split_and!; try done; [apply lookup_insert_eq | |].
    + intros k' c' [[<- _]|[Ne Lk]]%lookup_insert_Some; [done|]. intros Of' _. rewrite Cy2 in Lk. subst t1. cbn in Lk.
      rewrite lookup_insert_ne in Lk by done. pose proof (Rec _ _ Lk Of'). lia.
    + intros j s' Lj Cj Nj. pose proof (Rest _ _ Lj Cj Nj) as L0.
      destruct (hi_within _ H1 _ _ c1 L0) as [_ W]; [by rewrite Cj | lia].
Qed.

Lemma ToLower_nil s : ToLower s = EmptyString -> s = EmptyString.
Proof.
  destruct s as [|a s]; [done|]. unfold ToLower. cbn [String.list_ascii_of_string].
  destruct (lower_bytes _) eqn:E; [|done]. cbn in E. repeat case_match; done.
Qed.

Lemma shown_state o t : history_ok t -> shows o t ->
  exists c s, head (cyclesWhere (ofQuota (obProvider o) (obAuthIndex o) (obQuotaKey o)) t) = Some c /\ tailOf (qcID c) t = Some s
    /\ qcWindowSeconds c = obWindowSeconds o /\ qcResetAtSource c = obResetAtSource o /\ qcResetAt c = obResetAt o
    /\ sgRemainingPercent s = obRemainingPercent o /\ sgLastObservedAt s = obLastObservedAt o.
Proof.
  intros H (k & c & i & s & Lc & Of & Wi & So & Re & La & Newest & Ls & Cs & Ps & As & Last).
  pose proof (proj1 (sa_keyed _ (hi_sane _ H)) _ _ Lc) as Id. exists c, s. split_and!; try done.
  - eapply newest_cycle; [done..|]. intros k' c' L' Of' Ne. rewrite La. by eapply Newest.
  - rewrite Id, <- Cs. eapply latest_segment; [done..|]. intros j s' Lj Cj Nj. rewrite As. apply (Last j); congruence.
Qed.

Section Back.
Context (fault : nat -> option string) (ctxErr : nat -> option string) (now : nat -> Time).

Lemma written_shows o d d' :
  history_ok (dbTables d) -> valid_observation o -> obAuthoritative o = true -> newest_observation (dbTables d) o ->
  writeBatches fault ctxErr now 1 [o] d = (d', Ok tt) -> history_ok (dbTables d') /\ shows o (dbTables d').
Proof.
  intros H V Au Ne W. cbn [writeBatches] in W. destruct (ctxErr _); [done|].
  apply sql_try_ok in W as ([] & d1 & (d2 & d3 & E2 & Body & E3)%wrap_ok%transaction_ok & W).
  apply ret_ok in W as [-> _]. rewrite E3. clear E3.
  apply sql_try_ok in Body as ([] & d4 & Ap & [-> _]%ret_ok). apply apply_ok in Ap; [|rewrite E2; apply H].
  rewrite E2 in Ap. split; [|by eapply applied_shows].
  eapply applied_ok; [exact H | done | | exact Ap]. intros _. right. intros i s c Ls Lc Of.
  destruct (hi_within _ H _ _ _ Ls Lc) as [_ W]. pose proof (proj1 Ne _ _ Lc Of). lia.
Qed.

(** C24: What an authoritative answer says is what is read back: written without an
    error, an observation newer than all of its quota, of the current cycle, of
    another window or of a later cycle, is the state a reader recovers, with its
    window, its reset, its percentage, higher or lower than before, and its time. *)
Theorem authoritative_reads_back (observation o : CodexMainQuotaObservation) (d d1 d2 : Db QuotaTables) (st : CodexQuotaHistoryState) :
  history_ok (dbTables d) ->
  normalizeCodexMainQuotaObservation observation = Ok o -> TrimSpace (obProvider observation) <> EmptyString ->
  obAuthoritative observation = true -> newest_observation (dbTables d) o ->
  WriteCodexMainQuotaObservations fault ctxErr now [observation] d = (d1, Ok tt) ->
  LoadLatestQuotaHistoryState fault (obProvider observation) (obAuthIndex observation) (obWindowRole observation) d1 = (d2, Ok st) ->
  st = mkHistoryState true (obWindowSeconds o) (obResetAtSource o) (obResetAt o) true (obRemainingPercent o) (obLastObservedAt o).
Proof.
  intros H N Nb Au Ne W L. unfold WriteCodexMainQuotaObservations in W. cbn [normalizeAll] in W. rewrite N in W. cbn in W.
  pose proof (normalized_valid _ _ N) as V.
  assert (obProvider o = ToLower (TrimSpace (obProvider observation)) /\ obAuthIndex o = TrimSpace (obAuthIndex observation)
    /\ obAuthoritative o = true
    /\ QuotaWindowKey (ToLower (TrimSpace (obProvider observation))) (ToLower (TrimSpace (obWindowRole observation))) = Some (obQuotaKey o)
    /\ TrimSpace (obAuthIndex observation) <> EmptyString) as (EP & EA & EAu & EK & NA).
  { unfold normalizeCodexMainQuotaObservation in N.
    assert (ToLower (TrimSpace (obProvider observation)) =?s EmptyString = false) as E
      by (apply String.eqb_neq; by intros E%ToLower_nil).
    rewrite E in N. repeat case_match; try done; injection N as <-; bool_split; by split_and!. }
  destruct (written_shows o d d1 H V EAu Ne W) as [H1 Sh].
  unfold LoadLatestQuotaHistoryState in L. cbn zeta in L.
  rewrite (proj2 (String.eqb_neq _ _) NA) in L. rewrite EK in L.
  destruct (shown_state _ _ H1 Sh) as (c & s & Hd & Tl & R). rewrite EP, EA in Hd.
  apply sql_try_ok in L as (c' & d3 & [E3 ->]%wrap_ok%query_ok & L). rewrite Hd in L.
  apply sql_try_ok in L as (s' & d4 & [E4 ->]%wrap_ok%query_ok & L). rewrite E3, Tl in L.
  apply ret_ok in L as [_ ->]. destruct_and!. congruence.
Qed.
End Back.

(** ** Examples *)

Lemma empty_ok : history_ok emptyQuotaTables.
Proof. split; [split; [done | split|..] | split|..]; intros; done. Qed.

Lemma instants_in_order t l : Forall (fun o => obFirstObservedAt o = obLastObservedAt o) l -> in_order t l.
Proof. intros All l1 o l2 -> _. left. apply Forall_app in All as [_ All]. by apply Forall_cons in All as [E _]. Qed.

Definition noFault : nat -> option string := fun _ => None.
Definition sampleObservation (resetAt percent at_ : Z) (authoritative : bool) : CodexMainQuotaObservation :=
  mkObservation "codex" EmptyString " a " "Primary" 18000 "absolute" (resetAt * Second) percent at_ at_ 1 authoritative.
Definition emptyDb : Db QuotaTables := mkDb emptyQuotaTables 0.


(** Two header values, then a lower one. *)
Lemma headers_only_extend_witness :
  let observations := [sampleObservation 20000 80 5 false; sampleObservation 20000 70 6 false] in
  extends emptyQuotaTables (dbTables (WriteCodexMainQuotaObservations noFault noFault (fun _ => 7) observations emptyDb).1).
Proof.
  intros observations. apply (headers_only_extend noFault noFault (fun _ => 7) observations emptyDb).
  - exact empty_ok.
  - by repeat constructor.
Defined.

(** An answer that raises the percentage a header had lowered. *)
Definition raisedDb : Db QuotaTables :=
  (WriteCodexMainQuotaObservations noFault noFault (fun _ => 7) [sampleObservation 20000 80 5 false] emptyDb).1.
Definition raisedBy : CodexMainQuotaObservation := sampleObservation 20100 90 6 true.

Lemma raised_ok : history_ok (dbTables raisedDb).
Proof.
  apply (batches_ok noFault noFault (fun _ => 7) 1 [mkObservation "codex" "rate_limit.primary_window" "a" "primary" 18000 "absolute" (20000 * Second) 80 5 5 1 false] emptyDb).
  split_and!; [exact empty_ok | repeat constructor; done | by apply instants_in_order; repeat constructor].
Qed.

Lemma authoritative_reads_back_witness :
  exists o d1 d2 st, normalizeCodexMainQuotaObservation raisedBy = Ok o
    /\ WriteCodexMainQuotaObservations noFault noFault (fun _ => 7) [raisedBy] raisedDb = (d1, Ok tt)
    /\ LoadLatestQuotaHistoryState noFault "codex" " a " "Primary" d1 = (d2, Ok st)
    /\ st = mkHistoryState true (obWindowSeconds o) (obResetAtSource o) (obResetAt o) true (obRemainingPercent o) (obLastObservedAt o).
Proof.
  destruct (normalizeCodexMainQuotaObservation raisedBy) as [o|] eqn:N; [|by vm_compute in N].
  destruct (WriteCodexMainQuotaObservations noFault noFault (fun _ => 7) [raisedBy] raisedDb) as [d1 [[]|]] eqn:W; [|by vm_compute in W].
  destruct (LoadLatestQuotaHistoryState noFault "codex" " a " "Primary" d1) as [d2 [st|]] eqn:L.
  2: { assert (d1 = (WriteCodexMainQuotaObservations noFault noFault (fun _ => 7) [raisedBy] raisedDb).1) as E by by rewrite W.
       rewrite E in L. by vm_compute in L. }
  exists o, d1, d2, st. split_and!; [done..|].
  apply (authoritative_reads_back noFault noFault (fun _ => 7) raisedBy o raisedDb d1 d2 st raised_ok N); [by vm_compute | done | | done | done].
  vm_compute in N. injection N as <-. split.
  - intros k c Lc _. vm_compute in Lc. repeat case_match; try done; by injection Lc as <-.
  - intros l Hl. left. vm_compute in Hl. injection Hl as <-. by vm_compute.
Defined.

(** Resets that drift back: a new cycle begins 121 seconds after the reset of the old
    one, two authoritative answers bring its reset back to that of the old one, and the
    second cannot be written. *)
Lemma calibration_collides :
  (WriteCodexMainQuotaObservations noFault noFault (fun _ => 7)
     [sampleObservation 20000 80 5 true; sampleObservation 20121 80 6 true; sampleObservation 20060 80 7 true;
      sampleObservation 20000 80 8 true] emptyDb).2
  = Err "write codex quota history batch: upgrade quota cycle boundary: constraint failed".
Proof. vm_compute. reflexivity. Qed.
