(* ===== verification/QuotaSampler.v ===== *)
(** Package quota, the sampler of the quota history: codex_quota_history.go,
    codex_quota_history_runner.go, codex_quota_history_scheduler.go and
    codex_quota_history_delete.go.

    One goroutine owns the state; producers push into two bounded queues under a short
    lock, and the tables are those of QuotaHistory.v, read and written statement by
    statement.  The lister of identities is a function of the service that tests replace:
    it is an argument here.  Times that are keys of a map stand for their instants. *)
From S2P Require Import Prelude GoStrings GoTime Timeutil Sql GoFloat IdentityStats Quota RefreshTasks QuotaHistory.
From stdpp Require Import gmap.
From Stdlib Require Import Floats.SpecFloat.

Local Open Scope string_scope.
Local Open Scope list_scope.
Local Open Scope Z_scope.

(** ** The observations of an answer *)

(** int(math.Round(x)) of a float that is finite. *)
Definition roundToInt (x : float64) : Z :=
  match x with
  | S754_finite s m e =>
      let magnitude := if 0 <=? e then Z.shiftl (Zpos m) e else Z.shiftr (Zpos m + 2 ^ (- e - 1)) (- e) in
      if s then - magnitude else magnitude
  | _ => 0
  end.

(** math.Max(0, math.Min(100, x)) *)
Definition clampPercent (x : float64) : float64 :=
  let x := if f64_lt x (f64_of_int 100) then x else f64_of_int 100 in
  if f64_lt f64_zero x then x else f64_zero.

(** The reset of a window and where it is from. *)
Definition windowReset (window : CodexUsageWindow) (observedAt : Time) : option (Time * string) :=
  if cwHasResetAt window && (0 <? cwResetAt window) then Some (unix_time (cwResetAt window), "absolute")
  else if cwHasResetAfterSeconds window && (0 <=? cwResetAfterSeconds window)
          && (cwResetAfterSeconds window <=? int64_max / Second)
  then Some (observedAt - observedAt mod Second + cwResetAfterSeconds window * Second, "relative")
  else None.

Definition buildCodexMainQuotaObservation (authIndex role : string) (window : option CodexUsageWindow) (observedAt : Time)
    : option CodexMainQuotaObservation :=
  if negb (role =?s "primary") && negb (role =?s "secondary") then None
  else
    let quotaKey := if role =?s "secondary" then "rate_limit.secondary_window" else "rate_limit.primary_window" in
    match window with
    | None => None
    | Some window =>
        if negb (cwHasUsedPercent window) || negb (cwHasLimitWindowSeconds window)
           || (negb (cwHasResetAt window) && negb (cwHasResetAfterSeconds window)) then None
        else if IsNaN (cwUsedPercent window) || IsInf (cwUsedPercent window) then None
        else if (cwLimitWindowSeconds window <=? 0) || (int64_max / Second <? cwLimitWindowSeconds window) then None
        else
          match windowReset window observedAt with
          | None => None
          | Some (resetAt, resetSource) =>
              if IsZero resetAt then None
              else Some (mkObservation "codex" quotaKey authIndex role (cwLimitWindowSeconds window) resetSource resetAt
                           (roundToInt (f64_sub (f64_of_int 100) (clampPercent (cwUsedPercent window))))
                           observedAt observedAt 1 false)
          end
    end.

Definition BuildCodexMainQuotaObservations (authIndex : string) (output : ProviderOutput) (observedAt : Time)
    : list CodexMainQuotaObservation :=
  let authIndex := TrimSpace authIndex in
  if (authIndex =?s EmptyString) || IsZero observedAt then []
  else
    match codexUsagePayloadFromProviderOutput output with
    | None => []
    | Some usage =>
        match cuRateLimit usage with
        | None => []
        | Some limit =>
            option_list (buildCodexMainQuotaObservation authIndex "primary" (rlmPrimaryWindow limit) observedAt)
            ++ option_list (buildCodexMainQuotaObservation authIndex "secondary" (rlmSecondaryWindow limit) observedAt)
        end
    end.

(** One round of the loop over the two windows of Claude. *)
Definition claudeObservation (authIndex role key : string) (seconds : Z) (value : option ClaudeUsageWindow) (observedAt : Time)
    : option CodexMainQuotaObservation :=
  match value with
  | None => None
  | Some value =>
      if negb (clHasUtilization value) || IsNaN (clUtilization value) || IsInf (clUtilization value) then None
      else
        match parse_rfc3339 (clResetsAt value) with
        | None => None
        | Some resetAt =>
            if IsZero resetAt then None
            else
              let window := mkCodexWindow (clUtilization value) seconds 0 (Unix resetAt) None None true true false true in
              match buildCodexMainQuotaObservation authIndex role (Some window) observedAt with
              | None => None
              | Some o => Some (mkObservation "claude" key (obAuthIndex o) (obWindowRole o) (obWindowSeconds o) (obResetAtSource o)
                                  (obResetAt o) (obRemainingPercent o) (obFirstObservedAt o) (obLastObservedAt o)
                                  (obObservationCount o) (obAuthoritative o))
              end
        end
  end.

Definition BuildMainQuotaObservations (authIndex : string) (output : ProviderOutput) (observedAt : Time)
    : list CodexMainQuotaObservation :=
  if (TrimSpace authIndex =?s EmptyString) || IsZero observedAt then []
  else
    match codexUsagePayloadFromProviderOutput output with
    | Some _ => BuildCodexMainQuotaObservations authIndex output observedAt
    | None =>
        let usage := match poResult output with
                     | ClaudeValue r => clUsage r
                     | ClaudePointer (Some r) => clUsage r
                     | _ => None
                     end in
        match usage with
        | None => []
        | Some usage =>
            option_list (claudeObservation authIndex "primary" "five_hour" quotaWindowFiveHourSeconds (cpFiveHour usage) observedAt)
            ++ option_list (claudeObservation authIndex "secondary" "seven_day" quotaWindowSevenDaySeconds (cpSevenDay usage) observedAt)
        end
    end.

(** ** Queue elements and keys *)

(** [hinSnapshot] is MainQuotaObservations of the snapshot; [None] is the source of a
    direct check, the empty string. *)
Record codexQuotaHistoryInput := mkHistoryInput {
  hinSnapshot : option (list CodexMainQuotaObservation);
  hinObservations : list CodexMainQuotaObservation;
  hinIdentityVerified : bool;
  hinSource : option RefreshSource;
}.

Record codexQuotaHistoryCandidate := mkCandidate {
  cdObservation : CodexMainQuotaObservation;
  cdIdentityVerified : bool;
  cdSource : option RefreshSource;
}.

Record codexQuotaHistoryStateKey := mkStateKey {
  skProvider : string;
  skQuotaKey : string;
  skAuthIndex : string;
  skWindowRole : string;
}.

#[export] Instance codexQuotaHistoryStateKey_eq_dec : EqDecision codexQuotaHistoryStateKey.
Proof. solve_decision. Defined.
#[export] Instance codexQuotaHistoryStateKey_countable : Countable codexQuotaHistoryStateKey :=
  inj_countable' (fun k => (skProvider k, skQuotaKey k, skAuthIndex k, skWindowRole k))
    (fun p => mkStateKey p.1.1.1 p.1.1.2 p.1.2 p.2) ltac:(by intros []).

(** codexQuotaHistoryCohortKey, a provider, an account and an instant. *)
Definition codexQuotaHistoryCohortKey : Type := string * string * Time.

Record codexQuotaHistoryCurrentState := mkCurrent {
  csFound : bool;
  csWindowSeconds : Z;
  csResetAtSource : string;
  csResetAt : Time;
  csHasTail : bool;
  csRemainingPercent : Z;
  csLastObservedAt : Time;
  csLastMaterializedAt : Time;
  csPendingIndex : Z;
}.

Record codexQuotaHistoryDeferredStable := mkDeferred {
  dfObservation : CodexMainQuotaObservation;
  dfImmediate : bool;
}.

Record codexQuotaHistoryRunnerState := mkRunnerState {
  rsCurrent : gmap codexQuotaHistoryStateKey codexQuotaHistoryCurrentState;
  rsStable : gmap codexQuotaHistoryStateKey codexQuotaHistoryDeferredStable;
}.

Definition newCodexQuotaHistoryRunnerState : codexQuotaHistoryRunnerState := mkRunnerState ∅ ∅.

Definition codexQuotaHistoryQueueSize : nat := 1024.
Definition codexQuotaHistoryHeartbeatInterval : Duration := 5 * Minute.
Definition codexQuotaHistoryResetTolerance : Duration := 120 * Second.

Definition codexQuotaHistorySourceIsAuthoritative (source : option RefreshSource) : bool :=
  match source with
  | Some RefreshSourceManual | Some RefreshSourceScheduled | Some RefreshSourceInspection => true
  | _ => false
  end.

Definition codexQuotaHistoryCandidateStateKey (candidate : codexQuotaHistoryCandidate) : codexQuotaHistoryStateKey :=
  let o := cdObservation candidate in
  let provider := ToLower (TrimSpace (obProvider o)) in
  let provider := if provider =?s EmptyString then "codex" else provider in
  let role := ToLower (TrimSpace (obWindowRole o)) in
  let quotaKey := match QuotaWindowKey provider role with
                  | None => EmptyString
                  | Some quotaKey => if negb (obQuotaKey o =?s EmptyString) && negb (obQuotaKey o =?s quotaKey)
                                     then EmptyString else quotaKey
                  end in
  mkStateKey provider quotaKey (TrimSpace (obAuthIndex o)) role.

Definition codexQuotaHistoryCandidateCohortKey (candidate : codexQuotaHistoryCandidate) : codexQuotaHistoryCohortKey :=
  let key := codexQuotaHistoryCandidateStateKey candidate in
  (skProvider key, skAuthIndex key, obLastObservedAt (cdObservation candidate)).

(** codexQuotaHistoryCandidates: the observations of the inputs in their order. *)
Definition candidatesOf (input : codexQuotaHistoryInput) : list codexQuotaHistoryCandidate :=
  map (fun o => mkCandidate o false (hinSource input)) (default [] (hinSnapshot input))
  ++ map (fun o => mkCandidate o (hinIdentityVerified input) (hinSource input)) (hinObservations input).

Definition codexQuotaHistoryCandidates (inputs : list codexQuotaHistoryInput) : list codexQuotaHistoryCandidate :=
  flat_map candidatesOf inputs.

Definition splitPreferredCodexQuotaHistoryCandidates (candidates : list codexQuotaHistoryCandidate)
    : list codexQuotaHistoryCandidate * list codexQuotaHistoryCandidate :=
  let isTrusted c := codexQuotaHistorySourceIsAuthoritative (cdSource c) in
  let trusted := List.filter isTrusted candidates in
  let trustedKeys : gset codexQuotaHistoryStateKey := list_to_set
    (List.filter (fun key => negb (skAuthIndex key =?s EmptyString) && negb (skQuotaKey key =?s EmptyString))
       (map codexQuotaHistoryCandidateStateKey trusted)) in
  match trusted with
  | [] => ([], candidates)
  | _ => (trusted, List.filter (fun c => negb (isTrusted c)
                     && negb (bool_decide (codexQuotaHistoryCandidateStateKey c ∈ trustedKeys))) candidates)
  end.

(** The order of sort.SliceStable over provider, account, role and a time. *)
Definition roleTimeLess (a b : string * string * string * Time) : bool :=
  if negb (a.1.1.1 =?s b.1.1.1) then string_lt a.1.1.1 b.1.1.1
  else if negb (a.1.1.2 =?s b.1.1.2) then string_lt a.1.1.2 b.1.1.2
  else if negb (a.1.2 =?s b.1.2) then string_lt a.1.2 b.1.2
  else a.2 <? b.2.

Definition candidateOrder (c : codexQuotaHistoryCandidate) : string * string * string * Time :=
  let key := codexQuotaHistoryCandidateStateKey c in
  (skProvider key, skAuthIndex key, skWindowRole key, obLastObservedAt (cdObservation c)).

Definition sortCodexQuotaHistoryCandidates : list codexQuotaHistoryCandidate -> list codexQuotaHistoryCandidate :=
  stableSort (fun a b => roleTimeLess (candidateOrder a) (candidateOrder b)).

(** ** Identities *)

(** The providers of the accounts, by account. *)
Definition verifiedProvidersOf (identities : list UsageIdentity) : gmap string string :=
  foldl (fun providers identity =>
    let provider := normalizeIdentityType (imType (uiMetadata identity)) in
    if negb (provider =?s "codex") && negb (provider =?s "claude") then providers
    else let authIndex := TrimSpace (uiIdentity identity) in
         if authIndex =?s EmptyString then providers else <[authIndex := provider]> providers) ∅ identities.

Definition verifyCodexQuotaHistoryCandidates (listIdentities : list string -> result string (list UsageIdentity))
    (candidates : list codexQuotaHistoryCandidate) : list codexQuotaHistoryCandidate :=
  let authIndexes := foldl (fun l c =>
    let authIndex := TrimSpace (obAuthIndex (cdObservation c)) in
    if cdIdentityVerified c || (authIndex =?s EmptyString) || bool_decide (authIndex ∈ l) then l else l ++ [authIndex])
    [] candidates in
  let verifiedProviders := match authIndexes with
                           | [] => ∅
                           | _ => match listIdentities authIndexes with
                                  | Err _ => ∅
                                  | Ok identities => verifiedProvidersOf identities
                                  end
                           end in
  List.filter (fun c =>
    let key := codexQuotaHistoryCandidateStateKey c in
    negb (skQuotaKey key =?s EmptyString)
    && (cdIdentityVerified c
        || match verifiedProviders !! skAuthIndex key with Some provider => provider =?s skProvider key | None => false end))
    candidates.

(** ** Merging *)

Definition setCurrent (key : codexQuotaHistoryStateKey) (current : codexQuotaHistoryCurrentState)
    (st : codexQuotaHistoryRunnerState) : codexQuotaHistoryRunnerState :=
  mkRunnerState (<[key := current]> (rsCurrent st)) (rsStable st).
Definition setStable (stable : gmap codexQuotaHistoryStateKey codexQuotaHistoryDeferredStable)
    (st : codexQuotaHistoryRunnerState) : codexQuotaHistoryRunnerState :=
  mkRunnerState (rsCurrent st) stable.

Definition codexQuotaHistoryStateFromObservation (o : CodexMainQuotaObservation) : codexQuotaHistoryCurrentState :=
  mkCurrent true (obWindowSeconds o) (obResetAtSource o) (obResetAt o) true (obRemainingPercent o) (obLastObservedAt o)
    zero_time (-1).

Definition codexQuotaHistoryTimeDistance (left right : Time) : Duration := timeDistance left right.

Definition codexQuotaHistorySameCycle (state : codexQuotaHistoryCurrentState) (o : CodexMainQuotaObservation) : bool :=
  if negb (csWindowSeconds state =? obWindowSeconds o) then false
  else codexQuotaHistoryTimeDistance (csResetAt state) (obResetAt o) <=? codexQuotaHistoryResetTolerance.

(** The observation under its key, as far as its source is trusted. *)
Definition observationUnder (key : codexQuotaHistoryStateKey) (authoritative : bool) (o : CodexMainQuotaObservation)
    : CodexMainQuotaObservation :=
  mkObservation (skProvider key) (skQuotaKey key) (skAuthIndex key) (skWindowRole key) (obWindowSeconds o) (obResetAtSource o)
    (obResetAt o) (obRemainingPercent o) (obFirstObservedAt o) (obLastObservedAt o) (obObservationCount o) authoritative.

Definition acceptable (o : CodexMainQuotaObservation) : bool :=
  negb ((obWindowSeconds o <=? 0) || (int64_max / Second <? obWindowSeconds o)
        || IsZero (obResetAt o) || (obRemainingPercent o <? 0) || (100 <? obRemainingPercent o)
        || (obObservationCount o <? 1) || IsZero (obFirstObservedAt o) || IsZero (obLastObservedAt o)
        || (obLastObservedAt o <? obFirstObservedAt o)).

Definition withCurrentBoundary (o : CodexMainQuotaObservation) (c : codexQuotaHistoryCurrentState) : codexQuotaHistoryCurrentState :=
  mkCurrent (csFound c) (csWindowSeconds c) (obResetAtSource o) (obResetAt o) (csHasTail c) (csRemainingPercent c)
    (csLastObservedAt c) (csLastMaterializedAt c) (csPendingIndex c).
Definition withLastObserved (t : Time) (c : codexQuotaHistoryCurrentState) : codexQuotaHistoryCurrentState :=
  mkCurrent (csFound c) (csWindowSeconds c) (csResetAtSource c) (csResetAt c) (csHasTail c) (csRemainingPercent c)
    t (csLastMaterializedAt c) (csPendingIndex c).
Definition withPendingIndex (i : Z) (c : codexQuotaHistoryCurrentState) : codexQuotaHistoryCurrentState :=
  mkCurrent (csFound c) (csWindowSeconds c) (csResetAtSource c) (csResetAt c) (csHasTail c) (csRemainingPercent c)
    (csLastObservedAt c) (csLastMaterializedAt c) i.
Definition withMaterialized (t : Time) (c : codexQuotaHistoryCurrentState) : codexQuotaHistoryCurrentState :=
  mkCurrent (csFound c) (csWindowSeconds c) (csResetAtSource c) (csResetAt c) (csHasTail c) (csRemainingPercent c)
    (csLastObservedAt c) t (csPendingIndex c).

Definition appendDeferredCodexQuotaHistoryStable (key : codexQuotaHistoryStateKey)
    (m : codexQuotaHistoryRunnerState * list CodexMainQuotaObservation)
    : codexQuotaHistoryRunnerState * list CodexMainQuotaObservation :=
  match rsStable m.1 !! key with
  | None => m
  | Some deferred => (setStable (delete key (rsStable m.1)) m.1, m.2 ++ [dfObservation deferred])
  end.

Definition appendCodexQuotaHistoryChange (key : codexQuotaHistoryStateKey) (current : codexQuotaHistoryCurrentState)
    (o : CodexMainQuotaObservation) (m : codexQuotaHistoryRunnerState * list CodexMainQuotaObservation)
    : codexQuotaHistoryRunnerState * list CodexMainQuotaObservation :=
  let pending := m.2 ++ [o] in
  let current :=
    if negb (csFound current) || negb (csWindowSeconds current =? obWindowSeconds o) || negb (codexQuotaHistorySameCycle current o)
    then codexQuotaHistoryStateFromObservation o
    else mkCurrent (csFound current) (csWindowSeconds current) (obResetAtSource o) (obResetAt o) true (obRemainingPercent o)
           (obLastObservedAt o) (csLastMaterializedAt current) (csPendingIndex current) in
  (setCurrent key (withPendingIndex (Z.of_nat (length pending) - 1) current) m.1, pending).

(** The merged observation that stays for later. *)
Definition mergedStable (d : codexQuotaHistoryDeferredStable) (o : CodexMainQuotaObservation) (immediate : bool)
    : codexQuotaHistoryDeferredStable :=
  let m := dfObservation d in
  let authoritative := obAuthoritative m || obAuthoritative o in
  let replaces := obAuthoritative o || ((obResetAtSource m =?s "relative") && (obResetAtSource o =?s "absolute")) in
  mkDeferred
    (mkObservation (obProvider m) (obQuotaKey m) (obAuthIndex m) (obWindowRole m) (obWindowSeconds m)
       (if replaces then obResetAtSource o else obResetAtSource m) (if replaces then obResetAt o else obResetAt m)
       (obRemainingPercent m) (obFirstObservedAt m) (obLastObservedAt o) (obObservationCount m + obObservationCount o)
       authoritative)
    (dfImmediate d || immediate).

Definition mergeDeferredCodexQuotaHistoryStable (key : codexQuotaHistoryStateKey) (o : CodexMainQuotaObservation)
    (immediate : bool) (st : codexQuotaHistoryRunnerState) : codexQuotaHistoryRunnerState :=
  setStable (<[key := match rsStable st !! key with
                      | None => mkDeferred o immediate
                      | Some d => mergedStable d o immediate
                      end]> (rsStable st)) st.

(** PendingIndex points into the batch. *)
Definition pendingPosition (current : codexQuotaHistoryCurrentState) (pending : list CodexMainQuotaObservation) : option nat :=
  if (0 <=? csPendingIndex current) && (csPendingIndex current <? Z.of_nat (length pending))
  then Some (Z.to_nat (csPendingIndex current)) else None.

(** The pending tail after a boundary of the same instant, and after another observation
    of the same percentage. *)
Definition calibrated (o m : CodexMainQuotaObservation) : CodexMainQuotaObservation :=
  mkObservation (obProvider m) (obQuotaKey m) (obAuthIndex m) (obWindowRole m) (obWindowSeconds m) (obResetAtSource o)
    (obResetAt o) (obRemainingPercent m) (obFirstObservedAt m) (obLastObservedAt m)
    (obObservationCount m + obObservationCount o) (obAuthoritative m || obAuthoritative o).
Definition mergedPending (boundaryUpdated : bool) (o m : CodexMainQuotaObservation) : CodexMainQuotaObservation :=
  mkObservation (obProvider m) (obQuotaKey m) (obAuthIndex m) (obWindowRole m) (obWindowSeconds m)
    (if boundaryUpdated then obResetAtSource o else obResetAtSource m) (if boundaryUpdated then obResetAt o else obResetAt m)
    (obRemainingPercent m) (obFirstObservedAt m) (obLastObservedAt o)
    (obObservationCount m + obObservationCount o) (obAuthoritative m || obAuthoritative o).
Definition withPercent (percent : Z) (o : CodexMainQuotaObservation) : CodexMainQuotaObservation :=
  mkObservation (obProvider o) (obQuotaKey o) (obAuthIndex o) (obWindowRole o) (obWindowSeconds o) (obResetAtSource o)
    (obResetAt o) percent (obFirstObservedAt o) (obLastObservedAt o) (obObservationCount o) (obAuthoritative o).

(** A change is written in this batch, behind what was deferred. *)
Definition materialize (key : codexQuotaHistoryStateKey) (current : codexQuotaHistoryCurrentState)
    (o : CodexMainQuotaObservation) (st : codexQuotaHistoryRunnerState) (pending : list CodexMainQuotaObservation)
    : codexQuotaHistoryRunnerState * list CodexMainQuotaObservation :=
  appendCodexQuotaHistoryChange key current o (appendDeferredCodexQuotaHistoryStable key (st, pending)).

(** mergeCodexQuotaHistoryObservation once the current state is known; the flag tells
    that something is written in this batch. *)
Definition mergeInto (key : codexQuotaHistoryStateKey) (current : codexQuotaHistoryCurrentState) (o : CodexMainQuotaObservation)
    (st : codexQuotaHistoryRunnerState) (pending : list CodexMainQuotaObservation)
    : codexQuotaHistoryRunnerState * list CodexMainQuotaObservation * bool :=
  let older := csHasTail current && (obLastObservedAt o <? csLastObservedAt current) in
  if negb (csFound current) then (materialize key current o st pending, true)
  else if negb (csWindowSeconds current =? obWindowSeconds o)
  then if older then (st, pending, false) else (materialize key current o st pending, true)
  else if negb (codexQuotaHistorySameCycle current o)
  then if older || (obResetAt o <? csResetAt current) then (st, pending, false)
       else (materialize key current o st pending, true)
  else if older then (st, pending, false)
  else
    let boundaryUpgraded := (csResetAtSource current =?s "relative") && (obResetAtSource o =?s "absolute") in
    let trustedCalibration := obAuthoritative o
      && (negb (csResetAtSource current =?s obResetAtSource o) || negb (csResetAt current =? obResetAt o)) in
    let boundaryUpdated := boundaryUpgraded || trustedCalibration in
    let current := if boundaryUpdated then withCurrentBoundary o current else current in
    if negb (csHasTail current) then (materialize key current o st pending, true)
    else if (csRemainingPercent current <? obRemainingPercent o) && obAuthoritative o
    then (materialize key current o st pending, true)
    else if obLastObservedAt o =? csLastObservedAt current
    then
      if boundaryUpdated
      then
        let '(st, pending) := appendDeferredCodexQuotaHistoryStable key (st, pending) in
        match pendingPosition current pending with
        | Some i => (setCurrent key current st, alter (calibrated o) i pending, true)
        | None =>
            let pending := pending ++ [withPercent (csRemainingPercent current) o] in
            (setCurrent key (withPendingIndex (Z.of_nat (length pending) - 1) current) st, pending, true)
        end
      else (st, pending, false)
    else if csRemainingPercent current <? obRemainingPercent o then (st, pending, false)
    else if obRemainingPercent o =? csRemainingPercent current
    then
      let '(st, pending, materialized) :=
        match pendingPosition current pending with
        | Some i => (st, alter (mergedPending boundaryUpdated o) i pending, true)
        | None => (mergeDeferredCodexQuotaHistoryStable key o (boundaryUpdated || obAuthoritative o) st, pending, false)
        end in
      (setCurrent key (withLastObserved (obLastObservedAt o) current) st, pending, materialized)
    else (materialize key current o st pending, true).

Section Batch.
Context (fault : nat -> option string) (ctxErr : nat -> option string) (now : nat -> Time).
Notation Sql := (Sql QuotaTables).
Local Open Scope sql_scope.

Definition loadCodexQuotaHistoryCurrentState (key : codexQuotaHistoryStateKey)
    : Sql (result string codexQuotaHistoryCurrentState) :=
  try$ recovered := LoadLatestQuotaHistoryState fault (skProvider key) (skAuthIndex key) (skWindowRole key) in
  sql_ret (Ok (if negb (hsFound recovered) then mkCurrent false 0 EmptyString zero_time false 0 zero_time zero_time (-1)
               else mkCurrent true (hsWindowSeconds recovered) (hsResetAtSource recovered) (hsResetAt recovered)
                      (hsHasTail recovered) (hsTailRemainingPercent recovered) (hsTailLastObservedAt recovered) zero_time (-1))).

(** A batch in the making: the state, the keys that could not be recovered, what will be
    written and the responses of which something is written. *)
Record Merging := mkMerging {
  mgState : codexQuotaHistoryRunnerState;
  mgFailed : gset codexQuotaHistoryStateKey;
  mgPending : list CodexMainQuotaObservation;
  mgMaterialized : gset codexQuotaHistoryCohortKey;
}.

(** The current state of a key, from memory or from the tables. *)
Definition currentOf (batchTime : Time) (key : codexQuotaHistoryStateKey) (m : Merging)
    : Sql (Merging * option codexQuotaHistoryCurrentState) :=
  match rsCurrent (mgState m) !! key with
  | Some current => sql_ret (m, Some current)
  | None =>
      if bool_decide (key ∈ mgFailed m) then sql_ret (m, None)
      else
        let$ recovered := loadCodexQuotaHistoryCurrentState key in
        match recovered with
        | Err _ => sql_ret (mkMerging (mgState m) ({[key]} ∪ mgFailed m) (mgPending m) (mgMaterialized m), None)
        | Ok current =>
            let current := if csFound current && csHasTail current then withMaterialized batchTime current else current in
            sql_ret (mkMerging (setCurrent key current (mgState m)) (mgFailed m) (mgPending m) (mgMaterialized m), Some current)
        end
  end.

Definition mergeCodexQuotaHistoryObservation (batchTime : Time) (m : Merging) (candidate : codexQuotaHistoryCandidate)
    : Sql (Merging * bool) :=
  let key := codexQuotaHistoryCandidateStateKey candidate in
  if (skAuthIndex key =?s EmptyString) || (skQuotaKey key =?s EmptyString) then sql_ret (m, false)
  else
    let o := observationUnder key (codexQuotaHistorySourceIsAuthoritative (cdSource candidate)) (cdObservation candidate) in
    if negb (acceptable o) then sql_ret (m, false)
    else
      let$ known := currentOf batchTime key m in
      match known.2 with
      | None => sql_ret (known.1, false)
      | Some current =>
          let '(st, pending, materialized) := mergeInto key current o (mgState known.1) (mgPending known.1) in
          sql_ret (mkMerging st (mgFailed known.1) pending (mgMaterialized known.1), materialized)
      end.

(** The loop over the candidates of a batch. *)
Fixpoint mergeAll (batchTime : Time) (m : Merging) (candidates : list codexQuotaHistoryCandidate) : Sql Merging :=
  match candidates with
  | [] => sql_ret m
  | c :: candidates =>
      let$ r := mergeCodexQuotaHistoryObservation batchTime m c in
      let m := r.1 in
      mergeAll batchTime (if r.2 then mkMerging (mgState m) (mgFailed m) (mgPending m)
                                        ({[codexQuotaHistoryCandidateCohortKey c]} ∪ mgMaterialized m)
                          else m) candidates
  end.

(** ** Writing a batch *)

Definition stableCohort (entry : codexQuotaHistoryStateKey * codexQuotaHistoryDeferredStable) : codexQuotaHistoryCohortKey :=
  (skProvider entry.1, skAuthIndex entry.1, obLastObservedAt (dfObservation entry.2)).

(** What was deferred of a response of which something is written goes with it. *)
Definition hurryCohorts (cohorts : gset codexQuotaHistoryCohortKey) (st : codexQuotaHistoryRunnerState)
    : codexQuotaHistoryRunnerState :=
  setStable (map_imap (fun key d => Some (if bool_decide (stableCohort (key, d) ∈ cohorts)
                                          then mkDeferred (dfObservation d) true else d)) (rsStable st)) st.

(** The loops read a missing current state as the zero value. *)
Definition stableDue (st : codexQuotaHistoryRunnerState) (batchTime : Time)
    (entry : codexQuotaHistoryStateKey * codexQuotaHistoryDeferredStable) : bool :=
  let last := match rsCurrent st !! entry.1 with Some c => csLastMaterializedAt c | None => zero_time end in
  dfImmediate entry.2 || IsZero last || negb (batchTime <? last + codexQuotaHistoryHeartbeatInterval).

Definition stableOrder (entry : codexQuotaHistoryStateKey * codexQuotaHistoryDeferredStable) : string * string * string * Time :=
  (EmptyString, skAuthIndex entry.1, skWindowRole entry.1, 0).

(** appendDueCodexQuotaHistoryStable: the entries that are due, in their order. *)
Definition appendDueCodexQuotaHistoryStable (st : codexQuotaHistoryRunnerState) (batchTime : Time) (all : bool)
    : list (codexQuotaHistoryStateKey * codexQuotaHistoryDeferredStable) :=
  let entries := map_to_list (rsStable st) in
  let dueCohorts : gset codexQuotaHistoryCohortKey :=
    list_to_set (map stableCohort (List.filter (fun e => all || stableDue st batchTime e) entries)) in
  stableSort (fun a b => roleTimeLess (stableOrder a) (stableOrder b))
    (List.filter (fun e => bool_decide (stableCohort e ∈ dueCohorts)) entries).

Definition pendingOrder (o : CodexMainQuotaObservation) : string * string * string * Time :=
  (obProvider o, obAuthIndex o, obWindowRole o, obFirstObservedAt o).

Definition observationKey (o : CodexMainQuotaObservation) : codexQuotaHistoryStateKey :=
  codexQuotaHistoryCandidateStateKey (mkCandidate o false None).

Definition flushCodexQuotaHistory (st : codexQuotaHistoryRunnerState) (pending : list CodexMainQuotaObservation)
    (stableKeys : list codexQuotaHistoryStateKey) (batchTime : Time) : Sql codexQuotaHistoryRunnerState :=
  match pending with
  | [] => sql_ret st
  | _ =>
      let pending := stableSort (fun a b => roleTimeLess (pendingOrder a) (pendingOrder b)) pending in
      let$ written := WriteCodexMainQuotaObservations fault ctxErr now pending in
      sql_ret
        match written with
        | Err _ =>
            foldl (fun st o => mkRunnerState (delete (observationKey o) (rsCurrent st)) (delete (observationKey o) (rsStable st)))
              st pending
        | Ok _ =>
            let st := setStable (foldl (fun m key => delete key m) (rsStable st) stableKeys) st in
            let current := foldl (fun m o =>
              match m !! observationKey o with
              | None => m
              | Some c => <[observationKey o := withPendingIndex (-1) (withMaterialized batchTime c)]> m
              end) (rsCurrent st) pending in
            mkRunnerState (withPendingIndex (-1) <$> current) (rsStable st)
        end
  end.

(** processCodexQuotaHistoryCandidateBatch *)
Definition processCodexQuotaHistoryCandidateBatch (listIdentities : list string -> result string (list UsageIdentity))
    (st : codexQuotaHistoryRunnerState) (candidates : list codexQuotaHistoryCandidate) (batchTime : Time) (flushAllStable : bool)
    : Sql codexQuotaHistoryRunnerState :=
  let verified := sortCodexQuotaHistoryCandidates (verifyCodexQuotaHistoryCandidates listIdentities candidates) in
  let$ m := mergeAll batchTime (mkMerging st ∅ [] ∅) verified in
  let st := hurryCohorts (mgMaterialized m) (mgState m) in
  let due := appendDueCodexQuotaHistoryStable st batchTime flushAllStable in
  flushCodexQuotaHistory st (mgPending m ++ map (fun e => dfObservation e.2) due) (map fst due) batchTime.

Definition processPreferredCodexQuotaHistoryInputs (listIdentities : list string -> result string (list UsageIdentity))
    (st : codexQuotaHistoryRunnerState) (inputs : list codexQuotaHistoryInput) (batchTime : Time) (shutdown : bool)
    : Sql codexQuotaHistoryRunnerState :=
  let '(trusted, headers) := splitPreferredCodexQuotaHistoryCandidates (codexQuotaHistoryCandidates inputs) in
  processCodexQuotaHistoryCandidateBatch listIdentities st (trusted ++ headers) batchTime shutdown.

(** ** Deleting a cycle *)

Definition currentObservation (key : codexQuotaHistoryStateKey) (c : codexQuotaHistoryCurrentState) : CodexMainQuotaObservation :=
  mkObservation (skProvider key) (skQuotaKey key) (skAuthIndex key) (skWindowRole key) (csWindowSeconds c) EmptyString
    (csResetAt c) 0 zero_time zero_time 0 false.

(** What the memory forgets about a deleted cycle. *)
Definition forgetCycle (deletion : CodexQuotaCycleDeletion) (st : codexQuotaHistoryRunnerState) : codexQuotaHistoryRunnerState :=
  let cycle := deCycle deletion in
  let role := default EmptyString (QuotaWindowRole (qcProvider cycle) (qcQuotaKey cycle)) in
  let key := mkStateKey (qcProvider cycle) (qcQuotaKey cycle) (qcAuthIndex cycle) role in
  let current := match rsCurrent st !! key with
                 | Some c => if csFound c && MatchesObservation deletion (currentObservation key c)
                             then delete key (rsCurrent st) else rsCurrent st
                 | None => rsCurrent st
                 end in
  let stable := match rsStable st !! key with
                | Some d => if MatchesObservation deletion (dfObservation d) then delete key (rsStable st) else rsStable st
                | None => rsStable st
                end in
  mkRunnerState current stable.

(** clearQueuedCodexQuotaHistoryCycle *)
Definition clearInput (deletion : CodexQuotaCycleDeletion) (input : codexQuotaHistoryInput) : option codexQuotaHistoryInput :=
  match List.filter (fun o => negb (MatchesObservation deletion o)) (default [] (hinSnapshot input) ++ hinObservations input) with
  | [] => None
  | remaining => Some (mkHistoryInput None remaining (hinIdentityVerified input) (hinSource input))
  end.

Definition clearQueuedCodexQuotaHistoryCycle (deletion : CodexQuotaCycleDeletion) (queue : list codexQuotaHistoryInput)
    : list codexQuotaHistoryInput := omap (clearInput deletion) queue.

(** deleteCodexQuotaHistoryCycle up to the clearing of the queue. *)
Definition deleteCodexQuotaHistoryCycle (st : codexQuotaHistoryRunnerState) (provider authIndex : string) (cycleID : Z)
    : Sql (codexQuotaHistoryRunnerState * option CodexQuotaCycleDeletion) :=
  let$ deleted := DeleteQuotaCycle fault provider authIndex cycleID in
  sql_ret match deleted with
          | Err _ => (st, None)
          | Ok deletion => (forgetCycle deletion st, Some deletion)
          end.
End Batch.

(** DeleteCodexQuotaHistoryCycle up to the request: what the runner is asked to delete. *)
Inductive HistoryDeleteError := DeleteInvalid | DeleteNotFound | DeleteUnsupportedType | DeleteFailed (e : string).

Definition historyDeleteRequest (identity : result string (option UsageIdentity)) (authIndex : string) (cycleID : Z)
    : result HistoryDeleteError (string * string * Z) :=
  let authIndex := TrimSpace authIndex in
  if (authIndex =?s EmptyString) || (cycleID <=? 0) then Err DeleteInvalid
  else match identity with
       | Err e => Err (DeleteFailed e)
       | Ok None => Err DeleteNotFound
       | Ok (Some identity) =>
           let provider := normalizeIdentityType (imType (uiMetadata identity)) in
           if negb (provider =?s "codex") && negb (provider =?s "claude") then Err DeleteUnsupportedType
           else Ok (provider, authIndex, cycleID)
       end.

(** ** The runner and its producers *)

(** Where the goroutine of the runner is: at the select of the loop, between the header
    notification and the lock, waiting for the end of the minute, about to lock the
    queues, receiving what it counted, between a deletion and the clearing of the queue
    ([true]: it came from the wait), or gone. *)
Inductive SamplerPhase :=
| Selecting
| Noticed
| Collecting
| Fixing (shutdown : bool)
| Receiving (shutdown : bool) (headers trusted : nat) (inputs : list codexQuotaHistoryInput)
| Clearing (collecting : bool) (deletion : CodexQuotaCycleDeletion)
| Stopped.

(** A producer that holds the lock over a full header queue, before and after it drops
    the head. *)
Inductive Overflow :=
| QueueFull (input : codexQuotaHistoryInput)
| HeadDropped (input : codexQuotaHistoryInput).

Record Sampler := mkSampler {
  sqDb : Db QuotaTables;
  sqState : codexQuotaHistoryRunnerState;
  sqHeaders : list codexQuotaHistoryInput;
  sqTrusted : list codexQuotaHistoryInput;
  sqHeaderWake : bool;
  sqTrustedWake : bool;
  sqClosing : bool;
  sqOverflow : option Overflow;
  sqPhase : SamplerPhase;
}.

Definition setPhase (p : SamplerPhase) (s : Sampler) : Sampler :=
  mkSampler (sqDb s) (sqState s) (sqHeaders s) (sqTrusted s) (sqHeaderWake s) (sqTrustedWake s) (sqClosing s) (sqOverflow s) p.
Definition setHeaders (q : list codexQuotaHistoryInput) (wake : bool) (s : Sampler) : Sampler :=
  mkSampler (sqDb s) (sqState s) q (sqTrusted s) wake (sqTrustedWake s) (sqClosing s) (sqOverflow s) (sqPhase s).
Definition setTrusted (q : list codexQuotaHistoryInput) (wake : bool) (s : Sampler) : Sampler :=
  mkSampler (sqDb s) (sqState s) (sqHeaders s) q (sqHeaderWake s) wake (sqClosing s) (sqOverflow s) (sqPhase s).
Definition setOverflow (o : option Overflow) (s : Sampler) : Sampler :=
  mkSampler (sqDb s) (sqState s) (sqHeaders s) (sqTrusted s) (sqHeaderWake s) (sqTrustedWake s) (sqClosing s) o (sqPhase s).
Definition setRunner (d : Db QuotaTables) (st : codexQuotaHistoryRunnerState) (s : Sampler) : Sampler :=
  mkSampler d st (sqHeaders s) (sqTrusted s) (sqHeaderWake s) (sqTrustedWake s) (sqClosing s) (sqOverflow s) (sqPhase s).
Definition setClosing (s : Sampler) : Sampler :=
  mkSampler (sqDb s) (sqState s) (sqHeaders s) (sqTrusted s) (sqHeaderWake s) (sqTrustedWake s) true (sqOverflow s) (sqPhase s).

Definition newSampler (t : QuotaTables) : Sampler :=
  mkSampler (mkDb t 0) newCodexQuotaHistoryRunnerState [] [] false false false None Selecting.

(** The windows that are sampled, and an observation as BuildMainQuotaObservations makes it:
    of one of them and of one instant. *)
Definition knownWindows : list (string * string * string) :=
  [("codex", "primary", "rate_limit.primary_window"); ("codex", "secondary", "rate_limit.secondary_window");
   ("claude", "primary", "five_hour"); ("claude", "secondary", "seven_day")].

Definition built (o : CodexMainQuotaObservation) : Prop :=
  (obProvider o, obWindowRole o, obQuotaKey o) ∈ knownWindows /\ obFirstObservedAt o = obLastObservedAt o.

Definition observationsOf (input : codexQuotaHistoryInput) : list CodexMainQuotaObservation :=
  default [] (hinSnapshot input) ++ hinObservations input.

(** What tryAppendCodexQuotaHistorySnapshot and tryAppendCodexQuotaHistoryObservations offer. *)
Definition offeredInput (input : codexQuotaHistoryInput) : Prop :=
  observationsOf input <> [] /\ Forall built (observationsOf input).

Section Runner.
(** The capacity of both queues, at least 1. *)
Context (size : nat).
Context (fault : nat -> option string) (ctxErr : nat -> option string) (now : nat -> Time).

(** tryAppendCodexQuotaHistoryInput: the lock is free, or held by the producer that
    overflows. *)
Inductive producer_step : Sampler -> Sampler -> Prop :=
| append_trusted s input : offeredInput input -> sqOverflow s = None -> sqClosing s = false ->
    codexQuotaHistorySourceIsAuthoritative (hinSource input) = true -> (length (sqTrusted s) < size)%nat ->
    producer_step s (setTrusted (sqTrusted s ++ [input]) true s)
| append_header s input : offeredInput input -> sqOverflow s = None -> sqClosing s = false ->
    codexQuotaHistorySourceIsAuthoritative (hinSource input) = false -> (length (sqHeaders s) < size)%nat ->
    producer_step s (setHeaders (sqHeaders s ++ [input]) true s)
| append_overflows s input : offeredInput input -> sqOverflow s = None -> sqClosing s = false ->
    codexQuotaHistorySourceIsAuthoritative (hinSource input) = false -> (length (sqHeaders s) = size)%nat ->
    producer_step s (setOverflow (Some (QueueFull input)) s)
| append_drops_head s input : sqOverflow s = Some (QueueFull input) ->
    producer_step s (setOverflow (Some (HeadDropped input)) (setHeaders (tail (sqHeaders s)) (sqHeaderWake s) s))
| append_again s input : sqOverflow s = Some (HeadDropped input) -> (length (sqHeaders s) < size)%nat ->
    producer_step s (setOverflow None (setHeaders (sqHeaders s ++ [input]) true s))
| append_refused s input : sqOverflow s = Some (HeadDropped input) -> (length (sqHeaders s) = size)%nat ->
    producer_step s (setOverflow None s).

(** stopCodexQuotaHistoryRunner *)
Inductive stop_step : Sampler -> Sampler -> Prop :=
| stop_closes s : sqOverflow s = None -> stop_step s (setClosing s).

(** runCodexQuotaHistoryRunner *)
Inductive runner_step : Sampler -> Sampler -> Prop :=
| notice_header s : sqPhase s = Selecting -> sqHeaderWake s = true ->
    runner_step s (setPhase Noticed (setHeaders (sqHeaders s) false s))
| notice_nothing s : sqPhase s = Noticed -> sqOverflow s = None -> sqHeaders s = [] ->
    runner_step s (setPhase Selecting s)
| start_collecting s : sqPhase s = Noticed -> sqOverflow s = None -> sqHeaders s <> [] ->
    runner_step s (setPhase Collecting s)
| minute_passes s : sqPhase s = Collecting -> runner_step s (setPhase (Fixing false) s)
| notice_trusted s : sqPhase s = Selecting \/ sqPhase s = Collecting -> sqTrustedWake s = true ->
    runner_step s (setPhase (Fixing false) (setTrusted (sqTrusted s) false s))
| notice_stop s : sqPhase s = Selecting \/ sqPhase s = Collecting -> sqClosing s = true ->
    runner_step s (setPhase (Fixing true) s)
| fix_counts s shutdown : sqPhase s = Fixing shutdown -> sqOverflow s = None ->
    runner_step s (setPhase (Receiving shutdown (length (sqHeaders s)) (length (sqTrusted s)) [])
                     (setTrusted (sqTrusted s) false (setHeaders (sqHeaders s) false s)))
| receive_header s shutdown headers trusted inputs input queue :
    sqPhase s = Receiving shutdown (S headers) trusted inputs -> sqHeaders s = input :: queue ->
    runner_step s (setPhase (Receiving shutdown headers trusted (inputs ++ [input])) (setHeaders queue (sqHeaderWake s) s))
| receive_trusted s shutdown trusted inputs input queue :
    sqPhase s = Receiving shutdown 0 (S trusted) inputs -> sqTrusted s = input :: queue ->
    runner_step s (setPhase (Receiving shutdown 0 trusted (inputs ++ [input])) (setTrusted queue (sqTrustedWake s) s))
| process_batch s (shutdown : bool) inputs listIdentities batchTime d st :
    sqPhase s = Receiving shutdown 0 0 inputs ->
    processPreferredCodexQuotaHistoryInputs fault ctxErr now listIdentities (sqState s) inputs batchTime shutdown (sqDb s) = (d, st) ->
    runner_step s (setPhase (if shutdown then Stopped else Selecting) (setRunner d st s))
| clear_queue s collecting deletion : sqPhase s = Clearing collecting deletion -> sqOverflow s = None ->
    runner_step s (setPhase (if collecting : bool then Collecting else Selecting)
                     (setHeaders (clearQueuedCodexQuotaHistoryCycle deletion (sqHeaders s)) (sqHeaderWake s) s)).

(** A request of DeleteCodexQuotaHistoryCycle is taken. *)
Inductive delete_step : Sampler -> Sampler -> Prop :=
| delete_cycle s provider authIndex cycleID d st deletion :
    sqPhase s = Selecting \/ sqPhase s = Collecting ->
    deleteCodexQuotaHistoryCycle fault (sqState s) provider authIndex cycleID (sqDb s) = (d, (st, deletion)) ->
    delete_step s (setPhase match deletion with
                            | None => sqPhase s
                            | Some deletion => Clearing (match sqPhase s with Collecting => true | _ => false end) deletion
                            end (setRunner d st s)).

Definition sampler_step (s s' : Sampler) : Prop := producer_step s s' \/ stop_step s s' \/ runner_step s s' \/ delete_step s s'.
End Runner.
