(* ===== verification/QuotaSamplerFacts.v ===== *)
(** The sampler of the quota history: what it writes keeps the history in order, nothing
    that was accepted is stranded, and nothing is deferred beyond its time. *)
From S2P Require Import Prelude GoStrings GoTime Timeutil Sql GoFloat IdentityStats Quota RefreshTasks QuotaHistory QuotaHistoryFacts QuotaSampler.
From stdpp Require Import sorting gmap relations.

Local Open Scope string_scope.
Local Open Scope list_scope.
Local Open Scope Z_scope.

#[local] Arguments TrimSpace : simpl never.
#[local] Arguments ToLower : simpl never.
#[local] Arguments QuotaWindowKey : simpl never.

(** ** What a write leaves, observation by observation *)

Inductive applied_all : list CodexMainQuotaObservation -> QuotaTables -> QuotaTables -> Prop :=
| applied_none t : applied_all [] t t
| applied_cons o l t t1 t2 : applied o t t1 -> applied_all l t1 t2 -> applied_all (o :: l) t t2.

Lemma applied_all_app l1 l2 t t1 t2 : applied_all l1 t t1 -> applied_all l2 t1 t2 -> applied_all (l1 ++ l2) t t2.
Proof. induction 1; [done|]. intros. cbn. econstructor; eauto. Qed.

(** Every cycle was last observed when one of its segments ends. *)
Definition reached (t : QuotaTables) : Prop :=
  forall k c, qtCycles t !! k = Some c -> exists i s, qtSegments t !! i = Some s /\ sgCycleID s = k /\ qcLastObservedAt c <= sgLastObservedAt s.

Lemma step_reaches o k t t2 : history_ok t -> segments_step o k t (Some t2) ->
  (exists i s, qtSegments t2 !! i = Some s /\ sgCycleID s = k /\ sgLastObservedAt s = obLastObservedAt o)
  /\ (forall i s, qtSegments t !! i = Some s -> sgCycleID s <> k -> qtSegments t2 !! i = Some s).
Proof.
  intros H St. pose proof (hi_sane _ H) as Sa.
  assert (forall i s, qtSegments t !! i = Some s -> i <> qtNextSegment t) as Fresh.
  { intros i s L ->. destruct (sa_segments _ Sa _ _ L). lia. }
  assert (forall (m : gmap Z QuotaPercentSegment) at_, (forall i s, m !! i = Some s -> qtSegments t !! i = Some s) ->
    (forall i s, qtSegments t !! i = Some s -> sgCycleID s <> k -> m !! i = Some s) ->
    let m2 := <[qtNextSegment t := newQuotaPercentSegment k o at_ (qtNextSegment t)]> m in
    (exists i s, m2 !! i = Some s /\ sgCycleID s = k /\ sgLastObservedAt s = obLastObservedAt o)
    /\ (forall i s, qtSegments t !! i = Some s -> sgCycleID s <> k -> m2 !! i = Some s)) as New.
  { intros m at_ Sub Rest m2. split.
    - exists (qtNextSegment t), (newQuotaPercentSegment k o at_ (qtNextSegment t)). split; [apply lookup_insert_eq | done].
    - intros i s L Ne. unfold m2. rewrite lookup_insert_ne; [by apply Rest | intros <-; by eapply Fresh]. }
  assert (forall (m : gmap Z QuotaPercentSegment) at_ i0 s0, m !! i0 = Some s0 -> sgCycleID s0 = k ->
    (forall i s, m !! i = Some s -> qtSegments t !! i = Some s) ->
    (forall i s, qtSegments t !! i = Some s -> sgCycleID s <> k -> m !! i = Some s) ->
    let m2 := <[i0 := extended o at_ s0]> m in
    (exists i s, m2 !! i = Some s /\ sgCycleID s = k /\ sgLastObservedAt s = obLastObservedAt o)
    /\ (forall i s, qtSegments t !! i = Some s -> sgCycleID s <> k -> m2 !! i = Some s)) as Ext.
  { intros m at_ i0 s0 L0 C Sub Rest m2. split.
    - exists i0, (extended o at_ s0). split; [apply lookup_insert_eq | done].
    - intros i s L Ne. unfold m2. rewrite lookup_insert_ne; [by apply Rest|]. intros <-.
      rewrite (Sub _ _ L0) in L. injection L as <-. done. }
  inversion St as [|at_ Tl E|tail at_ Tl Late Low E|tail at_ Tl Late Eq E|tail at_ t1 t2' Tl Le Au Lt T1 T2 E]; subst; cbn.
  - by apply New.
  - by apply New.
  - destruct (tail_last _ _ _ H Tl) as (Lt & Ct & _). by apply Ext.
  - set (m := filter _ (qtSegments t)) in *.
    assert (forall i s, m !! i = Some s -> qtSegments t !! i = Some s) as Sub by (by intros i s [? _]%map_lookup_filter_Some).
    assert (forall i s, qtSegments t !! i = Some s -> sgCycleID s <> k -> m !! i = Some s) as Rest.
    { intros i s L Ne. apply map_lookup_filter_Some. split; [done|]. cbn. by replace (sgCycleID s =? k) with false by lia. }
    destruct (head _) as [target|] eqn:Hd.
    + destruct T2 as (s & Ls & ->). cbn.
      assert (target ∈ segmentsWhere (fun s => (sgCycleID s =? k) && (sgRemainingPercent s =? obRemainingPercent o)) (setSegments m t)) as In by (by apply head_in).
      apply in_segmentsWhere in In as [P [j Lj]]. cbn in Lj, Ls. bool_split.
      pose proof (proj2 (sa_keyed _ Sa) _ _ (Sub _ _ Lj)) as Id. rewrite Id in Ls. rewrite Lj in Ls. injection Ls as <-.
      rewrite Id. by apply Ext.
    + subst t2. by apply New.
Qed.

Lemma step_cycles o k t t2 : segments_step o k t (Some t2) -> qtCycles t2 = qtCycles t /\ qtNextCycle t2 = qtNextCycle t.
Proof.
  intros St. inversion St as [|at_ Tl E|tail at_ Tl Late Low E|tail at_ Tl Late Eq E|tail at_ t1 t2' Tl Le Au Lt T1 T2 E]; subst; try done.
  destruct (head _); [destruct T2 as (? & _ & ->)|subst t2]; done.
Qed.

Lemma applied_reached o t t' : history_ok t -> applied o t t' -> reached t -> reached t'.
Proof.
  intros H A R. pose proof (hi_sane _ H) as Sa.
  destruct A as [|at_ at' k Al|k c c1 t1 next L Of M Le Up T1 St t' Fin]; [done| |].
  - intros k' c' L; cbn in L. apply lookup_insert_Some in L as [[<- <-]|[Ne L]]; cbn.
    + eexists _, _. split; [apply lookup_insert_eq|]. by split.
    + destruct (R _ _ L) as (i & s & Ls & C & Last). exists i, s. split; [|done].
      rewrite lookup_insert_ne; [done|]. intros <-. destruct (sa_segments _ Sa _ _ Ls). lia.
  - assert (history_ok t1) as H1 by (subst t1; by eapply boundary_ok).
    assert (reached t1) as R1.
    { subst t1. intros k' c' L'; cbn in L'. apply lookup_insert_Some in L' as [[<- <-]|[Ne L']]; cbn; [|by apply R].
      destruct (R _ _ L) as (i & s & ? & ? & ?). exists i, s. split_and!; [done | done|].
      destruct Up as [[-> _]|(at_ & _ & -> & _)]; done. }
    destruct next as [t2|]; [|by subst t']. destruct Fin as (at_ & _ & ->).
    destruct (step_reaches _ _ _ _ H1 St) as [(i & s & Ls & Cs & Las) Rest].
    assert (forall k' c', qtCycles t2 !! k' = Some c' -> qtCycles t1 !! k' = Some c') as Cy.
    { destruct (step_cycles _ _ _ _ St) as [E _]. by rewrite E. }
    intros k' c' L'; cbn in L'. apply lookup_insert_Some in L' as [[<- <-]|[Ne L']]; cbn.
    + exists i, s. split_and!; [done | done|]. cbn. lia.
    + destruct (R1 _ _ (Cy _ _ L')) as (j & s' & Ls' & Cs' & ?). exists j, s'. split_and!; [|done | done].
      apply Rest; [done | congruence].
Qed.

Lemma applied_all_ready l1 l2 t t' : ready (l1 ++ l2) t -> reached t -> applied_all l1 t t' -> ready l2 t' /\ reached t'.
Proof.
  intros R Re A. induction A as [t|o l t t1 t2 A _ IH]; [done|]. apply IH.
  - by eapply ready_step.
  - eapply applied_reached; [apply R | exact A | done].
Qed.

Lemma applied_all_until l1 l2 t t' o' limit : ready (l1 ++ l2) t -> applied_all l1 t t' -> recorded_until t o' limit ->
  (forall o, o ∈ l1 -> same_quota o o' -> obLastObservedAt o <= limit) -> recorded_until t' o' limit.
Proof.
  intros R A. induction A as [t|o l t t1 t2 A _ IH]; [done|]. intros U Q. pose proof R as (H & V & Ord). apply IH.
  - by eapply ready_step.
  - apply Forall_cons in V as [Vo _]. eapply applied_until; [done | exact Vo | | exact A | done | intros; apply Q; [left | done]].
    intros Au. destruct (Ord [] o (l ++ l2) eq_refl Au) as [E|[S _]]; [by left | by right].
  - intros o1 In. apply Q. by right.
Qed.

Section Written.
Context (fault : nat -> option string) (ctxErr : nat -> option string) (now : nat -> Time).

Lemma each_applied l rest d d' : for_each (applyCodexMainQuotaObservation fault now) l d = (d', Ok tt) ->
  ready (l ++ rest) (dbTables d) -> applied_all l (dbTables d) (dbTables d').
Proof.
  revert d. induction l as [|o l IH]; intros d; cbn [for_each app].
  - intros [-> _]%ret_ok _. constructor.
  - intros ([] & d1 & Ap & H)%sql_try_ok R. assert (applied o (dbTables d) (dbTables d1)) as A by (eapply apply_ok; [exact Ap | apply R]).
    econstructor; [exact A|]. eapply IH; [exact H|]. by eapply ready_step.
Qed.

Lemma batches_applied n l d : ready l (dbTables d) -> reached (dbTables d) ->
  exists l1 l2, l = l1 ++ l2 /\ applied_all l1 (dbTables d) (dbTables (writeBatches fault ctxErr now n l d).1).
Proof.
  revert l d. induction n as [|n IH]; intros l d R Re.
  { exists [], l. split; [done|]. destruct l; constructor. }
  assert (exists l1 l2, l = l1 ++ l2 /\ applied_all l1 (dbTables d) (dbTables d)) as None by (exists [], l; split; [done | constructor]).
  destruct l as [|o l]; [done|]. cbn [writeBatches]. destruct (ctxErr (dbClock d)); [done|].
  set (l0 := o :: l) in *. unfold sql_try, wrap. destruct (transaction _ _ d) as [d1 [[]|e]] eqn:Tr.
  - apply transaction_ok in Tr as (d2 & d3 & E2 & Ea & E3).
    assert (applied_all (take codexQuotaHistoryWriteBatchSize l0) (dbTables d) (dbTables d1)) as A.
    { rewrite E3, <- E2. eapply (each_applied _ (drop codexQuotaHistoryWriteBatchSize l0)); [exact Ea|]. by rewrite take_drop, E2. }
    rewrite <- (take_drop codexQuotaHistoryWriteBatchSize l0) in R.
    destruct (applied_all_ready _ _ _ _ R Re A) as [R1 Re1].
    destruct (IH _ d1 R1 Re1) as (l1 & l2 & E & A1).
    exists (take codexQuotaHistoryWriteBatchSize l0 ++ l1), l2.
    rewrite <- app_assoc, <- E, take_drop. split; [done|]. by eapply applied_all_app.
  - apply transaction_err in Tr. cbn. by rewrite Tr.
Qed.
End Written.

(** ** Keys, and what the tables hold of one *)

Definition key_ok (k : codexQuotaHistoryStateKey) : Prop :=
  (skProvider k, skWindowRole k, skQuotaKey k) ∈ knownWindows /\ TrimSpace (skAuthIndex k) = skAuthIndex k.

Definition under (k : codexQuotaHistoryStateKey) (o : CodexMainQuotaObservation) : Prop :=
  obProvider o = skProvider k /\ obQuotaKey o = skQuotaKey k /\ obAuthIndex o = skAuthIndex k /\ obWindowRole o = skWindowRole k.

Lemma under_inj k k' o : under k o -> under k' o -> k = k'.
Proof. destruct k, k'. unfold under. cbn. intros (-> & -> & -> & ->) (-> & -> & -> & ->). done. Qed.

Ltac known_window H :=
  unfold knownWindows in H; rewrite !elem_of_cons, elem_of_nil in H; destruct H as [H|[H|[H|[H|[]]]]]; simplify_eq.

Lemma key_normal k : key_ok k -> ToLower (TrimSpace (skProvider k)) = skProvider k
  /\ ToLower (TrimSpace (skWindowRole k)) = skWindowRole k /\ QuotaWindowKey (skProvider k) (skWindowRole k) = Some (skQuotaKey k)
  /\ skProvider k <> EmptyString /\ skQuotaKey k <> EmptyString.
Proof. intros [In _]. destruct k as [p q a r]. cbn in *. known_window In; done. Qed.

Lemma key_by_quota k k' : key_ok k -> key_ok k' -> skProvider k = skProvider k' -> skAuthIndex k = skAuthIndex k' ->
  skQuotaKey k = skQuotaKey k' -> k = k'.
Proof.
  intros [In _] [In' _]. destruct k as [p q a r], k' as [p' q' a' r']. cbn in *. intros <- <- <-.
  known_window In; known_window In'; done.
Qed.

Lemma observationKey_under k o : key_ok k -> under k o -> observationKey o = k.
Proof.
  intros [In Tr] (P & Q & A & R). destruct k as [p q a r]. cbn in *. unfold observationKey, codexQuotaHistoryCandidateStateKey.
  cbn [cdObservation]. rewrite P, Q, A, R, Tr. clear P Q R. known_window In; done.
Qed.

Definition until (t : QuotaTables) (k : codexQuotaHistoryStateKey) (limit : Time) : Prop :=
  forall i s c, qtSegments t !! i = Some s -> qtCycles t !! sgCycleID s = Some c ->
    ofQuota (skProvider k) (skAuthIndex k) (skQuotaKey k) c = true -> sgLastObservedAt s <= limit.

Lemma until_under t k o limit : under k o -> until t k limit <-> recorded_until t o limit.
Proof. intros (P & Q & A & R). unfold until, recorded_until. by rewrite P, Q, A. Qed.

Lemma until_without t j k limit : until t k limit -> until (without j t) k limit.
Proof. intros U i s c Ls Lc. unfold without in *. cbn in *. apply map_lookup_filter_Some in Ls as [Ls _]. apply lookup_delete_Some in Lc as [_ Lc]. by eapply U. Qed.

Lemma reached_without t j : reached t -> reached (without j t).
Proof.
  intros R k c L. unfold without in *. cbn in *. apply lookup_delete_Some in L as [Ne L]. destruct (R _ _ L) as (i & s & Ls & C & Le). exists i, s. split; [|done].
  apply map_lookup_filter_Some. split; [done|]. cbn. lia.
Qed.

Lemma newest_head p t c : head (cyclesWhere p t) = Some c ->
  forall k' c', qtCycles t !! k' = Some c' -> p c' = true -> qcLastObservedAt c' <= qcLastObservedAt c.
Proof.
  intros Hd k' c' L P. assert (c' ∈ cyclesWhere p t) as In by (apply in_cyclesWhere; split; [done | by exists k']).
  pose proof (StronglySorted_merge_sort newerCycle (List.filter p (map snd (map_to_list (qtCycles t))))) as Sorted.
  fold (cyclesWhere p t) in Sorted. destruct (cyclesWhere p t) as [|x l]; [done|]. injection Hd as ->.
  apply elem_of_cons in In as [->|In]; [done|]. inversion Sorted as [|? ? _ F]; subst. rewrite Forall_forall in F.
  pose proof (F _ In) as N%newerCycle_iff. lia.
Qed.

Lemma tail_none k t i s : tailOf k t = None -> qtSegments t !! i = Some s -> sgCycleID s <> k.
Proof.
  intros Tl L C. unfold tailOf in Tl.
  assert (s ∈ segmentsWhere (fun s' => sgCycleID s' =? k) t) as In by (apply in_segmentsWhere; split; [by apply Z.eqb_eq | by exists i]).
  destruct (segmentsWhere _ t); [by apply elem_of_nil in In | done].
Qed.

Lemma tail_latest t k tail i s : history_ok t -> tailOf k t = Some tail -> qtSegments t !! i = Some s -> sgCycleID s = k ->
  sgLastObservedAt s <= sgLastObservedAt tail.
Proof.
  intros H Tl L C. destruct (tail_last _ _ _ H Tl) as (Lt & _ & _).
  destruct (below_tail _ _ _ _ _ H Tl L C) as [->|[F _]]; [done|]. pose proof (hi_rows _ H _ _ Lt) as (_ & R & _). lia.
Qed.

Section Loading.
Context (fault : nat -> option string).

Lemma query_reads {A} (run : QuotaTables -> A) d : dbTables (query fault run d).1 = dbTables d.
Proof. unfold query, statement. by destruct (fault _). Qed.

Lemma load_reads p a r d : dbTables (LoadLatestQuotaHistoryState fault p a r d).1 = dbTables d.
Proof.
  unfold LoadLatestQuotaHistoryState. cbn zeta. destruct (_ =?s _); [done|]. destruct (QuotaWindowKey _ _) as [q|]; [|done].
  unfold sql_try, wrap. pose proof (query_reads (fun t => head (cyclesWhere (ofQuota (ToLower (TrimSpace p)) (TrimSpace a) q) t)) d) as E.
  destruct (query _ _ d) as [d1 [c|e]]; [|done]. cbn in E. destruct c as [c|]; [|done].
  pose proof (query_reads (tailOf (qcID c)) d1) as E1. destruct (query _ _ d1) as [d2 [tl|e]]; cbn in *; congruence.
Qed.

(** What is recovered is all that the tables hold of the key. *)
Lemma recovered_ok k d d' st : key_ok k -> history_ok (dbTables d) -> reached (dbTables d) ->
  LoadLatestQuotaHistoryState fault (skProvider k) (skAuthIndex k) (skWindowRole k) d = (d', Ok st) ->
  if hsFound st then hsHasTail st = true /\ until (dbTables d) k (hsTailLastObservedAt st)
  else forall limit, until (dbTables d) k limit.
Proof.
  intros Ko H Re L. unfold LoadLatestQuotaHistoryState in L. cbn zeta in L.
  destruct (key_normal _ Ko) as (P & R & Q & _). rewrite P, R, Q, (proj2 Ko) in L.
  destruct (_ =?s _); [done|]. apply sql_try_ok in L as (c & d1 & [E1 Hc]%wrap_ok%query_ok & L).
  assert (forall c', c' ∈ cyclesWhere (ofQuota (skProvider k) (skAuthIndex k) (skQuotaKey k)) (dbTables d) <->
    ofQuota (skProvider k) (skAuthIndex k) (skQuotaKey k) c' = true /\ exists j, qtCycles (dbTables d) !! j = Some c') as Among
    by (intros; apply in_cyclesWhere).
  destruct c as [c|].
  - apply sql_try_ok in L as (tl & d2 & [E2 Ht]%wrap_ok%query_ok & [-> ->]%ret_ok). rewrite E1 in Ht.
    assert (c ∈ cyclesWhere (ofQuota (skProvider k) (skAuthIndex k) (skQuotaKey k)) (dbTables d)) as [Of [j Lc]]%Among by (by apply head_in).
    pose proof (proj1 (sa_keyed _ (hi_sane _ H)) _ _ Lc) as Id. destruct (Re _ _ Lc) as (i & s & Ls & Cs & Le).
    symmetry in Hc, Ht. destruct tl as [tl|]; cbn.
    + split; [done|]. intros i' s' c' Ls' Lc' Of'. destruct (hi_within _ H _ _ _ Ls' Lc') as [_ W].
      pose proof (newest_head _ _ _ Hc _ _ Lc' Of'). pose proof (tail_latest _ _ _ _ _ H Ht Ls ltac:(congruence)). lia.
    + exfalso. apply (tail_none _ _ _ _ Ht Ls). congruence.
  - apply ret_ok in L as [-> ->]. cbn. intros limit i s c' Ls Lc Of. exfalso.
    assert (c' ∈ cyclesWhere (ofQuota (skProvider k) (skAuthIndex k) (skQuotaKey k)) (dbTables d)) as In by (apply Among; by eauto).
    destruct (cyclesWhere _ _); [by apply elem_of_nil in In | done].
Qed.
End Loading.

(** ** The state while a batch is made *)

Lemma until_mono t k l1 l2 : until t k l1 -> l1 <= l2 -> until t k l2.
Proof. intros U Le i s c Ls Lc Of. pose proof (U _ _ _ Ls Lc Of). lia. Qed.

Definition ends_by (k : codexQuotaHistoryStateKey) (pending : list CodexMainQuotaObservation) (limit : Time) : Prop :=
  forall o, o ∈ pending -> under k o -> obLastObservedAt o <= limit.

(** Whether a percentage is known of the current cycle. *)
Definition tailed (c : codexQuotaHistoryCurrentState) : bool := csFound c && csHasTail c.

(** What is pending of a key goes forward in time, from what the tables hold of it to
    what is deferred of it and to its current state; a pending index is that of its last
    pending observation. *)
Record merging_ok (t : QuotaTables) (st : codexQuotaHistoryRunnerState) (pending : list CodexMainQuotaObservation) : Prop := {
  mo_keys : forall k c, rsCurrent st !! k = Some c -> key_ok k;
  mo_tail : forall k c, rsCurrent st !! k = Some c -> tailed c = true ->
    until t k (csLastObservedAt c) /\ ends_by k pending (csLastObservedAt c);
  mo_none : forall k c, rsCurrent st !! k = Some c -> tailed c = false ->
    (forall limit, until t k limit) /\ (forall o, o ∈ pending -> ~ under k o) /\ rsStable st !! k = None;
  mo_stable : forall k d, rsStable st !! k = Some d -> let o := dfObservation d in
    under k o /\ obFirstObservedAt o <= obLastObservedAt o /\ until t k (obFirstObservedAt o)
    /\ ends_by k pending (obFirstObservedAt o)
    /\ exists c, rsCurrent st !! k = Some c /\ obLastObservedAt o <= csLastObservedAt c;
  mo_pending : forall o, o ∈ pending -> obFirstObservedAt o <= obLastObservedAt o
    /\ exists k c, under k o /\ rsCurrent st !! k = Some c /\ until t k (obFirstObservedAt o);
  mo_chain : forall i j k o1 o2, (i < j)%nat -> pending !! i = Some o1 -> pending !! j = Some o2 ->
    under k o1 -> under k o2 -> obLastObservedAt o1 <= obFirstObservedAt o2;
  mo_index : forall k c, rsCurrent st !! k = Some c -> csPendingIndex c = -1
    \/ rsStable st !! k = None /\ exists i o, csPendingIndex c = Z.of_nat i /\ pending !! i = Some o /\ under k o
       /\ forall j o', (i < j)%nat -> pending !! j = Some o' -> ~ under k o';
}.

Lemma ends_by_snoc k pending x limit : ends_by k pending limit -> (under k x -> obLastObservedAt x <= limit) -> ends_by k (pending ++ [x]) limit.
Proof. intros E X o [In|In%list_elem_of_singleton]%elem_of_app; [by apply E | by subst]. Qed.

Lemma ends_by_mono k pending l1 l2 : ends_by k pending l1 -> l1 <= l2 -> ends_by k pending l2.
Proof. intros E Le o In U. pose proof (E o In U). lia. Qed.

(** An observation is appended, and with it goes what was deferred of its key. *)
Lemma snoc_ok t st pending k c0 x c' : merging_ok t st pending -> rsCurrent st !! k = Some c0 -> under k x ->
  obFirstObservedAt x <= obLastObservedAt x -> until t k (obFirstObservedAt x) -> ends_by k pending (obFirstObservedAt x) ->
  tailed c' = true -> obLastObservedAt x <= csLastObservedAt c' ->
  csPendingIndex c' = -1 \/ csPendingIndex c' = Z.of_nat (length pending) ->
  merging_ok t (mkRunnerState (<[k := c']> (rsCurrent st)) (delete k (rsStable st))) (pending ++ [x]).
Proof.
  intros M L U V Un En Ht Le Ix. split; cbn.
  - intros k' c [[<- <-]|[_ L']]%lookup_insert_Some; by eapply (mo_keys _ _ _ M).
  - intros k' c [[<- <-]|[Ne L']]%lookup_insert_Some H.
    + split; [eapply until_mono; [exact Un | lia]|]. apply ends_by_snoc; [eapply ends_by_mono; [exact En | lia] | done].
    + destruct (mo_tail _ _ _ M _ _ L' H) as [? ?]. split; [done|]. apply ends_by_snoc; [done|].
      intros U'. by destruct Ne; eapply under_inj.
  - intros k' c [[<- <-]|[Ne L']]%lookup_insert_Some H; [congruence|]. destruct (mo_none _ _ _ M _ _ L' H) as (? & N & S).
    split_and!; [done| |by rewrite lookup_delete_ne]. intros o [In|In%list_elem_of_singleton]%elem_of_app; [by apply N|].
    subst. intros U'. by destruct Ne; eapply under_inj.
  - intros k' d [Ne L']%lookup_delete_Some. destruct (mo_stable _ _ _ M _ _ L') as (U' & V' & Un' & En' & c & Lc & Le').
    split_and!; [done..| |exists c; by rewrite lookup_insert_ne]. apply ends_by_snoc; [done|].
    intros U2. by destruct Ne; eapply under_inj.
  - intros o [In|In%list_elem_of_singleton]%elem_of_app.
    + destruct (mo_pending _ _ _ M _ In) as (V' & k' & c & U' & L' & Un'). split; [done|].
      destruct (decide (k' = k)) as [->|Ne]; [exists k, c' | exists k', c]; split_and!; try done;
        [by rewrite lookup_insert_eq | by rewrite lookup_insert_ne].
    + subst. split; [done|]. exists k, c'. by rewrite lookup_insert_eq.
  - intros i j k' o1 o2 Lt L1 L2 U1 U2. apply lookup_snoc_Some in L2 as [[Lj L2]|[-> <-]].
    + rewrite lookup_app_l in L1 by lia. by eapply (mo_chain _ _ _ M i j).
    + rewrite lookup_app_l in L1 by lia. pose proof (under_inj _ _ _ U U2) as <-. apply En; [by eapply list_elem_of_lookup_2 | done].
  - intros k' c [[<- <-]|[Ne L']]%lookup_insert_Some.
    + destruct Ix as [Ix|Ix]; [by left|right]. split; [by rewrite lookup_delete_eq|]. exists (length pending), x.
      split_and!; [done | by rewrite lookup_app_r, Nat.sub_diag by lia | done|].
      intros j o' Lt [[? _]|[? _]]%lookup_snoc_Some; lia.
    + destruct (mo_index _ _ _ M _ _ L') as [?|(S & i & o & Ei & Lo & Uo & Later)]; [by left|right].
      split; [by rewrite lookup_delete_ne|]. exists i, o. split_and!; [done | by apply lookup_app_l_Some | done|].
      intros j o' Lt [[_ Lj]|[_ <-]]%lookup_snoc_Some U'; [by eapply Later | by destruct Ne; eapply under_inj].
Qed.

(** The last pending observation of a key goes on. *)
Lemma alter_ok t st pending k c0 i o0 f c' : merging_ok t st pending -> rsCurrent st !! k = Some c0 ->
  csPendingIndex c0 = Z.of_nat i -> pending !! i = Some o0 -> csPendingIndex c' = csPendingIndex c0 ->
  (forall k', under k' (f o0) <-> under k' o0) -> obFirstObservedAt (f o0) = obFirstObservedAt o0 ->
  obLastObservedAt o0 <= obLastObservedAt (f o0) <= csLastObservedAt c' -> tailed c' = true ->
  merging_ok t (setCurrent k c' st) (alter f i pending).
Proof.
  intros M L Ei Li Ec Uf Ff [Lf Le] Ht.
  destruct (mo_index _ _ _ M _ _ L) as [?|(S & i' & o' & Ei' & Li' & U & Later)]; [lia|].
  assert (i' = i) as -> by lia. rewrite Li in Li'. injection Li' as <-. clear Ei'.
  destruct (mo_pending _ _ _ M o0) as (V & k0 & c1 & U0 & _ & Un); [by eapply list_elem_of_lookup_2|].
  pose proof (under_inj _ _ _ U U0) as <-. clear c1 U0.
  assert (forall j o, alter f i pending !! j = Some o -> exists o1, pending !! j = Some o1 /\ (forall k', under k' o <-> under k' o1)
    /\ obFirstObservedAt o = obFirstObservedAt o1 /\ (j = i /\ o = f o0 /\ o1 = o0 \/ j <> i /\ o = o1)) as Back.
  { intros j o Lj. destruct (decide (j = i)) as [->|Ne].
    - rewrite list_lookup_alter_eq, Li in Lj. injection Lj as <-. exists o0. split_and!; try done. by left.
    - rewrite list_lookup_alter_ne in Lj by done. exists o. split_and!; try done. by right. }
  assert (forall o, o ∈ alter f i pending -> o = f o0 \/ o ∈ pending) as In'.
  { intros o [j Lj]%list_elem_of_lookup_1. destruct (Back _ _ Lj) as (o1 & L1 & _ & _ & [(_ & -> & _)|[_ ->]]); [by left|].
    right. by eapply list_elem_of_lookup_2. }
  assert (forall o, o ∈ alter f i pending -> under k o -> obLastObservedAt o <= csLastObservedAt c') as Ends.
  { intros o [j Lj]%list_elem_of_lookup_1 Uo. destruct (Back _ _ Lj) as (o1 & L1 & Uk & _ & [(_ & -> & _)|[Ne ->]]); [lia|].
    destruct (decide (j < i)%nat); [|by exfalso; eapply Later; [|exact L1|done]; lia].
    pose proof (mo_chain _ _ _ M j i k o1 o0 ltac:(lia) L1 Li Uo U). lia. }
  split; cbn.
  - intros k' c [[<- <-]|[_ L']]%lookup_insert_Some; by eapply (mo_keys _ _ _ M).
  - intros k' c [[<- <-]|[Ne L']]%lookup_insert_Some H.
    + split; [eapply until_mono; [exact Un | lia] | done].
    + destruct (mo_tail _ _ _ M _ _ L' H) as [? En]. split; [done|]. intros o [->|In]%In' Uo; [|by apply En].
      rewrite Uf in Uo. by destruct Ne; eapply under_inj.
  - intros k' c [[<- <-]|[Ne L']]%lookup_insert_Some H; [congruence|]. destruct (mo_none _ _ _ M _ _ L' H) as (? & N & ?).
    split_and!; [done| |done]. intros o [->|In]%In' Uo; [rewrite Uf in Uo; by destruct Ne; eapply under_inj | by eapply N].
  - intros k' d Ld. destruct (mo_stable _ _ _ M _ _ Ld) as (U' & V' & Un' & En' & c & Lc & Le'). cbn in *.
    assert (k' <> k) as Ne by (intros ->; congruence). split_and!; [done..| |exists c; by rewrite lookup_insert_ne].
    intros o [->|In]%In' Uo; [rewrite Uf in Uo; by destruct Ne; eapply under_inj | by apply En'].
  - intros o [->|In]%In'.
    + split; [lia|]. exists k, c'. rewrite Uf, lookup_insert_eq, Ff. done.
    + destruct (mo_pending _ _ _ M _ In) as (V' & k' & c & U' & L' & Un'). split; [done|].
      destruct (decide (k' = k)) as [->|Ne]; [exists k, c' | exists k', c]; split_and!; try done;
        [by rewrite lookup_insert_eq | by rewrite lookup_insert_ne].
  - intros j1 j2 k' o1 o2 Lt L1 L2 U1 U2. destruct (Back _ _ L1) as (p1 & P1 & Up1 & F1 & C1), (Back _ _ L2) as (p2 & P2 & Up2 & F2 & C2).
    rewrite Up1 in U1. rewrite Up2 in U2. pose proof (mo_chain _ _ _ M j1 j2 k' p1 p2 Lt P1 P2 U1 U2).
    destruct C1 as [(-> & -> & ->)|[_ ->]]; [|lia]. exfalso. pose proof (under_inj _ _ _ U U1) as <-. by eapply Later.
  - intros k' c [[<- <-]|[Ne L']]%lookup_insert_Some.
    + right. split; [done|]. exists i, (f o0). split_and!; [lia | by rewrite list_lookup_alter_eq, Li | by apply Uf|].
      intros j o' Lt Lj. destruct (Back _ _ Lj) as (p1 & P1 & Up1 & _). rewrite Up1. by eapply Later.
    + destruct (mo_index _ _ _ M _ _ L') as [?|(S' & i' & o & Ei' & Lo & Uo & Later')]; [by left|right]. split; [done|].
      assert (i' <> i) by (intros ->; rewrite Li in Lo; injection Lo as <-; by destruct Ne; eapply under_inj).
      exists i', o. split_and!; [done | by rewrite list_lookup_alter_ne | done|].
      intros j o' Lt Lj. destruct (Back _ _ Lj) as (p1 & P1 & Up1 & _). rewrite Up1. by eapply Later'.
Qed.

(** An observation is deferred, alone or with what was deferred before. *)
Lemma defer_ok t st pending k c0 d c' : merging_ok t st pending -> rsCurrent st !! k = Some c0 -> under k (dfObservation d) ->
  obFirstObservedAt (dfObservation d) <= obLastObservedAt (dfObservation d) <= csLastObservedAt c' ->
  until t k (obFirstObservedAt (dfObservation d)) -> ends_by k pending (obFirstObservedAt (dfObservation d)) ->
  tailed c' = true -> csPendingIndex c' = -1 ->
  merging_ok t (mkRunnerState (<[k := c']> (rsCurrent st)) (<[k := d]> (rsStable st))) pending.
Proof.
  intros M L U [V Le] Un En Ht Ix. split; cbn.
  - intros k' c [[<- <-]|[_ L']]%lookup_insert_Some; by eapply (mo_keys _ _ _ M).
  - intros k' c [[<- <-]|[Ne L']]%lookup_insert_Some H; [|by eapply (mo_tail _ _ _ M)].
    split; [eapply until_mono; [exact Un | lia] | eapply ends_by_mono; [exact En | lia]].
  - intros k' c [[<- <-]|[Ne L']]%lookup_insert_Some H; [congruence|]. destruct (mo_none _ _ _ M _ _ L' H) as (? & ? & ?).
    split_and!; [done | done | by rewrite lookup_insert_ne].
  - intros k' d' [[<- <-]|[Ne L']]%lookup_insert_Some.
    + split_and!; [done..|]. exists c'. by rewrite lookup_insert_eq.
    + destruct (mo_stable _ _ _ M _ _ L') as (? & ? & ? & ? & c & ? & ?). split_and!; [done..|]. exists c. by rewrite lookup_insert_ne.
  - intros o In. destruct (mo_pending _ _ _ M _ In) as (? & k' & c & ? & ? & ?). split; [done|].
    destruct (decide (k' = k)) as [->|Ne]; [exists k, c' | exists k', c]; split_and!; try done;
      [by rewrite lookup_insert_eq | by rewrite lookup_insert_ne].
  - apply (mo_chain _ _ _ M).
  - intros k' c [[<- <-]|[Ne L']]%lookup_insert_Some; [by left|].
    destruct (mo_index _ _ _ M _ _ L') as [?|[? ?]]; [by left|right]. split; [by rewrite lookup_insert_ne | done].
Qed.

(** A key of which nothing is known yet. *)
Lemma recover_ok t st pending k c : merging_ok t st pending -> rsCurrent st !! k = None -> key_ok k -> csPendingIndex c = -1 ->
  (if tailed c then until t k (csLastObservedAt c) else forall limit, until t k limit) ->
  merging_ok t (setCurrent k c st) pending.
Proof.
  intros M L Ko Ix Un.
  assert (forall o, o ∈ pending -> ~ under k o) as NoP.
  { intros o In U. destruct (mo_pending _ _ _ M _ In) as (_ & k' & c' & U' & L' & _). pose proof (under_inj _ _ _ U U') as <-. congruence. }
  assert (rsStable st !! k = None) as NoS.
  { destruct (rsStable st !! k) eqn:E; [|done]. destruct (mo_stable _ _ _ M _ _ E) as (_ & _ & _ & _ & c' & L' & _). congruence. }
  assert (forall k' c', rsCurrent st !! k' = Some c' -> <[k := c]> (rsCurrent st) !! k' = Some c') as Keep.
  { intros k' c' L'. rewrite lookup_insert_ne; [done | intros <-; congruence]. }
  split; cbn.
  - intros k' c' [[<- <-]|[_ L']]%lookup_insert_Some; [done | by eapply (mo_keys _ _ _ M)].
  - intros k' c' [[<- <-]|[Ne L']]%lookup_insert_Some H; [|by eapply (mo_tail _ _ _ M)]. rewrite H in Un. split; [done|].
    intros o In U. by destruct (NoP o).
  - intros k' c' [[<- <-]|[Ne L']]%lookup_insert_Some H; [by rewrite H in Un | by eapply (mo_none _ _ _ M)].
  - intros k' d' L'. destruct (mo_stable _ _ _ M _ _ L') as (? & ? & ? & ? & c' & Lc' & ?).
    split_and!; [done..|]. exists c'. by rewrite (Keep _ _ Lc').
  - intros o In. destruct (mo_pending _ _ _ M _ In) as (? & k' & c' & ? & Lc' & ?). split; [done|].
    exists k', c'. by rewrite (Keep _ _ Lc').
  - apply (mo_chain _ _ _ M).
  - intros k' c' [[<- <-]|[Ne L']]%lookup_insert_Some; [by left | by eapply (mo_index _ _ _ M)].
Qed.

Lemma pendingPosition_some c pending i : pendingPosition c pending = Some i -> csPendingIndex c = Z.of_nat i /\ (i < length pending)%nat.
Proof. unfold pendingPosition. case_match; [|done]. bool_split. intros [= <-]. lia. Qed.

(** What comes after everything known of its key. *)
Definition newest (t : QuotaTables) (k : codexQuotaHistoryStateKey) (pending : list CodexMainQuotaObservation) (o : CodexMainQuotaObservation) : Prop :=
  under k o /\ obFirstObservedAt o <= obLastObservedAt o /\ until t k (obFirstObservedAt o) /\ ends_by k pending (obFirstObservedAt o).

Lemma newest_next t st pending k c o : merging_ok t st pending -> rsCurrent st !! k = Some c -> under k o ->
  obFirstObservedAt o = obLastObservedAt o -> tailed c && (obLastObservedAt o <? csLastObservedAt c) = false -> newest t k pending o.
Proof.
  intros M L U I Old. split_and!; [done | lia|..]; destruct (tailed c) eqn:Ht; cbn in Old.
  - eapply until_mono; [by apply (mo_tail _ _ _ M _ _ L Ht) | lia].
  - by apply (mo_none _ _ _ M _ _ L Ht).
  - eapply ends_by_mono; [by apply (mo_tail _ _ _ M _ _ L Ht) | lia].
  - intros o' In U'. by destruct (proj1 (proj2 (mo_none _ _ _ M _ _ L Ht)) o' In).
Qed.

(** What was deferred is appended; nothing else changes. *)
Lemma deferred_ok t st pending k c : merging_ok t st pending -> rsCurrent st !! k = Some c ->
  let m := appendDeferredCodexQuotaHistoryStable k (st, pending) in
  merging_ok t m.1 m.2 /\ rsCurrent m.1 = rsCurrent st /\ rsStable m.1 = delete k (rsStable st)
  /\ forall o, tailed c = true -> csLastObservedAt c <= obFirstObservedAt o -> newest t k pending o -> newest t k m.2 o.
Proof.
  intros M L. unfold appendDeferredCodexQuotaHistoryStable. cbn [fst snd]. destruct (rsStable st !! k) as [d|] eqn:S.
  - destruct (mo_stable _ _ _ M _ _ S) as (U & V & Un & En & c' & L' & Le). rewrite L in L'. injection L' as <-. cbn.
    assert (tailed c = true) as Ht.
    { destruct (tailed c) eqn:Ht; [done|]. destruct (mo_none _ _ _ M _ _ L Ht) as (_ & _ & ?). congruence. }
    assert (csPendingIndex c = -1) as Ix by (destruct (mo_index _ _ _ M _ _ L) as [?|[? _]]; [done | congruence]).
    split_and!; [|done | done|].
    + pose proof (snoc_ok t st pending k c (dfObservation d) c M L U V Un En Ht Le (or_introl Ix)) as M'.
      by rewrite insert_id in M'.
    + intros o _ Lo (Uo & Vo & Uno & Eno). split_and!; try done. apply ends_by_snoc; [done|]. lia.
  - cbn. rewrite delete_id by done. done.
Qed.

Lemma materialize_ok t st pending k c cur o : merging_ok t st pending -> rsCurrent st !! k = Some c ->
  tailed c && (obLastObservedAt o <? csLastObservedAt c) = false -> under k o -> obFirstObservedAt o = obLastObservedAt o ->
  let m := materialize k cur o st pending in merging_ok t m.1 m.2.
Proof.
  intros M L Old U I. unfold materialize.
  destruct (deferred_ok t st pending k c M L) as (M1 & Ec & Es & Nw). cbn zeta in *.
  pose proof (newest_next _ _ _ _ _ _ M L U I Old) as N0.
  set (m := appendDeferredCodexQuotaHistoryStable k (st, pending)) in *.
  assert (newest t k m.2 o) as (_ & V & Un & En).
  { destruct (tailed c) eqn:Ht; cbn in Old; [apply Nw; [done | lia | done]|].
    destruct (mo_none _ _ _ M _ _ L Ht) as (_ & _ & S). unfold m, appendDeferredCodexQuotaHistoryStable. cbn. by rewrite S. }
  unfold appendCodexQuotaHistoryChange. cbn zeta. set (cur' := withPendingIndex _ _).
  assert (tailed cur' = true /\ csLastObservedAt cur' = obLastObservedAt o /\ csPendingIndex cur' = Z.of_nat (length m.2)) as (H1 & H2 & H3).
  { unfold cur'. rewrite length_app. cbn [length]. case_match eqn:F; unfold tailed; cbn; split_and!; try done; try lia.
    destruct (csFound cur); [done | by cbn in F]. }
  pose proof (snoc_ok t m.1 m.2 k c o cur' M1 ltac:(by rewrite Ec) U V Un En H1 ltac:(lia) (or_intror H3)) as M'.
  cbn [fst snd]. unfold setCurrent. rewrite Es, delete_delete_eq in M'. by rewrite Es.
Qed.

Lemma calibrate_ok t st pending k c cur o : merging_ok t st pending -> rsCurrent st !! k = Some c -> tailed c = true ->
  under k o -> obFirstObservedAt o = obLastObservedAt o -> obLastObservedAt o = csLastObservedAt c ->
  tailed cur = true -> csLastObservedAt cur = csLastObservedAt c -> csPendingIndex cur = csPendingIndex c ->
  let m := appendDeferredCodexQuotaHistoryStable k (st, pending) in
  match pendingPosition cur m.2 with
  | Some i => merging_ok t (setCurrent k cur m.1) (alter (calibrated o) i m.2)
  | None => forall percent, let pending := m.2 ++ [withPercent percent o] in
      merging_ok t (setCurrent k (withPendingIndex (Z.of_nat (length pending) - 1) cur) m.1) pending
  end.
Proof.
  intros M L Ht U I E Ht' El Ei m. destruct (deferred_ok t st pending k c M L) as (M1 & Ec & Es & Nw). cbn zeta in *. fold m in M1, Ec, Es, Nw.
  pose proof (newest_next _ _ _ _ _ o M L U I ltac:(rewrite Ht; cbn; lia)) as N0.
  destruct (pendingPosition cur m.2) as [i|] eqn:P.
  - apply pendingPosition_some in P as [Ix Lt]. destruct (lookup_lt_is_Some_2 m.2 i Lt) as [o0 L0]. rewrite <- Ec in L.
    destruct (mo_index _ _ _ M1 _ _ L) as [?|(_ & i' & o' & Ei' & Li' & U' & _)]; [lia|].
    assert (i' = i) as -> by lia. rewrite L0 in Li'. injection Li' as <-.
    pose proof (proj2 (mo_tail _ _ _ M1 _ _ L Ht) o0 ltac:(by eapply list_elem_of_lookup_2) U').
    eapply alter_ok; [exact M1 | exact L | lia | exact L0 | done | done | done | cbn; lia | done].
  - intros percent. destruct (Nw o Ht ltac:(lia) N0) as (_ & V & Un & En). rewrite length_app. cbn [length].
    pose proof (snoc_ok t m.1 m.2 k c (withPercent percent o) (withPendingIndex (Z.of_nat (length m.2 + 1) - 1) cur) M1
      ltac:(by rewrite Ec) U V Un En Ht' ltac:(cbn; lia) ltac:(right; cbn; lia)) as M'.
    unfold setCurrent. rewrite Es, delete_delete_eq in M'. by rewrite Es.
Qed.

Lemma lasts_ok t st pending k c cur o boundary immediate : merging_ok t st pending -> rsCurrent st !! k = Some c -> tailed c = true ->
  under k o -> obFirstObservedAt o = obLastObservedAt o -> csLastObservedAt c <= obLastObservedAt o ->
  tailed cur = true -> csPendingIndex cur = csPendingIndex c ->
  let c' := withLastObserved (obLastObservedAt o) cur in
  match pendingPosition cur pending with
  | Some i => merging_ok t (setCurrent k c' st) (alter (mergedPending boundary o) i pending)
  | None => merging_ok t (setCurrent k c' (mergeDeferredCodexQuotaHistoryStable k o immediate st)) pending
  end.
Proof.
  intros M L Ht U I Le Ht' Ei c'. destruct (newest_next _ _ _ _ _ o M L U I ltac:(rewrite Ht; cbn; lia)) as (_ & V & Un & En).
  destruct (pendingPosition cur pending) as [i|] eqn:P.
  - apply pendingPosition_some in P as [Ix Lt]. destruct (lookup_lt_is_Some_2 pending i Lt) as [o0 L0].
    destruct (mo_index _ _ _ M _ _ L) as [?|(_ & i' & o' & Ei' & Li' & U' & _)]; [lia|].
    assert (i' = i) as -> by lia. rewrite L0 in Li'. injection Li' as <-.
    pose proof (proj2 (mo_tail _ _ _ M _ _ L Ht) o0 ltac:(by eapply list_elem_of_lookup_2) U').
    eapply alter_ok; [exact M | exact L | lia | exact L0 | done | done | done | cbn; lia | done].
  - assert (csPendingIndex c = -1) as Ix.
    { destruct (mo_index _ _ _ M _ _ L) as [?|(_ & i' & o' & Ei' & Li' & _)]; [done|]. apply lookup_lt_Some in Li'.
      unfold pendingPosition in P. case_match; [done|]. bool_split; lia. }
    unfold mergeDeferredCodexQuotaHistoryStable, setCurrent, setStable. cbn [rsCurrent rsStable].
    destruct (rsStable st !! k) as [d|] eqn:S.
    + destruct (mo_stable _ _ _ M _ _ S) as (U' & V' & Un' & En' & c1 & L1 & Le1). rewrite L in L1. injection L1 as <-.
      eapply defer_ok; [exact M | exact L | done | cbn; lia | done | done | done | cbn; lia].
    + eapply defer_ok; [exact M | exact L | done | cbn; lia | done | done | done | cbn; lia].
Qed.

Lemma mergeInto_ok t st pending k c o : merging_ok t st pending -> rsCurrent st !! k = Some c -> under k o ->
  obFirstObservedAt o = obLastObservedAt o ->
  let m := mergeInto k c o st pending in merging_ok t m.1.1 m.1.2.
Proof.
  intros M L U I. unfold mergeInto. cbn zeta.
  destruct (tailed c && (obLastObservedAt o <? csLastObservedAt c)) eqn:Old.
  { unfold tailed in Old. destruct (csFound c) eqn:F; [|done]. cbn [negb andb] in *. rewrite Old. cbn [orb].
    by repeat (case_match; cbn [fst snd]; try done). }
  assert (forall cur, let m := materialize k cur o st pending in merging_ok t m.1 m.2) as Mat by (intros; by eapply materialize_ok).
  destruct (csFound c) eqn:F; cbn [negb]; [|apply Mat].
  assert (csHasTail c = tailed c) as Et by (unfold tailed; by rewrite F). rewrite Et, Old. clear Et. cbn [orb].
  destruct (negb (csWindowSeconds c =? _)); [apply Mat|].
  destruct (negb (codexQuotaHistorySameCycle c o)); [destruct (obResetAt o <? csResetAt c); [exact M | apply Mat]|].
  set (b := _ || _). set (cur := if b then _ else _).
  assert (tailed cur = tailed c /\ csHasTail cur = tailed c /\ csLastObservedAt cur = csLastObservedAt c /\ csPendingIndex cur = csPendingIndex c) as (E1 & E1' & E2 & E3)
    by (unfold cur, tailed; destruct b; cbn; by rewrite F).
  rewrite E1'. destruct (tailed c) eqn:Ht; cbn [negb]; [|apply Mat]. cbn in Old.
  destruct (_ && obAuthoritative o); [apply Mat|]. rewrite E2.
  destruct (obLastObservedAt o =? csLastObservedAt c) eqn:Et.
  { destruct b; [|done]. pose proof (calibrate_ok t st pending k c cur o M L Ht U I ltac:(lia) E1 E2 E3) as Ca. cbn zeta in Ca.
    destruct (appendDeferredCodexQuotaHistoryStable k (st, pending)) as [st1 p1]. cbn [fst snd] in Ca.
    destruct (pendingPosition cur p1); [exact Ca | apply Ca]. }
  destruct (csRemainingPercent cur <? _); [done|]. destruct (_ =? csRemainingPercent cur); [|apply Mat].
  pose proof (lasts_ok t st pending k c cur o b (b || obAuthoritative o) M L Ht U I ltac:(lia) E1 E3) as La. cbn zeta in La.
  by destruct (pendingPosition cur pending).
Qed.

(** ** Merging the candidates of a batch *)

Lemma candidate_key_ok c : built (cdObservation c) -> key_ok (codexQuotaHistoryCandidateStateKey c).
Proof.
  intros [In _]. unfold codexQuotaHistoryCandidateStateKey. destruct c as [[p q a r w s re pc f l n au] v so]. cbn in *.
  split; [|apply TrimSpace_twice]. cbn [skProvider skWindowRole skQuotaKey].
  known_window In; vm_compute; set_solver.
Qed.

Section Merged.
Context (fault : nat -> option string) (batchTime : Time).

Lemma currentOf_ok k m d : key_ok k -> history_ok (dbTables d) -> reached (dbTables d) ->
  merging_ok (dbTables d) (mgState m) (mgPending m) ->
  let r := currentOf fault batchTime k m d in
  dbTables r.1 = dbTables d /\ merging_ok (dbTables d) (mgState r.2.1) (mgPending r.2.1)
  /\ forall c, r.2.2 = Some c -> rsCurrent (mgState r.2.1) !! k = Some c.
Proof.
  intros Ko H Re M. unfold currentOf. destruct (rsCurrent (mgState m) !! k) as [c|] eqn:L.
  { cbn. split_and!; [done | done|]. by intros c' [= <-]. }
  case_bool_decide; [by cbn|]. unfold sql_bind, loadCodexQuotaHistoryCurrentState, sql_try.
  pose proof (load_reads fault (skProvider k) (skAuthIndex k) (skWindowRole k) d) as E.
  destruct (LoadLatestQuotaHistoryState fault _ _ _ d) as [d1 [st|e]] eqn:Ld; [|done]. cbn in E.
  pose proof (recovered_ok fault k d d1 st Ko H Re Ld) as Known. cbn.
  set (cur := if _ && _ then _ else _). split_and!; [done| |by intros c [= <-]; rewrite lookup_insert_eq].
  apply recover_ok; [done | done | done|..].
  - unfold cur. by destruct (hsFound st); cbn; [destruct (hsHasTail st)|].
  - unfold cur. destruct (hsFound st); cbn; [|done]. by destruct Known as [-> ?].
Qed.

Lemma mergeObservation_ok m c d : built (cdObservation c) -> history_ok (dbTables d) -> reached (dbTables d) ->
  merging_ok (dbTables d) (mgState m) (mgPending m) ->
  let r := mergeCodexQuotaHistoryObservation fault batchTime m c d in
  dbTables r.1 = dbTables d /\ merging_ok (dbTables d) (mgState r.2.1) (mgPending r.2.1).
Proof.
  intros B H Re M. unfold mergeCodexQuotaHistoryObservation. set (k := codexQuotaHistoryCandidateStateKey c).
  destruct (_ || _); [done|]. destruct (negb _); [done|]. unfold sql_bind.
  pose proof (currentOf_ok k m d (candidate_key_ok _ B) H Re M) as (E & M1 & L).
  destruct (currentOf fault batchTime k m d) as [d1 [m1 [cur|]]]; [|done]. cbn in E, M1, L |- *.
  set (o := observationUnder _ _ _).
  pose proof (mergeInto_ok _ _ _ k cur o M1 (L _ eq_refl) ltac:(done) (proj2 B)) as M2.
  destruct (mergeInto k cur o (mgState m1) (mgPending m1)) as [[st p] b]. done.
Qed.

Lemma mergeAll_ok cs m d : Forall (fun c => built (cdObservation c)) cs -> history_ok (dbTables d) -> reached (dbTables d) ->
  merging_ok (dbTables d) (mgState m) (mgPending m) ->
  let r := mergeAll fault batchTime m cs d in
  dbTables r.1 = dbTables d /\ merging_ok (dbTables d) (mgState r.2) (mgPending r.2).
Proof.
  intros B. revert m d. induction B as [|c cs Bc _ IH]; intros m d H Re M; [done|]. cbn [mergeAll]. unfold sql_bind.
  pose proof (mergeObservation_ok m c d Bc H Re M) as [E M1].
  destruct (mergeCodexQuotaHistoryObservation fault batchTime m c d) as [d1 [m1 b]]. cbn in E, M1 |- *.
  rewrite <- E in H, Re, M1 |- *. by destruct b; apply IH.
Qed.
End Merged.

Lemma verified_among listIdentities candidates c :
  c ∈ sortCodexQuotaHistoryCandidates (verifyCodexQuotaHistoryCandidates listIdentities candidates) -> c ∈ candidates.
Proof.
  unfold sortCodexQuotaHistoryCandidates, verifyCodexQuotaHistoryCandidates. rewrite elem_of_stableSort.
  intros In. apply list_elem_of_In, filter_In in In as [In _]. by apply list_elem_of_In.
Qed.

Lemma hurry_ok t cohorts st pending : merging_ok t st pending -> merging_ok t (hurryCohorts cohorts st) pending.
Proof.
  intros M. set (st' := hurryCohorts cohorts st).
  assert (forall k d, rsStable st' !! k = Some d -> exists d0, rsStable st !! k = Some d0 /\ dfObservation d = dfObservation d0) as St.
  { intros k d. unfold st', hurryCohorts. cbn. rewrite map_lookup_imap. destruct (rsStable st !! k) as [d0|]; [|done]. cbn.
    intros [= <-]. exists d0. by case_bool_decide. }
  assert (forall k, rsStable st !! k = None -> rsStable st' !! k = None) as No.
  { intros k N. unfold st', hurryCohorts. cbn. by rewrite map_lookup_imap, N. }
  split; try apply M.
  - intros k c L Ht. destruct (mo_none _ _ _ M k c L Ht) as (? & ? & ?). split_and!; [done | done | by apply No].
  - intros k d L. destruct (St _ _ L) as (d0 & L0 & ->). by apply (mo_stable _ _ _ M).
  - intros k c L. destruct (mo_index _ _ _ M _ _ L) as [?|[N ?]]; [by left|right]. split; [by apply No | done].
Qed.

(** ** What a batch writes *)

(** Two observations of one key do not overlap. *)
Definition apart (o1 o2 : CodexMainQuotaObservation) : Prop :=
  forall k, under k o1 -> under k o2 -> obLastObservedAt o1 <= obFirstObservedAt o2 \/ obLastObservedAt o2 <= obFirstObservedAt o1.

(** What can be written of a state: all that is pending and due. *)
Record writable (t : QuotaTables) (P : list CodexMainQuotaObservation) : Prop := {
  wr_each : forall o, o ∈ P -> obFirstObservedAt o <= obLastObservedAt o
    /\ exists k, key_ok k /\ under k o /\ until t k (obFirstObservedAt o);
  wr_apart : StronglySorted apart P;
}.

Lemma apart_perm P P' : P ≡ₚ P' -> StronglySorted apart P -> StronglySorted apart P'.
Proof.
  induction 1 as [|x P P' Pm IH|x y P|P1 P2 P3 _ IH1 _ IH2]; intros S; [done|..|by apply IH2, IH1].
  - inversion S as [|? ? S' F]; subst. constructor; [by apply IH|]. by rewrite <- Pm.
  - inversion S as [|? ? S' F]; subst. inversion S' as [|? ? S2 F2]; subst. apply Forall_cons in F as [A F].
    constructor; [by constructor|]. constructor; [|done]. intros k U1 U2. destruct (A k U2 U1); auto.
Qed.

Lemma roleTimeLess_time p a r t1 t2 : roleTimeLess (p, a, r, t1) (p, a, r, t2) = (t1 <? t2).
Proof. unfold roleTimeLess. cbn [fst snd]. by rewrite !String.eqb_refl. Qed.

Lemma roleTimeLess_spec a b : roleTimeLess a b = true <->
  string_lt a.1.1.1 b.1.1.1 = true
  \/ a.1.1.1 = b.1.1.1 /\ (string_lt a.1.1.2 b.1.1.2 = true
     \/ a.1.1.2 = b.1.1.2 /\ (string_lt a.1.2 b.1.2 = true \/ a.1.2 = b.1.2 /\ a.2 < b.2)).
Proof.
  destruct a as [[[p a] r] t], b as [[[p' a'] r'] t']. unfold roleTimeLess. cbn [fst snd].
  destruct (String.eqb_spec p p') as [->|N1]; cbn [negb]; [|intuition congruence]. rewrite string_lt_irrefl.
  destruct (String.eqb_spec a a') as [->|N2]; cbn [negb]; [|intuition congruence]. rewrite string_lt_irrefl.
  destruct (String.eqb_spec r r') as [->|N3]; cbn [negb]; [|intuition congruence]. rewrite string_lt_irrefl, Z.ltb_lt.
  intuition congruence.
Qed.

Lemma roleTimeLess_irrefl a : roleTimeLess a a = false.
Proof. destruct a as [[[p a] r] t]. rewrite roleTimeLess_time. lia. Qed.

Lemma roleTimeLess_trans a b c : roleTimeLess a b = true -> roleTimeLess b c = true -> roleTimeLess a c = true.
Proof.
  rewrite !roleTimeLess_spec. intros [H|(E & [H|(E2 & [H|(E3 & H)])])] [K|(F & [K|(F2 & [K|(F3 & K)])])];
    rewrite ?E, ?E2, ?E3, <- ?F, <- ?F2, <- ?F3 in *; eauto using string_lt_trans; right; split; try congruence; eauto using string_lt_trans;
    right; split; try congruence; eauto using string_lt_trans; right; split; try congruence; lia.
Qed.

Lemma roleTimeLess_total a b : roleTimeLess a b = true \/ a = b \/ roleTimeLess b a = true.
Proof.
  destruct a as [[[p a] r] t], b as [[[p' a'] r'] t']. rewrite !roleTimeLess_spec. cbn [fst snd].
  destruct (string_lt_total p p') as [|[->|]]; [by intuition auto| |by intuition auto].
  destruct (string_lt_total a a') as [|[->|]]; [by intuition auto| |by intuition auto].
  destruct (string_lt_total r r') as [|[->|]]; [by intuition auto| |by intuition auto].
  destruct (Z.lt_trichotomy t t') as [|[->|]]; [by intuition auto|by intuition auto|by intuition auto].
Qed.

Lemma roleTimeLess_asymm a b : roleTimeLess a b = true -> roleTimeLess b a = false.
Proof.
  intros H. destruct (roleTimeLess b a) eqn:E; [|done]. pose proof (roleTimeLess_trans _ _ _ H E) as R. by rewrite roleTimeLess_irrefl in R.
Qed.

Lemma roleTimeLess_cotrans a b c : roleTimeLess b a = false -> roleTimeLess c b = false -> roleTimeLess c a = false.
Proof.
  intros H1 H2. destruct (roleTimeLess c a) eqn:E; [|done].
  destruct (roleTimeLess_total b c) as [L|[->|L]]; [|congruence|congruence].
  pose proof (roleTimeLess_trans _ _ _ L E). congruence.
Qed.

(** The order of a write. *)
Definition pendingSort : list CodexMainQuotaObservation -> list CodexMainQuotaObservation :=
  stableSort (fun a b => roleTimeLess (pendingOrder a) (pendingOrder b)).

(** In the order of a write what comes before ends before, but for one instant. *)
Definition before (o' o : CodexMainQuotaObservation) : Prop :=
  forall k, under k o' -> under k o -> obFirstObservedAt o = obLastObservedAt o \/ obLastObservedAt o' <= obFirstObservedAt o.

Lemma sorted_before t P : writable t P -> StronglySorted before (pendingSort P).
Proof.
  intros [E A]. pose proof (stableSort_perm (fun a b => roleTimeLess (pendingOrder a) (pendingOrder b)) P) as Pm. fold pendingSort in Pm.
  assert (StronglySorted (fun a b => roleTimeLess (pendingOrder b) (pendingOrder a) = false) (pendingSort P)) as S.
  { apply stableSort_sorted; intros; [by apply roleTimeLess_asymm | by eapply roleTimeLess_cotrans]. }
  apply (apart_perm _ (pendingSort P)) in A; [|done].
  assert (forall o, o ∈ pendingSort P -> obFirstObservedAt o <= obLastObservedAt o) as V by (intros o In; rewrite Pm in In; by apply E).
  clear E Pm. induction (pendingSort P) as [|x l IH]; [constructor|].
  inversion S as [|? ? S1 F1]; subst. inversion A as [|? ? S2 F2]; subst.
  constructor; [apply IH; try done; intros; apply V; by right|]. rewrite Forall_forall in F1, F2 |- *. intros y In k U1 U2.
  pose proof (V x ltac:(left)). pose proof (V y ltac:(by right)). pose proof (F1 _ In) as L.
  destruct U1 as (P1 & Q1 & A1 & R1) eqn:X, U2 as (P2 & Q2 & A2 & R2) eqn:Y.
  unfold pendingOrder in L. rewrite P1, A1, R1, P2, A2, R2, roleTimeLess_time in L.
  destruct (F2 _ In k ltac:(done) ltac:(done)); [by right | left; lia].
Qed.

Definition same_place (o n : CodexMainQuotaObservation) : Prop :=
  obFirstObservedAt n = obFirstObservedAt o /\ obLastObservedAt n = obLastObservedAt o
  /\ forall k, key_ok k -> under k o -> under k n.

Lemma normalize_same_place o n : normalizeCodexMainQuotaObservation o = Ok n -> same_place o n.
Proof.
  intros N. split_and!.
  - revert N. unfold normalizeCodexMainQuotaObservation. intros N. repeat case_match; try done; by injection N as <-.
  - revert N. unfold normalizeCodexMainQuotaObservation. intros N. repeat case_match; try done; by injection N as <-.
  - intros k Ko (P & Q & A & R). destruct (key_normal _ Ko) as (Np & Nr & Nq & Pe & Qe).
    revert N. unfold normalizeCodexMainQuotaObservation. rewrite P, Q, A, R, Np, Nr, (proj2 Ko).
    replace (skProvider k =?s "") with false by (symmetry; by apply String.eqb_neq). rewrite Nq.
    intros N. repeat case_match; try done; injection N as <-; by split_and!.
Qed.

Lemma normalizeAll_places P l : normalizeAll P = Ok l -> Forall2 same_place P l.
Proof.
  revert l. induction P as [|o P IH]; intros l; cbn; [intros [= <-]; constructor|].
  destruct (normalizeCodexMainQuotaObservation o) as [n|] eqn:N; [|done]. cbn.
  destruct (normalizeAll P) as [l1|]; [|done]. cbn. intros [= <-]. constructor; [by apply normalize_same_place | by apply IH].
Qed.

Lemma StronglySorted_split {A} (R : A -> A -> Prop) l1 x l2 : StronglySorted R (l1 ++ x :: l2) -> forall y, y ∈ l1 -> R y x.
Proof.
  induction l1 as [|a l1 IH]; cbn; intros S y In; [by apply elem_of_nil in In|]. inversion S as [|? ? S' F]; subst.
  apply elem_of_cons in In as [->|In]; [|by apply IH]. rewrite Forall_forall in F. apply F, elem_of_app. right. left.
Qed.

Lemma placed_in_order t P l : writable t P -> StronglySorted before P -> Forall2 same_place P l -> in_order t l.
Proof.
  intros W S F l1 n l2 -> _. apply Forall2_app_inv_r in F as (P1 & P2 & F1 & F2 & ->).
  inversion F2 as [|o ? P3 ? (Fo & Lo & Uo) F3]; subst.
  destruct (wr_each _ _ W o) as (V & k & Ko & U & Un); [apply elem_of_app; right; left|].
  destruct (decide (obFirstObservedAt o = obLastObservedAt o)) as [E|Ne]; [left; congruence|right]. split.
  - apply (until_under _ k); [by apply Uo | by rewrite Fo].
  - intros n' In (Sp & Sa & Sq). apply list_elem_of_lookup_1 in In as [i Li].
    destruct (Forall2_lookup_r _ _ _ _ _ F1 Li) as (o' & Li' & Fo' & Lo' & Uo'). apply list_elem_of_lookup_2 in Li'.
    destruct (wr_each _ _ W o') as (_ & k' & Ko' & U' & _); [apply elem_of_app; by left|].
    destruct (Uo' k' Ko' U') as (P1' & Q1' & A1' & _). destruct (Uo k Ko U) as (P2' & Q2' & A2' & _).
    assert (k' = k) as -> by (apply key_by_quota; congruence).
    destruct (StronglySorted_split _ _ _ _ S o' Li' k U' U); [done | lia].
Qed.

Definition anyUnder (k : codexQuotaHistoryStateKey) : CodexMainQuotaObservation :=
  mkObservation (skProvider k) (skQuotaKey k) (skAuthIndex k) (skWindowRole k) 0 EmptyString 0 0 0 0 0 false.

(** A write keeps the history in order and goes no further than its observations. *)
Lemma write_ok fault ctxErr now P d : writable (dbTables d) P -> StronglySorted before P ->
  history_ok (dbTables d) -> reached (dbTables d) ->
  let t' := dbTables (WriteCodexMainQuotaObservations fault ctxErr now P d).1 in
  history_ok t' /\ reached t' /\ forall k limit, key_ok k -> until (dbTables d) k limit -> ends_by k P limit -> until t' k limit.
Proof.
  intros W S H Re. unfold WriteCodexMainQuotaObservations. destruct (normalizeAll P) as [l|e] eqn:N; [|done].
  pose proof (normalizeAll_places _ _ N) as F.
  assert (ready l (dbTables d)) as R.
  { split_and!; [done | by eapply normalizeAll_valid | by eapply placed_in_order]. }
  destruct (batches_applied fault ctxErr now (length l) l d R Re) as (l1 & l2 & E & A).
  rewrite E in R. destruct (applied_all_ready _ _ _ _ R Re A) as [R2 Re2]. split_and!; [apply R2 | done|].
  intros k limit Ko Un En. apply (until_under _ k (anyUnder k)); [done|].
  eapply applied_all_until; [exact R | exact A | by apply (until_under _ k (anyUnder k))|].
  intros n In (Sp & Sa & Sq). assert (n ∈ l) as In' by (rewrite E; apply elem_of_app; by left).
  apply list_elem_of_lookup_1 in In' as [i Li].
  destruct (Forall2_lookup_r _ _ _ _ _ F Li) as (o & Lo & Fo & Lao & Uo). apply list_elem_of_lookup_2 in Lo.
  destruct (wr_each _ _ W o Lo) as (_ & k' & Ko' & U' & _). destruct (Uo k' Ko' U') as (P1' & Q1' & A1' & _).
  assert (k' = k) as -> by (apply key_by_quota; cbn in *; congruence). rewrite Lao. by apply En.
Qed.

(** What is pending with some of what is deferred, each key once. *)
Lemma batch_writable t st pending due : merging_ok t st pending -> NoDup (map fst due) ->
  (forall k d, (k, d) ∈ due -> rsStable st !! k = Some d) ->
  let P := pending ++ map (fun e => dfObservation e.2) due in
  writable t P
  /\ (forall k c, rsCurrent st !! k = Some c -> tailed c = true -> ends_by k P (csLastObservedAt c))
  /\ (forall k d, rsStable st !! k = Some d -> k ∉ map fst due -> ends_by k P (obFirstObservedAt (dfObservation d)))
  /\ (forall o, o ∈ P -> exists k c, under k o /\ rsCurrent st !! k = Some c /\ tailed c = true).
Proof.
  intros M Nd Sub P.
  assert (forall o, o ∈ P -> o ∈ pending \/ exists k d, (k, d) ∈ due /\ o = dfObservation d) as In'.
  { intros o [In|[[k d] [-> In]]%list_elem_of_fmap]%elem_of_app; [by left | right; by exists k, d]. }
  split_and!; [split| | |].
  - intros o [In|(k & d & In & ->)]%In'.
    + destruct (mo_pending _ _ _ M _ In) as (V & k & c & U & L & Un). split; [done|]. exists k. split; [by eapply (mo_keys _ _ _ M) | done].
    + destruct (mo_stable _ _ _ M _ _ (Sub _ _ In)) as (U & V & Un & _ & c & L & _). split; [done|]. exists k. split; [by eapply (mo_keys _ _ _ M) | done].
  - assert (StronglySorted apart pending) as Sp.
    { pose proof (mo_chain _ _ _ M) as Ch. clear - Ch. induction pending as [|x l IH]; [constructor|]. constructor.
      - apply IH. intros i j k o1 o2 Lt. apply (Ch (S i) (S j)). lia.
      - apply Forall_forall. intros y [j Lj]%list_elem_of_lookup_1 k U1 U2. left. by apply (Ch O (S j) k x y ltac:(lia)). }
    apply StronglySorted_app. split_and!; [|done|].
    + intros x y Inp [[k d] [-> In]]%list_elem_of_fmap k2 U1 U2. left.
      destruct (mo_stable _ _ _ M _ _ (Sub _ _ In)) as (U & _ & _ & En & _). pose proof (under_inj _ _ _ U U2) as ->. by apply En.
    + clear P In' Sp. induction due as [|[k d] due IHd]; [constructor|]. cbn. inversion Nd as [|? ? N1 N2]; subst.
      constructor; [apply IHd; [done|]; intros; apply Sub; by right|]. apply Forall_forall.
      intros y [[k' d'] [-> In]]%list_elem_of_fmap k2 U1 U2. exfalso. apply N1.
      destruct (mo_stable _ _ _ M k d (Sub _ _ ltac:(left))) as (U & _).
      destruct (mo_stable _ _ _ M k' d' (Sub _ _ ltac:(by right))) as (U' & _). cbn in *.
      pose proof (under_inj _ _ _ U U1) as ->. pose proof (under_inj _ _ _ U' U2) as <-.
      apply list_elem_of_fmap. by exists (k', d').
  - intros k c L Ht o [In|(k' & d & In & ->)]%In' U; [by apply (mo_tail _ _ _ M _ _ L Ht)|].
    destruct (mo_stable _ _ _ M _ _ (Sub _ _ In)) as (U' & _ & _ & _ & c' & L' & Le). pose proof (under_inj _ _ _ U' U) as ->. congruence.
  - intros k d L Nin o [In|(k' & d' & In & ->)]%In' U; [by apply (mo_stable _ _ _ M _ _ L)|].
    destruct (mo_stable _ _ _ M _ _ (Sub _ _ In)) as (U' & _). pose proof (under_inj _ _ _ U' U) as ->.
    destruct Nin. apply list_elem_of_fmap. by exists (k, d').
  - intros o In. assert (exists k c, under k o /\ rsCurrent st !! k = Some c /\ (o ∈ pending \/ is_Some (rsStable st !! k))) as (k & c & U & L & Why).
    { destruct (In' _ In) as [Ip|(k & d & Id & ->)].
      - destruct (mo_pending _ _ _ M _ Ip) as (_ & k & c & U & L & _). exists k, c. by auto.
      - destruct (mo_stable _ _ _ M _ _ (Sub _ _ Id)) as (U & _ & _ & _ & c & L & _). exists k, c. split_and!; [done | done|]. right. by exists d; apply Sub. }
    exists k, c. split_and!; [done | done|]. destruct (tailed c) eqn:Ht; [done|]. exfalso.
    destruct (mo_none _ _ _ M _ _ L Ht) as (_ & Np & Ns). destruct Why as [Ip|[d Sd]]; [by eapply Np | congruence].
Qed.

Lemma foldl_delete_lookup {A V} (f : A -> codexQuotaHistoryStateKey) (l : list A) (m : gmap codexQuotaHistoryStateKey V) k :
  foldl (fun m x => delete (f x) m) m l !! k = if decide (k ∈ map f l) then None else m !! k.
Proof.
  revert m. induction l as [|x l IH]; intros m; cbn [foldl map]; [by rewrite decide_False by apply not_elem_of_nil|].
  rewrite IH. destruct (decide (k ∈ map f l)) as [In|Nin].
  - by rewrite decide_True by (by right).
  - destruct (decide (k = f x)) as [->|Ne]; [rewrite lookup_delete_eq, decide_True; [done | left]|].
    rewrite lookup_delete_ne by done. by rewrite decide_False by (by intros [?|?]%elem_of_cons).
Qed.

Lemma forget_all l st :
  foldl (fun st o => mkRunnerState (delete (observationKey o) (rsCurrent st)) (delete (observationKey o) (rsStable st))) st l =
  mkRunnerState (foldl (fun m o => delete (observationKey o) m) (rsCurrent st) l) (foldl (fun m o => delete (observationKey o) m) (rsStable st) l).
Proof. revert st. induction l as [|o l IH]; intros st; cbn; [by destruct st|]. by rewrite IH. Qed.

(** The clock of the written keys is set; nothing else of them changes. *)
Lemma materialized_lookup batchTime l (m : gmap codexQuotaHistoryStateKey codexQuotaHistoryCurrentState) k :
  exists same : codexQuotaHistoryCurrentState -> codexQuotaHistoryCurrentState,
    (forall c, tailed (same c) = tailed c /\ csLastObservedAt (same c) = csLastObservedAt c
       /\ (k ∈ map observationKey l -> csLastMaterializedAt (same c) = batchTime)
       /\ (k ∉ map observationKey l -> csLastMaterializedAt (same c) = csLastMaterializedAt c))
    /\ foldl (fun m o => match m !! observationKey o with
                      | None => m
                      | Some c => <[observationKey o := withPendingIndex (-1) (withMaterialized batchTime c)]> m
                      end) m l !! k = same <$> m !! k.
Proof.
  revert m. induction l as [|o l IH]; intros m; cbn [foldl map].
  - exists id. split; [|by rewrite option_fmap_id]. intros c. split_and!; try done. by intros ?%elem_of_nil.
  - set (m1 := match m !! observationKey o with None => _ | Some c => _ end).
    destruct (IH m1) as (same & Same & E). destruct (decide (k = observationKey o)) as [->|Ne].
    + exists (fun c => same (withPendingIndex (-1) (withMaterialized batchTime c))). split.
      * intros c. destruct (Same (withPendingIndex (-1) (withMaterialized batchTime c))) as (T & La & Y & N).
        split_and!; [by rewrite T | by rewrite La | |].
        -- intros _. destruct (decide (observationKey o ∈ map observationKey l)); [by apply Y | by rewrite N].
        -- intros Nin. destruct Nin. left.
      * rewrite E. unfold m1. destruct (m !! observationKey o) eqn:L; cbn; [by rewrite lookup_insert_eq | by rewrite L].
    + exists same. split.
      * intros c. destruct (Same c) as (T & La & Y & N). split_and!; [done | done | |].
        -- intros [?|?]%elem_of_cons; [done | by apply Y].
        -- intros Nin. apply N. intros In. apply Nin. by right.
      * rewrite E. unfold m1. destruct (m !! observationKey o) eqn:L; [by rewrite lookup_insert_ne by done | done].
Qed.

(** What remains after the write of a batch. *)
Lemma remains_ok t t' st st' pending due : merging_ok t st pending -> NoDup (map fst due) ->
  (forall k d, (k, d) ∈ due -> rsStable st !! k = Some d) ->
  (forall k limit, key_ok k -> until t k limit -> ends_by k (pending ++ map (fun e => dfObservation e.2) due) limit -> until t' k limit) ->
  (forall k c', rsCurrent st' !! k = Some c' -> exists c, rsCurrent st !! k = Some c /\ tailed c' = tailed c
     /\ csLastObservedAt c' = csLastObservedAt c /\ csPendingIndex c' = -1) ->
  (forall k d, rsStable st' !! k = Some d -> rsStable st !! k = Some d /\ k ∉ map fst due /\ is_Some (rsCurrent st' !! k)) ->
  merging_ok t' st' [].
Proof.
  intros M Nd Sub Un Cu Stb. destruct (batch_writable _ _ _ _ M Nd Sub) as (_ & Ends & Rest & Who).
  split.
  - intros k c' L. destruct (Cu _ _ L) as (c & L' & _). by eapply (mo_keys _ _ _ M).
  - intros k c' L Ht. destruct (Cu _ _ L) as (c & L' & T & La & _). rewrite La. split; [|by intros o ?%elem_of_nil].
    apply Un; [by eapply (mo_keys _ _ _ M) | by apply (mo_tail _ _ _ M _ _ L'); rewrite <- T | apply Ends; [done | by rewrite <- T]].
  - intros k c' L Ht. destruct (Cu _ _ L) as (c & L' & T & _). rewrite T in Ht. destruct (mo_none _ _ _ M _ _ L' Ht) as (U & _ & N).
    split_and!; [|by intros o ?%elem_of_nil|].
    + intros limit. apply Un; [by eapply (mo_keys _ _ _ M) | done|]. intros o In Uo.
      destruct (Who _ In) as (k' & c1 & U' & L1 & T1). pose proof (under_inj _ _ _ U' Uo) as ->. congruence.
    + destruct (rsStable st' !! k) eqn:S; [|done]. destruct (Stb _ _ S) as [? _]. congruence.
  - intros k d L. destruct (Stb _ _ L) as (L' & Nin & [c' Lc']). destruct (Cu _ _ Lc') as (c & Lc & _ & La & _).
    destruct (mo_stable _ _ _ M _ _ L') as (U & V & Un0 & _ & c1 & L1 & Le). split_and!; [done | done| | by intros o ?%elem_of_nil|].
    + apply Un; [by eapply (mo_keys _ _ _ M) | done | by apply Rest].
    + exists c'. split; [done|]. rewrite La. congruence.
  - by intros o ?%elem_of_nil.
  - done.
  - intros k c' L. left. by destruct (Cu _ _ L) as (c & _ & _ & _ & ?).
Qed.

Lemma flush_ok fault ctxErr now batchTime st pending due d : merging_ok (dbTables d) st pending -> NoDup (map fst due) ->
  (forall k e, (k, e) ∈ due -> rsStable st !! k = Some e) -> history_ok (dbTables d) -> reached (dbTables d) ->
  let r := flushCodexQuotaHistory fault ctxErr now st (pending ++ map (fun e => dfObservation e.2) due) (map fst due) batchTime d in
  history_ok (dbTables r.1) /\ reached (dbTables r.1) /\ merging_ok (dbTables r.1) r.2 [].
Proof.
  intros M Nd Sub H Re. set (P := pending ++ map (fun e => dfObservation e.2) due).
  destruct (batch_writable _ _ _ _ M Nd Sub) as (W & _ & _ & Who). fold P in W, Who.
  unfold flushCodexQuotaHistory. destruct P as [|p P'] eqn:EP.
  { cbn. split_and!; [done | done|]. apply app_eq_nil in EP as [-> _]. exact M. }
  rewrite <- EP in *.
  fold (pendingSort P). clear EP p P'.
  assert (forall o, o ∈ pendingSort P <-> o ∈ P) as Same by (intros; apply elem_of_stableSort).
  assert (writable (dbTables d) (pendingSort P)) as W'.
  { destruct W as [E A]. split; [intros o In; by apply E, Same|]. eapply apart_perm; [|exact A]. symmetry. apply stableSort_perm. }
  pose proof (write_ok fault ctxErr now (pendingSort P) d W' (sorted_before _ _ W) H Re) as (H' & Re' & Un).
  unfold sql_bind. destruct (WriteCodexMainQuotaObservations fault ctxErr now (pendingSort P) d) as [d' r]. cbn [fst] in *.
  assert (forall k limit, key_ok k -> until (dbTables d) k limit -> ends_by k P limit -> until (dbTables d') k limit) as Un'.
  { intros k limit Ko U En. apply Un; [done | done|]. intros o In. by apply En, Same. }
  destruct r as [[]|e]; cbn [sql_ret fst snd]; (split_and!; [done | done|]); apply (remains_ok _ _ _ _ _ _ M Nd Sub Un'); cbn.
  - intros k c' L. rewrite lookup_fmap in L. destruct (materialized_lookup batchTime (pendingSort P) (rsCurrent st) k) as (same & Sm & E).
    rewrite E in L. destruct (rsCurrent st !! k) as [c|] eqn:Lc; [|done]. cbn in L. injection L as <-. exists c.
    destruct (Sm c) as (T & La & _). by split_and!.
  - intros k e L. pose proof (foldl_delete_lookup id (map fst due) (rsStable st) k) as E. cbn in E. rewrite E, map_id in L. clear E. case_decide; [done|].
    split_and!; [done | done|]. destruct (mo_stable _ _ _ M _ _ L) as (_ & _ & _ & _ & c & Lc & _).
    rewrite lookup_fmap. destruct (materialized_lookup batchTime (pendingSort P) (rsCurrent st) k) as (same & _ & E').
    rewrite E', Lc. by eexists.
  - rewrite forget_all. cbn. intros k c L. rewrite foldl_delete_lookup in L. case_decide as Nin; [done|]. exists c. split_and!; [done..|].
    destruct (mo_index _ _ _ M _ _ L) as [?|(_ & i & o & _ & Li & U & _)]; [done|]. destruct Nin.
    apply list_elem_of_fmap. exists o. split; [symmetry; apply observationKey_under; [by eapply (mo_keys _ _ _ M) | done]|].
    apply Same, elem_of_app. left. by eapply list_elem_of_lookup_2.
  - rewrite forget_all. cbn. intros k e0 L. rewrite foldl_delete_lookup in L. rewrite foldl_delete_lookup. case_decide as Nin; [done|].
    destruct (mo_stable _ _ _ M _ _ L) as (U & _ & _ & _ & c & Lc & _). split_and!; [done| |by exists c].
    intros [[k' e'] [-> In]]%list_elem_of_fmap. cbn in *. apply Nin, list_elem_of_fmap. exists (dfObservation e'). split.
    + symmetry. apply observationKey_under; [by eapply (mo_keys _ _ _ M)|]. apply Sub in In. rewrite L in In. by injection In as <-.
    + apply Same, elem_of_app. right. apply list_elem_of_fmap. by exists (k', e').
Qed.

Lemma due_entries st batchTime all :
  let due := appendDueCodexQuotaHistoryStable st batchTime all in
  NoDup (map fst due) /\ forall k d, (k, d) ∈ due -> rsStable st !! k = Some d.
Proof.
  unfold appendDueCodexQuotaHistoryStable. cbn zeta. set (p := fun e => bool_decide _). clearbody p. split.
  - rewrite stableSort_perm. pose proof (NoDup_fst_map_to_list (rsStable st)) as N. revert N.
    generalize (map_to_list (rsStable st)). intros l. induction l as [|e l IH]; cbn; intros N; [constructor|].
    inversion N as [|? ? N1 N2]; subst. destruct (p e); cbn; [|by apply IH]. constructor; [|by apply IH].
    intros In. apply N1. apply list_elem_of_fmap in In as (e' & -> & In). apply list_elem_of_fmap. exists e'. split; [done|].
    apply list_elem_of_In in In. apply filter_In in In as [In _]. by apply list_elem_of_In.
  - intros k d In. rewrite elem_of_stableSort in In. apply list_elem_of_In, filter_In in In as [In _].
    by apply list_elem_of_In, elem_of_map_to_list in In.
Qed.

Section Batches.
Context (fault : nat -> option string) (ctxErr : nat -> option string) (now : nat -> Time).

(** The tables are in order and the memory knows where it stands. *)
Definition tracks (d : Db QuotaTables) (st : codexQuotaHistoryRunnerState) : Prop :=
  history_ok (dbTables d) /\ reached (dbTables d) /\ merging_ok (dbTables d) st [].

Lemma batch_ok listIdentities st candidates batchTime all d : Forall (fun c => built (cdObservation c)) candidates -> tracks d st ->
  let r := processCodexQuotaHistoryCandidateBatch fault ctxErr now listIdentities st candidates batchTime all d in tracks r.1 r.2.
Proof.
  intros B (H & Re & M). unfold processCodexQuotaHistoryCandidateBatch, sql_bind.
  set (vs := sortCodexQuotaHistoryCandidates _).
  assert (Forall (fun c => built (cdObservation c)) vs) as Bv.
  { rewrite Forall_forall in B |- *. intros c In. by apply B, (verified_among listIdentities). }
  pose proof (mergeAll_ok fault batchTime vs (mkMerging st ∅ [] ∅) d Bv H Re M) as [E M1].
  destruct (mergeAll fault batchTime (mkMerging st ∅ [] ∅) vs d) as [d1 m]. cbn [fst snd] in E, M1. cbv beta iota.
  rewrite <- E in H, Re, M1. set (st1 := hurryCohorts _ _).
  assert (merging_ok (dbTables d1) st1 (mgPending m)) as M2 by (by apply hurry_ok).
  destruct (due_entries st1 batchTime all) as [Nd Sub]. by apply flush_ok.
Qed.

Lemma split_among cs : let '(trusted, headers) := splitPreferredCodexQuotaHistoryCandidates cs in
  forall c, c ∈ trusted ++ headers -> c ∈ cs.
Proof.
  unfold splitPreferredCodexQuotaHistoryCandidates. cbn zeta. set (keys := list_to_set _). clearbody keys.
  destruct (List.filter _ cs) as [|x l] eqn:F; cbv beta iota; [done|]. rewrite <- F.
  intros c [In|In]%elem_of_app; apply list_elem_of_In, filter_In in In as [In _]; by apply list_elem_of_In.
Qed.

Lemma split_built inputs trusted headers : Forall (fun i => Forall built (observationsOf i)) inputs ->
  splitPreferredCodexQuotaHistoryCandidates (codexQuotaHistoryCandidates inputs) = (trusted, headers) ->
  Forall (fun c => built (cdObservation c)) (trusted ++ headers).
Proof.
  intros B Sp. pose proof (split_among (codexQuotaHistoryCandidates inputs)) as Sub. rewrite Sp in Sub. cbn in Sub.
  apply Forall_forall. intros c In. apply Sub in In. unfold codexQuotaHistoryCandidates in In.
  apply list_elem_of_In, in_flat_map in In as (i & In & Ic). apply list_elem_of_In in In, Ic.
  rewrite Forall_forall in B. pose proof (B _ In) as Bi. cbn in Bi. rewrite Forall_forall in Bi.
  apply elem_of_app in Ic as [Ic|Ic]; apply list_elem_of_fmap in Ic as (o & -> & Io); apply Bi, elem_of_app; auto.
Qed.

Lemma inputs_ok listIdentities st inputs batchTime shutdown d : Forall (fun i => Forall built (observationsOf i)) inputs ->
  tracks d st -> let r := processPreferredCodexQuotaHistoryInputs fault ctxErr now listIdentities st inputs batchTime shutdown d in tracks r.1 r.2.
Proof.
  intros B T. unfold processPreferredCodexQuotaHistoryInputs.
  destruct (splitPreferredCodexQuotaHistoryCandidates (codexQuotaHistoryCandidates inputs)) as [tr hd] eqn:Sp.
  apply batch_ok; [by eapply split_built | done].
Qed.

(** Everything that is deferred has a current state. *)
Definition synced (st : codexQuotaHistoryRunnerState) : Prop := forall k, is_Some (rsStable st !! k) -> is_Some (rsCurrent st !! k).

Lemma forget_sub deletion st : (forall k c, rsCurrent (forgetCycle deletion st) !! k = Some c -> rsCurrent st !! k = Some c)
  /\ forall k d, rsStable (forgetCycle deletion st) !! k = Some d -> rsStable st !! k = Some d.
Proof.
  unfold forgetCycle. cbn [rsCurrent rsStable]. set (key := mkStateKey _ _ _ _). clearbody key. split; intros k x L.
  - destruct (rsCurrent st !! key); [destruct (_ && _)|]; [by apply lookup_delete_Some in L as [_ L] | done | done].
  - destruct (rsStable st !! key); [destruct (MatchesObservation _ _)|]; [by apply lookup_delete_Some in L as [_ L] | done | done].
Qed.

Lemma deletion_ok st provider authIndex id d : tracks d st ->
  let r := deleteCodexQuotaHistoryCycle fault st provider authIndex id d in synced r.2.1 -> tracks r.1 r.2.1.
Proof.
  intros (H & Re & M) r Sy. assert (dbTables r.1 = dbTables (DeleteQuotaCycle fault provider authIndex id d).1) as E.
  { unfold r, deleteCodexQuotaHistoryCycle, sql_bind. by destruct (DeleteQuotaCycle _ _ _ _ _) as [d' [|]]. }
  assert ((forall k c, rsCurrent r.2.1 !! k = Some c -> rsCurrent st !! k = Some c) /\ forall k e, rsStable r.2.1 !! k = Some e -> rsStable st !! k = Some e) as [Cu St].
  { unfold r, deleteCodexQuotaHistoryCycle, sql_bind. destruct (DeleteQuotaCycle _ _ _ _ _) as [d' [del|]]; cbn; [apply forget_sub | done]. }
  assert (forall k limit, until (dbTables d) k limit -> until (dbTables r.1) k limit) as Un.
  { intros k limit U. rewrite E. destruct (deleted_tables fault provider authIndex id d) as [-> | [j ->]]; [done | by apply until_without]. }
  split_and!.
  - rewrite E. by apply delete_ok.
  - rewrite E. destruct (deleted_tables fault provider authIndex id d) as [-> | [j ->]]; [done | by apply reached_without].
  - split.
    + intros k c L. by apply (mo_keys _ _ _ M k c), Cu.
    + intros k c L Ht. destruct (mo_tail _ _ _ M _ _ (Cu _ _ L) Ht). split; [by apply Un | done].
    + intros k c L Ht. destruct (mo_none _ _ _ M _ _ (Cu _ _ L) Ht) as (? & ? & N). split_and!; [intros; by apply Un | done|].
      destruct (rsStable r.2.1 !! k) eqn:S; [|done]. apply St in S. congruence.
    + intros k e L. destruct (mo_stable _ _ _ M _ _ (St _ _ L)) as (? & ? & ? & ? & c & Lc & ?). split_and!; [done | done | by apply Un | done|].
      destruct (Sy k) as [c' Lc']; [by exists e|]. exists c'. split; [done|]. apply Cu in Lc'. congruence.
    + by intros o ?%elem_of_nil.
    + done.
    + intros k c L. destruct (mo_index _ _ _ M _ _ (Cu _ _ L)) as [?|(_ & i & o & _ & Li & _)]; [by left | done].
Qed.
End Batches.
