(* ===== verification/QuotaSamplerRuns.v ===== *)
(** Runs of the sampler of the quota history: whatever producers, requests and the
    database do, the history stays in order, nothing that was accepted is stranded, and
    stopping ends. *)
From S2P Require Import Prelude GoStrings GoTime Timeutil Sql GoFloat IdentityStats Quota RefreshTasks QuotaHistory QuotaHistoryFacts QuotaSampler QuotaSamplerFacts.
From stdpp Require Import sorting gmap relations.

Local Open Scope string_scope.
Local Open Scope list_scope.
Local Open Scope Z_scope.

(** ** What is offered is what is built *)

Lemma built_codex authIndex role window observedAt o :
  buildCodexMainQuotaObservation authIndex role window observedAt = Some o ->
  built o /\ obFirstObservedAt o = observedAt /\ obAuthIndex o = authIndex /\ obObservationCount o = 1 /\ obAuthoritative o = false
  /\ obWindowRole o = role /\ 0 < obWindowSeconds o <= int64_max / Second /\ (obResetAtSource o = "absolute" \/ obResetAtSource o = "relative").
Proof.
  unfold buildCodexMainQuotaObservation. destruct (negb (role =?s "primary") && _) eqn:R; [done|]. cbn zeta.
  destruct window as [w|]; [|done]. destruct (_ || _ || _); [done|]. destruct (_ || _); [done|].
  destruct ((cwLimitWindowSeconds w <=? 0) || _) eqn:W; [done|]. destruct (windowReset w observedAt) as [[reset source]|] eqn:Re; [|done].
  destruct (IsZero reset); [done|]. intros [= <-]. cbn. split_and!; try done; try lia.
  - split; [|done]. apply andb_false_iff in R as [R|R]; apply negb_false_iff, String.eqb_eq in R as ->; cbn; unfold knownWindows; set_solver.
  - revert Re. unfold windowReset. repeat case_match; intros [= _ <-]; auto.
Qed.

Lemma built_claude authIndex role key seconds value observedAt o :
  claudeObservation authIndex role key seconds value observedAt = Some o -> ("claude", role, key) ∈ knownWindows -> built o.
Proof.
  unfold claudeObservation. intros H In. destruct value as [v|]; [|done]. destruct (_ || _); [done|].
  destruct (parse_rfc3339 _) as [reset|]; [|done]. destruct (IsZero reset); [done|]. cbn zeta in H.
  destruct (buildCodexMainQuotaObservation _ _ _ _) as [o'|] eqn:B; [|done]. injection H as <-.
  destruct (built_codex _ _ _ _ _ B) as ([_ I] & _ & _ & _ & _ & R & _). split; cbn; [by rewrite R | done].
Qed.

Lemma in_option_list {A} (x : option A) y : y ∈ option_list x <-> x = Some y.
Proof. destruct x as [a|]; cbn; [rewrite list_elem_of_singleton; split; congruence | split; [by intros ?%elem_of_nil | done]]. Qed.

Lemma builders_build authIndex output observedAt : Forall built (BuildMainQuotaObservations authIndex output observedAt).
Proof.
  assert (Forall built (BuildCodexMainQuotaObservations authIndex output observedAt)) as Codex.
  { unfold BuildCodexMainQuotaObservations. cbn zeta. destruct (_ || _); [constructor|].
    destruct (codexUsagePayloadFromProviderOutput output) as [u|]; [|constructor]. destruct (cuRateLimit u) as [l|]; [|constructor].
    apply Forall_app. split; apply Forall_forall; intros o In%in_option_list; by apply built_codex in In as [? _]. }
  unfold BuildMainQuotaObservations. destruct (_ || _); [constructor|].
  destruct (codexUsagePayloadFromProviderOutput output); [done|].
  set (usage := match poResult output with ClaudeValue r => _ | _ => _ end). destruct usage as [u|]; [|constructor].
  apply Forall_app. split; apply Forall_forall; intros o In%in_option_list; eapply built_claude; try exact In; unfold knownWindows; set_solver.
Qed.

Section Runs.
Context (size : nat) (fault : nat -> option string) (ctxErr : nat -> option string) (now : nat -> Time).
Notation step := (sampler_step size fault ctxErr now).

(** ** The history stays in order *)

Definition good (i : codexQuotaHistoryInput) : Prop := Forall built (observationsOf i).

(** The inputs a state holds. *)
Definition holding (s : Sampler) : list codexQuotaHistoryInput :=
  sqHeaders s ++ sqTrusted s
  ++ (match sqOverflow s with Some (QueueFull i) | Some (HeadDropped i) => [i] | None => [] end)
  ++ match sqPhase s with Receiving _ _ _ inputs => inputs | _ => [] end.

Lemma cleared_good deletion q : Forall good q -> Forall good (clearQueuedCodexQuotaHistoryCycle deletion q).
Proof.
  intros G. apply Forall_forall. intros i In. unfold clearQueuedCodexQuotaHistoryCycle in In. apply list_elem_of_omap in In as (i0 & In & C).
  rewrite Forall_forall in G. specialize (G _ In). unfold clearInput in C.
  destruct (List.filter _ _) as [|o l] eqn:F; [done|]. injection C as <-. unfold good, observationsOf. cbn. rewrite <- F.
  apply Forall_forall. intros o' [In' _]%list_elem_of_In%filter_In. unfold good in G. rewrite Forall_forall in G. by apply G, list_elem_of_In.
Qed.

Definition tracking (s : Sampler) : Prop := Forall good (holding s) /\ tracks (sqDb s) (sqState s).

Lemma step_tracks s s' : step s s' -> synced (sqState s') -> tracking s -> tracking s'.
Proof.
  intros St Sy [G T]. unfold tracking, holding in *. rewrite !Forall_app in G |- *. destruct G as (Gh & Gt & Go & Gp).
  destruct St as [St|[St|[St|St]]].
  - destruct St as [s i [_ Bi] O _ _ _|s i [_ Bi] O _ _ _|s i [_ Bi] O _ _ _|s i O|s i O _|s i O _]; cbn; rewrite ?O in *; cbn in *;
      (split; [|done]); repeat (apply Forall_cons in Go as [Gi _]); rewrite ?Forall_app; split_and!; try done; try by constructor.
    by apply Forall_tail.
  - destruct St as [s O]. cbn. done.
  - destruct St as [s P W|s P O E|s P O E|s P|s P W|s P C|s sd P O|s sd h tr ins i q P E|s sd tr ins i q P E|s sd ins li bt d st P Run|s c del P O];
      cbn; rewrite ?P in *; try rewrite E in *; cbn in *.
    + done.
    + done.
    + done.
    + done.
    + destruct P as [P|P]; rewrite P in *; cbn; done.
    + destruct P as [P|P]; rewrite P in *; cbn; done.
    + split; [|done]. by split_and!.
    + split; [|done]. apply Forall_cons in Gh as [Gi Gh]. rewrite Forall_app, Forall_singleton. by split_and!.
    + split; [|done]. apply Forall_cons in Gt as [Gi Gt]. rewrite Forall_app, Forall_singleton. by split_and!.
    + split; [by destruct sd; split_and!|]. pose proof (inputs_ok fault ctxErr now li (sqState s) ins bt sd (sqDb s) Gp T) as Tr.
      rewrite Run in Tr. exact Tr.
    + split; [|done]. split_and!; [by apply cleared_good | done | done | by destruct c].
  - destruct St as [s provider authIndex id d st del P Run].
    pose proof (deletion_ok fault (sqState s) provider authIndex id (sqDb s) T) as Tr. rewrite Run in Tr. cbn in *. split; [|by apply Tr].
    destruct P as [P|P]; rewrite P in *; destruct del; cbn; by split_and!.
Qed.

Lemma run_tracks t s : history_ok t -> reached t -> rtc (fun s s' => step s s' /\ synced (sqState s')) (newSampler t) s -> tracking s.
Proof.
  intros H Re Run. assert (tracking (newSampler t)) as T.
  { split; [constructor|]. split_and!; [done | done|]. split; cbn; try (intros *; rewrite lookup_empty; done); [by intros o ?%elem_of_nil | done]. }
  clear H Re. induction Run as [|s1 s2 s3 [St Sy] _ IH]; [done|]. apply IH. by eapply step_tracks.
Qed.

(** C20: Whatever is offered in whatever order and however often the queue overflows,
    whichever statements fail, and whatever is deleted as long as the memory stays
    synced with it, the sampler keeps the history a staircase; and what it
    takes for the last observation of a quota is no earlier than anything recorded of it. *)
Theorem sampler_keeps_order (t : QuotaTables) (s : Sampler) : history_ok t -> reached t ->
  rtc (fun s s' => step s s' /\ synced (sqState s')) (newSampler t) s ->
  history_ok (dbTables (sqDb s))
  /\ forall k c, rsCurrent (sqState s) !! k = Some c -> csFound c && csHasTail c = true ->
       forall i segment cycle, qtSegments (dbTables (sqDb s)) !! i = Some segment ->
         qtCycles (dbTables (sqDb s)) !! sgCycleID segment = Some cycle ->
         ofQuota (skProvider k) (skAuthIndex k) (skQuotaKey k) cycle = true -> sgLastObservedAt segment <= csLastObservedAt c.
Proof.
  intros H Re Run. destruct (run_tracks t s H Re Run) as (_ & H' & _ & M). split; [done|].
  intros k c L Ht. by apply (mo_tail _ _ _ M _ _ L Ht).
Qed.

(** ** Nothing is stranded *)

Definition dropped (s : Sampler) : nat := match sqOverflow s with Some (HeadDropped _) => 1 | _ => 0 end.

(** A queue that is not empty has its notification set, unless the runner is about to
    count it; what the runner counted is there or on its way. *)
Record flowing (s : Sampler) : Prop := {
  fl_headers : (length (sqHeaders s) <= size)%nat;
  fl_trusted : (length (sqTrusted s) <= size)%nat;
  fl_overflow : match sqOverflow s with
                | None => True
                | Some (QueueFull _) => sqClosing s = false
                | Some (HeadDropped _) => sqClosing s = false /\ (length (sqHeaders s) < size)%nat
                end;
  fl_phase :
    let noticed := (0 < length (sqHeaders s))%nat -> sqHeaderWake s = true in
    let trusts := (0 < length (sqTrusted s))%nat -> sqTrustedWake s = true in
    match sqPhase s with
    | Selecting => noticed /\ trusts
    | Noticed | Collecting => trusts
    | Fixing shutdown => shutdown = true -> sqClosing s = true
    | Receiving shutdown headers trusted _ =>
        (headers <= length (sqHeaders s) + dropped s)%nat /\ (trusted <= length (sqTrusted s))%nat
        /\ ((headers < length (sqHeaders s))%nat -> sqHeaderWake s = true)
        /\ ((trusted < length (sqTrusted s))%nat -> sqTrustedWake s = true)
        /\ (shutdown = true -> sqClosing s = true /\ headers = length (sqHeaders s) /\ trusted = length (sqTrusted s))
    | Clearing collecting _ => (collecting = false -> noticed) /\ trusts
    | Stopped => sqClosing s = true /\ sqHeaders s = [] /\ sqTrusted s = []
    end;
}.

Lemma tail_length {A} (l : list A) : length (tail l) = (length l - 1)%nat.
Proof. destruct l; cbn; lia. Qed.

Lemma cleared_length deletion q : (length (clearQueuedCodexQuotaHistoryCycle deletion q) <= length q)%nat.
Proof. unfold clearQueuedCodexQuotaHistoryCycle. induction q as [|i q IH]; cbn; [lia|]. destruct (clearInput deletion i); cbn; lia. Qed.

Local Ltac flow :=
  intuition (try congruence; try lia); try match goal with H : _ -> ?g |- ?g => apply H; lia end.

Lemma flowing_produced s s' : (0 < size)%nat -> producer_step size s s' -> flowing s -> flowing s'.
Proof.
  intros Pos St [Fh Ft Fo Fp]. destruct St as [s i _ O C _ L|s i _ O C _ L|s i _ O C _ L|s i O|s i O L|s i O L];
    unfold dropped in *; rewrite O in *; split; unfold dropped; cbn; rewrite ?O, ?C, ?length_app, ?tail_length; cbn; try done; try lia.
  all: destruct (sqPhase s) as [| | |sd|sd h tr ins|c del|]; cbn in *; rewrite ?O, ?C, ?length_app, ?tail_length in *; cbn in *; try done; try tauto;
    flow.
Qed.

Lemma flowing_ran s s' : runner_step fault ctxErr now s s' -> flowing s -> flowing s'.
Proof.
  intros St [Fh Ft Fo Fp].
  destruct St as [s P W|s P O E|s P O E|s P|s P W|s P C|s sd P O|s sd h tr ins i q P E|s sd tr ins i q P E|s sd ins li bt d st P Run|s c del P O];
    try destruct P as [P|P]; unfold dropped in *; rewrite P in *; split; unfold dropped; cbn in *; try done; try lia;
    try (rewrite E in *; cbn in *); try (pose proof (cleared_length del (sqHeaders s)));
    try (destruct (sqOverflow s) as [[]|]; cbn in *; try done; flow; fail); try destruct sd; try destruct c; cbn in *; try done; flow;
    by apply length_zero_iff_nil.
Qed.

Lemma flowing_stopped s s' : stop_step s s' -> flowing s -> flowing s'.
Proof. intros [s0 O] [Fh Ft Fo Fp]. split; cbn; rewrite ?O in *; try done. destruct (sqPhase s0); cbn in *; unfold dropped in *; cbn; flow. Qed.

Lemma flowing_deleted s s' : delete_step fault s s' -> flowing s -> flowing s'.
Proof.
  intros [s0 provider authIndex id d st del P Run] [Fh Ft Fo Fp]. split; cbn; try done.
  destruct P as [P|P]; rewrite P in *; cbn in Fp; [destruct Fp as [F1 F2]|]; destruct del; cbn; flow.
Qed.

Lemma flowing_run t s : (0 < size)%nat -> rtc step (newSampler t) s -> flowing s.
Proof.
  intros Pos Run. assert (flowing (newSampler t)) as F by (split; cbn; lia).
  induction Run as [|s1 s2 s3 St _ IH]; [done|]. apply IH. clear IH.
  destruct St as [St|[St|[St|St]]]; [by eapply flowing_produced | by eapply flowing_stopped | by eapply flowing_ran | by eapply flowing_deleted].
Qed.

(** A step of the runner or, where it holds the lock, of the producer. *)
Lemma can_go_on s : (0 < size)%nat -> flowing s ->
  sqPhase s = Stopped \/ (exists s', runner_step fault ctxErr now s s')
  \/ (sqOverflow s <> None /\ exists s', producer_step size s s')
  \/ (sqPhase s = Selecting /\ sqHeaders s = [] /\ sqTrusted s = [] /\ sqClosing s = false).
Proof.
  intros Pos [Fh Ft Fo Fp]. destruct (sqOverflow s) as [[i|i]|] eqn:O.
  { right. right. left. split; [done|]. eexists. by eapply append_drops_head. }
  { right. right. left. split; [done|]. eexists. eapply append_again; [done | apply Fo]. }
  destruct (sqPhase s) as [| | |sd|sd h tr ins|c del|] eqn:P; cbn in Fp; [..|by left]; right.
  - destruct (sqHeaderWake s) eqn:W; [left; eexists; by eapply notice_header|].
    destruct (sqTrustedWake s) eqn:W'; [left; eexists; eapply notice_trusted; auto|].
    destruct (sqClosing s) eqn:C; [left; eexists; eapply notice_stop; auto|]. right. right.
    destruct Fp as [F1 F2]. split_and!; try done; apply length_zero_iff_nil; [destruct (length (sqHeaders s)) | destruct (length (sqTrusted s))]; try done;
      [by discriminate F1; lia | by discriminate F2; lia].
  - left. destruct (sqHeaders s) eqn:E; eexists; [by eapply notice_nothing | eapply start_collecting; [done | done | by rewrite E]].
  - left. eexists. by eapply minute_passes.
  - left. eexists. by eapply fix_counts.
  - left. unfold dropped in Fp. rewrite O in Fp. destruct Fp as (F1 & F2 & _). destruct h as [|h].
    + destruct tr as [|tr].
      * destruct (processPreferredCodexQuotaHistoryInputs fault ctxErr now (fun _ => Ok []) (sqState s) ins 0 sd (sqDb s)) as [d st] eqn:E.
        eexists. by eapply process_batch.
      * destruct (sqTrusted s) as [|i q] eqn:E; cbn in F2; [lia|]. eexists. by eapply receive_trusted.
    + destruct (sqHeaders s) as [|i q] eqn:E; cbn in F1; [lia|]. eexists. by eapply receive_header.
  - left. eexists. by eapply clear_queue.
Qed.

(** C21: No accepted input is stranded: the queues stay within their size and an input
    that takes the place of a dropped head is never refused; a step is always possible
    unless nothing is left to do, so no notification is lost; and when the runner has
    stopped both queues are empty. *)
Theorem nothing_stranded (t : QuotaTables) (s : Sampler) : (0 < size)%nat -> rtc step (newSampler t) s ->
  (length (sqHeaders s) <= size)%nat /\ (length (sqTrusted s) <= size)%nat
  /\ (forall input, sqOverflow s = Some (HeadDropped input) -> (length (sqHeaders s) < size)%nat)
  /\ (sqPhase s = Stopped \/ (exists s', runner_step fault ctxErr now s s')
       \/ (sqOverflow s <> None /\ exists s', producer_step size s s')
       \/ (sqPhase s = Selecting /\ sqHeaders s = [] /\ sqTrusted s = [] /\ sqClosing s = false))
  /\ (sqPhase s = Stopped -> sqHeaders s = [] /\ sqTrusted s = [] /\ sqOverflow s = None).
Proof.
  intros Pos Run. pose proof (flowing_run t s Pos Run) as F. pose proof (can_go_on s Pos F) as Go. destruct F as [Fh Ft Fo Fp].
  split_and!; [done | done | | done |].
  - intros i O. rewrite O in Fo. apply Fo.
  - intros P. rewrite P in Fp. destruct Fp as (C & -> & ->). split_and!; try done.
    destruct (sqOverflow s) as [[]|]; [congruence | destruct Fo; congruence | done].
Qed.

(** ** Stopping ends *)

Definition flag (b : bool) : nat := if b then 1 else 0.

(** The steps of the runner that are left when nothing more arrives. *)
Definition stepsLeft (s : Sampler) : nat :=
  let n := (length (sqHeaders s) + length (sqTrusted s))%nat in
  ((n + 5) * (flag (sqHeaderWake s) + flag (sqTrustedWake s))
   + match sqPhase s with
     | Stopped => 0
     | Selecting => n + 3
     | Noticed => 2 * n + 7
     | Collecting => 2 * n + 6
     | Fixing true => n + 2
     | Fixing false => 2 * n + 5
     | Receiving true headers trusted _ => headers + trusted + 1
     | Receiving false headers trusted _ => n + 4 + headers + trusted
     | Clearing true _ => 2 * n + 7
     | Clearing false _ => n + 4
     end)%nat.

Lemma step_costs s s' : runner_step fault ctxErr now s s' -> (stepsLeft s' < stepsLeft s)%nat.
Proof.
  intros St. unfold stepsLeft.
  destruct St as [s P W|s P O E|s P O E|s P|s P W|s P C|s sd P O|s sd h tr ins i q P E|s sd tr ins i q P E|s sd ins li bt d st P Run|s c del P O];
    try destruct P as [P|P]; rewrite P; cbn; try rewrite W; try rewrite E; cbn; try (pose proof (cleared_length del (sqHeaders s)));
    try destruct sd; try destruct c; destruct (sqHeaderWake s), (sqTrustedWake s); cbn; lia.
Qed.

(** C25: Stopping ends: after the stop, however the remaining steps of the runner are
    taken, there are no more of them than a bound that depends on the size of the queues
    only, and where they end the runner has stopped with both queues empty. *)
Theorem stop_finishes (t : QuotaTables) (s s' : Sampler) (n : nat) : (0 < size)%nat -> rtc step (newSampler t) s ->
  sqClosing s = true -> nsteps (runner_step fault ctxErr now) n s s' ->
  (n <= 8 * size + 17)%nat
  /\ ((exists s'', runner_step fault ctxErr now s' s'')
      \/ sqPhase s' = Stopped /\ sqHeaders s' = [] /\ sqTrusted s' = [] /\ sqOverflow s' = None).
Proof.
  intros Pos Run C Ns. pose proof (flowing_run t s Pos Run) as F.
  assert (n + stepsLeft s' <= stepsLeft s /\ flowing s' /\ sqClosing s' = true)%nat as (Cost & F' & C').
  { clear Run. induction Ns as [s|n s1 s2 s3 St _ IH]; [done|]. pose proof (step_costs _ _ St).
    assert (sqClosing s2 = sqClosing s1) as E by (by destruct St). rewrite <- E in C.
    destruct (IH C (flowing_ran _ _ St F)) as (? & ? & ?). split_and!; [lia | done | done]. }
  assert (stepsLeft s <= 8 * size + 17)%nat as Bound.
  { unfold stepsLeft. destruct F as [Fh Ft _ Fp]. destruct (sqPhase s) as [| | |sd|sd h tr ins|c del|]; cbn in Fp;
      try destruct sd; try destruct c; destruct (sqHeaderWake s), (sqTrustedWake s); unfold dropped in Fp; cbn; try lia;
      destruct Fp as (F1 & F2 & _); destruct (sqOverflow s) as [[]|]; lia. }
  split; [lia|]. assert (sqOverflow s' = None) as O.
  { destruct F' as [_ _ Fo _]. destruct (sqOverflow s') as [[]|]; [congruence | destruct Fo; congruence | done]. }
  destruct (can_go_on s' Pos F') as [P|[?|[[? _]|(_ & _ & _ & ?)]]]; [right | by left | done | congruence].
  destruct F' as [_ _ _ Fp]. rewrite P in Fp. by destruct Fp as (_ & -> & ->).
Qed.

(** ** Nothing is deferred for long *)

(** What is not due when a batch is written. *)
Lemma not_due st batchTime all k e : rsStable st !! k = Some e ->
  k ∉ map fst (appendDueCodexQuotaHistoryStable st batchTime all) -> all = false /\ stableDue st batchTime (k, e) = false.
Proof.
  intros L Nin. destruct (all || stableDue st batchTime (k, e)) eqn:D; [|by apply orb_false_iff in D]. destruct Nin.
  apply list_elem_of_fmap. exists (k, e). split; [done|]. unfold appendDueCodexQuotaHistoryStable. cbn zeta.
  assert ((k, e) ∈ map_to_list (rsStable st)) as In by (by apply elem_of_map_to_list).
  apply elem_of_stableSort, list_elem_of_In, filter_In. split; [by apply list_elem_of_In|]. apply bool_decide_eq_true, elem_of_list_to_set.
  apply list_elem_of_fmap. exists (k, e). split; [done|]. apply list_elem_of_In, filter_In. split; [by apply list_elem_of_In | done].
Qed.

(** What is left of the memory by a write: a deferred observation that was not due, under
    its current state or one of which more was written just now. *)
Lemma flushed st pending due batchTime d k e c : merging_ok (dbTables d) st pending -> NoDup (map fst due) ->
  (forall k e, (k, e) ∈ due -> rsStable st !! k = Some e) ->
  let r := flushCodexQuotaHistory fault ctxErr now st (pending ++ map (fun e => dfObservation e.2) due) (map fst due) batchTime d in
  rsStable r.2 !! k = Some e -> rsCurrent r.2 !! k = Some c ->
  rsStable st !! k = Some e /\ k ∉ map fst due
  /\ exists c0, rsCurrent st !! k = Some c0 /\ (csLastMaterializedAt c = batchTime \/ csLastMaterializedAt c = csLastMaterializedAt c0).
Proof.
  intros M Nd Sub. cbn zeta. set (P := pending ++ map (fun e => dfObservation e.2) due). unfold flushCodexQuotaHistory.
  destruct P as [|p P'] eqn:EP.
  { cbn. apply app_eq_nil in EP as [_ ->%map_eq_nil]. intros L Lc. split_and!; [done | by intros ?%elem_of_nil|]. exists c. auto. }
  rewrite <- EP. fold (pendingSort P). clear EP p P'. unfold sql_bind.
  destruct (WriteCodexMainQuotaObservations _ _ _ _ _) as [d1 [u|er]]; cbn.
  - pose proof (foldl_delete_lookup id (map fst due) (rsStable st) k) as E. cbn in E. rewrite E, map_id. clear E.
    case_decide; [done|]. intros L Lc. split_and!; [done | done|]. rewrite lookup_fmap in Lc.
    destruct (materialized_lookup batchTime (pendingSort P) (rsCurrent st) k) as (same & Sm & E). rewrite E in Lc.
    destruct (rsCurrent st !! k) as [c0|]; [|done]. injection Lc as <-. exists c0. split; [done|]. cbn. destruct (Sm c0) as (_ & _ & Y & N).
    destruct (decide (k ∈ map observationKey (pendingSort P))); [left; by apply Y | right; by apply N].
  - rewrite forget_all. cbn. rewrite !foldl_delete_lookup. case_decide as Nin; [done|]. intros L Lc.
    split_and!; [done| |exists c; auto]. intros [[k' e'] [Ek In]]%list_elem_of_fmap. cbn in Ek. subst k'. apply Nin, list_elem_of_fmap.
    exists (dfObservation e'). split.
    + symmetry. pose proof (Sub _ _ In) as Se. destruct (mo_stable _ _ _ M _ _ Se) as (U & _ & _ & _ & c' & Lc' & _).
      apply observationKey_under; [by eapply (mo_keys _ _ _ M) | done].
    + apply elem_of_stableSort, elem_of_app. right. apply list_elem_of_fmap. by exists (k, e').
Qed.

End Runs.

(** ** Runs that exist *)

Lemma synced_check st : bool_decide (dom (rsStable st) ⊆ dom (rsCurrent st)) = true -> synced st.
Proof. intros H%bool_decide_eq_true k K. apply elem_of_dom, H. by apply elem_of_dom. Qed.

Lemma reached_empty : reached emptyQuotaTables.
Proof. intros k c L. cbn in L. by rewrite lookup_empty in L. Qed.

Definition idle (d : Db QuotaTables) (st : codexQuotaHistoryRunnerState) : Sampler :=
  mkSampler d st [] [] false false false None Selecting.
Definition receiving (d : Db QuotaTables) (st : codexQuotaHistoryRunnerState) (i : codexQuotaHistoryInput) : Sampler :=
  mkSampler d st [] [] false false false None (Receiving false 0 0 [i]).

(** A direct check that was observed at an instant. *)
Definition checked (resetAt percent at_ : Z) : codexQuotaHistoryInput :=
  mkHistoryInput None [mkObservation "codex" "rate_limit.primary_window" "auth" "primary" 18000 "absolute" (unix_time resetAt) percent
                         (unix_time at_) (unix_time at_) 1 false] true None.

Lemma checked_offered resetAt percent at_ : offeredInput (checked resetAt percent at_).
Proof. split; [done|]. constructor; [|constructor]. split; [cbn; unfold knownWindows; set_solver | done]. Qed.

Definition batchOf (d : Db QuotaTables) (st : codexQuotaHistoryRunnerState) (i : codexQuotaHistoryInput) (at_ : Time) :=
  processPreferredCodexQuotaHistoryInputs noFault noFault (fun _ => 0) (fun _ => Ok []) st [i] at_ false d.

Section Rounds.
Notation step := (sampler_step 1 noFault noFault (fun _ => 0)).
Notation run := (rtc (fun s s' => step s s' /\ synced (sqState s'))).

Lemma round_receives d st i : offeredInput i -> hinSource i = None -> synced st -> run (idle d st) (receiving d st i).
Proof.
  intros O So Sy.
  eapply rtc_l; [split; [left; by eapply append_header; [exact O | done | done | by rewrite So | cbn; lia]|done]|].
  eapply rtc_l; [split; [right; right; left; by eapply notice_header | done]|].
  eapply rtc_l; [split; [right; right; left; by eapply start_collecting | done]|].
  eapply rtc_l; [split; [right; right; left; by eapply minute_passes | done]|].
  eapply rtc_l; [split; [right; right; left; by eapply fix_counts | done]|].
  eapply rtc_l; [split; [right; right; left; by eapply receive_header | done]|]. constructor.
Qed.

Lemma round_runs d st i at_ d' st' : offeredInput i -> hinSource i = None -> synced st -> batchOf d st i at_ = (d', st') -> synced st' ->
  run (idle d st) (idle d' st').
Proof.
  intros O So Sy B Sy'. eapply rtc_r; [by apply round_receives|]. split; [|exact Sy']. right. right. left.
  exact (process_batch noFault noFault (fun _ => 0) (receiving d st i) false [i] (fun _ => Ok []) at_ d' st' eq_refl B).
Qed.
End Rounds.

Definition resetAt0 : Z := 1700018000.
Definition batch1 := batchOf emptyDb newCodexQuotaHistoryRunnerState (checked resetAt0 80 1700000000) (unix_time 1700000010).
Definition batch2 := batchOf batch1.1 batch1.2 (checked resetAt0 80 1700000060) (unix_time 1700000070).
Definition authKey : codexQuotaHistoryStateKey := mkStateKey "codex" "rate_limit.primary_window" "auth" "primary".

Example batch2_defers : option_map (fun e => (obObservationCount (dfObservation e), dfImmediate e)) (rsStable batch2.2 !! authKey) = Some (1, false).
Proof. vm_compute. reflexivity. Qed.

Lemma checked_round resetAt percent at_ d st batchTime : synced st -> synced (batchOf d st (checked resetAt percent at_) batchTime).2 ->
  rtc (fun s s' => sampler_step 1 noFault noFault (fun _ => 0) s s' /\ synced (sqState s')) (idle d st)
    (idle (batchOf d st (checked resetAt percent at_) batchTime).1 (batchOf d st (checked resetAt percent at_) batchTime).2).
Proof. intros. eapply round_runs; [apply checked_offered | done | done | apply surjective_pairing | done]. Qed.

Lemma batch1_synced : synced batch1.2.
Proof. apply synced_check. vm_compute. reflexivity. Qed.

Lemma batch2_synced : synced batch2.2.
Proof. apply synced_check. vm_compute. reflexivity. Qed.

Lemma empty_synced : synced newCodexQuotaHistoryRunnerState.
Proof. apply synced_check. vm_compute. reflexivity. Qed.

Lemma two_rounds : rtc (fun s s' => sampler_step 1 noFault noFault (fun _ => 0) s s' /\ synced (sqState s')) (newSampler emptyQuotaTables)
  (idle batch2.1 batch2.2).
Proof.
  transitivity (idle batch1.1 batch1.2); [apply (checked_round resetAt0 80 1700000000 emptyDb); [apply empty_synced | apply batch1_synced]|].
  apply checked_round; [apply batch1_synced | apply batch2_synced].
Qed.

Lemma sampler_keeps_order_witness :
  history_ok (dbTables (sqDb (idle batch2.1 batch2.2)))
  /\ forall k c, rsCurrent (sqState (idle batch2.1 batch2.2)) !! k = Some c -> csFound c && csHasTail c = true ->
       forall i segment cycle, qtSegments (dbTables (sqDb (idle batch2.1 batch2.2))) !! i = Some segment ->
         qtCycles (dbTables (sqDb (idle batch2.1 batch2.2))) !! sgCycleID segment = Some cycle ->
         ofQuota (skProvider k) (skAuthIndex k) (skQuotaKey k) cycle = true -> sgLastObservedAt segment <= csLastObservedAt c.
Proof.
  exact (sampler_keeps_order 1 noFault noFault (fun _ => 0) emptyQuotaTables (idle batch2.1 batch2.2) empty_ok reached_empty two_rounds).
Defined.

Lemma stops_run s : rtc (fun s s' => sampler_step 1 noFault noFault (fun _ => 0) s s' /\ synced (sqState s')) (newSampler emptyQuotaTables) s ->
  rtc (sampler_step 1 noFault noFault (fun _ => 0)) (newSampler emptyQuotaTables) s.
Proof. induction 1 as [|s1 s2 s3 [St _] _ IH]; [done|]. by eapply rtc_l. Qed.

Definition fullSampler : Sampler := setHeaders [checked resetAt0 80 1700000000] true (newSampler emptyQuotaTables).
Definition overflowing : Sampler := setOverflow (Some (QueueFull (checked resetAt0 70 1700000100))) fullSampler.

Lemma overflowing_run : rtc (sampler_step 1 noFault noFault (fun _ => 0)) (newSampler emptyQuotaTables) overflowing.
Proof.
  eapply rtc_l; [left; by eapply (append_header 1 _ (checked resetAt0 80 1700000000)); [apply checked_offered|..]; cbn; try lia|].
  eapply rtc_l; [left; by eapply (append_overflows 1 _ (checked resetAt0 70 1700000100)); [apply checked_offered|..]|]. constructor.
Qed.

Lemma nothing_stranded_witness :
  (length (sqHeaders overflowing) <= 1)%nat /\ (length (sqTrusted overflowing) <= 1)%nat
  /\ (forall input, sqOverflow overflowing = Some (HeadDropped input) -> (length (sqHeaders overflowing) < 1)%nat)
  /\ (sqPhase overflowing = Stopped \/ (exists s', runner_step noFault noFault (fun _ => 0) overflowing s')
       \/ (sqOverflow overflowing <> None /\ exists s', producer_step 1 overflowing s')
       \/ (sqPhase overflowing = Selecting /\ sqHeaders overflowing = [] /\ sqTrusted overflowing = [] /\ sqClosing overflowing = false))
  /\ (sqPhase overflowing = Stopped -> sqHeaders overflowing = [] /\ sqTrusted overflowing = [] /\ sqOverflow overflowing = None).
Proof.
  exact (nothing_stranded 1 noFault noFault (fun _ => 0) emptyQuotaTables overflowing (Nat.lt_0_1) overflowing_run).
Defined.

Definition stopping : Sampler := setClosing (newSampler emptyQuotaTables).
Definition fixed_ : Sampler := setPhase (Fixing true) stopping.

Lemma stopping_run : rtc (sampler_step 1 noFault noFault (fun _ => 0)) (newSampler emptyQuotaTables) stopping.
Proof. eapply rtc_l; [right; left; by apply stop_closes | constructor]. Qed.

Lemma stop_finishes_witness :
  (1 <= 8 * 1 + 17)%nat
  /\ ((exists s'', runner_step noFault noFault (fun _ => 0) fixed_ s'')
      \/ sqPhase fixed_ = Stopped /\ sqHeaders fixed_ = [] /\ sqTrusted fixed_ = [] /\ sqOverflow fixed_ = None).
Proof.
  apply (stop_finishes 1 noFault noFault (fun _ => 0) emptyQuotaTables stopping fixed_ 1 Nat.lt_0_1 stopping_run eq_refl).
  eapply nsteps_l; [apply notice_stop; [by left | done] | constructor].
Defined.

Definition deferred2 : codexQuotaHistoryDeferredStable :=
  default (mkDeferred (sampleObservation 0 0 0 false) true) (rsStable batch2.2 !! authKey).


(** ** A deletion that leaves an observation behind *)

(** A header lowers the percentage at a reset that drifted, the next one repeats it at a
    reset that drifted further and is deferred; the deletion of the cycle forgets the
    current state and keeps the deferred observation, which is a cycle again as soon as
    something is written. *)
Definition drift1 := batchOf emptyDb newCodexQuotaHistoryRunnerState (checked resetAt0 90 1700000000) (unix_time 1700000010).
Definition drift2 := batchOf drift1.1 drift1.2 (checked (resetAt0 + 100) 80 1700000060) (unix_time 1700000070).
Definition drift3 := batchOf drift2.1 drift2.2 (checked (resetAt0 + 200) 80 1700000120) (unix_time 1700000130).
Definition driftDeleted := deleteCodexQuotaHistoryCycle noFault drift3.2 "codex" "auth" 1 drift3.1.
Definition driftStopped := processPreferredCodexQuotaHistoryInputs noFault noFault (fun _ => 0) (fun _ => Ok []) driftDeleted.2.1 []
  (unix_time 1700000140) true driftDeleted.1.

Lemma deleted_comes_back :
  (map_size (rsCurrent driftDeleted.2.1), map_size (rsStable driftDeleted.2.1), map_size (qtCycles (dbTables driftDeleted.1)))
  = (0, 1, 0)%nat
  /\ map_size (qtCycles (dbTables driftStopped.1)) = 1%nat.
Proof. split; vm_compute; reflexivity. Qed.
