(* ===== verification/Resp.v ===== *)
(** The Redis protocol of the intake: poller/redis_subscribe_source.go,
    poller/redis_error_subscribe_source.go, poller/redis_pull_source.go and
    cpa/redis_queue_client.go.

    The two packages have a parser each; they differ in their limits and in whether they
    know integers, so there is one parser here with the limits as a record.  A connection
    is what arrives on it, byte by byte, with the interruptions between the bytes: a read
    deadline that passes or a connection that breaks.  Reading consumes what it has read
    also when it fails, as bufio.Reader does.  Dialling, TLS and the derivation of the
    address from the URLs are left out. *)
From S2P Require Import Prelude GoStrings GoTime IngestRunner.
From Stdlib Require Import Ascii.

Local Open Scope string_scope.
Local Open Scope list_scope.
Local Open Scope Z_scope.

(** ** Connections *)

(** [ctxDone] tells whether the context of the caller is done when the read deadline
    passes: the deadline of the socket can come first by a moment.  [Cancelled] is the
    connection closed because the context was cancelled.  A context is done from the
    interruption on at which a reader learns of it. *)
Inductive NetError :=
| Timeout (ctxDone : bool)
| Cancelled
| Broken (text : string).

Inductive Arrival :=
| Byte (a : ascii)
| Stop (e : NetError).

(** At the end of the list nothing arrives any more: io.EOF. *)
Definition Stream : Type := list Arrival.

Definition bytesOf (s : string) : Stream := map Byte (String.list_ascii_of_string s).

Inductive RespError :=
| NetFailed (e : NetError)
| LineTooLong
| MalformedLine
| BadInteger
| BulkTooLong
| TotalTooLong
| MalformedBulk
| ArrayTooLong
| TooDeep
| UnsupportedPrefix.

Definition Read (A : Type) : Type := Stream -> Stream * result RespError A.

Definition read_ret {A} (a : A) : Read A := fun s => (s, Ok a).
Definition read_fail {A} (e : RespError) : Read A := fun s => (s, Err e).
Definition read_bind {A B} (m : Read A) (f : A -> Read B) : Read B := fun s =>
  match m s with (s, Ok a) => f a s | (s, Err e) => (s, Err e) end.

Declare Scope read_scope.
Delimit Scope read_scope with read.
Notation "'get' x := m 'in' k" := (read_bind m (fun x => k))
  (at level 200, x binder, m at level 100, k at level 200) : read_scope.
Local Open Scope read_scope.

(** One byte, or the error [eof] when none comes any more. *)
Definition readNext (eof : string) : Read ascii := fun s =>
  match s with
  | [] => ([], Err (NetFailed (Broken eof)))
  | Stop e :: s => (s, Err (NetFailed e))
  | Byte a :: s => (s, Ok a)
  end.

(** reader.ReadByte *)
Definition readByte : Read ascii := readNext "EOF".

(** io.ReadFull over a buffer of [n] bytes, which may end before its first byte only. *)
Fixpoint readFullFrom (eof : string) (n : nat) : Read (list ascii) :=
  match n with
  | O => read_ret []
  | S n => get a := readNext eof in get l := readFullFrom "unexpected EOF" n in read_ret (a :: l)
  end.
Definition readFull (n : nat) : Read (list ascii) := readFullFrom "EOF" n.

Definition redisIngestMaxRESPLineLength : Z := 4096.
Definition LF : ascii := mk_byte 10.
Definition CR : ascii := mk_byte 13.

(** The loop over ReadSlice, with a buffer as long as a line may be: [count] bytes are
    read, [line] holds them backwards.  An interruption in the second buffer and a second
    full buffer are reported as a line that is too long. *)
Fixpoint readSlices (count : Z) (line : list ascii) (s : Stream) : Stream * result RespError (list ascii) :=
  let interrupted e := if redisIngestMaxRESPLineLength <? count then LineTooLong else e in
  match s with
  | [] => ([], Err (interrupted (NetFailed (Broken "EOF"))))
  | Stop e :: s => (s, Err (interrupted (NetFailed e)))
  | Byte a :: s =>
      let count := count + 1 in
      if Ascii.eqb a LF then
        if redisIngestMaxRESPLineLength <? count then (s, Err LineTooLong) else (s, Ok (rev (a :: line)))
      else if count =? 2 * redisIngestMaxRESPLineLength then (s, Err LineTooLong)
      else readSlices count (a :: line) s
  end.

(** The line without its end, which must be CRLF. *)
Definition lineBody (line : list ascii) : option (list ascii) :=
  match rev line with
  | a :: b :: body => if Ascii.eqb a LF && Ascii.eqb b CR then Some (rev body) else None
  | _ => None
  end.

Definition readRedisIngestRESPLine : Read string :=
  get line := readSlices 0 [] in
  match lineBody line with
  | None => read_fail MalformedLine
  | Some body => read_ret (String.string_of_list_ascii body)
  end.

(** The queue client has a copy of the same loop. *)
Definition readRESPLine : Read string := readRedisIngestRESPLine.

Definition readRedisIngestRESPInt : Read Z :=
  get line := readRedisIngestRESPLine in
  match Atoi line with None => read_fail BadInteger | Some n => read_ret n end.

(** ** Values *)

Inductive RESPValue :=
| Simple (s : string)
| Bulk (s : string)
| Array (items : list RESPValue)
| ErrorReply (s : string)
| NilReply.

Definition stringValue (v : RESPValue) : string :=
  match v with Simple s => s | Bulk s => s | _ => EmptyString end.

Definition replyError (v : RESPValue) : option string :=
  match v with ErrorReply s => if s =?s EmptyString then None else Some s | _ => None end.

(** The strings of the reply of LPOP. *)
Definition respStrings (v : RESPValue) : list string :=
  match v with
  | Bulk s => [s]
  | Array items => omap (fun item => match item with Bulk s => Some s | _ => None end) items
  | _ => []
  end.

Record Limits := mkLimits {
  limIntegers : bool;
  limArray : Z;
  limBulk : Z;
  limTotal : Z;
}.

Definition respMaxDepth : nat := 4.
Definition redisIngestMaxRESPBulkSize : Z := 4 * 1024 * 1024.
Definition ingestLimits : Limits := mkLimits true 16 redisIngestMaxRESPBulkSize (redisIngestMaxRESPBulkSize + 4096).

Definition ManagementUsageQueueMaxBatchSize : Z := 10000.
Definition redisQueueMaxRESPTotalBulkSize : Z := 16 * 1024 * 1024.

(** readRESPValueWithLimits: the length an array may have. *)
Definition queueLimits (maxArrayLength : Z) : Limits :=
  mkLimits false
    (if (maxArrayLength <=? 0) || (ManagementUsageQueueMaxBatchSize <? maxArrayLength)
     then ManagementUsageQueueMaxBatchSize else maxArrayLength)
    (4 * 1024 * 1024) redisQueueMaxRESPTotalBulkSize.

(** A bulk string, and the bytes that may still come. *)
Definition readBulk (lim : Limits) (remaining : Z) : Read (RESPValue * Z) :=
  get size := readRedisIngestRESPInt in
  if size <? 0 then read_ret (NilReply, remaining)
  else if limBulk lim <? size then read_fail BulkTooLong
  else if remaining <? size then read_fail TotalTooLong
  else
    get buf := readFull (Z.to_nat size + 2) in
    if bool_decide (drop (Z.to_nat size) buf = [CR; LF])
    then read_ret (Bulk (String.string_of_list_ascii (take (Z.to_nat size) buf)), remaining - size)
    else read_fail MalformedBulk.

(** The items of an array, one after the other. *)
Fixpoint readItems (read : Z -> Read (RESPValue * Z)) (count : nat) (remaining : Z) : Read (list RESPValue * Z) :=
  match count with
  | O => read_ret ([], remaining)
  | S count =>
      get item := read remaining in
      get items := readItems read count item.2 in
      read_ret (item.1 :: items.1, items.2)
  end.

(** readRedisIngestRESPValueLimited and readRESPValueLimited; [depths] is how many levels
    may still be opened. *)
Fixpoint readRESPValueLimited (lim : Limits) (depths : nat) (remaining : Z) : Read (RESPValue * Z) :=
  match depths with
  | O => read_fail TooDeep
  | S depths =>
      get prefix := readByte in
      if Ascii.eqb prefix (mk_byte 43) then get line := readRedisIngestRESPLine in read_ret (Simple line, remaining)
      else if Ascii.eqb prefix (mk_byte 45) then get line := readRedisIngestRESPLine in read_ret (ErrorReply line, remaining)
      else if Ascii.eqb prefix (mk_byte 58) && limIntegers lim
      then get line := readRedisIngestRESPLine in read_ret (Simple line, remaining)
      else if Ascii.eqb prefix (mk_byte 36) then readBulk lim remaining
      else if Ascii.eqb prefix (mk_byte 42) then
        get count := readRedisIngestRESPInt in
        if count <? 0 then read_ret (NilReply, remaining)
        else if limArray lim <? count then read_fail ArrayTooLong
        else
          get items := readItems (readRESPValueLimited lim depths) (Z.to_nat count) remaining in
          read_ret (Array items.1, items.2)
      else read_fail UnsupportedPrefix
  end.

Definition readValue (lim : Limits) : Read RESPValue :=
  get r := readRESPValueLimited lim (S respMaxDepth) (limTotal lim) in read_ret r.1.

(** The parser of the subscriptions. *)
Definition readRedisIngestRESPValueLimited : nat -> Z -> Read (RESPValue * Z) := readRESPValueLimited ingestLimits.

Definition readRedisIngestRESPValue : Read RESPValue := readValue ingestLimits.
Definition readRESPValueWithLimits (maxArrayLength : Z) : Read RESPValue := readValue (queueLimits maxArrayLength).
Definition readRESPValue : Read RESPValue := readRESPValueWithLimits ManagementUsageQueueMaxBatchSize.

(** ** Commands *)

Definition CRLF : string := mk_bytes [13; 10].

(** The pieces writeRESPCommand prints, one write each. *)
Definition respHeader (parts : list string) : string :=
  String.append "*" (String.append (Itoa (Z.of_nat (length parts))) CRLF).
Definition respPart (part : string) : string :=
  String.append "$" (String.append (Itoa (len part)) (String.append CRLF (String.append part CRLF))).
Definition commandPieces (parts : list string) : list string := respHeader parts :: map respPart parts.

(** A connection: what arrives, what was written, the outcome of the next writes ([None]
    when the list ends: they succeed), and whether it was closed. *)
Record Conn := mkConn {
  cnIn : Stream;
  cnOut : string;
  cnWrites : list (option string);
  cnClosed : bool;
}.

Definition closeConn (c : Conn) : Conn := mkConn (cnIn c) (cnOut c) (cnWrites c) true.
Definition setIn (s : Stream) (c : Conn) : Conn := mkConn s (cnOut c) (cnWrites c) (cnClosed c).

Definition writePiece (piece : string) (c : Conn) : Conn * option string :=
  match cnWrites c with
  | Some e :: rest => (mkConn (cnIn c) (cnOut c) rest (cnClosed c), Some e)
  | None :: rest => (mkConn (cnIn c) (String.append (cnOut c) piece) rest (cnClosed c), None)
  | [] => (mkConn (cnIn c) (String.append (cnOut c) piece) [] (cnClosed c), None)
  end.

Fixpoint writePieces (pieces : list string) (c : Conn) : Conn * option string :=
  match pieces with
  | [] => (c, None)
  | piece :: pieces => match writePiece piece c with
                       | (c, Some e) => (c, Some e)
                       | (c, None) => writePieces pieces c
                       end
  end.

Definition writeRedisIngestRESPCommand (parts : list string) (c : Conn) : Conn * option string :=
  writePieces (commandPieces parts) c.

(** The queue client has a copy of it. *)
Definition writeRESPCommand : list string -> Conn -> Conn * option string := writeRedisIngestRESPCommand.

Inductive SubscribeFailure :=
| ConnectFailed (e : string)
| WriteFailed (e : string)
| ReadFailed (e : RespError)
| AuthRefused (e : string)
| SubscribeRefused (e : string)
| Unsupported (e : string)
| UnexpectedReply
| NotConfigured.

(** One command and its reply; the connection is closed when either fails. *)
Definition roundTrip (lim : Limits) (parts : list string) (c : Conn) : Conn * result SubscribeFailure RESPValue :=
  match writeRedisIngestRESPCommand parts c with
  | (c, Some e) => (closeConn c, Err (WriteFailed e))
  | (c, None) =>
      match readValue lim (cnIn c) with
      | (s, Err e) => (closeConn (setIn s c), Err (ReadFailed e))
      | (s, Ok v) => (setIn s c, Ok v)
      end
  end.

(** ** Subscriptions *)

Definition ManagementUsageSubscribeChannel : string := "usage".
Definition ManagementErrorsSubscribeChannel : string := "errors".

Definition redisIngestSubscribeAck (v : RESPValue) : bool :=
  match v with
  | Array (kind :: channel :: _ :: _) =>
      (ToLower (stringValue kind) =?s "subscribe") && (stringValue channel =?s ManagementUsageSubscribeChannel)
  | _ => false
  end.

Definition redisIngestSubscriptionMessage (v : RESPValue) : option string :=
  match v with
  | Array (kind :: channel :: payload :: _) =>
      if negb (ToLower (stringValue kind) =?s "message") || negb (stringValue channel =?s ManagementUsageSubscribeChannel) then None
      else if TrimSpace (stringValue payload) =?s EmptyString then None
      else Some (stringValue payload)
  | _ => None
  end.

(** strings.EqualFold with an ASCII word: the letters, and the two other runes that fold
    to a letter, the long s and the Kelvin sign. *)
Fixpoint foldBytes (l : list ascii) : list ascii :=
  match l with
  | [] => []
  | a :: r1 =>
      match r1 with
      | b :: r2 =>
          if (byte_code a =? 197) && (byte_code b =? 191) then mk_byte 115 :: foldBytes r2
          else match r2 with
               | c :: r3 => if (byte_code a =? 226) && (byte_code b =? 132) && (byte_code c =? 170)
                            then mk_byte 107 :: foldBytes r3
                            else lower_byte a :: foldBytes r1
               | [] => lower_byte a :: foldBytes r1
               end
      | [] => [lower_byte a]
      end
  end.

Definition equalFoldWord (s word : string) : bool :=
  String.string_of_list_ascii (foldBytes (String.list_ascii_of_string s)) =?s word.

Definition redisErrorSubscribeAck (v : RESPValue) : bool :=
  match v with
  | Array (kind :: channel :: _ :: _) =>
      equalFoldWord (stringValue kind) "subscribe" && (stringValue channel =?s ManagementErrorsSubscribeChannel)
  | _ => false
  end.

Definition redisErrorSubscriptionMessage (v : RESPValue) : option string :=
  match v with
  | Array (kind :: channel :: payload :: _) =>
      if negb (equalFoldWord (stringValue kind) "message") || negb (stringValue channel =?s ManagementErrorsSubscribeChannel) then None
      else if TrimSpace (stringValue payload) =?s EmptyString then None
      else Some (stringValue payload)
  | _ => None
  end.

(** What differs between the two subscriptions. *)
Record Channel := mkChannel {
  chName : string;
  chAck : RESPValue -> bool;
  chMessage : RESPValue -> option string;
  chRefused : string -> SubscribeFailure;
  chRetries : bool;
}.

Definition usageChannel : Channel :=
  mkChannel ManagementUsageSubscribeChannel redisIngestSubscribeAck redisIngestSubscriptionMessage SubscribeRefused true.
Definition errorsChannel : Channel :=
  mkChannel ManagementErrorsSubscribeChannel redisErrorSubscribeAck redisErrorSubscriptionMessage
    (fun e => if Contains (ToLower e) "unsupported channel" then Unsupported e else SubscribeRefused e) false.

(** Subscribe and SubscribeErrors on a connection that was dialled.  [cancelled] tells
    whether the context is done when the handshake has succeeded; SubscribeErrors alone
    looks at it then. *)
Definition subscribeOn (ch : Channel) (managementKey : string) (cancelled : bool) (c : Conn) : Conn * result SubscribeFailure unit :=
  match roundTrip ingestLimits ["AUTH"; managementKey] c with
  | (c, Err e) => (c, Err e)
  | (c, Ok v) =>
      match replyError v with
      | Some e => (closeConn c, Err (AuthRefused e))
      | None =>
          match roundTrip ingestLimits ["SUBSCRIBE"; chName ch] c with
          | (c, Err e) => (c, Err e)
          | (c, Ok v) =>
              match replyError v with
              | Some e => (closeConn c, Err (chRefused ch e))
              | None => 
                  if negb (chAck ch v) then (closeConn c, Err UnexpectedReply)
                  else if negb (chRetries ch) && cancelled
                  then (closeConn c, Err (ReadFailed (NetFailed Cancelled)))
                  else (c, Ok tt)
              end
          end
      end
  end.

(** [dialled] is the answer of the dialer; the connection, if there was one. *)
Definition SubscribeSource (ch : Channel) (address managementKey : string) (cancelled : bool) (dialled : result string Conn)
    : option Conn * result SubscribeFailure unit :=
  let managementKey := TrimSpace managementKey in
  if (address =?s EmptyString) || (managementKey =?s EmptyString) then (None, Err NotConfigured)
  else match dialled with
       | Err e => (None, Err (ConnectFailed e))
       | Ok c => let '(c, r) := subscribeOn ch managementKey cancelled c in (Some c, r)
       end.

Definition respErrorText (e : RespError) : string :=
  match e with
  | NetFailed (Broken text) => text
  | NetFailed Cancelled => "context canceled"
  | NetFailed (Timeout _) => "i/o timeout"
  | _ => "redis protocol error"
  end.

(** Receive, at most [fuel] values. *)
Fixpoint receiveLoop (ch : Channel) (fuel : nat) (s : Stream) : Stream * result ReceiveError string :=
  match fuel with
  | O => (s, Err (ReceiveFailed EmptyString))
  | S fuel =>
      match readRedisIngestRESPValue s with
      | (s, Err (NetFailed (Timeout ctxDone))) => 
          if ctxDone then (s, Err DeadlineExceeded)
          else if chRetries ch then receiveLoop ch fuel s
          else (s, Err (ReceiveFailed (respErrorText (NetFailed (Timeout false)))))
      | (s, Err e) => (s, Err (ReceiveFailed (respErrorText e)))
      | (s, Ok v) =>
          match replyError v with
          | Some e => (s, Err (ReceiveFailed (String.append "redis subscription error: " e)))
          | None => match chMessage ch v with
                    | Some payload => (s, Ok payload)
                    | None => receiveLoop ch fuel s
                    end
          end
      end
  end.

(** Every round consumes something of the stream, or ends. *)
Definition ReceiveOn (ch : Channel) (s : Stream) : Stream * result ReceiveError string := receiveLoop ch (S (length s)) s.

(** ** The queue *)

Inductive PopError :=
| PopSubscribe (e : SubscribeFailure)
| PopRefused (e : string).

Definition ManagementUsageQueueKey : string := "usage".

(** popUsageOverRedis on a connection that was dialled. *)
Definition popOn (queueKey managementKey : string) (batchSize : Z) (c : Conn) : Conn * result PopError (list string) :=
  match roundTrip (queueLimits ManagementUsageQueueMaxBatchSize) ["AUTH"; managementKey] c with
  | (c, Err e) => (c, Err (PopSubscribe e))
  | (c, Ok v) =>
      match replyError v with
      | Some e => (closeConn c, Err (PopSubscribe (AuthRefused e)))
      | None =>
          match roundTrip (queueLimits batchSize) ["LPOP"; queueKey; Itoa batchSize] c with
          | (c, Err e) => (closeConn c, Err (PopSubscribe e))
          | (c, Ok v) =>
              (closeConn c, match replyError v with
                            | Some e => Err (PopRefused e)
                            | None => Ok (respStrings v)
                            end)
          end
      end
  end.

Definition PopUsage (address managementKey queueKey : string) (batchSize : Z) (dialled : result string Conn)
    : option Conn * result PopError (list string) :=
  let managementKey := TrimSpace managementKey in
  let queueKey := TrimSpace queueKey in
  if (queueKey =?s EmptyString) || (batchSize <=? 0) || (address =?s EmptyString) || (managementKey =?s EmptyString)
  then (None, Err (PopSubscribe NotConfigured))
  else match dialled with
       | Err e => (None, Err (PopSubscribe (ConnectFailed e)))
       | Ok c => let '(c, r) := popOn queueKey managementKey batchSize c in (Some c, r)
       end.

(** RedisPullSource.Pull: the key is that of the usage queue. *)
Definition PullUsage (address managementKey : string) (batchSize : Z) (dialled : result string Conn)
    : option Conn * result PopError (list string) :=
  PopUsage address managementKey ManagementUsageQueueKey batchSize dialled.
