(* ===== verification/RespFacts.v ===== *)
(** The Redis protocol of the intake: values are read back as they are written, whatever
    bytes they hold; what is read keeps within the limits; a subscription hands over the
    payloads of its channel in order; a connection does not outlive a failed handshake; a
    batch of the queue arrives whole or not at all. *)
From S2P Require Import Prelude GoStrings GoTime GoTimeFacts TimeutilFacts IngestRunner Resp.
From Stdlib Require Import Ascii.

Local Open Scope string_scope.
Local Open Scope list_scope.
Local Open Scope Z_scope.
Local Open Scope read_scope.

(** ** The wire format *)

Definition chars (s : string) : list ascii := String.list_ascii_of_string s.

Lemma chars_app (s t : string) : chars (String.append s t) = chars s ++ chars t.
Proof. induction s as [|a s IH]; [done|]. rewrite append_cons. cbn. f_equal. apply IH. Qed.

Lemma bytesOf_app (s t : string) : bytesOf (String.append s t) = bytesOf s ++ bytesOf t.
Proof. unfold bytesOf. change String.list_ascii_of_string with chars. by rewrite chars_app, map_app. Qed.

Lemma chars_length (s : string) : Z.of_nat (length (chars s)) = len s.
Proof. unfold len. f_equal. induction s as [|a s IH]; [done|]. cbn. f_equal. apply IH. Qed.

(** A value as a Redis server writes it. *)
Fixpoint encode (v : RESPValue) : string :=
  match v with
  | Simple s => String.append "+" (String.append s CRLF)
  | ErrorReply s => String.append "-" (String.append s CRLF)
  | Bulk s => respPart s
  | NilReply => String.append "$-1" CRLF
  | Array items =>
      String.append (String.append "*" (String.append (Itoa (Z.of_nat (length items))) CRLF))
        (foldr (fun v out => String.append (encode v) out) EmptyString items)
  end.

(** A line that can be sent: it holds no line feed and is not longer than the reader
    takes, its end included. *)
Definition lineOk (l : string) : bool :=
  forallb (fun a => negb (Ascii.eqb a LF)) (chars l) && (len l + 2 <=? redisIngestMaxRESPLineLength).

(** What the limits ask of a value, its total apart. *)
Fixpoint fits (lim : Limits) (depths : nat) (v : RESPValue) : bool :=
  match depths with
  | O => false
  | S depths =>
      match v with
      | Simple l => lineOk l
      | ErrorReply l => lineOk l
      | Bulk s => len s <=? limBulk lim
      | NilReply => true
      | Array items => (Z.of_nat (length items) <=? limArray lim) && forallb (fits lim depths) items
      end
  end.

Fixpoint bulkBytes (v : RESPValue) : Z :=
  match v with
  | Bulk s => len s
  | Array items => foldr (fun v total => bulkBytes v + total) 0 items
  | _ => 0
  end.

(** The limits of the two clients are numbers of the machine. *)
Definition machineLimits (lim : Limits) : Prop := limArray lim <= int64_max /\ limBulk lim <= int64_max.

Lemma ingestLimits_machine : machineLimits ingestLimits.
Proof. by split. Qed.
Lemma queueLimits_machine (n : Z) : machineLimits (queueLimits n).
Proof.
  split; [|done]. unfold queueLimits. cbn.
  destruct ((n <=? 0) || (ManagementUsageQueueMaxBatchSize <? n)) eqn:E; unfold64; unfold ManagementUsageQueueMaxBatchSize in *; lia.
Qed.
#[export] Hint Resolve ingestLimits_machine queueLimits_machine : core.

(** ** Lines *)

Lemma readSlices_line (l : list ascii) (count : Z) (acc : list ascii) (s : Stream) :
  forallb (fun a => negb (Ascii.eqb a LF)) l = true -> 0 <= count ->
  count + Z.of_nat (length l) + 1 <= redisIngestMaxRESPLineLength ->
  readSlices count acc (map Byte (l ++ [LF]) ++ s) = (s, Ok (rev acc ++ l ++ [LF])).
Proof.
  revert count acc. induction l as [|a l IH]; intros count acc N C B; cbn [app map length] in *.
  - cbn [readSlices]. rewrite (Ascii.eqb_refl LF).
    rewrite (proj2 (Z.ltb_ge _ _)) by lia. done.
  - cbn [forallb] in N. apply andb_prop in N as [Na N]. cbn [readSlices].
    apply negb_true_iff in Na. rewrite Na.
    rewrite (proj2 (Z.eqb_neq _ _)) by (unfold redisIngestMaxRESPLineLength in *; lia).
    rewrite IH by (try done; unfold redisIngestMaxRESPLineLength in *; lia). f_equal. cbn [rev]. by rewrite <- app_assoc.
Qed.

Lemma forallb_snoc {A} (f : A -> bool) (l : list A) (a : A) : forallb f (l ++ [a]) = forallb f l && f a.
Proof. rewrite forallb_app. cbn. by rewrite andb_true_r. Qed.

Lemma read_line (l : string) (s : Stream) :
  lineOk l = true -> readRedisIngestRESPLine (bytesOf (String.append l CRLF) ++ s) = (s, Ok l).
Proof.
  intros H. apply andb_prop in H as [N B%Z.leb_le]. rewrite <- chars_length in B.
  unfold bytesOf. change String.list_ascii_of_string with chars. rewrite chars_app.
  change (chars CRLF) with ([CR] ++ [LF]). rewrite app_assoc.
  unfold readRedisIngestRESPLine, read_bind.
  rewrite readSlices_line.
  - cbn [rev app]. unfold lineBody. rewrite rev_app_distr, rev_app_distr. cbn [rev app].
    rewrite (Ascii.eqb_refl LF), (Ascii.eqb_refl CR). cbn [andb]. rewrite rev_involutive.
    unfold read_ret, chars. by rewrite String.string_of_list_ascii_of_string.
  - rewrite forallb_snoc, N. done.
  - lia.
  - rewrite length_app. cbn. lia.
Qed.

(** Decimal numbers are lines. *)
Lemma fixed_no_lf (n : nat) (z : Z) :
  0 <= z < 10 ^ Z.of_nat n -> forallb (fun a => negb (Ascii.eqb a LF)) (chars (fixed n z)) = true.
Proof.
  revert z. induction n as [|n IH]; intros z B; [done|].
  rewrite fixed_S. cbn [chars String.list_ascii_of_string forallb]. change String.list_ascii_of_string with chars.
  assert (P : 0 < 10 ^ Z.of_nat n) by lia.
  rewrite IH by (apply Z.mod_pos_bound; lia).
  rewrite andb_true_r, negb_true_iff. apply Ascii.eqb_neq. intros E.
  assert (D : byte_code (digit (z / 10 ^ Z.of_nat n)) = 48 + z / 10 ^ Z.of_nat n).
  { apply digit_code. split; [apply Z.div_pos; lia|]. apply Z.div_lt_upper_bound; [lia|].
    rewrite Nat2Z.inj_succ, Z.pow_succ_r in B by lia. lia. }
  rewrite E in D. change (byte_code LF) with 10 in D.
  pose proof (Z.div_pos z (10 ^ Z.of_nat n)). lia.
Qed.

Lemma num_digits_short (fuel : nat) (z : Z) : (num_digits fuel z <= S fuel)%nat.
Proof. revert z. induction fuel as [|f IH]; intros z; cbn; [lia|]. destruct (z <? 10); [lia|]. specialize (IH (z / 10)). lia. Qed.

Lemma Itoa_line (z : Z) : 0 <= z <= int64_max -> lineOk (Itoa z) = true.
Proof.
  unfold64. intros H. unfold Itoa, lineOk. rewrite Z.abs_eq, (proj2 (Z.ltb_ge z 0)) by lia.
  rewrite fixed_no_lf.
  - cbn [andb]. apply Z.leb_le. unfold len. rewrite fixed_length.
    pose proof (num_digits_short 20 z). unfold redisIngestMaxRESPLineLength. lia.
  - split; [lia|]. apply num_digits_bound. split; [lia|]. change (10 ^ Z.of_nat 21) with 1000000000000000000000. lia.
Qed.

Lemma read_int (z : Z) (s : Stream) :
  0 <= z <= int64_max -> readRedisIngestRESPInt (bytesOf (String.append (Itoa z) CRLF) ++ s) = (s, Ok z).
Proof.
  intros H. unfold readRedisIngestRESPInt, read_bind. rewrite read_line by by apply Itoa_line.
  by rewrite Atoi_Itoa_nonneg.
Qed.

(** ** Values *)

Lemma read_full (l : list ascii) (eof : string) (s : Stream) :
  readFullFrom eof (length l) (map Byte l ++ s) = (s, Ok l).
Proof.
  revert eof. induction l as [|a l IH]; intros eof; [done|].
  cbn [length readFullFrom map app]. unfold read_bind, readNext. by rewrite IH.
Qed.

Lemma bulkBytes_nonneg (v : RESPValue) : 0 <= bulkBytes v.
Proof.
  revert v. fix IH 1. intros [s|s|items|s|]; cbn; try (unfold len; lia).
  induction items as [|v items IHl]; cbn; [lia|]. pose proof (IH v). lia.
Qed.

Lemma read_bulk (lim : Limits) (s : string) (rem : Z) (rest : Stream) :
  machineLimits lim -> len s <= limBulk lim ->
  (if rem <? len s then exists rest', readBulk lim rem (bytesOf (String.append (Itoa (len s)) (String.append CRLF (String.append s CRLF))) ++ rest) = (rest', Err TotalTooLong)
   else readBulk lim rem (bytesOf (String.append (Itoa (len s)) (String.append CRLF (String.append s CRLF))) ++ rest) = (rest, Ok (Bulk s, rem - len s))).
Proof.
  intros [_ M] B. pose proof (eq_refl (len s)) as L. unfold len in L at 1.
  assert (E : forall r, readBulk lim rem (bytesOf (String.append (Itoa (len s)) (String.append CRLF r)) ++ rest)
                        = (if rem <? len s then read_fail TotalTooLong
                           else (get buf := readFull (Z.to_nat (len s) + 2) in
                                 if bool_decide (drop (Z.to_nat (len s)) buf = [CR; LF])
                                 then read_ret (Bulk (String.string_of_list_ascii (take (Z.to_nat (len s)) buf)), rem - len s)
                                 else read_fail MalformedBulk)) (bytesOf r ++ rest)).
  { intros r. unfold readBulk, read_bind at 1. rewrite <- (append_assoc (Itoa (len s))), bytesOf_app, <- app_assoc.
    rewrite read_int by (unfold64; unfold len in *; lia).
    rewrite (proj2 (Z.ltb_ge _ 0)) by (unfold len; lia).
    by rewrite (proj2 (Z.ltb_ge _ _)) by lia. }
  rewrite E. destruct (rem <? len s) eqn:D; [by eexists|].
  unfold read_bind, bytesOf at 1. change String.list_ascii_of_string with chars. rewrite chars_app.
  assert (N : Z.to_nat (len s) = length (chars s)) by (pose proof (chars_length s); lia). rewrite N.
  change (chars CRLF) with [CR; LF].
  replace (length (chars s) + 2)%nat with (length (chars s ++ [CR; LF])) by (rewrite length_app; done).
  unfold readFull. rewrite read_full, drop_app_length, take_app_length.
  rewrite bool_decide_true by done. unfold read_ret, chars. by rewrite String.string_of_list_ascii_of_string.
Qed.

(** What reading a value gives: the value and what is left of the total, or the refusal of
    a total that is too long. *)
Definition read_exactly {A} (bytes : Z) (rem : Z) (out : string) (a : A) (m : Read (A * Z)) : Prop :=
  forall rest,
    if rem <? bytes then exists rest', m (bytesOf out ++ rest) = (rest', Err TotalTooLong)
    else m (bytesOf out ++ rest) = (rest, Ok (a, rem - bytes)).

Definition bulkSum (items : list RESPValue) : Z := foldr (fun v total => bulkBytes v + total) 0 items.
Definition encodeAll (items : list RESPValue) : string := foldr (fun v out => String.append (encode v) out) EmptyString items.

Lemma bulkSum_nonneg (items : list RESPValue) : 0 <= bulkSum items.
Proof. exact (bulkBytes_nonneg (Array items)). Qed.

Lemma read_items (read : Z -> Read (RESPValue * Z)) (items : list RESPValue) (rem : Z) :
  (forall v rem, v ∈ items -> 0 <= rem -> read_exactly (bulkBytes v) rem (encode v) v (read rem)) -> 0 <= rem ->
  read_exactly (bulkSum items) rem (encodeAll items) items (readItems read (length items) rem).
Proof.
  intros H. revert rem. induction items as [|v items IH]; intros rem R rest.
  - cbn. rewrite (proj2 (Z.ltb_ge _ _)), Z.sub_0_r by lia. done.
  - pose proof (bulkSum_nonneg items). pose proof (bulkBytes_nonneg v).
    cbn [encodeAll foldr bulkSum length readItems]. fold (bulkSum items). fold (encodeAll items).
    rewrite bytesOf_app, <- app_assoc. unfold read_bind.
    pose proof (H v rem ltac:(left) R (bytesOf (encodeAll items) ++ rest)) as Hv.
    destruct (rem <? bulkBytes v) eqn:E1; bool_split.
    { rewrite (proj2 (Z.ltb_lt _ _)) by lia. destruct Hv as [r Hv]. rewrite Hv. by eexists. }
    rewrite Hv. cbn [snd fst].
    pose proof (IH (fun v rem I => H v rem (list_elem_of_further _ _ _ I)) (rem - bulkBytes v) ltac:(lia) rest) as Hi.
    destruct (rem - bulkBytes v <? bulkSum items) eqn:E2; bool_split.
    + rewrite (proj2 (Z.ltb_lt _ _)) by lia. destruct Hi as [r Hi]. rewrite Hi. by eexists.
    + rewrite (proj2 (Z.ltb_ge _ _)), Hi by lia. unfold read_ret. do 3 f_equal. cbn. lia.
Qed.

(** The prefixes. *)
Lemma read_simple (lim : Limits) (d : nat) (rem : Z) (s : Stream) :
  readRESPValueLimited lim (S d) rem (Byte "+"%char :: s) = (get line := readRedisIngestRESPLine in read_ret (Simple line, rem)) s.
Proof. done. Qed.
Lemma read_error_reply (lim : Limits) (d : nat) (rem : Z) (s : Stream) :
  readRESPValueLimited lim (S d) rem (Byte "-"%char :: s) = (get line := readRedisIngestRESPLine in read_ret (ErrorReply line, rem)) s.
Proof. done. Qed.
Lemma read_array (lim : Limits) (d : nat) (rem : Z) (s : Stream) :
  readRESPValueLimited lim (S d) rem (Byte "*"%char :: s) =
  (get count := readRedisIngestRESPInt in
   if count <? 0 then read_ret (NilReply, rem)
   else if limArray lim <? count then read_fail ArrayTooLong
   else get items := readItems (readRESPValueLimited lim d) (Z.to_nat count) rem in
        read_ret (Array items.1, items.2)) s.
Proof. done. Qed.

Lemma read_value (lim : Limits) (depths : nat) (v : RESPValue) (rem : Z) :
  machineLimits lim -> fits lim depths v = true -> 0 <= rem ->
  read_exactly (bulkBytes v) rem (encode v) v (readRESPValueLimited lim depths rem).
Proof.
  intros M. revert v rem. induction depths as [|d IH]; intros v rem F R rest; [done|].
  destruct v as [l|s|items|l|]; cbn [fits] in F; cbn [bulkBytes encode].
  - rewrite (proj2 (Z.ltb_ge _ _)), Z.sub_0_r by lia.
    change (bytesOf (String.append "+" ?x)) with (Byte "+"%char :: bytesOf x). cbn [app].
    rewrite read_simple. unfold read_bind. by rewrite read_line.
  - apply Z.leb_le in F.
    change (bytesOf (respPart s)) with (Byte "$"%char :: bytesOf (String.append (Itoa (len s)) (String.append CRLF (String.append s CRLF)))).
    exact (read_bulk lim s rem rest M F).
  - apply andb_prop in F as [C%Z.leb_le F].
    fold (bulkSum items). fold (encodeAll items). rewrite bytesOf_app, <- app_assoc.
    change (bytesOf (String.append "*" ?x)) with (Byte "*"%char :: bytesOf x). cbn [app].
    rewrite read_array. unfold read_bind. rewrite read_int by (destruct M; lia).
    rewrite (proj2 (Z.ltb_ge (Z.of_nat _) 0)), (proj2 (Z.ltb_ge (limArray lim) _)), Nat2Z.id by lia.
    pose proof (read_items (readRESPValueLimited lim d) items rem) as RI. unfold read_bind.
    assert (forall v rem, v ∈ items -> 0 <= rem -> read_exactly (bulkBytes v) rem (encode v) v (readRESPValueLimited lim d rem)) as RV.
    { intros v r I Hr. apply IH; [|done]. rewrite forallb_forall in F. apply F. by apply list_elem_of_In. }
    specialize (RI RV R rest). destruct (rem <? bulkSum items); [destruct RI as [r RI]; rewrite RI; by eexists|].
    by rewrite RI.
  - rewrite (proj2 (Z.ltb_ge _ _)), Z.sub_0_r by lia.
    change (bytesOf (String.append "-" ?x)) with (Byte "-"%char :: bytesOf x). cbn [app].
    rewrite read_error_reply. unfold read_bind. by rewrite read_line.
  - rewrite (proj2 (Z.ltb_ge _ _)), Z.sub_0_r by lia. done.
Qed.

Lemma read_value_ok (lim : Limits) (v : RESPValue) (rest : Stream) :
  machineLimits lim -> fits lim (S respMaxDepth) v = true -> bulkBytes v <= limTotal lim ->
  readValue lim (bytesOf (encode v) ++ rest) = (rest, Ok v).
Proof.
  intros M F B. pose proof (bulkBytes_nonneg v). unfold readValue, read_bind.
  pose proof (read_value lim (S respMaxDepth) v (limTotal lim) M F ltac:(lia) rest) as R.
  rewrite (proj2 (Z.ltb_ge _ _)) in R by lia. by rewrite R.
Qed.

Lemma read_value_too_long (lim : Limits) (v : RESPValue) (rest : Stream) :
  machineLimits lim -> fits lim (S respMaxDepth) v = true -> 0 <= limTotal lim < bulkBytes v ->
  exists rest', readValue lim (bytesOf (encode v) ++ rest) = (rest', Err TotalTooLong).
Proof.
  intros M F B. unfold readValue, read_bind.
  pose proof (read_value lim (S respMaxDepth) v (limTotal lim) M F ltac:(lia) rest) as R.
  rewrite (proj2 (Z.ltb_lt _ _)) in R by lia. destruct R as [r R]. rewrite R. by eexists.
Qed.

(** ** Commands *)

Definition command (parts : list string) : string := encode (Array (map Bulk parts)).

Lemma write_pieces (pieces : list string) (c : Conn) :
  cnWrites c = [] ->
  writePieces pieces c = (mkConn (cnIn c) (String.append (cnOut c) (foldr String.append EmptyString pieces)) [] (cnClosed c), None).
Proof.
  revert c. induction pieces as [|p pieces IH]; intros [i o w cl] W; cbn in W; subst w; cbn [foldr writePieces].
  - by rewrite append_nil_r.
  - cbn. rewrite IH by done. cbn. by rewrite append_assoc.
Qed.

Lemma command_pieces (parts : list string) : foldr String.append EmptyString (commandPieces parts) = command parts.
Proof.
  unfold command. cbn [commandPieces foldr encode]. rewrite length_map. unfold respHeader. f_equal.
  induction parts as [|p parts IH]; [done|]. cbn [map foldr]. by rewrite IH.
Qed.

(** A connection on which every write succeeds. *)
Lemma write_command (parts : list string) (c : Conn) :
  cnWrites c = [] ->
  writeRedisIngestRESPCommand parts c = (mkConn (cnIn c) (String.append (cnOut c) (command parts)) [] (cnClosed c), None).
Proof. intros W. unfold writeRedisIngestRESPCommand. by rewrite write_pieces, command_pieces. Qed.

Lemma fits_bulks (lim : Limits) (d : nat) (parts : list string) :
  Z.of_nat (length parts) <= limArray lim -> Forall (fun p => len p <= limBulk lim) parts ->
  fits lim (S (S d)) (Array (map Bulk parts)) = true.
Proof.
  intros L F. cbn [fits]. rewrite length_map, (proj2 (Z.leb_le _ _)) by done.
  cbn [andb]. rewrite forallb_forall. intros v (p & <- & I)%in_map_iff. cbn. apply Z.leb_le.
  rewrite Forall_forall in F. apply F. by apply list_elem_of_In.
Qed.

Definition totalLen (parts : list string) : Z := foldr (fun p n => len p + n) 0 parts.

Lemma bulkBytes_bulks (parts : list string) : bulkBytes (Array (map Bulk parts)) = totalLen parts.
Proof. cbn. induction parts as [|p parts IH]; [done|]. cbn. by rewrite IH. Qed.

(** A command is read back as the parts it was written with, and nothing of what follows
    it is touched, whatever bytes the parts hold: a management key or a queue key with line
    ends or protocol prefixes in it stays one argument. *)
Theorem command_read_back (parts : list string) (rest : Stream) :
  Z.of_nat (length parts) <= 16 -> Forall (fun p => len p <= redisIngestMaxRESPBulkSize) parts ->
  totalLen parts <= limTotal ingestLimits ->
  readRedisIngestRESPValue (bytesOf (cnOut (writeRedisIngestRESPCommand parts (mkConn [] EmptyString [] false)).1) ++ rest)
  = (rest, Ok (Array (map Bulk parts))).
Proof.
  intros L F T. rewrite write_command by done. cbn [fst cnOut]. change (String.append EmptyString ?x) with x.
  apply read_value_ok; [done|by apply fits_bulks|by rewrite bulkBytes_bulks].
Qed.

Lemma command_read_back_witness :
  readRedisIngestRESPValue (bytesOf (cnOut (writeRedisIngestRESPCommand ["AUTH"; String.append "k" (String.append CRLF "+OK")] (mkConn [] EmptyString [] false)).1) ++ bytesOf "$3")
  = (bytesOf "$3", Ok (Array (map Bulk ["AUTH"; String.append "k" (String.append CRLF "+OK")]))).
Proof. apply command_read_back; [done|by repeat constructor|done]. Defined.

(** ** The limits *)

Definition read_shrinks {A} (m : Read A) : Prop := forall s, (length (m s).1 <= length s)%nat.

Lemma shrinks_ret {A} (a : A) : read_shrinks (read_ret a).
Proof. intros s. done. Qed.
Lemma shrinks_fail {A} (e : RespError) : read_shrinks (@read_fail A e).
Proof. intros s. done. Qed.
Lemma shrinks_bind {A B} (m : Read A) (f : A -> Read B) :
  read_shrinks m -> (forall a, read_shrinks (f a)) -> read_shrinks (read_bind m f).
Proof.
  intros M F s. unfold read_bind. specialize (M s). destruct (m s) as [s' [a|e]]; [|done].
  specialize (F a s'). cbn in M. lia.
Qed.
Lemma shrinks_next (eof : string) : read_shrinks (readNext eof).
Proof. intros [|[a|e] s]; cbn; lia. Qed.
Lemma shrinks_slices (count : Z) (line : list ascii) : read_shrinks (readSlices count line).
Proof.
  intros s. revert count line. induction s as [|[a|e] s IH]; intros count line; cbn [readSlices]; [done| |cbn; lia].
  destruct (Ascii.eqb a LF); [destruct (_ <? _); cbn; lia|].
  destruct (_ =? _); [cbn; lia|]. specialize (IH (count + 1) (a :: line)). cbn [length]. lia.
Qed.
Lemma shrinks_line : read_shrinks readRedisIngestRESPLine.
Proof. apply shrinks_bind; [apply shrinks_slices|]. intros l. destruct (lineBody l); [apply shrinks_ret|apply shrinks_fail]. Qed.
Lemma shrinks_int : read_shrinks readRedisIngestRESPInt.
Proof. apply shrinks_bind; [apply shrinks_line|]. intros l. destruct (Atoi l); [apply shrinks_ret|apply shrinks_fail]. Qed.
Lemma shrinks_full (n : nat) (eof : string) : read_shrinks (readFullFrom eof n).
Proof.
  revert eof. induction n as [|n IH]; intros eof; [apply shrinks_ret|].
  apply shrinks_bind; [apply shrinks_next|]. intros a. apply shrinks_bind; [apply IH|]. intros l. apply shrinks_ret.
Qed.
#[local] Hint Resolve shrinks_ret shrinks_fail shrinks_next shrinks_line shrinks_int shrinks_full : shrinks.
Ltac shrink := repeat first [solve [auto with shrinks] | apply shrinks_bind; [solve [auto with shrinks]|intros ?] | case_match].

Lemma shrinks_bulk (lim : Limits) (rem : Z) : read_shrinks (readBulk lim rem).
Proof. unfold readBulk, readFull. shrink. Qed.
Lemma shrinks_items (read : Z -> Read (RESPValue * Z)) (n : nat) (rem : Z) :
  (forall r, read_shrinks (read r)) -> read_shrinks (readItems read n rem).
Proof. intros H. revert rem. induction n as [|n IH]; intros rem; cbn [readItems]; shrink. Qed.
#[local] Hint Resolve shrinks_bulk shrinks_items : shrinks.

Lemma shrinks_limited (lim : Limits) (d : nat) (rem : Z) : read_shrinks (readRESPValueLimited lim d rem).
Proof.
  revert rem. induction d as [|d IH]; intros rem; cbn [readRESPValueLimited]; [auto with shrinks|].
  unfold readByte. shrink.
Qed.

(** A value is read from at least one byte or interruption. *)
Lemma read_value_consumes (lim : Limits) (s : Stream) :
  (length (readValue lim s).1 < length s)%nat \/ readValue lim s = ([], Err (NetFailed (Broken "EOF"))).
Proof.
  destruct s as [|[a|e] s]; [by right|left|left; cbn; lia].
  enough (H : (length (readRESPValueLimited lim (S respMaxDepth) (limTotal lim) (Byte a :: s)).1 <= length s)%nat).
  { unfold readValue, read_bind. destruct (readRESPValueLimited _ _ _ _) as [s' [r|e]]; cbn in *; lia. }
  cbn [readRESPValueLimited]. unfold read_bind at 1, readByte, readNext.
  match goal with |- context [ (if Ascii.eqb a (mk_byte 43) then ?x else ?y) s ] => enough (S : read_shrinks (if Ascii.eqb a (mk_byte 43) then x else y)) by apply S end.
  assert (forall r, read_shrinks (readRESPValueLimited lim respMaxDepth r)) by apply shrinks_limited.
  shrink.
Qed.

(** What every value read satisfies. *)
Definition reads {A} (m : Read A) (P : A -> Prop) : Prop := forall s s' a, m s = (s', Ok a) -> P a.

Lemma reads_bind {A B} (m : Read A) (f : A -> Read B) (P : A -> Prop) (Q : B -> Prop) :
  reads m P -> (forall a, P a -> reads (f a) Q) -> reads (read_bind m f) Q.
Proof.
  intros M F s s' b. unfold read_bind. destruct (m s) as [s1 [a|e]] eqn:E; [|done].
  apply M in E. by apply F.
Qed.
Lemma reads_ret {A} (a : A) (P : A -> Prop) : P a -> reads (read_ret a) P.
Proof. intros H s s' b [= _ <-]. done. Qed.
Lemma reads_fail {A} (e : RespError) (P : A -> Prop) : reads (read_fail e) P.
Proof. intros s s' b. done. Qed.
Lemma reads_all {A} (m : Read A) : reads m (fun _ => True).
Proof. intros s s' a _. done. Qed.

Lemma slices_line (s s' : Stream) (count : Z) (acc l : list ascii) :
  readSlices count acc s = (s', Ok l) ->
  exists m, l = rev acc ++ m ++ [LF] /\ forallb (fun a => negb (Ascii.eqb a LF)) m = true /\
            count + Z.of_nat (length m) + 1 <= redisIngestMaxRESPLineLength.
Proof.
  revert count acc. induction s as [|[a|e] s IH]; intros count acc; cbn [readSlices]; [done| |done].
  destruct (Ascii.eqb a LF) eqn:Ea.
  - apply Ascii.eqb_eq in Ea as ->. destruct (_ <? _) eqn:E; [done|]. bool_split. intros [= <- <-].
    exists []. cbn. split; [done|]. split; [done|]. lia.
  - destruct (count + 1 =? _) eqn:E; [done|]. intros H. apply IH in H as (m & -> & N & L).
    exists (a :: m). cbn [rev forallb length app]. rewrite Ea, <- app_assoc. cbn. split; [done|]. split; [done|]. lia.
Qed.

Lemma line_ok : reads readRedisIngestRESPLine (fun l => lineOk l = true).
Proof.
  intros s s' l. unfold readRedisIngestRESPLine, read_bind.
  destruct (readSlices 0 [] s) as [s1 [line|e]] eqn:E; [|done].
  apply slices_line in E as (m & -> & N & L). cbn [rev app]. unfold lineBody. rewrite rev_app_distr. cbn [rev app].
  destruct (rev m) as [|b body] eqn:Em; [done|]. rewrite (Ascii.eqb_refl LF). cbn [andb].
  destruct (Ascii.eqb b CR); [|done]. intros [= _ <-].
  assert (m = rev body ++ [b]) as -> by (rewrite <- (rev_involutive m), Em; done).
  rewrite forallb_snoc in N. apply andb_prop in N as [N _]. rewrite length_app in L. cbn [length] in L.
  unfold lineOk. rewrite <- chars_length. unfold chars. rewrite String.list_ascii_of_string_of_list_ascii, N.
  cbn [andb]. apply Z.leb_le. lia.
Qed.

(** A value within the limits, and the total that is left. *)
Definition within (lim : Limits) (d : nat) (rem : Z) (r : RESPValue * Z) : Prop :=
  fits lim d r.1 = true /\ r.2 = rem - bulkBytes r.1 /\ 0 <= r.2.

Lemma full_length (n : nat) (eof : string) : reads (readFullFrom eof n) (fun l => length l = n).
Proof.
  revert eof. induction n as [|n IH]; intros eof; [by apply reads_ret|].
  apply (reads_bind _ _ (fun _ => True)); [apply reads_all|]. intros a _.
  eapply reads_bind; [apply IH|]. intros l L. apply reads_ret. cbn. by rewrite L.
Qed.

Lemma bulk_within (lim : Limits) (d : nat) (rem : Z) : 0 <= rem -> reads (readBulk lim rem) (within lim (S d) rem).
Proof.
  intros R. apply (reads_bind _ _ (fun _ => True)); [apply reads_all|]. intros size _.
  destruct (size <? 0) eqn:E1; [apply reads_ret; unfold within; cbn; split; [done|lia]|]. bool_split.
  destruct (limBulk lim <? size) eqn:E2; [apply reads_fail|]. bool_split.
  destruct (rem <? size) eqn:E3; [apply reads_fail|]. bool_split.
  eapply reads_bind; [apply full_length|]. intros buf B. cbn beta in B.
  destruct (bool_decide _); [|apply reads_fail]. apply reads_ret. unfold within. cbn [fst snd fits bulkBytes].
  rewrite <- chars_length. unfold chars. rewrite String.list_ascii_of_string_of_list_ascii, length_take.
  split; [apply Z.leb_le; lia|]. lia.
Qed.

Lemma items_within (lim : Limits) (d : nat) (read : Z -> Read (RESPValue * Z)) (n : nat) (rem : Z) :
  (forall r, 0 <= r -> reads (read r) (within lim d r)) -> 0 <= rem ->
  reads (readItems read n rem)
    (fun r => length r.1 = n /\ forallb (fits lim d) r.1 = true /\ r.2 = rem - bulkSum r.1 /\ 0 <= r.2).
Proof.
  intros H. revert rem. induction n as [|n IH]; intros rem R; cbn [readItems].
  - apply reads_ret. cbn. do 2 (split; [done|]). lia.
  - eapply reads_bind; [by apply H|]. intros [v r] (F & E & P). cbn [fst snd] in *.
    eapply reads_bind; [by apply IH|]. intros [vs r'] (L & Fs & Es & Ps). cbn [fst snd] in *.
    apply reads_ret. cbn [fst snd length forallb bulkSum foldr]. fold (bulkSum vs). rewrite L, F, Fs.
    do 2 (split; [done|]). lia.
Qed.

Lemma limited_within (lim : Limits) (d : nat) (rem : Z) :
  0 <= rem -> reads (readRESPValueLimited lim d rem) (within lim d rem).
Proof.
  revert rem. induction d as [|d IH]; intros rem R; cbn [readRESPValueLimited]; [apply reads_fail|].
  assert (Line : forall f, (forall l, lineOk l = true -> fits lim (S d) (f l) = true /\ bulkBytes (f l) = 0) ->
            reads (get line := readRedisIngestRESPLine in read_ret (f line, rem)) (within lim (S d) rem)).
  { intros f F. eapply reads_bind; [apply line_ok|]. intros l L. apply reads_ret.
    destruct (F l L) as [Ff Fb]. unfold within. cbn [fst snd]. rewrite Fb. split; [done|]. lia. }
  apply (reads_bind _ _ (fun _ => True)); [apply reads_all|]. intros prefix _.
  destruct (Ascii.eqb prefix (mk_byte 43)); [by apply Line|].
  destruct (Ascii.eqb prefix (mk_byte 45)); [by apply Line|].
  destruct (Ascii.eqb prefix (mk_byte 58) && limIntegers lim); [by apply Line|].
  destruct (Ascii.eqb prefix (mk_byte 36)); [by apply bulk_within|].
  destruct (Ascii.eqb prefix (mk_byte 42)); [|apply reads_fail].
  apply (reads_bind _ _ (fun _ => True)); [apply reads_all|]. intros count _.
  destruct (count <? 0) eqn:E1; [apply reads_ret; unfold within; cbn; split; [done|lia]|]. bool_split.
  destruct (limArray lim <? count) eqn:E2; [apply reads_fail|]. bool_split.
  eapply reads_bind; [apply items_within; [apply IH|done]|]. intros [items r] (L & F & E & P). cbn [fst snd] in *.
  apply reads_ret. unfold within. cbn [fst snd fits]. change (bulkBytes (Array items)) with (bulkSum items).
  rewrite L, F, andb_true_r. split; [apply Z.leb_le; lia|]. done.
Qed.

(** C38: Whatever bytes a peer sends, a value the reader hands over keeps within the limits:
    its lines, its bulk strings, the lengths and the nesting of its arrays, and the bytes of
    all its bulk strings together. *)
Theorem values_within_limits (lim : Limits) (s s' : Stream) (v : RESPValue) :
  0 <= limTotal lim -> readValue lim s = (s', Ok v) ->
  fits lim (S respMaxDepth) v = true /\ bulkBytes v <= limTotal lim.
Proof.
  intros T H. enough (W : reads (readValue lim) (fun v => fits lim (S respMaxDepth) v = true /\ bulkBytes v <= limTotal lim)) by exact (W _ _ _ H).
  eapply reads_bind; [by apply limited_within|]. intros [w r] (F & E & P). cbn [fst snd] in *.
  apply reads_ret. split; [done|]. lia.
Qed.

Lemma values_within_limits_witness :
  fits ingestLimits (S respMaxDepth) (Array [Bulk "ab"; Simple "1"]) = true /\
  bulkBytes (Array [Bulk "ab"; Simple "1"]) <= limTotal ingestLimits.
Proof.
  apply (values_within_limits ingestLimits (bytesOf (mk_bytes [42; 50; 13; 10; 36; 50; 13; 10; 97; 98; 13; 10; 58; 49; 13; 10])) []);
    [done|reflexivity].
Defined.

(** ** Receiving *)

Inductive Event :=
| Came (v : RESPValue)
| Pause (ctxDone : bool).

Definition wireOf (e : Event) : Stream :=
  match e with Came v => bytesOf (encode v) | Pause ctxDone => [Stop (Timeout ctxDone)] end.
Definition wire (events : list Event) : Stream := concat (map wireOf events).

(** The values a subscription survives. *)
Definition survivable (e : Event) : Prop :=
  match e with
  | Came v => fits ingestLimits (S respMaxDepth) v = true /\ bulkBytes v <= limTotal ingestLimits /\ replyError v = None
  | Pause _ => True
  end.

Definition payloads (ch : Channel) (events : list Event) : list string :=
  omap (fun e => match e with Came v => chMessage ch v | Pause _ => None end) events.

(** What Receive does, event by event. *)
Fixpoint nextMessage (ch : Channel) (events : list Event) : list Event * result ReceiveError string :=
  match events with
  | [] => ([], Err (ReceiveFailed "EOF"))
  | Pause true :: events => (events, Err DeadlineExceeded)
  | Pause false :: events => nextMessage ch events
  | Came v :: events => match chMessage ch v with Some payload => (events, Ok payload) | None => nextMessage ch events end
  end.

Lemma encode_first (v : RESPValue) : exists a t, encode v = String a t.
Proof. by destruct v; eexists _, _. Qed.

Lemma wire_length (events : list Event) : (length events <= length (wire events))%nat.
Proof.
  induction events as [|e events IH]; [done|]. unfold wire in *. cbn [map concat length]. rewrite length_app.
  assert (1 <= length (wireOf e))%nat; [|lia]. destruct e as [v|]; [|cbn; lia].
  destruct (encode_first v) as (a & t & E). cbn [wireOf]. rewrite E. cbn. lia.
Qed.

Lemma receive_next (ch : Channel) (events : list Event) (fuel : nat) :
  chRetries ch = true -> Forall survivable events -> (length events < fuel)%nat ->
  receiveLoop ch fuel (wire events) = (wire (nextMessage ch events).1, (nextMessage ch events).2).
Proof.
  intros R A. revert fuel. induction A as [|e events Ae A IH]; intros [|fuel] L; cbn [length] in L; try lia; [done|].
  change (wire (e :: events)) with (wireOf e ++ wire events).
  destruct e as [v|[]]; cbn [nextMessage wireOf survivable] in *.
  - destruct Ae as (F & B & N). cbn [receiveLoop]. unfold readRedisIngestRESPValue.
    rewrite read_value_ok by done. rewrite N. destruct (chMessage ch v); [done|]. apply IH. lia.
  - done.
  - cbn [app receiveLoop]. change (readRedisIngestRESPValue (Stop (Timeout false) :: wire events)) with
      (wire events, @Err RespError RESPValue (NetFailed (Timeout false))).
    cbn iota. rewrite R. apply IH. lia.
Qed.

(** Receive called again and again, as the runner does, until something else than a window
    ends it. *)
Fixpoint drain (ch : Channel) (calls : nat) (s : Stream) : Stream * list string :=
  match calls with
  | O => (s, [])
  | S calls =>
      match ReceiveOn ch s with
      | (s, Ok payload) => let '(s, rest) := drain ch calls s in (s, payload :: rest)
      | (s, Err DeadlineExceeded) => drain ch calls s
      | (s, Err _) => (s, [])
      end
  end.

Lemma next_shorter (ch : Channel) (events : list Event) :
  events = [] \/ (length (nextMessage ch events).1 < length events)%nat.
Proof.
  induction events as [|e events IH]; [by left|right]. cbn [nextMessage].
  destruct e as [v|[]]; [destruct (chMessage ch v)| |]; cbn [fst length]; destruct IH as [->|]; cbn; lia.
Qed.

Lemma next_acceptable (ch : Channel) (events : list Event) :
  Forall survivable events -> Forall survivable (nextMessage ch events).1.
Proof.
  induction 1 as [|e events Ae A IH]; [by constructor|]. cbn [nextMessage].
  destruct e as [v|[]]; [destruct (chMessage ch v)| |]; done.
Qed.

Lemma next_payloads (ch : Channel) (events : list Event) :
  payloads ch events =
  match nextMessage ch events with
  | (events, Ok payload) => payload :: payloads ch events
  | (events, Err DeadlineExceeded) => payloads ch events
  | (_, Err _) => []
  end.
Proof.
  induction events as [|e events IH]; [done|]. cbn [nextMessage].
  destruct e as [v|[]]; unfold payloads in *; cbn; [|done|exact IH]. by destruct (chMessage ch v).
Qed.

Lemma receive_on_next (ch : Channel) (events : list Event) :
  chRetries ch = true -> Forall survivable events ->
  ReceiveOn ch (wire events) = (wire (nextMessage ch events).1, (nextMessage ch events).2).
Proof. intros R A. apply receive_next; [done|done|]. pose proof (wire_length events). lia. Qed.


Definition usageMessage (payload : string) : RESPValue := Array [Bulk "message"; Bulk "usage"; Bulk payload].


Example payloads_in_order :
  payloads usageChannel [Came (usageMessage "a"); Pause true; Came (Simple "OK"); Pause false; Came (usageMessage "b")] = ["a"; "b"].
Proof. reflexivity. Qed.

(** A window that ends within a value loses the value, and the stream with it: the bytes
    read are gone, and the rest of the value is taken for the next one. *)
Example torn_message :
  let whole := encode (usageMessage "payload") in
  let s := bytesOf (String.substring 0 20 whole) ++ Stop (Timeout true) ::
           bytesOf (String.substring 20 (String.length whole - 20) whole) ++ bytesOf (encode (usageMessage "next")) in
  (ReceiveOn usageChannel s).2 = Err DeadlineExceeded /\
  (ReceiveOn usageChannel (ReceiveOn usageChannel s).1).2 = Err (ReceiveFailed "redis protocol error").
Proof. split; vm_compute; reflexivity. Qed.

(** Receive ends whatever arrives: the rounds it has are enough for any stream. *)
Lemma receive_fuel (ch : Channel) (s : Stream) (fuel : nat) :
  (length s < fuel)%nat -> receiveLoop ch fuel s = ReceiveOn ch s.
Proof.
  unfold ReceiveOn. enough (H : forall f g s, (length s < f)%nat -> (length s < g)%nat -> receiveLoop ch f s = receiveLoop ch g s)
    by (intros L; apply H; lia).
  clear. induction f as [|f IH]; intros [|g] s Lf Lg; try lia. cbn [receiveLoop].
  unfold readRedisIngestRESPValue. pose proof (read_value_consumes ingestLimits s) as [C|C].
  - destruct (readValue ingestLimits s) as [s' [v|e]]; cbn [fst] in C.
    + destruct (replyError v); [done|]. destruct (chMessage ch v); [done|]. apply IH; lia.
    + destruct e as [[[]| |]| | | | | | | | |]; try done. destruct (chRetries ch); [apply IH; lia|done].
  - by rewrite C.
Qed.

(** ** The handshake *)

Lemma round_trip_closed (lim : Limits) (parts : list string) (c c' : Conn) (e : SubscribeFailure) :
  roundTrip lim parts c = (c', Err e) -> cnClosed c' = true /\ match e with AuthRefused _ => False | _ => True end.
Proof.
  unfold roundTrip. destruct (writeRedisIngestRESPCommand parts c) as [c1 [w|]]; [by intros [= <- <-]|].
  destruct (readValue lim (cnIn c1)) as [s [v|re]]; [done|]. by intros [= <- <-].
Qed.

Lemma write_pieces_ok (pieces : list string) (c c' : Conn) :
  writePieces pieces c = (c', None) ->
  cnIn c' = cnIn c /\ cnOut c' = String.append (cnOut c) (foldr String.append EmptyString pieces) /\ cnClosed c' = cnClosed c.
Proof.
  revert c. induction pieces as [|p pieces IH]; intros c; cbn [writePieces foldr].
  - intros [= <-]. by rewrite append_nil_r.
  - unfold writePiece. destruct c as [i o [|[e|] w] cl]; cbn [cnWrites]; [|done|];
      intros H%IH; cbn in H; by rewrite append_assoc in H.
Qed.

Lemma round_trip_ok (lim : Limits) (parts : list string) (c c' : Conn) (v : RESPValue) :
  roundTrip lim parts c = (c', Ok v) ->
  cnOut c' = String.append (cnOut c) (command parts) /\ cnClosed c' = cnClosed c /\ readValue lim (cnIn c) = (cnIn c', Ok v).
Proof.
  unfold roundTrip, writeRedisIngestRESPCommand.
  destruct (writePieces (commandPieces parts) c) as [c1 [w|]] eqn:W; [done|].
  apply write_pieces_ok in W as (I & O & Cl). rewrite command_pieces in O.
  destruct (readValue lim (cnIn c1)) as [s [r|re]] eqn:R; [|done]. intros [= <- <-]. cbn. by rewrite <- I, R.
Qed.

(** C39: A subscription is handed over on an open connection, after AUTH was accepted and
    SUBSCRIBE acknowledged, and with nothing else written; every other end of the handshake
    closes the connection, and SUBSCRIBE is never written when AUTH was refused. *)
Theorem handshake_outcome (ch : Channel) (managementKey : string) (cancelled : bool) (c c' : Conn) (r : result SubscribeFailure unit) :
  ch = usageChannel \/ ch = errorsChannel -> cnClosed c = false -> subscribeOn ch managementKey cancelled c = (c', r) ->
  match r with
  | Ok _ => cnClosed c' = false /\
            cnOut c' = String.append (String.append (cnOut c) (command ["AUTH"; managementKey])) (command ["SUBSCRIBE"; chName ch]) /\
            exists s v w, readValue ingestLimits (cnIn c) = (s, Ok v) /\ replyError v = None /\
                          readValue ingestLimits s = (cnIn c', Ok w) /\ replyError w = None /\ chAck ch w = true
  | Err (AuthRefused _) => cnClosed c' = true /\ cnOut c' = String.append (cnOut c) (command ["AUTH"; managementKey])
  | Err _ => cnClosed c' = true
  end.
Proof.
  intros Ch Open. unfold subscribeOn.
  destruct (roundTrip _ ["AUTH"; managementKey] c) as [c1 [v|e]] eqn:A; cycle 1.
  { intros [= <- <-]. apply round_trip_closed in A as [A E]. by destruct e. }
  apply round_trip_ok in A as (O1 & C1 & R1).
  destruct (replyError v) as [e|] eqn:V; [by intros [= <- <-]|].
  destruct (roundTrip _ ["SUBSCRIBE"; chName ch] c1) as [c2 [w|e]] eqn:S; cycle 1.
  { intros [= <- <-]. apply round_trip_closed in S as [S E]. by destruct e. }
  apply round_trip_ok in S as (O2 & C2 & R2).
  destruct (replyError w) as [e|] eqn:W.
  { intros [= <- <-]. destruct Ch as [->| ->]; cbn; [done|]. by destruct (Contains _ _). }
  destruct (chAck ch w) eqn:K; cbn [negb]; [|by intros [= <- <-]].
  destruct (negb (chRetries ch) && cancelled); [by intros [= <- <-]|].
  intros [= <- <-]. rewrite C2, C1, O2, O1. split; [done|]. split; [done|]. by exists (cnIn c1), v, w.
Qed.

Lemma handshake_outcome_witness :
  let c := mkConn (bytesOf (encode (Simple "OK")) ++ bytesOf (encode (Array [Bulk "subscribe"; Bulk "usage"; Simple "1"]))) EmptyString [] false in
  cnClosed (subscribeOn usageChannel "key" false c).1 = false /\
  cnOut (subscribeOn usageChannel "key" false c).1
  = String.append (String.append (cnOut c) (command ["AUTH"; "key"])) (command ["SUBSCRIBE"; chName usageChannel]) /\
  exists s v w, readValue ingestLimits (cnIn c) = (s, Ok v) /\ replyError v = None /\
    readValue ingestLimits s = (cnIn (subscribeOn usageChannel "key" false c).1, Ok w) /\
    replyError w = None /\ chAck usageChannel w = true.
Proof.
  intros c. apply (handshake_outcome usageChannel "key" false c (subscribeOn usageChannel "key" false c).1 (Ok tt));
    [by left|done|vm_compute; reflexivity].
Defined.

(** ** The queue *)

Lemma resp_strings_bulks (msgs : list string) : respStrings (Array (map Bulk msgs)) = msgs.
Proof. cbn. induction msgs as [|m msgs IH]; [done|]. cbn. by rewrite IH. Qed.


