(* ===== verification/QuotaEfficiency.v ===== *)
(** repository/codex_quota_efficiency.go and quota/codex_quota_efficiency.go: what was used
    in each cycle of a quota, and between two percentages of it.

    The cycles and their segments are those of QuotaHistory.v, read once; the usage events
    of the account are read as one ordered stream that two indices follow.  The columns of
    the events hold texts of local time, and SQL filters and orders by these texts.  The
    rows of the stream come in one piece: a failure within it is the failure of the
    statement.  Floats are binary64; [walk] is the order in which Go walks a map of priced
    groups. *)
From S2P Require Import Prelude GoStrings GoTime GoFloat Timeutil Entities Sql Pricing IdentityStats Quota QuotaHistory.

Local Open Scope string_scope.
Local Open Scope list_scope.
Local Open Scope Z_scope.

(** ** What is answered *)

Record EfficiencyQuery := mkEfficiencyQuery {
  efProvider : string;
  efAuthIndex : string;
  efNow : Time;
  efRangeStart : Time;
  efWindowRole : option string;
}.

Record EfficiencyUsage := mkEfficiencyUsage {
  euRequests : Z;
  euSuccessful : Z;
  euFailed : Z;
  euInputTokens : Z;
  euOutputTokens : Z;
  euReasoningTokens : Z;
  euCacheReadTokens : Z;
  euCacheCreationTokens : Z;
  euTotalTokens : Z;
  euTotalCostUSD : float64;
  euCostAvailable : bool;
}.
Definition noUsage : EfficiencyUsage := mkEfficiencyUsage 0 0 0 0 0 0 0 0 0 f64_zero true.

Record EfficiencyTransition := mkTransition {
  etFromRemainingPercent : Z;
  etToRemainingPercent : Z;
  etPercentagePoints : Z;
  etIsDirect : bool;
  etIntervalStartedAt : Time;
  etIntervalEndedAt : Time;
  etUsage : EfficiencyUsage;
  etTokensPerPoint : float64;
  etCostPerPoint : float64;
  etCostPerPointAvailable : bool;
}.

Record EfficiencyCycle := mkEfficiencyCycle {
  eyID : Z;
  eyStatus : string;
  eyWindowSeconds : Z;
  eyWindowStartedAt : Time;
  eyResetAt : Time;
  eyEffectiveStartedAt : Time;
  eyEffectiveEndedAt : Time;
  eyFirstObservedAt : Time;
  eyLastObservedAt : Time;
  eyFirstRemainingPercent : option Z;
  eyLastRemainingPercent : option Z;
  eyObservationCount : Z;
  eyUsage : EfficiencyUsage;
  eyTransitions : list EfficiencyTransition;
}.

Record EfficiencyWindow := mkEfficiencyWindow {
  ewWindowRole : string;
  ewWindowKind : option string;
  ewWindowSeconds : Z;
  ewHasCurrentCycle : bool;
  ewLastObservedAt : Time;
}.

Record EfficiencyHistory := mkEfficiencyHistory {
  ehGeneratedAt : Time;
  ehRangeStart : Time;
  ehWindows : list EfficiencyWindow;
  ehSelectedWindow : option EfficiencyWindow;
  ehCycles : list EfficiencyCycle;
}.

(** ** Windows *)

Definition codexQuotaEfficiencyWindowKind (windowSeconds : Z) : option string :=
  if windowSeconds =? 5 * 60 * 60 then Some "five_hour"
  else if windowSeconds =? 7 * 24 * 60 * 60 then Some "weekly"
  else if (windowSeconds =? 30 * 24 * 60 * 60) || (windowSeconds =? 365 * 24 * 60 * 60 `quot` 12) then Some "monthly"
  else None.

Definition quotaCyclePercentSummary (segments : list QuotaPercentSegment) : option Z * option Z * Z :=
  (option_map sgRemainingPercent (head segments), option_map sgRemainingPercent (last segments),
   foldl (fun count s => add64 count (sgObservationCount s)) 0 segments).

(** The later of two cycles: observed later, or at the same time with the greater key. *)
Definition laterCycle (cycle latest : QuotaCycle) : bool :=
  (qcLastObservedAt latest <? qcLastObservedAt cycle)
  || ((qcLastObservedAt cycle =? qcLastObservedAt latest) && (qcID latest <? qcID cycle)).

Definition latestByRole (provider : string) (latest : gmap string QuotaCycle) (cycle : QuotaCycle) : gmap string QuotaCycle :=
  match QuotaWindowRole provider (qcQuotaKey cycle) with
  | None => latest
  | Some role =>
      match latest !! role with
      | Some known => if laterCycle cycle known then <[role := cycle]> latest else latest
      | None => <[role := cycle]> latest
      end
  end.

Definition windowOf (now : Time) (role : string) (cycle : QuotaCycle) : EfficiencyWindow :=
  mkEfficiencyWindow role (codexQuotaEfficiencyWindowKind (qcWindowSeconds cycle)) (qcWindowSeconds cycle)
    (negb (now <? qcWindowStartedAt cycle) && (now <? qcResetAt cycle)) (qcLastObservedAt cycle).

(** The map has at most the two roles, and the sort puts the primary one first. *)
Definition buildQuotaEfficiencyWindows (cycles : list QuotaCycle) (provider : string) (now : Time) : list EfficiencyWindow :=
  let latest := foldl (latestByRole provider) ∅ cycles in
  omap (fun role => option_map (windowOf now role) (latest !! role)) ["primary"; "secondary"].

Definition betterWindow (selected : option EfficiencyWindow) (w : EfficiencyWindow) : option EfficiencyWindow :=
  match selected with
  | None => Some w
  | Some s =>
      if (ewLastObservedAt s <? ewLastObservedAt w)
         || ((ewLastObservedAt w =? ewLastObservedAt s) && ewHasCurrentCycle w && negb (ewHasCurrentCycle s))
      then Some w else selected
  end.

Definition selectCodexQuotaEfficiencyWindow (windows : list EfficiencyWindow) (role : option string) : option EfficiencyWindow :=
  match role with
  | Some role => List.find (fun w => ewWindowRole w =?s ToLower (TrimSpace role)) windows
  | None => foldl betterWindow None windows
  end.

(** ** Periods *)

(** The keys of the table are positive, so key 0 is no cycle. *)
Definition latestCodexQuotaEfficiencyCycleID (cycles : list QuotaCycle) : Z :=
  match foldl (fun latest cycle => match latest with
                                   | Some known => if laterCycle cycle known then Some cycle else latest
                                   | None => Some cycle
                                   end) None cycles with
  | Some latest => qcID latest
  | None => 0
  end.

Record Period := mkPeriod { prStart : Time; prEnd : Time; prCurrent : bool }.

(** One cycle, with the earliest start of those observed later; the zero time is none. *)
Definition addPeriod (s : gmap Z Period * Time) (cycle : QuotaCycle) : gmap Z Period * Time :=
  let '(periods, earliestLaterStart) := s in
  let periodEnd := if negb (IsZero earliestLaterStart) && (earliestLaterStart <? qcResetAt cycle)
                   then earliestLaterStart else qcResetAt cycle in
  (<[qcID cycle := mkPeriod (qcWindowStartedAt cycle) periodEnd false]> periods,
   if IsZero earliestLaterStart || (qcWindowStartedAt cycle <? earliestLaterStart)
   then qcWindowStartedAt cycle else earliestLaterStart).

Definition observedBefore (left right : QuotaCycle) : bool :=
  if negb (qcLastObservedAt left =? qcLastObservedAt right)
  then qcLastObservedAt left <? qcLastObservedAt right else qcID left <? qcID right.

Definition buildCodexQuotaEfficiencyCyclePeriods (cycles : list QuotaCycle) (currentCycleID : Z) (now : Time) : gmap Z Period :=
  let ordered := stableSort observedBefore cycles in
  let periods := (foldl addPeriod (∅, zero_time) (rev ordered)).1 in
  if currentCycleID =? 0 then periods
  else match periods !! currentCycleID with
       | None => periods
       | Some p => <[currentCycleID := mkPeriod (prStart p) (prEnd p) (negb (now <? prStart p) && (now <? prEnd p))]> periods
       end.

(** ** Transitions *)

Definition transitionBetween (previous current : QuotaPercentSegment) : option EfficiencyTransition :=
  let points := sgRemainingPercent previous - sgRemainingPercent current in
  if points <=? 0 then None
  else Some (mkTransition (sgRemainingPercent previous) (sgRemainingPercent current) points (points =? 1)
               (sgFirstObservedAt previous) (sgFirstObservedAt current) noUsage f64_zero f64_zero true).

Fixpoint buildCodexQuotaEfficiencyTransitions (segments : list QuotaPercentSegment) : list EfficiencyTransition :=
  match segments with
  | previous :: ((current :: _) as rest) =>
      match transitionBetween previous current with
      | Some t => t :: buildCodexQuotaEfficiencyTransitions rest
      | None => buildCodexQuotaEfficiencyTransitions rest
      end
  | _ => []
  end.

(** ** Adding up *)

(** The group an event is priced in: API key, model, alias, the two tiers, effort, endpoint
    and executor. *)
Abbreviation PricingKey := (string * string * string * string * string * string * string * string)%type (only parsing).

Record PricingTokens := mkPricingTokens {
  ptInputTokens : Z;
  ptOutputTokens : Z;
  ptCacheReadTokens : Z;
  ptCacheCreationTokens : Z;
  ptTotalTokens : Z;
}.

Record Accumulator := mkAccumulator { acUsage : EfficiencyUsage; acPricing : gmap PricingKey PricingTokens }.
Definition newCodexQuotaEfficiencyUsageAccumulator : Accumulator := mkAccumulator noUsage ∅.

Definition UsagePricingDimensionColumns (active : ActiveFields) : list string :=
  ["model"; "model_alias"] ++
  map snd (List.filter (fun d => Has active d.1)
    [(RuleFieldAPIGroupKey, "api_group_key"); (RuleFieldAuthIndex, "auth_index"); (RuleFieldServiceTier, "service_tier");
     (RuleFieldResponseServiceTier, "response_service_tier"); (RuleFieldReasoningEffort, "reasoning_effort");
     (RuleFieldEndpoint, "endpoint"); (RuleFieldExecutorType, "executor_type")]).

(** codexQuotaEfficiencyPricingProjection: a column that is not read is empty. *)
Definition pricingKey (active : ActiveFields) (keepAll : bool) (e : UsageEvent) : PricingKey :=
  let read column value :=
    if keepAll || existsb (String.eqb column) (UsagePricingDimensionColumns active) then value else EmptyString in
  (read "api_group_key" (evAPIGroupKey e), read "model" (evModel e),
   read "model_alias" (default EmptyString (evModelAlias e)), read "service_tier" (evServiceTier e),
   read "response_service_tier" (evResponseServiceTier e), read "reasoning_effort" (evReasoningEffort e),
   read "endpoint" (evEndpoint e), read "executor_type" (evExecutorType e)).

Definition codexQuotaEfficiencyTokensAreAdditive (input output cacheRead cacheCreation total : Z) : bool :=
  (0 <=? input) && (0 <=? output) && (0 <=? cacheRead) && (0 <=? cacheCreation) && (0 <=? total)
  && (cacheRead <=? input) && (cacheCreation <=? sub64 input cacheRead).

Definition addUsage (e : UsageEvent) (u : EfficiencyUsage) : EfficiencyUsage :=
  mkEfficiencyUsage (add64 (euRequests u) 1)
    (if evFailed e then euSuccessful u else add64 (euSuccessful u) 1)
    (if evFailed e then add64 (euFailed u) 1 else euFailed u)
    (add64 (euInputTokens u) (evInputTokens e)) (add64 (euOutputTokens u) (evOutputTokens e))
    (add64 (euReasoningTokens u) (evReasoningTokens e)) (add64 (euCacheReadTokens u) (evCacheReadTokens e))
    (add64 (euCacheCreationTokens u) (evCacheCreationTokens e)) (add64 (euTotalTokens u) (evTotalTokens e))
    (euTotalCostUSD u) (euCostAvailable u).

Definition addTokens (e : UsageEvent) (t : PricingTokens) : PricingTokens :=
  mkPricingTokens (add64 (ptInputTokens t) (evInputTokens e)) (add64 (ptOutputTokens t) (evOutputTokens e))
    (add64 (ptCacheReadTokens t) (evCacheReadTokens e)) (add64 (ptCacheCreationTokens t) (evCacheCreationTokens e))
    (add64 (ptTotalTokens t) (evTotalTokens e)).

(** Method add of an accumulator. *)
Definition addEvent (active : ActiveFields) (keepAll : bool) (e : UsageEvent) (a : Accumulator) : Accumulator :=
  let key := pricingKey active keepAll e in
  mkAccumulator (addUsage e (acUsage a))
    (<[key := addTokens e (default (mkPricingTokens 0 0 0 0 0) (acPricing a !! key))]> (acPricing a)).

(** A cycle with its part of the stream and its accumulators: its own, and one for each of
    its transitions. *)
Record Work := mkWork {
  wkRecord : EfficiencyCycle;
  wkStart : Time;
  wkEnd : Time;
  wkCycle : Accumulator;
  wkTransitions : list Accumulator;
}.

Definition newWork (record : EfficiencyCycle) (start end_ : Time) : Work :=
  mkWork record start end_ newCodexQuotaEfficiencyUsageAccumulator
    (map (fun _ => newCodexQuotaEfficiencyUsageAccumulator) (eyTransitions record)).

Definition workBefore (left right : Work) : bool :=
  if negb (wkStart left =? wkStart right) then wkStart left <? wkStart right
  else if negb (wkEnd left =? wkEnd right) then wkEnd left <? wkEnd right
  else eyID (wkRecord left) <? eyID (wkRecord right).

(** ** The stream *)

(** The two loops that move an index on: to the first cycle, or transition, from the index
    that the event is not behind. *)
Fixpoint skipWorks (at_ : Time) (works : list Work) (wi ti : nat) : nat * nat :=
  match works with
  | [] => (wi, ti)
  | w :: works => if at_ <? wkEnd w then (wi, ti) else skipWorks at_ works (S wi) 0
  end.

Fixpoint skipTransitions (at_ : Time) (transitions : list EfficiencyTransition) (ti : nat) : nat :=
  match transitions with
  | [] => ti
  | t :: transitions => if etIntervalEndedAt t <? at_ then skipTransitions at_ transitions (S ti) else ti
  end.

Section Stream.
Variables (active : ActiveFields) (keepAll : bool).

Definition countCycle (e : UsageEvent) (w : Work) : Work :=
  mkWork (wkRecord w) (wkStart w) (wkEnd w) (addEvent active keepAll e (wkCycle w)) (wkTransitions w).
Definition countTransition (e : UsageEvent) (ti : nat) (w : Work) : Work :=
  mkWork (wkRecord w) (wkStart w) (wkEnd w) (wkCycle w) (alter (addEvent active keepAll e) ti (wkTransitions w)).

Definition eventAdditive (e : UsageEvent) : bool :=
  codexQuotaEfficiencyTokensAreAdditive (evInputTokens e) (evOutputTokens e) (evCacheReadTokens e)
    (evCacheCreationTokens e) (evTotalTokens e).
Definition usageAdditive (u : EfficiencyUsage) : bool :=
  codexQuotaEfficiencyTokensAreAdditive (euInputTokens u) (euOutputTokens u) (euCacheReadTokens u)
    (euCacheCreationTokens u) (euTotalTokens u).

(** The loop over the rows; [None]: what was read cannot be priced by its active columns
    alone. *)
Fixpoint streamEvents (events : list UsageEvent) (works : list Work) (wi ti : nat) : option (list Work) :=
  match events with
  | [] => Some works
  | e :: events =>
      let at_ := evTimestamp e in
      let '(wi, ti) := skipWorks at_ (drop wi works) wi ti in
      match works !! wi with
      | None => Some works
      | Some w =>
          if at_ <? wkStart w then streamEvents events works wi ti
          else
            let w := countCycle e w in
            if negb keepAll && (negb (eventAdditive e) || negb (usageAdditive (acUsage (wkCycle w)))) then None
            else
              let transitions := eyTransitions (wkRecord w) in
              let ti := skipTransitions at_ (drop ti transitions) ti in
              let w := match transitions !! ti with
                       | Some t => if (etIntervalStartedAt t <? at_) && (at_ <=? etIntervalEndedAt t)
                                   then countTransition e ti w else w
                       | None => w
                       end in
              streamEvents events (<[wi := w]> works) wi ti
      end
  end.
End Stream.

Section Efficiency.
Context (local : Location) (fault : nat -> option string).
Context (costResolver : option Snapshot) (walk : list (PricingKey * PricingTokens) -> list (PricingKey * PricingTokens)).

Record EfficiencyTables := mkEfficiencyTables {
  ftQuota : QuotaTables;
  ftEvents : list UsageEvent;
  ftIdentities : gmap Z UsageIdentity;
}.

(** newUsagePricingCostSubject *)
Definition groupSubject (authIndex : string) (key : PricingKey) (t : PricingTokens) : CostSubject :=
  let '(apiGroupKey, model, modelAlias, serviceTier, responseServiceTier, reasoningEffort, endpoint, executorType) := key in
  NewCostSubject
    (mkDimensions apiGroupKey model authIndex modelAlias serviceTier responseServiceTier reasoningEffort endpoint executorType)
    (mkTokens (ptInputTokens t) (ptOutputTokens t) (ptCacheReadTokens t) (ptCacheCreationTokens t)).

Definition addCost (authIndex : string) (u : EfficiencyUsage) (group : PricingKey * PricingTokens) : EfficiencyUsage :=
  let cost := Calculate costResolver (groupSubject authIndex group.1 group.2) in
  let available := coAvailable cost && negb ((0 <? ptTotalTokens group.2) && (coMatchedModel cost =?s EmptyString)) in
  mkEfficiencyUsage (euRequests u) (euSuccessful u) (euFailed u) (euInputTokens u) (euOutputTokens u) (euReasoningTokens u)
    (euCacheReadTokens u) (euCacheCreationTokens u) (euTotalTokens u)
    (f64_add (euTotalCostUSD u) (cbTotalCostUSD (coCost cost))) (euCostAvailable u && available).

(** Method finalize of an accumulator. *)
Definition finalUsage (authIndex : string) (a : Accumulator) : EfficiencyUsage :=
  foldl (addCost authIndex) (acUsage a) (walk (map_to_list (acPricing a))).

Definition withUsage (u : EfficiencyUsage) (t : EfficiencyTransition) : EfficiencyTransition :=
  mkTransition (etFromRemainingPercent t) (etToRemainingPercent t) (etPercentagePoints t) (etIsDirect t)
    (etIntervalStartedAt t) (etIntervalEndedAt t) u (etTokensPerPoint t) (etCostPerPoint t) (etCostPerPointAvailable t).

Definition withUsages (u : EfficiencyUsage) (transitions : list EfficiencyTransition) (c : EfficiencyCycle) : EfficiencyCycle :=
  mkEfficiencyCycle (eyID c) (eyStatus c) (eyWindowSeconds c) (eyWindowStartedAt c) (eyResetAt c) (eyEffectiveStartedAt c)
    (eyEffectiveEndedAt c) (eyFirstObservedAt c) (eyLastObservedAt c) (eyFirstRemainingPercent c) (eyLastRemainingPercent c)
    (eyObservationCount c) u transitions.

(** What the accumulators of a work leave in its record. *)
Definition finishWork (authIndex : string) (w : Work) : EfficiencyCycle :=
  withUsages (finalUsage authIndex (wkCycle w))
    (zip_with (fun t a => withUsage (finalUsage authIndex a) t) (eyTransitions (wkRecord w)) (wkTransitions w)) (wkRecord w).

(** ORDER BY timestamp ASC, id ASC *)
Definition eventBefore (a b : UsageEvent) : bool :=
  let ta := FormatStorageTime local (evTimestamp a) in
  let tb := FormatStorageTime local (evTimestamp b) in
  string_lt ta tb || (negb (string_lt tb ta) && (evID a <? evID b)).

(** The WHERE of the stream. *)
Definition eventInRange (provider authIndex : string) (globalStart globalEnd : Time) (e : UsageEvent) : bool :=
  let at_ := FormatStorageTime local (evTimestamp e) in
  (evAuthType e =?s "oauth") && (evAuthIndex e =?s authIndex) && (evProvider e =?s provider)
  && negb (string_lt at_ (FormatStorageTime local globalStart)) && string_lt at_ (FormatStorageTime local globalEnd).

Definition usageEvents (provider authIndex : string) (globalStart globalEnd : Time) (t : EfficiencyTables) : list UsageEvent :=
  stableSort eventBefore (List.filter (eventInRange provider authIndex globalStart globalEnd) (ftEvents t)).

Definition globalRange (works : list Work) : Time * Time :=
  match works with
  | [] => (zero_time, zero_time)
  | first :: rest =>
      foldl (fun r w => (if wkStart w <? r.1 then wkStart w else r.1, if r.2 <? wkEnd w then wkEnd w else r.2))
        (wkStart first, wkEnd first) rest
  end.

Notation "'try$' x := m 'in' k" := (sql_try m (fun x => k)) (at level 200, x binder, m at level 100, k at level 200).

Definition Sql := Sql EfficiencyTables.

(** streamCodexQuotaEfficiencyUsage: the columns of the active fields first; when they are
    not enough, all of it again with all columns. *)
Definition streamCodexQuotaEfficiencyUsage (provider authIndex : string) (works : list Work)
    : Sql (result string (list EfficiencyCycle)) :=
  match works with
  | [] => sql_ret (Ok [])
  | _ =>
      let works := stableSort workBefore works in
      let '(globalStart, globalEnd) := globalRange works in
      let read := wrap "stream codex quota efficiency usage: "
                    (query fault (usageEvents provider authIndex globalStart globalEnd)) in
      let active := ActiveFieldsOf costResolver in
      try$ events := read in
      match streamEvents active false events works 0 0 with
      | Some works => sql_ret (Ok (map (finishWork authIndex) works))
      | None =>
          try$ _ := wrap "close codex quota efficiency usage before full pricing scan: " (query fault (fun _ => tt)) in
          try$ events := read in
          sql_ret (Ok (map (finishWork authIndex) (default works (streamEvents active true events works 0 0))))
      end
  end.

(** finalizeCodexQuotaEfficiencyTransitions *)
Definition finalizeTransition (t : EfficiencyTransition) : EfficiencyTransition :=
  let points := f64_of_int (etPercentagePoints t) in
  mkTransition (etFromRemainingPercent t) (etToRemainingPercent t) (etPercentagePoints t) (etIsDirect t)
    (etIntervalStartedAt t) (etIntervalEndedAt t) (etUsage t)
    (f64_div (f64_of_int (euTotalTokens (etUsage t))) points) (f64_div (euTotalCostUSD (etUsage t)) points)
    (euCostAvailable (etUsage t)).
Definition finalizeCodexQuotaEfficiencyTransitions (c : EfficiencyCycle) : EfficiencyCycle :=
  withUsages (eyUsage c) (map finalizeTransition (eyTransitions c)) c.

(** ** The answer *)

(** ORDER BY reset_at DESC, id DESC *)
Definition laterReset (a b : QuotaCycle) : bool :=
  (qcResetAt b <? qcResetAt a) || ((qcResetAt a =? qcResetAt b) && (qcID b <? qcID a)).

Definition cyclesInRange (provider authIndex : string) (rangeStart now : Time) (t : EfficiencyTables) : list QuotaCycle :=
  stableSort laterReset (List.filter (fun c =>
    (qcProvider c =?s provider) && (qcAuthIndex c =?s authIndex) && (rangeStart <=? qcResetAt c) && (qcWindowStartedAt c <? now))
    (map snd (map_to_list (qtCycles (ftQuota t))))).

(** The segments of one of the cycles, ORDER BY first_observed_at ASC, id ASC *)
Definition earlierSegment (a b : QuotaPercentSegment) : bool :=
  (sgFirstObservedAt a <? sgFirstObservedAt b)
  || ((sgFirstObservedAt a =? sgFirstObservedAt b) && (sgID a <? sgID b)).
Definition segmentsOf (cycleID : Z) (t : EfficiencyTables) : list QuotaPercentSegment :=
  stableSort earlierSegment (List.filter (fun s => sgCycleID s =? cycleID)
    (map snd (map_to_list (qtSegments (ftQuota t))))).

(** The loop that builds the works, for one cycle. *)
Definition workOf (query : EfficiencyQuery) (periods : gmap Z Period) (segments : Z -> list QuotaPercentSegment)
    (cycle : QuotaCycle) : option Work :=
  match periods !! qcID cycle with
  | None => None
  | Some period =>
      if negb (prStart period <? prEnd period) then None
      else if prEnd period <? efRangeStart query then None
      else
        let active := prCurrent period in
        let ended := negb (efNow query <? prEnd period) in
        if negb active && negb ended then None
        else
          let own := segments (qcID cycle) in
          let '(firstPercent, lastPercent, observationCount) := quotaCyclePercentSummary own in
          Some (newWork
            (mkEfficiencyCycle (qcID cycle) (if active then "current" else "completed") (qcWindowSeconds cycle)
               (qcWindowStartedAt cycle) (qcResetAt cycle) (prStart period) (prEnd period) (qcFirstObservedAt cycle)
               (qcLastObservedAt cycle) firstPercent lastPercent observationCount noUsage
               (buildCodexQuotaEfficiencyTransitions own))
            (prStart period) (if active then efNow query else prEnd period))
  end.

(** Current first, then by the end, latest first. *)
Definition shownBefore (left right : EfficiencyCycle) : bool :=
  if negb (eyStatus left =?s eyStatus right) then eyStatus left =?s "current"
  else eyEffectiveEndedAt right <? eyEffectiveEndedAt left.

Definition efficiencyError (text : string) : string := String.append "build codex quota efficiency history: " text.

(** BuildCodexQuotaEfficiencyHistory.  The segments of all cycles are read by one statement. *)
Definition BuildCodexQuotaEfficiencyHistory (q : EfficiencyQuery) : Sql (result string EfficiencyHistory) :=
  let authIndex := TrimSpace (efAuthIndex q) in
  let provider := ToLower (TrimSpace (efProvider q)) in
  let provider := if provider =?s EmptyString then "codex" else provider in
  let now := efNow q in
  match QuotaWindowKey provider "primary" with
  | None => sql_ret (Err "unsupported quota history provider")
  | Some _ =>
      if authIndex =?s EmptyString then sql_ret (Err (efficiencyError "auth_index is required"))
      else if IsZero now || IsZero (efRangeStart q) || negb (efRangeStart q <? now)
      then sql_ret (Err (efficiencyError "invalid time range"))
      else
        try$ cycles := wrap "list codex quota efficiency cycles: "
                         (query fault (cyclesInRange provider authIndex (efRangeStart q) now)) in
        match cycles with
        | [] => sql_ret (Ok (mkEfficiencyHistory now (efRangeStart q) [] None []))
        | _ =>
            let windows := buildQuotaEfficiencyWindows cycles provider now in
            match selectCodexQuotaEfficiencyWindow windows (efWindowRole q) with
            | None => sql_ret (Ok (mkEfficiencyHistory now (efRangeStart q) windows None []))
            | Some selected =>
                let selectedCycles := List.filter (fun c => match QuotaWindowRole provider (qcQuotaKey c) with
                                                            | Some role => role =?s ewWindowRole selected
                                                            | None => false end) cycles in
                let currentCycleID := if ewHasCurrentCycle selected
                                      then latestCodexQuotaEfficiencyCycleID selectedCycles else 0 in
                let periods := buildCodexQuotaEfficiencyCyclePeriods selectedCycles currentCycleID now in
                if bool_decide (selectedCycles = [])
                then sql_ret (Ok (mkEfficiencyHistory now (efRangeStart q) windows (Some selected) []))
                else
                try$ segments := wrap "list codex quota efficiency segments: "
                                   (query fault (fun t id => segmentsOf id t)) in
                let works := omap (workOf q periods segments) selectedCycles in
                try$ records := streamCodexQuotaEfficiencyUsage provider authIndex works in
                let shown := omap (fun w => List.find (fun r => eyID r =? eyID (wkRecord w)) records) works in
                sql_ret (Ok (mkEfficiencyHistory now (efRangeStart q) windows (Some selected)
                  (stableSort shownBefore (map finalizeCodexQuotaEfficiencyTransitions shown))))
            end
        end
  end.

(** ** quota/codex_quota_efficiency.go *)

(** GetActiveAuthFileUsageIdentityByAuthIndex: the first row by key. *)
Definition GetActiveAuthFileUsageIdentityByAuthIndex (authIndex : string) : Sql (result string (option UsageIdentity)) :=
  wrap "get active auth file usage identity by auth index: " (query fault (fun t =>
    head (stableSort (fun a b => uiID a <? uiID b) (List.filter (fun i =>
      (uiAuthType i =? UsageIdentityAuthTypeAuthFile) && (uiIdentity i =?s TrimSpace authIndex) && negb (uiIsDeleted i))
      (map snd (map_to_list (ftIdentities t))))))).

Definition codexQuotaHistoryRange : Duration := 30 * 24 * Hour.

Inductive HistoryError :=
| HistoryValidation (text : string)
| HistoryNotFound (authIndex : string)
| HistoryUnsupported (type_ : string)
| HistoryFailed (text : string).

(** GetCodexQuotaHistory.  [clock] is read when the request has no time of its own.  The
    response repeats the history field by field. *)
Definition GetCodexQuotaHistory (authIndex : string) (windowRole : option string) (requestNow clock : Time)
    : Sql (result HistoryError EfficiencyHistory) :=
  let authIndex := TrimSpace authIndex in
  if authIndex =?s EmptyString then sql_ret (Err (HistoryValidation "auth_index is required"))
  else
    let role := option_map (fun role => ToLower (TrimSpace role)) windowRole in
    if match role with Some role => negb ((role =?s "primary") || (role =?s "secondary")) | None => false end
    then sql_ret (Err (HistoryValidation "window_role must be primary or secondary"))
    else sql_bind (GetActiveAuthFileUsageIdentityByAuthIndex authIndex) (fun found =>
      match found with
      | Err e => sql_ret (Err (HistoryFailed (String.append "get codex quota history identity: " e)))
      | Ok None => sql_ret (Err (HistoryNotFound authIndex))
      | Ok (Some identity) =>
          let provider := normalizeIdentityType (imType (uiMetadata identity)) in
          if negb ((provider =?s "codex") || (provider =?s "claude")) then sql_ret (Err (HistoryUnsupported provider))
          else
            let now := if IsZero requestNow then clock else requestNow in
            sql_bind (BuildCodexQuotaEfficiencyHistory
                        (mkEfficiencyQuery provider authIndex now (now - codexQuotaHistoryRange) role)) (fun r =>
              sql_ret match r with
                      | Err e => Err (HistoryFailed (String.append "get codex quota history: " e))
                      | Ok history => Ok history
                      end)
      end).
End Efficiency.
