(* ===== verification/QuotaEfficiencyFacts.v ===== *)
(** What was used in the cycles of a quota: the stream with its two indices counts, for each
    cycle and each transition, exactly the events of its interval; the effective periods of
    the cycles of a window are disjoint; and the transitions of a cycle add up. *)
From S2P Require Import Prelude GoStrings GoTime GoFloat Timeutil TimeutilFacts Entities Sql Pricing IdentityStats Quota QuotaHistory QuotaHistoryFacts QuotaEfficiency.

Local Open Scope string_scope.
Local Open Scope list_scope.
Local Open Scope Z_scope.

(** ** The reference *)

(** The part of the stream of a cycle includes its start, that of a transition its end. *)
Definition inWork (w : Work) (e : UsageEvent) : bool := (wkStart w <=? evTimestamp e) && (evTimestamp e <? wkEnd w).
Definition inTransition (t : EfficiencyTransition) (e : UsageEvent) : bool :=
  (etIntervalStartedAt t <? evTimestamp e) && (evTimestamp e <=? etIntervalEndedAt t).

Section Tally.
Variables (active : ActiveFields) (keepAll : bool).

Definition tally (a : Accumulator) (events : list UsageEvent) : Accumulator :=
  foldl (fun a e => addEvent active keepAll e a) a events.

(** One event, in every cycle and every transition that has it. *)
Definition countIn (e : UsageEvent) (w : Work) : Work :=
  if inWork w e then
    mkWork (wkRecord w) (wkStart w) (wkEnd w) (addEvent active keepAll e (wkCycle w))
      (zip_with (fun t a => if inTransition t e then addEvent active keepAll e a else a)
         (eyTransitions (wkRecord w)) (wkTransitions w))
  else w.

(** All events at once. *)
Definition counted (events : list UsageEvent) (w : Work) : Work :=
  mkWork (wkRecord w) (wkStart w) (wkEnd w)
    (tally (wkCycle w) (List.filter (inWork w) events))
    (zip_with (fun t a => tally a (List.filter (fun e => inWork w e && inTransition t e) events))
       (eyTransitions (wkRecord w)) (wkTransitions w)).

(** ** Works in order *)

Definition work_ok (w : Work) : Prop :=
  length (wkTransitions w) = length (eyTransitions (wkRecord w)) /\
  Forall (fun t => etIntervalStartedAt t <= etIntervalEndedAt t) (eyTransitions (wkRecord w)) /\
  (forall j k tj tk, (j < k)%nat -> eyTransitions (wkRecord w) !! j = Some tj -> eyTransitions (wkRecord w) !! k = Some tk ->
     etIntervalEndedAt tj <= etIntervalStartedAt tk).

Definition works_ok (works : list Work) : Prop :=
  Forall work_ok works /\
  (forall j k wj wk, (j < k)%nat -> works !! j = Some wj -> works !! k = Some wk -> wkEnd wj <= wkStart wk).

(** What the indices have left behind. *)
Definition passed (works : list Work) (wi ti : nat) (at_ : Time) : Prop :=
  (forall j w, (j < wi)%nat -> works !! j = Some w -> wkEnd w <= at_) /\
  (forall w k t, works !! wi = Some w -> (k < ti)%nat -> eyTransitions (wkRecord w) !! k = Some t -> etIntervalEndedAt t < at_).

Lemma passed_later works wi ti a b : a <= b -> passed works wi ti a -> passed works wi ti b.
Proof. intros L [P1 P2]. split; [intros j w J W; specialize (P1 _ _ J W); lia|intros w k t W K T; specialize (P2 _ _ _ W K T); lia]. Qed.

Lemma skipWorks_spec at_ works wi ti wi' ti' :
  passed works wi ti at_ -> skipWorks at_ (drop wi works) wi ti = (wi', ti') ->
  passed works wi' ti' at_ /\ (forall w, works !! wi' = Some w -> at_ < wkEnd w).
Proof.
  remember (drop wi works) as rest eqn:R. revert wi ti R. induction rest as [|w rest IH]; intros wi ti R P H; cbn in H.
  - injection H as <- <-. split; [done|]. intros w W. assert (length works <= wi)%nat.
    { rewrite <- Nat.sub_0_le, <- length_drop, <- R. done. }
    by rewrite lookup_ge_None_2 in W.
  - assert (W : works !! wi = Some w) by (rewrite <- (Nat.add_0_r wi), <- lookup_drop, <- R; done).
    destruct (at_ <? wkEnd w) eqn:E; bool_split.
    + injection H as <- <-. split; [done|]. intros w' W'. by assert (w = w') as <- by congruence.
    + apply (IH (S wi) 0%nat); [|split|done].
      * by rewrite <- Nat.add_1_r, <- drop_drop, <- R.
      * intros j w' J W'. destruct (decide (j = wi)) as [->|]; [by assert (w = w') as <- by congruence|].
        destruct P as [P _]. apply (P j); [lia|done].
      * intros; lia.
Qed.

Lemma skipTransitions_spec at_ transitions ti :
  (forall k t, (k < ti)%nat -> transitions !! k = Some t -> etIntervalEndedAt t < at_) ->
  (forall k t, (k < skipTransitions at_ (drop ti transitions) ti)%nat -> transitions !! k = Some t -> etIntervalEndedAt t < at_) /\
  (forall t, transitions !! skipTransitions at_ (drop ti transitions) ti = Some t -> at_ <= etIntervalEndedAt t).
Proof.
  remember (drop ti transitions) as rest eqn:R. revert ti R. induction rest as [|t rest IH]; intros ti R P; cbn.
  - split; [done|]. intros t T. assert (length transitions <= ti)%nat.
    { rewrite <- Nat.sub_0_le, <- length_drop, <- R. done. }
    by rewrite lookup_ge_None_2 in T.
  - assert (T : transitions !! ti = Some t) by (rewrite <- (Nat.add_0_r ti), <- lookup_drop, <- R; done).
    destruct (etIntervalEndedAt t <? at_) eqn:E; bool_split.
    + apply IH; [by rewrite <- Nat.add_1_r, <- drop_drop, <- R|].
      intros k t' K T'. destruct (decide (k = ti)) as [->|]; [by assert (t = t') as <- by congruence|]. apply (P k); [lia|done].
    + split; [done|]. intros t' T'. by assert (t = t') as <- by congruence.
Qed.

(** A work that does not have the event stays. *)
Lemma countIn_other e w : inWork w e = false -> countIn e w = w.
Proof. unfold countIn. by intros ->. Qed.

(** What the loop does at the index is what the event adds to that work. *)
Lemma countIn_at e w ti :
  work_ok w -> inWork w e = true ->
  (forall k t, (k < ti)%nat -> eyTransitions (wkRecord w) !! k = Some t -> etIntervalEndedAt t < evTimestamp e) ->
  (forall t, eyTransitions (wkRecord w) !! ti = Some t -> evTimestamp e <= etIntervalEndedAt t) ->
  countIn e w =
  match eyTransitions (wkRecord w) !! ti with
  | Some t => if inTransition t e then countTransition active keepAll e ti (countCycle active keepAll e w)
              else countCycle active keepAll e w
  | None => countCycle active keepAll e w
  end.
Proof.
  intros (Len & Up & Ord) In Before At_. unfold countIn. rewrite In.
  assert (Only : forall k t, eyTransitions (wkRecord w) !! k = Some t -> k <> ti -> inTransition t e = false).
  { intros k t K N. unfold inTransition. destruct (decide (k < ti)%nat) as [L|G].
    - specialize (Before k t L K). lia.
    - destruct (eyTransitions (wkRecord w) !! ti) as [t'|] eqn:T.
      + specialize (Ord ti k t' t ltac:(lia) T K). specialize (At_ t' eq_refl). lia.
      + apply lookup_ge_None_1 in T. apply lookup_lt_Some in K. lia. }
  assert (Plain : forall P : nat -> Prop, (forall k t, eyTransitions (wkRecord w) !! k = Some t -> inTransition t e = false) ->
            zip_with (fun t a => if inTransition t e then addEvent active keepAll e a else a) (eyTransitions (wkRecord w)) (wkTransitions w) = wkTransitions w).
  { intros _ No. apply list_eq. intros k. rewrite lookup_zip_with.
    destruct (eyTransitions (wkRecord w) !! k) as [t|] eqn:T; cbn.
    - rewrite (No _ _ T). by destruct (wkTransitions w !! k).
    - apply lookup_ge_None_1 in T. symmetry. apply lookup_ge_None_2. lia. }
  destruct (eyTransitions (wkRecord w) !! ti) as [t|] eqn:T.
  - destruct (inTransition t e) eqn:I.
    + unfold countTransition, countCycle. cbn. f_equal. apply list_eq. intros k. rewrite lookup_zip_with.
      destruct (decide (k = ti)) as [->|N].
      * rewrite list_lookup_alter_eq, T. cbn. rewrite I. by destruct (wkTransitions w !! ti).
      * rewrite list_lookup_alter_ne by done. destruct (eyTransitions (wkRecord w) !! k) as [t'|] eqn:K; cbn.
        { rewrite (Only _ _ K N). by destruct (wkTransitions w !! k). }
        apply lookup_ge_None_1 in K. symmetry. apply lookup_ge_None_2. lia.
    + unfold countCycle. f_equal. apply (Plain (fun _ => True)). intros k t' K.
      destruct (decide (k = ti)) as [->|N]; [by assert (t' = t) as -> by congruence|by eapply Only].
  - unfold countCycle. f_equal. apply (Plain (fun _ => True)). intros k t' K.
    eapply Only; [exact K|]. intros ->. congruence.
Qed.

Lemma countIn_static e w : wkRecord (countIn e w) = wkRecord w /\ wkStart (countIn e w) = wkStart w /\ wkEnd (countIn e w) = wkEnd w.
Proof. unfold countIn. by destruct (inWork w e). Qed.

Lemma countIn_ok e w : work_ok w -> work_ok (countIn e w).
Proof.
  intros (Len & Rest). unfold countIn. destruct (inWork w e); [|done]. unfold work_ok. cbn.
  split; [|done]. rewrite length_zip_with. lia.
Qed.

Lemma works_count e works : works_ok works -> works_ok (map (countIn e) works).
Proof.
  intros [F D]. split.
  - rewrite Forall_map. eapply Forall_impl; [exact F|]. intros w. apply countIn_ok.
  - intros j k wj wk L. rewrite !list_lookup_fmap.
    destruct (works !! j) as [vj|] eqn:J, (works !! k) as [vk|] eqn:K; try done. cbn. intros [= <-] [= <-].
    destruct (countIn_static e vj) as (_ & _ & ->). destruct (countIn_static e vk) as (_ & -> & _). by eapply D.
Qed.

Lemma passed_count e works wi ti at_ : passed works wi ti at_ -> passed (map (countIn e) works) wi ti at_.
Proof.
  intros [P1 P2]. split.
  - intros j w J. rewrite list_lookup_fmap. destruct (works !! j) as [v|] eqn:V; [|done]. cbn. intros [= <-].
    destruct (countIn_static e v) as (_ & _ & ->). by eapply P1.
  - intros w k t. rewrite list_lookup_fmap. destruct (works !! wi) as [v|] eqn:V; [|done]. cbn. intros [= <-].
    destruct (countIn_static e v) as (-> & _). by eapply P2.
Qed.

(** Only the work at the index can have the event. *)
Lemma only_at works wi ti e w :
  works_ok works -> passed works wi ti (evTimestamp e) -> works !! wi = Some w -> evTimestamp e < wkEnd w ->
  map (countIn e) works = <[wi := countIn e w]> works.
Proof.
  intros [F D] [P _] W L. apply list_eq. intros k. rewrite list_lookup_fmap.
  destruct (decide (k = wi)) as [->|N].
  - rewrite list_lookup_insert_eq by (by eapply lookup_lt_Some). by rewrite W.
  - rewrite list_lookup_insert_ne by done. destruct (works !! k) as [v|] eqn:V; [|done]. cbn. f_equal.
    apply countIn_other. unfold inWork. destruct (decide (k < wi)%nat) as [K|K].
    + specialize (P k v K V). lia.
    + specialize (D wi k w v ltac:(lia) W V). lia.
Qed.

Lemma none_left works wi ti e :
  passed works wi ti (evTimestamp e) -> works !! wi = None -> map (countIn e) works = works.
Proof.
  intros [P _] W. apply list_eq. intros k. rewrite list_lookup_fmap.
  destruct (works !! k) as [v|] eqn:V; [|done]. cbn. f_equal. apply countIn_other. unfold inWork.
  apply lookup_lt_Some in V as L. apply lookup_ge_None_1 in W. specialize (P k v ltac:(lia) V). lia.
Qed.

(** The stream, whatever it has read before. *)
Lemma stream_counts events works wi ti result :
  works_ok works -> StronglySorted (fun a b => evTimestamp a <= evTimestamp b) events ->
  (forall e, e ∈ events -> passed works wi ti (evTimestamp e)) ->
  streamEvents active keepAll events works wi ti = Some result ->
  result = foldl (fun works e => map (countIn e) works) works events.
Proof.
  intros Ok_ S. revert works wi ti Ok_. induction S as [|e events S IH All]; intros works wi ti Ok_ P; cbn [streamEvents foldl].
  { by intros [= <-]. }
  destruct (skipWorks (evTimestamp e) (drop wi works) wi ti) as [wi' ti'] eqn:Sk.
  apply skipWorks_spec in Sk as [P' Front]; [|apply P; left].
  assert (Later : forall e', e' ∈ events -> evTimestamp e <= evTimestamp e').
  { intros e' I. rewrite Forall_forall in All. by apply All. }
  destruct (works !! wi') as [w|] eqn:W.
  - specialize (Front w eq_refl). pose proof (only_at _ _ _ _ _ Ok_ P' W Front) as Step.
    destruct (evTimestamp e <? wkStart w) eqn:B; bool_split.
    + assert (countIn e w = w) as Same by (apply countIn_other; unfold inWork; lia).
      rewrite Step, Same, list_insert_id by done. intros R. apply (IH works wi' ti'); try done.
      intros e' I. eapply passed_later; [by apply Later|done].
    + destruct (negb keepAll && _); [done|].
      assert (In : inWork w e = true) by (unfold inWork; lia).
      pose proof (skipTransitions_spec (evTimestamp e) (eyTransitions (wkRecord w)) ti') as T.
      destruct T as [Tb Ta]; [intros k t K T; eapply P'; [exact W|exact K|exact T]|].
      set (ti2 := skipTransitions (evTimestamp e) (drop ti' (eyTransitions (wkRecord w))) ti') in *.
      destruct Ok_ as [F D].
      pose proof (countIn_at e w ti2 (Forall_lookup_1 _ _ _ _ F W) In Tb Ta) as At_.
      change (eyTransitions (wkRecord (countCycle active keepAll e w))) with (eyTransitions (wkRecord w)).
      intros R. rewrite Step.
      apply (IH (<[wi' := countIn e w]> works) wi' ti2).
      * rewrite <- Step. by apply works_count.
      * intros e' I. rewrite <- Step. apply passed_count. eapply passed_later; [by apply Later|].
        split; [apply P'|]. intros v k t V K T. assert (v = w) as -> by congruence. by eapply Tb.
      * rewrite At_. exact R.
  - intros [= <-]. clear IH S. revert P' W Later. clear -active keepAll. intros P' W Later.
    rewrite (none_left _ _ _ _ P' W).
    assert (forall e', e' ∈ events -> passed works wi' ti' (evTimestamp e')) as Pl
      by (intros e' I; eapply passed_later; [by apply Later|done]).
    clear Later P'. revert Pl. induction events as [|e' events IH]; intros Pl; [done|]. cbn.
    rewrite (none_left works wi' ti') by (try done; apply Pl; left). apply IH. intros e2 I. apply Pl. by right.
Qed.
End Tally.

Section Reference.
Variables (active : ActiveFields) (keepAll : bool).

Lemma counted_step e events w :
  length (wkTransitions w) = length (eyTransitions (wkRecord w)) ->
  counted active keepAll (e :: events) w = counted active keepAll events (countIn active keepAll e w).
Proof.
  intros Len. unfold counted, countIn. cbn [List.filter]. destruct (inWork w e) eqn:I; cbn [andb]; [|done].
  cbn. f_equal. apply list_eq. intros k. rewrite !lookup_zip_with.
  destruct (eyTransitions (wkRecord w) !! k) as [t|] eqn:T, (wkTransitions w !! k) as [a|] eqn:A; try done; cbn.
  by destruct (inTransition t e).
Qed.

Lemma counted_nil w : length (wkTransitions w) = length (eyTransitions (wkRecord w)) -> counted active keepAll [] w = w.
Proof.
  intros Len. destruct w as [r s e c ts]. unfold counted. cbn in *. f_equal.
  apply list_eq. intros k. rewrite lookup_zip_with. destruct (eyTransitions r !! k) as [t|] eqn:T; cbn.
  - by destruct (ts !! k).
  - symmetry. apply lookup_ge_None_2. apply lookup_ge_None_1 in T. lia.
Qed.

Lemma counted_all events works :
  Forall work_ok works -> foldl (fun works e => map (countIn active keepAll e) works) works events = map (counted active keepAll events) works.
Proof.
  revert works. induction events as [|e events IH]; intros works F; cbn [foldl].
  - symmetry. rewrite <- (map_id works) at 2. apply map_ext_in. intros w I. apply counted_nil.
    rewrite Forall_forall in F. apply F. by apply list_elem_of_In.
  - rewrite IH by (rewrite Forall_map; eapply Forall_impl; [exact F|]; intros w; apply countIn_ok).
    rewrite map_map. apply map_ext_in. intros w I. symmetry. apply counted_step.
    rewrite Forall_forall in F. apply F. by apply list_elem_of_In.
Qed.

(** The order in which the events are added does not matter. *)
Lemma add64_swap a b c : add64 (add64 a b) c = add64 (add64 a c) b.
Proof. apply eqm64_wrap. rewrite !add64_eqm. by replace (a + b + c) with (a + c + b) by lia. Qed.

Lemma addEvent_swap e1 e2 a :
  addEvent active keepAll e1 (addEvent active keepAll e2 a) = addEvent active keepAll e2 (addEvent active keepAll e1 a).
Proof.
  unfold addEvent. cbn [acUsage acPricing]. f_equal.
  - unfold addUsage. cbn. destruct (evFailed e1), (evFailed e2); f_equal; apply add64_swap.
  - set (k1 := pricingKey active keepAll e1). set (k2 := pricingKey active keepAll e2).
    destruct (decide (k1 = k2)) as [E|N].
    + rewrite E, !lookup_insert_eq, !insert_insert_eq. cbn. f_equal. unfold addTokens. cbn. f_equal; apply add64_swap.
    + rewrite !lookup_insert_ne by done. by apply insert_insert_ne.
Qed.

Lemma tally_perm a l1 l2 : l1 ≡ₚ l2 -> tally active keepAll a l1 = tally active keepAll a l2.
Proof.
  intros P. revert a. induction P as [|e l1 l2 P IH|e1 e2 l|l1 l2 l3 P1 IH1 P2 IH2]; intros a; [done|apply IH| |by rewrite IH1].
  cbn. by rewrite addEvent_swap.
Qed.

Lemma filter_perm (p : UsageEvent -> bool) l1 l2 : l1 ≡ₚ l2 -> List.filter p l1 ≡ₚ List.filter p l2.
Proof.
  induction 1 as [|e l1 l2 P IH|e1 e2 l|l1 l2 l3 P1 IH1 P2 IH2]; cbn; [done| | |by etrans].
  - destruct (p e); [by constructor|done].
  - destruct (p e1), (p e2); try done. apply perm_swap.
Qed.
End Reference.

(** ** The order of the rows *)

Section Order.
Context (local : Location).

Lemma eventBefore_asymm a b : eventBefore local a b = true -> eventBefore local b a = false.
Proof.
  unfold eventBefore. set (ta := FormatStorageTime local (evTimestamp a)). set (tb := FormatStorageTime local (evTimestamp b)).
  destruct (string_lt ta tb) eqn:A; cbn.
  - intros _. destruct (string_lt tb ta) eqn:B; [|done]. pose proof (string_lt_trans _ _ _ A B) as C. by rewrite string_lt_irrefl in C.
  - destruct (string_lt tb ta); cbn; [done|]. lia.
Qed.

Lemma eventBefore_cotrans a b c : eventBefore local b a = false -> eventBefore local c b = false -> eventBefore local c a = false.
Proof.
  unfold eventBefore. set (ta := FormatStorageTime local (evTimestamp a)). set (tb := FormatStorageTime local (evTimestamp b)).
  set (tc := FormatStorageTime local (evTimestamp c)).
  destruct (string_lt_total ta tb) as [A|[A|A]]; [| |by rewrite A].
  - destruct (string_lt_total tb tc) as [B|[B|B]]; [| |by rewrite B].
    + intros _ _. pose proof (string_lt_trans _ _ _ A B) as C. rewrite C.
      destruct (string_lt tc ta) eqn:D; [|done]. pose proof (string_lt_trans _ _ _ C D) as F. by rewrite string_lt_irrefl in F.
    + rewrite <- B, A. destruct (string_lt tb ta) eqn:D; [|done]. pose proof (string_lt_trans _ _ _ A D) as F. by rewrite string_lt_irrefl in F.
  - rewrite <- A. destruct (string_lt_total ta tc) as [B|[B|B]]; [| |by rewrite B].
    + rewrite B. destruct (string_lt tc ta) eqn:D; [|done]. pose proof (string_lt_trans _ _ _ B D) as F. by rewrite string_lt_irrefl in F.
    + rewrite <- B, string_lt_irrefl. cbn. lia.
Qed.

(** Where the texts order like the instants, the rows come in the order of the instants. *)
Lemma rows_sorted (P : Time -> Prop) events :
  (forall a b, P a -> P b -> string_lt (FormatStorageTime local a) (FormatStorageTime local b) = (a <? b)) ->
  (forall e, e ∈ events -> P (evTimestamp e)) ->
  StronglySorted (fun a b => evTimestamp a <= evTimestamp b) (stableSort (eventBefore local) events).
Proof.
  intros T Pe.
  pose proof (stableSort_sorted (eventBefore local) eventBefore_asymm eventBefore_cotrans events) as S.
  assert (forall e, e ∈ stableSort (eventBefore local) events -> P (evTimestamp e)) as Ps.
  { intros e I. apply Pe. by apply elem_of_stableSort in I. }
  revert S Ps. generalize (stableSort (eventBefore local) events). induction 1 as [|e l S IH All]; intros Ps; [constructor|].
  constructor; [apply IH; intros e' I; apply Ps; by right|].
  rewrite Forall_forall in *. intros e' I. specialize (All e' I). unfold eventBefore in All.
  rewrite T in All by (apply Ps; by (left || right)). lia.
Qed.
End Order.

(** ** Periods *)

(** Two periods have no instant in common. *)
Definition apart (p1 p2 : Period) : Prop := prEnd p1 <= prStart p2 \/ prEnd p2 <= prStart p1.

(** The periods of the cycles gone through so far; the second part is the earliest start of
    them. *)
Record periods_ok (cycles : list QuotaCycle) (s : gmap Z Period * Time) : Prop := {
  pd_later : if IsZero s.2 then cycles = []
             else (exists c, c ∈ cycles /\ s.2 = qcWindowStartedAt c) /\ forall c, c ∈ cycles -> s.2 <= qcWindowStartedAt c;
  pd_from : forall id p, s.1 !! id = Some p ->
    exists c, c ∈ cycles /\ id = qcID c /\ prStart p = qcWindowStartedAt c /\ prEnd p <= qcResetAt c /\ prCurrent p = false;
  pd_end : forall id p, s.1 !! id = Some p -> exists c, c ∈ cycles /\ (prEnd p = qcResetAt c \/ prEnd p = qcWindowStartedAt c);
  pd_apart : forall i j p q, i <> j -> s.1 !! i = Some p -> s.1 !! j = Some q -> apart p q;
}.

Lemma addPeriod_ok c done_ s :
  qcWindowStartedAt c <> zero_time -> periods_ok done_ s -> periods_ok (c :: done_) (addPeriod s c).
Proof.
  intros Nz [Later From End_ Apart]. destruct s as [periods later]. cbn [fst snd] in *. unfold addPeriod.
  set (periodEnd := if negb (IsZero later) && (later <? qcResetAt c) then later else qcResetAt c).
  assert (New : forall id p, periods !! id = Some p -> periodEnd <= prStart p).
  { intros id p H. destruct (From _ _ H) as (c' & I & _ & -> & _). unfold periodEnd.
    destruct (IsZero later); cbn; [by rewrite Later in I; apply not_elem_of_nil in I|].
    destruct Later as [_ Min]. specialize (Min c' I). destruct (later <? qcResetAt c) eqn:L; bool_split; lia. }
  assert (Mono : forall id p, periods !! id = Some p -> exists c', c' ∈ c :: done_ /\ (prEnd p = qcResetAt c' \/ prEnd p = qcWindowStartedAt c')).
  { intros id p H. destruct (End_ _ _ H) as (c' & I & R). exists c'. split; [by right|done]. }
  assert (Bound : periodEnd <= qcResetAt c).
  { unfold periodEnd. destruct (IsZero later); cbn; [lia|]. destruct (later <? qcResetAt c) eqn:L; bool_split; lia. }
  split; cbn [fst snd].
  - destruct (IsZero later) eqn:Z; cbn [orb].
    + unfold IsZero. rewrite (proj2 (Z.eqb_neq _ _)) by done. split; [exists c; split; [left|done]|].
      intros c' [->|I]%elem_of_cons; [lia|]. by rewrite Later in I; apply not_elem_of_nil in I.
    + destruct Later as [(c0 & I0 & E0) Min]. destruct (qcWindowStartedAt c <? later) eqn:L; bool_split.
      * unfold IsZero. rewrite (proj2 (Z.eqb_neq _ _)) by done. split; [exists c; split; [left|done]|].
        intros c' [->|I]%elem_of_cons; [lia|]. specialize (Min c' I). lia.
      * rewrite Z. split; [exists c0; split; [by right|done]|]. intros c' [->|I]%elem_of_cons; [lia|by apply Min].
  - intros id p [[<- <-]|[N H]]%lookup_insert_Some.
    + exists c. cbn. split; [left|]. by split_and!.
    + destruct (From _ _ H) as (c' & I & R). exists c'. split; [by right|done].
  - intros id p [[<- <-]|[N H]]%lookup_insert_Some; [|by eapply Mono]. cbn. unfold periodEnd.
    destruct (IsZero later); cbn; [exists c; split; [left|by left]|].
    destruct (later <? qcResetAt c); [|exists c; split; [left|by left]].
    destruct Later as [(c0 & I0 & ->) _]. exists c0. split; [by right|by right].
  - intros i j p q N [[<- <-]|[N1 H1]]%lookup_insert_Some [[<- <-]|[N2 H2]]%lookup_insert_Some; [done| | |by eapply (Apart i j)].
    + left. by eapply New.
    + right. by eapply New.
Qed.

Lemma periods_all (l done_ : list QuotaCycle) s :
  Forall (fun c => qcWindowStartedAt c <> zero_time) l -> periods_ok done_ s -> periods_ok (rev l ++ done_) (foldl addPeriod s l).
Proof.
  intros F. revert done_ s. induction F as [|c l Nz F IH]; intros done_ s H; [done|].
  cbn [foldl rev]. rewrite <- app_assoc. apply IH. cbn. by apply addPeriod_ok.
Qed.

(** Whatever the cycles, their effective periods have no instant in common, begin where the
    window of the cycle does, and end no later than it; the current one holds [now]. *)
Lemma periods_spec (cycles : list QuotaCycle) (currentCycleID : Z) (now : Time) :
  Forall (fun c => qcWindowStartedAt c <> zero_time) cycles ->
  let periods := buildCodexQuotaEfficiencyCyclePeriods cycles currentCycleID now in
  (forall id p, periods !! id = Some p ->
     (exists c, c ∈ cycles /\ id = qcID c /\ prStart p = qcWindowStartedAt c /\ prEnd p <= qcResetAt c) /\
     (exists c, c ∈ cycles /\ (prEnd p = qcResetAt c \/ prEnd p = qcWindowStartedAt c)) /\
     (prCurrent p = true -> id = currentCycleID /\ prStart p <= now < prEnd p)) /\
  (forall i j p q, i <> j -> periods !! i = Some p -> periods !! j = Some q -> apart p q).
Proof.
  intros F. cbn zeta. unfold buildCodexQuotaEfficiencyCyclePeriods.
  pose proof (stableSort_perm observedBefore cycles) as Perm. set (ordered := stableSort observedBefore cycles) in *.
  assert (P : periods_ok (rev (rev ordered) ++ []) (foldl addPeriod (∅, zero_time) (rev ordered))).
  { apply periods_all.
    - apply Forall_rev. rewrite Forall_forall in *. intros c I. apply F. by rewrite <- Perm.
    - by split. }
  rewrite rev_involutive, app_nil_r in P. destruct P as [_ From End_ Apart].
  set (periods := (foldl addPeriod (∅, zero_time) (rev ordered)).1) in *.
  assert (Base : forall id p, periods !! id = Some p ->
     (exists c, c ∈ cycles /\ id = qcID c /\ prStart p = qcWindowStartedAt c /\ prEnd p <= qcResetAt c) /\
     (exists c, c ∈ cycles /\ (prEnd p = qcResetAt c \/ prEnd p = qcWindowStartedAt c)) /\ prCurrent p = false).
  { intros id p H. destruct (From _ _ H) as (c & I & -> & S & E & C). destruct (End_ _ _ H) as (c' & I' & E').
    rewrite Perm in I, I'. split_and!; [by exists c|by exists c'|done]. }
  destruct (currentCycleID =? 0).
  { split; [|done]. intros id p H. destruct (Base _ _ H) as (B1 & B2 & C). split_and!; [done..|congruence]. }
  destruct (periods !! currentCycleID) as [p0|] eqn:P0; cycle 1.
  { split; [|done]. intros id p H. destruct (Base _ _ H) as (B1 & B2 & C). split_and!; [done..|congruence]. }
  destruct (Base _ _ P0) as (B1 & B2 & C). split.
  - intros id p [[<- <-]|[N H]]%lookup_insert_Some; cbn.
    + split_and!; [done..|]. intros ?. split; [done|]. lia.
    + destruct (Base _ _ H) as (B1' & B2' & C'). split_and!; [done..|congruence].
  - intros i j p q N [[<- <-]|[N1 H1]]%lookup_insert_Some [[<- <-]|[N2 H2]]%lookup_insert_Some;
      [done| | |by eapply (Apart i j)]; unfold apart; cbn; [eapply (Apart currentCycleID j)|eapply (Apart i currentCycleID)]; done.
Qed.
